(* ===== verification/_CoqProject ===== *)
-Q . S2P
Prelude.v
Io.v
Base64.v
GoFloat.v
Media.v
Timeline.v
Catalog.v
Loc.v
Nalu.v
NaluProps.v
Av1.v
Av1Props.v
InitTrack.v
InitTrackProps.v
Cc608.v
Chunk.v
ChunkProps.v
Subtitle.v
AssetOps.v
AssetProps.v
CatalogGen.v
Drm.v
Publisher.v
CencMux.v
Publication.v
PublisherProps.v
TrackProps.v
HandlerProps.v
Playback.v
PlaybackFacts.v
PlaybackProps.v
Subscriber.v
SubscriberProps.v
UpdateProps.v
CencProps.v
SubscriberFaults.v
Cmd.v
Protocol.v
Varint.v
PacketHeader.v
PacketHeaderProps.v
AckFrame.v
AckFrameProps.v
Frames.v
FramesProps.v
AckTracker.v
AckTrackerProps.v
FrameSorter.v
FrameSorterFacts.v
FrameSorterPush.v
FrameSorterProps.v
FlowControl.v
FlowControlFacts.v
FlowControlProps.v
ReceiveStream.v
ReceiveStreamFacts.v
ReceiveStreamProps.v
SendStream.v
SendStreamFacts.v
SendStreamMachine.v
SendStreamFates.v
SendStreamData.v
SendStreamProps.v
StreamTransfer.v
SentHistory.v
Rtt.v
Congestion.v
Ecn.v
SentHandler.v
SentHistoryFacts.v
SentHandlerFacts.v
SentHandlerSteps.v
SentHandlerAcks.v
SentHandlerReceive.v
SentHandlerTimer.v
SentHandlerSend.v
SentHandlerOps.v
SentHandlerProps.v
