(* ===== verification/Prelude.v ===== *)
(** * moqlivemock: a verified model of the live publisher, its subscriber, and the transport below

    moqlivemock is a media test service for MOQ Transport.  [mlmpub] loops a
    short asset for ever, aligned to the wall clock, and publishes it in
    several packagings; [mlmsub] subscribes, checks, multiplexes, decrypts or
    plays what it gets.  Both run on a fork of quic-go kept under
    [src/deps/quic-go].  This development translates that Go code to functions
    and programs of Rocq, function by function, and proves what makes it
    correct.

    ** The parts of the program, and the files that model them

    Foundations.
    - [Prelude] (this file): Go's outcomes (a value, an error, a panic),
      machine integers with their wrap-around, slices, big-endian words,
      strings; the tactics and hint databases the files share.
    - [Io]: goroutines.  A goroutine is an interaction tree whose events are
      its calls of the clock, the context, the session and the outputs, and
      whose result is the outcome of the Go function.  [Io] has the sequencing
      and loops the programs are written with, the traces of a program in an
      environment, and a program logic ([keeps]) that shows every trace of a
      program, in every environment, to follow a protocol given as an
      automaton on events.  [tame] does the same for programs without loops,
      [runs] is for runs that end.
    - [GoFloat]: [float64] as executable IEEE-754 arithmetic, and the products
      that need no rounding.  [Base64]: [encoding/base64] and its round trips.
    - [Media]: the records of assets, tracks, samples, codec and DRM data.

    From media files to a catalog ([internal/]).
    - [Nalu], [Av1], [InitTrack]: [media.go] and [InitContentTrack] of
      [asset.go], which take a decoded file apart; [NaluProps], [Av1Props],
      [InitTrackProps].
    - [AssetOps], [Drm], [Catalog], [CatalogGen]: [asset.go], [drm.go],
      [catalog.go]: loading a directory, protected copies of tracks, DRM
      configuration and the ClearKey server, catalogs and their lookups.
      [AssetProps]: which key and IV the tracks of a loaded asset hold.

    From the wall clock to objects.
    - [Timeline]: [moqgroup.go] and [CalcSample], [setLoopDuration],
      [validateAV1SVCGOP] of [asset.go]: which sample is in which group at
      which time.
    - [Chunk] and [ChunkProps]: CMAF and LOCMAF chunks, the groups made of
      them, encryption with the IV the track carries along.  What the objects
      of a group are is a relation there, and the code computes it.
    - [Loc]: LOC objects and their frame marking, at both ends.
    - [Subtitle], [Cc608]: generated subtitles and captions.
    - [Publisher]: [internal/pub]: the session handlers, and one goroutine per
      subscription.  [Publication] is the protocol such a goroutine promises,
      as an automaton; [PublisherProps], [TrackProps] prove the goroutines to
      implement it and say what their objects are; [HandlerProps] is about the
      handlers.

    The subscriber ([internal/sub]).
    - [CencMux], [Subscriber]: outputs, multiplexing, decryption; the session,
      the three ways to get a catalog, track selection, reading goroutines.
    - [SubscriberProps], [UpdateProps], [CencProps]: which tracks it subscribes
      to, how it follows catalog updates, how init data and keys get to it.
      [SubscriberFaults]: runs that end in a panic.
    - [Playback], [PlaybackFacts], [PlaybackProps]: [playback.go], the
      simulated player of spatial layers, a state machine driven by events.

    The programs: [Cmd], the options of [cmd/mlmpub] and [cmd/mlmsub].

    The transport ([deps/quic-go]).
    - [Varint]: [quicvarint].  [Protocol]: packet numbers, stream IDs,
      versions, connection IDs.  [PacketHeader], [PacketHeaderProps]: long and
      short headers, version negotiation.
    - [AckFrame], [AckFrameProps]: ACK frames, with the receive timestamps the
      fork adds.  [Frames], [FramesProps]: the other frames, the frame parser,
      and the loop of [connection.go] that handles the frames of a packet.
    - [AckTracker], [AckTrackerProps]: which packets were received, when they
      are acknowledged, and the ring of their arrival times.
    - [FrameSorter], [FrameSorterFacts], [FrameSorterPush],
      [FrameSorterProps]: the frame sorter, which puts the frames of a stream
      in order.
    - [FlowControl], [FlowControlFacts], [FlowControlProps]: the controllers
      of streams and of the connection; two endpoints that keep to them.
    - [ReceiveStream], [ReceiveStreamFacts], [ReceiveStreamProps]: a sorter
      and a controller behind [Read], [Peek] and [CancelRead], and a machine
      of one reader and the network.
    - [SendStream] and its [SendStreamFacts]: a stream that is written to.
      [SendStreamMachine]: a machine of one writer, the packer and the fates
      of the frames, with its invariant; [SendStreamFates] (acknowledgements,
      losses, resets, closing) and [SendStreamData] (writing and popping) keep
      it, [SendStreamProps] draws the conclusions.
    - [StreamTransfer]: a sender, a network and a receiver, from [Write] to
      [Read].
    - Loss recovery ([internal/ackhandler], [internal/utils],
      [internal/congestion]).  [SentHistory] is the list of the packets that
      are out, with its holes, and the list of those given up as lost; [Rtt]
      the round-trip times, with their arithmetic in [float32] and [float64];
      [Congestion] the NewReno sender, hybrid slow start and the pacer; [Ecn]
      the validation of ECN.  [SentHandler] is
      [sent_packet_handler.go], every operation of it, on these four.
      [SentHistoryFacts] and [SentHandlerFacts] have the invariant of the
      history and of the handler; [SentHandlerSteps], [SentHandlerAcks],
      [SentHandlerReceive], [SentHandlerTimer] and [SentHandlerSend] show what
      each operation does to it (losing a packet, acknowledging one, an ACK
      frame, the alarm and the probes, sending); [SentHandlerOps] has dropping
      of packets and the operations of a connection; [SentHandlerProps] is the
      machine of a connection that sends and receives, and what holds of all
      its runs.

    ** How the model reads

    A function keeps its name.  A Go value of a fixed width is a [Z], and
    [u64], [u32], [i64] stand where the code can leave the width.  Fallible
    code returns an [outcome]; an index out of range, a nil pointer and a
    division by zero are [Panic].  A method that changes its receiver returns
    the new receiver.  What the code calls outside of the repository (mp4ff,
    go-608, locmaf, moqtransport, livesim2) is a class of operations with the
    few laws the code relies on ([Mp4Types], [NaluLib], [Av1Lib], [CcLib],
    [FragLib], [SubLib], [CatLib], [DrmLib], [SubMp4]); each property that
    depends on such a class has a witness with a concrete instance.

    Places with shared mutable state that matters have it in the model.  HEVC samples are
    rewritten in the array they are read from: [Nalu] has a store of arrays.
    The subscriber's goroutines replace a catalog that others read: reading
    and writing it are events.  The ACK frame that is handed out is the one
    the tracker remembers: [AckTracker] keeps it as [lastAck], and truncating
    it changes the tracker.  The frame sorter keeps received buffers and their
    callbacks: [FrameSorter] records which were called.  The connection's flow
    controller is shared by its streams: it is passed along, and the machines
    let others change it between two steps.  A [Read] or [Write] that waits
    gives up the mutex: it is one function up to the wait and another from
    there on, and anything can happen in between.  The handler of sent packets
    calls the handlers of its frames ([OnAcked], [OnLost]): a handler is a
    number, and the calls are recorded in their order in [calls].  The
    randomness of skipped packet numbers is a parameter, [rand].

    ** Fuel and bounds

    Goroutines that never end are loops of interaction trees and need no
    fuel.  Other loops without a structural bound run with fuel, and a theorem
    says it is enough: the depth of [dependencyOrder] is the number of tracks,
    [GenMoQGroup] runs once per sample of a group, the loops of the player
    once per pending unit, the parsers of ACK ranges, of frame types and of
    payloads once per byte, the loops over the queue of the frame sorter once
    per entry, [Read] once per byte it was asked for.

    The theorems on loss recovery are about runs that are careful: the size of
    a packet is at most 2^20, times lie between 1 and 2^60 nanoseconds, packet
    numbers stay below 2^61, so that 64-bit sums of them do not wrap.  The
    theorems on send streams are about fewer than 2^61 operations on streams
    whose reliable size is left alone once they are reset, see [careful] of
    [SendStreamMachine]; the code does not promise the latter.  Every such
    hypothesis has a run that meets it.

    ** What the theorems say

    - Time: groups partition the samples, their boundaries do not drift, a
      sample is where its time says, and a publisher starts in the future.
    - Publishing: in every environment a goroutine publishes the objects of
      the groups after the current one, in order, each once, none early.
    - Content: nothing is lost when samples are rewritten, split into layers,
      cut into chunks, converted to AnnexB, or given captions.
    - Catalogs: dependency order, resolvable tracks, init data and keys reach
      the subscriber.
    - Subscribing: exactly the selected tracks, dependencies first; catalog
      updates in order, each once.
    - Playback: no panic, decodable units in order at their deadline, no lost
      wake-up, progress.
    - Acknowledgements: the history is a set, every packet is acknowledged in
      time, frames parse back and fit, and the arrival times a peer decodes
      are those of packets that arrived.
    - Packets: headers parse back, packet numbers are found again, frames have
      the length they announce and parse back, every payload is handled.
    - Streams: bytes are reassembled whatever the order of their frames; an
      endpoint that keeps to its windows is never accused, and one that is
      blocked is released; what is read is the stream, no reader sleeps
      through what it waits for, a stream that is over gives its credit back.
      Frames carry what was written, a stream is completed when all of it is
      acknowledged, what is left to send is announced, and what is read at one
      end is what was written at the other.
    - Loss recovery: every frame that is given to the handler is acknowledged
      once, lost once, dropped with its keys or still out; an ACK frame calls
      the handlers of exactly the packets it names, and of the path probes it
      names that still have a place in the history; a packet is given up
      exactly when it is late or the largest acknowledged number is three
      above it without the skipped ones, and the time is set when the first
      one that is left will be; while something is out that needs an
      acknowledgement, an alarm is set.
    - Errors: where the code does not do what it means to, a theorem shows it.

    ** Not modelled

    Files, sockets, TLS, HTTP and flag parsing; the metrics file of the player;
    the interop test client and the content generator, which only call
    libraries.  Of quic-go: packet packing, the framer and the retransmission
    queues, the streams map, transport parameters, connection and server,
    sockets and transports, logging; of loss recovery the pool of packets and
    the Cubic window, which the sender is never configured with.  They are TLS and sockets, goroutines of a vendored
    library, or what the fork leaves as it is; the files modelled are those it
    changes, those below them, and the way of a byte from [Write] to [Read]. *)
From Stdlib Require Export ZArith Lia.
From stdpp Require Export base tactics list gmap sets strings sorting pretty.

Local Open Scope Z_scope.

(** ** Go outcomes

    A Go call returns values, returns a non-nil [error], or panics.
    [Ret], [Err] and [Panic] keep the three apart.  [Errorf] keeps the
    format string of the [fmt.Errorf] that made the error and its string
    arguments; [Wrapf] is an error that wraps another one with [%w]. *)
Inductive goerror : Type :=
  | Errorf (format : string) (args : list string)
  | Wrapf (format : string) (args : list string) (inner : goerror).

Inductive outcome (A : Type) : Type :=
  | Ret (a : A)
  | Err (e : goerror)
  | Panic.
Arguments Ret {A} a.
Arguments Err {A} e.
Arguments Panic {A}.

Definition obind {A B : Type} (m : outcome A) (k : A -> outcome B) : outcome B :=
  match m with Ret a => k a | Err e => Err e | Panic => Panic end.

(** [if err != nil { return fmt.Errorf(f, args, err) }] *)
Definition owrap {A : Type} (f : string) (args : list string) (m : outcome A) : outcome A :=
  match m with Ret a => Ret a | Err e => Err (Wrapf f args e) | Panic => Panic end.

Definition errorf {A : Type} (f : string) : outcome A := Err (Errorf f []).

Declare Scope go_scope.
Delimit Scope go_scope with go.
Notation "'let!' x ':=' m 'in' k" := (obind m (fun x => k))
  (at level 10, x name, m at level 100, k at level 200) : go_scope.
Notation "'let!' ' x ':=' m 'in' k" := (obind m (fun x => k))
  (at level 10, x strict pattern, m at level 100, k at level 200) : go_scope.

Lemma obind_Ret {A B : Type} (m : outcome A) (k : A -> outcome B) b :
  obind m k = Ret b -> exists a, m = Ret a /\ k a = Ret b.
Proof. destruct m; naive_solver. Qed.

Lemma obind_Ret_l {A B : Type} (a : A) (k : A -> outcome B) : obind (Ret a) k = k a.
Proof. done. Qed.

Lemma owrap_Ret {A : Type} f args (m : outcome A) a : owrap f args m = Ret a -> m = Ret a.
Proof. destruct m; naive_solver. Qed.

(** A [for] loop over the elements of [l] that carries [s] and can leave the
    function with an error or a panic. *)
Fixpoint ofold {A S : Type} (f : S -> A -> outcome S) (l : list A) (s : S) : outcome S :=
  match l with [] => Ret s | a :: l => obind (f s a) (ofold f l) end.

Lemma ofold_app {A S : Type} (f : S -> A -> outcome S) l k s :
  ofold f (l ++ k) s = obind (ofold f l s) (ofold f k).
Proof. revert s. induction l as [|a l IH]; intros s; [done|]. cbn. destruct (f s a); cbn; auto. Qed.

Definition is_panic {A : Type} (m : outcome A) : bool :=
  match m with Panic => true | _ => false end.

Create HintDb go discriminated.
#[export] Hint Constants Transparent : go.

(** [simplify_out] opens every hypothesis that says a chain of [let!]
    returned a value. *)
Ltac simplify_out :=
  repeat match goal with
  | H : obind ?m _ = Ret _ |- _ =>
      let a := fresh "a" in let Hm := fresh "Hm" in
      apply obind_Ret in H; destruct H as (a & Hm & H)
  | H : owrap _ _ _ = Ret _ |- _ => apply owrap_Ret in H
  | H : Ret _ = Ret _ |- _ => injection H as H; subst
  | H : Err _ = Ret _ |- _ => discriminate H
  | H : Panic = Ret _ |- _ => discriminate H
  | H : (_, _) = (_, _) |- _ => injection H as H; subst
  end.

(** Splits the pairs that the functions of a chain returned. *)
Ltac destruct_pairs := repeat match goal with x : (_ * _)%type |- _ => destruct x end.
Ltac open_chain := do 4 (destruct_pairs; simplify_out).

(** [lia] over goals that also divide by or reduce modulo constants. *)
Ltac dlia := Z.div_mod_to_equations; lia.
Ltac dnia := Z.div_mod_to_equations; nia.

(** ** Machine integers

    A Go integer is a [Z]; every operation that can leave the type's range is
    followed by the conversion to that type.  [int] and [int64] are 64-bit
    two's complement. *)
Definition wrapu (w z : Z) : Z := z mod 2 ^ w.
Definition u8 (z : Z) : Z := wrapu 8 z.
Definition u16 (z : Z) : Z := wrapu 16 z.
Definition u32 (z : Z) : Z := wrapu 32 z.
Definition u64 (z : Z) : Z := wrapu 64 z.
Definition i64 (z : Z) : Z := wrapu 64 (z + 2 ^ 63) - 2 ^ 63.

Definition maxInt64 : Z := 2 ^ 63 - 1.
Definition minInt64 : Z := - 2 ^ 63.

Definition is_u (w z : Z) : Prop := 0 <= z < 2 ^ w.

Lemma wrapu_range w z : 0 <= w -> 0 <= wrapu w z < 2 ^ w.
Proof. intros. apply Z.mod_pos_bound. by apply Z.pow_pos_nonneg. Qed.

Lemma wrapu_small w z : 0 <= z < 2 ^ w -> wrapu w z = z.
Proof. apply Z.mod_small. Qed.

Lemma u64_range z : 0 <= u64 z < 2 ^ 64.
Proof. by apply wrapu_range. Qed.
Lemma u32_range z : 0 <= u32 z < 2 ^ 32.
Proof. by apply wrapu_range. Qed.
Lemma u8_range z : 0 <= u8 z < 2 ^ 8.
Proof. by apply wrapu_range. Qed.
Lemma u64_small z : 0 <= z < 2 ^ 64 -> u64 z = z.
Proof. apply wrapu_small. Qed.
Lemma u32_small z : 0 <= z < 2 ^ 32 -> u32 z = z.
Proof. apply wrapu_small. Qed.
Lemma u16_small z : 0 <= z < 2 ^ 16 -> u16 z = z.
Proof. apply wrapu_small. Qed.
Lemma u8_small z : 0 <= z < 2 ^ 8 -> u8 z = z.
Proof. apply wrapu_small. Qed.
Lemma i64_small z : - 2 ^ 63 <= z < 2 ^ 63 -> i64 z = z.
Proof. intros. unfold i64. rewrite wrapu_small; lia. Qed.
Lemma i64_range z : - 2 ^ 63 <= i64 z < 2 ^ 63.
Proof. unfold i64. pose proof (wrapu_range 64 (z + 2 ^ 63)). lia. Qed.

Lemma u64_add_l a b : u64 (u64 a + b) = u64 (a + b).
Proof. apply Z.add_mod_idemp_l. lia. Qed.
Lemma u64_add_r a b : u64 (a + u64 b) = u64 (a + b).
Proof. apply Z.add_mod_idemp_r. lia. Qed.
Lemma u64_mul_l a b : u64 (u64 a * b) = u64 (a * b).
Proof. apply Z.mul_mod_idemp_l. lia. Qed.
Lemma u64_mul_r a b : u64 (a * u64 b) = u64 (a * b).
Proof. apply Z.mul_mod_idemp_r. lia. Qed.
Lemma u64_idem a : u64 (u64 a) = u64 a.
Proof. apply Z.mod_mod. lia. Qed.

Create Rewrite HintDb wrap.
#[export] Hint Rewrite u64_add_l u64_add_r u64_mul_l u64_mul_r u64_idem : wrap.

#[export] Hint Resolve u64_range u32_range u8_range i64_range : go.

(** Go's [/] and [%] on unsigned integers: division by zero panics. *)
Definition udiv (a b : Z) : outcome Z := if b =? 0 then Panic else Ret (a / b).
Definition umod (a b : Z) : outcome Z := if b =? 0 then Panic else Ret (a mod b).

Lemma udiv_Ret a b : b <> 0 -> udiv a b = Ret (a / b).
Proof. intros. unfold udiv. by rewrite (proj2 (Z.eqb_neq b 0)). Qed.
Lemma umod_Ret a b : b <> 0 -> umod a b = Ret (a mod b).
Proof. intros. unfold umod. by rewrite (proj2 (Z.eqb_neq b 0)). Qed.

(** [ceil_div a b] is what the Go idiom "divide, and add one when there is a
    remainder" computes. *)
Definition ceil_div (a b : Z) : Z := (a + b - 1) / b.

Lemma ceil_div_alt a b : 0 < b ->
  (a / b + if a mod b =? 0 then 0 else 1) = ceil_div a b.
Proof.
  intros Hb. unfold ceil_div. pose proof (Z.div_mod a b). pose proof (Z.mod_pos_bound a b).
  destruct (Z.eqb_spec (a mod b) 0).
  - apply Z.div_unique with (r := b - 1); lia.
  - apply Z.div_unique with (r := a mod b - 1); lia.
Qed.

Lemma ceil_div_spec a b : 0 < b -> (ceil_div a b - 1) * b < a <= ceil_div a b * b.
Proof.
  intros Hb. unfold ceil_div. pose proof (Z.div_mod (a + b - 1) b).
  pose proof (Z.mod_pos_bound (a + b - 1) b). nia.
Qed.

Lemma ceil_div_unique a b q : 0 < b -> (q - 1) * b < a <= q * b -> ceil_div a b = q.
Proof. intros Hb Hq. pose proof (ceil_div_spec a b Hb). nia. Qed.

Lemma ceil_div_mono a a' b : 0 < b -> a <= a' -> ceil_div a b <= ceil_div a' b.
Proof. intros. apply Z.div_le_mono; lia. Qed.

Lemma ceil_div_lt_iff a b k : 0 < b -> k < ceil_div a b <-> k * b < a.
Proof. intros Hb. pose proof (ceil_div_spec a b Hb). nia. Qed.

Lemma ceil_div_le_iff a b k : 0 < b -> ceil_div a b <= k <-> a <= k * b.
Proof. intros Hb. pose proof (ceil_div_spec a b Hb). nia. Qed.

(** ** Byte slices

    A byte slice is the list of its bytes, each a [Z] below 256.  [len] is
    Go's built-in. *)
Abbreviation bytes := (list Z).
Definition len {A : Type} (l : list A) : Z := Z.of_nat (length l).

Lemma len_app {A : Type} (l k : list A) : len (l ++ k) = len l + len k.
Proof. unfold len. rewrite length_app. lia. Qed.
Lemma len_nonneg {A : Type} (l : list A) : 0 <= len l.
Proof. unfold len. lia. Qed.
#[export] Hint Resolve len_nonneg : go.
Lemma len_cons {A : Type} (a : A) l : len (a :: l) = 1 + len l.
Proof. unfold len. cbn [length]. lia. Qed.

(** Appends to the right, without empty parts *)
Ltac flat_app := repeat (progress (rewrite <- ?app_assoc, ?app_nil_r; cbn [app])).

Definition is_byte (b : Z) : Prop := 0 <= b < 256.

(** [l[i]]: an index out of range panics. *)
Definition index {A : Type} (l : list A) (i : Z) : outcome A :=
  if i <? 0 then Panic else
  match l !! Z.to_nat i with Some a => Ret a | None => Panic end.

Lemma index_Ret {A : Type} (l : list A) i a :
  index l i = Ret a <-> 0 <= i /\ l !! Z.to_nat i = Some a.
Proof.
  unfold index. destruct (Z.ltb_spec i 0).
  - split; [done | lia].
  - destruct (l !! Z.to_nat i); naive_solver.
Qed.

Lemma index_in_range {A : Type} (l : list A) i : 0 <= i < len l -> exists a, index l i = Ret a.
Proof.
  intros [H0 H1]. unfold len in H1.
  destruct (lookup_lt_is_Some_2 l (Z.to_nat i)) as [a Ha]; [lia|].
  exists a. by apply index_Ret.
Qed.

Lemma index_out_of_range {A : Type} (l : list A) i : len l <= i -> index l i = Panic.
Proof.
  intros H. unfold index, len in *. destruct (i <? 0); [done|].
  rewrite lookup_ge_None_2; [done | lia].
Qed.

(** [l[i:j]] and [l[i:]]: bounds out of range panic. *)
Definition subslice {A : Type} (l : list A) (i j : Z) : outcome (list A) :=
  if (0 <=? i) && (i <=? j) && (j <=? len l)
  then Ret (take (Z.to_nat (j - i)) (drop (Z.to_nat i) l)) else Panic.
Definition slice_from {A : Type} (l : list A) (i : Z) : outcome (list A) := subslice l i (len l).

Lemma subslice_Ret {A : Type} (l : list A) i j : 0 <= i <= j -> j <= len l ->
  subslice l i j = Ret (take (Z.to_nat (j - i)) (drop (Z.to_nat i) l)).
Proof.
  intros. unfold subslice. by rewrite (proj2 (Z.leb_le 0 i)), (proj2 (Z.leb_le i j)), (proj2 (Z.leb_le j (len l))) by lia.
Qed.

Lemma slice_from_Ret {A : Type} (l : list A) i : 0 <= i <= len l -> slice_from l i = Ret (drop (Z.to_nat i) l).
Proof.
  intros. unfold slice_from. rewrite subslice_Ret by lia. f_equal. apply take_ge.
  unfold len in *. rewrite length_drop. lia.
Qed.

Lemma slice_from_app {A : Type} (l k : list A) n : n = len l -> slice_from (l ++ k) n = Ret k.
Proof.
  intros ->. pose proof (len_nonneg l). pose proof (len_nonneg k). rewrite slice_from_Ret by (rewrite len_app; lia).
  unfold len. by rewrite Nat2Z.id, drop_app_length.
Qed.

Lemma subslice_app {A : Type} (l k : list A) n : n = len l -> subslice (l ++ k) 0 n = Ret l.
Proof.
  intros ->. pose proof (len_nonneg l). pose proof (len_nonneg k). rewrite subslice_Ret by (rewrite ?len_app; lia).
  unfold len. by rewrite Z.sub_0_r, Nat2Z.id, drop_0, take_app_length.
Qed.

Lemma index_app {A : Type} (l : list A) a k n : n = len l -> index (l ++ a :: k) n = Ret a.
Proof.
  intros ->. apply index_Ret. split; [apply len_nonneg|]. unfold len. rewrite Nat2Z.id.
  by rewrite list_lookup_middle.
Qed.

Lemma index_0 {A : Type} (a : A) l : index (a :: l) 0 = Ret a.
Proof. done. Qed.

Lemma slice_from_app_cons {A : Type} (l : list A) a k n : n = len l + 1 -> slice_from (l ++ a :: k) n = Ret k.
Proof. intros ->. change (a :: k) with ([a] ++ k). rewrite app_assoc. apply slice_from_app. by rewrite len_app. Qed.

Lemma slice_from_1 {A : Type} (a : A) l : slice_from (a :: l) 1 = Ret l.
Proof. by apply (slice_from_app_cons []). Qed.

Lemma subslice_middle {A : Type} (l k r : list A) i j : i = len l -> j = len l + len k ->
  subslice (l ++ k ++ r) i j = Ret k.
Proof.
  intros -> ->. pose proof (len_nonneg l). pose proof (len_nonneg k). pose proof (len_nonneg r).
  rewrite subslice_Ret by (rewrite ?len_app; lia). unfold len. rewrite Nat2Z.id, drop_app_length.
  replace (Z.to_nat _) with (length k) by lia. by rewrite take_app_length.
Qed.

Lemma subslice_cut {A : Type} (l : list A) n : 0 <= n <= len l ->
  exists p r, subslice l 0 n = Ret p /\ slice_from l n = Ret r /\ l = p ++ r /\ len p = n.
Proof.
  intros Hn. rewrite subslice_Ret, slice_from_Ret by lia. eexists _, _. split; [done|]. split; [done|].
  rewrite Z.sub_0_r, drop_0. split; [by rewrite take_drop|]. unfold len in *. rewrite length_take. lia.
Qed.

(** What reads in range give, for elements that satisfy a predicate *)
Section total.
Context {A : Type} (P : A -> Prop).

Lemma index_total l i : Forall P l -> 0 <= i < len l -> exists x, index l i = Ret x /\ P x.
Proof.
  intros Hl Hi. destruct (index_in_range l i Hi) as [x Hx]. exists x. split; [done|].
  apply index_Ret in Hx as [_ Hx]. by apply (Forall_lookup_1 _ _ _ _ Hl Hx).
Qed.

Lemma subslice_total l i j : Forall P l -> 0 <= i <= j -> j <= len l ->
  exists s, subslice l i j = Ret s /\ Forall P s /\ len s = j - i.
Proof.
  intros Hl Hi Hj. rewrite subslice_Ret by done. eexists. split; [done|]. split.
  - by apply Forall_take, Forall_drop.
  - unfold len in *. rewrite length_take, length_drop. lia.
Qed.

Lemma slice_from_total l i : Forall P l -> 0 <= i <= len l ->
  exists s, slice_from l i = Ret s /\ Forall P s /\ len s = len l - i.
Proof. intros. by apply subslice_total; try lia. Qed.
End total.

(** [binary.BigEndian.PutUint32] and [binary.BigEndian.Uint32]. *)
Definition PutUint32 (v : Z) : bytes :=
  [u8 (Z.shiftr v 24); u8 (Z.shiftr v 16); u8 (Z.shiftr v 8); u8 v].

Definition Uint32 (b : bytes) : Z :=
  match b with
  | b0 :: b1 :: b2 :: b3 :: _ =>
      Z.lor b3 (Z.lor (Z.shiftl b2 8) (Z.lor (Z.shiftl b1 16) (Z.shiftl b0 24)))
  | _ => 0
  end.

Lemma lor_disjoint_add a b n : 0 <= n -> 0 <= a < 2 ^ n -> Z.lor a (Z.shiftl b n) = a + b * 2 ^ n.
Proof.
  intros Hn Ha. rewrite <- Z.shiftl_mul_pow2 by done.
  assert (Z.land a (Z.shiftl b n) = 0) as Hl.
  { apply Z.bits_inj'. intros k Hk. rewrite Z.land_spec, Z.bits_0, Z.shiftl_spec by done.
    destruct (Z.ltb_spec k n).
    - rewrite (Z.testbit_neg_r b) by lia. apply andb_false_r.
    - replace a with (a mod 2 ^ n) by (apply Z.mod_small; lia).
      rewrite Z.mod_pow2_bits_high by lia. done. }
  pose proof (Z.add_lor_land a (Z.shiftl b n)). lia.
Qed.

Lemma Uint32_sum b0 b1 b2 b3 rest :
  is_byte b0 -> is_byte b1 -> is_byte b2 -> is_byte b3 ->
  Uint32 (b0 :: b1 :: b2 :: b3 :: rest) = b3 + b2 * 2 ^ 8 + b1 * 2 ^ 16 + b0 * 2 ^ 24.
Proof.
  unfold is_byte. intros. cbn [Uint32].
  assert (Hs : forall a b n, 0 <= n -> Z.shiftl (Z.lor a (Z.shiftl b n)) 0 = Z.lor a (Z.shiftl b n)).
  { intros. by rewrite Z.shiftl_0_r. }
  replace (Z.shiftl b0 24) with (Z.shiftl (Z.shiftl b0 8) 16) by (by rewrite Z.shiftl_shiftl).
  rewrite <- Z.shiftl_lor, (lor_disjoint_add b1 b0 8) by lia.
  replace (Z.shiftl (b1 + b0 * 2 ^ 8) 16) with (Z.shiftl (Z.shiftl (b1 + b0 * 2 ^ 8) 8) 8)
    by (by rewrite Z.shiftl_shiftl).
  rewrite <- Z.shiftl_lor, (lor_disjoint_add b2 _ 8) by lia.
  rewrite lor_disjoint_add by lia. lia.
Qed.

Lemma PutUint32_bytes v : Forall is_byte (PutUint32 v).
Proof. unfold PutUint32. repeat constructor; apply u8_range. Qed.

Lemma PutUint32_length v : length (PutUint32 v) = 4%nat.
Proof. done. Qed.

Lemma Uint32_PutUint32 v rest : 0 <= v < 2 ^ 32 -> Uint32 (PutUint32 v ++ rest) = v.
Proof.
  intros Hv. unfold PutUint32. cbn [app].
  rewrite Uint32_sum by (apply u8_range).
  unfold u8, wrapu. rewrite !Z.shiftr_div_pow2 by lia. dlia.
Qed.

Lemma PutUint32_Uint32 b0 b1 b2 b3 rest :
  is_byte b0 -> is_byte b1 -> is_byte b2 -> is_byte b3 ->
  PutUint32 (Uint32 (b0 :: b1 :: b2 :: b3 :: rest)) = [b0; b1; b2; b3].
Proof.
  intros. rewrite Uint32_sum by done. unfold is_byte in *. unfold PutUint32, u8, wrapu.
  rewrite !Z.shiftr_div_pow2 by lia. repeat f_equal; dlia.
Qed.

Lemma Uint32_range b : Forall is_byte b -> 0 <= Uint32 b < 2 ^ 32.
Proof.
  intros Hb. destruct b as [|b0 [|b1 [|b2 [|b3 rest]]]]; try (cbn; lia).
  repeat match goal with H : Forall _ (_ :: _) |- _ => inversion_clear H end.
  rewrite Uint32_sum by done. unfold is_byte in *. lia.
Qed.

(** ** Strings *)
Definition HasPrefix (s prefix : string) : bool := String.prefix prefix s.

(** [strings.ToLower] on ASCII letters. *)
Definition lower_ascii (c : Ascii.ascii) : Ascii.ascii :=
  let n := Ascii.nat_of_ascii c in
  if ((65 <=? n) && (n <=? 90))%nat then Ascii.ascii_of_nat (n + 32) else c.
Fixpoint ToLower (s : string) : string :=
  match s with
  | EmptyString => EmptyString
  | String c s => String (lower_ascii c) (ToLower s)
  end.

(** [%02d] and [%03d] of a non-negative number *)
Definition pad2 (n : Z) : string := (if n <? 10 then "0" else "") +:+ pretty n.
Definition pad3 (n : Z) : string := (if n <? 10 then "00" else if n <? 100 then "0" else "") +:+ pretty n.
