(* ===== verification/Io.v ===== *)
(** * Interactive code: goroutines as interaction trees

    The goroutines of the publisher and of the subscriber run until their
    context ends, and everything they do is a conversation: with the clock,
    with the context, with the transport.  They are interaction trees
    ([itree], of the library ITree) whose events are those calls and whose
    result is the [outcome] of the Go function.  This file has the constructs
    the programs are written with, the traces of a program in an environment,
    and a program logic that proves every trace to be accepted by a protocol,
    given as an automaton on events. *)
From ITree Require Core.ITreeDefinition.
From S2P Require Import Prelude.
Local Open Scope Z_scope.

Abbreviation itree := ITreeDefinition.itree.
Abbreviation observe := ITreeDefinition.observe.
Abbreviation RetF := ITreeDefinition.RetF.
Abbreviation TauF := ITreeDefinition.TauF.
Abbreviation VisF := ITreeDefinition.VisF.

(** ** Programs *)
Definition prog (E : Type -> Type) (A : Type) : Type := itree E (outcome A).

Section Prog.
Context {E : Type -> Type}.

Definition done {R : Type} (r : R) : itree E R := ITreeDefinition.go (RetF r).
Definition perform {A : Type} (e : E A) : prog E A := ITreeDefinition.go (VisF e (fun a => done (Ret a))).

(** Go's sequencing: an error to return, or a panic, ends the function. *)
Definition andThen {A B : Type} (k : A -> prog E B) (o : outcome A) : prog E B :=
  match o with Ret a => k a | Err e => done (Err e) | Panic => done Panic end.
Definition gobind {A B : Type} (t : prog E A) (k : A -> prog E B) : prog E B :=
  ITreeDefinition.ITree.bind t (andThen k).

(** [for]: the body returns the next state of the loop, or what the loop
    ends with. *)
Definition loop_next {St A : Type} (o : outcome (St + A)) : itree E (St + outcome A) :=
  match o with
  | Ret (inl s) => done (inl s)
  | Ret (inr a) => done (inr (Ret a))
  | Err e => done (inr (Err e))
  | Panic => done (inr Panic)
  end.
Definition loop {St A : Type} (body : St -> prog E (St + A)) (s : St) : prog E A :=
  ITreeDefinition.ITree.iter (fun s => ITreeDefinition.ITree.bind (body s) loop_next) s.
End Prog.

Declare Scope prog_scope.
Delimit Scope prog_scope with prog.
Notation "'do!' x ':=' m 'in' k" := (gobind m (fun x => k))
  (at level 10, x name, m at level 100, k at level 200) : prog_scope.
Notation "'do!' ' x ':=' m 'in' k" := (gobind m (fun x => k))
  (at level 10, x strict pattern, m at level 100, k at level 200) : prog_scope.

(** How a block that can leave the function ends. *)
Inductive flow := Next | Return.

(** ** Traces

    An observation is an event with the answer of the environment. *)
Inductive obs (E : Type -> Type) : Type :=
  | Obs (X : Type) (e : E X) (x : X).
Arguments Obs {E X} e x.

(** The first [fuel] steps of a program whose events are answered by [h]: the
    observations, and the result when the program has ended. *)
Fixpoint run {E : Type -> Type} {St R : Type} (h : forall X, E X -> St -> X * St) (fuel : nat) (s : St) (t : itree E R)
  : list (obs E) * option R :=
  match fuel with
  | O => ([], None)
  | S fuel =>
      match observe t with
      | ITreeDefinition.RetF r => ([], Some r)
      | ITreeDefinition.TauF t => run h fuel s t
      | ITreeDefinition.VisF e k =>
          let (x, s) := h _ e s in
          let (tr, r) := run h fuel s (k x) in (Obs e x :: tr, r)
      end
  end.

(** ** Protocols and the program logic *)
Section Logic.
Context {E : Type -> Type} {Q : Type} (step : Q -> forall X, E X -> X -> option Q).

(** The state of the protocol after a trace; [None] when it is not allowed. *)
Fixpoint after (q : Q) (tr : list (obs E)) : option Q :=
  match tr with
  | [] => Some q
  | Obs e x :: tr => q' ← step q _ e x; after q' tr
  end.

(** For [n] steps and whatever the environment answers, the program keeps to
    the protocol and never makes two silent steps in a row, and [Post] holds
    when it ends; [b] says whether the next step may be silent. *)
Fixpoint keeps {R : Type} (n : nat) (b : bool) (q : Q) (t : itree E R) (Post : R -> bool -> Q -> Prop) : Prop :=
  match n with
  | O => True
  | S n =>
      match observe t with
      | ITreeDefinition.RetF r => Post r b q
      | ITreeDefinition.TauF t => b = true /\ keeps n false q t Post
      | ITreeDefinition.VisF e k => forall x, exists q', step q _ e x = Some q' /\ keeps n true q' (k x) Post
      end
  end.

(** What [keeps] says of a run: its trace is a trace of the protocol, its
    result satisfies [Post], and a program that has not ended after [n] steps
    has made at least [n/2] calls. *)
Lemma keeps_run {St R : Type} (h : forall X, E X -> St -> X * St) n b s q (t : itree E R) Post tr r :
  keeps n b q t Post -> run h n s t = (tr, r) ->
  exists q', after q tr = Some q' /\
    match r with
    | Some a => exists b', Post a b' q'
    | None => (n <= 2 * length tr + (if b then 1 else 0))%nat
    end.
Proof.
  revert b s q t tr. induction n as [|n IH]; intros b s q t tr Hk Hr; cbn [keeps run] in *.
  - simplify_eq. exists q. split; [done|lia].
  - destruct (observe t) as [a|u|X e k].
    + simplify_eq. by exists q; eauto.
    + destruct Hk as [-> Hk]. destruct (IH _ _ _ _ _ Hk Hr) as (q' & Hq' & HP).
      exists q'. split; [done|]. destruct r; [done|]. cbn in HP |- *. lia.
    + destruct (h X e s) as [x s'] eqn:Hh. destruct (run h n s' (k x)) as [tr' r'] eqn:Hrun. simplify_eq.
      destruct (Hk x) as (q1 & Hq1 & Hk1). destruct (IH _ _ _ _ _ Hk1 Hrun) as (q' & Hq' & HP).
      exists q'. cbn [after]. rewrite Hq1. split; [done|]. destruct r; [done|]. cbn in HP |- *. destruct b; lia.
Qed.

Lemma keeps_observe {R : Type} n b q (t u : itree E R) Post :
  observe t = observe u -> keeps n b q t Post -> keeps n b q u Post.
Proof. destruct n; [done|]. cbn. by intros ->. Qed.

Lemma keeps_mono {R : Type} n b q (t : itree E R) (P P' : R -> bool -> Q -> Prop) :
  (forall r b q, P r b q -> P' r b q) -> keeps n b q t P -> keeps n b q t P'.
Proof.
  intros HP. revert b q t. induction n as [|n IH]; intros b q t; [done|]. cbn.
  destruct (observe t); [by apply HP|intros [-> Hk]; split; [done|by apply IH]|].
  intros Hk x. destruct (Hk x) as (q' & Hq' & Hk'). eauto.
Qed.

Lemma keeps_le {R : Type} m n b q (t : itree E R) P : (m <= n)%nat -> keeps n b q t P -> keeps m b q t P.
Proof.
  revert n b q t. induction m as [|m IH]; intros n b q t Hle; [done|]. destruct n as [|n]; [lia|]. cbn.
  destruct (observe t); [done|intros [-> Hk]; split; [done|]; apply (IH n); [lia|done]|].
  intros Hk x. destruct (Hk x) as (q' & Hq' & Hk'). exists q'. split; [done|]. apply (IH n); [lia|done].
Qed.

Lemma keeps_done {R : Type} n b q (r : R) (P : R -> bool -> Q -> Prop) : P r b q -> keeps n b q (done r) P.
Proof. by destruct n. Qed.

Lemma observe_bind {R R' : Type} (t : itree E R) (k : R -> itree E R') :
  observe (ITreeDefinition.ITree.bind t k) =
  match observe t with
  | ITreeDefinition.RetF r => observe (k r)
  | ITreeDefinition.TauF t => TauF (ITreeDefinition.ITree.bind t k)
  | ITreeDefinition.VisF e h => VisF e (fun x => ITreeDefinition.ITree.bind (h x) k)
  end.
Proof.
  unfold ITreeDefinition.ITree.bind, ITreeDefinition.observe at 1. cbn.
  by destruct (ITreeDefinition.observe t).
Qed.

Lemma keeps_bind {R R' : Type} n b q (t : itree E R) (k : R -> itree E R') P :
  keeps n b q t (fun r b' q' => keeps n b' q' (k r) P) -> keeps n b q (ITreeDefinition.ITree.bind t k) P.
Proof.
  revert b q t. induction n as [|n IH]; intros b q t; [done|].
  assert (forall b q t, keeps n b q t (fun r b' q' => keeps (S n) b' q' (k r) P) ->
            keeps n b q (ITreeDefinition.ITree.bind t k) P) as IH'.
  { intros b1 q1 t1 Hk. apply IH. eapply keeps_mono; [|exact Hk].
    intros r b2 q2 Hr. apply (keeps_le n (S n)); [lia|done]. }
  cbn [keeps]. rewrite observe_bind. destruct (observe t) as [r|u|X e h].
  - done.
  - intros [-> Hk]. split; [done|]. by apply IH'.
  - intros Hk x. destruct (Hk x) as (q' & Hq' & Hk'). exists q'. split; [done|]. by apply IH'.
Qed.

(** The rules the proofs about programs use. *)
Lemma keeps_gobind {A B : Type} n b q (t : prog E A) (k : A -> prog E B) P :
  keeps n b q t (fun o b' q' => keeps n b' q' (andThen k o) P) -> keeps n b q (gobind t k) P.
Proof. apply keeps_bind. Qed.

Lemma keeps_do {A B : Type} n b q (e : E A) (k : A -> prog E B) P :
  (forall x, exists q', step q _ e x = Some q' /\ keeps n true q' (k x) P) -> keeps n b q (gobind (perform e) k) P.
Proof.
  intros H. apply keeps_gobind. destruct n; [done|]. cbn. intros x. destruct (H x) as (q' & Hq' & HP).
  exists q'. split; [done|]. by apply keeps_done.
Qed.

Lemma keeps_lift {A B : Type} n b q (o : outcome A) (k : A -> prog E B) P :
  keeps n b q (andThen k o) P -> keeps n b q (gobind (done o) k) P.
Proof. intros H. by apply keeps_gobind, keeps_done. Qed.

(** The rule for loops: [I] is an invariant of the state of the loop and of
    the protocol, and the body calls at least once before it goes on. *)
Lemma keeps_loop {St A : Type} (I : St -> Q -> Prop) (body : St -> prog E (St + A)) n b s q P :
  (forall m b s q, I s q -> (m <= n)%nat ->
     keeps m b q (body s) (fun o b' q' => match o with
       | Ret (inl s') => b' = true /\ I s' q'
       | Ret (inr a) => P (Ret a) b' q'
       | Err e => P (Err e) b' q'
       | Panic => P Panic b' q'
       end)) ->
  I s q -> keeps n b q (loop body s) P.
Proof.
  intros Hbody. revert b s q. induction n as [|n IH]; intros b s q HI; [done|].
  unfold loop.
  apply (keeps_observe _ _ _ (ITreeDefinition.ITree.bind (ITreeDefinition.ITree.bind (body s) loop_next)
     (fun o => match o with inl s => ITreeDefinition.go (TauF (loop body s)) | inr r => done r end))); [done|].
  apply keeps_bind, keeps_bind.
  eapply keeps_mono; [|apply (Hbody (S n)); [exact HI|lia]].
  intros [[s'|a]|e|] b' q' HP; apply keeps_done; cbn; try done.
  destruct HP as [-> HI']. split; [done|].
  apply IH; [|done]. intros m b1 s1 q1 HI1 Hm. apply Hbody; [done|lia].
Qed.
End Logic.

(** ** Runs to the end

    [runs h s t tr r s']: in the environment [h], from its state [s], the
    program ends with [r] after the observations [tr]. *)
Section Runs.
Context {E : Type -> Type} {St : Type} (h : forall X, E X -> St -> X * St).

Inductive runs {R : Type} : St -> itree E R -> list (obs E) -> R -> St -> Prop :=
  | runs_ret s t r : observe t = RetF r -> runs s t [] r s
  | runs_tau s t u tr r s' : observe t = TauF u -> runs s u tr r s' -> runs s t tr r s'
  | runs_vis s t X (e : E X) k tr r s' :
      observe t = VisF e k -> runs (snd (h X e s)) (k (fst (h X e s))) tr r s' ->
      runs s t (Obs e (fst (h X e s)) :: tr) r s'.

Lemma runs_run {R : Type} s (t : itree E R) tr r s' : runs s t tr r s' -> exists n, run h n s t = (tr, Some r).
Proof.
  induction 1 as [s t r Ht|s t u tr r s' Ht _ [n IH]|s t X e k tr r s' Ht _ [n IH]].
  - exists 1%nat. cbn. by rewrite Ht.
  - exists (S n). cbn. by rewrite Ht.
  - exists (S n). cbn. rewrite Ht. destruct (h X e s) as [x s1]. cbn in *. by rewrite IH.
Qed.

Lemma runs_done {R : Type} s (r : R) : runs s (done r) [] r s.
Proof. by apply runs_ret. Qed.

Lemma runs_bind {R R' : Type} s (t : itree E R) (k : R -> itree E R') tr r s1 tr' r' s2 :
  runs s t tr r s1 -> runs s1 (k r) tr' r' s2 -> runs s (ITreeDefinition.ITree.bind t k) (tr ++ tr') r' s2.
Proof.
  intros Ht. revert tr' r' s2. induction Ht as [s t r Ht|s t u tr r s' Ht _ IH|s t X e g tr r s' Ht _ IH]; intros tr' r' s2 Hk;
    pose proof (observe_bind t k) as Hb; rewrite Ht in Hb.
  - destruct Hk as [s u r' Hu|s u v tr r' s' Hu Hk|s u X e g tr r' s' Hu Hk].
    + apply runs_ret. by rewrite Hb.
    + apply (runs_tau _ _ v); [by rewrite Hb|done].
    + apply (runs_vis _ _ X e g); [by rewrite Hb|done].
  - eapply runs_tau; [exact Hb|by apply IH].
  - apply (runs_vis _ _ X e (fun x => ITreeDefinition.ITree.bind (g x) k)); [exact Hb|by apply IH].
Qed.

Lemma runs_do {X Y : Type} s (e : E X) (k : X -> prog E Y) tr r s' :
  runs (snd (h X e s)) (k (fst (h X e s))) tr r s' -> runs s (gobind (perform e) k) (Obs e (fst (h X e s)) :: tr) r s'.
Proof.
  intros Hk. apply (runs_bind _ _ _ [Obs e (fst (h X e s))] (Ret (fst (h X e s))) (snd (h X e s))); [|exact Hk].
  apply (runs_vis _ _ X e (fun a => done (Ret a))); [done|]. apply runs_done.
Qed.

Lemma runs_gobind {X Y : Type} s (t : prog E X) (k : X -> prog E Y) tr o s1 tr' r s2 :
  runs s t tr o s1 -> runs s1 (andThen k o) tr' r s2 -> runs s (gobind t k) (tr ++ tr') r s2.
Proof. apply runs_bind. Qed.

Lemma runs_lift {X Y : Type} s (o : outcome X) (k : X -> prog E Y) tr r s' :
  runs s (andThen k o) tr r s' -> runs s (gobind (done o) k) tr r s'.
Proof. intros H. change tr with ([] ++ tr). eapply runs_gobind; [apply runs_done|exact H]. Qed.
End Runs.

(** ** Programs without loops

    [tame A t P]: the program ends, makes only calls that satisfy [A], and
    [P] holds of its result, whatever it is answered. *)
Section Tame.
Context {E : Type -> Type} (A : forall X, E X -> Prop).

Inductive tame {R : Type} (P : R -> Prop) (t : itree E R) : Prop :=
  | tame_ret r : observe t = RetF r -> P r -> tame P t
  | tame_vis X (e : E X) k : observe t = VisF e k -> A X e -> (forall x, tame P (k x)) -> tame P t.

Lemma tame_mono {R : Type} (P P' : R -> Prop) (t : itree E R) : (forall r, P r -> P' r) -> tame P t -> tame P' t.
Proof.
  intros HP. induction 1 as [t r Ht Hr|t X e k Ht HA _ IH].
  - by apply (tame_ret _ _ r); auto.
  - by apply (tame_vis _ _ X e k).
Qed.

Lemma tame_done {R : Type} (P : R -> Prop) (r : R) : P r -> tame P (done r).
Proof. by apply tame_ret. Qed.

Lemma tame_bind {R R' : Type} (P : R' -> Prop) (t : itree E R) (k : R -> itree E R') :
  tame (fun r => tame P (k r)) t -> tame P (ITreeDefinition.ITree.bind t k).
Proof.
  induction 1 as [t r Ht Hr|t X e h Ht HA _ IH].
  - pose proof (observe_bind t k) as Hb. rewrite Ht in Hb. destruct Hr as [r' Hk HP|X e h Hk HA Hh].
    + apply (tame_ret _ _ r'); [by rewrite Hb|done].
    + apply (tame_vis _ _ X e h); [by rewrite Hb|done..].
  - pose proof (observe_bind t k) as Hb. rewrite Ht in Hb.
    by apply (tame_vis _ _ X e (fun x => ITreeDefinition.ITree.bind (h x) k)).
Qed.

Lemma tame_gobind {X Y : Type} (P : outcome Y -> Prop) (t : prog E X) (k : X -> prog E Y) :
  tame (fun o => tame P (andThen k o)) t -> tame P (gobind t k).
Proof. apply tame_bind. Qed.

Lemma tame_do {X Y : Type} (P : outcome Y -> Prop) (e : E X) (k : X -> prog E Y) :
  A X e -> (forall x, tame P (k x)) -> tame P (gobind (perform e) k).
Proof.
  intros HA Hk. apply tame_gobind. apply (tame_vis _ _ _ e (fun a => done (Ret a))); [done|done|]. intros x. apply tame_done, Hk.
Qed.

Lemma tame_perform {X : Type} (P : outcome X -> Prop) (e : E X) :
  A X e -> (forall x, P (Ret x)) -> tame P (perform e).
Proof. intros HA HP. apply (tame_vis _ _ _ e (fun a => done (Ret a))); [done|done|]. intros x. apply tame_done, HP. Qed.

Lemma tame_lift {X Y : Type} (P : outcome Y -> Prop) (o : outcome X) (k : X -> prog E Y) :
  tame P (andThen k o) -> tame P (gobind (done o) k).
Proof. intros H. by apply tame_gobind, tame_done. Qed.

(** Calls that keep the protocol in [S]: so does the program. *)
Lemma keeps_tame {Q : Type} (step : Q -> forall X, E X -> X -> option Q) (S : Q -> Prop) :
  (forall q X (e : E X) x, S q -> A X e -> exists q', step q X e x = Some q' /\ S q') ->
  forall (R : Type) (P : R -> Prop) (t : itree E R) n b q,
  tame P t -> S q -> keeps step n b q t (fun r b' q' => S q' /\ P r /\ (b = true -> b' = true)).
Proof.
  intros HS R P t n b q Ht. revert n b q. induction Ht as [t r Ht Hr|t X e k Ht HA _ IH]; intros n b q Hq;
    (destruct n as [|n]; [done|]); cbn [keeps]; rewrite Ht; [done|].
  intros x. destruct (HS q X e x Hq HA) as (q' & Hs & Hq'). exists q'. split; [done|].
  eapply keeps_mono; [|by apply IH]. intros r b' q2 (H1 & H2 & H3). auto.
Qed.
End Tame.
Arguments tame {E} A {R} P t.

Lemma tame_weaken {E : Type -> Type} (A A' : forall X, E X -> Prop) {R : Type} (P : R -> Prop) (t : itree E R) :
  (forall X e, A X e -> A' X e) -> tame A P t -> tame A' P t.
Proof.
  intros HA. induction 1 as [t r Ht Hr|t X e k Ht He _ IH]; [by apply (tame_ret _ _ _ r)|].
  apply (tame_vis _ _ _ X e k); auto.
Qed.

(** The result is not an error. *)
Definition noerr {R : Type} (o : outcome R) : Prop := match o with Err _ => False | _ => True end.

(** Programs that are parts of others are declared to [tame] by hints. *)
Create HintDb tame.
Ltac tame_part :=
  match goal with
  | |- tame ?A _ ?t =>
      apply (tame_mono A noerr); [|solve [eauto with tame]];
      let r := fresh "r" in let H := fresh "H" in
      intros r H; destruct r; [clear H|destruct H|clear H]; cbn [andThen]
  | |- tame ?A _ ?t =>
      apply (tame_mono A (fun _ => True)); [|solve [eauto with tame]];
      let r := fresh "r" in intros r _; try (destruct r; cbn [andThen])
  end.
Ltac tame_step :=
  match goal with
  | |- tame _ _ (gobind (perform _) _) => apply tame_do; [first [exact I|solve [cbn; auto]]|intros ?]
  | |- tame _ _ (gobind (done ?o) _) => apply tame_lift; try (destruct o eqn:?; cbn [andThen])
  | |- tame _ _ (gobind _ _) => apply tame_gobind
  | |- tame _ _ (ITreeDefinition.ITree.bind _ _) => apply tame_bind
  | |- tame _ _ (perform _) => apply tame_perform; [first [exact I|solve [cbn; auto]]|intros ?; cbn [andThen]]
  | |- tame _ _ (done _) => apply tame_done; cbn [andThen]
  | |- tame _ _ (andThen _ ?o) => destruct o; cbn [andThen]
  | |- tame _ _ (match ?x with _ => _ end) => destruct x eqn:?; cbn [andThen]
  | |- tame _ _ _ => tame_part
  | |- True => exact I
  | |- noerr _ => exact I
  end.
Ltac tame := repeat tame_step; auto.
