(* ===== verification/Base64.v ===== *)
(** * Base64 ([encoding/base64])

    Init data travels in the catalog as Base64, and keys between a license
    server and its clients.  The encoders and decoders of the standard library
    ([StdEncoding], and [RawStdEncoding] and [RawURLEncoding], which do not
    pad), and that decoding undoes encoding. *)
From S2P Require Import Prelude.
From Stdlib Require Import Ascii.
Local Open Scope Z_scope.
Local Open Scope go_scope.

Definition base64_alphabet : string := "ABCDEFGHIJKLMNOPQRSTUVWXYZabcdefghijklmnopqrstuvwxyz0123456789+/".
Definition base64_digit (v : Z) : ascii := default Ascii.zero (String.get (Z.to_nat v) base64_alphabet).
Definition padChar : ascii := ascii_of_nat 61.

Fixpoint EncodeToString (b : bytes) : string :=
  match b with
  | [] => EmptyString
  | [x] => String (base64_digit (x / 4)) (String (base64_digit (x mod 4 * 16)) (String padChar (String padChar EmptyString)))
  | [x; y] =>
      String (base64_digit (x / 4)) (String (base64_digit (x mod 4 * 16 + y / 16))
        (String (base64_digit (y mod 16 * 4)) (String padChar EmptyString)))
  | x :: y :: z :: b =>
      String (base64_digit (x / 4)) (String (base64_digit (x mod 4 * 16 + y / 16))
        (String (base64_digit (y mod 16 * 4 + z / 64)) (String (base64_digit (z mod 64)) (EncodeToString b))))
  end.

(** The value of a digit. *)
Definition digit_value (c : ascii) : option Z :=
  let n := Z.of_nat (nat_of_ascii c) in
  if (65 <=? n) && (n <=? 90) then Some (n - 65)
  else if (97 <=? n) && (n <=? 122) then Some (n - 71)
  else if (48 <=? n) && (n <=? 57) then Some (n + 4)
  else if n =? 43 then Some 62
  else if n =? 47 then Some 63
  else None.

(** The decoder skips line breaks. *)
Fixpoint skip_newlines (s : string) : string :=
  match s with
  | EmptyString => EmptyString
  | String c s =>
      if (nat_of_ascii c =? 10)%nat || (nat_of_ascii c =? 13)%nat then skip_newlines s else String c (skip_newlines s)
  end.

(** Groups of four digits; padding only in the last one. *)
Fixpoint decode_groups (s : string) : option bytes :=
  match s with
  | EmptyString => Some []
  | String a (String b (String c (String d s))) =>
      x ← digit_value a; y ← digit_value b;
      if bool_decide (d = padChar) then
        match s with
        | EmptyString =>
            if bool_decide (c = padChar) then Some [x * 4 + y / 16]
            else z ← digit_value c; Some [x * 4 + y / 16; y mod 16 * 16 + z / 4]
        | _ => None
        end
      else
        z ← digit_value c; w ← digit_value d; rest ← decode_groups s;
        Some (x * 4 + y / 16 :: y mod 16 * 16 + z / 4 :: z mod 4 * 64 + w :: rest)
  | _ => None
  end.

Definition DecodeString (s : string) : outcome bytes :=
  match decode_groups (skip_newlines s) with
  | Some b => Ret b
  | None => errorf "illegal base64 data"
  end.

(** ** The encodings without padding ([RawStdEncoding], [RawURLEncoding]) *)
Definition base64url_alphabet : string := "ABCDEFGHIJKLMNOPQRSTUVWXYZabcdefghijklmnopqrstuvwxyz0123456789-_".
Definition base64url_digit (v : Z) : ascii := default Ascii.zero (String.get (Z.to_nat v) base64url_alphabet).

Fixpoint rawEncode (digit : Z -> ascii) (b : bytes) : string :=
  match b with
  | [] => EmptyString
  | [x] => String (digit (x / 4)) (String (digit (x mod 4 * 16)) EmptyString)
  | [x; y] =>
      String (digit (x / 4)) (String (digit (x mod 4 * 16 + y / 16)) (String (digit (y mod 16 * 4)) EmptyString))
  | x :: y :: z :: b =>
      String (digit (x / 4)) (String (digit (x mod 4 * 16 + y / 16))
        (String (digit (y mod 16 * 4 + z / 64)) (String (digit (z mod 64)) (rawEncode digit b))))
  end.
Definition RawStd_EncodeToString : bytes -> string := rawEncode base64_digit.
Definition RawURL_EncodeToString : bytes -> string := rawEncode base64url_digit.

Definition url_digit_value (c : ascii) : option Z :=
  let n := nat_of_ascii c in
  if (n =? 45)%nat then Some 62 else if (n =? 95)%nat then Some 63
  else if (n =? 43)%nat || (n =? 47)%nat then None else digit_value c.

Fixpoint raw_groups (s : string) : option bytes :=
  match s with
  | EmptyString => Some []
  | String _ EmptyString => None
  | String a (String b EmptyString) =>
      x ← url_digit_value a; y ← url_digit_value b; Some [x * 4 + y / 16]
  | String a (String b (String c EmptyString)) =>
      x ← url_digit_value a; y ← url_digit_value b; z ← url_digit_value c;
      Some [x * 4 + y / 16; y mod 16 * 16 + z / 4]
  | String a (String b (String c (String d s))) =>
      x ← url_digit_value a; y ← url_digit_value b; z ← url_digit_value c; w ← url_digit_value d;
      rest ← raw_groups s; Some (x * 4 + y / 16 :: y mod 16 * 16 + z / 4 :: z mod 4 * 64 + w :: rest)
  end.
Definition RawURL_DecodeString (s : string) : outcome bytes :=
  match raw_groups (skip_newlines s) with
  | Some b => Ret b
  | None => errorf "illegal base64 data"
  end.

(** ** Decoding undoes encoding *)
Lemma digit_facts v : 0 <= v < 64 ->
  digit_value (base64_digit v) = Some v /\ base64_digit v <> padChar /\
  ((nat_of_ascii (base64_digit v) =? 10)%nat || (nat_of_ascii (base64_digit v) =? 13)%nat) = false.
Proof.
  intros Hv.
  assert (forallb (fun n =>
    bool_decide (digit_value (base64_digit (Z.of_nat n)) = Some (Z.of_nat n)) &&
    negb (bool_decide (base64_digit (Z.of_nat n) = padChar)) &&
    negb ((nat_of_ascii (base64_digit (Z.of_nat n)) =? 10)%nat || (nat_of_ascii (base64_digit (Z.of_nat n)) =? 13)%nat))
    (seq 0 64) = true) as H by (vm_compute; reflexivity).
  rewrite forallb_forall in H. specialize (H (Z.to_nat v)). rewrite Z2Nat.id in H by lia.
  rewrite !andb_true_iff, !negb_true_iff, bool_decide_eq_true, bool_decide_eq_false in H.
  destruct H as [[H1 H2] H3]; [apply in_seq; lia|done].
Qed.

Lemma encode_newlines b : Forall is_byte b -> skip_newlines (EncodeToString b) = EncodeToString b.
Proof.
  assert (forall v s, 0 <= v < 64 -> skip_newlines (String (base64_digit v) s) = String (base64_digit v) (skip_newlines s)) as Hd.
  { intros v s Hv. cbn [skip_newlines]. by rewrite (proj2 (proj2 (digit_facts v Hv))). }
  induction b as [b IH] using (induction_ltof1 _ length); unfold ltof in IH. intros Hb.
  destruct b as [|x [|y [|z b]]]; cbn [EncodeToString]; [done|..];
    repeat match goal with H : Forall _ (_ :: _) |- _ => inversion_clear H end; unfold is_byte in *.
  - rewrite !Hd by dlia. done.
  - rewrite !Hd by dlia. done.
  - rewrite !Hd by dlia. rewrite IH; [done|cbn; lia|done].
Qed.

Lemma decode_encode b : Forall is_byte b -> decode_groups (EncodeToString b) = Some b.
Proof.
  induction b as [b IH] using (induction_ltof1 _ length); unfold ltof in IH. intros Hb.
  destruct b as [|x [|y [|z b]]]; [done|..];
    repeat match goal with H : Forall _ (_ :: _) |- _ => inversion_clear H end; unfold is_byte in *;
    cbn [EncodeToString decode_groups].
  - rewrite (proj1 (digit_facts (x / 4) ltac:(dlia))), (proj1 (digit_facts (x mod 4 * 16) ltac:(dlia))). cbn [mbind option_bind].
    rewrite !(bool_decide_true (padChar = padChar)) by done. do 2 f_equal. dlia.
  - rewrite (proj1 (digit_facts (x / 4) ltac:(dlia))), (proj1 (digit_facts (x mod 4 * 16 + y / 16) ltac:(dlia))),
      (proj1 (digit_facts (y mod 16 * 4) ltac:(dlia))). cbn [mbind option_bind].
    rewrite (bool_decide_true (padChar = padChar)) by done.
    rewrite bool_decide_false by (apply digit_facts; dlia). do 2 f_equal; [dlia|f_equal; dlia].
  - rewrite (proj1 (digit_facts (x / 4) ltac:(dlia))), (proj1 (digit_facts (x mod 4 * 16 + y / 16) ltac:(dlia))),
      (proj1 (digit_facts (y mod 16 * 4 + z / 64) ltac:(dlia))), (proj1 (digit_facts (z mod 64) ltac:(dlia))).
    cbn [mbind option_bind]. rewrite bool_decide_false by (apply digit_facts; dlia).
    rewrite IH; [|cbn; lia|done]. cbn [mbind option_bind]. do 2 f_equal; [dlia|f_equal; [dlia|f_equal; dlia]].
Qed.

Lemma DecodeString_EncodeToString b : Forall is_byte b -> DecodeString (EncodeToString b) = Ret b.
Proof. intros Hb. unfold DecodeString. by rewrite encode_newlines, decode_encode. Qed.

Lemma url_digit_facts v : 0 <= v < 64 ->
  url_digit_value (base64url_digit v) = Some v /\
  ((nat_of_ascii (base64url_digit v) =? 10)%nat || (nat_of_ascii (base64url_digit v) =? 13)%nat) = false.
Proof.
  intros Hv.
  assert (forallb (fun n =>
    bool_decide (url_digit_value (base64url_digit (Z.of_nat n)) = Some (Z.of_nat n)) &&
    negb ((nat_of_ascii (base64url_digit (Z.of_nat n)) =? 10)%nat || (nat_of_ascii (base64url_digit (Z.of_nat n)) =? 13)%nat))
    (seq 0 64) = true) as H by (vm_compute; reflexivity).
  rewrite forallb_forall in H. specialize (H (Z.to_nat v)). rewrite Z2Nat.id in H by lia.
  rewrite !andb_true_iff, !negb_true_iff, bool_decide_eq_true in H.
  apply H, in_seq. lia.
Qed.

(** Digits one after the other are read one after the other. *)
Lemma raw_newlines v s : 0 <= v < 64 ->
  skip_newlines (String (base64url_digit v) s) = String (base64url_digit v) (skip_newlines s).
Proof. intros Hv. cbn [skip_newlines]. by rewrite (proj2 (url_digit_facts v Hv)). Qed.

Ltac read_digits :=
  repeat match goal with
  | |- context [url_digit_value (base64url_digit ?v)] => rewrite (proj1 (url_digit_facts v ltac:(dlia)))
  end; cbn [mbind option_bind].

Lemma raw_decode_encode b : Forall is_byte b -> raw_groups (skip_newlines (RawURL_EncodeToString b)) = Some b.
Proof.
  unfold RawURL_EncodeToString.
  induction b as [b IH] using (induction_ltof1 _ length); unfold ltof in IH. intros Hb.
  destruct b as [|x [|y [|z b]]]; [done|..];
    repeat match goal with H : Forall _ (_ :: _) |- _ => inversion_clear H end; unfold is_byte in *; cbn [rawEncode];
    rewrite !raw_newlines by dlia; cbn [raw_groups skip_newlines].
  - read_digits. do 2 f_equal. dlia.
  - read_digits. do 2 f_equal; [dlia|f_equal; dlia].
  - read_digits.
    rewrite IH; [|cbn; lia|done]. cbn [mbind option_bind]. do 2 f_equal; [dlia|f_equal; [dlia|f_equal; dlia]].
Qed.

Lemma RawURL_DecodeString_EncodeToString b : Forall is_byte b -> RawURL_DecodeString (RawURL_EncodeToString b) = Ret b.
Proof. intros Hb. unfold RawURL_DecodeString. by rewrite raw_decode_encode. Qed.
