(* ===== verification/GoFloat.v ===== *)
(** * IEEE-754 binary64 arithmetic, as Go's [float64]

    The bitrate, pacing and metrics code computes with [float64].  This file
    instantiates the Standard Library's executable specification of IEEE-754
    arithmetic ([SpecFloat], round to nearest even) at precision 53 and
    exponent 1024, with the conversions Go performs between integers and
    [float64].  Everything here evaluates inside the kernel. *)
From S2P Require Import Prelude.
From Stdlib Require Import SpecFloat.
Local Open Scope Z_scope.

Definition float64 : Set := spec_float.

(** [float64(z)]: the nearest binary64 to an integer. *)
Definition f64 (z : Z) : float64 := binary_normalize 53 1024 z 0 false.

Definition fadd : float64 -> float64 -> float64 := SFadd 53 1024.
Definition fsub : float64 -> float64 -> float64 := SFsub 53 1024.
Definition fmul : float64 -> float64 -> float64 := SFmul 53 1024.
Definition fdiv : float64 -> float64 -> float64 := SFdiv 53 1024.
Definition fltb : float64 -> float64 -> bool := SFltb.

(** [num / den] as a Go constant expression: the binary64 nearest to the
    rational (division is correctly rounded). *)
Definition fconst (num den : Z) : float64 := fdiv (f64 num) (f64 den).

(** [m * 2^e] truncated toward zero. *)
Definition trunc_pow2 (m e : Z) : Z := if e <? 0 then m / 2 ^ (- e) else m * 2 ^ e.

(** [int(f)]: truncation toward zero.  Go leaves the conversion of a value
    outside the integer range to the implementation; the model takes the
    amd64 result, the smallest [int64]. *)
Definition int_of_f64 (f : float64) : Z :=
  match f with
  | S754_zero _ => 0
  | S754_finite s m e =>
      let v := trunc_pow2 (Zpos m) e in
      let z := if s then - v else v in
      if (minInt64 <=? z) && (z <=? maxInt64) then z else minInt64
  | _ => minInt64
  end.

(** [uint32(f)] for a non-negative [f]. *)
Definition uint32_of_f64 (f : float64) : Z := u32 (int_of_f64 f).

(** [math.Ceil(f)] *)
Definition fceil (f : float64) : float64 :=
  match f with
  | S754_finite s m e =>
      if e <? 0 then
        let q := Zpos m / 2 ^ (- e) in
        let r := Zpos m mod 2 ^ (- e) in
        if s then (if q =? 0 then S754_zero true else f64 (- q))
        else f64 (if r =? 0 then q else q + 1)
      else f
  | _ => f
  end.

Example f64_exact_25fps : int_of_f64 (fmul (f64 512) (fdiv (f64 1000) (f64 12800))) = 40.
Proof. reflexivity. Qed.

Example f64_ceil_900ms : int_of_f64 (fceil (fmul (f64 900) (fconst 1 1000))) = 1.
Proof. reflexivity. Qed.

(** ** Integers up to 2^53 are represented exactly *)
Lemma digits2_pos_bounds p : 2 ^ (Zpos (digits2_pos p) - 1) <= Zpos p < 2 ^ Zpos (digits2_pos p).
Proof.
  induction p as [p IH|p IH|]; cbn [digits2_pos].
  - rewrite Pos2Z.inj_succ, Z.pow_succ_r by lia.
    replace (Z.succ (Zpos (digits2_pos p)) - 1) with (Z.succ (Zpos (digits2_pos p) - 1)) by lia.
    rewrite Z.pow_succ_r by lia. lia.
  - rewrite Pos2Z.inj_succ, Z.pow_succ_r by lia.
    replace (Z.succ (Zpos (digits2_pos p)) - 1) with (Z.succ (Zpos (digits2_pos p) - 1)) by lia.
    rewrite Z.pow_succ_r by lia. lia.
  - cbn. lia.
Qed.

Lemma digits2_pos_unique p d : 0 < d -> 2 ^ (d - 1) <= Zpos p < 2 ^ d -> Zpos (digits2_pos p) = d.
Proof.
  intros Hd Hp. pose proof (digits2_pos_bounds p) as Hb.
  assert (Zpos (digits2_pos p) - 1 < d) by (apply (Z.pow_lt_mono_r_iff 2); lia).
  assert (d - 1 < Zpos (digits2_pos p)) by (apply (Z.pow_lt_mono_r_iff 2); lia).
  lia.
Qed.

(** ** Products that need no rounding

    [norm m e] is [m * 2^e] in normal form.  A product of two numbers of this
    form is exact when the product of the mantissas has at most 53 digits. *)
Definition shifted (n : nat) (m : positive) : positive := Nat.iter n xO m.

Definition norm (m : positive) (e : Z) : float64 :=
  let d := Zpos (digits2_pos m) in S754_finite false (shifted (Z.to_nat (53 - d)) m) (d - 53 + e).

Lemma shifted_val n m : Zpos (shifted n m) = Zpos m * 2 ^ Z.of_nat n.
Proof.
  unfold shifted. induction n as [|n IH]; [cbn; lia|].
  change (Nat.iter (S n) xO m) with (xO (Nat.iter n xO m)).
  rewrite Nat2Z.inj_succ, Z.pow_succ_r by lia. rewrite Pos2Z.inj_xO, IH. lia.
Qed.

Lemma shifted_add n k m : shifted n (shifted k m) = shifted (n + k) m.
Proof. unfold shifted. rewrite <-Nat.iter_add. done. Qed.

Lemma shifted_mul n k p q : (shifted n p * shifted k q = shifted (n + k) (p * q))%positive.
Proof.
  apply Pos2Z.inj. rewrite Pos2Z.inj_mul, !shifted_val, Pos2Z.inj_mul, Nat2Z.inj_add, Z.pow_add_r by lia. lia.
Qed.

Lemma digits_shifted n m : Zpos (digits2_pos (shifted n m)) = Zpos (digits2_pos m) + Z.of_nat n.
Proof.
  unfold shifted. induction n as [|n IH]; [cbn; lia|].
  change (Nat.iter (S n) xO m) with (xO (Nat.iter n xO m)).
  cbn [digits2_pos]. rewrite Pos2Z.inj_succ, IH. lia.
Qed.

Lemma iter_pos_nat {A : Type} (f : A -> A) p x : iter_pos f p x = Nat.iter (Pos.to_nat p) f x.
Proof.
  revert x. induction p as [p IH|p IH|]; intros x; cbn [iter_pos].
  - rewrite !IH, Pos2Nat.inj_xI, <-Nat.iter_add.
    replace (S (2 * Pos.to_nat p)) with ((Pos.to_nat p + Pos.to_nat p) + 1)%nat by lia.
    rewrite (Nat.iter_add (_ + _) 1). done.
  - rewrite !IH, Pos2Nat.inj_xO, <-Nat.iter_add. f_equal. lia.
  - done.
Qed.

Lemma pos_iter_shifted d m : Pos.iter xO m d = shifted (Pos.to_nat d) m.
Proof. apply Pos2Nat.inj_iter. Qed.

Lemma shr_shifted n m :
  Nat.iter n shr_1 {| shr_m := Zpos (shifted n m); shr_r := false; shr_s := false |}
  = {| shr_m := Zpos m; shr_r := false; shr_s := false |}.
Proof. induction n as [|n IH]; [done|]. rewrite Nat.iter_succ_r. exact IH. Qed.

Lemma shr_exact n m e k :
  k = Z.of_nat n ->
  shr (shr_record_of_loc (Zpos (shifted n m)) loc_Exact) e k
  = ({| shr_m := Zpos m; shr_r := false; shr_s := false |}, e + k).
Proof.
  intros ->. destruct n as [|n]; [cbn; by rewrite Z.add_0_r|].
  unfold shr. change (Z.of_nat (S n)) with (Zpos (Pos.of_succ_nat n)). cbn [shr_record_of_loc].
  rewrite iter_pos_nat, SuccNat2Pos.id_succ. by rewrite shr_shifted.
Qed.

(** Rounding [m * 2^k * 2^e] when [m] has 53 digits at most *)
Lemma round_norm m n e :
  let d := Zpos (digits2_pos m) in
  d <= 53 -> 53 <= d + Z.of_nat n -> -1000 <= d + Z.of_nat n + e <= 1000 ->
  binary_round_aux 53 1024 false (Zpos (shifted n m)) e loc_Exact = norm m (Z.of_nat n + e).
Proof.
  intros d Hd Hn He. unfold binary_round_aux, shr_fexp.
  cbn [Zdigits2]. rewrite digits_shifted. fold d.
  set (k := Z.to_nat (53 - d)).
  assert (Hsh : shifted n m = shifted (n - k) (shifted k m)) by (rewrite shifted_add; f_equal; lia).
  rewrite Hsh, (shr_exact (n - k)) by (unfold fexp, emin; lia).
  cbn [shr_m loc_of_shr_record round_nearest_even]. cbn [Zdigits2]. rewrite digits_shifted. fold d.
  unfold fexp, emin. 
  change (shifted k m) with (shifted 0 (shifted k m)) at 1.
  rewrite (shr_exact 0) by lia. cbn [shr_m].
  destruct (Z.leb_spec (e + (Z.max (d + Z.of_nat n + e - 53) (3 - 1024 - 53) - e)
    + (Z.max (d + Z.of_nat k + (e + (Z.max (d + Z.of_nat n + e - 53) (3 - 1024 - 53) - e)) - 53)
         (3 - 1024 - 53) - (e + (Z.max (d + Z.of_nat n + e - 53) (3 - 1024 - 53) - e)))) (1024 - 53)); [|lia].
  unfold norm. fold d k. f_equal. lia.
Qed.

Lemma f64_norm m : Zpos (digits2_pos m) <= 53 -> f64 (Zpos m) = norm m 0.
Proof.
  intros Hd. unfold f64, binary_normalize, binary_round.
  set (k := Z.to_nat (53 - Zpos (digits2_pos m))).
  assert (Ha : shl_align m 0 (fexp 53 1024 (Zpos (digits2_pos m) + 0)) = (shifted k m, - Z.of_nat k)).
  { unfold shl_align, fexp, emin.
    replace (Z.max _ _ - 0) with (- Z.of_nat k) by lia.
    replace (Z.max _ _) with (- Z.of_nat k) by lia.
    destruct k as [|k']; [done|]. change (- Z.of_nat (S k')) with (Zneg (Pos.of_succ_nat k')). cbn iota.
    rewrite pos_iter_shifted, SuccNat2Pos.id_succ. done. }
  rewrite Ha, round_norm by lia. f_equal. lia.
Qed.

Lemma fmul_norm m n e e' :
  Zpos (digits2_pos (m * n)) <= 53 -> -400 <= e <= 400 -> -400 <= e' <= 400 ->
  fmul (norm m e) (norm n e') = norm (m * n) (e + e').
Proof.
  intros Hd He He'. unfold fmul, norm at 1 2, SFmul. cbn [xorb].
  pose proof (digits2_pos_bounds (m * n)) as Hmn.
  pose proof (digits2_pos_bounds m) as Hm. pose proof (digits2_pos_bounds n) as Hn.
  set (dm := Zpos (digits2_pos m)) in *. set (dn := Zpos (digits2_pos n)) in *.
  remember (Zpos (digits2_pos (m * n))) as dp eqn:Edp.
  rewrite Pos2Z.inj_mul in Hmn.
  assert (dm <= dp) by (enough (dm - 1 < dp) by lia; apply (Z.pow_lt_mono_r_iff 2); nia).
  assert (dn <= dp) by (enough (dn - 1 < dp) by lia; apply (Z.pow_lt_mono_r_iff 2); nia).
  assert (dp <= dm + dn).
  { enough (dp - 1 < dm + dn) by lia. apply (Z.pow_lt_mono_r_iff 2); [lia|lia|].
    rewrite Z.pow_add_r by lia. nia. }
  assert (dm + dn - 1 <= dp).
  { enough (dm - 1 + (dn - 1) < dp) by lia. apply (Z.pow_lt_mono_r_iff 2); [lia|lia|].
    rewrite Z.pow_add_r by lia. nia. }
  rewrite shifted_mul, round_norm by lia. f_equal. lia.
Qed.

(** Truncating [m * 2^e] for an [e] of at most 0 *)
Lemma int_of_norm m e :
  Zpos (digits2_pos m) <= 53 -> e <= 0 -> int_of_f64 (norm m e) = Zpos m / 2 ^ (- e).
Proof.
  intros Hd He. unfold int_of_f64, norm.
  pose proof (digits2_pos_bounds m) as Hm.
  set (d := Zpos (digits2_pos m)) in *. set (k := Z.to_nat (53 - d)).
  assert (Hv : trunc_pow2 (Zpos (shifted k m)) (d - 53 + e) = Zpos m / 2 ^ (- e)).
  { unfold trunc_pow2. rewrite shifted_val.
    case Z.ltb_spec; intros Hlt.
    - replace (- (d - 53 + e)) with (- e + Z.of_nat k) by lia.
      rewrite Z.pow_add_r by lia. apply Z.div_mul_cancel_r; lia.
    - replace e with 0 by lia. replace (Z.of_nat k) with 0 by lia. replace (d - 53 + 0) with 0 by lia.
      cbn. rewrite Z.div_1_r. lia. }
  rewrite Hv.
  assert (2 ^ d <= 2 ^ 53) by (apply Z.pow_le_mono_r; lia).
  assert (0 <= Zpos m / 2 ^ (- e) <= Zpos m).
  { split; [apply Z.div_pos; lia|]. apply Z.div_le_upper_bound; [lia|].
    assert (0 < 2 ^ (- e)) by lia. nia. }
  unfold minInt64, maxInt64 in *.
  rewrite (proj2 (Z.leb_le _ _)), (proj2 (Z.leb_le _ _)); cbn in *; lia.
Qed.

Lemma digits2_pos_le m k : Zpos m < 2 ^ k -> 0 <= k -> Zpos (digits2_pos m) <= k.
Proof.
  intros Hm Hk. pose proof (digits2_pos_bounds m).
  enough (Zpos (digits2_pos m) - 1 < k) by lia. apply (Z.pow_lt_mono_r_iff 2); lia.
Qed.

(** [int(float64(z) * c)] for a constant [c = n / 2^k] *)
Lemma int_of_product z n k :
  0 <= z -> z * Zpos n < 2 ^ 53 -> 0 <= k <= 400 ->
  int_of_f64 (fmul (f64 z) (norm n (- k))) = z * Zpos n / 2 ^ k.
Proof.
  intros Hz Hn Hk. destruct z as [|m|m]; [|..|lia].
  - unfold fmul, f64, norm. cbn. by rewrite Z.div_0_l by lia.
  - rewrite f64_norm by (apply digits2_pos_le; lia).
    assert (Hd : Zpos (digits2_pos (m * n)) <= 53) by (apply digits2_pos_le; lia).
    rewrite fmul_norm by lia. rewrite int_of_norm by lia.
    replace (- (0 + - k)) with k by lia. by rewrite Pos2Z.inj_mul.
Qed.

(** A conversion yields an [int64]. *)
Lemma int_of_f64_range f : - 2 ^ 63 <= int_of_f64 f < 2 ^ 63.
Proof.
  destruct f as [s|s| |s m e]; cbn [int_of_f64]; [unfold minInt64; lia..|]. cbn zeta.
  match goal with |- context [(minInt64 <=? ?z) && _] => generalize z end. intros z.
  destruct (Z.leb_spec minInt64 z), (Z.leb_spec z maxInt64); cbn [andb]; unfold minInt64, maxInt64 in *; lia.
Qed.
