(* ===== verification/Media.v ===== *)
(** * The media data model: samples, codec data, tracks, assets

    The records of [internal/asset.go], [internal/media.go],
    [internal/subtitle.go] and [internal/drm.go].  Values whose type belongs
    to mp4ff or go-608 are elements of abstract types, collected in the class
    [Mp4Types]; a nil pointer or nil interface is [None]. *)
From S2P Require Import Prelude.
Local Open Scope Z_scope.

(** ** Types of the libraries the asset code holds but does not look into

    [InitSegment] is [mp4.InitSegment], [InitProtectData] is
    [mp4.InitProtectData] and [UnitCue] is [generate.UnitCue].  [FullSample]
    is [mp4.FullSample] with the fields the program reads and writes. *)
Record FullSample := mkFullSample {
  Flags : Z; Dur : Z; Size : Z; DecodeTime : Z; Data : bytes
}.

Class Mp4Types := {
  InitSegment : Type;
  InitProtectData : Type;
  UnitCue : Type;
  (** [mp4.Sample.IsSync], a method of the [mp4.Sample] (flags, duration and
      size) embedded in a [FullSample] *)
  SampleIsSync : Z -> Z -> Z -> bool
}.
Definition IsSync {M : Mp4Types} (s : FullSample) : bool := SampleIsSync (Flags s) (Dur s) (Size s).

(** ** Content protection ([internal/catalog.go], [internal/drm.go]) *)
Record DRMService := mkDRMService { svcURL : string; svcType : string }.
Record DRMSystem := mkDRMSystem {
  SystemID : string; Robustness : string; LaURL : option DRMService;
  AuthzURL : option DRMService; CertURL : option DRMService; Pssh : string
}.
Record ContentProtection := mkContentProtection {
  RefID : string; DefaultKIDs : list string; Scheme : string; cpDRMSystem : option DRMSystem
}.
Record CENCInfo := mkCENCInfo { cencKey : bytes; cencIV : bytes }.
Record DRMInfo := mkDRMInfo { ContentProtections : list ContentProtection; drmCenc : CENCInfo }.

Inductive ProtectionType := ProtectionNone | ProtectionDRM | ProtectionECCP.
#[export] Instance ProtectionType_eq_dec : EqDecision ProtectionType.
Proof. solve_decision. Defined.

Section WithMp4.
Context {M : Mp4Types}.

(** ** Codec data ([internal/media.go]) *)
Record AVCData := mkAVCData {
  avc_inInit : option InitSegment; avc_outInit : option InitSegment;
  avc_Spss : list bytes; avc_Ppss : list bytes;
  avc_codec : string; avc_width : Z; avc_height : Z
}.
Record HEVCData := mkHEVCData {
  hevc_inInit : option InitSegment; hevc_outInit : option InitSegment;
  hevc_Vpss : list bytes; hevc_Spss : list bytes; hevc_Ppss : list bytes;
  hevc_codec : string; hevc_width : Z; hevc_height : Z
}.
Record AV1SpatialLayer := mkAV1SpatialLayer {
  layerSpatialID : Z; layerWidth : Z; layerHeight : Z;
  layerSamples : list bytes; totalSize : Z
}.
Record AV1Data := mkAV1Data {
  av1_inInit : option InitSegment; av1_outInit : option InitSegment;
  av1_codec : string; av1_width : Z; av1_height : Z;
  configOBUs : bytes; locNeedsConfig : bool; spatialLayers : list AV1SpatialLayer
}.
(** [AACData], [OpusData] and [AC3Data] have the same fields. *)
Record AudioData := mkAudioData {
  aud_inInit : option InitSegment; aud_outInit : option InitSegment;
  aud_codec : string; sampleRate : Z; channelConfig : string
}.

(** The interface value [CodecSpecificData], by its dynamic type. *)
Inductive CodecSpecificData :=
  | AVC (d : AVCData)
  | HEVC (d : HEVCData)
  | AV1 (d : AV1Data)
  | AAC (d : AudioData)
  | Opus (d : AudioData)
  | AC3 (d : AudioData).

(** The method [Codec()] of each implementation. *)
Definition Codec (sd : CodecSpecificData) : string :=
  match sd with
  | AVC d => avc_codec d
  | HEVC d => hevc_codec d
  | AV1 d => av1_codec d
  | AAC d | Opus d | AC3 d => aud_codec d
  end.

(** The method [GetInit()] of each implementation. *)
Definition GetInit (sd : CodecSpecificData) : option InitSegment :=
  match sd with
  | AVC d => avc_outInit d
  | HEVC d => hevc_outInit d
  | AV1 d => av1_outInit d
  | AAC d | Opus d | AC3 d => aud_outInit d
  end.

(** [SpecData.Codec()] on an interface value: a nil one panics. *)
Definition SpecCodec (sd : option CodecSpecificData) : outcome string :=
  match sd with Some d => Ret (Codec d) | None => Panic end.

(** ** Caption generator ([internal/cc608/cc608.go]) *)
Record Generator := mkGenerator {
  g_enabled : bool; g_channel : Z; g_lang : string; g_content : Z -> Z -> UnitCue
}.

(** [Generator.Enabled]: false for a nil or disabled generator. *)
Definition Enabled (g : option Generator) : bool :=
  match g with Some g => g_enabled g | None => false end.

(** ** Tracks and assets ([internal/asset.go]) *)
Record ContentTrack := mkContentTrack {
  Name : string; ContentType : string; Language : string;
  SampleBitrate : Z; TimeScale : Z; Duration : Z; GopLength : Z;
  SampleDur : Z; NrSamples : Z; LoopDur : Z; SampleBatch : Z;
  Samples : list FullSample; SpecData : option CodecSpecificData;
  Protection : ProtectionType; contentProtectionRefIDs : list string;
  cenc : option CENCInfo; ipd : option InitProtectData;
  currentIV : option bytes; cc608 : option Generator
}.

Inductive SubtitleFormat := SubtitleFormatWVTT | SubtitleFormatSTPP | SubtitleFormatOther (s : string).
#[export] Instance SubtitleFormat_eq_dec : EqDecision SubtitleFormat.
Proof. solve_decision. Defined.

Record SubtitleTrack := mkSubtitleTrack {
  stName : string; stFormat : SubtitleFormat; stLanguage : string;
  stTimeScale : Z; CueDurMS : Z; Region : Z; stSpecData : option (SubtitleFormat * string)
}.

Record TrackGroup := mkTrackGroup { AltGroupID : Z; Tracks : list ContentTrack }.

Record Asset := mkAsset {
  assetName : string; Groups : list TrackGroup; LoopDurMS : Z;
  SubtitleTracks : list SubtitleTrack; Drm : option DRMInfo; Eccp : option DRMInfo
}.

(** The fields' Go types.  [int] fields carry their own bounds. *)
Record wf_track (t : ContentTrack) : Prop := {
  wf_TimeScale : is_u 32 (TimeScale t);
  wf_Duration : is_u 32 (Duration t);
  wf_GopLength : is_u 32 (GopLength t);
  wf_SampleDur : is_u 32 (SampleDur t);
  wf_NrSamples : is_u 32 (NrSamples t);
  wf_LoopDur : is_u 32 (LoopDur t)
}.

Definition with_LoopDur (t : ContentTrack) (d : Z) : ContentTrack :=
  {| Name := Name t; ContentType := ContentType t; Language := Language t;
     SampleBitrate := SampleBitrate t; TimeScale := TimeScale t; Duration := Duration t;
     GopLength := GopLength t; SampleDur := SampleDur t; NrSamples := NrSamples t;
     LoopDur := d; SampleBatch := SampleBatch t; Samples := Samples t; SpecData := SpecData t;
     Protection := Protection t; contentProtectionRefIDs := contentProtectionRefIDs t;
     cenc := cenc t; ipd := ipd t; currentIV := currentIV t; cc608 := cc608 t |}.

Definition with_currentIV (t : ContentTrack) (iv : option bytes) : ContentTrack :=
  {| Name := Name t; ContentType := ContentType t; Language := Language t;
     SampleBitrate := SampleBitrate t; TimeScale := TimeScale t; Duration := Duration t;
     GopLength := GopLength t; SampleDur := SampleDur t; NrSamples := NrSamples t;
     LoopDur := LoopDur t; SampleBatch := SampleBatch t; Samples := Samples t;
     SpecData := SpecData t; Protection := Protection t;
     contentProtectionRefIDs := contentProtectionRefIDs t;
     cenc := cenc t; ipd := ipd t; currentIV := iv; cc608 := cc608 t |}.

Definition with_cc608 (t : ContentTrack) (g : option Generator) : ContentTrack :=
  {| Name := Name t; ContentType := ContentType t; Language := Language t;
     SampleBitrate := SampleBitrate t; TimeScale := TimeScale t; Duration := Duration t;
     GopLength := GopLength t; SampleDur := SampleDur t; NrSamples := NrSamples t;
     LoopDur := LoopDur t; SampleBatch := SampleBatch t; Samples := Samples t;
     SpecData := SpecData t; Protection := Protection t;
     contentProtectionRefIDs := contentProtectionRefIDs t;
     cenc := cenc t; ipd := ipd t; currentIV := currentIV t; cc608 := g |}.
End WithMp4.

(** A concrete choice of the library types, for evaluating the model: an init
    segment is its bytes, and a sample is a sync sample when bit 25 of its
    flags is set and bit 16 is clear. *)
#[export] Instance Mp4Concrete : Mp4Types := {|
  InitSegment := bytes; InitProtectData := unit; UnitCue := unit;
  SampleIsSync := fun flags _ _ => Z.testbit flags 25 && negb (Z.testbit flags 16)
|}.

(** A plain track with the timing fields of interest, for examples. *)
Definition timing_track (name ctype : string) (timescale sampleDur nrSamples loopDur : Z) : ContentTrack :=
  {| Name := name; ContentType := ctype; Language := "und"; SampleBitrate := 0;
     TimeScale := timescale; Duration := u32 (nrSamples * sampleDur); GopLength := 0;
     SampleDur := sampleDur; NrSamples := nrSamples; LoopDur := loopDur; SampleBatch := 1;
     Samples := (fun i => mkFullSample 0 sampleDur 1 (Z.of_nat i * sampleDur) [Z.of_nat i])
                  <$> seq 0 (Z.to_nat nrSamples);
     SpecData := None; Protection := ProtectionNone; contentProtectionRefIDs := [];
     cenc := None; ipd := None; currentIV := None; cc608 := None |}.
