(* ===== verification/Timeline.v ===== *)
(** * The wall-clock timeline: groups, samples and the asset loop

    Models [internal/moqgroup.go] (group ranges, the current group number)
    and the parts of [internal/asset.go] that fix the timeline of an asset:
    [CalcSample], [setLoopDuration] and [validateAV1SVCGOP].  All the
    arithmetic is at its Go width; a division by zero panics. *)
From S2P Require Import Prelude Media.
Local Open Scope Z_scope.
Local Open Scope go_scope.

(** [internal/const.go] *)
Definition MoqGroupDurMS : Z := 1000.

Section Timeline.
Context {M : Mp4Types}.

(** ** Operations *)

Definition calcMoQGroup (track : ContentTrack) (nr constantDurMS : Z) : outcome (Z * Z) :=
  let startTime := u64 (u64 (nr * constantDurMS) * TimeScale track) / 1000 in
  let endTime := u64 (u64 (u64 (nr + 1) * constantDurMS) * TimeScale track) / 1000 in
  let! startNr := udiv startTime (SampleDur track) in
  let! startRem := umod startTime (SampleDur track) in
  let startNr := if negb (startRem =? 0) then u64 (startNr + 1) else startNr in
  let! endNr := udiv endTime (SampleDur track) in
  let! endRem := umod endTime (SampleDur track) in
  let endNr := if negb (endRem =? 0) then u64 (endNr + 1) else endNr in
  Ret (startNr, endNr).

Definition CalcLOCGroupRange (track : ContentTrack) (groupNr constantDurMS : Z) : outcome (Z * Z) :=
  calcMoQGroup track groupNr constantDurMS.

Definition CurrMoQGroupNr (track : ContentTrack) (nowMS constantDurMS : Z) : outcome Z :=
  udiv nowMS constantDurMS.

(** [internal/subtitle.go], [CurrSubtitleGroupNr] *)
Definition CurrSubtitleGroupNr (nowMS groupDurMS : Z) : outcome Z := udiv nowMS groupDurMS.

Definition CalcSample (t : ContentTrack) (nr : Z) : outcome (Z * Z) :=
  let sampleDur := SampleDur t in
  let startTime := u64 (nr * SampleDur t) in
  let! nrWraps := udiv startTime (LoopDur t) in
  let wrapTime := u64 (nrWraps * LoopDur t) in
  let! lacking := umod wrapTime sampleDur in
  let wrapTime :=
    if lacking >? 0 then u64 (wrapTime + u64 (sampleDur - lacking)) else wrapTime in
  let deltaTime := u64 (startTime - wrapTime) in
  let! origNr := udiv deltaTime sampleDur in
  Ret (startTime, origNr).

(** One iteration of the double loop of [setLoopDuration]. *)
Definition setLoopDur_track (loopDurMS : Z) (gNr : nat) (track : ContentTrack) : outcome ContentTrack :=
  let have := u32 (Duration track * 1000) in
  let want := u32 (loopDurMS * TimeScale track) in
  if (gNr =? 0)%nat then
    if negb (have =? want) then
      Err (Errorf "group %d track %s not compatible with loop duration" [pretty gNr; Name track])
    else Ret (with_LoopDur track (Duration track))
  else if (0 <? gNr)%nat && bool_decide (ContentType track = "audio"%string) then
    if have <? want then
      Err (Errorf "group %d audio track %s not compatible with loop duration" [pretty gNr; Name track])
    else Ret (with_LoopDur track (u32 (loopDurMS * TimeScale track) / 1000))
  else
    if negb (have =? want) then
      Err (Errorf "group %d track %s not compatible with loop duration" [pretty gNr; Name track])
    else Ret (with_LoopDur track (Duration track)).

Fixpoint setLoopDur_tracks (loopDurMS : Z) (gNr : nat) (tracks : list ContentTrack)
  : outcome (list ContentTrack) :=
  match tracks with
  | [] => Ret []
  | t :: ts =>
      let! t' := setLoopDur_track loopDurMS gNr t in
      let! ts' := setLoopDur_tracks loopDurMS gNr ts in
      Ret (t' :: ts')
  end.

Fixpoint setLoopDur_groups (loopDurMS : Z) (gNr : nat) (groups : list TrackGroup)
  : outcome (list TrackGroup) :=
  match groups with
  | [] => Ret []
  | g :: gs =>
      let! ts := setLoopDur_tracks loopDurMS gNr (Tracks g) in
      let! gs' := setLoopDur_groups loopDurMS (S gNr) gs in
      Ret (mkTrackGroup (AltGroupID g) ts :: gs')
  end.

Definition setLoopDuration (a : Asset) : outcome Asset :=
  match Groups a with
  | [] => errorf "no tracks found"
  | g0 :: _ =>
      let! t0 := index (Tracks g0) 0 in
      let! loopDurMS := udiv (u32 (Duration t0 * 1000)) (TimeScale t0) in
      let! groups := setLoopDur_groups loopDurMS 0 (Groups a) in
      Ret {| assetName := assetName a; Groups := groups; LoopDurMS := loopDurMS;
             SubtitleTracks := SubtitleTracks a; Drm := Drm a; Eccp := Eccp a |}
  end.

(** The loop over the samples in [validateAV1SVCGOP]. *)
Fixpoint svc_samples_ok (ct : ContentTrack) (i : Z) (samples : list FullSample) : outcome unit :=
  match samples with
  | [] => Ret tt
  | s :: rest =>
      let! m := umod (u32 i) (GopLength ct) in
      let expectedSync := m =? 0 in
      if negb (eqb (IsSync s) expectedSync) then
        Err (Errorf "AV1 SVC sample %d sync flag does not align with %dms groups" [pretty i; pretty MoqGroupDurMS])
      else
        let! d := umod (DecodeTime s) (TimeScale ct) in
        if expectedSync && negb (d =? 0) then
          Err (Errorf "AV1 SVC sample %d decode time does not align with %dms groups" [pretty i; pretty MoqGroupDurMS])
        else svc_samples_ok ct (i + 1) rest
  end.

Definition validateAV1SVCGOP (ct : ContentTrack) : outcome unit :=
  if (TimeScale ct =? 0) || (SampleDur ct =? 0) then errorf "AV1 SVC track has invalid timing"
  else
    let gopDur := u64 (u64 (GopLength ct * SampleDur ct) * 1000) in
    let want := u64 (MoqGroupDurMS * TimeScale ct) in
    if (GopLength ct =? 0) || negb (gopDur =? want) then Err (Errorf "AV1 SVC GOP duration must be %dms" [pretty MoqGroupDurMS])
    else if len (Samples ct) =? 0 then errorf "AV1 SVC track has no samples"
    else svc_samples_ok ct 0 (Samples ct).

(** ** The timeline without machine arithmetic

    [edge t D nr] is the first sample number at or after the start of group
    [nr]; the Go code computes it with 64-bit products. *)
Definition edge (t : ContentTrack) (D nr : Z) : Z :=
  ceil_div (nr * D * TimeScale t / 1000) (SampleDur t).

(** The products of [calcMoQGroup] for group [nr] fit in 64 bits. *)
Definition group_fits (t : ContentTrack) (D nr : Z) : Prop :=
  0 <= nr /\ 0 < D /\ 0 <= TimeScale t /\ 0 < SampleDur t /\ (nr + 1) * D * TimeScale t < 2 ^ 64
  /\ (nr + 1) * D < 2 ^ 64 /\ nr + 1 < 2 ^ 64.

Lemma calcMoQGroup_edges t D nr :
  group_fits t D nr -> calcMoQGroup t nr D = Ret (edge t D nr, edge t D (nr + 1)).
Proof.
  intros (Hnr & HD & HT & Hdur & Hfit & HfitD & Hfit1).
  assert (Hedge : forall m, 0 <= m -> m < 2 ^ 64 ->
    (if negb (m mod SampleDur t =? 0) then u64 (m / SampleDur t + 1) else m / SampleDur t)
    = ceil_div m (SampleDur t)).
  { intros m Hm0 Hm. rewrite <- ceil_div_alt by done.
    destruct (Z.eqb_spec (m mod SampleDur t) 0); cbn [negb]; [lia|].
    apply u64_small. split; [apply Z.add_nonneg_nonneg; [apply Z.div_pos|]; lia|].
    pose proof (Z.div_mod m (SampleDur t)). pose proof (Z.mod_pos_bound m (SampleDur t)). nia. }
  unfold calcMoQGroup, edge. autorewrite with wrap.
  rewrite (u64_small (nr + 1)) by lia. rewrite !u64_small by nia.
  rewrite !udiv_Ret, !umod_Ret by lia. cbn [obind].
  rewrite !Hedge; try done; try (apply Z.div_pos; nia);
    apply Z.div_lt_upper_bound; nia.
Qed.

Lemma edge_mono t D a b : 0 <= D -> 0 <= TimeScale t -> 0 < SampleDur t -> a <= b ->
  edge t D a <= edge t D b.
Proof. intros. apply ceil_div_mono; [done|]. apply Z.div_le_mono; [lia|].
  apply Z.mul_le_mono_nonneg_r; [done|]. by apply Z.mul_le_mono_nonneg_r. Qed.

Lemma edge_0 t D : 0 < SampleDur t -> edge t D 0 = 0.
Proof.
  intros. unfold edge. rewrite !Z.mul_0_l, Z.div_0_l by lia. apply ceil_div_unique; lia.
Qed.

(** [n] is at or after the edge of group [g] iff group [g] starts no later
    than the sample does. *)
Lemma edge_le_iff t D g n : 0 < SampleDur t ->
  edge t D g <= n <-> g * D * TimeScale t < 1000 * (n * SampleDur t + 1).
Proof.
  intros Hd. unfold edge. rewrite ceil_div_le_iff by done.
  pose proof (Z.div_mod (g * D * TimeScale t) 1000). pose proof (Z.mod_pos_bound (g * D * TimeScale t) 1000).
  lia.
Qed.

(** The group of sample [n]: the last group that starts no later than it. *)
Definition group_of (t : ContentTrack) (D n : Z) : Z :=
  (1000 * (n * SampleDur t + 1) - 1) / (D * TimeScale t).

Lemma group_of_spec t D n : 0 < SampleDur t -> 0 < D -> 0 < TimeScale t ->
  edge t D (group_of t D n) <= n < edge t D (group_of t D n + 1).
Proof.
  intros Hd HD HT. unfold group_of. set (q := _ / _).
  assert (Hq : q = (1000 * (n * SampleDur t + 1) - 1) / (D * TimeScale t)) by done.
  pose proof (Z.div_mod (1000 * (n * SampleDur t + 1) - 1) (D * TimeScale t)) as Hdm.
  pose proof (Z.mod_pos_bound (1000 * (n * SampleDur t + 1) - 1) (D * TimeScale t)) as Hmb.
  rewrite <- Hq in Hdm. split.
  - apply edge_le_iff; [done|]. nia.
  - apply Z.nle_gt. rewrite edge_le_iff by done. nia.
Qed.

Lemma edge_interval_unique t D g g' n : 0 <= D -> 0 <= TimeScale t -> 0 < SampleDur t ->
  edge t D g <= n < edge t D (g + 1) -> edge t D g' <= n < edge t D (g' + 1) -> g = g'.
Proof.
  intros HD HT Hd Hg Hg'. destruct (Z.lt_trichotomy g g') as [Hlt|[Heq|Hlt]]; [|done|].
  - pose proof (edge_mono t D (g + 1) g' HD HT Hd). lia.
  - pose proof (edge_mono t D (g' + 1) g HD HT Hd). lia.
Qed.

(** ** The asset loop without machine arithmetic

    The samples of an asset are replayed in a loop of length [LoopDur].
    [loop_first L d w] is the first sample number at or after the start of
    the [w]-th repetition. *)
Definition loop_first (L d w : Z) : Z := ceil_div (w * L) d.

Definition loop_index (L d nr : Z) : Z := nr - loop_first L d (nr * d / L).

Definition sample_fits (t : ContentTrack) (nr : Z) : Prop :=
  0 <= nr /\ 0 < SampleDur t /\ 0 < LoopDur t /\ nr * SampleDur t < 2 ^ 64.

Lemma round_up_wrap d x : 0 < d ->
  (if x mod d >? 0 then x + (d - x mod d) else x) = ceil_div x d * d.
Proof.
  intros Hd. rewrite <- ceil_div_alt by done.
  pose proof (Z.div_mod x d). pose proof (Z.mod_pos_bound x d).
  destruct (Z.eqb_spec (x mod d) 0), (Z.gtb_spec (x mod d) 0); nia.
Qed.

Lemma loop_first_le L d nr : 0 < L -> 0 < d -> 0 <= nr ->
  loop_first L d (nr * d / L) * d <= nr * d.
Proof.
  intros HL Hd Hnr. apply Z.mul_le_mono_nonneg_r; [lia|].
  unfold loop_first. apply ceil_div_le_iff; [done|].
  pose proof (Z.div_mod (nr * d) L). pose proof (Z.mod_pos_bound (nr * d) L). nia.
Qed.

Lemma CalcSample_loop t nr : sample_fits t nr ->
  CalcSample t nr = Ret (nr * SampleDur t, loop_index (LoopDur t) (SampleDur t) nr).
Proof.
  intros (Hnr & Hd & HL & Hfit). unfold CalcSample.
  set (d := SampleDur t) in *. set (L := LoopDur t) in *.
  rewrite (u64_small (nr * d)) by nia.
  pose proof (Z.div_mod (nr * d) L) as Hdm. pose proof (Z.mod_pos_bound (nr * d) L) as Hmb.
  assert (0 <= nr * d / L) by (apply Z.div_pos; nia).
  rewrite udiv_Ret by lia. cbn [obind]. rewrite (u64_small (nr * d / L * L)) by nia.
  rewrite umod_Ret by lia. cbn [obind].
  set (x := nr * d / L * L) in *.
  pose proof (Z.div_mod x d) as Hxm. pose proof (Z.mod_pos_bound x d) as Hxb.
  pose proof (loop_first_le L d nr HL Hd Hnr) as Hfirst.
  pose proof (round_up_wrap d x Hd) as Hround. unfold loop_first in Hfirst. fold x in Hfirst.
  assert (Hup : (if x mod d >? 0 then u64 (x + u64 (d - x mod d)) else x) = ceil_div x d * d).
  { destruct (Z.gtb_spec (x mod d) 0); [|lia].
    rewrite u64_add_r, u64_small by nia. lia. }
  rewrite Hup. assert (0 <= ceil_div x d * d) by (pose proof (ceil_div_spec x d Hd); nia).
  rewrite (u64_small (nr * d - _)) by nia. rewrite udiv_Ret by lia. cbn [obind].
  unfold loop_index, loop_first. fold x. do 2 f_equal.
  rewrite <- Z.mul_sub_distr_r, Z.div_mul by lia. done.
Qed.

(** The index is within one repetition of the loop. *)
Lemma loop_index_range L d nr : 0 < L -> 0 < d -> 0 <= nr ->
  0 <= loop_index L d nr < ceil_div L d.
Proof.
  intros HL Hd Hnr. pose proof (loop_first_le L d nr HL Hd Hnr) as Hle.
  unfold loop_index, loop_first in *.
  pose proof (Z.div_mod (nr * d) L) as Hdm. pose proof (Z.mod_pos_bound (nr * d) L) as Hmb.
  set (w := nr * d / L) in *. pose proof (ceil_div_spec (w * L) d Hd).
  split; [nia|]. apply ceil_div_lt_iff; [done|]. nia.
Qed.

(** The media position of the chosen source sample trails the position in the
    loop by less than one sample. *)
Lemma loop_index_position L d nr : 0 < L -> 0 < d -> 0 <= nr ->
  loop_index L d nr * d <= (nr * d) mod L < loop_index L d nr * d + d.
Proof.
  intros HL Hd Hnr. unfold loop_index, loop_first.
  pose proof (Z.div_mod (nr * d) L) as Hdm.
  set (w := nr * d / L) in *. pose proof (ceil_div_spec (w * L) d Hd). nia.
Qed.

Lemma loop_index_next L d nr : 0 < L -> 0 < d -> d <= L -> 0 <= nr ->
  loop_index L d (nr + 1) = loop_index L d nr + 1 \/
  (loop_index L d (nr + 1) = 0 /\ L < (loop_index L d nr + 2) * d).
Proof.
  intros HL Hd HdL Hnr. unfold loop_index, loop_first.
  pose proof (Z.div_mod (nr * d) L) as Hdm. pose proof (Z.mod_pos_bound (nr * d) L) as Hmb.
  pose proof (Z.div_mod ((nr + 1) * d) L) as Hdm'. pose proof (Z.mod_pos_bound ((nr + 1) * d) L) as Hmb'.
  set (w := nr * d / L) in *. set (w' := (nr + 1) * d / L) in *.
  assert (w' = w \/ w' = w + 1) as [-> | ->] by nia; [left; lia|right].
  pose proof (ceil_div_spec (w * L) d Hd).
  assert (ceil_div ((w + 1) * L) d = nr + 1) as ->.
  { apply ceil_div_unique; [done|]. nia. }
  split; [lia|]. nia.
Qed.

Lemma loop_index_exact d k nr : 0 < d -> 0 < k -> loop_index (k * d) d nr = nr mod k.
Proof.
  intros Hd Hk. unfold loop_index, loop_first.
  rewrite Z.div_mul_cancel_r by lia.
  assert (ceil_div (nr / k * (k * d)) d = nr / k * k) as ->.
  { apply ceil_div_unique; [done|]. nia. }
  pose proof (Z.div_mod nr k). lia.
Qed.

End Timeline.

(** ** setLoopDuration *)
Section LoopDuration.
Context {M : Mp4Types}.

(** What [InitContentTrack] establishes: the counters describe the samples. *)
Record samples_consistent (t : ContentTrack) : Prop := {
  sc_wf : wf_track t;
  sc_dur : 0 < SampleDur t;
  sc_nr : len (Samples t) = NrSamples t;
  sc_duration : Duration t = NrSamples t * SampleDur t
}.

Lemma setLoopDur_track_Ret ms g t t' :
  setLoopDur_track ms g t = Ret t' -> exists L, t' = with_LoopDur t L /\
   (L = Duration t \/ L = u32 (ms * TimeScale t) / 1000 /\
      u32 (ms * TimeScale t) <= u32 (Duration t * 1000)).
Proof.
  unfold setLoopDur_track. intros H.
  repeat (case_match; simplify_out; try discriminate); eauto.
  eexists. split; [done|]. right. split; [done|].
  match goal with H : (_ <? _) = false |- _ => apply Z.ltb_ge in H; exact H end.
Qed.

Lemma setLoopDur_tracks_Ret ms g ts ts' :
  setLoopDur_tracks ms g ts = Ret ts' -> Forall2 (fun t t' => setLoopDur_track ms g t = Ret t') ts ts'.
Proof.
  revert ts'. induction ts as [|t ts IH]; intros ts' H; cbn in H; simplify_out; [constructor|].
  constructor; [done|]. by apply IH.
Qed.

Lemma setLoopDur_groups_Ret ms g gs gs' :
  setLoopDur_groups ms g gs = Ret gs' ->
  Forall2 (fun x y => exists i, setLoopDur_tracks ms i (Tracks x) = Ret (Tracks y)) gs gs'.
Proof.
  revert g gs'. induction gs as [|x gs IH]; intros g gs' H; cbn in H; simplify_out; [constructor|].
  constructor; [by eexists|]. by eapply IH.
Qed.

(** Every track of the result is a track of the asset with a loop duration
    that its samples cover. *)
Lemma setLoopDuration_tracks a a' g' t' :
  setLoopDuration a = Ret a' -> g' ∈ Groups a' -> t' ∈ Tracks g' ->
  exists g t, g ∈ Groups a /\ t ∈ Tracks g /\ exists L, t' = with_LoopDur t L /\
    (is_u 32 (Duration t) -> 0 <= L <= Duration t).
Proof.
  unfold setLoopDuration. destruct (Groups a) as [|g0 gs] eqn:Hg; [done|]. intros H Hg' Ht'.
  simplify_out. cbn [Groups] in Hg'.
  match goal with H : setLoopDur_groups _ _ _ = _ |- _ => apply setLoopDur_groups_Ret in H as HF end.
  apply list_elem_of_lookup in Hg' as [i Hi].
  destruct (Forall2_lookup_r _ _ _ _ _ HF Hi) as (g & Hgi & k & Hts).
  apply setLoopDur_tracks_Ret in Hts. apply list_elem_of_lookup in Ht' as [j Hj].
  destruct (Forall2_lookup_r _ _ _ _ _ Hts Hj) as (t & Htj & Hset).
  apply setLoopDur_track_Ret in Hset as (L & -> & HL).
  exists g, t. repeat split; [by eapply list_elem_of_lookup_2 | by eapply list_elem_of_lookup_2 |].
  exists L. split; [done|]. unfold is_u. intros HD.
  destruct HL as [-> | [-> HL]]; [lia|].
  pose proof (u32_range (a1 * TimeScale t)) as Hu. unfold u32, wrapu in *. dlia.
Qed.

(** The source sample of every output sample exists when the samples cover
    the loop. *)
Lemma loop_sample_exists t nr : sample_fits t nr -> LoopDur t <= len (Samples t) * SampleDur t ->
  exists o s, CalcSample t nr = Ret (nr * SampleDur t, o) /\ 0 <= o < len (Samples t) /\ index (Samples t) o = Ret s.
Proof.
  intros Hfits Hcover. rewrite CalcSample_loop by done. destruct Hfits as (Hnr0 & Hd & HLpos & _).
  destruct (loop_index_range (LoopDur t) (SampleDur t) nr) as [Hlo Hhi]; [lia..|].
  assert (loop_index (LoopDur t) (SampleDur t) nr < len (Samples t)).
  { eapply Z.lt_le_trans; [exact Hhi|]. by apply ceil_div_le_iff. }
  destruct (index_in_range (Samples t) (loop_index (LoopDur t) (SampleDur t) nr)) as [s Hs]; [lia|].
  eexists _, s. split; [done|]. split; [lia|exact Hs].
Qed.

End LoopDuration.

(** ** Properties of the timeline *)
(** C1. The MoQ groups of a track tile its samples: as long as the 64-bit
    products stay in range, every sample number lies in the range computed
    for exactly one group number. *)
Theorem sample_in_unique_group {M : Mp4Types} (t : ContentTrack) (D n : Z) :
  0 < D -> 0 < TimeScale t -> 0 < SampleDur t -> 0 <= n ->
  1000 * (n * SampleDur t + 1) + D * TimeScale t <= 2 ^ 64 ->
  exists g s e, group_fits t D g /\ calcMoQGroup t g D = Ret (s, e) /\ s <= n < e /\
    forall g' s' e', group_fits t D g' -> calcMoQGroup t g' D = Ret (s', e') -> s' <= n < e' -> g' = g.
Proof.
  intros HD HT Hd Hn Hfit.
  set (g := group_of t D n). pose proof (group_of_spec t D n Hd HD HT) as Hg. fold g in Hg.
  assert (Hfits : group_fits t D g).
  { unfold g, group_of, group_fits in *.
    pose proof (Z.div_mod (1000 * (n * SampleDur t + 1) - 1) (D * TimeScale t)) as Hdm.
    pose proof (Z.mod_pos_bound (1000 * (n * SampleDur t + 1) - 1) (D * TimeScale t)) as Hmb.
    assert (0 <= (1000 * (n * SampleDur t + 1) - 1) / (D * TimeScale t)) by (apply Z.div_pos; nia).
    set (q := _ / _) in *. assert ((q + 1) * (D * TimeScale t) < 2 ^ 64) by nia.
    repeat split; nia. }
  exists g, (edge t D g), (edge t D (g + 1)).
  split; [done|]. split; [by apply calcMoQGroup_edges|]. split; [done|].
  intros g' s' e' Hfits' Hcalc Hin. rewrite calcMoQGroup_edges in Hcalc by done.
  injection Hcalc as <- <-. symmetry. apply (edge_interval_unique t D g g' n); lia.
Qed.

Lemma sample_in_unique_group_witness :
  exists g s e, group_fits (timing_track "a" "audio" 48000 1024 469 480000) 1000 g /\
    calcMoQGroup (timing_track "a" "audio" 48000 1024 469 480000) g 1000 = Ret (s, e) /\
    s <= 83000000000 < e /\
    forall g' s' e', group_fits (timing_track "a" "audio" 48000 1024 469 480000) 1000 g' ->
      calcMoQGroup (timing_track "a" "audio" 48000 1024 469 480000) g' 1000 = Ret (s', e') ->
      s' <= 83000000000 < e' -> g' = g.
Proof. apply (sample_in_unique_group _ 1000 83000000000); cbn; lia. Defined.

(** Group boundaries do not drift: the first sample of group [g] starts at
    or after the group's wall-clock start, by less than one sample duration,
    whatever [g] is, and group [g + 1] starts where group [g] ends. *)
Theorem group_boundary_no_drift {M : Mp4Types} (t : ContentTrack) (D g s e : Z) :
  group_fits t D (g + 1) -> 0 <= g -> calcMoQGroup t g D = Ret (s, e) ->
  g * D * TimeScale t / 1000 <= s * SampleDur t < g * D * TimeScale t / 1000 + SampleDur t /\
  s <= e /\ exists e', calcMoQGroup t (g + 1) D = Ret (e, e').
Proof.
  intros Hfits1 Hg Hcalc.
  assert (Hfits : group_fits t D g) by (unfold group_fits in *; nia).
  rewrite calcMoQGroup_edges in Hcalc by done. injection Hcalc as <- <-.
  rewrite calcMoQGroup_edges by done. destruct Hfits as (? & ? & ? & Hd & ?).
  split; [|split; [apply edge_mono; lia | by eexists]].
  unfold edge. pose proof (ceil_div_spec (g * D * TimeScale t / 1000) (SampleDur t) Hd). lia.
Qed.

Lemma group_boundary_no_drift_witness :
  calcMoQGroup (timing_track "a" "audio" 48000 1024 469 480000) 1770000000 1000
    = Ret (82968750000, 82968750047) /\
  (1770000000 * 1000 * 48000 / 1000 <= 82968750000 * 1024 <
     1770000000 * 1000 * 48000 / 1000 + 1024 /\
   82968750000 <= 82968750047 /\
   exists e', calcMoQGroup (timing_track "a" "audio" 48000 1024 469 480000) (1770000000 + 1) 1000
      = Ret (82968750047, e')).
Proof.
  split; [reflexivity|].
  apply (group_boundary_no_drift (timing_track "a" "audio" 48000 1024 469 480000)
           1000 1770000000 82968750000 82968750047).
  - unfold group_fits. cbn. lia.
  - lia.
  - reflexivity.
Defined.

(** C2. A publisher that joins at wall-clock time [now] (ms) starts with the
    group after the current one: that group begins after [now], at most one
    group duration later, and its first sample is not yet due. *)
Theorem first_published_group_is_future {M : Mp4Types} (t : ContentTrack) (D now c s e : Z) :
  0 <= now -> 1000 <= TimeScale t -> group_fits t D (c + 1) ->
  CurrMoQGroupNr t now D = Ret c -> calcMoQGroup t (c + 1) D = Ret (s, e) ->
  now < (c + 1) * D <= now + D /\ now * TimeScale t < 1000 * (s * SampleDur t).
Proof.
  intros Hnow HT Hfits Hcurr Hcalc.
  rewrite calcMoQGroup_edges in Hcalc by done. injection Hcalc as <- <-.
  destruct Hfits as (? & HD & ? & Hd & ?).
  unfold CurrMoQGroupNr in Hcurr. rewrite udiv_Ret in Hcurr by lia. injection Hcurr as <-.
  pose proof (Z.div_mod now D). pose proof (Z.mod_pos_bound now D).
  assert (Hb : now < (now / D + 1) * D <= now + D) by nia. split; [done|].
  unfold edge. set (c := now / D) in *.
  pose proof (ceil_div_spec ((c + 1) * D * TimeScale t / 1000) (SampleDur t) Hd).
  pose proof (Z.div_mod ((c + 1) * D * TimeScale t) 1000).
  pose proof (Z.mod_pos_bound ((c + 1) * D * TimeScale t) 1000). nia.
Qed.

Lemma first_published_group_is_future_witness :
  CurrMoQGroupNr (timing_track "v" "video" 12800 512 250 128000) 1770000000123 1000 = Ret 1770000000 /\
  (1770000000123 < (1770000000 + 1) * 1000 <= 1770000000123 + 1000 /\
   1770000000123 * 12800 < 1000 * (44250000025 * 512)).
Proof.
  split; [reflexivity|].
  apply (first_published_group_is_future (timing_track "v" "video" 12800 512 250 128000)
           1000 1770000000123 1770000000 44250000025 44250000050); try reflexivity; cbn; try lia.
  unfold group_fits. cbn. lia.
Defined.

(** C3. [CalcSample] places output sample [nr] at [nr * SampleDur] and picks
    the source sample of the asset loop that covers that position, less than
    one sample early; the next output sample uses the next source sample, or
    restarts at sample 0 when the loop has run out. *)
Theorem CalcSample_follows_loop {M : Mp4Types} (t : ContentTrack) (nr start o : Z) :
  sample_fits t (nr + 1) -> 0 <= nr -> SampleDur t <= LoopDur t -> CalcSample t nr = Ret (start, o) ->
  start = nr * SampleDur t /\
  o * SampleDur t <= start mod LoopDur t < o * SampleDur t + SampleDur t /\
  exists o', CalcSample t (nr + 1) = Ret (start + SampleDur t, o') /\
    (o' = o + 1 \/ (o' = 0 /\ LoopDur t < (o + 2) * SampleDur t)).
Proof.
  intros Hfits1 Hnr HdL Hcalc.
  assert (Hfits : sample_fits t nr) by (unfold sample_fits in *; nia).
  rewrite CalcSample_loop in Hcalc by done. injection Hcalc as <- <-.
  destruct Hfits as (? & Hd & HL & ?).
  split; [done|]. split; [by apply loop_index_position|].
  eexists. rewrite CalcSample_loop by done.
  split; [f_equal; f_equal; lia|]. by apply loop_index_next.
Qed.

Lemma CalcSample_follows_loop_witness :
  CalcSample (timing_track "a" "audio" 48000 1024 469 480000) 468 = Ret (479232, 468) /\
  (479232 = 468 * 1024 /\ 468 * 1024 <= 479232 mod 480000 < 468 * 1024 + 1024 /\
   exists o', CalcSample (timing_track "a" "audio" 48000 1024 469 480000) (468 + 1)
      = Ret (479232 + 1024, o') /\ (o' = 468 + 1 \/ (o' = 0 /\ 480000 < (468 + 2) * 1024))).
Proof.
  split; [reflexivity|].
  apply (CalcSample_follows_loop (timing_track "a" "audio" 48000 1024 469 480000) 468 479232 468);
    try reflexivity; cbn; try lia. unfold sample_fits. cbn. lia.
Defined.

(** Once [setLoopDuration] has accepted an asset, no output sample number
    makes [CalcSample] select a source sample that does not exist, on any
    track of the asset whose loop is not empty. *)
Theorem loop_index_never_out_of_range {M : Mp4Types} (a a' : Asset) (g' : TrackGroup) (t' : ContentTrack) (nr : Z) :
  (forall g t, g ∈ Groups a -> t ∈ Tracks g -> samples_consistent t) ->
  setLoopDuration a = Ret a' -> g' ∈ Groups a' -> t' ∈ Tracks g' -> sample_fits t' nr ->
  exists o s, CalcSample t' nr = Ret (nr * SampleDur t', o) /\ index (Samples t') o = Ret s.
Proof.
  intros Hcons Hset Hg' Ht' Hfits.
  destruct (setLoopDuration_tracks a a' g' t' Hset Hg' Ht') as (g & t & Hg & Ht & L & -> & HL).
  destruct (Hcons g t Hg Ht) as [Hwf Hd Hnr Hdur].
  specialize (HL (wf_Duration t Hwf)).
  destruct (loop_sample_exists (with_LoopDur t L) nr Hfits) as (o & s & Hc & _ & Hs); [cbn; lia|].
  by exists o, s.
Qed.

(** The test asset of the repository: a 10 s video track at 25 fps and an
    audio track whose 469 samples of 1024 units slightly exceed 10 s. *)
Definition video10s : ContentTrack := timing_track "video" "video" 12800 512 250 0.
Definition audio10s : ContentTrack := timing_track "audio" "audio" 48000 1024 469 0.
Definition asset10s : Asset :=
  {| assetName := "test10s"; Groups := [mkTrackGroup 1 [video10s]; mkTrackGroup 2 [audio10s]];
     LoopDurMS := 0; SubtitleTracks := []; Drm := None; Eccp := None |}.

Lemma timing_track_consistent name ctype T d n L :
  is_u 32 T -> is_u 32 d -> is_u 32 n -> is_u 32 L -> 0 < d -> n * d < 2 ^ 32 ->
  samples_consistent (timing_track name ctype T d n L).
Proof.
  unfold is_u. intros HT Hd Hn HL Hd0 Hnd.
  assert (u32 (n * d) = n * d) as Hu by (apply u32_small; nia).
  split; cbn; rewrite ?Hu; try done.
  - split; cbn; rewrite ?Hu; unfold is_u; cbn; nia.
  - unfold len. rewrite length_fmap, length_seq. lia.
Qed.

Lemma asset10s_consistent g t : g ∈ Groups asset10s -> t ∈ Tracks g -> samples_consistent t.
Proof.
  intros Hg Ht. cbn in Hg.
  repeat match goal with
  | H : _ ∈ _ :: _ |- _ => apply elem_of_cons in H as [-> | H]
  | H : _ ∈ [] |- _ => by apply elem_of_nil in H
  | H : _ ∈ Tracks _ |- _ => cbn [Tracks] in H
  end; apply timing_track_consistent; unfold is_u; lia.
Qed.

Lemma loop_index_never_out_of_range_witness :
  exists a', setLoopDuration asset10s = Ret a' /\
  exists o s, CalcSample (with_LoopDur audio10s 480000) 83000000000 = Ret (83000000000 * 1024, o) /\
    index (Samples (with_LoopDur audio10s 480000)) o = Ret s.
Proof.
  eexists. split; [vm_compute; reflexivity|].
  eapply (loop_index_never_out_of_range asset10s _ (mkTrackGroup 2 [with_LoopDur audio10s 480000])
           (with_LoopDur audio10s 480000) 83000000000).
  - exact asset10s_consistent.
  - vm_compute; reflexivity.
  - apply list_elem_of_further, list_elem_of_here.
  - apply list_elem_of_here.
  - unfold sample_fits; cbn; lia.
Defined.

(** The 32-bit products of [setLoopDuration] overflow for assets longer
    than 2^32 / 1000 ticks: a one-track asset of exactly 60 s at 90 kHz, whose
    duration is a whole number of milliseconds, is rejected, while the same
    asset at 30 s is accepted with a loop of 30000 ms. *)
Theorem setLoopDuration_overflow :
  let asset n := {| assetName := "a"; Groups := [mkTrackGroup 1 [timing_track "v" "video" 90000 3600 n 0]];
                    LoopDurMS := 0; SubtitleTracks := []; Drm := None; Eccp := None |} in
  setLoopDuration (asset 1500) =
    Err (Errorf "group %d track %s not compatible with loop duration" ["0"; "v"]%string) /\
  (exists a', setLoopDuration (asset 750) = Ret a' /\ LoopDurMS a' = 30000).
Proof.
  cbv zeta. split; [vm_compute; reflexivity|]. eexists. split; vm_compute; reflexivity.
Qed.

(** ** Spatial-SVC groups *)
Section SVC.
Context {M : Mp4Types}.

Lemma svc_samples_ok_sync ct i samples :
  0 < GopLength ct -> 0 <= i -> i + len samples <= 2 ^ 32 ->
  svc_samples_ok ct i samples = Ret tt ->
  forall j s, samples !! j = Some s ->
    IsSync s = ((i + Z.of_nat j) mod GopLength ct =? 0) /\
    (IsSync s = true -> DecodeTime s mod TimeScale ct = 0).
Proof.
  intros Hgop. revert i. induction samples as [|s0 rest IH]; intros i Hi Hlen Hok j s Hj; [done|].
  unfold len in Hlen. cbn [length] in Hlen.
  cbn [svc_samples_ok] in Hok. rewrite umod_Ret in Hok by lia. cbn [obind] in Hok.
  rewrite u32_small in Hok by lia.
  case_match eqn:Hsync; [done|]. simplify_out.
  case_match eqn:Hdt; [done|].
  apply negb_false_iff, eqb_prop in Hsync.
  destruct j as [|j].
  - cbn in Hj. injection Hj as <-. rewrite Z.add_0_r. split; [done|].
    intros Hs. rewrite Hsync in Hs. rewrite Hs in Hdt. cbn in Hdt.
    apply negb_false_iff, Z.eqb_eq in Hdt. unfold umod in *. case_match; naive_solver.
  - cbn in Hj. replace (i + Z.of_nat (S j)) with (i + 1 + Z.of_nat j) by lia.
    apply IH; [lia | unfold len; lia | done | done].
Qed.

(** The GOP of a validated track is exactly one group long. *)
Lemma validateAV1SVCGOP_gop ct :
  validateAV1SVCGOP ct = Ret tt -> is_u 32 (TimeScale ct) -> 0 <= GopLength ct -> 0 <= SampleDur ct ->
  GopLength ct * SampleDur ct * 1000 < 2 ^ 64 ->
  0 < GopLength ct /\ 0 < SampleDur ct /\ 0 < TimeScale ct /\ GopLength ct * SampleDur ct = TimeScale ct
  /\ svc_samples_ok ct 0 (Samples ct) = Ret tt.
Proof.
  unfold validateAV1SVCGOP, MoqGroupDurMS, is_u. intros H HT Hg Hd Hfit.
  repeat (case_match; [done|]).
  repeat match goal with
  | H : _ || _ = false |- _ => apply orb_false_iff in H as [? ?]
  | H : (_ =? _) = false |- _ => apply Z.eqb_neq in H
  | H : negb _ = false |- _ => apply negb_false_iff, Z.eqb_eq in H
  end.
  rewrite u64_mul_l, !u64_small in * by nia. split; [lia|]. split; [lia|]. split; [lia|]. split; [lia | done].
Qed.

Lemma edge_whole_seconds t g : 0 < SampleDur t -> GopLength t * SampleDur t = TimeScale t ->
  edge t MoqGroupDurMS g = g * GopLength t.
Proof.
  intros Hd Hgop. unfold edge, MoqGroupDurMS. rewrite <- Hgop.
  replace (g * 1000 * (GopLength t * SampleDur t)) with (g * GopLength t * SampleDur t * 1000) by lia.
  rewrite Z.div_mul by lia. apply ceil_div_unique; lia.
Qed.
End SVC.

(** Every MoQ group of a validated AV1 spatial-SVC track whose loop holds
    whole GOPs starts with a sync sample, and holds exactly one GOP. *)
Theorem svc_group_starts_with_sync {M : Mp4Types} (t : ContentTrack) (g s e : Z) :
  wf_track t -> len (Samples t) = NrSamples t -> LoopDur t = NrSamples t * SampleDur t ->
  GopLength t * SampleDur t * 1000 < 2 ^ 64 -> NrSamples t mod GopLength t = 0 ->
  validateAV1SVCGOP t = Ret tt ->
  group_fits t MoqGroupDurMS g -> sample_fits t s -> calcMoQGroup t g MoqGroupDurMS = Ret (s, e) ->
  e = s + GopLength t /\
  exists o x, CalcSample t s = Ret (g * TimeScale t, o) /\ Samples t !! Z.to_nat o = Some x /\ IsSync x = true.
Proof.
  intros [HT _ HG HD HN HLwf] Hlen HL Hfit Hdiv Hval Hgf Hsf Hcalc.
  destruct (validateAV1SVCGOP_gop t Hval HT) as (Hgop & Hd & HTpos & Heq & Hsamples); [apply HG | apply HD | done |].
  rewrite calcMoQGroup_edges, !edge_whole_seconds in Hcalc by done. injection Hcalc as <- <-.
  split; [lia|].
  assert (Hk : 0 < NrSamples t) by (destruct Hsf as (_ & _ & HLp & _); nia).
  exists (g * GopLength t mod NrSamples t).
  rewrite CalcSample_loop, HL, loop_index_exact by done.
  destruct Hgf as (Hg & _).
  pose proof (Z.mod_pos_bound (g * GopLength t) (NrSamples t) Hk) as Hrange.
  destruct (lookup_lt_is_Some_2 (Samples t) (Z.to_nat (g * GopLength t mod NrSamples t))) as [x Hx];
    [unfold len in *; lia|].
  exists x. split; [do 2 f_equal; lia|]. split; [done|].
  destruct (svc_samples_ok_sync t 0 (Samples t) Hgop ltac:(lia)
              ltac:(unfold is_u in HN; lia) Hsamples _ _ Hx) as [-> _].
  apply Z.eqb_eq. rewrite Z2Nat.id by lia. cbn.
  apply Z.mod_divide in Hdiv as [k Hk']; [|lia].
  rewrite Hk', Z.mul_comm, (Z.mul_comm k), Z.mul_mod_distr_l by nia.
  rewrite Z.mul_comm. apply Z.mod_mul. lia.
Qed.

(** A 10 s SVC track: 25 fps, one sync sample every 25 frames. *)
Definition svc_track (nr : nat) : ContentTrack :=
  let t := timing_track "svc" "video" 12800 512 (Z.of_nat nr) (Z.of_nat nr * 512) in
  {| Name := Name t; ContentType := ContentType t; Language := Language t;
     SampleBitrate := 0; TimeScale := TimeScale t; Duration := Duration t; GopLength := 25;
     SampleDur := SampleDur t; NrSamples := NrSamples t; LoopDur := LoopDur t; SampleBatch := 1;
     Samples := (fun i => mkFullSample (if (Z.of_nat i mod 25 =? 0) then 2 ^ 25 else 2 ^ 24 + 2 ^ 16)
                            512 1 (Z.of_nat i * 512) []) <$> seq 0 nr;
     SpecData := None; Protection := ProtectionNone; contentProtectionRefIDs := [];
     cenc := None; ipd := None; currentIV := None; cc608 := None |}.

Lemma svc_group_starts_with_sync_witness :
  validateAV1SVCGOP (svc_track 250) = Ret tt /\
  44250000025 = 44250000000 + 25 /\
  exists o x, CalcSample (svc_track 250) 44250000000 = Ret (1770000000 * 12800, o) /\
    Samples (svc_track 250) !! Z.to_nat o = Some x /\ IsSync x = true.
Proof.
  split; [vm_compute; reflexivity|].
  apply (svc_group_starts_with_sync (svc_track 250) 1770000000 44250000000 44250000025);
    try (vm_compute; reflexivity).
  - split; unfold is_u; vm_compute; split; congruence.
  - unfold group_fits. vm_compute. repeat split; congruence.
  - unfold sample_fits. vm_compute. repeat split; congruence.
Defined.

(** [validateAV1SVCGOP] and [setLoopDuration] both accept a 10.48 s SVC
    track, whose last GOP is cut short by the end of the loop; from the second
    repetition on, MoQ groups of that track no longer start with a sync
    sample. *)
Theorem svc_partial_gop_loses_sync :
  validateAV1SVCGOP (svc_track 262) = Ret tt /\
  (exists a', setLoopDuration {| assetName := "a"; Groups := [mkTrackGroup 1 [svc_track 262]];
       LoopDurMS := 0; SubtitleTracks := []; Drm := None; Eccp := None |} = Ret a') /\
  exists s e st o x, calcMoQGroup (svc_track 262) 11 MoqGroupDurMS = Ret (s, e) /\
    CalcSample (svc_track 262) s = Ret (st, o) /\
    Samples (svc_track 262) !! Z.to_nat o = Some x /\ IsSync x = false.
Proof.
  split; [vm_compute; reflexivity|]. split; [eexists; vm_compute; reflexivity|].
  do 5 eexists. repeat split; vm_compute; reflexivity.
Qed.
