(* ===== verification/Catalog.v ===== *)
(** * The MSF catalog and its dependency graph

    The records of [internal/catalog.go], the lookups on them, and
    [dependencyOrder] of [internal/sub/sub.go], which orders a video track
    after everything it depends on. *)
From S2P Require Import Prelude Media GoFloat.
From stdpp Require Import relations.
Local Open Scope Z_scope.
Local Open Scope go_scope.

(** ** Data *)
Record Accessibility := mkAccessibility { accScheme : string; accValue : string }.

Record Track := mkTrack {
  trName : string; trNamespace : string; Packaging : string; LocmafVersion : string;
  IsLive : bool; TargetLatency : option Z; Role : string; Label : string;
  RenderGroup : option Z; AltGroup : option Z; InitRef : string;
  Dependencies : list string; TemporalID : option Z; SpatialID : option Z;
  trCodec : string; Framerate : option float64; Timescale : option Z; Bitrate : option Z;
  Width : option Z; Height : option Z; SampleRate : option Z; ChannelConfig : string;
  DisplayWidth : option Z; DisplayHeight : option Z; trLanguage : string;
  TrackDuration : option Z; EventType : string; ParentName : string;
  trContentProtectionRefIDs : list string; trAccessibility : list Accessibility
}.

(** The zero value of [Track]. *)
Definition emptyTrack : Track :=
  {| trName := ""; trNamespace := ""; Packaging := ""; LocmafVersion := "";
     IsLive := false; TargetLatency := None; Role := ""; Label := "";
     RenderGroup := None; AltGroup := None; InitRef := ""; Dependencies := [];
     TemporalID := None; SpatialID := None; trCodec := ""; Framerate := None;
     Timescale := None; Bitrate := None; Width := None; Height := None; SampleRate := None;
     ChannelConfig := ""; DisplayWidth := None; DisplayHeight := None; trLanguage := "";
     TrackDuration := None; EventType := ""; ParentName := "";
     trContentProtectionRefIDs := []; trAccessibility := [] |}.

Record DeltaOperation := mkDeltaOperation { Op : string; opTracks : list Track }.
Record InitData := mkInitData { idID : string; idType : string; idData : string }.

Record Catalog := mkCatalog {
  Version : string; GeneratedAt : option Z; IsComplete : bool;
  DeltaUpdate : list DeltaOperation; catTracks : list Track;
  InitDataList : list InitData; catContentProtections : list ContentProtection
}.

(** ** Lookups *)
Definition GetTrackByName (c : Catalog) (name : string) : option Track :=
  snd <$> list_find (fun t => trName t = name) (catTracks c).

Definition InitDataFor (c : Catalog) (t : option Track) : string * bool :=
  match t with
  | None => (EmptyString, false)
  | Some t =>
      if bool_decide (InitRef t = EmptyString) then (EmptyString, false)
      else match list_find (fun id => idID id = InitRef t) (InitDataList c) with
           | Some (_, id) => (idData id, true)
           | None => (EmptyString, false)
           end
  end.

(** The copy of the catalog that [String] marshals: inline data of more than
    20 characters is shortened. *)
Definition shortInitData (id : InitData) : InitData :=
  if (20 <? String.length (idData id))%nat then
    mkInitData (idID id) (idType id)
      (String.substring 0 20 (idData id) +:+ "..." +:+
       "(len=" +:+ pretty (String.length (idData id)) +:+ ")")
  else id.

Definition shortCatalog (c : Catalog) : Catalog :=
  mkCatalog (Version c) (GeneratedAt c) (IsComplete c) (DeltaUpdate c) (catTracks c)
    (shortInitData <$> InitDataList c) (catContentProtections c).

(** ** Dependency order

    The state of the recursive closure [visit]: the two maps and the ordered
    names.  [None] is "out of fuel"; [dependencyOrder] gives one unit of fuel
    more than the catalog has tracks, which theorem [dependencyOrder_correct]
    shows is always enough. *)
Record DepState := mkDepState {
  visiting : gset string; visited : gset string; ordered : list string
}.

Fixpoint visit (catalog : Catalog) (fuel : nat) (name : string) (s : DepState)
  : option (outcome DepState) :=
  match fuel with
  | O => None
  | S fuel =>
      if bool_decide (name ∈ visited s) then Some (Ret s)
      else if bool_decide (name ∈ visiting s) then
        Some (Err (Errorf "video dependency cycle at %q" [name]))
      else match GetTrackByName catalog name with
      | None => Some (Err (Errorf "video dependency track %q not found" [name]))
      | Some track =>
          let s := mkDepState ({[name]} ∪ visiting s) (visited s) (ordered s) in
          match (fix deps (ds : list string) (s : DepState) : option (outcome DepState) :=
                   match ds with
                   | [] => Some (Ret s)
                   | dependency :: ds =>
                       match visit catalog fuel dependency s with
                       | Some (Ret s) => deps ds s
                       | r => r
                       end
                   end) (Dependencies track) s with
          | Some (Ret s) =>
              Some (Ret (mkDepState (visiting s ∖ {[name]}) ({[name]} ∪ visited s)
                                    (ordered s ++ [name])))
          | r => r
          end
      end
  end.

Definition dependencyOrder (catalog : Catalog) (trackName : string) : option (outcome (list string)) :=
  match visit catalog (S (length (catTracks catalog))) trackName (mkDepState ∅ ∅ []) with
  | Some (Ret s) => Some (Ret (ordered s))
  | Some (Err e) => Some (Err e)
  | Some Panic => Some Panic
  | None => None
  end.

(** The loop over a track's dependencies, on its own. *)
Fixpoint visit_deps (catalog : Catalog) (fuel : nat) (ds : list string) (s : DepState)
  : option (outcome DepState) :=
  match ds with
  | [] => Some (Ret s)
  | d :: ds => match visit catalog fuel d s with
               | Some (Ret s) => visit_deps catalog fuel ds s
               | r => r
               end
  end.

Lemma visit_unfold catalog fuel name s :
  visit catalog (S fuel) name s =
  if bool_decide (name ∈ visited s) then Some (Ret s)
  else if bool_decide (name ∈ visiting s) then
    Some (Err (Errorf "video dependency cycle at %q" [name]))
  else match GetTrackByName catalog name with
  | None => Some (Err (Errorf "video dependency track %q not found" [name]))
  | Some track =>
      match visit_deps catalog fuel (Dependencies track)
              (mkDepState ({[name]} ∪ visiting s) (visited s) (ordered s)) with
      | Some (Ret s) =>
          Some (Ret (mkDepState (visiting s ∖ {[name]}) ({[name]} ∪ visited s) (ordered s ++ [name])))
      | r => r
      end
  end.
Proof.
  cbn [visit]. case_bool_decide; [done|]. case_bool_decide; [done|].
  destruct (GetTrackByName catalog name) as [track|]; [|done].
  generalize (mkDepState ({[name]} ∪ visiting s) (visited s) (ordered s)) as s0. intros s0.
  match goal with |- match ?a with _ => _ end = match ?b with _ => _ end => assert (a = b) as ->; [|done] end.
  revert s0. induction (Dependencies track) as [|d ds IH]; intros s0; cbn [visit_deps]; [done|].
  destruct (visit catalog fuel d s0) as [[]|]; auto.
Qed.

(** ** Correctness of the closure *)

(** [depends c a b]: the catalog lists track [a], which depends on [b]. *)
Definition depends (c : Catalog) (a b : string) : Prop :=
  exists t, GetTrackByName c a = Some t /\ b ∈ Dependencies t.

(** The ordered names so far are distinct, are the visited ones, are tracks of
    the catalog, and every dependency comes before its dependant. *)
Definition topological (c : Catalog) (ord : list string) : Prop :=
  forall i n, ord !! i = Some n -> exists t, GetTrackByName c n = Some t /\
    forall d, d ∈ Dependencies t -> exists j, (j < i)%nat /\ ord !! j = Some d.

Record dep_inv (c : Catalog) (s : DepState) : Prop := {
  di_nodup : NoDup (ordered s);
  di_visited : forall n, n ∈ visited s <-> n ∈ ordered s;
  di_disjoint : forall n, n ∈ visiting s -> n ∉ visited s;
  di_topo : topological c (ordered s)
}.

(** What a successful [visit] adds: new names, all reachable from the start. *)
Record dep_ext (c : Catalog) (from : string) (s s' : DepState) : Prop := {
  de_inv : dep_inv c s';
  de_visiting : visiting s' = visiting s;
  de_new : exists new, ordered s' = ordered s ++ new /\ forall n, n ∈ new -> rtc (depends c) from n
}.

(** The failures that [visit] reports are real. *)
Definition dep_failure (c : Catalog) (from : string) : Prop :=
  exists n, rtc (depends c) from n /\ (tc (depends c) n n \/ GetTrackByName c n = None).

Lemma topological_snoc c ord n t :
  topological c ord -> GetTrackByName c n = Some t -> (forall d, d ∈ Dependencies t -> d ∈ ord) ->
  topological c (ord ++ [n]).
Proof.
  intros Htopo Ht Hdeps i m Hi. apply lookup_app_Some in Hi as [Hi | [Hlen Hi]].
  - destruct (Htopo i m Hi) as (t' & Ht' & Hd). exists t'. split; [done|].
    intros d Hd'. destruct (Hd d Hd') as (j & Hj & Hjd). exists j. split; [done|].
    by apply lookup_app_l_Some.
  - apply list_lookup_singleton_Some in Hi as [Hi <-].
    exists t. split; [done|]. intros d Hd.
    apply Hdeps, list_elem_of_lookup in Hd as [j Hj]. exists j.
    split; [apply lookup_lt_Some in Hj; lia | by apply lookup_app_l_Some].
Qed.

Lemma dep_inv_enter c s n : dep_inv c s -> n ∉ visited s ->
  dep_inv c (mkDepState ({[n]} ∪ visiting s) (visited s) (ordered s)).
Proof. intros [? ? Hd ?] Hn. split; cbn; try done. intros m Hm. set_solver. Qed.

Lemma dep_inv_leave c s n t : dep_inv c s -> n ∈ visiting s -> GetTrackByName c n = Some t ->
  (forall d, d ∈ Dependencies t -> d ∈ visited s) ->
  dep_inv c (mkDepState (visiting s ∖ {[n]}) ({[n]} ∪ visited s) (ordered s ++ [n])).
Proof.
  intros [Hnd Hv Hd Ht] Hn Htr Hdeps. split; cbn.
  - apply NoDup_app. split; [done|]. split; [|apply NoDup_singleton].
    intros m Hm Hm'. apply list_elem_of_singleton in Hm' as ->. apply Hv in Hm. by apply (Hd n).
  - intros m. rewrite elem_of_app, elem_of_union, elem_of_singleton, list_elem_of_singleton, Hv. tauto.
  - intros m Hm. set_solver.
  - eapply topological_snoc; [done | done |]. intros d Hin. by apply Hv, Hdeps.
Qed.


Lemma GetTrackByName_In c name t : GetTrackByName c name = Some t ->
  t ∈ catTracks c /\ trName t = name.
Proof.
  unfold GetTrackByName. intros H. apply fmap_Some in H as ([i t'] & Hf & ->).
  apply list_find_Some in Hf as (Hi & Hn & _). split; [by eapply list_elem_of_lookup_2 | done].
Qed.

Definition track_names (c : Catalog) : gset string := list_to_set (trName <$> catTracks c).

Lemma track_names_size c : (size (track_names c) <= length (catTracks c))%nat.
Proof.
  unfold track_names. induction (catTracks c) as [|t ts IH]; cbn; [done|].
  rewrite size_union_alt, size_singleton.
  assert (size (list_to_set (trName <$> ts) ∖ {[trName t]}) <=
          size (list_to_set (C:=gset string) (trName <$> ts)))%nat by (apply subseteq_size; set_solver).
  cbn in *. lia.
Qed.

Definition budget (c : Catalog) (s : DepState) : nat := size (track_names c ∖ visiting s).

Lemma budget_enter c s n t : GetTrackByName c n = Some t -> n ∉ visiting s ->
  (budget c (mkDepState ({[n]} ∪ visiting s) (visited s) (ordered s)) < budget c s)%nat.
Proof.
  intros Ht Hn. apply GetTrackByName_In in Ht as [Hin <-]. unfold budget. cbn.
  apply subset_size. split; [set_solver|]. intros Hsub.
  assert (trName t ∈ track_names c).
  { unfold track_names. apply elem_of_list_to_set, list_elem_of_fmap. eauto. }
  set_solver.
Qed.

Definition visit_post (c : Catalog) (fuel : nat) (name : string) (s : DepState)
    (r : option (outcome DepState)) : Prop :=
  match r with
  | None => (fuel <= budget c s)%nat
  | Some (Ret s') => dep_ext c name s s' /\ name ∈ visited s'
  | Some (Err _) => dep_failure c name
  | Some Panic => False
  end.

Definition deps_post (c : Catalog) (fuel : nat) (name : string) (ds : list string) (s : DepState)
    (r : option (outcome DepState)) : Prop :=
  match r with
  | None => (fuel <= budget c s)%nat
  | Some (Ret s') => dep_ext c name s s' /\ forall d, d ∈ ds -> d ∈ visited s'
  | Some (Err _) => dep_failure c name
  | Some Panic => False
  end.

Lemma dep_failure_step c a b : depends c a b -> dep_failure c b -> dep_failure c a.
Proof. intros Hab (n & Hn & Hf). exists n. split; [by eapply rtc_l | done]. Qed.

Lemma dep_ext_visited c from s s' n : dep_inv c s -> dep_ext c from s s' -> n ∈ visited s -> n ∈ visited s'.
Proof.
  intros Hs [Hs' _ (new & Hord & _)] Hn. apply (di_visited c s' Hs'). rewrite Hord.
  apply elem_of_app. left. by apply (di_visited c s Hs).
Qed.

Lemma visit_deps_spec c fuel name ds s :
  (forall d s, dep_inv c s -> (forall v, v ∈ visiting s -> tc (depends c) v d) ->
     visit_post c fuel d s (visit c fuel d s)) ->
  dep_inv c s -> (forall d, d ∈ ds -> depends c name d) ->
  (forall v, v ∈ visiting s -> rtc (depends c) v name) ->
  deps_post c fuel name ds s (visit_deps c fuel ds s).
Proof.
  intros IHvisit. revert s. induction ds as [|d ds IH]; intros s Hs Hds Hv; cbn [visit_deps].
  - split; [|set_solver]. split; [done | done | exists []; split; [by rewrite app_nil_r | set_solver]].
  - assert (Hd : depends c name d) by (apply Hds; set_solver).
    assert (Hpost' : visit_post c fuel d s (visit c fuel d s)).
    { apply IHvisit; [done|]. intros v Hvv. eapply tc_rtc_l; [by apply Hv | by apply tc_once]. }
    destruct (visit c fuel d s) as [[s1|e|]|]; cbn in *; [| by eapply dep_failure_step | done | done].
    destruct Hpost' as [Hext Hdv]. pose proof Hext as [Hs1 Hvis1 (new1 & Hord1 & Hnew1)].
    assert (Hpost : deps_post c fuel name ds s1 (visit_deps c fuel ds s1)).
    { apply IH; [done | |]. - intros d' Hd'. apply Hds. set_solver. - intros v. rewrite Hvis1. apply Hv. }
    destruct (visit_deps c fuel ds s1) as [[s2|e|]|]; cbn in *; [| done | done | unfold budget in *; by rewrite Hvis1 in Hpost].
    destruct Hpost as [Hext2 Hdv2]. pose proof Hext2 as [Hs2 Hvis2 (new2 & Hord2 & Hnew2)].
    split.
    + split; [done | congruence |]. exists (new1 ++ new2). split; [by rewrite Hord2, Hord1, app_assoc|].
      intros n [Hn | Hn]%elem_of_app; [|by apply Hnew2].
      eapply rtc_l; [exact Hd|]. by apply Hnew1.
    + intros d' [-> | Hd']%elem_of_cons; [by apply (dep_ext_visited c name s1 s2) | by apply Hdv2].
Qed.

Lemma visit_spec c fuel : forall name s, dep_inv c s ->
  (forall v, v ∈ visiting s -> tc (depends c) v name) ->
  visit_post c fuel name s (visit c fuel name s).
Proof.
  induction fuel as [|fuel IH]; intros name s Hs Hv; [cbn; lia|].
  rewrite visit_unfold. case_bool_decide as Hvd.
  { split; [|done]. split; [done | done | exists []; split; [by rewrite app_nil_r | set_solver]]. }
  case_bool_decide as Hvg. { exists name. split; [done | left; by apply Hv]. }
  destruct (GetTrackByName c name) as [t|] eqn:Ht; [| exists name; split; [done | by right]].
  set (s1 := mkDepState ({[name]} ∪ visiting s) (visited s) (ordered s)).
  assert (Hs1 : dep_inv c s1) by by apply dep_inv_enter.
  assert (Hpost : deps_post c fuel name (Dependencies t) s1 (visit_deps c fuel (Dependencies t) s1)).
  { apply visit_deps_spec; [exact IH | done | intros d Hd; by exists t |].
    intros v [->%elem_of_singleton | Hvv]%elem_of_union; [done | by apply tc_rtc, Hv]. }
  destruct (visit_deps c fuel (Dependencies t) s1) as [[s2|e|]|]; cbn in *; [| done | done |].
  - destruct Hpost as [Hext Hdeps]. pose proof Hext as [Hs2 Hvis2 (new & Hord & Hnew)].
    split; [|set_solver]. split; cbn.
    + eapply dep_inv_leave; [done | rewrite Hvis2; cbn; set_solver | done | done].
    + rewrite Hvis2. cbn. set_solver.
    + exists (new ++ [name]). split; [rewrite Hord; cbn; by rewrite app_assoc|].
      intros n [Hn | ->%list_elem_of_singleton]%elem_of_app; [by apply Hnew | done].
  - pose proof (budget_enter c s name t Ht Hvg). fold s1 in H. lia.
Qed.

Lemma topological_tc c ord a b i : topological c ord -> tc (depends c) a b -> ord !! i = Some a ->
  exists j, (j < i)%nat /\ ord !! j = Some b.
Proof.
  intros Htopo Htc. revert i.
  induction Htc as [a b (t & Ht & Hb) | a b d (t & Ht & Hb) _ IH]; intros i Hi;
    destruct (Htopo i a Hi) as (t' & Ht' & Hdeps); simplify_eq;
    destruct (Hdeps b Hb) as (j & Hj & Hjb); [by eauto|].
  destruct (IH j Hjb) as (k & Hk & Hkd). exists k. split; [lia | done].
Qed.

Lemma topological_closed c ord a b : topological c ord -> a ∈ ord -> rtc (depends c) a b -> b ∈ ord.
Proof.
  intros Htopo Ha [-> | Htc]%rtc_tc; [done|].
  apply list_elem_of_lookup in Ha as [i Hi].
  destruct (topological_tc c ord a b i Htopo Htc Hi) as (j & _ & Hj). by eapply list_elem_of_lookup_2.
Qed.

Lemma topological_no_failure c ord from : topological c ord -> NoDup ord -> from ∈ ord ->
  ~ dep_failure c from.
Proof.
  intros Htopo Hnd Hfrom (n & Hn & Hf).
  pose proof (topological_closed c ord from n Htopo Hfrom Hn) as Hin.
  apply list_elem_of_lookup in Hin as [i Hi]. destruct Hf as [Hcyc | Hnone].
  - destruct (topological_tc c ord n n i Htopo Hcyc Hi) as (j & Hj & Hjn).
    pose proof (NoDup_lookup ord i j n Hnd Hi Hjn). lia.
  - destruct (Htopo i n Hi) as (t & Ht & _). congruence.
Qed.

(** ** Properties *)

(** C4. [dependencyOrder] always terminates with a result.  On success the
    names are exactly the tracks reachable from the start through
    dependencies, each once, every dependency before its dependant, the
    requested track last.  It fails exactly when a dependency cycle or a
    missing track is reachable, and never panics. *)
Theorem dependencyOrder_correct (c : Catalog) (name : string) :
  exists r, dependencyOrder c name = Some r /\
    match r with
    | Ret ord => NoDup ord /\ last ord = Some name /\ topological c ord /\
        (forall n, n ∈ ord <-> rtc (depends c) name n) /\ ~ dep_failure c name
    | Err _ => dep_failure c name
    | Panic => False
    end.
Proof.
  set (s0 := mkDepState ∅ ∅ []).
  assert (Hs0 : dep_inv c s0) by (split; cbn; [constructor | set_solver | set_solver | by intros ??]).
  pose proof (visit_spec c (S (length (catTracks c))) name s0 Hs0 ltac:(cbn; set_solver)) as Hpost.
  unfold dependencyOrder. fold s0.
  destruct (visit _ _ name s0) as [[s|e|]|] eqn:Hvisit; cbn in Hpost; [| by eauto | done |].
  - eexists. split; [done|]. destruct Hpost as [[Hinv _ (new & Hord & Hnew)] Hin].
    destruct Hinv as [Hnd Hvis _ Htopo]. cbn in Hord. apply Hvis in Hin.
    split; [done|]. split; [|split; [done|]].
    + rewrite visit_unfold in Hvisit. cbn [visited visiting s0] in Hvisit.
      rewrite !bool_decide_eq_false_2 in Hvisit by set_solver.
      repeat case_match; simplify_eq; cbn. by rewrite last_snoc.
    + split; [|by eapply topological_no_failure].
      intros n. split; [rewrite Hord; apply Hnew | by apply topological_closed].
  - exfalso. pose proof (track_names_size c). unfold budget in Hpost. cbn in Hpost.
    assert (size (track_names c ∖ ∅) <= size (track_names c))%nat by (apply subseteq_size; set_solver).
    lia.
Qed.

(** A spatial-SVC catalog: [video/s2] depends on [video/s1] depends on [video/s0]. *)
Definition svc_entry (name : string) (deps : list string) (sid : Z) : Track :=
  {| trName := name; trNamespace := ""; Packaging := "loc"; LocmafVersion := "";
     IsLive := true; TargetLatency := None; Role := "video"; Label := "";
     RenderGroup := None; AltGroup := None; InitRef := ""; Dependencies := deps;
     TemporalID := None; SpatialID := Some sid; trCodec := "av01.0.04M.08"; Framerate := None;
     Timescale := None; Bitrate := None; Width := None; Height := None; SampleRate := None;
     ChannelConfig := ""; DisplayWidth := None; DisplayHeight := None; trLanguage := "";
     TrackDuration := None; EventType := ""; ParentName := "";
     trContentProtectionRefIDs := []; trAccessibility := [] |}.

Definition catalog_of (ts : list Track) : Catalog :=
  {| Version := "draft-01"; GeneratedAt := None; IsComplete := false; DeltaUpdate := [];
     catTracks := ts; InitDataList := []; catContentProtections := [] |}.

Definition svc_catalog : Catalog :=
  catalog_of [svc_entry "video/s0" [] 0; svc_entry "video/s1" ["video/s0"%string] 1;
              svc_entry "video/s2" ["video/s1"%string] 2].

Example dependencyOrder_svc :
  dependencyOrder svc_catalog "video/s2" = Some (Ret ["video/s0"; "video/s1"; "video/s2"]%string).
Proof. vm_compute. reflexivity. Qed.

Example dependencyOrder_cycle :
  dependencyOrder (catalog_of [svc_entry "a" ["b"%string] 0; svc_entry "b" ["a"%string] 1]) "a"
  = Some (Err (Errorf "video dependency cycle at %q" ["a"%string])).
Proof. vm_compute. reflexivity. Qed.

Lemma GetTrackByName_first c name i t : catTracks c !! i = Some t -> trName t = name ->
  (forall j u, (j < i)%nat -> catTracks c !! j = Some u -> trName u <> name) ->
  GetTrackByName c name = Some t.
Proof.
  intros Hi Hn Hfirst. unfold GetTrackByName.
  assert (list_find (fun t => trName t = name) (catTracks c) = Some (i, t)) as ->; [|done].
  apply list_find_Some. split; [done|]. split; [done|]. intros j u Hu Hj. by apply (Hfirst j u).
Qed.

(** [InitDataFor] resolves an init reference to the data of the first
    entry of the catalog's list with that id, and reports a missing track, an
    empty reference and an unknown id alike. *)
Theorem InitDataFor_spec (c : Catalog) (t : option Track) (d : string) (ok : bool) :
  InitDataFor c t = (d, ok) ->
  if ok then exists tr i id, t = Some tr /\ InitRef tr <> EmptyString /\ InitDataList c !! i = Some id /\
       idID id = InitRef tr /\ idData id = d /\
       (forall j id', (j < i)%nat -> InitDataList c !! j = Some id' -> idID id' <> InitRef tr)
  else d = EmptyString /\ forall tr, t = Some tr ->
       InitRef tr = EmptyString \/ forall id, id ∈ InitDataList c -> idID id <> InitRef tr.
Proof.
  unfold InitDataFor. destruct t as [tr|]; [|intros [= <- <-]; done].
  case_bool_decide as Href; [intros [= <- <-]; naive_solver|].
  destruct (list_find _ _) as [[i id]|] eqn:Hf; intros [= <- <-].
  - apply list_find_Some in Hf as (Hi & Hid & Hfirst). exists tr, i, id.
    repeat split; try done. intros j id' Hj Hid'. eapply Hfirst; eauto.
  - split; [done|]. intros ? [= <-]. right. intros id Hid.
    apply list_find_None in Hf. rewrite Forall_forall in Hf. by apply Hf.
Qed.

(** A CMAF track and its LOCMAF counterpart share one init-data entry. *)
Definition shared_init_catalog : Catalog :=
  {| Version := "draft-01"; GeneratedAt := None; IsComplete := false; DeltaUpdate := [];
     catTracks := []; catContentProtections := [];
     InitDataList := [mkInitData "init-v" "inline" "AAAA"; mkInitData "init-a" "inline" "BBBB"] |}.

Definition with_InitRef (t : Track) (r : string) : Track :=
  {| trName := trName t; trNamespace := trNamespace t; Packaging := Packaging t;
     LocmafVersion := LocmafVersion t; IsLive := IsLive t; TargetLatency := TargetLatency t;
     Role := Role t; Label := Label t; RenderGroup := RenderGroup t; AltGroup := AltGroup t;
     InitRef := r; Dependencies := Dependencies t; TemporalID := TemporalID t;
     SpatialID := SpatialID t; trCodec := trCodec t; Framerate := Framerate t;
     Timescale := Timescale t; Bitrate := Bitrate t; Width := Width t; Height := Height t;
     SampleRate := SampleRate t; ChannelConfig := ChannelConfig t;
     DisplayWidth := DisplayWidth t; DisplayHeight := DisplayHeight t;
     trLanguage := trLanguage t; TrackDuration := TrackDuration t; EventType := EventType t;
     ParentName := ParentName t; trContentProtectionRefIDs := trContentProtectionRefIDs t;
     trAccessibility := trAccessibility t |}.

Lemma InitDataFor_spec_witness :
  exists tr i id, Some (with_InitRef emptyTrack "init-a") = Some tr /\ InitRef tr <> EmptyString /\
    InitDataList shared_init_catalog !! i = Some id /\ idID id = InitRef tr /\ idData id = "BBBB"%string /\
    (forall j id', (j < i)%nat -> InitDataList shared_init_catalog !! j = Some id' -> idID id' <> InitRef tr).
Proof.
  apply (InitDataFor_spec shared_init_catalog (Some (with_InitRef emptyTrack "init-a")) "BBBB" true).
  vm_compute. reflexivity.
Defined.
