(* ===== verification/Loc.v ===== *)
(** * LOC objects: extension headers and frame marking

    The publisher's [buildLOCObject], [locFrameMarking] and [locPriority]
    ([internal/pub/pub.go]) and the subscriber's [getLOCFrameMarking],
    [locTimestampMicros] ([internal/sub/loc.go]) and [validPlaybackMarking]
    ([internal/sub/playback.go]).  The two packages both use the name
    [locFrameMarking], hence the modules [Pub] and [Sub]. *)
From S2P Require Import Prelude Media.
Local Open Scope Z_scope.
Local Open Scope go_scope.

Definition locPropFrameMark : Z := 0x04.
Definition locPropTimestamp : Z := 0x06.
Definition MediaPriority : Z := 128.

(** [moqtransport.KeyValuePair] and [KVPList]; [mkKVP] is the composite
    literal that leaves [ValueBytes] nil. *)
Record KeyValuePair := mkKeyValuePair { kvType : Z; ValueBytes : bytes; ValueVarInt : Z }.
Abbreviation mkKVP t v := (mkKeyValuePair t [] v).
Abbreviation KVPList := (list KeyValuePair).

Module Pub.
Section Pub.
Context {M : Mp4Types}.

Definition locPriority (spatialID : Z) : Z := u8 (MediaPriority + spatialID).

Definition locFrameMarking (spatialID : Z) (independent : bool) : Z :=
  let first := 0xc0 in
  let first := if independent then Z.lor first 0x20 else first in
  Z.lor (u64 (Z.shiftl first 8)) spatialID.

Definition buildLOCObject (data : bytes) (sync : bool) (sampleTime timebase : Z)
    (videoConfig : bytes) (spatialLayer : option AV1SpatialLayer) : outcome (KVPList * bytes) :=
  let spatialID := match spatialLayer with Some l => layerSpatialID l | None => 0 end in
  let payload :=
    if sync && (0 <? len videoConfig) && (match spatialLayer with None => true | _ => false end || (spatialID =? 0))
    then videoConfig ++ data else data in
  let! q := udiv sampleTime timebase in
  let! r := umod sampleTime timebase in
  let! f := udiv (u64 (r * 1000000)) timebase in
  let timestampUs := u64 (u64 (q * 1000000) + f) in
  let headers := [mkKVP locPropTimestamp timestampUs] in
  let headers := match spatialLayer with
    | Some _ => headers ++ [mkKVP locPropFrameMark (locFrameMarking spatialID sync)]
    | None => headers
    end in
  Ret (headers, payload).
End Pub.
End Pub.

Module Sub.
Record locFrameMarking := mkMarking {
  Start : bool; End_ : bool; Independent : bool; Discardable : bool;
  BaseLayerSync : bool; markTemporalID : Z; LayerID : Z
}.

Definition noMarking : locFrameMarking := mkMarking false false false false false 0 0.

(** The result is the marking and whether one is present; an oversized value
    is an error. *)
Fixpoint getLOCFrameMarking (headers : KVPList) : outcome (locFrameMarking * bool) :=
  match headers with
  | [] => Ret (noMarking, false)
  | kv :: rest =>
      if negb (kvType kv =? locPropFrameMark) then getLOCFrameMarking rest
      else if ValueVarInt kv >? 0xffff then errorf "LOC frame marking exceeds two bytes"
      else
        let flags := u8 (Z.shiftr (ValueVarInt kv) 8) in
        let set m := negb (Z.land flags m =? 0) in
        Ret ({| Start := set 0x80; End_ := set 0x40; Independent := set 0x20;
                Discardable := set 0x10; BaseLayerSync := set 0x08;
                markTemporalID := Z.land flags 0x07; LayerID := u8 (ValueVarInt kv) |}, true)
  end.

Fixpoint locTimestampMicros (headers : KVPList) : Z * bool :=
  match headers with
  | [] => (0, false)
  | kv :: rest =>
      if kvType kv =? locPropTimestamp then (ValueVarInt kv, true) else locTimestampMicros rest
  end.

Definition validPlaybackMarking (marking : locFrameMarking) (spatialID : Z) : bool :=
  Start marking && End_ marking && negb (Discardable marking) &&
  negb (BaseLayerSync marking) && (markTemporalID marking =? 0) &&
  (LayerID marking =? spatialID).
End Sub.

(** ** Properties *)

(** [locFrameMarking] in closed form. *)
Lemma locFrameMarking_value sid ind : 0 <= sid < 256 ->
  Pub.locFrameMarking sid ind = (if ind then 0xe000 else 0xc000) + sid.
Proof.
  intros H. unfold Pub.locFrameMarking. 
  rewrite u64_small by (destruct ind; vm_compute; split; congruence).
  rewrite Z.lor_comm. destruct ind; [change (Z.lor 0xc0 0x20) with 0xe0|];
    rewrite lor_disjoint_add by lia; lia.
Qed.

(** Decoding the frame marking that the publisher attaches to an object
    of spatial layer [sid] gives back that layer, the sync flag as the
    independent bit, and start and end set with nothing else; it is the marking
    that simulated playback accepts for the track of that layer, and no other. *)
Theorem frame_marking_roundtrip (sid : Z) (sync : bool) (before after : KVPList) :
  0 <= sid < 256 -> (forall kv, kv ∈ before -> kvType kv <> locPropFrameMark) ->
  exists m, Sub.getLOCFrameMarking (before ++ mkKVP locPropFrameMark (Pub.locFrameMarking sid sync) :: after)
              = Ret (m, true) /\
    m = Sub.mkMarking true true sync false false 0 sid /\
    forall sid', Sub.validPlaybackMarking m sid' = true <-> sid' = sid.
Proof.
  intros Hsid Hbefore. exists (Sub.mkMarking true true sync false false 0 sid).
  split; [|split; [done|]].
  - induction before as [|kv before IH]; cbn [app Sub.getLOCFrameMarking].
    + cbn [kvType ValueVarInt]. rewrite Z.eqb_refl, locFrameMarking_value by done. cbn [negb].
      destruct (Z.gtb_spec ((if sync then 57344 else 49152) + sid) 65535); [destruct sync; lia|].
      assert (u8 (Z.shiftr ((if sync then 57344 else 49152) + sid) 8) = if sync then 0xe0 else 0xc0) as ->.
      { unfold u8, wrapu. rewrite Z.shiftr_div_pow2 by lia. destruct sync; dlia. }
      assert (u8 ((if sync then 57344 else 49152) + sid) = sid) as ->.
      { unfold u8, wrapu. destruct sync; dlia. }
      destruct sync; reflexivity.
    + assert (kvType kv <> locPropFrameMark) as Hkv by (apply Hbefore; set_solver).
      rewrite (proj2 (Z.eqb_neq _ _) Hkv). cbn [negb]. apply IH. set_solver.
  - intros sid'. unfold Sub.validPlaybackMarking. cbn.
    rewrite Z.eqb_eq. split; congruence.
Qed.

Lemma frame_marking_roundtrip_witness :
  exists m, Sub.getLOCFrameMarking ([mkKVP locPropTimestamp 5] ++ mkKVP locPropFrameMark (Pub.locFrameMarking 2 true) :: [])
              = Ret (m, true) /\
    m = Sub.mkMarking true true true false false 0 2 /\
    forall sid', Sub.validPlaybackMarking m sid' = true <-> sid' = 2.
Proof.
  apply (frame_marking_roundtrip 2 true [mkKVP locPropTimestamp 5] []); [lia|].
  intros kv Hkv%list_elem_of_singleton. subst. cbn. discriminate.
Defined.

(** The split multiplication of the timestamp is exact. *)
Lemma split_scale_exact st tb k : 0 < tb -> 0 <= st -> st / tb * k + st mod tb * k / tb = st * k / tb.
Proof.
  intros Htb Hst. pose proof (Z.div_mod st tb).
  replace (st * k) with (st mod tb * k + st / tb * k * tb) by nia.
  rewrite Z.div_add by lia. lia.
Qed.

(** The object in closed form. *)
Lemma buildLOCObject_value {M : Mp4Types} (data : bytes) (sync : bool) (st tb : Z) (cfg : bytes)
    (layer : option AV1SpatialLayer) :
  0 < tb < 2 ^ 32 -> 0 <= st -> st * 1000000 / tb < 2 ^ 64 ->
  Pub.buildLOCObject data sync st tb cfg layer = Ret
    (mkKVP locPropTimestamp (st * 1000000 / tb) ::
       match layer with
       | Some l => [mkKVP locPropFrameMark (Pub.locFrameMarking (layerSpatialID l) sync)]
       | None => []
       end,
     if sync && (0 <? len cfg) &&
        match layer with Some l => layerSpatialID l =? 0 | None => true end then cfg ++ data else data).
Proof.
  intros Htb Hst Hfit. unfold Pub.buildLOCObject.
  assert (Hts : u64 (u64 (st / tb * 1000000) + u64 (st mod tb * 1000000) / tb) = st * 1000000 / tb).
  { pose proof (split_scale_exact st tb 1000000). pose proof (Z.mod_pos_bound st tb).
    assert (0 <= st mod tb * 1000000 / tb) by (apply Z.div_pos; nia).
    assert (0 <= st / tb) by (apply Z.div_pos; lia).
    rewrite (u64_small (st mod tb * 1000000)) by nia. rewrite u64_add_l, u64_small by nia. lia. }
  rewrite udiv_Ret by lia. cbn [obind]. rewrite umod_Ret by lia. cbn [obind].
  rewrite udiv_Ret by lia. cbn [obind]. rewrite Hts. by destruct layer.
Qed.

(** A LOC object carries the presentation time in microseconds, rounded
    down and free of intermediate overflow, under the timestamp property; a
    spatial layer adds exactly its frame marking; and the codec configuration
    is prepended exactly to sync samples of the base layer (or of a track
    without layers). *)
Theorem buildLOCObject_spec {M : Mp4Types} (data : bytes) (sync : bool) (st tb : Z) (cfg : bytes)
    (layer : option AV1SpatialLayer) :
  0 < tb < 2 ^ 32 -> 0 <= st -> st * 1000000 / tb < 2 ^ 64 ->
  exists headers payload, Pub.buildLOCObject data sync st tb cfg layer = Ret (headers, payload) /\
    Sub.locTimestampMicros headers = (st * 1000000 / tb, true) /\
    (payload = cfg ++ data \/ payload = data) /\
    (payload = data <-> sync = false \/ cfg = [] \/ exists l, layer = Some l /\ layerSpatialID l <> 0) /\
    headers = mkKVP locPropTimestamp (st * 1000000 / tb) ::
       match layer with
       | Some l => [mkKVP locPropFrameMark (Pub.locFrameMarking (layerSpatialID l) sync)]
       | None => []
       end.
Proof.
  intros Htb Hst Hfit. rewrite buildLOCObject_value by done.
  eexists _, _. split; [done|].
  split; [destruct layer; reflexivity|].
  set (b := sync && (0 <? len cfg) && _).
  assert (Hb : b = false <-> sync = false \/ cfg = [] \/ exists l, layer = Some l /\ layerSpatialID l <> 0).
  { unfold b. assert (0 <? len cfg = negb (bool_decide (cfg = []))) as ->.
    { destruct cfg; [done|]. rewrite bool_decide_eq_false_2 by done. apply Z.ltb_lt. unfold len. cbn. lia. }
    destruct sync; [|naive_solver]. case_bool_decide as Hcfg; [cbn; naive_solver|].
    destruct layer as [l|]; cbn; [rewrite Z.eqb_neq|]; naive_solver. }
  split; [destruct b; auto|]. split; [|destruct layer; done].
  rewrite <- Hb. destruct b eqn:Hbv; [|done]. split; [|done].
  intros Heq. exfalso. apply (f_equal length) in Heq. rewrite length_app in Heq.
  destruct cfg; [|cbn in Heq; lia]. unfold b, len in Hbv. cbn in Hbv. by rewrite andb_false_r in Hbv.
Qed.

Lemma buildLOCObject_spec_witness :
  exists headers payload, Pub.buildLOCObject [7] true 22656000000512 12800 [1; 2]
      (Some (mkAV1SpatialLayer 0 320 180 [] 0)) = Ret (headers, payload) /\
    Sub.locTimestampMicros headers = (22656000000512 * 1000000 / 12800, true) /\
    (payload = [1; 2] ++ [7] \/ payload = [7]) /\
    (payload = [7] <-> true = false \/ [1; 2] = [] \/
       exists l, Some (mkAV1SpatialLayer 0 320 180 [] 0) = Some l /\ layerSpatialID l <> 0) /\
    headers = mkKVP locPropTimestamp (22656000000512 * 1000000 / 12800) ::
       [mkKVP locPropFrameMark (Pub.locFrameMarking (layerSpatialID (mkAV1SpatialLayer 0 320 180 [] 0)) true)].
Proof.
  apply (buildLOCObject_spec [7] true 22656000000512 12800 [1; 2]
           (Some (mkAV1SpatialLayer 0 320 180 [] 0))); vm_compute; try split; congruence.
Defined.
