(* ===== verification/Nalu.v ===== *)
(** * Length-prefixed NAL units: parameter sets, in-place rewriting, AnnexB

    The NAL-unit handling of [internal/media.go] (initAVCData, initHEVCData,
    appendNewNALU, GenLOCVideoConfig), [internal/cc608/splice.go] and
    [LOCVideoWriter] of [internal/sub/loc.go].

    Both init functions rewrite the samples in place: the sample becomes an
    empty slice of its own backing array and grows by [append] while the NAL
    units are still being read from that array.  Parameter sets found in the
    samples are kept as slices of it.  The model therefore has a store of
    backing arrays, one per sample, and a slice is a reference into it.

    The NAL unit types and the parsing of a sequence parameter set belong to
    mp4ff; they are the parameters of the class [NaluLib]. *)
From S2P Require Import Prelude Media.
Local Open Scope Z_scope.
Local Open Scope go_scope.

(** [carriage.Codec] *)
Inductive carriageCodec := CodecAVC | CodecHEVC.
#[export] Instance carriageCodec_eq_dec : EqDecision carriageCodec.
Proof. solve_decision. Defined.

Class NaluLib `{M : Mp4Types} := {
  avc_GetNaluType : Z -> Z;
  avc_NALU_SPS : Z; avc_NALU_PPS : Z; avc_NALU_IDR : Z; avc_NALU_NON_IDR : Z; avc_NALU_SEI : Z;
  avc_IsVideoNaluType : Z -> bool;
  hevc_GetNaluType : Z -> Z;
  hevc_NALU_VPS : Z; hevc_NALU_SPS : Z; hevc_NALU_PPS : Z;
  hevc_IsVideoNaluType : Z -> bool;
  (** [avc.GetNalusFromSample] returns slices of its argument: the offset and
      length of each. *)
  GetNalusFromSample : bytes -> outcome (list (nat * nat));
  (** [CreateEmptyInit], [AddEmptyTrack] and [SetAVCDescriptor] or
      [SetHEVCDescriptor]. *)
  avcInit : Z -> list bytes -> list bytes -> outcome InitSegment;
  hevcInit : Z -> list bytes -> list bytes -> list bytes -> outcome InitSegment;
  (** [ParseSPSNALUnit] and [CodecString]: codec, width and height. *)
  avc_ParseSPS : bytes -> outcome (string * Z * Z);
  hevc_ParseSPS : bytes -> outcome (string * Z * Z)
}.

(** ** Length-prefixed NAL units *)
Definition frame (nalu : bytes) : bytes := PutUint32 (u32 (len nalu)) ++ nalu.
Definition frames (nalus : list bytes) : bytes := concat (frame <$> nalus).

(** ** Slices of the samples' backing arrays *)
Abbreviation store := (list bytes).

Inductive nalu_ref :=
  | Own (b : bytes)
  | Slice (buf off n : nat).

Definition slice (b : bytes) (off n : nat) : bytes := take n (drop off b).
Definition buffer (st : store) (k : nat) : bytes := default [] (st !! k).
Definition deref (st : store) (r : nalu_ref) : bytes :=
  match r with Own b => b | Slice k off n => slice (buffer st k) off n end.

(** [append] to a slice of length [w] of [b], with room for [d]. *)
Definition write_at (b : bytes) (w : nat) (d : bytes) : bytes := take w b ++ d ++ drop (w + length d) b.

Definition appendNewNALU (st : store) (nalus : list nalu_ref) (nalu : nalu_ref) : list nalu_ref :=
  if existsb (fun v => bool_decide (deref st v = deref st nalu)) nalus then nalus
  else nalus ++ [nalu].

(** The variables of the rewriting loops: the parameter sets, the store, and
    the length of the sample being rewritten. *)
Record rewriteState := mkRewrite {
  rVps : list nalu_ref; rSps : list nalu_ref; rPps : list nalu_ref; rStore : store; rLen : nat
}.

(** The two appends of a kept NAL unit: its length, then the unit itself,
    which is read from the array as it is by then. *)
Definition keepNALU (i off n : nat) (s : rewriteState) : rewriteState :=
  let b := write_at (buffer (rStore s) i) (rLen s) (PutUint32 (u32 (Z.of_nat n))) in
  let b := write_at b (rLen s + 4) (slice b off n) in
  mkRewrite (rVps s) (rSps s) (rPps s) (<[i := b]> (rStore s)) (rLen s + 4 + n).

Section Nalu.
Context `{NL : NaluLib}.

(** ** AVC *)
Definition avc_nalu (i off n : nat) (s : rewriteState) : outcome rewriteState :=
  let nalu := Slice i off n in
  let! b0 := index (deref (rStore s) nalu) 0 in
  let t := avc_GetNaluType b0 in
  if t =? avc_NALU_SPS then
    Ret (mkRewrite (rVps s) (appendNewNALU (rStore s) (rSps s) nalu) (rPps s) (rStore s) (rLen s))
  else if t =? avc_NALU_PPS then
    Ret (mkRewrite (rVps s) (rSps s) (appendNewNALU (rStore s) (rPps s) nalu) (rStore s) (rLen s))
  else if (t =? avc_NALU_IDR) || (t =? avc_NALU_NON_IDR) || (t =? avc_NALU_SEI) then
    Ret (keepNALU i off n s)
  else Ret s.

Fixpoint avc_nalus (i : nat) (nalus : list (nat * nat)) (s : rewriteState) : outcome rewriteState :=
  match nalus with
  | [] => Ret s
  | (off, n) :: nalus => let! s := avc_nalu i off n s in avc_nalus i nalus s
  end.

(** The loop over the samples; the lengths of the rewritten samples. *)
Fixpoint avc_samples (i : nat) (samples : list FullSample) (s : rewriteState) : outcome (rewriteState * list nat) :=
  match samples with
  | [] => Ret (s, [])
  | x :: samples =>
      let! nalus := owrap "could not get nalus from sample: %w" [] (GetNalusFromSample (Data x)) in
      let! s := avc_nalus i nalus (mkRewrite (rVps s) (rSps s) (rPps s) (rStore s) 0) in
      let! '(s', lens) := avc_samples (S i) samples s in
      Ret (s', rLen s :: lens)
  end.

(** The samples with their data resliced. *)
Definition rewritten (st : store) (samples : list FullSample) (lens : list nat) : list FullSample :=
  zip_with (fun ix n => mkFullSample (Flags ix.2) (Dur ix.2) (Size ix.2) (DecodeTime ix.2) (slice (buffer st ix.1) 0 n))
    (zip (seq 0 (length samples)) samples) lens.

(** [sampleEntry] is the type of the AVC sample entry, [avcC] its parameter
    sets and [timeScale] the one of the track. *)
Definition initAVCData (init : InitSegment) (sampleEntry : string) (avcC : list bytes * list bytes)
    (timeScale : Z) (samples : list FullSample) : outcome (AVCData * list FullSample) :=
  let '(spss, ppss) := if bool_decide (sampleEntry = "avc1"%string) then (Own <$> avcC.1, Own <$> avcC.2) else ([], []) in
  let! '(s, lens) := avc_samples 0 samples (mkRewrite [] spss ppss (Data <$> samples) 0) in
  if negb (len (rSps s) =? 1) || negb (len (rPps s) =? 1) then
    errorf "not exactly one SPS and PPS nalus found"
  else
    let Spss := deref (rStore s) <$> rSps s in
    let Ppss := deref (rStore s) <$> rPps s in
    let! outInit := owrap "could not set AVC descriptor: %w" [] (avcInit timeScale Spss Ppss) in
    let! sps := index Spss 0 in
    let! '(codec, width, height) := owrap "could not decode SPS: %w" [] (avc_ParseSPS sps) in
    Ret (mkAVCData (Some init) (Some outInit) Spss Ppss codec (u32 width) (u32 height),
         rewritten (rStore s) samples lens).

(** ** HEVC *)
Definition hevc_nalu (i off n : nat) (s : rewriteState) : outcome rewriteState :=
  let nalu := Slice i off n in
  let! b0 := index (deref (rStore s) nalu) 0 in
  let t := hevc_GetNaluType b0 in
  if t =? hevc_NALU_VPS then
    Ret (mkRewrite (appendNewNALU (rStore s) (rVps s) nalu) (rSps s) (rPps s) (rStore s) (rLen s))
  else if t =? hevc_NALU_SPS then
    Ret (mkRewrite (rVps s) (appendNewNALU (rStore s) (rSps s) nalu) (rPps s) (rStore s) (rLen s))
  else if t =? hevc_NALU_PPS then
    Ret (mkRewrite (rVps s) (rSps s) (appendNewNALU (rStore s) (rPps s) nalu) (rStore s) (rLen s))
  else Ret (keepNALU i off n s).

(** [for len(data) >= 4]: [data] is the array of sample [i] from [r] on.
    Every iteration consumes at least four bytes. *)
Fixpoint hevc_loop (fuel : nat) (i r : nat) (s : rewriteState) : outcome rewriteState :=
  let data := drop r (buffer (rStore s) i) in
  if len data <? 4 then Ret s
  else match fuel with
  | O => errorf "out of fuel"
  | S fuel =>
      let naluLen := Uint32 (take 4 data) in
      if len data - 4 <? naluLen then errorf "invalid HEVC NALU length"
      else
        let! s := hevc_nalu i (r + 4) (Z.to_nat naluLen) s in
        hevc_loop fuel i (r + 4 + Z.to_nat naluLen) s
  end.

Fixpoint hevc_samples (i : nat) (samples : list FullSample) (s : rewriteState) : outcome (rewriteState * list nat) :=
  match samples with
  | [] => Ret (s, [])
  | x :: samples =>
      let! s := hevc_loop (length (Data x)) i 0 (mkRewrite (rVps s) (rSps s) (rPps s) (rStore s) 0) in
      let! '(s', lens) := hevc_samples (S i) samples s in
      Ret (s', rLen s :: lens)
  end.

(** The parameter sets of type [t] in the arrays of the hvcC box. *)
Definition hvcC_nalus (t : Z) (arrays : list (Z * list bytes)) : list nalu_ref :=
  Own <$> concat ((fun a => if a.1 =? t then a.2 else []) <$> arrays).

Definition initHEVCData (init : InitSegment) (hvcC : option (list (Z * list bytes))) (timeScale : Z)
    (samples : list FullSample) : outcome (HEVCData * list FullSample) :=
  match hvcC with
  | None => errorf "no hvcC box found"
  | Some arrays =>
      let vpss := hvcC_nalus hevc_NALU_VPS arrays in
      let spss := hvcC_nalus hevc_NALU_SPS arrays in
      let ppss := hvcC_nalus hevc_NALU_PPS arrays in
      if (len spss =? 0) || (len ppss =? 0) then errorf "missing SPS or PPS in hvcC"
      else
        let! '(s, lens) := hevc_samples 0 samples (mkRewrite vpss spss ppss (Data <$> samples) 0) in
        let Vpss := deref (rStore s) <$> rVps s in
        let Spss := deref (rStore s) <$> rSps s in
        let Ppss := deref (rStore s) <$> rPps s in
        let! outInit := owrap "could not set HEVC descriptor: %w" [] (hevcInit timeScale Vpss Spss Ppss) in
        let! sps := index Spss 0 in
        let! '(codec, width, height) := owrap "could not parse HEVC SPS: %w" [] (hevc_ParseSPS sps) in
        Ret (mkHEVCData (Some init) (Some outInit) Vpss Spss Ppss codec (u32 width) (u32 height),
             rewritten (rStore s) samples lens)
  end.

(** ** In-band configuration for LOC *)
Fixpoint append_frames (buf : bytes) (nalus : list bytes) : bytes :=
  match nalus with
  | [] => buf
  | n :: nalus => append_frames ((buf ++ PutUint32 (u32 (len n))) ++ n) nalus
  end.

Definition avc_GenLOCVideoConfig (d : AVCData) : bytes :=
  append_frames (append_frames [] (avc_Spss d)) (avc_Ppss d).

Definition hevc_GenLOCVideoConfig (d : HEVCData) : bytes :=
  append_frames (append_frames (append_frames [] (hevc_Vpss d)) (hevc_Spss d)) (hevc_Ppss d).

(** ** Caption splicing ([internal/cc608/splice.go]) *)
Definition isVCLNalu (nalu : bytes) (codec : carriageCodec) : outcome bool :=
  let! b0 := index nalu 0 in
  match codec with
  | CodecHEVC => Ret (hevc_IsVideoNaluType (hevc_GetNaluType b0))
  | CodecAVC => Ret (avc_IsVideoNaluType (avc_GetNaluType b0))
  end.

(** The index of the first VCL unit, or [d] when there is none. *)
Fixpoint firstVCL (nalus : list bytes) (codec : carriageCodec) (i d : nat) : outcome nat :=
  match nalus with
  | [] => Ret d
  | n :: nalus =>
      let! vcl := if 0 <? len n then isVCLNalu n codec else Ret false in
      if vcl then Ret i else firstVCL nalus codec (S i) d
  end.

Definition SpliceSEIBeforeVCL (sampleData seiNAL : bytes) (codec : carriageCodec) : outcome bytes :=
  let! slices := GetNalusFromSample sampleData in
  let nalus := (fun on => slice sampleData on.1 on.2) <$> slices in
  let! insertAt := firstVCL nalus codec 0 (length nalus) in
  let ordered := (take insertAt nalus ++ [seiNAL]) ++ drop insertAt nalus in
  Ret (append_frames [] ordered).
End Nalu.

(** ** AnnexB ([LOCVideoWriter.Write])

    The payload written so far is accumulated; a write never fails here. *)
Definition annexBStartCode : bytes := [0; 0; 0; 1].

Fixpoint annexB_loop (fuel : nat) (data out : bytes) : bytes * outcome unit :=
  if len data <? 4 then (out, Ret tt)
  else match fuel with
  | O => (out, errorf "out of fuel")
  | S fuel =>
      let naluLen := Uint32 (take 4 data) in
      let data := drop 4 data in
      if len data <? naluLen then
        (out, Err (Errorf "LOC AVC: NALU length %d exceeds remaining data %d" [pretty naluLen; pretty (len data)]))
      else annexB_loop fuel (drop (Z.to_nat naluLen) data) ((out ++ annexBStartCode) ++ take (Z.to_nat naluLen) data)
  end.

Definition LOCVideoWriter_Write (payload : bytes) : bytes * outcome unit :=
  annexB_loop (length payload) payload [].

(** ** The NAL unit types of H.264 and H.265, and a split into slices that
    behaves as mp4ff's does, for concrete runs. *)
Fixpoint split_slices (fuel : nat) (data : bytes) (pos : nat) : outcome (list (nat * nat)) :=
  if len data <? 4 then Ret []
  else match fuel with
  | O => Ret []
  | S fuel =>
      let n := Uint32 (take 4 data) in
      let data := drop 4 data in
      if len data <? n then errorf "NALU length field too large"
      else let! r := split_slices fuel (drop (Z.to_nat n) data) (pos + 4 + Z.to_nat n)%nat in
           Ret (((pos + 4)%nat, Z.to_nat n) :: r)
  end.

#[export] Instance NaluConcrete : @NaluLib Mp4Concrete := {|
  avc_GetNaluType b := Z.land b 31;
  avc_NALU_SPS := 7; avc_NALU_PPS := 8; avc_NALU_IDR := 5; avc_NALU_NON_IDR := 1; avc_NALU_SEI := 6;
  avc_IsVideoNaluType t := (1 <=? t) && (t <=? 5);
  hevc_GetNaluType b := Z.land (Z.shiftr b 1) 63;
  hevc_NALU_VPS := 32; hevc_NALU_SPS := 33; hevc_NALU_PPS := 34;
  hevc_IsVideoNaluType t := t <=? 31;
  GetNalusFromSample b := split_slices (length b) b 0;
  avcInit _ s p := Ret (concat (s ++ p)); hevcInit _ v s p := Ret (concat (v ++ s ++ p));
  avc_ParseSPS b := match b with b0 :: _ => if Z.land b0 31 =? 7 then Ret ("avc1.640028"%string, 1280, 720) else errorf "not an SPS" | [] => Panic end;
  hevc_ParseSPS b := match b with b0 :: _ => if Z.land (Z.shiftr b0 1) 63 =? 33 then Ret ("hvc1.1.6.L93.90"%string, 1280, 720) else errorf "not an SPS" | [] => Panic end
|}.
