(* ===== verification/NaluProps.v ===== *)
(** * What the NAL-unit handling guarantees

    The in-place rewriting of HEVC samples is correct for the samples
    themselves, but parameter sets kept from a sample are overwritten by it;
    caption splicing and the AnnexB conversion preserve every unit. *)
From S2P Require Import Prelude Media Nalu.
Local Open Scope Z_scope.
Local Open Scope go_scope.

(** ** Writing into a backing array *)
Lemma write_at_length b w d : (w + length d <= length b)%nat -> length (write_at b w d) = length b.
Proof. intros. unfold write_at. rewrite !length_app, length_take, length_drop. lia. Qed.

Lemma write_at_take b w d : (w + length d <= length b)%nat -> take (w + length d) (write_at b w d) = take w b ++ d.
Proof.
  intros. unfold write_at. rewrite app_assoc. apply take_app_length'.
  rewrite length_app, length_take. lia.
Qed.

Lemma write_at_drop b w d k : (w + length d <= k)%nat -> (w + length d <= length b)%nat ->
  drop k (write_at b w d) = drop k b.
Proof.
  intros Hk Hb. unfold write_at. rewrite app_assoc.
  assert (length (take w b ++ d) = w + length d)%nat as Hl by (rewrite length_app, length_take; lia).
  rewrite drop_app_ge by lia. rewrite Hl, drop_drop. f_equal. lia.
Qed.

Lemma write_at_take_le b w d k : (k <= w)%nat -> (w <= length b)%nat -> take k (write_at b w d) = take k b.
Proof.
  intros Hk Hw. unfold write_at. rewrite take_app_le by (rewrite length_take; lia).
  rewrite take_take. f_equal. lia.
Qed.

(** ** Frames *)
Definition short (n : bytes) : Prop := 0 < len n < 2 ^ 32.

Lemma frame_length n : length (frame n) = (4 + length n)%nat.
Proof. unfold frame. by rewrite length_app, PutUint32_length. Qed.

Lemma frames_cons n ns : frames (n :: ns) = frame n ++ frames ns.
Proof. done. Qed.
Lemma frames_app ns ms : frames (ns ++ ms) = frames ns ++ frames ms.
Proof. unfold frames. by rewrite fmap_app, concat_app. Qed.

Lemma frame_Uint32 n rest : len n < 2 ^ 32 -> Uint32 (take 4 (frame n ++ rest)) = len n.
Proof.
  intros Hn. unfold frame. rewrite <- app_assoc, take_app_length' by done.
  rewrite <- (app_nil_r (PutUint32 _)), u32_small by (unfold len in *; lia).
  apply Uint32_PutUint32. unfold len in *. lia.
Qed.

Lemma drop4_frame n rest : drop 4 (frame n ++ rest) = n ++ rest.
Proof. unfold frame. by rewrite <- app_assoc, drop_app_length' by done. Qed.

Lemma append_frames_spec buf ns : append_frames buf ns = buf ++ frames ns.
Proof.
  revert buf. induction ns as [|n ns IH]; intros buf; cbn [append_frames]; [by rewrite app_nil_r|].
  rewrite IH, frames_cons. unfold frame. by rewrite <- !app_assoc.
Qed.

(** ** Keeping one unit *)
Lemma buffer_Some st i b : st !! i = Some b -> buffer st i = b.
Proof. intros H. unfold buffer. by rewrite H. Qed.

Lemma keepNALU_spec (i off n : nat) (s : rewriteState) b :
  rStore s !! i = Some b -> (rLen s + 4 <= off)%nat -> (off + n <= length b)%nat -> Z.of_nat n < 2 ^ 32 ->
  exists b', rStore (keepNALU i off n s) = <[i := b']> (rStore s) /\ length b' = length b /\
    take (rLen s + 4 + n) b' = take (rLen s) b ++ frame (slice b off n) /\
    (forall k, (rLen s + 4 + n <= k)%nat -> drop k b' = drop k b).
Proof.
  intros Hb Hoff Hn H32. unfold keepNALU. rewrite (buffer_Some _ _ _ Hb). cbv zeta. cbn [rStore].
  set (P := PutUint32 _). assert (HP : length P = 4%nat) by apply PutUint32_length.
  set (b1 := write_at b (rLen s) P) in *.
  assert (Hb1 : length b1 = length b) by (apply write_at_length; lia).
  assert (Hsl : slice b1 off n = slice b off n) by (unfold slice, b1; rewrite write_at_drop by lia; done).
  rewrite Hsl. set (d := slice b off n).
  assert (Hd : length d = n) by (unfold d, slice; rewrite length_take, length_drop; lia).
  exists (write_at b1 (rLen s + 4) d). split_and!.
  - done.
  - rewrite write_at_length by lia. done.
  - rewrite <- Hd at 1. rewrite write_at_take by lia.
    replace (rLen s + 4)%nat with (rLen s + length P)%nat by lia.
    unfold b1 at 1. rewrite write_at_take by lia. rewrite <- app_assoc. unfold frame, P, len. by rewrite Hd.
  - intros k Hk. rewrite write_at_drop by lia. apply write_at_drop; lia.
Qed.

(** ** Rewriting an HEVC sample *)
Section HEVC.
Context `{NL : NaluLib}.

Definition nalu_type (n : bytes) : Z := match n with b :: _ => hevc_GetNaluType b | [] => 0 end.
Definition is_ps (n : bytes) : bool :=
  (nalu_type n =? hevc_NALU_VPS) || (nalu_type n =? hevc_NALU_SPS) || (nalu_type n =? hevc_NALU_PPS).
Definition kept (ns : list bytes) : list bytes := filter (fun n => is_ps n = false) ns.

(** A unit that is a parameter set is one of the known ones of its type. *)
Definition ps_known (V Q P : list bytes) (n : bytes) : Prop :=
  if nalu_type n =? hevc_NALU_VPS then n ∈ V
  else if nalu_type n =? hevc_NALU_SPS then n ∈ Q
  else if nalu_type n =? hevc_NALU_PPS then n ∈ P else True.

Lemma appendNewNALU_known st V r : deref st r ∈ V -> appendNewNALU st (Own <$> V) r = Own <$> V.
Proof.
  intros Hin. unfold appendNewNALU.
  assert (existsb (fun v => bool_decide (deref st v = deref st r)) (Own <$> V) = true) as ->; [|done].
  apply existsb_exists. exists (Own (deref st r)). split; [|by apply bool_decide_eq_true].
  apply list_elem_of_In, list_elem_of_fmap. eauto.
Qed.

Lemma hevc_loop_frames V Q P ns fuel i r s b :
  rVps s = Own <$> V -> rSps s = Own <$> Q -> rPps s = Own <$> P ->
  rStore s !! i = Some b -> drop r b = frames ns -> (rLen s <= r)%nat -> (r <= length b)%nat ->
  (length (frames ns) <= fuel)%nat -> Forall short ns -> Forall (ps_known V Q P) ns ->
  exists s' b', hevc_loop fuel i r s = Ret s' /\ rStore s' = <[i := b']> (rStore s) /\ length b' = length b /\
    rVps s' = Own <$> V /\ rSps s' = Own <$> Q /\ rPps s' = Own <$> P /\
    take (rLen s') b' = take (rLen s) b ++ frames (kept ns).
Proof.
  revert fuel r s b. induction ns as [|n ns IH]; intros fuel r s b HV HS HP Hb Hdrop Hw Hr Hfuel Hns Hps.
  - exists s, b. assert (hevc_loop fuel i r s = Ret s) as ->.
    { destruct fuel; cbn [hevc_loop]; rewrite (buffer_Some _ _ _ Hb), Hdrop; done. }
    rewrite list_insert_id by done. cbn. rewrite app_nil_r. by split_and!.
  - apply Forall_cons in Hns as [Hn Hns]. apply Forall_cons in Hps as [Hk Hps].
    rewrite frames_cons in *. rewrite length_app, frame_length in Hfuel.
    destruct fuel as [|fuel]; [lia|]. cbn [hevc_loop]. rewrite (buffer_Some _ _ _ Hb), Hdrop.
    assert (Hlen : len (frame n ++ frames ns) = 4 + len n + len (frames ns)).
    { rewrite len_app. unfold len at 1. rewrite frame_length. unfold len. lia. }
    unfold short in Hn. pose proof (len_nonneg (frames ns)).
    rewrite frame_Uint32 by lia.
    rewrite (proj2 (Z.ltb_ge _ _)) by lia. rewrite (proj2 (Z.ltb_ge _ _)) by lia.
    assert (Hnn : Z.to_nat (len n) = length n) by (unfold len; lia). rewrite Hnn.
    assert (Hd4 : drop (r + 4) b = n ++ frames ns) by (rewrite <- drop_drop, Hdrop; apply drop4_frame).
    assert (Hsl : slice b (r + 4) (length n) = n) by (unfold slice; rewrite Hd4; by apply take_app_length).
    assert (Hd' : drop (r + 4 + length n) b = frames ns) by (rewrite <- drop_drop, Hd4; by apply drop_app_length).
    assert (Hlb : (r + 4 + length n <= length b)%nat).
    { apply (f_equal length) in Hd4. rewrite length_drop, length_app in Hd4. unfold len in *. lia. }
    assert (Hde : deref (rStore s) (Slice i (r + 4) (length n)) = n) by (cbn; by rewrite (buffer_Some _ _ _ Hb)).
    unfold hevc_nalu. rewrite Hde.
    destruct n as [|b0 n0] eqn:En; [unfold len in Hn; cbn in Hn; lia|]. rewrite <- En in *.
    assert (Hidx : index n 0 = Ret b0) by (by rewrite En). rewrite Hidx. cbn [obind].
    assert (Hty : nalu_type n = hevc_GetNaluType b0) by (by rewrite En). rewrite <- Hty.
    unfold ps_known in Hk. cbn [kept filter]. unfold kept. rewrite filter_cons. fold (kept ns). unfold is_ps.
    destruct (nalu_type n =? hevc_NALU_VPS); [|destruct (nalu_type n =? hevc_NALU_SPS);
      [|destruct (nalu_type n =? hevc_NALU_PPS)]]; cbn [orb obind].
    1-3: rewrite decide_False by done;
      rewrite ?HV, ?HS, ?HP, appendNewNALU_known by (by rewrite Hde);
      match goal with H : _ !! _ = Some ?b' |- context [hevc_loop ?f ?i' ?r' ?s'] =>
        destruct (IH f r' s' b') as (s1 & b1 & ? & ? & ? & ? & ? & ? & ?); cbn [rLen]; try done; try lia;
        exists s1, b1; by split_and! end.
    rewrite decide_True by done. rewrite frames_cons.
    destruct (keepNALU_spec i (r + 4) (length n) s b Hb) as (b1 & Hst & Hl1 & Htk & Hdr); [lia|lia|unfold len in *; lia|].
    destruct (IH fuel (r + 4 + length n)%nat (keepNALU i (r + 4) (length n) s) b1) as (s' & b' & ? & ? & ? & ? & ? & ? & ?);
      try done.
    + rewrite Hst. apply list_lookup_insert_eq. by eapply lookup_lt_Some.
    + rewrite Hdr by lia. done.
    + cbn. lia.
    + lia.
    + lia.
    + exists s', b'. split_and!; try done; [|lia|].
      * rewrite H1, Hst. by rewrite list_insert_insert_eq.
      * rewrite H6. cbn [rLen keepNALU]. change (rLen (keepNALU i (r + 4) (length n) s)) with (rLen s + 4 + length n)%nat.
        rewrite Htk, Hsl, <- app_assoc. done.
Qed.
End HEVC.

(** ** All the samples *)
Section Samples.
Context `{NL : NaluLib}.

(** A sample whose bytes are the units [ns], with known parameter sets. *)
Definition framed (V Q P : list bytes) (x : FullSample) (ns : list bytes) : Prop :=
  Data x = frames ns /\ Forall short ns /\ Forall (ps_known V Q P) ns.

Lemma hevc_samples_frames V Q P samples nss i s :
  Forall2 (framed V Q P) samples nss ->
  rVps s = Own <$> V -> rSps s = Own <$> Q -> rPps s = Own <$> P ->
  (forall j x, samples !! j = Some x -> rStore s !! (i + j)%nat = Some (Data x)) ->
  exists s' lens, hevc_samples i samples s = Ret (s', lens) /\ length lens = length samples /\
    rVps s' = Own <$> V /\ rSps s' = Own <$> Q /\ rPps s' = Own <$> P /\
    (forall k, (k < i)%nat -> rStore s' !! k = rStore s !! k) /\
    (forall j n ns, lens !! j = Some n -> nss !! j = Some ns ->
       slice (buffer (rStore s') (i + j)) 0 n = frames (kept ns)).
Proof.
  intros Hf. revert i s. induction Hf as [|x ns samples nss (Hx & Hsh & Hps) _ IH]; intros i s HV HQ HP Hst.
  - exists s, []. cbn. split_and!; done.
  - cbn [hevc_samples].
    assert (Hb : rStore s !! i = Some (Data x)) by (rewrite <- (Hst 0%nat x) by done; f_equal; lia).
    destruct (hevc_loop_frames V Q P ns (length (Data x)) i 0 (mkRewrite (rVps s) (rSps s) (rPps s) (rStore s) 0) (Data x))
      as (s1 & b1 & -> & Hs1 & Hl1 & HV1 & HQ1 & HP1 & Ht1); cbn [rVps rSps rPps rStore rLen]; try done; try lia.
    { rewrite Hx. lia. }
    cbn [obind]. cbn in Ht1, Hs1.
    destruct (IH (Datatypes.S i) (mkRewrite (rVps s1) (rSps s1) (rPps s1) (rStore s1) (rLen s1)))
      as (s2 & lens & H2 & Hlen & HV2 & HQ2 & HP2 & Hlow & Hsl); cbn [rVps rSps rPps rStore]; try done.
    { intros j y Hj. rewrite Hs1, list_lookup_insert_ne by lia.
      rewrite <- (Hst (Datatypes.S j) y) by done. f_equal. lia. }
    assert (H2' : hevc_samples (Datatypes.S i) samples s1 = Ret (s2, lens)) by (by destruct s1).
    rewrite H2'. cbn [obind]. exists s2, (rLen s1 :: lens). split_and!; try done; [cbn; lia | |].
    + intros k Hk. rewrite Hlow by lia. cbn. rewrite Hs1. by rewrite list_lookup_insert_ne by lia.
    + intros [|j] n ns' Hn Hns.
      * cbn in Hn, Hns. injection Hn as <-. injection Hns as <-.
        rewrite Nat.add_0_r. unfold buffer. rewrite Hlow by lia. cbn. rewrite Hs1.
        rewrite list_lookup_insert_eq by (by eapply lookup_lt_Some). exact Ht1.
      * cbn in Hn, Hns. replace (i + Datatypes.S j)%nat with (Datatypes.S i + j)%nat by lia. by apply (Hsl j).
Qed.

Lemma rewritten_data st samples lens nss : length lens = length samples -> length nss = length samples ->
  (forall j n ns, lens !! j = Some n -> nss !! j = Some ns -> slice (buffer st j) 0 n = frames (kept ns)) ->
  Data <$> rewritten st samples lens = (fun ns => frames (kept ns)) <$> nss.
Proof.
  intros Hl1 Hl2 Hsl. apply list_eq. intros j. rewrite !list_lookup_fmap. unfold rewritten.
  rewrite lookup_zip_with. destruct (decide (j < length samples)%nat) as [Hj|Hj].
  - destruct (lookup_lt_is_Some_2 samples j Hj) as [x Hx].
    destruct (lookup_lt_is_Some_2 lens j ltac:(lia)) as [n Hn].
    destruct (lookup_lt_is_Some_2 nss j ltac:(lia)) as [ns Hns].
    rewrite lookup_zip_with, lookup_seq_lt by done. rewrite Hx, Hn, Hns. cbn. f_equal.
    by apply Hsl.
  - rewrite (lookup_ge_None_2 lens), (lookup_ge_None_2 nss) by lia.
    by destruct (zip _ _ !! j).
Qed.
End Samples.

(** On a track whose in-band parameter sets all repeat those of the hvcC
    box, [initHEVCData] never fails in its own code: rewriting a sample inside
    its own array leaves exactly the units that are not parameter sets, in
    order and unchanged, and the parameter sets of the result are those of the
    box. *)
Theorem initHEVCData_rewrites_samples `{NL : NaluLib} (init outInit : InitSegment) (arrays : list (Z * list bytes))
    (timeScale width height : Z) (codec : string) (samples : list FullSample) (nss : list (list bytes))
    (V Q P : list bytes) (q0 : bytes) :
  hvcC_nalus hevc_NALU_VPS arrays = Own <$> V -> hvcC_nalus hevc_NALU_SPS arrays = Own <$> (q0 :: Q) ->
  hvcC_nalus hevc_NALU_PPS arrays = Own <$> P -> P <> [] ->
  Forall2 (framed V (q0 :: Q) P) samples nss ->
  hevcInit timeScale V (q0 :: Q) P = Ret outInit -> hevc_ParseSPS q0 = Ret (codec, width, height) ->
  exists samples', initHEVCData init (Some arrays) timeScale samples =
      Ret (mkHEVCData (Some init) (Some outInit) V (q0 :: Q) P codec (u32 width) (u32 height), samples') /\
    Data <$> samples' = (fun ns => frames (kept ns)) <$> nss.
Proof.
  intros HV HQ HP HPne Hf Hinit Hsps. unfold initHEVCData. rewrite HV, HQ, HP.
  assert (len (Own <$> (q0 :: Q)) <> 0 /\ len (Own <$> P) <> 0) as [H1 H2].
  { unfold len. rewrite !length_fmap. destruct P; [done|]. cbn. lia. }
  rewrite (proj2 (Z.eqb_neq _ _) H1), (proj2 (Z.eqb_neq _ _) H2). cbn [orb].
  destruct (hevc_samples_frames V (q0 :: Q) P samples nss 0
              (mkRewrite (Own <$> V) (Own <$> (q0 :: Q)) (Own <$> P) (Data <$> samples) 0))
    as (s & lens & -> & Hlen & Hv & Hq & Hp & _ & Hsl); try done.
  { intros j x Hj. cbn. by rewrite list_lookup_fmap, Hj. }
  cbn [obind]. rewrite Hv, Hq, Hp.
  assert (forall l : list bytes, deref (rStore s) <$> (Own <$> l) = l) as Hd.
  { intros l. induction l as [|x l IH]; [done|]. cbn. by f_equal. }
  rewrite !Hd, Hinit. cbn [owrap obind].
  change (index (q0 :: Q) 0) with (Ret q0). cbn [obind]. rewrite Hsps. cbn [owrap obind].
  eexists. split; [done|]. apply rewritten_data; [done | by symmetry; eapply Forall2_length | exact Hsl].
Qed.

(** Two HEVC samples, the first with in-band parameter sets. *)
Definition hevc_vps : bytes := [0x40; 1; 12].
Definition hevc_sps : bytes := [0x42; 1; 1].
Definition hevc_pps : bytes := [0x44; 1; 193].
Definition hevc_idr : bytes := [0x26; 1; 175; 9; 8; 7; 6; 5].
Definition hevc_p : bytes := [0x02; 1; 208; 4].
Definition sample_of (ns : list bytes) : FullSample := mkFullSample 0 512 0 0 (frames ns).

Lemma initHEVCData_rewrites_samples_witness :
  exists samples', @initHEVCData _ NaluConcrete ([] : bytes) (Some [(32, [hevc_vps]); (33, [hevc_sps]); (34, [hevc_pps])]) 12800
     [sample_of [hevc_vps; hevc_sps; hevc_pps; hevc_idr]; sample_of [hevc_p]] =
     Ret (mkHEVCData (Some ([] : bytes)) (Some (hevc_vps ++ hevc_sps ++ hevc_pps : bytes)) [hevc_vps] [hevc_sps] [hevc_pps]
            "hvc1.1.6.L93.90" (u32 1280) (u32 720), samples') /\
    Data <$> samples' = (fun ns => frames (@kept _ NaluConcrete ns)) <$> [[hevc_vps; hevc_sps; hevc_pps; hevc_idr]; [hevc_p]].
Proof.
  apply (@initHEVCData_rewrites_samples _ NaluConcrete) with (V := [hevc_vps]) (q0 := hevc_sps) (Q := []) (P := [hevc_pps])
    (nss := [[hevc_vps; hevc_sps; hevc_pps; hevc_idr]; [hevc_p]]); try reflexivity; [done|].
  repeat constructor; unfold short, ps_known; cbn; try lia; set_solver.
Defined.

(** Parameter sets found in the samples are kept as slices of the arrays
    that are being rewritten.  Here the hvcC box has no VPS and the first
    sample carries one: when [initHEVCData] returns, the VPS it recorded has
    been overwritten with the start of the coded picture that followed. *)
Theorem inband_parameter_set_overwritten :
  exists d samples', @initHEVCData _ NaluConcrete ([] : bytes) (Some [(33, [hevc_sps]); (34, [hevc_pps])]) 12800
     [sample_of [hevc_vps; hevc_idr]] = Ret (d, samples') /\
    Data <$> samples' = [frames [hevc_idr]] /\
    hevc_Vpss d = [take 3 hevc_idr] /\ hevc_Vpss d <> [hevc_vps].
Proof. do 2 eexists. split_and!; [vm_compute; reflexivity.. | vm_compute; congruence]. Qed.

(** ** Caption splicing *)
Lemma firstVCL_spec `{NL : NaluLib} codec ns i d : exists k,
  firstVCL ns codec i d = Ret (if bool_decide (k < length ns)%nat then i + k else d)%nat /\ (k <= length ns)%nat /\
  (forall n, n ∈ take k ns -> isVCLNalu n codec <> Ret true) /\
  (forall n, ns !! k = Some n -> isVCLNalu n codec = Ret true).
Proof.
  revert i. induction ns as [|n ns IH]; intros i; cbn [firstVCL].
  - exists 0%nat. split_and!; try done. intros n Hn. by apply elem_of_nil in Hn.
  - assert (exists b, (if 0 <? len n then isVCLNalu n codec else Ret false) = Ret b /\
              (b = false -> isVCLNalu n codec <> Ret true) /\ (b = true -> isVCLNalu n codec = Ret true)) as (b & -> & Hf & Ht).
    { destruct n as [|b0 n]; [by exists false|].
      unfold isVCLNalu. change (index (b0 :: n) 0) with (Ret b0). cbn [obind].
      rewrite (proj2 (Z.ltb_lt 0 (len (b0 :: n)))) by (unfold len; cbn [length]; lia).
      destruct codec; (eexists; split; [reflexivity|]; split; congruence). }
    cbn [obind]. destruct b.
    + exists 0%nat. rewrite bool_decide_true by (cbn; lia). rewrite Nat.add_0_r. split_and!; [done | lia | |].
      * intros x Hx. by apply elem_of_nil in Hx.
      * intros x [= <-]. by apply Ht.
    + destruct (IH (S i)) as (k & -> & Hk & Hbefore & Hat). exists (S k). split_and!.
      * cbn [length]. destruct (decide (k < length ns)%nat).
        -- rewrite !bool_decide_true by lia. f_equal. lia.
        -- by rewrite !bool_decide_false by lia.
      * cbn. lia.
      * intros x [->|Hx]%elem_of_cons; [by apply Hf | by apply Hbefore].
      * done.
Qed.

(** Splicing keeps every unit of the sample, in order, and inserts the
    SEI unit once: directly before the first coded slice, or at the end when
    there is none. *)
Theorem SpliceSEIBeforeVCL_spec `{NL : NaluLib} (sampleData sei : bytes) (codec : carriageCodec) slices :
  GetNalusFromSample sampleData = Ret slices ->
  exists before after,
    (fun on => slice sampleData on.1 on.2) <$> slices = before ++ after /\
    SpliceSEIBeforeVCL sampleData sei codec = Ret (frames (before ++ [sei] ++ after)) /\
    (forall n, n ∈ before -> isVCLNalu n codec <> Ret true) /\
    (forall n, head after = Some n -> isVCLNalu n codec = Ret true).
Proof.
  intros Hs. unfold SpliceSEIBeforeVCL. rewrite Hs. cbn [obind].
  set (nalus := _ <$> slices).
  destruct (firstVCL_spec codec nalus 0 (length nalus)) as (k & -> & Hk & Hbefore & Hat). cbn [obind].
  replace (if bool_decide (k < length nalus)%nat then (0 + k)%nat else length nalus) with k
    by (case_bool_decide; lia).
  exists (take k nalus), (drop k nalus). split_and!.
  - by rewrite take_drop.
  - by rewrite append_frames_spec, <- app_assoc.
  - exact Hbefore.
  - intros n Hn. apply Hat. by rewrite <- (Nat.add_0_r k), <- lookup_drop, <- head_lookup.
Qed.

Lemma SpliceSEIBeforeVCL_spec_witness :
  exists before after,
    (fun on => slice (frames [[9; 16]; [0x65; 1; 2]]) on.1 on.2) <$> [(4, 2); (10, 3)]%nat = before ++ after /\
    @SpliceSEIBeforeVCL _ NaluConcrete (frames [[9; 16]; [0x65; 1; 2]]) [6; 4] CodecAVC
      = Ret (frames (before ++ [[6; 4]] ++ after)) /\
    (forall n, n ∈ before -> isVCLNalu n CodecAVC <> Ret true) /\
    (forall n, head after = Some n -> isVCLNalu n CodecAVC = Ret true).
Proof.
  apply (SpliceSEIBeforeVCL_spec (frames [[9; 16]; [0x65; 1; 2]]) [6; 4] CodecAVC). vm_compute. reflexivity.
Defined.

(** ** AnnexB *)
Definition annexB (ns : list bytes) : bytes := concat ((fun n => annexBStartCode ++ n) <$> ns).

Lemma annexB_loop_frames ns fuel out : (length (frames ns) <= fuel)%nat -> Forall (fun n => len n < 2 ^ 32) ns ->
  annexB_loop fuel (frames ns) out = (out ++ annexB ns, Ret tt).
Proof.
  revert fuel out. induction ns as [|n ns IH]; intros fuel out Hfuel Hns.
  - change (annexB []) with (@nil Z). rewrite app_nil_r. by destruct fuel.
  - apply Forall_cons in Hns as [Hn Hns]. rewrite frames_cons in *.
    rewrite length_app, frame_length in Hfuel. destruct fuel as [|fuel]; [lia|]. cbn [annexB_loop].
    assert (Hlen : len (frame n ++ frames ns) = 4 + len n + len (frames ns)).
    { rewrite len_app. unfold len at 1. rewrite frame_length. unfold len. lia. }
    pose proof (len_nonneg n). pose proof (len_nonneg (frames ns)).
    rewrite (proj2 (Z.ltb_ge _ _)) by lia. rewrite frame_Uint32, drop4_frame by lia.
    rewrite (proj2 (Z.ltb_ge _ _)) by (rewrite len_app; lia).
    assert (Hnn : Z.to_nat (len n) = length n) by (unfold len; lia). rewrite Hnn.
    rewrite drop_app_length, take_app_length. rewrite IH by (done || lia).
    f_equal. unfold annexB. cbn. by rewrite <- !app_assoc.
Qed.

(** The subscriber turns the payload of an AVC object into AnnexB without
    loss: every unit of the payload, the prepended parameter sets of a key
    frame included, comes out once, in order, behind a start code. *)
Theorem LOCVideoWriter_annexB {M : Mp4Types} (d : AVCData) (nalus : list bytes) :
  Forall (fun n => len n < 2 ^ 32) (avc_Spss d ++ avc_Ppss d ++ nalus) ->
  LOCVideoWriter_Write (avc_GenLOCVideoConfig d ++ frames nalus) =
    (annexB (avc_Spss d ++ avc_Ppss d ++ nalus), Ret tt).
Proof.
  intros H. unfold LOCVideoWriter_Write, avc_GenLOCVideoConfig. rewrite !append_frames_spec. cbn [app].
  rewrite <- app_assoc, <- !frames_app. by rewrite annexB_loop_frames.
Qed.

Lemma LOCVideoWriter_annexB_witness :
  LOCVideoWriter_Write (@avc_GenLOCVideoConfig Mp4Concrete (@mkAVCData Mp4Concrete None None [[0x67; 1]] [[0x68]] "" 0 0)
      ++ frames [[0x65; 7; 8]]) =
    ([0; 0; 0; 1; 0x67; 1; 0; 0; 0; 1; 0x68; 0; 0; 0; 1; 0x65; 7; 8], Ret tt).
Proof.
  apply (@LOCVideoWriter_annexB Mp4Concrete (@mkAVCData Mp4Concrete None None [[0x67; 1]] [[0x68]] "" 0 0) [[0x65; 7; 8]]).
  repeat constructor.
Defined.
