(* ===== verification/Av1.v ===== *)
(** * AV1: spatial layers and decoder configuration

    [splitAV1SpatialLayers], [keyframeHasAV1SeqHeader], the two
    [GenLOCVideoConfig] methods and [initAV1Data] of [internal/media.go].
    The OBU parser and the frame header decoder belong to mp4ff; they are the
    parameters of the class [Av1Lib].  The decoder keeps state between frame
    headers, so parsing one returns the next decoder. *)
From S2P Require Import Prelude Media.
Local Open Scope Z_scope.
Local Open Scope go_scope.

(** [av1.OBUType], as far as the code distinguishes the types. *)
Inductive OBUType :=
  | OBUSequenceHeader | OBUTemporalDelimiter | OBUFrameHeader | OBUTileGroup
  | OBUFrame | OBURedundantFrameHeader | OBUOther (t : Z).
#[export] Instance OBUType_eq_dec : EqDecision OBUType.
Proof. solve_decision. Defined.

Record OBU := mkOBU {
  obuType : OBUType; ExtensionFlag : bool; TemporalID : Z; SpatialID : Z; Payload : bytes
}.

Class Av1Lib `{M : Mp4Types} := {
  SplitOBUs : bytes -> outcome (list OBU);
  EncodeOBU : OBU -> bytes;
  (** [ParseOBUHeader]: the type of the first OBU. *)
  ParseOBUHeader : bytes -> outcome OBUType;
  SequenceHeader : Type;
  shWidth : SequenceHeader -> Z;
  shHeight : SequenceHeader -> Z;
  shCodecString : SequenceHeader -> string;
  FrameHeaderDecoder : Type;
  NewFrameHeaderDecoder : SequenceHeader -> outcome FrameHeaderDecoder;
  (** Temporal ID, spatial ID and payload to frame width and height. *)
  ParseFrameHeader : FrameHeaderDecoder -> Z -> Z -> bytes -> outcome (FrameHeaderDecoder * (Z * Z));
  (** [CreateEmptyInit], [AddEmptyTrack] and [SetAV1Descriptor]. *)
  av1Init : Z -> Z -> Z -> outcome InitSegment
}.

Definition isAV1FrameOBU (t : OBUType) : bool := bool_decide (t = OBUFrame) || bool_decide (t = OBUFrameHeader).

Definition isAV1LayerOBU (t : OBUType) : bool :=
  match t with
  | OBUFrame | OBUFrameHeader | OBUTileGroup | OBURedundantFrameHeader => true
  | _ => false
  end.

Section Av1.
Context `{AL : Av1Lib}.

(** ** First pass: is there a spatial layer above 0? *)
Fixpoint obus_maxSpatial (obus : list OBU) (acc : Z * bool) : Z * bool :=
  match obus with
  | [] => acc
  | obu :: obus =>
      let acc := if isAV1FrameOBU (obuType obu) && ExtensionFlag obu && (0 <? SpatialID obu)
                 then (Z.max acc.1 (SpatialID obu), true) else acc in
      obus_maxSpatial obus acc
  end.

Fixpoint samples_maxSpatial (sampleNr : nat) (samples : list FullSample) (acc : Z * bool) : outcome (Z * bool) :=
  match samples with
  | [] => Ret acc
  | x :: samples =>
      let! obus := owrap "sample %d: %w" [pretty sampleNr] (SplitOBUs (Data x)) in
      samples_maxSpatial (S sampleNr) samples (obus_maxSpatial obus acc)
  end.

(** ** Second pass: distribute the OBUs of one sample *)
Record splitState := mkSplit {
  spWidth : list Z; spHeight : list Z;       (* of [layers] *)
  spSeen : list bool; spPayloads : list bytes; spDecoder : FrameHeaderDecoder
}.

Definition obu_layer (obu : OBU) : Z :=
  if ExtensionFlag obu && negb (bool_decide (obuType obu = OBUSequenceHeader))
     && negb (bool_decide (obuType obu = OBUTemporalDelimiter))
  then SpatialID obu else 0.

(** The body of the loop over the OBUs of sample [sampleNr]; [n] layers. *)
Definition split_obu (n : nat) (sampleNr obuNr : nat) (obu : OBU) (s : splitState) : outcome splitState :=
  let spatialID := obu_layer obu in
  if Z.of_nat n <=? spatialID then
    Err (Errorf "sample %d OBU %d: spatial ID %d exceeds maximum %d"
           [pretty sampleNr; pretty obuNr; pretty spatialID; pretty (Z.of_nat n - 1)])
  else if isAV1LayerOBU (obuType obu) && negb (TemporalID obu =? 0) then
    Err (Errorf "sample %d OBU %d: temporal ID %d is unsupported"
           [pretty sampleNr; pretty obuNr; pretty (TemporalID obu)])
  else
    let k := Z.to_nat spatialID in
    let! s :=
      if isAV1FrameOBU (obuType obu) then
        let! seen := index (spSeen s) spatialID in
        if (seen : bool) then
          Err (Errorf "sample %d: duplicate frame for spatial ID %d" [pretty sampleNr; pretty spatialID])
        else
          let! '(dec, wh) := owrap "sample %d OBU %d spatial ID %d: %w"
            [pretty sampleNr; pretty obuNr; pretty spatialID]
            (ParseFrameHeader (spDecoder s) (TemporalID obu) spatialID (Payload obu)) in
          Ret (mkSplit (alter (Z.max wh.1) k (spWidth s)) (alter (Z.max wh.2) k (spHeight s))
                 (<[k := true]> (spSeen s)) (spPayloads s) dec)
      else Ret s in
    Ret (mkSplit (spWidth s) (spHeight s) (spSeen s)
           (alter (fun p => p ++ EncodeOBU obu) k (spPayloads s)) (spDecoder s)).

Fixpoint split_obus (n sampleNr obuNr : nat) (obus : list OBU) (s : splitState) : outcome splitState :=
  match obus with
  | [] => Ret s
  | obu :: obus => let! s := split_obu n sampleNr obuNr obu s in split_obus n sampleNr (S obuNr) obus s
  end.

(** The index of the first layer without a frame in this sample. *)
Definition missing (seen : list bool) : option nat := fst <$> list_find (fun b => b = false) seen.

(** The payloads of all samples, each a list of [n] payloads, and the final
    dimensions. *)
Fixpoint split_samples (n sampleNr : nat) (samples : list FullSample) (ws hs : list Z) (dec : FrameHeaderDecoder)
  : outcome (list (list bytes) * (list Z * list Z)) :=
  match samples with
  | [] => Ret ([], (ws, hs))
  | x :: samples =>
      let! obus := owrap "sample %d: %w" [pretty sampleNr] (SplitOBUs (Data x)) in
      let! s := split_obus n sampleNr 0 obus (mkSplit ws hs (replicate n false) (replicate n []) dec) in
      match missing (spSeen s) with
      | Some k => Err (Errorf "sample %d: missing frame for spatial ID %d" [pretty sampleNr; pretty k])
      | None =>
          let! '(rest, wh) := split_samples n (S sampleNr) samples (spWidth s) (spHeight s) (spDecoder s) in
          Ret (spPayloads s :: rest, wh)
      end
  end.

(** [totalSize += uint64(len(payload))] over the samples. *)
Definition total_size (ps : list bytes) : Z := fold_left (fun acc p => u64 (acc + len p)) ps 0.

Definition layer_of (payloads : list (list bytes)) (ws hs : list Z) (i : nat) : AV1SpatialLayer :=
  let mine := (fun p => default [] (p !! i)) <$> payloads in
  mkAV1SpatialLayer (Z.of_nat i) (default 0 (ws !! i)) (default 0 (hs !! i)) mine (total_size mine).

Definition splitAV1SpatialLayers (samples : list FullSample) (sh : SequenceHeader) : outcome (list AV1SpatialLayer) :=
  let! '(maxSpatialID, spatial) := samples_maxSpatial 0 samples (0, false) in
  if negb spatial then Ret []
  else
    let n := Z.to_nat (maxSpatialID + 1) in
    let! dec := NewFrameHeaderDecoder sh in
    let! '(payloads, (ws, hs)) := split_samples n 0 samples (replicate n 0) (replicate n 0) dec in
    let layers := layer_of payloads ws hs <$> seq 0 n in
    match list_find (fun l => layerWidth l = 0 \/ layerHeight l = 0) layers with
    | Some (i, _) => Err (Errorf "spatial ID %d has no coded dimensions" [pretty i])
    | None => Ret layers
    end.

(** ** In-band configuration *)
Fixpoint keyframeHasAV1SeqHeader (samples : list FullSample) : bool :=
  match samples with
  | [] => false
  | x :: samples =>
      if negb (IsSync x) then keyframeHasAV1SeqHeader samples
      else match ParseOBUHeader (Data x) with
           | Ret t => bool_decide (t = OBUSequenceHeader)
           | _ => false
           end
  end.

Definition av1_GenLOCVideoConfig (d : AV1Data) : bytes := if negb (locNeedsConfig d) then [] else configOBUs d.

Definition GenLOCVideoConfigForSample (d : AV1Data) (sample : bytes) : bytes :=
  match SplitOBUs sample with
  | Ret obus => if existsb (fun o => bool_decide (obuType o = OBUSequenceHeader)) obus then [] else configOBUs d
  | _ => configOBUs d
  end.

(** [av1C] is the configuration box: its parsed sequence header and its OBUs. *)
Definition initAV1Data (init : InitSegment) (av1C : option (outcome SequenceHeader * bytes)) (timeScale : Z)
    (samples : list FullSample) : outcome AV1Data :=
  match av1C with
  | None => errorf "no av1C box found"
  | Some (sequenceHeader, ConfigOBUs) =>
      let! sh := owrap "could not parse AV1 sequence header: %w" [] sequenceHeader in
      let! layers := owrap "could not split AV1 spatial layers: %w" [] (splitAV1SpatialLayers samples sh) in
      let! outInit := owrap "could not set AV1 descriptor: %w" []
                        (av1Init timeScale (u16 (shWidth sh)) (u16 (shHeight sh))) in
      Ret (mkAV1Data (Some init) (Some outInit) (shCodecString sh) (shWidth sh) (shHeight sh) ConfigOBUs
             (negb (keyframeHasAV1SeqHeader samples)) layers)
  end.
End Av1.
