(* ===== verification/Av1Props.v ===== *)
(** * Splitting AV1 samples into spatial layers loses nothing

    What the layers of some samples are is defined here apart from the code:
    which OBUs make a layer, how many layers there are, and what is asked of
    the samples.  [split_obu_iff], [split_samples_iff] and the theorem say that
    the code computes this, and fails in all other cases. *)
From S2P Require Import Prelude Media Av1.
Local Open Scope Z_scope.
Local Open Scope go_scope.

(** ** Updates of one element, and maxima *)

Lemma alter_imap {A : Type} (f : A -> A) k l : alter f k l = imap (fun i x => if decide (i = k) then f x else x) l.
Proof.
  apply list_eq. intros i. rewrite list_lookup_imap. destruct (decide (i = k)) as [->|Hn].
  - rewrite list_lookup_alter_eq. by destruct (l !! k); cbn; rewrite ?decide_True.
  - rewrite list_lookup_alter_ne by done. by destruct (l !! i); cbn; rewrite ?decide_False.
Qed.

Lemma insert_imap {A : Type} (a : A) k l : <[k:=a]> l = imap (fun i x => if decide (i = k) then a else x) l.
Proof.
  rewrite <- (alter_imap (fun _ => a)). apply list_eq. intros i. destruct (decide (i = k)) as [->|Hn].
  - rewrite list_lookup_alter_eq. destruct (decide (k < length l)%nat) as [Hk|Hk].
    + rewrite list_lookup_insert_eq by done. by destruct (lookup_lt_is_Some_2 l k Hk) as [x ->].
    + rewrite !lookup_ge_None_2; [done|lia|rewrite length_insert; lia].
  - by rewrite list_lookup_insert_ne, list_lookup_alter_ne.
Qed.

Lemma imap_same {A : Type} (f : nat -> A -> A) l : (forall i x, f i x = x) -> imap f l = l.
Proof. intros Hf. apply list_eq. intros i. rewrite list_lookup_imap. destruct (l !! i); cbn; by rewrite ?Hf. Qed.

Lemma imap_imap {A : Type} (f g : nat -> A -> A) l : imap f (imap g l) = imap (fun i x => f i (g i x)) l.
Proof. apply list_eq. intros i. rewrite !list_lookup_imap. by destruct (l !! i). Qed.

Definition largest (w : Z) (l : list Z) : Z := foldr Z.max w l.
Lemma largest_max w x l : largest (Z.max x w) l = Z.max x (largest w l).
Proof.
  induction l as [|y l IH]; [done|]. change (Z.max y (largest (Z.max x w) l) = Z.max x (Z.max y (largest w l))). rewrite IH. lia.
Qed.
Lemma largest_app w l k : largest w (l ++ k) = largest (largest w l) k.
Proof.
  induction l as [|x l IH]; [done|]. change (Z.max x (largest w (l ++ k)) = largest (Z.max x (largest w l)) k).
  by rewrite IH, largest_max.
Qed.

Section Av1Props.
Context `{AL : Av1Lib}.
(** A spatial ID is a field of three bits. *)
Hypothesis SplitOBUs_ids : forall b obus, SplitOBUs b = Ret obus -> Forall (fun o => 0 <= SpatialID o) obus.

(** ** What the layers are *)

(** OBUs that carry a frame header, and those that carry a part of a frame *)
Definition is_frame (o : OBU) : bool := match obuType o with OBUFrame | OBUFrameHeader => true | _ => false end.
Definition has_tiles (o : OBU) : bool :=
  match obuType o with OBUFrame | OBUFrameHeader | OBUTileGroup | OBURedundantFrameHeader => true | _ => false end.

(** The layer of an OBU: sequence headers and delimiters are in the base
    layer, and so are OBUs that do not say. *)
Definition layer_id (o : OBU) : Z :=
  match obuType o with OBUSequenceHeader | OBUTemporalDelimiter => 0 | _ => if ExtensionFlag o then SpatialID o else 0 end.

Lemma is_frame_eq o : isAV1FrameOBU (obuType o) = is_frame o.
Proof. unfold isAV1FrameOBU, is_frame. by destruct (obuType o). Qed.
Lemma layer_id_eq o : obu_layer o = layer_id o.
Proof. unfold obu_layer, layer_id. by destruct (obuType o), (ExtensionFlag o). Qed.

(** The OBUs of a sample that belong to layer [i], and those among them that
    carry a frame *)
Definition in_layer (i : nat) (o : OBU) : Prop := Z.to_nat (layer_id o) = i.
#[export] Instance in_layer_dec i o : Decision (in_layer i o).
Proof. unfold in_layer. apply _. Defined.

Definition layer_bytes (i : nat) (obus : list OBU) : bytes := concat (EncodeOBU <$> filter (in_layer i) obus).
Definition layer_frames (i : nat) (obus : list OBU) : list OBU :=
  filter (fun o => is_frame o = true) (filter (in_layer i) obus).

(** The spatial IDs of frames, as far as they are not 0; the number of layers
    is one more than the largest, and 0 when there is none. *)
Definition upper_ids (obus : list OBU) : list Z :=
  SpatialID <$> filter (fun o => is_frame o && ExtensionFlag o && (0 <? SpatialID o) = true) obus.
Definition layer_count (obus : list OBU) : nat :=
  match upper_ids obus with [] => 0%nat | ids => S (Z.to_nat (largest 0 ids)) end.

(** The headers of all frames, decoded in their order: layer, width and height *)
Fixpoint decode_frames (dec : FrameHeaderDecoder) (obus : list OBU) : outcome (FrameHeaderDecoder * list (nat * (Z * Z))) :=
  match obus with
  | [] => Ret (dec, [])
  | o :: obus =>
      if is_frame o then
        let! '(dec, wh) := ParseFrameHeader dec (TemporalID o) (layer_id o) (Payload o) in
        let! '(dec, l) := decode_frames dec obus in
        Ret (dec, (Z.to_nat (layer_id o), wh) :: l)
      else decode_frames dec obus
  end.
Definition sizes_of (i : nat) (l : list (nat * (Z * Z))) : list (Z * Z) := snd <$> filter (fun x => x.1 = i) l.

(** What is asked of every OBU, and of a sample *)
Definition placed (n : nat) (o : OBU) : Prop :=
  0 <= layer_id o < Z.of_nat n /\ (has_tiles o = true -> TemporalID o = 0).
Definition one_frame_each (n : nat) (obus : list OBU) : Prop := forall i, (i < n)%nat -> length (layer_frames i obus) = 1%nat.

(** The layers, given the OBUs of each sample and the sizes of the frames *)
Definition expected_layer (all : list (list OBU)) (sizes : list (nat * (Z * Z))) (i : nat) : AV1SpatialLayer :=
  mkAV1SpatialLayer (Z.of_nat i) (largest 0 (fst <$> sizes_of i sizes)) (largest 0 (snd <$> sizes_of i sizes))
    (layer_bytes i <$> all) (u64 (foldr Z.add 0 (len <$> (layer_bytes i <$> all)))).

(** ** One OBU after the other *)

Lemma layer_bytes_app i l k : layer_bytes i (l ++ k) = layer_bytes i l ++ layer_bytes i k.
Proof. unfold layer_bytes. by rewrite filter_app, fmap_app, concat_app. Qed.
Lemma layer_frames_app i l k : layer_frames i (l ++ k) = layer_frames i l ++ layer_frames i k.
Proof. unfold layer_frames. by rewrite !filter_app. Qed.
Lemma sizes_of_app i l k : sizes_of i (l ++ k) = sizes_of i l ++ sizes_of i k.
Proof. unfold sizes_of. by rewrite filter_app, fmap_app. Qed.

Lemma decode_frames_app dec l k : decode_frames dec (l ++ k) =
  let! '(d, a) := decode_frames dec l in let! '(d, b) := decode_frames d k in Ret (d, a ++ b).
Proof.
  revert dec. induction l as [|o l IH]; intros dec; [by cbn; destruct (decode_frames dec k) as [[]| |]|].
  cbn [app decode_frames]. destruct (is_frame _); [|done]. destruct (ParseFrameHeader _ _ _ _) as [[d wh]| |]; [|done..]. cbn [obind].
  rewrite IH. destruct (decode_frames d l) as [[d1 a]| |]; [|done..]. cbn [obind]. by destruct (decode_frames d1 k) as [[]| |].
Qed.

(** What some OBUs add to the state of the loop *)
Definition grown (s : splitState) (obus : list OBU) (dec : FrameHeaderDecoder) (sizes : list (nat * (Z * Z))) : splitState :=
  mkSplit (imap (fun i w => largest w (fst <$> sizes_of i sizes)) (spWidth s))
          (imap (fun i h => largest h (snd <$> sizes_of i sizes)) (spHeight s))
          (imap (fun i (b : bool) => b || negb (bool_decide (layer_frames i obus = []))) (spSeen s))
          (imap (fun i p => p ++ layer_bytes i obus) (spPayloads s)) dec.

Definition room (seen : list bool) (obus : list OBU) : Prop :=
  forall i b, seen !! i = Some b -> (Nat.b2n b + length (layer_frames i obus) <= 1)%nat.

Definition adds (n : nat) (obus : list OBU) (s s' : splitState) : Prop :=
  exists dec sizes, decode_frames (spDecoder s) obus = Ret (dec, sizes) /\ Forall (placed n) obus /\
    room (spSeen s) obus /\ s' = grown s obus dec sizes.

Lemma layer_bytes_one i o : layer_bytes i [o] = if decide (i = Z.to_nat (layer_id o)) then EncodeOBU o else [].
Proof.
  unfold layer_bytes. rewrite filter_cons, filter_nil. unfold in_layer. destruct (decide (i = _)) as [->|Hn].
  - rewrite decide_True by done. cbn. by rewrite app_nil_r.
  - by rewrite decide_False by congruence.
Qed.
Lemma layer_frames_one i o : layer_frames i [o] = if decide (i = Z.to_nat (layer_id o)) then (if is_frame o then [o] else []) else [].
Proof.
  unfold layer_frames. rewrite filter_cons, filter_nil. unfold in_layer. destruct (decide (i = _)) as [->|Hn].
  - rewrite decide_True by done. rewrite filter_cons, filter_nil. by destruct (is_frame _).
  - by rewrite decide_False by congruence.
Qed.

Lemma split_obu_iff n nr k o s s' : 0 <= layer_id o -> length (spSeen s) = n ->
  split_obu n nr k o s = Ret s' <-> adds n [o] s s'.
Proof.
  intros H0 Hlen. unfold split_obu, adds. cbv zeta. rewrite is_frame_eq, layer_id_eq. change (isAV1LayerOBU (obuType o)) with (has_tiles o). cbn [decode_frames]. destruct (Z.leb_spec (Z.of_nat n) (layer_id o)) as [Hn|Hn].
  { split; [done|]. intros (? & ? & _ & Ha & _). apply Forall_cons in Ha as [[Ha _] _]. lia. }
  destruct (has_tiles o && negb (TemporalID o =? 0)) eqn:Et.
  { split; [done|]. intros (? & ? & _ & Ha & _). apply Forall_cons in Ha as [[_ Ha] _].
    apply andb_true_iff in Et as [Et Eq]. rewrite (Ha Et) in Eq. done. }
  assert (Hadm : Forall (placed n) [o]).
  { constructor; [|constructor]. split; [lia|]. intros El. rewrite El in Et. cbn in Et. by apply negb_false_iff, Z.eqb_eq in Et. }
  set (q := Z.to_nat (layer_id o)).
  assert (Hpay : alter (fun p => p ++ EncodeOBU o) q (spPayloads s) = imap (fun i p => p ++ layer_bytes i [o]) (spPayloads s)).
  { rewrite alter_imap. apply imap_ext. intros i p _. rewrite layer_bytes_one. fold q. destruct (decide (i = q)); [done|by rewrite app_nil_r]. }
  destruct (is_frame o) eqn:Ef.
  - destruct (index_in_range (spSeen s) (layer_id o)) as [b Hb]; [unfold len; lia|]. rewrite Hb. cbn [obind].
    apply index_Ret in Hb as [_ Hb]. fold q in Hb.
    assert (Hroom : room (spSeen s) [o] <-> b = false).
    { split.
      - intros Hr. specialize (Hr q b Hb). rewrite layer_frames_one, decide_True, Ef in Hr by done. destruct b; [cbn in Hr; lia|done].
      - intros -> i c Hc. rewrite layer_frames_one. fold q. destruct (decide (i = q)) as [->|]; [|destruct c; cbn; lia].
        rewrite Hb in Hc. injection Hc as <-. rewrite Ef. cbn. lia. }
    destruct b.
    { split; [done|]. intros (? & ? & _ & _ & Hr & _). by apply Hroom in Hr. }
    destruct (ParseFrameHeader _ _ _ _) as [[d wh]| |]; cbn [owrap obind];
      [|split; [done|by intros (? & ? & ? & _)]..].
    assert (Hg : mkSplit (alter (Z.max wh.1) q (spWidth s)) (alter (Z.max wh.2) q (spHeight s)) (<[q := true]> (spSeen s))
      (alter (fun p => p ++ EncodeOBU o) q (spPayloads s)) d = grown s [o] d [(q, wh)]).
    { unfold grown. rewrite Hpay, !alter_imap, insert_imap. f_equal; apply imap_ext; intros i x _; unfold sizes_of;
        rewrite ?layer_frames_one, ?filter_cons, ?filter_nil; cbn [fst]; fold q; destruct (decide (i = q)) as [->|Hne];
        rewrite ?decide_True, ?decide_False by done; rewrite ?Ef; cbn; rewrite ?orb_true_r, ?orb_false_r; done. }
    cbn [spWidth spHeight spSeen spPayloads spDecoder]. rewrite Hg. split.
    + intros [= <-]. exists d, [(q, wh)]. split; [done|]. split; [done|]. split; [by apply Hroom|done].
    + intros (d' & z & [= <- <-] & _ & _ & ->). done.
  - cbn [obind]. assert (Hroom : room (spSeen s) [o]).
    { intros i b _. rewrite layer_frames_one, Ef. destruct (decide _), b; cbn; lia. }
    assert (Hg : mkSplit (spWidth s) (spHeight s) (spSeen s) (alter (fun p => p ++ EncodeOBU o) q (spPayloads s)) (spDecoder s)
      = grown s [o] (spDecoder s) []).
    { unfold grown. rewrite Hpay. f_equal; symmetry; apply imap_same; intros i x; [done..|].
      rewrite layer_frames_one, Ef. destruct (decide _); cbn; by rewrite orb_false_r. }
    rewrite Hg. split.
    + intros [= <-]. by exists (spDecoder s), [].
    + intros (d & z & [= <- <-] & _ & _ & ->). done.
Qed.

Lemma grown_app s l k d1 z1 d2 z2 : grown (grown s l d1 z1) k d2 z2 = grown s (l ++ k) d2 (z1 ++ z2).
Proof.
  unfold grown. cbn [spWidth spHeight spSeen spPayloads]. rewrite !imap_imap. f_equal; apply imap_ext; intros i x _.
  - by rewrite sizes_of_app, fmap_app, largest_app.
  - by rewrite sizes_of_app, fmap_app, largest_app.
  - rewrite layer_frames_app, <- orb_assoc. f_equal. by destruct (layer_frames i l).
  - by rewrite layer_bytes_app, app_assoc.
Qed.

Lemma room_app seen l k : room seen (l ++ k) <->
  room seen l /\ room (imap (fun i (b : bool) => b || negb (bool_decide (layer_frames i l = []))) seen) k.
Proof.
  unfold room. split.
  - intros Hr. split.
    + intros i b Hb. specialize (Hr i b Hb). rewrite layer_frames_app, length_app in Hr. lia.
    + intros i b Hb. rewrite list_lookup_imap in Hb. destruct (seen !! i) as [c|] eqn:Ec; [|done]. cbn in Hb. injection Hb as <-.
      specialize (Hr i c Ec). rewrite layer_frames_app, length_app in Hr. destruct c, (layer_frames i l); cbn in *; lia.
  - intros [H1 H2] i b Hb. rewrite layer_frames_app, length_app. specialize (H1 i b Hb).
    specialize (H2 i _ ltac:(rewrite list_lookup_imap, Hb; reflexivity)). destruct b, (layer_frames i l) as [|? []]; cbn in *; lia.
Qed.

Lemma split_obus_iff n nr obus : Forall (fun o => 0 <= layer_id o) obus -> forall k s s', length (spSeen s) = n ->
  split_obus n nr k obus s = Ret s' <-> adds n obus s s'.
Proof.
  induction 1 as [|o obus Ho _ IH]; intros k s s' Hlen; cbn [split_obus].
  - unfold adds. cbn [decode_frames]. assert (Hg : grown s [] (spDecoder s) [] = s).
    { unfold grown. rewrite !imap_same; try (intros i x; cbn; by rewrite ?app_nil_r, ?orb_false_r). by destruct s. }
    split.
    + intros [= <-]. exists (spDecoder s), []. split; [done|]. split; [done|]. split; [|done]. intros i b _. destruct b; cbn; lia.
    + intros (d & z & [= <- <-] & _ & _ & ->). by rewrite Hg.
  - change (o :: obus) with ([o] ++ obus). split.
    + intros H. apply obind_Ret in H as (s1 & H1 & H2). apply (split_obu_iff n) in H1 as (d1 & z1 & D1 & A1 & R1 & ->); [|done..].
      apply IH in H2 as (d2 & z2 & D2 & A2 & R2 & ->); [|by cbn; rewrite length_imap]. exists d2, (z1 ++ z2).
      rewrite decode_frames_app, D1. cbn [obind]. cbn [grown spDecoder] in D2. rewrite D2. cbn [obind]. split; [done|].
      split; [by apply Forall_app|]. split; [by apply room_app|apply grown_app].
    + intros (d & z & D & [A1 A2]%Forall_app & [R1 R2]%room_app & ->). rewrite decode_frames_app in D.
      apply obind_Ret in D as ([d1 z1] & D1 & D). apply obind_Ret in D as ([d2 z2] & D2 & D). injection D as -> <-.
      rewrite (proj2 (split_obu_iff n nr k o s (grown s [o] d1 z1) Ho Hlen)) by (by exists d1, z1). cbn [obind].
      apply IH; [by cbn; rewrite length_imap|]. exists d, z2. split; [done|]. split; [done|]. split; [done|]. symmetry. apply grown_app.
Qed.

Lemma missing_None seen : missing seen = None <-> forall i b, seen !! i = Some b -> b = true.
Proof.
  unfold missing. destruct (list_find _ seen) as [[j x]|] eqn:E; split; try done.
  - intros H. apply list_find_Some in E as (Hj & -> & _). by specialize (H j false Hj).
  - intros _ i b Hb. rewrite list_find_None, Forall_lookup in E. apply E in Hb. by destruct b.
Qed.

Lemma layer_ids_nonneg b obus : SplitOBUs b = Ret obus -> Forall (fun o => 0 <= layer_id o) obus.
Proof.
  intros H. eapply Forall_impl; [by eapply SplitOBUs_ids|]. cbn. intros o Ho. unfold layer_id. by destruct (obuType o), (ExtensionFlag o).
Qed.

Lemma owrap_iff {A : Type} f args (m : outcome A) a : owrap f args m = Ret a <-> m = Ret a.
Proof. by destruct m. Qed.

(** The state of a sample starts with no frame and no payload. *)
Definition fresh (n : nat) (ws hs : list Z) (dec : FrameHeaderDecoder) : splitState :=
  mkSplit ws hs (replicate n false) (replicate n []) dec.

Lemma sample_complete n ws hs dec obus d z : room (replicate n false) obus /\ missing (spSeen (grown (fresh n ws hs dec) obus d z)) = None <->
  one_frame_each n obus.
Proof.
  rewrite missing_None. unfold room, one_frame_each. cbn [grown fresh spSeen]. split.
  - intros [Hr Hm] i Hi. specialize (Hr i false ltac:(by apply lookup_replicate)).
    specialize (Hm i _ ltac:(rewrite list_lookup_imap, lookup_replicate_2 by done; reflexivity)).
    destruct (layer_frames i obus) as [|? []]; cbn in *; [done|done|lia].
  - intros Ho. split.
    + intros i b [-> Hi]%lookup_replicate. by rewrite Ho.
    + intros i b. rewrite list_lookup_imap. destruct (replicate n false !! i) eqn:E; [|done]. apply lookup_replicate in E as [-> Hi]. cbn.
      intros [= <-]. specialize (Ho i Hi). by destruct (layer_frames i obus).
Qed.

Lemma fresh_payloads n (obus : list OBU) : imap (fun i p => p ++ layer_bytes i obus) (replicate n []) = (fun i => layer_bytes i obus) <$> seq 0 n.
Proof.
  apply list_eq. intros i. rewrite list_lookup_imap, list_lookup_fmap. destruct (decide (i < n)%nat) as [Hi|Hi].
  - rewrite lookup_replicate_2, lookup_seq_lt by done. done.
  - by rewrite !lookup_ge_None_2 by (rewrite ?length_replicate, ?length_seq; lia).
Qed.

(** All samples are split, given their OBUs. *)
Definition split_all (n : nat) (samples : list FullSample) (ws hs : list Z) (dec : FrameHeaderDecoder)
    (payloads : list (list bytes)) (ws' hs' : list Z) : Prop :=
  exists all dec' sizes, Forall2 (fun x obus => SplitOBUs (Data x) = Ret obus) samples all /\
    decode_frames dec (concat all) = Ret (dec', sizes) /\ Forall (Forall (placed n)) all /\ Forall (one_frame_each n) all /\
    payloads = (fun obus => (fun i => layer_bytes i obus) <$> seq 0 n) <$> all /\
    ws' = imap (fun i w => largest w (fst <$> sizes_of i sizes)) ws /\ hs' = imap (fun i h => largest h (snd <$> sizes_of i sizes)) hs.

Lemma split_samples_iff n samples : forall nr ws hs dec payloads ws' hs',
  split_samples n nr samples ws hs dec = Ret (payloads, (ws', hs')) <-> split_all n samples ws hs dec payloads ws' hs'.
Proof.
  induction samples as [|x samples IH]; intros nr ws hs dec payloads ws' hs'; cbn [split_samples].
  - split.
    + intros [= <- <- <-]. exists [], dec, []. split_and!; try done; by rewrite imap_same.
    + intros (all & d & z & Hall & D & _ & _ & -> & -> & ->). apply Forall2_nil_inv_l in Hall as ->. injection D as <- <-.
      by rewrite !imap_same.
  - split.
    + intros H. apply obind_Ret in H as (obus & Hobus & H). apply owrap_iff in Hobus. apply obind_Ret in H as (s & Hs & H).
      apply split_obus_iff in Hs as (d1 & z1 & D1 & A1 & R1 & ->); [|by eapply layer_ids_nonneg|by cbn; rewrite length_replicate].
      destruct (missing _) eqn:Em; [done|]. apply obind_Ret in H as ([rest [w2 h2]] & Hrest & H). injection H as <- -> ->.
      apply IH in Hrest as (all & d2 & z2 & Hall & D2 & A2 & O2 & -> & -> & ->). exists (obus :: all), d2, (z1 ++ z2).
      cbn [concat]. rewrite decode_frames_app. cbn [spDecoder] in D1. rewrite D1. cbn [obind grown spDecoder] in *. rewrite D2. cbn [obind].
      split_and!; [by constructor|done|by constructor| | | |].
      * constructor; [|done]. by eapply (sample_complete n ws hs dec obus d1 z1).
      * cbn [fmap list_fmap]. f_equal. apply fresh_payloads.
      * cbn [grown spWidth]. rewrite imap_imap. apply imap_ext. intros i w _. cbn. by rewrite sizes_of_app, fmap_app, largest_app.
      * cbn [grown spHeight]. rewrite imap_imap. apply imap_ext. intros i w _. cbn. by rewrite sizes_of_app, fmap_app, largest_app.
    + intros (all & d & z & Hall & D & A & O & -> & -> & ->). apply Forall2_cons_inv_l in Hall as (obus & all' & Hobus & Hall & ->).
      cbn [concat] in D. rewrite decode_frames_app in D. apply obind_Ret in D as ([d1 z1] & D1 & D). apply obind_Ret in D as ([d2 z2] & D2 & D).
      injection D as -> <-. apply Forall_cons in A as [A1 A2]. apply Forall_cons in O as [O1 O2].
      rewrite Hobus. cbn [owrap obind]. fold (fresh n ws hs dec). destruct (proj2 (sample_complete n ws hs dec obus d1 z1) O1) as [R1 M1].
      rewrite (proj2 (split_obus_iff n nr obus (layer_ids_nonneg _ _ Hobus) 0 (fresh n ws hs dec) (grown (fresh n ws hs dec) obus d1 z1) ltac:(by cbn; rewrite length_replicate)))
        by (by exists d1, z1).
      cbn [obind]. rewrite M1.
      rewrite (proj2 (IH (S nr) _ _ d1 _ _ _) (ex_intro _ all' (ex_intro _ d (ex_intro _ z2 (conj Hall (conj D2 (conj A2 (conj O2 (conj eq_refl (conj eq_refl eq_refl)))))))))).
      cbn [obind grown fresh spPayloads spWidth spHeight]. rewrite !imap_imap. do 2 f_equal; [|f_equal].
      * cbn [fmap list_fmap]. f_equal. apply fresh_payloads.
      * apply imap_ext. intros i w _. cbn. by rewrite sizes_of_app, fmap_app, largest_app.
      * apply imap_ext. intros i w _. cbn. by rewrite sizes_of_app, fmap_app, largest_app.
Qed.

(** ** The first pass, and the layers *)

Lemma largest_nonneg l : 0 <= largest 0 l.
Proof. induction l as [|x l IH]; [done|]. change (0 <= Z.max x (largest 0 l)). lia. Qed.

Lemma upper_ids_cons o obus : upper_ids (o :: obus) =
  (if is_frame o && ExtensionFlag o && (0 <? SpatialID o) then [SpatialID o] else []) ++ upper_ids obus.
Proof. unfold upper_ids. rewrite filter_cons. by destruct (_ && _). Qed.

Lemma obus_maxSpatial_spec obus m spatial : obus_maxSpatial obus (m, spatial) =
  (largest m (upper_ids obus), spatial || negb (bool_decide (upper_ids obus = []))).
Proof.
  revert m spatial. induction obus as [|o obus IH]; intros m spatial; cbn [obus_maxSpatial]; [by rewrite orb_false_r|].
  rewrite upper_ids_cons, is_frame_eq. destruct (_ && _); cbn [fst app]; rewrite IH; [|done].
  rewrite (bool_decide_eq_false_2 (_ :: _ = [])), orb_true_r by done. f_equal. rewrite Z.max_comm. by rewrite largest_max.
Qed.

Lemma obus_maxSpatial_app l k acc : obus_maxSpatial (l ++ k) acc = obus_maxSpatial k (obus_maxSpatial l acc).
Proof. revert acc. induction l as [|o l IH]; intros acc; [done|]. cbn. apply IH. Qed.

Lemma samples_maxSpatial_iff samples : forall nr acc r, samples_maxSpatial nr samples acc = Ret r <->
  exists all, Forall2 (fun x obus => SplitOBUs (Data x) = Ret obus) samples all /\ r = obus_maxSpatial (concat all) acc.
Proof.
  induction samples as [|x samples IH]; intros nr acc r; cbn [samples_maxSpatial].
  - split; [intros [= <-]; by exists []|]. by intros (all & ->%Forall2_nil_inv_l & ->).
  - split.
    + intros H. apply obind_Ret in H as (obus & Ho%owrap_iff & H). apply IH in H as (all & Hall & ->).
      exists (obus :: all). split; [by constructor|]. cbn. by rewrite obus_maxSpatial_app.
    + intros (all & Hall & ->). apply Forall2_cons_inv_l in Hall as (obus & all' & Ho & Hall & ->). rewrite Ho. cbn [owrap obind concat].
      apply IH. exists all'. split; [done|]. by rewrite obus_maxSpatial_app.
Qed.

Lemma split_unique samples all all' : Forall2 (fun x obus => SplitOBUs (Data x) = Ret obus) samples all ->
  Forall2 (fun x obus => SplitOBUs (Data x) = Ret obus) samples all' -> all = all'.
Proof.
  intros H. revert all'. induction H as [|x obus samples all Hx _ IH]; intros all' H'; [by apply Forall2_nil_inv_l in H'|].
  apply Forall2_cons_inv_l in H' as (obus' & all1 & Hx' & H' & ->). rewrite Hx in Hx'. injection Hx' as <-. f_equal. auto.
Qed.

Lemma total_size_sum ps : total_size ps = u64 (foldr Z.add 0 (len <$> ps)).
Proof.
  assert (Hgo : forall a, fold_left (fun acc (p : bytes) => u64 (acc + len p)) ps (u64 a) = u64 (a + foldr Z.add 0 (len <$> ps))).
  { induction ps as [|p ps IH]; intros a; cbn; [by rewrite Z.add_0_r|]. rewrite u64_add_l, IH. f_equal. lia. }
  apply (Hgo 0).
Qed.

Lemma layer_of_expected n all sizes i : (i < n)%nat ->
  layer_of ((fun obus => (fun i => layer_bytes i obus) <$> seq 0 n) <$> all)
    (imap (fun i w => largest w (fst <$> sizes_of i sizes)) (replicate n 0))
    (imap (fun i h => largest h (snd <$> sizes_of i sizes)) (replicate n 0)) i = expected_layer all sizes i.
Proof.
  intros Hi. unfold layer_of, expected_layer. rewrite !list_lookup_imap, !lookup_replicate_2 by done. cbn [fmap option_fmap option_map default].
  assert (Hm : (fun p : list bytes => default [] (p !! i)) <$> ((fun obus => (fun i => layer_bytes i obus) <$> seq 0 n) <$> all) = layer_bytes i <$> all).
  { rewrite <- list_fmap_compose. apply list_fmap_ext. intros k obus _. cbn. by rewrite list_lookup_fmap, lookup_seq_lt. }
  rewrite Hm, total_size_sum. done.
Qed.

End Av1Props.

(** C10. [splitAV1SpatialLayers] returns layers in these cases and no others,
    and they are these.  Every sample splits into OBUs.  If no frame has a
    spatial ID above 0, there are no layers.  Otherwise there is one for each
    ID from 0 to the largest one that a frame has; every OBU of every sample
    belongs to one of them, those of frames and tiles have the temporal ID 0,
    and every sample has exactly one frame in each layer.  The payload of a
    layer for a sample is the concatenation, in order, of the OBUs of the
    sample that belong to the layer, so that no OBU is lost or sent twice;
    the size of a layer is the sum of its payloads, and its width and height
    are the largest of its frames, which are decoded in order, and not 0. *)
Theorem splitAV1SpatialLayers_lossless `{AL : Av1Lib} (samples : list FullSample) (sh : SequenceHeader) (layers : list AV1SpatialLayer) :
  (forall b obus, SplitOBUs b = Ret obus -> Forall (fun o => 0 <= SpatialID o) obus) ->
  splitAV1SpatialLayers samples sh = Ret layers <->
  exists all, Forall2 (fun x obus => SplitOBUs (Data x) = Ret obus) samples all /\
    let n := layer_count (concat all) in
    if decide (n = 0%nat) then layers = [] else
    exists dec dec' sizes, NewFrameHeaderDecoder sh = Ret dec /\ decode_frames dec (concat all) = Ret (dec', sizes) /\
      Forall (Forall (placed n)) all /\ Forall (one_frame_each n) all /\
      layers = expected_layer all sizes <$> seq 0 n /\ Forall (fun l => layerWidth l <> 0 /\ layerHeight l <> 0) layers.
Proof.
  intros Hids. unfold splitAV1SpatialLayers.
  assert (Hpass : forall all, obus_maxSpatial (concat all) (0, false) =
    (largest 0 (upper_ids (concat all)), negb (bool_decide (upper_ids (concat all) = [])))) by (intros all; apply obus_maxSpatial_spec).
  assert (Hn : forall all, upper_ids (concat all) <> [] -> Z.to_nat (largest 0 (upper_ids (concat all)) + 1) = layer_count (concat all)).
  { intros all Hu. unfold layer_count. pose proof (largest_nonneg (upper_ids (concat all))). destruct (upper_ids _); [done|]. lia. }
  assert (H0 : forall all, upper_ids (concat all) = [] <-> layer_count (concat all) = 0%nat).
  { intros all. unfold layer_count. by destruct (upper_ids _). }
  assert (Hlayers : forall n all sizes, (layer_of ((fun obus => (fun i => layer_bytes i obus) <$> seq 0 n) <$> all)
      (imap (fun i w => largest w (fst <$> sizes_of i sizes)) (replicate n 0))
      (imap (fun i h => largest h (snd <$> sizes_of i sizes)) (replicate n 0)) <$> seq 0 n) = (expected_layer all sizes <$> seq 0 n)).
  { intros n all sizes. apply list_fmap_ext. intros k i Hk. apply lookup_seq in Hk as [-> Hk]. by apply layer_of_expected. }
  split.
  - intros H. apply obind_Ret in H as ([m spatial] & Hp & H). apply samples_maxSpatial_iff in Hp as (all & Hall & E).
    rewrite Hpass in E. injection E as -> ->. exists all. split; [done|]. cbv zeta. case_bool_decide as Hu; cbn [negb] in H.
    { injection H as <-. by rewrite decide_True by (by apply H0). }
    rewrite decide_False by (by rewrite <- H0). rewrite (Hn all Hu) in H. apply obind_Ret in H as (dec & Hd & H).
    apply obind_Ret in H as ([payloads [ws hs]] & Hs & H). apply split_samples_iff in Hs as (all' & dec' & sizes & Hall' & D & A & O & -> & -> & ->); [|done].
    rewrite <- (split_unique _ _ _ Hall Hall') in *. rewrite Hlayers in H. destruct (list_find _ _) as [[]|] eqn:Hf; [done|]. injection H as <-.
    exists dec, dec', sizes. split_and!; try done. apply list_find_None in Hf. eapply Forall_impl; [exact Hf|]. cbn. tauto.
  - intros (all & Hall & H). cbv zeta in H. rewrite (proj2 (samples_maxSpatial_iff samples 0 _ _) (ex_intro _ all (conj Hall eq_refl))), Hpass.
    cbn [obind]. case_decide as Hz.
    { subst. by rewrite (bool_decide_eq_true_2 _ (proj2 (H0 all) Hz)). }
    assert (Hu : upper_ids (concat all) <> []) by (by rewrite H0). rewrite (bool_decide_eq_false_2 _ Hu), (Hn all Hu). cbn [negb].
    destruct H as (dec & dec' & sizes & -> & D & A & O & -> & Hdim). cbn [obind].
    rewrite (proj2 (split_samples_iff Hids _ samples 0 _ _ dec _ _ _) (ex_intro _ all (ex_intro _ dec' (ex_intro _ sizes (conj Hall (conj D (conj A (conj O (conj eq_refl (conj eq_refl eq_refl)))))))))).
    cbn [obind]. rewrite Hlayers. rewrite (proj2 (list_find_None _ _)); [done|]. eapply Forall_impl; [exact Hdim|]. cbn. tauto.
Qed.

(** A toy OBU syntax for the witness: an OBU is two bytes, a layer and a
    value; value 0 is a temporal delimiter, any other value a frame. *)
Fixpoint toy_split (b : bytes) : outcome (list OBU) :=
  match b with
  | [] => Ret []
  | l :: v :: b => let! r := toy_split b in
      Ret (mkOBU (if v =? 0 then OBUTemporalDelimiter else OBUFrame) true 0 (l mod 8) [v] :: r)
  | _ => errorf "short OBU"
  end.
#[export] Instance Av1Concrete : @Av1Lib Mp4Concrete := {|
  SplitOBUs := toy_split; EncodeOBU o := SpatialID o :: Payload o;
  ParseOBUHeader b := match b with _ :: v :: _ => Ret (if v =? 0 then OBUTemporalDelimiter else OBUFrame) | _ => errorf "short OBU" end;
  SequenceHeader := unit; shWidth _ := 640; shHeight _ := 360; shCodecString _ := "av01.0.04M.08"%string;
  FrameHeaderDecoder := unit; NewFrameHeaderDecoder _ := Ret tt;
  ParseFrameHeader _ _ sid _ := Ret (tt, (320 * (sid + 1), 180 * (sid + 1)));
  av1Init _ _ _ := Ret []
|}.

Lemma toy_split_ids b : forall obus, toy_split b = Ret obus -> Forall (fun o => 0 <= SpatialID o) obus.
Proof.
  remember (length b) as n eqn:En. revert b En. induction (Nat.lt_wf_0 n) as [n _ IH]. intros b -> obus.
  destruct b as [|l [|v b]]; cbn; [intros [= <-]; constructor|done|]. intros H. apply obind_Ret in H as (r & Hr & [= <-]).
  constructor; [cbn; apply Z.mod_pos_bound; lia|]. by eapply (IH (length b)); [cbn; lia|..].
Qed.

(** Two samples with two layers: each comes out as it went in, and a sample
    without a frame in one layer is refused. *)
Lemma splitAV1SpatialLayers_lossless_witness :
  let sample d := mkFullSample 0 512 0 0 d in
  let samples := [sample [0; 0; 0; 7; 1; 8]; sample [0; 0; 0; 9; 1; 10]] in
  (forall b obus, @SplitOBUs _ Av1Concrete b = Ret obus -> Forall (fun o => 0 <= SpatialID o) obus) /\
  @splitAV1SpatialLayers _ Av1Concrete samples tt =
    Ret [mkAV1SpatialLayer 0 320 180 [[0; 0; 0; 7]; [0; 0; 0; 9]] 8; mkAV1SpatialLayer 1 640 360 [[1; 8]; [1; 10]] 4] /\
  forall layers, @splitAV1SpatialLayers _ Av1Concrete (samples ++ [sample [0; 7]]) tt <> Ret layers.
Proof.
  intros sample samples. split; [exact toy_split_ids|]. split.
  - apply (@splitAV1SpatialLayers_lossless _ Av1Concrete samples tt); [exact toy_split_ids|].
    exists [[mkOBU OBUTemporalDelimiter true 0 0 [0]; mkOBU OBUFrame true 0 0 [7]; mkOBU OBUFrame true 0 1 [8]];
            [mkOBU OBUTemporalDelimiter true 0 0 [0]; mkOBU OBUFrame true 0 0 [9]; mkOBU OBUFrame true 0 1 [10]]].
    split; [repeat constructor|]. cbv zeta. rewrite decide_False by (vm_compute; discriminate).
    exists tt, tt, [(0%nat, (320, 180)); (1%nat, (640, 360)); (0%nat, (320, 180)); (1%nat, (640, 360))].
    split; [reflexivity|]. split; [vm_compute; reflexivity|]. split; [repeat constructor; vm_compute; discriminate|].
    split; [|split; [vm_compute; reflexivity|repeat constructor; vm_compute; discriminate]].
    repeat constructor; intros [|[|i]] Hi; try (vm_compute; reflexivity); exfalso; revert Hi;
      match goal with |- (_ < ?n)%nat -> _ => let m := eval vm_compute in n in change n with m end; lia.
  - intros layers. vm_compute. discriminate.
Defined.
