(* ===== verification/InitTrack.v ===== *)
(** * From a decoded MP4 file to a content track

    [InitContentTrack] of [internal/asset.go] and the audio codec data of
    [internal/media.go].  A file decoded by mp4ff is the record [Mp4File]: the
    values that the code reads from the boxes. *)
From S2P Require Import Prelude GoFloat Media Timeline Nalu Av1.
Local Open Scope Z_scope.
Local Open Scope go_scope.

(** [mp4.DopsBox], the fields that the code reads. *)
Record DopsBox := mkDops { InputSampleRate : Z; OutputChannelCount : Z }.

(** The codec configuration given to a new audio sample entry. *)
Inductive AudioConfig := Esds (asc : bytes) | Dops (d : DopsBox).

Class AudioLib `{M : Mp4Types} := {
  (** [aac.DecodeAudioSpecificConfig]: object type and channel configuration. *)
  DecodeAudioSpecificConfig : bytes -> outcome (Z * Z);
  (** [CreateEmptyInit], [AddEmptyTrack] and [CreateAudioSampleEntryBox]:
      entry type, timescale, language, channels, sample rate, configuration. *)
  audioInit : string -> Z -> string -> Z -> Z -> AudioConfig -> InitSegment
}.

Section InitTrack.
Context {M : Mp4Types} {NL : @NaluLib M} {AL : @Av1Lib M} {UL : @AudioLib M}.

Record Mp4File := mkMp4File {
  IsFragmented : bool; nrTraks : Z; fileInit : InitSegment;
  mdhdTimescale : Z; mdhdLanguage : string; elng : option string;
  sampleDescription : outcome string;
  (** per segment and fragment, the result of [GetFullSamples] *)
  fragments : list (list (outcome (list FullSample)));
  (** the media times of the entries of each edit list, when there is an edts box *)
  edts : option (list (list Z));
  avcX : option (string * (list bytes * list bytes));
  hvcC : option (list (Z * list bytes));
  av1C : option (outcome SequenceHeader * bytes);
  mp4a : option (Z * bytes);
  opusBox : option (option DopsBox);
  (** sample rate, channel count and whether there is a dac3 or dec3 box *)
  ac3Box : option (Z * Z * bool);
  ec3Box : option (Z * Z * bool)
}.

(** ** Audio codec data *)
Definition fileLang (f : Mp4File) : string := default (mdhdLanguage f) (elng f).

Definition initAACData (f : Mp4File) : outcome AudioData :=
  match mp4a f with
  | None => Panic
  | Some (rate, ascBytes) =>
      let! '(objectType, channels) := owrap "could not decode audio specific config: %w" []
                                        (DecodeAudioSpecificConfig ascBytes) in
      Ret (mkAudioData (Some (fileInit f))
             (Some (audioInit "mp4a" (mdhdTimescale f) (fileLang f) (u16 channels) (u16 (u32 rate)) (Esds ascBytes)))
             ("mp4a.40." +:+ pretty objectType) (u32 rate) (pretty channels))
  end.

Definition initOpusData (f : Mp4File) : outcome AudioData :=
  match opusBox f with
  | None => errorf "no Opus box found in init segment"
  | Some None => errorf "no dOps box found in Opus sample entry"
  | Some (Some dops) =>
      Ret (mkAudioData (Some (fileInit f))
             (Some (audioInit "Opus" (mdhdTimescale f) (fileLang f) (u16 (OutputChannelCount dops))
                      (u16 (InputSampleRate dops)) (Dops dops)))
             "Opus" (InputSampleRate dops) (pretty (OutputChannelCount dops)))
  end.

Definition initAC3Data (f : Mp4File) : outcome AudioData :=
  match ac3Box f with
  | Some (rate, channels, true) =>
      Ret (mkAudioData (Some (fileInit f)) (Some (fileInit f)) "ac-3" (u32 rate) (pretty channels))
  | _ => errorf "no dac3 box found"
  end.

Definition initEC3Data (f : Mp4File) : outcome AudioData :=
  match ec3Box f with
  | Some (rate, channels, true) =>
      Ret (mkAudioData (Some (fileInit f)) (Some (fileInit f)) "ec-3" (u32 rate) (pretty channels))
  | _ => errorf "no dec3 box found"
  end.

(** ** Names *)

(** The position of the dot of [filepath.Ext]: the last dot (46) after the
    last slash (47). *)
Fixpoint dotPos (s : string) (i : nat) (acc : option nat) : option nat :=
  match s with
  | EmptyString => acc
  | String c s =>
      if Ascii.eqb c (Ascii.ascii_of_nat 47) then dotPos s (S i) None
      else if Ascii.eqb c (Ascii.ascii_of_nat 46) then dotPos s (S i) (Some i)
      else dotPos s (S i) acc
  end.
Definition Ext (name : string) : string :=
  match dotPos name 0 None with
  | Some i => String.substring i (String.length name - i) name
  | None => EmptyString
  end.
Definition stripExt (name : string) : string :=
  String.substring 0 (String.length name - String.length (Ext name)) name.

(** ** Samples *)
Definition videoTypes : list string := ["avc1"; "avc3"; "hvc1"; "hev1"; "av01"]%string.
Definition audioTypes : list string := ["mp4a"; "Opus"; "ac-3"; "ec-3"]%string.

(** The samples of all fragments. *)
Fixpoint collect (frags : list (outcome (list FullSample))) : outcome (list FullSample) :=
  match frags with
  | [] => Ret []
  | f :: frags =>
      let! fs := owrap "could not get full samples: %w" [] f in
      let! rest := collect frags in Ret (fs ++ rest)
  end.

(** The first non-zero duration; all later ones but the last must be equal. *)
Fixpoint sampleDur_loop (samples : list FullSample) (i n : Z) (dur : Z) : outcome Z :=
  match samples with
  | [] => Ret dur
  | s :: samples =>
      if dur =? 0 then sampleDur_loop samples (i + 1) n (Dur s)
      else if negb (Dur s =? dur) && negb (i =? n - 1) then errorf "sample duration is not consistent"
      else sampleDur_loop samples (i + 1) n dur
  end.

(** The offset of the edit list of an audio track. *)
Definition editOffset (contentType : string) (e : option (list (list Z))) : outcome Z :=
  if bool_decide (contentType = "audio"%string) then
    match e with
    | None => Ret 0
    | Some [entries] => match entries with [t] => Ret (u64 t) | _ => errorf "edts has not exactly than one elst" end
    | Some _ => errorf "edit list has not exactly than one edit"
    end
  else Ret 0.

Definition with_DecodeTime (s : FullSample) (t : Z) : FullSample := mkFullSample (Flags s) (Dur s) (Size s) t (Data s).

(** The samples from the first one at or after the offset on, shifted. *)
Fixpoint dropBefore (timeOffset : Z) (samples : list FullSample) : list FullSample :=
  match samples with
  | s :: rest => if DecodeTime s <? timeOffset then dropBefore timeOffset rest else samples
  | [] => []
  end.
Definition shiftSamples (timeOffset : Z) (samples : list FullSample) : list FullSample :=
  if 0 <? timeOffset then
    (fun s => with_DecodeTime s (u64 (DecodeTime s - timeOffset))) <$> dropBefore timeOffset samples
  else samples.

(** The distance between sync samples; [i] is the index of the head. *)
Fixpoint gop_loop (samples : list FullSample) (i lastSync gop : Z) : outcome Z :=
  match samples with
  | [] => Ret gop
  | s :: samples =>
      if IsSync s then
        let gopLen := u32 (i - lastSync) in
        if gop =? 0 then gop_loop samples (i + 1) i gopLen
        else if negb (gop =? gopLen) then errorf "gop length is not consistent"
        else gop_loop samples (i + 1) i gop
      else gop_loop samples (i + 1) lastSync gop
  end.

Definition gopLength (samples : list FullSample) : outcome Z :=
  match samples with
  | [] => Panic
  | s :: rest => if IsSync s then gop_loop rest 1 0 0 else Ret 0
  end.

(** ** Codec data by sample description type; video samples are rewritten. *)
Definition initSpecData (f : Mp4File) (sdType : string) (samples : list FullSample)
  : outcome (CodecSpecificData * list FullSample) :=
  if bool_decide (sdType = "avc1"%string) || bool_decide (sdType = "avc3"%string) then
    match avcX f with
    | None => Panic
    | Some (entry, avcC) =>
        let! '(d, samples) := owrap "could not initialize AVC data: %w" []
          (initAVCData (fileInit f) entry avcC (mdhdTimescale f) samples) in Ret (AVC d, samples)
    end
  else if bool_decide (sdType = "hvc1"%string) || bool_decide (sdType = "hev1"%string) then
    let! '(d, samples) := owrap "could not initialize HEVC data: %w" []
      (initHEVCData (fileInit f) (hvcC f) (mdhdTimescale f) samples) in Ret (HEVC d, samples)
  else if bool_decide (sdType = "av01"%string) then
    let! d := owrap "could not initialize AV1 data: %w" []
      (initAV1Data (fileInit f) (av1C f) (mdhdTimescale f) samples) in Ret (AV1 d, samples)
  else if bool_decide (sdType = "mp4a"%string) then
    let! d := owrap "could not initialize AAC data: %w" [] (initAACData f) in Ret (AAC d, samples)
  else if bool_decide (sdType = "Opus"%string) then
    let! d := owrap "could not initialize Opus data: %w" [] (initOpusData f) in Ret (Opus d, samples)
  else if bool_decide (sdType = "ac-3"%string) then
    let! d := owrap "could not initialize AC-3 data: %w" [] (initAC3Data f) in Ret (AC3 d, samples)
  else if bool_decide (sdType = "ec-3"%string) then
    let! d := owrap "could not initialize EC-3 data: %w" [] (initEC3Data f) in Ret (AC3 d, samples)
  else Err (Errorf "unknown sample description type: %s" [sdType]).

(** Bits per second of the samples, when the duration is positive. *)
Definition sampleBitrate (samples : list FullSample) (duration timeScale : Z) : Z :=
  let totalBytes := fold_left (fun acc s => i64 (acc + Size s)) samples 0 in
  let durationSeconds := fdiv (f64 duration) (f64 timeScale) in
  if fltb (f64 0) durationSeconds then uint32_of_f64 (fdiv (f64 (i64 (totalBytes * 8))) durationSeconds) else 0.

(** ** The whole function, on the result of [mp4.DecodeFile] *)
Definition InitContentTrack (decoded : outcome Mp4File) (name : string) (audioSampleBatch videoSampleBatch : Z)
  : outcome ContentTrack :=
  let! m := owrap "could not decode file: %w" [] decoded in
  if negb (IsFragmented m) then errorf "file is not fragmented"
  else if negb (nrTraks m =? 1) then errorf "file has not exactly one track"
  else
    let name := stripExt name in
    let! sdType := owrap "could not get sample description: %w" [] (sampleDescription m) in
    let! '(contentType, sampleBatch) :=
      if bool_decide (sdType ∈ videoTypes) then Ret ("video"%string, videoSampleBatch)
      else if bool_decide (sdType ∈ audioTypes) then Ret ("audio"%string, audioSampleBatch)
      else Err (Errorf "unsupported sample description type: %s" [sdType]) in
    let! samples := collect (concat (fragments m)) in
    let! sampleDur := sampleDur_loop samples 0 (len samples) 0 in
    let! timeOffset := editOffset contentType (edts m) in
    let samples := shiftSamples timeOffset samples in
    let! gop := gopLength samples in
    let! '(specData, samples) := initSpecData m sdType samples in
    let nr := u32 (len samples) in
    let duration := u32 (nr * sampleDur) in
    let ct := {|
      Name := name; ContentType := contentType; Language := mdhdLanguage m;
      SampleBitrate := 0; TimeScale := mdhdTimescale m; Duration := duration; GopLength := gop;
      SampleDur := sampleDur; NrSamples := nr; LoopDur := 0; SampleBatch := sampleBatch;
      Samples := samples; SpecData := Some specData; Protection := ProtectionNone;
      contentProtectionRefIDs := []; cenc := None; ipd := None; currentIV := None; cc608 := None |} in
    let! _ := match specData with
              | AV1 ad => if 0 <? len (spatialLayers ad) then validateAV1SVCGOP ct else Ret tt
              | _ => Ret tt
              end in
    Ret {|
      Name := Name ct; ContentType := ContentType ct; Language := Language ct;
      SampleBitrate := sampleBitrate samples duration (TimeScale ct); TimeScale := TimeScale ct;
      Duration := Duration ct; GopLength := GopLength ct; SampleDur := SampleDur ct;
      NrSamples := NrSamples ct; LoopDur := LoopDur ct; SampleBatch := SampleBatch ct;
      Samples := Samples ct; SpecData := SpecData ct; Protection := Protection ct;
      contentProtectionRefIDs := contentProtectionRefIDs ct; cenc := cenc ct; ipd := ipd ct;
      currentIV := currentIV ct; cc608 := cc608 ct |}.
End InitTrack.
