(* ===== verification/InitTrackProps.v ===== *)
(** * What [InitContentTrack] establishes *)
From S2P Require Import Prelude GoFloat Media Timeline Nalu NaluProps Av1 Av1Props InitTrack.
Local Open Scope Z_scope.
Local Open Scope go_scope.

Section Samples.
Context {M : Mp4Types} {NL : @NaluLib M} {AL : @Av1Lib M} {UL : @AudioLib M}.

(** Rewriting a sample changes its data only. *)
Definition same_sample (x y : FullSample) : Prop :=
  Flags x = Flags y /\ Dur x = Dur y /\ Size x = Size y /\ DecodeTime x = DecodeTime y.

Lemma same_sample_sync x y : same_sample x y -> IsSync x = IsSync y.
Proof. intros (H1 & H2 & H3 & _). unfold IsSync. congruence. Qed.

Lemma Forall2_same_refl l : Forall2 same_sample l l.
Proof. induction l; constructor; [by repeat split | done]. Qed.

Lemma avc_samples_length i samples s s' lens :
  avc_samples i samples s = Ret (s', lens) -> length lens = length samples.
Proof.
  revert i s s' lens. induction samples as [|x samples IH]; intros i s s' lens H; cbn [avc_samples] in H; simplify_out; [done|].
  destruct a1 as [s1 l1]. simplify_out. cbn. f_equal. eauto.
Qed.
Lemma hevc_samples_length i samples s s' lens :
  hevc_samples i samples s = Ret (s', lens) -> length lens = length samples.
Proof.
  revert i s s' lens. induction samples as [|x samples IH]; intros i s s' lens H; cbn [hevc_samples] in H; simplify_out; [done|].
  destruct a0 as [s1 l1]. simplify_out. cbn. f_equal. eauto.
Qed.

Lemma rewritten_same st samples lens : length lens = length samples ->
  Forall2 same_sample (rewritten st samples lens) samples.
Proof.
  unfold rewritten. generalize 0%nat at 2. revert lens.
  induction samples as [|x samples IH]; intros [|n lens] k H; try done; cbn; constructor.
  - by repeat split.
  - apply IH. by injection H.
Qed.

Lemma initSpecData_samples f ty samples d samples' :
  initSpecData f ty samples = Ret (d, samples') -> Forall2 same_sample samples' samples.
Proof.
  unfold initSpecData. intros H.
  repeat match type of H with (if ?b then _ else _) = _ => destruct b end;
    try match type of H with context [avcX f] => destruct (avcX f) as [[entry avcC]|] end; simplify_out; try done; try apply Forall2_same_refl.
  - destruct a as [ad s2]. simplify_out. unfold initAVCData in *. destruct (if bool_decide _ then _ else _) as [spss ppss].
    simplify_out. destruct a as [st lens]. destruct (_ || _); simplify_out; [done|]. destruct a1 as [[? ?] ?].
    simplify_out. apply rewritten_same. by eapply avc_samples_length.
  - destruct a as [hd s2]. simplify_out. unfold initHEVCData in *. destruct (hvcC f); [|done].
    destruct (_ || _); simplify_out; [done|]. destruct a as [st lens]. simplify_out. destruct a1 as [[? ?] ?].
    simplify_out. apply rewritten_same. by eapply hevc_samples_length.
Qed.

(** Only the data of AVC and HEVC samples is rewritten. *)
Definition rewrites (d : CodecSpecificData) : bool := match d with AVC _ | HEVC _ => true | _ => false end.

Lemma initSpecData_data f ty samples d samples' :
  initSpecData f ty samples = Ret (d, samples') -> rewrites d = false -> samples' = samples.
Proof.
  unfold initSpecData. intros H Hd. repeat match type of H with (if ?b then _ else _) = _ => destruct b end;
    try match type of H with context [avcX f] => destruct (avcX f) as [[entry avcC]|]; [|done] end; open_chain; done.
Qed.

(** ** Durations *)

(** All durations are the same from the first one on that is not 0, but for
    the last one. *)
Definition steady (samples : list FullSample) (d : Z) : Prop :=
  exists zeros rest, samples = zeros ++ rest /\ Forall (fun s => Dur s = 0) zeros /\
    (forall s, head rest = Some s -> Dur s = d) /\ (d = 0 <-> rest = []) /\
    forall j s, rest !! j = Some s -> (S j < length rest)%nat -> Dur s = d.

Lemma sampleDur_steady samples i n d : sampleDur_loop samples i n 0 = Ret d -> n = i + len samples -> steady samples d.
Proof.
  assert (Hfix : forall samples i dur, sampleDur_loop samples i n dur = Ret d -> dur <> 0 -> n = i + len samples ->
    d = dur /\ forall j s, samples !! j = Some s -> (S j < length samples)%nat -> Dur s = dur).
  { clear. induction samples as [|s samples IH]; intros i dur H Hd Hn; cbn [sampleDur_loop] in H; [by injection H as <-|].
    rewrite len_cons in Hn. rewrite (proj2 (Z.eqb_neq _ _) Hd) in H.
    destruct (negb (Dur s =? dur) && negb (i =? n - 1)) eqn:E; [done|]. destruct (IH _ _ H Hd) as [-> Hs]; [lia|]. split; [done|].
    intros [|j] x Hj Hl; cbn in *; [|apply (Hs j x Hj); lia]. injection Hj as <-. apply andb_false_iff in E as [E|E].
    - by apply negb_false_iff, Z.eqb_eq in E.
    - apply negb_false_iff, Z.eqb_eq in E. unfold len in Hn. lia. }
  revert i. induction samples as [|s samples IH]; intros i H Hn; cbn [sampleDur_loop] in H.
  - injection H as <-. exists [], []. by repeat split.
  - cbn in H. rewrite len_cons in Hn. destruct (Z.eq_dec (Dur s) 0) as [E|E].
    + rewrite E in H. destruct (IH _ H) as (zeros & rest & -> & Hz & Hr); [lia|]. exists (s :: zeros), rest. split; [done|]. split; [by constructor|done].
    + destruct (Hfix _ _ _ H E) as [-> Hs]; [lia|]. exists [], (s :: samples). split; [done|]. split; [done|]. split; [by intros x [= <-]|].
      split; [split; [done|by intros [=]]|]. intros [|j] x Hj Hl; cbn in Hj; [by injection Hj as <-|]. apply (Hs j x Hj). cbn in Hl. lia.
Qed.

(** ** The samples that are kept *)

Definition read_samples (m : Mp4File) (all : list FullSample) : Prop :=
  exists frags, Forall2 (fun f fs => f = Ret fs) (concat (fragments m)) frags /\ all = concat frags.

Lemma collect_spec frags all : collect frags = Ret all -> exists fss, Forall2 (fun f fs => f = Ret fs) frags fss /\ all = concat fss.
Proof.
  revert all. induction frags as [|f frags IH]; intros all H; cbn [collect] in H; [injection H as <-; by exists []|].
  apply obind_Ret in H as (fs & Hf & H). apply owrap_Ret in Hf. apply obind_Ret in H as (rest & Hr & [= <-]).
  destruct (IH _ Hr) as (fss & Hall & ->). exists (fs :: fss). by split; [constructor|].
Qed.

(** The offset that the edit list of an audio track asks for *)
Definition edit_offset (m : Mp4File) (contentType : string) : Z :=
  match edts m with Some [[t]] => if bool_decide (contentType = "audio"%string) then u64 t else 0 | _ => 0 end.

Lemma editOffset_spec m contentType off : editOffset contentType (edts m) = Ret off -> off = edit_offset m contentType.
Proof.
  unfold editOffset, edit_offset. destruct (bool_decide _).
  - destruct (edts m) as [[|[|t []] []]|]; by intros [= <-].
  - destruct (edts m) as [[|[|t []] []]|]; by intros [= <-].
Qed.

(** A sample of the file, and the one it became *)
Definition moved (off : Z) (x y : FullSample) : Prop :=
  Flags y = Flags x /\ Dur y = Dur x /\ Size y = Size x /\ DecodeTime y = (if off =? 0 then DecodeTime x else u64 (DecodeTime x - off)).

(** The samples before the offset are dropped. *)
Definition cut_at (off : Z) (all kept : list FullSample) : Prop :=
  exists dropped, all = dropped ++ kept /\ Forall (fun s => DecodeTime s < off) dropped /\
    (off = 0 -> dropped = []) /\ (off <> 0 -> forall s, head kept = Some s -> off <= DecodeTime s).

Lemma dropBefore_cut off l : 0 < off -> cut_at off l (dropBefore off l).
Proof.
  intros Ho. induction l as [|s l IH]; [by exists []|]. cbn. destruct (Z.ltb_spec (DecodeTime s) off).
  - destruct IH as (d & E & Hd & _ & Hh). exists (s :: d). split; [cbn; by f_equal|]. split; [by constructor|]. split; [lia|done].
  - exists []. split; [done|]. split; [done|]. split; [done|]. by intros _ x [= <-].
Qed.

Lemma shiftSamples_spec off all : 0 <= off -> exists kept, cut_at off all kept /\
  Forall2 (fun x y => moved off x y /\ Data y = Data x) kept (shiftSamples off all).
Proof.
  intros Ho. unfold shiftSamples. destruct (Z.ltb_spec 0 off) as [Hp|Hp].
  - exists (dropBefore off all). split; [by apply dropBefore_cut|]. apply Forall2_fmap_r. unfold moved. rewrite (proj2 (Z.eqb_neq off 0)) by lia.
    induction (dropBefore off all); constructor; [by repeat split|done].
  - assert (off = 0) as -> by lia. exists all. split; [exists []; by repeat split|]. induction all; constructor; [by repeat split|done].
Qed.

Lemma moved_rewritten off d kept shifted l :
  Forall2 (fun x y => moved off x y /\ Data y = Data x) kept shifted -> Forall2 same_sample l shifted ->
  (rewrites d = false -> l = shifted) ->
  Forall2 (fun x y => moved off x y /\ (forall d', Some d = Some d' -> rewrites d' = false -> Data y = Data x)) kept l.
Proof.
  intros H. revert l. induction H as [|x s kept shifted [(M1 & M2 & M3 & M4) Hd] _ IH]; intros l Hs Hr.
  - apply Forall2_nil_inv_r in Hs as ->. constructor.
  - apply Forall2_cons_inv_r in Hs as (y & l' & (S1 & S2 & S3 & S4) & Hs & ->). constructor.
    + split; [split_and!; congruence|]. intros d' [= <-] Hrw. specialize (Hr Hrw). congruence.
    + apply IH; [done|]. intros Hrw. by injection (Hr Hrw).
Qed.

Lemma edit_offset_range m c : 0 <= edit_offset m c.
Proof. unfold edit_offset. destruct (edts m) as [[|[|t []] []]|]; try lia. destruct (bool_decide _); [apply u64_range|lia]. Qed.

(** ** Sync samples *)

(** The sync samples come every [gop] samples, from the first one up to some
    last one; when [gop] is 0 only the first can be one, unless it is none. *)
Definition regular (samples : list FullSample) (gop : Z) : Prop :=
  match head samples with
  | Some s =>
      if IsSync s then
        exists top, (gop <> 0 -> gop <= top) /\ forall j x, samples !! j = Some x ->
          (IsSync x = true <-> if gop =? 0 then j = 0%nat else Z.of_nat j mod gop = 0 /\ Z.of_nat j <= top)
      else gop = 0
  | None => True
  end.

Lemma gop_loop_spec samples i last gop gop' :
  gop_loop samples i last gop = Ret gop' -> 0 <= last < i -> i + len samples <= 2 ^ 32 -> 0 <= gop < 2 ^ 32 ->
  (gop <> 0 -> gop' = gop) /\ 0 <= gop' < 2 ^ 32 /\
  (gop' = 0 -> forall s, s ∈ samples -> IsSync s = false) /\
  (gop' <> 0 -> exists top, last <= top /\ (last < top -> i <= last + gop') /\ (gop = 0 -> last + gop' <= top) /\
     forall j s, samples !! j = Some s -> (IsSync s = true <-> (i + Z.of_nat j - last) mod gop' = 0 /\ i + Z.of_nat j <= top)).
Proof.
  revert i last gop. induction samples as [|s samples IH]; intros i last gop H Hl Hlen Hg; cbn [gop_loop] in H.
  - injection H as <-. split; [done|]. split; [lia|]. split; [by intros _ s Hs%elem_of_nil|]. intros Hne. exists last. split; [lia|]. split; [lia|]. split; [lia|done].
  - rewrite len_cons in Hlen. pose proof (len_nonneg samples). destruct (IsSync s) eqn:Hs.
    + rewrite u32_small in H by lia.
      assert (gop_loop samples (i + 1) i (i - last) = Ret gop' /\ (gop = 0 \/ gop = i - last)) as [H' Hor].
      { destruct (Z.eqb_spec gop 0); [auto|]. destruct (Z.eqb_spec gop (i - last)); cbn [negb] in H; [|done]. subst gop. auto. }
      destruct (IH _ _ _ H') as (H1 & H2 & H3 & H4); [lia..|]. assert (Eg : gop' = i - last) by (apply H1; lia).
      split; [lia|]. split; [lia|]. split; [lia|]. intros Hne. destruct (H4 Hne) as (top & T1 & T2 & _ & T3). exists top.
      split; [lia|]. split; [lia|]. split; [lia|]. intros [|j] x Hj; cbn in Hj.
      * injection Hj as <-. rewrite Z.add_0_r, <-Eg, Z.mod_same by done. split; [lia|done].
      * rewrite (T3 j x Hj). replace (i + Z.of_nat (S j) - last) with (i + 1 + Z.of_nat j - i + 1 * gop') by lia. rewrite Z.mod_add by done.
        replace (i + 1 + Z.of_nat j) with (i + Z.of_nat (S j)) by lia. done.
    + destruct (IH _ _ _ H) as (H1 & H2 & H3 & H4); [lia..|]. split; [done|]. split; [done|]. split.
      { intros Ez x [->|Hx]%elem_of_cons; [done|auto]. }
      intros Hne. destruct (H4 Hne) as (top & T1 & T2 & T4 & T3). exists top. split; [lia|]. split; [lia|]. split; [done|]. intros [|j] x Hj; cbn in Hj.
      * injection Hj as <-. rewrite Hs, Z.add_0_r. split; [done|]. intros [E Ht]. rewrite Z.mod_small in E; lia.
      * rewrite (T3 j x Hj). by replace (i + 1 + Z.of_nat j) with (i + Z.of_nat (S j)) by lia.
Qed.

Lemma gopLength_spec samples g : gopLength samples = Ret g -> len samples < 2 ^ 32 -> 0 <= g < 2 ^ 32 /\ regular samples g.
Proof.
  unfold gopLength, regular. destruct samples as [|s rest]; [done|]. cbn [head]. destruct (IsSync s) eqn:Hs; [|intros [= <-]; lia].
  intros H Hlen. rewrite len_cons in Hlen. destruct (gop_loop_spec _ _ _ _ _ H) as (_ & H2 & H3 & H4); [lia..|]. split; [done|].
  destruct (Z.eqb_spec g 0) as [E|E].
  - exists 0. split; [done|]. intros [|j] x Hj; cbn in Hj; [injection Hj as <-; by rewrite Hs|]. rewrite (H3 E x) by (by eapply list_elem_of_lookup_2). done.
  - destruct (H4 E) as (top & T1 & T2 & T4 & T3). exists top. split; [lia|]. intros [|j] x Hj; cbn in Hj.
    + injection Hj as <-. rewrite Hs. split; [|done]. split; [by apply Z.mod_0_l|lia].
    + rewrite (T3 j x Hj). replace (1 + Z.of_nat j - 0) with (Z.of_nat (S j)) by lia. by replace (1 + Z.of_nat j) with (Z.of_nat (S j)) by lia.
Qed.

Lemma regular_same l k g : Forall2 same_sample k l -> regular l g -> regular k g.
Proof.
  intros H. unfold regular. destruct H as [|y x k l Hx H]; [done|]. cbn [head]. rewrite (same_sample_sync y x Hx).
  destruct (IsSync x); [|done]. intros (top & Hle & Ht). exists top. split; [done|]. intros j z Hj.
  assert (Hall : Forall2 same_sample (y :: k) (x :: l)) by (by constructor).
  destruct (Forall2_lookup_l _ _ _ _ _ Hall Hj) as (w & Hw & Hs). rewrite (same_sample_sync _ _ Hs). by apply Ht.
Qed.
End Samples.

(** C11. A track that [InitContentTrack] returns describes the samples of the
    file.  The samples are those of all fragments in their order, but for
    those before the offset that the edit list of an audio track gives;
    their times are moved back by it, and only AVC and HEVC samples have their
    data rewritten.  All samples of the file last [SampleDur], from the first
    one on that has a duration, except perhaps the last one.  The sample count
    and the duration are exact, so the timeline theorems apply.  If the first
    sample is a sync sample, the sync samples are those at the multiples of
    [GopLength] up to some last one, or only the first one when [GopLength]
    is 0; otherwise [GopLength] is 0.  The track has the type that its sample
    description says, with the batch of that type, and is not protected. *)
Theorem InitContentTrack_consistent {M : Mp4Types} {NL : @NaluLib M} {AL : @Av1Lib M} {UL : @AudioLib M}
    (m : Mp4File) (name : string) (ab vb : Z) (ct : ContentTrack) :
  InitContentTrack (Ret m) name ab vb = Ret ct ->
  is_u 32 (mdhdTimescale m) -> 0 < SampleDur ct -> len (Samples ct) * SampleDur ct < 2 ^ 32 ->
  samples_consistent ct /\ Protection ct = ProtectionNone /\ TimeScale ct = mdhdTimescale m /\
  (exists all kept, read_samples m all /\ steady all (SampleDur ct) /\ cut_at (edit_offset m (ContentType ct)) all kept /\
     Forall2 (fun x y => moved (edit_offset m (ContentType ct)) x y /\
                (forall d, SpecData ct = Some d -> rewrites d = false -> Data y = Data x)) kept (Samples ct)) /\
  regular (Samples ct) (GopLength ct) /\
  exists ty, sampleDescription m = Ret ty /\
    (ty ∈ videoTypes /\ ContentType ct = "video"%string /\ SampleBatch ct = vb \/
     ty ∈ audioTypes /\ ContentType ct = "audio"%string /\ SampleBatch ct = ab).
Proof.
  unfold InitContentTrack. cbn [owrap obind]. intros H HT.
  destruct (IsFragmented m); cbn [negb] in H; [|done]. destruct (nrTraks m =? 1); cbn [negb] in H; [|done].
  apply obind_Ret in H as (ty & Hty%owrap_Ret & H). apply obind_Ret in H as ([ctype batch] & Hct & H).
  apply obind_Ret in H as (all & Hall & H). apply obind_Ret in H as (dur & Hdur & H). apply obind_Ret in H as (off & Hoff & H).
  apply obind_Ret in H as (gop & Hgop & H). apply obind_Ret in H as ([sd samples'] & Hspec & H). apply obind_Ret in H as (u & _ & [= <-]).
  cbn [SampleDur Samples GopLength Protection NrSamples Duration TimeScale ContentType SampleBatch SpecData]. intros Hpos Hfits.
  apply editOffset_spec in Hoff as ->. pose proof (edit_offset_range m ctype) as Hor.
  destruct (shiftSamples_spec _ all Hor) as (kept & Hcut & Hmoved).
  pose proof (initSpecData_samples _ _ _ _ _ Hspec) as Hsame. pose proof (Forall2_length _ _ _ Hsame) as Hlen.
  assert (Hn : len samples' < 2 ^ 32) by nia.
  assert (H1 : 1 <= len samples').
  { unfold len. rewrite Hlen. unfold gopLength in Hgop. destruct (shiftSamples _ _); [done|]. cbn. lia. }
  destruct (gopLength_spec _ _ Hgop) as [Hgr Hreg]; [unfold len in *; lia|].
  assert (Hnr : u32 (len samples') = len samples') by (apply u32_small; lia).
  assert (Hdr : u32 (len samples' * dur) = len samples' * dur) by (apply u32_small; split; [apply Z.mul_nonneg_nonneg; lia | lia]).
  split; [|split; [done|split; [done|split; [|split]]]].
  - split; cbn; rewrite ?Hnr, ?Hdr; try done. split; cbn; rewrite ?Hnr, ?Hdr; try done; unfold is_u; nia.
  - exists all, kept. destruct (collect_spec _ _ Hall) as (frags & Hf & ->). split; [by exists frags|].
    split; [by apply (sampleDur_steady _ 0 (len (concat frags)))|]. split; [done|].
    apply (moved_rewritten _ _ _ _ _ Hmoved Hsame). by apply (initSpecData_data m ty).
  - by apply (regular_same _ _ _ Hsame).
  - exists ty. split; [done|]. destruct (bool_decide_reflect (ty ∈ videoTypes)); [injection Hct as <- <-; by left|].
    destruct (bool_decide_reflect (ty ∈ audioTypes)); [injection Hct as <- <-; by right|done].
Qed.

#[export] Instance AudioConcrete : @AudioLib Mp4Concrete := {|
  DecodeAudioSpecificConfig b := match b with x :: _ => Ret (2, x) | [] => errorf "empty" end;
  audioInit _ _ _ _ _ _ := []
|}.

(** A decoded file with one fragment per sample list. *)
Definition mp4_file (desc : string) (frags : list (list FullSample)) (e : option (list (list Z))) : @Mp4File Mp4Concrete Av1Concrete :=
  {| IsFragmented := true; nrTraks := 1; fileInit := []; mdhdTimescale := 12800; mdhdLanguage := "und"; elng := None;
     sampleDescription := Ret desc; fragments := [Ret <$> frags]; edts := e;
     avcX := None; hvcC := None; av1C := None; mp4a := Some (48000, [2]); opusBox := None; ac3Box := None; ec3Box := None |}.

Definition aac_file : Mp4File := mp4_file "mp4a" [[mkFullSample (2 ^ 25) 1024 9 0 [1]; mkFullSample (2 ^ 25) 1024 9 1024 [2]];
                                                  [mkFullSample (2 ^ 25) 1024 9 2048 [3]]] (Some [[1024]]).

Definition track_or (m : outcome ContentTrack) : ContentTrack :=
  match m with Ret ct => ct | _ => timing_track "" "" 0 0 0 0 end.
Definition aac_track : @ContentTrack Mp4Concrete := track_or (InitContentTrack (Ret aac_file) "audio_en.mp4" 2 1).

(** Of three samples, the one before the edit offset is dropped. *)
Lemma InitContentTrack_consistent_witness :
  InitContentTrack (Ret aac_file) "audio_en.mp4" 2 1 = Ret aac_track /\ Name aac_track = "audio_en"%string /\ len (Samples aac_track) = 2 /\
  samples_consistent aac_track /\ Protection aac_track = ProtectionNone /\
  exists all kept, read_samples aac_file all /\ steady all 1024 /\ cut_at 1024 all kept /\
    Forall2 (fun x y => DecodeTime y = u64 (DecodeTime x - 1024) /\ Data y = Data x) kept (Samples aac_track).
Proof.
  assert (E : InitContentTrack (Ret aac_file) "audio_en.mp4" 2 1 = Ret aac_track) by (vm_compute; reflexivity).
  destruct (InitContentTrack_consistent aac_file "audio_en.mp4" 2 1 aac_track E) as (Hc & Hp & _ & (all & kept & Hr & Hs & Hcut & Hm) & _).
  - vm_compute. split; congruence.
  - vm_compute. reflexivity.
  - vm_compute. reflexivity.
  - split; [exact E|]. split; [vm_compute; reflexivity|]. split; [vm_compute; reflexivity|]. split; [exact Hc|]. split; [exact Hp|].
    exists all, kept. split; [exact Hr|]. split; [exact Hs|]. split; [exact Hcut|].
    eapply Forall2_impl; [exact Hm|]. intros x y [(_ & _ & _ & Ht) Hd]. split; [exact Ht|].
    destruct (SpecData aac_track) as [d|] eqn:Ed; [|vm_compute in Ed; discriminate]. apply (Hd d eq_refl).
    vm_compute in Ed. injection Ed as <-. reflexivity.
Defined.

(** The check of the durations lets samples pass that have none, when they
    come first: two samples of no duration and one of 512 make a track of
    three samples of 512. *)
Lemma leading_zero_durations :
  match InitContentTrack (Ret (mp4_file "mp4a" [(fun d => mkFullSample (2 ^ 25) d 1 0 [1]) <$> [0; 0; 512]] None)) "a.mp4" 1 1 with
  | Ret ct => (Dur <$> Samples ct, SampleDur ct, Duration ct) = ([0; 0; 512], 512, 1536)
  | _ => False
  end.
Proof. vm_compute. reflexivity. Qed.

(** An edit list with an empty edit (media time -1) makes
    [InitContentTrack] panic: the media time is converted to an unsigned
    offset that lies after every sample, so no sample is left and the first
    one is read. *)
Theorem empty_edit_panics :
  InitContentTrack (Ret (mp4_file "mp4a" [[mkFullSample (2 ^ 25) 1024 9 0 [1]]] (Some [[-1]]))) "a.mp4" 1 1 = Panic /\
  (exists ct, InitContentTrack (Ret (mp4_file "mp4a" [[mkFullSample (2 ^ 25) 1024 9 0 [1]]] (Some [[0]]))) "a.mp4" 1 1 = Ret ct).
Proof. split; [vm_compute; reflexivity|]. eexists. vm_compute. reflexivity. Qed.
