(* ===== verification/Cc608.v ===== *)
(** * CTA-608 captions

    [internal/cc608/cc608.go], the per-group schedule of
    [internal/moqgroup.go] ([newGroupCCSplice]) and the captioner of
    [internal/pub/caption.go].  go-608 builds the caption frames and the SEI
    units; it is the class [CcLib]. *)
From S2P Require Import Prelude GoFloat Media Nalu.
Local Open Scope Z_scope.
Local Open Scope go_scope.

(** [cta608.Line] with one run: row, text and colour. *)
Inductive penColor := White | Yellow.
Record cueLine := mkCueLine { cueRow : Z; cueText : string; cueColor : penColor }.

Class CcLib `{M : Mp4Types} := {
  (** [generate.UnitCue{Lines: ...}], centred lines *)
  MakeUnitCue : list cueLine -> UnitCue;
  FrameCC : Type;
  (** [generate.BuildUnitCues]: fps, frames, start, period, content *)
  BuildUnitCues : float64 -> Z -> Z -> Z -> (Z -> Z -> UnitCue) -> outcome (list FrameCC);
  (** [carriage.FrameSEINALU] *)
  FrameSEINALU : FrameCC -> carriageCodec -> bytes
}.

Definition targetPeriodMS : Z := 1000.
Definition captionRowTime : Z := 13.
Definition captionRowGroup : Z := 14.
Definition defaultChannel : Z := 1.
Definition defaultLang : string := "eng".

Section Cc608.
Context {M : Mp4Types} {NL : @NaluLib M} {CL : @CcLib M}.

Record Config := mkConfig {
  cfgEnabled : bool; cfgChannel : Z; cfgLang : string; cfgContent : option (Z -> Z -> UnitCue)
}.

(** The UTC clock and the group number of a cue. *)
Definition DefaultContent (_ : Z) (cueStartMS : Z) : UnitCue :=
  let sec := cueStartMS / 1000 in
  let h := sec mod 86400 / 3600 in
  let m := sec mod 3600 / 60 in
  let s := sec mod 60 in
  let ts := pad2 h +:+ ":" +:+ pad2 m +:+ ":" +:+ pad2 s +:+ "." +:+ pad3 (cueStartMS mod 1000) in
  let grp := "GRP " +:+ pretty (Z.quot cueStartMS 1000) in
  MakeUnitCue [mkCueLine captionRowTime ts White; mkCueLine captionRowGroup grp Yellow].

Definition New (cfg : Config) : Generator :=
  mkGenerator (cfgEnabled cfg) (if cfgChannel cfg =? 0 then defaultChannel else cfgChannel cfg)
    (if bool_decide (cfgLang cfg = EmptyString) then defaultLang else cfgLang cfg)
    (default DefaultContent (cfgContent cfg)).

(** A nil schedule is [None]. *)
Definition SEISchedule (g : option Generator) (groupNr : Z) (fps : float64) (nFrames : Z) (codec : carriageCodec)
  : option (list bytes) :=
  match g with
  | Some gen =>
      if negb (Enabled g) || (nFrames <=? 0) then None
      else
        match BuildUnitCues fps nFrames (i64 (groupNr * 1000)) targetPeriodMS (g_content gen) with
        | Ret frames => Some ((fun f => FrameSEINALU f codec) <$> frames)
        | _ => None
        end
  | None => None
  end.

Definition CodecFor (codecStr : string) : option carriageCodec :=
  if HasPrefix codecStr "avc" then Some CodecAVC
  else if HasPrefix codecStr "hev" || HasPrefix codecStr "hvc" then Some CodecHEVC
  else None.

(** ** The schedule of one MoQ group *)
Record ccSplice := mkCcSplice { GroupStartNr : Z; SEI : list bytes; ccCodec : carriageCodec }.

Definition newGroupCCSplice (t : ContentTrack) (groupNr startNr endNr : Z) : outcome (option ccSplice) :=
  if negb (Enabled (cc608 t)) || negb (bool_decide (ContentType t = "video"%string)) || (SampleDur t =? 0)
     || (endNr <=? startNr) then Ret None
  else
    let! codecStr := SpecCodec (SpecData t) in
    match CodecFor codecStr with
    | None => Ret None
    | Some codec =>
        let fps := fdiv (f64 (TimeScale t)) (f64 (SampleDur t)) in
        match SEISchedule (cc608 t) (i64 groupNr) fps (i64 (endNr - startNr)) codec with
        | None => Ret None
        | Some sei => Ret (Some (mkCcSplice startNr sei codec))
        end
    end.

(** The SEI unit of a frame: the schedule entry at its distance from the
    start of the group, when there is one and it is not empty. *)
Definition sei_for (sei : list bytes) (sampleNr groupStartNr : Z) : option bytes :=
  let idx := i64 (u64 (sampleNr - groupStartNr)) in
  if (0 <=? idx) && (idx <? len sei) then
    match sei !! Z.to_nat idx with
    | Some s => if 0 <? len s then Some s else None
    | None => None
    end
  else None.

(** ** The captioner of the LOC and moq-mi loops ([internal/pub/caption.go]) *)
Record videoCaptioner := mkCaptioner {
  capGen : option Generator; capCodec : carriageCodec; capFps : float64; capOn : bool
}.
Definition noCaptioner : videoCaptioner := mkCaptioner None CodecAVC (f64 0) false.

Definition newVideoCaptioner (ct : ContentTrack) : outcome videoCaptioner :=
  if negb (Enabled (cc608 ct)) || negb (bool_decide (ContentType ct = "video"%string)) || (SampleDur ct =? 0)
     || (TimeScale ct =? 0) then Ret noCaptioner
  else
    let! codecStr := SpecCodec (SpecData ct) in
    match CodecFor codecStr with
    | None => Ret noCaptioner
    | Some codec => Ret (mkCaptioner (cc608 ct) codec (fdiv (f64 (TimeScale ct)) (f64 (SampleDur ct))) true)
    end.

Definition schedule (c : videoCaptioner) (anchorSec startNr endNr : Z) : option (list bytes) :=
  if negb (capOn c) || (endNr <=? startNr) then None
  else SEISchedule (capGen c) anchorSec (capFps c) (i64 (endNr - startNr)) (capCodec c).

(** A failed splice sends the frame unchanged; a panic is one. *)
Definition spliceFrame (c : videoCaptioner) (data : bytes) (sei : option (list bytes)) (sampleNr groupStartNr : Z)
  : outcome bytes :=
  match sei with
  | None => Ret data
  | Some sei =>
      match sei_for sei sampleNr groupStartNr with
      | None => Ret data
      | Some s =>
          match SpliceSEIBeforeVCL data s (capCodec c) with
          | Err _ => Ret data
          | r => r
          end
      end
  end.
End Cc608.

#[export] Instance CcConcrete : @CcLib Mp4Concrete := {|
  MakeUnitCue _ := tt; FrameCC := Z;
  BuildUnitCues _ n _ _ _ := Ret (Z.of_nat <$> seq 0 (Z.to_nat n));
  FrameSEINALU f _ := [6; f]
|}.
