(* ===== verification/Chunk.v ===== *)
(** * CMAF and LOCMAF chunks, groups of chunks, and their bitrates

    [createFragment], [GenCMAFChunk], [GenLocmafChunk], [encryptFragment],
    [calcCmafBitrate], [calcLocmafBitrate] of [internal/asset.go];
    [GenMoQGroup] of [internal/moqgroup.go].  Fragments,
    their encoding and encryption belong to mp4ff, the LOCMAF encoding to
    locmaf; they are the class [FragLib].

    Encryption advances [currentIV] of the track it is called on, so the chunk
    functions return the track. *)
From S2P Require Import Prelude GoFloat Media Timeline Nalu Cc608.
Local Open Scope Z_scope.
Local Open Scope go_scope.

Definition trackID : Z := 1.
Definition cmafObjectOverheadBytes : Z := 8.

Class FragLib `{M : Mp4Types} := {
  Fragment : Type;
  CreateFragment : Z -> Z -> outcome Fragment;
  AddFullSample : Fragment -> FullSample -> Fragment;
  (** [EncOptimize = OptimizeTrun] and [SetTrunDataOffsets] *)
  optimizeTrun : Fragment -> Fragment;
  (** [EncodeSW] into a buffer of [Size()] bytes *)
  EncodeFragment : Fragment -> outcome bytes;
  (** boxes, decoded at a position from the bytes that are left *)
  Box : Type;
  MoofBox : Type;
  MdatBox : Type;
  DecodeBox : Z -> bytes -> outcome (Box * bytes);
  asMoof : Box -> option MoofBox;
  asMdat : Box -> option MdatBox;
  MoofSize : MoofBox -> Z;
  fragmentOf : MoofBox -> MdatBox -> Fragment;
  (** [mp4.EncryptFragment]: fragment, key, IV and protection data to the
      encrypted fragment and the next IV *)
  EncryptFragment : Fragment -> bytes -> option bytes -> option InitProtectData -> outcome (Fragment * bytes);
  LocmafState : Type;
  NewState : LocmafState;
  (** [locmaf.EncodeCanonical] with the moof, mdat and moov *)
  EncodeCanonical : Fragment -> LocmafState -> InitSegment -> outcome (bytes * LocmafState)
}.

Section Chunk.
Context {M : Mp4Types} {NL : @NaluLib M} {CL : @CcLib M} {FL : @FragLib M}.

(** ** One chunk *)

(** The data of a sample, with its caption when there is one. *)
Definition chunk_data (cc : option ccSplice) (sampleNr : Z) (orig : FullSample) : outcome bytes :=
  match cc with
  | None => Ret (Data orig)
  | Some cc =>
      match sei_for (SEI cc) sampleNr (GroupStartNr cc) with
      | None => Ret (Data orig)
      | Some s =>
          owrap "cc608: splice SEI for sample %d: %w" [pretty sampleNr] (SpliceSEIBeforeVCL (Data orig) s (ccCodec cc))
      end
  end.

(** The sample that goes on the wire for output sample [sampleNr]. *)
Definition out_sample (t : ContentTrack) (cc : option ccSplice) (sampleNr : Z) : outcome FullSample :=
  let! '(startTime, origNr) := CalcSample t sampleNr in
  let! orig := index (Samples t) origNr in
  let! data := chunk_data cc sampleNr orig in
  Ret (mkFullSample (Flags orig) (Dur orig) (u32 (len data)) startTime data).

Fixpoint add_samples (t : ContentTrack) (cc : option ccSplice) (sampleNr : Z) (n : nat) (f : Fragment) : outcome Fragment :=
  match n with
  | O => Ret f
  | S n =>
      let! fs := out_sample t cc sampleNr in
      add_samples t cc (sampleNr + 1) n (AddFullSample f fs)
  end.

Definition createFragment (t : ContentTrack) (chunkNr startNr endNr : Z) (cc : option ccSplice) : outcome Fragment :=
  let! f := CreateFragment chunkNr trackID in
  let! f := add_samples t cc startNr (Z.to_nat (endNr - startNr)) f in
  Ret (optimizeTrun f).

(** Decoding an encoded fragment: a moof box, then an mdat box. *)
Definition decodeMoofMdat (payload : bytes) : outcome Fragment :=
  let! '(b, rest) := owrap "unable to decode moof: %w" [] (DecodeBox 0 payload) in
  match asMoof b with
  | None => errorf "expected moof box, got %T"
  | Some moof =>
      let! '(b, _) := owrap "unable to decode mdat: %w" [] (DecodeBox (MoofSize moof) rest) in
      match asMdat b with
      | None => errorf "expected mdat box, got %T"
      | Some mdat => Ret (fragmentOf moof mdat)
      end
  end.

(** [append([]byte(nil), b...)]: an empty slice becomes nil. *)
Definition copyBytes (b : bytes) : option bytes := match b with [] => None | _ => Some b end.

(** The fragment and the track with its next IV. *)
Definition encryptFragment (t : ContentTrack) (fragmentBytes : bytes) : outcome (Fragment * ContentTrack) :=
  let! frag := decodeMoofMdat fragmentBytes in
  match cenc t with
  | None => Panic
  | Some c =>
      let iv := match currentIV t with None => copyBytes (cencIV c) | iv => iv end in
      let! '(frag, nextIV) := owrap "unable to encrypt fragment: %w" [] (EncryptFragment frag (cencKey c) iv (ipd t)) in
      Ret (frag, with_currentIV t (Some nextIV))
  end.

Definition GenCMAFChunk (t : ContentTrack) (chunkNr startNr endNr : Z) (cc : option ccSplice)
  : outcome (bytes * ContentTrack) :=
  let! f := owrap "unable to create fragment: %w" [] (createFragment t chunkNr startNr endNr cc) in
  let! b := EncodeFragment f in
  if 0 <? len (contentProtectionRefIDs t) then
    let! '(encrypted, t) := encryptFragment t b in
    let! b := owrap "unable to encode encrypted fragment: %w" [] (EncodeFragment encrypted) in
    Ret (b, t)
  else Ret (b, t).

Definition GenLocmafChunk (t : ContentTrack) (chunkNr startNr endNr : Z) (state : LocmafState) (cc : option ccSplice)
  : outcome (bytes * LocmafState * ContentTrack) :=
  let! f := owrap "unable to create fragment: %w" [] (createFragment t chunkNr startNr endNr cc) in
  let! b := EncodeFragment f in
  let! '(f, t) := if 0 <? len (contentProtectionRefIDs t) then encryptFragment t b else Ret (f, t) in
  match SpecData t with
  | None => Panic
  | Some sd =>
      match GetInit sd with
      | None => Panic
      | Some moov =>
          let! '(obj, state) := owrap "unable to encode LOCMAF object: %w" [] (EncodeCanonical f state moov) in
          Ret (obj, state, t)
      end
  end.

(** ** Groups *)
Record MoQGroup := mkMoQGroup {
  gid : Z; startTime : Z; endTime : Z; startNr : Z; endNr : Z; MoQObjects : list bytes
}.

(** The ranges of the chunks of [GenMoQGroup]: [for i := startNr; i < endNr;
    i += uint64(sampleBatch)].  [None] is "not done with this fuel". *)
Fixpoint chunk_ranges (fuel : nat) (i endNr sampleBatch : Z) : option (list (Z * Z)) :=
  if i <? endNr then
    match fuel with
    | O => None
    | S fuel =>
        let endSample := Z.min (u64 (i + u64 sampleBatch)) endNr in
        match chunk_ranges fuel (u64 (i + u64 sampleBatch)) endNr sampleBatch with
        | Some r => Some ((i, endSample) :: r)
        | None => None
        end
    end
  else Some [].

(** The body of the loop over those ranges. *)
Fixpoint gen_chunks (t : ContentTrack) (groupNr : Z) (packaging : string) (cc : option ccSplice)
    (ranges : list (Z * Z)) (state : LocmafState) : outcome (list bytes * ContentTrack) :=
  match ranges with
  | [] => Ret ([], t)
  | (first, last) :: ranges =>
      if bool_decide (packaging = "cmaf"%string) then
        let! '(chunk, t) := owrap "failed to generate CMAF chunk for group %d, samples %d-%d: %w"
          [pretty groupNr; pretty first; pretty last] (GenCMAFChunk t (u32 groupNr) first last cc) in
        let! '(rest, t) := gen_chunks t groupNr packaging cc ranges state in
        Ret (chunk :: rest, t)
      else if bool_decide (packaging = "locmaf"%string) then
        let! '(chunk, state, t) := owrap "failed to generate locmaf chunk for group %d, samples %d-%d: %w"
          [pretty groupNr; pretty first; pretty last] (GenLocmafChunk t (u32 groupNr) first last state cc) in
        let! '(rest, t) := gen_chunks t groupNr packaging cc ranges state in
        Ret (chunk :: rest, t)
      else gen_chunks t groupNr packaging cc ranges state
  end.

(** [None] when the loop over the chunks does not end within [fuel] chunks. *)
Definition GenMoQGroup (fuel : nat) (t : ContentTrack) (groupNr sampleBatch constantDurMS : Z) (packaging : string)
  : option (outcome (MoQGroup * ContentTrack)) :=
  match calcMoQGroup t groupNr constantDurMS with
  | Ret (s, e) =>
      match newGroupCCSplice t groupNr s e with
      | Ret cc =>
          ranges ← chunk_ranges fuel s e sampleBatch;
          Some (let! '(objs, t) := gen_chunks t groupNr packaging cc ranges NewState in
                Ret (mkMoQGroup (u32 groupNr) (u64 (s * SampleDur t)) (u64 (e * SampleDur t)) s e objs, t))
      | Err x => Some (Err x)
      | Panic => Some Panic
      end
  | Err x => Some (Err x)
  | Panic => Some Panic
  end.

(** The wall-clock time at which [WriteMoQGroup] sends object [nr] is due. *)
Definition objTimeMS (t : ContentTrack) (moq : MoQGroup) (nr : Z) : Z :=
  let factorMS := fdiv (f64 1000) (f64 (TimeScale t)) in
  let objTime := u64 (startTime moq + u64 (u64 (u64 (nr + 1) * SampleDur t) * u64 (SampleBatch t))) in
  int_of_f64 (fmul (f64 objTime) factorMS).

(** ** Bitrates *)
Definition effectiveBatch (ct : ContentTrack) : Z :=
  let batch := if SampleBatch ct <=? 0 then 1 else SampleBatch ct in
  if len (Samples ct) <? batch then len (Samples ct) else batch.

(** [for i := range n { total += len(ct.Samples[off+i].Data) }] *)
Fixpoint raw_bytes (ct : ContentTrack) (off : Z) (n : nat) (total : Z) : outcome Z :=
  match n with
  | O => Ret total
  | S n => let! s := index (Samples ct) off in raw_bytes ct (off + 1) n (i64 (total + len (Data s)))
  end.

Definition objectRate (ct : ContentTrack) : float64 := fdiv (f64 (TimeScale ct)) (f64 (SampleDur ct)).

(** Measuring a chunk of a protected track advances its IV, hence the track in
    the results. *)
Definition calcCmafBitrate (ct : ContentTrack) : outcome (Z * ContentTrack) :=
  let batch := effectiveBatch ct in
  if (batch =? 0) || (SampleDur ct =? 0) || (TimeScale ct =? 0) then Ret (SampleBitrate ct, ct)
  else
    let! '(chunk, ct) := owrap "measure CMAF chunk for %s: %w" [Name ct] (GenCMAFChunk ct 0 0 batch None) in
    let! rawBytes := raw_bytes ct 0 (Z.to_nat batch) 0 in
    let overheadBytes := i64 (len chunk - rawBytes + cmafObjectOverheadBytes) in
    let rate := fdiv (objectRate ct) (f64 batch) in
    Ret (int_of_f64 (fadd (f64 (SampleBitrate ct)) (fmul (fmul (f64 8) (f64 overheadBytes)) rate)), ct).

Definition calcLocmafBitrate (ct : ContentTrack) : outcome (Z * ContentTrack) :=
  let batch := effectiveBatch ct in
  if (batch =? 0) || (SampleDur ct =? 0) || (TimeScale ct =? 0) then Ret (SampleBitrate ct, ct)
  else
    let! '(fullChunk, state, ct) := owrap "measure LOCMAF full chunk for %s: %w" [Name ct]
                                      (GenLocmafChunk ct 0 0 batch NewState None) in
    let! '(deltaChunk, _, ct) := owrap "measure LOCMAF delta chunk for %s: %w" [Name ct]
                                   (GenLocmafChunk ct 1 batch (2 * batch) state None) in
    let! rawFull := raw_bytes ct 0 (Z.to_nat batch) 0 in
    let! rawDelta := raw_bytes ct batch (Z.to_nat batch) 0 in
    let fullOverhead := i64 (len fullChunk - rawFull + cmafObjectOverheadBytes) in
    let deltaOverhead := i64 (len deltaChunk - rawDelta + cmafObjectOverheadBytes) in
    let objectsPerSec := fdiv (objectRate ct) (f64 batch) in
    let fullsPerSec := fdiv (f64 1000) (f64 MoqGroupDurMS) in
    let deltasPerSec := fsub objectsPerSec fullsPerSec in
    let '(fullsPerSec, deltasPerSec) :=
      if fltb deltasPerSec (f64 0) then (objectsPerSec, f64 0) else (fullsPerSec, deltasPerSec) in
    let extraBytesPerSec := fadd (fmul (f64 fullOverhead) fullsPerSec) (fmul (f64 deltaOverhead) deltasPerSec) in
    Ret (int_of_f64 (fadd (f64 (SampleBitrate ct)) (fmul (f64 8) extraBytesPerSec)), ct).
End Chunk.

(** A concrete fragment for examples: the samples it holds; its encoding is
    their data behind a header of 8 bytes; encryption adds 1 to the IV. *)
#[export] Instance FragConcrete : @FragLib Mp4Concrete := {|
  Fragment := list FullSample;
  CreateFragment _ _ := Ret []; AddFullSample f s := f ++ [s]; optimizeTrun f := f;
  EncodeFragment f := Ret (replicate 8 0 ++ concat (Data <$> f));
  Box := bytes; MoofBox := bytes; MdatBox := bytes;
  DecodeBox _ b := Ret (take 8 b, drop 8 b);
  asMoof b := Some b; asMdat b := Some b; MoofSize b := len b;
  fragmentOf _ _ := [];
  EncryptFragment f _ iv _ := Ret (f, (fun b => b + 1) <$> default [] iv);
  LocmafState := nat; NewState := O;
  EncodeCanonical f st _ := Ret (concat (Data <$> f), S st)
|}.
