(* ===== verification/ChunkProps.v ===== *)
(** * How groups are cut into chunks

    Which samples a chunk holds and how it is encoded is defined here as a
    relation, [chunks]; the code is shown to return what the relation says,
    and nothing when there is no such list of objects. *)
From S2P Require Import Prelude GoFloat Media Timeline Nalu Cc608 Chunk.
From stdpp Require Import list_numbers.
Local Open Scope Z_scope.
Local Open Scope go_scope.

(** The sample numbers of a list of ranges. *)
Definition covered (r : list (Z * Z)) : list Z := concat ((fun ab => seqZ ab.1 (ab.2 - ab.1)) <$> r).

Lemma chunk_ranges_spec fuel i e b :
  0 <= i -> 1 <= b -> e + b < 2 ^ 64 -> e - i <= Z.of_nat fuel ->
  exists r, chunk_ranges fuel i e b = Some r /\ covered r = seqZ i (e - i) /\
    Forall (fun ab => ab.1 < ab.2 <= ab.1 + b) r /\ len r = Z.max 0 (ceil_div (e - i) b).
Proof.
  intros Hi Hb. revert i Hi. induction fuel as [|fuel IH]; intros i Hi He Hf; cbn [chunk_ranges].
  - rewrite (proj2 (Z.ltb_ge _ _)) by lia. exists []. split_and!; [done | | constructor |].
    + unfold covered. cbn. by rewrite seqZ_nil by lia.
    + assert (ceil_div (e - i) b <= 0) by (apply ceil_div_le_iff; lia). unfold len. cbn [length]. lia.
  - destruct (Z.ltb_spec i e).
    2: { exists []. split_and!; [done | | constructor |].
         - unfold covered. cbn. by rewrite seqZ_nil by lia.
         - assert (ceil_div (e - i) b <= 0) by (apply ceil_div_le_iff; lia). unfold len. cbn [length]. lia. }
    rewrite (u64_small b) by lia. rewrite u64_small by lia.
    destruct (IH (i + b)) as (r & -> & Hc & Hr & Hl); [lia..|].
    exists ((i, Z.min (i + b) e) :: r). split_and!; [done | | |].
    + change (covered ((i, Z.min (i + b) e) :: r)) with (seqZ i (Z.min (i + b) e - i) ++ covered r). rewrite Hc.
      destruct (Z.le_ge_cases (i + b) e).
      * rewrite Z.min_l by lia. replace (i + b - i) with b by lia.
        replace (e - i) with (b + (e - (i + b))) by lia. by rewrite <- seqZ_app by lia.
      * rewrite Z.min_r by lia. rewrite (seqZ_nil (i + b)) by lia. by rewrite app_nil_r.
    + constructor; [cbn; lia | done].
    + unfold len in *. cbn [length].
      assert (ceil_div (e - i) b = ceil_div (e - (i + b)) b + 1).
      { apply ceil_div_unique; [lia|]. pose proof (ceil_div_spec (e - (i + b)) b). lia. }
      pose proof (proj1 (ceil_div_lt_iff (e - (i + b)) b (-1) ltac:(lia))).
      pose proof (proj2 (ceil_div_lt_iff (e - (i + b)) b (-1) ltac:(lia))). lia.
Qed.

(** ** What a chunk holds *)

Section ChunkProps.
Context {M : Mp4Types} {NL : @NaluLib M} {CL : @CcLib M} {FL : @FragLib M}.

(** Sample [nr] of the output: a sample of the loop with its new time, and with
    its caption if there are captions *)
Definition sent_sample (t : ContentTrack) (cc : option ccSplice) (nr : Z) (x : FullSample) : Prop :=
  exists start origNr orig, CalcSample t nr = Ret (start, origNr) /\ 0 <= origNr /\ Samples t !! Z.to_nat origNr = Some orig /\
    Flags x = Flags orig /\ Dur x = Dur orig /\ DecodeTime x = start /\ Media.Size x = u32 (len (Data x)) /\
    match cc with None => Data x = Data orig | Some _ => chunk_data cc nr orig = Ret (Data x) end.

(** An object made of a fragment, which is encrypted first when the track is
    protected; [iv] is the track's IV before and [iv'] the one afterwards, and
    so is the state of the LOCMAF encoder. *)
Definition encoded (t : ContentTrack) (packaging : string) (st : LocmafState) (iv : option bytes) (f : Fragment) (obj : bytes)
    (st' : LocmafState) (iv' : option bytes) : Prop :=
  exists clear out, EncodeFragment f = Ret clear /\
    (match contentProtectionRefIDs t with
     | [] => out = f /\ iv' = iv
     | _ => exists c moofMdat next, cenc t = Some c /\ decodeMoofMdat clear = Ret moofMdat /\
         EncryptFragment moofMdat (cencKey c) (match iv with None => copyBytes (cencIV c) | _ => iv end) (ipd t) = Ret (out, next) /\
         iv' = Some next
     end) /\
    if bool_decide (packaging = "cmaf"%string) then EncodeFragment out = Ret obj /\ st' = st
    else exists sd moov, SpecData t = Some sd /\ GetInit sd = Some moov /\ EncodeCanonical out st moov = Ret (obj, st').

(** One object per range, with the samples of the range and no others, each
    encoded after the one before *)
Inductive chunks (t : ContentTrack) (g : Z) (packaging : string) (cc : option ccSplice) :
    LocmafState -> option bytes -> list (Z * Z) -> list bytes -> option bytes -> Prop :=
  | chunks_nil st iv : chunks t g packaging cc st iv [] [] iv
  | chunks_cons st iv a b samples f obj st1 iv1 ranges objs iv' :
      Forall2 (sent_sample t cc) (seqZ a (b - a)) samples -> CreateFragment (u32 g) trackID = Ret f ->
      encoded t packaging st iv (optimizeTrun (fold_left AddFullSample samples f)) obj st1 iv1 ->
      chunks t g packaging cc st1 iv1 ranges objs iv' ->
      chunks t g packaging cc st iv ((a, b) :: ranges) (obj :: objs) iv'.

Lemma chunks_length t g p cc st iv r objs iv' : chunks t g p cc st iv r objs iv' -> length objs = length r.
Proof. induction 1; cbn; congruence. Qed.

Lemma with_currentIV_same t : with_currentIV t (currentIV t) = t.
Proof. by destruct t. Qed.

Lemma out_sample_iff t cc nr x : out_sample t cc nr = Ret x <-> sent_sample t cc nr x.
Proof.
  unfold out_sample, sent_sample. split.
  - intros H. apply obind_Ret in H as ([start o] & Hc & H). apply obind_Ret in H as (orig & Ho & H). apply obind_Ret in H as (d & Hd & [= <-]).
    apply index_Ret in Ho as [H0 Ho]. exists start, o, orig. split_and!; try done. destruct cc; [done|]. cbn in Hd. by injection Hd as ->.
  - intros (start & o & orig & -> & H0 & Ho & Hf & Hdur & Ht & Hs & Hd). cbn [obind]. rewrite (proj2 (index_Ret _ _ _) (conj H0 Ho)). cbn [obind].
    assert (Hdata : chunk_data cc nr orig = Ret (Data x)) by (destruct cc; [done|]; cbn; by rewrite Hd).
    rewrite Hdata. cbn [obind]. destruct x; cbn in *. by subst.
Qed.

Lemma add_samples_iff t cc n : forall a f f', add_samples t cc a n f = Ret f' <->
  exists samples, Forall2 (sent_sample t cc) (seqZ a (Z.of_nat n)) samples /\ f' = fold_left AddFullSample samples f.
Proof.
  induction n as [|n IH]; intros a f f'; cbn [add_samples].
  - split; [intros [= <-]; by exists []|]. by intros (s & ->%Forall2_nil_inv_l & ->).
  - rewrite seqZ_cons by lia. replace (Z.pred (Z.of_nat (S n))) with (Z.of_nat n) by lia. replace (Z.succ a) with (a + 1) by lia. split.
    + intros H. apply obind_Ret in H as (x & Hx%out_sample_iff & H). apply IH in H as (s & Hs & ->). exists (x :: s). by split; [constructor|].
    + intros (s & Hs & ->). apply Forall2_cons_inv_l in Hs as (x & s' & Hx & Hs & ->). apply out_sample_iff in Hx as ->. cbn [obind].
      apply IH. by exists s'.
Qed.

Lemma createFragment_iff t nr a b cc f : createFragment t nr a b cc = Ret f <->
  exists samples f0, Forall2 (sent_sample t cc) (seqZ a (b - a)) samples /\ CreateFragment nr trackID = Ret f0 /\
    f = optimizeTrun (fold_left AddFullSample samples f0).
Proof.
  unfold createFragment. assert (Hseq : seqZ a (Z.of_nat (Z.to_nat (b - a))) = seqZ a (b - a)).
  { destruct (Z.le_ge_cases 0 (b - a)); [by rewrite Z2Nat.id|]. by rewrite !seqZ_nil by lia. }
  rewrite <- Hseq. split.
  - intros H. apply obind_Ret in H as (f0 & H0 & H). apply obind_Ret in H as (f1 & H1 & [= <-]). apply add_samples_iff in H1 as (s & Hs & ->).
    by exists s, f0.
  - intros (s & f0 & Hs & -> & ->). cbn [obind]. by rewrite (proj2 (add_samples_iff _ _ _ _ _ _) (ex_intro _ s (conj Hs eq_refl))).
Qed.

Lemma createFragment_iv t iv nr a b cc f : createFragment (with_currentIV t iv) nr a b cc = Ret f <->
  exists samples f0, Forall2 (sent_sample t cc) (seqZ a (b - a)) samples /\ CreateFragment nr trackID = Ret f0 /\
    f = optimizeTrun (fold_left AddFullSample samples f0).
Proof. apply (createFragment_iff (with_currentIV t iv)). Qed.

(** *** Encryption *)

Lemma encryptFragment_iff t iv clear f t' : encryptFragment (with_currentIV t iv) clear = Ret (f, t') <->
  exists c moofMdat next, cenc t = Some c /\ decodeMoofMdat clear = Ret moofMdat /\
    EncryptFragment moofMdat (cencKey c) (match iv with None => copyBytes (cencIV c) | _ => iv end) (ipd t) = Ret (f, next) /\
    t' = with_currentIV t (Some next).
Proof.
  unfold encryptFragment. cbn [cenc currentIV ipd with_currentIV]. split.
  - intros H. apply obind_Ret in H as (d & Hd & H). destruct (cenc t) as [c|]; [|done]. apply obind_Ret in H as ([o next] & He & H).
    apply owrap_Ret in He. injection H as <- <-. exists c, d, next. split_and!; try done. by destruct iv.
  - intros (c & d & next & -> & -> & He & ->). cbn [obind]. by destruct iv; rewrite He.
Qed.

Lemma protected_len t : (0 <? len (contentProtectionRefIDs t)) = match contentProtectionRefIDs t with [] => false | _ => true end.
Proof. destruct (contentProtectionRefIDs t); [done|]. rewrite len_cons. apply Z.ltb_lt. pose proof (len_nonneg l). lia. Qed.

Definition made (t : ContentTrack) (g : Z) (packaging : string) (cc : option ccSplice) (st : LocmafState) (iv : option bytes) (a b : Z)
    (obj : bytes) (st' : LocmafState) (iv' : option bytes) : Prop :=
  exists samples f, Forall2 (sent_sample t cc) (seqZ a (b - a)) samples /\ CreateFragment (u32 g) trackID = Ret f /\
    encoded t packaging st iv (optimizeTrun (fold_left AddFullSample samples f)) obj st' iv'.

Lemma GenCMAFChunk_iff t g cc st iv a b obj t' : GenCMAFChunk (with_currentIV t iv) (u32 g) a b cc = Ret (obj, t') <->
  exists iv', t' = with_currentIV t iv' /\ made t g "cmaf" cc st iv a b obj st iv'.
Proof.
  unfold GenCMAFChunk, made, encoded. rewrite bool_decide_true by done. rewrite protected_len. cbn [contentProtectionRefIDs with_currentIV]. split.
  - intros H. apply obind_Ret in H as (f & Hf%owrap_Ret & H). apply createFragment_iv in Hf as (s & f0 & Hs & H0 & ->).
    apply obind_Ret in H as (clear & Hc & H). destruct (contentProtectionRefIDs t).
    + injection H as <- <-. exists iv. split; [done|]. exists s, f0. split; [done|]. split; [done|]. by exists clear, (optimizeTrun (fold_left AddFullSample s f0)).
    + apply obind_Ret in H as ([o t1] & He & H). apply encryptFragment_iff in He as (c & d & next & E1 & E2 & E3 & ->).
      apply obind_Ret in H as (b' & Hb%owrap_Ret & [= <- <-]). exists (Some next). split; [done|]. exists s, f0. split; [done|]. split; [done|].
      exists clear, o. split; [done|]. split; [by exists c, d, next|done].
  - intros (iv' & -> & s & f0 & Hs & H0 & clear & out & Hc & Hout & Hobj & _).
    rewrite (proj2 (createFragment_iv t iv _ _ _ _ _) (ex_intro _ s (ex_intro _ f0 (conj Hs (conj H0 eq_refl))))). cbn [owrap obind]. rewrite Hc. cbn [obind].
    destruct (contentProtectionRefIDs t).
    + destruct Hout as [-> ->]. rewrite Hc in Hobj. by injection Hobj as ->.
    + destruct Hout as (c & d & next & E1 & E2 & E3 & ->).
      rewrite (proj2 (encryptFragment_iff t iv clear out _) (ex_intro _ c (ex_intro _ d (ex_intro _ next (conj E1 (conj E2 (conj E3 eq_refl))))))).
      cbn [obind]. by rewrite Hobj.
Qed.

Lemma GenLocmafChunk_iff t g cc st iv a b obj st' t' : GenLocmafChunk (with_currentIV t iv) (u32 g) a b st cc = Ret (obj, st', t') <->
  exists iv', t' = with_currentIV t iv' /\ made t g "locmaf" cc st iv a b obj st' iv'.
Proof.
  unfold GenLocmafChunk, made, encoded. rewrite bool_decide_false by done. rewrite protected_len. cbn [contentProtectionRefIDs SpecData with_currentIV]. split.
  - intros H. apply obind_Ret in H as (f & Hf%owrap_Ret & H). apply createFragment_iv in Hf as (s & f0 & Hs & H0 & ->).
    apply obind_Ret in H as (clear & Hc & H). apply obind_Ret in H as ([out t1] & He & H).
    assert (Ht : exists iv1, t1 = with_currentIV t iv1 /\ match contentProtectionRefIDs t with
       | [] => out = optimizeTrun (fold_left AddFullSample s f0) /\ iv1 = iv
       | _ => exists c moofMdat next, cenc t = Some c /\ decodeMoofMdat clear = Ret moofMdat /\
           EncryptFragment moofMdat (cencKey c) (match iv with None => copyBytes (cencIV c) | _ => iv end) (ipd t) = Ret (out, next) /\
           iv1 = Some next
       end).
    { destruct (contentProtectionRefIDs t); [injection He as <- <-; by exists iv|].
      apply encryptFragment_iff in He as (c & d & next & E1 & E2 & E3 & ->). exists (Some next). split; [done|]. by exists c, d, next. }
    destruct Ht as (iv1 & -> & Ht). cbn [SpecData with_currentIV] in H. destruct (SpecData t) as [sd|]; [|done].
    destruct (GetInit sd) as [moov|] eqn:Em; [|done]. apply obind_Ret in H as ([o st1] & Ho%owrap_Ret & [= -> -> <-]).
    exists iv1. split; [done|]. exists s, f0. split; [done|]. split; [done|]. exists clear, out. split; [done|]. split; [done|]. by exists sd, moov.
  - intros (iv' & -> & s & f0 & Hs & H0 & clear & out & Hc & Hout & sd & moov & Hsd & Hm & Hobj).
    rewrite (proj2 (createFragment_iv t iv _ _ _ _ _) (ex_intro _ s (ex_intro _ f0 (conj Hs (conj H0 eq_refl))))). cbn [owrap obind]. rewrite Hc. cbn [obind].
    destruct (contentProtectionRefIDs t).
    + destruct Hout as [-> ->]. cbn [obind SpecData with_currentIV]. by rewrite Hsd, Hm, Hobj.
    + destruct Hout as (c & d & next & E1 & E2 & E3 & ->).
      rewrite (proj2 (encryptFragment_iff t iv clear out _) (ex_intro _ c (ex_intro _ d (ex_intro _ next (conj E1 (conj E2 (conj E3 eq_refl))))))).
      cbn [obind SpecData with_currentIV]. by rewrite Hsd, Hm, Hobj.
Qed.

Lemma chunks_made t g p cc st iv a b ranges l iv' : chunks t g p cc st iv ((a, b) :: ranges) l iv' <->
  exists obj objs st1 iv1, l = obj :: objs /\ made t g p cc st iv a b obj st1 iv1 /\ chunks t g p cc st1 iv1 ranges objs iv'.
Proof.
  split.
  - inversion 1; subst. eexists _, _, _, _. split; [done|]. split; [|done]. by eexists _, _.
  - intros (obj & objs & st1 & iv1 & -> & (s & f & Hs & Hf & He) & Hc). by eapply chunks_cons.
Qed.

Lemma gen_chunks_iff t g p cc : (p = "cmaf" \/ p = "locmaf")%string -> forall ranges st iv objs t',
  gen_chunks (with_currentIV t iv) g p cc ranges st = Ret (objs, t') <->
  exists iv', t' = with_currentIV t iv' /\ chunks t g p cc st iv ranges objs iv'.
Proof.
  intros Hp. induction ranges as [|[a b] ranges IH]; intros st iv objs t'; cbn [gen_chunks].
  - split; [intros [= <- <-]; exists iv; split; [done|constructor]|]. intros (iv' & -> & Hc). by inversion Hc.
  - setoid_rewrite chunks_made. destruct Hp as [-> | ->].
    + rewrite (bool_decide_true ("cmaf" = "cmaf")%string) by done. split.
      * intros H. apply obind_Ret in H as ([obj t1] & Ho%owrap_Ret & H). apply (GenCMAFChunk_iff t g cc st) in Ho as (iv1 & -> & Hm).
        apply obind_Ret in H as ([l t2] & Hr & [= <- <-]). apply IH in Hr as (iv' & -> & Hc). exists iv'. split; [done|]. by exists obj, l, st, iv1.
      * intros (iv' & -> & obj & l & st1 & iv1 & -> & Hm & Hc).
        assert (st1 = st) as -> by (destruct Hm as (? & ? & _ & _ & ? & ? & _ & _ & Hm); rewrite bool_decide_true in Hm by done; tauto).
        rewrite (proj2 (GenCMAFChunk_iff t g cc st iv a b obj _) (ex_intro _ iv1 (conj eq_refl Hm))). cbn [owrap obind].
        by rewrite (proj2 (IH st iv1 l _) (ex_intro _ iv' (conj eq_refl Hc))).
    + rewrite (bool_decide_false ("locmaf" = "cmaf")%string), (bool_decide_true ("locmaf" = "locmaf")%string) by done. split.
      * intros H. apply obind_Ret in H as ([[obj st1] t1] & Ho%owrap_Ret & H). apply GenLocmafChunk_iff in Ho as (iv1 & -> & Hm).
        apply obind_Ret in H as ([l t2] & Hr & [= <- <-]). apply IH in Hr as (iv' & -> & Hc). exists iv'. split; [done|]. by exists obj, l, st1, iv1.
      * intros (iv' & -> & obj & l & st1 & iv1 & -> & Hm & Hc).
        rewrite (proj2 (GenLocmafChunk_iff t g cc st iv a b obj st1 _) (ex_intro _ iv1 (conj eq_refl Hm))). cbn [owrap obind].
        by rewrite (proj2 (IH st1 iv1 l _) (ex_intro _ iv' (conj eq_refl Hc))).
Qed.
End ChunkProps.

(** C12. With a batch of at least one sample, [GenMoQGroup] ends.  It cuts the
    samples of the group into consecutive ranges: together they hold every
    sample of the group exactly once and in order, each holds between one
    sample and a batch, and they are as few as possible.  It returns a group
    exactly when every chunk can be made, and then the group has the numbers
    and times of its first and last sample and one object per range, in order:
    a fragment of exactly the samples of the range, with their new times and
    their captions, encrypted with the IV that the object before left when the
    track is protected, and encoded as the packaging says.  The track keeps
    the last IV. *)
Theorem GenMoQGroup_chunks {M : Mp4Types} {NL : @NaluLib M} {CL : @CcLib M} {FL : @FragLib M}
    (t : ContentTrack) (fuel : nat) (g batch D s e : Z) (packaging : string) :
  calcMoQGroup t g D = Ret (s, e) -> 0 <= s -> 1 <= batch -> e + batch < 2 ^ 64 -> e - s <= Z.of_nat fuel ->
  (packaging = "cmaf" \/ packaging = "locmaf")%string ->
  exists r res, GenMoQGroup fuel t g batch D packaging = Some res /\
    covered r = seqZ s (e - s) /\ Forall (fun ab => ab.1 < ab.2 <= ab.1 + batch) r /\ len r = Z.max 0 (ceil_div (e - s) batch) /\
    forall mq t', res = Ret (mq, t') <->
      exists cc objs iv, newGroupCCSplice t g s e = Ret cc /\ chunks t g packaging cc NewState (currentIV t) r objs iv /\
        mq = mkMoQGroup (u32 g) (u64 (s * SampleDur t)) (u64 (e * SampleDur t)) s e objs /\ t' = with_currentIV t iv.
Proof.
  intros Hcalc Hs Hb He Hf Hp.
  destruct (chunk_ranges_spec fuel s e batch Hs Hb He Hf) as (r & Hr & Hc & Hall & Hl).
  unfold GenMoQGroup. rewrite Hcalc.
  destruct (newGroupCCSplice t g s e) as [cc|x|].
  2: { exists r, (Err x). split_and!; try done. intros mq t'. split; [done|]. by intros (cc & ? & ? & ? & _). }
  2: { exists r, Panic. split_and!; try done. intros mq t'. split; [done|]. by intros (cc & ? & ? & ? & _). }
  rewrite Hr. cbn [mbind option_bind]. eexists r, _. split; [done|]. split_and!; [done..|].
  pose proof (gen_chunks_iff t g packaging cc Hp r NewState (currentIV t)) as Hgen. rewrite with_currentIV_same in Hgen.
  intros mq t'. split.
  - intros H. apply obind_Ret in H as ([objs t1] & Hg & [= <- <-]). apply Hgen in Hg as (iv & -> & Hch). by exists cc, objs, iv.
  - intros (cc' & objs & iv & [= <-] & Hch & -> & ->). by rewrite (proj2 (Hgen objs _) (ex_intro _ iv (conj eq_refl Hch))).
Qed.

(** 47 samples in chunks of 20: the last object holds the last seven. *)
Lemma GenMoQGroup_chunks_witness :
  let t := timing_track "a" "audio" 48000 1024 469 480000 in
  exists mq t', GenMoQGroup (FL := FragConcrete) 50 t 3 20 1000 "cmaf" = Some (Ret (mq, t')) /\
    map len (MoQObjects mq) = [28; 28; 15] /\
    exists r cc objs iv, covered r = seqZ 141 (188 - 141) /\ len r = 3 /\
      chunks (FL := FragConcrete) t 3 "cmaf" cc NewState (currentIV t) r objs iv /\ MoQObjects mq = objs.
Proof.
  intros t. destruct (GenMoQGroup_chunks (FL := FragConcrete) t 50 3 20 1000 141 188 "cmaf") as (r & res & Hg & Hc & _ & Hl & Hiff);
    [vm_compute; reflexivity | lia.. | by left |].
  destruct res as [[mq t']|e|]; [|vm_compute in Hg; discriminate Hg..]. exists mq, t'. split; [exact Hg|].
  split; [clear -Hg; vm_compute in Hg; injection Hg as <- _; reflexivity|].
  destruct (proj1 (Hiff mq t') eq_refl) as (cc & objs & iv & _ & Hch & -> & _). exists r, cc, objs, iv.
  split; [exact Hc|]. split; [rewrite Hl; vm_compute; reflexivity|]. split; [exact Hch|reflexivity].
Defined.

(** With a batch of 0 samples, which the options of the publisher allow,
    the loop of [GenMoQGroup] never ends: no number of chunks is enough. *)
Theorem GenMoQGroup_zero_batch {M : Mp4Types} {NL : @NaluLib M} {CL : @CcLib M} {FL : @FragLib M}
    (t : ContentTrack) (fuel : nat) (g D s e : Z) (packaging : string) cc :
  calcMoQGroup t g D = Ret (s, e) -> is_u 64 s -> s < e -> newGroupCCSplice t g s e = Ret cc ->
  GenMoQGroup fuel t g 0 D packaging = None.
Proof.
  intros Hcalc Hs He Hcc. unfold GenMoQGroup. rewrite Hcalc, Hcc.
  assert (chunk_ranges fuel s e 0 = None) as ->; [|done].
  assert (Hz : u64 (s + u64 0) = s) by (change (u64 0) with 0; rewrite Z.add_0_r; by apply u64_small).
  clear Hcalc Hcc. induction fuel as [|fuel IH]; cbn [chunk_ranges]; rewrite (proj2 (Z.ltb_lt _ _) He); [done|].
  by rewrite Hz, IH.
Qed.

Lemma GenMoQGroup_zero_batch_witness :
  GenMoQGroup 1000 (timing_track "a" "audio" 48000 1024 469 480000) 3 0 1000 "cmaf" = None.
Proof.
  apply (GenMoQGroup_zero_batch (timing_track "a" "audio" 48000 1024 469 480000) 1000 3 1000 141 188 "cmaf" None);
    [vm_compute; reflexivity | unfold is_u; lia | lia | reflexivity].
Defined.

(** [calcLocmafBitrate] panics on every track with fewer than two batches
    of samples: its second chunk wraps around the loop, but the raw size of
    that chunk is read from the samples after the first batch without
    wrapping. *)
Theorem calcLocmafBitrate_short_track {M : Mp4Types} {NL : @NaluLib M} {CL : @CcLib M} {FL : @FragLib M}
    (ct ct1 ct2 : ContentTrack) c1 c2 st1 st2 :
  0 < SampleDur ct -> 0 < TimeScale ct -> 0 < len (Samples ct) < 2 * effectiveBatch ct ->
  GenLocmafChunk ct 0 0 (effectiveBatch ct) NewState None = Ret (c1, st1, ct1) ->
  GenLocmafChunk ct1 1 (effectiveBatch ct) (2 * effectiveBatch ct) st1 None = Ret (c2, st2, ct2) ->
  Samples ct2 = Samples ct ->
  calcLocmafBitrate ct = Panic.
Proof.
  intros Hd HT Hlen H1 H2 Hsame. unfold calcLocmafBitrate.
  assert (Hb : 0 < effectiveBatch ct <= len (Samples ct)).
  { unfold effectiveBatch in *. destruct (Z.leb_spec (SampleBatch ct) 0), (Z.ltb_spec (len (Samples ct)) 1); try lia;
      destruct (Z.ltb_spec (len (Samples ct)) (SampleBatch ct)); lia. }
  rewrite !(proj2 (Z.eqb_neq _ _)) by lia. cbn [orb]. rewrite H1. cbn [owrap obind]. rewrite H2. cbn [owrap obind].
  assert (Hok : forall n off tot, 0 <= off -> off + Z.of_nat n <= len (Samples ct2) ->
            exists x, raw_bytes ct2 off n tot = Ret x).
  { induction n as [|n IH]; intros off tot Ho Hn; cbn [raw_bytes]; [eauto|].
    destruct (index_in_range (Samples ct2) off) as [x ->]; [lia|]. cbn [obind]. apply IH; lia. }
  assert (Hbad : forall n off tot, 0 <= off -> off <= len (Samples ct2) -> len (Samples ct2) < off + Z.of_nat n ->
            raw_bytes ct2 off n tot = Panic).
  { induction n as [|n IH]; intros off tot Ho Hn Hover; cbn [raw_bytes]; [lia|].
    destruct (Z.eq_dec off (len (Samples ct2))) as [->|].
    - by rewrite index_out_of_range by lia.
    - destruct (index_in_range (Samples ct2) off) as [x ->]; [lia|]. cbn [obind]. apply IH; lia. }
  destruct (Hok (Z.to_nat (effectiveBatch ct)) 0 0) as [x ->]; [lia | rewrite Hsame; lia|]. cbn [obind].
  rewrite Hbad; [done | lia | rewrite Hsame; lia | rewrite Hsame; lia].
Qed.

(** A 3-sample track with a batch of 2. *)
Definition short_track : ContentTrack :=
  let t := timing_track "short" "audio" 48000 1024 3 3072 in
  {| Name := Name t; ContentType := ContentType t; Language := Language t; SampleBitrate := 0;
     TimeScale := TimeScale t; Duration := Duration t; GopLength := 0; SampleDur := SampleDur t;
     NrSamples := NrSamples t; LoopDur := LoopDur t; SampleBatch := 2; Samples := Samples t;
     SpecData := Some (AAC (mkAudioData None (Some ([] : bytes)) "mp4a.40.2" 48000 "2"));
     Protection := ProtectionNone; contentProtectionRefIDs := []; cenc := None; ipd := None; currentIV := None; cc608 := None |}.

Lemma calcLocmafBitrate_short_track_witness : calcLocmafBitrate short_track = Panic.
Proof.
  eapply (@calcLocmafBitrate_short_track _ _ _ FragConcrete short_track short_track short_track [0; 1] [2; 0] 1%nat 2%nat);
    try (vm_compute; reflexivity). split; vm_compute; reflexivity.
Defined.
