(* ===== verification/Subtitle.v ===== *)
(** * Subtitle groups ([internal/subtitle.go])

    The cues of a group, their text, and the WVTT and STPP fragments that
    carry them.  The boxes of mp4ff and the STPP template are the class
    [SubLib]; the date of a cue is computed the way [time.Format] does for
    [time.RFC3339] in UTC. *)
From S2P Require Import Prelude GoFloat Media Timeline Nalu Cc608 Chunk.
Local Open Scope Z_scope.
Local Open Scope go_scope.

(** ** Dates *)

(** The civil date of a day number since 1970-01-01, proleptic Gregorian. *)
Definition civil (days : Z) : Z * Z * Z :=
  let z := days + 719468 in
  let era := z / 146097 in
  let doe := z mod 146097 in
  let yoe := (doe - doe / 1460 + doe / 36524 - doe / 146096) / 365 in
  let doy := doe - (365 * yoe + yoe / 4 - yoe / 100) in
  let mp := (5 * doy + 2) / 153 in
  let d := doy - (153 * mp + 2) / 5 + 1 in
  let m := if mp <? 10 then mp + 3 else mp - 9 in
  let y := yoe + era * 400 + (if m <=? 2 then 1 else 0) in
  (y, m, d).

Definition pad4 (n : Z) : string := (if n <? 1000 then "0" else "") +:+ pad3 n.

(** [time.UnixMilli(ms).UTC().Format(time.RFC3339)], for years 0 to 9999 *)
Definition rfc3339 (ms : Z) : string :=
  let s := ms / 1000 in
  let '(y, m, d) := civil (s / 86400) in
  let t := s mod 86400 in
  pad4 y +:+ "-" +:+ pad2 m +:+ "-" +:+ pad2 d +:+ "T" +:+ pad2 (t / 3600) +:+ ":" +:+ pad2 (t / 60 mod 60)
    +:+ ":" +:+ pad2 (t mod 60) +:+ "Z".

Example rfc3339_leap_day : rfc3339 1709210096789 = "2024-02-29T12:34:56Z"%string.
Proof. vm_compute. reflexivity. Qed.

(** ** Cues *)
Record StppTimeCue := mkStppTimeCue { cueId : string; cueBegin : string; cueEnd : string; cueMsg : string }.
Record StppTimeData := mkStppTimeData { sdLang : string; sdRegion : Z; sdCues : list StppTimeCue }.
Record cueItvl := mkCueItvl { startMS : Z; endMS : Z; utcS : Z }.

(** The interval of the cue of second [s]: it is clipped to the segment and
    moved to media time. *)
Definition clip_cue (diff utcStart utcEndMS cueDur s : Z) : cueItvl :=
  let st := s * 1000 in
  let en := st + cueDur in
  let st := if st <? utcStart then utcStart else st in
  let en := if utcEndMS <? en then utcEndMS else en in
  mkCueItvl (st + diff) (en + diff) s.

(** [for utcS := ...; utcS <= last; utcS += cueFullS].  [None] is "not done
    with this fuel". *)
Fixpoint cue_loop (fuel : nat) (diff utcStart utcEndMS cueDur cueFullS last s : Z) : option (list cueItvl) :=
  if s <=? last then
    match fuel with
    | O => None
    | S fuel =>
        if s * 1000 =? utcEndMS then Some []
        else rest ← cue_loop fuel diff utcStart utcEndMS cueDur cueFullS last (s + cueFullS);
             Some (clip_cue diff utcStart utcEndMS cueDur s :: rest)
    end
  else Some [].

(** The loop counts up by [cueFullS], so [last - first + 1] rounds are enough
    for a positive cue duration; a duration in (-1000, 0] divides by zero. *)
Definition calcCueItvls (segStart segDur utcStart cueDur : Z) : outcome (option (list cueItvl)) :=
  let diff := segStart - utcStart in
  let utcEndMS := utcStart + segDur in
  let cueFullS := int_of_f64 (fceil (fmul (f64 cueDur) (fconst 1 1000))) in
  let cueFullMS := cueFullS * 1000 in
  if cueFullMS =? 0 then Panic
  else
    let first := Z.quot utcStart cueFullMS in
    let last := Z.quot (utcStart + segDur) cueFullMS in
    Ret (cue_loop (Z.to_nat (last - first + 1)) diff utcStart utcEndMS cueDur cueFullS last first).

Definition makeStppMessage (lang : string) (utcMS groupNr : Z) : string :=
  rfc3339 utcMS +:+ "<br/>" +:+ lang +:+ " # " +:+ pretty groupNr.

Definition msToTTMLTime (ms : Z) : string :=
  let hours := Z.quot ms 3600000 in
  let ms := Z.rem ms 3600000 in
  let minutes := Z.quot ms 60000 in
  let ms := Z.rem ms 60000 in
  let seconds := Z.quot ms 1000 in
  let ms := Z.rem ms 1000 in
  pad2 hours +:+ ":" +:+ pad2 minutes +:+ ":" +:+ pad2 seconds +:+ "." +:+ pad3 ms.

Definition newline : string := String (Ascii.ascii_of_nat 10) EmptyString.

Class SubLib `{M : Mp4Types} := {
  SyncSampleFlags : Z;
  (** a vttc box with an optional sttg box (its settings) and a payl box (its
      text), encoded *)
  EncodeVttc : option string -> string -> outcome bytes;
  (** the template [stpptime.xml] *)
  ExecuteTemplate : StppTimeData -> outcome bytes
}.

Section Subtitle.
Context {M : Mp4Types} {NL : @NaluLib M} {CL : @CcLib M} {FL : @FragLib M} {SL : @SubLib M}.

(** An encoding error panics. *)
Definition makeWvttCuePayload (lang : string) (region utcMS groupNr : Z) : outcome bytes :=
  let text := rfc3339 utcMS +:+ newline +:+ lang +:+ " # " +:+ pretty groupNr in
  match EncodeVttc (if region =? 1 then Some "line:2"%string else None) text with
  | Ret b => Ret b
  | _ => Panic
  end.

Definition fullSample (start end_ : Z) (data : bytes) : FullSample :=
  mkFullSample SyncSampleFlags (u32 (end_ - start)) (u32 (len data)) (u64 start) data.

(** The empty cue box. *)
Definition vtte : bytes := [0; 0; 0; 8; 0x76; 0x74; 0x74; 0x65].

(** The samples of the cues, and where the last one ends. *)
Fixpoint wvtt_cues (nr : Z) (lang : string) (region : Z) (cis : list cueItvl) (currEnd : Z)
  : outcome (list FullSample * Z) :=
  match cis with
  | [] => Ret ([], currEnd)
  | ci :: cis =>
      let! cuePL := makeWvttCuePayload lang region (utcS ci * 1000) nr in
      let gap := if i64 currEnd <? startMS ci then [fullSample (i64 currEnd) (startMS ci) vtte] else [] in
      let! '(rest, e) := wvtt_cues nr lang region cis (u64 (endMS ci)) in
      Ret (gap ++ fullSample (startMS ci) (endMS ci) cuePL :: rest, e)
  end.

Definition wvtt_samples (nr baseMediaDecodeTime dur : Z) (lang : string) (cis : list cueItvl) (region : Z)
  : outcome (list FullSample) :=
  let! '(ss, currEnd) := wvtt_cues nr lang region cis baseMediaDecodeTime in
  let segEnd := i64 (i64 baseMediaDecodeTime + dur) in
  Ret (ss ++ (if i64 currEnd <? segEnd then [fullSample (i64 currEnd) segEnd vtte] else [])).

(** [None]: the loop over the cues does not end. *)
Definition createSubtitlesWvttMediaData (nr baseMediaDecodeTime dur : Z) (lang : string) (utcTimeMS cueDurMS region : Z)
  : outcome (option bytes) :=
  let! frag := CreateFragment nr 1 in
  let! itvls := calcCueItvls (i64 baseMediaDecodeTime) dur (i64 utcTimeMS) cueDurMS in
  match itvls with
  | None => Ret None
  | Some cis =>
      let! ss := wvtt_samples nr baseMediaDecodeTime dur lang cis region in
      let! b := EncodeFragment (fold_left AddFullSample ss frag) in
      Ret (Some b)
  end.

Definition stpp_cue (nr : Z) (lang : string) (i : nat) (ci : cueItvl) : StppTimeCue :=
  mkStppTimeCue (pretty nr +:+ "-" +:+ pretty (Z.of_nat i)) (msToTTMLTime (startMS ci)) (msToTTMLTime (endMS ci))
    (makeStppMessage lang (utcS ci * 1000) nr).

Definition createSubtitlesStppMediaData (nr baseMediaDecodeTime dur : Z) (lang : string) (utcTimeMS cueDurMS region : Z)
  : outcome (option bytes) :=
  let! frag := CreateFragment nr 1 in
  let! itvls := calcCueItvls (i64 baseMediaDecodeTime) dur (i64 utcTimeMS) cueDurMS in
  match itvls with
  | None => Ret None
  | Some cis =>
      let! data := owrap "execute stpp template: %w" []
        (ExecuteTemplate (mkStppTimeData lang region (imap (stpp_cue nr lang) cis))) in
      let! b := EncodeFragment (AddFullSample frag
        (mkFullSample SyncSampleFlags dur (u32 (len data)) baseMediaDecodeTime data)) in
      Ret (Some b)
  end.

Definition GenSubtitleGroup (st : SubtitleTrack) (groupNr groupDurMS : Z) : outcome (option MoQGroup) :=
  let base := u64 (groupNr * groupDurMS) in
  let! data :=
    match stFormat st with
    | SubtitleFormatWVTT =>
        createSubtitlesWvttMediaData (u32 groupNr) base groupDurMS (stLanguage st) base (CueDurMS st) (Region st)
    | SubtitleFormatSTPP =>
        createSubtitlesStppMediaData (u32 groupNr) base groupDurMS (stLanguage st) base (CueDurMS st) (Region st)
    | SubtitleFormatOther f => Err (Errorf "unknown subtitle format: %s" [f])
    end in
  match data with
  | None => Ret None
  | Some data => Ret (Some (mkMoQGroup (u32 groupNr) base (u64 (base + groupDurMS)) groupNr (u64 (groupNr + 1)) [data]))
  end.

(** ** Properties *)

(** A cue duration of up to one second counts as one second. *)
Lemma cueFullS_one d : 1 <= d <= 1000 -> int_of_f64 (fceil (fmul (f64 d) (fconst 1 1000))) = 1.
Proof.
  intros Hd.
  assert (forallb (fun n => int_of_f64 (fceil (fmul (f64 (Z.of_nat n)) (fconst 1 1000))) =? 1) (seq 1 1000) = true) as H
    by (vm_compute; reflexivity).
  rewrite forallb_forall in H. specialize (H (Z.to_nat d)). rewrite Z2Nat.id in H by lia.
  apply Z.eqb_eq, H, in_seq. lia.
Qed.

(** The one cue of a segment that covers a whole second. *)
Lemma calcCueItvls_second s d : 0 <= s -> 1 <= d <= 1000 ->
  calcCueItvls (s * 1000) 1000 (s * 1000) d = Ret (Some [mkCueItvl (s * 1000) (s * 1000 + d) s]).
Proof.
  intros Hs Hd. unfold calcCueItvls. rewrite (cueFullS_one d Hd).
  replace (1 * 1000 =? 0) with false by done.
  replace (Z.quot (s * 1000) (1 * 1000)) with s by (rewrite Z.quot_div_nonneg; dlia).
  replace (Z.quot (s * 1000 + 1000) (1 * 1000)) with (s + 1) by (rewrite Z.quot_div_nonneg; dlia).
  replace (Z.to_nat (s + 1 - s + 1)) with 2%nat by lia. cbn [cue_loop].
  rewrite (proj2 (Z.leb_le s (s + 1))) by lia. rewrite (proj2 (Z.eqb_neq (s * 1000) _)) by lia.
  rewrite Z.leb_refl. rewrite (proj2 (Z.eqb_eq ((s + 1) * 1000) _)) by lia. cbn.
  unfold clip_cue. rewrite (proj2 (Z.ltb_ge (s * 1000) _)) by lia.
  rewrite (proj2 (Z.ltb_ge (s * 1000 + 1000) _)) by lia. do 3 f_equal. f_equal; lia.
Qed.

(** The samples follow each other without gap or overlap from [t] to [e]. *)
Fixpoint tiles (t : Z) (ss : list FullSample) (e : Z) : Prop :=
  match ss with
  | [] => t = e
  | s :: ss => DecodeTime s = t /\ 0 < Dur s /\ tiles (t + Dur s) ss e
  end.

Lemma fullSample_tile a b data ss e : 0 <= a < b -> b < 2 ^ 63 -> b - a < 2 ^ 32 ->
  tiles b ss e -> tiles a (fullSample a b data :: ss) e.
Proof.
  intros H Hb Hd Ht. unfold fullSample. cbn [tiles DecodeTime Dur]. rewrite u64_small, u32_small by lia.
  replace (a + (b - a)) with b by lia. repeat split; (done || lia).
Qed.

Lemma wvtt_samples_second nr s d lang region payload :
  0 <= s -> s * 1000 + 1000 < 2 ^ 63 -> 1 <= d <= 1000 ->
  makeWvttCuePayload lang region (s * 1000) nr = Ret payload ->
  wvtt_samples nr (s * 1000) 1000 lang [mkCueItvl (s * 1000) (s * 1000 + d) s] region =
    Ret (fullSample (s * 1000) (s * 1000 + d) payload ::
         if d <? 1000 then [fullSample (s * 1000 + d) (s * 1000 + 1000) vtte] else []).
Proof.
  intros Hs Hm Hd Hp. unfold wvtt_samples. cbn [wvtt_cues utcS startMS endMS]. rewrite Hp. cbn [obind].
  rewrite (i64_small (s * 1000)), (u64_small (s * 1000 + d)), !i64_small by (rewrite ?i64_small; lia).
  rewrite Z.ltb_irrefl. cbn [app]. do 2 f_equal.
  destruct (Z.ltb_spec d 1000); [rewrite (proj2 (Z.ltb_lt _ _))|rewrite (proj2 (Z.ltb_ge _ _))]; (done || lia).
Qed.
End Subtitle.

#[export] Instance SubConcrete : @SubLib Mp4Concrete := {|
  SyncSampleFlags := 2 ^ 25;
  EncodeVttc _ text := Ret [Z.of_nat (String.length text)];
  ExecuteTemplate d := Ret [len (sdCues d)]
|}.

Definition NewSubs (cueDur : Z) : SubtitleTrack :=
  mkSubtitleTrack "subs" SubtitleFormatWVTT "en" 1000 cueDur 0 None.

(** With cues of more than one second, [calcCueItvls] takes the number of a
    cue for a number of seconds: the cue of the segment ends before it
    starts. *)
Example long_cue_ends_before_start :
  calcCueItvls 1700000000000 1000 1700000000000 1500 =
    Ret (Some [mkCueItvl 1700000000000 850000001500 850000000]).
Proof. vm_compute. reflexivity. Qed.

(** A WVTT group lasts exactly its second: the cue with the date and
    number of the group starts with the group and lasts [CueDurMS], and an
    empty cue fills what is left, without gap or overlap. *)
Theorem wvtt_group_covers_second {M : Mp4Types} {NL : @NaluLib M} {CL : @CcLib M} {FL : @FragLib M} {SL : @SubLib M}
    (st : SubtitleTrack) (g : Z) (frag : Fragment) (payload : bytes) :
  stFormat st = SubtitleFormatWVTT -> 1 <= CueDurMS st <= 1000 -> 0 <= g -> g * 1000 + 1000 < 2 ^ 63 ->
  CreateFragment (u32 g) 1 = Ret frag ->
  makeWvttCuePayload (stLanguage st) (Region st) (g * 1000) (u32 g) = Ret payload ->
  exists ss,
    GenSubtitleGroup st g MoqGroupDurMS =
      (let! data := EncodeFragment (fold_left AddFullSample ss frag) in
       Ret (Some (mkMoQGroup (u32 g) (g * 1000) (g * 1000 + 1000) g (g + 1) [data]))) /\
    tiles (g * 1000) ss (g * 1000 + 1000) /\
    Data <$> ss = payload :: (if CueDurMS st <? 1000 then [vtte] else []) /\
    Dur <$> head ss = Some (CueDurMS st).
Proof.
  intros Hf Hd Hg Hm Hfrag Hp.
  eexists. split.
  - unfold GenSubtitleGroup, MoqGroupDurMS. rewrite Hf, (u64_small (g * 1000)) by lia.
    unfold createSubtitlesWvttMediaData. rewrite Hfrag. cbn [obind]. rewrite i64_small by lia.
    rewrite calcCueItvls_second by lia. cbn [obind].
    rewrite (wvtt_samples_second _ _ _ _ _ _ Hg Hm Hd Hp). cbn [obind].
    rewrite (u64_small (g * 1000 + 1000)), (u64_small (g + 1)) by lia.
    match goal with |- context [fold_left AddFullSample ?l frag] => instantiate (1 := l) end.
    by destruct (EncodeFragment _).
  - split; [|split].
    + apply fullSample_tile; [lia..|]. destruct (Z.ltb_spec (CueDurMS st) 1000); [|cbn; lia].
      apply fullSample_tile; [lia..|]. done.
    + by destruct (CueDurMS st <? 1000).
    + cbn. by rewrite u32_small by lia; f_equal; lia.
Qed.

Lemma wvtt_group_covers_second_witness :
  exists ss,
    GenSubtitleGroup (FL := FragConcrete) (NewSubs 900) 1700000000 MoqGroupDurMS =
      (let! data := EncodeFragment (fold_left AddFullSample ss []) in
       Ret (Some (mkMoQGroup 1700000000 1700000000000 1700000001000 1700000000 1700000001 [data]))) /\
    tiles 1700000000000 ss 1700000001000.
Proof.
  destruct (wvtt_group_covers_second (M := Mp4Concrete) (FL := FragConcrete) (NewSubs 900) 1700000000 ([] : list FullSample) [36]) as (ss & H & Ht & _);
    [reflexivity|cbn; lia|lia|lia|reflexivity|vm_compute; reflexivity|].
  exists ss. split; [exact H|exact Ht].
Defined.
