(* ===== verification/AssetOps.v ===== *)
(** * Assets: loading, protected tracks, lookups

    The functions of [internal/asset.go] that build an asset from the files of
    a directory and look up its tracks, and the constructor of
    [internal/subtitle.go].  A directory is the list of its entries in the
    order of [os.ReadDir], each file with the result of opening and decoding
    it; [tracksByType] is a map from content type to tracks. *)
From S2P Require Import Prelude GoFloat Media Timeline Nalu Av1 InitTrack Chunk.
Local Open Scope Z_scope.
Local Open Scope go_scope.

Class ProtLib `{M : Mp4Types} := {
  (** [cloneInitSegment] beyond its nil check: encode, then decode *)
  reencodeInit : InitSegment -> outcome InitSegment;
  NewUUIDFromString : string -> outcome bytes;
  (** [mp4.InitProtect] adds the protection boxes to the init segment it gets:
      IV, scheme and key ID to the changed segment and the protection data *)
  InitProtect : InitSegment -> bytes -> string -> bytes -> outcome (InitSegment * InitProtectData)
}.

Record DirEntry `{M : Mp4Types} `{AL : @Av1Lib M} := mkDirEntry {
  entryName : string; IsDir : bool; entryOpen : outcome unit; entryFile : outcome Mp4File
}.

Section AssetOps.
Context {M : Mp4Types} {NL : @NaluLib M} {AL : @Av1Lib M} {UL : @AudioLib M} {PL : @ProtLib M}.

(** ** Lookups *)
Definition GetTrackByName (a : Asset) (name : string) : option ContentTrack :=
  snd <$> list_find (fun t => Name t = name) (concat (Tracks <$> Groups a)).

Record LOCTrack := mkLOCTrack { locContentTrack : ContentTrack; SpatialLayer : option AV1SpatialLayer }.

Definition layer_name (ct : ContentTrack) (sid : Z) : string := Name ct +:+ "/s" +:+ pretty sid.

(** The match of one track: the track itself, or one of its spatial layers. *)
Definition loc_match (name : string) (ct : ContentTrack) : option LOCTrack :=
  if bool_decide (Name ct = name) then Some (mkLOCTrack ct None)
  else match SpecData ct with
  | Some (AV1 ad) =>
      match list_find (fun l => name = layer_name ct (layerSpatialID l)) (spatialLayers ad) with
      | Some (_, l) => Some (mkLOCTrack ct (Some l))
      | None => None
      end
  | _ => None
  end.

Fixpoint first_match {A B : Type} (f : A -> option B) (l : list A) : option B :=
  match l with
  | [] => None
  | x :: l => match f x with Some b => Some b | None => first_match f l end
  end.

Definition GetLOCTrackByName (a : Asset) (name : string) : option LOCTrack :=
  first_match (loc_match name) (concat (Tracks <$> Groups a)).

Definition GetSubtitleTrackByName (a : Asset) (name : string) : option SubtitleTrack :=
  snd <$> list_find (fun st => stName st = name) (SubtitleTracks a).

(** ** Captions and subtitles *)
Definition set_gen (gen : option Generator) (t : ContentTrack) : ContentTrack :=
  if bool_decide (ContentType t = "video"%string) then with_cc608 t gen else t.

Definition SetCC608Generator (a : Asset) (gen : option Generator) : Asset :=
  {| assetName := assetName a;
     Groups := (fun g => mkTrackGroup (AltGroupID g) (set_gen gen <$> Tracks g)) <$> Groups a;
     LoopDurMS := LoopDurMS a; SubtitleTracks := SubtitleTracks a; Drm := Drm a; Eccp := Eccp a |}.

Definition SubsTimeTimescale : Z := 1000.
Definition DefaultCueDurMS : Z := 900.

Definition NewSubtitleTrack (name : string) (format : SubtitleFormat) (lang : string) : SubtitleTrack :=
  {| stName := name; stFormat := format; stLanguage := lang; stTimeScale := SubsTimeTimescale;
     CueDurMS := DefaultCueDurMS; Region := 0; stSpecData := Some (format, lang) |}.

(** [NewSubtitleTrack] never returns an error, nor then does this. *)
Definition AddSubtitleTracks (a : Asset) (wvttLangs stppLangs : list string) : Asset :=
  {| assetName := assetName a; Groups := Groups a; LoopDurMS := LoopDurMS a;
     SubtitleTracks := (SubtitleTracks a
       ++ ((fun lang => NewSubtitleTrack ("subs_wvtt_" +:+ lang) SubtitleFormatWVTT lang) <$> wvttLangs))
       ++ ((fun lang => NewSubtitleTrack ("subs_stpp_" +:+ lang) SubtitleFormatSTPP lang) <$> stppLangs);
     Drm := Drm a; Eccp := Eccp a |}.

(** ** Protected tracks *)

(** The same codec data with another output init segment. *)
Definition set_outInit (sd : CodecSpecificData) (i : option InitSegment) : CodecSpecificData :=
  let audio (d : AudioData) := mkAudioData (aud_inInit d) i (aud_codec d) (sampleRate d) (channelConfig d) in
  match sd with
  | AVC d => AVC (mkAVCData (avc_inInit d) i (avc_Spss d) (avc_Ppss d) (avc_codec d) (avc_width d) (avc_height d))
  | HEVC d => HEVC (mkHEVCData (hevc_inInit d) i (hevc_Vpss d) (hevc_Spss d) (hevc_Ppss d) (hevc_codec d)
                      (hevc_width d) (hevc_height d))
  | AV1 d => AV1 (mkAV1Data (av1_inInit d) i (av1_codec d) (av1_width d) (av1_height d) (configOBUs d)
                    (locNeedsConfig d) (spatialLayers d))
  | AAC d => AAC (audio d)
  | Opus d => Opus (audio d)
  | AC3 d => AC3 (audio d)
  end.

Definition cloneInitSegment (i : option InitSegment) : outcome InitSegment :=
  match i with
  | None => errorf "init segment is nil"
  | Some i => reencodeInit i
  end.

(** The method [Clone] of every codec. *)
Definition Clone (sd : CodecSpecificData) : outcome CodecSpecificData :=
  let! i := cloneInitSegment (GetInit sd) in Ret (set_outInit sd (Some i)).

Definition cloneCodecSpecificData (sd : option CodecSpecificData) : outcome CodecSpecificData :=
  match sd with
  | None => errorf "codec specific data is nil"
  | Some sd => owrap "failed to clone %s codec  %w" [Codec sd] (Clone sd)
  end.

Definition addProtectionInfoToTrack (ct : ContentTrack) (drm : DRMInfo) (suffix : string) (prot : ProtectionType)
  : outcome ContentTrack :=
  let! sd := cloneCodecSpecificData (SpecData ct) in
  let! cp := index (ContentProtections drm) 0 in
  let! kidStr := index (DefaultKIDs cp) 0 in
  let! kid := owrap "unable to parse UUID from string: %w" [] (NewUUIDFromString kidStr) in
  match GetInit sd with
  | None => Panic
  | Some init =>
      let! '(init, ipd) := owrap "unable to add protection data to cloned init for track %s: %w" [Name ct]
        (InitProtect init (cencIV (drmCenc drm)) (Scheme cp) kid) in
      Ret {| Name := Name ct +:+ suffix; ContentType := ContentType ct; Language := Language ct;
             SampleBitrate := SampleBitrate ct; TimeScale := TimeScale ct; Duration := Duration ct;
             GopLength := GopLength ct; SampleDur := SampleDur ct; NrSamples := NrSamples ct;
             LoopDur := LoopDur ct; SampleBatch := SampleBatch ct; Samples := Samples ct;
             SpecData := Some (set_outInit sd (Some init)); Protection := prot;
             contentProtectionRefIDs := RefID <$> ContentProtections drm;
             cenc := Some (drmCenc drm); ipd := Some ipd;
             currentIV := copyBytes (cencIV (drmCenc drm)); cc608 := cc608 ct |}
  end.

Abbreviation TracksByType := (gmap string (list ContentTrack)).

(** The protected copies of the clear tracks of a list. *)
Fixpoint protectedCopies (orig : list ContentTrack) (drm : DRMInfo) (suffix : string) (prot : ProtectionType)
  : outcome (list ContentTrack) :=
  match orig with
  | [] => Ret []
  | ct :: orig =>
      if negb (bool_decide (Protection ct = ProtectionNone)) then protectedCopies orig drm suffix prot
      else
        let! p := addProtectionInfoToTrack ct drm suffix prot in
        let! rest := protectedCopies orig drm suffix prot in
        Ret (p :: rest)
  end.

Definition protectType (m : TracksByType) (typ : string) (drm : DRMInfo) (suffix : string) (prot : ProtectionType)
  : outcome TracksByType :=
  match m !! typ with
  | None | Some [] => Ret m
  | Some orig =>
      let! added := protectedCopies orig drm suffix prot in
      Ret (<[typ := orig ++ added]> m)
  end.

Definition createProtectedTracks (m : TracksByType) (drm : DRMInfo) (suffix : string) (prot : ProtectionType)
  : outcome TracksByType :=
  let! m := protectType m "video" drm suffix prot in
  protectType m "audio" drm suffix prot.

(** ** Track groups *)
Definition codec_of (t : ContentTrack) : string := match SpecData t with Some d => Codec d | None => EmptyString end.

Definition video_less (x y : ContentTrack) : bool :=
  if negb (bool_decide (codec_of x = codec_of y)) then String.ltb (codec_of x) (codec_of y)
  else SampleBitrate x <? SampleBitrate y.
Definition audio_less (x y : ContentTrack) : bool := SampleBitrate x <? SampleBitrate y.

(** [sort.Slice] leaves the order of equal tracks open; the model keeps it. *)
Definition video_le (x y : ContentTrack) : Prop := video_less y x = false.
Definition audio_le (x y : ContentTrack) : Prop := audio_less y x = false.
#[export] Instance video_le_dec : RelDecision video_le.
Proof. intros x y. unfold video_le. apply _. Defined.
#[export] Instance audio_le_dec : RelDecision audio_le.
Proof. intros x y. unfold audio_le. apply _. Defined.

Definition no_spec (t : ContentTrack) : bool := match SpecData t with None => true | Some _ => false end.

(** Comparing two tracks reads their codec: a nil one panics. *)
Definition sortVideo (ts : list ContentTrack) : outcome (list ContentTrack) :=
  if (1 <? len ts) && existsb no_spec ts then Panic else Ret (merge_sort video_le ts).

Definition generateTrackGroups (m : TracksByType) : outcome (list TrackGroup) :=
  let! '(groups, groupID) :=
    match m !! "video"%string with
    | None => Ret ([], 1)
    | Some videoTracks =>
        let! videoTracks := sortVideo videoTracks in
        match videoTracks with
        | [] => Ret ([mkTrackGroup 1 []], 2)
        | v0 :: _ =>
            if existsb (fun t => negb (Duration t =? Duration v0)) videoTracks then
              errorf "video tracks have different durations"
            else Ret ([mkTrackGroup 1 videoTracks], 2)
        end
    end in
  match m !! "audio"%string with
  | None => Ret groups
  | Some audioTracks => Ret (groups ++ [mkTrackGroup groupID (merge_sort audio_le audioTracks)])
  end.

(** ** Loading *)
Fixpoint parseTracks_loop (dirPath : string) (entries : list DirEntry) (audioBatch videoBatch : Z) (m : TracksByType)
  : outcome TracksByType :=
  match entries with
  | [] => Ret m
  | e :: entries =>
      if IsDir e || negb (bool_decide (Ext (entryName e) = ".mp4"%string)) then
        parseTracks_loop dirPath entries audioBatch videoBatch m
      else
        let filePath := dirPath +:+ "/" +:+ entryName e in
        let! _ := owrap "could not open file %s: %w" [filePath] (entryOpen e) in
        let! ct := owrap "could not create ContentTrack for %s: %w" [filePath]
                     (InitContentTrack (entryFile e) (entryName e) audioBatch videoBatch) in
        parseTracks_loop dirPath entries audioBatch videoBatch
          (<[ContentType ct := default [] (m !! ContentType ct) ++ [ct]]> m)
  end.

Definition parseTracks (dirPath : string) (entries : outcome (list DirEntry)) (audioBatch videoBatch : Z)
  : outcome TracksByType :=
  let! entries := owrap "could not read directory: %w" [] entries in
  parseTracks_loop dirPath entries audioBatch videoBatch ∅.

Definition protectWith (prot : ProtectionType) (suffix msg : string) (drm : option DRMInfo) (m : TracksByType)
  : outcome TracksByType :=
  match drm with
  | None => Ret m
  | Some drm => owrap msg [] (createProtectedTracks m drm suffix prot)
  end.

(** [base] is [filepath.Base(dirPath)]. *)
Definition LoadAssetWithProtection (dirPath base : string) (entries : outcome (list DirEntry))
    (audioBatch videoBatch : Z) (drm eccp : option DRMInfo) : outcome Asset :=
  let! m := owrap "failed to parse tracks: %w" [] (parseTracks dirPath entries audioBatch videoBatch) in
  let! m := protectWith ProtectionDRM "_drm" "failed to create DRM protected tracks: %w" drm m in
  let! m := protectWith ProtectionECCP "_eccp" "failed to create ECCP protected tracks: %w" eccp m in
  let! trackGroups := owrap "failed to generate track groups: %w" [] (generateTrackGroups m) in
  let asset := {| assetName := base; Groups := trackGroups; LoopDurMS := 0; SubtitleTracks := []; Drm := drm; Eccp := eccp |} in
  owrap "could not set loop duration: %w" [] (setLoopDuration asset).

Definition LoadAssetWithDRM (dirPath base : string) (entries : outcome (list DirEntry)) (audioBatch videoBatch : Z)
    (drm : option DRMInfo) : outcome Asset :=
  LoadAssetWithProtection dirPath base entries audioBatch videoBatch drm None.

Definition LoadAsset (dirPath base : string) (entries : outcome (list DirEntry)) (audioBatch videoBatch : Z) : outcome Asset :=
  LoadAssetWithProtection dirPath base entries audioBatch videoBatch None None.
End AssetOps.

#[export] Instance ProtConcrete : @ProtLib Mp4Concrete := {|
  reencodeInit i := Ret i; NewUUIDFromString s := if (String.length s =? 0)%nat then errorf "bad uuid" else Ret [1];
  InitProtect i iv scheme kid := Ret (i ++ kid, tt)
|}.
