(* ===== verification/AssetProps.v ===== *)
(** * The keys of the tracks of an asset

    Loading an asset makes protected copies of its tracks.  All copies of one
    kind hold the same key and the same initialisation vector. *)
From S2P Require Import Prelude GoFloat Media Timeline Nalu Av1 InitTrack Chunk AssetOps.
Local Open Scope Z_scope.
Local Open Scope go_scope.

Section AssetProps.
Context {M : Mp4Types} {NL : @NaluLib M} {AL : @Av1Lib M} {UL : @AudioLib M} {PL : @ProtLib M}.

(** A track with the key of some DRM configuration, that has not encrypted
    anything yet *)
Definition holds_key (d : DRMInfo) (t : ContentTrack) : Prop :=
  cenc t = Some (drmCenc d) /\ currentIV t = copyBytes (cencIV (drmCenc d)) /\ contentProtectionRefIDs t <> [].

Definition keyed (drm eccp : option DRMInfo) (t : ContentTrack) : Prop :=
  match Protection t with
  | ProtectionNone => True
  | ProtectionDRM => exists d, drm = Some d /\ holds_key d t
  | ProtectionECCP => exists d, eccp = Some d /\ holds_key d t
  end.

Lemma InitContentTrack_unprotected decoded name ab vb ct : InitContentTrack decoded name ab vb = Ret ct -> Protection ct = ProtectionNone.
Proof.
  unfold InitContentTrack. intros H. apply obind_Ret in H as (m & _ & H). destruct (negb (IsFragmented m)); [done|].
  destruct (negb (nrTraks m =? 1)); [done|]. apply obind_Ret in H as (ty & _ & H). apply obind_Ret in H as ([c b] & _ & H).
  do 4 (apply obind_Ret in H as (? & _ & H)). apply obind_Ret in H as ([sd ss] & _ & H). by apply obind_Ret in H as (? & _ & [= <-]).
Qed.

Lemma addProtection_key ct d suffix prot p : addProtectionInfoToTrack ct d suffix prot = Ret p -> holds_key d p /\ Protection p = prot.
Proof.
  unfold addProtectionInfoToTrack. intros H. apply obind_Ret in H as (sd & _ & H). apply obind_Ret in H as (cp & Hcp & H).
  apply obind_Ret in H as (kid & _ & H). apply obind_Ret in H as (k & _ & H). destruct (GetInit sd); [|done].
  apply obind_Ret in H as ([i' pd] & _ & [= <-]). split; [|done]. split; [done|]. split; [done|]. cbn. by destruct (ContentProtections d).
Qed.

Abbreviation all_tracks P m := (map_Forall (fun (_ : string) (ts : list ContentTrack) => Forall P ts) m).

Lemma all_tracks_insert (P : ContentTrack -> Prop) (m : gmap string (list ContentTrack)) k ts : all_tracks P m -> Forall P ts -> all_tracks P (<[k:=ts]> m).
Proof. intros Hm Hts. by apply map_Forall_insert_2. Qed.

Lemma all_tracks_get (P : ContentTrack -> Prop) (m : gmap string (list ContentTrack)) k : all_tracks P m -> Forall P (default [] (m !! k)).
Proof. intros Hm. destruct (m !! k) eqn:E; [by apply (Hm k)|constructor]. Qed.

Lemma parseTracks_unprotected dir entries ab vb : forall m m', all_tracks (fun t => Protection t = ProtectionNone) m ->
  parseTracks_loop dir entries ab vb m = Ret m' -> all_tracks (fun t => Protection t = ProtectionNone) m'.
Proof.
  induction entries as [|e entries IH]; intros m m' Hm H; cbn [parseTracks_loop] in H; [by injection H as <-|].
  destruct (_ || _); [by apply (IH m)|]. apply obind_Ret in H as (? & _ & H). apply obind_Ret in H as (ct & Hct%owrap_Ret & H).
  apply (IH _ _) in H; [done|]. apply all_tracks_insert; [done|]. apply Forall_app. split; [by apply all_tracks_get|].
  constructor; [|constructor]. by eapply InitContentTrack_unprotected.
Qed.

Lemma protectedCopies_keyed orig d suffix prot l : protectedCopies orig d suffix prot = Ret l ->
  Forall (fun p => holds_key d p /\ Protection p = prot) l.
Proof.
  revert l. induction orig as [|ct orig IH]; intros l H; cbn [protectedCopies] in H; [injection H as <-; constructor|].
  destruct (negb _); [auto|]. apply obind_Ret in H as (p & Hp & H). apply obind_Ret in H as (rest & Hr & [= <-]).
  constructor; [by eapply addProtection_key|auto].
Qed.

Lemma protectType_keyed (P : ContentTrack -> Prop) m typ d suffix prot m' :
  (forall p, holds_key d p -> Protection p = prot -> P p) -> all_tracks P m -> protectType m typ d suffix prot = Ret m' -> all_tracks P m'.
Proof.
  intros Hp Hm. unfold protectType. destruct (m !! typ) as [[|t ts]|] eqn:E; [by intros [= <-]| |by intros [= <-]].
  intros H. apply obind_Ret in H as (added & Ha & [= <-]). apply all_tracks_insert; [done|]. change (Forall P ((t :: ts) ++ added)). apply Forall_app. split; [by apply (Hm typ)|].
  eapply Forall_impl; [by eapply protectedCopies_keyed|]. cbn. intros p [? ?]. auto.
Qed.

Lemma createProtected_keyed (P : ContentTrack -> Prop) m d suffix prot m' :
  (forall p, holds_key d p -> Protection p = prot -> P p) -> all_tracks P m -> createProtectedTracks m d suffix prot = Ret m' -> all_tracks P m'.
Proof.
  intros Hp Hm H. apply obind_Ret in H as (m1 & H1 & H2). eapply protectType_keyed; [done| |exact H2]. by eapply protectType_keyed.
Qed.

Lemma protectWith_keyed drm eccp prot suffix msg d m m' :
  (forall d' p, d = Some d' -> holds_key d' p -> Protection p = prot -> keyed drm eccp p) ->
  all_tracks (keyed drm eccp) m -> protectWith prot suffix msg d m = Ret m' -> all_tracks (keyed drm eccp) m'.
Proof.
  intros Hp Hm. destruct d as [d|]; cbn [protectWith]; [|by intros [= <-]]. intros H%owrap_Ret. eapply createProtected_keyed; [|done|exact H]. eauto.
Qed.

(** The groups hold the tracks of the map. *)
Lemma generateTrackGroups_tracks (P : ContentTrack -> Prop) m groups : all_tracks P m -> generateTrackGroups m = Ret groups ->
  Forall (fun g => Forall P (Tracks g)) groups.
Proof.
  intros Hm H. unfold generateTrackGroups in H. apply obind_Ret in H as ([groups1 id] & H1 & H).
  assert (Hg1 : Forall (fun g => Forall P (Tracks g)) groups1).
  { destruct (m !! "video"%string) as [vs|] eqn:E; [|injection H1 as <- _; constructor]. apply obind_Ret in H1 as (sorted & Hs & H1).
    assert (Hsorted : Forall P sorted).
    { unfold sortVideo in Hs. destruct (_ && _); [done|]. injection Hs as <-. rewrite merge_sort_Permutation. by apply (Hm "video"%string). }
    destruct sorted as [|v vs']; [injection H1 as <- _; repeat constructor|]. destruct (existsb _ _); [done|]. injection H1 as <- _. constructor; [done|constructor]. }
  destruct (m !! "audio"%string) as [az|] eqn:E; [|by injection H as <-]. injection H as <-. apply Forall_app. split; [done|].
  constructor; [|constructor]. cbn. rewrite merge_sort_Permutation. by apply (Hm "audio"%string).
Qed.

Lemma keyed_same drm eccp t t' : Protection t' = Protection t -> cenc t' = cenc t -> currentIV t' = currentIV t ->
  contentProtectionRefIDs t' = contentProtectionRefIDs t -> keyed drm eccp t -> keyed drm eccp t'.
Proof. unfold keyed, holds_key. by intros -> -> -> ->. Qed.

(** Every track of a loaded asset, with captions or without, holds the key of
    its kind. *)
Lemma loaded_keyed dir base entries ab vb drm eccp a gen name t :
  LoadAssetWithProtection dir base entries ab vb drm eccp = Ret a -> GetTrackByName (SetCC608Generator a gen) name = Some t ->
  keyed drm eccp t.
Proof.
  intros H Hn. apply obind_Ret in H as (m & H%owrap_Ret & H'). apply obind_Ret in H as (es & _ & Hm). apply obind_Ret in H' as (m1 & H1 & H').
  apply obind_Ret in H' as (m2 & H2 & H'). apply obind_Ret in H' as (groups & Hg%owrap_Ret & Hset%owrap_Ret).
  assert (K0 : all_tracks (keyed drm eccp) m).
  { apply parseTracks_unprotected in Hm; [|apply map_Forall_empty]. eapply map_Forall_impl; [exact Hm|]. cbn. intros _ ts Hts.
    eapply Forall_impl; [exact Hts|]. cbn. intros x Hx. unfold keyed. by rewrite Hx. }
  assert (K1 : all_tracks (keyed drm eccp) m1).
  { eapply protectWith_keyed; [|exact K0|exact H1]. intros d p -> Hk E. unfold keyed. rewrite E. by exists d. }
  assert (K2 : all_tracks (keyed drm eccp) m2).
  { eapply protectWith_keyed; [|exact K1|exact H2]. intros d p -> Hk E. unfold keyed. rewrite E. by exists d. }
  pose proof (generateTrackGroups_tracks _ _ _ K2 Hg) as Kg. unfold GetTrackByName in Hn.
  destruct (list_find _ _) as [[i t0]|] eqn:Hf; [|done]. injection Hn as <-. apply list_find_Some in Hf as (Hi & _ & _).
  apply list_elem_of_lookup_2 in Hi. cbn [SetCC608Generator Groups] in Hi. rewrite <- list_fmap_compose in Hi.
  apply list_elem_of_In, in_concat in Hi as (ts & Hts%list_elem_of_In & Ht%list_elem_of_In). apply list_elem_of_fmap in Hts as (g & -> & Hga).
  cbn in Ht. apply list_elem_of_fmap in Ht as (t1 & -> & Ht1).
  destruct (setLoopDuration_tracks _ _ g t1 Hset Hga Ht1) as (g0 & t2 & Hg0 & Ht2 & L & -> & _). cbn [Groups] in Hg0.
  rewrite Forall_forall in Kg. specialize (Kg g0 Hg0). rewrite Forall_forall in Kg. specialize (Kg t2 Ht2).
  unfold set_gen. destruct (bool_decide _); by apply (keyed_same _ _ t2).
Qed.
End AssetProps.
