(* ===== verification/CatalogGen.v ===== *)
(** * Generating the catalogs

    [GenCMAFCatalogEntry], [GenLOCCatalogEntry], [genLOCSVCTracks] and the LOC
    bitrates of [internal/asset.go].  The encoding of init segments belongs to
    mp4ff (class [CatLib]); base64 is the standard encoding of RFC 4648. *)
From S2P Require Import Prelude Base64 GoFloat Media Timeline Catalog Nalu Av1 Cc608 Chunk AssetOps.
Local Open Scope Z_scope.
Local Open Scope go_scope.

Class CatLib `{M : Mp4Types} := {
  (** [EncodeSW] of an init segment *)
  encodeInit : InitSegment -> outcome bytes;
  (** the init segments of wvtt and stpp tracks in a language *)
  wvttInit : string -> Z -> InitSegment;
  stppInit : string -> Z -> InitSegment;
  locmafVersion : string
}.

Definition LocmafTrackSuffix : string := "_locmaf".
Definition locObjectOverheadBytes : Z := cmafObjectOverheadBytes + 9.
Definition locFrameMarkingOverheadBytes : Z := 5.
Definition cta608CC1Eng : list Accessibility := [mkAccessibility "urn:scte:dash:cc:cea-608:2015" "CC1=eng"].

Section CatalogGen.
Context {M : Mp4Types} {NL : @NaluLib M} {AL : @Av1Lib M} {CL : @CcLib M} {FL : @FragLib M} {KL : @CatLib M}.

(** ** Init data *)

(** The method [GenCMAFInitData] of every codec. *)
Definition GenCMAFInitData (sd : CodecSpecificData) : outcome bytes :=
  match GetInit sd with None => Panic | Some i => encodeInit i end.

(** The methods of [SubtitleData], a format and a language. *)
Definition subtitle_GenCMAFInitData (d : SubtitleFormat * string) : outcome bytes :=
  match d.1 with
  | SubtitleFormatWVTT => owrap "failed to encode init segment: %w" [] (encodeInit (wvttInit d.2 SubsTimeTimescale))
  | SubtitleFormatSTPP => owrap "failed to encode init segment: %w" [] (encodeInit (stppInit d.2 SubsTimeTimescale))
  | SubtitleFormatOther s => Err (Errorf "unknown subtitle format: %s" [s])
  end.

Definition subtitle_Codec (d : SubtitleFormat * string) : string :=
  match d.1 with
  | SubtitleFormatWVTT => "wvtt"
  | SubtitleFormatSTPP => "stpp.ttml.im1t"
  | SubtitleFormatOther s => s
  end.

(** ** LOC bitrates *)
Definition calcLOCBitrate (ct : ContentTrack) : Z :=
  if (SampleDur ct =? 0) || (TimeScale ct =? 0) then SampleBitrate ct
  else
    let rate := objectRate ct in
    let extra := fmul (f64 locObjectOverheadBytes) rate in
    let psBytes := match SpecData ct with
      | Some (AVC d) => len (avc_GenLOCVideoConfig d)
      | Some (HEVC d) => len (hevc_GenLOCVideoConfig d)
      | Some (AV1 d) => len (av1_GenLOCVideoConfig d)
      | _ => 0
      end in
    let extra := if (0 <? GopLength ct) && (0 <? psBytes)
                 then fadd extra (fmul (f64 psBytes) (fdiv rate (f64 (GopLength ct)))) else extra in
    int_of_f64 (fadd (f64 (SampleBitrate ct)) (fmul (f64 8) extra)).

(** The configuration bytes prepended to the sync samples of the base layer. *)
Fixpoint config_bytes (ad : AV1Data) (layer : AV1SpatialLayer) (i : Z) (samples : list FullSample) (total : Z)
  : outcome Z :=
  match samples with
  | [] => Ret total
  | s :: samples =>
      if IsSync s then
        let! x := index (layerSamples layer) i in
        config_bytes ad layer (i + 1) samples (i64 (total + len (GenLOCVideoConfigForSample ad x)))
      else config_bytes ad layer (i + 1) samples total
  end.

Definition calcAV1SpatialLOCBitrate (ct : ContentTrack) (ad : AV1Data) (layer : AV1SpatialLayer) : outcome Z :=
  if (Duration ct =? 0) || (TimeScale ct =? 0) || (SampleDur ct =? 0) then Ret 0
  else
    let durationSeconds := fdiv (f64 (Duration ct)) (f64 (TimeScale ct)) in
    let rawBitrate := fdiv (fmul (f64 8) (f64 (totalSize layer))) durationSeconds in
    let extra := fmul (f64 (locObjectOverheadBytes + locFrameMarkingOverheadBytes)) (objectRate ct) in
    let! extra :=
      if layerSpatialID layer =? 0 then
        let! configBytes := config_bytes ad layer 0 (Samples ct) 0 in
        Ret (if 0 <? configBytes then fadd extra (fdiv (f64 configBytes) durationSeconds) else extra)
      else Ret extra in
    Ret (int_of_f64 (fadd rawBitrate (fmul (f64 8) extra))).

(** ** Fields shared by the entries *)
Definition nonzero (z : Z) : option Z := if z =? 0 then None else Some z.

(** Width and height of a video track; sample rate and channels of an audio one. *)
Definition video_size (sd : option CodecSpecificData) : option Z * option Z :=
  match sd with
  | Some (AVC d) => (nonzero (avc_width d), nonzero (avc_height d))
  | Some (HEVC d) => (nonzero (hevc_width d), nonzero (hevc_height d))
  | Some (AV1 d) => (nonzero (av1_width d), nonzero (av1_height d))
  | _ => (None, None)
  end.
Definition audio_format (sd : option CodecSpecificData) : option Z * string :=
  match sd with
  | Some (AAC d) | Some (Opus d) | Some (AC3 d) => (nonzero (sampleRate d), channelConfig d)
  | _ => (None, EmptyString)
  end.

(** Captions are advertised when a generator is enabled and the codec carries them. *)
Definition accessibility (ct : ContentTrack) (codec : string) : list Accessibility :=
  match CodecFor codec with
  | Some _ => if Enabled (cc608 ct) then cta608CC1Eng else []
  | None => []
  end.

Definition is_type (ct : ContentTrack) (typ : string) : bool := bool_decide (ContentType ct = typ).

(** The role, rate, size and caption fields that both catalogs fill in. *)
Definition media_fields (ct : ContentTrack) (codec : string) (audio : option Z * string) (t : Track) : Track :=
  if is_type ct "video" then
    {| trName := trName t; trNamespace := trNamespace t; Packaging := Packaging t; LocmafVersion := LocmafVersion t;
       IsLive := IsLive t; TargetLatency := TargetLatency t; Role := "video"; Label := Label t;
       RenderGroup := RenderGroup t; AltGroup := AltGroup t; InitRef := InitRef t; Dependencies := Dependencies t;
       Catalog.TemporalID := Catalog.TemporalID t; Catalog.SpatialID := Catalog.SpatialID t; trCodec := trCodec t;
       Framerate := Some (objectRate ct); Timescale := Timescale t; Bitrate := Bitrate t;
       Width := (video_size (SpecData ct)).1; Height := (video_size (SpecData ct)).2;
       SampleRate := SampleRate t; ChannelConfig := ChannelConfig t; DisplayWidth := DisplayWidth t;
       DisplayHeight := DisplayHeight t; trLanguage := trLanguage t; TrackDuration := TrackDuration t;
       EventType := EventType t; ParentName := ParentName t;
       trContentProtectionRefIDs := trContentProtectionRefIDs t; trAccessibility := accessibility ct codec |}
  else if is_type ct "audio" then
    {| trName := trName t; trNamespace := trNamespace t; Packaging := Packaging t; LocmafVersion := LocmafVersion t;
       IsLive := IsLive t; TargetLatency := TargetLatency t; Role := "audio"; Label := Label t;
       RenderGroup := RenderGroup t; AltGroup := AltGroup t; InitRef := InitRef t; Dependencies := Dependencies t;
       Catalog.TemporalID := Catalog.TemporalID t; Catalog.SpatialID := Catalog.SpatialID t; trCodec := trCodec t;
       Framerate := Framerate t; Timescale := Timescale t; Bitrate := Bitrate t; Width := Width t; Height := Height t;
       SampleRate := audio.1; ChannelConfig := audio.2; DisplayWidth := DisplayWidth t;
       DisplayHeight := DisplayHeight t; trLanguage := trLanguage t; TrackDuration := TrackDuration t;
       EventType := EventType t; ParentName := ParentName t;
       trContentProtectionRefIDs := trContentProtectionRefIDs t; trAccessibility := trAccessibility t |}
  else t.

(** A track entry with the given identification, and nothing else. *)
Definition track_entry (name namespace packaging version role initRef codec language : string)
    (renderGroup altGroup timescale bitrate : option Z) (refIDs : list string) : Track :=
  {| trName := name; trNamespace := namespace; Packaging := packaging; LocmafVersion := version;
     IsLive := true; TargetLatency := None; Role := role; Label := ""; RenderGroup := renderGroup;
     AltGroup := altGroup; InitRef := initRef; Dependencies := []; Catalog.TemporalID := None;
     Catalog.SpatialID := None; trCodec := codec; Framerate := None; Timescale := timescale;
     Bitrate := bitrate; Width := None; Height := None; SampleRate := None; ChannelConfig := "";
     DisplayWidth := None; DisplayHeight := None; trLanguage := language; TrackDuration := None;
     EventType := ""; ParentName := ""; trContentProtectionRefIDs := refIDs; trAccessibility := [] |}.

(** ** The CMAF catalog *)

(** The two entries of one content track and its init data. *)
Definition cmaf_entries (namespace : string) (altGroup : Z) (ct : ContentTrack) : outcome (list Track * list InitData) :=
  let! '(initRef, initData) :=
    match SpecData ct with
    | None => Ret (EmptyString, [])
    | Some sd =>
        let! data := owrap "could not generate init data for track %s: %w" [Name ct] (GenCMAFInitData sd) in
        let initRef := "init-" +:+ Name ct in
        Ret (initRef, [mkInitData initRef "inline" (EncodeToString data)])
    end in
  let! '(cmafBitrate, ct) := owrap "could not calculate CMAF bitrate for track %s: %w" [Name ct] (calcCmafBitrate ct) in
  let! '(locmafBitrate, ct) := owrap "could not calculate LOCMAF bitrate for track %s: %w" [Name ct] (calcLocmafBitrate ct) in
  let! codec := SpecCodec (SpecData ct) in
  let entry name packaging version bitrate :=
    media_fields ct codec (audio_format (SpecData ct))
      (track_entry name namespace packaging version "" initRef codec (Language ct) (Some 1) (Some altGroup)
         (Some (TimeScale ct)) (Some bitrate) (contentProtectionRefIDs ct)) in
  Ret ([entry (Name ct) "cmaf"%string EmptyString cmafBitrate;
        entry (Name ct +:+ LocmafTrackSuffix) "locmaf"%string locmafVersion locmafBitrate], initData).

Fixpoint cmaf_tracks (namespace : string) (prot : ProtectionType) (altGroup : Z) (cts : list ContentTrack)
  : outcome (list Track * list InitData) :=
  match cts with
  | [] => Ret ([], [])
  | ct :: cts =>
      if negb (bool_decide (Protection ct = prot)) then cmaf_tracks namespace prot altGroup cts
      else
        let! '(ts, ids) := cmaf_entries namespace altGroup ct in
        let! '(ts', ids') := cmaf_tracks namespace prot altGroup cts in
        Ret (ts ++ ts', ids ++ ids')
  end.

Fixpoint cmaf_groups (namespace : string) (prot : ProtectionType) (groups : list TrackGroup)
  : outcome (list Track * list InitData) :=
  match groups with
  | [] => Ret ([], [])
  | g :: groups =>
      let! '(ts, ids) := cmaf_tracks namespace prot (AltGroupID g) (Tracks g) in
      let! '(ts', ids') := cmaf_groups namespace prot groups in
      Ret (ts ++ ts', ids ++ ids')
  end.

Fixpoint subtitle_tracks (namespace : string) (nGroups : Z) (sts : list SubtitleTrack)
  : outcome (list Track * list InitData) :=
  match sts with
  | [] => Ret ([], [])
  | st :: sts =>
      match stSpecData st with
      | None => Panic
      | Some sd =>
          let! data := owrap "could not generate init data for subtitle track %s: %w" [stName st] (subtitle_GenCMAFInitData sd) in
          let initRef := "init-" +:+ stName st in
          let altGroup := if bool_decide (stFormat st = SubtitleFormatSTPP) then nGroups + 2 else nGroups + 1 in
          let t := track_entry (stName st) namespace "cmaf" "" "subtitle" initRef (subtitle_Codec sd) (stLanguage st)
                     (Some 1) (Some altGroup) (Some (stTimeScale st)) None [] in
          let! '(ts, ids) := subtitle_tracks namespace nGroups sts in
          Ret (t :: ts, mkInitData initRef "inline" (EncodeToString data) :: ids)
      end
  end.

Definition GenCMAFCatalogEntry (a : Asset) (namespace : string) (prot : ProtectionType) (generatedAtMS : Z) : outcome Catalog :=
  let! '(ts, ids) := cmaf_groups namespace prot (Groups a) in
  let! '(sts, sids) := subtitle_tracks namespace (len (Groups a)) (SubtitleTracks a) in
  Ret {| Version := "draft-01"; GeneratedAt := Some generatedAtMS; IsComplete := false; DeltaUpdate := [];
         catTracks := ts ++ sts; InitDataList := ids ++ sids;
         catContentProtections :=
           match prot with
           | ProtectionDRM => match Drm a with Some d => ContentProtections d | None => [] end
           | ProtectionECCP => match Eccp a with Some d => ContentProtections d | None => [] end
           | ProtectionNone => []
           end |}.

(** ** The LOC catalog *)
Definition svc_track_entry (ct : ContentTrack) (ad : AV1Data) (i : nat) (layer : AV1SpatialLayer) (bitrate : Z) : Track :=
  {| trName := layer_name ct (layerSpatialID layer); trNamespace := ""; Packaging := "loc"; LocmafVersion := "";
     IsLive := true; TargetLatency := None; Role := "video"; Label := ""; RenderGroup := Some 1; AltGroup := None;
     InitRef := "";
     Dependencies := if (0 <? i)%nat then [layer_name ct (u8 (layerSpatialID layer - 1))] else [];
     Catalog.TemporalID := None; Catalog.SpatialID := Some (layerSpatialID layer); trCodec := av1_codec ad;
     Framerate := Some (objectRate ct); Timescale := None; Bitrate := Some bitrate;
     Width := Some (layerWidth layer); Height := Some (layerHeight layer); SampleRate := None; ChannelConfig := "";
     DisplayWidth := None; DisplayHeight := None; trLanguage := Language ct; TrackDuration := None;
     EventType := ""; ParentName := ""; trContentProtectionRefIDs := []; trAccessibility := [] |}.

(** The loop of [genLOCSVCTracks] from layer [i] on. *)
Fixpoint svc_tracks (ct : ContentTrack) (ad : AV1Data) (i : nat) (layers : list AV1SpatialLayer) : outcome (list Track) :=
  match layers with
  | [] => Ret []
  | layer :: layers =>
      let! bitrate := calcAV1SpatialLOCBitrate ct ad layer in
      let! rest := svc_tracks ct ad (S i) layers in
      Ret (svc_track_entry ct ad i layer bitrate :: rest)
  end.
Definition genLOCSVCTracks (ct : ContentTrack) (ad : AV1Data) : outcome (list Track) :=
  svc_tracks ct ad 0 (spatialLayers ad).

(** [codec[4:]] panics on a shorter string. *)
Definition from4 (s : string) : outcome string :=
  if (String.length s <? 4)%nat then Panic else Ret (String.substring 4 (String.length s - 4) s).

Definition loc_codec (sd : CodecSpecificData) : outcome string :=
  match sd with
  | AVC d => let! c := from4 (avc_codec d) in Ret ("avc3" +:+ c)
  | HEVC d => let! c := from4 (hevc_codec d) in Ret ("hev1" +:+ c)
  | Opus _ => Ret "opus"%string
  | sd => Ret (Codec sd)
  end.

Definition loc_entry (altGroup : Z) (ct : ContentTrack) (sd : CodecSpecificData) : outcome (list Track) :=
  let! codec := loc_codec sd in
  let audio := match sd with AAC d | Opus d => (nonzero (sampleRate d), channelConfig d) | _ => (None, EmptyString) end in
  Ret [media_fields ct (Codec sd) audio
         (track_entry (Name ct) "" "loc" "" "" "" codec (Language ct) (Some 1) (Some altGroup) None
            (Some (calcLOCBitrate ct)) [])].

Fixpoint loc_tracks (altGroup : Z) (cts : list ContentTrack) : outcome (list Track) :=
  match cts with
  | [] => Ret []
  | ct :: cts =>
      let! ts :=
        if negb (bool_decide (Protection ct = ProtectionNone)) then Ret []
        else match SpecData ct with
        | Some (AV1 ad) => if 0 <? len (spatialLayers ad) then genLOCSVCTracks ct ad else loc_entry altGroup ct (AV1 ad)
        | Some (AVC d) => loc_entry altGroup ct (AVC d)
        | Some (HEVC d) => loc_entry altGroup ct (HEVC d)
        | Some (AAC d) => loc_entry altGroup ct (AAC d)
        | Some (Opus d) => loc_entry altGroup ct (Opus d)
        | _ => Ret []
        end in
      let! rest := loc_tracks altGroup cts in
      Ret (ts ++ rest)
  end.

Fixpoint loc_groups (groups : list TrackGroup) : outcome (list Track) :=
  match groups with
  | [] => Ret []
  | g :: groups =>
      let! ts := loc_tracks (AltGroupID g) (Tracks g) in
      let! rest := loc_groups groups in
      Ret (ts ++ rest)
  end.

Definition GenLOCCatalogEntry (a : Asset) (generatedAtMS : Z) : outcome Catalog :=
  let! ts := loc_groups (Groups a) in
  Ret {| Version := "draft-01"; GeneratedAt := Some generatedAtMS; IsComplete := false; DeltaUpdate := [];
         catTracks := ts; InitDataList := []; catContentProtections := [] |}.
End CatalogGen.

#[export] Instance CatConcrete : @CatLib Mp4Concrete := {|
  encodeInit i := Ret i; wvttInit _ _ := [119]; stppInit _ _ := [115]; locmafVersion := "02"
|}.
