(* ===== verification/Drm.v ===== *)
(** * Content protection: DRM configuration and the ClearKey license server

    [internal/drm.go] and the [/clearkey] handler of the side server
    ([cmd/mlmpub/handler.go]).  The DRM configuration file is read by
    livesim2, so the value read is an argument; UUIDs, keys and the PSSH box
    belong to mp4ff and are the class [DrmLib]. *)
From S2P Require Import Prelude Base64 Media.
From Stdlib Require Import Ascii.
Local Open Scope Z_scope.
Local Open Scope go_scope.

Class DrmLib := {
  (** [mp4.UnpackKey], [mp4.NewUUIDFromString] and [UUID.String] *)
  UnpackKey : string -> outcome bytes;
  NewUUIDFromString : string -> outcome bytes;
  UUIDString : bytes -> string;
  (** [PsshBox.EncodeSW] into a writer of [Size()] bytes *)
  EncodePssh : bytes -> list bytes -> outcome bytes
}.

(** ** [encoding/hex] *)
Definition hex_digit (v : Z) : ascii := default Ascii.zero (String.get (Z.to_nat v) "0123456789abcdef").
Fixpoint hex_EncodeToString (b : bytes) : string :=
  match b with
  | [] => EmptyString
  | x :: b => String (hex_digit (x / 16)) (String (hex_digit (x mod 16)) (hex_EncodeToString b))
  end.

Definition hex_value (c : ascii) : option Z :=
  let n := Z.of_nat (nat_of_ascii c) in
  if (48 <=? n) && (n <=? 57) then Some (n - 48)
  else if (97 <=? n) && (n <=? 102) then Some (n - 87)
  else if (65 <=? n) && (n <=? 70) then Some (n - 55)
  else None.
Fixpoint hex_pairs (s : string) : option bytes :=
  match s with
  | EmptyString => Some []
  | String a (String b s) => x ← hex_value a; y ← hex_value b; rest ← hex_pairs s; Some (x * 16 + y :: rest)
  | String _ EmptyString => None
  end.
Definition hex_DecodeString (s : string) : outcome bytes :=
  match hex_pairs s with Some b => Ret b | None => errorf "encoding/hex: invalid string" end.

(** ** [strings.TrimSpace], of the white space of ASCII *)
Definition is_space (c : ascii) : bool :=
  let n := nat_of_ascii c in ((9 <=? n) && (n <=? 13) || (n =? 32))%nat.
Fixpoint trim_left (s : string) : string :=
  match s with String c s' => if is_space c then trim_left s' else s | EmptyString => EmptyString end.
Fixpoint trim_right (s : string) : string :=
  match s with
  | EmptyString => EmptyString
  | String c s =>
      match trim_right s with
      | EmptyString => if is_space c then EmptyString else String c EmptyString
      | s => String c s
      end
  end.
Definition TrimSpace (s : string) : string := trim_right (trim_left s).

(** ** The data of [drm.go] *)
#[export] Instance DRMService_eq_dec : EqDecision DRMService.
Proof. solve_decision. Defined.
#[export] Instance DRMSystem_eq_dec : EqDecision DRMSystem.
Proof. solve_decision. Defined.

Definition emptyDRMSystem : DRMSystem := mkDRMSystem "" "" None None None "".
Definition CommonSystemID : string := "1077efec-c0b2-4d02-ace3-3c1e52e2fb4b".
Definition drmSystemIDs : gmap string string :=
  {["widevine" := "edef8ba9-79d6-4ace-a3c8-27dcd51d21ed";
    "playready" := "9a04f079-9840-4286-ab92-e65be0885f95";
    "fairplay" := "94ce86fb-07ff-4f43-adb8-93d2fa968ca2"]}%string.

(** [drm.DrmConfig] as far as it is read.  The map of URLs is the list of its
    entries in the order in which the loop visits them. *)
Record drmURLs := mkURLs { cfgLaURL : string; CertificateURL : string }.
Record ContentKey := mkContentKey {
  CommonEncryptionScheme : string; KeyID : bytes; ckKey : bytes; ExplicitIV : bytes
}.
Record CPIXSystem := mkCPIXSystem { cpixSystemID : string; PSSH : string }.
Record DrmPackage := mkDrmPackage {
  ContentKeys : list ContentKey; DRMSystems : list CPIXSystem; URLs : list (string * drmURLs)
}.

Section Drm.
Context {DL : DrmLib}.

(** ** [ConfigureDRMFromFile] *)

(** The entry that the first loop makes of a URL. *)
Definition url_system (drmName : string) (URL : drmURLs) : outcome DRMSystem :=
  if bool_decide (drmName = "fairplay"%string) && bool_decide (CertificateURL URL = EmptyString) then
    errorf "certificate url must be configured for fairplay"
  else
    match drmSystemIDs !! drmName with
    | None => Err (Errorf "corresponding systemID for %s not found" [drmName])
    | Some sysID =>
        Ret (mkDRMSystem sysID "" (Some (mkDRMService (cfgLaURL URL) "")) None
               (Some (mkDRMService (CertificateURL URL) "")) "")
    end.

Fixpoint url_systems (urls : list (string * drmURLs)) (acc : list DRMSystem) : outcome (list DRMSystem) :=
  match urls with
  | [] => Ret acc
  | (drmName, URL) :: urls => let! s := url_system drmName URL in url_systems urls (acc ++ [s])
  end.

(** The last entry with the system ID, the zero value when there is none. *)
Definition find_system (sysID : string) (drmSystems : list DRMSystem) : DRMSystem :=
  fold_left (fun system catalogDS => if bool_decide (sysID = SystemID catalogDS) then catalogDS else system)
    drmSystems emptyDRMSystem.

Definition set_pssh (s : DRMSystem) (p : string) : DRMSystem :=
  mkDRMSystem (SystemID s) (Robustness s) (LaURL s) (AuthzURL s) (CertURL s) p.

Fixpoint protections (ck : ContentKey) (drmSystems : list DRMSystem) (refID : Z) (dss : list CPIXSystem)
  : outcome (list ContentProtection) :=
  match dss with
  | [] => Ret []
  | ds :: dss =>
      let system := find_system (cpixSystemID ds) drmSystems in
      if bool_decide (system = emptyDRMSystem) then
        Err (Errorf "couldn't find existing DRMSystem corresponding to systemID %s" [cpixSystemID ds])
      else
        let cp := mkContentProtection (pretty refID) [UUIDString (KeyID ck)] (CommonEncryptionScheme ck)
                    (Some (set_pssh system (TrimSpace (PSSH ds)))) in
        let! cps := protections ck drmSystems (refID + 1) dss in Ret (cp :: cps)
  end.

(** [ReadDrmConfig] gives the packages or an error. *)
Definition ConfigureDRMFromFile (config : outcome (list DrmPackage)) : outcome DRMInfo :=
  let! packages := owrap "error reading DRM config: %v" [] config in
  match packages with
  | [] => errorf "no packages found in DRM config"
  | pack :: _ =>
      let! contentKey := index (ContentKeys pack) 0 in
      let! drmSystems := url_systems (URLs pack) [] in
      let! cps := protections contentKey drmSystems 1 (DRMSystems pack) in
      Ret (mkDRMInfo cps (mkCENCInfo (ckKey contentKey) (ExplicitIV contentKey)))
  end.

(** ** [ParseCENCflags] *)
Definition slen (s : string) : Z := Z.of_nat (String.length s).

(** The system ID and the key IDs of the box. *)
Definition createClearKeyPssh (kid : bytes) : outcome (bytes * list bytes) :=
  let! systemID := owrap "invalid ClearKey system ID: %w" [] (NewUUIDFromString CommonSystemID) in
  Ret (systemID, [kid]).

Definition is_empty (s : string) : bool := bool_decide (s = EmptyString).

Definition ParseCENCflags (scheme kidStr keyStr ivStr laURL : string) : outcome (option DRMInfo) :=
  if is_empty kidStr && is_empty keyStr && is_empty ivStr then Ret None
  else if is_empty laURL then errorf "laurl must be configured for ClearKey/ECCP encryption"
  else
    let! kid := owrap "invalid key ID %s: %w" [kidStr] (UnpackKey kidStr) in
    let! kidUUID := owrap "failed to convert kid hexstring to UUID: %w" [] (NewUUIDFromString (hex_EncodeToString kid)) in
    if negb (bool_decide (scheme = "cenc"%string)) && negb (bool_decide (scheme = "cbcs"%string)) then
      Err (Errorf "scheme must be cenc or cbcs: %s" [scheme])
    else if negb (slen ivStr =? 32) && negb (slen ivStr =? 16) then
      Err (Errorf "hex iv must have length 16 or 32 chars; %d" [pretty (slen ivStr)])
    else
      match hex_DecodeString ivStr with
      | Panic => Panic
      | Err _ => Err (Errorf "invalid iv %s" [ivStr])
      | Ret iv =>
          if negb (is_empty keyStr) && negb (slen keyStr =? 32) then
            Err (Errorf "hex key must have length 32 chars: %d" [pretty (slen keyStr)])
          else
            let! key := (if is_empty keyStr then Ret kidUUID
                         else owrap "invalid key %s, %w" [keyStr] (UnpackKey keyStr)) in
            let! '(systemID, kids) := owrap "could not create ClearKey PSSH: %w" [] (createClearKeyPssh kidUUID) in
            let! pssh := owrap "failed to encode pssh box: %w" [] (EncodePssh systemID kids) in
            let drmSystem := mkDRMSystem (UUIDString systemID) "" (Some (mkDRMService laURL "EME-1.0")) None None
                               (RawStd_EncodeToString pssh) in
            Ret (Some (mkDRMInfo [mkContentProtection "1" [UUIDString kidUUID] scheme (Some drmSystem)]
                        (mkCENCInfo key iv)))
      end.
End Drm.

(** ** The license server ([/clearkey] of the side server) *)
Record keyInfo := mkKeyInfo { Kty : string; K : string; Kid : string }.

(** A response: the status and, when the body is a license, its keys. *)
Record httpResponse := mkResponse { StatusCode : Z; keysOf : outcome (list keyInfo) }.
Definition StatusOK : Z := 200.

(** [reqKids] is the request body decoded. *)
Definition clearkeyHandler (reqKids : outcome (list string)) : httpResponse :=
  match reqKids with
  | Ret kids => mkResponse StatusOK (Ret ((fun kid => mkKeyInfo "oct" kid kid) <$> kids))
  | _ => mkResponse 400 (errorf "failed to decode request body")
  end.

(** Behind [withCORS]. *)
Definition serve_clearkey (method : string) (reqKids : outcome (list string)) : httpResponse :=
  if bool_decide (method = "OPTIONS"%string) then mkResponse StatusOK (errorf "no body")
  else if negb (bool_decide (method = "POST"%string)) then mkResponse 405 (errorf "Method not allowed")
  else clearkeyHandler reqKids.

(** ** Facts *)
Lemma find_system_perm sysID (l l' : list DRMSystem) :
  NoDup (SystemID <$> l) -> l ≡ₚ l' -> find_system sysID l = find_system sysID l'.
Proof.
  assert (forall l acc, sysID ∉ SystemID <$> l ->
    fold_left (fun system d => if bool_decide (sysID = SystemID d) then d else system) l acc = acc) as Hn.
  { clear. induction l as [|d l IH]; intros acc Hni; [done|]. cbn in *.
    rewrite bool_decide_false by set_solver. apply IH. set_solver. }
  assert (forall l acc d, NoDup (SystemID <$> l) -> d ∈ l -> sysID = SystemID d ->
    fold_left (fun system d => if bool_decide (sysID = SystemID d) then d else system) l acc = d) as Hf.
  { clear - Hn. induction l as [|x l IH]; intros acc d Hnd Hd Hs; [by apply elem_of_nil in Hd|]. cbn in *.
    apply NoDup_cons in Hnd as [Hx Hnd]. apply elem_of_cons in Hd as [->|Hd].
    - rewrite bool_decide_true by done. apply Hn. by rewrite Hs.
    - by apply IH. }
  intros Hnd Hp. unfold find_system. destruct (decide (sysID ∈ SystemID <$> l)) as [Hin|Hin].
  - apply list_elem_of_fmap in Hin as (d & Hs & Hd).
    rewrite (Hf l _ d), (Hf l' _ d); [done|by rewrite <- Hp|by rewrite <- Hp|done|done|done|done].
  - rewrite !Hn; [done|by rewrite <- Hp|done].
Qed.

(** Concrete keys and UUIDs for examples: hexadecimal digits, with dashes in a
    UUID. *)
Fixpoint remove_dashes (s : string) : string :=
  match s with
  | EmptyString => EmptyString
  | String c s => if (nat_of_ascii c =? 45)%nat then remove_dashes s else String c (remove_dashes s)
  end.
Definition dashed (s : string) : string :=
  String.substring 0 8 s +:+ "-" +:+ String.substring 8 4 s +:+ "-" +:+ String.substring 12 4 s +:+ "-" +:+
  String.substring 16 4 s +:+ "-" +:+ String.substring 20 12 s.
#[export] Instance DrmConcrete : DrmLib := {|
  UnpackKey s := hex_DecodeString (remove_dashes s);
  NewUUIDFromString s := hex_DecodeString (remove_dashes s);
  UUIDString b := dashed (hex_EncodeToString b);
  EncodePssh s ks := Ret (s ++ concat ks)
|}.
