(* ===== verification/Publisher.v ===== *)
(** * The publisher: session handlers and publishing goroutines

    [internal/pub/pub.go] and [internal/pub/moqmi.go].  A publishing goroutine
    is a program over the events [pubE]: the clock, the context, the timer and
    the subgroup writer of its subscription.  The goroutines run for ever, so
    they are loops without a bound.  A request handler is a program over
    [respE] that ends with the goroutine it starts, if any.

    [GetTrackByName] and [GetLOCTrackByName] return the address of a copy of
    the track, so the IV that encryption advances belongs to one goroutine: it
    is part of the state of the loop of [PublishTrack]. *)
From S2P Require Import Prelude Io GoFloat Media Timeline Catalog Loc Nalu Av1 Cc608 InitTrack Chunk Subtitle AssetOps CatalogGen.
Local Open Scope Z_scope.
Local Open Scope go_scope.
Local Open Scope prog_scope.

(** ** Events *)

(** An answer [Some err] is a non-nil error, and for [After], the context
    error when the context ended before the timer. *)
Inductive pubE : Type -> Type :=
  | CtxErr : pubE (option goerror)
  | NowMS : pubE Z
  (** [select] on [ctx.Done()] and [time.After] of so many milliseconds *)
  | After (ms : Z) : pubE (option goerror)
  | OpenSubgroup (groupID subgroupID priority : Z) : pubE (option goerror)
  | WriteObject (objectID : Z) (payload : bytes) : pubE (option goerror)
  | WriteObjectWithHeaders (objectID : Z) (headers : KVPList) (payload : bytes) : pubE (option goerror)
  | CloseSubgroup : pubE (option goerror).

(** [moqtransport.Location] *)
Record Location := mkLocation { Group : Z; Object : Z }.

Inductive respE : Type -> Type :=
  | Accept (largest : option Location) : respE (option goerror)
  | Reject (code : Z) (reason : string) : respE (option goerror)
  | FetchStream : respE (option goerror)
  | FetchWriteObject (groupID subgroupID objectID priority : Z) (payload : bytes) : respE (option goerror)
  | FetchClose : respE (option goerror).

(** The metadata structs of [moqtransport/moqmi]. *)
Record VideoMetadata := mkVideoMetadata {
  vSeqID : Z; vPTS : Z; vDTS : Z; vTimebase : Z; vDuration : Z; vWallclockMS : Z
}.
Record AudioMetadata := mkAudioMetadata {
  aSeqID : Z; aPTS : Z; aTimebase : Z; SampleFreq : Z; NumChannels : Z; aDuration : Z; aWallclockMS : Z
}.

(** What the publisher takes from [moqtransport], [moqmi], mp4ff and
    [encoding/json]. *)
Class PubLib := {
  marshalCatalog : Catalog -> outcome bytes;
  VideoHeaders : VideoMetadata -> bytes -> KVPList;
  AudioAACHeaders : AudioMetadata -> KVPList;
  AudioOpusHeaders : AudioMetadata -> KVPList;
  (** [avc.CreateAVCDecConfRec] and [Encode] *)
  AVCDecConfRec : list bytes -> list bytes -> outcome (outcome bytes);
  ErrorCodeSubscribeTrackDoesNotExist : Z;
  ErrorCodeFetchTrackDoesNotExist : Z
}.

(** [moqmi.MediaTypeAudioAACLC] and [moqmi.MediaTypeAudioOpus] *)
Inductive audioMediaType := MediaTypeAudioAACLC | MediaTypeAudioOpus.

Section Publisher.
Context {M : Mp4Types} {NL : @NaluLib M} {AL : @Av1Lib M} {CL : @CcLib M} {FL : @FragLib M} {SL : @SubLib M}
  {PB : PubLib}.

(** [return] *)
Definition stop {A : Type} : prog pubE (A + unit) := done (Ret (inr tt)).

(** ** One-shot catalog *)

(** [json.Marshal] of a nil catalog is [null]: a nil pointer is no error. *)
Definition marshal (c : option Catalog) : outcome bytes :=
  match c with Some c => marshalCatalog c | None => Ret [110; 117; 108; 108] end.

Definition PublishCatalog (catalog : option Catalog) (delay : Z) : prog pubE unit :=
  match marshal catalog with
  | Err _ => done (Ret tt)
  | Panic => done Panic
  | Ret payload =>
      do! e := (if delay >? 0 then perform (After delay) else done (Ret None)) in
      match e with
      | Some _ => done (Ret tt)
      | None =>
          do! e := perform (OpenSubgroup 0 0 0) in
          match e with
          | Some _ => done (Ret tt)
          | None =>
              do! e := perform (WriteObject 0 payload) in
              match e with
              | Some _ => done (Ret tt)
              | None => do! _ := perform CloseSubgroup in done (Ret tt)
              end
          end
      end
  end.

(** ** Writing a group of objects in time *)

(** The body of the loops of [WriteMoQGroup] and [WriteSubtitleGroup] for the
    object [nr] that is due at [dueMS]. *)
Definition write_due (nr : nat) (obj : bytes) (dueMS : Z) : prog pubE unit :=
  do! e := perform CtxErr in
  match e with
  | Some e => done (Err e)
  | None =>
      do! now := perform NowMS in
      let waitTime := i64 (dueMS - now) in
      do! e := (if waitTime <=? 0 then done (Ret None) else perform (After waitTime)) in
      match e with
      | Some e => done (Err e)
      | None =>
          do! e := perform (WriteObject (Z.of_nat nr) obj) in
          match e with Some e => done (Err e) | None => done (Ret tt) end
      end
  end.

Fixpoint write_objects (nr : nat) (objs : list bytes) (dueMS : Z -> Z) : prog pubE unit :=
  match objs with
  | [] => done (Ret tt)
  | obj :: objs => do! _ := write_due nr obj (dueMS (Z.of_nat nr)) in write_objects (S nr) objs dueMS
  end.

Definition WriteMoQGroup (t : ContentTrack) (moq : MoQGroup) : prog pubE unit :=
  write_objects 0 (MoQObjects moq) (objTimeMS t moq).

(** The multiplication is in [uint64]. *)
Definition WriteSubtitleGroup (moq : MoQGroup) (groupNr : Z) : prog pubE unit :=
  write_objects 0 (MoQObjects moq) (fun _ => i64 (u64 (groupNr * MoqGroupDurMS))).

(** ** CMAF and LOCMAF tracks *)

(** [strings.TrimSuffix(s, suffix)] *)
Definition TrimSuffix (s suffix : string) : string :=
  let n := (String.length s - String.length suffix)%nat in
  if bool_decide (String.substring n (String.length suffix) s = suffix) then String.substring 0 n s else s.

(** A number of chunks that is enough for every group whose batch is not 0. *)
Definition group_fuel (ct : ContentTrack) (groupNr : Z) : nat :=
  match calcMoQGroup ct groupNr MoqGroupDurMS with Ret (_, e) => S (Z.to_nat e) | _ => O end.

(** A Go error of a call made for its error only. *)
Definition catch (t : prog pubE unit) : prog pubE (option goerror) :=
  ITreeDefinition.ITree.bind t
    (fun o => match o with Ret _ => done (Ret None) | Err e => done (Ret (Some e)) | Panic => done Panic end).

(** One round of the loop: generate a group, write it, close it. *)
Definition track_round (packaging : string) (s : ContentTrack * Z) : prog pubE (ContentTrack * Z + unit) :=
  let '(ct, groupNr) := s in
  do! e := perform CtxErr in
  match e with
  | Some _ => stop
  | None =>
      do! e := perform (OpenSubgroup groupNr 0 MediaPriority) in
      match e with
      | Some _ => stop
      | None =>
          match GenMoQGroup (group_fuel ct groupNr) ct groupNr (SampleBatch ct) MoqGroupDurMS packaging with
          | None => ITreeDefinition.ITree.spin
          | Some (Err _) => stop
          | Some Panic => done Panic
          | Some (Ret (mg, ct)) =>
              do! e := catch (WriteMoQGroup ct mg) in
              match e with
              | Some _ => stop
              | None =>
                  do! e := perform CloseSubgroup in
                  match e with Some _ => stop | None => done (Ret (inl (ct, u64 (groupNr + 1)))) end
              end
          end
      end
  end.

Definition PublishTrack (asset : Asset) (trackName packaging : string) : prog pubE unit :=
  match AssetOps.GetTrackByName asset (TrimSuffix trackName LocmafTrackSuffix) with
  | None => done (Ret tt)
  | Some ct =>
      do! now := perform NowMS in
      do! currGroupNr := done (CurrMoQGroupNr ct (u64 now) MoqGroupDurMS) in
      loop (track_round packaging) (ct, u64 (currGroupNr + 1))
  end.

(** ** LOC tracks *)
Definition spatial_id (layer : option AV1SpatialLayer) : Z :=
  match layer with Some l => layerSpatialID l | None => 0 end.

(** [videoConfig], and the AV1 data when the track is AV1. *)
Definition loc_config (sd : option CodecSpecificData) : bytes * option AV1Data :=
  match sd with
  | Some (AVC d) => (avc_GenLOCVideoConfig d, None)
  | Some (HEVC d) => (hevc_GenLOCVideoConfig d, None)
  | Some (AV1 d) => (av1_GenLOCVideoConfig d, Some d)
  | _ => ([], None)
  end.

(** The sample that is sent as object [sampleNr], and its data with captions. *)
Definition loc_frame (lt : LOCTrack) (captioner : videoCaptioner) (sei : option (list bytes)) (startNr sampleNr : Z)
  : outcome (FullSample * bytes) :=
  let ct := locContentTrack lt in
  let! '(_, origNr) := CalcSample ct sampleNr in
  let! sample := index (Samples ct) origNr in
  let! sample :=
    match SpatialLayer lt with
    | Some l =>
        let! data := index (layerSamples l) origNr in
        Ret (mkFullSample (Flags sample) (Dur sample) (u32 (len data)) (DecodeTime sample) data)
    | None => Ret sample
    end in
  let! data := spliceFrame captioner (Data sample) sei sampleNr startNr in
  Ret (sample, data).

(** The object of that sample. *)
Definition loc_payload (lt : LOCTrack) (sampleNr : Z) (sample : FullSample) (data : bytes) : outcome (KVPList * bytes) :=
  let ct := locContentTrack lt in
  let '(videoConfig, av1Data) := loc_config (SpecData ct) in
  let objectConfig := match av1Data with Some d => GenLOCVideoConfigForSample d data | None => videoConfig end in
  Pub.buildLOCObject data (IsSync sample) (u64 (sampleNr * SampleDur ct)) (TimeScale ct) objectConfig (SpatialLayer lt).

(** The time at which sample [sampleNr] is due. *)
Definition loc_due (ct : ContentTrack) (sampleNr : Z) : outcome Z :=
  let! t := udiv (u64 (u64 (sampleNr * SampleDur ct) * 1000)) (TimeScale ct) in Ret (i64 t).

(** [_ = sg.Close(); return] *)
Definition close_return {A : Type} : prog pubE (A + flow) :=
  do! _ := perform CloseSubgroup in done (Ret (inr Return)).

(** The loop over the samples of a group; its state is [sampleNr] and
    [objectID]. *)
Definition loc_sample_round (lt : LOCTrack) (captioner : videoCaptioner) (sei : option (list bytes)) (startNr endNr : Z)
    (s : Z * Z) : prog pubE (Z * Z + flow) :=
  let '(sampleNr, objectID) := s in
  if sampleNr <? endNr then
    do! e := perform CtxErr in
    match e with
    | Some _ => close_return
    | None =>
        do! '(sample, data) := done (loc_frame lt captioner sei startNr sampleNr) in
        do! objTimeMS := done (loc_due (locContentTrack lt) sampleNr) in
        do! now := perform NowMS in
        let waitMS := i64 (objTimeMS - now) in
        do! e := (if waitMS >? 0 then perform (After waitMS) else done (Ret None)) in
        match e with
        | Some _ => close_return
        | None =>
            do! '(headers, payload) := done (loc_payload lt sampleNr sample data) in
            do! e := perform (WriteObjectWithHeaders objectID headers payload) in
            match e with
            | Some _ => close_return
            | None => done (Ret (inl (u64 (sampleNr + 1), u64 (objectID + 1))))
            end
        end
    end
  else done (Ret (inr Next)).

Definition loc_round (lt : LOCTrack) (captioner : videoCaptioner) (groupNr : Z) : prog pubE (Z + unit) :=
  let ct := locContentTrack lt in
  do! e := perform CtxErr in
  match e with
  | Some _ => stop
  | None =>
      do! e := perform (OpenSubgroup groupNr 0 (Pub.locPriority (spatial_id (SpatialLayer lt)))) in
      match e with
      | Some _ => stop
      | None =>
          do! '(startNr, endNr) := done (CalcLOCGroupRange ct groupNr MoqGroupDurMS) in
          let sei := schedule captioner (i64 groupNr) startNr endNr in
          do! f := loop (loc_sample_round lt captioner sei startNr endNr) (startNr, 0) in
          match f with
          | Return => stop
          | Next =>
              do! e := perform CloseSubgroup in
              match e with Some _ => stop | None => done (Ret (inl (u64 (groupNr + 1)))) end
          end
      end
  end.

Definition PublishLOCTrack (asset : Asset) (trackName : string) : prog pubE unit :=
  match GetLOCTrackByName asset trackName with
  | None => done (Ret tt)
  | Some lt =>
      let ct := locContentTrack lt in
      if (TimeScale ct =? 0) || (SampleDur ct =? 0) then done (Ret tt)
      else
        do! captioner := done (newVideoCaptioner ct) in
        do! now := perform NowMS in
        do! currGroupNr := done (CurrMoQGroupNr ct (u64 now) MoqGroupDurMS) in
        loop (loc_round lt captioner) (u64 (currGroupNr + 1))
  end.

(** ** Subtitle tracks *)
Definition subtitle_round (st : SubtitleTrack) (groupNr : Z) : prog pubE (Z + unit) :=
  do! e := perform CtxErr in
  match e with
  | Some _ => stop
  | None =>
      do! e := perform (OpenSubgroup groupNr 0 MediaPriority) in
      match e with
      | Some _ => stop
      | None =>
          match GenSubtitleGroup st groupNr MoqGroupDurMS with
          | Ret None => ITreeDefinition.ITree.spin
          | Err _ => stop
          | Panic => done Panic
          | Ret (Some mg) =>
              do! e := catch (WriteSubtitleGroup mg groupNr) in
              match e with
              | Some _ => stop
              | None =>
                  do! e := perform CloseSubgroup in
                  match e with Some _ => stop | None => done (Ret (inl (u64 (groupNr + 1)))) end
              end
          end
      end
  end.

Definition PublishSubtitleTrack (st : SubtitleTrack) : prog pubE unit :=
  do! now := perform NowMS in
  do! currGroupNr := done (CurrSubtitleGroupNr (u64 now) MoqGroupDurMS) in
  loop (subtitle_round st) (u64 (currGroupNr + 1)).

(** ** moq-mi ([internal/pub/moqmi.go]) *)
Definition GenAVCDecoderConfigurationRecord (d : AVCData) : outcome bytes :=
  let! encoded := owrap "create AVCDecoderConfigurationRecord: %w" [] (AVCDecConfRec (avc_Spss d) (avc_Ppss d)) in
  owrap "encode AVCDecoderConfigurationRecord: %w" [] encoded.

Definition gopDurMS (gopLen sampleDur timebase : Z) : outcome Z :=
  let! d := udiv (u64 (u64 (gopLen * sampleDur) * 1000)) timebase in Ret (if d =? 0 then 1000 else d).

(** The first group of a moq-mi video track that is started at [now]. *)
Definition moqmi_first_group (gopLen sampleDur timebase now : Z) : outcome Z :=
  let! d := gopDurMS gopLen sampleDur timebase in
  let! currGopNr := udiv (u64 now) d in
  Ret (u64 (currGopNr + 1)).

(** The loop over the samples of a GOP; its state is [objectID], [sampleNr]
    and [seqID].  It leaves the function without closing the subgroup. *)
Definition moqmi_sample_round (ct : ContentTrack) (captioner : videoCaptioner) (extradata : bytes)
    (sei : option (list bytes)) (startSample endSample : Z) (s : Z * Z * Z) : prog pubE (Z * Z * Z + option Z) :=
  let '(objectID, sampleNr, seqID) := s in
  let timebase := TimeScale ct in
  let sampleDur := SampleDur ct in
  if sampleNr <? endSample then
    do! e := perform CtxErr in
    match e with
    | Some _ => done (Ret (inr None))
    | None =>
        do! '(_, origNr) := done (CalcSample ct sampleNr) in
        do! sample := done (index (Samples ct) origNr) in
        do! data := done (spliceFrame captioner (Data sample) sei sampleNr startSample) in
        let pts := u64 (sampleNr * sampleDur) in
        do! t := done (udiv (u64 (pts * 1000)) timebase) in
        let ptsMS := i64 t in
        do! now := perform NowMS in
        let waitMS := i64 (ptsMS - now) in
        do! e := (if waitMS >? 0 then perform (After waitMS) else done (Ret None)) in
        match e with
        | Some _ => done (Ret (inr None))
        | None =>
            do! wallclock := perform NowMS in
            let meta := mkVideoMetadata seqID pts pts timebase sampleDur (u64 wallclock) in
            let headers := VideoHeaders meta (if objectID =? 0 then extradata else []) in
            do! e := perform (WriteObjectWithHeaders objectID headers data) in
            match e with
            | Some _ => done (Ret (inr None))
            | None => done (Ret (inl (u64 (objectID + 1), u64 (sampleNr + 1), u64 (seqID + 1))))
            end
        end
    end
  else done (Ret (inr (Some seqID))).

(** One GOP; the state of the loop is [groupNr] and [seqID]. *)
Definition moqmi_video_round (ct : ContentTrack) (captioner : videoCaptioner) (extradata : bytes) (s : Z * Z)
  : prog pubE (Z * Z + unit) :=
  let '(groupNr, seqID) := s in
  let gopLen := GopLength ct in
  do! e := perform CtxErr in
  match e with
  | Some _ => stop
  | None =>
      do! e := perform (OpenSubgroup groupNr 0 MediaPriority) in
      match e with
      | Some _ => stop
      | None =>
          let startSample := u64 (groupNr * gopLen) in
          let endSample := u64 (startSample + gopLen) in
          do! a := done (udiv (u64 (startSample * SampleDur ct)) (TimeScale ct)) in
          let sei := schedule captioner (i64 a) startSample endSample in
          do! r := loop (moqmi_sample_round ct captioner extradata sei startSample endSample) (0, startSample, seqID) in
          match r with
          | None => stop
          | Some seqID =>
              do! e := perform CloseSubgroup in
              match e with Some _ => stop | None => done (Ret (inl (u64 (groupNr + 1), seqID))) end
          end
      end
  end.

Definition publishMoqMIVideo (ct : ContentTrack) (avcData : AVCData) : prog pubE unit :=
  match GenAVCDecoderConfigurationRecord avcData with
  | Err _ => done (Ret tt)
  | Panic => done Panic
  | Ret extradata =>
      if GopLength ct =? 0 then done (Ret tt)
      else
        do! now := perform NowMS in
        do! groupNr := done (moqmi_first_group (GopLength ct) (SampleDur ct) (TimeScale ct) now) in
        do! captioner := done (newVideoCaptioner ct) in
        loop (moqmi_video_round ct captioner extradata) (groupNr, u64 (groupNr * GopLength ct))
  end.

(** [strconv.ParseUint(s, 10, 64)]; the error and an empty string give
    [None]. *)
Fixpoint parse_digits (s : string) (acc : Z) : option Z :=
  match s with
  | EmptyString => Some acc
  | String c s =>
      let d := Z.of_nat (Ascii.nat_of_ascii c) - 48 in
      if (0 <=? d) && (d <=? 9) then parse_digits s (acc * 10 + d) else None
  end.
Definition ParseUint (s : string) : option Z :=
  match s with
  | EmptyString => None
  | _ => match parse_digits s 0 with Some n => if n <? 2 ^ 64 then Some n else None | None => None end
  end.

Definition audioChannels (sd : option CodecSpecificData) : Z :=
  match sd with
  | Some (AAC d) | Some (Opus d) => default 0 (ParseUint (channelConfig d))
  | _ => 0
  end.

(** The first frame of a moq-mi audio track that is started at [now]. *)
Definition moqmi_first_frame (sampleDur timebase now : Z) : outcome Z :=
  let framePTSUnits := u64 (u64 now * timebase) / 1000 in
  let! frameNr := udiv framePTSUnits sampleDur in
  let! r := umod framePTSUnits sampleDur in
  Ret (if negb (r =? 0) then u64 (frameNr + 1) else frameNr).

(** One frame, its own group; the state of the loop is [frameNr] and [seqID]. *)
Definition moqmi_audio_round (ct : ContentTrack) (mediaType : audioMediaType) (s : Z * Z) : prog pubE (Z * Z + unit) :=
  let '(frameNr, seqID) := s in
  let timebase := TimeScale ct in
  let sampleDur := SampleDur ct in
  do! e := perform CtxErr in
  match e with
  | Some _ => stop
  | None =>
      let pts := u64 (frameNr * sampleDur) in
      do! t := done (udiv (u64 (pts * 1000)) timebase) in
      let ptsMS := i64 t in
      do! now := perform NowMS in
      let waitMS := i64 (ptsMS - now) in
      do! e := (if waitMS >? 0 then perform (After waitMS) else done (Ret None)) in
      match e with
      | Some _ => stop
      | None =>
          do! '(_, origNr) := done (CalcSample ct frameNr) in
          do! sample := done (index (Samples ct) origNr) in
          do! e := perform (OpenSubgroup frameNr 0 MediaPriority) in
          match e with
          | Some _ => stop
          | None =>
              do! wallclock := perform NowMS in
              let meta := mkAudioMetadata seqID pts timebase timebase (audioChannels (SpecData ct)) sampleDur
                            (u64 wallclock) in
              let headers :=
                match mediaType with
                | MediaTypeAudioAACLC => AudioAACHeaders meta
                | MediaTypeAudioOpus => AudioOpusHeaders meta
                end in
              do! e := perform (WriteObjectWithHeaders 0 headers (Data sample)) in
              match e with
              | Some _ => do! _ := perform CloseSubgroup in stop
              | None =>
                  do! e := perform CloseSubgroup in
                  match e with
                  | Some _ => stop
                  | None => done (Ret (inl (u64 (frameNr + 1), u64 (seqID + 1))))
                  end
              end
          end
      end
  end.

Definition publishMoqMIAudio (ct : ContentTrack) (mediaType : audioMediaType) : prog pubE unit :=
  if SampleDur ct =? 0 then done (Ret tt)
  else
    do! now := perform NowMS in
    do! frameNr := done (moqmi_first_frame (SampleDur ct) (TimeScale ct) now) in
    loop (moqmi_audio_round ct mediaType) (frameNr, frameNr).

Definition PublishMoqMITrack (asset : Asset) (assetTrackName : string) : prog pubE unit :=
  match AssetOps.GetTrackByName asset assetTrackName with
  | None => done (Ret tt)
  | Some ct =>
      match SpecData ct with
      | Some (AVC d) => publishMoqMIVideo ct d
      | Some (AAC _) => publishMoqMIAudio ct MediaTypeAudioAACLC
      | Some (Opus _) => publishMoqMIAudio ct MediaTypeAudioOpus
      | Some _ => done (Ret tt)
      | None => done Panic
      end
  end.

(** A nil map and a missing name both give the empty string. *)
Abbreviation MoqMITrackMap := (gmap string string).
Definition ResolveMoqMITrack (m : MoqMITrackMap) (moqmiName : string) : string := default EmptyString (m !! moqmiName).

Definition set_if_absent (k v : string) (m : MoqMITrackMap) : MoqMITrackMap :=
  match m !! k with Some _ => m | None => <[k := v]> m end.

Definition moqmi_default (m : MoqMITrackMap) (ct : ContentTrack) : MoqMITrackMap :=
  if negb (bool_decide (Protection ct = ProtectionNone)) then m
  else match SpecData ct with
       | Some (AVC _) => set_if_absent "video0" (Name ct) m
       | Some (AAC _) => set_if_absent "audio0" (Name ct) m
       | _ => m
       end.

Definition clear_opus (ct : ContentTrack) : bool :=
  bool_decide (Protection ct = ProtectionNone) && match SpecData ct with Some (Opus _) => true | _ => false end.

Definition BuildMoqMITrackMap (asset : Asset) : outcome MoqMITrackMap :=
  let tracks := concat (Tracks <$> Groups asset) in
  let m := fold_left moqmi_default tracks ∅ in
  let m := match list_find clear_opus tracks with
           | Some (_, ct) => set_if_absent "audio0" (Name ct) m
           | None => m
           end in
  match m !! "video0"%string with
  | None => errorf "no clear AVC video track available for moq-mi video0"
  | Some _ => Ret m
  end.

(** ** Session handlers *)
Fixpoint tupleEqual (a b : list string) : bool :=
  match a, b with
  | [], [] => true
  | x :: a, y :: b => bool_decide (x = y) && tupleEqual a b
  | _, _ => false
  end.

Record NamespaceEntry := mkNamespaceEntry {
  Namespace : list string; nsCatalog : option Catalog; nsPackaging : string; MoqMITracks : MoqMITrackMap
}.
Record Handler := mkHandler { Namespaces : list NamespaceEntry; hAsset : Asset; CatalogDelay : Z }.

Definition interopNamespace : list string := ["moq-test"; "interop"]%string.
Definition isInteropNamespace (ns : list string) : bool := tupleEqual ns interopNamespace.

Definition findNamespace (h : Handler) (ns : list string) : option NamespaceEntry :=
  snd <$> list_find (fun e => tupleEqual ns (Namespace e)) (Namespaces h).

Definition locationLess (a b : Location) : bool :=
  if negb (Group a =? Group b) then Group a <? Group b else Object a <? Object b.

Definition locationInFetchRange (loc start end_ : Location) : bool :=
  if locationLess loc start then false
  else if Object end_ =? 0 then Group loc <=? Group end_
  else locationLess loc end_.

(** The announcement handler. *)
Definition handleAnnounce (ns : list string) : prog respE unit :=
  if isInteropNamespace ns then do! _ := perform (Accept None) in done (Ret tt)
  else do! _ := perform (Reject 0 "publisher doesn't take announcements") in done (Ret tt).

Record FetchMessage := mkFetchMessage {
  fetchNamespace : list string; fetchTrack : string; StartLocation : Location; EndLocation : Location
}.

Definition handleFetch (h : Handler) (m : FetchMessage) : prog respE unit :=
  let reject reason := do! _ := perform (Reject ErrorCodeFetchTrackDoesNotExist reason) in done (Ret tt) in
  match findNamespace h (fetchNamespace m) with
  | None => reject "non-matching namespace"%string
  | Some nsEntry =>
      if bool_decide (nsPackaging nsEntry = "moqmi"%string) then reject "moq-mi has no catalog"%string
      else if negb (bool_decide (fetchTrack m = "catalog"%string)) then reject "only catalog is fetchable"%string
      else
        do! e := perform (Accept None) in
        match e with
        | Some _ => done (Ret tt)
        | None =>
            do! e := perform FetchStream in
            match e with
            | Some _ => done (Ret tt)
            | None =>
                if locationInFetchRange (mkLocation 0 0) (StartLocation m) (EndLocation m) then
                  match marshal (nsCatalog nsEntry) with
                  | Panic => done Panic
                  | Err _ => done (Ret tt)
                  | Ret catalogJSON =>
                      do! e := perform (FetchWriteObject 0 0 0 0 catalogJSON) in
                      match e with
                      | Some _ => done (Ret tt)
                      | None => do! _ := perform FetchClose in done (Ret tt)
                      end
                  end
                else do! _ := perform FetchClose in done (Ret tt)
            end
        end
  end.

(** The goroutine a subscription starts. *)
Inductive job :=
  | JobCatalog (catalog : option Catalog) (delay : Z)
  | JobTrack (asset : Asset) (trackName packaging : string)
  | JobLOC (asset : Asset) (trackName : string)
  | JobSubtitle (st : SubtitleTrack)
  | JobMoqMI (asset : Asset) (assetTrackName : string).

Definition run_job (j : job) : prog pubE unit :=
  match j with
  | JobCatalog c delay => PublishCatalog c delay
  | JobTrack a n p => PublishTrack a n p
  | JobLOC a n => PublishLOCTrack a n
  | JobSubtitle st => PublishSubtitleTrack st
  | JobMoqMI a n => PublishMoqMITrack a n
  end.

(** Accept, then start the goroutine. *)
Definition accept_start (largest : option Location) (j : job) : prog respE (option job) :=
  do! e := perform (Accept largest) in
  match e with Some _ => done (Ret None) | None => done (Ret (Some j)) end.

Definition reject_subscribe (code : Z) (reason : string) : prog respE (option job) :=
  do! _ := perform (Reject code reason) in done (Ret None).

Definition handleSubscribe (h : Handler) (ns : list string) (track : string) : prog respE (option job) :=
  if isInteropNamespace ns then do! _ := perform (Accept None) in done (Ret None)
  else
    match findNamespace h ns with
    | None => reject_subscribe 0 "non-matching namespace"
    | Some nsEntry =>
        if bool_decide (nsPackaging nsEntry = "moqmi"%string) then
          if bool_decide (track = "catalog"%string) then
            reject_subscribe ErrorCodeSubscribeTrackDoesNotExist "moq-mi has no catalog"
          else
            let assetTrack := ResolveMoqMITrack (MoqMITracks nsEntry) track in
            if bool_decide (assetTrack = EmptyString) then
              reject_subscribe ErrorCodeSubscribeTrackDoesNotExist "unknown moq-mi track"
            else accept_start None (JobMoqMI (hAsset h) assetTrack)
        else if bool_decide (track = "catalog"%string) then
          accept_start (if CatalogDelay h >? 0 then None else Some (mkLocation 0 0))
            (JobCatalog (nsCatalog nsEntry) (CatalogDelay h))
        else
          match GetSubtitleTrackByName (hAsset h) track with
          | Some st => accept_start None (JobSubtitle st)
          | None =>
              match nsCatalog nsEntry with
              | None => done Panic
              | Some c =>
                  match Catalog.GetTrackByName c track with
                  | Some t =>
                      if bool_decide (nsPackaging nsEntry = "loc"%string)
                      then accept_start None (JobLOC (hAsset h) (trName t))
                      else accept_start None (JobTrack (hAsset h) (trName t) (Packaging t))
                  | None => reject_subscribe ErrorCodeSubscribeTrackDoesNotExist "unknown track"
                  end
              end
          end
    end.
End Publisher.
