(* ===== verification/CencMux.v ===== *)
(** * The receiving side of a track: outputs, multiplexing, decryption

    [internal/sub/mux.go], [internal/sub/cenc.go], the writers of
    [internal/sub/loc.go], the decryption of [internal/asset.go] and the
    helpers at the end of [internal/sub/sub.go].  The subscriber's goroutines
    are programs over the events [subE]: the session and its tracks, the
    outputs, the catalog pointer they share, the license server and the clock.

    The fields [cenc], [mux] and [locWriters] of the handler are written while
    the catalog is gone through, before a reading goroutine starts, and only
    read afterwards: they are values that [handle] passes along.  The pointer
    [h.catalog] is replaced by the goroutine that follows catalog updates
    while the others use it, so reading and writing it are events. *)
From S2P Require Import Prelude Io Base64 Media Catalog Loc Nalu Cc608 Chunk Publisher Drm.
Local Open Scope Z_scope.
Local Open Scope go_scope.
Local Open Scope prog_scope.

(** ** Events *)

(** [moqtransport.Object] and [moqtransport.RemoteTrack]; a track is known by
    its request ID. *)
Record object := mkObject { GroupID : Z; ObjectID : Z; ExtensionHeaders : KVPList; objPayload : bytes }.
Record remoteTrack := mkRemoteTrack { RequestID : Z; LargestLocation : option Location }.

(** What [ReadObject] returns. *)
Inductive readResult := Got (o : object) | EOF | ReadErr (e : goerror).

Inductive fetchKind := FetchTrack (track : string) | JoiningFetchRelative (requestID offset : Z).

(** The goroutines that are started with [go]; [J] is what they are given. *)
Inductive subE (J : Type) : Type -> Type :=
  | StartSession : subE J (option goerror)
  | CloseWithError (reason : string) : subE J (option goerror)
  | Subscribe (track : string) : subE J (goerror + remoteTrack)
  | Fetch (what : fetchKind) : subE J (goerror + remoteTrack)
  | ReadObject (track : Z) : subE J readResult
  | CloseTrack (track : Z) : subE J (option goerror)
  | GetCatalog : subE J (option Catalog)
  | SetCatalog (c : option Catalog) : subE J unit
  (** [h.Outs[name].Write] *)
  | WriteOut (name : string) (data : bytes) : subE J (option goerror)
  | HttpPost (url : string) (kids : list string) : subE J (goerror + httpResponse)
  | Now : subE J Z
  | AddObject (track : string) (group object : Z) (headers : KVPList) (size now : Z) : subE J unit
  (** the sequence number of a moq-mi object and its distance from the
      previous one, as logged *)
  | LogSeq (track : string) (seq gap : Z) : subE J unit
  | Go (job : J) : subE J unit
  | WaitDone : subE J unit.
Arguments StartSession {J}.
Arguments CloseWithError {J} reason.
Arguments Subscribe {J} track.
Arguments Fetch {J} what.
Arguments ReadObject {J} track.
Arguments CloseTrack {J} track.
Arguments GetCatalog {J}.
Arguments SetCatalog {J} c.
Arguments WriteOut {J} name data.
Arguments HttpPost {J} url kids.
Arguments Now {J}.
Arguments AddObject {J} track group object headers size now.
Arguments LogSeq {J} track seq gap.
Arguments Go {J} job.
Arguments WaitDone {J}.

(** ** What is taken from mp4ff, locmaf and [encoding/json] *)

(** [mp4.File]: the init segment and the fragments of each segment. *)
Record mp4File {M : Mp4Types} {FL : FragLib} := mkFile {
  fileInit : option InitSegment; fileSegments : list (list Fragment)
}.

Class SubMp4 {M : Mp4Types} {FL : FragLib} := {
  DecodeFileSR : bytes -> outcome mp4File;
  MoovBox : Type;
  TrakBox : Type;
  TrexBox : Type;
  (** [Init.Moov], [Moov.Trak], [Moov.Mvex.Trex]: [None] where a
      pointer on the way is nil, which panics; so below *)
  InitMoov : InitSegment -> option MoovBox;
  MoovTrak : MoovBox -> option TrakBox;
  MoovTrex : MoovBox -> option TrexBox;
  (** [Tkhd.TrackID = id], [Trex.TrackID = id], [Mdia.Mdhd.Timescale] *)
  setTrakID : Z -> TrakBox -> option TrakBox;
  setTrexID : Z -> TrexBox -> TrexBox;
  TrakTimescale : TrakBox -> option Z;
  (** an empty init segment with these children, encoded *)
  EncodeMuxed : list TrakBox -> list TrexBox -> outcome bytes;
  (** [Moof.Traf.Tfhd.TrackID = id], [Moof.Traf.Tfdt.BaseMediaDecodeTime()], [Encode] *)
  setFragmentID : Z -> Fragment -> option Fragment;
  BaseMediaDecodeTime : Fragment -> option Z;
  FragmentEncode : Fragment -> outcome bytes;
  DecryptInfo : Type;
  zeroDecryptInfo : DecryptInfo;
  (** [mp4.DecryptInit]: the init segment it leaves, and the information *)
  mp4_DecryptInit : InitSegment -> outcome (InitSegment * DecryptInfo);
  (** [TrackInfos[0].Sinf.Schi.Tenc.DefaultKID] *)
  FirstKID : DecryptInfo -> option bytes;
  EncodeInitSegment : InitSegment -> outcome bytes;
  mp4_DecryptFragment : Fragment -> DecryptInfo -> bytes -> outcome Fragment;
  (** [locmaf.Decode]: the effective boxes or the raw bytes ([None]: nil),
      and the state that is left, also after an error *)
  locEff : Type;
  locDecode : bytes -> LocmafState -> option MoovBox -> outcome (locEff * option bytes) * LocmafState;
  ReconstructCanonical : option MoovBox -> locEff -> outcome (option bytes);
  (** [aac.NewADTSHeader] and [Encode] *)
  ADTSHeader : Z -> Z -> Z -> Z -> outcome bytes;
  (** [json.Unmarshal] into a [*Catalog] ([None]: the value null), and
      [json.MarshalIndent] *)
  Unmarshal : bytes -> outcome (option Catalog);
  MarshalIndent : option Catalog -> outcome bytes
}.

Section CencMux.
Context {J : Type} {M : Mp4Types} {FL : FragLib} {SM : @SubMp4 M FL} {DL : DrmLib}.
Abbreviation P := (prog (subE J)).

(** A call whose error is only logged. *)
Definition ignore {A : Type} (t : P A) : P unit :=
  ITreeDefinition.ITree.bind t (fun o => match o with Panic => done Panic | _ => done (Ret tt) end).

Definition write_out (name : string) (data : bytes) : P unit :=
  do! e := perform (WriteOut name data) in match e with Some e => done (Err e) | None => done (Ret tt) end.

(** A pointer, used: nil panics. *)
Definition deref {A : Type} (p : option A) : P A := done match p with Some a => Ret a | None => Panic end.
Definition the_catalog : P Catalog := do! c := perform GetCatalog in deref c.

(** ** Helpers of [sub.go] *)
Definition unpackWrite (initData out : string) : P unit :=
  do! initBytes := done (DecodeString initData) in write_out out initBytes.

Definition parseCMAFInit (initData : string) : outcome MoovBox :=
  let! initDataBytes := DecodeString initData in
  let! f := DecodeFileSR initDataBytes in
  match i ← fileInit f; InitMoov i with
  | Some moov => Ret moov
  | None => errorf "missing moov in init data"
  end.

(** The payload, [None] when it is nil. *)
Definition decompressLocmafObject (payload : bytes) (moov : option MoovBox) (state : LocmafState)
  : outcome (option bytes) * LocmafState :=
  let '(r, state) := locDecode payload state moov in
  (let! '(eff, raw) := r in
   match raw with
   | Some raw => Ret (match raw with [] => None | _ => Some raw end)
   | None => ReconstructCanonical moov eff
   end, state).

(** ** The multiplexer ([mux.go]) *)
Definition trackIDs (contentType : string) : Z :=
  if bool_decide (contentType = "video"%string) then 1
  else if bool_decide (contentType = "audio"%string) then 2 else 0.

(** An init segment is kept by the two boxes the multiplexer uses. *)
Record CmafMux := mkMux {
  muxedInit : bool; inits : gmap string (TrakBox * TrexBox); timeScales : gmap string Z
}.
Definition NewCmafMux : CmafMux := mkMux false ∅ ∅.

Definition run_muxInit (m : CmafMux) : P (CmafMux * option goerror) :=
  match inits m !! "video"%string, inits m !! "audio"%string with
  | Some (vTrak, vTrex), Some (aTrak, aTrex) =>
      if muxedInit m then done (Ret (m, Some (Errorf "init already muxed" [])))
      else
        let m := mkMux true (inits m) (timeScales m) in
        match EncodeMuxed [vTrak; aTrak] [vTrex; aTrex] with
        | Ret b => do! e := perform (WriteOut "mux" b) in done (Ret (m, e))
        | Err e => done (Ret (m, Some e))
        | Panic => done Panic
        end
  | _, _ => done (Ret (m, None))
  end.

(** The multiplexer as it is left, and the error. *)
Definition AddInit (m : CmafMux) (initData contentType : string) : P (CmafMux * option goerror) :=
  match inits m !! contentType with
  | Some _ => done (Ret (m, Some (Errorf "init already added for %s" [contentType])))
  | None =>
      match (let! b := DecodeString initData in DecodeFileSR b) with
      | Panic => done Panic
      | Err e => done (Ret (m, Some e))
      | Ret f =>
          match fileInit f with
          | None => done (Ret (m, Some (Errorf "no init segment in initData" [])))
          | Some i =>
              match InitMoov i with
              | None => done Panic
              | Some moov =>
                  do! trak := deref (trak ← MoovTrak moov; setTrakID (trackIDs contentType) trak) in
                  do! trex := deref (setTrexID (trackIDs contentType) <$> MoovTrex moov) in
                  do! ts := deref (TrakTimescale trak) in
                  run_muxInit (mkMux (muxedInit m) (<[contentType := (trak, trex)]> (inits m))
                                     (<[contentType := ts]> (timeScales m)))
              end
          end
      end
  end.

(** [int64] division: by zero it panics. *)
Definition idiv (a b : Z) : outcome Z := if b =? 0 then Panic else Ret (i64 (Z.quot a b)).

(** A missing entry of [timeScales] is 0. *)
Definition timeScale (m : CmafMux) (mediaType : string) : Z := default 0 (timeScales m !! mediaType).

Definition MuxSample (m : CmafMux) (sample : bytes) (mediaType : string) : P unit :=
  if negb (muxedInit m) then done (Ret tt)
  else
    do! f := done (DecodeFileSR sample) in
    match fileSegments f with
    | [frags] =>
        match frags with
        | [frag] =>
            do! frag := deref (setFragmentID (trackIDs mediaType) frag) in
            do! _ := perform Now in
            do! t := deref (BaseMediaDecodeTime frag) in
            do! _ := done (idiv (i64 (1000 * i64 t)) (timeScale m mediaType)) in
            do! b := done (FragmentEncode frag) in
            write_out "mux" b
        | _ => done (Err (Errorf "expected 1 fragment, got %d" [pretty (len frags)]))
        end
    | segs => done (Err (Errorf "expected 1 segment, got %d" [pretty (len segs)]))
    end.

(** ** LOC outputs ([loc.go]) *)

(** The loop of [LOCVideoWriter.Write], with its writes. *)
Fixpoint annexB_write (fuel : nat) (out : string) (data : bytes) : P unit :=
  if len data <? 4 then done (Ret tt)
  else match fuel with
  | O => done (errorf "out of fuel")
  | S fuel =>
      let naluLen := Uint32 (take 4 data) in
      let data := drop 4 data in
      if len data <? naluLen then
        done (Err (Errorf "LOC AVC: NALU length %d exceeds remaining data %d" [pretty naluLen; pretty (len data)]))
      else
        do! _ := write_out out annexBStartCode in
        do! _ := write_out out (take (Z.to_nat naluLen) data) in
        annexB_write fuel out (drop (Z.to_nat naluLen) data)
  end.

(** [strings.Split] by a dot, [strconv.Atoi]. *)
Fixpoint split_dot (s cur : string) : list string :=
  match s with
  | EmptyString => [cur]
  | String c s =>
      if (Ascii.nat_of_ascii c =? 46)%nat then cur :: split_dot s EmptyString
      else split_dot s (cur +:+ String c EmptyString)
  end.
Definition Atoi (s : string) : option Z :=
  let signed (neg : bool) (ds : string) :=
    match ds with
    | EmptyString => None
    | _ => n ← parse_digits ds 0;
           let n := if neg then - n else n in
           if (minInt64 <=? n) && (n <=? maxInt64) then Some n else None
    end in
  match s with
  | String c ds =>
      if (Ascii.nat_of_ascii c =? 45)%nat then signed true ds
      else if (Ascii.nat_of_ascii c =? 43)%nat then signed false ds else signed false s
  | EmptyString => None
  end.

(** The writers of LOC tracks, with the name of the output they write to. *)
Inductive locWriter :=
  | LOCVideoWriter (W : string)
  | LOCAACWriter (W : string) (sampleRate channelConfig objectType : Z)
  | LOCOpusWriter (W : string).

Definition AAClc : Z := 2.

Definition NewLOCAACWriter (w codec : string) (sampleRate : Z) (channelConfig : string) : outcome locWriter :=
  let objectType :=
    match split_dot codec EmptyString !! 2%nat with
    | Some p => match Atoi p with Some ot => u8 ot | None => AAClc end
    | None => AAClc
    end in
  if negb (objectType =? AAClc) then Err (Errorf "LOC AAC: only AAC-LC (mp4a.40.2) is supported, got %q" [codec])
  else
    let chCfg := match Atoi channelConfig with Some cc => u8 cc | None => 2 end in
    Ret (LOCAACWriter w sampleRate chCfg objectType).

Definition Write (lw : locWriter) (payload : bytes) : P unit :=
  match lw with
  | LOCVideoWriter w => annexB_write (length payload) w payload
  | LOCAACWriter w sr ch ot =>
      do! hdr := done (owrap "LOC AAC: ADTS header: %w" [] (ADTSHeader sr ch ot (u16 (len payload)))) in
      do! _ := write_out w hdr in write_out w payload
  | LOCOpusWriter w => write_out w payload
  end.

(** ** Decryption ([asset.go], [cenc.go]) *)
Definition DecryptInit (initData : bytes) : outcome (bytes * bytes * DecryptInfo) :=
  let! f := DecodeFileSR initData in
  match fileInit f with
  | None => errorf "no init segment in initData"
  | Some i =>
      match mp4_DecryptInit i with
      | Panic => Panic
      | Err _ => errorf "unable to decrypt init"
      | Ret (i, decryptInfo) =>
          match FirstKID decryptInfo with
          | None => Panic
          | Some kid => let! b := EncodeInitSegment i in Ret (b, kid, decryptInfo)
          end
      end
  end.

Definition DecryptFragment (payload : bytes) (decryptInfo : DecryptInfo) (key : bytes) : outcome bytes :=
  let! '(moofBox, rest) := owrap "unable to decode moof: %w" [] (DecodeBox 0 payload) in
  match asMoof moofBox with
  | None => errorf "expected moof box, got %T"
  | Some moof =>
      let! '(mdatBox, _) := owrap "unable to decode mdat: %w" [] (DecodeBox (u64 (MoofSize moof)) rest) in
      match asMdat mdatBox with
      | None => errorf "expected mdat box, got %T"
      | Some mdat =>
          let! frag := owrap "unable to decrypt fragment: %w" []
                         (mp4_DecryptFragment (fragmentOf moof mdat) decryptInfo key) in
          owrap "unable to encode decrypted fragment: %w" [] (EncodeFragment frag)
      end
  end.

Record CENC := mkCENC { cKey : bytes; cDecryptInfo : gmap string DecryptInfo; ProtectedMoov : gmap string MoovBox }.

(** The body of the response is decoded when the status is OK; otherwise the
    error shows the status, here by its code. *)
Definition requestClearKey (laurl : string) (kids : list string) : P (list keyInfo) :=
  do! r := perform (HttpPost laurl kids) in
  match r with
  | inl e => done (Err e)
  | inr resp =>
      if negb (StatusCode resp =? StatusOK) then done (Err (Errorf "ClearKey request failed: %s" [pretty (StatusCode resp)]))
      else done (keysOf resp)
  end.

(** The last entry of [ContentProtections] with the reference ID. *)
Definition emptyContentProtection : ContentProtection := mkContentProtection "" [] "" None.
Definition find_protection (refID : string) (cps : list ContentProtection) : ContentProtection :=
  fold_left (fun found cp => if bool_decide (refID = RefID cp) then cp else found) cps emptyContentProtection.

Fixpoint unpack_kids (uuids : list string) (kids : list string) : outcome (list string) :=
  match uuids with
  | [] => Ret kids
  | uuid :: uuids =>
      let! kid := owrap "failed to unpack kid UUID: %w" [] (UnpackKey uuid) in
      unpack_kids uuids (kids ++ [RawURL_EncodeToString kid])
  end.

(** [DRMSystem.LaURL.URL] *)
Definition laURL_of (cp : ContentProtection) : outcome string :=
  match s ← cpDRMSystem cp; LaURL s with Some l => Ret (svcURL l) | None => Panic end.

(** The key of the one license. *)
Definition single_key (keys : list keyInfo) : outcome bytes :=
  match keys with
  | [] => errorf "no keys found in ClearKey response"
  | [k] => owrap "unable to base64URL-decode key in ClearKey response: %w" [] (RawURL_DecodeString (K k))
  | _ => Err (Errorf "too many keys in ClearKey response: got %d, want 1" [pretty (len keys)])
  end.

(** A failed [requestClearKey] is wrapped. *)
Definition wrap {A : Type} (f : string) (args : list string) (t : P A) : P A :=
  ITreeDefinition.ITree.bind t (fun o => done (owrap f args o)).

(** The key that is stored. *)
Definition setClearKeyDecryptionKey (refID : string) : P bytes :=
  do! c := the_catalog in
  let cp := find_protection refID (catContentProtections c) in
  do! kids := done (unpack_kids (DefaultKIDs cp) []) in
  if bool_decide (RefID cp = EmptyString) then
    done (Err (Errorf "failed to find contentProtection with refID %s" [refID]))
  else
    do! laurl := done (laURL_of cp) in
    do! keys := wrap "failed to fetch ClearKey: %w" [] (requestClearKey laurl kids) in
    done (single_key keys).

(** The loop over the reference IDs of the track: the index into the
    protections of the catalog is the index of the ID in the track. *)
Fixpoint clear_key_ref (i : Z) (ids : list string) (found : string) : P string :=
  match ids with
  | [] => done (Ret found)
  | id :: ids =>
      do! c := the_catalog in
      do! cp := done (index (catContentProtections c) i) in
      match cpDRMSystem cp with
      | None => done Panic
      | Some s => clear_key_ref (i + 1) ids (if bool_decide (SystemID s = CommonSystemID) then id else found)
      end
  end.

Definition decryptInit (cenc : CENC) (track : Track) (initData : string) : P (CENC * string) :=
  do! initDataBytes := done (owrap "failed to base64 decode init data: %w" [] (DecodeString initData)) in
  do! '(decryptedInitBytes, _, decryptInfo) := done (owrap "failed to decrypt init: %w" [] (DecryptInit initDataBytes)) in
  do! clearKeyRefID := clear_key_ref 0 (trContentProtectionRefIDs track) EmptyString in
  if bool_decide (clearKeyRefID = EmptyString) then done (errorf "ClearKey not supported for track")
  else
    do! key := wrap "failed to set ClearKey decryption key: %w" [] (setClearKeyDecryptionKey clearKeyRefID) in
    done (Ret (mkCENC key (<[trName track := decryptInfo]> (cDecryptInfo cenc)) (ProtectedMoov cenc),
               EncodeToString decryptedInitBytes)).

Definition decryptPayload (cenc : CENC) (payload : bytes) (trackName : string) : outcome bytes :=
  DecryptFragment payload (default zeroDecryptInfo (cDecryptInfo cenc !! trackName)) (cKey cenc).
End CencMux.

(** Concrete boxes for examples: a file is an init segment (first byte 1) or
    a segment of one fragment (first byte 2); every time scale is 1000; a
    catalog object [n] stands for a catalog of [n] video tracks "0", "1" and
    so on, and the object 0 for null. *)
Definition numbered_track (n : nat) : Track :=
  {| trName := pretty n; trNamespace := ""; Packaging := "cmaf"; LocmafVersion := "";
     IsLive := true; TargetLatency := None; Role := "video"; Label := "";
     RenderGroup := None; AltGroup := None; InitRef := ""; Dependencies := [];
     TemporalID := None; SpatialID := None; trCodec := ""; Framerate := None;
     Timescale := None; Bitrate := None; Width := None; Height := None; SampleRate := None;
     ChannelConfig := ""; DisplayWidth := None; DisplayHeight := None; trLanguage := "";
     TrackDuration := None; EventType := ""; ParentName := "";
     trContentProtectionRefIDs := []; trAccessibility := [] |}.
Definition numbered_catalog (n : nat) : Catalog := mkCatalog "draft-01" None false [] (numbered_track <$> seq 0 n) [] [].

#[export] Instance SubMp4Concrete : @SubMp4 Mp4Concrete FragConcrete := {|
  DecodeFileSR b :=
    match b with
    | 1 :: i => Ret (mkFile _ FragConcrete (Some i) [])
    | 2 :: d => Ret (mkFile _ FragConcrete None [[[mkFullSample 0 0 (len d) 0 d]]])
    | _ => errorf "unexpected box"
    end;
  MoovBox := bytes; TrakBox := bytes; TrexBox := bytes;
  InitMoov i := Some i; MoovTrak m := Some m; MoovTrex m := Some m;
  setTrakID id t := Some (id :: t); setTrexID id t := id :: t; TrakTimescale _ := Some 1000;
  EncodeMuxed ts xs := Ret (concat ts ++ concat xs);
  setFragmentID _ f := Some f; BaseMediaDecodeTime _ := Some 0; FragmentEncode f := @EncodeFragment _ FragConcrete f;
  DecryptInfo := unit; zeroDecryptInfo := tt; mp4_DecryptInit i := Ret (i, tt); FirstKID _ := Some [1];
  EncodeInitSegment i := Ret (1 :: i); mp4_DecryptFragment f _ _ := Ret f;
  locEff := bytes; locDecode p st _ := (Ret (p, None), S st); ReconstructCanonical _ eff := Ret (Some eff);
  ADTSHeader _ _ _ n := Ret [255; 241; n];
  Unmarshal b := match b with [] => errorf "unexpected end" | 0 :: _ => Ret None | n :: _ => Ret (Some (numbered_catalog (Z.to_nat n))) end;
  MarshalIndent c := Ret (match c with Some c => [len (catTracks c)] | None => [0] end)
|}.
