(* ===== verification/Publication.v ===== *)
(** * What a publication is: the protocol of a publishing goroutine

    The abstract specification that the publishing goroutines implement.  A
    publication reads the clock once, then opens one subgroup per group, the
    groups in increasing order, and writes the objects of the group in order,
    with IDs from 0 and none before it is due, and closes the subgroup; the
    context's end or a failure of the transport stops it.  What the objects of
    a group are is the parameter [gen]. *)
From S2P Require Import Prelude Io GoFloat Media Timeline Catalog Loc Nalu Av1 Cc608 InitTrack Chunk Subtitle AssetOps CatalogGen Publisher.
Local Open Scope Z_scope.

#[export] Instance KeyValuePair_eq_dec : EqDecision KeyValuePair.
Proof. solve_decision. Defined.

(** An object: when it is due (Unix milliseconds), its headers given the last
    reading of the clock ([None]: written without headers), its payload. *)
Record pubObject := mkPubObject { due : Z; headersAt : Z -> option KVPList; body : bytes }.

Section Publication.
Context {St : Type}.

(** [first]: the first group when the clock reads so; [gen]: the objects of a
    group, and the state the next group starts with. *)
Record PubSpec := mkPubSpec {
  init : St; first : Z -> Z; prio : Z; gen : St -> Z -> outcome (list pubObject * St)
}.

Inductive phase :=
  | Joining
  | Between (st : St) (group : Z)
  | InGroup (st : St) (group id : Z) (rest : list pubObject)
  (** the goroutine is to return; it may close its subgroup *)
  | Stopped
  (** making the group panics, or the clock is before 1970: nothing is
      specified *)
  | Lost.

(** [wall] is the last reading of the clock; [clock] is a time that has been
    reached, by a reading or by waiting after one. *)
Record pubState := mkPubState { wall : Z; clock : Z; ph : phase }.

Definition set_ph (q : pubState) (p : phase) : pubState := mkPubState (wall q) (clock q) p.

(** A call that fails stops the publication. *)
Definition on_ok (q : pubState) (x : option goerror) (p : phase) : option pubState :=
  Some (set_ph q (match x with None => p | Some _ => Stopped end)).

Definition reads (p : PubSpec) (q : pubState) (t : Z) : option pubState :=
  let q' := mkPubState t (Z.max (clock q) t) (ph q) in
  if t <? 0 then Some (set_ph q Lost) else
  match ph q with
  | Joining => Some (mkPubState t t (Between (init p) (first p t)))
  | Between _ _ | InGroup _ _ _ _ => Some q'
  | _ => None
  end.

Definition opens (p : PubSpec) (q : pubState) (group sub priority : Z) (x : option goerror) : option pubState :=
  match ph q with
  | Between st g =>
      if (group =? g) && (sub =? 0) && (priority =? prio p) then
        on_ok q x (match gen p st g with
                   | Ret (objs, st') => InGroup st' g 0 objs
                   | Err _ => Stopped
                   | Panic => Lost
                   end)
      else None
  | _ => None
  end.

Definition writes (q : pubState) (id : Z) (h : option KVPList) (payload : bytes) (x : option goerror)
  : option pubState :=
  match ph q with
  | InGroup st g id' (o :: rest) =>
      if (id =? id') && bool_decide (h = headersAt o (wall q)) && bool_decide (payload = body o)
         && (due o <=? clock q)
      then on_ok q x (InGroup st g (id' + 1) rest)
      else None
  | _ => None
  end.

Definition step (p : PubSpec) (q : pubState) (X : Type) (e : pubE X) : X -> option pubState :=
  match ph q with
  | Lost => fun _ => Some q
  | _ =>
      match e in pubE X return X -> option pubState with
      | CtxErr => fun x => match ph q with Joining | Stopped => None | p => on_ok q x p end
      | NowMS => fun t => reads p q t
      | After d => fun x =>
          match ph q with
          | Between _ _ | InGroup _ _ _ _ => on_ok (mkPubState (wall q) (clock q + d) (ph q)) x (ph q)
          | _ => None
          end
      | OpenSubgroup g s pr => fun x => opens p q g s pr x
      | WriteObject id b => fun x => writes q id None b x
      | WriteObjectWithHeaders id h b => fun x => writes q id (Some h) b x
      | CloseSubgroup => fun x =>
          match ph q with
          | InGroup st g _ [] => on_ok q x (Between st (u64 (g + 1)))
          | Stopped => Some q
          | _ => None
          end
      end
  end.

Definition start : pubState := mkPubState 0 0 Joining.

(** How a publication may end: stopped, or with a panic when a group could
    not be made. *)
Definition ends (r : outcome unit) (q : pubState) : Prop :=
  match r with
  | Ret _ => ph q = Stopped \/ ph q = Lost
  | _ => ph q = Lost
  end.
End Publication.
Arguments PubSpec St : clear implicits.
Arguments phase St : clear implicits.
Arguments pubState St : clear implicits.

(** The program refines the specification: in every environment, and however
    long it is observed, its trace is one of the specification; it ends only
    as specified, and while it runs it does not fall silent. *)
Definition refines {St : Type} (p : PubSpec St) (t : prog pubE unit) : Prop :=
  forall (W : Type) (h : forall X, pubE X -> W -> X * W) (n : nat) (w : W) tr r,
    run h n w t = (tr, r) ->
    exists q, after (step p) start tr = Some q /\
      match r with
      | Some r => ends r q
      | None => (n <= 2 * length tr + 1)%nat
      end.

Lemma refines_intro {St : Type} (p : PubSpec St) (t : prog pubE unit) :
  (forall n, keeps (step p) n true start t (fun r _ q => ends r q)) -> refines p t.
Proof.
  intros H W h n w tr r Hr. destruct (keeps_run _ h n true w start t _ tr r (H n) Hr) as (q & Hq & HP).
  exists q. split; [done|]. destruct r; [|done]. by destruct HP.
Qed.

(** ** Steps through a program *)
Section Steps.
Context {St : Type} (p : PubSpec St).

Lemma step_lost q X (e : pubE X) x : ph q = Lost -> step p q X e x = Some q.
Proof. intros H. unfold step. by rewrite H. Qed.

Definition active (q : pubState St) : Prop :=
  match ph q with Between _ _ | InGroup _ _ _ _ => True | _ => False end.

(** What a program does after a failed call. *)
Definition when_stopped {A : Type} (n : nat) (k : goerror -> prog pubE A) P : Prop :=
  forall e q, ph q = Stopped -> keeps (step p) n true q (k e) P.

Lemma keeps_ctx {A : Type} n b q (k : option goerror -> prog pubE A) P :
  active q -> keeps (step p) n true q (k None) P -> when_stopped n (fun e => k (Some e)) P ->
  keeps (step p) n b q (gobind (perform CtxErr) k) P.
Proof.
  intros Ha Hk Hs. apply keeps_do. intros x.
  assert (step p q _ CtxErr x = on_ok q x (ph q)) as ->
    by (unfold step, active in *; by destruct (ph q)).
  unfold on_ok. eexists. split; [done|]. destruct x as [e|]; [by apply Hs|]. by destruct q.
Qed.

Lemma keeps_now {A : Type} n b q (k : Z -> prog pubE A) P :
  active q ->
  (forall now, 0 <= now -> keeps (step p) n true (mkPubState now (Z.max (clock q) now) (ph q)) (k now) P) ->
  (forall now q', ph q' = Lost -> keeps (step p) n true q' (k now) P) ->
  keeps (step p) n b q (gobind (perform NowMS) k) P.
Proof.
  intros Ha Hk Hl. apply keeps_do. intros now.
  assert (step p q _ NowMS now = reads p q now) as -> by (unfold step, active in *; by destruct (ph q)).
  unfold reads. destruct (Z.ltb_spec now 0).
  - eexists. split; [done|]. by apply Hl.
  - exists (mkPubState now (Z.max (clock q) now) (ph q)). split; [unfold active in Ha; by destruct (ph q)|]. by apply Hk.
Qed.

(** Waiting as long as the programs do brings the clock to [d]. *)
Lemma wait_enough c now d : 0 <= now -> - 2 ^ 63 <= d < 2 ^ 63 ->
  if i64 (d - now) >? 0 then d <= Z.max c now + i64 (d - now) else d <= Z.max c now.
Proof.
  intros Hn Hd. rewrite Z.gtb_ltb. destruct (Z.ltb_spec 0 (i64 (d - now))) as [H|H];
    (destruct (Z.le_gt_cases (- 2 ^ 63) (d - now)); [rewrite i64_small in * by lia; lia|lia]).
Qed.

Lemma keeps_wait {A : Type} n b now c d phi (k : option goerror -> prog pubE A) P :
  active (mkPubState now (Z.max c now) phi) -> 0 <= now -> - 2 ^ 63 <= d < 2 ^ 63 ->
  (forall b' c', d <= c' -> keeps (step p) n b' (mkPubState now c' phi) (k None) P) ->
  when_stopped n (fun e => k (Some e)) P ->
  keeps (step p) n b (mkPubState now (Z.max c now) phi)
    (gobind (if i64 (d - now) >? 0 then perform (After (i64 (d - now))) else done (Ret None)) k) P.
Proof.
  intros Ha Hn Hd Hk Hs. pose proof (wait_enough c now d Hn Hd) as Hw.
  destruct (i64 (d - now) >? 0); [|apply keeps_lift; cbn [andThen]; by apply Hk].
  apply keeps_do. intros x. eexists. split.
  - unfold step, active in *. cbn [ph] in *. destruct phi; try done; reflexivity.
  - cbn. destruct x as [e|]; [by apply Hs|]. by apply Hk.
Qed.

Lemma keeps_open {A : Type} n b q st g g' pr (k : option goerror -> prog pubE A) P :
  ph q = Between st g -> g' = g -> pr = prio p ->
  keeps (step p) n true (set_ph q (match gen p st g with
                   | Ret (objs, st') => InGroup st' g 0 objs
                   | Err _ => Stopped
                   | Panic => Lost
                   end)) (k None) P ->
  when_stopped n (fun e => k (Some e)) P ->
  keeps (step p) n b q (gobind (perform (OpenSubgroup g' 0 pr)) k) P.
Proof.
  intros Hph -> -> Hk Hs. apply keeps_do. intros x. unfold step, opens. rewrite Hph, !Z.eqb_refl. cbn [andb].
  unfold on_ok. eexists. split; [done|]. destruct x as [e|]; [by apply Hs|done].
Qed.

Lemma writes_head (q : pubState St) st g id o rest h x : ph q = InGroup st g id (o :: rest) -> h = headersAt o (wall q) -> due o <= clock q ->
  writes q id h (body o) x = on_ok q x (InGroup st g (id + 1) rest).
Proof.
  intros Hph -> Hd. unfold writes. rewrite Hph, Z.eqb_refl, !bool_decide_true by done.
  by rewrite (proj2 (Z.leb_le _ _)).
Qed.

Lemma keeps_write_headers {A : Type} n b q st g id id' o rest h payload (k : option goerror -> prog pubE A) P :
  ph q = InGroup st g id (o :: rest) -> id' = id -> Some h = headersAt o (wall q) -> payload = body o -> due o <= clock q ->
  keeps (step p) n true (set_ph q (InGroup st g (id + 1) rest)) (k None) P ->
  when_stopped n (fun e => k (Some e)) P ->
  keeps (step p) n b q (gobind (perform (WriteObjectWithHeaders id' h payload)) k) P.
Proof.
  intros Hph -> Hh -> Hd Hk Hs. apply keeps_do. intros x. unfold step. rewrite Hph.
  rewrite (writes_head q st g id o rest (Some h)) by done. unfold on_ok.
  eexists. split; [done|]. destruct x as [e|]; [by apply Hs|done].
Qed.

Lemma keeps_write {A : Type} n b q st g id id' o rest payload (k : option goerror -> prog pubE A) P :
  ph q = InGroup st g id (o :: rest) -> id' = id -> None = headersAt o (wall q) -> payload = body o -> due o <= clock q ->
  keeps (step p) n true (set_ph q (InGroup st g (id + 1) rest)) (k None) P ->
  when_stopped n (fun e => k (Some e)) P ->
  keeps (step p) n b q (gobind (perform (WriteObject id' payload)) k) P.
Proof.
  intros Hph -> Hh -> Hd Hk Hs. apply keeps_do. intros x. unfold step. rewrite Hph.
  rewrite (writes_head q st g id o rest None) by done. unfold on_ok.
  eexists. split; [done|]. destruct x as [e|]; [by apply Hs|done].
Qed.

Lemma keeps_close {A : Type} n b q st g id (k : option goerror -> prog pubE A) P :
  ph q = InGroup st g id [] ->
  keeps (step p) n true (set_ph q (Between st (u64 (g + 1)))) (k None) P ->
  when_stopped n (fun e => k (Some e)) P ->
  keeps (step p) n b q (gobind (perform CloseSubgroup) k) P.
Proof.
  intros Hph Hk Hs. apply keeps_do. intros x. unfold step. rewrite Hph. unfold on_ok.
  eexists. split; [done|]. destruct x as [e|]; [by apply Hs|done].
Qed.

Lemma keeps_close_stopped {A : Type} n b q (k : option goerror -> prog pubE A) P :
  ph q = Stopped -> (forall x, keeps (step p) n true q (k x) P) ->
  keeps (step p) n b q (gobind (perform CloseSubgroup) k) P.
Proof.
  intros Hph Hk. apply keeps_do. intros x. unfold step. rewrite Hph. eexists. split; [done|]. apply Hk.
Qed.

(** The clock reading that a publication starts with. *)
Lemma keeps_join {A : Type} n b (k : Z -> prog pubE A) P :
  (forall now, 0 <= now -> keeps (step p) n true (mkPubState now now (Between (init p) (first p now))) (k now) P) ->
  (forall now q', ph q' = Lost -> keeps (step p) n true q' (k now) P) ->
  keeps (step p) n b start (gobind (perform NowMS) k) P.
Proof.
  intros Hk Hl. apply keeps_do. intros now. cbn. unfold reads. destruct (Z.ltb_spec now 0).
  - eexists. split; [done|]. by apply Hl.
  - eexists. split; [done|]. by apply Hk.
Qed.
End Steps.

(** A call made after a group was lost. *)
Ltac kdo_lost :=
  apply keeps_do; let x := fresh "x" in intros x; eexists; split; [by apply step_lost|]; cbn beta.
(** A Go function that returned [o]. *)
Ltac klift := apply keeps_lift; cbn [andThen].


(** A program that only calls and branches, after a group was lost. *)
Ltac klost :=
  repeat match goal with
  | |- keeps _ _ _ _ (gobind (perform _) _) _ => kdo_lost
  | |- keeps _ _ _ _ (gobind (done ?o) _) _ => apply keeps_lift; destruct o; cbn [andThen]
  | |- keeps _ _ _ _ (gobind (if ?b then _ else _) _) _ => destruct b
  | |- keeps _ _ _ _ (done _) _ => apply keeps_done
  | |- keeps _ _ _ _ (match ?x with _ => _ end) _ => destruct x
  end.

(** A program that is to return, after a failed call. *)
Ltac kstop :=
  repeat match goal with
  | |- when_stopped _ _ _ _ => let e := fresh "e" in let q := fresh "q" in let H := fresh "Hq" in
      intros e q H; cbn beta iota
  | |- keeps _ _ _ _ (gobind (perform CloseSubgroup) _) _ =>
      apply keeps_close_stopped; [done|intros ?]
  | |- keeps _ _ _ _ (done _) _ => apply keeps_done; cbn; auto
  end.
