(* ===== verification/PublisherProps.v ===== *)
(** * The publishing goroutines implement the publication protocol *)
From S2P Require Import Prelude Io GoFloat Media Timeline Catalog Loc Nalu Av1 Av1Props Cc608 InitTrack Chunk ChunkProps Subtitle AssetOps CatalogGen Publisher Publication.
From stdpp Require Import list_numbers.
Local Open Scope Z_scope.
Local Open Scope go_scope.
Local Open Scope prog_scope.

(** Every element, or the first failure. *)
Fixpoint mapO {A B : Type} (f : A -> outcome B) (l : list A) : outcome (list B) :=
  match l with
  | [] => Ret []
  | x :: l => let! y := f x in let! ys := mapO f l in Ret (y :: ys)
  end.

Lemma mapO_Ret {A B : Type} (f : A -> outcome B) l ys : mapO f l = Ret ys ->
  length ys = length l /\ forall i y, ys !! i = Some y -> exists x, l !! i = Some x /\ f x = Ret y.
Proof.
  revert ys. induction l as [|x l IH]; intros ys H; cbn in H; simplify_out; [done|].
  destruct (IH _ Hm0) as [Hl Hi]. cbn. split; [by rewrite Hl|].
  intros [|i] y Hy; cbn in *; [naive_solver|eauto].
Qed.

(** Functions that return no error. *)
Definition no_err {A : Type} (o : outcome A) : Prop := match o with Err _ => False | _ => True end.

Lemma no_err_bind {A B : Type} (o : outcome A) (k : A -> outcome B) :
  no_err o -> (forall a, no_err (k a)) -> no_err (obind o k).
Proof. destruct o; cbn; auto. Qed.
Lemma no_err_udiv a b : no_err (udiv a b).
Proof. unfold udiv. by destruct (b =? 0). Qed.
Lemma no_err_umod a b : no_err (umod a b).
Proof. unfold umod. by destruct (b =? 0). Qed.
Lemma no_err_index {A : Type} (l : list A) i : no_err (index l i).
Proof. unfold index. destruct (i <? 0); [done|]. by destruct (l !! _). Qed.
Lemma no_err_mapO {A B : Type} (f : A -> outcome B) l : (forall x, no_err (f x)) -> no_err (mapO f l).
Proof. intros H. induction l; cbn; [done|]. apply no_err_bind; [done|]. intros. by apply no_err_bind. Qed.
#[export] Hint Resolve no_err_udiv no_err_umod no_err_index : go.

(** Opens a chain of calls that return no error. *)
Ltac no_err_chain :=
  repeat first
    [ apply no_err_bind; [solve [auto with go]|let x := fresh "x" in intros x; destruct_pairs]
    | done ].

Section LOC.
Context {M : Mp4Types} {NL : @NaluLib M} {AL : @Av1Lib M} {CL : @CcLib M} {FL : @FragLib M} {SL : @SubLib M}
  {PB : PubLib}.

(** ** LOC tracks *)
Definition loc_object (lt : LOCTrack) (cap : videoCaptioner) (sei : option (list bytes)) (startNr n : Z)
  : outcome pubObject :=
  let! '(sample, data) := loc_frame lt cap sei startNr n in
  let! d := loc_due (locContentTrack lt) n in
  let! '(h, payload) := loc_payload lt n sample data in
  Ret (mkPubObject d (fun _ => Some h) payload).

Lemma loc_object_no_err lt cap sei s n : no_err (loc_object lt cap sei s n).
Proof.
  unfold loc_object. apply no_err_bind; [|intros [sample data]; apply no_err_bind; [|intros d; apply no_err_bind]].
  - unfold loc_frame. apply no_err_bind.
    { unfold CalcSample. no_err_chain. }
    intros [? o]. apply no_err_bind; [auto with go|]. intros sample. apply no_err_bind.
    { destruct (SpatialLayer lt); no_err_chain. }
    intros sample'. apply no_err_bind; [|done]. unfold spliceFrame.
    destruct sei; [|done]. destruct (sei_for _ _ _); [|done]. by destruct (SpliceSEIBeforeVCL _ _ _).
  - unfold loc_due. no_err_chain.
  - unfold loc_payload. destruct (loc_config _) as [c ad]. unfold Pub.buildLOCObject. no_err_chain.
  - by intros [h payload].
Qed.

(** The objects of a LOC group: one for every sample of the group. *)
Definition loc_gen (lt : LOCTrack) (cap : videoCaptioner) (g : Z) : outcome (list pubObject) :=
  let! '(s, e) := CalcLOCGroupRange (locContentTrack lt) g MoqGroupDurMS in
  mapO (loc_object lt cap (schedule cap (i64 g) s e) s) (seqZ s (e - s)).

(** The first group after the one of the wall clock. *)
Definition next_second (now : Z) : Z := u64 (u64 now / MoqGroupDurMS + 1).

Definition loc_spec (lt : LOCTrack) (cap : videoCaptioner) : PubSpec unit := {|
  init := tt; first := next_second; prio := Pub.locPriority (spatial_id (SpatialLayer lt));
  gen _ g := let! objs := loc_gen lt cap g in Ret (objs, tt)
|}.

Lemma calcMoQGroup_u64 t nr D s e : 0 < SampleDur t -> calcMoQGroup t nr D = Ret (s, e) -> is_u 64 s /\ is_u 64 e.
Proof.
  intros Hd H. unfold calcMoQGroup in H. simplify_out. unfold udiv in *.
  rewrite (proj2 (Z.eqb_neq (SampleDur t) 0)) in * by lia. simplify_out.
  assert (forall x r, is_u 64 (if negb (r =? 0) then u64 (u64 x / 1000 / SampleDur t + 1) else u64 x / 1000 / SampleDur t))
    as Hu.
  { intros x r. destruct (negb _); [apply u64_range|]. pose proof (u64_range x). unfold is_u.
    split; [apply Z.div_pos; [apply Z.div_pos|]; lia|].
    apply Z.div_lt_upper_bound; [lia|]. apply Z.div_lt_upper_bound; nia. }
  split; apply Hu.
Qed.

(** How the loop over the samples ends. *)
Definition samples_end {St : Type} (st : St) (g : Z) (o : outcome flow) (q : pubState St) : Prop :=
  match o with
  | Ret Next => (exists id, ph q = InGroup st g id []) \/ ph q = Lost
  | Ret Return => ph q = Stopped \/ ph q = Lost
  | _ => ph q = Lost
  end.

Definition samples_inv {St : Type} (f : Z -> outcome pubObject) (s e : Z) (st : St) (g : Z) (ki : Z * Z) (q : pubState St)
  : Prop :=
  ph q = Lost \/
  let '(k, id) := ki in
  s <= k /\ id = k - s /\ is_u 64 k /\ exists rest, ph q = InGroup st g id rest /\ mapO f (seqZ k (e - k)) = Ret rest.

Lemma keeps_loc_samples lt cap sei s e g n b q st :
  is_u 64 s -> is_u 64 e -> samples_inv (loc_object lt cap sei s) s e st g (s, 0) q ->
  keeps (step (loc_spec lt cap)) n b q (loop (loc_sample_round lt cap sei s e) (s, 0)) (fun o _ q => samples_end st g o q).
Proof.
  intros Hs He Hq.
  apply (keeps_loop _ (samples_inv (loc_object lt cap sei s) s e st g)); [|done].
  clear Hq. intros m b1 [k id] [w c ph0] Hinv _. unfold loc_sample_round, close_return.
  destruct Hinv as [Hl|(Hsk & -> & Hk & rest & Hph & Hrest)].
  { cbn in Hl. subst ph0. klost; cbn; unfold samples_inv; cbn; auto. }
  cbn in Hph. subst ph0. destruct (Z.ltb_spec k e).
  2: { rewrite seqZ_nil in Hrest by lia. cbn in Hrest. simplify_out. apply keeps_done. cbn. eauto. }
  rewrite seqZ_cons in Hrest by lia. cbn [mapO] in Hrest. unfold loc_object at 1 in Hrest.
  destruct (loc_frame lt cap sei s k) as [[sample data]| |] eqn:Hf; [|done..]. cbn [obind] in Hrest.
  destruct (loc_due (locContentTrack lt) k) as [d| |] eqn:Hd; [|done..]. cbn [obind] in Hrest.
  destruct (loc_payload lt k sample data) as [[h payload]| |] eqn:Hp; [|done..]. cbn [obind] in Hrest.
  destruct (mapO _ (seqZ _ _)) as [rest'| |] eqn:Hrest'; [|done..]. cbn [obind] in Hrest. simplify_out.
  assert (- 2 ^ 63 <= d < 2 ^ 63) as Hdr by (unfold loc_due in Hd; simplify_out; apply i64_range).
  apply keeps_ctx; [done| |kstop].
  klift. klift. apply keeps_now; [done| |].
  2: { intros now q1 Hl. unfold samples_inv, samples_end. klost; auto. }
  intros now Hnow. apply keeps_wait; [done..| |kstop]. intros b' c' Hc'.
  klift. rewrite Hp. cbn [andThen].
  eapply keeps_write_headers; [done..| |kstop]. apply keeps_done. split; [done|]. right.
  rewrite (u64_small (k + 1)), (u64_small (k - s + 1)) by (unfold is_u in *; lia).
  split_and!; [lia|lia|unfold is_u in *; lia|]. exists rest'. cbn. split; [by rewrite Z.add_1_r|].
  by replace (k + 1) with (Z.succ k) by lia; replace (e - Z.succ k) with (Z.pred (e - k)) by lia.
Qed.

(** Between groups, or lost: the invariant of the loops over groups. *)
Definition group_inv {St : Type} (st : St) (g : Z) (q : pubState St) : Prop := ph q = Between st g \/ ph q = Lost.

Lemma keeps_loc_round lt cap n b g q :
  0 < SampleDur (locContentTrack lt) -> group_inv tt g q ->
  keeps (step (loc_spec lt cap)) n b q (loc_round lt cap g) (fun o b' q' =>
    match o with Ret (inl g') => b' = true /\ group_inv tt g' q' | Ret (inr _) => ends (Ret tt) q' | _ => ph q' = Lost end).
Proof.
  intros Hdur Hq. unfold loc_round, stop.
  (* what follows the opening of the subgroup *)
  assert (forall n q, (exists s e, CalcLOCGroupRange (locContentTrack lt) g MoqGroupDurMS = Ret (s, e) /\
      is_u 64 s /\ is_u 64 e /\
      samples_inv (loc_object lt cap (schedule cap (i64 g) s e) s) s e tt g (s, 0) q) ->
    keeps (step (loc_spec lt cap)) n true q
      (do! '(startNr, endNr) := done (CalcLOCGroupRange (locContentTrack lt) g MoqGroupDurMS) in
       let sei := schedule cap (i64 g) startNr endNr in
       do! f := loop (loc_sample_round lt cap sei startNr endNr) (startNr, 0) in
       match f with
       | Return => done (Ret (inr tt))
       | Next => do! e := perform CloseSubgroup in
           match e with Some _ => done (Ret (inr tt)) | None => done (Ret (inl (u64 (g + 1)))) end
       end)
      (fun o b' q' => match o with
        Ret (inl g') => b' = true /\ group_inv tt g' q' | Ret (inr _) => ends (Ret tt) q' | _ => ph q' = Lost end)) as Hin.
  { intros n1 q1 (s & e & Hr & Hs & He & Hinv). rewrite Hr. klift.
    apply keeps_gobind. eapply keeps_mono; [|by apply keeps_loc_samples].
    intros [[|]|x|] b1 q2 Hend; cbn [andThen samples_end] in *.
    - destruct Hend as [[id Hph]|Hl].
      + eapply keeps_close; [done| |kstop]. apply keeps_done. split; [done|]. by left.
      + klost; cbn; unfold group_inv; auto.
    - apply keeps_done. cbn. tauto.
    - by apply keeps_done.
    - by apply keeps_done. }
  assert (exists s e, CalcLOCGroupRange (locContentTrack lt) g MoqGroupDurMS = Ret (s, e)) as (s & e & Hr).
  { unfold CalcLOCGroupRange, calcMoQGroup. rewrite !udiv_Ret, !umod_Ret by lia. cbn [obind]. eauto. }
  destruct (calcMoQGroup_u64 _ _ _ _ _ Hdur Hr) as [Hs He].
  destruct Hq as [Hph|Hl].
  - apply keeps_ctx; [unfold active; by rewrite Hph| |kstop].
    eapply keeps_open; [done..| |kstop].
    apply Hin. exists s, e. split_and!; [done..|]. cbn. unfold loc_gen. rewrite Hr. cbn [obind].
    destruct (mapO _ _) as [rest|x|] eqn:Hm; cbn.
    + right. split_and!; [lia|lia|done|]. by exists rest.
    + (* a Go error: the functions that make an object do not return one *)
      pose proof (no_err_mapO (loc_object lt cap (schedule cap (i64 g) s e) s) (seqZ s (e - s))) as Hne.
      rewrite Hm in Hne. by destruct Hne; apply loc_object_no_err.
    + by left.
  - kdo_lost. destruct x; [klost; cbn; auto|]. kdo_lost. destruct x; [klost; cbn; auto|].
    apply Hin. exists s, e. split_and!; [done..|]. by left.
Qed.

(** The loop over the groups, once every round keeps to the protocol. *)
Lemma keeps_groups {St S1 : Type} (p : PubSpec St) (inv : S1 -> pubState St -> Prop)
    (round : S1 -> prog pubE (S1 + unit)) n b q s :
  (forall n b s q, inv s q -> keeps (step p) n b q (round s) (fun o b' q' =>
     match o with Ret (inl s') => b' = true /\ inv s' q' | Ret (inr _) => ends (Ret tt) q' | _ => ph q' = Lost end)) ->
  inv s q -> keeps (step p) n b q (loop round s) (fun r _ q => ends r q).
Proof.
  intros Hround Hinv. apply (keeps_loop _ inv); [|done]. intros m b1 s1 q1 Hi _.
  eapply keeps_mono; [|by apply Hround]. by intros [[s'|[]]|e|] b2 q2.
Qed.
End LOC.

(** C13. [PublishLOCTrack] implements its specification in every environment:
    it joins at the first group after the current second, opens one subgroup
    per group with the priority of its layer, writes the object of every
    sample of the group in order, with IDs from 0 and none before it is due,
    closes the subgroup when all are written and goes on with the next group;
    it returns only when the context has ended or the transport has failed,
    and panics only when an object cannot be made. *)
Theorem PublishLOCTrack_refines {M : Mp4Types} {NL : @NaluLib M} {AL : @Av1Lib M} {CL : @CcLib M}
    (asset : Asset) (name : string) (lt : LOCTrack) (cap : videoCaptioner) :
  GetLOCTrackByName asset name = Some lt ->
  0 < TimeScale (locContentTrack lt) -> 0 < SampleDur (locContentTrack lt) ->
  newVideoCaptioner (locContentTrack lt) = Ret cap ->
  refines (loc_spec lt cap) (PublishLOCTrack asset name).
Proof.
  intros Hlt Ht Hd Hcap. apply refines_intro. intros n. unfold PublishLOCTrack. rewrite Hlt, Hcap.
  rewrite !(proj2 (Z.eqb_neq _ 0)) by lia. cbn [orb]. klift.
  assert (forall now : Z, CurrMoQGroupNr (locContentTrack lt) (u64 now) MoqGroupDurMS = Ret (u64 now / 1000)) as Hcur
    by done.
  apply keeps_join.
  - intros now Hnow. klift. rewrite Hcur. cbn [andThen]. apply (keeps_groups _ (group_inv tt)).
    + intros. by apply keeps_loc_round.
    + by left.
  - intros now q Hq. klift. rewrite Hcur. cbn [andThen]. apply (keeps_groups _ (group_inv tt)).
    + intros. by apply keeps_loc_round.
    + by right.
Qed.

(** A LOC track for examples: the video track of the test asset, looped. *)
Definition loc_video : ContentTrack := timing_track "video" "video" 12800 512 250 128000.
Definition loc_asset : Asset := mkAsset "test" [mkTrackGroup 1 [loc_video]] 10000 [] None None.
Definition loc_lt : LOCTrack := mkLOCTrack loc_video None.

#[export] Instance PubConcrete : PubLib := {|
  marshalCatalog _ := Ret [1]; VideoHeaders m _ := [mkKVP 1 (vPTS m)];
  AudioAACHeaders m := [mkKVP 2 (aPTS m)]; AudioOpusHeaders m := [mkKVP 3 (aPTS m)];
  AVCDecConfRec _ _ := Ret (Ret [2]);
  ErrorCodeSubscribeTrackDoesNotExist := 4; ErrorCodeFetchTrackDoesNotExist := 5
|}.

Lemma PublishLOCTrack_refines_witness :
  refines (loc_spec (AL := Av1Concrete) loc_lt noCaptioner)
    (PublishLOCTrack (NL := NaluConcrete) (AL := Av1Concrete) loc_asset "video").
Proof.
  apply (PublishLOCTrack_refines (NL := NaluConcrete) (AL := Av1Concrete) loc_asset "video" loc_lt).
  - vm_compute. reflexivity.
  - reflexivity.
  - reflexivity.
  - vm_compute. reflexivity.
Defined.

(** An environment whose clock advances by 15 ms per reading and in which
    nothing fails: the first calls of the goroutine. *)
Definition calm (X : Type) (e : pubE X) (now : Z) : X * Z :=
  match e in pubE X return X * Z with
  | CtxErr => (None, now)
  | NowMS => (now, now + 15)
  | After d => (None, now + d)
  | OpenSubgroup _ _ _ | WriteObject _ _ | WriteObjectWithHeaders _ _ _ | CloseSubgroup => (None, now)
  end.

Example loc_run :
  fst (run calm 12 2500 (PublishLOCTrack (NL := NaluConcrete) (AL := Av1Concrete) loc_asset "video")) =
  [Obs NowMS 2500; Obs CtxErr None; Obs (OpenSubgroup 3 0 128) None;
   Obs CtxErr None; Obs NowMS 2515; Obs (After 485) None;
   Obs (WriteObjectWithHeaders 0 [mkKVP 6 3000000] [75]) None;
   Obs CtxErr None; Obs NowMS 3015; Obs (After 25) None;
   Obs (WriteObjectWithHeaders 1 [mkKVP 6 3040000] [76]) None].
Proof. vm_compute. reflexivity. Qed.

(** ** The objects of a LOC group *)
Lemma mapO_total {A B : Type} (f : A -> outcome B) l : (forall x, x ∈ l -> exists y, f x = Ret y) -> exists ys, mapO f l = Ret ys.
Proof.
  induction l as [|x l IH]; intros H; cbn; [by exists []|].
  destruct (H x) as [y ->]; [apply elem_of_cons; by left|]. cbn.
  destruct IH as [ys ->]; [intros z Hz; apply H, elem_of_cons; by right|]. cbn. eauto.
Qed.

(** Sample [n] of second [g]: its time, and that the 64-bit products of the
    publisher stay in range. *)
Lemma sample_second {M : Mp4Types} (ct : ContentTrack) g n :
  group_fits ct 1000 g -> 0 < TimeScale ct -> edge ct 1000 g <= n < edge ct 1000 (g + 1) ->
  g * TimeScale ct <= n * SampleDur ct < (g + 1) * TimeScale ct /\
  g * 1000 <= n * SampleDur ct * 1000 / TimeScale ct < (g + 1) * 1000 /\
  0 <= n /\ n * SampleDur ct * 1000 < 2 ^ 64.
Proof.
  intros (Hg & _ & _ & Hd & Hfit & _ & _) Ht [Hlo Hhi].
  apply edge_le_iff in Hlo; [|done].
  assert (~ (edge ct 1000 (g + 1) <= n)) as Hn by lia. rewrite edge_le_iff in Hn by done.
  assert (g * TimeScale ct <= n * SampleDur ct < (g + 1) * TimeScale ct) as Hb by nia.
  split; [done|]. split; [|split; nia].
  split; [apply Z.div_le_lower_bound; nia|apply Z.div_lt_upper_bound; nia].
Qed.

Section LocObjects.
Context {M : Mp4Types} {NL : @NaluLib M} {AL : @Av1Lib M} {CL : @CcLib M}.

Lemma loc_frame_made (lt : LOCTrack) cap sei s n :
  sample_fits (locContentTrack lt) n ->
  LoopDur (locContentTrack lt) <= len (Samples (locContentTrack lt)) * SampleDur (locContentTrack lt) ->
  (forall l, SpatialLayer lt = Some l -> length (layerSamples l) = length (Samples (locContentTrack lt))) ->
  (forall data, is_panic (spliceFrame cap data sei n s) = false) ->
  exists sample data, loc_frame lt cap sei s n = Ret (sample, data).
Proof.
  intros Hfits Hcover Hlayer Hsplice. unfold loc_frame.
  destruct (loop_sample_exists _ n Hfits Hcover) as (o & x & -> & Ho & Hx). cbn [obind]. rewrite Hx. cbn [obind].
  assert (exists x', match SpatialLayer lt with
    | Some l => let! data := index (layerSamples l) o in Ret (mkFullSample (Flags x) (Dur x) (u32 (len data)) (DecodeTime x) data)
    | None => Ret x end = Ret x') as [x' ->].
  { destruct (SpatialLayer lt) as [l|] eqn:Hl; [|eauto].
    destruct (index_in_range (layerSamples l) o) as [d ->]; [unfold len in *; rewrite (Hlayer l); done|]. cbn. eauto. }
  cbn [obind]. pose proof (Hsplice (Data x')) as Hp.
  destruct (spliceFrame cap (Data x') sei n s) as [d|err|] eqn:Hs; cbn; [eauto| |done].
  exfalso. unfold spliceFrame in Hs. destruct sei as [sei|]; [|done]. destruct (sei_for sei n s); [|done].
  by destruct (SpliceSEIBeforeVCL _ _ _).
Qed.

Lemma loc_payload_made (lt : LOCTrack) n sample data :
  0 < TimeScale (locContentTrack lt) < 2 ^ 32 -> 0 <= n -> 0 <= SampleDur (locContentTrack lt) ->
  n * SampleDur (locContentTrack lt) < 2 ^ 64 ->
  n * SampleDur (locContentTrack lt) * 1000000 / TimeScale (locContentTrack lt) < 2 ^ 64 ->
  exists h config, loc_payload lt n sample data = Ret (h, config ++ data) /\
    Sub.locTimestampMicros h = (n * SampleDur (locContentTrack lt) * 1000000 / TimeScale (locContentTrack lt), true) /\
    (IsSync sample = false -> config = []).
Proof.
  intros Ht Hn Hd Hfit Hus. unfold loc_payload. destruct (loc_config _) as [vc ad].
  rewrite u64_small by nia. rewrite buildLOCObject_value by nia.
  set (cfg := match ad with Some d => _ | None => vc end).
  set (b := IsSync sample && _ && _).
  exists (mkKVP locPropTimestamp (n * SampleDur (locContentTrack lt) * 1000000 / TimeScale (locContentTrack lt)) ::
       match SpatialLayer lt with
       | Some l => [mkKVP locPropFrameMark (Pub.locFrameMarking (layerSpatialID l) (IsSync sample))]
       | None => []
       end), (if b then cfg else []).
  split_and!; [by destruct b|done|]. intros Hs. unfold b. by rewrite Hs.
Qed.

(** The object of sample [n] is made, and is the frame of its time. *)
Lemma loc_object_made (lt : LOCTrack) cap sei s g n :
  let ct := locContentTrack lt in
  group_fits ct 1000 g -> 0 < TimeScale ct < 2 ^ 32 -> (g + 1) * 1000000 < 2 ^ 63 ->
  0 < LoopDur ct <= len (Samples ct) * SampleDur ct ->
  (forall l, SpatialLayer lt = Some l -> length (layerSamples l) = length (Samples ct)) ->
  (forall data, is_panic (spliceFrame cap data sei n s) = false) ->
  edge ct 1000 g <= n < edge ct 1000 (g + 1) ->
  exists sample data h config,
    loc_frame lt cap sei s n = Ret (sample, data) /\
    loc_object lt cap sei s n = Ret (mkPubObject (n * SampleDur ct * 1000 / TimeScale ct) (fun _ => Some h) (config ++ data)) /\
    Sub.locTimestampMicros h = (n * SampleDur ct * 1000000 / TimeScale ct, true) /\ (IsSync sample = false -> config = []).
Proof.
  intros ct Hfits Ht Hg Hloop Hlayer Hsplice Hn.
  destruct (sample_second ct g n Hfits (proj1 Ht) Hn) as (Hb & Hs & Hn0 & Hf).
  destruct Hfits as (Hg0 & _ & _ & Hd & _). fold ct in Hlayer.
  assert (n * SampleDur ct < 2 ^ 64) by lia.
  assert (n * SampleDur ct * 1000000 / TimeScale ct < 2 ^ 64) by (apply Z.div_lt_upper_bound; nia).
  destruct (loc_frame_made lt cap sei s n) as (x & d & Hx); [unfold sample_fits; fold ct; lia|apply Hloop|done|done|].
  destruct (loc_payload_made lt n x d) as (h & config & Hp & Hts & Hc); [done|done|fold ct; lia|done|done|].
  exists x, d, h, config. split; [done|]. split; [|done].
  unfold loc_object. rewrite Hx. cbn [obind]. unfold loc_due. fold ct.
  rewrite (u64_small (n * SampleDur ct)), (u64_small (n * SampleDur ct * 1000)) by nia.
  rewrite udiv_Ret by lia. cbn [obind]. rewrite Hp. cbn [obind]. by rewrite i64_small by lia.
Qed.
End LocObjects.

(** The objects of LOC group [g] are the frames of second [g] of the
    media time line, all of them and in order: they can all be made, each is
    due within that second, at its media time, carries its capture time in
    microseconds, and holds the data of its frame, after the codec
    configuration where there is one. *)
Theorem loc_group_objects {M : Mp4Types} {NL : @NaluLib M} {AL : @Av1Lib M} {CL : @CcLib M}
    (lt : LOCTrack) (cap : videoCaptioner) (g : Z) :
  let ct := locContentTrack lt in
  group_fits ct MoqGroupDurMS g -> 0 < TimeScale ct < 2 ^ 32 -> (g + 1) * 1000000 < 2 ^ 63 ->
  0 < LoopDur ct <= len (Samples ct) * SampleDur ct ->
  (forall l, SpatialLayer lt = Some l -> length (layerSamples l) = length (Samples ct)) ->
  (forall data a b c k s, is_panic (spliceFrame cap data (schedule cap a b c) k s) = false) ->
  exists s e objs, CalcLOCGroupRange ct g MoqGroupDurMS = Ret (s, e) /\ loc_gen lt cap g = Ret objs /\
    length objs = Z.to_nat (e - s) /\
    forall i o, objs !! i = Some o ->
      let n := s + Z.of_nat i in
      due o = n * SampleDur ct * 1000 / TimeScale ct /\ g * 1000 <= due o < (g + 1) * 1000 /\
      exists sample data h config,
        loc_frame lt cap (schedule cap (i64 g) s e) s n = Ret (sample, data) /\
        headersAt o = (fun _ => Some h) /\
        Sub.locTimestampMicros h = (n * SampleDur ct * 1000000 / TimeScale ct, true) /\
        body o = config ++ data /\ (IsSync sample = false -> config = []).
Proof.
  intros ct Hfits Ht Hg Hloop Hlayer Hsplice.
  change MoqGroupDurMS with 1000 in *. pose proof (calcMoQGroup_edges ct 1000 g Hfits) as Hr.
  set (s := edge ct 1000 g) in *. set (e := edge ct 1000 (g + 1)) in *.
  pose proof (fun n => loc_object_made lt cap (schedule cap (i64 g) s e) s g n Hfits Ht Hg Hloop Hlayer
    (fun data => Hsplice data (i64 g) s e n s)) as Hobj.
  destruct (mapO_total (loc_object lt cap (schedule cap (i64 g) s e) s) (seqZ s (e - s))) as [objs Hobjs].
  { intros n Hn%elem_of_seqZ. destruct (Hobj n) as (x & d & h & c & _ & Ho & _); [change (s <= n < e); lia|eauto]. }
  exists s, e, objs. split; [done|]. split; [unfold loc_gen, CalcLOCGroupRange; change (calcMoQGroup _ _ _) with (calcMoQGroup ct g 1000); rewrite Hr; exact Hobjs|].
  destruct (mapO_Ret _ _ _ Hobjs) as [Hlen Hi]. rewrite length_seqZ in Hlen. split; [done|].
  intros i o Ho n. destruct (Hi i o Ho) as (n' & Hn' & Hon). apply lookup_seqZ in Hn' as [-> Hlt].
  assert (s <= n < e) as Hn by lia. destruct (Hobj n Hn) as (x & d & h & c & Hx & Ho' & Hts & Hc).
  fold n in Hon. rewrite Hon in Ho'. injection Ho' as ->. cbn [due headersAt body].
  destruct (sample_second ct g n Hfits (proj1 Ht) Hn) as (_ & Hdue & _).
  split; [done|]. split; [done|]. by exists x, d, h, c.
Qed.

Lemma loc_group_objects_witness :
  exists s e objs, CalcLOCGroupRange loc_video 1700000000 MoqGroupDurMS = Ret (s, e) /\
    loc_gen (AL := Av1Concrete) loc_lt noCaptioner 1700000000 = Ret objs /\
    length objs = Z.to_nat (e - s).
Proof.
  destruct (loc_group_objects (AL := Av1Concrete) loc_lt noCaptioner 1700000000)
    as (s & e & objs & H1 & H2 & H3 & _).
  - unfold group_fits. split_and!; vm_compute; (reflexivity || discriminate).
  - split; reflexivity.
  - reflexivity.
  - vm_compute. split; [done|discriminate].
  - done.
  - done.
  - exists s, e, objs. split; [exact H1|split; [exact H2|exact H3]].
Defined.
