(* ===== verification/TrackProps.v ===== *)
(** * CMAF, LOCMAF and subtitle tracks implement the publication protocol *)
From S2P Require Import Prelude Io GoFloat Media Timeline Catalog Loc Nalu Av1 Av1Props Cc608 InitTrack InitTrackProps Chunk ChunkProps Subtitle AssetOps AssetProps CatalogGen Publisher Publication PublisherProps.
Local Open Scope Z_scope.
Local Open Scope go_scope.
Local Open Scope prog_scope.

(** ** Writing the objects of a group *)
Section Write.
Context {St : Type} (p : PubSpec St).

(** How the loop over the objects of a group ends. *)
Definition objects_end (st : St) (g : Z) (o : outcome unit) (q : pubState St) : Prop :=
  ph q = Lost \/
  match o with
  | Ret _ => exists id, ph q = InGroup st g id []
  | Err _ => ph q = Stopped
  | Panic => False
  end.

Lemma keeps_write_lost n b q nr objs dueMS st g : ph q = Lost ->
  keeps (step p) n b q (write_objects nr objs dueMS) (fun o _ q => objects_end st g o q).
Proof.
  revert n b q nr. induction objs as [|obj objs IH]; intros n b q nr Hl; cbn [write_objects].
  { apply keeps_done. by left. }
  apply keeps_gobind. unfold write_due, objects_end.
  klost; cbn [andThen]; first [by apply IH|apply keeps_done; by left].
Qed.

Lemma keeps_rest_lost n b q nr objs dueMS st g r : ph q = Lost ->
  keeps (step p) n b q (andThen (fun _ : unit => write_objects nr objs dueMS) r) (fun o _ q => objects_end st g o q).
Proof.
  intros Hl. destruct r; cbn [andThen]; [by apply keeps_write_lost|apply keeps_done; by left..].
Qed.

Definition as_objects (dueMS : Z -> Z) (nr : nat) (objs : list bytes) : list pubObject :=
  imap (fun i b => mkPubObject (dueMS (Z.of_nat (nr + i))) (fun _ => None) b) objs.

Lemma as_objects_cons dueMS nr obj objs :
  as_objects dueMS nr (obj :: objs) = mkPubObject (dueMS (Z.of_nat nr)) (fun _ => None) obj :: as_objects dueMS (S nr) objs.
Proof.
  unfold as_objects. cbn [imap]. f_equal; [by rewrite Nat.add_0_r|].
  apply imap_ext. intros i x _. cbn. by rewrite Nat.add_succ_r.
Qed.

Lemma keeps_write_objects n b q nr objs dueMS st g :
  (forall i, - 2 ^ 63 <= dueMS i < 2 ^ 63) ->
  ph q = InGroup st g (Z.of_nat nr) (as_objects dueMS nr objs) ->
  keeps (step p) n b q (write_objects nr objs dueMS) (fun o _ q => objects_end st g o q).
Proof.
  intros Hdue. revert n b q nr. induction objs as [|obj objs IH]; intros n b q nr Hph; cbn [write_objects].
  { apply keeps_done. right. by eexists. }
  rewrite as_objects_cons in Hph. destruct q as [w c phi]. cbn in Hph. subst phi.
  apply keeps_gobind. unfold write_due.
  assert (forall e n b q, ph q = Stopped ->
    keeps (step p) n b q (andThen (fun _ : unit => write_objects (S nr) objs dueMS) (Err e))
      (fun o _ q => objects_end st g o q)) as Hstop by (intros; apply keeps_done; by right).
  apply keeps_ctx; [done| |intros e q Hq; apply keeps_done; by apply Hstop].
  apply keeps_now; [done| |].
  2: { intros now q Hl. cbn zeta. klost; by apply keeps_rest_lost. }
  intros now Hnow. cbn zeta.
  assert (forall A (x y : A), (if i64 (dueMS (Z.of_nat nr) - now) <=? 0 then x else y) =
                              (if i64 (dueMS (Z.of_nat nr) - now) >? 0 then y else x)) as Hflip.
  { intros A x y. rewrite Z.gtb_ltb, Z.leb_antisym. by destruct (0 <? _). }
  rewrite Hflip. apply keeps_wait; [done..| |intros e q Hq; apply keeps_done; by apply Hstop].
  intros b' c' Hc'. eapply keeps_write; [done..| |intros e q Hq; apply keeps_done; by apply Hstop].
  apply keeps_done. cbn [andThen]. apply IH. cbn. f_equal. lia.
Qed.

(** An error of the writer stops the goroutine. *)
Lemma keeps_catch {A : Type} n b q (t : prog pubE unit) (k : option goerror -> prog pubE A) st g P :
  keeps (step p) n b q t (fun o _ q => objects_end st g o q) ->
  (forall n b q id, ph q = InGroup st g id [] -> keeps (step p) n b q (k None) P) ->
  (forall n b q x, ph q = Lost -> keeps (step p) n b q (k x) P) ->
  (forall n b q e, ph q = Stopped -> keeps (step p) n b q (k (Some e)) P) ->
  (forall b q, ph q = Lost -> P Panic b q) ->
  keeps (step p) n b q (gobind (catch t) k) P.
Proof.
  intros Ht Hk Hl Hs Hp. apply keeps_gobind. unfold catch. apply keeps_bind.
  eapply keeps_mono; [|exact Ht]. intros [[]|e|] b1 q1 [Hq|Hq]; apply keeps_done; cbn [andThen].
  - by apply Hl.
  - destruct Hq as [id Hq]. by eapply Hk.
  - by apply Hl.
  - by apply Hs.
  - apply keeps_done. by apply Hp.
  - done.
Qed.
End Write.

Section Track.
Context {M : Mp4Types} {NL : @NaluLib M} {AL : @Av1Lib M} {CL : @CcLib M} {FL : @FragLib M} {SL : @SubLib M}
  {PB : PubLib}.

(** ** CMAF and LOCMAF *)

(** Generating chunks changes nothing of a track but its IV. *)
Definition same_but_iv (t t' : ContentTrack) : Prop := exists iv, t' = with_currentIV t iv.

Lemma same_but_iv_refl t : same_but_iv t t.
Proof. exists (currentIV t). by destruct t. Qed.
Lemma same_but_iv_trans t1 t2 t3 : same_but_iv t1 t2 -> same_but_iv t2 t3 -> same_but_iv t1 t3.
Proof. intros [iv ->] [iv' ->]. by exists iv'. Qed.

Lemma encryptFragment_track t b f t' : encryptFragment t b = Ret (f, t') -> same_but_iv t t'.
Proof.
  unfold encryptFragment. destruct (decodeMoofMdat b); [|done..]. cbn. destruct (cenc t) as [c|]; [|done].
  destruct (EncryptFragment _ _ _ _) as [[fr iv]| |]; [|done..]. cbn. intros [= _ <-]. by eexists.
Qed.

Lemma GenCMAFChunk_track t nr s e cc b t' : GenCMAFChunk t nr s e cc = Ret (b, t') -> same_but_iv t t'.
Proof.
  unfold GenCMAFChunk. destruct (createFragment _ _ _ _ _); [|done..]. cbn. destruct (EncodeFragment _); [|done..]. cbn.
  destruct (0 <? _); [|intros [= _ <-]; apply same_but_iv_refl].
  destruct (encryptFragment t _) as [[f t1]| |] eqn:He; [|done..]. cbn.
  destruct (EncodeFragment f); [|done..]. cbn. intros [= _ <-]. by eapply encryptFragment_track.
Qed.

Lemma GenLocmafChunk_track t nr s e st cc b st' t' : GenLocmafChunk t nr s e st cc = Ret (b, st', t') -> same_but_iv t t'.
Proof.
  unfold GenLocmafChunk. destruct (createFragment _ _ _ _ _); [|done..]. cbn. destruct (EncodeFragment _); [|done..]. cbn.
  assert (forall f t1, (if 0 <? len (contentProtectionRefIDs t) then encryptFragment t a0 else Ret (a, t)) = Ret (f, t1) ->
    same_but_iv t t1) as Hs.
  { intros f t1. destruct (0 <? _); [apply encryptFragment_track|]. intros [= _ <-]. apply same_but_iv_refl. }
  destruct (if 0 <? _ then _ else _) as [[f t1]| |]; [|done..]. cbn.
  destruct (SpecData t1); [|done]. destruct (GetInit _); [|done].
  destruct (EncodeCanonical _ _ _) as [[o st1]| |]; [|done..]. cbn. intros [= _ _ <-]. by eapply Hs.
Qed.

Lemma gen_chunks_track t g pk cc r st objs t' : gen_chunks t g pk cc r st = Ret (objs, t') -> same_but_iv t t'.
Proof.
  revert t st objs t'. induction r as [|[a b] r IH]; intros t st objs t' H; cbn [gen_chunks] in H.
  { simplify_out. apply same_but_iv_refl. }
  destruct (bool_decide _); [|destruct (bool_decide _); [|by eapply IH]].
  - destruct (GenCMAFChunk _ _ _ _ _) as [[c t1]| |] eqn:Hc; [|done..]. cbn in H.
    destruct (gen_chunks _ _ _ _ _ _) as [[l t2]| |] eqn:Hr; [|done..]. cbn in H. injection H as _ <-.
    eapply same_but_iv_trans; [by eapply GenCMAFChunk_track|by eapply IH].
  - destruct (GenLocmafChunk _ _ _ _ _ _) as [[[c st1] t1]| |] eqn:Hc; [|done..]. cbn in H.
    destruct (gen_chunks _ _ _ _ _ _) as [[l t2]| |] eqn:Hr; [|done..]. cbn in H. injection H as _ <-.
    eapply same_but_iv_trans; [by eapply GenLocmafChunk_track|by eapply IH].
Qed.

Lemma GenMoQGroup_track fuel t g batch D pk mg t' :
  GenMoQGroup fuel t g batch D pk = Some (Ret (mg, t')) -> same_but_iv t t'.
Proof.
  unfold GenMoQGroup. destruct (calcMoQGroup _ _ _) as [[s e]| |]; [|done..].
  destruct (newGroupCCSplice _ _ _ _); [|done..]. destruct (chunk_ranges _ _ _ _); [|done]. cbn.
  destruct (gen_chunks _ _ _ _ _ _) as [[objs t1]| |] eqn:Hg; [|done..]. cbn. intros [= _ <-]. by eapply gen_chunks_track.
Qed.

(** With a batch of at least one sample a group is always finished. *)
Lemma GenMoQGroup_ends t g pk : 0 < SampleDur t -> 1 <= SampleBatch t < 2 ^ 62 ->
  exists o, GenMoQGroup (group_fuel t g) t g (SampleBatch t) MoqGroupDurMS pk = Some o.
Proof.
  intros Hd Hb. unfold GenMoQGroup, group_fuel.
  destruct (calcMoQGroup t g MoqGroupDurMS) as [[s e]| |] eqn:Hc; [|eauto..].
  destruct (newGroupCCSplice _ _ _ _); [|eauto..].
  assert (0 <= s /\ 0 <= e < 2 ^ 62) as [Hs He].
  { unfold calcMoQGroup in Hc. rewrite !udiv_Ret, !umod_Ret in Hc by lia. cbn [obind] in Hc. injection Hc as <- <-.
    assert (forall x r, 0 <= (if negb (r =? 0) then u64 (u64 x / 1000 / SampleDur t + 1) else u64 x / 1000 / SampleDur t)
              < 2 ^ 62) as H.
    { intros x r. pose proof (u64_range x).
      assert (0 <= u64 x / 1000 / SampleDur t < 2 ^ 61).
      { split; [apply Z.div_pos; [apply Z.div_pos|]; lia|].
        apply Z.div_lt_upper_bound; [lia|]. apply Z.div_lt_upper_bound; nia. }
      destruct (negb _); [rewrite u64_small|]; lia. }
    split; [|apply H]. apply H. }
  destruct (chunk_ranges_spec (S (Z.to_nat e)) s e (SampleBatch t)) as (r & -> & _); [lia..|]. cbn. eauto.
Qed.

Definition track_gen (packaging : string) (ct : ContentTrack) (g : Z) : outcome (list pubObject * ContentTrack) :=
  match GenMoQGroup (group_fuel ct g) ct g (SampleBatch ct) MoqGroupDurMS packaging with
  | Some o => let! '(mg, ct) := o in Ret (as_objects (objTimeMS ct mg) 0 (MoQObjects mg), ct)
  | None => Panic
  end.

Definition track_spec (packaging : string) (ct : ContentTrack) : PubSpec ContentTrack := {|
  init := ct; first := next_second; prio := MediaPriority; gen := track_gen packaging
|}.

Definition track_inv (s : ContentTrack * Z) (q : pubState ContentTrack) : Prop :=
  let '(ct, g) := s in 0 < SampleDur ct /\ 1 <= SampleBatch ct < 2 ^ 62 /\ group_inv ct g q.

Lemma keeps_track_round pk ct0 n b s q :
  track_inv s q ->
  keeps (step (track_spec pk ct0)) n b q (track_round pk s) (fun o b' q' =>
     match o with Ret (inl s') => b' = true /\ track_inv s' q' | Ret (inr _) => ends (Ret tt) q' | _ => ph q' = Lost end).
Proof.
  destruct s as [ct g]. intros (Hd & Hb & Hq). unfold track_round, stop.
  destruct (GenMoQGroup_ends ct g pk Hd Hb) as [o Ho].
  (* what follows the opening of the subgroup *)
  assert (forall n q, ph q = Lost \/
      match o with Ret (mg, ct') => ph q = InGroup ct' g 0 (as_objects (objTimeMS ct' mg) 0 (MoQObjects mg))
                 | Err _ => ph q = Stopped | Panic => ph q = Lost end ->
    keeps (step (track_spec pk ct0)) n true q
      (match GenMoQGroup (group_fuel ct g) ct g (SampleBatch ct) MoqGroupDurMS pk with
       | None => ITreeDefinition.ITree.spin
       | Some (Err _) => done (Ret (inr tt))
       | Some Panic => done Panic
       | Some (Ret (mg, ct)) =>
           do! e := catch (WriteMoQGroup ct mg) in
           match e with
           | Some _ => done (Ret (inr tt))
           | None => do! e := perform CloseSubgroup in
               match e with Some _ => done (Ret (inr tt)) | None => done (Ret (inl (ct, u64 (g + 1)))) end
           end
       end) (fun o b' q' =>
     match o with Ret (inl s') => b' = true /\ track_inv s' q' | Ret (inr _) => ends (Ret tt) q' | _ => ph q' = Lost end)) as Hin.
  { intros n1 q1 Hq1. rewrite Ho. destruct o as [[mg ct']|e|].
    2: apply keeps_done; cbn; tauto. 2: apply keeps_done; cbn; tauto.
    destruct (GenMoQGroup_track _ _ _ _ _ _ _ _ Ho) as [iv ->].
    apply (keeps_catch _ _ _ _ _ _ (with_currentIV ct iv) g).
    - destruct Hq1 as [Hl|Hph]; [by apply keeps_write_lost|].
      apply keeps_write_objects; [intros; apply int_of_f64_range|done].
    - intros n2 b2 q2 id Hq2. eapply keeps_close; [done| |kstop]. apply keeps_done. cbn. unfold group_inv. auto.
    - intros n2 b2 q2 x Hq2. klost; cbn; unfold group_inv; auto.
    - intros n2 b2 q2 e Hq2. kstop.
    - done. }
  destruct Hq as [Hph|Hl].
  - apply keeps_ctx; [unfold active; by rewrite Hph| |kstop]. eapply keeps_open; [done..| |kstop].
    apply Hin. cbn. unfold track_gen. rewrite Ho. destruct o as [[mg ct']|e|]; cbn; auto.
  - kdo_lost. destruct x; [klost; cbn; auto|]. kdo_lost. destruct x; [klost; cbn; auto|]. apply Hin. by left.
Qed.
End Track.

(** C14. [PublishTrack] implements its specification in every environment:
    from the first group after the current second on, it publishes the chunks
    that [GenMoQGroup] makes of each group, in order, none before the wall
    clock time of its last sample, with the encryption state carried from one
    group to the next; a batch of at least one sample makes every group
    end. *)
Theorem PublishTrack_refines {M : Mp4Types} {NL : @NaluLib M} {AL : @Av1Lib M} {CL : @CcLib M} {FL : @FragLib M}
    (asset : Asset) (name packaging : string) (ct : ContentTrack) :
  AssetOps.GetTrackByName asset (TrimSuffix name LocmafTrackSuffix) = Some ct ->
  0 < SampleDur ct -> 1 <= SampleBatch ct < 2 ^ 62 ->
  refines (track_spec packaging ct) (PublishTrack asset name packaging).
Proof.
  intros Hct Hd Hb. apply refines_intro. intros n. unfold PublishTrack. rewrite Hct.
  assert (forall now : Z, CurrMoQGroupNr ct (u64 now) MoqGroupDurMS = Ret (u64 now / 1000)) as Hcur by done.
  apply keeps_join.
  - intros now Hnow. klift. rewrite Hcur. cbn [andThen]. apply (keeps_groups _ track_inv).
    + intros. by apply keeps_track_round.
    + split; [done|]. split; [done|]. by left.
  - intros now q Hq. klift. rewrite Hcur. cbn [andThen]. apply (keeps_groups _ track_inv).
    + intros. by apply keeps_track_round.
    + split; [done|]. split; [done|]. by right.
Qed.

Lemma PublishTrack_refines_witness :
  refines (track_spec (NL := NaluConcrete) (FL := FragConcrete) "locmaf" loc_video)
    (PublishTrack (NL := NaluConcrete) (FL := FragConcrete) loc_asset "video_locmaf" "locmaf").
Proof.
  apply (PublishTrack_refines (NL := NaluConcrete) (AL := Av1Concrete) (FL := FragConcrete) loc_asset "video_locmaf" "locmaf" loc_video).
  - vm_compute. reflexivity.
  - reflexivity.
  - split; [discriminate|reflexivity].
Defined.

(** ** Encryption *)
Section Encryption.
Context {M : Mp4Types} {NL : @NaluLib M} {CL : @CcLib M} {FL : @FragLib M}.

(** An object that was made by encrypting something with a key and an IV, at
    the start of a group *)
Definition encrypted_with (packaging : string) (ct : ContentTrack) (key : bytes) (iv : option bytes) (o : pubObject) : Prop :=
  exists clear frag nextIV, EncryptFragment clear key iv (ipd ct) = Ret (frag, nextIV) /\
    if bool_decide (packaging = "cmaf"%string) then EncodeFragment frag = Ret (body o)
    else exists moov st, EncodeCanonical frag NewState moov = Ret (body o, st).

(** The first object of a group of a track that has not encrypted anything yet
    is encrypted with the key and IV it was loaded with. *)
Lemma first_object_iv packaging d ct g o objs ct' : (packaging = "cmaf" \/ packaging = "locmaf")%string -> holds_key d ct ->
  track_gen packaging ct g = Ret (o :: objs, ct') ->
  encrypted_with packaging ct (cencKey (drmCenc d)) (copyBytes (cencIV (drmCenc d))) o.
Proof.
  intros Hp (Hc & Hiv & Hrefs). unfold track_gen, GenMoQGroup.
  destruct (calcMoQGroup _ _ _) as [[s e]| |]; [|done..].
  destruct (newGroupCCSplice _ _ _ _) as [cc| |]; [|done..]. destruct (chunk_ranges _ _ _ _) as [r|]; [|done]. cbn [mbind option_bind].
  pose proof (gen_chunks_iff ct g packaging cc Hp r NewState (currentIV ct)) as Hgen. rewrite with_currentIV_same in Hgen.
  destruct (gen_chunks _ _ _ _ _ _) as [[l t2]| |]; [|done..]. cbn [obind]. destruct (proj1 (Hgen l t2) eq_refl) as (iv & _ & Hch).
  remember NewState as st eqn:Est.
  destruct Hch as [|st iv0 a b samples f obj st1 iv1 ranges objs0 iv' _ _ He _]; [done|]. cbn. intros [= <- _ _]. cbn [body].
  destruct He as (clear & out & _ & Hout & Hobj). destruct (contentProtectionRefIDs ct) as [|ref refs]; [done|].
  destruct Hout as (c & moofMdat & next & Ec & _ & Hen & _). rewrite Hc in Ec. injection Ec as <-.
  exists moofMdat, out, next. split; [rewrite <- Hen, Hiv; unfold copyBytes; by destruct (cencIV (drmCenc d))|].
  revert Hobj. destruct (bool_decide _); [by intros []|]. intros (sd & moov & _ & _ & Hobj). subst st. by exists moov, st1.
Qed.
End Encryption.

(** C15. Every subscription to a protected track starts again with the same key
    and IV, and so do subscriptions to different tracks.  Of an asset as it is
    loaded, take two tracks with the same kind of protection, which may be
    the same one; whatever groups two subscriptions to them start with, and in
    whatever packaging, their first objects are two encryptions under the same
    key and initialisation vector. *)
Theorem iv_reused_across_subscriptions {M : Mp4Types} {NL : @NaluLib M} {AL : @Av1Lib M} {UL : @AudioLib M} {PL : @ProtLib M} {CL : @CcLib M} {FL : @FragLib M}
    dir base entries ab vb drm eccp a gen n1 n2 (ct1 ct2 : ContentTrack) p1 p2 (g1 g2 : Z) o1 objs1 ct1' o2 objs2 ct2' :
  LoadAssetWithProtection dir base entries ab vb drm eccp = Ret a ->
  AssetOps.GetTrackByName (SetCC608Generator a gen) n1 = Some ct1 -> AssetOps.GetTrackByName (SetCC608Generator a gen) n2 = Some ct2 ->
  Protection ct1 <> ProtectionNone -> Protection ct2 = Protection ct1 ->
  (p1 = "cmaf" \/ p1 = "locmaf")%string -> (p2 = "cmaf" \/ p2 = "locmaf")%string ->
  track_gen p1 ct1 g1 = Ret (o1 :: objs1, ct1') -> track_gen p2 ct2 g2 = Ret (o2 :: objs2, ct2') ->
  exists key iv, encrypted_with p1 ct1 key iv o1 /\ encrypted_with p2 ct2 key iv o2.
Proof.
  intros Ha Hn1 Hn2 Hp Hsame Hp1 Hp2 H1 H2. pose proof (loaded_keyed _ _ _ _ _ _ _ _ _ _ _ Ha Hn1) as K1.
  pose proof (loaded_keyed _ _ _ _ _ _ _ _ _ _ _ Ha Hn2) as K2. unfold keyed in *. rewrite Hsame in K2.
  assert (Hd : exists d, holds_key d ct1 /\ holds_key d ct2).
  { destruct (Protection ct1); [done|..]; destruct K1 as (d1 & E1 & K1), K2 as (d2 & E2 & K2); rewrite E1 in E2; injection E2 as <-; by exists d1. }
  destruct Hd as (d & D1 & D2). exists (cencKey (drmCenc d)), (copyBytes (cencIV (drmCenc d))).
  split; [by apply (first_object_iv p1 d ct1 g1 o1 objs1 ct1')|by apply (first_object_iv p2 d ct2 g2 o2 objs2 ct2')].
Qed.

(** Two AAC tracks of two seconds, loaded with ClearKey protection *)
Definition aac_entry (name : string) (b : Z) : @DirEntry Mp4Concrete Av1Concrete :=
  @mkDirEntry Mp4Concrete Av1Concrete name false (Ret tt)
    (Ret (mp4_file "mp4a" [(fun i => mkFullSample (2 ^ 25) 1280 1 (1280 * i) [b + i]) <$> seqZ 0 20] None)).
Definition aac_drm : DRMInfo := mkDRMInfo [mkContentProtection "1" ["kid"%string] "cenc" None] (mkCENCInfo [42] [7; 7]).
Definition aac_asset : outcome Asset :=
  LoadAssetWithProtection (NL := NaluConcrete) (UL := AudioConcrete) (PL := ProtConcrete) "dir" "dir"
    (Ret [aac_entry "a.mp4" 0; aac_entry "b.mp4" 100]) 5 1 None (Some aac_drm).

Definition aac_objects (packaging name : string) (g : Z) : outcome (list pubObject * ContentTrack) :=
  let! a := aac_asset in
  match AssetOps.GetTrackByName (SetCC608Generator a None) name with
  | Some ct => track_gen (NL := NaluConcrete) (FL := FragConcrete) packaging ct g
  | None => Panic
  end.

Lemma iv_reused_across_subscriptions_witness :
  exists ct1 ct2 o1 objs1 ct1' o2 objs2 ct2' key iv,
    aac_objects "cmaf" "a_eccp" 3 = Ret (o1 :: objs1, ct1') /\ aac_objects "locmaf" "b_eccp" 8 = Ret (o2 :: objs2, ct2') /\
    Name ct1 = "a_eccp"%string /\ Name ct2 = "b_eccp"%string /\
    encrypted_with (FL := FragConcrete) "cmaf" ct1 key iv o1 /\ encrypted_with (FL := FragConcrete) "locmaf" ct2 key iv o2.
Proof.
  unfold aac_objects. destruct aac_asset as [a|e|] eqn:Ea; try (vm_compute in Ea; discriminate Ea). cbn [obind].
  destruct (AssetOps.GetTrackByName (SetCC608Generator a None) "a_eccp") as [ct1|] eqn:E1;
    [|exfalso; vm_compute in Ea; injection Ea as <-; vm_compute in E1; discriminate E1].
  destruct (AssetOps.GetTrackByName (SetCC608Generator a None) "b_eccp") as [ct2|] eqn:E2;
    [|exfalso; vm_compute in Ea; injection Ea as <-; vm_compute in E2; discriminate E2].
  assert (F1 : exists o1 objs1 ct1', track_gen (NL := NaluConcrete) (FL := FragConcrete) "cmaf" ct1 3 = Ret (o1 :: objs1, ct1')).
  { clear E2. vm_compute in Ea. injection Ea as <-. vm_compute in E1. injection E1 as <-. eexists _, _, _. vm_compute. reflexivity. }
  assert (F2 : exists o2 objs2 ct2', track_gen (NL := NaluConcrete) (FL := FragConcrete) "locmaf" ct2 8 = Ret (o2 :: objs2, ct2')).
  { clear E1 F1. vm_compute in Ea. injection Ea as <-. vm_compute in E2. injection E2 as <-. eexists _, _, _. vm_compute. reflexivity. }
  assert (P1 : Protection ct1 = ProtectionECCP /\ Name ct1 = "a_eccp"%string).
  { clear E2 F1 F2. vm_compute in Ea. injection Ea as <-. vm_compute in E1. injection E1 as <-. split; reflexivity. }
  assert (P2 : Protection ct2 = ProtectionECCP /\ Name ct2 = "b_eccp"%string).
  { clear E1 F1 F2 P1. vm_compute in Ea. injection Ea as <-. vm_compute in E2. injection E2 as <-. split; reflexivity. }
  destruct F1 as (o1 & objs1 & ct1' & F1), F2 as (o2 & objs2 & ct2' & F2), P1 as [P1 N1], P2 as [P2 N2].
  destruct (iv_reused_across_subscriptions (FL := FragConcrete) _ _ _ _ _ _ _ a None "a_eccp" "b_eccp" ct1 ct2 "cmaf" "locmaf" 3 8
    o1 objs1 ct1' o2 objs2 ct2' Ea E1 E2) as (key & iv & K1 & K2);
    [rewrite P1; discriminate|rewrite P1; exact P2|left; reflexivity|right; reflexivity|exact F1|exact F2|].
  exists ct1, ct2, o1, objs1, ct1', o2, objs2, ct2', key, iv. repeat split; assumption.
Defined.

(** ** Joining a moq-mi video track *)

(** A moq-mi video track starts with the GOP whose number is one more
    than the current time divided by the GOP duration in whole milliseconds.
    Its first sample is due after now and at most one GOP later, plus the
    number of the GOP times the part of a millisecond that the division
    dropped: nothing when GOPs last whole milliseconds, but a delay that grows
    with the GOPs since 1970 otherwise. *)
Theorem moqmi_video_start (gopLen sampleDur timebase now g : Z) :
  0 < gopLen -> 0 < sampleDur -> 0 < timebase -> 0 <= now -> gopLen * sampleDur * 1000 < 2 ^ 64 -> now < 2 ^ 63 ->
  timebase <= gopLen * sampleDur * 1000 ->
  moqmi_first_group gopLen sampleDur timebase now = Ret g ->
  let d := gopLen * sampleDur * 1000 / timebase in
  let dropped := (gopLen * sampleDur * 1000) mod timebase in
  let starts := g * gopLen * sampleDur * 1000 / timebase in
  now + g * dropped / timebase < starts <= now + d + g * dropped / timebase.
Proof.
  intros Hl Hs Ht Hn Hfit Hnow Hge H d r starts. unfold moqmi_first_group, gopDurMS in H.
  rewrite u64_mul_l, u64_small in H by nia. rewrite udiv_Ret in H by lia. cbn [obind] in H. fold d in H.
  pose proof (Z.div_mod (gopLen * sampleDur * 1000) timebase) as Hdm. fold d r in Hdm.
  assert (0 < d) by (apply Z.div_str_pos; lia).
  rewrite (proj2 (Z.eqb_neq d 0)) in H by lia. rewrite udiv_Ret in H by lia. cbn [obind] in H.
  rewrite (u64_small now) in H by lia. injection H as Hg.
  pose proof (Z.div_mod now d) as Hq. pose proof (Z.mod_pos_bound now d).
  assert (0 <= now / d) by (apply Z.div_pos; lia). rewrite u64_small in Hg by nia.
  assert (starts = g * d + g * r / timebase) as ->.
  2: { assert (now < g * d <= now + d) by (clear - Hg Hq H H0; subst g; nia). lia. }
  unfold starts. replace (g * gopLen * sampleDur * 1000) with (g * r + g * d * timebase) by nia.
  rewrite Z.div_add by lia. lia.
Qed.

(** A GOP of 25 frames at 24000/1001 frames per second lasts 1042.7 ms: a
    subscription made in 2023 starts more than 13 days late. *)
Lemma moqmi_video_start_witness :
  exists g, moqmi_first_group 25 1001 24000 1700000000000 = Ret g /\
    1700000000000 + 13 * 24 * 3600 * 1000 < g * 25 * 1001 * 1000 / 24000.
Proof.
  exists 1631477928. assert (moqmi_first_group 25 1001 24000 1700000000000 = Ret 1631477928) as H
    by (vm_compute; reflexivity).
  split; [exact H|].
  assert (1700000000000 + 1631477928 * ((25 * 1001 * 1000) mod 24000) / 24000 < 1631477928 * 25 * 1001 * 1000 / 24000) as H1.
  { refine (proj1 (moqmi_video_start 25 1001 24000 1700000000000 1631477928 _ _ _ _ _ _ _ H)); (reflexivity || discriminate). }
  eapply Z.le_lt_trans; [|exact H1]. vm_compute. discriminate.
Defined.
