(* ===== verification/HandlerProps.v ===== *)
(** * The session handlers of the publisher *)
From S2P Require Import Prelude Io GoFloat Media Timeline Catalog Loc Nalu Av1 Av1Props Cc608 InitTrack InitTrackProps Chunk Subtitle AssetOps CatalogGen Publisher Publication PublisherProps.
Local Open Scope Z_scope.
Local Open Scope go_scope.
Local Open Scope prog_scope.

Section LocCatalog.
Context {M : Mp4Types} {NL : @NaluLib M} {AL : @Av1Lib M} {UL : @AudioLib M} {CL : @CcLib M} {FL : @FragLib M}.

(** ** The tracks of the LOC catalog

    The entry [t] of a content track: the track itself, or one of its spatial
    layers. *)
Definition loc_entry_of (ct : ContentTrack) (t : Track) : Prop :=
  (trName t = Name ct /\ Dependencies t = []) \/
  exists ad i l bitrate, SpecData ct = Some (AV1 ad) /\ spatialLayers ad !! i = Some l /\
    t = svc_track_entry ct ad i l bitrate.

Lemma svc_tracks_spec ct ad layers i ts : svc_tracks ct ad i layers = Ret ts ->
  forall k t, ts !! k = Some t -> exists l bitrate, layers !! k = Some l /\ t = svc_track_entry ct ad (i + k) l bitrate.
Proof.
  revert i ts. induction layers as [|l layers IH]; intros i ts H k t Hk; cbn in H; simplify_out; [done|].
  destruct k as [|k]; cbn in Hk.
  - injection Hk as <-. rewrite Nat.add_0_r. by exists l, a.
  - destruct (IH _ _ Hm0 k t Hk) as (l' & b & Hl & ->). exists l', b. by rewrite Nat.add_succ_r.
Qed.

Lemma svc_tracks_complete ct ad layers i ts : svc_tracks ct ad i layers = Ret ts ->
  forall k l, layers !! k = Some l -> exists bitrate, ts !! k = Some (svc_track_entry ct ad (i + k) l bitrate).
Proof.
  revert i ts. induction layers as [|l layers IH]; intros i ts H k l0 Hk; cbn in H; simplify_out; [done|].
  destruct k as [|k]; cbn in Hk.
  - injection Hk as <-. rewrite Nat.add_0_r. by exists a.
  - destruct (IH _ _ Hm0 k l0 Hk) as (b & Hb). exists b. by rewrite Nat.add_succ_r.
Qed.

Lemma loc_entry_spec ag ct sd ts : loc_entry ag ct sd = Ret ts -> forall t, t ∈ ts -> trName t = Name ct /\ Dependencies t = [].
Proof.
  unfold loc_entry. intros H. simplify_out. intros t ->%list_elem_of_singleton.
  unfold media_fields. by destruct (is_type ct "video"), (is_type ct "audio").
Qed.

Lemma loc_tracks_spec ag cts ts : loc_tracks ag cts = Ret ts -> forall t, t ∈ ts ->
  exists ct, ct ∈ cts /\ loc_entry_of ct t /\
    (forall ad, SpecData ct = Some (AV1 ad) -> spatialLayers ad <> [] ->
       forall k l, spatialLayers ad !! k = Some l -> exists b, svc_track_entry ct ad k l b ∈ ts).
Proof.
  revert ts. induction cts as [|ct cts IH]; intros ts H; cbn [loc_tracks] in H; simplify_out; [by intros t ?%not_elem_of_nil|].
  intros t [Ht|Ht]%elem_of_app.
  2: { destruct (IH _ Hm0 t Ht) as (ct' & Hct' & He & Hall). exists ct'. split; [by right|]. split; [done|].
       intros ad Had Hne k l Hk. destruct (Hall ad Had Hne k l Hk) as (b & Hb). exists b. apply elem_of_app. by right. }
  exists ct. split; [by left|].
  destruct (negb _); [by simplify_out; apply not_elem_of_nil in Ht|].
  assert (forall sd, loc_entry ag ct sd = Ret a -> loc_entry_of ct t) as Hentry.
  { intros sd Hsd. left. exact (loc_entry_spec _ _ _ _ Hsd t Ht). }
  destruct (SpecData ct) as [[d|d|ad|d|d|d]|] eqn:Hsd; try (by simplify_out; apply not_elem_of_nil in Ht);
    try (split; [by eapply Hentry|by intros]).
  destruct (spatialLayers ad) as [|l0 ls] eqn:Hls.
  { split; [exact (Hentry _ Hm)|]. intros ad' [= <-]. by rewrite Hls. }
  rewrite (proj2 (Z.ltb_lt 0 (len (l0 :: ls)))) in Hm by (unfold len; cbn; lia).
  unfold genLOCSVCTracks in Hm. split.
  - right. apply list_elem_of_lookup in Ht as [k Hk]. destruct (svc_tracks_spec _ _ _ _ _ Hm k t Hk) as (l & b & Hl & ->).
    by exists ad, k, l, b.
  - intros ad' [= <-] _ k l Hk. destruct (svc_tracks_complete _ _ _ _ _ Hm k l Hk) as (b & Hb).
    exists b. apply elem_of_app. left. by apply list_elem_of_lookup_2 in Hb.
Qed.

Lemma loc_groups_spec gs ts : loc_groups gs = Ret ts -> forall t, t ∈ ts ->
  exists ct, ct ∈ concat (Tracks <$> gs) /\ loc_entry_of ct t /\
    (forall ad, SpecData ct = Some (AV1 ad) -> spatialLayers ad <> [] ->
       forall k l, spatialLayers ad !! k = Some l -> exists b, svc_track_entry ct ad k l b ∈ ts).
Proof.
  revert ts. induction gs as [|g gs IH]; intros ts H; cbn [loc_groups] in H; simplify_out; [by intros t ?%not_elem_of_nil|].
  intros t [Ht|Ht]%elem_of_app.
  - destruct (loc_tracks_spec _ _ _ Hm t Ht) as (ct & Hct & He & Hall). exists ct. cbn. rewrite elem_of_app.
    split; [by left|]. split; [done|]. intros ad Had Hne k l Hk. destruct (Hall ad Had Hne k l Hk) as (b & Hb).
    exists b. apply elem_of_app. by left.
  - destruct (IH _ Hm0 t Ht) as (ct & Hct & He & Hall). exists ct. cbn. rewrite elem_of_app.
    split; [by right|]. split; [done|]. intros ad Had Hne k l Hk. destruct (Hall ad Had Hne k l Hk) as (b & Hb).
    exists b. apply elem_of_app. by right.
Qed.

(** Every entry resolves. *)
Lemma first_match_exists {A B : Type} (f : A -> option B) l x : x ∈ l -> f x <> None -> exists y, first_match f l = Some y.
Proof.
  intros Hx Hf. induction Hx as [x l|x y l Hx IH]; cbn; [destruct (f x); naive_solver|]. destruct (f y); naive_solver.
Qed.

Lemma loc_entry_resolves a ct t : ct ∈ concat (Tracks <$> Groups a) -> loc_entry_of ct t ->
  exists lt, GetLOCTrackByName a (trName t) = Some lt.
Proof.
  intros Hct He. unfold GetLOCTrackByName. eapply first_match_exists; [exact Hct|]. unfold loc_match.
  destruct (bool_decide_reflect (Name ct = trName t)) as [Heq|Hne]; [done|].
  destruct He as [[Hn _]|(ad & i & l & b & Had & Hl & ->)]; [by destruct Hne|]. rewrite Had.
  destruct (list_find _ _) as [[? ?]|] eqn:Hf; [done|]. exfalso.
  apply list_find_None in Hf. rewrite Forall_forall in Hf. apply (Hf l); [by eapply list_elem_of_lookup_2|done].
Qed.
End LocCatalog.

(** The same outcome, whatever the answers of the peer. *)
Lemma tupleEqual_eq a b : tupleEqual a b = true <-> a = b.
Proof.
  revert b. induction a as [|x a IH]; intros [|y b]; cbn; try done.
  rewrite andb_true_iff, bool_decide_eq_true, IH. naive_solver.
Qed.

(** The LOC catalog keeps its promises: a subscription to any of its
    tracks (other than one named like a subtitle track, or [catalog]) is
    accepted and starts [PublishLOCTrack] on a track or layer that exists; and
    when the layers of a source are numbered from 0, every dependency of a
    track is a track of the catalog, of the next lower layer of the same
    source. *)
Theorem loc_catalog_served {M : Mp4Types} {NL : @NaluLib M} {AL : @Av1Lib M} {CL : @CcLib M} {FL : @FragLib M}
    (h : Handler) (ns : list string) (e : NamespaceEntry) (c : Catalog) (now : Z) (t : Track) :
  GenLOCCatalogEntry (hAsset h) now = Ret c -> t ∈ catTracks c ->
  findNamespace h ns = Some e -> nsPackaging e = "loc"%string -> nsCatalog e = Some c ->
  isInteropNamespace ns = false -> trName t <> "catalog"%string -> GetSubtitleTrackByName (hAsset h) (trName t) = None ->
  (forall ct ad i l, ct ∈ concat (Tracks <$> Groups (hAsset h)) -> SpecData ct = Some (AV1 ad) ->
     spatialLayers ad !! i = Some l -> layerSpatialID l = Z.of_nat i /\ Z.of_nat i < 256) ->
  handleSubscribe h ns (trName t) = accept_start None (JobLOC (hAsset h) (trName t)) /\
  (exists lt, GetLOCTrackByName (hAsset h) (trName t) = Some lt) /\
  forall dep, dep ∈ Dependencies t ->
    exists t' sid, t' ∈ catTracks c /\ trName t' = dep /\ Catalog.SpatialID t' = Some sid /\ Catalog.SpatialID t = Some (sid + 1).
Proof.
  intros Hc Ht Hns Hpk Hcat Hint Hname Hsub Hlayers.
  unfold GenLOCCatalogEntry in Hc. simplify_out. cbn [catTracks] in *.
  destruct (loc_groups_spec _ _ Hm t Ht) as (ct & Hct & He & Hall).
  split; [|split; [by eapply loc_entry_resolves|]].
  - unfold handleSubscribe. rewrite Hint, Hns, Hpk, Hsub, Hcat, (bool_decide_false (trName t = _)) by done.
    rewrite (bool_decide_false ("loc" = "moqmi")%string), (bool_decide_true ("loc" = "loc")%string) by done.
    unfold Catalog.GetTrackByName. cbn [catTracks].
    destruct (list_find _ _) as [[i t']|] eqn:Hf; cbn.
    + apply list_find_Some in Hf as (_ & -> & _). done.
    + apply list_find_None in Hf. rewrite Forall_forall in Hf. by destruct (Hf t Ht).
  - intros dep Hdep. destruct He as [[_ Hnil]|(ad & i & l & b & Had & Hl & ->)].
    { rewrite Hnil in Hdep. by apply not_elem_of_nil in Hdep. }
    destruct i as [|i]; cbn in Hdep; [by apply not_elem_of_nil in Hdep|]. apply list_elem_of_singleton in Hdep as ->.
    destruct (Hlayers ct ad (S i) l Hct Had Hl) as [Hid Hlt].
    destruct (lookup_lt_is_Some_2 (spatialLayers ad) i) as [l' Hl']; [apply lookup_lt_Some in Hl; lia|].
    destruct (Hall ad Had ltac:(by intros Heq; rewrite Heq in Hl) i l' Hl') as (b' & Hb').
    destruct (Hlayers ct ad i l' Hct Had Hl') as [Hid' _].
    eexists _, (layerSpatialID l'). split; [exact Hb'|]. cbn.
    rewrite Hid, Hid', u8_small by lia. split; [by replace (Z.of_nat (S i) - 1) with (Z.of_nat i) by lia|].
    split; [done|]. f_equal. lia.
Qed.

(** A source with two spatial layers. *)
Definition svc_ad : AV1Data (M := Mp4Concrete) :=
  mkAV1Data None (Some ([] : bytes)) "av01.0.04M.08" 640 360 [] false
    [mkAV1SpatialLayer 0 320 180 [[0; 7]; [0; 9]] 4; mkAV1SpatialLayer 1 640 360 [[1; 8]; [1; 10]] 4].
Definition svc_ct : ContentTrack (M := Mp4Concrete) :=
  {| Name := "svc"; ContentType := "video"; Language := "und"; SampleBitrate := 0; TimeScale := 2; Duration := 2;
     GopLength := 2; SampleDur := 1; NrSamples := 2; LoopDur := 2; SampleBatch := 1;
     Samples := [mkFullSample (2 ^ 25) 1 4 0 [0; 7; 1; 8]; mkFullSample 0 1 4 1 [0; 9; 1; 10]];
     SpecData := Some (AV1 svc_ad); Protection := ProtectionNone; contentProtectionRefIDs := [];
     cenc := None; ipd := None; currentIV := None; cc608 := None |}.
Definition svc_asset : Asset := mkAsset "svc" [mkTrackGroup 1 [svc_ct]] 1000 [] None None.
Definition svc_catalog : Catalog :=
  match GenLOCCatalogEntry (AL := Av1Concrete) svc_asset 7 with
  | Ret c => c
  | _ => mkCatalog "" None false [] [] [] []
  end.
Definition svc_handler : Handler := mkHandler [mkNamespaceEntry ["live"%string] (Some svc_catalog) "loc" ∅] svc_asset 0.

Lemma loc_catalog_served_witness :
  exists t, nth_error (catTracks svc_catalog) 1 = Some t /\ trName t = "svc/s1"%string /\
  handleSubscribe svc_handler ["live"%string] (trName t) = accept_start None (JobLOC svc_asset (trName t)) /\
  forall dep, dep ∈ Dependencies t ->
    exists t' sid, t' ∈ catTracks svc_catalog /\ trName t' = dep /\ Catalog.SpatialID t' = Some sid /\
      Catalog.SpatialID t = Some (sid + 1).
Proof.
  destruct (nth_error (catTracks svc_catalog) 1) as [t|] eqn:Ht; [|vm_compute in Ht; discriminate Ht].
  exists t. split; [reflexivity|].
  assert (trName t = "svc/s1"%string) as Hname by (vm_compute in Ht; injection Ht as <-; reflexivity).
  split; [exact Hname|].
  destruct (loc_catalog_served (NL := NaluConcrete) (AL := Av1Concrete) (FL := FragConcrete) svc_handler ["live"%string]
    (mkNamespaceEntry ["live"%string] (Some svc_catalog) "loc" ∅) svc_catalog 7 t) as (H1 & _ & H2).
  - vm_compute. reflexivity.
  - apply list_elem_of_In. eapply nth_error_In. exact Ht.
  - reflexivity.
  - reflexivity.
  - reflexivity.
  - reflexivity.
  - rewrite Hname. discriminate.
  - reflexivity.
  - intros ct ad i l Hct Had Hl. cbn in Hct. apply list_elem_of_singleton in Hct as ->.
    injection Had as <-. destruct i as [|[|i]]; cbn in Hl; [injection Hl as <-; split; reflexivity..|discriminate Hl].
  - split; [exact H1|exact H2].
Defined.

Example fetch_catalog_ranges :
  let covers s e := locationInFetchRange (mkLocation 0 0) s e in
  covers (mkLocation 0 0) (mkLocation 0 0) = true /\ covers (mkLocation 0 0) (mkLocation 0 1) = true /\
  covers (mkLocation 0 1) (mkLocation 0 0) = false /\ covers (mkLocation 1 0) (mkLocation 5 0) = false.
Proof. vm_compute. done. Qed.
