(* ===== verification/Playback.v ===== *)
(** * Simulated playback: the state machine of the native subscriber

    Models [internal/sub/playback.go].  [nativePlayback] keeps the objects
    received for the spatial layers of one video, grouped in units (one access
    unit over all layers), and presents units at their deadline at the highest
    decodable layer.  Each method is a function on the state; the mutex makes
    every method atomic, so a run of the program is a sequence of the events
    of [pevent].

    [time.Time] is a [Z], nanoseconds since the Unix epoch, with Go's zero time
    as [zeroTime]; [time.Duration] is a [Z] in nanoseconds at 64 bits.  A track
    index and the [active] layer are [Z] because the code uses -1.  An index
    outside [valid] panics.  The two loops without a structural bound run with
    fuel; [outOfFuel] is the only [Err] of [advance], and
    [PlaybackFacts.advance_total] shows it never happens. *)
From S2P Require Import Prelude Media Catalog Loc GoFloat.
Local Open Scope Z_scope.
Local Open Scope go_scope.

Definition zeroTime : Z := -62135596800 * 10 ^ 9.
Definition Microsecond : Z := 1000.
Definition Millisecond : Z := 1000000.
Definition Second : Z := 1000000000.
Definition maxPendingUnits : Z := 64.
Definition metricsSchemaVersion : Z := 1.

(** [time.UnixMicro(int64(us))] *)
Definition UnixMicro (us : Z) : Z := i64 us * 1000.
(** [t.Sub(u)] saturates at the bounds of a duration. *)
Definition timeSub (t u : Z) : Z := Z.max minInt64 (Z.min maxInt64 (t - u)).
(** [time.Duration(d) * time.Microsecond] for a [uint64] d. *)
Definition micros (d : Z) : Z := i64 (i64 d * Microsecond).

(** ** Data *)
Record playbackTrack := mkPlaybackTrack {
  ptName : string; ptSpatialID : Z; ptWidth : option Z; ptHeight : option Z; ptBitrate : Z
}.

(** [playbackUnitKey]: group and object number. *)
Abbreviation playbackUnitKey := (Z * Z)%type.

Record playbackLayer := mkPlaybackLayer { timestampUs : Z; independent : bool; layerBytes : Z }.
#[export] Instance playbackLayer_eq_dec : EqDecision playbackLayer.
Proof. solve_decision. Defined.

Definition zeroLayer : playbackLayer := mkPlaybackLayer 0 false 0.

Record playbackUnit := mkPlaybackUnit {
  unitKey : playbackUnitKey; layers : gmap Z playbackLayer; invalidFrom : Z
}.

Record timedBytes := mkTimedBytes { tbAt : Z; tbBytes : Z }.

Record nativePlayback := mkPlayback {
  tracks : list playbackTrack;
  trackIndex : gmap string Z;
  target : Z;
  active : Z;
  valid : list bool;
  pending : gmap (Z * Z) playbackUnit;
  simulated : bool;
  minimalBuffer : Z;
  targetLatency : Z;
  metricsPath : string;
  state : string;
  switchState : string;
  started : bool;
  lastPresented : option Z;
  lastPresentedAt : Z;
  stallStarted : Z;
  stallCount : Z;
  stallDuration : Z;
  received : list timedBytes;
  played : list timedBytes;
  wake : bool
}.

(** Assignments to one field. *)
Definition set_active (v_active : Z) (p : nativePlayback) : nativePlayback :=
  {| tracks := tracks p; trackIndex := trackIndex p; target := target p; active := v_active;
     valid := valid p; pending := pending p; simulated := simulated p; minimalBuffer :=
     minimalBuffer p; targetLatency := targetLatency p; metricsPath := metricsPath p; state :=
     state p; switchState := switchState p; started := started p; lastPresented :=
     lastPresented p; lastPresentedAt := lastPresentedAt p; stallStarted := stallStarted p;
     stallCount := stallCount p; stallDuration := stallDuration p; received := received p;
     played := played p; wake := wake p |}.

Definition set_valid (v_valid : list bool) (p : nativePlayback) : nativePlayback :=
  {| tracks := tracks p; trackIndex := trackIndex p; target := target p; active := active p;
     valid := v_valid; pending := pending p; simulated := simulated p; minimalBuffer :=
     minimalBuffer p; targetLatency := targetLatency p; metricsPath := metricsPath p; state :=
     state p; switchState := switchState p; started := started p; lastPresented :=
     lastPresented p; lastPresentedAt := lastPresentedAt p; stallStarted := stallStarted p;
     stallCount := stallCount p; stallDuration := stallDuration p; received := received p;
     played := played p; wake := wake p |}.

Definition set_pending (v_pending : gmap (Z * Z) playbackUnit) (p : nativePlayback) : nativePlayback :=
  {| tracks := tracks p; trackIndex := trackIndex p; target := target p; active := active p;
     valid := valid p; pending := v_pending; simulated := simulated p; minimalBuffer :=
     minimalBuffer p; targetLatency := targetLatency p; metricsPath := metricsPath p; state :=
     state p; switchState := switchState p; started := started p; lastPresented :=
     lastPresented p; lastPresentedAt := lastPresentedAt p; stallStarted := stallStarted p;
     stallCount := stallCount p; stallDuration := stallDuration p; received := received p;
     played := played p; wake := wake p |}.

Definition set_state (v_state : string) (p : nativePlayback) : nativePlayback :=
  {| tracks := tracks p; trackIndex := trackIndex p; target := target p; active := active p;
     valid := valid p; pending := pending p; simulated := simulated p; minimalBuffer :=
     minimalBuffer p; targetLatency := targetLatency p; metricsPath := metricsPath p; state :=
     v_state; switchState := switchState p; started := started p; lastPresented :=
     lastPresented p; lastPresentedAt := lastPresentedAt p; stallStarted := stallStarted p;
     stallCount := stallCount p; stallDuration := stallDuration p; received := received p;
     played := played p; wake := wake p |}.

Definition set_switchState (v_switchState : string) (p : nativePlayback) : nativePlayback :=
  {| tracks := tracks p; trackIndex := trackIndex p; target := target p; active := active p;
     valid := valid p; pending := pending p; simulated := simulated p; minimalBuffer :=
     minimalBuffer p; targetLatency := targetLatency p; metricsPath := metricsPath p; state :=
     state p; switchState := v_switchState; started := started p; lastPresented :=
     lastPresented p; lastPresentedAt := lastPresentedAt p; stallStarted := stallStarted p;
     stallCount := stallCount p; stallDuration := stallDuration p; received := received p;
     played := played p; wake := wake p |}.

Definition set_started (v_started : bool) (p : nativePlayback) : nativePlayback :=
  {| tracks := tracks p; trackIndex := trackIndex p; target := target p; active := active p;
     valid := valid p; pending := pending p; simulated := simulated p; minimalBuffer :=
     minimalBuffer p; targetLatency := targetLatency p; metricsPath := metricsPath p; state :=
     state p; switchState := switchState p; started := v_started; lastPresented :=
     lastPresented p; lastPresentedAt := lastPresentedAt p; stallStarted := stallStarted p;
     stallCount := stallCount p; stallDuration := stallDuration p; received := received p;
     played := played p; wake := wake p |}.

Definition set_lastPresented (v_lastPresented : option Z) (p : nativePlayback) : nativePlayback :=
  {| tracks := tracks p; trackIndex := trackIndex p; target := target p; active := active p;
     valid := valid p; pending := pending p; simulated := simulated p; minimalBuffer :=
     minimalBuffer p; targetLatency := targetLatency p; metricsPath := metricsPath p; state :=
     state p; switchState := switchState p; started := started p; lastPresented :=
     v_lastPresented; lastPresentedAt := lastPresentedAt p; stallStarted := stallStarted p;
     stallCount := stallCount p; stallDuration := stallDuration p; received := received p;
     played := played p; wake := wake p |}.

Definition set_lastPresentedAt (v_lastPresentedAt : Z) (p : nativePlayback) : nativePlayback :=
  {| tracks := tracks p; trackIndex := trackIndex p; target := target p; active := active p;
     valid := valid p; pending := pending p; simulated := simulated p; minimalBuffer :=
     minimalBuffer p; targetLatency := targetLatency p; metricsPath := metricsPath p; state :=
     state p; switchState := switchState p; started := started p; lastPresented :=
     lastPresented p; lastPresentedAt := v_lastPresentedAt; stallStarted := stallStarted p;
     stallCount := stallCount p; stallDuration := stallDuration p; received := received p;
     played := played p; wake := wake p |}.

Definition set_stallStarted (v_stallStarted : Z) (p : nativePlayback) : nativePlayback :=
  {| tracks := tracks p; trackIndex := trackIndex p; target := target p; active := active p;
     valid := valid p; pending := pending p; simulated := simulated p; minimalBuffer :=
     minimalBuffer p; targetLatency := targetLatency p; metricsPath := metricsPath p; state :=
     state p; switchState := switchState p; started := started p; lastPresented :=
     lastPresented p; lastPresentedAt := lastPresentedAt p; stallStarted := v_stallStarted;
     stallCount := stallCount p; stallDuration := stallDuration p; received := received p;
     played := played p; wake := wake p |}.

Definition set_stallCount (v_stallCount : Z) (p : nativePlayback) : nativePlayback :=
  {| tracks := tracks p; trackIndex := trackIndex p; target := target p; active := active p;
     valid := valid p; pending := pending p; simulated := simulated p; minimalBuffer :=
     minimalBuffer p; targetLatency := targetLatency p; metricsPath := metricsPath p; state :=
     state p; switchState := switchState p; started := started p; lastPresented :=
     lastPresented p; lastPresentedAt := lastPresentedAt p; stallStarted := stallStarted p;
     stallCount := v_stallCount; stallDuration := stallDuration p; received := received p;
     played := played p; wake := wake p |}.

Definition set_stallDuration (v_stallDuration : Z) (p : nativePlayback) : nativePlayback :=
  {| tracks := tracks p; trackIndex := trackIndex p; target := target p; active := active p;
     valid := valid p; pending := pending p; simulated := simulated p; minimalBuffer :=
     minimalBuffer p; targetLatency := targetLatency p; metricsPath := metricsPath p; state :=
     state p; switchState := switchState p; started := started p; lastPresented :=
     lastPresented p; lastPresentedAt := lastPresentedAt p; stallStarted := stallStarted p;
     stallCount := stallCount p; stallDuration := v_stallDuration; received := received p;
     played := played p; wake := wake p |}.

Definition set_received (v_received : list timedBytes) (p : nativePlayback) : nativePlayback :=
  {| tracks := tracks p; trackIndex := trackIndex p; target := target p; active := active p;
     valid := valid p; pending := pending p; simulated := simulated p; minimalBuffer :=
     minimalBuffer p; targetLatency := targetLatency p; metricsPath := metricsPath p; state :=
     state p; switchState := switchState p; started := started p; lastPresented :=
     lastPresented p; lastPresentedAt := lastPresentedAt p; stallStarted := stallStarted p;
     stallCount := stallCount p; stallDuration := stallDuration p; received := v_received;
     played := played p; wake := wake p |}.

Definition set_played (v_played : list timedBytes) (p : nativePlayback) : nativePlayback :=
  {| tracks := tracks p; trackIndex := trackIndex p; target := target p; active := active p;
     valid := valid p; pending := pending p; simulated := simulated p; minimalBuffer :=
     minimalBuffer p; targetLatency := targetLatency p; metricsPath := metricsPath p; state :=
     state p; switchState := switchState p; started := started p; lastPresented :=
     lastPresented p; lastPresentedAt := lastPresentedAt p; stallStarted := stallStarted p;
     stallCount := stallCount p; stallDuration := stallDuration p; received := received p;
     played := v_played; wake := wake p |}.

Definition set_wake (v_wake : bool) (p : nativePlayback) : nativePlayback :=
  {| tracks := tracks p; trackIndex := trackIndex p; target := target p; active := active p;
     valid := valid p; pending := pending p; simulated := simulated p; minimalBuffer :=
     minimalBuffer p; targetLatency := targetLatency p; metricsPath := metricsPath p; state :=
     state p; switchState := switchState p; started := started p; lastPresented :=
     lastPresented p; lastPresentedAt := lastPresentedAt p; stallStarted := stallStarted p;
     stallCount := stallCount p; stallDuration := stallDuration p; received := received p;
     played := played p; wake := v_wake |}.

(** [u.layers[i]]: the zero value when the key is missing. *)
Definition layer_at (u : playbackUnit) (i : Z) : playbackLayer := default zeroLayer (layers u !! i).

(** [p.valid[i] = b] *)
Definition set_valid_at (i : Z) (b : bool) (p : nativePlayback) : outcome nativePlayback :=
  let! _ := index (valid p) i in
  Ret (set_valid (<[Z.to_nat i := b]> (valid p)) p).

(** [for i := lo; i < lo + n; i++ { p.valid[i] = b }] *)
Fixpoint set_valid_range (lo : Z) (n : nat) (b : bool) (p : nativePlayback) : outcome nativePlayback :=
  match n with
  | O => Ret p
  | S n => let! p := set_valid_at lo b p in set_valid_range (lo + 1) n b p
  end.

Definition outOfFuel {A : Type} : outcome A := errorf "out of fuel".

(** ** Construction *)

(** One iteration of the loop of [newNativePlayback]. *)
Definition playback_track (catalog : Catalog) (simulated : bool) (i : Z) (name : string)
  : outcome playbackTrack :=
  match GetTrackByName catalog name with
  | None => Err (Errorf "video dependency track %q not found" [name])
  | Some track =>
      if simulated && (negb (bool_decide (Packaging track = "loc"%string))
                       || negb (HasPrefix (ToLower (trCodec track)) "av01")) then
        Err (Errorf "simulated playback requires LOC AV1 track %q" [name])
      else Ret {| ptName := name; ptSpatialID := default i (SpatialID track);
                  ptWidth := Width track; ptHeight := Height track;
                  ptBitrate := default 0 (Bitrate track) |}
  end.

Fixpoint playback_tracks (catalog : Catalog) (simulated : bool) (i : Z) (names : list string)
  : outcome (list playbackTrack) :=
  match names with
  | [] => Ret []
  | name :: names =>
      let! t := playback_track catalog simulated i name in
      let! ts := playback_tracks catalog simulated (i + 1) names in
      Ret (t :: ts)
  end.

(** [p.trackIndex[name] = i], in order: a later name overwrites. *)
Fixpoint track_index (i : Z) (names : list string) (m : gmap string Z) : gmap string Z :=
  match names with
  | [] => m
  | name :: names => track_index (i + 1) names (<[name := i]> m)
  end.

Definition newNativePlayback (catalog : Catalog) (names : list string) (targetName : string)
    (simulated : bool) (minimalBuffer targetLatency : Z) (metricsPath : string)
  : outcome nativePlayback :=
  if len names =? 0 then errorf "empty video dependency chain"
  else if simulated && ((minimalBuffer <? 0) || (targetLatency <=? minimalBuffer)) then
    errorf "target latency must exceed non-negative minimum buffer"
  else
    let! tracks := playback_tracks catalog simulated 0 names in
    let p := {|
      tracks := tracks; trackIndex := track_index 0 names ∅; target := len names - 1;
      active := -1; valid := replicate (length names) false; pending := ∅;
      simulated := simulated; minimalBuffer := minimalBuffer; targetLatency := targetLatency;
      metricsPath := metricsPath;
      state := if simulated then "starting" else "receiving"; switchState := "stable";
      started := false; lastPresented := None; lastPresentedAt := zeroTime;
      stallStarted := zeroTime; stallCount := 0; stallDuration := 0;
      received := []; played := []; wake := false |} in
    let! tip := index tracks (target p) in
    if negb (bool_decide (ptName tip = targetName)) then
      Err (Errorf "target track %q is not the dependency-chain tip" [targetName])
    else Ret p.

(** ** Units *)

(** The loop of [timestamp] over the layers, in iteration order [ls]. *)
Definition timestamp_step (acc : Z * Z * bool) (il : Z * playbackLayer) : Z * Z * bool :=
  let '(lowest, ts, found) := acc in
  let '(index, layer) := il in
  if negb found || (index <? lowest) then (index, timestampUs layer, true) else acc.

Definition timestamp_over (ls : list (Z * playbackLayer)) : Z * bool :=
  let '(_, ts, found) := fold_left timestamp_step ls (0, 0, false) in (ts, found).

Definition timestamp (u : playbackUnit) : Z * bool := timestamp_over (map_to_list (layers u)).

(** The comparison of [sortedUnits]. *)
Definition unit_less (x y : playbackUnit) : bool :=
  let '(a, aok) := timestamp x in
  let '(b, bok) := timestamp y in
  if aok && bok && negb (a =? b) then a <? b
  else if negb (eqb aok bok) then aok
  else if negb ((unitKey x).1 =? (unitKey y).1) then (unitKey x).1 <? (unitKey y).1
  else (unitKey x).2 <? (unitKey y).2.

(** [sort.Slice] orders by [less]: no element is less than an earlier one. *)
Definition not_after (x y : playbackUnit) : Prop := unit_less y x = false.
#[export] Instance not_after_dec : RelDecision not_after.
Proof. intros x y. unfold not_after. apply _. Defined.

Definition sortedUnits (p : nativePlayback) : list playbackUnit :=
  merge_sort not_after (map_to_list (pending p)).*2.

Fixpoint trimPending_loop (n : nat) (p : nativePlayback) : outcome nativePlayback :=
  match n with
  | O => Ret p
  | S n =>
      if Z.of_nat (size (pending p)) >? maxPendingUnits then
        let! u := index (sortedUnits p) 0 in
        trimPending_loop n (set_pending (delete (unitKey u) (pending p)) p)
      else Ret p
  end.
Definition trimPending (p : nativePlayback) : outcome nativePlayback :=
  trimPending_loop (size (pending p)) p.

(** The first [n] layers from [i] on, stopping at the first mismatch. *)
Fixpoint prefix_loop (u : playbackUnit) (base : playbackLayer) (n : nat) (i prefix : Z) : Z :=
  match n with
  | O => prefix
  | S n =>
      if i <? invalidFrom u then
        match layers u !! i with
        | None => prefix
        | Some layer =>
            if negb (timestampUs layer =? timestampUs base)
               || negb (eqb (independent layer) (independent base)) then prefix
            else prefix_loop u base n (i + 1) i
        end
      else prefix
  end.

Definition completePrefix (p : nativePlayback) (u : playbackUnit) : Z * bool :=
  if invalidFrom u =? 0 then (-1, false)
  else match layers u !! 0 with
       | None => (-1, false)
       | Some base => (prefix_loop u base (length (tracks p)) 0 (-1), independent base)
       end.

(** The loop of [bufferFor] over the sorted units: the latest timestamp up to
    which the stream is complete to [prefix] from [first] on. *)
Fixpoint bufferFor_loop (p : nativePlayback) (first : playbackUnit) (prefix start : Z)
    (units : list playbackUnit) (latest : Z) (seenFirst : bool) : Z :=
  match units with
  | [] => latest
  | u :: units =>
      let '(ts, hasTimestamp) := timestamp u in
      if negb hasTimestamp || (ts <? start) then
        bufferFor_loop p first prefix start units latest seenFirst
      else
        let seenFirst := if bool_decide (unitKey u = unitKey first) then true else seenFirst in
        if negb seenFirst then bufferFor_loop p first prefix start units latest seenFirst
        else match layers u !! 0 with
             | None => latest
             | Some base =>
                 if (completePrefix p u).1 <? prefix then latest
                 else bufferFor_loop p first prefix start units (timestampUs base) seenFirst
             end
  end.

Definition bufferFor (p : nativePlayback) (first : playbackUnit) (prefix : Z) : Z :=
  let start := timestampUs (layer_at first 0) in
  let latest := bufferFor_loop p first prefix start (sortedUnits p) start false in
  micros (u64 (latest - start)).

(** ** Stalls *)
Definition enterStall (now : Z) (p : nativePlayback) : nativePlayback :=
  if bool_decide (state p = "stalled"%string) then p
  else set_stallStarted now (set_stallCount (stallCount p + 1) (set_state "stalled" p)).

Definition leaveStall (now : Z) (p : nativePlayback) : nativePlayback :=
  if stallStarted p =? zeroTime then p
  else set_stallStarted zeroTime
         (set_stallDuration (i64 (stallDuration p + timeSub now (stallStarted p))) p).

(** ** Presentation *)
Fixpoint present_bytes (u : playbackUnit) (i : Z) (n : nat) (bytes : Z) : Z :=
  match n with
  | O => bytes
  | S n => present_bytes u (i + 1) n (i64 (bytes + layerBytes (layer_at u i)))
  end.

Definition present (u : playbackUnit) (now : Z) (p : nativePlayback) : nativePlayback :=
  let base := layer_at u 0 in
  let bytes := present_bytes u 0 (Z.to_nat (active p + 1)) 0 in
  let p := set_played (played p ++ [mkTimedBytes now bytes]) p in
  let p := set_lastPresented (Some (timestampUs base)) p in
  let p := set_lastPresentedAt now p in
  let p := set_pending (delete (unitKey u) (pending p)) p in
  let p := set_started true p in
  let p := set_state "playing" p in
  set_switchState (if active p <? target p then "waiting_independent" else "stable") p.

Definition presentationDeadline (p : nativePlayback) (ts : Z) : Z :=
  match lastPresented p with
  | Some last =>
      if negb (started p) || (lastPresentedAt p =? zeroTime) then UnixMicro ts + targetLatency p
      else if ts <=? last then lastPresentedAt p
      else lastPresentedAt p + micros (u64 (ts - last))
  | None => UnixMicro ts + targetLatency p
  end.

(** The loop of [nextUnit]: units that are already past are dropped. *)
Fixpoint nextUnit_loop (units : list playbackUnit) (p : nativePlayback)
  : nativePlayback * option playbackUnit :=
  match units with
  | [] => (p, None)
  | u :: units =>
      let '(ts, ok) := timestamp u in
      if negb ok then nextUnit_loop units p
      else if match lastPresented p with None => true | Some last => last <? ts end then (p, Some u)
      else nextUnit_loop units (set_pending (delete (unitKey u) (pending p)) p)
  end.
Definition nextUnit (p : nativePlayback) : nativePlayback * option playbackUnit :=
  nextUnit_loop (sortedUnits p) p.

(** The loop of [tryStart]: the first unit that can start playback. *)
Fixpoint tryStart_loop (units : list playbackUnit) (now : Z) (p : nativePlayback)
  : outcome nativePlayback :=
  match units with
  | [] =>
      if started p then Ret (set_switchState "waiting_independent" (enterStall now p))
      else Ret (set_state "buffering" p)
  | u :: units =>
      let '(prefix, independent) := completePrefix p u in
      if negb independent || (prefix <? 0) || (bufferFor p u prefix <? minimalBuffer p) then
        tryStart_loop units now p
      else
        let base := layer_at u 0 in
        let deadline := UnixMicro (timestampUs base) + targetLatency p in
        if now <? deadline then Ret (set_state "buffering" p)
        else
          let! p := set_valid_range 0 (Z.to_nat (prefix + 1)) true p in
          let p := set_active prefix p in
          let p := leaveStall now p in
          Ret (present u now p)
  end.
Definition tryStart (now : Z) (p : nativePlayback) : outcome nativePlayback :=
  tryStart_loop (sortedUnits p) now p.

(** [for p.active >= 0 && (p.active > prefix || !p.valid[p.active]) { p.active-- }] *)
Fixpoint lower_active (n : nat) (prefix : Z) (p : nativePlayback) : outcome nativePlayback :=
  match n with
  | O => Ret p
  | S n =>
      if 0 <=? active p then
        if active p >? prefix then lower_active n prefix (set_active (active p - 1) p)
        else let! v := index (valid p) (active p) in
             if negb v then lower_active n prefix (set_active (active p - 1) p) else Ret p
      else Ret p
  end.

(** One iteration of the loop of [advance]; the boolean says whether the
    method returns. *)
Definition advance_step (now : Z) (p : nativePlayback) : outcome (nativePlayback * bool) :=
  let '(p, unit) := nextUnit p in
  match unit with
  | None => Ret (p, true)
  | Some u =>
      let '(ts, ok) := timestamp u in
      if negb ok then Ret (p, true)
      else
        let deadline := presentationDeadline p ts in
        if now <? deadline then Ret (p, true)
        else
          let '(prefix, independent) := completePrefix p u in
          let! p := if prefix <? active p
                    then set_valid_range (prefix + 1) (length (valid p) - Z.to_nat (prefix + 1)) false p
                    else Ret p in
          let! p := if independent then
                      let! p := set_valid_range 0 (Z.to_nat (prefix + 1)) true p in
                      Ret (set_active prefix p)
                    else lower_active (Z.to_nat (active p + 1)) prefix p in
          if active p <? 0 then
            Ret (set_switchState "waiting_independent" (enterStall now p), true)
          else Ret (present u now p, false)
  end.

Fixpoint advance_loop (fuel : nat) (now : Z) (p : nativePlayback) : outcome nativePlayback :=
  match fuel with
  | O => outOfFuel
  | S fuel =>
      let! '(p, stop) := advance_step now p in
      if stop then Ret p else advance_loop fuel now p
  end.

Definition advance (now : Z) (p : nativePlayback) : outcome nativePlayback :=
  if negb (simulated p) then Ret p
  else if active p <? 0 then tryStart now p
  else advance_loop (S (size (pending p))) now p.

(** ** Objects *)
Definition notifyPlayback (p : nativePlayback) : nativePlayback := set_wake true p.

(** [addObject], with the deferred [notifyPlayback] of every path that set
    [notify]. *)
Definition addObject (trackName : string) (group object : Z) (headers : KVPList) (size now : Z)
    (p : nativePlayback) : outcome nativePlayback :=
  let p := set_received (received p ++ [mkTimedBytes now size]) p in
  if negb (simulated p) then Ret p
  else match trackIndex p !! trackName with
  | None => Ret (notifyPlayback p)
  | Some idx =>
      let '(timestampUs, hasTimestamp) := Sub.locTimestampMicros headers in
      match Sub.getLOCFrameMarking headers with
      | Err _ => Ret (notifyPlayback p)
      | Panic => Panic
      | Ret (marking, hasMarking) =>
          if negb hasTimestamp || negb hasMarking then Ret (notifyPlayback p) else
          let! tr := index (tracks p) idx in
          if negb (Sub.validPlaybackMarking marking (ptSpatialID tr)) then Ret (notifyPlayback p)
          else
            let key := (group, object) in
            let unit := default (mkPlaybackUnit key ∅ (len (tracks p))) (pending p !! key) in
            let layer := mkPlaybackLayer timestampUs (Sub.Independent marking) size in
            let unit :=
              match layers unit !! idx with
              | Some previous =>
                  if negb (bool_decide (previous = layer)) && (idx <? invalidFrom unit)
                  then mkPlaybackUnit (unitKey unit) (layers unit) idx
                  else unit
              | None => mkPlaybackUnit (unitKey unit) (<[idx := layer]> (layers unit)) (invalidFrom unit)
              end in
            let! p := trimPending (set_pending (<[key := unit]> (pending p)) p) in
            Ret (notifyPlayback p)
      end
  end.

(** ** Deadlines *)
Fixpoint startDeadline_loop (p : nativePlayback) (units : list playbackUnit) : option Z :=
  match units with
  | [] => None
  | u :: units =>
      let '(prefix, independent) := completePrefix p u in
      if negb independent || (prefix <? 0) || (bufferFor p u prefix <? minimalBuffer p) then
        startDeadline_loop p units
      else Some (UnixMicro (timestampUs (layer_at u 0)) + targetLatency p)
  end.

Definition nextAdvanceDeadline (p : nativePlayback) : nativePlayback * option Z :=
  if negb (simulated p) then (p, None)
  else if 0 <=? active p then
    let '(p, unit) := nextUnit p in
    match unit with
    | None => (p, None)
    | Some u => let '(ts, ok) := timestamp u in
                if negb ok then (p, None) else (p, Some (presentationDeadline p ts))
    end
  else (p, startDeadline_loop p (sortedUnits p)).

(** ** Metrics *)
Fixpoint trimByteWindow (samples : list timedBytes) (now : Z) : list timedBytes :=
  match samples with
  | [] => []
  | s :: rest => if tbAt s <? now - Second then trimByteWindow rest now else samples
  end.

Definition byteRate (samples : list timedBytes) : float64 :=
  f64 (i64 (fold_left (fun acc s => i64 (acc + tbBytes s)) samples 0 * 8)).

Definition playheadTimestamp (p : nativePlayback) (now : Z) : Z :=
  match lastPresented p with
  | None => 0
  | Some last =>
      if lastPresentedAt p =? zeroTime then 0
      else
        let until := if negb (stallStarted p =? zeroTime) && (stallStarted p <? now)
                     then stallStarted p else now in
        let elapsed := timeSub until (lastPresentedAt p) in
        if elapsed <=? 0 then last else u64 (last + elapsed / 1000)
  end.

Fixpoint bufferAhead_loop (p : nativePlayback) (units : list playbackUnit) (latest : Z) : Z :=
  match units with
  | [] => latest
  | u :: units =>
      let '(ts, hasTimestamp) := timestamp u in
      if negb hasTimestamp || (ts <=? latest) then bufferAhead_loop p units latest
      else match layers u !! 0 with
           | None => latest
           | Some base =>
               if (completePrefix p u).1 <? active p then latest
               else bufferAhead_loop p units (timestampUs base)
           end
  end.

Definition bufferAhead (p : nativePlayback) (now : Z) : Z :=
  match lastPresented p with
  | None => 0
  | Some last =>
      if active p <? 0 then 0
      else
        let latest := bufferAhead_loop p (sortedUnits p) last in
        let playhead := playheadTimestamp p now in
        if latest <=? playhead then 0 else micros (u64 (latest - playhead))
  end.

Record playbackQuality := mkQuality { qSpatialID : option Z; qWidth : option Z; qHeight : option Z }.

Record playbackMetrics := mkMetrics {
  SchemaVersion : Z; SampledAtUnixMS : Z; Client : string; Simulated : bool; State : string;
  TargetTrack : option string; ActiveTrack : option string; SwitchState : string;
  Quality : playbackQuality; E2ELatencyMS : option float64; PlayerBitrateBPS : option float64;
  ReceiveBitrateBPS : float64; CatalogBitrateBPS : option Z; BufferLevelMS : option float64;
  PlaybackRate : option float64; StallCount : Z; StallDurationMS : float64
}.

(** [float64(d) / float64(time.Millisecond)] *)
Definition ms_of (d : Z) : float64 := fdiv (f64 d) (f64 Millisecond).

(** The metrics reported for the active layer. *)
Definition active_metrics (p : nativePlayback) (now : Z)
  : outcome (option string * playbackQuality * option Z * option float64) :=
  if 0 <=? active p then
    let! track := index (tracks p) (active p) in
    let rate := fold_left (fun acc t => i64 (acc + ptBitrate t))
                  (take (Z.to_nat (active p + 1)) (tracks p)) 0 in
    Ret (Some (ptName track), mkQuality (Some (ptSpatialID track)) (ptWidth track) (ptHeight track),
         Some rate, Some (ms_of (bufferAhead p now)))
  else Ret (None, mkQuality None None None, None, None).

Definition snapshot (now : Z) (p : nativePlayback) : outcome (nativePlayback * playbackMetrics) :=
  let p := set_received (trimByteWindow (received p) now) p in
  let p := set_played (trimByteWindow (played p) now) p in
  let! tgt := index (tracks p) (target p) in
  let stall := ms_of (stallDuration p) in
  let stall := if negb (stallStarted p =? zeroTime)
               then fadd stall (ms_of (timeSub now (stallStarted p))) else stall in
  let base := {|
    SchemaVersion := metricsSchemaVersion; SampledAtUnixMS := now / Millisecond; Client := "native";
    Simulated := simulated p; State := state p; TargetTrack := Some (ptName tgt); ActiveTrack := None;
    SwitchState := switchState p; Quality := mkQuality None None None; E2ELatencyMS := None;
    PlayerBitrateBPS := None; ReceiveBitrateBPS := byteRate (received p); CatalogBitrateBPS := None;
    BufferLevelMS := None; PlaybackRate := None; StallCount := stallCount p; StallDurationMS := stall |} in
  if negb (simulated p) then Ret (p, base)
  else
    let! '(activeTrack, quality, catalogRate, buffer) := active_metrics p now in
    let latency := match lastPresented p with
      | None => None
      | Some last =>
          let latency := fdiv (f64 (i64 (i64 (now / 1000) - i64 last))) (f64 1000) in
          if fltb latency (f64 0) then None else Some latency
      end in
    Ret (p, {|
      SchemaVersion := SchemaVersion base; SampledAtUnixMS := SampledAtUnixMS base; Client := Client base;
      Simulated := Simulated base; State := State base; TargetTrack := TargetTrack base;
      ActiveTrack := activeTrack; SwitchState := SwitchState base; Quality := quality;
      E2ELatencyMS := latency; PlayerBitrateBPS := Some (byteRate (played p));
      ReceiveBitrateBPS := ReceiveBitrateBPS base; CatalogBitrateBPS := catalogRate;
      BufferLevelMS := buffer; PlaybackRate := Some (f64 1); StallCount := StallCount base;
      StallDurationMS := StallDurationMS base |}).

(** ** Events: every mutex-protected method call on the state *)
Inductive pevent :=
  | EvAddObject (trackName : string) (group object : Z) (headers : KVPList) (size now : Z)
  | EvAdvance (now : Z)
  | EvNextAdvanceDeadline
  | EvSnapshot (now : Z).

Definition apply_event (p : nativePlayback) (e : pevent) : outcome nativePlayback :=
  match e with
  | EvAddObject name group object headers size now => addObject name group object headers size now p
  | EvAdvance now => advance now p
  | EvNextAdvanceDeadline => Ret (nextAdvanceDeadline p).1
  | EvSnapshot now => let! '(p, _) := snapshot now p in Ret p
  end.

Fixpoint run_events (p : nativePlayback) (es : list pevent) : outcome nativePlayback :=
  match es with
  | [] => Ret p
  | e :: es => let! p := apply_event p e in run_events p es
  end.

(** ** The event loop [run]

    The goroutine owns [advanceC], the deadline its timer is armed for; other
    goroutines call [addObject].  A timer armed for [d] fires at some [now]
    not before [d]; the wake channel holds at most one token, which the field
    [wake] of the state keeps. *)
Record runState := mkRun { playback : nativePlayback; advanceC : option Z }.

(** The closure [schedule]. *)
Definition schedule (p : nativePlayback) : runState :=
  let '(p, deadline) := nextAdvanceDeadline p in mkRun p deadline.

Inductive run_start : nativePlayback -> runState -> Prop :=
  | run_started p q m now : snapshot now p = Ret (q, m) -> run_start p (schedule q).

Inductive run_step : runState -> runState -> Prop :=
  | run_timer p d now q : d <= now -> advance now p = Ret q ->
      run_step (mkRun p (Some d)) (schedule q)
  | run_wake p c now q : wake p = true -> advance now (set_wake false p) = Ret q ->
      run_step (mkRun p c) (schedule q)
  | run_metrics p c now q m : snapshot now p = Ret (q, m) ->
      run_step (mkRun p c) (mkRun q c)
  | run_object p c name group object headers size now q :
      addObject name group object headers size now p = Ret q ->
      run_step (mkRun p c) (mkRun q c).
