(* ===== verification/PlaybackFacts.v ===== *)
(** * Facts about simulated playback

    The order of [sortedUnits], the invariant [pb_inv] of the playback state
    and its preservation by every method.  The theorems built on them are in
    [PlaybackProps]. *)
From S2P Require Import Prelude Media Catalog Loc GoFloat Playback.
Local Open Scope Z_scope.
Local Open Scope go_scope.

(** ** Setters *)
Lemma set_pending_id p : set_pending (pending p) p = p.
Proof. by destruct p. Qed.
Lemma set_valid_id p : set_valid (valid p) p = p.
Proof. by destruct p. Qed.
Lemma set_active_id p : set_active (active p) p = p.
Proof. by destruct p. Qed.

Lemma set_valid_range_spec lo n b p :
  0 <= lo -> lo + Z.of_nat n <= len (valid p) ->
  exists v, set_valid_range lo n b p = Ret (set_valid v p) /\ length v = length (valid p) /\
    forall i, (i < length v)%nat ->
      v !! i = if bool_decide (lo <= Z.of_nat i < lo + Z.of_nat n) then Some b else valid p !! i.
Proof.
  revert lo p. induction n as [|n IH]; intros lo p Hlo Hhi.
  - exists (valid p). cbn. rewrite set_valid_id. split_and!; [done..|].
    intros i Hi. rewrite bool_decide_false by lia. done.
  - cbn [set_valid_range]. unfold set_valid_at.
    destruct (index_in_range (valid p) lo) as [x Hx]; [lia|]. rewrite Hx. cbn [obind].
    destruct (IH (lo + 1) (set_valid (<[Z.to_nat lo:=b]> (valid p)) p)) as (v & Hv & Hlen & Hspec).
    { lia. } { cbn. unfold len in *. rewrite length_insert. lia. }
    cbn in Hlen. rewrite length_insert in Hlen.
    exists v. split_and!; [done..|]. intros i Hi. rewrite Hspec by done. cbn.
    destruct (decide (i = Z.to_nat lo)) as [->|Hne].
    + rewrite bool_decide_false by lia. rewrite bool_decide_true by lia.
      apply list_lookup_insert_eq. lia.
    + rewrite list_lookup_insert_ne by done.
      destruct (decide (lo <= Z.of_nat i < lo + Z.of_nat (S n))).
      * rewrite !bool_decide_true by lia. done.
      * rewrite !bool_decide_false by lia. done.
Qed.

(** ** Timestamps *)

(** The accumulator of [timestamp] holds the layer with the lowest index of
    the layers seen. *)
Lemma timestamp_fold ls acc :
  NoDup (ls.*1) -> (acc.2 = true -> acc.1.1 ∉ ls.*1) ->
  let '(lo, ts, found) := fold_left timestamp_step ls acc in
  (found = false -> acc.2 = false /\ ls = []) /\
  (found = true ->
     ((acc.2 = true /\ lo = acc.1.1 /\ ts = acc.1.2) \/ exists l, (lo, l) ∈ ls /\ ts = timestampUs l) /\
     (acc.2 = true -> lo <= acc.1.1) /\ (forall i l, (i, l) ∈ ls -> lo <= i)).
Proof.
  revert acc. induction ls as [|[i l] ls IH]; intros [[lo0 ts0] found0] Hnd Hacc; cbn [fold_left].
  - split; [intros; naive_solver|]. intros ->. cbn. split_and!; [by left | done |].
    intros i l H. by apply elem_of_nil in H.
  - apply NoDup_cons in Hnd as [Hi Hnd]. cbn [timestamp_step].
    specialize (IH (if negb found0 || (i <? lo0) then (i, timestampUs l, true) else (lo0, ts0, found0)) Hnd).
    destruct (fold_left _ _ _) as [[lo ts] found]. cbn in Hacc.
    destruct found0; cbn [negb orb] in IH; [destruct (Z.ltb_spec i lo0)|]; cbn in IH.
    all: destruct IH as [IH1 IH2]; [set_solver|].
    all: split; [naive_solver|]; intros Hf; destruct (IH2 Hf) as (H1 & H2 & H3).
    + split_and!; cbn; [right; destruct H1 as [(_ & -> & ->)|(l' & ? & ?)]; set_solver | lia |].
      intros j k [[= -> ->]|Hj]%elem_of_cons; [by apply H2 | eauto].
    + assert (i <> lo0) by set_solver.
      split_and!; cbn; [destruct H1 as [?|(l' & ? & ?)]; [by left | right; set_solver] | done |].
      intros j k [[= -> ->]|Hj]%elem_of_cons; [|eauto]. specialize (H2 eq_refl). lia.
    + split_and!; cbn; [right; destruct H1 as [(_ & -> & ->)|(l' & ? & ?)]; set_solver | done |].
      intros j k [[= -> ->]|Hj]%elem_of_cons; [by apply H2 | eauto].
Qed.

(** [timestamp] is the timestamp of the lowest layer present, whatever the
    order in which the map is traversed. *)
Lemma timestamp_over_spec (u : playbackUnit) ls :
  ls ≡ₚ map_to_list (layers u) ->
  (layers u = ∅ -> timestamp_over ls = (0, false)) /\
  (layers u <> ∅ -> exists i l, layers u !! i = Some l /\ (forall j l', layers u !! j = Some l' -> i <= j)
     /\ timestamp_over ls = (timestampUs l, true)).
Proof.
  intros Hls. split.
  - intros He. rewrite He, map_to_list_empty in Hls. by apply Permutation_nil_r in Hls as ->.
  - intros Hne. unfold timestamp_over.
    assert (NoDup ls.*1) as Hnd by (rewrite Hls; apply NoDup_fst_map_to_list).
    pose proof (timestamp_fold ls (0, 0, false) Hnd ltac:(done)) as H.
    destruct (fold_left _ _ _) as [[lo ts] found]. cbn in H. destruct H as [H1 H2].
    destruct found.
    + destruct (H2 eq_refl) as ([?|(l & Hl & ->)] & _ & Hmin); [naive_solver|].
      rewrite Hls in Hl. apply elem_of_map_to_list in Hl.
      exists lo, l. split_and!; [done | | done].
      intros j l' Hj. apply (Hmin j l'). rewrite Hls. by apply elem_of_map_to_list.
    + destruct (H1 eq_refl) as [_ ->]. symmetry in Hls.
      apply Permutation_nil_r in Hls. by apply map_to_list_empty_iff in Hls.
Qed.

Lemma timestamp_ok u : layers u <> ∅ -> exists ts, timestamp u = (ts, true).
Proof. intros H. destruct (timestamp_over_spec u _ (reflexivity _)) as [_ (i & l & _ & _ & Ht)]; eauto. Qed.

(** A unit that has its base layer has the base layer's timestamp. *)
Lemma timestamp_base u l : layers u !! 0 = Some l -> (forall i l', layers u !! i = Some l' -> 0 <= i) ->
  timestamp u = (timestampUs l, true).
Proof.
  intros Hl Hpos. destruct (timestamp_over_spec u _ (reflexivity _)) as [_ H].
  destruct H as (i & l' & Hi & Hmin & Ht); [by intros E; rewrite E, lookup_empty in Hl|].
  assert (i = 0) as -> by (specialize (Hmin 0 l Hl); specialize (Hpos i l' Hi); lia).
  unfold timestamp. rewrite Ht. congruence.
Qed.

(** ** The order of units *)
#[export] Instance not_after_total : Total not_after.
Proof.
  intros x y. unfold not_after, unit_less.
  destruct (timestamp x) as [a []], (timestamp y) as [b []]; cbn;
    repeat case Z.eqb_spec; cbn; lia.
Qed.

#[export] Instance not_after_trans : Transitive not_after.
Proof.
  intros x y z. unfold not_after, unit_less.
  destruct (timestamp x) as [a []], (timestamp y) as [b []], (timestamp z) as [c []]; cbn;
    repeat case Z.eqb_spec; cbn; lia.
Qed.

Lemma not_after_antisym x y : not_after x y -> not_after y x -> unitKey x = unitKey y.
Proof.
  unfold not_after, unit_less. rewrite (surjective_pairing (unitKey x)), (surjective_pairing (unitKey y)).
  destruct (timestamp x) as [a []], (timestamp y) as [b []]; cbn;
    repeat case Z.eqb_spec; cbn; intros; f_equal; lia.
Qed.

Lemma not_after_le x y a b : not_after x y -> timestamp x = (a, true) -> timestamp y = (b, true) -> a <= b.
Proof. unfold not_after, unit_less. intros H Hx Hy. rewrite Hx, Hy in H. revert H. cbn. case Z.eqb_spec; cbn; lia. Qed.

Definition keyed (m : gmap (Z * Z) playbackUnit) : Prop := forall k u, m !! k = Some u -> unitKey u = k.

Lemma keyed_delete m k : keyed m -> keyed (delete k m).
Proof. intros Hk i u [_ H]%lookup_delete_Some. eauto. Qed.

Lemma sortedUnits_perm p : sortedUnits p ≡ₚ (map_to_list (pending p)).*2.
Proof. apply merge_sort_Permutation. Qed.

Lemma elem_of_sortedUnits p u : u ∈ sortedUnits p <-> exists k, pending p !! k = Some u.
Proof.
  rewrite sortedUnits_perm, list_elem_of_fmap. split.
  - intros ([k v] & -> & H). exists k. by apply elem_of_map_to_list in H.
  - intros [k H]. exists (k, u). split; [done|]. by apply elem_of_map_to_list.
Qed.

Lemma elem_of_sortedUnits_keyed p u : keyed (pending p) ->
  u ∈ sortedUnits p <-> pending p !! unitKey u = Some u.
Proof. intros Hk. rewrite elem_of_sortedUnits. split; [intros [k H]; by rewrite (Hk k u H) | eauto]. Qed.

Lemma sortedUnits_sorted p : StronglySorted not_after (sortedUnits p).
Proof. apply StronglySorted_merge_sort; apply _. Qed.

(** Any sorted traversal of the pending units is the one [sortedUnits] gives. *)
Lemma sortedUnits_unique p l : keyed (pending p) ->
  l ≡ₚ (map_to_list (pending p)).*2 -> StronglySorted not_after l -> l = sortedUnits p.
Proof.
  intros Hk Hp Hs. eapply StronglySorted_unique_strong; [| done | apply sortedUnits_sorted |].
  - intros x y Hx Hy Hxy Hyx. rewrite Hp, <- sortedUnits_perm in Hx.
    apply elem_of_sortedUnits_keyed in Hx, Hy; [|done..].
    rewrite (not_after_antisym x y Hxy Hyx) in Hx. congruence.
  - by rewrite Hp, sortedUnits_perm.
Qed.

(** ** [nextUnit] *)
Definition fresh (p : nativePlayback) (ts : Z) : bool :=
  match lastPresented p with None => true | Some last => last <? ts end.

Lemma nextUnit_loop_spec units p q o :
  nextUnit_loop units p = (q, o) -> StronglySorted not_after units ->
  exists m, q = set_pending m p /\
    (forall k u, m !! k = Some u -> pending p !! k = Some u) /\
    (forall k u, pending p !! k = Some u -> m !! k = None ->
       exists u' ts, u' ∈ units /\ unitKey u' = k /\ timestamp u' = (ts, true) /\ fresh p ts = false) /\
    match o with
    | Some u => u ∈ units /\ (exists ts, timestamp u = (ts, true) /\ fresh p ts = true) /\
        (forall u' ts, u' ∈ units -> timestamp u' = (ts, true) -> fresh p ts = true -> not_after u u')
    | None => forall u ts, u ∈ units -> timestamp u = (ts, true) -> fresh p ts = false
    end.
Proof.
  revert p q o. induction units as [|u units IH]; intros p q o Hn Hs; cbn [nextUnit_loop] in Hn.
  - injection Hn as <- <-. exists (pending p). rewrite set_pending_id.
    split_and!; [done.. | congruence | intros u ts H; by apply elem_of_nil in H].
  - apply StronglySorted_inv in Hs as [Hs Hu]. rewrite Forall_forall in Hu.
    destruct (timestamp u) as [ts ok] eqn:Ht. destruct ok; cbn [negb] in Hn.
    + fold (fresh p ts) in Hn. destruct (fresh p ts) eqn:Hf.
      * injection Hn as <- <-. exists (pending p). rewrite set_pending_id.
        split_and!; [done.. | congruence | left | eauto |].
        intros u' ts' [->|H']%elem_of_cons _ _; [|by apply Hu].
        unfold not_after, unit_less. rewrite (surjective_pairing (timestamp u)). cbn.
        rewrite eqb_reflx. cbn. repeat case Z.eqb_spec; cbn; repeat case_match; lia.
      * destruct (IH _ _ _ Hn Hs) as (m & -> & Hsub & Hdel & Ho). exists m.
        split_and!; [done | | |].
        -- intros k v Hk. apply Hsub in Hk. cbn in Hk. by apply lookup_delete_Some in Hk as [_ Hk].
        -- intros k v Hk Hm. destruct (decide (unitKey u = k)) as [Heq|Hne].
           ++ exists u, ts. split_and!; [left | done..].
           ++ destruct (Hdel k v) as (u' & ts' & ? & ? & ? & ?); [cbn; by rewrite lookup_delete_ne | done |].
              exists u', ts'. split_and!; [by right | done..].
        -- destruct o as [v|].
           ++ destruct Ho as (Hv & Hvt & Hmin). split_and!; [by right | done |].
              intros u' ts' [->|H']%elem_of_cons Ht' Hf'; [|eauto].
              rewrite Ht in Ht'. injection Ht' as <-. by rewrite Hf in Hf'.
           ++ intros u' ts' [->|H']%elem_of_cons Ht'; [|eauto]. congruence.
    + destruct (IH _ _ _ Hn Hs) as (m & -> & Hsub & Hdel & Ho). exists m.
      split_and!; [done | done | |].
      * intros k v Hk Hm. destruct (Hdel k v Hk Hm) as (u' & ts' & ? & ?). exists u', ts'. split; [by right|done].
      * destruct o as [v|].
        -- destruct Ho as (Hv & Hvt & Hmin). split_and!; [by right | done |].
           intros u' ts' [->|H']%elem_of_cons Ht' Hf'; [congruence | eauto].
        -- intros u' ts' [->|H']%elem_of_cons Ht'; [congruence | eauto].
Qed.

(** What [nextUnit] does to a state whose units are stored under their keys:
    it forgets units that are no longer fresh, and returns the earliest fresh
    one, which stays pending. *)
Record next_unit (p q : nativePlayback) (o : option playbackUnit) : Prop := {
  nu_sub : exists m, q = set_pending m p /\ m ⊆ pending p;
  nu_kept : forall k u ts, pending p !! k = Some u -> timestamp u = (ts, true) -> fresh p ts = true ->
    pending q !! k = Some u;
  nu_some : forall u, o = Some u -> pending q !! unitKey u = Some u /\
    (exists ts, timestamp u = (ts, true) /\ fresh p ts = true) /\
    (forall k u' ts, pending p !! k = Some u' -> timestamp u' = (ts, true) -> fresh p ts = true ->
       not_after u u');
  nu_none : o = None -> forall k u ts, pending p !! k = Some u -> timestamp u = (ts, true) -> fresh p ts = false
}.

Lemma nextUnit_spec p q o : keyed (pending p) -> nextUnit p = (q, o) -> next_unit p q o.
Proof.
  intros Hk Hn. destruct (nextUnit_loop_spec _ _ _ _ Hn (sortedUnits_sorted p)) as (m & -> & Hsub & Hdel & Ho).
  assert (Hkept : forall k u ts, pending p !! k = Some u -> timestamp u = (ts, true) -> fresh p ts = true ->
            m !! k = Some u).
  { intros k u ts Hu Ht Hf. destruct (m !! k) as [v|] eqn:Hm.
    - apply Hsub in Hm. congruence.
    - destruct (Hdel k u Hu Hm) as (u' & ts' & Hin & <- & Ht' & Hf').
      apply elem_of_sortedUnits_keyed in Hin; [|done]. congruence. }
  split.
  - exists m. split; [done|]. by apply map_subseteq_spec.
  - exact Hkept.
  - intros u ->. destruct Ho as (Hin & (ts & Ht & Hf) & Hmin).
    apply elem_of_sortedUnits_keyed in Hin; [|done].
    split_and!; [cbn; eauto | eauto |]. intros k u' ts' Hu'. apply Hmin. apply elem_of_sortedUnits. eauto.
  - intros -> k u ts Hu. apply Ho. apply elem_of_sortedUnits. eauto.
Qed.

(** ** [completePrefix] *)
Lemma prefix_loop_spec u base n i prefix :
  0 <= i -> prefix = i - 1 ->
  let r := prefix_loop u base n i prefix in
  prefix <= r < i + Z.of_nat n /\ 
  forall j, i <= j <= r -> j < invalidFrom u /\ exists l, layers u !! j = Some l /\
    timestampUs l = timestampUs base /\ independent l = independent base.
Proof.
  revert i prefix. induction n as [|n IH]; intros i prefix Hi ->; cbn [prefix_loop].
  - split; [lia|]. intros; lia.
  - destruct (Z.ltb_spec i (invalidFrom u)); [|split; [lia|]; intros; lia].
    destruct (layers u !! i) as [l|] eqn:Hl; [|split; [lia|]; intros; lia].
    destruct (negb _ || negb _) eqn:Hc; [split; [lia|]; intros; lia|].
    destruct (IH (i + 1) i) as [Hr Hj]; [lia..|]. split; [lia|].
    intros j Hij. destruct (decide (j = i)) as [->|]; [|apply Hj; lia].
    split; [done|]. exists l. split; [done|].
    apply orb_false_iff in Hc as [H1 H2]. apply negb_false_iff in H1, H2.
    split; [by apply Z.eqb_eq | by apply eqb_prop].
Qed.

(** [completePrefix] returns the largest usable layer prefix: every layer up
    to it is present, with the base layer's timestamp and independence. *)
Lemma completePrefix_spec p u prefix ind :
  completePrefix p u = (prefix, ind) ->
  -1 <= prefix < Z.max 1 (len (tracks p)) /\
  (0 <= prefix -> exists base, layers u !! 0 = Some base /\ independent base = ind /\
     forall j, 0 <= j <= prefix -> j < invalidFrom u /\ exists l, layers u !! j = Some l /\
       timestampUs l = timestampUs base /\ independent l = independent base).
Proof.
  unfold completePrefix. destruct (invalidFrom u =? 0); [intros [= <- <-]; unfold len; lia|].
  destruct (layers u !! 0) as [base|] eqn:Hb; [|intros [= <- <-]; unfold len; lia].
  intros [= <- <-].
  destruct (prefix_loop_spec u base (length (tracks p)) 0 (-1)) as [Hr Hj]; [lia..|].
  split; [unfold len; lia|]. intros _. exists base. split_and!; [done..|]. exact Hj.
Qed.

(** ** The invariant *)
Record unit_ok (n : Z) (k : Z * Z) (u : playbackUnit) : Prop := {
  u_key : unitKey u = k;
  u_nonempty : layers u <> ∅;
  u_layers : forall i l, layers u !! i = Some l -> 0 <= i < n;
  u_invalid : 0 <= invalidFrom u <= n
}.

Record pb_inv (p : nativePlayback) : Prop := {
  inv_valid_len : length (valid p) = length (tracks p);
  inv_target : target p = len (tracks p) - 1;
  inv_tracks : 0 < len (tracks p);
  inv_active : -1 <= active p <= target p;
  inv_valid : forall i, (Z.of_nat i <= active p) -> valid p !! i = Some true;
  inv_index : forall name i, trackIndex p !! name = Some i -> 0 <= i < len (tracks p);
  inv_units : forall k u, pending p !! k = Some u -> unit_ok (len (tracks p)) k u;
  inv_bound : Z.of_nat (size (pending p)) <= maxPendingUnits;
  inv_playing : 0 <= active p ->
    started p = true /\ is_Some (lastPresented p) /\ stallStarted p = zeroTime /\ state p = "playing"%string;
  inv_simulated : simulated p = false -> pending p = ∅ /\ active p = -1
}.

Lemma inv_keyed p : pb_inv p -> keyed (pending p).
Proof. intros Hi k u Hu. by apply (inv_units p Hi). Qed.

(** The invariant only depends on some of the fields. *)
Lemma pb_inv_pending m p : pb_inv p -> m ⊆ pending p -> pb_inv (set_pending m p).
Proof.
  intros Hi Hm. pose proof Hi as []. split; try done; cbn.
  - intros k u Hu. apply inv_units0. by eapply lookup_weaken.
  - pose proof (map_subseteq_size _ _ Hm). lia.
  - intros Hs. destruct (inv_simulated0 Hs) as [He Ha]. split; [|done].
    apply map_eq. intros k. destruct (m !! k) eqn:E; [|done].
    eapply lookup_weaken in E; [|done]. by rewrite He, lookup_empty in E.
Qed.

Lemma pb_inv_bookkeeping r pl w sw p : pb_inv p ->
  pb_inv (set_switchState sw (set_wake w (set_played pl (set_received r p)))).
Proof. intros []. by split. Qed.

Lemma pb_inv_received r p : pb_inv p -> pb_inv (set_received r p).
Proof. intros []. by split. Qed.
Lemma pb_inv_played r p : pb_inv p -> pb_inv (set_played r p).
Proof. intros []. by split. Qed.
Lemma pb_inv_wake r p : pb_inv p -> pb_inv (set_wake r p).
Proof. intros []. by split. Qed.
Lemma pb_inv_switchState r p : pb_inv p -> pb_inv (set_switchState r p).
Proof. intros []. by split. Qed.

(** Once no layer is active, the presentation fields are free. *)
Lemma pb_inv_state st p : pb_inv p -> active p < 0 -> pb_inv (set_state st p).
Proof. intros [] H. split; try done. cbn. lia. Qed.
Lemma pb_inv_enterStall now p : pb_inv p -> active p < 0 -> pb_inv (enterStall now p).
Proof. intros [] H. unfold enterStall. case_bool_decide; split; try done. cbn. lia. Qed.
#[export] Hint Resolve pb_inv_received pb_inv_played pb_inv_wake pb_inv_switchState pb_inv_state
  pb_inv_enterStall : go.

Lemma unit_ok_timestamp n k u : unit_ok n k u -> exists ts, timestamp u = (ts, true).
Proof. intros []. by apply timestamp_ok. Qed.

(** In a well-formed unit, the prefix is at least the base layer whenever the
    unit can start playback. *)
Lemma completePrefix_independent p k u prefix : 0 < len (tracks p) -> unit_ok (len (tracks p)) k u ->
  completePrefix p u = (prefix, true) -> 0 <= prefix.
Proof.
  intros Ht [] . unfold completePrefix. destruct (Z.eqb_spec (invalidFrom u) 0); [done|].
  destruct (layers u !! 0) as [base|] eqn:Hb; [|done]. intros [= <- _].
  destruct (length (tracks p)) as [|n'] eqn:Hn; [unfold len in *; lia|]. cbn [prefix_loop].
  rewrite (proj2 (Z.ltb_lt _ _)) by lia. rewrite Hb, Z.eqb_refl, eqb_reflx. cbn.
  destruct (prefix_loop_spec u base n' 1 0) as [Hr _]; [done..|]. apply Hr.
Qed.

Lemma completePrefix_range p u prefix ind : 0 < len (tracks p) ->
  completePrefix p u = (prefix, ind) -> -1 <= prefix < len (tracks p).
Proof. intros Ht H. apply completePrefix_spec in H. lia. Qed.

(** ** Presenting a unit *)

(** A state as [present] leaves it: [u] was presented at [now]. *)
Lemma pb_inv_present u now p :
  length (valid p) = length (tracks p) -> pb_inv (set_active (-1) p) -> 0 <= active p <= target p ->
  simulated p = true -> stallStarted p = zeroTime ->
  (forall i, Z.of_nat i <= active p -> valid p !! i = Some true) ->
  pb_inv (present u now p).
Proof.
  intros Hlen [] Ha Hsim Hst Hv. cbn in *. split; cbn; try done.
  - lia.
  - intros k v [_ Hk]%lookup_delete_Some. by apply inv_units0.
  - pose proof (map_subseteq_size _ _ (delete_subseteq (pending p) (unitKey u))). lia.
  - congruence.
Qed.

Lemma present_pending u now p : pending (present u now p) = delete (unitKey u) (pending p).
Proof. done. Qed.

Lemma pb_inv_deactivate p : pb_inv p -> pb_inv (set_active (-1) p).
Proof. intros []. split; cbn; try done; try lia. intros Hs. split; [by apply inv_simulated0 | done]. Qed.

(** [lower_active] stops at the highest valid layer not above [prefix]. *)
Lemma lower_active_spec n prefix p :
  -1 <= prefix -> active p < len (valid p) -> active p < Z.of_nat n ->
  (forall i, Z.of_nat i <= Z.min prefix (active p) -> valid p !! i = Some true) ->
  lower_active n prefix p = Ret (set_active (if 0 <=? active p then Z.min prefix (active p) else active p) p).
Proof.
  revert p. induction n as [|n IH]; intros p Hpre Hlen Hn Hv; cbn [lower_active].
  - rewrite (proj2 (Z.leb_gt 0 (active p))) by lia. by rewrite set_active_id.
  - destruct (Z.leb_spec 0 (active p)); [|by rewrite set_active_id].
    destruct (Z.gtb_spec (active p) prefix).
    + rewrite IH; cbn [active valid set_active]; [| lia | lia | lia | intros i Hi; apply Hv; lia].
      replace (if 0 <=? active p - 1 then _ else _) with (Z.min prefix (active p)); [done|].
      destruct (Z.leb_spec 0 (active p - 1)); lia.
    + assert (Hx : index (valid p) (active p) = Ret true).
      { apply index_Ret. split; [done|]. apply Hv. lia. }
      rewrite Hx. cbn. rewrite Z.min_r by lia. by rewrite set_active_id.
Qed.

(** ** One iteration of [advance] *)

(** The layer that plays unit [u] when [active p] was playing: an independent
    unit switches to its own prefix, any other unit can only lower it. *)
Definition next_active (p : nativePlayback) (u : playbackUnit) : Z :=
  let '(prefix, ind) := completePrefix p u in if ind then prefix else Z.min prefix (active p).

Lemma next_active_range p u : pb_inv p -> -1 <= next_active p u < len (tracks p).
Proof.
  intros Hi. unfold next_active. destruct (completePrefix p u) as [prefix ind] eqn:Hc.
  apply completePrefix_range in Hc; [|apply Hi]. pose proof (inv_active p Hi).
  rewrite (inv_target p Hi) in *. destruct ind; lia.
Qed.

(** The part of [advance_step] that computes [valid] and [active]. *)
Lemma advance_layers p q u prefix ind :
  pb_inv p -> 0 <= active p -> (exists m, q = set_pending m p) -> completePrefix p u = (prefix, ind) ->
  exists v, length v = length (tracks p) /\
    (forall i, Z.of_nat i <= next_active p u -> v !! i = Some true) /\
    (let! r := if prefix <? active q
               then set_valid_range (prefix + 1) (length (valid q) - Z.to_nat (prefix + 1)) false q
               else Ret q in
     if ind then let! r := set_valid_range 0 (Z.to_nat (prefix + 1)) true r in Ret (set_active prefix r)
     else lower_active (Z.to_nat (active r + 1)) prefix r)
    = Ret (set_active (next_active p u) (set_valid v q)).
Proof.
  intros Hi Ha [m ->] Hc. unfold next_active. rewrite Hc. cbn [active valid set_pending].
  apply completePrefix_range in Hc as Hr; [|apply Hi].
  pose proof Hi as [Hlen Htgt _ Hact Hv _ _ _ _ _]. unfold len in *.
  assert (exists v1, length v1 = length (tracks p) /\
    (forall i, Z.of_nat i <= Z.min prefix (active p) -> v1 !! i = Some true) /\
    (if prefix <? active p
     then set_valid_range (prefix + 1) (length (valid p) - Z.to_nat (prefix + 1)) false (set_pending m p)
     else Ret (set_pending m p)) = Ret (set_valid v1 (set_pending m p))) as (v1 & Hv1 & Ht1 & ->).
  { destruct (Z.ltb_spec prefix (active p)).
    - destruct (set_valid_range_spec (prefix + 1) (length (valid p) - Z.to_nat (prefix + 1)) false
                  (set_pending m p)) as (v & Hs & Hl & Hspec); [lia | cbn; unfold len; lia|].
      exists v. cbn in Hl, Hspec. split_and!; [lia | | done].
      intros i Hi'. rewrite Hspec by lia. rewrite bool_decide_false by lia. apply Hv. lia.
    - exists (valid p). split_and!; [done | intros i Hi'; apply Hv; lia | by destruct p]. }
  cbn [obind]. destruct ind.
  - destruct (set_valid_range_spec 0 (Z.to_nat (prefix + 1)) true (set_valid v1 (set_pending m p)))
      as (v & Hs & Hl & Hspec); [lia | cbn; unfold len; lia |].
    cbn [valid set_valid] in Hl, Hspec. exists v. split_and!; [lia | | by rewrite Hs].
    intros i Hi'. rewrite Hspec by lia. rewrite bool_decide_true by lia. done.
  - exists v1. split_and!; [done | done |].
    rewrite lower_active_spec; cbn [active valid set_valid set_pending]; [| lia | unfold len; lia | lia | done].
    by rewrite (proj2 (Z.leb_le 0 (active p))).
Qed.

Lemma presentationDeadline_pending m p ts : presentationDeadline (set_pending m p) ts = presentationDeadline p ts.
Proof. done. Qed.

(** [advance_step] in terms of [nextUnit], the deadline and [next_active]. *)
Lemma advance_step_spec now p : pb_inv p -> 0 <= active p ->
  exists q o, nextUnit p = (q, o) /\ next_unit p q o /\ pb_inv q /\
  match o with
  | None => advance_step now p = Ret (q, true)
  | Some u => exists ts, timestamp u = (ts, true) /\ fresh p ts = true /\
      if now <? presentationDeadline p ts then advance_step now p = Ret (q, true)
      else exists v, length v = length (tracks p) /\
        (forall i, Z.of_nat i <= next_active p u -> v !! i = Some true) /\
        let r := set_active (next_active p u) (set_valid v q) in
        advance_step now p =
          if next_active p u <? 0
          then Ret (set_switchState "waiting_independent" (enterStall now r), true)
          else Ret (present u now r, false)
  end.
Proof.
  intros Hi Ha. destruct (nextUnit p) as [q o] eqn:Hn.
  pose proof (nextUnit_spec p q o (inv_keyed p Hi) Hn) as Hnu.
  destruct (nu_sub _ _ _ Hnu) as (m & -> & Hm).
  exists (set_pending m p), o. split_and!; [done | done | by apply pb_inv_pending |].
  unfold advance_step. rewrite Hn. destruct o as [u|]; [|done].
  destruct (nu_some _ _ _ Hnu u eq_refl) as (_ & (ts & Ht & Hf) & _).
  exists ts. split_and!; [done..|]. rewrite Ht. cbn [negb]. rewrite presentationDeadline_pending.
  destruct (now <? presentationDeadline p ts); [done|].
  destruct (completePrefix p u) as [prefix ind] eqn:Hc.
  change (completePrefix (set_pending m p) u) with (completePrefix p u). rewrite Hc.
  destruct (advance_layers p (set_pending m p) u prefix ind Hi Ha ltac:(by eexists) Hc) as (v & Hlen & Hv & Heq).
  exists v. split_and!; [done..|]. cbv zeta. revert Heq.
  destruct (if prefix <? active _ then _ else _) as [r|e|]; cbn [obind]; intros Heq; [|done..].
  rewrite Heq. cbn [obind active set_active].
  by destruct (next_active p u <? 0).
Qed.

(** The states that an iteration of [advance] leaves satisfy the invariant. *)
Lemma advance_present_inv now p q v u :
  pb_inv p -> 0 <= active p -> pb_inv q -> (exists m, q = set_pending m p) ->
  length v = length (tracks p) -> (forall i, Z.of_nat i <= next_active p u -> v !! i = Some true) ->
  0 <= next_active p u -> pb_inv (present u now (set_active (next_active p u) (set_valid v q))).
Proof.
  intros Hi Ha Hq [m ->] Hlen Hv H0.
  pose proof (next_active_range p u Hi). pose proof (inv_target p Hi).
  apply pb_inv_present; cbn; try done.
  - pose proof (pb_inv_deactivate _ Hq) as []. split; cbn; try done. lia.
  - lia.
  - destruct (simulated p) eqn:Hs; [done|]. apply (inv_simulated p Hi) in Hs. lia.
  - by apply (inv_playing p Hi).
Qed.

Lemma advance_stall_inv now p q v a :
  pb_inv q -> (exists m, q = set_pending m p) -> length v = length (tracks p) -> a < 0 -> -1 <= a ->
  pb_inv (set_switchState "waiting_independent" (enterStall now (set_active a (set_valid v q)))).
Proof.
  intros Hq [m ->] Hlen Ha Ha'. apply pb_inv_switchState, pb_inv_enterStall; [|done].
  assert (a = -1) as -> by lia. pose proof (pb_inv_deactivate _ Hq) as []. split; cbn; try done. lia.
Qed.

(** ** [advance] *)
Record advanced (now : Z) (p r : nativePlayback) : Prop := {
  adv_inv : pb_inv r;
  adv_static : tracks r = tracks p /\ trackIndex r = trackIndex p /\ target r = target p /\
    simulated r = simulated p /\ targetLatency r = targetLatency p /\ minimalBuffer r = minimalBuffer p /\
    received r = received p /\ wake r = wake p;
  adv_pending : pending r ⊆ pending p;
  adv_played : exists l, played r = played p ++ l /\ Forall (fun b => tbAt b = now) l
}.

Lemma advanced_refl now p : pb_inv p -> advanced now p p.
Proof. intros Hi. split; [done | by split_and! | done |]. exists []. rewrite app_nil_r. by split. Qed.

Lemma advanced_trans now p q r : advanced now p q -> advanced now q r -> advanced now p r.
Proof.
  intros [_ (H1&H2&H3&H4&H5&H6&H7&H8) Hp (l & Hl & Hf)] [Hi (?&?&?&?&?&?&?&?) Hp' (l' & Hl' & Hf')].
  split; [done | split_and!; congruence | by transitivity (pending q) |].
  exists (l ++ l'). rewrite Hl', Hl, app_assoc. split; [done|]. by apply Forall_app.
Qed.

Lemma enterStall_static now p : 
  tracks (enterStall now p) = tracks p /\ trackIndex (enterStall now p) = trackIndex p /\
  target (enterStall now p) = target p /\ simulated (enterStall now p) = simulated p /\
  targetLatency (enterStall now p) = targetLatency p /\ minimalBuffer (enterStall now p) = minimalBuffer p /\
  received (enterStall now p) = received p /\ wake (enterStall now p) = wake p.
Proof. unfold enterStall. by case_bool_decide. Qed.
Lemma enterStall_pending now p : pending (enterStall now p) = pending p.
Proof. unfold enterStall. by case_bool_decide. Qed.
Lemma enterStall_active now p : active (enterStall now p) = active p.
Proof. unfold enterStall. by case_bool_decide. Qed.
Lemma enterStall_played now p : played (enterStall now p) = played p.
Proof. unfold enterStall. by case_bool_decide. Qed.
Lemma enterStall_lastPresented now p : lastPresented (enterStall now p) = lastPresented p.
Proof. unfold enterStall. by case_bool_decide. Qed.

Lemma advance_step_advanced now p : pb_inv p -> 0 <= active p ->
  exists r stop, advance_step now p = Ret (r, stop) /\ advanced now p r /\
    (stop = false -> 0 <= active r /\ (size (pending r) < size (pending p))%nat).
Proof.
  intros Hi Ha. destruct (advance_step_spec now p Hi Ha) as (q & o & Hn & Hnu & Hq & Hstep).
  destruct (nu_sub _ _ _ Hnu) as (m & -> & Hm).
  assert (Hskip : advanced now p (set_pending m p)).
  { split; [done | by split_and! | done |]. exists []. rewrite app_nil_r. by split. }
  destruct o as [u|]; [|by exists (set_pending m p), true].
  destruct Hstep as (ts & Ht & Hf & Hstep).
  destruct (now <? presentationDeadline p ts); [by exists (set_pending m p), true|].
  destruct Hstep as (v & Hlen & Hv & Hstep). cbv zeta in Hstep. rewrite Hstep.
  destruct (next_active_range p u Hi).
  destruct (Z.ltb_spec (next_active p u) 0).
  - eexists _, true. split; [done|]. split; [|done]. split.
    + eapply advance_stall_inv; eauto.
    + cbn. destruct (enterStall_static now (set_active (next_active p u) (set_valid v (set_pending m p)))) as (?&?&?&?&?&?&?&?).
      by split_and!.
    + cbn. by rewrite enterStall_pending.
    + cbn. rewrite enterStall_played. exists []. rewrite app_nil_r. by split.
  - eexists _, false. split; [done|]. split; [split|].
    + apply (advance_present_inv now p _ v u Hi Ha Hq); eauto.
    + by split_and!.
    + cbn. etrans; [apply delete_subseteq | done].
    + eexists. cbn. split; [done|]. by repeat constructor.
    + intros _. split; [done|]. change (size (delete (unitKey u) m) < size (pending p))%nat.
      destruct (nu_some _ _ _ Hnu u eq_refl) as (Hu & _). cbn in Hu.
      rewrite map_size_delete, Hu. cbn.
      pose proof (map_subseteq_size _ _ Hm).
      assert (size m <> 0%nat); [|lia]. intros Hz. apply map_size_empty_inv in Hz. by rewrite Hz, lookup_empty in Hu.
Qed.

Lemma advance_loop_advanced now n p : pb_inv p -> 0 <= active p -> (size (pending p) < n)%nat ->
  exists r, advance_loop n now p = Ret r /\ advanced now p r.
Proof.
  revert p. induction n as [|n IH]; intros p Hi Ha Hn; [lia|]. cbn [advance_loop].
  destruct (advance_step_advanced now p Hi Ha) as (q & stop & -> & Hadv & Hcont). cbn [obind].
  destruct stop; [by exists q|].
  destruct (Hcont eq_refl). destruct (IH q) as (r & -> & Hr); [apply Hadv | done | lia |].
  exists r. split; [done|]. by eapply advanced_trans.
Qed.

(** ** [tryStart] *)

(** The condition under which [tryStart] and [nextAdvanceDeadline] select a
    unit to start playback with. *)
Definition startable (p : nativePlayback) (u : playbackUnit) : bool :=
  let '(prefix, ind) := completePrefix p u in
  ind && (0 <=? prefix) && (minimalBuffer p <=? bufferFor p u prefix).

Definition startDeadline (p : nativePlayback) (u : playbackUnit) : Z :=
  UnixMicro (timestampUs (layer_at u 0)) + targetLatency p.

Definition first_startable (p : nativePlayback) (units : list playbackUnit) : option playbackUnit :=
  snd <$> list_find (fun u => startable p u = true) units.

Lemma startable_alt p u :
  startable p u = negb (let '(prefix, ind) := completePrefix p u in
    negb ind || (prefix <? 0) || (bufferFor p u prefix <? minimalBuffer p)).
Proof.
  unfold startable. destruct (completePrefix p u) as [prefix ind].
  rewrite !negb_orb, negb_involutive, <- !Z.leb_antisym. done.
Qed.

Lemma first_startable_cons p u units :
  first_startable p (u :: units) = if startable p u then Some u else first_startable p units.
Proof.
  unfold first_startable. cbn [list_find]. case_decide as H; [by rewrite H|].
  apply not_true_is_false in H. rewrite H. by destruct (list_find _ units) as [[]|].
Qed.

Lemma first_startable_Some p units u : first_startable p units = Some u -> u ∈ units /\ startable p u = true.
Proof.
  unfold first_startable. intros ([i v] & Hf & Hv)%fmap_Some. cbn in Hv. subst v.
  apply list_find_Some in Hf as (Hi & Hs & _). split; [by eapply list_elem_of_lookup_2 | done].
Qed.

Lemma startDeadline_loop_spec p units :
  startDeadline_loop p units = startDeadline p <$> first_startable p units.
Proof.
  induction units as [|u units IH]; [done|]. cbn [startDeadline_loop]. rewrite first_startable_cons, startable_alt.
  destruct (completePrefix p u) as [prefix ind]. by destruct (negb ind || _ || _).
Qed.

(** The state after playback started with [u]. *)
Definition started_with (u : playbackUnit) (now : Z) (v : list bool) (p : nativePlayback) : nativePlayback :=
  present u now (leaveStall now (set_active (completePrefix p u).1 (set_valid v p))).

Lemma tryStart_loop_spec now p units : pb_inv p ->
  exists v, length v = length (tracks p) /\
  match first_startable p units with
  | None => tryStart_loop units now p =
      Ret (if started p then set_switchState "waiting_independent" (enterStall now p)
           else set_state "buffering" p)
  | Some u =>
      (forall i, Z.of_nat i <= (completePrefix p u).1 -> v !! i = Some true) /\
      tryStart_loop units now p =
      Ret (if now <? startDeadline p u then set_state "buffering" p else started_with u now v p)
  end.
Proof.
  intros Hi. induction units as [|u units IH].
  - exists (valid p). split; [apply Hi|]. cbn. by destruct (started p).
  - cbn [tryStart_loop]. rewrite first_startable_cons, startable_alt. unfold started_with.
    destruct (completePrefix p u) as [prefix ind] eqn:Hc.
    destruct (negb ind || _ || _); cbn [negb]; [exact IH|].
    rewrite Hc. cbn [fst]. apply completePrefix_range in Hc; [|apply Hi].
    pose proof (inv_valid_len p Hi) as Hlen. unfold len in *.
    destruct (set_valid_range_spec 0 (Z.to_nat (prefix + 1)) true p) as (v & Hs & Hl & Hspec);
      [lia | unfold len; lia|].
    exists v. split; [lia|]. split.
    + intros i Hi'. rewrite Hspec by lia. by rewrite bool_decide_true by lia.
    + fold (startDeadline p u). rewrite Hs. by destruct (now <? startDeadline p u).
Qed.

Lemma leaveStall_stallStarted now p : stallStarted (leaveStall now p) = zeroTime.
Proof. unfold leaveStall. by case Z.eqb_spec. Qed.

Lemma leaveStall_inv now p : pb_inv p -> pb_inv (leaveStall now p).
Proof.
  intros []. unfold leaveStall. destruct (_ =? _); split; try done. cbn.
  intros H. destruct (inv_playing0 H) as (?&?&?&?). by split_and!.
Qed.

Lemma leaveStall_active a now p : leaveStall now (set_active a p) = set_active a (leaveStall now p).
Proof. unfold leaveStall. cbn. by destruct (_ =? _). Qed.
Lemma leaveStall_valid a now p : leaveStall now (set_valid a p) = set_valid a (leaveStall now p).
Proof. unfold leaveStall. cbn. by destruct (_ =? _). Qed.
Lemma leaveStall_fields now p :
  valid (leaveStall now p) = valid p /\ tracks (leaveStall now p) = tracks p /\ active (leaveStall now p) = active p /\
  target (leaveStall now p) = target p /\ simulated (leaveStall now p) = simulated p /\
  pending (leaveStall now p) = pending p /\ played (leaveStall now p) = played p /\
  trackIndex (leaveStall now p) = trackIndex p /\ targetLatency (leaveStall now p) = targetLatency p /\
  minimalBuffer (leaveStall now p) = minimalBuffer p /\ received (leaveStall now p) = received p /\
  wake (leaveStall now p) = wake p.
Proof. unfold leaveStall. by destruct (_ =? _). Qed.

Lemma started_with_inv u now v p : pb_inv p -> simulated p = true ->
  0 <= (completePrefix p u).1 -> length v = length (tracks p) ->
  (forall i, Z.of_nat i <= (completePrefix p u).1 -> v !! i = Some true) ->
  pb_inv (started_with u now v p).
Proof.
  intros Hi Hsim Hpre Hlen Hv. unfold started_with.
  destruct (completePrefix p u) as [prefix ind] eqn:Hc. cbn [fst] in *.
  apply completePrefix_range in Hc as Hr; [|apply Hi].
  pose proof (inv_target p Hi). rewrite leaveStall_active, leaveStall_valid.
  destruct (leaveStall_fields now p) as (E1&E2&E3&E4&E5&E6&E7&E8&E9&E10&E11&E12).
  apply pb_inv_present; cbn; try done.
  - congruence.
  - pose proof (pb_inv_deactivate _ (leaveStall_inv now p Hi)) as []. split; cbn in *; try done; try congruence. lia.
  - lia.
  - congruence.
  - apply leaveStall_stallStarted.
Qed.

Lemma startable_prefix p u : startable p u = true -> 0 <= (completePrefix p u).1.
Proof. unfold startable. destruct (completePrefix p u). cbn. intros. destruct (Z.leb_spec 0 z), b; cbn in *; done. Qed.

Lemma tryStart_advanced now p : pb_inv p -> simulated p = true -> active p < 0 ->
  exists r, tryStart now p = Ret r /\ advanced now p r.
Proof.
  intros Hi Hsim Ha. unfold tryStart.
  destruct (tryStart_loop_spec now p (sortedUnits p) Hi) as (v & Hlen & Hts).
  destruct (first_startable p _) as [u|] eqn:Hf.
  - destruct Hts as [Hv ->]. eexists. split; [done|].
    destruct (now <? startDeadline p u).
    { split; [by apply pb_inv_state | by split_and! | done |]. exists []. rewrite app_nil_r. by split. }
    apply first_startable_Some in Hf as [_ Hst]. split.
    + apply started_with_inv; try done. by apply startable_prefix.
    + unfold started_with. rewrite leaveStall_active, leaveStall_valid. cbn.
      destruct (leaveStall_fields now p) as (E1&E2&E3&E4&E5&E6&E7&E8&E9&E10&E11&E12). by split_and!.
    + unfold started_with. rewrite leaveStall_active, leaveStall_valid. cbn.
      destruct (leaveStall_fields now p) as (_&_&_&_&_&->&_). apply delete_subseteq.
    + unfold started_with. rewrite leaveStall_active, leaveStall_valid. cbn.
      destruct (leaveStall_fields now p) as (_&_&_&_&_&_&->&_). eexists. split; [done|]. by repeat constructor.
  - rewrite Hts. eexists. split; [done|].
    assert (played (enterStall now p) = played p) by apply enterStall_played.
    destruct (started p).
    + split; cbn; [by auto with go | apply enterStall_static | by rewrite enterStall_pending |].
      exists []. rewrite app_nil_r. by split.
    + split; [by apply pb_inv_state | by split_and! | done |]. exists []. rewrite app_nil_r. by split.
Qed.

(** [advance] always returns, with fuel to spare, and keeps the invariant. *)
Lemma advance_total now p : pb_inv p -> exists r, advance now p = Ret r /\ advanced now p r.
Proof.
  intros Hi. unfold advance. destruct (simulated p) eqn:Hsim; cbn [negb].
  - destruct (Z.ltb_spec (active p) 0); [by apply tryStart_advanced|].
    apply advance_loop_advanced; [done..|lia].
  - exists p. split; [done|]. by apply advanced_refl.
Qed.

(** ** The other methods *)
Lemma trimPending_loop_spec n p :
  keyed (pending p) -> Z.of_nat (size (pending p)) <= maxPendingUnits + Z.of_nat n ->
  exists m, trimPending_loop n p = Ret (set_pending m p) /\ m ⊆ pending p /\
    Z.of_nat (size m) <= maxPendingUnits /\
    (Z.of_nat (size (pending p)) <= maxPendingUnits -> m = pending p).
Proof.
  revert p. induction n as [|n IH]; intros p Hk Hn; cbn [trimPending_loop].
  - exists (pending p). rewrite set_pending_id. split_and!; [done | done | lia | done].
  - destruct (Z.gtb_spec (Z.of_nat (size (pending p))) maxPendingUnits) as [Hgt|Hle].
    + unfold maxPendingUnits in *.
      destruct (sortedUnits p) as [|u us] eqn:Hs.
      { assert (length (map_to_list (pending p)).*2 = 0%nat) as Hl.
        { rewrite <- (sortedUnits_perm p), Hs. done. }
        rewrite length_fmap, length_map_to_list in Hl. lia. }
      assert (Hu : pending p !! unitKey u = Some u).
      { apply elem_of_sortedUnits_keyed; [done|]. rewrite Hs. left. }
      cbn [index obind]. change (index (u :: us) 0) with (Ret u). cbn [obind].
      destruct (IH (set_pending (delete (unitKey u) (pending p)) p)) as (m & -> & Hm & Hsz & _).
      { by apply keyed_delete. }
      { cbn [pending set_pending]. rewrite map_size_delete, Hu. cbn. lia. }
      exists m. split_and!; [done | | done | lia]. etrans; [exact Hm | apply delete_subseteq].
    + exists (pending p). rewrite set_pending_id. by split_and!.
Qed.

Lemma trimPending_spec p : keyed (pending p) ->
  exists m, trimPending p = Ret (set_pending m p) /\ m ⊆ pending p /\ Z.of_nat (size m) <= maxPendingUnits /\
    (Z.of_nat (size (pending p)) <= maxPendingUnits -> m = pending p).
Proof. intros Hk. apply trimPending_loop_spec; [done|]. unfold maxPendingUnits. lia. Qed.

Lemma getLOCFrameMarking_no_panic headers : Sub.getLOCFrameMarking headers <> Panic.
Proof. induction headers as [|kv rest IH]; [done|]. cbn. repeat case_match; done. Qed.

(** The unit that [addObject] stores for an accepted object. *)
Definition merge_layer (n idx : Z) (key : Z * Z) (layer : playbackLayer) (prev : option playbackUnit) : playbackUnit :=
  let unit := default (mkPlaybackUnit key ∅ n) prev in
  match layers unit !! idx with
  | Some previous =>
      if negb (bool_decide (previous = layer)) && (idx <? invalidFrom unit)
      then mkPlaybackUnit (unitKey unit) (layers unit) idx else unit
  | None => mkPlaybackUnit (unitKey unit) (<[idx := layer]> (layers unit)) (invalidFrom unit)
  end.

Lemma merge_layer_ok n idx key layer prev : 0 <= idx < n ->
  (forall u, prev = Some u -> unit_ok n key u) -> unit_ok n key (merge_layer n idx key layer prev).
Proof.
  intros Hidx Hprev. unfold merge_layer.
  set (unit := default (mkPlaybackUnit key ∅ n) prev).
  assert (Hu : unitKey unit = key /\ (forall i l, layers unit !! i = Some l -> 0 <= i < n) /\ 0 <= invalidFrom unit <= n).
  { unfold unit. destruct prev as [u|]; cbn; [by destruct (Hprev u eq_refl)|].
    split_and!; [done | intros i l H; by rewrite lookup_empty in H | lia | lia]. }
  destruct Hu as (Hkey & Hlay & Hinv).
  destruct (layers unit !! idx) as [previous|] eqn:Hl.
  - assert (layers unit <> ∅) by (intros E; by rewrite E, lookup_empty in Hl).
    destruct (_ && _); split; cbn; try done; lia.
  - split; cbn; try done; [apply insert_non_empty|].
    intros i l [[<- <-]|[_ H]]%lookup_insert_Some; [done | eauto].
Qed.

(** An object is accepted when its track is known and its properties say
    which layer it is. *)
Definition accepted (p : nativePlayback) (trackName : string) (headers : KVPList) : option (Z * Z * Sub.locFrameMarking) :=
  match trackIndex p !! trackName, Sub.locTimestampMicros headers, Sub.getLOCFrameMarking headers with
  | Some idx, (ts, true), Ret (marking, true) =>
      match tracks p !! Z.to_nat idx with
      | Some tr => if Sub.validPlaybackMarking marking (ptSpatialID tr) then Some (idx, ts, marking) else None
      | None => None
      end
  | _, _, _ => None
  end.

Lemma addObject_spec name g o headers sz now p : pb_inv p ->
  let p1 := set_received (received p ++ [mkTimedBytes now sz]) p in
  addObject name g o headers sz now p =
  if negb (simulated p) then Ret p1
  else match accepted p name headers with
  | None => Ret (notifyPlayback p1)
  | Some (idx, ts, marking) =>
      let layer := mkPlaybackLayer ts (Sub.Independent marking) sz in
      let unit := merge_layer (len (tracks p)) idx (g, o) layer (pending p !! (g, o)) in
      let! p := trimPending (set_pending (<[(g, o) := unit]> (pending p)) p1) in
      Ret (notifyPlayback p)
  end.
Proof.
  intros Hi. unfold addObject, accepted. cbv zeta. cbn [simulated set_received trackIndex].
  destruct (negb (simulated p)); [done|].
  destruct (trackIndex p !! name) as [idx|] eqn:Hidx; [|done].
  destruct (Sub.locTimestampMicros headers) as [ts hts].
  pose proof (getLOCFrameMarking_no_panic headers) as Hnp.
  destruct (Sub.getLOCFrameMarking headers) as [[marking hm]| |]; [|by destruct hts|done].
  destruct hts, hm; cbn [negb orb]; [|done..].
  pose proof (inv_index p Hi _ _ Hidx) as Hr.
  destruct (index_in_range (tracks p) idx Hr) as [tr Htr]. cbn [tracks set_received].
  rewrite Htr. cbn [obind]. apply index_Ret in Htr as [_ ->].
  by destruct (Sub.validPlaybackMarking marking (ptSpatialID tr)).
Qed.

Lemma accepted_range p name headers idx ts marking : pb_inv p ->
  accepted p name headers = Some (idx, ts, marking) -> 0 <= idx < len (tracks p).
Proof.
  intros Hi. unfold accepted. destruct (trackIndex p !! name) as [i|] eqn:Hidx; [|done].
  pose proof (inv_index p Hi _ _ Hidx). repeat (case_match; try done). by intros [= <- _ _].
Qed.

Lemma addObject_total name g o headers sz now p : pb_inv p ->
  exists r, addObject name g o headers sz now p = Ret r /\ pb_inv r /\
    (simulated p = true -> wake r = true) /\ simulated r = simulated p.
Proof.
  intros Hi. rewrite addObject_spec by done. cbv zeta.
  destruct (simulated p) eqn:Hsim; cbn [negb].
  2: { eexists. split; [done|]. split; [by apply pb_inv_received | done]. }
  destruct (accepted p name headers) as [[[idx ts] marking]|] eqn:Hacc.
  2: { eexists. split; [done|]. split; [|done]. by apply pb_inv_wake, pb_inv_received. }
  apply accepted_range in Hacc; [|done].
  set (unit := merge_layer _ _ _ _ _).
  assert (Hu : unit_ok (len (tracks p)) (g, o) unit).
  { apply merge_layer_ok; [done|]. intros u Hu. by apply (inv_units p Hi). }
  set (p1 := set_received _ p).
  destruct (trimPending_spec (set_pending (<[(g, o):=unit]> (pending p)) p1)) as (m & -> & Hm & Hsz & _).
  { intros k v Hk. cbn in Hk.
    apply lookup_insert_Some in Hk as [[<- <-]|[_ H]]; [apply Hu | by apply (inv_keyed p Hi)]. }
  cbn [obind]. eexists. split; [done|]. split; [|done]. apply pb_inv_wake.
  cbn in Hm. pose proof Hi as []. split; cbn; try done.
  - intros k v Hk. eapply lookup_weaken in Hk; [|exact Hm].
    apply lookup_insert_Some in Hk as [[<- <-]|[_ H]]; [done | eauto].
  - congruence.
Qed.

Lemma nextAdvanceDeadline_inv p : pb_inv p ->
  pb_inv (nextAdvanceDeadline p).1 /\ exists m, (nextAdvanceDeadline p).1 = set_pending m p /\ m ⊆ pending p.
Proof.
  intros Hi. unfold nextAdvanceDeadline.
  assert (Hid : pb_inv p /\ exists m, p = set_pending m p /\ m ⊆ pending p).
  { split; [done|]. exists (pending p). by rewrite set_pending_id. }
  destruct (negb (simulated p)); [done|]. destruct (0 <=? active p); [|done].
  destruct (nextUnit p) as [q o] eqn:Hn.
  pose proof (nextUnit_spec p q o (inv_keyed p Hi) Hn) as Hnu.
  destruct (nu_sub _ _ _ Hnu) as (m & -> & Hm).
  assert (Hq : pb_inv (set_pending m p) /\ exists m', set_pending m p = set_pending m' p /\ m' ⊆ pending p).
  { split; [by apply pb_inv_pending | by exists m]. }
  destruct o as [u|]; [|done]. by destruct (timestamp u) as [ts []].
Qed.

Lemma snapshot_spec now p : pb_inv p ->
  exists q mt, snapshot now p = Ret (q, mt) /\ pb_inv q /\ exists r pl, q = set_played pl (set_received r p).
Proof.
  intros Hi. unfold snapshot. cbv zeta. cbn [tracks target set_played set_received].
  pose proof (inv_target p Hi). pose proof (inv_tracks p Hi). pose proof (inv_active p Hi).
  destruct (index_in_range (tracks p) (target p)) as [tgt ->]; [lia|]. cbn [obind].
  assert (Hq : forall r pl, pb_inv (set_played pl (set_received r p))).
  { intros r pl. by apply pb_inv_played, pb_inv_received. }
  match goal with |- context [if negb (simulated p) then _ else _] => idtac | _ => cbn [simulated set_played set_received] end.
  destruct (negb _); [eexists _, _; split; [done|]; split; [apply Hq | by eexists _, _]|].
  unfold active_metrics. cbn [active tracks set_played set_received].
  destruct (Z.leb_spec 0 (active p)).
  - destruct (index_in_range (tracks p) (active p)) as [tr ->]; [lia|]. cbn [obind].
    eexists _, _. split; [done|]. split; [apply Hq | by eexists _, _].
  - cbn [obind]. eexists _, _. split; [done|]. split; [apply Hq | by eexists _, _].
Qed.

(** ** Events *)
Lemma apply_event_total p e : pb_inv p -> exists r, apply_event p e = Ret r /\ pb_inv r.
Proof.
  intros Hi. destruct e; cbn [apply_event].
  - destruct (addObject_total trackName group object headers size now p Hi) as (r & -> & ? & _). eauto.
  - destruct (advance_total now p Hi) as (r & -> & []). eauto.
  - eexists. split; [done|]. by apply nextAdvanceDeadline_inv.
  - destruct (snapshot_spec now p Hi) as (q & mt & -> & ? & _). cbn. eauto.
Qed.

Lemma run_events_total p es : pb_inv p -> exists r, run_events p es = Ret r /\ pb_inv r.
Proof.
  revert p. induction es as [|e es IH]; intros p Hi; cbn [run_events]; [eauto|].
  destruct (apply_event_total p e Hi) as (q & -> & Hq). by apply IH.
Qed.

(** ** Construction *)
Lemma track_index_range i names m n :
  0 <= i -> i + len names <= n ->
  (forall name j, m !! name = Some j -> 0 <= j < n) ->
  forall name j, track_index i names m !! name = Some j -> 0 <= j < n.
Proof.
  revert i m. induction names as [|x names IH]; intros i m Hi Hn Hm; cbn [track_index]; [done|].
  unfold len in *. cbn [length] in Hn. apply IH; [lia..|].
  intros name j [[<- <-]|[_ H]]%lookup_insert_Some; [lia | eauto].
Qed.

Lemma playback_tracks_length c s i names ts :
  playback_tracks c s i names = Ret ts -> length ts = length names.
Proof.
  revert i ts. induction names as [|x names IH]; intros i ts H; cbn [playback_tracks] in H; simplify_out; [done|].
  cbn. f_equal. eauto.
Qed.

Lemma newNativePlayback_inv c names tgt sim mb tl path p :
  newNativePlayback c names tgt sim mb tl path = Ret p -> pb_inv p.
Proof.
  unfold newNativePlayback. destruct (Z.eqb_spec (len names) 0) as [|Hne]; [done|].
  destruct (sim && _); [done|]. intros H. simplify_out. destruct (negb _); [done|]. simplify_out.
  apply playback_tracks_length in Hm. unfold len in *.
  split; cbn; unfold len; rewrite ?length_replicate, ?Hm; try done; try lia.
  eapply (track_index_range 0 names ∅ (Z.of_nat (length names))); [lia | unfold len; lia |].
  intros name j Hj. by rewrite lookup_empty in Hj.
Qed.

(** ** Order and deadlines *)
Definition presented_upto (p : nativePlayback) (ts : Z) : Prop :=
  exists last, lastPresented p = Some last /\ ts <= last.

(** The next deadline of a playing state is the one of its earliest fresh unit. *)
Lemma nextAdvanceDeadline_playing p q o : simulated p = true -> 0 <= active p -> keyed (pending p) ->
  nextUnit p = (q, o) ->
  nextAdvanceDeadline p = (q, match o with
    | Some u => Some (presentationDeadline p (timestamp u).1) | None => None end).
Proof.
  intros Hs Ha Hk Hn. unfold nextAdvanceDeadline.
  rewrite Hs, (proj2 (Z.leb_le _ _) Ha), Hn. cbn [negb].
  pose proof (nextUnit_spec p q o Hk Hn) as Hnu. destruct (nu_sub _ _ _ Hnu) as (m & -> & _).
  destruct o as [u|]; [|done]. destruct (nu_some _ _ _ Hnu u eq_refl) as (_ & (ts & Ht & _) & _).
  by rewrite Ht.
Qed.

(** Forgetting stale units does not change which unit is next. *)
Lemma nextUnit_again p q o : keyed (pending p) -> nextUnit p = (q, o) -> exists q', nextUnit q = (q', o).
Proof.
  intros Hk Hn. pose proof (nextUnit_spec p q o Hk Hn) as Hnu.
  destruct (nu_sub _ _ _ Hnu) as (m & -> & Hm).
  assert (Hkm : keyed m). { intros k u Hu. apply (Hk k u). by eapply lookup_weaken. }
  destruct (nextUnit (set_pending m p)) as [q' o'] eqn:Hn'. exists q'. f_equal.
  pose proof (nextUnit_spec (set_pending m p) q' o' Hkm Hn') as Hnu'.
  destruct o as [u|], o' as [u'|]; [| | | done].
  - destruct (nu_some _ _ _ Hnu u eq_refl) as (Hu & (ts & Ht & Hf) & Hmin).
    destruct (nu_some _ _ _ Hnu' u' eq_refl) as (Hu' & (ts' & Ht' & Hf') & Hmin').
    destruct (nu_sub _ _ _ Hnu') as (m' & -> & Hm'). cbn in *.
    eapply lookup_weaken in Hu'; [|exact Hm'].
    assert (unitKey u = unitKey u') as E.
    { apply not_after_antisym; [|by eapply Hmin'].
      eapply Hmin; [eapply lookup_weaken; [exact Hu' | exact Hm] | done..]. }
    rewrite E in Hu. congruence.
  - destruct (nu_some _ _ _ Hnu u eq_refl) as (Hu & (ts & Ht & Hf) & _).
    pose proof (nu_none _ _ _ Hnu' eq_refl _ u ts Hu Ht). unfold fresh in *. cbn in *. congruence.
  - destruct (nu_some _ _ _ Hnu' u' eq_refl) as (Hu' & (ts & Ht & Hf) & _).
    destruct (nu_sub _ _ _ Hnu') as (m' & -> & Hm'). cbn in *.
    eapply lookup_weaken in Hu'; [|exact Hm']. eapply lookup_weaken in Hu'; [|exact Hm].
    pose proof (nu_none _ _ _ Hnu eq_refl _ u' ts Hu' Ht). unfold fresh in *. cbn in *. congruence.
Qed.

Lemma nextAdvanceDeadline_again p : pb_inv p ->
  (nextAdvanceDeadline (nextAdvanceDeadline p).1).2 = (nextAdvanceDeadline p).2.
Proof.
  intros Hi. destruct (simulated p) eqn:Hs; [|unfold nextAdvanceDeadline; rewrite Hs; cbn; by rewrite Hs].
  destruct (Z.leb_spec 0 (active p)) as [Ha|Ha].
  - destruct (nextUnit p) as [q o] eqn:Hn. pose proof (inv_keyed p Hi) as Hk.
    rewrite (nextAdvanceDeadline_playing p q o) by done. cbn [fst snd].
    destruct (nextUnit_again p q o Hk Hn) as [q' Hn'].
    destruct (nu_sub _ _ _ (nextUnit_spec p q o Hk Hn)) as (m & -> & Hm).
    rewrite (nextAdvanceDeadline_playing (set_pending m p) q' o); try done.
    intros k u Hu. apply (Hk k u). by eapply lookup_weaken.
  - unfold nextAdvanceDeadline. rewrite Hs, (proj2 (Z.leb_gt _ _) Ha). cbn [negb fst snd].
    by rewrite Hs, (proj2 (Z.leb_gt _ _) Ha).
Qed.

(** The metrics do not touch what the next deadline depends on. *)
Lemma nextUnit_loop_bookkeeping units r pl p :
  nextUnit_loop units (set_played pl (set_received r p)) =
  let '(q, o) := nextUnit_loop units p in (set_played pl (set_received r q), o).
Proof.
  revert p. induction units as [|u units IH]; intros p; [done|]. cbn [nextUnit_loop].
  destruct (timestamp u) as [ts []]; cbn [negb]; [|apply IH].
  change (lastPresented (set_played pl (set_received r p))) with (lastPresented p).
  destruct (match lastPresented p with None => true | Some last => last <? ts end); [done|].
  rewrite <- (IH (set_pending (delete (unitKey u) (pending p)) p)). done.
Qed.

Lemma bufferFor_bookkeeping r pl p first prefix :
  bufferFor (set_played pl (set_received r p)) first prefix = bufferFor p first prefix.
Proof.
  unfold bufferFor. change (sortedUnits (set_played pl (set_received r p))) with (sortedUnits p).
  cbv zeta. do 3 f_equal. generalize false, (timestampUs (layer_at first 0)) at 2 4.
  induction (sortedUnits p) as [|u units IH]; intros seen latest; [done|]. cbn [bufferFor_loop].
  destruct (timestamp u) as [ts []]; cbn [negb orb]; [|apply IH].
  destruct (ts <? _); [apply IH|]. destruct (negb _); [apply IH|].
  destruct (layers u !! 0); [|done].
  change (completePrefix (set_played pl (set_received r p)) u) with (completePrefix p u).
  destruct (_ <? prefix); [done | apply IH].
Qed.

Lemma startable_bookkeeping r pl p u : startable (set_played pl (set_received r p)) u = startable p u.
Proof.
  unfold startable. change (completePrefix (set_played pl (set_received r p)) u) with (completePrefix p u).
  destruct (completePrefix p u) as [prefix ind]. by rewrite bufferFor_bookkeeping.
Qed.

Lemma nextAdvanceDeadline_bookkeeping r pl p :
  (nextAdvanceDeadline (set_played pl (set_received r p))).2 = (nextAdvanceDeadline p).2.
Proof.
  unfold nextAdvanceDeadline.
  change (simulated (set_played pl (set_received r p))) with (simulated p).
  change (active (set_played pl (set_received r p))) with (active p).
  destruct (negb (simulated p)); [done|]. destruct (0 <=? active p).
  - unfold nextUnit. change (sortedUnits (set_played pl (set_received r p))) with (sortedUnits p).
    rewrite nextUnit_loop_bookkeeping. destruct (nextUnit_loop (sortedUnits p) p) as [q [u|]]; [|done].
    by destruct (timestamp u) as [ts []].
  - cbn [snd]. rewrite !startDeadline_loop_spec.
    change (sortedUnits (set_played pl (set_received r p))) with (sortedUnits p).
    change (startDeadline (set_played pl (set_received r p))) with (startDeadline p). f_equal.
    generalize (sortedUnits p). intros units.
    induction units as [|u units IH]; [done|]. by rewrite !first_startable_cons, startable_bookkeeping, IH.
Qed.

(** What remains after [advance] has returned with a layer active is not due,
    and the presented timestamps never went back. *)
Lemma advance_step_order now p r stop : pb_inv p -> simulated p = true -> 0 <= active p ->
  advance_step now p = Ret (r, stop) ->
  (forall ts, presented_upto p ts -> presented_upto r ts) /\
  (stop = true -> 0 <= active r -> forall d, (nextAdvanceDeadline r).2 = Some d -> now < d).
Proof.
  intros Hi Hs Ha Hr. destruct (advance_step_spec now p Hi Ha) as (q & o & Hn & Hnu & Hq & Hstep).
  pose proof (inv_keyed p Hi) as Hk.
  assert (Hdl : (nextAdvanceDeadline q).2 = (nextAdvanceDeadline p).2).
  { rewrite <- (nextAdvanceDeadline_again p Hi). by rewrite (nextAdvanceDeadline_playing p q o) by done. }
  rewrite (nextAdvanceDeadline_playing p q o) in Hdl by done. cbn [snd] in Hdl.
  destruct (nu_sub _ _ _ Hnu) as (m & Hq' & Hm).
  destruct o as [u|].
  2: { rewrite Hstep in Hr. injection Hr as <- <-. split; [by subst q|]. intros _ _ d. by rewrite Hdl. }
  destruct Hstep as (ts & Ht & Hf & Hstep). rewrite Ht in Hdl. cbn [fst] in Hdl.
  destruct (Z.ltb_spec now (presentationDeadline p ts)).
  { rewrite Hstep in Hr. injection Hr as <- <-. split; [by subst q|].
    intros _ _ d. rewrite Hdl. by intros [= <-]. }
  destruct Hstep as (v & Hlen & Hv & Hstep). cbv zeta in Hstep. rewrite Hstep in Hr. clear Hstep.
  destruct (Z.ltb_spec (next_active p u) 0); injection Hr as <- <-.
  - split.
    + intros t (last & Hl & Hle). exists last. split; [|done].
      cbn. rewrite enterStall_lastPresented. cbn. by subst q.
    + cbn. rewrite enterStall_active. cbn. lia.
  - split; [|done]. intros t (last & Hl & Hle).
    exists (timestampUs (layer_at u 0)). split; [done|].
    unfold fresh in Hf. rewrite Hl in Hf. apply Z.ltb_lt in Hf.
    destruct (nu_some _ _ _ Hnu u eq_refl) as (Hu & _). rewrite Hq' in Hu. cbn in Hu.
    eapply lookup_weaken in Hu; [|exact Hm]. apply (inv_units p Hi) in Hu as [].
    unfold next_active in *. destruct (completePrefix p u) as [prefix ind] eqn:Hc.
    apply completePrefix_spec in Hc as [_ Hc].
    destruct Hc as (base & Hbase & _); [destruct ind; lia|].
    rewrite (timestamp_base u base Hbase) in Ht by (intros i l Hl'; apply u_layers0 in Hl'; lia).
    injection Ht as <-. unfold layer_at. rewrite Hbase. cbn. lia.
Qed.

Lemma advance_loop_order now n p r : pb_inv p -> simulated p = true -> 0 <= active p ->
  advance_loop n now p = Ret r ->
  (forall ts, presented_upto p ts -> presented_upto r ts) /\
  (0 <= active r -> forall d, (nextAdvanceDeadline r).2 = Some d -> now < d).
Proof.
  revert p. induction n as [|n IH]; intros p Hi Hs Ha Hr; [done|]. cbn [advance_loop] in Hr.
  destruct (advance_step_advanced now p Hi Ha) as (q & stop & Hq & Hadv & Hcont).
  destruct (advance_step_order now p q stop Hi Hs Ha Hq) as [Hmono Hdl].
  rewrite Hq in Hr. cbn [obind] in Hr. destruct stop; [injection Hr as <-; split; auto|].
  destruct (adv_static _ _ _ Hadv) as (_&_&_&Hs'&_).
  destruct (IH q) as [Hmono' Hdl']; [apply Hadv | congruence | by apply Hcont | done |].
  split; auto.
Qed.

(** ** Progress of the timer *)
Lemma advance_loop_progress now n p d : pb_inv p -> simulated p = true -> 0 <= active p ->
  (size (pending p) < n)%nat -> (nextAdvanceDeadline p).2 = Some d -> d <= now ->
  exists r, advance_loop n now p = Ret r /\
    ((length (played p) < length (played r))%nat \/ active r = -1).
Proof.
  intros Hi Hs Ha Hn Hd Hle. destruct n as [|n]; [lia|]. cbn [advance_loop].
  destruct (advance_step_spec now p Hi Ha) as (q & o & Hnu & Hnu' & Hq & Hstep).
  rewrite (nextAdvanceDeadline_playing p q o Hs Ha (inv_keyed p Hi) Hnu) in Hd. cbn [snd] in Hd.
  destruct o as [u|]; [|done]. destruct Hstep as (ts & Ht & Hf & Hstep).
  rewrite Ht in Hd. cbn [fst] in Hd. injection Hd as <-.
  rewrite (proj2 (Z.ltb_ge _ _) Hle) in Hstep. destruct Hstep as (v & Hlen & Hv & Hstep). cbv zeta in Hstep.
  destruct (advance_step_advanced now p Hi Ha) as (q' & stop & Hq' & Hadv & Hcont).
  rewrite Hstep in *. pose proof (next_active_range p u Hi).
  destruct (nu_sub _ _ _ Hnu') as (m & -> & Hm).
  destruct (Z.ltb_spec (next_active p u) 0); injection Hq' as <- <-; cbn [obind].
  - eexists. split; [done|]. right. cbn. rewrite enterStall_active. cbn. lia.
  - destruct (Hcont eq_refl) as [Ha' Hsz].
    destruct (advance_loop_advanced now n _ (adv_inv _ _ _ Hadv) Ha') as (r & -> & [_ _ _ (l & Hl & _)]); [lia|].
    exists r. split; [done|]. left. rewrite Hl. cbn. rewrite !length_app. cbn. lia.
Qed.

Lemma tryStart_progress now p d : pb_inv p -> simulated p = true -> active p < 0 ->
  (nextAdvanceDeadline p).2 = Some d -> d <= now ->
  exists r, tryStart now p = Ret r /\ (length (played p) < length (played r))%nat.
Proof.
  intros Hi Hs Ha Hd Hle. unfold nextAdvanceDeadline in Hd.
  rewrite Hs, (proj2 (Z.leb_gt _ _) Ha) in Hd. cbn [negb snd] in Hd. rewrite startDeadline_loop_spec in Hd.
  unfold tryStart. destruct (tryStart_loop_spec now p (sortedUnits p) Hi) as (v & _ & Hts).
  destruct (first_startable p (sortedUnits p)) as [u|]; [|done]. cbn in Hd. injection Hd as <-.
  destruct Hts as [_ ->]. rewrite (proj2 (Z.ltb_ge _ _) Hle).
  eexists. split; [done|]. unfold started_with. cbn.
  destruct (leaveStall_fields now (set_active (completePrefix p u).1 (set_valid v p)))
    as (_&_&_&_&_&_&->&_). cbn. rewrite length_app. cbn. lia.
Qed.

Lemma first_startable_first p u : keyed (pending p) ->
  first_startable p (sortedUnits p) = Some u ->
  pending p !! unitKey u = Some u /\ startable p u = true /\
  forall k u', pending p !! k = Some u' -> startable p u' = true -> not_after u u'.
Proof.
  intros Hk Hf. pose proof (first_startable_Some _ _ _ Hf) as [Hin Hst].
  apply elem_of_sortedUnits_keyed in Hin; [|done]. split_and!; [done..|].
  intros k u' Hu' Hst'. assert (Hin' : u' ∈ sortedUnits p) by (apply elem_of_sortedUnits; eauto).
  revert Hf Hin'. pose proof (sortedUnits_sorted p) as Hsorted.
  induction Hsorted as [|x l Hl IH Hx]; [done|]. rewrite first_startable_cons, elem_of_cons.
  rewrite Forall_forall in Hx. destruct (startable p x) eqn:Hsx.
  - intros [= ->] [->|Hin']; [|by apply Hx]. destruct (total not_after u u); done.
  - intros Hf [->|Hin']; [congruence | auto].
Qed.

Lemma first_startable_none p : first_startable p (sortedUnits p) = None ->
  forall k u, pending p !! k = Some u -> startable p u = false.
Proof.
  intros Hf k u Hu. assert (Hin : u ∈ sortedUnits p) by (apply elem_of_sortedUnits; eauto).
  revert Hf Hin. induction (sortedUnits p) as [|x l IH]; [by intros _ ?%elem_of_nil|].
  rewrite first_startable_cons, elem_of_cons. destruct (startable p x) eqn:Hx; [done|].
  intros Hf [->|Hin]; auto.
Qed.

(** ** Run states *)
Record run_inv (r : runState) : Prop := {
  run_pb : pb_inv (playback r);
  run_armed : wake (playback r) = true \/ advanceC r = (nextAdvanceDeadline (playback r)).2
}.

Lemma schedule_inv p : pb_inv p -> run_inv (schedule p).
Proof.
  intros Hi. pose proof (nextAdvanceDeadline_inv p Hi) as [Hq _].
  pose proof (nextAdvanceDeadline_again p Hi) as Ha. unfold schedule.
  destruct (nextAdvanceDeadline p) as [q d]. by split; [|right].
Qed.

Lemma run_step_inv r r' : run_inv r -> run_step r r' -> run_inv r'.
Proof.
  intros [Hi Harm] Hs. inversion Hs as [p d now q Hd Hq|p c now q Hw Hq|p c now q m Hq|p c name g o h sz now q Hq];
    subst; cbn in *.
  - destruct (advance_total now p Hi) as (q' & Hq' & []). rewrite Hq in Hq'. injection Hq' as <-. by apply schedule_inv.
  - destruct (advance_total now (set_wake false p) (pb_inv_wake _ _ Hi)) as (q' & Hq' & []).
    rewrite Hq in Hq'. injection Hq' as <-. by apply schedule_inv.
  - destruct (snapshot_spec now p Hi) as (q' & m' & Hq' & Hi' & r & pl & ->).
    rewrite Hq in Hq'. injection Hq' as -> ->. split; [done|]. cbn.
    rewrite nextAdvanceDeadline_bookkeeping. done.
  - destruct (addObject_total name g o h sz now p Hi) as (q' & Hq' & Hi' & Hw & Hsim).
    rewrite Hq in Hq'. injection Hq' as <-. split; [done|]. cbn.
    destruct (simulated p) eqn:Hs'; [left; by apply Hw|].
    destruct Harm as [Hwk | ->].
    + left. rewrite addObject_spec in Hq by done. cbv zeta in Hq. rewrite Hs' in Hq. cbn in Hq. by injection Hq as <-.
    + right. unfold nextAdvanceDeadline. by rewrite Hs', Hsim.
Qed.
