(* ===== verification/PlaybackProps.v ===== *)
(** * What simulated playback guarantees

    Theorems on [internal/sub/playback.go]: no sequence of method calls
    panics or breaks the invariant; units are presented in order, at their
    deadline, and only with all their layers; the event loop always makes
    progress and never loses a wake-up; and two flaws of the restart after a
    stall. *)
From S2P Require Import Prelude Media Catalog Loc GoFloat Playback PlaybackFacts.
Local Open Scope Z_scope.
Local Open Scope go_scope.

(** ** A concrete session: three spatial layers, 100 ms target latency *)
Definition svc_names : list string := ["video/s0"; "video/s1"; "video/s2"]%string.
Definition svc_playback : outcome nativePlayback :=
  newNativePlayback svc_catalog svc_names "video/s2" true 0 (100 * Millisecond) "".

Definition loc_headers (ts sid : Z) (ind : bool) : KVPList :=
  [mkKVP locPropTimestamp ts; mkKVP locPropFrameMark (Pub.locFrameMarking sid ind)].
Definition svc_object (layer g o ts : Z) (ind : bool) (us : Z) : pevent :=
  EvAddObject ("video/s" +:+ pretty layer) g o (loc_headers ts layer ind) 100 (us * Microsecond).
Definition svc_unit (g o ts : Z) (ind : bool) (us : Z) : list pevent :=
  (fun l => svc_object l g o ts ind us) <$> [0; 1; 2].
Definition advance_at (us : Z) : pevent := EvAdvance (us * Microsecond).

(** The state after a list of events. *)
Definition svc_after (es : list pevent) : outcome nativePlayback :=
  let! p := svc_playback in run_events p es.

(** Two units presented; then the base layer of the next one is missing. *)
Definition svc_playing : list pevent :=
  svc_unit 1 0 1000000 true 1000000 ++ [advance_at 1100000] ++
  svc_unit 1 1 1040000 false 1110000 ++ [advance_at 1140000].
Definition svc_stalled : list pevent :=
  svc_playing ++ [svc_object 1 1 2 1080000 false 1150000; advance_at 1180000].

Lemma svc_after_inv es p : svc_after es = Ret p -> pb_inv p.
Proof.
  unfold svc_after. intros H. simplify_out. unfold svc_playback in Hm.
  apply newNativePlayback_inv in Hm. destruct (run_events_total a es Hm) as (r & Hr & Hi). congruence.
Qed.

(** The witnesses get their states from [svc_after]. *)
Definition get (m : outcome nativePlayback) : nativePlayback :=
  match m with Ret p => p | _ => mkPlayback [] ∅ 0 0 [] ∅ false 0 0 "" "" "" false None 0 0 0 0 [] [] false end.

Lemma get_inv es : is_panic (svc_after es) = false -> (exists p, svc_after es = Ret p) -> pb_inv (get (svc_after es)).
Proof. intros _ [p Hp]. rewrite Hp. by apply (svc_after_inv es). Qed.

(** C6. Whatever calls reach a playback that [newNativePlayback] built, in
    whatever order and with whatever objects and times, every one returns: no
    index is out of range and every loop ends.  Afterwards at most 64 units
    are pending, the active layer is a layer of the chain, all layers up to it
    are valid, and while one is active the playback is started, in state
    "playing" and not in a stall. *)
Theorem playback_never_fails (c : Catalog) names tgt sim mb tl path (p0 : nativePlayback) (es : list pevent) :
  newNativePlayback c names tgt sim mb tl path = Ret p0 ->
  exists p, run_events p0 es = Ret p /\
    Z.of_nat (size (pending p)) <= maxPendingUnits /\ -1 <= active p < len (tracks p) /\
    (forall i, Z.of_nat i <= active p -> valid p !! i = Some true) /\
    (0 <= active p -> started p = true /\ is_Some (lastPresented p) /\ stallStarted p = zeroTime /\
       state p = "playing"%string).
Proof.
  intros H. apply newNativePlayback_inv in H.
  destruct (run_events_total p0 es H) as (p & Hp & []). exists p.
  split_and!; [done | done | lia | lia | done | done].
Qed.

Lemma playback_never_fails_witness :
  exists p0, svc_playback = Ret p0 /\ exists p, run_events p0 svc_stalled = Ret p /\
    Z.of_nat (size (pending p)) <= maxPendingUnits /\ -1 <= active p < len (tracks p) /\
    (forall i, Z.of_nat i <= active p -> valid p !! i = Some true) /\
    (0 <= active p -> started p = true /\ is_Some (lastPresented p) /\ stallStarted p = zeroTime /\
       state p = "playing"%string).
Proof.
  eexists. split; [vm_compute; reflexivity|].
  eapply (playback_never_fails svc_catalog svc_names "video/s2" true 0 (100 * Millisecond) "").
  vm_compute; reflexivity.
Defined.

(** C7. When an iteration of [advance] presents a unit, that unit is the
    earliest one after the last presented timestamp, its deadline has passed,
    every layer up to the new active one is in the unit with the same
    timestamp and independence, and the active layer is higher than before
    only if the unit is independent.  The unit leaves the queue. *)
Theorem advance_presents_decodable (p r : nativePlayback) (now : Z) :
  pb_inv p -> 0 <= active p -> advance_step now p = Ret (r, false) ->
  exists u base, pending p !! unitKey u = Some u /\ layers u !! 0 = Some base /\
    lastPresented r = Some (timestampUs base) /\ presentationDeadline p (timestampUs base) <= now /\
    (forall last, lastPresented p = Some last -> last < timestampUs base) /\
    (forall k u' ts, pending p !! k = Some u' -> timestamp u' = (ts, true) -> fresh p ts = true ->
       timestampUs base <= ts) /\
    (forall j, 0 <= j <= active r -> exists l, layers u !! j = Some l /\
       timestampUs l = timestampUs base /\ independent l = independent base) /\
    (independent base = false -> active r <= active p) /\
    pending r !! unitKey u = None.
Proof.
  intros Hi Ha Hr. destruct (advance_step_spec now p Hi Ha) as (q & o & _ & Hnu & _ & Hstep).
  destruct (nu_sub _ _ _ Hnu) as (m & -> & Hm).
  destruct o as [u|]; [|congruence]. destruct Hstep as (ts & Ht & Hf & Hstep).
  destruct (Z.ltb_spec now (presentationDeadline p ts)); [congruence|].
  destruct Hstep as (v & _ & _ & Hstep). cbv zeta in Hstep. rewrite Hstep in Hr.
  destruct (Z.ltb_spec (next_active p u) 0); [done|]. injection Hr as <-.
  destruct (nu_some _ _ _ Hnu u eq_refl) as (Hu & _ & Hmin). cbn in Hu.
  eapply lookup_weaken in Hu; [|exact Hm]. pose proof (inv_units p Hi _ _ Hu) as [_ _ Hlay _].
  unfold next_active in *. destruct (completePrefix p u) as [prefix ind] eqn:Hc.
  apply completePrefix_spec in Hc as [_ Hc].
  destruct Hc as (base & Hbase & Hind & Hj); [destruct ind; lia|].
  assert (ts = timestampUs base) as ->.
  { rewrite (timestamp_base u base Hbase) in Ht by (intros i l Hl; apply Hlay in Hl; lia). by injection Ht. }
  exists u, base. split_and!; [done | done | cbn; unfold layer_at; by rewrite Hbase | done | | | | |].
  - intros last Hl. unfold fresh in Hf. rewrite Hl in Hf. lia.
  - intros k u' ts' Hu' Ht' Hf'. eapply not_after_le; [by eapply Hmin | done | done].
  - intros j Hj'. apply Hj. cbn in Hj'. destruct ind; lia.
  - cbn. intros E. rewrite E in Hind. subst ind. lia.
  - cbn. by rewrite lookup_delete_eq.
Qed.

Lemma advance_presents_decodable_witness :
  let p := get (svc_after (svc_unit 1 0 1000000 true 1000000 ++ [advance_at 1100000] ++
                           svc_unit 1 1 1040000 false 1110000)) in
  exists r, advance_step 1140000000 p = Ret (r, false) /\
  exists u base, pending p !! unitKey u = Some u /\ layers u !! 0 = Some base /\
    lastPresented r = Some (timestampUs base) /\ presentationDeadline p (timestampUs base) <= 1140000000 /\
    (forall last, lastPresented p = Some last -> last < timestampUs base) /\
    (forall k u' ts, pending p !! k = Some u' -> timestamp u' = (ts, true) -> fresh p ts = true ->
       timestampUs base <= ts) /\
    (forall j, 0 <= j <= active r -> exists l, layers u !! j = Some l /\
       timestampUs l = timestampUs base /\ independent l = independent base) /\
    (independent base = false -> active r <= active p) /\
    pending r !! unitKey u = None.
Proof.
  intros p. assert (Hi : pb_inv p).
  { apply get_inv; [vm_compute; reflexivity|]. eexists. vm_compute; reflexivity. }
  assert (exists r, advance_step 1140000000 p = Ret (r, false)) as [r Hr].
  { eexists. vm_compute; reflexivity. }
  exists r. split; [exact Hr|].
  apply (advance_presents_decodable p r 1140000000); [exact Hi | vm_compute; congruence | exact Hr].
Defined.

(** While a layer is active, [advance] never moves the presented
    timestamp back, and when it returns with a layer still active nothing that
    is pending is due: the next deadline lies in the future. *)
Theorem advance_leaves_nothing_due (p r : nativePlayback) (now last : Z) :
  pb_inv p -> 0 <= active p -> advance now p = Ret r -> lastPresented p = Some last ->
  (exists last', lastPresented r = Some last' /\ last <= last') /\
  (0 <= active r -> forall d, (nextAdvanceDeadline r).2 = Some d -> now < d).
Proof.
  intros Hi Ha Hr Hl. unfold advance in Hr.
  destruct (simulated p) eqn:Hs.
  2: { destruct (inv_simulated p Hi Hs). lia. }
  cbn [negb] in Hr. rewrite (proj2 (Z.ltb_ge _ _) Ha) in Hr.
  destruct (advance_loop_order now _ p r Hi Hs Ha Hr) as [Hmono Hdue].
  split; [|exact Hdue]. apply (Hmono last). by exists last.
Qed.

Lemma advance_leaves_nothing_due_witness :
  let p := get (svc_after svc_playing) in
  exists r, advance 1180000000 p = Ret r /\
  (exists last', lastPresented r = Some last' /\ 1040000 <= last') /\
  (0 <= active r -> forall d, (nextAdvanceDeadline r).2 = Some d -> 1180000000 < d).
Proof.
  intros p. assert (Hi : pb_inv p).
  { apply get_inv; [vm_compute; reflexivity|]. eexists. vm_compute; reflexivity. }
  destruct (advance_total 1180000000 p Hi) as (r & Hr & _).
  exists r. split; [exact Hr|].
  apply (advance_leaves_nothing_due p r 1180000000 1040000);
    [exact Hi | vm_compute; congruence | exact Hr | vm_compute; reflexivity].
Defined.

(** C8. When the timer fires for the deadline that [nextAdvanceDeadline]
    returned, [advance] does something: it presents a unit, or the active
    layer is lost and playback stalls.  So [run] does not spin on a deadline
    that has passed. *)
Theorem timer_makes_progress (p q : nativePlayback) (d now : Z) :
  pb_inv p -> nextAdvanceDeadline p = (q, Some d) -> d <= now ->
  exists r, advance now q = Ret r /\
    ((length (played q) < length (played r))%nat \/ (0 <= active q /\ active r = -1)).
Proof.
  intros Hi Hd Hle. pose proof (nextAdvanceDeadline_inv p Hi) as [Hq _].
  pose proof (nextAdvanceDeadline_again p Hi) as Hagain. rewrite Hd in Hq, Hagain. cbn [fst snd] in *.
  unfold advance. destruct (simulated q) eqn:Hs; cbn [negb].
  2: { unfold nextAdvanceDeadline in Hagain. by rewrite Hs in Hagain. }
  destruct (Z.ltb_spec (active q) 0).
  - destruct (tryStart_progress now q d Hq Hs ltac:(lia) Hagain Hle) as (r & Hr & Hlt). eauto.
  - destruct (advance_loop_progress now (S (size (pending q))) q d Hq Hs ltac:(lia) ltac:(lia) Hagain Hle)
      as (r & Hr & [Hlt|Hstall]); eauto.
Qed.

Lemma timer_makes_progress_witness :
  let p := get (svc_after (svc_unit 1 0 1000000 true 1000000)) in
  exists q, nextAdvanceDeadline p = (q, Some 1100000000) /\
  exists r, advance 1100000000 q = Ret r /\
    ((length (played q) < length (played r))%nat \/ (0 <= active q /\ active r = -1)).
Proof.
  intros p. assert (Hi : pb_inv p).
  { apply get_inv; [vm_compute; reflexivity|]. eexists. vm_compute; reflexivity. }
  eexists. split; [vm_compute; reflexivity|].
  eapply (timer_makes_progress p _ 1100000000); [exact Hi | vm_compute; reflexivity | lia].
Defined.

(** C9. No wake-up is lost: in every state that [run] and the reader
    goroutines can reach, either a wake-up token is pending or the timer is
    armed for exactly the deadline that the current state asks for. *)
Theorem run_no_lost_wakeup (c : Catalog) names tgt sim mb tl path (p0 : nativePlayback) (r0 r : runState) :
  newNativePlayback c names tgt sim mb tl path = Ret p0 -> run_start p0 r0 -> rtc run_step r0 r ->
  wake (playback r) = true \/ advanceC r = (nextAdvanceDeadline (playback r)).2.
Proof.
  intros Hp Hr0 Hsteps. apply newNativePlayback_inv in Hp.
  assert (H0 : run_inv r0).
  { inversion Hr0 as [p q m now Hq]; subst. apply schedule_inv.
    destruct (snapshot_spec now p0 Hp) as (q' & m' & Hq' & Hi & _). congruence. }
  assert (Hr : run_inv r); [|apply Hr].
  clear Hr0 Hp. induction Hsteps as [|r0 r1 r2 Hs _ IH]; [done|]. apply IH. by eapply run_step_inv.
Qed.

(** The run of [svc_playback], before and after its first object. *)
Definition svc_start : outcome (nativePlayback * playbackMetrics) := snapshot 0 (get svc_playback).
Definition svc_run0 : runState :=
  match svc_start with Ret (q, _) => schedule q | _ => mkRun (get Panic) None end.
Definition svc_run1 : runState :=
  mkRun (get (addObject "video/s0" 1 0 (loc_headers 1000000 0 true) 100 1000000000 (playback svc_run0)))
    (advanceC svc_run0).

Lemma svc_run_start : run_start (get svc_playback) svc_run0.
Proof.
  unfold svc_run0. destruct svc_start as [[q m]| |] eqn:E; [by apply (run_started _ _ m 0)| |];
    vm_compute in E; discriminate E.
Qed.

Lemma svc_run_step : run_step svc_run0 svc_run1.
Proof.
  unfold svc_run1. destruct svc_run0 as [p c] eqn:E. cbn [playback advanceC].
  apply (run_object p c "video/s0" 1 0 (loc_headers 1000000 0 true) 100 1000000000).
  assert (Hp : p = playback svc_run0) by (by rewrite E). subst p. vm_compute. reflexivity.
Qed.

Lemma run_no_lost_wakeup_witness :
  run_start (get svc_playback) svc_run0 /\ run_step svc_run0 svc_run1 /\
  (wake (playback svc_run1) = true \/ advanceC svc_run1 = (nextAdvanceDeadline (playback svc_run1)).2).
Proof.
  split; [exact svc_run_start|]. split; [exact svc_run_step|].
  apply (run_no_lost_wakeup svc_catalog svc_names "video/s2" true 0 (100 * Millisecond) ""
           (get svc_playback) svc_run0); [vm_compute; reflexivity | exact svc_run_start |].
  eapply rtc_l; [exact svc_run_step | apply rtc_refl].
Defined.

(** [tryStart] starts playback exactly when the earliest unit that can
    start it is due.  That unit is independent, has its base layer, and is
    followed by at least the minimum buffer; its deadline is its timestamp
    plus the target latency.  Otherwise no layer becomes active, and no unit
    that could start playback is due and earliest. *)
Theorem tryStart_starts_earliest (p r : nativePlayback) (now : Z) :
  pb_inv p -> simulated p = true -> active p < 0 -> tryStart now p = Ret r ->
  (0 <= active r ->
     exists u base, pending p !! unitKey u = Some u /\ layers u !! 0 = Some base /\ independent base = true /\
       active r = (completePrefix p u).1 /\ minimalBuffer p <= bufferFor p u (active r) /\
       UnixMicro (timestampUs base) + targetLatency p <= now /\
       lastPresented r = Some (timestampUs base) /\
       (forall k u', pending p !! k = Some u' -> startable p u' = true -> not_after u u')) /\
  (active r < 0 ->
     played r = played p /\
     forall u, pending p !! unitKey u = Some u -> startable p u = true ->
       (forall k u', pending p !! k = Some u' -> startable p u' = true -> not_after u u') ->
       now < startDeadline p u).
Proof.
  intros Hi Hs Ha Hr. unfold tryStart in Hr. pose proof (inv_keyed p Hi) as Hk.
  destruct (tryStart_loop_spec now p (sortedUnits p) Hi) as (v & _ & Hts).
  destruct (first_startable p (sortedUnits p)) as [u|] eqn:Hf.
  - destruct Hts as [_ Hts]. rewrite Hts in Hr. injection Hr as <-.
    apply first_startable_first in Hf as (Hu & Hst & Hmin); [|done].
    destruct (Z.ltb_spec now (startDeadline p u)); [split; [cbn; lia|]; intros _; split; [done|]|].
    + intros u' Hu' Hst' Hmin'. assert (unitKey u = unitKey u') as E.
      { apply not_after_antisym; eauto. }
      rewrite E in Hu. congruence.
    + pose proof (startable_prefix p u Hst) as Hpre.
      unfold startable in Hst. unfold started_with. cbn.
      destruct (leaveStall_fields now (set_active (completePrefix p u).1 (set_valid v p))) as (_&_&->&_). cbn.
      split; [intros _ | lia].
      destruct (completePrefix p u) as [prefix ind] eqn:Hc. cbn in Hpre |- *.
      apply completePrefix_spec in Hc as Hc'. destruct Hc' as [_ Hc'].
      destruct (Hc' Hpre) as (base & Hbase & <- & _).
      apply andb_true_iff in Hst as [[Hind _]%andb_true_iff Hbuf%Z.leb_le].
      assert (layer_at u 0 = base) as Hl0 by (unfold layer_at; by rewrite Hbase).
      unfold startDeadline in *. rewrite Hl0 in *. exists u, base. rewrite Hc. by split_and!.
  - rewrite Hts in Hr. injection Hr as <-. split.
    + intros Hact. exfalso. destruct (started p); cbn in Hact; rewrite ?enterStall_active in Hact; lia.
    + intros _. split; [destruct (started p); cbn; [apply enterStall_played | done]|].
      intros u Hu Hst. pose proof (first_startable_none p Hf _ u Hu). congruence.
Qed.

Lemma tryStart_starts_earliest_witness :
  let p := get (svc_after (svc_unit 1 0 1000000 true 1000000)) in
  exists r, tryStart 1100000000 p = Ret r /\
  (0 <= active r ->
     exists u base, pending p !! unitKey u = Some u /\ layers u !! 0 = Some base /\ independent base = true /\
       active r = (completePrefix p u).1 /\ minimalBuffer p <= bufferFor p u (active r) /\
       UnixMicro (timestampUs base) + targetLatency p <= 1100000000 /\
       lastPresented r = Some (timestampUs base) /\
       (forall k u', pending p !! k = Some u' -> startable p u' = true -> not_after u u')) /\
  (active r < 0 ->
     played r = played p /\
     forall u, pending p !! unitKey u = Some u -> startable p u = true ->
       (forall k u', pending p !! k = Some u' -> startable p u' = true -> not_after u u') ->
       1100000000 < startDeadline p u).
Proof.
  intros p. assert (Hi : pb_inv p).
  { apply get_inv; [vm_compute; reflexivity|]. eexists. vm_compute; reflexivity. }
  assert (exists r, tryStart 1100000000 p = Ret r) as [r Hr] by (eexists; vm_compute; reflexivity).
  exists r. split; [exact Hr|].
  apply (tryStart_starts_earliest p r 1100000000); [exact Hi | vm_compute; reflexivity.. | exact Hr].
Defined.

(** Go's map iteration order does not matter: any order of the layers
    gives the timestamp of the lowest layer present, and any sort of the
    pending units in any order gives the list that [sortedUnits] uses. *)
Theorem iteration_order_irrelevant (p : nativePlayback) (u : playbackUnit) ls us :
  pb_inv p -> ls ≡ₚ map_to_list (layers u) ->
  us ≡ₚ (map_to_list (pending p)).*2 -> StronglySorted not_after us ->
  timestamp_over ls = timestamp u /\ us = sortedUnits p.
Proof.
  intros Hi Hls Hus Hsorted. split; [|apply sortedUnits_unique; [by apply inv_keyed | done..]].
  destruct (timestamp_over_spec u ls Hls) as [He Hne].
  destruct (timestamp_over_spec u _ (reflexivity (map_to_list (layers u)))) as [He' Hne']. fold (timestamp u) in *.
  destruct (decide (layers u = ∅)) as [E|E]; [by rewrite He, He'|].
  destruct (Hne E) as (i & l & Hl & Hmin & ->), (Hne' E) as (i' & l' & Hl' & Hmin' & ->).
  assert (i = i') as <- by (specialize (Hmin _ _ Hl'); specialize (Hmin' _ _ Hl); lia). congruence.
Qed.

Lemma iteration_order_irrelevant_witness :
  let p := get (svc_after (svc_unit 1 0 1000000 true 1000000 ++ svc_unit 1 1 1040000 false 1000000)) in
  let u := default (mkPlaybackUnit (0, 0) ∅ 0) (pending p !! (1, 0)) in
  timestamp_over (rev (map_to_list (layers u))) = timestamp u /\ sortedUnits p = sortedUnits p.
Proof.
  intros p u. assert (Hi : pb_inv p).
  { apply get_inv; [vm_compute; reflexivity|]. eexists. vm_compute; reflexivity. }
  apply (iteration_order_irrelevant p u); [exact Hi | symmetry; apply Permutation_rev | apply sortedUnits_perm |
    apply sortedUnits_sorted].
Defined.

(** After a stall, [tryStart] may restart playback with a unit that is
    older than what was already presented: it does not look at the last
    presented timestamp.  Here 1040000 was presented, and after the stall a
    late independent unit with timestamp 960000 is presented. *)
Theorem restart_goes_backwards :
  exists p r, svc_after svc_stalled = Ret p /\ active p = -1 /\ lastPresented p = Some 1040000 /\
    run_events p (svc_unit 0 0 960000 true 1190000 ++ [advance_at 1190000]) = Ret r /\
    active r = 2 /\ lastPresented r = Some 960000.
Proof.
  exists (get (svc_after svc_stalled)),
    (get (svc_after (svc_stalled ++ svc_unit 0 0 960000 true 1190000 ++ [advance_at 1190000]))).
  split_and!; vm_compute; reflexivity.
Qed.

(** One stall is counted twice and its first part is not added to the
    stall duration: while stalled, [tryStart] sets the state to "buffering"
    when a unit waits for its deadline, and if that unit becomes unusable
    before, the next [tryStart] enters a second stall and overwrites
    [stallStarted].  Playback stopped once, from 1180 ms to 2100 ms; the
    counters say two stalls and 900 ms. *)
Theorem stall_counted_twice :
  exists p q, svc_after svc_stalled = Ret q /\ stallStarted q = 1180 * Millisecond /\
    svc_after (svc_stalled ++
      [svc_object 0 2 0 1200000 true 1190000; advance_at 1190000;
       svc_object 0 2 0 1210000 true 1200000; advance_at 1200000] ++
      svc_unit 3 0 2000000 true 1200000 ++ [advance_at 1230000; advance_at 2100000]) = Ret p /\
    active p = 2 /\ stallCount p = 2 /\ stallDuration p = 900 * Millisecond.
Proof.
  exists (get (svc_after (svc_stalled ++
      [svc_object 0 2 0 1200000 true 1190000; advance_at 1190000;
       svc_object 0 2 0 1210000 true 1200000; advance_at 1200000] ++
      svc_unit 3 0 2000000 true 1200000 ++ [advance_at 1230000; advance_at 2100000]))),
    (get (svc_after svc_stalled)).
  split_and!; vm_compute; reflexivity.
Qed.
