(* ===== verification/Subscriber.v ===== *)
(** * The subscriber

    [internal/sub/sub.go] and [internal/sub/moqmi.go]: a session retrieves the
    catalog in one of three ways, goes through its tracks, selects one of each
    kind, prepares the outputs and starts a reading goroutine per track.
    Every function is a program over the events of [CencMux]. *)
From S2P Require Import Prelude Io Base64 GoFloat Media Catalog Loc Nalu Cc608 InitTrack Chunk Subtitle AssetOps CatalogGen Publisher Drm CencMux Playback.
Local Open Scope Z_scope.
Local Open Scope go_scope.
Local Open Scope prog_scope.

(** The exported fields of [Handler]; [Outs] are the names of the outputs
    that are configured, [infoEnabled] whether the log level is at most
    info. *)
Record subConfig := mkSubConfig {
  subNamespace : list string; Outs : gset string;
  VideoName : string; AudioName : string; SubsName : string;
  UseFetch : bool; CatalogMode : string; AcceptAny : bool; Discover : bool; CatalogTrack : string;
  SubscribeDependencies : bool; SimulatePlayback : bool;
  MinimalBuffer : Z; subTargetLatency : Z; MetricsPath : string; infoEnabled : bool
}.

(** What is read of [moqmi] headers: the media type, and the sequence number
    of its metadata ([None]: not present). *)
Inductive miMediaType := MIVideoH264AVCC | MIAudioAACLC | MIAudioOpus | MIUTF8Text | MIOther (t : Z).
Class MoqMILib := {
  MediaType : KVPList -> option miMediaType;
  ReadSeqID : miMediaType -> KVPList -> outcome (option Z)
}.

Section Subscriber.
Context {M : Mp4Types} {FL : @FragLib M} {CG : @CatLib M} {SM : @SubMp4 M FL} {DL : DrmLib} {PB : PubLib} {ML : MoqMILib}.

(** The fields [cenc], [mux] and [locWriters]. *)
Record handlerState := mkHandlerState {
  hCenc : option CENC; hMux : option CmafMux; locWriters : gmap string locWriter
}.

(** ** Goroutines *)

(** A reading goroutine with the variables it captures. *)
Record reader := mkReader {
  rdSub : Z; rdName : string; rdMedia : string; rdTrack : Track; rdMoov : option MoovBox;
  rdState : handlerState; rdPlayback : bool
}.
Inductive subJob :=
  | JobUpdates (sub : Z) (largest : Location)
  | JobSubscribedUpdates (sub : Z)
  | JobPlayback (p : nativePlayback)
  | JobReader (r : reader)
  | JobMoqMIReader (sub : Z) (trackName mediaType : string).
Abbreviation SP := (prog (subE subJob)).

Section WithConfig.
Context (h : subConfig).

Definition hasOut (name : string) : bool := bool_decide (name ∈ Outs h).

(** ** The catalog *)
Definition emptyCatalog : Catalog := mkCatalog "" None false [] [] [] [].

(** Printing [h.catalog.String()] at level info. *)
Definition log_catalog : SP unit :=
  if infoEnabled h then do! _ := the_catalog in done (Ret tt) else done (Ret tt).

(** Unmarshalling null leaves the zero value. *)
Definition applyCatalog (payload : bytes) : SP unit :=
  do! c := done (Unmarshal payload) in
  do! _ := perform (SetCatalog (Some (default emptyCatalog c))) in
  do! _ := log_catalog in
  if hasOut "catalog" then
    do! c := perform GetCatalog in
    do! indented := done (MarshalIndent c) in
    write_out "catalog" (indented ++ [10])
  else done (Ret tt).

Definition afterLocation (o : object) (loc : Location) : bool :=
  if negb (GroupID o =? Group loc) then GroupID o >? Group loc else ObjectID o >? Object loc.

(** Reading updates from the joining subscription: the loop of its goroutine,
    and the goroutine with its deferred [Close]. *)
Definition update_round (sub : Z) (largest : Location) (_ : unit) : SP (unit + unit) :=
  do! r := perform (ReadObject sub) in
  match r with
  | EOF | ReadErr _ => done (Ret (inr tt))
  | Got o =>
      if negb (afterLocation o largest) then done (Ret (inl tt))
      else do! _ := ignore (applyCatalog (objPayload o)) in done (Ret (inl tt))
  end.
Definition catalogUpdates (sub : Z) (largest : Location) : SP unit :=
  do! _ := loop (update_round sub largest) tt in
  do! _ := perform (CloseTrack sub) in done (Ret tt).

Definition close_all (tracks : list Z) (e : goerror) : SP unit :=
  fold_right (fun t k => do! _ := perform (CloseTrack t) in k) (done (Err e)) tracks.

Definition joiningCatalog : SP unit :=
  do! rs := perform (Subscribe (CatalogTrack h)) in
  match rs with
  | inl e => done (Err e)
  | inr rs =>
      match LargestLocation rs with
      | None => close_all [RequestID rs]
                  (Errorf "catalog subscription reported no content; cannot perform joining fetch" [])
      | Some largest =>
          do! rt := perform (Fetch (JoiningFetchRelative (RequestID rs) 0)) in
          match rt with
          | inl e => close_all [RequestID rs] e
          | inr rt =>
              do! r := perform (ReadObject (RequestID rt)) in
              match r with
              | EOF => close_all [RequestID rt; RequestID rs]
                         (Wrapf "joining fetch: reading catalog: %w" [] (Errorf "EOF" []))
              | ReadErr e => close_all [RequestID rt; RequestID rs]
                               (Wrapf "joining fetch: reading catalog: %w" [] e)
              | Got o =>
                  do! a := ITreeDefinition.ITree.bind (applyCatalog (objPayload o))
                             (fun a => match a with
                                       | Panic => done Panic
                                       | Err e => done (Ret (Some e))
                                       | Ret _ => done (Ret None)
                                       end) in
                  match a with
                  | Some e => close_all [RequestID rt; RequestID rs] e
                  | None =>
                      do! _ := perform (CloseTrack (RequestID rt)) in
                      do! _ := perform (Go (JobUpdates (RequestID rs) largest)) in
                      done (Ret tt)
                  end
              end
          end
      end
  end.

(** Writing the catalog where an error is only logged; [c] is what is
    marshalled. *)
Definition write_catalog (c : option Catalog) : SP unit :=
  match MarshalIndent c with
  | Panic => done Panic
  | Err _ => done (Ret tt)
  | Ret indented =>
      do! _ := perform (WriteOut "catalog" indented) in
      do! _ := perform (WriteOut "catalog" [10]) in done (Ret tt)
  end.

Definition output_catalog : SP unit :=
  if hasOut "catalog" then do! c := perform GetCatalog in write_catalog c else done (Ret tt).

Definition subscribed_update_round (sub : Z) (_ : unit) : SP (unit + unit) :=
  do! r := perform (ReadObject sub) in
  match r with
  | EOF | ReadErr _ => done (Ret (inr tt))
  | Got o =>
      match Unmarshal (objPayload o) with
      | Panic => done Panic
      | Err _ => done (Ret (inl tt))
      | Ret c =>
          let cat := Some (default emptyCatalog c) in
          do! _ := perform (SetCatalog cat) in
          do! _ := log_catalog in
          do! _ := (if hasOut "catalog" then write_catalog cat else done (Ret tt)) in
          done (Ret (inl tt))
      end
  end.
Definition subscribedUpdates (sub : Z) : SP unit :=
  do! _ := loop (subscribed_update_round sub) tt in
  do! _ := perform (CloseTrack sub) in done (Ret tt).

(** After an error of [Unmarshal] the catalog is not used again, so what it
    left is not modelled. *)
Definition subscribeToCatalog : SP unit :=
  do! rs := perform (Subscribe (CatalogTrack h)) in
  match rs with
  | inl e => done (Err e)
  | inr rs =>
      do! r := perform (ReadObject (RequestID rs)) in
      match r with
      | EOF => do! _ := perform (CloseTrack (RequestID rs)) in done (Ret tt)
      | ReadErr e => close_all [RequestID rs] e
      | Got o =>
          match Unmarshal (objPayload o) with
          | Panic => done Panic
          | Err e =>
              do! _ := perform (CloseTrack (RequestID rs)) in
              if hasOut "catalog" then
                do! _ := perform (WriteOut "catalog" (objPayload o)) in
                do! _ := perform (WriteOut "catalog" [10]) in done (Err e)
              else done (Err e)
          | Ret c =>
              do! _ := perform (SetCatalog c) in
              do! _ := log_catalog in
              do! _ := output_catalog in
              do! _ := perform (Go (JobSubscribedUpdates (RequestID rs))) in
              done (Ret tt)
          end
      end
  end.

(** [Close] is deferred. *)
Definition fetchCatalog : SP unit :=
  do! rt := perform (Fetch (FetchTrack (CatalogTrack h))) in
  match rt with
  | inl e => done (Err e)
  | inr rt =>
      let closing (t : SP unit) : SP unit :=
        ITreeDefinition.ITree.bind t (fun o => do! _ := perform (CloseTrack (RequestID rt)) in done o) in
      do! r := perform (ReadObject (RequestID rt)) in
      closing
        match r with
        | EOF => done (Ret tt)
        | ReadErr e => done (Err e)
        | Got o =>
            match Unmarshal (objPayload o) with
            | Panic => done Panic
            | Err e => done (Err e)
            | Ret c =>
                do! _ := perform (SetCatalog c) in
                do! _ := log_catalog in
                output_catalog
            end
        end
  end.

(** [mode], and the switch over it. *)
Definition catalog_mode : string :=
  let mode := if UseFetch h then "fetch"%string else CatalogMode h in
  if bool_decide (mode = EmptyString) then "joining" else mode.

Definition retrieveCatalog : SP unit :=
  let mode := catalog_mode in
  if bool_decide (mode = "joining"%string) then joiningCatalog
  else if bool_decide (mode = "subscribe"%string) then subscribeToCatalog
  else if bool_decide (mode = "fetch"%string) then fetchCatalog
  else done (Err (Errorf "unknown catalog mode %q (want joining, subscribe, or fetch)" [mode])).

(** ** Going through the tracks *)

(** [strings.Contains] *)
Definition Contains (s substr : string) : bool :=
  match String.index 0 substr s with Some _ => true | None => false end.

Record selection := mkSelection { videoTrack : string; audioTrack : string; subsTrack : string }.

(** The selected track of a role after track [name] of that role:
    [wanted] is the substring to look for; without one the first track is
    taken if [take]. *)
Definition select_name (wanted : string) (take : bool) (selected name : string) : string :=
  if negb (is_empty wanted) then
    if is_empty selected && Contains name wanted then name else selected
  else if is_empty selected && take then name else selected.

Definition set_hCenc (c : option CENC) (st : handlerState) : handlerState :=
  mkHandlerState c (hMux st) (locWriters st).
Definition set_hMux (m : option CmafMux) (st : handlerState) : handlerState :=
  mkHandlerState (hCenc st) m (locWriters st).
Definition initLOCWriter (mediaType : string) (w : locWriter) (st : handlerState) : handlerState :=
  mkHandlerState (hCenc st) (hMux st) (<[mediaType := w]> (locWriters st)).

Definition protected (track : Track) : bool := negb (bool_decide (trContentProtectionRefIDs track = [])).

(** The moov of a protected LOCMAF track; [None]: the function returns. *)
Definition locmaf_moov (track : Track) (initData : string) : outcome (option (option MoovBox)) :=
  if bool_decide (Packaging track = "locmaf"%string) then
    if negb (is_empty (LocmafVersion track)) && negb (bool_decide (LocmafVersion track = locmafVersion)) then Ret None
    else if protected track then
      match parseCMAFInit initData with
      | Ret moov => Ret (Some (Some moov))
      | Err _ => Ret None
      | Panic => Panic
      end
    else Ret (Some None)
  else Ret (Some None).

(** The init data a protected track is used with, and the state. *)
Definition prepare_protection (track : Track) (protectedMoov : option MoovBox) (initData : string) (st : handlerState)
  : SP (handlerState * string) :=
  if protected track then
    let cenc := default (mkCENC [] ∅ ∅) (hCenc st) in
    let cenc :=
      match protectedMoov with
      | Some moov => mkCENC (cKey cenc) (cDecryptInfo cenc) (<[trName track := moov]> (ProtectedMoov cenc))
      | None => cenc
      end in
    ITreeDefinition.ITree.bind (decryptInit cenc track initData)
      (fun o => match o with
                | Ret (cenc, decrypted) => done (Ret (set_hCenc (Some cenc) st, decrypted))
                | Err _ => done (Ret (set_hCenc (Some cenc) st, initData))
                | Panic => done Panic
                end)
  else done (Ret (st, initData)).

(** The init segment of a CMAF track goes to its output and to the
    multiplexer; errors are logged. *)
Definition output_init (mediaType initData : string) (st : handlerState) : SP handlerState :=
  do! _ := (if hasOut mediaType then ignore (unpackWrite initData mediaType) else done (Ret tt)) in
  match hMux st with
  | Some m => do! '(m, _) := AddInit m initData mediaType in done (Ret (set_hMux (Some m) st))
  | None => done (Ret st)
  end.

Definition video_output (track : Track) (initData : string) (st : handlerState) : SP handlerState :=
  if bool_decide (Packaging track = "loc"%string) then
    done (Ret (if hasOut "video" then initLOCWriter "video" (LOCVideoWriter "video") st else st))
  else output_init "video" initData st.

Definition audio_writer (track : Track) : outcome locWriter :=
  if HasPrefix (trCodec track) "mp4a" then
    NewLOCAACWriter "audio" (trCodec track) (default 0 (SampleRate track)) (ChannelConfig track)
  else Ret (LOCOpusWriter "audio").

Definition audio_output (track : Track) (initData : string) (st : handlerState) : SP handlerState :=
  if bool_decide (Packaging track = "loc"%string) then
    done (Ret (if hasOut "audio" then
                 match audio_writer track with Ret w => initLOCWriter "audio" w st | _ => st end
               else st))
  else output_init "audio" initData st.

(** One role: update the selection; if the track is the selected one, prepare
    its outputs. *)
Definition select_role (track : Track) (sel : selection) (initData : string) (st : handlerState)
  : SP (selection * handlerState) :=
  if bool_decide (Role track = "video"%string) then
    let v := select_name (VideoName h) true (videoTrack sel) (trName track) in
    let sel := mkSelection v (audioTrack sel) (subsTrack sel) in
    if bool_decide (v = trName track) then
      do! st := video_output track initData st in done (Ret (sel, st))
    else done (Ret (sel, st))
  else if bool_decide (Role track = "audio"%string) then
    let a := select_name (AudioName h) true (audioTrack sel) (trName track) in
    let sel := mkSelection (videoTrack sel) a (subsTrack sel) in
    if bool_decide (a = trName track) then
      do! st := audio_output track initData st in done (Ret (sel, st))
    else done (Ret (sel, st))
  else if bool_decide (Role track = "subtitle"%string) then
    let s := select_name (SubsName h) (hasOut "subs") (subsTrack sel) (trName track) in
    let sel := mkSelection (videoTrack sel) (audioTrack sel) s in
    if bool_decide (s = trName track) && hasOut "subs" then
      do! _ := ignore (unpackWrite initData "subs") in done (Ret (sel, st))
    else done (Ret (sel, st))
  else done (Ret (sel, st)).

(** The body of the loop over the tracks, for track [i] of the catalog as it
    then is; [None]: the function returns. *)
Definition track_step (i : Z) (s : selection * handlerState) : SP (option (selection * handlerState)) :=
  let '(sel, st) := s in
  do! c := the_catalog in
  do! track := done (index (catTracks c) i) in
  do! c := the_catalog in
  let '(initData, _) := InitDataFor c (Some track) in
  do! moov := done (locmaf_moov track initData) in
  match moov with
  | None => done (Ret None)
  | Some protectedMoov =>
      do! '(st, initData) := prepare_protection track protectedMoov initData st in
      do! s := select_role track sel initData st in
      done (Ret (Some s))
  end.

(** [n] tracks from [i] on. *)
Fixpoint go_through (n : nat) (i : Z) (s : selection * handlerState) : SP (option (selection * handlerState)) :=
  match n with
  | O => done (Ret (Some s))
  | S n =>
      do! r := track_step i s in
      match r with
      | None => done (Ret None)
      | Some s => go_through n (i + 1) s
      end
  end.

(** ** Subscribing *)
Definition reader_moov (st : handlerState) (track : Track) (trackname : string) : SP (option MoovBox) :=
  if bool_decide (Packaging track = "locmaf"%string) then
    match c ← hCenc st; ProtectedMoov c !! trackname with
    | Some moov => done (Ret (Some moov))
    | None =>
        do! c := the_catalog in
        let '(initData, _) := InitDataFor c (Some track) in
        do! moov := done (owrap "failed to parse init data for track %s: %w" [trackname] (parseCMAFInit initData)) in
        done (Ret (Some moov))
    end
  else done (Ret None).

Definition subscribeAndRead (st : handlerState) (playback : bool) (trackname mediaType : string) : SP unit :=
  do! rs := perform (Subscribe trackname) in
  match rs with
  | inl e => done (Err e)
  | inr rs =>
      do! c := the_catalog in
      match Catalog.GetTrackByName c trackname with
      | None => done (Err (Errorf "track %s not found" [trackname]))
      | Some track =>
          do! moov := reader_moov st track trackname in
          do! _ := perform (Go (JobReader (mkReader (RequestID rs) trackname mediaType track moov st playback))) in
          done (Ret tt)
      end
  end.

(** [rs.ReadObject] delivered [o]; the state of the loop is the LOCMAF state. *)
Definition deliver (r : reader) (payload : bytes) : SP unit :=
  match locWriters (rdState r) !! rdMedia r with
  | Some lw => Write lw payload
  | None =>
      do! _ := match hMux (rdState r) with
               | Some m => MuxSample m payload (rdMedia r)
               | None => done (Ret tt)
               end in
      if hasOut (rdMedia r) then write_out (rdMedia r) payload else done (Ret tt)
  end.

(** The payload after expansion and decryption; [None]: nothing to deliver. *)
Definition decode_payload (r : reader) (payload : bytes) (ls : LocmafState) : outcome (option bytes) * LocmafState :=
  let '(p, ls) :=
    if bool_decide (Packaging (rdTrack r) = "locmaf"%string) then decompressLocmafObject payload (rdMoov r) ls
    else (Ret (Some payload), ls) in
  (let! p := p in
   match p with
   | None => Ret None
   | Some p =>
       match hCenc (rdState r) with
       | Some cenc => let! p := decryptPayload cenc p (rdName r) in Ret (Some p)
       | None => Ret (Some p)
       end
   end, ls).

Definition read_round (r : reader) (ls : LocmafState) : SP (LocmafState + unit) :=
  do! x := perform (ReadObject (rdSub r)) in
  match x with
  | EOF | ReadErr _ => done (Ret (inr tt))
  | Got o =>
      do! _ := (if rdPlayback r && bool_decide (Role (rdTrack r) = "video"%string) then
                  do! now := perform Now in
                  perform (AddObject (rdName r) (GroupID o) (ObjectID o) (ExtensionHeaders o) (len (objPayload o)) now)
                else done (Ret tt)) in
      let ls := if ObjectID o =? 0 then NewState else ls in
      let '(p, ls) := decode_payload r (objPayload o) ls in
      match p with
      | Panic => done Panic
      | Err _ => done (Ret (inr tt))
      | Ret None => done (Ret (inl ls))
      | Ret (Some payload) =>
          ITreeDefinition.ITree.bind (deliver r payload)
            (fun d => match d with
                      | Ret _ => done (Ret (inl ls))
                      | Err _ => done (Ret (inr tt))
                      | Panic => done Panic
                      end)
      end
  end.
Definition readTrack (r : reader) : SP unit := loop (read_round r) NewState.

(** ** [handle] *)

(** [conn.CloseWithError], and return. *)
Definition close_conn (reason : string) : SP flow :=
  do! _ := perform (CloseWithError reason) in done (Ret Return).

(** The error of a call, for the branch that handles it. *)
Definition try {A : Type} (t : SP A) : SP (goerror + A) :=
  ITreeDefinition.ITree.bind t
    (fun o => match o with Ret a => done (Ret (inr a)) | Err e => done (Ret (inl e)) | Panic => done Panic end).

Definition subscribe_or_close (st : handlerState) (playback : bool) (name mediaType : string) : SP flow :=
  do! r := try (subscribeAndRead st playback name mediaType) in
  match r with inl _ => close_conn "internal error" | inr _ => done (Ret Next) end.

(** [videoTracks]; the fuel of [dependencyOrder] is always enough. *)
Definition video_tracks (videoTrack : string) : SP (list string) :=
  if SubscribeDependencies h || SimulatePlayback h then
    do! c := the_catalog in
    done match dependencyOrder c videoTrack with Some r => r | None => outOfFuel end
  else done (Ret [videoTrack]).

Fixpoint subscribe_videos (st : handlerState) (playback : bool) (target : string) (names : list string) : SP flow :=
  match names with
  | [] => done (Ret Next)
  | name :: names =>
      do! f := subscribe_or_close st playback name (if bool_decide (name = target) then "video" else "video_dependency") in
      match f with Return => done (Ret Return) | Next => subscribe_videos st playback target names end
  end.

(** The block of the selected video track; says also whether [h.playback] is
    set. *)
Definition handle_video (st : handlerState) (videoTrack : string) : SP (flow * bool) :=
  if is_empty videoTrack then done (Ret (Next, false))
  else
    do! names := try (video_tracks videoTrack) in
    match names with
    | inl _ => do! f := close_conn "invalid video dependencies" in done (Ret (f, false))
    | inr names =>
        do! p := (if SimulatePlayback h || negb (is_empty (MetricsPath h)) then
                    try (do! c := the_catalog in
                         do! p := done (newNativePlayback c names videoTrack (SimulatePlayback h)
                                          (MinimalBuffer h) (subTargetLatency h) (MetricsPath h)) in
                         done (Ret (Some p)))
                  else done (Ret (inr None))) in
        match p with
        | inl _ => do! f := close_conn "invalid playback configuration" in done (Ret (f, false))
        | inr None => do! f := subscribe_videos st false videoTrack names in done (Ret (f, false))
        | inr (Some p) =>
            do! _ := perform (Go (JobPlayback p)) in
            do! f := subscribe_videos st true videoTrack names in done (Ret (f, true))
        end
    end.

Definition subscribe_selected (st : handlerState) (playback : bool) (name mediaType : string) : SP flow :=
  if is_empty name then done (Ret Next) else subscribe_or_close st playback name mediaType.

(** The end of [handle], from the selection on. *)
Definition handle_selection (sel : selection) (st : handlerState) : SP unit :=
  do! '(f, playback) := handle_video st (videoTrack sel) in
  match f with
  | Return => done (Ret tt)
  | Next =>
      do! f := subscribe_selected st playback (audioTrack sel) "audio" in
      match f with
      | Return => done (Ret tt)
      | Next =>
          do! f := subscribe_selected st playback (subsTrack sel) "subs" in
          match f with
          | Return => done (Ret tt)
          | Next =>
              if is_empty (audioTrack sel) && is_empty (videoTrack sel) && is_empty (subsTrack sel) then
                do! _ := perform (CloseWithError "no matching tracks found") in done (Ret tt)
              else perform WaitDone
          end
      end
  end.

(** From the catalog on. *)
Definition handle_catalog (mux : option CmafMux) : SP unit :=
  do! c := the_catalog in
  do! r := go_through (length (catTracks c)) 0
             (mkSelection EmptyString EmptyString EmptyString, mkHandlerState None mux ∅) in
  match r with
  | None => done (Ret tt)
  | Some (sel, st) => handle_selection sel st
  end.

Definition handle (mux : option CmafMux) : SP unit :=
  do! e := perform StartSession in
  match e with
  | Some _ => do! _ := perform (CloseWithError "session initialization error") in done (Ret tt)
  | None =>
      do! r := try retrieveCatalog in
      match r with
      | inl _ => do! _ := perform (CloseWithError "internal error") in done (Ret tt)
      | inr _ => handle_catalog mux
      end
  end.

(** ** moq-mi *)
Definition IsMoqMINamespace (ns : list string) : bool :=
  match ns with
  | [] => false
  | s :: _ => bool_decide (s = "moq-mi"%string) || HasPrefix s "moq-mi/"
  end.

(** The sequence number before, if any. *)
Definition seqDelta (seq : Z) (last : option Z) : Z * option Z :=
  match last with
  | None => (0, Some seq)
  | Some l => (u64 (seq - l), Some seq)
  end.

Definition logMoqMIObject (trackName : string) (o : object) (last : option Z) : SP (option Z) :=
  match MediaType (ExtensionHeaders o) with
  | None => done (Ret last)
  | Some mt =>
      match mt with
      | MIOther _ => done (Ret last)
      | _ =>
          match ReadSeqID mt (ExtensionHeaders o) with
          | Panic => done Panic
          | Err _ | Ret None => done (Ret last)
          | Ret (Some seq) =>
              match mt with
              | MIUTF8Text => done (Ret last)
              | _ =>
                  let '(gap, last) := seqDelta seq last in
                  do! _ := perform (LogSeq trackName seq gap) in done (Ret last)
              end
          end
      end
  end.

Definition moqmi_read_round (sub : Z) (trackName mediaType : string) (last : option Z) : SP (option Z + unit) :=
  do! r := perform (ReadObject sub) in
  match r with
  | EOF | ReadErr _ => done (Ret (inr tt))
  | Got o =>
      do! last := logMoqMIObject trackName o last in
      if hasOut mediaType then
        do! e := perform (WriteOut mediaType (objPayload o)) in
        match e with Some _ => done (Ret (inr tt)) | None => done (Ret (inl last)) end
      else done (Ret (inl last))
  end.
Definition moqmiReader (sub : Z) (trackName mediaType : string) : SP unit :=
  loop (moqmi_read_round sub trackName mediaType) None.

Definition subscribeMoqMI (trackName mediaType : string) : SP unit :=
  do! rs := perform (Subscribe trackName) in
  match rs with
  | inl e => done (Err (Wrapf "subscribe %s: %w" [trackName] e))
  | inr rs => do! _ := perform (Go (JobMoqMIReader (RequestID rs) trackName mediaType)) in done (Ret tt)
  end.

(** Whether the subscription succeeded. *)
Definition moqmi_subscribed (trackName mediaType : string) : SP bool :=
  if hasOut mediaType || negb (hasOut "mux") then
    do! r := try (subscribeMoqMI trackName mediaType) in
    done (Ret match r with inl _ => false | inr _ => true end)
  else done (Ret false).

Definition handleMoqMI : SP unit :=
  do! e := perform StartSession in
  match e with
  | Some _ => do! _ := perform (CloseWithError "session initialization error") in done (Ret tt)
  | None =>
      do! v := moqmi_subscribed "video0" "video" in
      do! a := moqmi_subscribed "audio0" "audio" in
      if negb (v || a) then do! _ := perform (CloseWithError "no tracks") in done (Ret tt)
      else perform WaitDone
  end.

(** ** The session *)

(** [getHandler]: what an announcement is answered; an error of the answer is
    logged.  Other messages are not answered. *)
Definition handleAnnouncement (ns : list string) : prog respE unit :=
  if AcceptAny h || Discover h then do! _ := perform (Accept None) in done (Ret tt)
  else if negb (tupleEqual ns (subNamespace h)) then
    do! _ := perform (Reject 0 "non-matching namespace") in done (Ret tt)
  else do! _ := perform (Accept None) in done (Ret tt).

Definition handleSubscription : prog respE unit :=
  do! _ := perform (Reject ErrorCodeSubscribeTrackDoesNotExist "endpoint does not publish any tracks") in done (Ret tt).

Definition runDiscover : SP unit :=
  do! e := perform StartSession in
  match e with
  | Some e => done (Err (Wrapf "session init: %w" [] e))
  | None => perform WaitDone
  end.
End WithConfig.

(** [CatalogTrack] has a default. *)
Definition with_catalog_track (h : subConfig) : subConfig :=
  if is_empty (CatalogTrack h) then
    mkSubConfig (subNamespace h) (Outs h) (VideoName h) (AudioName h) (SubsName h) (UseFetch h) (CatalogMode h)
      (AcceptAny h) (Discover h) "catalog" (SubscribeDependencies h) (SimulatePlayback h) (MinimalBuffer h)
      (subTargetLatency h) (MetricsPath h) (infoEnabled h)
  else h.

(** [ctxErr] is [ctx.Err()], which is not nil when it is reached. *)
Definition RunWithConn (h : subConfig) (ctxErr : goerror) : SP unit :=
  let mux := if hasOut h "mux" then Some NewCmafMux else None in
  let h := with_catalog_track h in
  if Discover h then runDiscover
  else
    do! _ := (if IsMoqMINamespace (subNamespace h) then handleMoqMI h else handle h mux) in
    do! _ := perform WaitDone in
    done (Err ctxErr).

(** The goroutines, [JobPlayback] apart: that one is [run] of [Playback]. *)
Definition run_subJob (h : subConfig) (j : subJob) : SP unit :=
  match j with
  | JobUpdates sub largest => catalogUpdates h sub largest
  | JobSubscribedUpdates sub => subscribedUpdates h sub
  | JobPlayback _ => perform WaitDone
  | JobReader r => readTrack h r
  | JobMoqMIReader sub t m => moqmiReader h sub t m
  end.
End Subscriber.
