(* ===== verification/SubscriberProps.v ===== *)
(** * What a subscriber subscribes to

    The protocol that the subscriber keeps to once it has a catalog: the
    selection of the tracks is specified by a search, the subscriptions by
    the list they come from, and [handle_catalog] implements both in every
    environment whose catalog stays the same. *)
From S2P Require Import Prelude Io Base64 GoFloat Media Catalog Loc Nalu Cc608 InitTrack Chunk Subtitle AssetOps CatalogGen Publisher Drm CencMux Playback Subscriber.
Local Open Scope Z_scope.
Local Open Scope go_scope.

#[export] Instance Accessibility_eq_dec : EqDecision Accessibility.
Proof. solve_decision. Defined.
#[export] Instance float64_eq_dec : EqDecision float64.
Proof. unfold float64. solve_decision. Defined.
#[export] Instance Track_eq_dec : EqDecision Track.
Proof. solve_decision. Defined.
#[export] Instance DeltaOperation_eq_dec : EqDecision DeltaOperation.
Proof. solve_decision. Defined.
#[export] Instance InitData_eq_dec : EqDecision InitData.
Proof. solve_decision. Defined.
#[export] Instance ContentProtection_eq_dec : EqDecision ContentProtection.
Proof. solve_decision. Defined.
#[export] Instance Catalog_eq_dec : EqDecision Catalog.
Proof. solve_decision. Defined.
#[export] Instance playbackTrack_eq_dec : EqDecision playbackTrack.
Proof. solve_decision. Defined.
#[export] Instance playbackUnit_eq_dec : EqDecision playbackUnit.
Proof. solve_decision. Defined.
#[export] Instance timedBytes_eq_dec : EqDecision timedBytes.
Proof. solve_decision. Defined.
#[export] Instance nativePlayback_eq_dec : EqDecision nativePlayback.
Proof. solve_decision. Defined.

(** ** The specification *)
Section Plan.
Context {M : Mp4Types} {FL : @FragLib M} {CG : @CatLib M} {SM : @SubMp4 M FL} {DL : DrmLib} {PB : PubLib} {ML : MoqMILib}.
Context (h : subConfig) (c : Catalog).

(** The first track of a role whose name contains what is wanted; without a
    wish the first of all, if one is to be taken. *)
Definition matches (role wanted : string) (take : bool) (t : Track) : bool :=
  bool_decide (Role t = role) && (if is_empty wanted then take else Contains (trName t) wanted).
Definition first_of (role wanted : string) (take : bool) : string :=
  match List.find (matches role wanted take) (catTracks c) with Some t => trName t | None => EmptyString end.

Definition spec_selection : selection :=
  mkSelection (first_of "video" (VideoName h) true) (first_of "audio" (AudioName h) true)
    (first_of "subtitle" (SubsName h) (hasOut h "subs")).

(** The tracks of the video, dependencies first. *)
Definition plan_videos : outcome (list string) :=
  let v := videoTrack spec_selection in
  if is_empty v then Ret []
  else if SubscribeDependencies h || SimulatePlayback h then
    match dependencyOrder c v with Some r => r | None => outOfFuel end
  else Ret [v].

Definition media_of (target name : string) : string := if bool_decide (name = target) then "video" else "video_dependency".
Definition named (name mediaType : string) : list (string * string) := if is_empty name then [] else [(name, mediaType)].

(** The subscriptions, each with the media type it is read as. *)
Definition plan : outcome (list (string * string)) :=
  let! vs := plan_videos in
  Ret (((fun n => (n, media_of (videoTrack spec_selection) n)) <$> vs)
       ++ named (audioTrack spec_selection) "audio" ++ named (subsTrack spec_selection) "subs").

(** The simulated playback, if one is wanted. *)
Definition wants_playback : bool :=
  negb (is_empty (videoTrack spec_selection)) && (SimulatePlayback h || negb (is_empty (MetricsPath h))).
Definition plan_playback : outcome nativePlayback :=
  let! vs := plan_videos in
  newNativePlayback c vs (videoTrack spec_selection) (SimulatePlayback h) (MinimalBuffer h) (subTargetLatency h) (MetricsPath h).

Inductive sphase :=
  (** going through the tracks: outputs are prepared, licenses requested *)
  | Scan
  | Subs (rest : list (string * string))
  (** subscribed, its reader not yet started *)
  | Join (name media : string) (rest : list (string * string))
  | Failed | Closed | Waiting
  (** the catalog has changed: nothing is specified *)
  | SLost.

#[export] Instance sphase_eq_dec : EqDecision sphase.
Proof. solve_decision. Defined.

(** The subscriptions that are next. *)
Definition todo (q : sphase) : option (list (string * string)) :=
  match q with
  | Scan => if wants_playback then None else match plan with Ret l => Some l | _ => None end
  | Subs rest => Some rest
  | _ => None
  end.

Definition none_selected : bool :=
  is_empty (audioTrack spec_selection) && is_empty (videoTrack spec_selection) && is_empty (subsTrack spec_selection).

Definition closes (q : sphase) (reason : string) : bool :=
  match q with
  | Failed | Join _ _ _ => bool_decide (reason = "internal error"%string)
  | Scan | Subs _ =>
      if bool_decide (reason = "invalid video dependencies"%string) then
        bool_decide (q = Scan) && match plan_videos with Err _ => true | _ => false end
      else if bool_decide (reason = "invalid playback configuration"%string) then
        bool_decide (q = Scan) && wants_playback && match plan_playback with Err _ => true | _ => false end
      else bool_decide (reason = "no matching tracks found"%string) && none_selected && bool_decide (todo q = Some [])
  | _ => false
  end.

Definition starts (q : sphase) (j : subJob) : option sphase :=
  match j, q with
  | JobPlayback p, Scan =>
      match plan_playback, plan with
      | Ret p', Ret l => if wants_playback && bool_decide (p = p') then Some (Subs l) else None
      | _, _ => None
      end
  | JobReader r, Join name media rest =>
      if bool_decide (rdName r = name) && bool_decide (rdMedia r = media)
         && bool_decide (Catalog.GetTrackByName c name = Some (rdTrack r)) && bool_decide (rdPlayback r = wants_playback)
      then Some (Subs rest) else None
  | _, _ => None
  end.

Definition sstep (q : sphase) (X : Type) (e : subE subJob X) : X -> option sphase :=
  match q with
  | SLost => fun _ => Some SLost
  | _ =>
      match e in subE _ X return X -> option sphase with
      | GetCatalog => fun x =>
          match q with
          | Scan | Subs _ | Join _ _ _ => Some (if bool_decide (x = Some c) then q else SLost)
          | _ => None
          end
      | WriteOut name _ => fun _ =>
          match q with
          | Scan => if hasOut h name || bool_decide (name = "mux"%string) then Some Scan else None
          | _ => None
          end
      | HttpPost _ _ => fun _ => match q with Scan => Some Scan | _ => None end
      | Subscribe name => fun x =>
          match todo q with
          | Some ((n, m) :: rest) =>
              if bool_decide (name = n) then Some (match x with inl _ => Failed | inr _ => Join n m rest end) else None
          | _ => None
          end
      | Go j => fun _ => starts q j
      | CloseWithError reason => fun _ => if closes q reason then Some Closed else None
      | WaitDone => fun _ => if bool_decide (todo q = Some []) && negb none_selected then Some Waiting else None
      | _ => fun _ => None
      end
  end.

(** A LOCMAF track that makes the subscriber give up: of another version, or
    protected with init data that cannot be parsed. *)
Definition refused : Prop :=
  exists t, t ∈ catTracks c /\ locmaf_moov t (fst (InitDataFor c (Some t))) = Ret None.

(** How it may end: it has closed the connection, or waited for the end of
    the session, or given up.  A panic is specified as far as it can happen
    only while the tracks are gone through and before a reader starts. *)
Definition send (r : outcome unit) (q : sphase) : Prop :=
  match r with
  | Ret _ => q = Closed \/ q = Waiting \/ (q = Scan /\ refused)
  | Err _ => False
  | Panic => q = Scan \/ exists n m rest, q = Join n m rest
  end.

(** ** Going through the tracks *)
Definition calm (q : sphase) : Prop := q = Scan \/ q = SLost.
Definition quiet (X : Type) (e : subE subJob X) : Prop :=
  match e with
  | GetCatalog | HttpPost _ _ => True
  | WriteOut name _ => hasOut h name || bool_decide (name = "mux"%string) = true
  | _ => False
  end.

Lemma calm_step q X (e : subE subJob X) x : calm q -> quiet X e -> exists q', sstep q X e x = Some q' /\ calm q'.
Proof.
  unfold calm. intros Hq He.
  destruct Hq as [->| ->]; [|eauto]. destruct e; cbn in He |- *; try done; eauto.
  - case_bool_decide; eauto.
  - rewrite He. eauto.
Qed.

Lemma deref_tame {A : Type} (p : option A) : tame quiet noerr (deref p).
Proof. by apply tame_done; destruct p. Qed.
#[local] Hint Resolve deref_tame : tame.
Lemma the_catalog_tame : tame quiet noerr the_catalog.
Proof. unfold the_catalog. tame. Qed.
Lemma write_out_tame name data : hasOut h name || bool_decide (name = "mux"%string) = true ->
  tame quiet (fun _ => True) (write_out name data).
Proof. intros. unfold write_out. tame. Qed.
#[local] Hint Resolve the_catalog_tame write_out_tame : tame.

Lemma unpackWrite_tame initData out : hasOut h out = true -> tame quiet noerr (ignore (unpackWrite initData out)).
Proof.
  intros Ho. assert (hasOut h out || bool_decide (out = "mux"%string) = true) by (by rewrite Ho).
  unfold ignore, unpackWrite. tame.
Qed.
#[local] Hint Resolve unpackWrite_tame : tame.

Lemma AddInit_tame m initData mediaType : tame quiet noerr (AddInit m initData mediaType).
Proof.
  assert (hasOut h "mux" || bool_decide ("mux"%string = "mux"%string) = true) by (by rewrite orb_true_r).
  unfold AddInit, run_muxInit. tame.
Qed.

Lemma clear_key_ref_tame ids : forall i found, tame quiet (fun _ => True) (clear_key_ref i ids found).
Proof. induction ids as [|id ids IH]; intros i found; cbn [clear_key_ref]; tame. Qed.
#[local] Hint Resolve AddInit_tame clear_key_ref_tame : tame.

Lemma decryptInit_tame cenc track initData : tame quiet (fun _ => True) (decryptInit cenc track initData).
Proof. unfold decryptInit, setClearKeyDecryptionKey, requestClearKey, wrap. tame. Qed.
#[local] Hint Resolve decryptInit_tame : tame.

Lemma prepare_protection_tame track moov initData st :
  tame quiet noerr (prepare_protection track moov initData st).
Proof. unfold prepare_protection. tame. Qed.

Lemma output_init_tame mediaType initData st : tame quiet noerr (output_init h mediaType initData st).
Proof. unfold output_init. tame. Qed.
#[local] Hint Resolve prepare_protection_tame output_init_tame : tame.

(** The selection after one more track. *)
Definition pick (role wanted : string) (take : bool) (selected : string) (t : Track) : string :=
  if bool_decide (Role t = role) then select_name wanted take selected (trName t) else selected.
Definition step_sel (sel : selection) (t : Track) : selection :=
  mkSelection (pick "video" (VideoName h) true (videoTrack sel) t)
    (pick "audio" (AudioName h) true (audioTrack sel) t)
    (pick "subtitle" (SubsName h) (hasOut h "subs") (subsTrack sel) t).

Definition selects (sel : selection) {X : Type} (o : outcome (selection * X)) : Prop :=
  match o with Ret (sel', _) => sel' = sel | Err _ => False | Panic => True end.

Lemma select_role_tame track sel initData st :
  tame quiet (selects (step_sel sel track)) (select_role h track sel initData st).
Proof.
  unfold select_role, step_sel, pick, video_output, audio_output. destruct sel as [v a s].
  repeat case_bool_decide; cbn [videoTrack audioTrack subsTrack]; try congruence; tame; cbn; try congruence; try done.
  all: match goal with H : _ && _ = true |- _ => apply andb_prop in H as [_ H] end. all: tame.
Qed.
#[local] Hint Resolve select_role_tame : tame.

(** Once a track is selected it stays, so what is selected in the end is the
    first match. *)
Lemma select_name_first role wanted take t :
  Role t = role -> select_name wanted take EmptyString (trName t) = if matches role wanted take t then trName t else EmptyString.
Proof.
  intros Hr. unfold select_name, matches. rewrite bool_decide_true by done. cbn [andb].
  destruct (is_empty wanted); cbn; [by destruct take|done].
Qed.

Lemma pick_kept role wanted take acc t : acc <> EmptyString -> pick role wanted take acc t = acc.
Proof.
  intros Ha. unfold pick, select_name. case_bool_decide; [|done].
  assert (is_empty acc = false) as -> by (unfold is_empty; by rewrite bool_decide_false). by destruct (negb _).
Qed.

Lemma fold_pick_kept role wanted take ts : forall acc, acc <> EmptyString -> fold_left (pick role wanted take) ts acc = acc.
Proof. induction ts as [|t ts IH]; intros acc Ha; [done|]. cbn. by rewrite pick_kept, IH. Qed.

Lemma fold_pick role wanted take ts : Forall (fun t => trName t <> EmptyString) ts ->
  fold_left (pick role wanted take) ts EmptyString =
  match List.find (matches role wanted take) ts with Some t => trName t | None => EmptyString end.
Proof.
  induction 1 as [|t ts Ht _ IH]; [done|]. cbn [fold_left List.find].
  unfold pick at 2. case_bool_decide as Hr.
  - rewrite (select_name_first role) by done. destruct (matches role wanted take t); [by apply fold_pick_kept|done].
  - assert (matches role wanted take t = false) as -> by (unfold matches; by rewrite bool_decide_false). done.
Qed.

Lemma fold_step_sel ts : forall sel, fold_left step_sel ts sel =
  mkSelection (fold_left (pick "video" (VideoName h) true) ts (videoTrack sel))
    (fold_left (pick "audio" (AudioName h) true) ts (audioTrack sel))
    (fold_left (pick "subtitle" (SubsName h) (hasOut h "subs")) ts (subsTrack sel)).
Proof. induction ts as [|t ts IH]; intros sel; [by destruct sel|]. cbn. by rewrite IH. Qed.

Lemma selection_spec : Forall (fun t => trName t <> EmptyString) (catTracks c) ->
  fold_left step_sel (catTracks c) (mkSelection EmptyString EmptyString EmptyString) = spec_selection.
Proof. intros Hn. rewrite fold_step_sel. cbn. by rewrite !fold_pick. Qed.

(** ** The program keeps to the protocol *)
Abbreviation keeps' := (keeps sstep).
Definition anything (X : Type) (e : subE subJob X) : Prop := True.
Lemma tame_anything {R : Type} (P : R -> Prop) t : tame quiet P t -> tame anything P t.
Proof. by apply tame_weaken. Qed.
#[local] Hint Resolve tame_anything : tame.

(** After the catalog has changed every program without loops is allowed. *)
Lemma keeps_lost {R : Type} (Q : R -> Prop) (t : itree _ R) (P : R -> bool -> sphase -> Prop) n b :
  tame anything Q t -> (forall r b, Q r -> P r b SLost) -> keeps' n b SLost t P.
Proof.
  intros Ht HP. eapply keeps_mono; [|apply (keeps_tame anything sstep (eq SLost) ltac:(intros ? ? ? ? <- _; eauto) _ Q t _ _ _ Ht eq_refl)].
  intros r b' q' (<- & Hr & _). by apply HP.
Qed.

Lemma keeps_calm {R : Type} (Q : R -> Prop) (t : itree _ R) (P : R -> bool -> sphase -> Prop) n b :
  tame quiet Q t -> (forall r b, Q r -> P r b SLost) -> (forall r b, Q r -> P r b Scan) -> keeps' n b Scan t P.
Proof.
  intros Ht Hl Hs. eapply keeps_mono; [|apply (keeps_tame quiet sstep calm calm_step _ Q t _ _ _ Ht); by left].
  intros r b' q' ([->| ->] & Hr & _); auto.
Qed.

Definition has_catalog (q : sphase) : bool := match q with Scan | Subs _ | Join _ _ _ => true | _ => false end.

Lemma keeps_catalog {A : Type} n b q (k : Catalog -> prog (subE subJob) A) P :
  has_catalog q = true -> keeps' n true q (k c) P -> (forall o, noerr o -> keeps' n true SLost (andThen k o) P) ->
  keeps' n b q (gobind the_catalog k) P.
Proof.
  intros Hq Hk Hl. apply keeps_gobind. unfold the_catalog. apply keeps_do. intros x.
  exists (if bool_decide (x = Some c) then q else SLost). split; [by destruct q|].
  case_bool_decide as Hx; [subst x; by apply keeps_done|]. apply keeps_done, Hl. by destruct x.
Qed.

Lemma locmaf_moov_noerr track initData : noerr (locmaf_moov track initData).
Proof. unfold locmaf_moov. repeat case_match; done. Qed.

Lemma index_noerr {A : Type} (l : list A) i : noerr (index l i).
Proof. unfold index. repeat case_match; done. Qed.

Ltac no_error :=
  match goal with
  | H : locmaf_moov ?t ?s = Err _ |- _ => pose proof (locmaf_moov_noerr t s) as He; by rewrite H in He
  | H : index ?l ?i = Err _ |- _ => pose proof (index_noerr l i) as He; by rewrite H in He
  end.

Lemma select_role_noerr track sel initData st : tame quiet noerr (select_role h track sel initData st).
Proof. eapply tame_mono; [|apply select_role_tame]. by intros []. Qed.
#[local] Hint Resolve select_role_noerr : tame.

Lemma track_step_tame i s : tame anything noerr (track_step h i s).
Proof.
  unfold track_step. apply tame_anything. tame; no_error.
Qed.
#[local] Hint Resolve track_step_tame : tame.

Lemma go_through_tame n : forall i s, tame anything noerr (go_through h n i s).
Proof. induction n as [|n IH]; intros i s; cbn [go_through]; tame. Qed.

Lemma subscribeAndRead_tame st pb name media : tame anything (fun _ => True) (subscribeAndRead st pb name media).
Proof. unfold subscribeAndRead, reader_moov. tame. Qed.
#[local] Hint Resolve go_through_tame subscribeAndRead_tame : tame.

Lemma subscribe_or_close_tame st pb name media : tame anything noerr (subscribe_or_close st pb name media).
Proof. unfold subscribe_or_close, try, close_conn. tame. Qed.
#[local] Hint Resolve subscribe_or_close_tame : tame.

Lemma subscribe_videos_tame st pb target names : tame anything noerr (subscribe_videos st pb target names).
Proof. induction names as [|name names IH]; cbn [subscribe_videos]; tame. Qed.
#[local] Hint Resolve subscribe_videos_tame : tame.

Lemma handle_video_tame st v : tame anything noerr (handle_video h st v).
Proof. unfold handle_video, try, close_conn, video_tracks. tame. Qed.
#[local] Hint Resolve handle_video_tame : tame.

Lemma handle_selection_tame sel st : tame anything noerr (handle_selection h sel st).
Proof. unfold handle_selection, subscribe_selected. tame. Qed.
#[local] Hint Resolve handle_selection_tame : tame.

(** What going through tracks leaves: the selection [sel], or the end of the
    session because of a track that is refused. *)
Definition scanned (sel : selection) (o : outcome (option (selection * handlerState))) (_ : bool) (q : sphase) : Prop :=
  match o with
  | Ret (Some (sel', _)) => (q = Scan /\ sel' = sel) \/ q = SLost
  | Ret None => (q = Scan /\ refused) \/ q = SLost
  | Err _ => False
  | Panic => calm q
  end.

Lemma scanned_lost sel o b : noerr o -> scanned sel o b SLost.
Proof. destruct o as [[[]|]| |]; cbn; unfold calm; auto. Qed.

(** With a catalog that stays the same, or a tame rest of the program. *)
Ltac kcatalog := apply keeps_catalog; [done| |
  let o := fresh "o" in let Ho := fresh "Ho" in intros o Ho; apply (keeps_lost noerr); [|by intros; apply scanned_lost]].

Lemma track_step_keeps n b i sel st t : catTracks c !! i = Some t ->
  keeps' n b Scan (track_step h (Z.of_nat i) (sel, st)) (scanned (step_sel sel t)).
Proof.
  intros Ht. unfold track_step. kcatalog.
  2: { destruct o; [|done|by apply tame_done]. cbn [andThen]. apply tame_anything. tame; no_error. }
  assert (index (catTracks c) (Z.of_nat i) = Ret t) as -> by (apply index_Ret; rewrite Nat2Z.id; split; [lia|done]).
  apply keeps_lift. cbn [andThen]. kcatalog.
  2: { destruct o; [|done|by apply tame_done]. cbn [andThen]. apply tame_anything. tame.
       pose proof (locmaf_moov_noerr t s) as He. by rewrite Heqo in He. }
  destruct (InitDataFor c (Some t)) as [initData found] eqn:Hi. apply keeps_lift.
  destruct (locmaf_moov t initData) as [[moov|]|e|] eqn:Hm; cbn [andThen].
  - apply keeps_gobind. eapply keeps_calm; [apply prepare_protection_tame|..].
    + intros o b' Ho. apply (keeps_lost noerr); [|by intros; apply scanned_lost].
      destruct o; [|done|by apply tame_done]. cbn [andThen]. apply tame_anything. tame.
    + intros [[st' initData']|e|] b' Ho; [|done|by apply keeps_done; left]. cbn [andThen].
      apply keeps_gobind. eapply keeps_calm; [apply select_role_tame|..];
        intros [[sel' st'']|e|] b'' Hs; try done; apply keeps_done; cbn; auto; by left + by right.
  - apply keeps_done. left. split; [done|]. exists t. split; [by eapply list_elem_of_lookup_2|]. by rewrite Hi.
  - no_error.
  - apply keeps_done. by left.
Qed.

Lemma go_through_keeps n : forall m b i sel st, (i + n = length (catTracks c))%nat ->
  keeps' m b Scan (go_through h n (Z.of_nat i) (sel, st)) (scanned (fold_left step_sel (drop i (catTracks c)) sel)).
Proof.
  induction n as [|n IH]; intros m b i sel st Hi; cbn [go_through].
  - apply keeps_done. rewrite drop_ge by lia. cbn. auto.
  - destruct (lookup_lt_is_Some_2 (catTracks c) i) as [t Ht]; [lia|].
    apply keeps_gobind. eapply keeps_mono; [|by apply track_step_keeps].
    rewrite (drop_S _ _ _ Ht). cbn [fold_left].
    intros [[[sel' st']|]|e|] b' q Hq; cbn [andThen] in *; [|by apply keeps_done|done|by apply keeps_done].
    destruct Hq as [[-> ->]| ->].
    + replace (Z.of_nat i + 1) with (Z.of_nat (S i)) by lia. apply IH. lia.
    + eapply keeps_lost; [apply go_through_tame|]. intros. by apply scanned_lost.
Qed.

(** ** Subscribing *)

(** [t] leads to a state in [P] unless the catalog has changed. *)
Definition or_lost {R : Type} (P : R -> sphase -> Prop) (r : R) (_ : bool) (q : sphase) : Prop := q = SLost \/ P r q.

Lemma lost_any {R : Type} (Q : R -> Prop) (t : itree _ R) (P : R -> sphase -> Prop) n b :
  tame anything Q t -> keeps' n b SLost t (or_lost P).
Proof. intros Ht. eapply keeps_lost; [exact Ht|]. by left. Qed.

Lemma keeps_catalog_or_lost {A : Type} (Q : outcome A -> Prop) n b q (k : Catalog -> prog (subE subJob) A) (P : outcome A -> sphase -> Prop) :
  has_catalog q = true -> (forall c', tame anything Q (k c')) -> keeps' n true q (k c) (or_lost P) ->
  keeps' n b q (gobind the_catalog k) (or_lost P).
Proof.
  intros Hq Ht Hk. apply keeps_catalog; [done..|]. intros [c'|e|] Ho; [|done|by apply keeps_done; left].
  eapply lost_any, Ht.
Qed.

Lemma todo_has_catalog q l : todo q = Some l -> has_catalog q = true.
Proof. by destruct q. Qed.

Lemma sstep_Subscribe q name media rest x : todo q = Some ((name, media) :: rest) ->
  sstep q _ (Subscribe name) x = Some (match x with inl _ => Failed | inr _ => Join name media rest end).
Proof.
  intros Hq. assert (sstep q _ (Subscribe name) x = match todo q with
    | Some ((n, m) :: rest) => if bool_decide (name = n) then Some (match x with inl _ => Failed | inr _ => Join n m rest end) else None
    | _ => None end) as -> by (by destruct q).
  by rewrite Hq, bool_decide_true.
Qed.

Definition subscribed (name media : string) (rest : list (string * string)) (o : outcome unit) (q : sphase) : Prop :=
  match o with
  | Ret _ => q = Subs rest
  | Err _ => q = Failed \/ q = Join name media rest
  | Panic => q = Join name media rest
  end.

Lemma reader_moov_keeps n b st track name media rest :
  keeps' n b (Join name media rest) (reader_moov st track name) (or_lost (fun _ q => q = Join name media rest)).
Proof.
  unfold reader_moov. case_bool_decide; [|by apply keeps_done; right].
  destruct (c ← hCenc st; ProtectedMoov c !! name); [by apply keeps_done; right|].
  eapply (keeps_catalog_or_lost (fun _ => True)); [done| |].
  - intros c'. tame.
  - destruct (InitDataFor c (Some track)). apply keeps_lift.
    destruct (owrap _ _ _); cbn [andThen]; apply keeps_done; by right.
Qed.

Lemma subscribeAndRead_keeps n b q st name media rest : todo q = Some ((name, media) :: rest) ->
  keeps' n b q (subscribeAndRead st wants_playback name media) (or_lost (subscribed name media rest)).
Proof.
  intros Hq. unfold subscribeAndRead. apply keeps_do. intros x. rewrite (sstep_Subscribe q name media rest) by done.
  eexists. split; [done|]. destruct x as [e|rs]; [by apply keeps_done; right; left|].
  eapply (keeps_catalog_or_lost (fun _ => True)); [done| |].
  { intros c'. unfold reader_moov. tame. }
  destruct (Catalog.GetTrackByName c name) as [track|] eqn:Ht; [|by apply keeps_done; right; right].
  apply keeps_gobind. eapply keeps_mono; [|apply reader_moov_keeps]. intros o b' q' [->|Ho].
  { apply (lost_any (fun _ => True)). destruct o; cbn [andThen]; tame. }
  subst q'. destruct o as [moov|e|]; cbn [andThen]; [|by apply keeps_done; right; right|by apply keeps_done; right].
  apply keeps_do. intros []. exists (Subs rest). split; [|by apply keeps_done; right].
  cbn. by rewrite Ht, !bool_decide_true by done.
Qed.

(** One subscription, or the connection is closed. *)
Definition next_or_closed (rest : list (string * string)) (o : outcome flow) (q : sphase) : Prop :=
  match o with
  | Ret Next => todo q = Some rest
  | Ret Return => q = Closed
  | Err _ => False
  | Panic => exists n m l, q = Join n m l
  end.

Lemma close_conn_keeps n b q reason rest : closes q reason = true -> keeps' n b q (close_conn reason) (or_lost (next_or_closed rest)).
Proof.
  intros Hc. unfold close_conn. apply keeps_do. intros x. exists Closed.
  assert (sstep q _ (CloseWithError reason) x = if closes q reason then Some Closed else None) as Hs
    by (by destruct q). rewrite Hs, Hc. split; [done|]. apply keeps_done. by right.
Qed.

Lemma subscribe_or_close_keeps n b q st name media rest : todo q = Some ((name, media) :: rest) ->
  keeps' n b q (subscribe_or_close st wants_playback name media) (or_lost (next_or_closed rest)).
Proof.
  intros Hq. unfold subscribe_or_close. apply keeps_gobind. unfold try. apply keeps_bind.
  eapply keeps_mono; [|apply subscribeAndRead_keeps, Hq]. intros o b' q' [->|Ho].
  - destruct o; apply keeps_done; cbn [andThen]; apply (lost_any (fun _ => True)); unfold close_conn; tame.
  - destruct o as [[]|e|]; apply keeps_done; cbn [andThen].
    + apply keeps_done. right. cbn in Ho. by subst.
    + apply close_conn_keeps. by destruct Ho as [->| ->].
    + apply keeps_done. right. cbn in Ho |- *. eauto.
Qed.

Lemma subscribe_videos_keeps st target names rest : forall n b q,
  todo q = Some (((fun x => (x, media_of target x)) <$> names) ++ rest) ->
  keeps' n b q (subscribe_videos st wants_playback target names) (or_lost (next_or_closed rest)).
Proof.
  induction names as [|name names IH]; intros n b q Hq; cbn [subscribe_videos].
  - apply keeps_done. by right.
  - apply keeps_gobind. eapply keeps_mono; [|eapply subscribe_or_close_keeps; exact Hq].
    intros o b' q' [->|Ho].
    + apply (lost_any (fun _ => True)). destruct o; cbn [andThen]; tame.
    + destruct o as [[]|e|]; cbn [andThen] in *; [apply IH, Ho|apply keeps_done; by right|done|apply keeps_done; by right].
Qed.

(** After the video block. *)
Definition after_video (rest : list (string * string)) (o : outcome (flow * bool)) (q : sphase) : Prop :=
  match o with
  | Ret (f, pb) => next_or_closed rest (Ret f) q /\ (f = Next -> pb = wants_playback)
  | Err _ => False
  | Panic => q = Scan \/ exists n m l, q = Join n m l
  end.

Lemma with_flag_keeps n b q t pb rest : keeps' n b q t (or_lost (next_or_closed rest)) -> pb = wants_playback ->
  keeps' n b q (gobind t (fun f => done (Ret (f, pb)))) (or_lost (after_video rest)).
Proof.
  intros Ht Hpb. apply keeps_gobind. eapply keeps_mono; [|exact Ht].
  intros [f|e|] b' q' [->|Ho]; cbn [andThen]; apply keeps_done; try (by left); right; cbn in *; eauto; done.
Qed.

Lemma close_flag_keeps n b q reason rest : closes q reason = true ->
  keeps' n b q (gobind (close_conn reason) (fun f => done (Ret (f, false)))) (or_lost (after_video rest)).
Proof.
  intros Hc. apply keeps_gobind. unfold close_conn. apply keeps_do. intros x. exists Closed.
  assert (sstep q _ (CloseWithError reason) x = if closes q reason then Some Closed else None) as -> by (by destruct q).
  rewrite Hc. split; [done|]. apply keeps_done. cbn [andThen]. apply keeps_done. right. done.
Qed.

Definition rest_named : list (string * string) :=
  named (audioTrack spec_selection) "audio" ++ named (subsTrack spec_selection) "subs".

Lemma plan_Ret vs : plan_videos = Ret vs ->
  plan = Ret (((fun x => (x, media_of (videoTrack spec_selection) x)) <$> vs) ++ rest_named).
Proof. intros Hv. unfold plan. by rewrite Hv. Qed.

(** The names of the video tracks. *)
Lemma video_tracks_keeps n b : is_empty (videoTrack spec_selection) = false ->
  keeps' n b Scan (video_tracks h (videoTrack spec_selection)) (or_lost (fun o q => q = Scan /\ o = plan_videos)).
Proof.
  intros Hv. unfold video_tracks, plan_videos. rewrite Hv. destruct (_ || _).
  - eapply (keeps_catalog_or_lost (fun _ => True)); [done|intros; by tame|]. apply keeps_done. by right.
  - apply keeps_done. by right.
Qed.

Lemma try_keeps {A : Type} n b q (t : prog (subE subJob) A) (Q : outcome A -> sphase -> Prop)
    {B : Type} (k : goerror + A -> prog (subE subJob) B) P :
  keeps' n b q t (or_lost Q) -> (forall r, tame anything (fun _ => True) (k r)) ->
  (forall m b' q' a, Q (Ret a) q' -> keeps' m b' q' (k (inr a)) (or_lost P)) ->
  (forall m b' q' e, Q (Err e) q' -> keeps' m b' q' (k (inl e)) (or_lost P)) ->
  (forall q', Q Panic q' -> P Panic q') ->
  keeps' n b q (gobind (try t) k) (or_lost P).
Proof.
  intros Ht Htame Hr He Hp. apply keeps_gobind. unfold try. apply keeps_bind. eapply keeps_mono; [|exact Ht].
  intros o b' q' [->|Ho].
  - destruct o; apply keeps_done; cbn [andThen]; try (apply (lost_any (fun _ => True)), Htame). apply keeps_done. by left.
  - destruct o; apply keeps_done; cbn [andThen]; [by apply Hr|by apply He|]. apply keeps_done. right. by apply Hp.
Qed.

Lemma handle_video_keeps n b st :
  keeps' n b Scan (handle_video h st (videoTrack spec_selection)) (or_lost (after_video rest_named)).
Proof.
  unfold handle_video. destruct (is_empty (videoTrack spec_selection)) eqn:Hv.
  { apply keeps_done. right. cbn. unfold wants_playback, todo. rewrite Hv. cbn [negb andb].
    unfold plan, plan_videos. by rewrite Hv. }
  apply (try_keeps _ _ _ _ (fun o q => q = Scan /\ o = plan_videos)); [by apply video_tracks_keeps|..].
  - intros r. unfold try, close_conn. tame.
  - intros m b' q' vs [-> Hvs]. symmetry in Hvs. pose proof (plan_Ret vs Hvs) as Hplan.
    assert (wants_playback = SimulatePlayback h || negb (is_empty (MetricsPath h))) as Hw
      by (unfold wants_playback; by rewrite Hv).
    rewrite <- Hw. destruct wants_playback eqn:Hwp.
    + apply (try_keeps _ _ _ _ (fun o q => q = Scan /\ o = (let! p := plan_playback in Ret (Some p)))).
      * eapply (keeps_catalog_or_lost (fun _ => True)); [done|intros; by tame|].
        unfold plan_playback. rewrite Hvs. cbn [obind]. destruct (newNativePlayback _ _ _ _ _ _ _);
          apply keeps_lift; cbn [andThen obind]; apply keeps_done; by right.
      * intros r. unfold close_conn. tame.
      * intros m' b2 q2 p [-> Hp]. destruct plan_playback as [p'|e|] eqn:Hpp; [|done..]. cbn in Hp. injection Hp as ->.
        apply keeps_do. intros []. exists (Subs (((fun x => (x, media_of (videoTrack spec_selection) x)) <$> vs) ++ rest_named)).
        split; [cbn; by rewrite Hpp, Hplan, Hwp, bool_decide_true|].
        apply with_flag_keeps; [|by rewrite Hwp]. rewrite <- Hwp. by apply subscribe_videos_keeps.
      * intros m' b2 q2 e [-> Hp]. apply close_flag_keeps. cbn. rewrite Hwp. by destruct plan_playback.
      * intros q2 [-> _]. by left.
    + apply keeps_lift. cbn [andThen]. apply with_flag_keeps; [|done].
      rewrite <- Hwp. apply subscribe_videos_keeps. unfold todo. by rewrite Hwp, Hplan.
  - intros m b' q' e [-> Hp]. apply close_flag_keeps. cbn. by rewrite <- Hp.
  - intros q' [-> _]. by left.
Qed.

Lemma subscribe_selected_keeps n b q st name mediaType rest : todo q = Some (named name mediaType ++ rest) ->
  keeps' n b q (subscribe_selected st wants_playback name mediaType) (or_lost (next_or_closed rest)).
Proof.
  unfold subscribe_selected, named. destruct (is_empty name); intros Hq; [by apply keeps_done; right|].
  by apply subscribe_or_close_keeps.
Qed.

Lemma finish_keeps n b q : todo q = Some [] ->
  keeps' n b q (if none_selected then gobind (perform (CloseWithError "no matching tracks found")) (fun _ => done (Ret tt))
                else perform WaitDone) (or_lost send).
Proof.
  intros Hq.
  destruct none_selected eqn:Hn.
  - apply keeps_do. intros x. exists Closed. split; [|apply keeps_done; right; cbn; auto].
    assert (sstep q _ (CloseWithError "no matching tracks found") x =
            if closes q "no matching tracks found" then Some Closed else None) as -> by (by destruct q).
    assert (closes q "no matching tracks found" = true) as ->; [|done].
    unfold closes. rewrite Hn, Hq. by destruct q.
  - destruct n; [done|]. cbn. intros []. exists Waiting. split; [|by apply keeps_done; right; cbn; auto].
    unfold sstep. rewrite Hq, Hn. by destruct q.
Qed.

(** One step of [handle_selection], and what follows. *)
Lemma next_keeps n b q (t : prog (subE subJob) flow) k rest :
  keeps' n b q t (or_lost (next_or_closed rest)) -> tame anything (fun _ => True) (k Next) ->
  (forall m b' q', todo q' = Some rest -> keeps' m b' q' (k Next) (or_lost send)) -> k Return = done (Ret tt) ->
  keeps' n b q (gobind t k) (or_lost send).
Proof.
  intros Ht Htame Hk Hr. apply keeps_gobind. eapply keeps_mono; [|exact Ht]. intros o b' q' [->|Ho].
  - apply (lost_any (fun _ => True)). destruct o as [[]|e|]; cbn [andThen]; [done|rewrite Hr; by apply tame_done|by apply tame_done..].
  - destruct o as [[]|e|]; cbn [andThen next_or_closed] in *; [by apply Hk| |done|].
    + rewrite Hr. apply keeps_done. right. cbn. auto.
    + apply keeps_done. right. cbn. auto.
Qed.

Lemma subscribe_selected_tame st pb name mediaType : tame anything noerr (subscribe_selected st pb name mediaType).
Proof. unfold subscribe_selected. tame. Qed.
#[local] Hint Resolve subscribe_selected_tame : tame.

Lemma handle_selection_keeps n b st : keeps' n b Scan (handle_selection h spec_selection st) (or_lost send).
Proof.
  unfold handle_selection. apply keeps_gobind. eapply keeps_mono; [|apply handle_video_keeps].
  intros o b' q [->|Ho].
  { apply (lost_any (fun _ => True)). destruct o; cbn [andThen]; tame. }
  destruct o as [[[] pb]|e|]; cbn [andThen after_video] in *;
    [|apply keeps_done; right; destruct Ho as [-> _]; cbn; auto|done|apply keeps_done; right; cbn; tauto].
  destruct Ho as [Ho ->]; [|done]. eapply next_keeps; [by apply subscribe_selected_keeps|tame| |done].
  intros m b2 q2 Hq2. eapply next_keeps; [apply subscribe_selected_keeps; by rewrite app_nil_r|tame| |done].
  intros m' b3 q3 Hq3. by apply finish_keeps.
Qed.

Lemma handle_catalog_keeps n mux : Forall (fun t => trName t <> EmptyString) (catTracks c) ->
  keeps' n true Scan (handle_catalog h mux) (or_lost send).
Proof.
  intros Hn. unfold handle_catalog. eapply (keeps_catalog_or_lost (fun _ => True)); [done|intros; by tame|].
  apply keeps_gobind. eapply keeps_mono; [|apply (go_through_keeps _ _ _ 0%nat); lia].
  rewrite drop_0, selection_spec by done. intros [[[sel st]|]|e|] b q Hq; cbn [andThen scanned] in *; [| |done|].
  - destruct Hq as [[-> ->]| ->]; [apply handle_selection_keeps|]. by eapply lost_any, handle_selection_tame.
  - apply keeps_done. destruct Hq as [[-> Hr]| ->]; [right|by left]. cbn. auto.
  - apply keeps_done. destruct Hq as [->| ->]; [right|by left]. cbn. auto.
Qed.
End Plan.

(** A subscriber whose catalog does not change goes through the tracks,
    subscribes to exactly the planned tracks, in their order, starts one
    reader for each, and stops only as specified; however it is answered, and
    however long it is observed. *)
Definition subscribes_as_planned {M : Mp4Types} {FL : @FragLib M} {CG : @CatLib M} {SM : @SubMp4 M FL} {DL : DrmLib}
    (h : subConfig) (c : Catalog) (t : prog (subE subJob) unit) : Prop :=
  forall (W : Type) (env : forall X, subE subJob X -> W -> X * W) (n : nat) (w : W) tr r,
    run env n w t = (tr, r) ->
    exists q, after (sstep h c) Scan tr = Some q /\
      match r with
      | Some r => q = SLost \/ send c r q
      | None => (n <= 2 * length tr + 1)%nat
      end.

(** C16. Once it has a catalog that stays the same, the subscriber subscribes
    to the video track that is selected after everything it depends on, then
    to the audio track, then to the subtitles, where the selected track of a
    role is the first whose name contains what is wanted; before each next
    subscription it has started the reader of the last one, with its media
    type and track; it never subscribes to anything else, and it closes the
    connection exactly for the reasons that the specification names. *)
Theorem handle_subscribes_as_planned {M : Mp4Types} {FL : @FragLib M} {CG : @CatLib M} {SM : @SubMp4 M FL} {DL : DrmLib}
    (h : subConfig) (c : Catalog) (mux : option CmafMux) :
  Forall (fun t => trName t <> EmptyString) (catTracks c) -> subscribes_as_planned h c (handle_catalog h mux).
Proof.
  intros Hn W env n w tr r Hr.
  destruct (keeps_run _ env n true w Scan _ _ tr r (handle_catalog_keeps h c n mux Hn) Hr) as (q & Hq & HP).
  exists q. split; [done|]. destruct r; [|done]. by destruct HP.
Qed.

(** A catalog with two spatial layers and an audio track; the video track
    wanted depends on the other one. *)
Definition plain_track (name role packaging : string) (deps : list string) : Track :=
  {| trName := name; trNamespace := ""; Packaging := packaging; LocmafVersion := "";
     IsLive := true; TargetLatency := None; Role := role; Label := "";
     RenderGroup := None; AltGroup := None; InitRef := ""; Dependencies := deps;
     TemporalID := None; SpatialID := None; trCodec := ""; Framerate := None;
     Timescale := None; Bitrate := None; Width := None; Height := None; SampleRate := None;
     ChannelConfig := ""; DisplayWidth := None; DisplayHeight := None; trLanguage := "";
     TrackDuration := None; EventType := ""; ParentName := "";
     trContentProtectionRefIDs := []; trAccessibility := [] |}.
Definition demo_catalog : Catalog :=
  mkCatalog "draft-01" None false []
    [plain_track "audio" "audio" "loc" []; plain_track "base" "video" "loc" [];
     plain_track "layer1" "video" "loc" ["base"%string]] [] [].
Definition demo_config : subConfig :=
  mkSubConfig ["cmsf/clear"%string] {["video"%string]} "layer" "" "" false "" false false "catalog" true false 0 0 "" true.

Lemma handle_subscribes_as_planned_witness :
  Forall (fun t => trName t <> EmptyString) (catTracks demo_catalog) /\
  subscribes_as_planned (SM := SubMp4Concrete) demo_config demo_catalog
    (handle_catalog (SM := SubMp4Concrete) demo_config None).
Proof.
  assert (Forall (fun t => trName t <> EmptyString) (catTracks demo_catalog)) as Hn by (repeat constructor; discriminate).
  split; [exact Hn|]. exact (handle_subscribes_as_planned demo_config demo_catalog None Hn).
Defined.

Example demo_plan : plan demo_config demo_catalog =
  Ret [("base", "video_dependency"); ("layer1", "video"); ("audio", "audio")]%string.
Proof. vm_compute. reflexivity. Qed.

(** A run in an environment where every call succeeds; request IDs count. *)
Definition obliging (c : Catalog) (X : Type) (e : subE subJob X) (w : Z) : X * Z :=
  match e in subE _ X return X * Z with
  | Subscribe _ => (inr (mkRemoteTrack w (Some (mkLocation 0 0))), w + 1)
  | Fetch _ => (inr (mkRemoteTrack w None), w + 1)
  | StartSession | CloseWithError _ | CloseTrack _ | WriteOut _ _ => (None, w)
  | ReadObject _ => (EOF, w)
  | GetCatalog => (Some c, w)
  | HttpPost _ kids => (inr (serve_clearkey "POST" (Ret kids)), w)
  | Now => (0, w)
  | SetCatalog _ | AddObject _ _ _ _ _ _ | LogSeq _ _ _ | Go _ | WaitDone => (tt, w)
  end.

Definition subscriptions (tr : list (obs (subE subJob))) : list string :=
  omap (fun o => match o with Obs (Subscribe name) _ => Some name | _ => None end) tr.

Example demo_run :
  let '(tr, r) := run (obliging demo_catalog) 40 2 (handle_catalog (SM := SubMp4Concrete) demo_config None) in
  subscriptions tr = ["base"; "layer1"; "audio"]%string /\ r = Some (Ret tt).
Proof. vm_compute. split; reflexivity. Qed.
