(* ===== verification/UpdateProps.v ===== *)
(** * Following the catalog, and reading a track

    What the goroutines of a subscriber do with the objects they read: the
    catalog goroutine applies every update after the joining fetch once and
    in order; a reading goroutine delivers every object, in order.  And how
    the catalog pointer that they share can fail. *)
From S2P Require Import Prelude Io Base64 GoFloat Media Catalog Loc Nalu Cc608 InitTrack Chunk Subtitle AssetOps CatalogGen Publisher Drm CencMux Playback Subscriber SubscriberProps.
Local Open Scope Z_scope.
Local Open Scope go_scope.

Section Updates.
Context {M : Mp4Types} {FL : @FragLib M} {CG : @CatLib M} {SM : @SubMp4 M FL} {DL : DrmLib} {PB : PubLib} {ML : MoqMILib}.

(** ** Catalog updates *)

(** The order of groups, and of objects within a group. *)
Definition beyond (largest : Location) (o : object) : bool :=
  (Group largest <? GroupID o) || (Group largest =? GroupID o) && (Object largest <? ObjectID o).

Lemma afterLocation_beyond o largest : afterLocation o largest = beyond largest o.
Proof.
  unfold afterLocation, beyond. rewrite !Z.gtb_ltb, (Z.eqb_sym (GroupID o)). destruct (Z.eqb_spec (Group largest) (GroupID o)) as [->|Hne];
    cbn [negb andb]; [by rewrite Z.ltb_irrefl|by rewrite orb_false_r].
Qed.

(** The catalog that an object of the subscription stands for: none when the
    joining fetch has covered it, or when it cannot be parsed. *)
Definition update (largest : Location) (o : object) : option Catalog :=
  if beyond largest o then
    match Unmarshal (objPayload o) with Ret c => Some (default emptyCatalog c) | _ => None end
  else None.

Definition objects_read (sub : Z) (tr : list (obs (subE subJob))) : list object :=
  omap (fun o => match o with
                 | Obs e x =>
                     match e in subE _ X return X -> option object with
                     | ReadObject s => fun x => match x with Got o => if s =? sub then Some o else None | _ => None end
                     | _ => fun _ => None
                     end x
                 end) tr.
Definition catalogs_set (tr : list (obs (subE subJob))) : list (option Catalog) :=
  omap (fun o => match o with Obs (SetCatalog c) _ => Some c | _ => None end) tr.

(** The protocol: what is read is set before the next read. *)
Inductive uphase := Reading (pending : option Catalog) | Ended | Done.

Definition ustep (sub : Z) (largest : Location) (q : uphase) (X : Type) (e : subE subJob X) : X -> option uphase :=
  match e in subE _ X return X -> option uphase with
  | ReadObject s => fun x =>
      match q with
      | Reading None =>
          if s =? sub then Some (match x with Got o => Reading (update largest o) | _ => Ended end) else None
      | _ => None
      end
  | SetCatalog c => fun _ =>
      match q with
      | Reading (Some c') => if bool_decide (c = Some c') then Some (Reading None) else None
      | _ => None
      end
  | GetCatalog => fun _ => match q with Reading None => Some q | _ => None end
  | WriteOut name _ => fun _ => match q with Reading None => if bool_decide (name = "catalog"%string) then Some q else None | _ => None end
  | CloseTrack s => fun _ => match q with Ended => if s =? sub then Some Done else None | _ => None end
  | _ => fun _ => None
  end.

Definition pending_of (q : uphase) : list Catalog := match q with Reading (Some c) => [c] | _ => [] end.

Lemma ustep_history sub largest tr : forall q q', after (ustep sub largest) q tr = Some q' ->
  Some <$> (pending_of q ++ omap (update largest) (objects_read sub tr)) =
  catalogs_set tr ++ (Some <$> pending_of q').
Proof.
  induction tr as [|[X e x] tr IH]; intros q q' Ha; [injection Ha as ->; cbn; by rewrite app_nil_r|].
  cbn [after] in Ha. apply bind_Some in Ha as (q1 & Hs & Ha). specialize (IH _ _ Ha).
  destruct e; cbn in Hs; try discriminate; destruct q as [[c0|]| |]; try discriminate; cbn; cbn in IH.
  - destruct (track =? sub); [|done]. injection Hs as <-. destruct x as [o| |e]; cbn in *; [|exact IH..].
    destruct (update largest o); exact IH.
  - destruct (track =? sub); [|done]. by injection Hs as <-.
  - by injection Hs as <-.
  - case_bool_decide; [|done]. injection Hs as <-. subst. cbn. f_equal. exact IH.
  - case_bool_decide; [|done]. by injection Hs as <-.
Qed.

Context (h : subConfig) (sub : Z) (largest : Location).
Abbreviation keepsU := (keeps (ustep sub largest)).

Definition idle (X : Type) (e : subE subJob X) : Prop :=
  match e with GetCatalog => True | WriteOut name _ => name = "catalog"%string | _ => False end.
Lemma idle_step q X (e : subE subJob X) x : Reading None = q -> idle X e -> exists q', ustep sub largest q X e x = Some q' /\ Reading None = q'.
Proof. intros <- He. destruct e; cbn in He; try done; cbn; subst; eauto. Qed.

Lemma update_round_keeps n b :
  keepsU n b (Reading None) (update_round h sub largest tt) (fun o b' q => match o with
    | Ret (inl _) => b' = true /\ q = Reading None
    | Ret (inr _) => q = Ended
    | Err _ => False
    | Panic => True
    end).
Proof.
  unfold update_round. apply keeps_do. intros x. cbn. rewrite Z.eqb_refl. eexists. split; [done|].
  destruct x as [o| |e]; [|by apply keeps_done..]. unfold update.
  rewrite afterLocation_beyond. destruct (beyond largest o); cbn [negb]; [|by apply keeps_done].
  apply keeps_gobind. unfold ignore, applyCatalog. apply keeps_bind.
  destruct (Unmarshal (objPayload o)) as [c|e|]; [|by apply keeps_lift; cbn [andThen]; repeat apply keeps_done..].
  apply keeps_lift. cbn [andThen]. apply keeps_do. intros [].
  eexists. split; [cbn; by rewrite bool_decide_true|].
  eapply keeps_mono; [|apply (keeps_tame idle _ (eq (Reading None)) idle_step _ (fun _ => True)); [|done]].
  - intros r b' q' (<- & _ & Hb). destruct r; apply keeps_done; cbn [andThen]; apply keeps_done; auto.
  - unfold log_catalog, the_catalog, deref, write_out. tame.
Qed.

(** How the goroutine ends. *)
Definition uends (r : outcome unit) (q : uphase) : Prop :=
  match r with Ret _ => q = Done | Err _ => False | Panic => True end.

Lemma catalogUpdates_keeps n : keepsU n true (Reading None) (catalogUpdates h sub largest) (fun r _ q => uends r q).
Proof.
  unfold catalogUpdates. apply keeps_gobind.
  apply (keeps_loop _ (fun _ q => q = Reading None)); [|done].
  intros m b [] q -> _. eapply keeps_mono; [|apply update_round_keeps].
  intros [[[]|[]]|e|] b' q' Hq; cbn [andThen]; [done| |done|by apply keeps_done].
  subst q'. apply keeps_do. intros x. exists Done. split; [cbn; by rewrite Z.eqb_refl|]. by apply keeps_done.
Qed.
End Updates.

(** C17. The catalog goroutine of the joining mode sets exactly the catalogs
    of the objects that it reads after the location covered by the fetch, in
    the order in which it reads them, skipping those that cannot be parsed:
    whatever happens and however long it is observed, at most the last one
    is still to be set, and none is when the goroutine has ended. *)
Theorem catalog_updates_in_order {M : Mp4Types} {FL : @FragLib M} {CG : @CatLib M} {SM : @SubMp4 M FL}
    (h : subConfig) (sub : Z) (largest : Location) (W : Type) (env : forall X, subE subJob X -> W -> X * W) (n : nat)
    (w : W) tr r :
  run env n w (catalogUpdates h sub largest) = (tr, r) ->
  exists pending, Some <$> omap (update largest) (objects_read sub tr) = catalogs_set tr ++ pending /\
    (length pending <= 1)%nat /\
    match r with
    | Some (Ret _) => pending = []
    | Some (Err _) => False
    | Some Panic => True
    | None => (n <= 2 * length tr + 1)%nat
    end.
Proof.
  intros Hr.
  destruct (keeps_run _ env n true w (Reading None) _ _ tr r (catalogUpdates_keeps h sub largest n) Hr) as (q & Hq & HP).
  apply ustep_history in Hq. exists (Some <$> pending_of q). split; [exact Hq|].
  split; [by destruct q as [[]| |]; cbn; lia|]. destruct r as [r|]; [|done]. destruct HP as [_ HP].
  destruct r; cbn in HP |- *; [by subst|done..].
Qed.

(** An environment that delivers a list of objects, then the end. *)
Definition replay (X : Type) (e : subE subJob X) (w : list object) : X * list object :=
  match e in subE _ X return X * list object with
  | ReadObject _ => match w with o :: w => (Got o, w) | [] => (EOF, []) end
  | Subscribe _ | Fetch _ => (inr (mkRemoteTrack 1 None), w)
  | StartSession | CloseWithError _ | CloseTrack _ | WriteOut _ _ => (None, w)
  | GetCatalog => (Some emptyCatalog, w)
  | HttpPost _ kids => (inr (serve_clearkey "POST" (Ret kids)), w)
  | Now => (0, w)
  | SetCatalog _ | AddObject _ _ _ _ _ _ | LogSeq _ _ _ | Go _ | WaitDone => (tt, w)
  end.

(** Two objects the fetch has covered, two updates, and one in between that
    is not a catalog. *)
Definition catalog_objects : list object :=
  [mkObject 0 0 [] [3]; mkObject 0 1 [] [3]; mkObject 0 2 [] [2]; mkObject 1 0 [] []; mkObject 1 1 [] [1]].

Definition update_run :=
  run replay 60 catalog_objects (catalogUpdates (SM := SubMp4Concrete) demo_config 1 (mkLocation 0 1)).

Example update_run_sets : catalogs_set (fst update_run) = [Some (numbered_catalog 2); Some (numbered_catalog 1)].
Proof. vm_compute. reflexivity. Qed.

Lemma catalog_updates_in_order_witness :
  exists pending,
    Some <$> omap (update (SM := SubMp4Concrete) (mkLocation 0 1)) (objects_read 1 (fst update_run)) =
      catalogs_set (fst update_run) ++ pending /\
    (length pending <= 1)%nat /\
    match snd update_run with
    | Some (Ret _) => pending = []
    | Some (Err _) => False
    | Some Panic => True
    | None => (60 <= 2 * length (fst update_run) + 1)%nat
    end.
Proof.
  apply (catalog_updates_in_order (SM := SubMp4Concrete) demo_config 1 (mkLocation 0 1) (list object) replay 60 catalog_objects).
  unfold update_run. apply surjective_pairing.
Defined.
