(* ===== verification/CencProps.v ===== *)
(** * Init data and keys, from the publisher to the subscriber

    Theorems that compose both ends: the init segment that the catalog
    carries is the one the subscriber decodes, and the license server, the
    catalog and the subscriber agree on a key. *)
From S2P Require Import Prelude Io Base64 GoFloat Media Timeline Catalog Loc Nalu Av1 Av1Props Cc608 InitTrack InitTrackProps Chunk Subtitle AssetOps CatalogGen Publisher Drm CencMux TrackProps Playback Subscriber SubscriberProps.
Local Open Scope Z_scope.
Local Open Scope go_scope.

Section Init.
Context {M : Mp4Types} {NL : @NaluLib M} {AL : @Av1Lib M} {CL : @CcLib M} {FL : @FragLib M} {SL : @SubLib M} {CG : @CatLib M}.

(** ** Init data *)
Lemma cmaf_tracks_entries ns prot g cts : forall ts ids ct, cmaf_tracks ns prot g cts = Ret (ts, ids) ->
  ct ∈ cts -> Protection ct = prot ->
  exists ts1 ids1, cmaf_entries ns g ct = Ret (ts1, ids1) /\ ts1 ⊆ ts /\ ids1 ⊆ ids.
Proof.
  induction cts as [|c0 cts IH]; intros ts ids ct Hr Hin Hprot; [by apply elem_of_nil in Hin|].
  cbn [cmaf_tracks] in Hr. apply elem_of_cons in Hin as [<-|Hin].
  - rewrite bool_decide_true in Hr by exact Hprot. cbn [negb] in Hr. open_chain.
    eexists _, _. split; [done|]. set_solver.
  - destruct (negb _); [by eapply IH|]. open_chain.
    destruct (IH _ _ ct ltac:(eassumption) Hin eq_refl) as (ts1 & ids1 & He & Ht & Hi).
    exists ts1, ids1. set_solver.
Qed.

Lemma cmaf_groups_entries ns prot gs : forall ts ids g ct, cmaf_groups ns prot gs = Ret (ts, ids) ->
  g ∈ gs -> ct ∈ Tracks g -> Protection ct = prot ->
  exists ts1 ids1, cmaf_entries ns (AltGroupID g) ct = Ret (ts1, ids1) /\ ts1 ⊆ ts /\ ids1 ⊆ ids.
Proof.
  induction gs as [|g0 gs IH]; intros ts ids g ct Hr Hg Hin Hp; [by apply elem_of_nil in Hg|].
  cbn [cmaf_groups] in Hr. open_chain. apply elem_of_cons in Hg as [<-|Hg].
  - destruct (cmaf_tracks_entries _ _ _ _ _ _ ct ltac:(eassumption) Hin eq_refl) as (ts1 & ids1 & He & Ht & Hi).
    exists ts1, ids1. set_solver.
  - destruct (IH _ _ g ct ltac:(eassumption) Hg Hin eq_refl) as (ts1 & ids1 & He & Ht & Hi).
    exists ts1, ids1. set_solver.
Qed.

Lemma media_fields_id ct codec audio t :
  trName (media_fields ct codec audio t) = trName t /\ Packaging (media_fields ct codec audio t) = Packaging t /\
  InitRef (media_fields ct codec audio t) = InitRef t.
Proof. unfold media_fields. destruct (is_type ct "video"); [done|]. by destruct (is_type ct "audio"). Qed.

(** Distinct IDs: the entry found is the one meant. *)
Lemma InitDataFor_unique c t id : NoDup (idID <$> InitDataList c) -> id ∈ InitDataList c -> InitRef t = idID id ->
  InitRef t <> EmptyString -> InitDataFor c (Some t) = (idData id, true).
Proof.
  intros Hnd Hin Hid Hne. unfold InitDataFor. rewrite bool_decide_false by done.
  destruct (list_find _ _) as [[i id']|] eqn:Hf.
  - apply list_find_Some in Hf as (Hi & Hid' & _). apply list_elem_of_lookup in Hin as [j Hj].
    assert (i = j) as ->; [|by simplify_eq].
    eapply (NoDup_lookup _ i j (idID id) Hnd); rewrite list_lookup_fmap; [rewrite Hi|rewrite Hj]; cbn; congruence.
  - apply list_find_None in Hf. rewrite Forall_forall in Hf. by destruct (Hf id Hin).
Qed.

Lemma calcCmafBitrate_track ct r ct' : calcCmafBitrate ct = Ret (r, ct') -> same_but_iv ct ct'.
Proof.
  unfold calcCmafBitrate. destruct (_ || _); [intros [= _ <-]; apply same_but_iv_refl|]. intros Hr. open_chain.
  by eapply GenCMAFChunk_track.
Qed.
Lemma calcLocmafBitrate_track ct r ct' : calcLocmafBitrate ct = Ret (r, ct') -> same_but_iv ct ct'.
Proof.
  unfold calcLocmafBitrate. destruct (_ || _); [intros [= _ <-]; apply same_but_iv_refl|]. intros Hr. open_chain.
  repeat case_match; simplify_out. all: eapply same_but_iv_trans; eapply GenLocmafChunk_track; eassumption.
Qed.

Lemma cmaf_entries_init ns g ct sd data ts ids :
  cmaf_entries ns g ct = Ret (ts, ids) -> SpecData ct = Some sd -> GenCMAFInitData sd = Ret data ->
  mkInitData ("init-" +:+ Name ct) "inline" (EncodeToString data) ∈ ids /\
  exists tc tl, tc ∈ ts /\ trName tc = Name ct /\ Packaging tc = "cmaf"%string /\ InitRef tc = "init-" +:+ Name ct /\
    tl ∈ ts /\ trName tl = Name ct +:+ LocmafTrackSuffix /\ Packaging tl = "locmaf"%string /\ InitRef tl = "init-" +:+ Name ct.
Proof.
  intros Hr Hsd Hd. unfold cmaf_entries in Hr. rewrite Hsd in Hr. rewrite Hd in Hr. cbn [owrap obind] in Hr.
  open_chain.
  match goal with
  | H1 : calcCmafBitrate ct = Ret (_, ?c1), H2 : calcLocmafBitrate ?c1 = Ret (_, ?c2) |- _ =>
      apply calcCmafBitrate_track in H1 as [iv1 ->]; apply calcLocmafBitrate_track in H2 as [iv2 ->]
  end.
  split; [by left|].
  match goal with |- context [_ ∈ [?x; ?y]] => exists x, y end.
  split_and!; try (by left) || (by right; left); by apply media_fields_id.
Qed.
End Init.

(** C5. The init data that the catalog refers to from a CMAF track, or from
    its LOCMAF twin, is the encoding of the init segment of the content track
    that they were made from: the subscriber that looks it up and decodes it
    gets exactly the bytes the publisher encoded. *)
Theorem init_data_reaches_subscriber {M : Mp4Types} {NL : @NaluLib M} {AL : @Av1Lib M} {CL : @CcLib M} {FL : @FragLib M}
    {SL : @SubLib M} {CG : @CatLib M} (a : Asset) (ns : string) (prot : ProtectionType) (now : Z) (c : Catalog)
    (g : TrackGroup) (ct : ContentTrack) (sd : CodecSpecificData) (data : bytes) :
  GenCMAFCatalogEntry a ns prot now = Ret c -> NoDup (idID <$> InitDataList c) ->
  g ∈ Groups a -> ct ∈ Tracks g -> Protection ct = prot -> SpecData ct = Some sd ->
  GenCMAFInitData sd = Ret data -> Forall is_byte data ->
  exists tc tl, tc ∈ catTracks c /\ trName tc = Name ct /\ Packaging tc = "cmaf"%string /\
    tl ∈ catTracks c /\ trName tl = Name ct +:+ LocmafTrackSuffix /\ Packaging tl = "locmaf"%string /\
    forall t, t = tc \/ t = tl -> exists s, InitDataFor c (Some t) = (s, true) /\ DecodeString s = Ret data.
Proof.
  intros Hc Hnd Hg Hct Hp Hsd Hd Hb. unfold GenCMAFCatalogEntry in Hc. open_chain. cbn [catTracks InitDataList] in *.
  destruct (cmaf_groups_entries _ _ _ _ _ g ct ltac:(eassumption) Hg Hct eq_refl) as (ts1 & ids1 & He & Hts & Hids).
  destruct (cmaf_entries_init _ _ _ _ _ _ _ He Hsd Hd) as (Hid & tc & tl & H1 & H2 & H3 & H4 & H5 & H6 & H7 & H8).
  exists tc, tl. split_and!; try done; try (apply elem_of_app; left; by apply Hts).
  intros t Ht. exists (EncodeToString data). split; [|by apply DecodeString_EncodeToString].
  apply (InitDataFor_unique _ t (mkInitData ("init-" +:+ Name ct) "inline" (EncodeToString data))); [done|..].
  - cbn. apply elem_of_app. left. by apply Hids.
  - cbn. by destruct Ht as [->| ->].
  - destruct Ht as [->| ->]; by rewrite ?H4, ?H8.
Qed.


(** An asset with one audio track, and its catalog. *)
Definition aac_data : AudioData (M := Mp4Concrete) := mkAudioData (M := Mp4Concrete) None (Some ([1; 2; 3] : bytes)) "mp4a.40.2" 48000 "2".
Definition long_aac : ContentTrack :=
  let t := timing_track "audio" "audio" 48000 1024 4 4096 in
  {| Name := Name t; ContentType := ContentType t; Language := Language t; SampleBitrate := SampleBitrate t;
     TimeScale := TimeScale t; Duration := Duration t; GopLength := GopLength t; SampleDur := SampleDur t;
     NrSamples := NrSamples t; LoopDur := LoopDur t; SampleBatch := 1; Samples := Samples t;
     SpecData := Some (AAC aac_data); Protection := ProtectionNone; contentProtectionRefIDs := [];
     cenc := None; ipd := None; currentIV := None; cc608 := None |}.
Definition aac_asset : Asset := mkAsset "test" [mkTrackGroup 1 [long_aac]] 2000 [] None None.
Definition aac_catalog : Catalog :=
  match GenCMAFCatalogEntry (NL := NaluConcrete) (FL := FragConcrete) aac_asset "cmsf/clear" ProtectionNone 7 with
  | Ret c => c
  | _ => mkCatalog "" None false [] [] [] []
  end.

Lemma init_data_reaches_subscriber_witness :
  exists tc tl, tc ∈ catTracks aac_catalog /\ trName tc = "audio"%string /\ Packaging tc = "cmaf"%string /\
    tl ∈ catTracks aac_catalog /\ trName tl = "audio_locmaf"%string /\ Packaging tl = "locmaf"%string /\
    forall t, t = tc \/ t = tl -> exists s, InitDataFor aac_catalog (Some t) = (s, true) /\ DecodeString s = Ret [1; 2; 3].
Proof.
  apply (init_data_reaches_subscriber (NL := NaluConcrete) (AL := Av1Concrete) (FL := FragConcrete)
    aac_asset "cmsf/clear" ProtectionNone 7 aac_catalog (mkTrackGroup 1 [long_aac]) long_aac (AAC aac_data) [1; 2; 3]).
  - vm_compute. reflexivity.
  - vm_compute. apply NoDup_singleton.
  - by left.
  - by left.
  - reflexivity.
  - reflexivity.
  - vm_compute. reflexivity.
  - do 3 (apply Forall_cons; split; [unfold is_byte; lia|]). apply Forall_nil. exact I.
Defined.

(** ** Keys *)
Lemma index_head {A : Type} (x : A) l : index (x :: l) 0 = Ret x.
Proof. done. Qed.

Section Key.
Context {J : Type} {M : Mp4Types} {FL : @FragLib M} {SM : @SubMp4 M FL} {DL : DrmLib}.

(** What [ParseCENCflags] makes of its arguments. *)
Lemma ParseCENCflags_Some scheme kidStr keyStr ivStr laURL drm kid u :
  ParseCENCflags scheme kidStr keyStr ivStr laURL = Ret (Some drm) ->
  UnpackKey kidStr = Ret kid -> NewUUIDFromString (hex_EncodeToString kid) = Ret u ->
  exists sid pssh key iv, NewUUIDFromString CommonSystemID = Ret sid /\
    drm = mkDRMInfo [mkContentProtection "1" [UUIDString u] scheme
                       (Some (mkDRMSystem (UUIDString sid) "" (Some (mkDRMService laURL "EME-1.0")) None None pssh))]
            (mkCENCInfo key iv) /\
    (if is_empty keyStr then key = u else UnpackKey keyStr = Ret key).
Proof.
  intros Hf Hk Hu. unfold ParseCENCflags in Hf. destruct (_ && _ && _); [done|]. destruct (is_empty laURL); [done|].
  rewrite Hk in Hf. cbn [owrap obind] in Hf. rewrite Hu in Hf. cbn [owrap obind] in Hf.
  destruct (_ && _); [done|]. destruct (_ && _); [done|]. destruct (hex_DecodeString ivStr) as [iv| |]; [|done..].
  destruct (_ && _); [done|]. unfold createClearKeyPssh in Hf. open_chain.
  eexists _, _, _, _. split; [eassumption|]. split; [reflexivity|].
  destruct (is_empty keyStr); [by simplify_out|by simplify_out].
Qed.

Context {W : Type} (env : forall X, subE J X -> W -> X * W) (c : Catalog).
Hypothesis same_catalog : forall w, fst (env _ GetCatalog w) = Some c.

Lemma runs_catalog {A : Type} w (k : Catalog -> prog (subE J) A) tr r w' :
  runs env (snd (env _ GetCatalog w)) (k c) tr r w' ->
  runs env w (gobind the_catalog k) (Obs GetCatalog (Some c) :: tr) r w'.
Proof.
  intros Hk. apply (runs_gobind _ _ _ _ [Obs GetCatalog (Some c)] (Ret c) (snd (env _ GetCatalog w))); [|exact Hk].
  unfold the_catalog. rewrite <- (same_catalog w) at 1. apply runs_do. rewrite same_catalog. apply runs_done.
Qed.

Lemma runs_wrap {A : Type} f args w (t : prog (subE J) A) tr o w' : runs env w t tr o w' ->
  runs env w (wrap f args t) tr (owrap f args o) w'.
Proof. intros Ht. unfold wrap. rewrite <- (app_nil_r tr). eapply runs_bind; [exact Ht|apply runs_done]. Qed.

Hypothesis served : forall url kids w, fst (env _ (HttpPost url kids) w) = inr (serve_clearkey "POST" (Ret kids)).

Lemma requestClearKey_served url kids w :
  exists w', runs env w (requestClearKey url kids) [Obs (HttpPost url kids) (inr (serve_clearkey "POST" (Ret kids)))]
    (Ret ((fun kid => mkKeyInfo "oct" kid kid) <$> kids)) w'.
Proof.
  eexists. unfold requestClearKey. rewrite <- (served url kids w). apply runs_do. rewrite served. apply runs_done.
Qed.

(** A license for the key ID [u] is the key [u]. *)
Lemma setClearKey_served refID u cp laurl w :
  find_protection refID (catContentProtections c) = cp -> RefID cp <> EmptyString -> DefaultKIDs cp = [UUIDString u] ->
  laURL_of cp = Ret laurl -> UnpackKey (UUIDString u) = Ret u -> Forall is_byte u ->
  exists tr w', runs env w (setClearKeyDecryptionKey refID) tr (Ret u) w' /\
    Obs (HttpPost laurl [RawURL_EncodeToString u]) (inr (serve_clearkey "POST" (Ret [RawURL_EncodeToString u]))) ∈ tr.
Proof.
  intros Hcp Hne Hkids Hla Hun Hb.
  destruct (requestClearKey_served laurl [RawURL_EncodeToString u] (snd (env _ GetCatalog w))) as [w' Hreq].
  eexists _, _. split.
  - unfold setClearKeyDecryptionKey. apply runs_catalog. rewrite Hcp, Hkids. cbn [unpack_kids]. rewrite Hun.
    cbn [owrap obind unpack_kids app]. apply runs_lift. cbn [andThen]. rewrite bool_decide_false by done.
    apply runs_lift. rewrite Hla. cbn [andThen]. eapply runs_gobind; [apply runs_wrap, Hreq|].
    cbn [owrap andThen fmap list_fmap single_key K]. rewrite RawURL_DecodeString_EncodeToString by done. apply runs_done.
  - right. by left.
Qed.
End Key.

(** C18. With the ECCP flags of the publisher, the subscriber of a protected
    track asks the announced license URL for the key of the announced key ID,
    and the license server answers the key ID itself: the subscriber decrypts
    with that key, which is the key the publisher encrypts with exactly when
    no key was given, or one that equals the key ID. *)
Theorem eccp_key_reaches_subscriber {J : Type} {M : Mp4Types} {FL : @FragLib M} {SM : @SubMp4 M FL} {DL : DrmLib}
    {W : Type} (env : forall X, subE J X -> W -> X * W) (w : W) (scheme kidStr keyStr ivStr laURL initData : string)
    (drm : DRMInfo) (kid u b b' k : bytes) (info : DecryptInfo) (c : Catalog) (track : Track) (cenc : CENC) :
  ParseCENCflags scheme kidStr keyStr ivStr laURL = Ret (Some drm) ->
  UnpackKey kidStr = Ret kid -> NewUUIDFromString (hex_EncodeToString kid) = Ret u -> Forall is_byte u ->
  UnpackKey (UUIDString u) = Ret u -> (forall s, NewUUIDFromString CommonSystemID = Ret s -> UUIDString s = CommonSystemID) ->
  catContentProtections c = ContentProtections drm -> trContentProtectionRefIDs track = RefID <$> ContentProtections drm ->
  DecodeString initData = Ret b -> DecryptInit b = Ret (b', k, info) ->
  (forall w, fst (env _ GetCatalog w) = Some c) ->
  (forall url kids w, fst (env _ (HttpPost url kids) w) = inr (serve_clearkey "POST" (Ret kids))) ->
  exists tr cenc' w', runs env w (decryptInit cenc track initData) tr (Ret (cenc', EncodeToString b')) w' /\
    Obs (HttpPost laURL [RawURL_EncodeToString u]) (inr (serve_clearkey "POST" (Ret [RawURL_EncodeToString u]))) ∈ tr /\
    cKey cenc' = u /\ cDecryptInfo cenc' !! trName track = Some info /\
    (cKey cenc' = cencKey (drmCenc drm) <-> keyStr = EmptyString \/ UnpackKey keyStr = Ret u).
Proof.
  intros Hf Hk Hu Hb Hun Hsys Hcat Hrefs Hdec Hinit Hget Hpost.
  destruct (ParseCENCflags_Some _ _ _ _ _ _ _ _ Hf Hk Hu) as (sid & pssh & key & iv & Hsid & -> & Hkey).
  specialize (Hsys _ Hsid). cbn [ContentProtections RefID fmap list_fmap drmCenc cencKey] in *.
  destruct (setClearKey_served env c Hget Hpost "1" u _ laURL (snd (env _ GetCatalog w)) eq_refl) as (tr & w' & Hset & Hin);
    try (rewrite Hcat; done); try done.
  eexists _, _, w'. split; [|split; [|split; [|split]]].
  - unfold decryptInit. rewrite Hdec, Hrefs. apply runs_lift. cbn [owrap andThen]. rewrite Hinit. apply runs_lift.
    cbn [owrap andThen clear_key_ref]. eapply runs_gobind.
    + apply runs_catalog; [done|]. rewrite Hcat. apply runs_lift. rewrite index_head.
      cbn [andThen cpDRMSystem SystemID clear_key_ref]. rewrite Hsys, (bool_decide_true (CommonSystemID = CommonSystemID)) by done. apply runs_done.
    + cbn [andThen]. rewrite bool_decide_false by done.
      eapply runs_gobind; [apply runs_wrap, Hset|]. cbn [owrap andThen]. apply runs_done.
  - apply elem_of_app. right. apply elem_of_app. by left.
  - done.
  - cbn. apply lookup_insert_eq.
  - cbn. unfold is_empty in Hkey. case_bool_decide as He; [subst; tauto|]. rewrite Hkey. naive_solver.
Qed.

(** The flags with a key ID, and no key. *)
Definition demo_drm : option DRMInfo :=
  match ParseCENCflags "cbcs" "39112233445566778899aabbccddeeff" "" "41112233445566778899aabbccddeeff" "http://localhost:8081/clearkey" with
  | Ret d => d
  | _ => None
  end.
Definition protections_of (d : option DRMInfo) : list ContentProtection := match d with Some d => ContentProtections d | None => [] end.
Definition protected_track : Track :=
  {| trName := "video_eccp"; trNamespace := ""; Packaging := "cmaf"; LocmafVersion := "";
     IsLive := true; TargetLatency := None; Role := "video"; Label := "";
     RenderGroup := None; AltGroup := None; InitRef := ""; Dependencies := [];
     Catalog.TemporalID := None; Catalog.SpatialID := None; trCodec := ""; Framerate := None;
     Timescale := None; Bitrate := None; Width := None; Height := None; SampleRate := None;
     ChannelConfig := ""; DisplayWidth := None; DisplayHeight := None; trLanguage := "";
     TrackDuration := None; EventType := ""; ParentName := "";
     trContentProtectionRefIDs := ["1"%string]; trAccessibility := [] |}.
Definition protected_catalog : Catalog := mkCatalog "draft-01" None false [] [protected_track] [] (protections_of demo_drm).
Definition demo_kid : bytes := [57; 17; 34; 51; 68; 85; 102; 119; 136; 153; 170; 187; 204; 221; 238; 255].

Lemma eccp_key_reaches_subscriber_witness :
  exists drm, demo_drm = Some drm /\
  exists tr cenc' w', runs (obliging protected_catalog) 0
      (decryptInit (SM := SubMp4Concrete) (mkCENC [] ∅ ∅) protected_track (EncodeToString [1; 9])) tr
      (Ret (cenc', EncodeToString [1; 9])) w' /\
    Obs (HttpPost "http://localhost:8081/clearkey" [RawURL_EncodeToString demo_kid])
      (inr (serve_clearkey "POST" (Ret [RawURL_EncodeToString demo_kid]))) ∈ tr /\
    cKey cenc' = demo_kid /\ cDecryptInfo cenc' !! "video_eccp"%string = Some tt /\
    (cKey cenc' = cencKey (drmCenc drm) <-> EmptyString = EmptyString \/ UnpackKey EmptyString = Ret demo_kid).
Proof.
  destruct demo_drm as [drm|] eqn:Hd; [|exfalso; vm_compute in Hd; discriminate Hd].
  exists drm. split; [reflexivity|].
  assert (ParseCENCflags "cbcs" "39112233445566778899aabbccddeeff" "" "41112233445566778899aabbccddeeff"
            "http://localhost:8081/clearkey" = Ret (Some drm)) as Hf.
  { rewrite <- Hd. vm_compute. reflexivity. }
  apply (eccp_key_reaches_subscriber (SM := SubMp4Concrete) (obliging protected_catalog) 0 "cbcs"
    "39112233445566778899aabbccddeeff" "" "41112233445566778899aabbccddeeff" "http://localhost:8081/clearkey"
    (EncodeToString [1; 9]) drm demo_kid demo_kid [1; 9] [1; 9] [1] tt protected_catalog protected_track (mkCENC [] ∅ ∅)).
  - exact Hf.
  - vm_compute. reflexivity.
  - vm_compute. reflexivity.
  - do 16 (apply Forall_cons; split; [unfold is_byte; lia|]). apply Forall_nil. exact I.
  - vm_compute. reflexivity.
  - intros s Hs. vm_compute in Hs. injection Hs as <-. vm_compute. reflexivity.
  - unfold protected_catalog. cbn [catContentProtections]. rewrite Hd. reflexivity.
  - assert (protections_of demo_drm = ContentProtections drm) as <- by (rewrite Hd; reflexivity). vm_compute. reflexivity.
  - vm_compute. reflexivity.
  - vm_compute. reflexivity.
  - reflexivity.
  - reflexivity.
Defined.
