(* ===== verification/SubscriberFaults.v ===== *)
(** * How a subscriber can crash

    Runs of the subscriber that end with a panic: a nil catalog pointer, a
    catalog that gets shorter while its tracks are gone through, and a media
    type that the multiplexer has no time scale for. *)
From S2P Require Import Prelude Io Base64 GoFloat Media Catalog Loc Nalu Cc608 InitTrack Chunk Subtitle AssetOps CatalogGen Publisher Drm CencMux Playback Subscriber SubscriberProps.
Local Open Scope Z_scope.
Local Open Scope go_scope.

Section Faults.
Context {M : Mp4Types} {FL : @FragLib M} {CG : @CatLib M} {SM : @SubMp4 M FL} {DL : DrmLib} {PB : PubLib} {ML : MoqMILib}.
Context {W : Type} (env : forall X, subE subJob X -> W -> X * W).

(** An event answered by [x]. *)
Definition answers {X : Type} (e : subE subJob X) (x : X) : Prop := forall w, fst (env X e w) = x.

Lemma runs_answered {X A : Type} w (e : subE subJob X) x (k : X -> prog (subE subJob) A) P :
  answers e x -> (forall w, exists tr w', runs env w (k x) tr P w') -> exists tr w', runs env w (gobind (perform e) k) tr P w'.
Proof.
  intros He Hk. destruct (Hk (snd (env X e w))) as (tr & w' & Hr). eexists _, _. apply runs_do. rewrite He. exact Hr.
Qed.

Lemma runs_ends {A : Type} w (o : outcome A) : exists tr w', runs env w (done o) tr o w'.
Proof. eexists _, _. apply runs_done. Qed.

Lemma runs_then {A B : Type} w (t : prog (subE subJob) A) o (k : outcome A -> itree (subE subJob) B) r :
  (exists tr w', runs env w t tr o w') -> (forall w, exists tr w', runs env w (k o) tr r w') ->
  exists tr w', runs env w (ITreeDefinition.ITree.bind t k) tr r w'.
Proof.
  intros (tr & w' & Ht) Hk. destruct (Hk w') as (tr' & w'' & Hr). eexists _, _. eapply runs_bind; [exact Ht|exact Hr].
Qed.

Definition the_track : remoteTrack := mkRemoteTrack 1 None.

Lemma nil_catalog_panics w A (k : Catalog -> prog (subE subJob) A) : answers GetCatalog None ->
  exists tr w', runs env w (gobind the_catalog k) tr Panic w'.
Proof.
  intros Hn. apply (runs_then _ _ Panic); [|intros; apply runs_ends].
  unfold the_catalog. by apply (runs_answered _ _ None); [|intros; apply runs_ends].
Qed.

Lemma empty_track_ok h w : answers (Subscribe (CatalogTrack h)) (inr the_track) ->
  answers (Fetch (FetchTrack (CatalogTrack h))) (inr the_track) -> answers (ReadObject 1) EOF ->
  catalog_mode h = "fetch"%string \/ catalog_mode h = "subscribe"%string ->
  exists tr w', runs env w (try (retrieveCatalog h)) tr (Ret (inr tt)) w'.
Proof.
  intros Hs Hf Hr Hm. apply (runs_then _ _ (Ret tt)); [|intros; apply runs_ends]. unfold retrieveCatalog.
  destruct Hm as [-> | ->]; cbn [bool_decide decide]; repeat (rewrite bool_decide_false by done); rewrite ?bool_decide_true by done.
  - unfold fetchCatalog. apply (runs_answered _ _ (inr the_track)); [done|]. intros w1. cbn [RequestID the_track].
    apply (runs_answered _ _ EOF); [done|]. intros w2. apply (runs_then _ _ (Ret tt)); [apply runs_ends|]. intros w3.
    eexists _, _. apply runs_do, runs_done.
  - unfold subscribeToCatalog. apply (runs_answered _ _ (inr the_track)); [done|]. intros w1. cbn [RequestID the_track].
    apply (runs_answered _ _ EOF); [done|]. intros w2. eexists _, _. apply runs_do, runs_done.
Qed.
End Faults.

(** When the catalog track ends before its first object, the fetch and
    the subscribe mode report success without a catalog, and the subscriber
    panics on the nil pointer instead of closing the connection. *)
Theorem empty_catalog_track_panics {M : Mp4Types} {FL : @FragLib M} {CG : @CatLib M} {SM : @SubMp4 M FL} {DL : DrmLib}
    {W : Type} (env : forall X, subE subJob X -> W -> X * W) (h : subConfig) (mux : option CmafMux) (w : W) :
  answers env StartSession None -> answers env (Subscribe (CatalogTrack h)) (inr the_track) ->
  answers env (Fetch (FetchTrack (CatalogTrack h))) (inr the_track) -> answers env (ReadObject 1) EOF ->
  answers env GetCatalog None -> catalog_mode h = "fetch"%string \/ catalog_mode h = "subscribe"%string ->
  exists tr w', runs env w (handle h mux) tr Panic w'.
Proof.
  intros Ha Hs Hf Hr Hg Hm. unfold handle. apply (runs_answered _ _ _ None); [done|]. intros w1.
  apply (runs_then _ _ _ (Ret (inr tt))); [by apply empty_track_ok|]. intros w2. cbn [andThen].
  by apply nil_catalog_panics.
Qed.

(** The environment of [obliging] before any catalog was set. *)
Definition no_catalog (X : Type) (e : subE subJob X) (w : Z) : X * Z :=
  match e in subE _ X return X * Z with
  | Subscribe _ | Fetch _ => (inr the_track, w)
  | StartSession | CloseWithError _ | CloseTrack _ | WriteOut _ _ => (None, w)
  | ReadObject _ => (EOF, w)
  | GetCatalog => (None, w)
  | HttpPost _ kids => (inr (serve_clearkey "POST" (Ret kids)), w)
  | Now => (0, w)
  | SetCatalog _ | AddObject _ _ _ _ _ _ | LogSeq _ _ _ | Go _ | WaitDone => (tt, w)
  end.
Definition fetch_config : subConfig :=
  mkSubConfig ["cmsf/clear"%string] ∅ "" "" "" true "" false false "catalog" false false 0 0 "" true.

Lemma empty_catalog_track_panics_witness :
  exists tr w', runs no_catalog 0 (handle (SM := SubMp4Concrete) fetch_config None) tr Panic w'.
Proof.
  apply (empty_catalog_track_panics (SM := SubMp4Concrete) no_catalog fetch_config None 0).
  - intros w. reflexivity.
  - intros w. reflexivity.
  - intros w. reflexivity.
  - intros w. reflexivity.
  - intros w. reflexivity.
  - left. reflexivity.
Defined.

(** The tracks are gone through by their index in the catalog that the
    session started with, but each is taken from the catalog as it then is:
    an update that arrives in between and lists fewer tracks makes the
    subscriber panic. *)
Theorem shrinking_catalog_panics {M : Mp4Types} {FL : @FragLib M} {CG : @CatLib M} {SM : @SubMp4 M FL} {DL : DrmLib}
    {W : Type} (env : forall X, subE subJob X -> W -> X * W) (h : subConfig) (mux : option CmafMux) (w : W) (c1 c2 : Catalog) :
  env _ GetCatalog w = (Some c1, snd (env _ GetCatalog w)) ->
  fst (env _ GetCatalog (snd (env _ GetCatalog w))) = Some c2 -> catTracks c1 <> [] -> catTracks c2 = [] ->
  exists w', runs env w (handle_catalog h mux) [Obs GetCatalog (Some c1); Obs GetCatalog (Some c2)] Panic w'.
Proof.
  intros H1 H2 Hc1 Hc2. unfold handle_catalog, the_catalog. destruct (env _ GetCatalog w) as [x w1] eqn:He. cbn in H1, H2.
  injection H1 as ->. exists (snd (env _ GetCatalog w1)).
  apply (runs_gobind _ _ _ _ [Obs GetCatalog (Some c1)] (Ret c1) w1).
  { replace (Some c1) with (fst (env _ GetCatalog w)) at 1 by (by rewrite He). apply runs_do. rewrite He. apply runs_done. }
  cbn [andThen]. destruct (catTracks c1) as [|t ts]; [done|]. cbn [length go_through].
  apply (runs_gobind _ _ _ _ [Obs GetCatalog (Some c2)] Panic (snd (env _ GetCatalog w1)) []); [|apply runs_done].
  apply (runs_gobind _ _ _ _ [Obs GetCatalog (Some c2)] Panic (snd (env _ GetCatalog w1)) []); [|apply runs_done].
  unfold track_step, the_catalog. apply (runs_gobind _ _ _ _ [Obs GetCatalog (Some c2)] (Ret c2) (snd (env _ GetCatalog w1)) []).
  { replace (Some c2) with (fst (env _ GetCatalog w1)) at 1. apply runs_do. rewrite H2. apply runs_done. }
  cbn [andThen]. apply runs_lift. rewrite Hc2. apply runs_done.
Qed.

(** The multiplexer has time scales for video and audio only: once both init
    segments are muxed, the first sample of any other media type, such as
    subtitles, divides by zero. *)
Theorem muxed_subtitles_panic {J : Type} {M : Mp4Types} {FL : @FragLib M} {SM : @SubMp4 M FL} {W : Type}
    (env : forall X, subE J X -> W -> X * W) (w : W) (m : CmafMux) (sample : bytes) (mediaType : string) f frag frag' t :
  muxedInit m = true -> timeScales m !! mediaType = None ->
  DecodeFileSR sample = Ret f -> fileSegments f = [[frag]] -> setFragmentID (trackIDs mediaType) frag = Some frag' ->
  BaseMediaDecodeTime frag' = Some t ->
  exists tr w', runs env w (MuxSample m sample mediaType) tr Panic w'.
Proof.
  intros Hm Hts Hf Hs Hid Ht. unfold MuxSample, timeScale. rewrite Hm, Hts, Hf. cbn [negb default].
  eexists _, _. apply runs_lift. cbn [andThen]. rewrite Hs. unfold deref. apply runs_lift. rewrite Hid. cbn [andThen].
  apply runs_do. apply runs_lift. rewrite Ht. cbn [andThen]. apply runs_lift. apply runs_done.
Qed.

Example muxed_subtitles :
  let m := mkMux (FL := FragConcrete) (SM := SubMp4Concrete) true ∅ {["video" := 1000; "audio" := 1000]}%string in
  snd (run (obliging demo_catalog) 9 0 (MuxSample m [2; 7] "subs")) = Some Panic.
Proof. vm_compute. reflexivity. Qed.
