(* ===== verification/Cmd.v ===== *)
(** * The programs: options, namespaces, connections

    [cmd/mlmpub/main.go], [cmd/mlmpub/handler.go], [cmd/mlmsub/main.go] and
    [cmd/mlmsub/handler.go]: how the publisher's options become the namespaces
    it serves, and the subscriber's options its configuration.  Flag parsing,
    TLS and signal handling are not modelled. *)
From S2P Require Import Prelude Io GoFloat Media Timeline Catalog Loc Nalu Av1 Cc608 InitTrack Chunk Subtitle AssetOps CatalogGen Publisher Drm CencMux Playback Subscriber.
From Stdlib Require Import Ascii.
Local Open Scope Z_scope.
Local Open Scope go_scope.

(** ** [parseLanguages] *)

(** [strings.Split] by the character [sep]. *)
Fixpoint Split (sep : ascii) (s cur : string) : list string :=
  match s with
  | EmptyString => [cur]
  | String c s => if bool_decide (c = sep) then cur :: Split sep s EmptyString else Split sep s (cur +:+ String c EmptyString)
  end.

Definition parseLanguages (s : string) : list string :=
  let s := TrimSpace s in
  if is_empty s then []
  else List.filter (fun p => negb (is_empty p)) (TrimSpace <$> Split (ascii_of_nat 44) s EmptyString).

(** ** The publisher *)
Record pubOptions := mkPubOptions {
  sidePort : Z; subsWvttLangs : string; subsStppLangs : string; cencKeyFlag : string; ivFlag : string; kidFlag : string;
  schemeFlag : string; laURLFlag : string; audioSampleBatch : Z; videoSampleBatch : Z; cc608Flag : bool; catalogDelay : Z
}.

(** The license URL that the catalog announces. *)
Definition license_url (opts : pubOptions) : string :=
  if is_empty (laURLFlag opts) && (sidePort opts >? 0)
  then "http://localhost:" +:+ pretty (sidePort opts) +:+ "/clearkey"
  else laURLFlag opts.

Section Publisher.
Context {M : Mp4Types} {NL : @NaluLib M} {AL : @Av1Lib M} {KL : @AudioLib M} {CL : @CcLib M} {FL : @FragLib M}
  {SL : @SubLib M} {PL : @ProtLib M} {CG : @CatLib M} {DL : DrmLib}.

(** A CMSF namespace with its catalog. *)
Definition cmsf_namespace (a : Asset) (name : string) (prot : ProtectionType) (now : Z) : outcome NamespaceEntry :=
  let! c := GenCMAFCatalogEntry a name prot now in Ret (mkNamespaceEntry [name] (Some c) "cmaf" ∅).

Definition optional_namespace (a : Asset) (info : option DRMInfo) (name : string) (prot : ProtectionType) (now : Z)
  : outcome (list NamespaceEntry) :=
  match info with
  | None => Ret []
  | Some _ => let! e := cmsf_namespace a name prot now in Ret [e]
  end.

(** The namespaces of [runServer], in their order. *)
Definition namespaces (a : Asset) (drm eccp : option DRMInfo) (scheme : string) (now : Z) : outcome (list NamespaceEntry) :=
  let! locCatalog := GenLOCCatalogEntry a now in
  let loc := match catTracks locCatalog with
             | [] => []
             | _ => [mkNamespaceEntry ["msf/clear"%string] (Some locCatalog) "loc" ∅]
             end in
  let! mi := match BuildMoqMITrackMap a with
             | Ret m => Ret [mkNamespaceEntry ["moq-mi/clear"%string] None "moqmi" m]
             | Err _ => Ret []
             | Panic => Panic
             end in
  let! clear := cmsf_namespace a "cmsf/clear" ProtectionNone now in
  let! d := optional_namespace a drm ("cmsf/drm-" +:+ scheme) ProtectionDRM now in
  let! e := optional_namespace a eccp ("cmsf/eccp-" +:+ scheme) ProtectionECCP now in
  Ret (loc ++ mi ++ [clear] ++ d ++ e).

(** [runServer] up to its handler.  [drmConfig] is the configuration file
    when a path is given, [entries] the directory of the asset, [now] the
    clock. *)
Definition publisher_handler (opts : pubOptions) (drmConfig : option (outcome (list DrmPackage)))
    (dirPath base : string) (entries : outcome (list DirEntry)) (now : Z) : outcome Handler :=
  let! drm := match drmConfig with
              | None => Ret None
              | Some config => let! d := ConfigureDRMFromFile config in Ret (Some d)
              end in
  let! eccp := ParseCENCflags (schemeFlag opts) (kidFlag opts) (cencKeyFlag opts) (ivFlag opts) (license_url opts) in
  let! asset := LoadAssetWithProtection dirPath base entries (audioSampleBatch opts) (videoSampleBatch opts) drm eccp in
  let asset := AddSubtitleTracks asset (parseLanguages (subsWvttLangs opts)) (parseLanguages (subsStppLangs opts)) in
  let asset := if cc608Flag opts then SetCC608Generator asset (Some (New (mkConfig true 0 EmptyString None))) else asset in
  let! ns := namespaces asset drm eccp (schemeFlag opts) now in
  Ret (mkHandler ns asset (catalogDelay opts)).

(** How a QUIC connection is served, by its negotiated protocol. *)
Inductive serving := ServeWebTransport | ServeQUIC | CloseConnection (reason : string).
Definition serve_alpn (alpn : string) : serving :=
  if bool_decide (alpn = "h3"%string) then ServeWebTransport
  else if bool_decide (alpn = "moq-00"%string) || bool_decide (alpn = "moqt-16"%string) then ServeQUIC
  else CloseConnection "unsupported protocol".
End Publisher.

(** ** The subscriber *)
Inductive logLevel := LevelDebug | LevelInfo | LevelWarn | LevelError.
Definition parseLogLevel (level : string) : logLevel :=
  let l := ToLower level in
  if bool_decide (l = "debug"%string) then LevelDebug
  else if bool_decide (l = "info"%string) then LevelInfo
  else if bool_decide (l = "warning"%string) || bool_decide (l = "warn"%string) then LevelWarn
  else if bool_decide (l = "error"%string) then LevelError
  else LevelInfo.

Record subOptions := mkSubOptions {
  subAddr : string; sessionDuration : Z; draft : Z; muxout : string; videoOut : string; audioOut : string;
  subsOut : string; catalogOut : string; videoname : string; audioname : string; subsname : string;
  namespaceFlag : string; loglevel : string; fetchCatalogFlag : bool; catalogModeFlag : string; acceptAnyFlag : bool;
  discoverFlag : bool; catalogTrackFlag : string; subscribeDependenciesFlag : bool; simulatePlaybackFlag : bool;
  minimalBufferMS : Z; targetLatencyMS : Z; metricsPathFlag : string
}.

(** [strings.Fields], of the white space of ASCII. *)
Fixpoint Fields (s cur : string) : list string :=
  match s with
  | EmptyString => if is_empty cur then [] else [cur]
  | String c s =>
      if is_space c then (if is_empty cur then Fields s EmptyString else cur :: Fields s EmptyString)
      else Fields s (cur +:+ String c EmptyString)
  end.

Definition sub_namespace (flag : string) : list string :=
  match Fields flag EmptyString with [] => [flag] | ns => ns end.

(** The outputs that are configured; a file that cannot be created ends the
    program. *)
Definition outNames (opts : subOptions) : list (string * string) :=
  [("mux", muxout opts); ("video", videoOut opts); ("audio", audioOut opts); ("subs", subsOut opts);
   ("catalog", catalogOut opts)]%string.
Definition configured (opts : subOptions) : gset string :=
  list_to_set (fst <$> List.filter (fun o => negb (is_empty (snd o))) (outNames opts)).

Definition alpn_of (draft : Z) : string := if draft =? 16 then "moqt-16" else "moq-00".

Definition Millisecond : Z := 1000000.

(** The handler that [runClient] makes. *)
Definition sub_config (opts : subOptions) : subConfig :=
  mkSubConfig (sub_namespace (namespaceFlag opts)) (configured opts) (videoname opts) (audioname opts) (subsname opts)
    (fetchCatalogFlag opts) (catalogModeFlag opts) (acceptAnyFlag opts) (discoverFlag opts) (catalogTrackFlag opts)
    (subscribeDependenciesFlag opts) (simulatePlaybackFlag opts) (i64 (minimalBufferMS opts * Millisecond))
    (i64 (targetLatencyMS opts * Millisecond)) (metricsPathFlag opts)
    (match parseLogLevel (loglevel opts) with LevelDebug | LevelInfo => true | _ => false end).

(** The check of the playback options, and the choice of the transport. *)
Definition check_options (opts : subOptions) : outcome unit :=
  if simulatePlaybackFlag opts && ((minimalBufferMS opts <? 0) || (targetLatencyMS opts <=? minimalBufferMS opts))
  then errorf "target-latency-ms must exceed non-negative minimal-buffer-ms" else Ret tt.
Definition useWebTransport (opts : subOptions) : bool := HasPrefix (subAddr opts) "https://".
