(* ===== verification/Protocol.v ===== *)
(** * Numbers and names of the protocol

    [src/deps/quic-go/internal/protocol]: encryption levels, packet and stream
    numbers, versions, connection IDs.  A packet number is sent as its lowest
    bytes; [DecodePacketNumber] finds it again from the largest one received.
    A connection ID is the list of its bytes: the array behind it is zero
    from its length on. *)
From S2P Require Import Prelude.

Local Open Scope Z_scope.
Local Open Scope go_scope.

Inductive EncryptionLevel := EncryptionInitial | EncryptionHandshake | Encryption0RTT | Encryption1RTT.

Definition MaxByteCount : Z := 2 ^ 62 - 1.
Definition MaxPacketBufferSize : Z := 1452.
Definition MinStreamFrameBufferSize : Z := 128.

Inductive Perspective := PerspectiveServer | PerspectiveClient.
Definition Opposite (p : Perspective) : Perspective :=
  match p with PerspectiveServer => PerspectiveClient | PerspectiveClient => PerspectiveServer end.

(** ** Packet numbers *)

Definition InvalidPacketNumber : Z := -1.

Definition DecodePacketNumber (length largest truncated : Z) : Z :=
  let expected := i64 (largest + 1) in
  let win := Z.shiftl 1 (length * 8) in
  let hwin := win / 2 in
  let mask := win - 1 in
  let candidate := Z.lor (Z.ldiff expected mask) truncated in
  if (candidate <=? i64 (expected - hwin)) && (candidate <? 2 ^ 62 - win) then i64 (candidate + win) else
  if (i64 (expected + hwin) <? candidate) && (win <=? candidate) then i64 (candidate - win) else candidate.

Definition PacketNumberLengthForHeader (pn largestAcked : Z) : Z :=
  let numUnacked := if largestAcked =? InvalidPacketNumber then i64 (pn + 1) else i64 (pn - largestAcked) in
  if numUnacked <? 2 ^ 15 then 2 else if numUnacked <? 2 ^ 23 then 3 else 4.

(** ** Streams *)

Inductive StreamType := StreamTypeUni | StreamTypeBidi.

Definition InvalidStreamID : Z := -1.
Definition MaxStreamCount : Z := 2 ^ 60.

Definition StreamID_of (s : Z) (stype : StreamType) (pers : Perspective) : Z :=
  if s =? 0 then InvalidStreamID else
  let first := match stype, pers with
    | StreamTypeBidi, PerspectiveClient => 0
    | StreamTypeBidi, PerspectiveServer => 1
    | StreamTypeUni, PerspectiveClient => 2
    | StreamTypeUni, PerspectiveServer => 3
    end in
  i64 (first + i64 (4 * i64 (s - 1))).

Definition InitiatedBy (s : Z) : Perspective :=
  if Z.rem s 2 =? 0 then PerspectiveClient else PerspectiveServer.

Definition Type_of (s : Z) : StreamType := if 2 <=? Z.rem s 4 then StreamTypeUni else StreamTypeBidi.

Definition StreamNum_of (s : Z) : Z := i64 (Z.quot s 4 + 1).

#[global] Instance perspective_eq_dec : EqDecision Perspective.
Proof. solve_decision. Defined.
#[global] Instance stream_type_eq_dec : EqDecision StreamType.
Proof. solve_decision. Defined.
#[global] Instance encryption_level_eq_dec : EqDecision EncryptionLevel.
Proof. solve_decision. Defined.

(** ** Versions *)

Definition Version1 : Z := 0x1.
Definition Version2 : Z := 0x6b3343cf.
Definition SupportedVersions : list Z := [Version1; Version2].
Definition IsSupportedVersion (supported : list Z) (v : Z) : bool := bool_decide (v ∈ supported).

Fixpoint ChooseSupportedVersion (ours theirs : list Z) : Z * bool :=
  match ours with
  | [] => (0, false)
  | ourVer :: ours => if bool_decide (ourVer ∈ theirs) then (ourVer, true) else ChooseSupportedVersion ours theirs
  end.

(** [generateReservedVersion] from the random number it draws *)
Definition reservedVersion (random : Z) : Z := Z.land (Z.lor random 0x0a0a0a0a) 0xfafafafa.

(** [GetGreasedVersions], with the position and the number it draws *)
Definition GetGreasedVersions (randPos : nat) (random : Z) (supported : list Z) : list Z :=
  take randPos supported ++ [reservedVersion random] ++ drop randPos supported.

(** ** Connection IDs *)

Definition MaxConnIDLen : Z := 20.
Definition ErrInvalidConnectionIDLen : goerror := Errorf "invalid Connection ID length" [].

Definition ParseConnectionID (b : bytes) : outcome bytes :=
  if MaxConnIDLen <? len b then Panic else Ret b.

(** ** Lemmas *)

Lemma PacketNumberLengthForHeader_spec pn acked : 0 <= pn < 2 ^ 62 -> -1 <= acked < pn -> pn - acked < 2 ^ 31 ->
  let n := PacketNumberLengthForHeader pn acked in 2 <= n <= 4 /\ pn - acked < 2 ^ (8 * n - 1).
Proof.
  intros Hpn Hacked Hd. unfold PacketNumberLengthForHeader, InvalidPacketNumber.
  assert (Hu : (if acked =? -1 then i64 (pn + 1) else i64 (pn - acked)) = pn - acked).
  { destruct (Z.eqb_spec acked (-1)) as [->|]; rewrite i64_small by lia; lia. }
  cbn zeta. rewrite Hu. destruct (Z.ltb_spec (pn - acked) (2 ^ 15)); [split; [lia|]; exact H|].
  destruct (Z.ltb_spec (pn - acked) (2 ^ 23)) as [H'|H']; [split; [lia|]; exact H' | split; [lia|]; exact Hd].
Qed.

Lemma ldiff_lor_low e t n : 0 <= n -> 0 <= t < 2 ^ n ->
  Z.lor (Z.ldiff e (2 ^ n - 1)) t = e - e mod 2 ^ n + t.
Proof.
  intros Hn Ht. replace (2 ^ n - 1) with (Z.ones n) by (rewrite Z.ones_equiv; lia).
  rewrite Z.ldiff_ones_r by done. rewrite Z.lor_comm, Z.shiftl_mul_pow2, Z.shiftr_div_pow2 by done.
  rewrite <- Z.shiftl_mul_pow2, lor_disjoint_add by done.
  pose proof (Z.div_mod e (2 ^ n) ltac:(lia)). lia.
Qed.

(** The packet number is found again when it is in the window around the
    number that is expected next. *)
Lemma DecodePacketNumber_spec n largest pn : 1 <= n <= 4 -> -1 <= largest < 2 ^ 62 -> 0 <= pn < 2 ^ 62 ->
  largest + 1 - 2 ^ (8 * n - 1) < pn <= largest + 1 + 2 ^ (8 * n - 1) ->
  DecodePacketNumber n largest (pn mod 2 ^ (8 * n)) = pn.
Proof.
  intros Hn Hl Hpn Hwin. unfold DecodePacketNumber. rewrite Z.shiftl_1_l, (Z.mul_comm n 8).
  assert (Hpow : 2 ^ (8 * n) = 2 * 2 ^ (8 * n - 1)) by (rewrite <- Z.pow_succ_r by lia; f_equal; lia).
  pose proof (Z.pow_le_mono_r 2 (8 * n - 1) 31 ltac:(lia) ltac:(lia)) as Hw31.
  assert (Hpos : 0 < 2 ^ (8 * n - 1)) by (apply Z.pow_pos_nonneg; lia).
  rewrite (i64_small (largest + 1)) by lia. rewrite ldiff_lor_low by (try apply Z.mod_pos_bound; lia).
  replace (2 ^ (8 * n) / 2) with (2 ^ (8 * n - 1)) by (rewrite Hpow, (Z.mul_comm 2 (2 ^ (8 * n - 1))), Z.div_mul; lia).
  rewrite Hpow in *. set (h := 2 ^ (8 * n - 1)) in *.
  assert (Hmods : exists a b, largest + 1 = 2 * h * a + (largest + 1) mod (2 * h) /\
     pn = 2 * h * b + pn mod (2 * h) /\ 0 <= (largest + 1) mod (2 * h) < 2 * h /\ 0 <= pn mod (2 * h) < 2 * h).
  { exists ((largest + 1) / (2 * h)), (pn / (2 * h)). split; [apply Z.div_mod; lia|]. split; [apply Z.div_mod; lia|].
    split; apply Z.mod_pos_bound; lia. }
  destruct Hmods as (a & b & Ha & Hb & Hra & Hrb).
  set (x := (largest + 1) mod (2 * h)) in *. set (y := pn mod (2 * h)) in *.
  rewrite (i64_small (largest + 1 - h)), (i64_small (largest + 1 + h)) by lia.
  assert (Hab : pn = 2 * h * a + y - 2 * h \/ pn = 2 * h * a + y \/ pn = 2 * h * a + y + 2 * h).
  { assert (E : b = a - 1 \/ b = a \/ b = a + 1) by nia. destruct E as [E | [E | E]]; subst b; lia. }
  assert (Hrew : largest + 1 - x + y = 2 * h * a + y) by lia. rewrite Hrew. clear Hrew.
  generalize dependent (2 * h * a). intros A Ha Hab. clearbody x y h.
  destruct (Z.leb_spec (A + y) (largest + 1 - h)), (Z.ltb_spec (A + y) (2 ^ 62 - 2 * h)),
    (Z.ltb_spec (largest + 1 + h) (A + y)), (Z.leb_spec (2 * h) (A + y)); cbn [andb];
    try (rewrite i64_small by lia); lia.
Qed.

(** Stream numbers and stream IDs correspond. *)
Lemma StreamID_round_trip s stype pers : 1 <= s <= MaxStreamCount ->
  let id := StreamID_of s stype pers in
  0 <= id < 2 ^ 62 /\ StreamNum_of id = s /\ Type_of id = stype /\ InitiatedBy id = pers.
Proof.
  unfold MaxStreamCount. intros Hs. unfold StreamID_of, StreamNum_of, Type_of, InitiatedBy.
  rewrite (proj2 (Z.eqb_neq s 0)) by lia.
  assert (Hgo : forall f, 0 <= f < 4 -> i64 (f + i64 (4 * i64 (s - 1))) = f + 4 * (s - 1)).
  { intros f Hf. rewrite (i64_small (s - 1)), (i64_small (4 * (s - 1))) by lia. apply i64_small. lia. }
  assert (Hmod : forall f, 0 <= f < 4 -> Z.rem (f + 4 * (s - 1)) 4 = f /\ Z.quot (f + 4 * (s - 1)) 4 = s - 1 /\
    Z.rem (f + 4 * (s - 1)) 2 = f mod 2).
  { intros f Hf. rewrite !Z.rem_mod_nonneg, Z.quot_div_nonneg by lia.
    replace (f + 4 * (s - 1)) with (f + (s - 1) * 4) by lia. rewrite Z.mod_add, Z.div_add, Z.mod_small, Z.div_small by lia.
    split; [done|]. split; [lia|]. replace (f + (s - 1) * 4) with (f + ((s - 1) * 2) * 2) by lia. apply Z.mod_add. lia. }
  destruct stype, pers; cbn zeta; rewrite Hgo by lia; (split; [lia|]);
    match goal with |- context [?f + 4 * (s - 1)] => destruct (Hmod f ltac:(lia)) as (-> & -> & ->) end;
    (split; [rewrite i64_small by lia; lia | by split]).
Qed.
