(* ===== verification/Varint.v ===== *)
(** * Variable-length integers

    [src/deps/quic-go/quicvarint/varint.go], the number format of every QUIC
    and MoQ message: a value below 2^62 in 1, 2, 4 or 8 bytes, the length in
    the two highest bits of the first byte.  A slice that is too short is an
    error, a value that does not fit panics.  [encoding] is the abstract
    format; [Append_encoding] and [Parse_encoding] say that the writer and the
    parser implement it. *)
From S2P Require Import Prelude.

Local Open Scope Z_scope.
Local Open Scope go_scope.

(** [binary.BigEndian.Uint64] *)
Definition Uint64 (b : bytes) : outcome Z :=
  match b with
  | b0 :: b1 :: b2 :: b3 :: b4 :: b5 :: b6 :: b7 :: _ =>
      Ret (Z.lor (Z.lor (Z.lor (Z.lor (Z.lor (Z.lor (Z.lor b7 (Z.shiftl b6 8))
             (Z.shiftl b5 16)) (Z.shiftl b4 24)) (Z.shiftl b3 32)) (Z.shiftl b2 40))
             (Z.shiftl b1 48)) (Z.shiftl b0 56))
  | _ => Panic
  end.

Definition io_EOF : goerror := Errorf "EOF" [].
Definition io_ErrUnexpectedEOF : goerror := Errorf "unexpected EOF" [].

Module quicvarint.

Definition maxVarInt1 : Z := 63.
Definition maxVarInt2 : Z := 16383.
Definition maxVarInt4 : Z := 1073741823.
Definition maxVarInt8 : Z := 4611686018427387903.

(** [io.ByteReader] over the bytes that are left *)
Definition ReadByte (r : bytes) : outcome (Z * bytes) :=
  match r with b :: r => Ret (b, r) | [] => Err io_EOF end.

Definition Read (r : bytes) : outcome (Z * bytes) :=
  let! '(firstByte, r) := ReadByte r in
  let l := Z.shiftl 1 (Z.shiftr (Z.land firstByte 192) 6) in
  let b1 := Z.land firstByte (255 - 192) in
  if l =? 1 then Ret (b1, r) else
  let! '(b2, r) := ReadByte r in
  if l =? 2 then Ret (u64 (b2 + Z.shiftl b1 8), r) else
  let! '(b3, r) := ReadByte r in
  let! '(b4, r) := ReadByte r in
  if l =? 4 then Ret (u64 (b4 + Z.shiftl b3 8 + Z.shiftl b2 16 + Z.shiftl b1 24), r) else
  let! '(b5, r) := ReadByte r in
  let! '(b6, r) := ReadByte r in
  let! '(b7, r) := ReadByte r in
  let! '(b8, r) := ReadByte r in
  Ret (u64 (b8 + Z.shiftl b7 8 + Z.shiftl b6 16 + Z.shiftl b5 24 + Z.shiftl b4 32
            + Z.shiftl b3 40 + Z.shiftl b2 48 + Z.shiftl b1 56), r).

(** The value and the number of bytes consumed *)
Definition Parse (b : bytes) : outcome (Z * Z) :=
  match b with
  | [] => Err io_EOF
  | first :: _ =>
      match Z.shiftr first 6 with
      | 0 => Ret (Z.land first 63, 1)
      | 1 =>
          if len b <? 2 then Err io_ErrUnexpectedEOF else
          let! b1 := index b 1 in
          Ret (Z.lor b1 (Z.shiftl (Z.land first 63) 8), 2)
      | 2 =>
          if len b <? 4 then Err io_ErrUnexpectedEOF else
          let! b3 := index b 3 in
          let! b2 := index b 2 in
          let! b1 := index b 1 in
          Ret (Z.lor (Z.lor (Z.lor b3 (Z.shiftl b2 8)) (Z.shiftl b1 16))
                 (Z.shiftl (Z.land first 63) 24), 4)
      | 3 =>
          if len b <? 8 then Err io_ErrUnexpectedEOF else
          let! v := Uint64 b in
          Ret (Z.land v (Z.ones 62), 8)
      | _ => Panic
      end
  end.

Definition Append (b : bytes) (i : Z) : outcome bytes :=
  if i <=? maxVarInt1 then Ret (b ++ [u8 i]) else
  if i <=? maxVarInt2 then Ret (b ++ [Z.lor (u8 (Z.shiftr i 8)) 64; u8 i]) else
  if i <=? maxVarInt4 then
    Ret (b ++ [Z.lor (u8 (Z.shiftr i 24)) 128; u8 (Z.shiftr i 16); u8 (Z.shiftr i 8); u8 i]) else
  if i <=? maxVarInt8 then
    Ret (b ++ [Z.lor (u8 (Z.shiftr i 56)) 192; u8 (Z.shiftr i 48); u8 (Z.shiftr i 40);
               u8 (Z.shiftr i 32); u8 (Z.shiftr i 24); u8 (Z.shiftr i 16); u8 (Z.shiftr i 8); u8 i])
  else Panic.

Definition Len (i : Z) : outcome Z :=
  if i <=? maxVarInt1 then Ret 1 else
  if i <=? maxVarInt2 then Ret 2 else
  if i <=? maxVarInt4 then Ret 4 else
  if i <=? maxVarInt8 then Ret 8 else Panic.

(** The prefix of a length that is longer than needed *)
Definition length_prefix (length : Z) : bytes :=
  match length with 2 => [64] | 4 => [128] | 8 => [192] | _ => [] end.

Definition AppendWithLen (b : bytes) (i : Z) (length : Z) : outcome bytes :=
  if negb (length =? 1) && negb (length =? 2) && negb (length =? 4) && negb (length =? 8)
  then Panic else
  let! l := Len i in
  if l =? length then Append b i else
  if length <? l then Panic else
  Ret (b ++ length_prefix length
         ++ replicate (Z.to_nat (length - l - 1)) 0
         ++ map (fun j => u8 (Z.shiftr i (8 * (l - 1 - j)))) (seqZ 0 l)).

End quicvarint.

(** ** The format *)

(** The [n] bytes of [v], highest first *)
Fixpoint big_endian (n : nat) (v : Z) : bytes :=
  match n with O => [] | S n => v / 2 ^ (8 * Z.of_nat n) mod 256 :: big_endian n v end.

(** The lengths a number can have: the exponent of the length in bytes *)
Definition size_of (i : Z) : Z :=
  if i <? 2 ^ 6 then 0 else if i <? 2 ^ 14 then 1 else if i <? 2 ^ 30 then 2 else 3.

(** [i] in 2^k bytes, the tag [k] in the top two bits *)
Definition tagged (k i : Z) : bytes :=
  big_endian (Z.to_nat (2 ^ k)) (i + k * 2 ^ (8 * 2 ^ k - 2)).

Definition encoding (i : Z) : bytes := tagged (size_of i) i.

Definition is_varint (i : Z) : Prop := 0 <= i < 2 ^ 62.

(** ** Bytes as arithmetic *)

Lemma land_63 x : Z.land x 63 = x mod 64.
Proof. exact (Z.land_ones x 6 ltac:(lia)). Qed.

Lemma shiftr_div x n : 0 <= n -> Z.shiftr x n = x / 2 ^ n.
Proof. apply Z.shiftr_div_pow2. Qed.

(** A byte with tag [t] above the six bits of [x] *)
Lemma lor_tag x t : 0 <= x < 64 -> Z.lor x (Z.shiftl t 6) = x + t * 64.
Proof. intros. by rewrite lor_disjoint_add by lia. Qed.

(** The or of shifted bytes is their sum, innermost first. *)
Ltac sum_bytes tac :=
  repeat match goal with
  | |- context [Z.lor ?a (Z.shiftl ?b ?n)] =>
      lazymatch a with
      | context [Z.lor _ _] => fail
      | _ => rewrite (lor_disjoint_add a b n) by tac
      end
  end.

(** Reads the constant indices of an explicit slice. *)
Ltac indices :=
  repeat (erewrite (fun l i a H => proj2 (@index_Ret Z l i a) H); [| split; [lia | reflexivity]]).

Lemma u8_shiftr i n : 0 <= n -> u8 (Z.shiftr i n) = i / 2 ^ n mod 256.
Proof. intros. unfold u8, wrapu. by rewrite shiftr_div. Qed.

Lemma big_endian_length n v : length (big_endian n v) = n.
Proof. induction n; cbn; auto. Qed.

Lemma big_endian_bytes n v : Forall is_byte (big_endian n v).
Proof. induction n; cbn [big_endian]; constructor; [unfold is_byte; dlia | done]. Qed.

Lemma Uint64_sum b0 b1 b2 b3 b4 b5 b6 b7 rest :
  is_byte b0 -> is_byte b1 -> is_byte b2 -> is_byte b3 ->
  is_byte b4 -> is_byte b5 -> is_byte b6 -> is_byte b7 ->
  Uint64 (b0 :: b1 :: b2 :: b3 :: b4 :: b5 :: b6 :: b7 :: rest)
  = Ret (b7 + b6 * 2 ^ 8 + b5 * 2 ^ 16 + b4 * 2 ^ 24 + b3 * 2 ^ 32 + b2 * 2 ^ 40
         + b1 * 2 ^ 48 + b0 * 2 ^ 56).
Proof.
  unfold is_byte. intros. cbn [Uint64]. sum_bytes lia. done.
Qed.

Lemma big_endian_step v n : 0 <= n -> v / 2 ^ n = v / 2 ^ n mod 256 + 256 * (v / 2 ^ (n + 8)).
Proof.
  intros. rewrite Z.pow_add_r by lia.
  rewrite <- Z.div_div by lia. change (2 ^ 8) with 256. dlia.
Qed.

Lemma Uint64_big_endian v rest : 0 <= v < 2 ^ 64 -> Uint64 (big_endian 8 v ++ rest) = Ret v.
Proof.
  intros Hv. pose proof (big_endian_bytes 8 v) as Hb.
  cbn [big_endian app] in *.
  repeat match goal with H : Forall _ (_ :: _) |- _ => apply Forall_cons in H as [? H] end.
  rewrite Uint64_sum by done. f_equal.
  pose proof (big_endian_step v 0). pose proof (big_endian_step v 8).
  pose proof (big_endian_step v 16). pose proof (big_endian_step v 24).
  pose proof (big_endian_step v 32). pose proof (big_endian_step v 40).
  pose proof (big_endian_step v 48). pose proof (big_endian_step v 56).
  assert (v / 2 ^ (56 + 8) = 0) by (apply Z.div_small; lia).
  change (8 * Z.of_nat 7) with 56. change (8 * Z.of_nat 6) with 48.
  change (8 * Z.of_nat 5) with 40. change (8 * Z.of_nat 4) with 32.
  change (8 * Z.of_nat 3) with 24. change (8 * Z.of_nat 2) with 16.
  change (8 * Z.of_nat 1) with 8. change (8 * Z.of_nat 0) with 0.
  change (0 + 8) with 8 in *. change (8 + 8) with 16 in *. change (16 + 8) with 24 in *.
  change (24 + 8) with 32 in *. change (32 + 8) with 40 in *. change (40 + 8) with 48 in *.
  change (48 + 8) with 56 in *. change (56 + 8) with 64 in *.
  change (2 ^ 0) with 1 in *. rewrite !Z.div_1_r in *. lia.
Qed.

(** ** The parser *)

(** What a slice that starts with the [2^k] bytes of a tagged number parses to *)
Lemma Parse_tagged k i rest : 0 <= k <= 3 -> 0 <= i < 2 ^ (8 * 2 ^ k - 2) ->
  quicvarint.Parse (tagged k i ++ rest) = Ret (i, 2 ^ k).
Proof.
  intros Hk Hi. unfold tagged.
  assert (k = 0 \/ k = 1 \/ k = 2 \/ k = 3) as [-> | [-> | [-> | ->]]] by lia.
  - change (8 * 2 ^ 0 - 2) with 6 in *. change (Z.to_nat (2 ^ 0)) with 1%nat.
    cbn [big_endian app]. unfold quicvarint.Parse. change (2 ^ (8 * Z.of_nat 0)) with 1.
    replace ((i + 0 * 2 ^ 6) / 1 mod 256) with i by dlia.
    rewrite shiftr_div, Z.div_small by lia. by rewrite land_63, Z.mod_small by lia.
  - change (8 * 2 ^ 1 - 2) with 14 in *. change (Z.to_nat (2 ^ 1)) with 2%nat.
    set (v := i + 1 * 2 ^ 14). assert (Hv : v = i + 16384) by (unfold v; lia). clearbody v.
    cbn [big_endian app]. unfold quicvarint.Parse.
    rewrite shiftr_div by lia. change (8 * Z.of_nat 1) with 8. change (8 * Z.of_nat 0) with 0.
    replace (v / 2 ^ 8 mod 256 / 2 ^ 6) with 1 by dlia.
    rewrite (proj2 (Z.ltb_ge _ _)) by (unfold len; cbn; lia). indices. cbn [obind].
    rewrite land_63. sum_bytes dlia. do 2 f_equal. dlia.
  - change (8 * 2 ^ 2 - 2) with 30 in *. change (Z.to_nat (2 ^ 2)) with 4%nat.
    set (v := i + 2 * 2 ^ 30). assert (Hv : v = i + 2147483648) by (unfold v; lia). clearbody v.
    cbn [big_endian app]. unfold quicvarint.Parse.
    change (8 * Z.of_nat 3) with 24. change (8 * Z.of_nat 2) with 16.
    change (8 * Z.of_nat 1) with 8. change (8 * Z.of_nat 0) with 0.
    rewrite shiftr_div by lia.
    replace (v / 2 ^ 24 mod 256 / 2 ^ 6) with 2 by dlia.
    rewrite (proj2 (Z.ltb_ge _ _)) by (unfold len; cbn; lia). indices. cbn [obind].
    rewrite land_63. sum_bytes dlia. do 2 f_equal. dlia.
  - change (8 * 2 ^ 3 - 2) with 62 in *. change (Z.to_nat (2 ^ 3)) with 8%nat.
    set (v := i + 3 * 2 ^ 62).
    pose proof (Uint64_big_endian v rest ltac:(unfold v; lia)) as Hu.
    assert (Hv : v = i + 13835058055282163712) by (unfold v; lia). clearbody v.
    cbn [big_endian app] in *. unfold quicvarint.Parse. rewrite Hu.
    change (8 * Z.of_nat 7) with 56. rewrite shiftr_div by lia.
    replace (v / 2 ^ 56 mod 256 / 2 ^ 6) with 3 by dlia.
    rewrite (proj2 (Z.ltb_ge _ _)) by (unfold len; cbn; lia). cbn [obind].
    rewrite Z.land_ones by lia. repeat f_equal. dlia.
Qed.

(** ** The writer *)

Lemma size_of_range i : 0 <= size_of i <= 3.
Proof. unfold size_of. repeat case_match; lia. Qed.

Lemma size_of_fits i : is_varint i -> 0 <= i < 2 ^ (8 * 2 ^ size_of i - 2).
Proof.
  unfold is_varint, size_of. intros.
  destruct (Z.ltb_spec i (2 ^ 6)); [cbn; lia|]. destruct (Z.ltb_spec i (2 ^ 14)); [cbn; lia|].
  destruct (Z.ltb_spec i (2 ^ 30)); cbn; lia.
Qed.

(** [k] is the smallest size that holds [i]. *)
Lemma size_of_smallest k i : is_varint i -> 0 <= k -> 0 <= i < 2 ^ (8 * 2 ^ k - 2) -> size_of i <= k.
Proof.
  unfold is_varint. intros Hi Hk Hf. destruct (Z.le_gt_cases 3 k).
  { pose proof (size_of_range i). lia. }
  assert (k = 0 \/ k = 1 \/ k = 2) as [-> | [-> | ->]] by lia; cbn in Hf; unfold size_of;
    repeat case_match; lia.
Qed.

Ltac solve_bytes :=
  repeat match goal with |- _ :: _ = _ :: _ => f_equal | |- [] = [] => done end;
  change (8 * Z.of_nat 7) with 56; change (8 * Z.of_nat 6) with 48;
  change (8 * Z.of_nat 5) with 40; change (8 * Z.of_nat 4) with 32;
  change (8 * Z.of_nat 3) with 24; change (8 * Z.of_nat 2) with 16;
  change (8 * Z.of_nat 1) with 8; change (8 * Z.of_nat 0) with 0; dlia.

Lemma Append_encoding b i : is_varint i -> quicvarint.Append b i = Ret (b ++ encoding i).
Proof.
  unfold is_varint, quicvarint.Append, encoding, tagged, size_of. intros Hi.
  unfold quicvarint.maxVarInt1, quicvarint.maxVarInt2, quicvarint.maxVarInt4, quicvarint.maxVarInt8.
  destruct (Z.leb_spec i 63); [|destruct (Z.leb_spec i 16383);
    [|destruct (Z.leb_spec i 1073741823)]].
  - rewrite (proj2 (Z.ltb_lt _ _)) by lia.
    change (Z.to_nat (2 ^ 0)) with 1%nat. cbn [big_endian]. change (2 ^ (8 * Z.of_nat 0)) with 1.
    unfold u8, wrapu. do 3 f_equal. dlia.
  - rewrite (proj2 (Z.ltb_ge i (2 ^ 6))), (proj2 (Z.ltb_lt _ _)) by lia.
    change (Z.to_nat (2 ^ 1)) with 2%nat. cbn [big_endian].
    rewrite u8_shiftr by lia. change 64 with (Z.shiftl 1 6). rewrite lor_tag by dlia.
    unfold u8, wrapu. do 2 f_equal. solve_bytes.
  - rewrite (proj2 (Z.ltb_ge i (2 ^ 6))), (proj2 (Z.ltb_ge i (2 ^ 14))), (proj2 (Z.ltb_lt _ _)) by lia.
    change (Z.to_nat (2 ^ 2)) with 4%nat. cbn [big_endian].
    rewrite !u8_shiftr by lia. change 128 with (Z.shiftl 2 6). rewrite lor_tag by dlia.
    unfold u8, wrapu. do 2 f_equal. solve_bytes.
  - rewrite (proj2 (Z.leb_le i 4611686018427387903)) by lia.
    rewrite (proj2 (Z.ltb_ge i (2 ^ 6))), (proj2 (Z.ltb_ge i (2 ^ 14))), (proj2 (Z.ltb_ge i (2 ^ 30))) by lia.
    change (Z.to_nat (2 ^ 3)) with 8%nat. cbn [big_endian].
    rewrite !u8_shiftr by lia. change 192 with (Z.shiftl 3 6). rewrite lor_tag by dlia.
    unfold u8, wrapu. do 2 f_equal. solve_bytes.
Qed.

Lemma Append_too_large b i : 2 ^ 62 <= i -> quicvarint.Append b i = Panic.
Proof.
  intros. unfold quicvarint.Append, quicvarint.maxVarInt1, quicvarint.maxVarInt2,
    quicvarint.maxVarInt4, quicvarint.maxVarInt8.
  repeat case_match; try done; lia.
Qed.

Lemma encoding_length i : len (encoding i) = 2 ^ size_of i.
Proof.
  unfold encoding, tagged, len. rewrite big_endian_length.
  pose proof (size_of_range i). rewrite Z2Nat.id; [done | apply Z.pow_nonneg; lia].
Qed.

Lemma Len_encoding i : is_varint i -> quicvarint.Len i = Ret (len (encoding i)).
Proof.
  intros Hi. rewrite encoding_length. unfold is_varint in Hi. unfold quicvarint.Len, size_of,
    quicvarint.maxVarInt1, quicvarint.maxVarInt2, quicvarint.maxVarInt4, quicvarint.maxVarInt8.
  repeat case_match; try done; lia.
Qed.

Lemma Parse_encoding i rest : is_varint i ->
  quicvarint.Parse (encoding i ++ rest) = Ret (i, len (encoding i)).
Proof.
  intros Hi. rewrite encoding_length. apply Parse_tagged; [apply size_of_range | by apply size_of_fits].
Qed.

(** ** Longer encodings *)

Lemma big_endian_app n m v : 0 <= v ->
  big_endian (n + m) v = big_endian n (v / 2 ^ (8 * Z.of_nat m)) ++ big_endian m v.
Proof.
  intros Hv. induction n as [|n IH]; [done|]. cbn [Nat.add big_endian app]. rewrite IH. f_equal.
  rewrite Z.div_div by (apply Z.pow_nonzero || apply Z.pow_pos_nonneg; lia).
  rewrite <- Z.pow_add_r by lia. do 3 f_equal. lia.
Qed.

Lemma big_endian_above m v c : 0 <= c -> big_endian m (v + c * 2 ^ (8 * Z.of_nat m)) = big_endian m v.
Proof.
  intros Hc. assert (forall j, (j <= m)%nat ->
    big_endian j (v + c * 2 ^ (8 * Z.of_nat m)) = big_endian j v) as H; [|by apply H].
  induction j as [|j IH]; intros Hj; [done|]. cbn [big_endian]. rewrite IH by lia. f_equal.
  replace (8 * Z.of_nat m) with (8 * (Z.of_nat m - Z.of_nat j - 1) + 8 + 8 * Z.of_nat j) by lia.
  rewrite !Z.pow_add_r, !Z.mul_assoc by lia.
  rewrite Z.div_add by (apply Z.pow_nonzero; lia).
  change (2 ^ 8) with 256. by rewrite Z.mod_add.
Qed.

Lemma big_endian_zero n : big_endian n 0 = replicate n 0.
Proof. induction n as [|n IH]; cbn [big_endian replicate]; [done|]. by rewrite IH, Zdiv_0_l. Qed.

(** A number of [m] bytes padded to [1 + n + m] bytes with the tag in the
    first one *)
Lemma big_endian_pad n m k i : 0 <= k <= 3 -> 0 <= i < 2 ^ (8 * Z.of_nat m) ->
  big_endian (1 + (n + m)) (i + k * 2 ^ (8 * Z.of_nat (1 + (n + m)) - 2))
  = [k * 64] ++ replicate n 0 ++ big_endian m i.
Proof.
  intros Hk Hi.
  replace (k * 2 ^ (8 * Z.of_nat (1 + (n + m)) - 2))
    with (k * 64 * 2 ^ (8 * Z.of_nat n) * 2 ^ (8 * Z.of_nat m)).
  2:{ replace (8 * Z.of_nat (1 + (n + m)) - 2) with (6 + 8 * Z.of_nat n + 8 * Z.of_nat m) by lia.
      rewrite !Z.pow_add_r by lia. change (2 ^ 6) with 64. ring. }
  assert (0 < 2 ^ (8 * Z.of_nat m)) by (apply Z.pow_pos_nonneg; lia).
  assert (0 < 2 ^ (8 * Z.of_nat n)) by (apply Z.pow_pos_nonneg; lia).
  rewrite Nat.add_assoc, big_endian_app by nia. rewrite big_endian_above by nia.
  rewrite Z.div_add, (Z.div_small i) by lia.
  rewrite Z.add_0_l, big_endian_app, Z.div_mul by nia.
  pose proof (big_endian_above n 0 (k * 64) ltac:(lia)) as Ha. rewrite Z.add_0_l in Ha. rewrite Ha, big_endian_zero.
  cbn [big_endian app]. rewrite Z.div_1_r, Z.mod_small by lia. done.
Qed.

Lemma big_endian_shifts l i : map (fun j => u8 (Z.shiftr i (8 * (Z.of_nat l - 1 - j)))) (seqZ 0 (Z.of_nat l))
  = big_endian l i.
Proof.
  assert (forall m, map (fun j => u8 (Z.shiftr i (8 * (Z.of_nat (m + l) - 1 - j)))) (seqZ (Z.of_nat m) (Z.of_nat l))
    = big_endian l i) as H; [|exact (H 0%nat)].
  induction l as [|l IH]; intros m; [done|].
  rewrite Nat2Z.inj_succ, seqZ_cons by lia. cbn [map big_endian]. f_equal.
  - rewrite u8_shiftr by lia. do 3 f_equal. lia.
  - rewrite Z.pred_succ. rewrite <- (IH (S m)), Nat2Z.inj_succ. by rewrite Nat.add_succ_comm.
Qed.

Lemma AppendWithLen_tagged b i k : is_varint i -> size_of i <= k <= 3 ->
  quicvarint.AppendWithLen b i (2 ^ k) = Ret (b ++ tagged k i).
Proof.
  intros Hi Hk. unfold quicvarint.AppendWithLen.
  rewrite Len_encoding, encoding_length by done. cbn [obind].
  pose proof (size_of_range i). pose proof (size_of_fits i Hi) as Hf.
  destruct (Z.eq_dec (size_of i) k) as [<- | Hne].
  { rewrite Z.eqb_refl, Append_encoding by done. unfold encoding.
    assert (size_of i = 0 \/ size_of i = 1 \/ size_of i = 2 \/ size_of i = 3) as Hs by lia.
    by destruct Hs as [-> | [-> | [-> | ->]]]. }
  set (s := size_of i) in *. clearbody s.
  assert (1 <= 2 ^ s) by (pose proof (Z.pow_pos_nonneg 2 s); lia).
  assert (2 ^ s < 2 ^ k) by (apply Z.pow_lt_mono_r; lia).
  assert (0 <= i < 2 ^ (8 * 2 ^ s)).
  { split; [lia|]. apply Z.lt_trans with (2 ^ (8 * 2 ^ s - 2)); [lia | apply Z.pow_lt_mono_r; lia]. }
  pose proof (big_endian_pad (Z.to_nat (2 ^ k - 2 ^ s - 1)) (Z.to_nat (2 ^ s)) k i ltac:(lia)) as Hp.
  pose proof (big_endian_shifts (Z.to_nat (2 ^ s)) i) as Hsh.
  rewrite !Z2Nat.id in Hp, Hsh by lia. specialize (Hp ltac:(done)).
  rewrite Hsh. unfold tagged.
  replace (1 + (Z.to_nat (2 ^ k - 2 ^ s - 1) + Z.to_nat (2 ^ s)))%nat with (Z.to_nat (2 ^ k)) in Hp by lia.
  rewrite Z2Nat.id in Hp by lia. rewrite Hp.
  rewrite (proj2 (Z.eqb_neq (2 ^ s) (2 ^ k))), (proj2 (Z.ltb_ge (2 ^ k) (2 ^ s))) by lia.
  assert (k = 1 \/ k = 2 \/ k = 3) as [-> | [-> | ->]] by lia; done.
Qed.

(** ** Arbitrary input *)

Lemma Parse_total b : Forall is_byte b ->
  match quicvarint.Parse b with
  | Ret (v, l) => is_varint v /\ 1 <= l <= len b
  | Err e => e = io_EOF /\ b = [] \/ e = io_ErrUnexpectedEOF /\ b <> [] /\ len b < 8
  | Panic => False
  end.
Proof.
  intros Hb. destruct b as [|first b']; [by left|].
  assert (0 <= first < 256) as Hf by (apply Forall_cons in Hb as [? _]; done).
  assert (first / 64 = 0 \/ first / 64 = 1 \/ first / 64 = 2 \/ first / 64 = 3) as Hs by dlia.
  cbn [quicvarint.Parse]. set (b := first :: b') in *.
  assert (1 <= len b) by (subst b; unfold len; cbn; lia).
  rewrite shiftr_div by lia. change (2 ^ 6) with 64. rewrite !land_63.
  assert (Hi : forall i, 0 <= i < len b -> exists x, index b i = Ret x /\ is_byte x).
  { intros i Hi. destruct (index_in_range b i Hi) as [x Hx]. exists x. split; [done|].
    apply index_Ret in Hx as [_ Hx]. by apply (Forall_lookup_1 _ _ _ _ Hb Hx). }
  destruct Hs as [-> | [-> | [-> | ->]]]; unfold is_varint.
  - split; [dlia | lia].
  - destruct (Z.ltb_spec (len b) 2); [right; repeat split; [done|lia]|].
    destruct (Hi 1) as (b1 & -> & H1); [lia|]. cbn [obind]. unfold is_byte in *.
    sum_bytes dlia. split; [dlia | lia].
  - destruct (Z.ltb_spec (len b) 4); [right; repeat split; [done|lia]|].
    destruct (Hi 3) as (b3 & -> & H3); [lia|]. destruct (Hi 2) as (b2 & -> & H2); [lia|].
    destruct (Hi 1) as (b1 & -> & H1); [lia|]. cbn [obind]. unfold is_byte in *.
    sum_bytes dlia. split; [dlia | lia].
  - destruct (Z.ltb_spec (len b) 8); [right; repeat split; [done|lia]|].
    assert (exists v, Uint64 b = Ret v) as [v ->].
    { subst b. unfold len in *. cbn in *. do 7 (destruct b' as [|? b']; [cbn in *; lia|]). by eexists. }
    cbn [obind]. rewrite Z.land_ones by lia. split; [dlia | lia].
Qed.

(** One step of a parser on arbitrary bytes: a read in range, a guard, a
    read of a number *)
Ltac read_step :=
  match goal with
  | |- context [if ?c <? ?d then _ else _] => destruct (Z.ltb_spec c d)
  | H : Forall is_byte ?l |- context [index ?l ?i] =>
      let x := fresh "x" in let Hx := fresh "Hx" in let Hr := fresh "Hr" in
      destruct (index_total is_byte l i H ltac:(lia)) as (x & Hx & Hr); rewrite Hx; cbn [obind]; unfold is_byte in Hr
  | H : Forall is_byte ?l |- context [subslice ?l ?i ?j] =>
      let s := fresh "s" in let Hs := fresh "Hs" in
      destruct (subslice_total is_byte l i j H ltac:(lia) ltac:(lia)) as (s & Hs & ? & ?); rewrite Hs; cbn [obind]
  | H : Forall is_byte ?l |- context [slice_from ?l ?i] =>
      let s := fresh "s" in let Hs := fresh "Hs" in
      destruct (slice_from_total is_byte l i H ltac:(lia)) as (s & Hs & ? & ?); rewrite Hs; cbn [obind]
  | H : Forall is_byte ?l |- context [quicvarint.Parse ?l] =>
      let v := fresh "v" in let n := fresh "n" in
      let Hp := fresh "Hp" in
      pose proof (Parse_total l H) as Hp; destruct (quicvarint.Parse l) as [[v n]| |]; cbn [obind];
      [destruct Hp as [Hp ?]; unfold is_varint in Hp | done | done]
  end.

Ltac read_total := repeat (read_step; try done; try lia).

Ltac constant_shift :=
  repeat match goal with
  | |- context [Z.shiftl 1 ?e] =>
      is_ground e; let v := eval vm_compute in (Z.shiftl 1 e) in change (Z.shiftl 1 e) with v
  end.

(** One length of [Read_Parse]: the input is long enough, and explicit. *)
Ltac read_case Hb :=
  repeat match type of Hb with Forall _ (_ :: _) => apply Forall_cons in Hb as [? Hb] end;
  unfold is_byte in *;
  rewrite (proj2 (Z.ltb_ge _ _)) by (unfold len; cbn; lia); indices; cbn [obind];
  try (rewrite Uint64_sum by (unfold is_byte; dlia); cbn [obind]; rewrite Z.land_ones by lia);
  sum_bytes dlia; cbn [quicvarint.ReadByte obind Z.eqb Pos.eqb];
  rewrite !Z.shiftl_mul_pow2 by lia; do 2 f_equal; [rewrite u64_small by dlia; dlia ..].

(** [Read] takes the same numbers from a byte reader; where the input ends
    early it reports the reader's [io.EOF]. *)
Lemma Read_Parse b : Forall is_byte b ->
  quicvarint.Read b =
  match quicvarint.Parse b with
  | Ret (v, l) => Ret (v, drop (Z.to_nat l) b)
  | Err _ => Err io_EOF
  | Panic => Panic
  end.
Proof.
  intros Hb. destruct b as [|first b']; [done|].
  apply Forall_cons in Hb as [Hf Hb].
  assert (Hl : Z.shiftr (Z.land first 192) 6 = first / 64).
  { rewrite Z.shiftr_land, (shiftr_div first) by lia. change (Z.shiftr 192 6) with (Z.ones 2).
    rewrite Z.land_ones by lia. unfold is_byte in Hf. change (2 ^ 6) with 64. dlia. }
  unfold quicvarint.Read, quicvarint.Parse. cbn [quicvarint.ReadByte obind].
  rewrite Hl, (shiftr_div first) by lia. change (255 - 192) with 63. change (2 ^ 6) with 64. rewrite !land_63.
  assert (first / 64 = 0 \/ first / 64 = 1 \/ first / 64 = 2 \/ first / 64 = 3) as Hs
    by (unfold is_byte in Hf; dlia).
  destruct Hs as [-> | [-> | [-> | ->]]]; constant_shift.
  - done.
  - destruct b' as [|b1 b']; [done|]. read_case Hb.
  - do 3 (destruct b' as [|? b']; [done|]). read_case Hb.
  - do 7 (destruct b' as [|? b']; [done|]). read_case Hb.
Qed.

(** ** Properties *)

(** A value below 2^62 is written in its shortest encoding, of the
    length [Len] announces, or in any longer one that was asked for, and
    both the slice parser and the reader get it back, whatever follows. *)
Theorem varint_round_trip b i k rest :
  is_varint i -> size_of i <= k <= 3 ->
  quicvarint.Append b i = Ret (b ++ encoding i) /\
  quicvarint.Len i = Ret (len (encoding i)) /\
  quicvarint.Parse (encoding i ++ rest) = Ret (i, len (encoding i)) /\
  quicvarint.AppendWithLen b i (2 ^ k) = Ret (b ++ tagged k i) /\
  len (tagged k i) = 2 ^ k /\
  quicvarint.Parse (tagged k i ++ rest) = Ret (i, 2 ^ k) /\
  (Forall is_byte rest -> quicvarint.Read (encoding i ++ rest) = Ret (i, rest)).
Proof.
  intros Hi Hk. pose proof (size_of_range i). pose proof (size_of_fits i Hi) as Hf.
  repeat split_and!.
  - by apply Append_encoding.
  - by apply Len_encoding.
  - by apply Parse_encoding.
  - by apply AppendWithLen_tagged.
  - unfold tagged, len. rewrite big_endian_length, Z2Nat.id; [done | apply Z.pow_nonneg; lia].
  - apply Parse_tagged; [lia|]. split; [lia|]. eapply Z.lt_le_trans; [apply Hf|].
    apply Z.pow_le_mono_r; [lia|]. pose proof (Z.pow_le_mono_r 2 (size_of i) k). lia.
  - intros Hr. rewrite Read_Parse, Parse_encoding.
    + unfold len. by rewrite Nat2Z.id, drop_app_length.
    + done.
    + apply Forall_app. split; [apply big_endian_bytes | done].
Qed.

Lemma varint_round_trip_witness :
  quicvarint.Read (encoding 15293 ++ [1; 2]) = Ret (15293, [1; 2]) /\
  quicvarint.AppendWithLen [7] 37 4 = Ret [7; 128; 0; 0; 37].
Proof.
  destruct (varint_round_trip [7] 15293 1 [1; 2]) as (_ & _ & _ & _ & _ & _ & H); [done | done |].
  destruct (varint_round_trip [7] 37 2 []) as (_ & _ & _ & H2 & _); [done | done |].
  split; [apply H; repeat constructor; done | exact H2].
Defined.
