(* ===== verification/PacketHeader.v ===== *)
(** * Packet headers

    [src/deps/quic-go/internal/wire/header.go], [extended_header.go],
    [short_header.go] and [version_negotiation.go].  A parser that fails drops
    the header it began, except for an unsupported version, where the
    invariant part is still used: that error is returned beside the header. *)
From S2P Require Import Prelude Protocol Varint.

Local Open Scope Z_scope.
Local Open Scope go_scope.

Inductive PacketType := PacketTypeInitial | PacketTypeRetry | PacketTypeHandshake | PacketType0RTT.
Inductive KeyPhaseBit := KeyPhaseUndefined | KeyPhaseZero | KeyPhaseOne.

#[global] Instance packet_type_eq_dec : EqDecision PacketType.
Proof. solve_decision. Defined.

(** [Type] is [None] when the version is not known. *)
Record Header := {
  typeByte : Z;
  Type_ : option PacketType;
  Version : Z;
  SrcConnectionID : bytes;
  DestConnectionID : bytes;
  Length : Z;
  Token : bytes;
  hdrParsedLen : Z;
}.

Record ExtendedHeader := {
  header : Header;
  extTypeByte : Z;
  KeyPhase : KeyPhaseBit;
  PacketNumberLen : Z;
  PacketNumber : Z;
  parsedLen : Z;
}.

Definition ErrInvalidReservedBits : goerror := Errorf "invalid reserved bits" [].
Definition ErrUnsupportedVersion : goerror := Errorf "unsupported version" [].

(** ** Packet numbers *)

Definition Uint16 (b : bytes) : outcome Z :=
  let! b1 := index b 1 in let! b0 := index b 0 in Ret (Z.lor b1 (Z.shiftl b0 8)).

Definition readPacketNumber (data : bytes) (pnLen : Z) : outcome Z :=
  match pnLen with
  | 1 => index data 0
  | 2 => let! d := subslice data 0 2 in Uint16 d
  | 3 =>
      let! d2 := index data 2 in let! d1 := index data 1 in let! d0 := index data 0 in
      Ret (u32 (d2 + Z.shiftl d1 8 + Z.shiftl d0 16))
  | 4 => let! d := subslice data 0 4 in Ret (Uint32 d)
  | _ => Err (Errorf "invalid packet number length: %d" [pretty pnLen])
  end.

Definition appendPacketNumber (b : bytes) (pn pnLen : Z) : outcome bytes :=
  match pnLen with
  | 1 => Ret (b ++ [u8 pn])
  | 2 => Ret (b ++ [u8 (Z.shiftr (u16 pn) 8); u8 (u16 pn)])
  | 3 => Ret (b ++ drop 1 (PutUint32 (u32 pn)))
  | 4 => Ret (b ++ PutUint32 (u32 pn))
  | _ => Err (Errorf "invalid packet number length: %d" [pretty pnLen])
  end.

(** ** Long headers *)
Module hdr.

Definition IsPotentialQUICPacket (firstByte : Z) : bool := 0 <? Z.land firstByte 0x40.
Definition IsLongHeaderPacket (firstByte : Z) : bool := 0 <? Z.land firstByte 0x80.

Definition ParseConnectionID (data : bytes) (shortHeaderConnIDLen : Z) : outcome bytes :=
  match data with
  | [] => Err io_EOF
  | d0 :: _ =>
      if negb (IsLongHeaderPacket d0) then
        if len data <? shortHeaderConnIDLen + 1 then Err io_EOF else
        let! d := subslice data 1 (1 + shortHeaderConnIDLen) in Protocol.ParseConnectionID d
      else
      if len data <? 6 then Err io_EOF else
      let! destConnIDLen := index data 5 in
      if MaxConnIDLen <? destConnIDLen then Err ErrInvalidConnectionIDLen else
      if len data <? 6 + destConnIDLen then Err io_EOF else
      let! d := subslice data 6 (6 + destConnIDLen) in Protocol.ParseConnectionID d
  end.

(** The bytes parsed, the destination and the source *)
Definition ParseArbitraryLenConnectionIDs (data : bytes) : outcome (Z * bytes * bytes) :=
  let startLen := len data in
  if len data <? 6 then Err io_EOF else
  let! data := slice_from data 5 in
  let! destConnIDLen := index data 0 in
  let! data := slice_from data 1 in
  if len data <? destConnIDLen + 1 then Err io_EOF else
  let! destConnID := subslice data 0 destConnIDLen in
  let! data := slice_from data destConnIDLen in
  let! srcConnIDLen := index data 0 in
  let! data := slice_from data 1 in
  if len data <? srcConnIDLen then Err io_EOF else
  let! srcConnID := subslice data 0 srcConnIDLen in
  Ret (startLen - len data + srcConnIDLen, destConnID, srcConnID).

Definition ParseVersion (data : bytes) : outcome Z :=
  if len data <? 5 then Err io_EOF else let! v := subslice data 1 5 in Ret (Uint32 v).

Definition IsVersionNegotiationPacket (b : bytes) : bool :=
  match b with
  | b0 :: b1 :: b2 :: b3 :: b4 :: _ =>
      IsLongHeaderPacket b0 && (b1 =? 0) && (b2 =? 0) && (b3 =? 0) && (b4 =? 0)
  | _ => false
  end.

Definition Is0RTTPacket (b : bytes) : bool :=
  match b with
  | b0 :: b1 :: b2 :: b3 :: b4 :: _ =>
      if negb (IsLongHeaderPacket b0) then false else
      let version := Uint32 [b1; b2; b3; b4] in
      if version =? Version1 then Z.land (Z.shiftr b0 4) 3 =? 1 else
      if version =? Version2 then Z.land (Z.shiftr b0 4) 3 =? 2 else false
  | _ => false
  end.

Definition long_type (version typeByte : Z) : PacketType :=
  let t := Z.land (Z.shiftr typeByte 4) 3 in
  if version =? Version2 then
    match t with 0 => PacketTypeRetry | 1 => PacketTypeInitial | 2 => PacketType0RTT | _ => PacketTypeHandshake end
  else
    match t with 0 => PacketTypeInitial | 1 => PacketType0RTT | 2 => PacketTypeHandshake | _ => PacketTypeRetry end.

(** The token of an Initial packet *)
Definition parse_token (type : PacketType) (b : bytes) : outcome (bytes * bytes) :=
  match type with
  | PacketTypeInitial =>
      let! '(tokenLen, n) := quicvarint.Parse b in
      let! b := slice_from b n in
      if len b <? tokenLen then Err io_EOF else
      let! token := subslice b 0 tokenLen in
      let! b := slice_from b tokenLen in
      Ret (token, b)
  | _ => Ret ([], b)
  end.

(** The header but for its parsed length, that length, and the error that
    comes with a header *)
Definition parseLongHeader (typeByte : Z) (b : bytes) : outcome (Header * Z * option goerror) :=
  let startLen := len b in
  if len b <? 5 then Err io_EOF else
  let! v := subslice b 0 4 in
  let version := Uint32 v in
  if negb (version =? 0) && (Z.land typeByte 0x40 =? 0) then errorf "not a QUIC packet" else
  let! destConnIDLen := index b 4 in
  if MaxConnIDLen <? destConnIDLen then Err ErrInvalidConnectionIDLen else
  let! b := slice_from b 5 in
  if len b <? destConnIDLen + 1 then Err io_EOF else
  let! d := subslice b 0 destConnIDLen in
  let! dest := Protocol.ParseConnectionID d in
  let! srcConnIDLen := index b destConnIDLen in
  if MaxConnIDLen <? srcConnIDLen then Err ErrInvalidConnectionIDLen else
  let! b := slice_from b (destConnIDLen + 1) in
  if len b <? srcConnIDLen then Err io_EOF else
  let! sb := subslice b 0 srcConnIDLen in
  let! src := Protocol.ParseConnectionID sb in
  let! b := slice_from b srcConnIDLen in
  let h type length token :=
    {| typeByte := typeByte; Type_ := type; Version := version; SrcConnectionID := src; DestConnectionID := dest;
       Length := length; Token := token; hdrParsedLen := 0 |} in
  if version =? 0 then Ret (h None 0 [], startLen - len b, None) else
  if negb (IsSupportedVersion SupportedVersions version)
  then Ret (h None 0 [], startLen - len b, Some ErrUnsupportedVersion) else
  let type := long_type version typeByte in
  match type with
  | PacketTypeRetry =>
      let tokenLen := len b - 16 in
      if tokenLen <=? 0 then Err io_EOF else
      let! token := subslice b 0 tokenLen in
      Ret (h (Some type) 0 token, startLen - len b + tokenLen + 16, None)
  | _ =>
      let! '(token, b) := parse_token type b in
      let! '(pl, n) := quicvarint.Parse b in
      Ret (h (Some type) (i64 pl) token, startLen - len b + n, None)
  end.

Definition with_parsedLen (h : Header) (l : Z) : Header :=
  {| typeByte := typeByte h; Type_ := Type_ h; Version := Version h; SrcConnectionID := SrcConnectionID h;
     DestConnectionID := DestConnectionID h; Length := Length h; Token := Token h; hdrParsedLen := l |}.

Definition parseHeader (b : bytes) : outcome (Header * option goerror) :=
  match b with
  | [] => Err io_EOF
  | typeByte :: b =>
      let! '(h, l, err) := parseLongHeader typeByte b in Ret (with_parsedLen h (l + 1), err)
  end.

(** The header, the packet, what follows it, and the error that comes with a
    header *)
Definition ParsePacket (data : bytes) : outcome (Header * bytes * bytes * option goerror) :=
  match data with
  | [] => errorf "not a long header packet"
  | d0 :: _ =>
      if negb (IsLongHeaderPacket d0) then errorf "not a long header packet" else
      let! '(h, err) := parseHeader data in
      match err with
      | Some err => Ret (h, [], [], Some err)
      | None =>
          if len data <? i64 (hdrParsedLen h + Length h) then
            Err (Errorf "packet length (%d bytes) is smaller than the expected length (%d bytes)"
                   [pretty (len data - hdrParsedLen h); pretty (Length h)])
          else
          let packetLen := i64 (hdrParsedLen h + Length h) in
          let! packet := subslice data 0 packetLen in
          let! rest := slice_from data packetLen in
          Ret (h, packet, rest, None)
      end
  end.

(** [toExtendedHeader] and [parse]: the header, and if the reserved bits are
    valid *)
Definition parse_extended (h : Header) (data : bytes) : outcome (ExtendedHeader * bool) :=
  let! typeByte := index data 0 in
  let pnLen := Z.land typeByte 3 + 1 in
  let ext pn parsed :=
    {| header := h; extTypeByte := typeByte; KeyPhase := KeyPhaseUndefined; PacketNumberLen := pnLen;
       PacketNumber := pn; parsedLen := parsed |} in
  if len data <? i64 (hdrParsedLen h + pnLen) then Err io_EOF else
  let! rest := slice_from data (hdrParsedLen h) in
  match readPacketNumber rest pnLen with
  | Ret pn => Ret (ext pn (i64 (hdrParsedLen h + pnLen)), Z.land typeByte 0xc =? 0)
  | Err _ => Ret (ext 0 0, true)
  | Panic => Panic
  end.

Definition ParseExtended (h : Header) (data : bytes) : outcome (ExtendedHeader * option goerror) :=
  let! '(extHdr, reservedBitsValid) := parse_extended h data in
  Ret (extHdr, if reservedBitsValid then None else Some ErrInvalidReservedBits).

(** *** Writing *)

Definition packetType (v : Z) (t : option PacketType) : Z :=
  if v =? Version2 then
    match t with
    | Some PacketTypeInitial => 1 | Some PacketType0RTT => 2 | Some PacketTypeHandshake => 3 | _ => 0
    end
  else
    match t with
    | Some PacketTypeInitial => 0 | Some PacketType0RTT => 1 | Some PacketTypeHandshake => 2
    | Some PacketTypeRetry => 3 | None => 0
    end.

Definition Append (h : ExtendedHeader) (b : bytes) (v : Z) : outcome bytes :=
  let hd := header h in
  if MaxConnIDLen <? len (DestConnectionID hd)
  then Err (Errorf "invalid connection ID length: %d bytes" [pretty (len (DestConnectionID hd))]) else
  if MaxConnIDLen <? len (SrcConnectionID hd)
  then Err (Errorf "invalid connection ID length: %d bytes" [pretty (len (SrcConnectionID hd))]) else
  let firstByte := Z.lor 0xc0 (u8 (Z.shiftl (packetType v (Type_ hd)) 4)) in
  let firstByte :=
    if bool_decide (Type_ hd = Some PacketTypeRetry) then firstByte
    else Z.lor firstByte (u8 (PacketNumberLen h - 1)) in
  let b := b ++ [firstByte] ++ PutUint32 (u32 (Version hd))
             ++ [u8 (len (DestConnectionID hd))] ++ DestConnectionID hd
             ++ [u8 (len (SrcConnectionID hd))] ++ SrcConnectionID hd in
  match Type_ hd with
  | Some PacketTypeRetry => Ret (b ++ Token hd)
  | t =>
      let! b := (if bool_decide (t = Some PacketTypeInitial)
                 then let! b := quicvarint.Append b (len (Token hd)) in Ret (b ++ Token hd) else Ret b) in
      let! b := quicvarint.AppendWithLen b (u64 (Length hd)) 2 in
      appendPacketNumber b (PacketNumber h) (PacketNumberLen h)
  end.

Definition GetLength (h : ExtendedHeader) : outcome Z :=
  let hd := header h in
  let length := 1 + 4 + 1 + len (DestConnectionID hd) + 1 + len (SrcConnectionID hd) + PacketNumberLen h + 2 in
  if bool_decide (Type_ hd = Some PacketTypeInitial)
  then let! l := quicvarint.Len (len (Token hd)) in Ret (length + (l + len (Token hd)))
  else Ret length.

(** ** Short headers *)

(** The length, the packet number, its length, the key phase, and the error
    that comes with them *)
Definition ParseShortHeader (data : bytes) (connIDLen : Z)
    : outcome (Z * Z * Z * KeyPhaseBit * option goerror) :=
  match data with
  | [] => Err io_EOF
  | d0 :: _ =>
      if 0 <? Z.land d0 0x80 then errorf "not a short header packet" else
      if Z.land d0 0x40 =? 0 then errorf "not a QUIC packet" else
      let pnLen := Z.land d0 3 + 1 in
      if len data <? 1 + pnLen + connIDLen then Err io_EOF else
      let! d := slice_from data (1 + connIDLen) in
      let! pn := readPacketNumber d pnLen in
      let kp := if 0 <? Z.land d0 4 then KeyPhaseOne else KeyPhaseZero in
      let err := if negb (Z.land d0 0x18 =? 0) then Some ErrInvalidReservedBits else None in
      Ret (1 + connIDLen + pnLen, pn, pnLen, kp, err)
  end.

Definition AppendShortHeader (b : bytes) (connID : bytes) (pn pnLen : Z) (kp : KeyPhaseBit) : outcome bytes :=
  let typeByte := Z.lor 0x40 (u8 (pnLen - 1)) in
  let typeByte := match kp with KeyPhaseOne => Z.lor typeByte 4 | _ => typeByte end in
  appendPacketNumber (b ++ [typeByte] ++ connID) pn pnLen.

Definition ShortHeaderLen (dest : bytes) (pnLen : Z) : Z := 1 + len dest + pnLen.

(** ** Version negotiation *)

(** The loop over the versions; each takes four bytes. *)
Fixpoint parse_versions (b : bytes) : list Z :=
  match b with
  | b0 :: b1 :: b2 :: b3 :: b => Uint32 [b0; b1; b2; b3] :: parse_versions b
  | _ => []
  end.

Definition ParseVersionNegotiationPacket (b : bytes) : outcome (bytes * bytes * list Z) :=
  let! '(n, dest, src) := ParseArbitraryLenConnectionIDs b in
  let! b := slice_from b n in
  match b with
  | [] => errorf "Version Negotiation packet has empty version list"
  | _ =>
      if negb (len b mod 4 =? 0) then errorf "Version Negotiation packet has a version list with an invalid length"
      else Ret (dest, src, parse_versions b)
  end.

(** [ComposeVersionNegotiation], with the random numbers it draws *)
Definition ComposeVersionNegotiation (first : Z) (randPos : nat) (random : Z)
    (destConnID srcConnID : bytes) (versions : list Z) : bytes :=
  let greasedVersions := GetGreasedVersions randPos random versions in
  [Z.lor first 0xc0; 0; 0; 0; 0] ++ [u8 (len destConnID)] ++ destConnID ++ [u8 (len srcConnID)] ++ srcConnID
  ++ concat (map PutUint32 greasedVersions).

End hdr.
