(* ===== verification/PacketHeaderProps.v ===== *)
(** * Packet headers: what is written and read

    Of a long header the abstract content is [long_fields], of a packet number
    its lowest bytes.  The writers emit them, the parsers get them back from
    the front of a datagram and cut it at the right place, and no parser
    panics, whatever arrives. *)
From S2P Require Import Prelude Protocol Varint PacketHeader.

Local Open Scope Z_scope.
Local Open Scope go_scope.

(** ** Packet numbers *)

Ltac big_endian_bytes :=
  change (Z.to_nat 1) with 1%nat; change (Z.to_nat 2) with 2%nat; change (Z.to_nat 3) with 3%nat;
  change (Z.to_nat 4) with 4%nat; cbn [big_endian app];
  change (8 * Z.of_nat 3) with 24; change (8 * Z.of_nat 2) with 16; change (8 * Z.of_nat 1) with 8;
  change (8 * Z.of_nat 0) with 0; change (2 ^ 0) with 1.

Lemma appendPacketNumber_spec b pn n : 1 <= n <= 4 -> 0 <= pn ->
  appendPacketNumber b pn n = Ret (b ++ big_endian (Z.to_nat n) pn).
Proof.
  intros Hn Hpn. assert (n = 1 \/ n = 2 \/ n = 3 \/ n = 4) as [-> | [-> | [-> | ->]]] by lia;
    unfold appendPacketNumber, PutUint32, u8, u16, u32, wrapu; cbn [drop]; do 2 f_equal;
    rewrite ?shiftr_div by lia; big_endian_bytes; solve_bytes.
Qed.

Lemma readPacketNumber_spec pn n rest : 1 <= n <= 4 -> 0 <= pn ->
  readPacketNumber (big_endian (Z.to_nat n) pn ++ rest) n = Ret (pn mod 2 ^ (8 * n)).
Proof.
  intros Hn Hpn. pose proof (len_nonneg rest).
  pose proof (big_endian_step pn 0 ltac:(lia)). pose proof (big_endian_step pn 8 ltac:(lia)).
  pose proof (big_endian_step pn 16 ltac:(lia)). pose proof (big_endian_step pn 24 ltac:(lia)).
  assert (n = 1 \/ n = 2 \/ n = 3 \/ n = 4) as [-> | [-> | [-> | ->]]] by lia;
    unfold readPacketNumber.
  - big_endian_bytes. indices. f_equal. change (8 * 1) with 8. dlia.
  - replace 2 with (len (big_endian (Z.to_nat 2) pn)) at 2 by (unfold len; by rewrite big_endian_length).
    rewrite subslice_app by done. cbn [obind]. unfold Uint16. big_endian_bytes.
    indices. cbn [obind]. rewrite lor_disjoint_add by dlia. f_equal. change (8 * 2) with 16. dlia.
  - big_endian_bytes. indices. cbn [obind].
    rewrite !Z.shiftl_mul_pow2, u32_small by dlia. f_equal. change (8 * 3) with 24. dlia.
  - replace 4 with (len (big_endian (Z.to_nat 4) pn)) at 2 by (unfold len; by rewrite big_endian_length).
    rewrite subslice_app by done. cbn [obind]. big_endian_bytes.
    rewrite Uint32_sum by (unfold is_byte; dlia). f_equal. change (8 * 4) with 32. dlia.
Qed.

Lemma readPacketNumber_total data n : Forall is_byte data -> 1 <= n <= 4 -> n <= len data ->
  exists pn, readPacketNumber data n = Ret pn.
Proof.
  intros Hb Hn Hl.
  assert (Hi : forall i, 0 <= i < n -> exists x, index data i = Ret x) by (intros; apply index_in_range; lia).
  destruct (Hi 0 ltac:(lia)) as [x0 H0].
  assert (n = 1 \/ n = 2 \/ n = 3 \/ n = 4) as [-> | [-> | [-> | ->]]] by lia; unfold readPacketNumber.
  - eauto.
  - do 2 (destruct data as [|? data]; [unfold len in *; cbn in *; lia|]).
    rewrite subslice_Ret by (unfold len in *; cbn in *; lia). cbn. eauto.
  - destruct (Hi 1 ltac:(lia)) as [x1 ->], (Hi 2 ltac:(lia)) as [x2 ->]. rewrite H0. cbn. eauto.
  - rewrite subslice_Ret by lia. cbn. eauto.
Qed.

(** ** Long headers *)

Definition token_part (hd : Header) : bytes :=
  if bool_decide (Type_ hd = Some PacketTypeInitial) then encoding (len (Token hd)) ++ Token hd else [].

Definition first_byte (h : ExtendedHeader) : Z :=
  192 + 16 * hdr.packetType (Version (header h)) (Type_ (header h)) + (PacketNumberLen h - 1).

(** What follows the version *)
Definition long_fields (hd : Header) : bytes :=
  len (DestConnectionID hd) :: DestConnectionID hd ++ len (SrcConnectionID hd) :: SrcConnectionID hd ++
  token_part hd ++ tagged 1 (Length hd).

Definition long_bytes (h : ExtendedHeader) : bytes :=
  first_byte h :: PutUint32 (Version (header h)) ++ long_fields (header h) ++
  big_endian (Z.to_nat (PacketNumberLen h)) (PacketNumber h).

(** The headers of packets that have a packet number *)
Record valid_long (h : ExtendedHeader) (t : PacketType) : Prop := {
  vl_type : Type_ (header h) = Some t;
  vl_numbered : t <> PacketTypeRetry;
  vl_version : Version (header h) ∈ SupportedVersions;
  vl_dest : len (DestConnectionID (header h)) <= MaxConnIDLen;
  vl_src : len (SrcConnectionID (header h)) <= MaxConnIDLen;
  vl_token : Token (header h) = [] \/ t = PacketTypeInitial;
  vl_token_len : len (Token (header h)) < 2 ^ 62;
  vl_length : 0 <= Length (header h) < 2 ^ 14;
  vl_pn : 0 <= PacketNumber h;
  vl_pnLen : 1 <= PacketNumberLen h <= 4;
}.

Lemma supported_version v : v ∈ SupportedVersions -> v = Version1 \/ v = Version2.
Proof. unfold SupportedVersions. set_solver. Qed.

(** The first byte says the type and the length of the packet number. *)
Lemma first_byte_spec h t : valid_long h t ->
  Z.lor (Z.lor 0xc0 (u8 (Z.shiftl (hdr.packetType (Version (header h)) (Type_ (header h))) 4)))
    (u8 (PacketNumberLen h - 1)) = first_byte h /\
  hdr.long_type (Version (header h)) (first_byte h) = t /\
  Z.land (first_byte h) 3 + 1 = PacketNumberLen h /\ Z.land (first_byte h) 0xc = 0 /\
  Z.land (first_byte h) 0x40 = 0x40 /\ Z.land (first_byte h) 0x80 = 0x80.
Proof.
  intros H. unfold first_byte. rewrite (vl_type _ _ H). pose proof (vl_numbered _ _ H) as Hn.
  pose proof (vl_pnLen _ _ H).
  assert (PacketNumberLen h = 1 \/ PacketNumberLen h = 2 \/ PacketNumberLen h = 3 \/ PacketNumberLen h = 4)
    as Hp by lia.
  destruct (supported_version _ (vl_version _ _ H)) as [-> | ->], t; try done;
    destruct Hp as [-> | [-> | [-> | ->]]]; by vm_compute.
Qed.

Lemma Append_long h t b : valid_long h t ->
  hdr.Append h b (Version (header h)) = Ret (b ++ long_bytes h) /\ hdr.GetLength h = Ret (len (long_bytes h)).
Proof.
  intros H. destruct (first_byte_spec h t H) as [Hf _].
  pose proof (len_nonneg (Token (header h))). pose proof (vl_token_len _ _ H). pose proof (vl_length _ _ H).
  pose proof (vl_pnLen _ _ H). pose proof (vl_dest _ _ H). pose proof (vl_src _ _ H).
  pose proof (len_nonneg (DestConnectionID (header h))). pose proof (len_nonneg (SrcConnectionID (header h))).
  assert (HV : 0 <= Version (header h) < 2 ^ 32).
  { destruct (supported_version _ (vl_version _ _ H)) as [-> | ->]; done. }
  unfold hdr.Append, hdr.GetLength, MaxConnIDLen in *. cbv zeta.
  rewrite !(proj2 (Z.ltb_ge 20 _)) by done. rewrite (u32_small (Version _)), !(u8_small (len _)), (u64_small (Length _)) by lia.
  rewrite (bool_decide_false (Type_ _ = Some PacketTypeRetry)) by (rewrite (vl_type _ _ H); pose proof (vl_numbered _ _ H); congruence).
  rewrite Hf. split.
  - assert (Hgo : forall b', (let! b := quicvarint.AppendWithLen b' (Length (header h)) 2 in
        appendPacketNumber b (PacketNumber h) (PacketNumberLen h))
      = Ret (b' ++ tagged 1 (Length (header h)) ++ big_endian (Z.to_nat (PacketNumberLen h)) (PacketNumber h))).
    { intros b'. change 2 with (2 ^ 1) at 1. rewrite AppendWithLen_tagged; [cbn [obind] | unfold is_varint; lia |].
      - rewrite appendPacketNumber_spec by (try apply H; lia). by rewrite <- app_assoc.
      - split; [|lia]. unfold size_of. repeat case_match; lia. }
    pose proof (vl_type _ _ H) as Ht. pose proof (vl_numbered _ _ H).
    unfold long_bytes, long_fields, token_part. rewrite Ht.
    destruct t; try done; cbn [bool_decide decide_rel]; case_bool_decide; try done;
      rewrite ?Append_encoding by (unfold is_varint; lia); cbn [obind]; rewrite Hgo;
      f_equal; by flat_app.
  - assert (Hb : len (big_endian (Z.to_nat (PacketNumberLen h)) (PacketNumber h)) = PacketNumberLen h)
      by (unfold len; rewrite big_endian_length; lia).
    unfold long_bytes, long_fields, token_part.
    rewrite !len_cons, !len_app, !len_cons, !len_app, !len_cons, !len_app, Hb.
    change (len (PutUint32 _)) with 4. change (len (tagged 1 _)) with 2.
    case_bool_decide; rewrite ?Len_encoding by (unfold is_varint; lia); cbn [obind]; f_equal; rewrite ?len_app;
      change (len (@nil Z)) with 0; lia.
Qed.

(** What the parser makes of it *)
Definition parsed_header (h : ExtendedHeader) : Header :=
  {| typeByte := first_byte h; Type_ := Type_ (header h); Version := Version (header h);
     SrcConnectionID := SrcConnectionID (header h); DestConnectionID := DestConnectionID (header h);
     Length := Length (header h); Token := Token (header h);
     hdrParsedLen := len (long_bytes h) - PacketNumberLen h |}.

Lemma parse_token_spec hd t rest : Type_ hd = Some t -> Token hd = [] \/ t = PacketTypeInitial ->
  len (Token hd) < 2 ^ 62 -> hdr.parse_token t (token_part hd ++ rest) = Ret (Token hd, rest).
Proof.
  intros Ht Htok Hl. unfold token_part, hdr.parse_token. rewrite Ht. pose proof (len_nonneg (Token hd)).
  destruct t; cbn [bool_decide decide_rel]; case_bool_decide; try done;
    try (destruct Htok as [->|]; [done | done]).
  rewrite <- app_assoc, Parse_encoding by (unfold is_varint; lia). cbn [obind].
  rewrite slice_from_app by done. cbn [obind]. rewrite len_app. pose proof (len_nonneg rest).
  rewrite (proj2 (Z.ltb_ge _ _)), subslice_app by (done || lia). cbn [obind]. by rewrite slice_from_app.
Qed.

Lemma parseLongHeader_spec h t rest : valid_long h t ->
  hdr.parseLongHeader (first_byte h) (PutUint32 (Version (header h)) ++ long_fields (header h) ++ rest)
  = Ret (hdr.with_parsedLen (parsed_header h) 0, 4 + len (long_fields (header h)), None).
Proof.
  intros H. destruct (first_byte_spec h t H) as (_ & Hty & _ & _ & H40 & _).
  pose proof (vl_length _ _ H). pose proof (vl_dest _ _ H) as Hd. pose proof (vl_src _ _ H) as Hs.
  pose proof (vl_version _ _ H) as Hv. pose proof (vl_pnLen _ _ H).
  set (hd := header h) in *.
  pose proof (len_nonneg (DestConnectionID hd)). pose proof (len_nonneg (SrcConnectionID hd)).
  pose proof (len_nonneg rest). pose proof (len_nonneg (token_part hd)).
  assert (HV : 0 < Version hd < 2 ^ 32) by (destruct (supported_version _ Hv) as [-> | ->]; done).
  unfold hdr.parseLongHeader. cbv zeta.
  set (all := PutUint32 (Version hd) ++ long_fields hd ++ rest).
  assert (Hall : len all = 4 + len (long_fields hd) + len rest) by (unfold all; rewrite !len_app; change (len (PutUint32 _)) with 4; lia).
  assert (Hlf : len (long_fields hd) = 4 + len (DestConnectionID hd) + len (SrcConnectionID hd) + len (token_part hd)).
  { unfold long_fields. rewrite !len_cons, !len_app, len_cons, !len_app. change (len (tagged 1 _)) with 2. lia. }
  rewrite (proj2 (Z.ltb_ge (len all) 5)) by lia. unfold all at 1. rewrite subslice_app by done. cbn [obind].
  rewrite <- (app_nil_r (PutUint32 _)), Uint32_PutUint32 by lia. rewrite H40, (proj2 (Z.eqb_neq (Version hd) 0)) by lia.
  cbn [negb andb Z.eqb]. unfold MaxConnIDLen, Protocol.ParseConnectionID in *.
  unfold all at 1. unfold long_fields at 1. cbn [app]. rewrite (index_app (PutUint32 _)) by done. cbn [obind].
  rewrite (proj2 (Z.ltb_ge 20 _)) by done.
  unfold all at 1, long_fields at 1. flat_app.
  rewrite slice_from_app_cons by done. cbn [obind].
  assert (Hlr : forall x : bytes, 0 <= len x) by (intros; apply len_nonneg).
  rewrite len_app, len_cons, (proj2 (Z.ltb_ge _ _)) by (specialize (Hlr (SrcConnectionID hd ++ token_part hd ++ tagged 1 (Length hd) ++ rest)); lia).
  rewrite subslice_app by done. cbn [obind]. rewrite (proj2 (Z.ltb_ge 20 _)) by done. cbn [obind].
  rewrite index_app by done. cbn [obind]. rewrite (proj2 (Z.ltb_ge 20 _)) by done.
  rewrite slice_from_app_cons by done. cbn [obind]. rewrite len_app, (proj2 (Z.ltb_ge _ _)) by (specialize (Hlr (token_part hd ++ tagged 1 (Length hd) ++ rest)); lia).
  rewrite subslice_app by done. cbn [obind]. rewrite (proj2 (Z.ltb_ge 20 _)) by done. cbn [obind].
  rewrite slice_from_app by done. cbn [obind].
  assert (Hsup : IsSupportedVersion SupportedVersions (Version hd) = true) by (by apply bool_decide_true).
  rewrite Hsup, Hty. cbn [negb].
  rewrite (parse_token_spec hd t) by apply H. cbn [obind].
  rewrite Parse_tagged by (change (8 * 2 ^ 1 - 2) with 14; lia). cbn [obind].
  assert (Hlen : len all - len (tagged 1 (Length hd) ++ rest) + 2 ^ 1 = 4 + len (long_fields hd)).
  { rewrite len_app. change (len (tagged 1 _)) with 2. change (2 ^ 1) with 2. lia. }
  rewrite Hlen, i64_small by lia. unfold hdr.with_parsedLen, parsed_header. cbn. fold hd.
  pose proof (vl_type _ _ H) as Ht. pose proof (vl_numbered _ _ H). fold hd in Ht. rewrite Ht.
  by destruct t.
Qed.

Lemma long_bytes_len h : 1 <= PacketNumberLen h <= 4 ->
  len (long_bytes h) = 5 + len (long_fields (header h)) + PacketNumberLen h.
Proof.
  intros. unfold long_bytes. rewrite len_cons, !len_app. change (len (PutUint32 _)) with 4.
  unfold len at 2. rewrite big_endian_length. lia.
Qed.

Lemma long_bytes_small h t : valid_long h t -> len (long_bytes h) < 2 ^ 62 + 2 ^ 10.
Proof.
  intros H. pose proof (vl_pnLen _ _ H) as Hpn. rewrite long_bytes_len by done.
  unfold long_fields, token_part. rewrite !len_cons, !len_app, len_cons, !len_app. change (len (tagged 1 _)) with 2.
  pose proof (vl_dest _ _ H). pose proof (vl_src _ _ H). pose proof (vl_token_len _ _ H). unfold MaxConnIDLen in *.
  case_bool_decide; rewrite ?len_app; [|change (len (@nil Z)) with 0; lia].
  rewrite encoding_length. pose proof (size_of_range (len (Token (header h)))).
  pose proof (Z.pow_le_mono_r 2 (size_of (len (Token (header h)))) 3). lia.
Qed.

(** The front of a datagram is cut off as one packet. *)
Lemma ParsePacket_spec h t payload rest : valid_long h t -> len payload = Length (header h) - PacketNumberLen h ->
  hdr.ParsePacket (long_bytes h ++ payload ++ rest)
  = Ret (parsed_header h, long_bytes h ++ payload, rest, None).
Proof.
  intros H Hp. destruct (first_byte_spec h t H) as (_ & _ & _ & _ & _ & H80).
  pose proof (vl_pnLen _ _ H) as Hpn. pose proof (vl_length _ _ H). pose proof (long_bytes_len h Hpn) as Hl.
  pose proof (len_nonneg (long_fields (header h))). pose proof (len_nonneg rest). pose proof (long_bytes_small h t H).
  assert (Hdata : long_bytes h ++ payload ++ rest = first_byte h :: PutUint32 (Version (header h)) ++
    long_fields (header h) ++ (big_endian (Z.to_nat (PacketNumberLen h)) (PacketNumber h) ++ payload ++ rest)).
  { unfold long_bytes. by flat_app. }
  unfold hdr.ParsePacket. rewrite Hdata at 1. unfold hdr.IsLongHeaderPacket. rewrite H80. cbn [negb Z.ltb Z.compare].
  rewrite Hdata at 1. cbn [hdr.parseHeader]. rewrite (parseLongHeader_spec h t) by done. cbn [obind].
  assert (Hhdr : hdr.with_parsedLen (hdr.with_parsedLen (parsed_header h) 0) (4 + len (long_fields (header h)) + 1)
    = parsed_header h).
  { unfold hdr.with_parsedLen, parsed_header. cbn. f_equal. lia. }
  rewrite Hhdr. unfold parsed_header at 1 2 3 4 5 6 7 8. cbn [hdrParsedLen Length].
  rewrite i64_small by lia.
  rewrite (app_assoc (long_bytes h)).
  assert (Hcut : len (long_bytes h) - PacketNumberLen h + Length (header h) = len (long_bytes h ++ payload))
    by (rewrite len_app; lia).
  rewrite Hcut, (proj2 (Z.ltb_ge _ _)) by (rewrite (len_app _ rest); lia).
  rewrite subslice_app, slice_from_app by done. done.
Qed.

Lemma ParseExtended_spec h t payload : valid_long h t -> len payload = Length (header h) - PacketNumberLen h ->
  hdr.ParseExtended (parsed_header h) (long_bytes h ++ payload)
  = Ret ({| header := parsed_header h; extTypeByte := first_byte h; KeyPhase := KeyPhaseUndefined;
            PacketNumberLen := PacketNumberLen h;
            PacketNumber := PacketNumber h mod 2 ^ (8 * PacketNumberLen h);
            parsedLen := len (long_bytes h) |}, None).
Proof.
  intros H Hp. destruct (first_byte_spec h t H) as (_ & _ & Hn & Hr & _ & _).
  pose proof (vl_pnLen _ _ H) as Hpn. pose proof (long_bytes_len h Hpn) as Hl. pose proof (vl_length _ _ H).
  pose proof (len_nonneg (long_fields (header h))). pose proof (len_nonneg payload).
  unfold hdr.ParseExtended, hdr.parse_extended. unfold long_bytes at 1. cbn [app]. rewrite index_0.
  cbn [obind]. rewrite Hn, Hr.
  assert (Hpl : hdrParsedLen (parsed_header h) = len (long_bytes h) - PacketNumberLen h) by done. rewrite Hpl.
  replace (len (long_bytes h) - PacketNumberLen h + PacketNumberLen h) with (len (long_bytes h)) by lia.
  pose proof (long_bytes_small h t H). rewrite i64_small by lia.
  rewrite len_app, (proj2 (Z.ltb_ge _ _)) by lia.
  set (front := first_byte h :: PutUint32 (Version (header h)) ++ long_fields (header h)).
  assert (Hb : long_bytes h = front ++ big_endian (Z.to_nat (PacketNumberLen h)) (PacketNumber h)).
  { unfold long_bytes, front. by flat_app. }
  assert (Hf : len (long_bytes h) - PacketNumberLen h = len front).
  { rewrite Hb, len_app. unfold len at 2. rewrite big_endian_length. lia. }
  rewrite Hf, Hb, <- app_assoc, slice_from_app by done. cbn [obind].
  rewrite readPacketNumber_spec by apply H. done.
Qed.

(** The routing of a datagram looks at its first packet only. *)
Lemma routing_spec h t k rest : valid_long h t ->
  hdr.ParseConnectionID (long_bytes h ++ rest) k = Ret (DestConnectionID (header h)) /\
  hdr.ParseVersion (long_bytes h ++ rest) = Ret (Version (header h)) /\
  hdr.Is0RTTPacket (long_bytes h ++ rest) = bool_decide (t = PacketType0RTT).
Proof.
  intros H. pose proof (vl_dest _ _ H) as Hd. pose proof (vl_version _ _ H) as Hv. pose proof (vl_pnLen _ _ H).
  destruct (first_byte_spec h t H) as (_ & Hty & _ & _ & _ & H80).
  assert (HV : 0 <= Version (header h) < 2 ^ 32) by (destruct (supported_version _ Hv) as [-> | ->]; done).
  assert (Hlr : forall x : bytes, 0 <= len x) by (intros; apply len_nonneg).
  set (tail := SrcConnectionID (header h) ++ token_part (header h) ++ tagged 1 (Length (header h)) ++
    big_endian (Z.to_nat (PacketNumberLen h)) (PacketNumber h) ++ rest).
  assert (Hall : long_bytes h ++ rest = first_byte h :: PutUint32 (Version (header h)) ++
    len (DestConnectionID (header h)) :: DestConnectionID (header h) ++ len (SrcConnectionID (header h)) :: tail).
  { unfold long_bytes, long_fields, tail. by flat_app. }
  rewrite Hall. split; [|split].
  - unfold hdr.ParseConnectionID, hdr.IsLongHeaderPacket. rewrite H80. cbn [negb Z.ltb Z.compare].
    rewrite (proj2 (Z.ltb_ge _ _)) by (rewrite len_cons, len_app, len_cons, len_app, len_cons; change (len (PutUint32 _)) with 4; pose proof (Hlr tail); pose proof (Hlr (DestConnectionID (header h))); lia).
    change (first_byte h :: PutUint32 (Version (header h)) ++ ?x)
      with ((first_byte h :: PutUint32 (Version (header h))) ++ x).
    rewrite index_app by done. cbn [obind].
    rewrite (proj2 (Z.ltb_ge MaxConnIDLen _)) by done.
    rewrite (proj2 (Z.ltb_ge _ _)) by (rewrite len_app, !len_cons, len_app, len_cons; change (len (PutUint32 _)) with 4; pose proof (Hlr tail); lia).
    set (front := first_byte h :: PutUint32 (Version (header h)) ++ [len (DestConnectionID (header h))]).
    replace (_ ++ len (DestConnectionID (header h)) :: _) with (front ++ DestConnectionID (header h) ++ len (SrcConnectionID (header h)) :: tail)
      by (unfold front; by flat_app).
    rewrite subslice_middle by done. cbn [obind]. unfold Protocol.ParseConnectionID.
    by rewrite (proj2 (Z.ltb_ge _ _)).
  - unfold hdr.ParseVersion.
    rewrite (proj2 (Z.ltb_ge _ _)) by (rewrite len_cons, len_app, len_cons, len_app, len_cons; change (len (PutUint32 _)) with 4; pose proof (Hlr tail); pose proof (Hlr (DestConnectionID (header h))); lia).
    change (first_byte h :: ?x) with ([first_byte h] ++ x). rewrite subslice_middle by done. cbn [obind].
    rewrite <- (app_nil_r (PutUint32 _)), Uint32_PutUint32; done.
  - unfold hdr.Is0RTTPacket. cbn [PutUint32 app]. unfold hdr.IsLongHeaderPacket. rewrite H80. cbn [negb Z.ltb Z.compare].
    fold (PutUint32 (Version (header h))). rewrite <- (app_nil_r (PutUint32 _)), Uint32_PutUint32 by done.
    unfold hdr.long_type in Hty. rewrite (bool_decide_ext _ (hdr.long_type (Version (header h)) (first_byte h) = PacketType0RTT)) by (unfold hdr.long_type; by rewrite Hty).
    pose proof (Z.land_ones (Z.shiftr (first_byte h) 4) 2 ltac:(lia)) as Hm. change (Z.ones 2) with 3 in Hm.
    pose proof (Z.mod_pos_bound (Z.shiftr (first_byte h) 4) (2 ^ 2) ltac:(lia)).
    unfold hdr.long_type. rewrite Hm. set (x := _ mod 2 ^ 2) in *. clearbody x.
    assert (x = 0 \/ x = 1 \/ x = 2 \/ x = 3) as Hx by lia.
    destruct (supported_version _ Hv) as [-> | ->], Hx as [-> | [-> | [-> | ->]]]; done.
Qed.

(** ** Short headers *)

Definition short_first (n : Z) (kp : KeyPhaseBit) : Z :=
  64 + (match kp with KeyPhaseOne => 4 | _ => 0 end) + (n - 1).

Definition short_bytes (connID : bytes) (pn n : Z) (kp : KeyPhaseBit) : bytes :=
  short_first n kp :: connID ++ big_endian (Z.to_nat n) pn.

Lemma short_first_spec n kp : 1 <= n <= 4 ->
  let b := short_first n kp in
  (let t := Z.lor 0x40 (u8 (n - 1)) in match kp with KeyPhaseOne => Z.lor t 4 | _ => t end) = b /\
  Z.land b 0x80 = 0 /\ Z.land b 0x40 = 0x40 /\ Z.land b 3 + 1 = n /\ Z.land b 0x18 = 0 /\
  Z.land b 4 = match kp with KeyPhaseOne => 4 | _ => 0 end.
Proof.
  intros Hn. assert (n = 1 \/ n = 2 \/ n = 3 \/ n = 4) as [-> | [-> | [-> | ->]]] by lia;
    destruct kp; by vm_compute.
Qed.

Lemma short_bytes_len connID pn n kp : 1 <= n <= 4 -> len (short_bytes connID pn n kp) = 1 + len connID + n.
Proof. intros. unfold short_bytes. rewrite len_cons, len_app. unfold len at 2. rewrite big_endian_length. lia. Qed.

Lemma AppendShortHeader_spec b connID pn n kp : 1 <= n <= 4 -> 0 <= pn ->
  hdr.AppendShortHeader b connID pn n kp = Ret (b ++ short_bytes connID pn n kp).
Proof.
  intros Hn Hpn. destruct (short_first_spec n kp Hn) as [Hf _]. unfold hdr.AppendShortHeader. cbv zeta in *.
  rewrite Hf, appendPacketNumber_spec by done. f_equal. unfold short_bytes. by flat_app.
Qed.

Lemma ParseShortHeader_spec connID pn n kp payload : 1 <= n <= 4 -> 0 <= pn ->
  hdr.ParseShortHeader (short_bytes connID pn n kp ++ payload) (len connID)
  = Ret (len (short_bytes connID pn n kp), pn mod 2 ^ (8 * n), n,
         match kp with KeyPhaseOne => KeyPhaseOne | _ => KeyPhaseZero end, None).
Proof.
  intros Hn Hpn. destruct (short_first_spec n kp Hn) as (_ & H80 & H40 & H3 & H18 & H4).
  pose proof (len_nonneg payload). pose proof (short_bytes_len connID pn n kp Hn) as Hl.
  rewrite Hl. unfold hdr.ParseShortHeader.
  assert (Hlen : len (short_bytes connID pn n kp ++ payload) = 1 + len connID + n + len payload)
    by (rewrite len_app; lia).
  unfold short_bytes in *. cbn [app] in *. rewrite H80, H40, H3, H18, H4. cbn [Z.ltb Z.eqb Z.compare negb].
  rewrite Hlen, (proj2 (Z.ltb_ge _ _)) by lia.
  change (short_first n kp :: ?x) with ([short_first n kp] ++ x). rewrite <- app_assoc, app_assoc.
  rewrite slice_from_app by (rewrite len_app; done). cbn [obind].
  rewrite readPacketNumber_spec by done. cbn [obind]. by destruct kp.
Qed.

(** ** Arbitrary input *)

Lemma parse_token_total t b : Forall is_byte b ->
  match hdr.parse_token t b with
  | Ret (token, b') => Forall is_byte b' /\ len b' <= len b
  | Err _ => True
  | Panic => False
  end.
Proof.
  intros Hb. pose proof (len_nonneg b). destruct t; try (cbn; split; [done | lia]).
  unfold hdr.parse_token. read_total. split; [done | lia].
Qed.

Lemma parseLongHeader_total tb b : Forall is_byte b ->
  match hdr.parseLongHeader tb b with
  | Ret (h, l, _) => 5 <= l <= len b /\ 0 <= Length h < 2 ^ 62
  | Err _ => True
  | Panic => False
  end.
Proof.
  intros Hb. unfold hdr.parseLongHeader, Protocol.ParseConnectionID, MaxConnIDLen. cbv zeta.
  read_total; destruct (negb (Uint32 _ =? 0) && _); try done. read_total.
  destruct (Uint32 _ =? 0); [cbn; lia|]. destruct (negb (IsSupportedVersion _ _)); [cbn; lia|].
  assert (Hnumbered : forall b', Forall is_byte b' -> len b' <= len b - 5 -> forall (k : Z -> bytes -> Header) n0,
    (forall v t, Length (k v t) = i64 v) ->
    match (let! '(token, b2) := hdr.parse_token n0 b' in let! '(pl, n) := quicvarint.Parse b2 in
           Ret (k pl token, len b - len b2 + n, @None goerror)) with
    | Ret (h, l, _) => 5 <= l <= len b /\ 0 <= Length h < 2 ^ 62
    | Err _ => True | Panic => False end).
  { intros b' Hb' Hl' k t Hk. pose proof (parse_token_total t b' Hb') as Hp.
    destruct (hdr.parse_token t b') as [[tok b2]| |]; [|done|done]. destruct Hp as [Hb2 Hl2]. cbn [obind].
    read_total. rewrite Hk, i64_small by lia. lia. }
  destruct (hdr.long_type _ _); try (apply Hnumbered; [done | lia | done]).
  destruct (_ <=? 0) eqn:Ht; [done|]. apply Z.leb_gt in Ht. read_total. cbn. lia.
Qed.

(** What a packet that was cut off satisfies *)
Definition cut (data : bytes) (h : Header) (packet rest : bytes) : Prop :=
  data = packet ++ rest /\ len packet = hdrParsedLen h + Length h /\ 6 <= hdrParsedLen h /\ 0 <= Length h.

Lemma ParsePacket_total data : Forall is_byte data -> len data < 2 ^ 62 ->
  match hdr.ParsePacket data with
  | Ret (h, packet, rest, None) => cut data h packet rest
  | Panic => False
  | _ => True
  end.
Proof.
  intros Hb Hsmall. unfold hdr.ParsePacket. destruct data as [|d0 data']; [done|].
  destruct (negb _); [done|]. cbn [hdr.parseHeader]. rewrite len_cons in *.
  pose proof Hb as Hb0. apply Forall_cons in Hb0 as [_ Hb'].
  pose proof (parseLongHeader_total d0 data' Hb') as Hp.
  destruct (hdr.parseLongHeader d0 data') as [[[h l] err]| |]; [|done|done]. cbn [obind].
  destruct Hp as [Hl HL]. destruct err; [done|].
  change (hdrParsedLen (hdr.with_parsedLen h (l + 1))) with (l + 1).
  change (Length (hdr.with_parsedLen h (l + 1))) with (Length h).
  rewrite i64_small by lia. destruct (Z.ltb_spec (1 + len data') (l + 1 + Length h)); [done|].
  destruct (subslice_cut (d0 :: data') (l + 1 + Length h)) as (p & r & -> & -> & Hd & Hlen); [rewrite len_cons; lia|].
  cbn [obind]. unfold cut. cbn. repeat split; [done | lia | lia | lia].
Qed.

Lemma ParseExtended_total h packet : Forall is_byte packet -> 6 <= hdrParsedLen h <= len packet -> len packet < 2 ^ 62 ->
  is_panic (hdr.ParseExtended h packet) = false.
Proof.
  intros Hb Hl Hs. unfold hdr.ParseExtended, hdr.parse_extended.
  destruct (index_total is_byte packet 0 Hb ltac:(lia)) as (x & Hx & Hr). rewrite Hx. cbn [obind].
  pose proof (Z.land_ones x 2 ltac:(lia)) as Hm. change (Z.ones 2) with 3 in Hm. rewrite Hm.
  pose proof (Z.mod_pos_bound x (2 ^ 2) ltac:(lia)). set (n := x mod 2 ^ 2 + 1) in *.
  rewrite i64_small by lia. read_total.
  destruct (readPacketNumber_total s n) as [pn ->]; [done | lia | lia | done].
Qed.

Lemma ParseConnectionID_total data k : Forall is_byte data -> 0 <= k <= MaxConnIDLen ->
  is_panic (hdr.ParseConnectionID data k) = false.
Proof.
  intros Hb Hk. unfold hdr.ParseConnectionID, Protocol.ParseConnectionID, MaxConnIDLen in *.
  destruct data as [|d0 data']; [done|]. set (data := d0 :: data') in *. clearbody data.
  destruct (negb _); read_total; by rewrite (proj2 (Z.ltb_ge _ _)) by lia.
Qed.

Lemma ParseArbitraryLenConnectionIDs_total data : Forall is_byte data ->
  match hdr.ParseArbitraryLenConnectionIDs data with
  | Ret (n, _, _) => 0 <= n <= len data
  | Err _ => True
  | Panic => False
  end.
Proof. intros Hb. unfold hdr.ParseArbitraryLenConnectionIDs. read_total. Qed.

Lemma ParseShortHeader_total data k : Forall is_byte data -> 0 <= k ->
  is_panic (hdr.ParseShortHeader data k) = false.
Proof.
  intros Hb Hk. unfold hdr.ParseShortHeader. destruct data as [|d0 data']; [done|].
  destruct (0 <? _); [done|]. destruct (_ =? 0); [done|].
  pose proof (Z.land_ones d0 2 ltac:(lia)) as Hm. change (Z.ones 2) with 3 in Hm. rewrite Hm.
  pose proof (Z.mod_pos_bound d0 (2 ^ 2) ltac:(lia)). set (n := d0 mod 2 ^ 2 + 1) in *.
  set (data := d0 :: data') in *. clearbody data.
  read_total; (destruct (readPacketNumber_total s n) as [pn ->]; [done | lia | lia | done]).
Qed.

Lemma ParseVersionNegotiationPacket_total data : Forall is_byte data ->
  is_panic (hdr.ParseVersionNegotiationPacket data) = false.
Proof.
  intros Hb. unfold hdr.ParseVersionNegotiationPacket. pose proof (ParseArbitraryLenConnectionIDs_total data Hb) as H.
  destruct (hdr.ParseArbitraryLenConnectionIDs data) as [[[n d] s]| |]; [|done|done]. cbn [obind]. read_total.
  destruct s0; [done|]. by destruct (negb _).
Qed.

(** ** Version negotiation *)

Lemma parse_versions_spec vs : Forall (is_u 32) vs -> hdr.parse_versions (concat (map PutUint32 vs)) = vs.
Proof.
  induction vs as [|v vs IH]; intros Hv; [done|]. apply Forall_cons in Hv as [Hv Hvs].
  cbn [map concat]. pose proof (Uint32_PutUint32 v [] Hv) as Hu. unfold PutUint32 in *. cbn [app hdr.parse_versions] in *.
  by rewrite Hu, IH.
Qed.

Lemma concat_versions_len vs : len (concat (map PutUint32 vs)) = 4 * len vs.
Proof.
  induction vs as [|v vs IH]; [done|]. cbn [map concat]. rewrite len_app, IH, len_cons.
  change (len (PutUint32 v)) with 4. lia.
Qed.

(** A reserved version is a 32-bit number that is not a version in use. *)
Lemma reservedVersion_spec random : 0 <= random < 2 ^ 32 ->
  is_u 32 (reservedVersion random) /\ reservedVersion random ∉ SupportedVersions.
Proof.
  intros Hr. unfold reservedVersion.
  assert (Hlow : Z.land (Z.land (Z.lor random 0x0a0a0a0a) 0xfafafafa) 0x0f = 0x0a).
  { rewrite <- Z.land_assoc. change (Z.land 0xfafafafa 0x0f) with 0x0a. rewrite Z.land_lor_distr_l.
    change (Z.land 0x0a0a0a0a 0x0a) with 0x0a. apply Z.bits_inj'. intros n Hn. rewrite Z.lor_spec, Z.land_spec.
    destruct (Z.testbit random n), (Z.testbit 10 n); done. }
  split.
  - set (o := Z.lor random 0x0a0a0a0a). assert (0 <= o) by (apply Z.lor_nonneg; lia).
    assert (H0 : 0 <= Z.land o 0xfafafafa) by (apply Z.land_nonneg; right; lia). split; [done|].
    destruct (Z.eq_dec (Z.land o 0xfafafafa) 0) as [->|]; [lia|]. apply Z.log2_lt_pow2; [lia|].
    pose proof (Z.log2_land o 0xfafafafa ltac:(done) ltac:(lia)). change (Z.log2 0xfafafafa) with 31 in *. lia.
  - intros H%supported_version. destruct H as [H | H]; rewrite H in Hlow; by vm_compute in Hlow.
Qed.

Lemma ParseArbitrary_spec (front dest src rest : bytes) : len front = 5 -> len dest < 256 -> len src < 256 ->
  hdr.ParseArbitraryLenConnectionIDs (front ++ [u8 (len dest)] ++ dest ++ [u8 (len src)] ++ src ++ rest)
  = Ret (7 + len dest + len src, dest, src).
Proof.
  intros Hf Hd Hs. pose proof (len_nonneg dest). pose proof (len_nonneg src). pose proof (len_nonneg rest).
  rewrite !u8_small by lia. unfold hdr.ParseArbitraryLenConnectionIDs. cbv zeta.
  set (all := front ++ _).
  assert (Hall : len all = 7 + len dest + len src + len rest).
  { unfold all. rewrite !len_app. change (len [_]) with 1. lia. }
  rewrite (proj2 (Z.ltb_ge (len all) 6)) by lia. unfold all at 1. rewrite slice_from_app by done. cbn [obind app].
  rewrite index_0. cbn [obind].
  rewrite slice_from_1. cbn [obind].
  assert (Hl1 : len (dest ++ len src :: src ++ rest) = 1 + len dest + len src + len rest)
    by (rewrite len_app, len_cons, len_app; lia).
  rewrite Hl1, (proj2 (Z.ltb_ge _ _)), subslice_app by (done || lia). cbn [obind].
  rewrite slice_from_app by done. cbn [obind]. rewrite index_0. cbn [obind].
  rewrite slice_from_1. cbn [obind].
  rewrite len_app, (proj2 (Z.ltb_ge _ _)), subslice_app by (done || lia). cbn [obind]. do 3 f_equal. lia.
Qed.

Lemma choose_reserved ours r theirs pos : r ∉ ours ->
  ChooseSupportedVersion ours (take pos theirs ++ [r] ++ drop pos theirs) = ChooseSupportedVersion ours theirs.
Proof.
  induction ours as [|v ours IH]; intros Hr; [done|]. apply not_elem_of_cons in Hr as [Hne Hr]. cbn [ChooseSupportedVersion].
  rewrite (bool_decide_ext (v ∈ take pos theirs ++ [r] ++ drop pos theirs) (v ∈ theirs)).
  - case_bool_decide; [done | by apply IH].
  - rewrite <- (take_drop pos theirs) at 3. rewrite !elem_of_app, list_elem_of_singleton. intuition congruence.
Qed.

(** ** Properties *)

(** C23. A long header that carries a packet number is written in the length
    that [GetLength] announces.  In front of any payload of the length the
    header announces, and of anything that follows, the receiver routes the
    datagram by the connection ID and the version that were written, cuts
    exactly this packet off, and reads the same header, with the packet number
    truncated to its length and no reserved bit set. *)
Theorem long_header_round_trip h t b payload rest k :
  valid_long h t -> len payload = Length (header h) - PacketNumberLen h ->
  exists e, hdr.Append h b (Version (header h)) = Ret (b ++ e) /\
    hdr.GetLength h = Ret (len e) /\
    hdr.ParseConnectionID (e ++ payload ++ rest) k = Ret (DestConnectionID (header h)) /\
    hdr.ParseVersion (e ++ payload ++ rest) = Ret (Version (header h)) /\
    hdr.Is0RTTPacket (e ++ payload ++ rest) = bool_decide (t = PacketType0RTT) /\
    hdr.ParsePacket (e ++ payload ++ rest) = Ret (parsed_header h, e ++ payload, rest, None) /\
    hdr.ParseExtended (parsed_header h) (e ++ payload)
    = Ret ({| header := parsed_header h; extTypeByte := first_byte h; KeyPhase := KeyPhaseUndefined;
              PacketNumberLen := PacketNumberLen h;
              PacketNumber := PacketNumber h mod 2 ^ (8 * PacketNumberLen h); parsedLen := len e |}, None).
Proof.
  intros H Hp. exists (long_bytes h). destruct (Append_long h t b H) as [-> ->].
  destruct (routing_spec h t k (payload ++ rest) H) as (-> & -> & ->).
  rewrite (ParsePacket_spec h t), (ParseExtended_spec h t) by done. done.
Qed.

Definition demo_long : ExtendedHeader :=
  {| header := {| typeByte := 0; Type_ := Some PacketTypeInitial; Version := Version2; SrcConnectionID := [1; 2; 3; 4];
                  DestConnectionID := [5; 6; 7; 8; 9; 10; 11; 12]; Length := 5; Token := [42; 43]; hdrParsedLen := 0 |};
     extTypeByte := 0; KeyPhase := KeyPhaseUndefined; PacketNumberLen := 2; PacketNumber := 0x12345; parsedLen := 0 |}.

Lemma long_header_round_trip_witness :
  exists e, hdr.Append demo_long [] Version2 = Ret ([] ++ e) /\
    hdr.ParsePacket (e ++ [100; 101; 102] ++ [7; 7]) = Ret (parsed_header demo_long, e ++ [100; 101; 102], [7; 7], None).
Proof.
  destruct (long_header_round_trip demo_long PacketTypeInitial [] [100; 101; 102] [7; 7] 0) as (e & Ha & _ & _ & _ & _ & Hp & _).
  - constructor; try (vm_compute; done); [cbn; unfold SupportedVersions; set_solver | by right].
  - done.
  - by exists e.
Defined.

(** A sender that knows which of its packets was acknowledged last writes
    a packet number in as many bytes as it takes: a receiver that has received
    that packet, and whatever else before the new one arrives, gets the whole
    packet number back from the short header, with its connection ID, its key
    phase and the end of the header. *)
Theorem packet_number_recovered connID pn acked largest kp b payload :
  0 <= pn < 2 ^ 62 -> -1 <= acked < pn -> pn - acked < 2 ^ 31 -> acked <= largest ->
  len connID <= MaxConnIDLen ->
  let n := PacketNumberLengthForHeader pn acked in
  largest < 2 ^ 62 -> largest < pn + 2 ^ (8 * n - 1) - 1 ->
  exists e, hdr.AppendShortHeader b connID pn n kp = Ret (b ++ e) /\ len e = hdr.ShortHeaderLen connID n /\
    hdr.ParseConnectionID (e ++ payload) (len connID) = Ret connID /\
    exists truncated,
      hdr.ParseShortHeader (e ++ payload) (len connID)
      = Ret (len e, truncated, n, match kp with KeyPhaseOne => KeyPhaseOne | _ => KeyPhaseZero end, None) /\
      DecodePacketNumber n largest truncated = pn.
Proof.
  intros Hpn Hacked Hd Hl Hc n Hl62 Hwin. destruct (PacketNumberLengthForHeader_spec pn acked) as [Hn Hw]; try done.
  fold n in Hn, Hw. exists (short_bytes connID pn n kp). rewrite AppendShortHeader_spec, short_bytes_len by lia.
  split; [done|]. split; [done|]. split.
  - destruct (short_first_spec n kp ltac:(lia)) as (_ & H80 & _). pose proof (len_nonneg connID).
    pose proof (short_bytes_len connID pn n kp ltac:(lia)) as Hlen. pose proof (len_nonneg payload).
    unfold hdr.ParseConnectionID, hdr.IsLongHeaderPacket.
    assert (Hall : len (short_bytes connID pn n kp ++ payload) = 1 + len connID + n + len payload) by (rewrite len_app; lia).
    rewrite Hall. unfold short_bytes. cbn [app]. rewrite H80. cbn [negb Z.ltb Z.compare].
    rewrite (proj2 (Z.ltb_ge _ _)) by lia. rewrite <- app_assoc.
    change (?x :: connID ++ ?y) with ([x] ++ connID ++ y). rewrite subslice_middle by done. cbn [obind].
    unfold Protocol.ParseConnectionID. by rewrite (proj2 (Z.ltb_ge _ _)).
  - exists (pn mod 2 ^ (8 * n)). rewrite ParseShortHeader_spec, short_bytes_len by lia. split; [done|].
    apply DecodePacketNumber_spec; lia.
Qed.

Lemma packet_number_recovered_witness :
  exists e, hdr.AppendShortHeader [] [9; 9] 1000000 2 KeyPhaseOne = Ret ([] ++ e) /\
    hdr.ParseConnectionID (e ++ [1; 2; 3]) 2 = Ret [9; 9].
Proof.
  destruct (packet_number_recovered [9; 9] 1000000 999990 1000007 KeyPhaseOne [] [1; 2; 3]) as (e & H & _ & Hc & _);
    try (vm_compute; done).
  exists e. by split.
Defined.

(** Whatever bytes arrive, the parsers of packet headers return a value or
    an error, and a packet that is cut off a datagram takes at least six bytes
    of it, has the length its header announces, and can be looked into. *)
Theorem header_parsers_total data k :
  Forall is_byte data -> len data < 2 ^ 62 -> 0 <= k <= MaxConnIDLen ->
  is_panic (hdr.ParseConnectionID data k) = false /\ is_panic (hdr.ParseVersion data) = false /\
  is_panic (hdr.ParseShortHeader data k) = false /\ is_panic (hdr.ParseVersionNegotiationPacket data) = false /\
  is_panic (hdr.ParsePacket data) = false /\
  forall h packet rest, hdr.ParsePacket data = Ret (h, packet, rest, None) ->
    data = packet ++ rest /\ len packet = hdrParsedLen h + Length h /\ len rest + 6 <= len data /\
    is_panic (hdr.ParseExtended h packet) = false.
Proof.
  intros Hb Hs Hk. split; [by apply ParseConnectionID_total|]. split.
  { unfold hdr.ParseVersion. read_total. }
  split; [apply ParseShortHeader_total; [done | lia]|]. split; [by apply ParseVersionNegotiationPacket_total|].
  pose proof (ParsePacket_total data Hb Hs) as Hp. split.
  { by destruct (hdr.ParsePacket data) as [[[[? ?] ?] [|]]| |]. }
  intros h packet rest E. rewrite E in Hp. destruct Hp as (-> & Hl & H6 & HL). rewrite len_app in *.
  apply Forall_app in Hb as [Hb _]. pose proof (len_nonneg rest).
  repeat split; try done; try lia. apply ParseExtended_total; [done | lia | lia].
Qed.

Lemma header_parsers_total_witness : is_panic (hdr.ParsePacket [0xff; 0; 0; 0; 1; 20; 1]) = false.
Proof. apply (header_parsers_total [0xff; 0; 0; 0; 1; 20; 1] 4); [repeat constructor; done | done | done]. Defined.

(** A version negotiation packet is recognised as one; it gives back both
    connection IDs and the list of versions with a reserved one among them,
    and the reserved version never changes which version a client chooses. *)
Theorem version_negotiation_round_trip first pos random dest src versions ours :
  0 <= random < 2 ^ 32 -> len dest < 256 -> len src < 256 -> Forall (is_u 32) versions ->
  (forall v, v ∈ ours -> v ∈ SupportedVersions) ->
  let packet := hdr.ComposeVersionNegotiation first pos random dest src versions in
  hdr.IsVersionNegotiationPacket packet = true /\
  exists offered, hdr.ParseVersionNegotiationPacket packet = Ret (dest, src, offered) /\
    ChooseSupportedVersion ours offered = ChooseSupportedVersion ours versions.
Proof.
  intros Hr Hd Hs Hv Hours packet. destruct (reservedVersion_spec random Hr) as [Hu Hnew].
  pose proof (len_nonneg dest). pose proof (len_nonneg src). split.
  { unfold packet, hdr.ComposeVersionNegotiation. cbn [app hdr.IsVersionNegotiationPacket Z.eqb]. rewrite !andb_true_r.
    unfold hdr.IsLongHeaderPacket. apply Z.ltb_lt. rewrite Z.land_lor_distr_l.
    assert (Z.lor (Z.land first 128) (Z.land 192 128) = 128) as ->; [|done].
    apply Z.bits_inj'. intros n Hn. rewrite Z.lor_spec, Z.land_spec. change (Z.land 192 128) with 128.
    destruct (Z.testbit first n), (Z.testbit 128 n); done. }
  exists (GetGreasedVersions pos random versions). split.
  - unfold packet, hdr.ComposeVersionNegotiation. set (vs := GetGreasedVersions pos random versions).
    assert (Hvs : Forall (is_u 32) vs).
    { unfold vs, GetGreasedVersions. apply Forall_app. split; [by apply Forall_take|]. constructor; [done|]. by apply Forall_drop. }
    assert (1 <= len vs).
    { unfold vs, GetGreasedVersions. rewrite !len_app. change (len [_]) with 1.
      pose proof (len_nonneg (take pos versions)). pose proof (len_nonneg (drop pos versions)). lia. }
    set (front := Z.lor first 0xc0 :: 0 :: 0 :: 0 :: 0 :: []).
    assert (Hp : hdr.ParseArbitraryLenConnectionIDs
        (front ++ [u8 (len dest)] ++ dest ++ [u8 (len src)] ++ src ++ concat (map PutUint32 vs))
      = Ret (7 + len dest + len src, dest, src)).
    { apply ParseArbitrary_spec; done || lia. }
    unfold hdr.ParseVersionNegotiationPacket. rewrite Hp. cbn [obind].
    rewrite !app_assoc, slice_from_app by (rewrite !len_app; change (len front) with 5; change (len [_]) with 1; lia).
    cbn [obind]. rewrite concat_versions_len, Z.mul_comm, Z.mod_mul, parse_versions_spec by done.
    destruct vs; [done|]. done.
  - apply choose_reserved. intros Hin. by apply Hnew, Hours.
Qed.

Lemma version_negotiation_round_trip_witness :
  ChooseSupportedVersion [Version2] (GetGreasedVersions 1 0xdeadbeef [Version1; Version2]) = (Version2, true) /\
  hdr.IsVersionNegotiationPacket (hdr.ComposeVersionNegotiation 7 1 0xdeadbeef [1] [2; 3] [Version1; Version2]) = true.
Proof.
  destruct (version_negotiation_round_trip 7 1 0xdeadbeef [1] [2; 3] [Version1; Version2] [Version2]) as (H & offered & Ho & Hc).
  - lia.
  - done.
  - done.
  - repeat constructor; done.
  - intros v Hv. apply list_elem_of_singleton in Hv as ->. unfold SupportedVersions. set_solver.
  - split; [by vm_compute | exact H].
Defined.
