(* ===== verification/AckFrame.v ===== *)
(** * ACK frames

    [src/deps/quic-go/internal/wire/ack_frame.go] and
    [ack_receive_timestamps.go], the fork's legacy receive timestamps.  A
    packet number is an [int64], a varint field a [uint64]; the conversions
    between them are written out.  A method that indexes [AckRanges] panics
    on a frame without ranges, as the code does.  [parseAckFrame] returns the
    frame it filled in and the number of bytes it consumed; on an error the
    half-filled frame is dropped, as both callers do. *)
From S2P Require Import Prelude Varint.

Local Open Scope Z_scope.
Local Open Scope go_scope.

Record AckRange := { Smallest : Z; Largest : Z }.
Record ReceiveTimestamp := { Packet : Z; Micros : Z }.

Record AckFrame := {
  ReceiveTimestamps : list ReceiveTimestamp;
  AckRanges : list AckRange;
  DelayTime : Z;
  ECT0 : Z;
  ECT1 : Z;
  ECNCE : Z;
}.

Definition empty_frame : AckFrame :=
  {| ReceiveTimestamps := []; AckRanges := []; DelayTime := 0; ECT0 := 0; ECT1 := 0; ECNCE := 0 |}.

Definition with_ranges (f : AckFrame) (rs : list AckRange) : AckFrame :=
  {| ReceiveTimestamps := ReceiveTimestamps f; AckRanges := rs; DelayTime := DelayTime f;
     ECT0 := ECT0 f; ECT1 := ECT1 f; ECNCE := ECNCE f |}.
Definition with_timestamps (f : AckFrame) (ts : list ReceiveTimestamp) : AckFrame :=
  {| ReceiveTimestamps := ts; AckRanges := AckRanges f; DelayTime := DelayTime f;
     ECT0 := ECT0 f; ECT1 := ECT1 f; ECNCE := ECNCE f |}.
Definition with_delay (f : AckFrame) (d : Z) : AckFrame :=
  {| ReceiveTimestamps := ReceiveTimestamps f; AckRanges := AckRanges f; DelayTime := d;
     ECT0 := ECT0 f; ECT1 := ECT1 f; ECNCE := ECNCE f |}.
Definition with_ecn (f : AckFrame) (e0 e1 ce : Z) : AckFrame :=
  {| ReceiveTimestamps := ReceiveTimestamps f; AckRanges := AckRanges f; DelayTime := DelayTime f;
     ECT0 := e0; ECT1 := e1; ECNCE := ce |}.

Definition MaxNumAckRanges : Z := 64.
Definition AckDelayExponent : Z := 3.
Definition FrameTypeAck : Z := 2.
Definition FrameTypeAckECN : Z := 3.

Definition errInvalidAckRanges : goerror := Errorf "AckFrame: ACK frame contains invalid ACK ranges" [].

Definition replaceUnexpectedEOF (e : goerror) : goerror :=
  match e with
  | Errorf f [] => if String.eqb f "unexpected EOF" then io_EOF else e
  | _ => e
  end.

(** [x, l, err := quicvarint.Parse(b)], the error check, and [b = b[l:]] *)
Definition readVarint (b : bytes) : outcome (Z * bytes) :=
  match quicvarint.Parse b with
  | Ret (v, l) => Ret (v, drop (Z.to_nat l) b)
  | Err e => Err (replaceUnexpectedEOF e)
  | Panic => Panic
  end.

Definition encodeAckDelay (delay : Z) : Z := u64 (Z.quot delay (1000 * Z.shiftl 1 AckDelayExponent)).

Definition decodeAckDelay (delay ackDelayExponent : Z) : Z :=
  let delayTime := i64 (i64 (u64 (Z.shiftl delay ackDelayExponent)) * 1000) in
  if delayTime <? 0 then maxInt64 else delayTime.

Module Ack.

Definition LargestAcked (f : AckFrame) : outcome Z :=
  let! r := index (AckRanges f) 0 in Ret (Largest r).

Definition LowestAcked (f : AckFrame) : outcome Z :=
  let! r := index (AckRanges f) (len (AckRanges f) - 1) in Ret (Smallest r).

Definition HasMissingRanges (f : AckFrame) : bool := 1 <? len (AckRanges f).

(** The second loop of [validateAckRanges], [last] being the range before *)
Fixpoint consistent (last : AckRange) (rs : list AckRange) : bool :=
  match rs with
  | [] => true
  | r :: rs =>
      if Smallest last <=? Smallest r then false else
      if Smallest last <=? i64 (Largest r + 1) then false else consistent r rs
  end.

Definition validateAckRanges (f : AckFrame) : bool :=
  match AckRanges f with
  | [] => false
  | r :: rs =>
      if forallb (fun a => negb (Largest a <? Smallest a)) (r :: rs) then consistent r rs else false
  end.

(** *** Parsing *)

(** [for range numBlocks].  Every round consumes at least two bytes, so one
    more than the length of the input is enough fuel. *)
Fixpoint parse_ranges (fuel : nat) (numBlocks smallest : Z) (ranges : list AckRange) (b : bytes)
    : outcome (list AckRange * bytes) :=
  if numBlocks <=? 0 then Ret (ranges, b) else
  match fuel with
  | O => Panic
  | S fuel =>
      let! '(g, b) := readVarint b in
      let gap := i64 g in
      if smallest <? i64 (gap + 2) then Err errInvalidAckRanges else
      let largest := i64 (i64 (smallest - gap) - 2) in
      let! '(ab, b) := readVarint b in
      let ackBlock := i64 ab in
      if largest <? ackBlock then Err errInvalidAckRanges else
      let smallest := i64 (largest - ackBlock) in
      parse_ranges fuel (numBlocks - 1) smallest
        (ranges ++ [{| Smallest := smallest; Largest := largest |}]) b
  end.

Definition parse_ecn (frame : AckFrame) (b : bytes) : outcome (AckFrame * bytes) :=
  let! '(ect0, b) := readVarint b in
  let! '(ect1, b) := readVarint b in
  let! '(ecnce, b) := readVarint b in
  Ret (with_ecn frame ect0 ect1 ecnce, b).

Definition parseAckFrame (frame : AckFrame) (b : bytes) (typ ackDelayExponent : Z)
    : outcome (AckFrame * Z) :=
  let startLen := len b in
  let ecn := typ =? FrameTypeAckECN in
  let! '(la, b) := readVarint b in
  let largestAcked := i64 la in
  let! '(delay, b) := readVarint b in
  let frame := with_delay frame (decodeAckDelay delay ackDelayExponent) in
  let! '(numBlocks, b) := readVarint b in
  let! '(ab, b) := readVarint b in
  let ackBlock := i64 ab in
  if largestAcked <? ackBlock then errorf "invalid first ACK range" else
  let smallest := i64 (largestAcked - ackBlock) in
  let ranges := AckRanges frame ++ [{| Smallest := smallest; Largest := largestAcked |}] in
  let! '(ranges, b) := parse_ranges (S (length b)) numBlocks smallest ranges b in
  let frame := with_ranges frame ranges in
  if negb (validateAckRanges frame) then Err errInvalidAckRanges else
  let! '(frame, b) := (if ecn then parse_ecn frame b else Ret (frame, b)) in
  Ret (frame, startLen - len b).

(** *** Writing *)

Definition encodeAckRange (f : AckFrame) (i : Z) : outcome (Z * Z) :=
  if i =? 0 then
    let! r := index (AckRanges f) 0 in
    Ret (0, u64 (i64 (Largest r - Smallest r)))
  else
    let! p := index (AckRanges f) (i - 1) in
    let! r := index (AckRanges f) i in
    Ret (u64 (i64 (i64 (Smallest p - Largest r) - 2)), u64 (i64 (Largest r - Smallest r))).

Definition hasECN (f : AckFrame) : bool := (0 <? ECT0 f) || (0 <? ECT1 f) || (0 <? ECNCE f).

Definition append_range (f : AckFrame) (b : bytes) (i : Z) : outcome bytes :=
  let! '(gap, l) := encodeAckRange f i in
  let! b := quicvarint.Append b gap in
  quicvarint.Append b l.

Definition append_ecn (f : AckFrame) (b : bytes) : outcome bytes :=
  let! b := quicvarint.Append b (ECT0 f) in
  let! b := quicvarint.Append b (ECT1 f) in
  quicvarint.Append b (ECNCE f).

(** [Append] of a frame without receive timestamps *)
Definition append_normal (f : AckFrame) (b : bytes) : outcome bytes :=
  let b := b ++ [if hasECN f then FrameTypeAckECN else FrameTypeAck] in
  let! la := LargestAcked f in
  let! b := quicvarint.Append b (u64 la) in
  let! b := quicvarint.Append b (encodeAckDelay (DelayTime f)) in
  let numRanges := Z.min (len (AckRanges f)) MaxNumAckRanges in
  let! b := quicvarint.Append b (u64 (numRanges - 1)) in
  let! '(_, firstRange) := encodeAckRange f 0 in
  let! b := quicvarint.Append b firstRange in
  let! b := ofold (append_range f) (seqZ 1 (numRanges - 1)) b in
  if hasECN f then append_ecn f b else Ret b.

(** Splits a list after the packets that directly precede [last]: the loop
    that advances [end]. *)
Fixpoint contiguous (last : ReceiveTimestamp) (times : list ReceiveTimestamp)
    : list ReceiveTimestamp * list ReceiveTimestamp :=
  match times with
  | t :: rest =>
      if i64 (Packet last - Packet t) =? 1
      then let '(run, after) := contiguous t rest in (t :: run, after)
      else ([], times)
  | [] => ([], [])
  end.

(** The slices [times[start:end]] of the outer loop.  Every run holds a
    timestamp, so the number of timestamps is enough fuel. *)
Fixpoint runs_from (fuel : nat) (times : list ReceiveTimestamp) : list (list ReceiveTimestamp) :=
  match fuel, times with
  | S fuel, t :: rest => let '(run, after) := contiguous t rest in (t :: run) :: runs_from fuel after
  | _, _ => []
  end.
Definition timestamp_runs (times : list ReceiveTimestamp) : list (list ReceiveTimestamp) :=
  runs_from (length times) times.

(** The first loop: one range, and one more at every gap *)
Fixpoint count_ranges (last : ReceiveTimestamp) (times : list ReceiveTimestamp) (ranges : Z) : Z :=
  match times with
  | t :: rest =>
      count_ranges t rest (if negb (i64 (Packet last - Packet t) =? 1) then ranges + 1 else ranges)
  | [] => ranges
  end.

(** [gap], with the packet before the run if there is one *)
Definition gap_before (before : option Z) (run : list ReceiveTimestamp) : outcome Z :=
  match before with
  | None => Ret 0
  | Some p => let! t := index run 0 in Ret (u64 (i64 (i64 (p - Packet t) - 2)))
  end.

Definition last_packet (run : list ReceiveTimestamp) : option Z := option_map Packet (last run).

Definition append_delta (s : bytes * Z) (t : ReceiveTimestamp) : outcome (bytes * Z) :=
  let! b := quicvarint.Append s.1 (u64 (s.2 - Micros t)) in Ret (b, Micros t).

Definition append_run (s : bytes * option Z * Z) (run : list ReceiveTimestamp)
    : outcome (bytes * option Z * Z) :=
  let '(b, before, previousTime) := s in
  let! gap := gap_before before run in
  let! b := quicvarint.Append b gap in
  let! b := quicvarint.Append b (u64 (len run)) in
  let! '(b, previousTime) := ofold append_delta run (b, previousTime) in
  Ret (b, last_packet run, previousTime).

Definition normal_of (f : AckFrame) : AckFrame := with_ecn (with_timestamps f []) 0 0 0.

Definition appendReceiveTimestamps (f : AckFrame) (b : bytes) : outcome bytes :=
  let normal := normal_of f in
  let! b := quicvarint.Append b 176 in
  let start := length b in
  let! b := append_normal normal b in
  let b := take start b ++ drop (S start) b in
  let times := ReceiveTimestamps f in
  let! t0 := index times 0 in
  let! b := quicvarint.Append b (u64 (Packet t0)) in
  let! b := quicvarint.Append b (Micros t0) in
  let! b := quicvarint.Append b (u64 (count_ranges t0 (drop 1 times) 1)) in
  let! '(b, _, _) := ofold append_run (timestamp_runs times) (b, None, u64 (Micros t0 * 2)) in
  if hasECN f then append_normal (with_ecn normal (ECT0 f) (ECT1 f) (ECNCE f)) b else Ret b.

Definition Append (f : AckFrame) (b : bytes) : outcome bytes :=
  if 0 <? len (ReceiveTimestamps f) then appendReceiveTimestamps f b else append_normal f b.

(** *** Lengths *)

Definition ecn_length (f : AckFrame) : outcome Z :=
  if hasECN f then
    let! l0 := quicvarint.Len (ECT0 f) in
    let! l1 := quicvarint.Len (ECT1 f) in
    let! l2 := quicvarint.Len (ECNCE f) in
    Ret (l0 + l1 + l2)
  else Ret 0.

Definition range_length (f : AckFrame) (i : Z) : outcome Z :=
  let! '(gap, l) := encodeAckRange f i in
  let! g := quicvarint.Len gap in
  let! k := quicvarint.Len l in
  Ret (g + k).

Definition normal_length (f : AckFrame) : outcome Z :=
  let! r := index (AckRanges f) 0 in
  let! ll := quicvarint.Len (u64 (Largest r)) in
  let! ld := quicvarint.Len (encodeAckDelay (DelayTime f)) in
  let! lf := quicvarint.Len (u64 (i64 (Largest r - Smallest r))) in
  let! length := ofold (fun n i => let! l := range_length f i in Ret (n + l))
                       (seqZ 1 (Z.min (len (AckRanges f)) MaxNumAckRanges - 1)) (1 + ll + ld + 1 + lf) in
  let! le := ecn_length f in
  Ret (length + le).

Definition delta_length (s : Z * Z) (t : ReceiveTimestamp) : outcome (Z * Z) :=
  let! l := quicvarint.Len (u64 (s.2 - Micros t)) in Ret (s.1 + l, Micros t).

(** The length so far, the number of ranges, the packet before, the time
    before *)
Definition run_length (s : Z * Z * option Z * Z) (run : list ReceiveTimestamp)
    : outcome (Z * Z * option Z * Z) :=
  let '(length, ranges, before, previous) := s in
  let! gap := gap_before before run in
  let ranges := if before then ranges + 1 else ranges in
  let! lg := quicvarint.Len gap in
  let! ln := quicvarint.Len (u64 (len run)) in
  let! '(length, previous) := ofold delta_length run (length + (lg + ln), previous) in
  Ret (length, ranges, last_packet run, previous).

Definition receiveTimestampsLength (f : AckFrame) : outcome Z :=
  let normal := normal_of f in
  let! ln := normal_length normal in
  let times := ReceiveTimestamps f in
  let! t0 := index times 0 in
  let! lp := quicvarint.Len (u64 (Packet t0)) in
  let! lm := quicvarint.Len (Micros t0) in
  let! '(length, ranges, _, _) :=
    ofold run_length (timestamp_runs times) (ln + 1 + (lp + lm), 1, None, u64 (Micros t0 * 2)) in
  let! lr := quicvarint.Len (u64 ranges) in
  let length := length + lr in
  if hasECN f then
    let! le := normal_length (with_ecn normal (ECT0 f) (ECT1 f) (ECNCE f)) in
    Ret (length + le)
  else Ret length.

Definition Length (f : AckFrame) : outcome Z :=
  if 0 <? len (ReceiveTimestamps f) then receiveTimestampsLength f else normal_length f.

(** *** Truncation *)

(** The loop of the slow path, from range [i] on, [n] rounds left *)
Fixpoint fitting_ranges (f : AckFrame) (maxSize : Z) (n : nat) (i length : Z) : outcome Z :=
  match n with
  | O => Ret i
  | S n =>
      let! rangeLen := range_length f i in
      if maxSize <? length + rangeLen then Ret i
      else fitting_ranges f maxSize n (i + 1) (length + rangeLen)
  end.

Definition numEncodableAckRanges (f : AckFrame) (maxSize : Z) : outcome Z :=
  let numRanges := Z.min (len (AckRanges f)) MaxNumAckRanges in
  let length := 1 + 8 + 8 + 1 + 8 + (if hasECN f then 8 + 8 + 8 else 0) + 2 * 8 * (numRanges - 1) in
  if length <=? maxSize then Ret numRanges else
  let! la := LargestAcked f in
  let! ll := quicvarint.Len (u64 la) in
  let! ld := quicvarint.Len (encodeAckDelay (DelayTime f)) in
  let! '(_, firstRange) := encodeAckRange f 0 in
  let! lf := quicvarint.Len firstRange in
  let! le := ecn_length f in
  fitting_ranges f maxSize (Z.to_nat (numRanges - 1)) 1 (1 + ll + ld + 1 + lf + le).

(** The loop that drops timestamps from the end, one per round *)
Fixpoint drop_timestamps (fuel : nat) (f : AckFrame) (maxSize : Z) : outcome AckFrame :=
  match fuel with
  | O => Ret f
  | S fuel =>
      if 0 <? len (ReceiveTimestamps f) then
        let! l := Length f in
        if maxSize <? l then
          drop_timestamps fuel
            (with_timestamps f (take (length (ReceiveTimestamps f) - 1) (ReceiveTimestamps f))) maxSize
        else Ret f
      else Ret f
  end.

Definition Truncate (f : AckFrame) (maxSize : Z) : outcome AckFrame :=
  let! f := drop_timestamps (length (ReceiveTimestamps f)) f maxSize in
  if 0 <? len (ReceiveTimestamps f) then Ret f else
  let! n := numEncodableAckRanges f maxSize in
  Ret (with_ranges f (take (Z.to_nat n) (AckRanges f))).

(** *** Lookup *)

(** [sort.Search(n, f)]: the loop of the standard library, which halves
    [j - i] in every round; [n] rounds are enough. *)
Fixpoint search_loop (fuel : nat) (f : Z -> outcome bool) (i j : Z) : outcome Z :=
  match fuel with
  | O => Ret i
  | S fuel =>
      if i <? j then
        let h := Z.shiftr (i + j) 1 in
        let! ok := f h in
        if negb ok then search_loop fuel f (h + 1) j else search_loop fuel f i h
      else Ret i
  end.
Definition Search (n : Z) (f : Z -> outcome bool) : outcome Z := search_loop (Z.to_nat n) f 0 n.

Definition AcksPacket (f : AckFrame) (p : Z) : outcome bool :=
  let! lowest := LowestAcked f in
  if p <? lowest then Ret false else
  let! largest := LargestAcked f in
  if largest <? p then Ret false else
  let! i := Search (len (AckRanges f))
              (fun i => let! r := index (AckRanges f) i in Ret (Smallest r <=? p)) in
  let! r := index (AckRanges f) i in
  Ret (p <=? Largest r).

(** *** Receive timestamps *)

Definition newer_first (a b : ReceiveTimestamp) : Prop := Packet b <= Packet a.
#[global] Instance newer_first_dec a b : Decision (newer_first a b) := Z_le_dec _ _.

(** The second loop: [out] is kept with its last element *)
Fixpoint keep_timestamps (f : AckFrame) (ts out : list ReceiveTimestamp) : outcome (list ReceiveTimestamp) :=
  match ts with
  | [] => Ret out
  | t :: ts =>
      let! acked := AcksPacket f (Packet t) in
      if negb acked then keep_timestamps f ts out else
      match last out with
      | Some o =>
          if (Packet t =? Packet o) || (Micros o <? Micros t) then keep_timestamps f ts out
          else keep_timestamps f ts (out ++ [t])
      | None => keep_timestamps f ts (out ++ [t])
      end
  end.

Definition PrepareReceiveTimestamps (f : AckFrame) : outcome AckFrame :=
  let! out := keep_timestamps f (merge_sort newer_first (ReceiveTimestamps f)) [] in
  Ret (with_timestamps f out).

Definition Reset (f : AckFrame) : AckFrame := empty_frame.

(** [FrameParser.ParseAckFrame]: the frame struct that is used over and over
    again is reset first; [1RTT] packets use the peer's exponent. *)
Definition ParseAckFrame (ackFrame : AckFrame) (exponent : Z) (is1RTT : bool) (frameType : Z) (data : bytes)
    : outcome (AckFrame * Z) :=
  let ackDelayExponent := if is1RTT then exponent else 3 in
  owrap "FRAME_ENCODING_ERROR (frame type: %d): %s" [pretty frameType]
    (parseAckFrame (Reset ackFrame) data frameType ackDelayExponent).

End Ack.
