(* ===== verification/AckFrameProps.v ===== *)
(** * ACK frames: what is written, read, truncated and looked up

    A valid frame has ranges that go down with at least one packet between
    them.  [ack_fields] is its abstract content, a list of numbers; the writer
    emits exactly their encodings, the length computed in advance is the
    length written, the parser gets the frame back, and the lookup decides
    membership.  The receive timestamps have a decoder here, since the code
    only writes them. *)
From S2P Require Import Prelude Varint AckFrame.

Local Open Scope Z_scope.
Local Open Scope go_scope.

(** ** Lists of numbers *)

Definition put (xs : list Z) : bytes := concat (encoding <$> xs).

Definition size (xs : list Z) : Z := len (put xs).

Lemma put_cons x xs : put (x :: xs) = encoding x ++ put xs.
Proof. done. Qed.
Lemma put_app xs ys : put (xs ++ ys) = put xs ++ put ys.
Proof. unfold put. by rewrite fmap_app, concat_app. Qed.
Lemma put_one x : put [x] = encoding x.
Proof. apply app_nil_r. Qed.
Lemma size_nil : size [] = 0.
Proof. done. Qed.
Lemma size_app xs ys : size (xs ++ ys) = size xs + size ys.
Proof. unfold size. by rewrite put_app, len_app. Qed.
Lemma size_cons x xs : size (x :: xs) = len (encoding x) + size xs.
Proof. unfold size. by rewrite put_cons, len_app. Qed.
Lemma size_nonneg xs : 0 <= size xs.
Proof. apply len_nonneg. Qed.

Lemma encoding_size_range x : 1 <= len (encoding x) <= 8.
Proof.
  rewrite encoding_length. pose proof (size_of_range x).
  pose proof (Z.pow_le_mono_r 2 0 (size_of x)). pose proof (Z.pow_le_mono_r 2 (size_of x) 3). lia.
Qed.

Lemma encoding_small x : 0 <= x < 64 -> encoding x = [x].
Proof.
  intros. unfold encoding, size_of, tagged. rewrite (proj2 (Z.ltb_lt _ _)) by lia.
  change (Z.to_nat (2 ^ 0)) with 1%nat. cbn [big_endian]. f_equal.
  change (2 ^ (8 * Z.of_nat 0)) with 1. dlia.
Qed.

Lemma readVarint_encoding x rest : is_varint x -> readVarint (encoding x ++ rest) = Ret (x, rest).
Proof.
  intros. unfold readVarint. rewrite Parse_encoding by done.
  unfold len. by rewrite Nat2Z.id, drop_app_length.
Qed.

Lemma readVarint_put x xs rest : is_varint x -> readVarint (put (x :: xs) ++ rest) = Ret (x, put xs ++ rest).
Proof. intros. rewrite put_cons, <- app_assoc. by apply readVarint_encoding. Qed.

Lemma readVarint_total b : Forall is_byte b ->
  match readVarint b with
  | Ret (v, b') => is_varint v /\ Forall is_byte b' /\ (length b' < length b)%nat /\ exists p, b = p ++ b'
  | Err _ => True
  | Panic => False
  end.
Proof.
  intros Hb. unfold readVarint. pose proof (Parse_total b Hb) as Ht.
  destruct (quicvarint.Parse b) as [[v l]|e|]; [|done|done]. destruct Ht as [Hv Hl].
  unfold len in *. split; [done|]. repeat split_and!; [by apply Forall_drop | rewrite length_drop; lia |].
  exists (take (Z.to_nat l) b). by rewrite take_drop.
Qed.

(** ** Valid ranges *)

(** The ranges go down from below [bound], with a gap between them. *)
Fixpoint descending (bound : Z) (rs : list AckRange) : Prop :=
  match rs with
  | [] => True
  | r :: rs => 0 <= Smallest r <= Largest r /\ Largest r + 1 < bound /\ descending (Smallest r) rs
  end.

Definition valid_ranges (rs : list AckRange) : Prop := rs <> [] /\ descending (2 ^ 62 + 1) rs.

Definition in_range (p : Z) (r : AckRange) : Prop := Smallest r <= p <= Largest r.
#[global] Instance in_range_dec p r : Decision (in_range p r).
Proof. unfold in_range. apply _. Defined.

Definition acked (p : Z) (rs : list AckRange) : Prop := Exists (in_range p) rs.

Lemma descending_mono b b' rs : b <= b' -> descending b rs -> descending b' rs.
Proof. destruct rs; cbn; [done|]. intuition lia. Qed.

Lemma descending_app b rs ks : descending b (rs ++ ks) -> descending b rs.
Proof. revert b. induction rs as [|r rs IH]; intros b; cbn; [done|]. naive_solver. Qed.

Lemma descending_lookup b rs i r : descending b rs -> rs !! i = Some r ->
  0 <= Smallest r <= Largest r /\ Largest r + 1 < b.
Proof.
  revert b i. induction rs as [|a rs IH]; intros b [|i] Hd Hi; try done; cbn in *.
  - naive_solver.
  - destruct (IH (Smallest a) i) as [? ?]; [tauto | done |]. lia.
Qed.

Lemma descending_order b rs i j r s : descending b rs -> (i < j)%nat -> rs !! i = Some r -> rs !! j = Some s ->
  Largest s + 1 < Smallest r.
Proof.
  revert b i j. induction rs as [|a rs IH]; intros b [|i] [|j] Hd Hij Hi Hj; try done; try lia; cbn in *.
  - injection Hi as ->. apply (descending_lookup (Smallest r) rs j s); tauto.
  - apply (IH (Smallest a) i j); try tauto. lia.
Qed.

Lemma descending_all b rs : descending b rs -> Forall (fun r => 0 <= Smallest r <= Largest r /\ Largest r + 1 < b) rs.
Proof.
  intros Hd. apply Forall_lookup_2. intros i r Hi. by apply (descending_lookup b rs i).
Qed.

Lemma valid_take n rs : (0 < n)%nat -> valid_ranges rs -> valid_ranges (take n rs).
Proof.
  intros Hn [Hne Hd]. split.
  - destruct rs, n; done || lia.
  - rewrite <- (take_drop n rs) in Hd. by apply descending_app in Hd.
Qed.

(** The check of the parser decides validity of ranges below 2^62. *)
Lemma consistent_spec last rs :
  Forall (fun r => 0 <= Smallest r <= Largest r /\ Largest r < 2 ^ 62) (last :: rs) ->
  Ack.consistent last rs = true <-> descending (Smallest last) rs.
Proof.
  revert last. induction rs as [|r rs IH]; intros last Hf; [done|].
  pose proof Hf as Hf0. apply Forall_cons in Hf as [Hl Hr]. pose proof Hr as Hrs.
  apply Forall_cons in Hr as [Hr _]. cbn. rewrite i64_small by lia.
  destruct (Z.leb_spec (Smallest last) (Smallest r)); [split; [done | lia]|].
  destruct (Z.leb_spec (Smallest last) (Largest r + 1)); [split; [done | lia]|].
  rewrite IH by done. intuition lia.
Qed.

Lemma validateAckRanges_spec f :
  Forall (fun r => 0 <= Smallest r /\ 0 <= Largest r < 2 ^ 62) (AckRanges f) ->
  Ack.validateAckRanges f = true <-> valid_ranges (AckRanges f).
Proof.
  intros Hb. unfold Ack.validateAckRanges, valid_ranges. destruct (AckRanges f) as [|r rs] eqn:E; [naive_solver|].
  destruct (forallb _ (r :: rs)) eqn:Hf.
  - rewrite forallb_forall in Hf.
    assert (Forall (fun r => 0 <= Smallest r <= Largest r /\ Largest r < 2 ^ 62) (r :: rs)) as Hall.
    { rewrite Forall_forall in Hb |- *. intros a Ha. specialize (Hb a Ha).
      specialize (Hf a (proj1 (list_elem_of_In _ _) Ha)). apply negb_true_iff, Z.ltb_ge in Hf. lia. }
    rewrite consistent_spec by done. apply Forall_cons in Hall as [? _]. cbn. intuition (done || lia).
  - split; [done|]. intros [_ Hd]. apply not_true_iff_false in Hf. destruct Hf. apply forallb_forall.
    intros a Ha%list_elem_of_In. apply descending_all in Hd. rewrite Forall_forall in Hd.
    specialize (Hd a Ha). apply negb_true_iff, Z.ltb_ge. cbn in Hd. lia.
Qed.

Lemma valid_ranges_pass f rs : valid_ranges rs -> Ack.validateAckRanges (with_ranges f rs) = true.
Proof.
  intros Hv. apply validateAckRanges_spec; [|exact Hv]. cbn.
  eapply Forall_impl; [exact (descending_all _ _ (proj2 Hv))|]. cbn. intros. lia.
Qed.

(** ** The abstract content of a frame *)

Record valid_frame (f : AckFrame) : Prop := {
  vf_ranges : valid_ranges (AckRanges f);
  vf_delay : 0 <= DelayTime f < 2 ^ 63;
  vf_ect0 : is_varint (ECT0 f);
  vf_ect1 : is_varint (ECT1 f);
  vf_ecnce : is_varint (ECNCE f);
}.

Fixpoint range_fields (prev : AckRange) (rs : list AckRange) : list Z :=
  match rs with
  | [] => []
  | r :: rs => (Smallest prev - Largest r - 2) :: (Largest r - Smallest r) :: range_fields r rs
  end.

Definition ecn_fields (f : AckFrame) : list Z := if Ack.hasECN f then [ECT0 f; ECT1 f; ECNCE f] else [].

(** The numbers after the frame type, for the ranges [rs] *)
Definition fields_of (f : AckFrame) (rs : list AckRange) : list Z :=
  match rs with
  | [] => []
  | r :: rs => [Largest r; DelayTime f / 8000; len rs; Largest r - Smallest r] ++ range_fields r rs ++ ecn_fields f
  end.
Definition ack_fields (f : AckFrame) : list Z := fields_of f (take 64 (AckRanges f)).

Definition type_of (f : AckFrame) : Z := if Ack.hasECN f then 3 else 2.

Lemma encodeAckDelay_spec d : 0 <= d < 2 ^ 63 -> encodeAckDelay d = d / 8000 /\ is_varint (d / 8000).
Proof.
  intros. unfold encodeAckDelay, is_varint. change (1000 * Z.shiftl 1 AckDelayExponent) with 8000.
  rewrite Z.quot_div_nonneg, u64_small by dlia. split; [done | dlia].
Qed.

Lemma decodeAckDelay_encode d : 0 <= d < 2 ^ 63 -> decodeAckDelay (d / 8000) 3 = d - d mod 8000.
Proof.
  intros. unfold decodeAckDelay. rewrite Z.shiftl_mul_pow2, u64_small by dlia.
  rewrite (i64_small (d / 8000 * 2 ^ 3)) by dlia. rewrite i64_small by dlia.
  rewrite (proj2 (Z.ltb_ge _ _)) by dlia. dlia.
Qed.

(** ** The loops over the ranges *)

Fixpoint fold_adjacent {A : Type} (h : A -> AckRange -> AckRange -> A) (prev : AckRange) (rs : list AckRange) (s : A) : A :=
  match rs with [] => s | r :: rs => fold_adjacent h r rs (h s prev r) end.

Lemma ofold_adjacent {A : Type} (g : A -> Z -> outcome A) (h : A -> AckRange -> AckRange -> A) f pre prev rest post s :
  (forall i p r s, 1 <= i -> AckRanges f !! Z.to_nat (i - 1) = Some p -> AckRanges f !! Z.to_nat i = Some r ->
     g s i = Ret (h s p r)) ->
  AckRanges f = pre ++ prev :: rest ++ post ->
  ofold g (seqZ (len pre + 1) (len rest)) s = Ret (fold_adjacent h prev rest s).
Proof.
  intros Hg. revert pre prev s. induction rest as [|r rest IH]; intros pre prev s Hf; [done|].
  unfold len in *. cbn [length]. rewrite Nat2Z.inj_succ, seqZ_cons, Z.pred_succ by lia. cbn [ofold].
  rewrite (Hg _ prev r).
  - cbn [obind fold_adjacent]. specialize (IH (pre ++ [prev]) r (h s prev r)).
    rewrite length_app in IH. cbn in IH. rewrite <- IH; [do 3 f_equal; lia|].
    rewrite Hf. by rewrite <- app_assoc.
  - lia.
  - rewrite Hf. replace (Z.to_nat _) with (length pre) by lia. by rewrite list_lookup_middle.
  - rewrite Hf. replace (Z.to_nat _) with (S (length pre)) by lia.
    rewrite lookup_app_r by lia. by replace (S (length pre) - length pre)%nat with 1%nat by lia.
Qed.

Section frame.
Context (f : AckFrame) (Hv : valid_frame f).

Local Lemma descends : descending (2 ^ 62 + 1) (AckRanges f).
Proof. apply (vf_ranges f Hv). Qed.

Lemma encodeAckRange_first r rs : AckRanges f = r :: rs ->
  Ack.encodeAckRange f 0 = Ret (0, Largest r - Smallest r) /\ is_varint (Largest r - Smallest r) /\ is_varint (Largest r).
Proof.
  intros E. pose proof descends as Hd. rewrite E in Hd. cbn in Hd.
  unfold Ack.encodeAckRange. rewrite E. change (index (r :: rs) 0) with (Ret r). cbn [obind Z.eqb].
  unfold is_varint.
  rewrite i64_small, u64_small by lia. split; [done | lia].
Qed.

Lemma encodeAckRange_next i p r : 1 <= i ->
  AckRanges f !! Z.to_nat (i - 1) = Some p -> AckRanges f !! Z.to_nat i = Some r ->
  Ack.encodeAckRange f i = Ret (Smallest p - Largest r - 2, Largest r - Smallest r) /\
  is_varint (Smallest p - Largest r - 2) /\ is_varint (Largest r - Smallest r).
Proof.
  intros Hi Hp Hr. pose proof descends as Hd.
  destruct (descending_lookup _ _ _ _ Hd Hp) as [? ?]. destruct (descending_lookup _ _ _ _ Hd Hr) as [? ?].
  pose proof (descending_order _ _ (Z.to_nat (i - 1)) (Z.to_nat i) p r Hd ltac:(lia) Hp Hr).
  unfold Ack.encodeAckRange. rewrite (proj2 (Z.eqb_neq i 0)) by lia.
  rewrite (proj2 (index_Ret _ (i - 1) p)), (proj2 (index_Ret _ i r)) by (split; [lia | done]). cbn [obind].
  unfold is_varint. rewrite (i64_small (Smallest p - Largest r)) by lia.
  rewrite !i64_small, !u64_small by lia. split; [done | lia].
Qed.

Lemma append_range_spec i p r b : 1 <= i ->
  AckRanges f !! Z.to_nat (i - 1) = Some p -> AckRanges f !! Z.to_nat i = Some r ->
  Ack.append_range f b i = Ret (b ++ put [Smallest p - Largest r - 2; Largest r - Smallest r]).
Proof.
  intros Hi Hp Hr. destruct (encodeAckRange_next i p r Hi Hp Hr) as (He & H1 & H2).
  unfold Ack.append_range. rewrite He. cbn [obind]. rewrite Append_encoding by done. cbn [obind].
  rewrite Append_encoding by done. by rewrite put_cons, put_one, app_assoc.
Qed.

Lemma range_length_spec i p r : 1 <= i ->
  AckRanges f !! Z.to_nat (i - 1) = Some p -> AckRanges f !! Z.to_nat i = Some r ->
  Ack.range_length f i = Ret (size [Smallest p - Largest r - 2; Largest r - Smallest r]).
Proof.
  intros Hi Hp Hr. destruct (encodeAckRange_next i p r Hi Hp Hr) as (He & H1 & H2).
  unfold Ack.range_length. rewrite He. cbn [obind]. rewrite !Len_encoding by done. cbn [obind].
  rewrite !size_cons, size_nil. f_equal. lia.
Qed.

Lemma fold_append prev rs b :
  fold_adjacent (fun b p r => b ++ put [Smallest p - Largest r - 2; Largest r - Smallest r]) prev rs b
  = b ++ put (range_fields prev rs).
Proof.
  revert prev b. induction rs as [|r rs IH]; intros prev b; [by rewrite app_nil_r|].
  cbn [fold_adjacent range_fields]. rewrite IH, <- app_assoc, <- put_app. done.
Qed.

Lemma fold_length prev rs n :
  fold_adjacent (fun n p r => n + size [Smallest p - Largest r - 2; Largest r - Smallest r]) prev rs n
  = n + size (range_fields prev rs).
Proof.
  revert prev n. induction rs as [|r rs IH]; intros prev n; cbn [fold_adjacent range_fields].
  - rewrite size_nil. lia.
  - rewrite IH, !size_cons, size_nil. lia.
Qed.

Lemma append_ecn_spec b : Ack.append_ecn f b = Ret (b ++ put [ECT0 f; ECT1 f; ECNCE f]).
Proof.
  destruct Hv. unfold Ack.append_ecn. rewrite Append_encoding by done. cbn [obind].
  rewrite Append_encoding by done. cbn [obind]. rewrite Append_encoding by done.
  rewrite !put_cons. change (put []) with (@nil Z). by rewrite app_nil_r, !app_assoc.
Qed.

Lemma ecn_length_spec : Ack.ecn_length f = Ret (size (ecn_fields f)).
Proof.
  destruct Hv. unfold Ack.ecn_length, ecn_fields. destruct (Ack.hasECN f); [|done].
  rewrite !Len_encoding by done. cbn [obind]. rewrite !size_cons, size_nil. f_equal. lia.
Qed.

(** The ranges that are written *)
Lemma written_ranges : exists r rs, AckRanges f = r :: rs /\ take 64 (AckRanges f) = r :: take 63 rs /\
  Z.min (len (AckRanges f)) MaxNumAckRanges = len (take 63 rs) + 1.
Proof.
  destruct (vf_ranges f Hv) as [Hne _]. destruct (AckRanges f) as [|r rs]; [done|]. exists r, rs.
  repeat split; [|..]. unfold len, MaxNumAckRanges. rewrite length_take. cbn [length]. lia.
Qed.

Lemma append_normal_spec b :
  Ack.append_normal f b = Ret (b ++ [type_of f] ++ put (ack_fields f)).
Proof.
  destruct written_ranges as (r & rs & E & Ht & Hn).
  destruct (encodeAckRange_first r rs E) as (He & H1 & H2).
  destruct (encodeAckDelay_spec (DelayTime f)) as [Hd Hdv]; [apply Hv|].
  assert (0 <= len (take 63 rs) <= 63) as Hl by (unfold len; rewrite length_take; lia).
  unfold Ack.append_normal, Ack.LargestAcked. rewrite Hn, He. rewrite E at 1.
  change (index (r :: rs) 0) with (Ret r). cbn [obind].
  rewrite u64_small by (unfold is_varint in *; lia). rewrite Append_encoding by done. cbn [obind].
  rewrite Hd, Append_encoding by done. cbn [obind].
  rewrite u64_small by lia. rewrite Append_encoding by (unfold is_varint; lia). cbn [obind].
  rewrite Append_encoding by done. cbn [obind].
  replace (len (take 63 rs) + 1 - 1) with (len (take 63 rs)) by lia.
  rewrite (ofold_adjacent _ (fun b p r => b ++ put [Smallest p - Largest r - 2; Largest r - Smallest r])
             f [] r (take 63 rs) (drop 63 rs)).
  2:{ intros. by apply append_range_spec. }
  2:{ by rewrite take_drop, E. }
  cbn [obind]. rewrite fold_append, append_ecn_spec. unfold ack_fields. rewrite Ht. cbn [fields_of].
  rewrite !put_app, !put_cons, <- !app_assoc. unfold ecn_fields, type_of, FrameTypeAck, FrameTypeAckECN.
  destruct (Ack.hasECN f); cbn [app put fmap list_fmap concat]; rewrite ?app_nil_r; done.
Qed.

Lemma normal_length_spec : Ack.normal_length f = Ret (1 + size (ack_fields f)).
Proof.
  destruct written_ranges as (r & rs & E & Ht & Hn).
  destruct (encodeAckRange_first r rs E) as (He & H1 & H2).
  destruct (encodeAckDelay_spec (DelayTime f)) as [Hd Hdv]; [apply Hv|].
  assert (0 <= len (take 63 rs) <= 63) as Hl by (unfold len; rewrite length_take; lia).
  unfold Ack.normal_length. rewrite Hn. rewrite E at 1.
  change (index (r :: rs) 0) with (Ret r). cbn [obind]. unfold is_varint in H1, H2.
  rewrite u64_small by lia. rewrite Len_encoding by done. cbn [obind].
  rewrite Hd, Len_encoding by done. cbn [obind]. rewrite i64_small, u64_small by lia.
  rewrite Len_encoding by done. cbn [obind].
  replace (len (take 63 rs) + 1 - 1) with (len (take 63 rs)) by lia.
  rewrite (ofold_adjacent _ (fun n p r => n + size [Smallest p - Largest r - 2; Largest r - Smallest r])
             f [] r (take 63 rs) (drop 63 rs)).
  2:{ intros i p r' n ? ? ?. by rewrite (range_length_spec i p r'). }
  2:{ by rewrite take_drop, E. }
  cbn [obind]. rewrite fold_length, ecn_length_spec. cbn [obind]. f_equal. unfold ack_fields. rewrite Ht.
  cbn [fields_of]. rewrite !size_app, !size_cons, size_nil.
  rewrite (encoding_small (len (take 63 rs))) by lia. unfold len. cbn. lia.
Qed.

End frame.

(** ** Parsing what was written *)

Lemma range_fields_length prev rs : length (range_fields prev rs) = (2 * length rs)%nat.
Proof. revert prev. induction rs as [|r rs IH]; intros prev; cbn; [done|]. rewrite IH. lia. Qed.

Lemma put_long xs : (length xs <= length (put xs))%nat.
Proof.
  induction xs as [|x xs IH]; [done|]. rewrite put_cons, length_app. cbn [length].
  pose proof (encoding_size_range x). unfold len in *. lia.
Qed.

Lemma parse_ranges_put fuel prev rs acc rest :
  descending (Smallest prev) rs -> 0 <= Smallest prev < 2 ^ 62 -> (length rs < fuel)%nat ->
  Ack.parse_ranges fuel (len rs) (Smallest prev) acc (put (range_fields prev rs) ++ rest) = Ret (acc ++ rs, rest).
Proof.
  revert prev acc fuel. induction rs as [|r rs IH]; intros prev acc fuel Hd Hp Hf; (destruct fuel as [|fuel]; [cbn in *; lia|]).
  { cbn. by rewrite app_nil_r. }
  cbn [descending] in Hd. destruct Hd as (Hr & Hlt & Hd). unfold len. cbn [length] in *.
  cbn [Ack.parse_ranges range_fields]. rewrite (proj2 (Z.leb_gt _ _)) by lia.
  rewrite readVarint_put by (unfold is_varint; lia). cbn [obind].
  rewrite (i64_small (Smallest prev - Largest r - 2)) by lia. rewrite i64_small by lia.
  rewrite (proj2 (Z.ltb_ge _ _)) by lia.
  rewrite readVarint_put by (unfold is_varint; lia). cbn [obind].
  rewrite (i64_small (Smallest prev - _)), (i64_small (_ - 2)) by lia.
  rewrite (i64_small (Largest r - Smallest r)) by lia.
  rewrite (proj2 (Z.ltb_ge _ _)) by lia. rewrite i64_small by lia.
  replace (Smallest prev - (Smallest prev - Largest r - 2) - 2) with (Largest r) by lia.
  replace (Largest r - (Largest r - Smallest r)) with (Smallest r) by lia.
  replace {| Smallest := Smallest r; Largest := Largest r |} with r by (by destruct r).
  replace (Z.of_nat (S (length rs)) - 1) with (len rs) by (unfold len; lia).
  rewrite IH by (done || lia). by rewrite <- app_assoc.
Qed.

(** What the peer sees of a frame: the first 64 ranges, the delay in units of
    8 microseconds, no timestamps *)
Definition received_frame (f : AckFrame) : AckFrame :=
  {| ReceiveTimestamps := []; AckRanges := take 64 (AckRanges f);
     DelayTime := DelayTime f - DelayTime f mod 8000;
     ECT0 := ECT0 f; ECT1 := ECT1 f; ECNCE := ECNCE f |}.

Lemma parse_ack_fields f rest : valid_frame f ->
  Ack.parseAckFrame empty_frame (put (ack_fields f) ++ rest) (type_of f) 3
  = Ret (received_frame f, size (ack_fields f)).
Proof.
  intros Hv. destruct (written_ranges f Hv) as (r & rs & E & Ht & Hn).
  destruct (encodeAckRange_first f Hv r rs E) as (_ & H1 & H2).
  destruct (encodeAckDelay_spec (DelayTime f)) as [_ Hdv]; [apply Hv|].
  assert (valid_ranges (r :: take 63 rs)) as Hvr.
  { rewrite <- Ht. apply valid_take; [lia | apply Hv]. }
  assert (0 <= len (take 63 rs) <= 63) as Hl by (unfold len; rewrite length_take; lia).
  pose proof Hvr as [_ Hd]. cbn [descending] in Hd. destruct Hd as (Hr & Hlt & Hd).
  unfold ack_fields. rewrite Ht. set (fs := fields_of f (r :: take 63 rs)).
  unfold Ack.parseAckFrame. cbv zeta.
  change (readVarint (put fs ++ rest)) with (readVarint (put (Largest r :: DelayTime f / 8000 ::
    len (take 63 rs) :: (Largest r - Smallest r) :: range_fields r (take 63 rs) ++ ecn_fields f) ++ rest)).
  rewrite readVarint_put by done. cbn [obind]. rewrite readVarint_put by done. cbn [obind].
  rewrite readVarint_put by (unfold is_varint; lia). cbn [obind]. rewrite readVarint_put by done. cbn [obind].
  unfold is_varint in H1, H2. rewrite !(i64_small (Largest r)), !(i64_small (Largest r - Smallest r)) by lia.
  rewrite (proj2 (Z.ltb_ge _ _)), i64_small by lia.
  replace (Largest r - (Largest r - Smallest r)) with (Smallest r) by lia.
  replace {| Smallest := Smallest r; Largest := Largest r |} with r by (by destruct r).
  rewrite put_app, <- app_assoc.
  rewrite parse_ranges_put; [| done | lia |].
  2:{ rewrite !length_app. pose proof (put_long (range_fields r (take 63 rs))).
      rewrite range_fields_length in *. lia. }
  cbn [obind with_delay AckRanges empty_frame app]. rewrite decodeAckDelay_encode by apply Hv.
  rewrite valid_ranges_pass by done.
  cbn [negb].
  assert (forall k, len (put fs ++ k) - len k = size fs) as Hsz by (intros; rewrite len_app; unfold size; lia).
  unfold type_of, FrameTypeAckECN, ecn_fields, received_frame. rewrite Ht. destruct (Ack.hasECN f) eqn:He.
  - change (3 =? 3) with true. cbv iota. unfold Ack.parse_ecn.
    rewrite readVarint_put by apply Hv. cbn [obind]. rewrite readVarint_put by apply Hv. cbn [obind].
    rewrite readVarint_put by apply Hv. cbn [obind put concat fmap list_fmap app]. rewrite Hsz. done.
  - change (2 =? 3) with false. cbv iota. cbn [obind put concat fmap list_fmap app]. rewrite Hsz.
    unfold Ack.hasECN in He. destruct Hv as [_ _ H3 H4 H5]. unfold is_varint in *.
    apply orb_false_iff in He as [[H6 H7]%orb_false_iff H8]. rewrite Z.ltb_ge in H6, H7, H8.
    replace (ECT0 f) with 0 by lia. replace (ECT1 f) with 0 by lia. by replace (ECNCE f) with 0 by lia.
Qed.

(** ** Parsing arbitrary bytes *)

Definition varint_range (r : AckRange) : Prop := 0 <= Smallest r /\ 0 <= Largest r < 2 ^ 62.

Lemma parse_ranges_total fuel numBlocks smallest acc b :
  Forall is_byte b -> (length b < fuel)%nat -> 0 <= smallest < 2 ^ 62 -> Forall varint_range acc ->
  match Ack.parse_ranges fuel numBlocks smallest acc b with
  | Ret (rs, b') => Forall varint_range rs /\ Forall is_byte b' /\ exists p, b = p ++ b'
  | Err _ => True
  | Panic => False
  end.
Proof.
  revert numBlocks smallest acc b. induction fuel as [|fuel IH]; intros numBlocks smallest acc b Hb Hf Hs Ha; [lia|].
  cbn [Ack.parse_ranges]. destruct (numBlocks <=? 0); [repeat split; [done..|]; by exists []|].
  pose proof (readVarint_total b Hb) as H1. destruct (readVarint b) as [[g b1]| |]; [|done|done].
  destruct H1 as (Hg & Hb1 & Hl1 & p1 & E1). unfold is_varint in Hg. cbn [obind].
  rewrite (i64_small g), (i64_small (g + 2)) by lia. destruct (Z.ltb_spec smallest (g + 2)); [done|].
  pose proof (readVarint_total b1 Hb1) as H2. destruct (readVarint b1) as [[ab b2]| |]; [|done|done].
  destruct H2 as (Hab & Hb2 & Hl2 & p2 & E2). unfold is_varint in Hab. cbn [obind].
  rewrite (i64_small (smallest - g)), (i64_small ab), (i64_small (smallest - g - 2)) by lia.
  destruct (Z.ltb_spec (smallest - g - 2) ab); [done|]. rewrite i64_small by lia.
  specialize (IH (numBlocks - 1) (smallest - g - 2 - ab)
    (acc ++ [{| Smallest := smallest - g - 2 - ab; Largest := smallest - g - 2 |}]) b2 Hb2 ltac:(lia) ltac:(lia)).
  destruct (Ack.parse_ranges _ _ _ _ _) as [[rs b']| |]; [|done|].
  - destruct IH as (Hrs & Hb' & p & ->).
    { apply Forall_app. split; [done|]. constructor; [unfold varint_range; cbn; lia | done]. }
    repeat split; [done..|]. exists (p1 ++ p2 ++ p). by rewrite E1, E2, <- !app_assoc.
  - apply IH. apply Forall_app. split; [done|]. constructor; [unfold varint_range; cbn; lia | done].
Qed.

Lemma decodeAckDelay_range delay e : 0 <= decodeAckDelay delay e < 2 ^ 63.
Proof.
  unfold decodeAckDelay. pose proof (i64_range (i64 (u64 (Z.shiftl delay e)) * 1000)).
  destruct (Z.ltb_spec (i64 (i64 (u64 (Z.shiftl delay e)) * 1000)) 0); unfold maxInt64; lia.
Qed.

(** Reads one field of a chain, in the goal. *)
Ltac read_field b Hb :=
  let H := fresh "Hread" in
  pose proof (readVarint_total b Hb) as H;
  destruct (readVarint b) as [[? ?]| |]; [|done|done];
  destruct H as (? & ? & ? & ? & ?); cbn [obind].

Lemma parse_ecn_total f b : Forall is_byte b ->
  match Ack.parse_ecn f b with
  | Ret (f', b') => (exists e0 e1 ce, f' = with_ecn f e0 e1 ce /\ is_varint e0 /\ is_varint e1 /\ is_varint ce) /\
                    exists p, b = p ++ b'
  | Err _ => True
  | Panic => False
  end.
Proof.
  intros Hb. unfold Ack.parse_ecn.
  read_field b Hb.
  match goal with H : Forall is_byte ?b1 |- context [readVarint ?b1] => read_field b1 H end.
  match goal with H : Forall is_byte ?b1 |- context [readVarint ?b1] => read_field b1 H end.
  split; [by eexists _, _, _|]. subst. eexists. by rewrite !app_assoc.
Qed.

Lemma parse_total b typ e : Forall is_byte b ->
  match Ack.parseAckFrame empty_frame b typ e with
  | Ret (f, n) => valid_frame f /\ ReceiveTimestamps f = [] /\ 0 <= n <= len b
  | Err _ => True
  | Panic => False
  end.
Proof.
  intros Hb. unfold Ack.parseAckFrame. cbv zeta.
  read_field b Hb.
  do 3 match goal with H : Forall is_byte ?b1 |- context [readVarint ?b1] => read_field b1 H end.
  unfold is_varint in *. rewrite !i64_small by lia.
  match goal with |- context [if ?a <? ?c then _ else _] => destruct (Z.ltb_spec a c); [done|] end.
  match goal with |- context [Ack.parse_ranges ?fuel ?n ?s ?acc ?b1] =>
    pose proof (parse_ranges_total fuel n s acc b1) as Hp; destruct (Ack.parse_ranges fuel n s acc b1) as [[rs b']| |] end.
  2: done.
  2:{ cbn. apply Hp; [done | lia | lia |]. repeat constructor; cbn; lia. }
  destruct Hp as (Hrs & Hb' & p & Hpre); [done | lia | lia | repeat constructor; cbn; lia |].
  cbn [obind].
  match goal with |- context [Ack.validateAckRanges ?f] => pose proof (validateAckRanges_spec f Hrs) as Hval;
    destruct (Ack.validateAckRanges f) end; [|done]. cbn [negb].
  apply proj1 in Hval. specialize (Hval eq_refl). cbn [with_ranges AckRanges] in Hval.
  pose proof (decodeAckDelay_range z0 e).
  assert (forall q : bytes, 0 <= len (q ++ b') - len b' <= len (q ++ b')) as Hlen.
  { intros q. rewrite len_app. pose proof (len_nonneg q). pose proof (len_nonneg b'). lia. }
  subst. rewrite !app_assoc. destruct (typ =? FrameTypeAckECN).
  - pose proof (parse_ecn_total (with_ranges (with_delay empty_frame (decodeAckDelay z0 e)) rs) b' Hb') as He.
    destruct (Ack.parse_ecn _ _) as [[f' b2]| |]; [|done|done].
    destruct He as ((e0 & e1 & ce & -> & ? & ? & ?) & p2 & ->). cbn [obind].
    split; [by constructor|]. split; [done|]. rewrite !len_app.
    repeat match goal with |- context [len ?q] => lazymatch goal with H : 0 <= len q |- _ => fail | _ => pose proof (len_nonneg q) end end.
    lia.
  - cbn [obind]. split; [constructor; cbn; unfold is_varint; done || lia|]. split; [done | apply Hlen].
Qed.

(** ** Lookup *)

Lemma search_loop_spec fuel (g : Z -> outcome bool) (P : Z -> bool) lo hi :
  (forall i, lo <= i < hi -> g i = Ret (P i)) ->
  (forall i j, lo <= i <= j -> j < hi -> P i = true -> P j = true) ->
  lo <= hi -> hi - lo <= Z.of_nat fuel ->
  exists i, Ack.search_loop fuel g lo hi = Ret i /\ lo <= i <= hi /\
    (forall j, lo <= j < i -> P j = false) /\ (forall j, i <= j < hi -> P j = true).
Proof.
  revert lo hi. induction fuel as [|fuel IH]; intros lo hi Hg Hmono Hle Hf.
  { exists lo. repeat split; intros; lia. }
  cbn [Ack.search_loop]. destruct (Z.ltb_spec lo hi).
  2:{ exists lo. repeat split; intros; lia. }
  rewrite shiftr_div by lia. change (2 ^ 1) with 2.
  rewrite Hg by dlia. cbn [obind]. set (h := (lo + hi) / 2). assert (lo <= h < hi) by (unfold h; dlia).
  destruct (P h) eqn:Hh; cbn [negb].
  - destruct (IH lo h) as (i & -> & Hi & H1 & H2); [intros; apply Hg; lia | intros; eapply Hmono; eauto; lia | lia | lia |].
    exists i. split; [done|]. repeat split; [lia | lia | done |]. intros j Hj.
    destruct (Z.lt_ge_cases j h); [apply H2; lia | apply (Hmono h); [lia | lia | done]].
  - destruct (IH (h + 1) hi) as (i & -> & Hi & H1 & H2); [intros; apply Hg; lia | intros; eapply Hmono; eauto; lia | lia | lia |].
    exists i. split; [done|]. repeat split; [lia | lia | | done]. intros j Hj.
    destruct (Z.le_gt_cases j h); [|apply H1; lia].
    destruct (P j) eqn:Ej; [|done]. assert (P h = true) by (apply (Hmono j); [lia | lia | done]). congruence.
Qed.

Lemma LargestAcked_spec f r rs : AckRanges f = r :: rs -> Ack.LargestAcked f = Ret (Largest r).
Proof. intros E. unfold Ack.LargestAcked. rewrite E. reflexivity. Qed.

Lemma AcksPacket_spec f p : valid_ranges (AckRanges f) ->
  Ack.AcksPacket f p = Ret (bool_decide (acked p (AckRanges f))).
Proof.
  intros [Hne Hd]. set (rs := AckRanges f) in *.
  assert (0 < len rs) by (unfold len; destruct rs; [done | cbn; lia]).
  destruct (lookup_lt_is_Some_2 rs 0) as [rf Hrf]; [unfold len in *; lia|].
  destruct (lookup_lt_is_Some_2 rs (length rs - 1)) as [rl Hrl]; [unfold len in *; lia|].
  assert (Hin : forall i r, rs !! i = Some r -> Largest r <= Largest rf /\ Smallest rl <= Smallest r).
  { intros i r Hi. pose proof (lookup_lt_Some _ _ _ Hi). split.
    - destruct i as [|i]; [replace r with rf by congruence; lia|].
      pose proof (descending_order _ _ 0 (S i) _ _ Hd ltac:(lia) Hrf Hi).
      destruct (descending_lookup _ _ _ _ Hd Hrf) as [? _]. lia.
    - destruct (decide (i = length rs - 1)%nat) as [->|]; [replace r with rl by congruence; lia|].
      pose proof (descending_order _ _ i (length rs - 1) _ _ Hd ltac:(lia) Hi Hrl).
      destruct (descending_lookup _ _ _ _ Hd Hrl) as [? _]. lia. }
  assert (Hex : acked p rs <-> exists i r, rs !! i = Some r /\ in_range p r).
  { unfold acked. rewrite Exists_exists. setoid_rewrite list_elem_of_lookup. naive_solver. }
  unfold Ack.AcksPacket, Ack.LowestAcked, Ack.LargestAcked. fold rs.
  rewrite (proj2 (index_Ret rs (len rs - 1) rl)), (proj2 (index_Ret rs 0 rf)).
  2:{ split; [lia | exact Hrf]. }
  2:{ unfold len in *. split; [lia|]. by replace (Z.to_nat _) with (length rs - 1)%nat by lia. }
  cbn [obind]. destruct (Z.ltb_spec p (Smallest rl)).
  { rewrite bool_decide_false; [done|]. rewrite Hex. intros (i & r & Hi & Hp). unfold in_range in Hp.
    destruct (Hin i r Hi). lia. }
  destruct (Z.ltb_spec (Largest rf) p).
  { rewrite bool_decide_false; [done|]. rewrite Hex. intros (i & r & Hi & Hp). unfold in_range in Hp.
    destruct (Hin i r Hi). lia. }
  destruct (search_loop_spec (Z.to_nat (len rs)) (fun i => let! r := index rs i in Ret (Smallest r <=? p))
    (fun i => match rs !! Z.to_nat i with Some r => Smallest r <=? p | None => false end) 0 (len rs))
    as (i & Hs & Hi & Hlow & Hhigh).
  - intros i Hi. destruct (lookup_lt_is_Some_2 rs (Z.to_nat i)) as [r Hr]; [unfold len in *; lia|].
    rewrite (proj2 (index_Ret rs i r)), Hr by (split; [lia | done]). done.
  - intros i j Hij Hj. destruct (rs !! Z.to_nat i) as [ri|] eqn:Ei; [|done].
    destruct (lookup_lt_is_Some_2 rs (Z.to_nat j)) as [rj Ej]; [unfold len in *; lia|]. rewrite Ej, !Z.leb_le.
    intros. destruct (decide (i = j)) as [->|]; [replace rj with ri by congruence; done|].
    pose proof (descending_order _ _ (Z.to_nat i) (Z.to_nat j) ri rj Hd ltac:(lia) Ei Ej).
    destruct (descending_lookup _ _ _ _ Hd Ej) as [? _]. lia.
  - lia.
  - lia.
  - unfold Ack.Search. rewrite Hs. cbn [obind].
    assert (i < len rs) as Hlt.
    { destruct (Z.lt_ge_cases i (len rs)); [done|]. exfalso. specialize (Hlow (len rs - 1) ltac:(lia)).
      replace (Z.to_nat (len rs - 1)) with (length rs - 1)%nat in Hlow by (unfold len; lia).
      rewrite Hrl in Hlow. apply Z.leb_gt in Hlow. lia. }
    destruct (lookup_lt_is_Some_2 rs (Z.to_nat i)) as [r Hr]; [unfold len in *; lia|].
    rewrite (proj2 (index_Ret rs i r)) by (split; [lia | done]). cbn [obind]. f_equal.
    pose proof (Hhigh i ltac:(lia)) as Hsm. rewrite Hr in Hsm. apply Z.leb_le in Hsm.
    destruct (Z.leb_spec p (Largest r)).
    + rewrite bool_decide_true; [done|]. apply Hex. by exists (Z.to_nat i), r.
    + rewrite bool_decide_false; [done|]. rewrite Hex. intros (j & r' & Hj & Hp). unfold in_range in Hp.
      destruct (Nat.lt_trichotomy j (Z.to_nat i)) as [Hji | [-> | Hij]].
      * specialize (Hlow (Z.of_nat j) ltac:(lia)). rewrite Nat2Z.id, Hj in Hlow. apply Z.leb_gt in Hlow. lia.
      * replace r' with r in Hp by congruence. lia.
      * pose proof (descending_order _ _ _ _ _ _ Hd Hij Hr Hj). lia.
Qed.

(** ** Receive timestamps *)

(** Packets go down, arrival times do not go up: what the format can say *)
Fixpoint stamps_below (p m : Z) (ts : list ReceiveTimestamp) : Prop :=
  match ts with
  | [] => True
  | t :: ts => 0 <= Packet t < p /\ 0 <= Micros t <= m /\ stamps_below (Packet t) (Micros t) ts
  end.

Definition valid_stamps (ts : list ReceiveTimestamp) : Prop := stamps_below (2 ^ 62) (2 ^ 62 - 1) ts.

Fixpoint deltas (prev : Z) (ts : list ReceiveTimestamp) : list Z :=
  match ts with [] => [] | t :: ts => (prev - Micros t) :: deltas (Micros t) ts end.

Definition last_micros (prev : Z) (run : list ReceiveTimestamp) : Z :=
  match last run with Some t => Micros t | None => prev end.

Definition gap_field (before : option Z) (run : list ReceiveTimestamp) : Z :=
  match before, run with Some p, t :: _ => p - Packet t - 2 | _, _ => 0 end.

Fixpoint runs_fields (before : option Z) (prev : Z) (rs : list (list ReceiveTimestamp)) : list Z :=
  match rs with
  | [] => []
  | run :: rs =>
      gap_field before run :: len run :: deltas prev run
        ++ runs_fields (Ack.last_packet run) (last_micros prev run) rs
  end.

Definition stamp_fields (ts : list ReceiveTimestamp) : list Z :=
  match ts with
  | [] => []
  | t :: _ =>
      Packet t :: Micros t :: len (Ack.timestamp_runs ts)
        :: runs_fields None (2 * Micros t) (Ack.timestamp_runs ts)
  end.

(** The packets of a run go down by one. *)
Fixpoint consecutive (p : Z) (run : list ReceiveTimestamp) : Prop :=
  match run with [] => True | t :: run => Packet t = p - 1 /\ consecutive (Packet t) run end.

Definition last_packet_from (p : Z) (run : list ReceiveTimestamp) : Z := from_option Packet p (last run).

Lemma last_packet_from_cons p t run : last_packet_from p (t :: run) = last_packet_from (Packet t) run.
Proof. unfold last_packet_from. rewrite last_cons. by destruct (last run). Qed.

Lemma stamps_below_app p m ts ks : stamps_below p m (ts ++ ks) ->
  stamps_below p m ts /\ stamps_below (last_packet_from p ts) (last_micros m ts) ks.
Proof.
  revert p m. induction ts as [|t ts IH]; intros p m; cbn [app stamps_below]; [done|].
  intros (Hp & Hm & H). apply IH in H as [H1 H2]. split; [done|].
  rewrite last_packet_from_cons. unfold last_micros in *. rewrite last_cons. by destruct (last ts).
Qed.

Lemma contiguous_spec t ts m : stamps_below (Packet t) m ts -> Packet t < 2 ^ 62 ->
  exists run after, Ack.contiguous t ts = (run, after) /\ ts = run ++ after /\ consecutive (Packet t) run /\
    match after with [] => True | a :: _ => Packet a <= last_packet_from (Packet t) run - 2 end.
Proof.
  revert t m. induction ts as [|a ts IH]; intros t m Hs Ht; cbn [Ack.contiguous].
  { by exists [], []. }
  cbn in Hs. destruct Hs as (Ha & Hm & Hs). rewrite i64_small by lia.
  destruct (Z.eqb_spec (Packet t - Packet a) 1).
  - destruct (IH a _ Hs ltac:(lia)) as (run & after & -> & -> & Hc & Hafter).
    exists (a :: run), after. repeat split; [lia | done |].
    rewrite last_packet_from_cons. done.
  - exists [], (a :: ts). repeat split. cbn. lia.
Qed.

Lemma stamps_below_last p m l : stamps_below p m l -> l <> [] ->
  exists q u, 0 <= q < p /\ 0 <= u <= m /\ Ack.last_packet l = Some q /\ last_packet_from p l = q /\
    forall prev, last_micros prev l = u.
Proof.
  revert p m. induction l as [|t l IH]; intros p m Hs Hne; [done|]. cbn in Hs. destruct Hs as (Hp & Hm & Hs).
  destruct l as [|a l].
  { exists (Packet t), (Micros t). done. }
  destruct (IH _ _ Hs ltac:(done)) as (q & u & Hq & Hu & Hl & Hf & Hlm). exists q, u.
  rewrite last_packet_from_cons. unfold Ack.last_packet, last_micros in *. cbn [last] in *.
  repeat split; try done; lia.
Qed.

Definition delta_ok (prev : Z) (ts : list ReceiveTimestamp) : Prop :=
  match ts with t :: _ => 0 <= prev - Micros t < 2 ^ 62 | [] => True end.

Lemma delta_ok_below p m ts : stamps_below p m ts -> m < 2 ^ 62 -> delta_ok m ts.
Proof. destruct ts; cbn; [done | lia]. Qed.

Lemma append_deltas p m prev run b : stamps_below p m run -> m < 2 ^ 62 -> delta_ok prev run ->
  ofold Ack.append_delta run (b, prev) = Ret (b ++ put (deltas prev run), last_micros prev run).
Proof.
  revert p m prev b. induction run as [|t run IH]; intros p m prev b Hs Hm Hd.
  { cbn. by rewrite app_nil_r. }
  cbn in Hs, Hd. destruct Hs as (Hp & Ht & Hs). cbn [ofold deltas]. unfold Ack.append_delta at 1. cbn [fst snd].
  rewrite u64_small, Append_encoding by (unfold is_varint; lia). cbn [obind].
  rewrite (IH (Packet t) (Micros t)) by (done || lia || (eapply delta_ok_below; [done | lia])).
  rewrite put_cons, app_assoc. unfold last_micros. rewrite last_cons. by destruct (last run).
Qed.

Lemma length_deltas p m prev run n : stamps_below p m run -> m < 2 ^ 62 -> delta_ok prev run ->
  ofold Ack.delta_length run (n, prev) = Ret (n + size (deltas prev run), last_micros prev run).
Proof.
  revert p m prev n. induction run as [|t run IH]; intros p m prev n Hs Hm Hd.
  { cbn. rewrite size_nil. do 2 f_equal. lia. }
  cbn in Hs, Hd. destruct Hs as (Hp & Ht & Hs). cbn [ofold deltas]. unfold Ack.delta_length at 1. cbn [fst snd].
  rewrite u64_small, Len_encoding by (unfold is_varint; lia). cbn [obind].
  rewrite (IH (Packet t) (Micros t)) by (done || lia || (eapply delta_ok_below; [done | lia])).
  rewrite size_cons. unfold last_micros. rewrite last_cons. destruct (last run); do 2 f_equal; lia.
Qed.

(** The packet before a run leaves room for the gap. *)
Definition gap_ok (before : option Z) (ts : list ReceiveTimestamp) : Prop :=
  match before, ts with Some p, t :: _ => p < 2 ^ 62 /\ Packet t <= p - 2 | _, _ => True end.

Lemma gap_before_spec before t run p m : stamps_below p m (t :: run) -> gap_ok before (t :: run) ->
  Ack.gap_before before (t :: run) = Ret (gap_field before (t :: run)) /\
  (p <= 2 ^ 62 -> is_varint (gap_field before (t :: run))).
Proof.
  cbn [stamps_below]. intros (Hp & _ & _) Hg. unfold Ack.gap_before, gap_field, gap_ok, is_varint in *.
  destruct before as [q|]; [|split; [done | lia]].
  change (index (t :: run) 0) with (Ret t). cbn [obind].
  rewrite (i64_small (q - Packet t)), i64_small, u64_small by lia. split; [done | lia].
Qed.

Lemma runs_written fuel ts before prev p m b n k :
  (length ts <= fuel)%nat -> stamps_below p m ts -> p <= 2 ^ 62 -> m < 2 ^ 62 -> len ts < 2 ^ 62 ->
  delta_ok prev ts -> gap_ok before ts ->
  let rs := Ack.runs_from fuel ts in
  (exists x y, ofold Ack.append_run rs (b, before, prev) = Ret (b ++ put (runs_fields before prev rs), x, y)) /\
  (exists x y, ofold Ack.run_length rs (n, k, before, prev) =
     Ret (n + size (runs_fields before prev rs), (if before then k + len rs else if rs then k else k + len rs - 1), x, y)).
Proof.
  revert ts before prev p m b n k. induction fuel as [|fuel IH];
    intros ts before prev p m b n k Hf Hs Hp Hm Hl Hd Hg rs; subst rs.
  { destruct ts; [|cbn in Hf; lia]. cbn [Ack.runs_from ofold runs_fields]. rewrite app_nil_r, size_nil.
    split; eexists _, _; [done|]. destruct before; do 4 f_equal; unfold len; cbn; lia. }
  destruct ts as [|t ts].
  { cbn [Ack.runs_from ofold runs_fields]. rewrite app_nil_r, size_nil.
    split; eexists _, _; [done|]. destruct before; do 4 f_equal; unfold len; cbn; lia. }
  cbn [Ack.runs_from]. pose proof Hs as Hs0. cbn [stamps_below] in Hs. destruct Hs as (Htp & Htm & Hs).
  destruct (contiguous_spec t ts _ Hs ltac:(lia)) as (run & after & -> & -> & Hc & Hafter).
  change (t :: run ++ after) with ((t :: run) ++ after) in Hs0.
  apply stamps_below_app in Hs0 as [Hr Ha].
  destruct (gap_before_spec before t run p m Hr Hg) as [Hgb Hgv]. specialize (Hgv Hp).
  assert (is_varint (len (t :: run))) as Hlr.
  { unfold is_varint, len in *. cbn [length] in *. rewrite length_app in Hl. lia. }
  destruct (stamps_below_last p m (t :: run) Hr ltac:(done)) as (q & u & Hq & Hu & Hlp & Hlf & Hlm).
  rewrite Hlf, Hlm in Ha. rewrite last_packet_from_cons in Hlf. rewrite Hlf in Hafter. cbn [ofold]. unfold Ack.append_run at 1. unfold Ack.run_length at 1.
  rewrite Hgb. cbn [obind]. rewrite u64_small by (unfold is_varint in Hlr; lia).
  rewrite !Append_encoding by done. cbn [obind]. rewrite Append_encoding, !Len_encoding by done. cbn [obind].
  rewrite (append_deltas p m), (length_deltas p m) by done. cbn [obind].
  rewrite Hlm, Hlp.
  set (b1 := (_ ++ put (deltas prev (t :: run)))). set (n1 := (_ + size (deltas prev (t :: run)))).
  set (k1 := if before then k + 1 else k).
  unfold len in Hl. cbn [length] in Hf, Hl. rewrite length_app in Hf, Hl.
  destruct (IH after (Some q) u q u b1 n1 k1) as [(x1 & y1 & E1) (x2 & y2 & E2)];
    [lia | done | lia | lia | unfold len; lia | eapply delta_ok_below; [done | lia] | |].
  { destruct after; cbn in *; [done | lia]. }
  split.
  - exists x1, y1. rewrite E1. unfold b1. cbn [runs_fields]. rewrite Hlp, Hlm.
    rewrite !put_cons, put_app, <- !app_assoc. done.
  - exists x2, y2. rewrite E2. unfold n1, k1. cbn [runs_fields]. rewrite Hlp, Hlm, !size_cons, size_app.
    do 4 f_equal; [lia|]. unfold len. cbn [length]. destruct before; lia.
Qed.

Lemma count_contiguous t ts run after k : Ack.contiguous t ts = (run, after) ->
  Ack.count_ranges t ts k = match after with [] => k | a :: rest => Ack.count_ranges a rest (k + 1) end.
Proof.
  revert t run k. induction ts as [|a ts IH]; intros t run k; cbn [Ack.contiguous Ack.count_ranges].
  { by intros [= <- <-]. }
  destruct (i64 (Packet t - Packet a) =? 1) eqn:E; cbn [negb].
  - destruct (Ack.contiguous a ts) as [run' after'] eqn:Ec. intros [= <- <-]. by apply (IH a run').
  - intros [= <- <-]. done.
Qed.

Lemma contiguous_length t ts run after : Ack.contiguous t ts = (run, after) -> (length after <= length ts)%nat.
Proof.
  revert t run. induction ts as [|a ts IH]; intros t run; cbn [Ack.contiguous].
  { by intros [= <- <-]. }
  destruct (i64 (Packet t - Packet a) =? 1).
  - destruct (Ack.contiguous a ts) as [run' after'] eqn:Ec. intros [= <- <-]. apply IH in Ec. cbn. lia.
  - intros [= <- <-]. done.
Qed.

(** The count of the first loop is the number of runs of the second. *)
Lemma count_ranges_runs fuel t ts k : (length ts < fuel)%nat ->
  Ack.count_ranges t ts k = k + len (Ack.runs_from fuel (t :: ts)) - 1.
Proof.
  revert t ts k. induction fuel as [|fuel IH]; intros t ts k Hf; [lia|]. cbn [Ack.runs_from].
  destruct (Ack.contiguous t ts) as [run after] eqn:E. rewrite (count_contiguous _ _ _ _ _ E).
  apply contiguous_length in E. destruct after as [|a rest].
  - destruct fuel; unfold len; cbn; lia.
  - cbn in E. rewrite IH by lia. unfold len. cbn [length]. lia.
Qed.

Definition frame_bytes (f : AckFrame) : bytes :=
  if 0 <? len (ReceiveTimestamps f) then
    encoding 176 ++ put (ack_fields (Ack.normal_of f)) ++ put (stamp_fields (ReceiveTimestamps f))
      ++ (if Ack.hasECN f then [FrameTypeAckECN] ++ put (ack_fields f) else [])
  else [type_of f] ++ put (ack_fields f).

Lemma valid_normal_of f : valid_frame f -> valid_frame (Ack.normal_of f).
Proof. intros [H1 H2 H3 H4 H5]. constructor; cbn; done. Qed.

(** The frame that follows carries the same numbers as [f]. *)
Lemma valid_ecn_frame f : valid_frame f ->
  valid_frame (with_ecn (Ack.normal_of f) (ECT0 f) (ECT1 f) (ECNCE f)) /\
  ack_fields (with_ecn (Ack.normal_of f) (ECT0 f) (ECT1 f) (ECNCE f)) = ack_fields f.
Proof. intros [H1 H2 H3 H4 H5]. split; [by constructor | done]. Qed.

Definition wf_frame (f : AckFrame) : Prop :=
  valid_frame f /\ valid_stamps (ReceiveTimestamps f) /\ len (ReceiveTimestamps f) < 2 ^ 62.

Lemma runs_count_bound fuel ts : (length (Ack.runs_from fuel ts) <= length ts)%nat.
Proof.
  revert ts. induction fuel as [|fuel IH]; intros ts; cbn [Ack.runs_from]; [cbn; lia|]. destruct ts as [|t ts]; [done|].
  destruct (Ack.contiguous t ts) as [run after] eqn:E. apply contiguous_length in E. specialize (IH after). cbn. lia.
Qed.

Lemma frame_written f b : wf_frame f ->
  Ack.Append f b = Ret (b ++ frame_bytes f) /\ Ack.Length f = Ret (len (frame_bytes f)).
Proof.
  intros (Hv & Hs & Hl). unfold Ack.Append, Ack.Length, frame_bytes.
  destruct (Z.ltb_spec 0 (len (ReceiveTimestamps f))) as [Hpos|Hpos].
  2:{ rewrite append_normal_spec, normal_length_spec by done. rewrite len_app. done. }
  pose proof (valid_normal_of f Hv) as Hn. destruct (valid_ecn_frame f Hv) as [He Hef].
  destruct (ReceiveTimestamps f) as [|t ts] eqn:Et; [done|].
  pose proof Hs as Hs0. cbn [valid_stamps stamps_below] in Hs0. destruct Hs0 as (Htp & Htm & _).
  destruct (runs_written (length (t :: ts)) (t :: ts) None (2 * Micros t) (2 ^ 62) (2 ^ 62 - 1)
    (b ++ encoding 176 ++ put (ack_fields (Ack.normal_of f)) ++ encoding (Packet t) ++ encoding (Micros t)
       ++ encoding (len (Ack.timestamp_runs (t :: ts))))
    (1 + size (ack_fields (Ack.normal_of f)) + 1 + (len (encoding (Packet t)) + len (encoding (Micros t)))) 1)
    as [(x1 & y1 & E1) (x2 & y2 & E2)]; [lia | done | lia | lia | done | cbn; lia | done |].
  pose proof (runs_count_bound (length (t :: ts)) (t :: ts)) as Hc.
  pose proof (count_ranges_runs (length (t :: ts)) t ts 1 ltac:(cbn; lia)) as Hcr.
  fold (Ack.timestamp_runs (t :: ts)) in E1, E2, Hc, Hcr.
  assert (is_varint (len (Ack.timestamp_runs (t :: ts)))) as Hrv by (unfold is_varint, len in *; lia).
  split.
  - unfold Ack.appendReceiveTimestamps. rewrite Append_encoding by done. cbn [obind].
    rewrite append_normal_spec by done. cbn [obind].
    replace (take _ _ ++ drop _ _) with ((b ++ encoding 176) ++ put (ack_fields (Ack.normal_of f))).
    2:{ rewrite take_app_length. f_equal. rewrite drop_app_ge by lia.
        by replace (S (length (b ++ encoding 176)) - length (b ++ encoding 176))%nat with 1%nat by lia. }
    rewrite Et. change (index (t :: ts) 0) with (Ret t). cbn [obind].
    rewrite u64_small, Append_encoding by (unfold is_varint; lia). cbn [obind].
    rewrite Append_encoding by (unfold is_varint; lia). cbn [obind].
    change (drop 1 (t :: ts)) with ts. rewrite Hcr. replace (1 + len (Ack.timestamp_runs (t :: ts)) - 1) with (len (Ack.timestamp_runs (t :: ts))) by lia.
    unfold is_varint in Hrv. rewrite u64_small, Append_encoding by done || lia. cbn [obind].
    rewrite (Z.mul_comm (Micros t)), u64_small by lia. rewrite <- !app_assoc, E1. cbn [obind].
    destruct (Ack.hasECN f) eqn:Hecn.
    + rewrite append_normal_spec, Hef by done. unfold type_of. change (Ack.hasECN (with_ecn _ _ _ _)) with (Ack.hasECN f).
      rewrite Hecn. cbn [stamp_fields]. rewrite !put_cons, <- !app_assoc. done.
    + cbn [stamp_fields]. rewrite !put_cons, <- !app_assoc, app_nil_r. done.
  - unfold Ack.receiveTimestampsLength. rewrite normal_length_spec by done. cbn [obind].
    rewrite Et. change (index (t :: ts) 0) with (Ret t). cbn [obind].
    rewrite u64_small, !Len_encoding by (unfold is_varint; lia). cbn [obind].
    rewrite (Z.mul_comm (Micros t)), u64_small by lia. rewrite E2. cbn [obind].
    replace (if Ack.timestamp_runs (t :: ts) then 1 else 1 + len (Ack.timestamp_runs (t :: ts)) - 1)
      with (len (Ack.timestamp_runs (t :: ts))) by (unfold Ack.timestamp_runs; cbn [Ack.runs_from length]; destruct (Ack.contiguous t ts); lia).
    unfold is_varint in Hrv. rewrite u64_small, Len_encoding by done || lia. cbn [obind].
    assert (len (encoding 176) = 2) as H2 by done.
    assert (size (stamp_fields (t :: ts)) = len (encoding (Packet t)) + len (encoding (Micros t)) +
      len (encoding (len (Ack.timestamp_runs (t :: ts)))) + size (runs_fields None (2 * Micros t) (Ack.timestamp_runs (t :: ts)))) as Hsf
      by (cbn [stamp_fields]; rewrite !size_cons; lia).
    destruct (Ack.hasECN f).
    + rewrite normal_length_spec, Hef by done. cbn [obind]. rewrite !len_app.
      fold (size (ack_fields (Ack.normal_of f))) (size (stamp_fields (t :: ts))) (size (ack_fields f)).
      rewrite H2, Hsf. change (len [FrameTypeAckECN]) with 1. change (len (@nil Z)) with 0. f_equal. lia.
    + rewrite !len_app. fold (size (ack_fields (Ack.normal_of f))) (size (stamp_fields (t :: ts))).
      rewrite H2, Hsf. change (len [FrameTypeAckECN]) with 1. change (len (@nil Z)) with 0. f_equal. lia.
Qed.

(** ** Reading timestamps back

    The reference decoder of the legacy format: every range gives its gap to
    the packet before it, its number of packets, and one delta per packet,
    taken from the time before it; the first delta is taken from twice the
    latest time. *)
Fixpoint decode_deltas (n : nat) (packet prev : Z) (b : bytes) : outcome (list ReceiveTimestamp * Z * bytes) :=
  match n with
  | O => Ret ([], prev, b)
  | S n =>
      let! '(d, b) := readVarint b in
      let! '(ts, prev', b) := decode_deltas n (packet - 1) (prev - d) b in
      Ret ({| Packet := packet; Micros := prev - d |} :: ts, prev', b)
  end.

Fixpoint decode_runs (n : nat) (before : option Z) (latest prev : Z) (b : bytes)
    : outcome (list ReceiveTimestamp * bytes) :=
  match n with
  | O => Ret ([], b)
  | S n =>
      let! '(gap, b) := readVarint b in
      let! '(count, b) := readVarint b in
      let first := match before with Some p => p - gap - 2 | None => latest end in
      let! '(run, prev, b) := decode_deltas (Z.to_nat count) first prev b in
      let! '(ts, b) := decode_runs n (Some (first - count + 1)) latest prev b in
      Ret (run ++ ts, b)
  end.

Definition decode_stamps (b : bytes) : outcome (list ReceiveTimestamp * bytes) :=
  let! '(latest, b) := readVarint b in
  let! '(micros, b) := readVarint b in
  let! '(n, b) := readVarint b in
  decode_runs (Z.to_nat n) None latest (2 * micros) b.

Lemma decode_deltas_put p m prev run rest packet :
  stamps_below p m run -> m < 2 ^ 62 -> delta_ok prev run -> consecutive (packet + 1) run ->
  decode_deltas (length run) packet prev (put (deltas prev run) ++ rest) = Ret (run, last_micros prev run, rest).
Proof.
  revert p m prev packet. induction run as [|t run IH]; intros p m prev packet Hs Hm Hd Hc; [done|].
  cbn in Hs, Hd. destruct Hs as (Hp & Ht & Hs). destruct Hc as [Hpk Hc].
  cbn [length decode_deltas deltas]. rewrite readVarint_put by (unfold is_varint; lia). cbn [obind].
  replace (prev - (prev - Micros t)) with (Micros t) by lia.
  rewrite (IH (Packet t) (Micros t)); [| done | lia | (eapply delta_ok_below; [done | lia]) | ].
  2:{ replace (packet - 1 + 1) with (Packet t) by lia. done. }
  cbn [obind]. replace packet with (Packet t) by lia. unfold last_micros. rewrite last_cons.
  replace {| Packet := Packet t; Micros := Micros t |} with t by (by destruct t). by destruct (last run).
Qed.

Lemma consecutive_last p run : consecutive p run -> last_packet_from p run = p - len run.
Proof.
  revert p. induction run as [|t run IH]; intros p; cbn [consecutive].
  - intros _. unfold last_packet_from, len. cbn. lia.
  - intros [Ht Hc]. rewrite last_packet_from_cons, IH by done. unfold len. cbn [length]. lia.
Qed.

Lemma decode_runs_put fuel ts before prev p m latest rest :
  (length ts <= fuel)%nat -> stamps_below p m ts -> p <= 2 ^ 62 -> m < 2 ^ 62 -> len ts < 2 ^ 62 ->
  delta_ok prev ts -> gap_ok before ts ->
  (before = None -> match ts with t :: _ => latest = Packet t | [] => True end) ->
  let rs := Ack.runs_from fuel ts in
  decode_runs (length rs) before latest prev (put (runs_fields before prev rs) ++ rest) = Ret (ts, rest).
Proof.
  revert ts before prev p m. induction fuel as [|fuel IH]; intros ts before prev p m Hf Hs Hp Hm Hl Hd Hg Hla rs; subst rs.
  { destruct ts; [done | cbn in Hf; lia]. }
  destruct ts as [|t ts]; [done|].
  cbn [Ack.runs_from]. pose proof Hs as Hs0. cbn [stamps_below] in Hs. destruct Hs as (Htp & Htm & Hs).
  destruct (contiguous_spec t ts _ Hs ltac:(lia)) as (run & after & -> & -> & Hc & Hafter).
  change (t :: run ++ after) with ((t :: run) ++ after) in Hs0 |- *.
  apply stamps_below_app in Hs0 as [Hr Ha].
  destruct (gap_before_spec before t run p m Hr Hg) as [_ Hgv]. specialize (Hgv Hp).
  assert (is_varint (len (t :: run))) as Hlr.
  { unfold is_varint, len in *. cbn [length] in *. rewrite length_app in Hl. lia. }
  destruct (stamps_below_last p m (t :: run) Hr ltac:(done)) as (q & u & Hq & Hu & Hlp & Hlf & Hlm).
  rewrite Hlf, Hlm in Ha. rewrite last_packet_from_cons in Hlf. rewrite Hlf in Hafter.
  cbn [length decode_runs runs_fields]. rewrite readVarint_put by done. cbn [obind].
  rewrite readVarint_put by done. cbn [obind]. rewrite put_app, <- app_assoc.
  assert (match before with Some p => p - gap_field before (t :: run) - 2 | None => latest end = Packet t) as ->.
  { destruct before; cbn; [lia | by apply Hla]. }
  unfold len at 1. rewrite Nat2Z.id.
  rewrite (decode_deltas_put p m) by (done || (cbn; split; [lia | exact Hc])).
  cbn [obind]. rewrite Hlp, Hlm.
  replace (Packet t - len (t :: run) + 1) with q.
  2:{ rewrite <- Hlf, (consecutive_last _ _ Hc). unfold len. cbn [length]. lia. }
  unfold len in Hl. cbn [length] in Hf, Hl. rewrite length_app in Hf, Hl.
  rewrite (IH after (Some q) u q u); [done | lia | done | lia | lia | unfold len; lia | | | done].
  - eapply delta_ok_below; [done | lia].
  - destruct after; cbn in *; [done | lia].
Qed.

Lemma decode_stamp_fields t ts rest : valid_stamps (t :: ts) -> len (t :: ts) < 2 ^ 62 ->
  decode_stamps (put (stamp_fields (t :: ts)) ++ rest) = Ret (t :: ts, rest).
Proof.
  intros Hs Hl. pose proof Hs as Hs0. cbn [valid_stamps stamps_below] in Hs0. destruct Hs0 as (Htp & Htm & _).
  pose proof (runs_count_bound (length (t :: ts)) (t :: ts)) as Hc. fold (Ack.timestamp_runs (t :: ts)) in Hc.
  unfold decode_stamps. cbn [stamp_fields]. rewrite readVarint_put by (unfold is_varint; lia). cbn [obind].
  rewrite readVarint_put by (unfold is_varint; lia). cbn [obind].
  rewrite readVarint_put by (unfold is_varint, len in *; lia). cbn [obind]. unfold len at 1. rewrite Nat2Z.id.
  apply (decode_runs_put _ _ None _ (2 ^ 62) (2 ^ 62 - 1)); done || lia || (cbn; lia).
Qed.

(** ** Preparing timestamps *)

#[global] Instance newer_first_trans : Transitive Ack.newer_first.
Proof. intros a b c. unfold Ack.newer_first. lia. Qed.
#[global] Instance newer_first_total : Total Ack.newer_first.
Proof. intros a b. unfold Ack.newer_first. lia. Qed.

Lemma stamps_below_snoc p m out t : stamps_below p m out ->
  match last out with
  | Some o => 0 <= Packet t < Packet o /\ 0 <= Micros t <= Micros o
  | None => 0 <= Packet t < p /\ 0 <= Micros t <= m
  end -> stamps_below p m (out ++ [t]).
Proof.
  revert p m. induction out as [|a out IH]; intros p m; cbn [app stamps_below]; [cbn; lia|].
  intros (Hp & Hm & Hs) Hl. repeat split; try lia. apply IH; [done|]. rewrite last_cons in Hl. by destruct (last out).
Qed.

Lemma keep_timestamps_spec f ts out :
  valid_ranges (AckRanges f) -> StronglySorted Ack.newer_first ts ->
  Forall (fun t => 0 <= Packet t < 2 ^ 62 /\ 0 <= Micros t < 2 ^ 62) ts ->
  valid_stamps out -> Forall (fun t => acked (Packet t) (AckRanges f)) out ->
  (forall o t, last out = Some o -> t ∈ ts -> Packet t <= Packet o) ->
  exists kept, Ack.keep_timestamps f ts out = Ret (out ++ kept) /\ kept ⊆+ ts /\
    valid_stamps (out ++ kept) /\ Forall (fun t => acked (Packet t) (AckRanges f)) (out ++ kept).
Proof.
  intros Hv. revert out. induction ts as [|t ts IH]; intros out Hss Hb Hs Ha Ho; cbn [Ack.keep_timestamps].
  { exists []. by rewrite app_nil_r. }
  apply StronglySorted_inv in Hss as [Hss Hle]. apply Forall_cons in Hb as [Ht Hb].
  rewrite AcksPacket_spec by done. cbn [obind].
  assert (Hskip : exists kept, Ack.keep_timestamps f ts out = Ret (out ++ kept) /\ kept ⊆+ t :: ts /\
    valid_stamps (out ++ kept) /\ Forall (fun t => acked (Packet t) (AckRanges f)) (out ++ kept)).
  { destruct (IH out Hss Hb Hs Ha) as (kept & E & Hk & Hrest).
    - intros o a Hl Hin. apply Ho; [done | by right].
    - exists kept. split; [done|]. split; [by apply submseteq_cons | done]. }
  destruct (bool_decide_reflect (acked (Packet t) (AckRanges f))) as [Hack|Hack]; cbn [negb]; [|exact Hskip].
  assert (Hkeep : valid_stamps (out ++ [t]) -> exists kept, Ack.keep_timestamps f ts (out ++ [t]) = Ret (out ++ kept) /\
    kept ⊆+ t :: ts /\ valid_stamps (out ++ kept) /\ Forall (fun t => acked (Packet t) (AckRanges f)) (out ++ kept)).
  { intros Hvs. destruct (IH (out ++ [t]) Hss Hb Hvs) as (kept & E & Hk & Hrest).
    - apply Forall_app. by split; [|constructor].
    - intros o a Hl Hin. rewrite last_snoc in Hl. injection Hl as <-. rewrite Forall_forall in Hle. by apply Hle.
    - exists (t :: kept). rewrite <- app_assoc in *. split; [done|]. split; [by apply submseteq_skip | done]. }
  destruct (last out) as [o|] eqn:El.
  - destruct (Z.eqb_spec (Packet t) (Packet o)); cbn [orb]; [exact Hskip|].
    destruct (Z.ltb_spec (Micros o) (Micros t)); [exact Hskip|]. apply Hkeep.
    apply stamps_below_snoc; [done|]. rewrite El. specialize (Ho o t eq_refl ltac:(left)). lia.
  - apply Hkeep. apply stamps_below_snoc; [done|]. rewrite El. lia.
Qed.

Lemma prepare_spec f : valid_ranges (AckRanges f) ->
  Forall (fun t => 0 <= Packet t < 2 ^ 62 /\ 0 <= Micros t < 2 ^ 62) (ReceiveTimestamps f) ->
  exists kept, Ack.PrepareReceiveTimestamps f = Ret (with_timestamps f kept) /\
    kept ⊆+ ReceiveTimestamps f /\ valid_stamps kept /\
    Forall (fun t => acked (Packet t) (AckRanges f)) kept.
Proof.
  intros Hv Hb. set (ts := ReceiveTimestamps f) in *.
  pose proof (merge_sort_Permutation Ack.newer_first ts) as Hperm.
  destruct (keep_timestamps_spec f (merge_sort Ack.newer_first ts) []) as (kept & E & Hk & Hs & Ha); try done.
  - apply (StronglySorted_merge_sort Ack.newer_first ts).
  - by rewrite Hperm.
  - cbn [app] in *. rewrite Hperm in Hk. exists kept.
    split; [|done]. unfold Ack.PrepareReceiveTimestamps. fold ts. by rewrite E.
Qed.

(** ** Truncation *)

(** The bytes of a frame with ranges [r :: rs], apart from those of [rs] *)
Definition base_size (f : AckFrame) (r : AckRange) : Z :=
  1 + len (encoding (Largest r)) + len (encoding (DelayTime f / 8000)) + 1
  + len (encoding (Largest r - Smallest r)) + size (ecn_fields f).

Lemma fields_size f r rs : (length rs <= 63)%nat ->
  1 + size (fields_of f (r :: rs)) = base_size f r + size (range_fields r rs).
Proof.
  intros Hl. cbn [fields_of]. rewrite size_app, !size_cons, size_nil, size_app.
  rewrite (encoding_small (len rs)) by (unfold len; lia). change (len [len rs]) with 1. unfold base_size. lia.
Qed.

Lemma range_fields_take_S r rs k p x : (r :: rs) !! k = Some p -> rs !! k = Some x ->
  range_fields r (take (S k) rs) = range_fields r (take k rs) ++ [Smallest p - Largest x - 2; Largest x - Smallest x].
Proof.
  revert r k. induction rs as [|a rs IH]; intros r k Hp Hx; [done|].
  destruct k as [|k]; cbn in Hp, Hx |- *.
  - injection Hp as ->. injection Hx as ->. by rewrite take_0.
  - specialize (IH a k Hp Hx). cbn in IH. by rewrite IH.
Qed.

Lemma fitting_ranges_spec f maxSize r rs n i base :
  valid_frame f -> AckRanges f = r :: rs -> (i + n <= length rs)%nat ->
  let sz k := base + size (range_fields r (take k rs)) in
  exists k, (k <= n)%nat /\
    Ack.fitting_ranges f maxSize n (Z.of_nat i + 1) (sz i) = Ret (Z.of_nat (i + k) + 1) /\
    (sz i <= maxSize -> sz (i + k)%nat <= maxSize) /\
    ((k < n)%nat -> maxSize < sz (S (i + k))).
Proof.
  intros Hv E. revert i. induction n as [|n IH]; intros i Hi sz; subst sz; cbn beta in *.
  { exists 0%nat. rewrite Nat.add_0_r. split; [lia|]. split; [done|]. split; [done | lia]. }
  cbn [Ack.fitting_ranges].
  destruct (lookup_lt_is_Some_2 (r :: rs) i) as [p Hp]; [cbn; lia|].
  destruct (lookup_lt_is_Some_2 rs i) as [x Hx]; [lia|].
  rewrite (range_length_spec f Hv _ p x).
  2: lia.
  2:{ rewrite E. by replace (Z.to_nat (Z.of_nat i + 1 - 1)) with i by lia. }
  2:{ rewrite E. by replace (Z.to_nat (Z.of_nat i + 1)) with (S i) by lia. }
  cbn [obind]. rewrite <- Z.add_assoc, <- size_app, <- (range_fields_take_S r rs i p x Hp Hx).
  destruct (Z.ltb_spec maxSize (base + size (range_fields r (take (S i) rs)))).
  - exists 0%nat. rewrite Nat.add_0_r. split; [lia|]. split; [done|]. split; [done | done].
  - destruct (IH (S i) ltac:(lia)) as (k & Hk & Ef & Hfit & Hmax). exists (S k).
    rewrite <- Nat.add_succ_comm. split; [lia|].
    replace (Z.of_nat i + 1 + 1) with (Z.of_nat (S i) + 1) by lia. split; [exact Ef|]. split; [auto|].
    intros. apply Hmax. lia.
Qed.

Lemma size_le_8 xs : size xs <= 8 * len xs.
Proof.
  induction xs as [|x xs IH]; [done|]. rewrite size_cons. pose proof (encoding_size_range x).
  unfold len in *. cbn [length]. lia.
Qed.

Lemma numEncodable_spec f maxSize r rs : valid_frame f -> AckRanges f = r :: rs ->
  exists k, (k <= Nat.min (length rs) 63)%nat /\
    Ack.numEncodableAckRanges f maxSize = Ret (Z.of_nat k + 1) /\
    (base_size f r <= maxSize -> base_size f r + size (range_fields r (take k rs)) <= maxSize) /\
    ((k < Nat.min (length rs) 63)%nat -> maxSize < base_size f r + size (range_fields r (take (S k) rs))).
Proof.
  intros Hv E. set (n := Nat.min (length rs) 63).
  assert (Hn : Z.min (len (AckRanges f)) MaxNumAckRanges = Z.of_nat n + 1).
  { rewrite E. unfold MaxNumAckRanges, len, n. cbn [length]. lia. }
  unfold Ack.numEncodableAckRanges. rewrite Hn. cbv zeta.
  destruct (Z.leb_spec (1 + 8 + 8 + 1 + 8 + (if Ack.hasECN f then 8 + 8 + 8 else 0) + 2 * 8 * (Z.of_nat n + 1 - 1)) maxSize).
  { exists n. split; [done|]. split; [done|]. split; [intros _|lia].
    pose proof (size_le_8 (range_fields r (take n rs))) as Hr.
    unfold len in Hr. rewrite range_fields_length, length_take in Hr.
    unfold base_size. pose proof (size_le_8 (ecn_fields f)) as He.
    assert (8 * len (ecn_fields f) <= (if Ack.hasECN f then 8 + 8 + 8 else 0))
      by (unfold ecn_fields; destruct (Ack.hasECN f); done).
    pose proof (encoding_size_range (Largest r)). pose proof (encoding_size_range (DelayTime f / 8000)).
    pose proof (encoding_size_range (Largest r - Smallest r)). lia. }
  destruct (encodeAckRange_first f Hv r rs E) as (He & H1 & H2).
  destruct (encodeAckDelay_spec (DelayTime f)) as [Hd Hdv]; [apply Hv|].
  rewrite (LargestAcked_spec f r rs E), He, Hd, ecn_length_spec by done. cbn [obind].
  rewrite u64_small by (unfold is_varint in *; lia). rewrite !Len_encoding by done. cbn [obind].
  destruct (fitting_ranges_spec f maxSize r rs n 0 (base_size f r) Hv E) as (k & Hk & Ef & Hfit & Hmax); [lia|].
  rewrite take_0 in Ef, Hfit. cbn [range_fields Nat.add] in Ef, Hfit. rewrite size_nil in Ef, Hfit.
  exists k. split; [done|]. split.
  - rewrite <- Ef. f_equal; unfold base_size; lia.
  - split; [intros; apply Hfit; lia | exact Hmax].
Qed.

Lemma normal_length_take f r rs k : valid_frame f -> AckRanges f = r :: rs -> (k <= 63)%nat ->
  Ack.normal_length (with_ranges f (r :: take k rs)) = Ret (base_size f r + size (range_fields r (take k rs))).
Proof.
  intros Hv E Hk. rewrite normal_length_spec.
  - unfold ack_fields. cbn [with_ranges AckRanges]. change 64%nat with (S 63). cbn [take].
    rewrite take_take, Nat.min_r by lia.
    rewrite <- fields_size by (rewrite length_take; lia). done.
  - destruct Hv as [Hv H2 H3 H4 H5]. constructor; try done.
    apply (valid_take (S k)) in Hv; [|lia]. rewrite E in Hv. done.
Qed.

(** Dropping timestamps one by one: what is left fits, or nothing is left. *)
Lemma drop_timestamps_spec fuel f maxSize : wf_frame f -> (length (ReceiveTimestamps f) <= fuel)%nat ->
  exists k, Ack.drop_timestamps fuel f maxSize = Ret (with_timestamps f (take k (ReceiveTimestamps f))) /\
    (k <= length (ReceiveTimestamps f))%nat /\
    (k <> 0%nat -> len (frame_bytes (with_timestamps f (take k (ReceiveTimestamps f)))) <= maxSize) /\
    ((k < length (ReceiveTimestamps f))%nat ->
      maxSize < len (frame_bytes (with_timestamps f (take (S k) (ReceiveTimestamps f))))).
Proof.
  revert f. induction fuel as [|fuel IH]; intros f Hw Hf.
  all: assert (Hself : f = with_timestamps f (take (length (ReceiveTimestamps f)) (ReceiveTimestamps f)))
    by (rewrite take_ge by done; by destruct f).
  { exists 0%nat. destruct (ReceiveTimestamps f) eqn:Et; [|cbn in Hf; lia].
    cbn in *. rewrite <- Hself. split; [done|]. split; [lia|]. split; lia. }
  cbn [Ack.drop_timestamps]. destruct (Z.ltb_spec 0 (len (ReceiveTimestamps f))) as [Hpos|Hpos].
  2:{ exists (length (ReceiveTimestamps f)). unfold len in Hpos. rewrite <- Hself. repeat split; lia. }
  destruct (frame_written f [] Hw) as [_ ->]. cbn [obind].
  destruct (Z.ltb_spec maxSize (len (frame_bytes f))).
  2:{ exists (length (ReceiveTimestamps f)). rewrite <- Hself. repeat split; lia. }
  destruct Hw as (Hv & Hs & Hl). unfold len in Hpos, Hl. set (ts := ReceiveTimestamps f) in *. set (n := (length ts - 1)%nat).
  destruct (IH (with_timestamps f (take n ts))) as (k & Ed & Hk & Hfit & Hmax).
  { split; [destruct Hv; by constructor|]. cbn. split.
    - rewrite <- (take_drop n ts) in Hs. by apply stamps_below_app in Hs as [? _].
    - unfold len. rewrite length_take. lia. }
  { cbn. rewrite length_take. lia. }
  cbn in Ed, Hk, Hfit, Hmax. rewrite length_take in Hk, Hmax. rewrite !take_take in *.
  exists k. rewrite Nat.min_l in Ed, Hfit by lia. split; [exact Ed|]. split; [lia|]. split; [exact Hfit|].
  intros Hlt. destruct (decide (k = n)) as [->|].
  - replace (S n) with (length ts) by lia. by rewrite <- Hself.
  - rewrite (Nat.min_l (S k)) in Hmax by lia. apply Hmax. lia.
Qed.

(** Whatever the size, a valid frame stays valid: one range is always kept. *)
Lemma Truncate_total f maxSize : wf_frame f ->
  exists f', Ack.Truncate f maxSize = Ret f' /\ valid_frame f' /\
    exists j k, f' = with_timestamps (with_ranges f (take (S j) (AckRanges f))) (take k (ReceiveTimestamps f)) /\
      (take k (ReceiveTimestamps f) <> [] -> (length (AckRanges f) <= j)%nat).
Proof.
  intros Hw. pose proof Hw as (Hv & Hs & Hl).
  destruct (drop_timestamps_spec (length (ReceiveTimestamps f)) f maxSize Hw) as (k & Ed & _); [done|].
  unfold Ack.Truncate. rewrite Ed. cbn [obind with_timestamps ReceiveTimestamps].
  destruct (written_ranges f Hv) as (r & rs & E & _ & _).
  assert (Hkeep : forall j, valid_frame (with_timestamps (with_ranges f (take (S j) (AckRanges f))) (take k (ReceiveTimestamps f)))).
  { intros j. destruct Hv as [Hv ? ? ? ?]. constructor; try done. apply valid_take; [lia | done]. }
  destruct (Z.ltb_spec 0 (len (take k (ReceiveTimestamps f)))).
  - specialize (Hkeep (length (AckRanges f))). rewrite (take_ge (AckRanges f)) in Hkeep by lia.
    eexists. split; [done|]. split; [exact Hkeep|]. exists (length (AckRanges f)), k.
    split; [rewrite (take_ge (AckRanges f)) by lia; by destruct f | done].
  - destruct (numEncodable_spec (with_timestamps f (take k (ReceiveTimestamps f))) maxSize r rs) as (j & _ & -> & _).
    { destruct Hv. by constructor. }
    { done. }
    cbn [obind]. replace (Z.to_nat (Z.of_nat j + 1)) with (S j) by lia.
    eexists. split; [done|]. split; [apply (Hkeep j)|]. exists j, k. split; [done|].
    destruct (take k (ReceiveTimestamps f)); [done | unfold len in *; cbn in *; lia].
Qed.

(** ** Properties *)

(** A frame without receive timestamps: [Append] writes as many bytes as
    [Length] announces, and whatever follows them, the parser gets back the
    first 64 ranges, the ECN counters, and the delay rounded down to 8
    microseconds, and consumes exactly those bytes. *)
Theorem ack_frame_round_trip f b rest : valid_frame f -> ReceiveTimestamps f = [] ->
  exists body,
    Ack.Append f b = Ret (b ++ type_of f :: body) /\
    Ack.Length f = Ret (1 + len body) /\
    Ack.parseAckFrame empty_frame (body ++ rest) (type_of f) 3 = Ret (received_frame f, len body).
Proof.
  intros Hv Ht. exists (put (ack_fields f)).
  destruct (frame_written f b) as [Ha Hl]; [unfold wf_frame; by rewrite Ht|].
  rewrite Ha, Hl. unfold frame_bytes. rewrite Ht. change (0 <? len (@nil ReceiveTimestamp)) with false. cbv iota.
  split; [done|]. split; [by rewrite len_app|]. by apply parse_ack_fields.
Qed.

Definition demo_frame : AckFrame :=
  {| ReceiveTimestamps := [];
     AckRanges := [{| Smallest := 100; Largest := 200 |}; {| Smallest := 50; Largest := 50 |};
                   {| Smallest := 2; Largest := 40 |}];
     DelayTime := 1234567; ECT0 := 1; ECT1 := 0; ECNCE := 7 |}.

Lemma demo_frame_valid : valid_frame demo_frame.
Proof. constructor; unfold valid_ranges, is_varint; cbn; try lia. split; [done | lia]. Qed.

Lemma ack_frame_round_trip_witness :
  Ack.parseAckFrame empty_frame [64; 200; 64; 154; 2; 64; 100; 48; 0; 8; 38; 1; 0; 7; 99] 3 3
  = Ret (with_delay demo_frame 1232000, 14).
Proof.
  destruct (ack_frame_round_trip demo_frame [] [99] demo_frame_valid eq_refl) as (body & Ha & _ & Hp).
  vm_compute in Ha. injection Ha as <-. exact Hp.
Defined.

(** Whatever bytes arrive, parsing an ACK frame returns: either an error,
    or a frame within the bounds of the input whose ranges are valid, and in
    which the binary search decides membership in the ranges. *)
Theorem parsed_frame_sound b typ e p : Forall is_byte b ->
  match Ack.parseAckFrame empty_frame b typ e with
  | Ret (f, n) =>
      0 <= n <= len b /\ valid_ranges (AckRanges f) /\ 0 <= DelayTime f < 2 ^ 63 /\
      Ack.AcksPacket f p = Ret (bool_decide (acked p (AckRanges f)))
  | Err _ => True
  | Panic => False
  end.
Proof.
  intros Hb. pose proof (parse_total b typ e Hb) as H.
  destruct (Ack.parseAckFrame empty_frame b typ e) as [[f n]| |]; [|done|done].
  destruct H as (Hv & _ & Hn). split; [done|]. split; [apply Hv|]. split; [apply Hv|].
  apply AcksPacket_spec, Hv.
Qed.

Lemma parsed_frame_sound_witness :
  exists f n, Ack.parseAckFrame empty_frame [64; 200; 0; 1; 64; 100; 48; 0; 77] 2 3 = Ret (f, n) /\
    0 <= n <= 9 /\ Ack.AcksPacket f 50 = Ret true /\ Ack.AcksPacket f 51 = Ret false.
Proof.
  assert (Forall is_byte [64; 200; 0; 1; 64; 100; 48; 0; 77]) as Hb by (repeat constructor; done).
  pose proof (parsed_frame_sound _ 2 3 50 Hb) as H0. pose proof (parsed_frame_sound _ 2 3 51 Hb) as H1.
  eexists _, _. split; [vm_compute; reflexivity|].
  vm_compute (Ack.parseAckFrame _ _ _ _) in H0. vm_compute (Ack.parseAckFrame _ _ _ _) in H1.
  destruct H0 as (Hn & _ & _ & E0). destruct H1 as (_ & _ & _ & E1).
  split; [exact Hn|]. split; [exact E0 | exact E1].
Defined.

(** A frame with receive timestamps is written as the extended frame, in
    the length announced: the ranges parse back as an ordinary frame without
    ECN, the timestamps that follow decode to exactly the timestamps of the
    frame, and ECN counters follow in an ordinary frame of their own. *)
Theorem timestamps_round_trip f b rest t ts :
  valid_frame f -> ReceiveTimestamps f = t :: ts -> valid_stamps (t :: ts) -> len (t :: ts) < 2 ^ 62 ->
  exists ranges stamps ecn,
    Ack.Append f b = Ret (b ++ [64; 176] ++ ranges ++ stamps ++ ecn) /\
    Ack.Length f = Ret (len ([64; 176] ++ ranges ++ stamps ++ ecn)) /\
    Ack.parseAckFrame empty_frame (ranges ++ stamps ++ ecn ++ rest) 2 3
      = Ret (received_frame (Ack.normal_of f), len ranges) /\
    decode_stamps (stamps ++ ecn ++ rest) = Ret (t :: ts, ecn ++ rest) /\
    if Ack.hasECN f then
      exists body, ecn = 3 :: body /\ Ack.parseAckFrame empty_frame (body ++ rest) 3 3 = Ret (received_frame f, len body)
    else ecn = [].
Proof.
  intros Hv Et Hs Hl. exists (put (ack_fields (Ack.normal_of f))), (put (stamp_fields (t :: ts))),
    (if Ack.hasECN f then [FrameTypeAckECN] ++ put (ack_fields f) else []).
  destruct (frame_written f b) as [Ha Hlen]; [unfold wf_frame; by rewrite Et|].
  rewrite Ha, Hlen. unfold frame_bytes. rewrite Et.
  split; [done|]. split; [done|]. split.
  { apply (parse_ack_fields (Ack.normal_of f)), valid_normal_of, Hv. }
  split; [by apply decode_stamp_fields|].
  destruct (Ack.hasECN f) eqn:He; [|done]. exists (put (ack_fields f)). split; [done|].
  pose proof (parse_ack_fields f rest Hv) as Hp. unfold type_of in Hp. rewrite He in Hp. exact Hp.
Qed.

Definition demo_stamps : list ReceiveTimestamp :=
  [{| Packet := 200; Micros := 5000 |}; {| Packet := 199; Micros := 5000 |};
   {| Packet := 198; Micros := 4900 |}; {| Packet := 40; Micros := 1000 |}].

Lemma timestamps_round_trip_witness : exists ranges stamps ecn,
  Ack.Append (with_timestamps demo_frame demo_stamps) [] = Ret ([64; 176] ++ ranges ++ stamps ++ ecn) /\
  decode_stamps (stamps ++ ecn ++ [9]) = Ret (demo_stamps, ecn ++ [9]).
Proof.
  destruct (timestamps_round_trip (with_timestamps demo_frame demo_stamps) [] [9]
    {| Packet := 200; Micros := 5000 |} (drop 1 demo_stamps)) as (ranges & stamps & ecn & Ha & _ & _ & Hd & _).
  { destruct demo_frame_valid as [H1 H2 H3 H4 H5]. by constructor. }
  { reflexivity. }
  { cbn. lia. }
  { done. }
  exists ranges, stamps, ecn. split; [exact Ha | exact Hd].
Defined.

(** [Truncate], with room for one range: the frame that is left is
    written in at most [maxSize] bytes; timestamps are dropped from the end
    and only as far as needed; ranges are dropped only when no timestamp is
    left, and then as many are kept as fit, of the first 64. *)
Theorem truncate_fits f maxSize r rs b :
  wf_frame f -> AckRanges f = r :: rs -> base_size f r <= maxSize ->
  exists k j enc,
    let kept := with_timestamps (with_ranges f (take j (r :: rs))) (take k (ReceiveTimestamps f)) in
    Ack.Truncate f maxSize = Ret kept /\
    Ack.Append kept b = Ret (b ++ enc) /\ len enc <= maxSize /\
    (1 <= j <= length (r :: rs))%nat /\ (k <= length (ReceiveTimestamps f))%nat /\
    (k <> 0 -> j = length (r :: rs))%nat /\
    ((k < length (ReceiveTimestamps f))%nat -> exists l,
       Ack.Length (with_timestamps f (take (S k) (ReceiveTimestamps f))) = Ret l /\ maxSize < l) /\
    ((k = 0 /\ j < length (r :: rs) /\ j < 64)%nat -> exists l,
       Ack.Length (with_timestamps (with_ranges f (take (S j) (r :: rs))) []) = Ret l /\ maxSize < l).
Proof.
  intros Hw E Hb. pose proof Hw as (Hv & Hs & Hl).
  assert (Hpre : forall k, wf_frame (with_timestamps f (take k (ReceiveTimestamps f)))).
  { intros k. split; [destruct Hv; by constructor|]. cbn. split.
    - rewrite <- (take_drop k (ReceiveTimestamps f)) in Hs. by apply stamps_below_app in Hs as [? _].
    - unfold len in *. rewrite length_take. lia. }
  destruct (drop_timestamps_spec (length (ReceiveTimestamps f)) f maxSize Hw) as (k & Ed & Hk & Hfit & Hmax); [done|].
  assert (Hmore : (k < length (ReceiveTimestamps f))%nat -> exists l,
       Ack.Length (with_timestamps f (take (S k) (ReceiveTimestamps f))) = Ret l /\ maxSize < l).
  { intros Hlt. destruct (frame_written _ [] (Hpre (S k))) as [_ Hlen]. eexists. split; [exact Hlen|]. auto. }
  unfold Ack.Truncate. rewrite Ed. cbn [obind with_timestamps ReceiveTimestamps].
  destruct (Z.ltb_spec 0 (len (take k (ReceiveTimestamps f)))) as [Hpos|Hpos].
  - assert (k <> 0%nat) as Hk0 by (intros ->; done).
    exists k, (length (r :: rs)), (frame_bytes (with_timestamps f (take k (ReceiveTimestamps f)))).
    cbv zeta. rewrite (take_ge (r :: rs)) by done. rewrite <- E.
    replace (with_ranges f (AckRanges f)) with f by (by destruct f).
    split; [done|]. split; [by apply frame_written|]. split; [by apply Hfit|].
    rewrite E. cbn [length]. repeat split; try lia. exact Hmore.
  - assert (take k (ReceiveTimestamps f) = []) as Etk by (destruct (take k _); [done | unfold len in Hpos; cbn in Hpos; lia]).
    assert (k = 0 \/ length (ReceiveTimestamps f) = 0)%nat as Hk0.
    { apply (f_equal length) in Etk. rewrite length_take in Etk. cbn in Etk. lia. }
    rewrite Etk. set (g := with_timestamps f []).
    assert (Hvg : valid_frame g) by (destruct Hv; by constructor).
    destruct (numEncodable_spec g maxSize r rs Hvg E) as (j & Hj & -> & Hfj & Hmj). specialize (Hfj Hb). cbn [obind].
    replace (Z.to_nat (Z.of_nat j + 1)) with (S j) by lia.
    assert (Hwj : forall i, wf_frame (with_timestamps (with_ranges f (take (S i) (r :: rs))) [])).
    { intros i. split; [|done]. destruct Hv as [Hv ? ? ? ?]. constructor; try done. cbn [with_timestamps with_ranges AckRanges].
      rewrite <- E. apply valid_take; [lia | done]. }
    assert (Hlj : forall i, (i <= 63)%nat ->
      len (frame_bytes (with_timestamps (with_ranges f (take (S i) (r :: rs))) [])) = base_size f r + size (range_fields r (take i rs))).
    { intros i Hi. destruct (frame_written _ [] (Hwj i)) as [_ Hlen].
      change (Ack.Length _) with (Ack.normal_length (with_ranges g (r :: take i rs))) in Hlen.
      rewrite (normal_length_take g r rs i Hvg E Hi) in Hlen. injection Hlen as Hlen. symmetry. exact Hlen. }
    exists 0%nat, (S j), (frame_bytes (with_timestamps (with_ranges f (take (S j) (r :: rs))) [])).
    cbv zeta. rewrite take_0. split; [unfold g; cbn [with_timestamps AckRanges]; by rewrite E|]. split; [apply frame_written, Hwj|].
    split; [rewrite Hlj by lia; exact Hfj|]. cbn [length].
    split; [lia|]. split; [lia|]. split; [lia|]. split.
    + intros Hlt. destruct Hk0 as [-> | Hz]; [by apply Hmore | lia].
    + intros (_ & Hlt & H64). eexists. split; [apply (frame_written _ [] (Hwj (S j)))|].
      rewrite Hlj by lia. apply Hmj. lia.
Qed.

Lemma truncate_fits_witness : exists k j enc,
  let kept := with_timestamps (with_ranges demo_frame (take j (AckRanges demo_frame))) (take k demo_stamps) in
  Ack.Truncate (with_timestamps demo_frame demo_stamps) 14 = Ret kept /\
  Ack.Append kept [] = Ret enc /\ len enc <= 14 /\ (1 <= j)%nat.
Proof.
  destruct (truncate_fits (with_timestamps demo_frame demo_stamps) 14 {| Smallest := 100; Largest := 200 |}
    (drop 1 (AckRanges demo_frame)) []) as (k & j & enc & HT & Ha & Hl & Hj & _).
  { split; [|split; [cbn; lia | done]]. destruct demo_frame_valid as [H1 H2 H3 H4 H5]. by constructor. }
  { reflexivity. }
  { vm_compute. discriminate. }
  exists k, j, enc. split; [exact HT|]. split; [exact Ha|]. split; [exact Hl | apply Hj].
Defined.

(** [PrepareReceiveTimestamps] of any stamps of valid packets: what is
    left are stamps that were there, of packets the frame acknowledges,
    newest packet first and never with a later arrival after an earlier one,
    so that every delta the frame is written with is a number the format can
    hold: the frame is written without a panic. *)
Theorem prepared_timestamps_encodable f b :
  valid_frame f -> len (ReceiveTimestamps f) < 2 ^ 62 ->
  Forall (fun t => 0 <= Packet t < 2 ^ 62 /\ 0 <= Micros t < 2 ^ 62) (ReceiveTimestamps f) ->
  exists kept enc,
    Ack.PrepareReceiveTimestamps f = Ret (with_timestamps f kept) /\
    kept ⊆+ ReceiveTimestamps f /\ valid_stamps kept /\
    Forall (fun t => acked (Packet t) (AckRanges f)) kept /\
    Ack.Append (with_timestamps f kept) b = Ret (b ++ enc).
Proof.
  intros Hv Hl Hb. destruct (prepare_spec f (vf_ranges f Hv) Hb) as (kept & E & Hk & Hs & Ha).
  exists kept, (frame_bytes (with_timestamps f kept)). repeat split_and!; try done.
  apply frame_written. split; [destruct Hv; by constructor|]. split; [exact Hs|].
  apply submseteq_length in Hk. cbn. unfold len in *. lia.
Qed.

(** A reordered arrival: packet 41 came in after packet 200. *)
Definition demo_arrivals : list ReceiveTimestamp :=
  [{| Packet := 40; Micros := 1000 |}; {| Packet := 200; Micros := 5000 |}; {| Packet := 39; Micros := 6000 |};
   {| Packet := 60; Micros := 4000 |}; {| Packet := 199; Micros := 5000 |}].

Lemma prepared_timestamps_encodable_witness :
  exists kept, Ack.PrepareReceiveTimestamps (with_timestamps demo_frame demo_arrivals)
    = Ret (with_timestamps demo_frame kept) /\ valid_stamps kept /\ map Packet kept = [200; 199; 40].
Proof.
  destruct (prepared_timestamps_encodable (with_timestamps demo_frame demo_arrivals) []) as (kept & enc & E & _ & Hs & _ & _).
  { destruct demo_frame_valid as [H1 H2 H3 H4 H5]. by constructor. }
  { done. }
  { repeat constructor; cbn; lia. }
  exists kept. split; [exact E|]. split; [exact Hs|]. vm_compute in E. injection E as <-. reflexivity.
Defined.

(** The check for an overflowing delay looks at the sign only: a delay of 2^61
    wraps to zero and is taken as no delay at all. *)
Lemma ack_delay_overflow_unnoticed :
  is_varint (2 ^ 61) /\ decodeAckDelay (2 ^ 61) 3 = 0 /\ decodeAckDelay (2 ^ 61 - 1) 3 = maxInt64.
Proof. split; [unfold is_varint; lia|]. split; reflexivity. Qed.
