(* ===== verification/Frames.v ===== *)
(** * Frames

    [src/deps/quic-go/internal/wire]: the frames of a packet, how each is
    written and parsed, and [frame_parser.go].  The Go interface [Frame] is the
    type of that name here, a constructor per struct; ACK frames have a file of
    their own.  A parser returns the frame and the number of bytes it took.
    [StreamFrame] keeps the capacity of its [Data]: frames from the pool have
    room for a packet, and a slice operation panics beyond the capacity.
    [handleFrames] is the loop of [connection.go] over a packet's payload. *)
From S2P Require Import Prelude Protocol Varint AckFrame.

Local Open Scope Z_scope.
Local Open Scope go_scope.

Record StreamFrame := {
  StreamID : Z;
  Offset : Z;
  Data : bytes;
  Fin : bool;
  DataLenPresent : bool;
  fromPool : bool;
  dataCap : Z;
}.

Inductive Frame :=
  | PingFrame
  | AckF (f : AckFrame)
  | ResetStreamFrame (StreamID ErrorCode FinalSize ReliableSize : Z)
  | StopSendingFrame (StreamID ErrorCode : Z)
  | CryptoFrame (Offset : Z) (Data : bytes)
  | NewTokenFrame (Token : bytes)
  | StreamF (f : StreamFrame)
  | MaxDataFrame (MaximumData : Z)
  | MaxStreamDataFrame (StreamID MaximumStreamData : Z)
  | MaxStreamsFrame (stype : StreamType) (MaxStreamNum : Z)
  | DataBlockedFrame (MaximumData : Z)
  | StreamDataBlockedFrame (StreamID MaximumStreamData : Z)
  | StreamsBlockedFrame (stype : StreamType) (StreamLimit : Z)
  | NewConnectionIDFrame (SequenceNumber RetirePriorTo : Z) (ConnectionID StatelessResetToken : bytes)
  | RetireConnectionIDFrame (SequenceNumber : Z)
  | PathChallengeFrame (Data : bytes)
  | PathResponseFrame (Data : bytes)
  | ConnectionCloseFrame (IsApplicationError : bool) (ErrorCode FrameType : Z) (ReasonPhrase : bytes)
  | HandshakeDoneFrame
  | DatagramFrame (DataLenPresent : bool) (Data : bytes)
  | AckFrequencyFrame (SequenceNumber AckElicitingThreshold RequestMaxAckDelay ReorderingThreshold : Z)
  | ImmediateAckFrame.

#[global] Instance goerror_eq_dec : EqDecision goerror.
Proof. solve_decision. Defined.

(** [qerr.TransportError]: the code, the frame type, and the error whose text
    is the message *)
Definition TransportError (code frameType : Z) (e : goerror) : goerror :=
  Wrapf "transport error" [pretty code; pretty frameType] e.
Definition FrameEncodingError : Z := 7.

(** ** Frame types *)

Definition FrameTypePing : Z := 0x1.
Definition FrameTypeResetStream : Z := 0x4.
Definition FrameTypeStopSending : Z := 0x5.
Definition FrameTypeCrypto : Z := 0x6.
Definition FrameTypeNewToken : Z := 0x7.
Definition FrameTypeMaxData : Z := 0x10.
Definition FrameTypeMaxStreamData : Z := 0x11.
Definition FrameTypeBidiMaxStreams : Z := 0x12.
Definition FrameTypeUniMaxStreams : Z := 0x13.
Definition FrameTypeDataBlocked : Z := 0x14.
Definition FrameTypeStreamDataBlocked : Z := 0x15.
Definition FrameTypeBidiStreamBlocked : Z := 0x16.
Definition FrameTypeUniStreamBlocked : Z := 0x17.
Definition FrameTypeNewConnectionID : Z := 0x18.
Definition FrameTypeRetireConnectionID : Z := 0x19.
Definition FrameTypePathChallenge : Z := 0x1a.
Definition FrameTypePathResponse : Z := 0x1b.
Definition FrameTypeConnectionClose : Z := 0x1c.
Definition FrameTypeApplicationClose : Z := 0x1d.
Definition FrameTypeHandshakeDone : Z := 0x1e.
Definition FrameTypeResetStreamAt : Z := 0x24.
Definition FrameTypeAckFrequency : Z := 0xaf.
Definition FrameTypeImmediateAck : Z := 0x1f.
Definition FrameTypeDatagramNoLength : Z := 0x30.
Definition FrameTypeDatagramWithLength : Z := 0x31.

Definition IsStreamFrameType (t : Z) : bool := (0x8 <=? t) && (t <=? 0xf).
Definition isValidRFC9000 (t : Z) : bool := t <=? 0x1e.
Definition IsAckFrameType (t : Z) : bool := (t =? FrameTypeAck) || (t =? FrameTypeAckECN).
Definition IsDatagramFrameType (t : Z) : bool :=
  (t =? FrameTypeDatagramNoLength) || (t =? FrameTypeDatagramWithLength).

Definition isAllowedAtEncLevel (t : Z) (encLevel : EncryptionLevel) : bool :=
  match encLevel with
  | EncryptionInitial | EncryptionHandshake =>
      bool_decide (t ∈ [FrameTypeCrypto; FrameTypeAck; FrameTypeAckECN; FrameTypeConnectionClose; FrameTypePing])
  | Encryption0RTT =>
      negb (bool_decide (t ∈ [FrameTypeCrypto; FrameTypeAck; FrameTypeAckECN; FrameTypeConnectionClose;
                              FrameTypeNewToken; FrameTypePathResponse; FrameTypeRetireConnectionID]))
  | Encryption1RTT => true
  end.

Definition IsProbingFrame (f : Frame) : bool :=
  match f with PathChallengeFrame _ | PathResponseFrame _ | NewConnectionIDFrame _ _ _ _ => true | _ => false end.

Definition IsProbingFrameType (t : Z) : bool :=
  (t =? FrameTypePathChallenge) || (t =? FrameTypePathResponse) || (t =? FrameTypeNewConnectionID).

Definition IsFrameTypeAckEliciting (t : Z) : bool :=
  if (t =? FrameTypeAck) || (t =? FrameTypeAckECN) then false else
  if (t =? FrameTypeConnectionClose) || (t =? FrameTypeApplicationClose) then false else true.

Definition IsFrameAckEliciting (f : Frame) : bool :=
  match f with AckF _ | ConnectionCloseFrame _ _ _ _ => false | _ => true end.

(** ** STREAM frames *)

Definition DataLen (f : StreamFrame) : Z := len (Data f).

(** The rest of [ParseStreamFrame], once the fields are read: [b] are the
    bytes after them. *)
Definition stream_frame (streamID offset dataLen : Z) (fin hasDataLen : bool) (b : bytes) : outcome StreamFrame :=
  let pooled := negb (dataLen <? MinStreamFrameBufferSize) in
  if pooled && (MaxPacketBufferSize <? dataLen) then Err io_EOF else
  let! data := subslice b 0 dataLen in
  let frame :=
    {| StreamID := i64 streamID; Offset := i64 offset; Data := data; Fin := fin; DataLenPresent := hasDataLen;
       fromPool := pooled; dataCap := if pooled then MaxPacketBufferSize else dataLen |} in
  if MaxByteCount <? i64 (Offset frame + DataLen frame) then errorf "stream data overflows maximum offset"
  else Ret frame.

Definition ParseStreamFrame (b : bytes) (typ : Z) : outcome (StreamFrame * Z) :=
  let startLen := len b in
  let hasOffset := 0 <? Z.land typ 4 in
  let fin := 0 <? Z.land typ 1 in
  let hasDataLen := 0 <? Z.land typ 2 in
  let! '(streamID, b) := readVarint b in
  let! '(offset, b) := (if hasOffset then readVarint b else Ret (0, b)) in
  let! '(dataLen, b) :=
    (if hasDataLen then
       let! '(dataLen, b) := readVarint b in
       if len b <? dataLen then Err io_EOF else Ret (dataLen, b)
     else Ret (len b, b)) in
  let! frame := stream_frame streamID offset dataLen fin hasDataLen b in
  Ret (frame, startLen - len b + dataLen).

Module Stream.

Definition Append (f : StreamFrame) (b : bytes) : outcome bytes :=
  if (len (Data f) =? 0) && negb (Fin f)
  then errorf "StreamFrame: attempting to write empty frame without FIN" else
  let typ := 0x8 in
  let typ := if Fin f then Z.lxor typ 1 else typ in
  let hasOffset := negb (Offset f =? 0) in
  let typ := if DataLenPresent f then Z.lxor typ 2 else typ in
  let typ := if hasOffset then Z.lxor typ 4 else typ in
  let b := b ++ [typ] in
  let! b := quicvarint.Append b (u64 (StreamID f)) in
  let! b := (if hasOffset then quicvarint.Append b (u64 (Offset f)) else Ret b) in
  let! b := (if DataLenPresent f then quicvarint.Append b (u64 (DataLen f)) else Ret b) in
  Ret (b ++ Data f).

Definition Length (f : StreamFrame) : outcome Z :=
  let! l := quicvarint.Len (u64 (StreamID f)) in
  let length := 1 + l in
  let! length := (if negb (Offset f =? 0) then let! l := quicvarint.Len (u64 (Offset f)) in Ret (length + l)
                  else Ret length) in
  let! length := (if DataLenPresent f then let! l := quicvarint.Len (u64 (DataLen f)) in Ret (length + l)
                  else Ret length) in
  Ret (length + DataLen f).

Definition MaxDataLen (f : StreamFrame) (maxSize : Z) : outcome Z :=
  let! l := quicvarint.Len (u64 (StreamID f)) in
  let headerLen := 1 + l in
  let! headerLen := (if negb (Offset f =? 0) then let! l := quicvarint.Len (u64 (Offset f)) in Ret (headerLen + l)
                     else Ret headerLen) in
  let headerLen := if DataLenPresent f then headerLen + 1 else headerLen in
  if maxSize <? headerLen then Ret 0 else
  let maxDataLen := maxSize - headerLen in
  if DataLenPresent f then
    let! l := quicvarint.Len (u64 maxDataLen) in
    Ret (if negb (l =? 1) then maxDataLen - 1 else maxDataLen)
  else Ret maxDataLen.

(** The frame that was split off, whether splitting was required, and the
    frame that is left.  The two swap their buffers: the rest is copied to the
    buffer from the pool. *)
Definition MaybeSplitOffFrame (f : StreamFrame) (maxSize : Z) : outcome (option StreamFrame * bool * StreamFrame) :=
  let! l := Length f in
  if l <=? maxSize then Ret (None, false, f) else
  let! n := MaxDataLen f maxSize in
  if n =? 0 then Ret (None, true, f) else
  let restLen := len (Data f) - n in
  if (restLen <? 0) || (MaxPacketBufferSize <? restLen) then Panic else
  let! rest := slice_from (Data f) n in
  let! data := subslice (Data f) 0 n in
  let new :=
    {| StreamID := StreamID f; Offset := Offset f; Data := data; Fin := false; DataLenPresent := DataLenPresent f;
       fromPool := fromPool f; dataCap := dataCap f |} in
  let f' :=
    {| StreamID := StreamID f; Offset := i64 (Offset f + n); Data := rest; Fin := Fin f;
       DataLenPresent := DataLenPresent f; fromPool := true; dataCap := MaxPacketBufferSize |} in
  Ret (Some new, true, f').

(** If the frame went back to the pool *)
Definition PutBack (f : StreamFrame) : outcome bool :=
  if negb (fromPool f) then Ret false else
  if negb (dataCap f =? MaxPacketBufferSize) then Panic else Ret true.

End Stream.

(** ** CRYPTO frames *)
Module Crypto.

Definition parse (b : bytes) : outcome (Frame * Z) :=
  let startLen := len b in
  let! '(offset, b) := readVarint b in
  let! '(dataLen, b) := readVarint b in
  if len b <? dataLen then Err io_EOF else
  let! data := subslice b 0 dataLen in
  Ret (CryptoFrame (i64 offset) data, startLen - len b + dataLen).

Definition Append (offset : Z) (data : bytes) (b : bytes) : outcome bytes :=
  let b := b ++ [FrameTypeCrypto] in
  let! b := quicvarint.Append b (u64 offset) in
  let! b := quicvarint.Append b (len data) in
  Ret (b ++ data).

Definition Length (offset : Z) (data : bytes) : outcome Z :=
  let! lo := quicvarint.Len (u64 offset) in
  let! ld := quicvarint.Len (len data) in
  Ret (1 + lo + ld + len data).

Definition MaxDataLen (offset maxSize : Z) : outcome Z :=
  let! lo := quicvarint.Len (u64 offset) in
  let headerLen := 1 + lo + 1 in
  if maxSize <? headerLen then Ret 0 else
  let maxDataLen := maxSize - headerLen in
  let! l := quicvarint.Len (u64 maxDataLen) in
  Ret (if negb (l =? 1) then maxDataLen - 1 else maxDataLen).

(** The offset and the data of the frame that was split off, whether
    splitting was required, and those of the frame that is left *)
Definition MaybeSplitOffFrame (offset : Z) (data : bytes) (maxSize : Z)
    : outcome (option (Z * bytes) * bool * (Z * bytes)) :=
  let! l := Length offset data in
  if l <=? maxSize then Ret (None, false, (offset, data)) else
  let! n := MaxDataLen offset maxSize in
  if n =? 0 then Ret (None, true, (offset, data)) else
  let newLen := len data - n in
  if newLen <? 0 then Panic else
  let! rest := slice_from data n in
  let! front := subslice data 0 n in
  Ret (Some (offset, front), true, (i64 (offset + n), rest)).

End Crypto.

(** ** DATAGRAM frames *)
Module Datagram.

Definition parse (b : bytes) (typ : Z) : outcome (Frame * Z) :=
  let startLen := len b in
  let present := 0 <? Z.land typ 1 in
  let! '(length, b) :=
    (if present then
       let! '(length, b) := readVarint b in
       if len b <? length then Err io_EOF else Ret (length, b)
     else Ret (len b, b)) in
  let! data := subslice b 0 length in
  Ret (DatagramFrame present data, startLen - len b + length).

Definition Append (present : bool) (data b : bytes) : outcome bytes :=
  let b := b ++ [if present then Z.lxor 0x30 1 else 0x30] in
  let! b := (if present then quicvarint.Append b (len data) else Ret b) in
  Ret (b ++ data).

Definition Length (present : bool) (data : bytes) : outcome Z :=
  let length := 1 + len data in
  if present then let! l := quicvarint.Len (len data) in Ret (length + l) else Ret length.

Definition MaxDataLen (present : bool) (maxSize : Z) : outcome Z :=
  let headerLen := if present then 1 + 1 else 1 in
  if maxSize <? headerLen then Ret 0 else
  let maxDataLen := maxSize - headerLen in
  if present then
    let! l := quicvarint.Len (u64 maxDataLen) in
    Ret (if negb (l =? 1) then maxDataLen - 1 else maxDataLen)
  else Ret maxDataLen.

End Datagram.

(** ** The other frames, parsed *)

Definition parseResetStreamFrame (b : bytes) (isResetStreamAt : bool) : outcome (Frame * Z) :=
  let startLen := len b in
  let! '(streamID, b) := readVarint b in
  let! '(errorCode, b) := readVarint b in
  let! '(finalSize, b) := readVarint b in
  let! '(reliableSize, b) := (if isResetStreamAt then readVarint b else Ret (0, b)) in
  if finalSize <? reliableSize
  then Err (Errorf "RESET_STREAM_AT: reliable size can't be larger than final size (%d vs %d)"
              [pretty reliableSize; pretty finalSize])
  else Ret (ResetStreamFrame (i64 streamID) errorCode (i64 finalSize) (i64 reliableSize), startLen - len b).

Definition parseStopSendingFrame (b : bytes) : outcome (Frame * Z) :=
  let startLen := len b in
  let! '(streamID, b) := readVarint b in
  let! '(errorCode, b) := readVarint b in
  Ret (StopSendingFrame (i64 streamID) errorCode, startLen - len b).

Definition parseNewTokenFrame (b : bytes) : outcome (Frame * Z) :=
  let startLen := len b in
  let! '(tokenLen, b) := readVarint b in
  if tokenLen =? 0 then errorf "token must not be empty" else
  if len b <? tokenLen then Err io_EOF else
  let! token := subslice b 0 tokenLen in
  Ret (NewTokenFrame token, startLen - len b + tokenLen).

(** A frame of one number: [MAX_DATA], [DATA_BLOCKED], [RETIRE_CONNECTION_ID] *)
Definition parse_number (mk : Z -> Frame) (b : bytes) : outcome (Frame * Z) :=
  let startLen := len b in
  let! '(n, b) := readVarint b in Ret (mk n, startLen - len b).

Definition parseMaxDataFrame : bytes -> outcome (Frame * Z) := parse_number (fun n => MaxDataFrame (i64 n)).
Definition parseDataBlockedFrame : bytes -> outcome (Frame * Z) := parse_number (fun n => DataBlockedFrame (i64 n)).
Definition parseRetireConnectionIDFrame : bytes -> outcome (Frame * Z) := parse_number RetireConnectionIDFrame.

Definition parseMaxStreamDataFrame (b : bytes) : outcome (Frame * Z) :=
  let startLen := len b in
  let! '(sid, b) := readVarint b in
  let! '(offset, b) := readVarint b in
  Ret (MaxStreamDataFrame (i64 sid) (i64 offset), startLen - len b).

Definition parseStreamDataBlockedFrame (b : bytes) : outcome (Frame * Z) :=
  let startLen := len b in
  let! '(sid, b) := readVarint b in
  let! '(offset, b) := readVarint b in
  Ret (StreamDataBlockedFrame (i64 sid) (i64 offset), startLen - len b).

Definition parseMaxStreamsFrame (b : bytes) (typ : Z) : outcome (Frame * Z) :=
  let startLen := len b in
  let! '(streamID, b) := readVarint b in
  if MaxStreamCount <? i64 streamID
  then Err (Errorf "%d exceeds the maximum stream count" [pretty (i64 streamID)])
  else Ret (MaxStreamsFrame (if typ =? FrameTypeBidiMaxStreams then StreamTypeBidi else StreamTypeUni) (i64 streamID),
            startLen - len b).

Definition parseStreamsBlockedFrame (b : bytes) (typ : Z) : outcome (Frame * Z) :=
  let startLen := len b in
  let! '(streamLimit, b) := readVarint b in
  if MaxStreamCount <? i64 streamLimit
  then Err (Errorf "%d exceeds the maximum stream count" [pretty (i64 streamLimit)])
  else Ret (StreamsBlockedFrame (if typ =? FrameTypeBidiStreamBlocked then StreamTypeBidi else StreamTypeUni)
              (i64 streamLimit), startLen - len b).

Definition parseNewConnectionIDFrame (b : bytes) : outcome (Frame * Z) :=
  let startLen := len b in
  let! '(seq, b) := readVarint b in
  let! '(ret, b) := readVarint b in
  if seq <? ret
  then Err (Errorf "Retire Prior To value (%d) larger than Sequence Number (%d)" [pretty ret; pretty seq]) else
  match b with
  | [] => Err io_EOF
  | connIDLen :: b =>
      if connIDLen =? 0 then errorf "invalid zero-length connection ID" else
      if MaxConnIDLen <? connIDLen then Err ErrInvalidConnectionIDLen else
      if len b <? connIDLen then Err io_EOF else
      let! d := subslice b 0 connIDLen in
      let! connID := ParseConnectionID d in
      let! b := slice_from b connIDLen in
      if len b <? 16 then Err io_EOF else
      let! token := subslice b 0 16 in
      Ret (NewConnectionIDFrame seq ret connID token, startLen - len b + 16)
  end.

(** A frame of eight bytes *)
Definition parse_path (mk : bytes -> Frame) (b : bytes) : outcome (Frame * Z) :=
  if len b <? 8 then Err io_EOF else let! data := subslice b 0 8 in Ret (mk data, 8).

Definition parsePathChallengeFrame : bytes -> outcome (Frame * Z) := parse_path PathChallengeFrame.
Definition parsePathResponseFrame : bytes -> outcome (Frame * Z) := parse_path PathResponseFrame.

Definition parseConnectionCloseFrame (b : bytes) (typ : Z) : outcome (Frame * Z) :=
  let startLen := len b in
  let isApplicationError := typ =? FrameTypeApplicationClose in
  let! '(ec, b) := readVarint b in
  let! '(ft, b) := (if negb isApplicationError then readVarint b else Ret (0, b)) in
  let! '(reasonPhraseLen, b) := readVarint b in
  if len b <? i64 reasonPhraseLen then Err io_EOF else
  let! reason := subslice b 0 reasonPhraseLen in
  Ret (ConnectionCloseFrame isApplicationError ec ft reason, startLen - len b + reasonPhraseLen).

Definition parseAckFrequencyFrame (b : bytes) : outcome (Frame * Z) :=
  let startLen := len b in
  let! '(seq, b) := readVarint b in
  let! '(aeth, b) := readVarint b in
  let! '(mad, b) := readVarint b in
  let maxAckDelay := i64 (i64 mad * 1000) in
  let maxAckDelay := if maxAckDelay <? 0 then maxInt64 else maxAckDelay in
  let! '(rth, b) := readVarint b in
  Ret (AckFrequencyFrame seq aeth maxAckDelay (i64 rth), startLen - len b).

(** ** Frames, written

    A module per struct, with its two methods *)

(** [quicvarint.Append] of one number after the other *)
Definition append_all (b : bytes) (xs : list Z) : outcome bytes := ofold quicvarint.Append xs b.

(** The sum of [quicvarint.Len] over the numbers *)
Definition len_all (xs : list Z) : outcome Z :=
  ofold (fun n x => let! l := quicvarint.Len x in Ret (n + l)) xs 0.

Module ResetStream.
Definition Append (sid ec fs rs : Z) (b : bytes) : outcome bytes :=
  let! b := quicvarint.Append b (if rs =? 0 then FrameTypeResetStream else FrameTypeResetStreamAt) in
  let! b := append_all b [u64 sid; ec; u64 fs] in
  if 0 <? rs then quicvarint.Append b (u64 rs) else Ret b.
Definition Length (sid ec fs rs : Z) : outcome Z :=
  let! size := (if 0 <? rs then let! l := quicvarint.Len (u64 rs) in Ret (1 + l) else Ret 1) in
  let! l := len_all [u64 sid; ec; u64 fs] in
  Ret (size + l).
End ResetStream.

Module StopSending.
Definition Append (sid ec : Z) (b : bytes) : outcome bytes := append_all (b ++ [FrameTypeStopSending]) [u64 sid; ec].
Definition Length (sid ec : Z) : outcome Z := let! l := len_all [u64 sid; ec] in Ret (1 + l).
End StopSending.

Module NewToken.
Definition Append (token b : bytes) : outcome bytes :=
  let! b := quicvarint.Append (b ++ [FrameTypeNewToken]) (len token) in Ret (b ++ token).
Definition Length (token : bytes) : outcome Z := let! l := quicvarint.Len (len token) in Ret (1 + (l + len token)).
End NewToken.

Module MaxData.
Definition Append (m : Z) (b : bytes) : outcome bytes := quicvarint.Append (b ++ [FrameTypeMaxData]) (u64 m).
Definition Length (m : Z) : outcome Z := let! l := quicvarint.Len (u64 m) in Ret (1 + l).
End MaxData.

Module MaxStreamData.
Definition Append (sid m : Z) (b : bytes) : outcome bytes := append_all (b ++ [FrameTypeMaxStreamData]) [u64 sid; u64 m].
Definition Length (sid m : Z) : outcome Z := let! l := len_all [u64 sid; u64 m] in Ret (1 + l).
End MaxStreamData.

Module MaxStreams.
Definition Append (t : StreamType) (n : Z) (b : bytes) : outcome bytes :=
  quicvarint.Append
    (b ++ [match t with StreamTypeBidi => FrameTypeBidiMaxStreams | StreamTypeUni => FrameTypeUniMaxStreams end]) (u64 n).
Definition Length (n : Z) : outcome Z := let! l := quicvarint.Len (u64 n) in Ret (1 + l).
End MaxStreams.

Module DataBlocked.
Definition Append (m : Z) (b : bytes) : outcome bytes := quicvarint.Append (b ++ [FrameTypeDataBlocked]) (u64 m).
Definition Length (m : Z) : outcome Z := let! l := quicvarint.Len (u64 m) in Ret (1 + l).
End DataBlocked.

Module StreamDataBlocked.
Definition Append (sid m : Z) (b : bytes) : outcome bytes := append_all (b ++ [0x15]) [u64 sid; u64 m].
Definition Length (sid m : Z) : outcome Z := let! l := len_all [u64 sid; u64 m] in Ret (1 + l).
End StreamDataBlocked.

Module StreamsBlocked.
Definition Append (t : StreamType) (n : Z) (b : bytes) : outcome bytes :=
  quicvarint.Append
    (b ++ [match t with StreamTypeBidi => FrameTypeBidiStreamBlocked | StreamTypeUni => FrameTypeUniStreamBlocked end])
    (u64 n).
Definition Length (n : Z) : outcome Z := let! l := quicvarint.Len (u64 n) in Ret (1 + l).
End StreamsBlocked.

Module NewConnectionID.
Definition Append (seq ret : Z) (connID token b : bytes) : outcome bytes :=
  let! b := append_all (b ++ [FrameTypeNewConnectionID]) [seq; ret] in
  if MaxConnIDLen <? len connID then Err (Errorf "invalid connection ID length: %d" [pretty (len connID)])
  else Ret (b ++ [u8 (len connID)] ++ connID ++ token).
Definition Length (seq ret : Z) (connID : bytes) : outcome Z :=
  let! l := len_all [seq; ret] in Ret (1 + (l + 1 + len connID) + 16).
End NewConnectionID.

Module RetireConnectionID.
Definition Append (seq : Z) (b : bytes) : outcome bytes := quicvarint.Append (b ++ [FrameTypeRetireConnectionID]) seq.
Definition Length (seq : Z) : outcome Z := let! l := quicvarint.Len seq in Ret (1 + l).
End RetireConnectionID.

Module PathChallenge.
Definition Append (data b : bytes) : outcome bytes := Ret (b ++ [FrameTypePathChallenge] ++ data).
Definition Length : outcome Z := Ret (1 + 8).
End PathChallenge.

Module PathResponse.
Definition Append (data b : bytes) : outcome bytes := Ret (b ++ [FrameTypePathResponse] ++ data).
Definition Length : outcome Z := Ret (1 + 8).
End PathResponse.

Module ConnectionClose.
Definition Append (app : bool) (ec ft : Z) (reason b : bytes) : outcome bytes :=
  let! b := quicvarint.Append (b ++ [if app then FrameTypeApplicationClose else FrameTypeConnectionClose]) ec in
  let! b := (if negb app then quicvarint.Append b ft else Ret b) in
  let! b := quicvarint.Append b (len reason) in
  Ret (b ++ reason).
Definition Length (app : bool) (ec ft : Z) (reason : bytes) : outcome Z :=
  let! l := len_all [ec; len reason] in
  let length := 1 + l + len reason in
  if negb app then let! l := quicvarint.Len ft in Ret (length + l) else Ret length.
End ConnectionClose.

Module AckFrequency.
Definition Append (seq aeth mad rth : Z) (b : bytes) : outcome bytes :=
  append_all b [FrameTypeAckFrequency; seq; aeth; u64 (Z.quot mad 1000); u64 rth].
Definition Length (seq aeth mad rth : Z) : outcome Z :=
  let! l := len_all [seq; aeth; u64 (Z.quot mad 1000); u64 rth] in Ret (2 + l).
End AckFrequency.

(** *** The interface *)

Definition Append (f : Frame) (b : bytes) : outcome bytes :=
  match f with
  | PingFrame => Ret (b ++ [FrameTypePing])
  | AckF f => Ack.Append f b
  | ResetStreamFrame sid ec fs rs => ResetStream.Append sid ec fs rs b
  | StopSendingFrame sid ec => StopSending.Append sid ec b
  | CryptoFrame offset data => Crypto.Append offset data b
  | NewTokenFrame token => NewToken.Append token b
  | StreamF f => Stream.Append f b
  | MaxDataFrame m => MaxData.Append m b
  | MaxStreamDataFrame sid m => MaxStreamData.Append sid m b
  | MaxStreamsFrame t n => MaxStreams.Append t n b
  | DataBlockedFrame m => DataBlocked.Append m b
  | StreamDataBlockedFrame sid m => StreamDataBlocked.Append sid m b
  | StreamsBlockedFrame t n => StreamsBlocked.Append t n b
  | NewConnectionIDFrame seq ret connID token => NewConnectionID.Append seq ret connID token b
  | RetireConnectionIDFrame seq => RetireConnectionID.Append seq b
  | PathChallengeFrame data => PathChallenge.Append data b
  | PathResponseFrame data => PathResponse.Append data b
  | ConnectionCloseFrame app ec ft reason => ConnectionClose.Append app ec ft reason b
  | HandshakeDoneFrame => Ret (b ++ [FrameTypeHandshakeDone])
  | DatagramFrame present data => Datagram.Append present data b
  | AckFrequencyFrame seq aeth mad rth => AckFrequency.Append seq aeth mad rth b
  | ImmediateAckFrame => quicvarint.Append b FrameTypeImmediateAck
  end.

Definition Length (f : Frame) : outcome Z :=
  match f with
  | PingFrame | HandshakeDoneFrame => Ret 1
  | AckF f => Ack.Length f
  | ResetStreamFrame sid ec fs rs => ResetStream.Length sid ec fs rs
  | StopSendingFrame sid ec => StopSending.Length sid ec
  | CryptoFrame offset data => Crypto.Length offset data
  | NewTokenFrame token => NewToken.Length token
  | StreamF f => Stream.Length f
  | MaxDataFrame m => MaxData.Length m
  | MaxStreamDataFrame sid m => MaxStreamData.Length sid m
  | MaxStreamsFrame _ n => MaxStreams.Length n
  | DataBlockedFrame m => DataBlocked.Length m
  | StreamDataBlockedFrame sid m => StreamDataBlocked.Length sid m
  | StreamsBlockedFrame _ n => StreamsBlocked.Length n
  | NewConnectionIDFrame seq ret connID _ => NewConnectionID.Length seq ret connID
  | RetireConnectionIDFrame seq => RetireConnectionID.Length seq
  | PathChallengeFrame _ => PathChallenge.Length
  | PathResponseFrame _ => PathResponse.Length
  | ConnectionCloseFrame app ec ft reason => ConnectionClose.Length app ec ft reason
  | DatagramFrame present data => Datagram.Length present data
  | AckFrequencyFrame seq aeth mad rth => AckFrequency.Length seq aeth mad rth
  | ImmediateAckFrame => quicvarint.Len FrameTypeImmediateAck
  end.

(** ** The parser *)

Definition errUnknownFrameType : goerror := Errorf "unknown frame type" [].
Definition DefaultAckDelayExponent : Z := 3.

(** The frame struct that all ACK frames are parsed into is reset before each. *)
Record FrameParser := {
  ackDelayExponent : Z;
  supportsDatagrams : bool;
  supportsResetStreamAt : bool;
  supportsAckFrequency : bool;
}.

Definition NewFrameParser (datagrams resetStreamAt ackFrequency : bool) : FrameParser :=
  {| ackDelayExponent := 0; supportsDatagrams := datagrams; supportsResetStreamAt := resetStreamAt;
     supportsAckFrequency := ackFrequency |}.

Definition SetAckDelayExponent (p : FrameParser) (exp : Z) : FrameParser :=
  {| ackDelayExponent := exp; supportsDatagrams := supportsDatagrams p;
     supportsResetStreamAt := supportsResetStreamAt p; supportsAckFrequency := supportsAckFrequency p |}.

Section parser.
Variable p : FrameParser.

Definition valid_type (ft : Z) : bool :=
  isValidRFC9000 ft || (supportsDatagrams p && IsDatagramFrameType ft)
  || (supportsResetStreamAt p && (ft =? FrameTypeResetStreamAt))
  || (supportsAckFrequency p && ((ft =? FrameTypeAckFrequency) || (ft =? FrameTypeImmediateAck))).

(** The loop skips padding; a round takes at least one byte, so the number of
    bytes is enough fuel. *)
Fixpoint parse_type (fuel : nat) (b : bytes) (encLevel : EncryptionLevel) (parsed : Z) : outcome (Z * Z) :=
  match b, fuel with
  | [], _ => Err io_EOF
  | _, O => Panic
  | _, S fuel =>
      match quicvarint.Parse b with
      | Err e => Err (TransportError FrameEncodingError 0 e)
      | Panic => Panic
      | Ret (typ, l) =>
          let parsed := parsed + l in
          let! b := slice_from b l in
          if typ =? 0 then parse_type fuel b encLevel parsed else
          if negb (valid_type typ) then Err (TransportError FrameEncodingError typ errUnknownFrameType) else
          if negb (isAllowedAtEncLevel typ encLevel)
          then Err (TransportError FrameEncodingError typ (Errorf "%d not allowed at encryption level" [pretty typ]))
          else Ret (typ, parsed)
      end
  end.

(** The type and the number of bytes up to its end *)
Definition ParseType (b : bytes) (encLevel : EncryptionLevel) : outcome (Z * Z) :=
  parse_type (length b) b encLevel 0.

Definition encoding_error {A : Type} (frameType : Z) (m : outcome A) : outcome A :=
  match m with Err e => Err (TransportError FrameEncodingError frameType e) | m => m end.

Definition ParseStreamFrame_ (frameType : Z) (data : bytes) : outcome (Frame * Z) :=
  encoding_error frameType (let! '(f, l) := ParseStreamFrame data frameType in Ret (StreamF f, l)).

Definition ParseAckFrame (frameType : Z) (data : bytes) (encLevel : EncryptionLevel) : outcome (Frame * Z) :=
  let exponent := if bool_decide (encLevel = Encryption1RTT) then ackDelayExponent p else DefaultAckDelayExponent in
  encoding_error frameType
    (let! '(f, l) := Ack.parseAckFrame empty_frame data frameType exponent in Ret (AckF f, l)).

Definition ParseDatagramFrame (frameType : Z) (data : bytes) : outcome (Frame * Z) :=
  encoding_error frameType (Datagram.parse data frameType).

Definition less_common (frameType : Z) (data : bytes) : outcome (Frame * Z) :=
  if frameType =? FrameTypePing then Ret (PingFrame, 0) else
  if frameType =? FrameTypeResetStream then parseResetStreamFrame data false else
  if frameType =? FrameTypeStopSending then parseStopSendingFrame data else
  if frameType =? FrameTypeCrypto then Crypto.parse data else
  if frameType =? FrameTypeNewToken then parseNewTokenFrame data else
  if frameType =? FrameTypeMaxData then parseMaxDataFrame data else
  if frameType =? FrameTypeMaxStreamData then parseMaxStreamDataFrame data else
  if (frameType =? FrameTypeBidiMaxStreams) || (frameType =? FrameTypeUniMaxStreams)
  then parseMaxStreamsFrame data frameType else
  if frameType =? FrameTypeDataBlocked then parseDataBlockedFrame data else
  if frameType =? FrameTypeStreamDataBlocked then parseStreamDataBlockedFrame data else
  if (frameType =? FrameTypeBidiStreamBlocked) || (frameType =? FrameTypeUniStreamBlocked)
  then parseStreamsBlockedFrame data frameType else
  if frameType =? FrameTypeNewConnectionID then parseNewConnectionIDFrame data else
  if frameType =? FrameTypeRetireConnectionID then parseRetireConnectionIDFrame data else
  if frameType =? FrameTypePathChallenge then parsePathChallengeFrame data else
  if frameType =? FrameTypePathResponse then parsePathResponseFrame data else
  if (frameType =? FrameTypeConnectionClose) || (frameType =? FrameTypeApplicationClose)
  then parseConnectionCloseFrame data frameType else
  if frameType =? FrameTypeHandshakeDone then Ret (HandshakeDoneFrame, 0) else
  if frameType =? FrameTypeResetStreamAt then parseResetStreamFrame data true else
  if frameType =? FrameTypeAckFrequency then parseAckFrequencyFrame data else
  if frameType =? FrameTypeImmediateAck then Ret (ImmediateAckFrame, 0) else
  Err errUnknownFrameType.

Definition ParseLessCommonFrame (frameType : Z) (data : bytes) : outcome (Frame * Z) :=
  encoding_error frameType (less_common frameType data).

(** The choice of the parser in [handleFrames] *)
Definition parse_frame (frameType : Z) (data : bytes) (encLevel : EncryptionLevel) : outcome (Frame * Z) :=
  if IsStreamFrameType frameType then ParseStreamFrame_ frameType data else
  if IsAckFrameType frameType then ParseAckFrame frameType data encLevel else
  if IsDatagramFrameType frameType then ParseDatagramFrame frameType data else
  ParseLessCommonFrame frameType data.

End parser.

(** ** The frames of a packet *)

Section handle.
Context {C : Type}.
(** What handling a frame does to the connection, and the error it returns *)
Variable handle : Frame -> C -> outcome (C * option goerror).
Variable handshakeComplete : C -> bool.
Variable handleHandshakeComplete : C -> outcome (C * option goerror).

(** The variables of the loop *)
Record frames_state := {
  conn : C;
  isAckEliciting : bool;
  isNonProbing : bool;
  pathChallenge : option Frame;
  handleErr : option goerror;
  logged : list Frame;
}.

Definition is_path_challenge (f : Frame) : bool := match f with PathChallengeFrame _ => true | _ => false end.

(** A frame that was parsed: it is logged, and handled unless an earlier one
    failed.  The second component tells the loop to return the error. *)
Definition handle_parsed (tracing : bool) (s : frames_state) (f : Frame) : outcome (frames_state * bool) :=
  let logged := if tracing then logged s ++ [f] else logged s in
  match handleErr s with
  | Some _ =>
      Ret ({| conn := conn s; isAckEliciting := isAckEliciting s; isNonProbing := isNonProbing s;
              pathChallenge := pathChallenge s; handleErr := handleErr s; logged := logged |}, false)
  | None =>
      let! '(c, err) := handle f (conn s) in
      Ret ({| conn := c; isAckEliciting := isAckEliciting s; isNonProbing := isNonProbing s;
              pathChallenge := if is_path_challenge f then Some f else pathChallenge s;
              handleErr := err; logged := logged |},
           match err with Some _ => negb tracing | None => false end)
  end.

(** What the loop ends with: all frames were parsed, or it returns an error *)
Inductive frames_end := Parsed (s : frames_state) | Failed (c : C) (e : goerror).

Fixpoint frames_loop (fuel : nat) (p : FrameParser) (encLevel : EncryptionLevel) (tracing : bool)
    (data : bytes) (s : frames_state) : outcome frames_end :=
  match data, fuel with
  | [], _ => Ret (Parsed s)
  | _, O => Panic
  | _, S fuel =>
      match ParseType p data encLevel with
      | Panic => Panic
      | Err e => Ret (if bool_decide (e = io_EOF) then Parsed s else Failed (conn s) e)
      | Ret (frameType, l) =>
          let! data := slice_from data l in
          let s :=
            {| conn := conn s; isAckEliciting := isAckEliciting s || IsFrameTypeAckEliciting frameType;
               isNonProbing := isNonProbing s || negb (IsProbingFrameType frameType);
               pathChallenge := pathChallenge s; handleErr := handleErr s; logged := logged s |} in
          match parse_frame p frameType data encLevel with
          | Panic => Panic
          | Err e => Ret (Failed (conn s) e)
          | Ret (f, l) =>
              let! data := slice_from data l in
              let! '(s, stop) := handle_parsed tracing s f in
              match stop, handleErr s with
              | true, Some e => Ret (Failed (conn s) e)
              | _, _ => frames_loop fuel p encLevel tracing data s
              end
          end
      end
  end.

(** The connection, the two flags and the last PATH_CHALLENGE frame, or the
    error; and the frames that were traced, if tracing got that far *)
Definition frames_result : Type := C * (bool * bool * option Frame + goerror) * option (list Frame).

(** What follows the loop *)
Definition after_frames (handshakeWasComplete tracing : bool) (s : frames_state) : outcome frames_result :=
  let log := if tracing then Some (logged s) else None in
  match (if tracing then handleErr s else None) with
  | Some e => Ret (conn s, inr e, log)
  | None =>
      let ok c := (c, inl (isAckEliciting s, isNonProbing s, pathChallenge s), log) in
      if negb handshakeWasComplete && handshakeComplete (conn s) then
        let! '(c, err) := handleHandshakeComplete (conn s) in
        match err with Some e => Ret (c, inr e, log) | None => Ret (ok c) end
      else Ret (ok (conn s))
  end.

Definition start_frames (c : C) : frames_state :=
  {| conn := c; isAckEliciting := false; isNonProbing := false; pathChallenge := None; handleErr := None; logged := [] |}.

Definition handleFrames (p : FrameParser) (data : bytes) (encLevel : EncryptionLevel) (tracing : bool) (c : C)
    : outcome frames_result :=
  let! r := frames_loop (length data) p encLevel tracing data (start_frames c) in
  match r with
  | Failed c e => Ret (c, inr e, None)
  | Parsed s => after_frames (handshakeComplete c) tracing s
  end.

End handle.
