(* ===== verification/FramesProps.v ===== *)
(** * Frames: what is written, parsed, handled and split

    The format of a frame is a list of numbers, its type first, and the bytes
    that follow them.  Every writer emits exactly that, in the announced
    length, and the parser of the payload gets the frames back. *)
From S2P Require Import Prelude Protocol Varint AckFrame AckFrameProps Frames.

Local Open Scope Z_scope.
Local Open Scope go_scope.

(** ** The format *)

Definition stream_type (f : StreamFrame) : Z :=
  8 + (if Fin f then 1 else 0) + (if DataLenPresent f then 2 else 0) + (if Offset f =? 0 then 0 else 4).

Definition stream_fields (f : StreamFrame) : list Z :=
  StreamID f :: (if Offset f =? 0 then [] else [Offset f]) ++ (if DataLenPresent f then [len (Data f)] else []).

(** The type of a frame *)
Definition typ (f : Frame) : Z :=
  match f with
  | PingFrame => 0x1
  | AckF f => type_of f
  | ResetStreamFrame _ _ _ rs => if rs =? 0 then 0x4 else 0x24
  | StopSendingFrame _ _ => 0x5
  | CryptoFrame _ _ => 0x6
  | NewTokenFrame _ => 0x7
  | StreamF f => stream_type f
  | MaxDataFrame _ => 0x10
  | MaxStreamDataFrame _ _ => 0x11
  | MaxStreamsFrame t _ => match t with StreamTypeBidi => 0x12 | StreamTypeUni => 0x13 end
  | DataBlockedFrame _ => 0x14
  | StreamDataBlockedFrame _ _ => 0x15
  | StreamsBlockedFrame t _ => match t with StreamTypeBidi => 0x16 | StreamTypeUni => 0x17 end
  | NewConnectionIDFrame _ _ _ _ => 0x18
  | RetireConnectionIDFrame _ => 0x19
  | PathChallengeFrame _ => 0x1a
  | PathResponseFrame _ => 0x1b
  | ConnectionCloseFrame app _ _ _ => if app then 0x1d else 0x1c
  | HandshakeDoneFrame => 0x1e
  | DatagramFrame present _ => if present then 0x31 else 0x30
  | AckFrequencyFrame _ _ _ _ => 0xaf
  | ImmediateAckFrame => 0x1f
  end.

(** The numbers after the type, and the bytes after those *)
Definition fields (f : Frame) : list Z :=
  match f with
  | PingFrame | HandshakeDoneFrame | ImmediateAckFrame | PathChallengeFrame _ | PathResponseFrame _ => []
  | AckF f => ack_fields f
  | ResetStreamFrame sid ec fs rs => [sid; ec; fs] ++ if rs =? 0 then [] else [rs]
  | StopSendingFrame sid ec => [sid; ec]
  | CryptoFrame offset data => [offset; len data]
  | NewTokenFrame token => [len token]
  | StreamF f => stream_fields f
  | MaxDataFrame m | DataBlockedFrame m => [m]
  | MaxStreamDataFrame sid m | StreamDataBlockedFrame sid m => [sid; m]
  | MaxStreamsFrame _ n | StreamsBlockedFrame _ n => [n]
  | NewConnectionIDFrame seq ret connID _ => [seq; ret; len connID]
  | RetireConnectionIDFrame seq => [seq]
  | ConnectionCloseFrame app ec ft reason => ec :: (if app then [] else [ft]) ++ [len reason]
  | DatagramFrame present data => if present then [len data] else []
  | AckFrequencyFrame seq aeth mad rth => [seq; aeth; mad / 1000; rth]
  end.

Definition tail (f : Frame) : bytes :=
  match f with
  | CryptoFrame _ data | PathChallengeFrame data | PathResponseFrame data | DatagramFrame _ data => data
  | NewTokenFrame token => token
  | StreamF f => Data f
  | NewConnectionIDFrame _ _ connID token => connID ++ token
  | ConnectionCloseFrame _ _ _ reason => reason
  | _ => []
  end.

Definition wire (f : Frame) : bytes := put (typ f :: fields f) ++ tail f.

(** The frames the stack sends *)
Definition sendable (f : Frame) : Prop :=
  match f with
  | AckF f => valid_frame f /\ ReceiveTimestamps f = []
  | ResetStreamFrame _ _ fs rs => rs <= fs
  | NewTokenFrame token => token <> []
  | StreamF f =>
      (Data f <> [] \/ Fin f = true) /\ len (Data f) <= MaxPacketBufferSize /\
      Offset f + len (Data f) <= MaxByteCount
  | MaxStreamsFrame _ n | StreamsBlockedFrame _ n => n <= MaxStreamCount
  | NewConnectionIDFrame seq ret connID token => ret <= seq /\ 1 <= len connID <= MaxConnIDLen /\ len token = 16
  | PathChallengeFrame data | PathResponseFrame data => len data = 8
  | ConnectionCloseFrame app _ ft _ => app = true -> ft = 0
  | AckFrequencyFrame _ _ mad _ => 0 <= mad < 2 ^ 63
  | _ => True
  end /\ Forall is_varint (fields f).

(** What the receiver gets of a frame *)
Definition received (f : Frame) : Frame :=
  match f with
  | AckF f => AckF (received_frame f)
  | StreamF f =>
      let pooled := negb (len (Data f) <? MinStreamFrameBufferSize) in
      StreamF {| StreamID := StreamID f; Offset := Offset f; Data := Data f; Fin := Fin f;
                 DataLenPresent := DataLenPresent f; fromPool := pooled;
                 dataCap := if pooled then MaxPacketBufferSize else len (Data f) |}
  | AckFrequencyFrame seq aeth mad rth => AckFrequencyFrame seq aeth (mad - mad mod 1000) rth
  | f => f
  end.

(** The frame says where it ends. *)
Definition delimited (f : Frame) : bool :=
  match f with StreamF f => DataLenPresent f | DatagramFrame present _ => present | _ => true end.

(** ** Writing *)

Lemma append_all_spec xs b : Forall is_varint xs -> append_all b xs = Ret (b ++ put xs).
Proof.
  unfold append_all. revert b. induction xs as [|x xs IH]; intros b Hx; [by rewrite app_nil_r|].
  apply Forall_cons in Hx as [Hx Hxs]. cbn [ofold]. rewrite Append_encoding by done. cbn [obind].
  by rewrite IH, put_cons, app_assoc.
Qed.

Lemma len_all_spec xs : Forall is_varint xs -> len_all xs = Ret (size xs).
Proof.
  unfold len_all. intros Hx. enough (Hn : forall n, ofold (fun n x => let! l := quicvarint.Len x in Ret (n + l)) xs n
    = Ret (n + size xs)) by apply Hn. revert Hx. induction xs as [|x xs IH]; intros Hx n.
  { change (size []) with 0. by rewrite Z.add_0_r. }
  apply Forall_cons in Hx as [Hx Hxs]. cbn [ofold]. rewrite Len_encoding by done. cbn [obind].
  rewrite IH, size_cons by done. f_equal. lia.
Qed.

Lemma u64_varint x : is_varint x -> u64 x = x.
Proof. unfold is_varint. intros. apply u64_small. lia. Qed.
Lemma i64_varint x : is_varint x -> i64 x = x.
Proof. unfold is_varint. intros. apply i64_small. lia. Qed.

Lemma put_nil : put [] = [].
Proof. done. Qed.

Lemma put_small x xs : 0 <= x < 64 -> put (x :: xs) = x :: put xs.
Proof. intros. by rewrite put_cons, encoding_small. Qed.

Lemma size_small x xs : 0 <= x < 64 -> size (x :: xs) = 1 + size xs.
Proof. intros. unfold size. by rewrite put_small, len_cons. Qed.

Lemma size_one x : size [x] = len (encoding x).
Proof. unfold size. by rewrite put_one. Qed.

(** Takes the validity of the numbers of a frame apart. *)
Ltac split_varints H :=
  repeat match type of H with Forall is_varint (_ :: _) => apply Forall_cons in H as [? H] end.

(** Runs a writer of numbers that are in range. *)
Ltac run_writer :=
  repeat first
    [ rewrite append_all_spec by (repeat (apply Forall_cons_2; [done|]); done)
    | rewrite len_all_spec by (repeat (apply Forall_cons_2; [done|]); done)
    | rewrite Append_encoding by done
    | rewrite Len_encoding by done
    | progress cbn [obind] ].

Lemma Append_stream f b : sendable (StreamF f) ->
  Stream.Append f b = Ret (b ++ wire (StreamF f)) /\ Stream.Length f = Ret (len (wire (StreamF f))).
Proof.
  intros [(Hne & Hlen & Hoff) Hv]. unfold MaxPacketBufferSize in *.
  assert (Hd : is_varint (len (Data f))) by (unfold is_varint; pose proof (len_nonneg (Data f)); lia).
  unfold Stream.Append, Stream.Length, DataLen, wire. cbn [typ fields tail] in *.
  rewrite put_small by (unfold stream_type; repeat case_match; lia).
  assert (Hguard : (len (Data f) =? 0) && negb (Fin f) = false).
  { destruct Hne as [Hne | ->]; [|by rewrite andb_false_r]. rewrite (proj2 (Z.eqb_neq _ _)); [done|].
    destruct (Data f); [done|]. rewrite len_cons. pose proof (len_nonneg l). lia. }
  rewrite Hguard. unfold stream_type, stream_fields in *. apply Forall_cons in Hv as [Hs Hv].
  rewrite (u64_varint _ Hs), (u64_varint _ Hd).
  destruct (Z.eqb_spec (Offset f) 0), (DataLenPresent f), (Fin f); cbn [negb app] in *; split_varints Hv;
    rewrite ?(u64_varint (Offset f)) by done; run_writer; rewrite ?put_cons, ?app_nil_r; cbn [put fmap list_fmap concat app];
    split; f_equal; try (by flat_app); rewrite ?len_cons, ?len_app; change (len (@nil Z)) with 0; lia.
Qed.

(** Both sides in encodings: the bytes are equal, and the lengths. *)
Ltac number_goal :=
  rewrite ?put_cons, ?put_nil, ?size_cons, ?size_nil;
  repeat match goal with |- context [encoding (Zpos ?n)] => rewrite (encoding_small (Zpos n)) by lia end;
  split; f_equal;
    first [by flat_app | rewrite ?len_app, ?len_cons; change (len (@nil Z)) with 0; lia].

Lemma Append_spec f b : sendable f ->
  Append f b = Ret (b ++ wire f) /\ Length f = Ret (len (wire f)).
Proof.
  intros Hs. pose proof Hs as [Hx Hv]. destruct f; try (apply (Append_stream f b Hs)).
  2:{ destruct Hx as [Hf Ht]. cbn [Append Length]. destruct (frame_written f b) as [-> ->]; [unfold wf_frame; by rewrite Ht|].
      unfold frame_bytes. rewrite Ht. change (0 <? len (@nil ReceiveTimestamp)) with false. cbv iota.
      unfold wire. cbn [typ fields tail]. rewrite put_small by (unfold type_of; case_match; lia). by rewrite app_nil_r. }
  all: cbn [Append Length]; unfold wire, Crypto.Append, Crypto.Length, ResetStream.Append, ResetStream.Length,
    StopSending.Append, StopSending.Length, NewToken.Append, NewToken.Length, MaxData.Append, MaxData.Length,
    MaxStreamData.Append, MaxStreamData.Length, MaxStreams.Append, MaxStreams.Length, DataBlocked.Append, DataBlocked.Length,
    StreamDataBlocked.Append, StreamDataBlocked.Length, StreamsBlocked.Append, StreamsBlocked.Length,
    NewConnectionID.Append, NewConnectionID.Length, RetireConnectionID.Append, RetireConnectionID.Length,
    PathChallenge.Append, PathChallenge.Length, PathResponse.Append, PathResponse.Length, ConnectionClose.Append,
    ConnectionClose.Length, Datagram.Append, Datagram.Length, AckFrequency.Append, AckFrequency.Length; cbn [typ fields tail] in *; split_varints Hv.
  all: rewrite ?u64_varint by done.
  all: try (run_writer; number_goal; fail).
  - (* RESET_STREAM *)
    cbn [app] in Hv. split_varints Hv.
    destruct (Z.eqb_spec ReliableSize 0) as [->|]; [|split_varints Hv; rewrite (proj2 (Z.ltb_lt 0 _)) by (unfold is_varint in *; lia)];
      cbn [Z.ltb Z.compare app]; rewrite ?u64_varint by done; run_writer; number_goal.
  - destruct stype; run_writer; number_goal.
  - destruct stype; run_writer; number_goal.
  - destruct Hx as (_ & Hc & Ht). unfold MaxConnIDLen in *. rewrite (proj2 (Z.ltb_ge _ _)) by lia.
    run_writer. rewrite u8_small, !put_cons, !(encoding_small (len ConnectionID)) by lia.
    number_goal.
  - destruct IsApplicationError; cbn [negb app] in *; split_varints Hv; run_writer; number_goal.
  - destruct DataLenPresent; split_varints Hv; run_writer; number_goal.
  - rewrite Z.quot_div_nonneg by lia. rewrite !u64_varint by done.
    change FrameTypeAckFrequency with 175. assert (is_varint 175) by done.
    assert (len (encoding 175) = 2) by done. run_writer. number_goal.
Qed.

(** ** Parsing *)

(** Reads the numbers of a frame, one after the other. *)
Ltac run_reader :=
  repeat first [ rewrite readVarint_put by done | rewrite i64_varint by done | progress cbn [obind] ].

Lemma parse_less p n data lvl r : IsStreamFrameType n || IsAckFrameType n || IsDatagramFrameType n = false ->
  less_common n data = Ret r -> parse_frame p n data lvl = Ret r.
Proof.
  intros [[H1 H2]%orb_false_iff H3]%orb_false_iff H. unfold parse_frame, ParseLessCommonFrame. by rewrite H1, H2, H3, H.
Qed.

(** Chooses the parser of a type that is given. *)
Ltac dispatch :=
  cbv beta delta [less_common FrameTypePing FrameTypeResetStream FrameTypeStopSending FrameTypeCrypto FrameTypeNewToken
    FrameTypeMaxData FrameTypeMaxStreamData FrameTypeBidiMaxStreams FrameTypeUniMaxStreams FrameTypeDataBlocked
    FrameTypeStreamDataBlocked FrameTypeBidiStreamBlocked FrameTypeUniStreamBlocked FrameTypeNewConnectionID
    FrameTypeRetireConnectionID FrameTypePathChallenge FrameTypePathResponse FrameTypeConnectionClose
    FrameTypeApplicationClose FrameTypeHandshakeDone FrameTypeResetStreamAt FrameTypeAckFrequency FrameTypeImmediateAck];
  cbn [Z.eqb Pos.eqb orb].

Lemma data_after (t rest : bytes) : (len (t ++ rest) <? len t) = false.
Proof. rewrite len_app. pose proof (len_nonneg rest). apply Z.ltb_ge. lia. Qed.

(** A parser consumed the numbers [xs] and the bytes [t]. *)
Lemma consumed_spec xs (t rest : bytes) : len (put xs ++ t ++ rest) - len (t ++ rest) + len t = size xs + len t.
Proof. rewrite len_app. unfold size. lia. Qed.
Lemma consumed_numbers xs (rest : bytes) : len (put xs ++ rest) - len rest = size xs + 0.
Proof. rewrite len_app. unfold size. lia. Qed.

Lemma parse_stream_spec f rest : sendable (StreamF f) -> DataLenPresent f = true \/ rest = [] ->
  ParseStreamFrame (put (stream_fields f) ++ Data f ++ rest) (stream_type f)
  = Ret (match received (StreamF f) with StreamF g => g | _ => f end, size (stream_fields f) + len (Data f)).
Proof.
  intros [(Hne & Hlen & Hoff) Hv] Hd. unfold MaxPacketBufferSize, MaxByteCount in *. cbn [fields] in Hv.
  pose proof (len_nonneg (Data f)).
  assert (Hdl : is_varint (len (Data f))) by (unfold is_varint; lia).
  assert (0 <= Offset f).
  { unfold stream_fields in Hv. destruct (Z.eqb_spec (Offset f) 0) as [|Hn]; [lia|]. cbn [app] in Hv. split_varints Hv.
    unfold is_varint in *. lia. }
  assert (Hframe : forall rest o, i64 o = Offset f ->
    stream_frame (StreamID f) o (len (Data f)) (Fin f) (DataLenPresent f) (Data f ++ rest)
    = Ret (match received (StreamF f) with StreamF g => g | _ => f end)).
  { intros r o Ho. unfold stream_frame. rewrite subslice_app by done.
    assert (negb (len (Data f) <? MinStreamFrameBufferSize) && (MaxPacketBufferSize <? len (Data f)) = false) as ->
      by (rewrite (proj2 (Z.ltb_ge MaxPacketBufferSize _)) by done; apply andb_false_r).
    cbn [obind]. cbn zeta. unfold DataLen. cbn [Offset Data]. rewrite Ho. apply Forall_cons in Hv as [Hs Hv].
    rewrite (i64_varint _ Hs).
    unfold MaxByteCount. rewrite i64_small, (proj2 (Z.ltb_ge _ _)) by lia. done. }
  unfold ParseStreamFrame. cbv zeta.
  assert (Hbits : (0 <? Z.land (stream_type f) 4) = negb (Offset f =? 0) /\
    (0 <? Z.land (stream_type f) 1) = Fin f /\ (0 <? Z.land (stream_type f) 2) = DataLenPresent f)
    by (unfold stream_type; destruct (Offset f =? 0), (DataLenPresent f), (Fin f); done).
  destruct Hbits as (-> & -> & ->). set (start := len (put (stream_fields f) ++ Data f ++ rest)).
  assert (Hstart : start - len (Data f ++ rest) + len (Data f) = size (stream_fields f) + len (Data f)) by apply consumed_spec.
  clearbody start. unfold stream_fields in *. apply Forall_cons in Hv as [Hs Hv].
  destruct (Z.eqb_spec (Offset f) 0) as [Ho|Ho]; cbn [negb app] in *.
  - destruct (DataLenPresent f) eqn:Ed; split_varints Hv; run_reader; rewrite ?put_nil; cbn [app].
    + rewrite data_after. cbn [obind]. rewrite Hframe by (by rewrite Ho). cbn [obind]. by rewrite Hstart.
    + destruct Hd as [? | ->]; [done|]. rewrite app_nil_r in *. rewrite <- (app_nil_r (Data f)) at 2.
      rewrite Hframe by (by rewrite Ho). cbn [obind]. by rewrite Hstart.
  - apply Forall_cons in Hv as [Hof Hv].
    destruct (DataLenPresent f) eqn:Ed; split_varints Hv; run_reader; rewrite ?put_nil; cbn [app].
    + rewrite data_after. cbn [obind]. rewrite Hframe by (by apply i64_varint). cbn [obind]. by rewrite Hstart.
    + destruct Hd as [? | ->]; [done|]. rewrite app_nil_r in *. rewrite <- (app_nil_r (Data f)) at 2.
      rewrite Hframe by (by apply i64_varint). cbn [obind]. by rewrite Hstart.
Qed.

Lemma subslice_front (t rest : bytes) : subslice (t ++ rest) 0 (len t) = Ret t.
Proof. by apply subslice_app. Qed.

(** Runs the parser of a type that is given, [tac] passing its guards. *)
Ltac parse_with tac :=
  apply parse_less; [done|]; dispatch;
  unfold parseResetStreamFrame, parseStopSendingFrame, parseNewTokenFrame, parseMaxDataFrame, parseDataBlockedFrame,
    parseRetireConnectionIDFrame, parse_number, parseMaxStreamDataFrame, parseStreamDataBlockedFrame,
    parseMaxStreamsFrame, parseStreamsBlockedFrame, parseNewConnectionIDFrame, parseConnectionCloseFrame,
    parseAckFrequencyFrame, parsePathChallengeFrame, parsePathResponseFrame,
    parse_path, Crypto.parse,
    FrameTypeApplicationClose, FrameTypeBidiMaxStreams, FrameTypeBidiStreamBlocked; cbv zeta;
  cbn [negb Z.eqb Pos.eqb];
  run_reader; rewrite ?put_nil; cbn [app]; rewrite ?data_after, ?subslice_front; cbn [obind negb Z.eqb Pos.eqb];
  tac; run_reader; rewrite ?consumed_spec, ?consumed_numbers.

Lemma parse_frame_spec p f rest lvl : sendable f -> delimited f = true \/ rest = [] ->
  (lvl = Encryption1RTT -> ackDelayExponent p = 3) ->
  parse_frame p (typ f) (put (fields f) ++ tail f ++ rest) lvl = Ret (received f, size (fields f) + len (tail f)).
Proof.
  intros Hs Hd Hexp. pose proof Hs as [Hx Hv]. destruct f.
  2:{ destruct Hx as [Hf Ht]. cbn [typ fields tail app].
      assert (Hp : parse_frame p (type_of f) (put (ack_fields f) ++ rest) lvl
        = ParseAckFrame p (type_of f) (put (ack_fields f) ++ rest) lvl).
      { unfold parse_frame, type_of. by destruct (Ack.hasECN f). }
      rewrite Hp. unfold ParseAckFrame. case_bool_decide as Hl; [rewrite Hexp by done | unfold DefaultAckDelayExponent];
        rewrite parse_ack_fields by done; cbn; by rewrite Z.add_0_r. }
  6:{ cbn [typ fields tail]. unfold parse_frame. assert (IsStreamFrameType (stream_type f) = true) as ->.
      { unfold stream_type. by destruct (Offset f =? 0), (DataLenPresent f), (Fin f). }
      unfold ParseStreamFrame_. by rewrite parse_stream_spec. }
  all: cbn [fields tail typ received] in *; split_varints Hv.
  all: try (parse_with ltac:(idtac); done).
  - cbn [app] in *. split_varints Hv. destruct (Z.eqb_spec ReliableSize 0) as [->|]; split_varints Hv;
      parse_with ltac:(rewrite (proj2 (Z.ltb_ge FinalSize _)) by (unfold is_varint in *; lia)); done.
  - parse_with ltac:(rewrite (proj2 (Z.eqb_neq (len Token) 0)) by (destruct Token; [done|];
      rewrite len_cons; pose proof (len_nonneg Token); lia)); done.
  - destruct stype; parse_with ltac:(rewrite (proj2 (Z.ltb_ge MaxStreamCount _)) by done); done.
  - destruct stype; parse_with ltac:(rewrite (proj2 (Z.ltb_ge MaxStreamCount _)) by done); done.
  - destruct Hx as (Hr & Hc & Ht). unfold MaxConnIDLen in *. apply parse_less; [done|]. dispatch.
    unfold parseNewConnectionIDFrame. cbv zeta.
    rewrite <- app_assoc, !put_cons, put_nil, (encoding_small (len ConnectionID)), <- !app_assoc by lia. cbn [app].
    set (start := len (encoding SequenceNumber ++ _)).
    assert (Hstart : start = len (encoding SequenceNumber) + len (encoding RetirePriorTo) + 1 + len ConnectionID + 16 + len rest).
    { unfold start. rewrite !len_app, len_cons, !len_app, Ht. lia. }
    clearbody start. do 2 (rewrite readVarint_encoding by done; cbn [obind]). rewrite (proj2 (Z.ltb_ge _ _)) by done.
    rewrite (proj2 (Z.eqb_neq _ _)), (proj2 (Z.ltb_ge MaxConnIDLen _)), data_after, subslice_front by (unfold MaxConnIDLen; lia).
    cbn [obind]. unfold ParseConnectionID, MaxConnIDLen. rewrite (proj2 (Z.ltb_ge 20 _)) by lia. cbn [obind].
    rewrite slice_from_app by done. cbn [obind]. rewrite <- Ht, data_after, subslice_front. cbn [obind].
    do 2 f_equal. rewrite Hstart, !len_app, !size_cons, size_nil, (encoding_small (len ConnectionID)) by lia.
    change (len [len ConnectionID]) with 1. lia.
  - apply parse_less; [done|]. dispatch. unfold parsePathChallengeFrame, parsePathResponseFrame, parse_path. rewrite put_nil. cbn [app]. rewrite <- Hx.
    rewrite data_after, subslice_front. done.
  - apply parse_less; [done|]. dispatch. unfold parsePathChallengeFrame, parsePathResponseFrame, parse_path. rewrite put_nil. cbn [app]. rewrite <- Hx.
    rewrite data_after, subslice_front. done.
  - destruct IsApplicationError; cbn [app] in *; split_varints Hv.
    + rewrite (Hx eq_refl). parse_with ltac:(idtac). done.
    + parse_with ltac:(idtac); done.
  - unfold parse_frame. destruct DataLenPresent; split_varints Hv; cbn [IsStreamFrameType Z.leb Z.compare].
    + change (ParseDatagramFrame 49 (put [len Data] ++ Data ++ rest) = Ret (DatagramFrame true Data, size [len Data] + len Data)).
      unfold ParseDatagramFrame, Datagram.parse. change (0 <? Z.land 49 1) with true. cbv zeta iota. run_reader. rewrite put_nil. cbn [app].
      rewrite data_after. cbn [obind]. rewrite subslice_front. cbn [obind]. by rewrite consumed_spec.
    + destruct Hd as [? | ->]; [done|].
      change (ParseDatagramFrame 48 (Data ++ []) = Ret (DatagramFrame false Data, 0 + len Data)).
      unfold ParseDatagramFrame, Datagram.parse. change (0 <? Z.land 48 1) with false. cbv zeta iota. rewrite app_nil_r. cbn [obind].
      assert (Hsub : subslice Data 0 (len Data) = Ret Data) by (rewrite <- (app_nil_r Data) at 1; apply subslice_front).
      rewrite Hsub. cbn [obind encoding_error]. do 2 f_equal. lia.
  - assert (Hmad : i64 (i64 (RequestMaxAckDelay / 1000) * 1000) = RequestMaxAckDelay - RequestMaxAckDelay mod 1000)
      by (rewrite (i64_varint (_ / _)) by done; rewrite i64_small by dlia; dlia).
    parse_with ltac:(rewrite Hmad, (proj2 (Z.ltb_ge _ 0)) by dlia). done.
Qed.

(** ** Types and padding *)

Lemma typ_range f : 1 <= typ f < 256.
Proof. destruct f; cbn [typ]; unfold type_of, stream_type; repeat case_match; lia. Qed.

Lemma typ_varint f : is_varint (typ f).
Proof. pose proof (typ_range f). unfold is_varint. lia. Qed.

Lemma ack_eliciting_typ f : IsFrameTypeAckEliciting (typ f) = IsFrameAckEliciting f.
Proof. destruct f; cbn [typ]; unfold type_of, stream_type; repeat case_match; done. Qed.

Lemma probing_typ f : IsProbingFrameType (typ f) = IsProbingFrame f.
Proof. destruct f; cbn [typ]; unfold type_of, stream_type; repeat case_match; done. Qed.

(** The receiver takes the frame at this encryption level. *)
Definition acceptable (p : FrameParser) (lvl : EncryptionLevel) (f : Frame) : Prop :=
  sendable f /\ valid_type p (typ f) = true /\ isAllowedAtEncLevel (typ f) lvl = true.

Lemma parse_type_padding p n b lvl fuel parsed : (n <= fuel)%nat ->
  parse_type p fuel (replicate n 0 ++ b) lvl parsed = parse_type p (fuel - n) b lvl (parsed + Z.of_nat n).
Proof.
  revert fuel parsed. induction n as [|n IH]; intros fuel parsed Hf.
  { cbn [replicate app]. by rewrite Nat.sub_0_r, Z.add_0_r. }
  destruct fuel as [|fuel]; [lia|]. cbn [replicate app parse_type].
  change (quicvarint.Parse (0 :: replicate n 0 ++ b)) with (@Ret (Z * Z) (0, 1)). cbv iota beta.
  rewrite slice_from_1. cbn [obind Z.eqb].
  rewrite IH by lia. cbn [Nat.sub]. f_equal. lia.
Qed.

Lemma parse_type_wire p f rest lvl fuel parsed : acceptable p lvl f -> (0 < fuel)%nat ->
  parse_type p fuel (wire f ++ rest) lvl parsed = Ret (typ f, parsed + len (encoding (typ f))).
Proof.
  intros (Hs & Hv & Ha) Hf. pose proof (typ_range f). unfold wire. rewrite put_cons, <- !app_assoc.
  destruct fuel as [|fuel]; [lia|]. pose proof (encoding_size_range (typ f)).
  pose proof (Parse_encoding (typ f) (put (fields f) ++ tail f ++ rest) (typ_varint f)) as Hp.
  pose proof (slice_from_app (encoding (typ f)) (put (fields f) ++ tail f ++ rest) (len (encoding (typ f))) eq_refl) as Hsl.
  destruct (encoding (typ f)) as [|e0 es] eqn:E; [change (len (@nil Z)) with 0 in *; lia|].
  cbn [app parse_type] in *. rewrite Hp, Hsl. cbn [obind]. rewrite (proj2 (Z.eqb_neq _ _)), Hv, Ha by lia. done.
Qed.

Lemma wire_length f : (1 <= length (wire f))%nat.
Proof.
  unfold wire. rewrite put_cons, !length_app. pose proof (encoding_size_range (typ f)). unfold len in *. lia.
Qed.

Lemma ParseType_spec p n f rest lvl : acceptable p lvl f ->
  ParseType p (replicate n 0 ++ wire f ++ rest) lvl = Ret (typ f, Z.of_nat n + len (encoding (typ f))).
Proof.
  intros Ha. unfold ParseType. pose proof (wire_length f). rewrite !length_app, length_replicate.
  rewrite parse_type_padding, parse_type_wire by (done || lia). done.
Qed.

Lemma ParseType_padding p n lvl : ParseType p (replicate n 0) lvl = Err io_EOF.
Proof.
  unfold ParseType. rewrite length_replicate, <- (app_nil_r (replicate n 0)), parse_type_padding by lia.
  by destruct (n - n)%nat.
Qed.

(** ** The payload of a packet *)

(** Frames, each after some padding, and padding at the end *)
Definition payload (items : list (nat * Frame)) (m : nat) : bytes :=
  concat (map (fun '(n, f) => replicate n 0 ++ wire f) items) ++ replicate m 0.

(** Only the last frame may leave out its length, if nothing follows it. *)
Fixpoint separable (items : list (nat * Frame)) (m : nat) : Prop :=
  match items with
  | [] => True
  | (_, f) :: items => (delimited f = true \/ items = [] /\ m = 0%nat) /\ separable items m
  end.

Section payload.
Context {C : Type} (handle : Frame -> C -> outcome (C * option goerror)).
Context (p : FrameParser) (lvl : EncryptionLevel).
Context (Hexp : lvl = Encryption1RTT -> ackDelayExponent p = 3).

(** The handler on one frame after the other, up to the first error *)
Fixpoint handle_all (fs : list Frame) (c : C) : outcome (C * option goerror) :=
  match fs with
  | [] => Ret (c, None)
  | f :: fs => let! '(c, err) := handle f c in match err with Some e => Ret (c, Some e) | None => handle_all fs c end
  end.

Definition note (f : Frame) (s : frames_state) : frames_state (C := C) :=
  {| conn := conn s; isAckEliciting := isAckEliciting s || IsFrameAckEliciting f;
     isNonProbing := isNonProbing s || negb (IsProbingFrame f);
     pathChallenge := pathChallenge s; handleErr := handleErr s; logged := logged s |}.

(** The loop over frames instead of bytes *)
Fixpoint frames_spec (tracing : bool) (fs : list Frame) (s : frames_state) : outcome (frames_end (C := C)) :=
  match fs with
  | [] => Ret (Parsed s)
  | f :: fs =>
      let! '(s, stop) := handle_parsed handle tracing (note f s) (received f) in
      match stop, handleErr s with true, Some e => Ret (Failed (conn s) e) | _, _ => frames_spec tracing fs s end
  end.

Lemma frames_loop_spec items m tracing fuel s :
  Forall (fun '(_, f) => acceptable p lvl f) items -> separable items m -> (length (payload items m) <= fuel)%nat ->
  frames_loop handle fuel p lvl tracing (payload items m) s = frames_spec tracing (map snd items) s.
Proof.
  revert fuel s. induction items as [|[n f] items IH]; intros fuel s Ha Hsep Hfuel.
  { unfold payload in *. cbn [map concat app frames_spec] in *. pose proof (ParseType_padding p m lvl) as Hp.
    rewrite length_replicate in Hfuel.
    destruct fuel as [|fuel], m as [|m]; try done; [cbn in Hfuel; lia|]. cbn [replicate frames_loop] in *. rewrite Hp. done. }
  apply Forall_cons in Ha as [Hf Ha]. destruct Hsep as [Hd Hsep].
  assert (Hpay : payload ((n, f) :: items) m = replicate n 0 ++ wire f ++ payload items m)
    by (unfold payload; cbn [map concat]; by rewrite <- !app_assoc).
  rewrite Hpay in *. pose proof (wire_length f) as Hw. rewrite !length_app in Hfuel.
  destruct fuel as [|fuel]; [lia|].
  pose proof (ParseType_spec p n f (payload items m) lvl Hf) as Hp.
  destruct (replicate n 0 ++ wire f ++ payload items m) as [|b0 bs] eqn:E.
  { apply (f_equal length) in E. rewrite !length_app in E. change (length (@nil Z)) with 0%nat in E. lia. }
  cbn [frames_loop]. rewrite Hp, <- E. unfold wire. rewrite put_cons, <- !app_assoc, (app_assoc (replicate n 0)).
  rewrite slice_from_app by (rewrite len_app; unfold len; rewrite length_replicate; lia). cbn [obind].
  rewrite parse_frame_spec; [| apply Hf | | exact Hexp].
  2:{ destruct Hd as [? | [-> ->]]; [by left | by right]. }
  rewrite (app_assoc (put (fields f))), slice_from_app by (by rewrite len_app). cbn [obind].
  rewrite ack_eliciting_typ, probing_typ. cbn [frames_spec map snd]. unfold note.
  destruct (handle_parsed _ _ _ _) as [[s' stop]| |]; [|done|done]. cbn [obind].
  destruct stop, (handleErr s'); try done; apply IH; done || lia.
Qed.
End payload.

(** ** Arbitrary input *)

(** What the receiver can rely on in a frame that was parsed *)
Definition sane (f : Frame) : Prop :=
  match f with
  | AckF f => valid_frame f
  | ResetStreamFrame _ _ fs rs => 0 <= rs <= fs
  | CryptoFrame offset _ => is_varint offset
  | NewTokenFrame token => token <> []
  | StreamF f =>
      0 <= Offset f /\ Offset f + len (Data f) <= MaxByteCount /\ len (Data f) <= dataCap f /\
      is_panic (Stream.PutBack f) = false
  | MaxStreamsFrame _ n | StreamsBlockedFrame _ n => 0 <= n <= MaxStreamCount
  | NewConnectionIDFrame seq ret connID token => ret <= seq /\ 1 <= len connID <= MaxConnIDLen /\ len token = 16
  | PathChallengeFrame data | PathResponseFrame data => len data = 8
  | AckFrequencyFrame _ _ mad _ => 0 <= mad <= maxInt64
  | _ => True
  end.

(** The parser of [b] does not panic, takes no more than there is, and its
    frame is sane. *)
Definition parses (b : bytes) (m : outcome (Frame * Z)) : Prop :=
  match m with Ret (f, l) => 0 <= l <= len b /\ sane f | Err _ => True | Panic => False end.

Ltac frame_step :=
  match goal with
  | |- context [obind (Ret _) _] => progress cbn [obind]
  | |- context [obind (Err _) _] => progress cbn [obind]
  | H : Forall is_byte ?l |- context [readVarint ?l] =>
      let v := fresh "v" in let b := fresh "b" in let Hv := fresh "Hv" in let Hb := fresh "Hb" in let Hl := fresh "Hl" in
      let Hp := fresh "Hp" in
      pose proof (readVarint_total l H) as Hp; destruct (readVarint l) as [[v b]| |]; cbn [obind];
      [destruct Hp as (Hv & Hb & Hl & _); pose proof (len_nonneg b);
       assert (len b < len l) by (unfold len; lia);
       unfold is_varint in Hv; rewrite ?(i64_small v) by lia; cbn [obind] | done | done]
  | _ => read_step
  end.
Ltac frame_total := repeat (frame_step; try done; try lia); cbn [parses sane]; try done; try lia.

Section total.
Context (b : bytes) (Hb : Forall is_byte b) (Hs : len b < 2 ^ 62).

Lemma parseResetStreamFrame_total at_ : parses b (parseResetStreamFrame b at_).
Proof. pose proof (len_nonneg b). unfold parseResetStreamFrame. cbv zeta. destruct at_; frame_total.
  change (i64 0) with 0 in *. lia.
Qed.

Lemma parseStopSendingFrame_total : parses b (parseStopSendingFrame b).
Proof. pose proof (len_nonneg b). unfold parseStopSendingFrame. frame_total. Qed.

Lemma parseNewTokenFrame_total : parses b (parseNewTokenFrame b).
Proof.
  pose proof (len_nonneg b). unfold parseNewTokenFrame. frame_total; destruct (Z.eqb_spec v 0); try done.
  split; [lia|]. intros ->. change (len (@nil Z)) with 0 in *. lia.
Qed.

Lemma parse_number_total mk : (forall n, sane (mk n)) -> parses b (parse_number mk b).
Proof. intros Hk. pose proof (len_nonneg b). unfold parse_number. frame_total. split; [lia | done]. Qed.

Lemma parseMaxStreamDataFrame_total : parses b (parseMaxStreamDataFrame b).
Proof. pose proof (len_nonneg b). unfold parseMaxStreamDataFrame. frame_total. Qed.

Lemma parseStreamDataBlockedFrame_total : parses b (parseStreamDataBlockedFrame b).
Proof. pose proof (len_nonneg b). unfold parseStreamDataBlockedFrame. frame_total. Qed.

Lemma parseMaxStreamsFrame_total n : parses b (parseMaxStreamsFrame b n).
Proof. pose proof (len_nonneg b). unfold parseMaxStreamsFrame. frame_total. Qed.

Lemma parseStreamsBlockedFrame_total n : parses b (parseStreamsBlockedFrame b n).
Proof. pose proof (len_nonneg b). unfold parseStreamsBlockedFrame. frame_total. Qed.

Lemma parse_path_total mk : (forall d, len d = 8 -> sane (mk d)) -> parses b (parse_path mk b).
Proof. intros Hk. unfold parse_path. frame_total. split; [lia | apply Hk; lia]. Qed.

Lemma parseConnectionCloseFrame_total n : parses b (parseConnectionCloseFrame b n).
Proof.
  pose proof (len_nonneg b). unfold parseConnectionCloseFrame. cbv zeta. frame_step; try done.
  destruct (n =? FrameTypeApplicationClose); cbn [negb obind]; frame_total.
Qed.

Lemma parseAckFrequencyFrame_total : parses b (parseAckFrequencyFrame b).
Proof.
  pose proof (len_nonneg b). unfold parseAckFrequencyFrame. frame_total; unfold maxInt64; [lia|].
  pose proof (i64_range (v1 * 1000)). lia.
Qed.

Lemma Crypto_parse_total : parses b (Crypto.parse b).
Proof. pose proof (len_nonneg b). unfold Crypto.parse. frame_total. unfold is_varint. lia. Qed.

Lemma parseNewConnectionIDFrame_total : parses b (parseNewConnectionIDFrame b).
Proof.
  pose proof (len_nonneg b). unfold parseNewConnectionIDFrame, ParseConnectionID. cbv zeta.
  do 2 (frame_step; try done). frame_step; [done|].
  match goal with H : Forall is_byte ?l |- context [match ?l with [] => _ | _ => _ end] =>
    destruct l as [|c l']; [done|]; apply Forall_cons in H as [Hc H]; rewrite ?len_cons in *; unfold is_byte in Hc end.
  destruct (Z.eqb_spec c 0); [done|]. unfold MaxConnIDLen. pose proof (len_nonneg l').
  frame_total. unfold MaxConnIDLen. lia.
Qed.

Lemma Datagram_parse_total n : parses b (Datagram.parse b n).
Proof. pose proof (len_nonneg b). unfold Datagram.parse. cbv zeta. destruct (0 <? Z.land n 1); cbn [obind]; frame_total. Qed.

Lemma stream_frame_total sid offset dataLen fin present (b' : bytes) : Forall is_byte b' -> is_varint sid -> is_varint offset ->
  0 <= dataLen <= len b' ->
  match stream_frame sid offset dataLen fin present b' with Ret f => sane (StreamF f) | Err _ => True | Panic => False end.
Proof.
  intros Hb' Hsid Hoff Hd. unfold stream_frame, MinStreamFrameBufferSize, MaxPacketBufferSize, MaxByteCount, is_varint in *.
  destruct (subslice_total is_byte b' 0 dataLen Hb' ltac:(lia) ltac:(lia)) as (d & -> & _ & Hl). cbn [obind]. cbn zeta.
  unfold DataLen. cbn [Offset Data]. rewrite (i64_small offset) by lia.
  destruct (Z.ltb_spec dataLen 128); cbn [negb andb].
  - rewrite i64_small by lia. destruct (Z.ltb_spec (2 ^ 62 - 1) (offset + len d)); [done|].
    cbn [sane Offset Data dataCap]. unfold MaxByteCount. repeat split; done || lia.
  - destruct (Z.ltb_spec 1452 dataLen); [done|].
    rewrite i64_small by lia. destruct (Z.ltb_spec (2 ^ 62 - 1) (offset + len d)); [done|].
    cbn [sane Offset Data dataCap]. unfold MaxByteCount. repeat split; done || lia.
Qed.

Lemma ParseStreamFrame_total n : parses b (let! '(f, l) := ParseStreamFrame b n in Ret (StreamF f, l)).
Proof.
  pose proof (len_nonneg b). unfold ParseStreamFrame. cbv zeta. frame_step; try done.
  assert (Hfin : forall o d (b' : bytes), Forall is_byte b' -> is_varint o -> 0 <= d <= len b' -> len b' <= len b ->
    parses b (let! '(f, l) := (let! frame := stream_frame v o d (0 <? Z.land n 1) (0 <? Z.land n 2) b' in
      Ret (frame, len b - len b' + d)) in Ret (StreamF f, l))).
  { intros o d b' Hb' Ho Hd Hl'.
    pose proof (stream_frame_total v o d (0 <? Z.land n 1) (0 <? Z.land n 2) b' Hb' Hv Ho Hd) as Hf.
    destruct (stream_frame _ _ _ _ _ _) as [f| |]; [|done|done]. cbn. split; [lia | done]. }
  destruct (0 <? Z.land n 4), (0 <? Z.land n 2); cbn [obind]; repeat (frame_step; try done; try lia);
    apply Hfin; done || lia.
Qed.

Lemma less_common_total n : parses b (less_common n b).
Proof.
  assert (Hunit : forall f, sane f -> parses b (Ret (f, 0))) by (intros; cbn; pose proof (len_nonneg b); split; [lia | done]).
  unfold less_common.
  repeat match goal with
  | |- parses _ (if ?c then _ else _) =>
      destruct c;
      [first [ apply parseResetStreamFrame_total | apply parseStopSendingFrame_total | apply Crypto_parse_total
             | apply parseNewTokenFrame_total | apply parseMaxStreamDataFrame_total | apply parseMaxStreamsFrame_total
             | apply parseStreamDataBlockedFrame_total | apply parseStreamsBlockedFrame_total
             | apply parseNewConnectionIDFrame_total | apply parseConnectionCloseFrame_total
             | apply parseAckFrequencyFrame_total | by apply Hunit | by apply parse_number_total
             | by apply parse_path_total ]|]
  end.
  done.
Qed.

Lemma parse_frame_total p n lvl : parses b (parse_frame p n b lvl).
Proof.
  assert (He : forall m, parses b m -> parses b (encoding_error n m)) by (intros [[f l]|e|]; done).
  unfold parse_frame. destruct (IsStreamFrameType n); [apply He, ParseStreamFrame_total|].
  destruct (IsAckFrameType n).
  { apply He. set (x := if bool_decide _ then _ else _). clearbody x. pose proof (parse_total b n x Hb) as Hp.
    destruct (Ack.parseAckFrame empty_frame b n x) as [[f l]| |]; [|done|done]. destruct Hp as (Hf & _ & Hl).
    cbn. by split. }
  destruct (IsDatagramFrameType n); apply He; [apply Datagram_parse_total | apply less_common_total].
Qed.

End total.

Lemma parse_type_total p lvl (fuel : nat) parsed (b' : bytes) : Forall is_byte b' -> (length b' <= fuel)%nat ->
  match parse_type p fuel b' lvl parsed with
  | Ret (n, l) => parsed < l <= parsed + len b'
  | Err _ => True
  | Panic => False
  end.
Proof.
  revert parsed b'. induction fuel as [|fuel IH]; intros parsed b' Hb' Hl.
  { destruct b'; [done | cbn in Hl; lia]. }
  destruct b' as [|b0 b1] eqn:E; [done|]. rewrite <- E in *. assert (Hne : b' <> []) by (by subst).
  assert (Hstep : parse_type p (S fuel) b' lvl parsed = match quicvarint.Parse b' with
      | Err e => Err (TransportError FrameEncodingError 0 e) | Panic => Panic
      | Ret (typ, l) => let parsed := parsed + l in let! b := slice_from b' l in
          if typ =? 0 then parse_type p fuel b lvl parsed else
          if negb (valid_type p typ) then Err (TransportError FrameEncodingError typ errUnknownFrameType) else
          if negb (isAllowedAtEncLevel typ lvl)
          then Err (TransportError FrameEncodingError typ (Errorf "%d not allowed at encryption level" [pretty typ]))
          else Ret (typ, parsed) end) by (by subst).
  rewrite Hstep. read_step. cbv zeta. read_step. destruct (v =? 0).
  - assert (Hls : (length s <= fuel)%nat) by (unfold len in *; lia).
    specialize (IH (parsed + n) s ltac:(done) Hls).
    destruct (parse_type p fuel s lvl (parsed + n)) as [[? ?]| |]; try done. lia.
  - destruct (negb _); [done|]. destruct (negb _); [done|]. lia.
Qed.

(** ** Splitting *)

(** What a STREAM frame takes beside its data *)
Definition stream_base (f : StreamFrame) : Z :=
  1 + len (encoding (StreamID f)) + (if Offset f =? 0 then 0 else len (encoding (Offset f))).

Definition with_data (f : StreamFrame) (d : bytes) : StreamFrame :=
  {| StreamID := StreamID f; Offset := Offset f; Data := d; Fin := Fin f; DataLenPresent := DataLenPresent f;
     fromPool := fromPool f; dataCap := dataCap f |}.

(** The length of the length field of [n] bytes of data *)
Definition length_size (n : Z) : Z := if n <? 64 then 1 else 2.

Lemma Len_length_size n : 0 <= n < 2 ^ 14 -> quicvarint.Len n = Ret (length_size n).
Proof.
  intros Hn. unfold quicvarint.Len, quicvarint.maxVarInt1, quicvarint.maxVarInt2, length_size.
  destruct (Z.leb_spec n 63), (Z.ltb_spec n 64); try lia; [done|]. by rewrite (proj2 (Z.leb_le _ _)) by lia.
Qed.

Section split.
Context (f : StreamFrame) (Hid : is_varint (StreamID f)) (Hoff : is_varint (Offset f)).

Lemma Length_with_data d : len d < 2 ^ 14 ->
  Stream.Length (with_data f d)
  = Ret (stream_base f + (if DataLenPresent f then length_size (len d) else 0) + len d).
Proof.
  intros Hd. pose proof (len_nonneg d). unfold Stream.Length, stream_base, DataLen. cbn [with_data StreamID Offset DataLenPresent Data].
  rewrite !u64_varint by (done || (unfold is_varint; lia)). rewrite !Len_encoding by done. cbn [obind].
  rewrite (Len_length_size (len d)) by lia. destruct (Offset f =? 0); cbn [negb obind]; destruct (DataLenPresent f); cbn [obind];
    f_equal; lia.
Qed.

(** How much data a frame of [maxSize] bytes holds *)
Definition room (maxSize : Z) : Z :=
  let m := maxSize - stream_base f - (if DataLenPresent f then 1 else 0) in
  if m <? 0 then 0 else if DataLenPresent f && negb (m <? 64) then m - 1 else m.

Lemma MaxDataLen_spec maxSize : maxSize < 2 ^ 14 -> Stream.MaxDataLen f maxSize = Ret (room maxSize).
Proof.
  intros Hm. unfold Stream.MaxDataLen, room, stream_base. rewrite !u64_varint, !Len_encoding by done. cbn [obind].
  pose proof (encoding_size_range (StreamID f)). pose proof (encoding_size_range (Offset f)).
  assert (Hgo : forall h, 2 <= h -> (if maxSize <? (if DataLenPresent f then h + 1 else h) then Ret 0 else
      let maxDataLen := maxSize - (if DataLenPresent f then h + 1 else h) in
      if DataLenPresent f then let! l := quicvarint.Len (u64 maxDataLen) in
        Ret (if negb (l =? 1) then maxDataLen - 1 else maxDataLen) else Ret maxDataLen)
    = Ret (let m := maxSize - h - (if DataLenPresent f then 1 else 0) in
           if m <? 0 then 0 else if DataLenPresent f && negb (m <? 64) then m - 1 else m)).
  { intros h Hh. destruct (DataLenPresent f); cbv zeta; cbn [andb].
    - destruct (Z.ltb_spec maxSize (h + 1)); [by rewrite (proj2 (Z.ltb_lt _ 0)) by lia|].
      rewrite u64_small, Len_length_size by lia. cbn [obind]. rewrite (proj2 (Z.ltb_ge _ 0)) by lia. unfold length_size.
      replace (maxSize - h - 1) with (maxSize - (h + 1)) by lia. by destruct (maxSize - (h + 1) <? 64).
    - destruct (Z.ltb_spec maxSize h); [by rewrite (proj2 (Z.ltb_lt _ 0)) by lia|].
      rewrite (proj2 (Z.ltb_ge _ 0)) by lia. f_equal. lia. }
  destruct (Offset f =? 0); cbn [negb obind]; rewrite ?Z.add_0_r; apply Hgo; lia.
Qed.

(** The data that fits is what fits with its length field, and no more. *)
Lemma room_spec maxSize n : maxSize < 2 ^ 14 -> 0 < n < 2 ^ 14 ->
  n <= room maxSize <-> stream_base f + (if DataLenPresent f then length_size n else 0) + n <= maxSize.
Proof.
  intros Hm Hn. unfold room, length_size. destruct (DataLenPresent f); cbn [andb].
  - destruct (Z.ltb_spec (maxSize - stream_base f - 1) 0), (Z.ltb_spec (maxSize - stream_base f - 1) 64), (Z.ltb_spec n 64);
      cbn [negb]; lia.
  - destruct (Z.ltb_spec (maxSize - stream_base f - 0) 0); lia.
Qed.
Lemma room_nonneg maxSize : 0 <= room maxSize.
Proof.
  unfold room. destruct (DataLenPresent f); cbn [andb]; [|case_match; lia].
  destruct (Z.ltb_spec (maxSize - stream_base f - 1) 0), (Z.ltb_spec (maxSize - stream_base f - 1) 64); cbn [negb]; lia.
Qed.
End split.

Lemma with_data_same f : with_data f (Data f) = f.
Proof. by destruct f. Qed.

(** What splitting returns; the rest of the data is copied to a buffer of the
    pool. *)
Lemma split_cases f maxSize :
  is_varint (StreamID f) -> 0 <= Offset f -> Offset f + len (Data f) <= MaxByteCount ->
  len (Data f) <= MaxPacketBufferSize -> maxSize <= MaxPacketBufferSize ->
  (exists l, Stream.Length f = Ret l /\ l <= maxSize /\ Stream.MaybeSplitOffFrame f maxSize = Ret (None, false, f)) \/
  (Stream.MaybeSplitOffFrame f maxSize = Ret (None, true, f) /\ room f maxSize = 0) \/
  exists front back, Stream.MaybeSplitOffFrame f maxSize
      = Ret (Some {| StreamID := StreamID f; Offset := Offset f; Data := front; Fin := false;
                     DataLenPresent := DataLenPresent f; fromPool := fromPool f; dataCap := dataCap f |}, true,
             {| StreamID := StreamID f; Offset := Offset f + len front; Data := back; Fin := Fin f;
                DataLenPresent := DataLenPresent f; fromPool := true; dataCap := MaxPacketBufferSize |}) /\
    0 < room f maxSize /\ Data f = front ++ back /\ len front = room f maxSize /\ 0 < len back.
Proof.
  unfold MaxPacketBufferSize. intros Hid Ho Hend Hlen Hmax. unfold MaxByteCount in *. pose proof (len_nonneg (Data f)) as Hnn.
  assert (Hoff : is_varint (Offset f)) by (unfold is_varint; lia).
  pose proof (Length_with_data f Hid Hoff (Data f) ltac:(lia)) as Hl. rewrite with_data_same in Hl.
  unfold Stream.MaybeSplitOffFrame. rewrite Hl. cbn [obind].
  destruct (Z.leb_spec (stream_base f + (if DataLenPresent f then length_size (len (Data f)) else 0) + len (Data f)) maxSize)
    as [Hfit|Hfit]; [by left; eexists|].
  rewrite MaxDataLen_spec by (done || lia). cbn [obind]. pose proof (room_spec f maxSize) as Hroom. pose proof (room_nonneg f maxSize) as Hr0.
  destruct (Z.eqb_spec (room f maxSize) 0) as [Hr|Hr]; [by right; left|].
  right; right. set (n := room f maxSize) in *.
  assert (Hn : n < len (Data f)).
  { destruct (Z.lt_ge_cases n (len (Data f))) as [?|Hge]; [done|].
    destruct (Z.eq_dec (len (Data f)) 0) as [H0|H0].
    - rewrite H0 in Hfit. specialize (Hroom 1 ltac:(lia) ltac:(lia)). unfold length_size in *. cbn in Hfit, Hroom. lia.
    - specialize (Hroom (len (Data f)) ltac:(lia) ltac:(lia)). lia. }
  rewrite (proj2 (Z.ltb_ge _ 0)), (proj2 (Z.ltb_ge MaxPacketBufferSize _)) by (unfold MaxPacketBufferSize; lia). cbn [orb].
  destruct (subslice_cut (Data f) n) as (front & back & -> & -> & Hd & Hfl); [lia|]. cbn [obind].
  rewrite i64_small by lia. exists front, back. rewrite Hfl. rewrite Hd, len_app in Hn. split; [done|]. split_and!; done || lia.
Qed.

(** ** Handling the frames of a packet *)

Section handling.
Context {C : Type} (handle : Frame -> C -> outcome (C * option goerror)).

(** The last PATH_CHALLENGE frame *)
Definition last_challenge (before : option Frame) (fs : list Frame) : option Frame :=
  fold_left (fun pc f => if is_path_challenge f then Some f else pc) fs before.

(** The state of the loop after frames that were all handled *)
Definition after_all (tracing : bool) (fs : list Frame) (c : C) (s : frames_state (C := C)) : frames_state :=
  {| conn := c; isAckEliciting := isAckEliciting s || existsb IsFrameAckEliciting fs;
     isNonProbing := isNonProbing s || existsb (fun f => negb (IsProbingFrame f)) fs;
     pathChallenge := last_challenge (pathChallenge s) (map received fs); handleErr := None;
     logged := if tracing then logged s ++ map received fs else logged s |}.

(** Frames after one that failed are parsed and traced only. *)
Lemma frames_spec_failed fs s e : handleErr s = Some e ->
  exists s', frames_spec handle true fs s = Ret (Parsed s') /\ conn s' = conn s /\ handleErr s' = Some e /\
    logged s' = logged s ++ map received fs.
Proof.
  revert s. induction fs as [|f fs IH]; intros s He.
  { exists s. cbn. by rewrite app_nil_r. }
  cbn [frames_spec]. unfold handle_parsed. cbn [note handleErr]. rewrite He. cbn [obind].
  match goal with |- context [frames_spec _ _ _ ?x] => destruct (IH x) as (s' & Hs & Hc & He' & Hl); [done|] end.
  exists s'. rewrite Hs. split; [done|].
  split; [done|]. split; [done|]. rewrite Hl. cbn. by rewrite <- app_assoc.
Qed.

Lemma frames_spec_handled (tracing : bool) fs s : handleErr s = None ->
  match handle_all handle (map received fs) (conn s) with
  | Ret (c, None) => frames_spec handle tracing fs s = Ret (Parsed (after_all tracing fs c s))
  | Ret (c, Some e) =>
      if tracing then
        exists s', frames_spec handle tracing fs s = Ret (Parsed s') /\ conn s' = c /\ handleErr s' = Some e /\
          logged s' = logged s ++ map received fs
      else frames_spec handle tracing fs s = Ret (Failed c e)
  | Err e => frames_spec handle tracing fs s = Err e
  | Panic => frames_spec handle tracing fs s = Panic
  end.
Proof.
  revert s. induction fs as [|f fs IH]; intros s He.
  { cbn. unfold after_all. cbn. rewrite !orb_false_r, app_nil_r. destruct s, tracing; cbn in *; by rewrite He. }
  cbn [map handle_all frames_spec]. unfold handle_parsed. cbn [note handleErr conn]. rewrite He.
  destruct (handle (received f) (conn s)) as [[c [e|]]| |]; cbn [obind]; [| |done|done].
  - destruct tracing; [|done].
    match goal with |- context [frames_spec _ _ _ ?x] => set (s1 := x) end.
    destruct (frames_spec_failed fs s1 e eq_refl) as (s' & Hs & Hc & He' & Hl). exists s'. cbn [negb].
    rewrite Hs. split; [done|]. split; [done|]. split; [done|]. rewrite Hl. cbn. by rewrite <- app_assoc.
  - match goal with |- context [frames_spec _ _ _ ?x] => set (s1 := x) end.
    specialize (IH s1 eq_refl). cbn [conn s1] in IH. cbn [handleErr].
    destruct (handle_all handle (map received fs) c) as [[c' [e|]]| |]; try done.
    + destruct tracing; [|done]. destruct IH as (s' & Hs & Hc & He' & Hl). exists s'. rewrite Hs. do 3 (split; [done|]).
      rewrite Hl. cbn. by rewrite <- app_assoc.
    + rewrite IH. do 2 f_equal. unfold after_all, s1, note. cbn. rewrite !orb_assoc.
      destruct tracing; cbn; by rewrite <- ?app_assoc.
Qed.

(** ** Any payload *)

Context (I : C -> Prop).
Context (Hhandle : forall f c, sane f -> I c -> match handle f c with Ret (c', _) => I c' | _ => False end).

Lemma frames_loop_total p lvl tracing fuel (data : bytes) s : Forall is_byte data -> len data < 2 ^ 62 ->
  (length data <= fuel)%nat -> I (conn s) ->
  exists r, frames_loop handle fuel p lvl tracing data s = Ret r /\ match r with Parsed s' => I (conn s') | Failed c _ => I c end.
Proof.
  revert data s. induction fuel as [|fuel IH]; intros data s Hb Hs Hf Hi.
  { destruct data; [by eexists | cbn in Hf; lia]. }
  destruct data as [|d0 ds] eqn:E; [by eexists|]. rewrite <- E in *.
  pose proof (parse_type_total p lvl (length data) 0 data Hb ltac:(lia)) as Ht.
  assert (Hstep : frames_loop handle (S fuel) p lvl tracing data s = match ParseType p data lvl with
      | Panic => Panic
      | Err e => Ret (if bool_decide (e = io_EOF) then Parsed s else Failed (conn s) e)
      | Ret (frameType, l) =>
          let! data := slice_from data l in
          let s :=
            {| conn := conn s; isAckEliciting := isAckEliciting s || IsFrameTypeAckEliciting frameType;
               isNonProbing := isNonProbing s || negb (IsProbingFrameType frameType);
               pathChallenge := pathChallenge s; handleErr := handleErr s; logged := logged s |} in
          match parse_frame p frameType data lvl with
          | Panic => Panic
          | Err e => Ret (Failed (conn s) e)
          | Ret (f, l) =>
              let! data := slice_from data l in
              let! '(s, stop) := handle_parsed handle tracing s f in
              match stop, handleErr s with
              | true, Some e => Ret (Failed (conn s) e)
              | _, _ => frames_loop handle fuel p lvl tracing data s
              end
          end
      end) by (by subst).
  rewrite Hstep. clear E Hstep. unfold ParseType. destruct (parse_type p (length data) data lvl 0) as [[n l]|e|]; [|by destruct (bool_decide _); eexists|done].
  destruct (slice_from_total is_byte data l Hb ltac:(lia)) as (d1 & -> & Hb1 & Hl1). cbn [obind]. cbv zeta.
  pose proof (parse_frame_total d1 Hb1 p n lvl) as Hp.
  destruct (parse_frame p n d1 lvl) as [[f l2]|e|]; [|by eexists|done]. destruct Hp as [Hl2 Hsane].
  destruct (slice_from_total is_byte d1 l2 Hb1 ltac:(lia)) as (d2 & -> & Hb2 & Hl2'). cbn [obind].
  assert (Hd2 : (length d2 <= fuel)%nat) by (unfold len in *; lia).
  unfold handle_parsed. cbn [handleErr conn]. destruct (handleErr s).
  - cbn [obind]. apply IH; done || lia.
  - pose proof (Hhandle f (conn s) Hsane Hi) as Hh. destruct (handle f (conn s)) as [[c' err]| |]; [|done|done].
    cbn [obind handleErr]. destruct err as [e|]; [destruct tracing; cbn [negb]|]; try (by eexists); apply IH; done || lia.
Qed.
End handling.

(** ** Properties *)

(** C26. Splitting a STREAM frame: it stays as it is when it fits, and when
    not even one byte of its data would; otherwise the front of the data goes
    to a new frame of the same stream and offset, without FIN, that fits and
    would not with one byte more, and the rest stays in a frame that follows
    it without a gap and keeps FIN. *)
Theorem stream_split f maxSize :
  is_varint (StreamID f) -> 0 <= Offset f -> Offset f + len (Data f) <= MaxByteCount ->
  len (Data f) <= MaxPacketBufferSize -> maxSize <= MaxPacketBufferSize ->
  (exists l, Stream.Length f = Ret l /\ l <= maxSize /\ Stream.MaybeSplitOffFrame f maxSize = Ret (None, false, f)) \/
  (Stream.MaybeSplitOffFrame f maxSize = Ret (None, true, f) /\
   forall b l, Stream.Length (with_data f [b]) = Ret l -> maxSize < l) \/
  exists new rest l, Stream.MaybeSplitOffFrame f maxSize = Ret (Some new, true, rest) /\
    Data f = Data new ++ Data rest /\ Data new <> [] /\ Data rest <> [] /\
    StreamID new = StreamID f /\ StreamID rest = StreamID f /\
    Offset new = Offset f /\ Offset rest = Offset f + len (Data new) /\ Fin new = false /\ Fin rest = Fin f /\
    Stream.Length new = Ret l /\ l <= maxSize /\
    forall b l', Stream.Length (with_data new (Data new ++ [b])) = Ret l' -> maxSize < l'.
Proof.
  intros Hid Ho Hend Hlen Hmax.
  destruct (split_cases f maxSize Hid Ho Hend Hlen Hmax) as [(l & ?)|[(Hs & Hr)|(front & back & Hs & Hr & Hd & Hf & Hb)]].
  - left. by exists l.
  - right; left. split; [done|]. unfold MaxPacketBufferSize, MaxByteCount in *. intros b l.
    rewrite Length_with_data by (done || (unfold is_varint; pose proof (len_nonneg (Data f)); lia)). intros [= <-].
    pose proof (room_spec f maxSize 1 ltac:(lia) ltac:(lia)). change (len [b]) with 1. lia.
  - right; right. unfold MaxPacketBufferSize, MaxByteCount in *. pose proof (len_nonneg (Data f)). set (n := room f maxSize) in *.
    assert (Hsum : len (Data f) = len front + len back) by (by rewrite Hd, len_app).
    assert (Hne : forall l : bytes, 0 < len l -> l <> []) by (intros [|] H'; [done | done]).
    eexists _, _, _. split; [exact Hs|]. cbn [Data StreamID Offset Fin]. split; [done|]. split; [apply Hne; lia|].
    split; [apply Hne; lia|]. do 3 (split; [done|]). split; [lia|]. do 2 (split; [done|]).
    match goal with |- Stream.Length ?g = _ /\ _ => set (new := g) end.
    assert (Hnew : forall d, len d < 2 ^ 14 -> Stream.Length (with_data new d)
      = Ret (stream_base f + (if DataLenPresent f then length_size (len d) else 0) + len d))
      by (intros d Hdl; apply (Length_with_data new Hid); [unfold is_varint; cbn; lia|done]).
    rewrite <- (with_data_same new). rewrite Hnew by (change (len front < 2 ^ 14); lia). split; [done|]. cbn [Data new].
    split; [apply room_spec; lia|]. intros b l'. cbn [Data]. unfold with_data at 1. cbn [StreamID Offset Fin DataLenPresent fromPool dataCap].
    change (Stream.Length (with_data new (front ++ [b])) = Ret l' -> maxSize < l').
    rewrite Hnew by (rewrite len_app; change (len [b]) with 1; lia). intros [= <-].
    pose proof (room_spec f maxSize (len (front ++ [b]))) as Hroom. rewrite len_app in *. change (len [b]) with 1 in *. lia.
Qed.

Definition demo_stream : StreamFrame :=
  {| StreamID := 4; Offset := 1000; Data := map (fun i => i mod 256) (seqZ 0 200); Fin := true; DataLenPresent := true; fromPool := false; dataCap := 200 |}.

Lemma stream_split_witness : exists new rest l, Stream.MaybeSplitOffFrame demo_stream 100 = Ret (Some new, true, rest) /\
  Data demo_stream = Data new ++ Data rest /\ Stream.Length new = Ret l /\ l <= 100.
Proof.
  destruct (stream_split demo_stream 100) as [(l & Hl & Hle & _) | [[Hs _] |
    (new & rest & l & H1 & H2 & _ & _ & _ & _ & _ & _ & _ & _ & H3 & H4 & _)]]; [done .. | | |].
  - vm_compute in Hl. injection Hl as <-. by exfalso.
  - vm_compute in Hs. discriminate Hs.
  - by exists new, rest, l.
Defined.

(** C24. Every kind of frame is written in the length it announces.  After any
    padding the receiver finds its type, and the parser of that type reads the
    same frame from the bytes that follow and stops where the frame ends,
    whatever comes behind; a frame without a length field takes the rest. *)
Theorem frame_round_trip p lvl f b n rest :
  acceptable p lvl f -> delimited f = true \/ rest = [] -> (lvl = Encryption1RTT -> ackDelayExponent p = 3) ->
  exists head body, Append f b = Ret (b ++ head ++ body) /\ Length f = Ret (len (head ++ body)) /\
    ParseType p (replicate n 0 ++ head ++ body ++ rest) lvl = Ret (typ f, Z.of_nat n + len head) /\
    parse_frame p (typ f) (body ++ rest) lvl = Ret (received f, len body).
Proof.
  intros Ha Hd Hexp. exists (encoding (typ f)), (put (fields f) ++ tail f).
  destruct (Append_spec f b) as [-> ->]; [apply Ha|].
  assert (Hw : wire f = encoding (typ f) ++ put (fields f) ++ tail f) by (unfold wire; by rewrite put_cons, <- app_assoc).
  rewrite Hw. do 2 (split; [done|]). split.
  - rewrite (app_assoc (encoding _)), <- Hw. by apply ParseType_spec.
  - rewrite <- app_assoc, parse_frame_spec, len_app by (done || apply Ha). done.
Qed.

Definition demo_parser : FrameParser := SetAckDelayExponent (NewFrameParser true true true) 3.

Definition demo_new_id : Frame := NewConnectionIDFrame 7 3 [1; 2; 3; 4] (replicate 16 9).

Lemma frame_round_trip_witness : exists head body,
  Append demo_new_id [0] = Ret ([0] ++ head ++ body) /\
  ParseType demo_parser ([0; 0] ++ head ++ body ++ [1; 1]) Encryption1RTT = Ret (24, 2 + len head) /\
  parse_frame demo_parser 24 (body ++ [1; 1]) Encryption1RTT = Ret (demo_new_id, len body).
Proof.
  destruct (frame_round_trip demo_parser Encryption1RTT demo_new_id [0] 2 [1; 1]) as (head & body & Ha & _ & Ht & Hp).
  - split; [|split; reflexivity]. split; [|repeat constructor; done]. cbn. unfold MaxConnIDLen.
    change (len [1; 2; 3; 4]) with 4. split; [lia|]. split; [lia | done].
  - by left.
  - done.
  - by exists head, body.
Defined.

(** C25. The payload of a packet, frames with any padding before, between and
    behind them, is handled as the list of its frames: the handler runs on
    what the frames say, in order, up to the first error, which is returned;
    the packet is ack-eliciting or non-probing if one of its frames is; and
    with tracing on, exactly these frames are traced even if one failed. *)
Theorem payload_handled {C : Type} (handle : Frame -> C -> outcome (C * option goerror)) (done_ : C -> bool)
    (complete : C -> outcome (C * option goerror)) p lvl (tracing : bool) items m c :
  Forall (fun '(_, f) => acceptable p lvl f) items -> separable items m ->
  (lvl = Encryption1RTT -> ackDelayExponent p = 3) ->
  let fs := map snd items in
  handleFrames handle done_ complete p (payload items m) lvl tracing c
  = let! '(c', err) := handle_all handle (map received fs) c in
    match err with
    | Some e => Ret (c', inr e, if tracing then Some (map received fs) else None)
    | None => after_frames done_ complete (done_ c) tracing (after_all tracing fs c' (start_frames c))
    end.
Proof.
  intros Ha Hsep Hexp fs. unfold handleFrames. rewrite (frames_loop_spec handle p lvl Hexp) by done. fold fs.
  pose proof (frames_spec_handled handle tracing fs (start_frames c) eq_refl) as H. cbn [start_frames conn logged app] in H.
  destruct (handle_all handle (map received fs) c) as [[c' [e|]]|e|]; cbn [obind].
  - destruct tracing; [|by rewrite H].
    destruct H as (s' & -> & Hc & He & Hl). cbn [obind]. unfold after_frames. rewrite He, Hc, Hl. done.
  - by rewrite H.
  - by rewrite H.
  - by rewrite H.
Qed.

Definition demo_frames : list (nat * Frame) :=
  [(1%nat, CryptoFrame 5 [1; 2; 3]); (0%nat, PathChallengeFrame [1; 2; 3; 4; 5; 6; 7; 8]); (2%nat, MaxDataFrame 70000);
   (0%nat, DatagramFrame false [65; 66])].

(** A handler that keeps the frames, and fails on MAX_DATA *)
Definition demo_handle (f : Frame) (c : list Frame) : outcome (list Frame * option goerror) :=
  Ret (c ++ [f], match f with MaxDataFrame _ => Some io_EOF | _ => None end).

Lemma payload_handled_witness :
  handleFrames demo_handle (fun _ => true) (fun c => Ret (c, None)) demo_parser (payload demo_frames 0) Encryption1RTT true []
  = Ret (take 3 (map snd demo_frames), inr io_EOF, Some (map snd demo_frames)).
Proof.
  rewrite (payload_handled demo_handle (fun _ => true) (fun c => Ret (c, None)) demo_parser Encryption1RTT true demo_frames 0 []).
  - reflexivity.
  - repeat constructor; done.
  - cbn. repeat split; auto.
  - done.
Defined.

(** Whatever bytes a packet carries, handling it ends, without a panic,
    provided the handler can take every frame that the parser lets through:
    stream data below the largest offset in buffers that can be returned,
    valid ACK ranges, connection IDs and stream counts in their bounds. *)
Theorem any_payload_handled {C : Type} (I : C -> Prop) (handle : Frame -> C -> outcome (C * option goerror))
    (done_ : C -> bool) (complete : C -> outcome (C * option goerror)) p data lvl tracing c :
  Forall is_byte data -> len data < 2 ^ 62 -> I c ->
  (forall f c, sane f -> I c -> match handle f c with Ret (c', _) => I c' | _ => False end) ->
  (forall c, I c -> match complete c with Ret (c', _) => I c' | _ => False end) ->
  exists c' r log, handleFrames handle done_ complete p data lvl tracing c = Ret (c', r, log) /\ I c'.
Proof.
  intros Hb Hs Hi Hh Hc. unfold handleFrames.
  destruct (frames_loop_total handle I Hh p lvl tracing (length data) data (start_frames c) Hb Hs ltac:(lia) Hi)
    as (r & -> & Hr). cbn [obind]. destruct r as [s|c' e]; [|by eexists _, _, _].
  unfold after_frames. destruct (if tracing then handleErr s else None); [by eexists _, _, _|].
  destruct (_ && _); [|by eexists _, _, _].
  specialize (Hc (conn s) Hr). destruct (complete (conn s)) as [[c' [e|]]| |]; try done; by eexists _, _, _.
Qed.

Lemma any_payload_handled_witness : exists c r log,
  handleFrames demo_handle (fun _ => false) (fun c => Ret (c, None)) demo_parser [0; 0xff; 0x30; 0x18; 1] EncryptionInitial false []
  = Ret (c, r, log) /\ True.
Proof.
  apply (any_payload_handled (fun _ => True) demo_handle (fun _ => false) (fun c => Ret (c, None)) demo_parser); try done.
  repeat constructor; done.
Defined.

(** ** What the checks let through *)

(** The maximum delay of an ACK_FREQUENCY frame is checked for an overflow by
    its sign only: a large delay wraps to a small one. *)
Lemma ack_frequency_overflow_unnoticed :
  parseAckFrequencyFrame ([0; 0] ++ encoding 18446744073709552 ++ [0]) = Ret (AckFrequencyFrame 0 0 384 0, 11).
Proof. by vm_compute. Qed.
