(* ===== verification/AckTracker.v ===== *)
(** * Received packets and the decision to acknowledge them

    [src/deps/quic-go/internal/ackhandler/received_packet_history.go],
    [received_packet_tracker.go] and [received_packet_handler.go].  The
    history keeps ascending ranges; the loops that walk it from the last range
    down take the ranges not yet seen in reverse ([before]) and the ones
    passed ([after]).  [lastAck] is the frame that was handed out last: the
    code hands out one struct again and again, so what the packet packer does
    to it ([Truncate]) is seen by the tracker afterwards.  Log messages are
    left out. *)
From S2P Require Import Prelude Protocol Varint AckFrame.

Local Open Scope Z_scope.
Local Open Scope go_scope.

Record interval := { Start : Z; Stop : Z }.

Record receivedPacketHistory := { ranges : list interval; deletedBelow : Z }.

Module history.

Definition newReceivedPacketHistory : receivedPacketHistory :=
  {| ranges := []; deletedBelow := InvalidPacketNumber |}.

(** The loop of [addToRanges] from range [i] down *)
Fixpoint add_loop (before after : list interval) (p : Z) : list interval * bool :=
  match before with
  | [] => ({| Start := p; Stop := p |} :: after, true)
  | r :: before' =>
      if (Start r <=? p) && (p <=? Stop r) then (rev_append before after, false) else
      if Stop r =? i64 (p - 1) then (rev_append before' ({| Start := Start r; Stop := p |} :: after), true) else
      if Start r =? i64 (p + 1) then
        match before' with
        | q :: before'' =>
            if i64 (Stop q + 1) =? p
            then (rev_append before'' ({| Start := Start q; Stop := Stop r |} :: after), true)
            else (rev_append before' ({| Start := p; Stop := Stop r |} :: after), true)
        | [] => ({| Start := p; Stop := Stop r |} :: after, true)
        end
      else
      if Stop r <? p then (rev_append before ({| Start := p; Stop := p |} :: after), true)
      else add_loop before' (r :: after) p
  end.

Definition addToRanges (rs : list interval) (p : Z) : list interval * bool :=
  match rs with
  | [] => ([{| Start := p; Stop := p |}], true)
  | _ => add_loop (rev rs) [] p
  end.

Definition ReceivedPacket (h : receivedPacketHistory) (p : Z) : receivedPacketHistory * bool :=
  if p <? deletedBelow h then (h, false) else
  let '(rs, isNew) := addToRanges (ranges h) p in
  let rs := if MaxNumAckRanges <? len rs then drop (Z.to_nat (len rs - MaxNumAckRanges)) rs else rs in
  ({| ranges := rs; deletedBelow := deletedBelow h |}, isNew).

(** The loop of [DeleteBelow] and the deletion of the ranges it passed *)
Fixpoint delete_loop (p : Z) (rs : list interval) : list interval :=
  match rs with
  | [] => []
  | r :: rs' =>
      if Stop r <? p then delete_loop p rs' else
      if (Start r <? p) && (p <=? Stop r) then {| Start := p; Stop := Stop r |} :: rs' else rs
  end.

Definition DeleteBelow (h : receivedPacketHistory) (p : Z) : receivedPacketHistory :=
  if p <? deletedBelow h then h else
  {| ranges := delete_loop p (ranges h); deletedBelow := p |}.

Definition Backward (h : receivedPacketHistory) : list interval := rev (ranges h).

(** The loop of [HighestMissingUpTo] from range [i] down *)
Fixpoint missing_loop (before : list interval) (deletedBelow p : Z) : Z :=
  match before with
  | [] => p
  | r :: before' =>
      if (Start r <=? p) && (p <=? Stop r) then
        let highest := i64 (Start r - 1) in
        if negb (deletedBelow =? InvalidPacketNumber) && (highest <? deletedBelow)
        then InvalidPacketNumber else highest
      else
      match before' with
      | q :: _ => if (Stop q <? p) && (p <=? Start r) then p else missing_loop before' deletedBelow p
      | [] => missing_loop before' deletedBelow p
      end
  end.

Definition HighestMissingUpTo (h : receivedPacketHistory) (p : Z) : Z :=
  match last (ranges h) with
  | None => InvalidPacketNumber
  | Some r =>
      if negb (deletedBelow h =? InvalidPacketNumber) && (p <? deletedBelow h) then InvalidPacketNumber else
      missing_loop (rev (ranges h)) (deletedBelow h) (Z.min (Stop r) p)
  end.

Fixpoint duplicate_loop (before : list interval) (p : Z) : bool :=
  match before with
  | [] => false
  | r :: before' =>
      if Stop r <? p then false else
      if (p <=? Stop r) && (Start r <=? p) then true else duplicate_loop before' p
  end.

Definition IsPotentiallyDuplicate (h : receivedPacketHistory) (p : Z) : bool :=
  if p <? deletedBelow h then true else duplicate_loop (rev (ranges h)) p.

End history.

(** ** The Initial and Handshake spaces *)

Inductive ECN := ECNUnsupported | ECNNon | ECT1_ | ECT0_ | ECNCE_.

Record receivedPacketTracker := {
  ect0 : Z; ect1 : Z; ecnce : Z;
  packetHistory : receivedPacketHistory;
  lastAck : option AckFrame;
  hasNewAck : bool;
}.

Module tracker.

Definition newReceivedPacketTracker : receivedPacketTracker :=
  {| ect0 := 0; ect1 := 0; ecnce := 0; packetHistory := history.newReceivedPacketHistory;
     lastAck := None; hasNewAck := false |}.

Definition old_packet (pn : Z) : goerror :=
  Errorf "receivedPacketTracker BUG: ReceivedPacket called for old / duplicate packet %d" [pretty pn].

Definition count (e1 : bool) (n : Z) : Z := if e1 then u64 (n + 1) else n.

Definition ReceivedPacket (h : receivedPacketTracker) (pn : Z) (ecn : ECN) (ackEliciting : bool)
    : receivedPacketTracker * outcome unit :=
  let '(hist, isNew) := history.ReceivedPacket (packetHistory h) pn in
  if negb isNew then
    ({| ect0 := ect0 h; ect1 := ect1 h; ecnce := ecnce h; packetHistory := hist;
        lastAck := lastAck h; hasNewAck := hasNewAck h |}, Err (old_packet pn))
  else
    ({| ect0 := count (match ecn with ECT0_ => true | _ => false end) (ect0 h);
        ect1 := count (match ecn with ECT1_ => true | _ => false end) (ect1 h);
        ecnce := count (match ecn with ECNCE_ => true | _ => false end) (ecnce h);
        packetHistory := hist; lastAck := lastAck h;
        hasNewAck := if ackEliciting then true else hasNewAck h |}, Ret tt).

(** The frame [GetAckFrame] fills in: everything is reset before. *)
Definition fill_frame (h : receivedPacketTracker) : AckFrame :=
  {| ReceiveTimestamps := [];
     AckRanges := map (fun r => {| Smallest := Start r; Largest := Stop r |})
                      (history.Backward (packetHistory h));
     DelayTime := 0; ECT0 := ect0 h; ECT1 := ect1 h; ECNCE := ecnce h |}.

Definition with_lastAck (h : receivedPacketTracker) (ack : AckFrame) (new : bool) : receivedPacketTracker :=
  {| ect0 := ect0 h; ect1 := ect1 h; ecnce := ecnce h; packetHistory := packetHistory h;
     lastAck := Some ack; hasNewAck := new |}.

Definition GetAckFrame (h : receivedPacketTracker) : receivedPacketTracker * option AckFrame :=
  if negb (hasNewAck h) then (h, None) else
  let ack := fill_frame h in
  (with_lastAck h ack false, Some ack).

Definition IsPotentiallyDuplicate (h : receivedPacketTracker) (pn : Z) : bool :=
  history.IsPotentiallyDuplicate (packetHistory h) pn.

(** What the caller does to the frame it got, the tracker's [lastAck] *)
Definition TruncateLast (h : receivedPacketTracker) (maxSize : Z) : outcome receivedPacketTracker :=
  match lastAck h with
  | None => Panic
  | Some ack => let! ack := Ack.Truncate ack maxSize in Ret (with_lastAck h ack (hasNewAck h))
  end.

End tracker.

(** ** Application data *)

Definition reorderingThreshold : Z := 1.
Definition packetsBeforeAck : Z := 2.
Definition MaxAckDelay : Z := 25 * 1000000.

Record appDataReceivedPacketTracker := {
  timestampLimit : Z;
  timestampExponent : Z;
  timestampOrigin : Z;
  timestampOriginUs : Z;
  timestamps : list ReceiveTimestamp;
  timestampCursor : Z;
  timestampCount : Z;
  base : receivedPacketTracker;
  largestObservedRcvdTime : Z;
  largestObserved : Z;
  ignoreBelow : Z;
  ackQueued : bool;
  ackElicitingPacketsReceivedSinceLastAck : Z;
  ackAlarm : Z;
}.

Module appData.

Definition newAppDataReceivedPacketTracker : appDataReceivedPacketTracker :=
  {| timestampLimit := 0; timestampExponent := 0; timestampOrigin := 0; timestampOriginUs := 0;
     timestamps := replicate 256 {| Packet := 0; Micros := 0 |}; timestampCursor := 0; timestampCount := 0;
     base := tracker.newReceivedPacketTracker;
     largestObservedRcvdTime := 0; largestObserved := 0; ignoreBelow := 0;
     ackQueued := false; ackElicitingPacketsReceivedSinceLastAck := 0; ackAlarm := 0 |}.

Definition with_base (h : appDataReceivedPacketTracker) (b : receivedPacketTracker) : appDataReceivedPacketTracker :=
  {| timestampLimit := timestampLimit h; timestampExponent := timestampExponent h;
     timestampOrigin := timestampOrigin h; timestampOriginUs := timestampOriginUs h;
     timestamps := timestamps h; timestampCursor := timestampCursor h; timestampCount := timestampCount h;
     base := b;
     largestObservedRcvdTime := largestObservedRcvdTime h; largestObserved := largestObserved h;
     ignoreBelow := ignoreBelow h; ackQueued := ackQueued h;
     ackElicitingPacketsReceivedSinceLastAck := ackElicitingPacketsReceivedSinceLastAck h;
     ackAlarm := ackAlarm h |}.

Definition with_ack_state (h : appDataReceivedPacketTracker) (queued : bool) (n alarm : Z) : appDataReceivedPacketTracker :=
  {| timestampLimit := timestampLimit h; timestampExponent := timestampExponent h;
     timestampOrigin := timestampOrigin h; timestampOriginUs := timestampOriginUs h;
     timestamps := timestamps h; timestampCursor := timestampCursor h; timestampCount := timestampCount h;
     base := base h;
     largestObservedRcvdTime := largestObservedRcvdTime h; largestObserved := largestObserved h;
     ignoreBelow := ignoreBelow h; ackQueued := queued;
     ackElicitingPacketsReceivedSinceLastAck := n; ackAlarm := alarm |}.

(** [before] and [after] are the readings of [monotime.Now], [clock] the
    seconds and nanoseconds [unix.ClockGettime] gave, if it gave any. *)
Definition enableReceiveTimestamps (h : appDataReceivedPacketTracker) (limit exponent : Z)
    (before : Z) (clock : option (Z * Z)) (after : Z) : appDataReceivedPacketTracker :=
  match clock with
  | None => h
  | Some (sec, nsec) =>
      {| timestampLimit := Z.min limit 256; timestampExponent := exponent;
         timestampOrigin := i64 (before + Z.quot (i64 (after - before)) 2);
         timestampOriginUs := i64 (i64 (sec * 1000000) + Z.quot nsec 1000);
         timestamps := timestamps h; timestampCursor := timestampCursor h; timestampCount := timestampCount h;
         base := base h;
         largestObservedRcvdTime := largestObservedRcvdTime h; largestObserved := largestObserved h;
         ignoreBelow := ignoreBelow h; ackQueued := ackQueued h;
         ackElicitingPacketsReceivedSinceLastAck := ackElicitingPacketsReceivedSinceLastAck h;
         ackAlarm := ackAlarm h |}
  end.

Definition stamp_of (h : appDataReceivedPacketTracker) (pn rcvTime : Z) : ReceiveTimestamp :=
  let receiveUs := i64 (timestampOriginUs h + Z.quot (i64 (rcvTime - timestampOrigin h)) 1000) in
  {| Packet := pn; Micros := Z.shiftr (u64 (Z.max 0 receiveUs)) (timestampExponent h) |}.

(** The block that stores the time; an index outside the array panics. *)
Definition store_stamp (h : appDataReceivedPacketTracker) (pn rcvTime : Z) : outcome appDataReceivedPacketTracker :=
  if 0 <? timestampLimit h then
    let! _ := index (timestamps h) (timestampCursor h) in
    Ret {| timestampLimit := timestampLimit h; timestampExponent := timestampExponent h;
           timestampOrigin := timestampOrigin h; timestampOriginUs := timestampOriginUs h;
           timestamps := <[Z.to_nat (timestampCursor h) := stamp_of h pn rcvTime]> (timestamps h);
           timestampCursor := (timestampCursor h + 1) mod timestampLimit h;
           timestampCount := Z.min (timestampCount h + 1) (timestampLimit h);
           base := base h;
           largestObservedRcvdTime := largestObservedRcvdTime h; largestObserved := largestObserved h;
           ignoreBelow := ignoreBelow h; ackQueued := ackQueued h;
           ackElicitingPacketsReceivedSinceLastAck := ackElicitingPacketsReceivedSinceLastAck h;
           ackAlarm := ackAlarm h |}
  else Ret h.

Definition observe_largest (h : appDataReceivedPacketTracker) (pn rcvTime : Z) : appDataReceivedPacketTracker :=
  let newest := largestObserved h <=? pn in
  {| timestampLimit := timestampLimit h; timestampExponent := timestampExponent h;
     timestampOrigin := timestampOrigin h; timestampOriginUs := timestampOriginUs h;
     timestamps := timestamps h; timestampCursor := timestampCursor h; timestampCount := timestampCount h;
     base := base h;
     largestObservedRcvdTime := if newest then rcvTime else largestObservedRcvdTime h;
     largestObserved := if newest then pn else largestObserved h;
     ignoreBelow := ignoreBelow h; ackQueued := ackQueued h;
     ackElicitingPacketsReceivedSinceLastAck := ackElicitingPacketsReceivedSinceLastAck h;
     ackAlarm := ackAlarm h |}.

Definition IgnoreBelow (h : appDataReceivedPacketTracker) (pn : Z) : appDataReceivedPacketTracker :=
  if pn <=? ignoreBelow h then h else
  let b := base h in
  {| timestampLimit := timestampLimit h; timestampExponent := timestampExponent h;
     timestampOrigin := timestampOrigin h; timestampOriginUs := timestampOriginUs h;
     timestamps := timestamps h; timestampCursor := timestampCursor h; timestampCount := timestampCount h;
     base := {| ect0 := ect0 b; ect1 := ect1 b; ecnce := ecnce b;
                packetHistory := history.DeleteBelow (packetHistory b) pn;
                lastAck := lastAck b; hasNewAck := hasNewAck b |};
     largestObservedRcvdTime := largestObservedRcvdTime h; largestObserved := largestObserved h;
     ignoreBelow := pn; ackQueued := ackQueued h;
     ackElicitingPacketsReceivedSinceLastAck := ackElicitingPacketsReceivedSinceLastAck h;
     ackAlarm := ackAlarm h |}.

Definition isMissing (h : appDataReceivedPacketTracker) (p : Z) : outcome bool :=
  match lastAck (base h) with
  | None => Ret false
  | Some ack =>
      if p <? ignoreBelow h then Ret false else
      let! largest := Ack.LargestAcked ack in
      if p <? largest then let! acked := Ack.AcksPacket ack p in Ret (negb acked) else Ret false
  end.

Definition hasNewMissingPackets (h : appDataReceivedPacketTracker) : outcome bool :=
  match lastAck (base h) with
  | None => Ret false
  | Some ack =>
      if largestObserved h <? reorderingThreshold then Ret false else
      let highestMissing := history.HighestMissingUpTo (packetHistory (base h))
                              (i64 (largestObserved h - reorderingThreshold)) in
      if highestMissing =? InvalidPacketNumber then Ret false else
      let! largest := Ack.LargestAcked ack in
      if highestMissing <? largest then Ret false else
      Ret (i64 (largest - reorderingThreshold) <? highestMissing)
  end.

Definition shouldQueueACK (h : appDataReceivedPacketTracker) (ecn : ECN) (wasMissing : bool) : outcome bool :=
  if wasMissing then Ret true else
  if packetsBeforeAck <=? ackElicitingPacketsReceivedSinceLastAck h then Ret true else
  let! new := hasNewMissingPackets h in
  if new then Ret true else
  Ret (match ecn with ECNCE_ => true | _ => false end).

(** From [ackElicitingPacketsReceivedSinceLastAck++] on *)
Definition schedule_ack (h : appDataReceivedPacketTracker) (pn : Z) (ecn : ECN) (rcvTime : Z)
    : outcome appDataReceivedPacketTracker :=
  let h := with_ack_state h (ackQueued h) (ackElicitingPacketsReceivedSinceLastAck h + 1) (ackAlarm h) in
  let! isMissing := isMissing h pn in
  let! queue := (if ackQueued h then Ret false else shouldQueueACK h ecn isMissing) in
  let h := if queue then with_ack_state h true (ackElicitingPacketsReceivedSinceLastAck h) 0 else h in
  Ret (if ackQueued h then h
       else with_ack_state h false (ackElicitingPacketsReceivedSinceLastAck h) (i64 (rcvTime + MaxAckDelay))).

Definition ReceivedPacket (h : appDataReceivedPacketTracker) (pn : Z) (ecn : ECN) (rcvTime : Z) (ackEliciting : bool)
    : outcome (appDataReceivedPacketTracker * outcome unit) :=
  match tracker.ReceivedPacket (base h) pn ecn ackEliciting with
  | (b, Err e) => Ret (with_base h b, Err e)
  | (b, Panic) => Panic
  | (b, Ret _) =>
      let! h := store_stamp (with_base h b) pn rcvTime in
      let h := observe_largest h pn rcvTime in
      if negb ackEliciting then Ret (h, Ret tt) else
      let! h := schedule_ack h pn ecn rcvTime in
      Ret (h, Ret tt)
  end.

Definition GetAckFrame (h : appDataReceivedPacketTracker) (now : Z) (onlyIfQueued : bool)
    : outcome (appDataReceivedPacketTracker * option AckFrame) :=
  if onlyIfQueued && negb (ackQueued h) && ((ackAlarm h =? 0) || (now <? ackAlarm h)) then Ret (h, None) else
  match tracker.GetAckFrame (base h) with
  | (b, None) => Ret (with_base h b, None)
  | (b, Some ack) =>
      let ack := with_delay ack (Z.max 0 (i64 (now - largestObservedRcvdTime h))) in
      let! ack :=
        (if 0 <? timestampLimit h then
           Ack.PrepareReceiveTimestamps
             (with_timestamps ack (take (Z.to_nat (timestampCount h)) (timestamps h)))
         else Ret ack) in
      Ret (with_ack_state (with_base h (tracker.with_lastAck b ack false)) false 0 0, Some ack)
  end.

Definition GetAlarmTimeout (h : appDataReceivedPacketTracker) : Z := ackAlarm h.

Definition TruncateLast (h : appDataReceivedPacketTracker) (maxSize : Z) : outcome appDataReceivedPacketTracker :=
  let! b := tracker.TruncateLast (base h) maxSize in Ret (with_base h b).

End appData.

(** ** All packet number spaces *)

Record ReceivedPacketHandler := {
  initialPackets : option receivedPacketTracker;
  handshakePackets : option receivedPacketTracker;
  appDataPackets : appDataReceivedPacketTracker;
  lowest1RTTPacket : Z;
}.

Module handler.

Definition NewReceivedPacketHandler : ReceivedPacketHandler :=
  {| initialPackets := Some tracker.newReceivedPacketTracker;
     handshakePackets := Some tracker.newReceivedPacketTracker;
     appDataPackets := appData.newAppDataReceivedPacketTracker;
     lowest1RTTPacket := InvalidPacketNumber |}.

Definition with_initial (h : ReceivedPacketHandler) (t : option receivedPacketTracker) : ReceivedPacketHandler :=
  {| initialPackets := t; handshakePackets := handshakePackets h; appDataPackets := appDataPackets h;
     lowest1RTTPacket := lowest1RTTPacket h |}.
Definition with_handshake (h : ReceivedPacketHandler) (t : option receivedPacketTracker) : ReceivedPacketHandler :=
  {| initialPackets := initialPackets h; handshakePackets := t; appDataPackets := appDataPackets h;
     lowest1RTTPacket := lowest1RTTPacket h |}.
Definition with_appData (h : ReceivedPacketHandler) (t : appDataReceivedPacketTracker) (lowest : Z) : ReceivedPacketHandler :=
  {| initialPackets := initialPackets h; handshakePackets := handshakePackets h; appDataPackets := t;
     lowest1RTTPacket := lowest |}.

(** The error is the call's result, beside the handler as it is afterwards. *)
Definition ReceivedPacket (h : ReceivedPacketHandler) (pn : Z) (ecn : ECN) (encLevel : EncryptionLevel)
    (rcvTime : Z) (ackEliciting : bool) : outcome (ReceivedPacketHandler * outcome unit) :=
  match encLevel with
  | EncryptionInitial =>
      match initialPackets h with
      | None => Panic
      | Some t =>
          let '(t, r) := tracker.ReceivedPacket t pn ecn ackEliciting in Ret (with_initial h (Some t), r)
      end
  | EncryptionHandshake =>
      match handshakePackets h with
      | None => Ret (h, Ret tt)
      | Some t =>
          let '(t, r) := tracker.ReceivedPacket t pn ecn ackEliciting in Ret (with_handshake h (Some t), r)
      end
  | Encryption0RTT =>
      if negb (lowest1RTTPacket h =? InvalidPacketNumber) && (lowest1RTTPacket h <? pn) then
        Ret (h, Err (Errorf "received packet number %d on a 0-RTT packet after receiving %d on a 1-RTT packet"
                       [pretty pn; pretty (lowest1RTTPacket h)]))
      else
        let! '(t, r) := appData.ReceivedPacket (appDataPackets h) pn ecn rcvTime ackEliciting in
        Ret (with_appData h t (lowest1RTTPacket h), r)
  | Encryption1RTT =>
      let lowest := if (lowest1RTTPacket h =? InvalidPacketNumber) || (pn <? lowest1RTTPacket h)
                    then pn else lowest1RTTPacket h in
      let! '(t, r) := appData.ReceivedPacket (appDataPackets h) pn ecn rcvTime ackEliciting in
      Ret (with_appData h t lowest, r)
  end.

Definition EnableReceiveTimestamps (h : ReceivedPacketHandler) (limit exponent before : Z)
    (clock : option (Z * Z)) (after : Z) : ReceivedPacketHandler :=
  with_appData h (appData.enableReceiveTimestamps (appDataPackets h) limit exponent before clock after)
    (lowest1RTTPacket h).

Definition IgnorePacketsBelow (h : ReceivedPacketHandler) (pn : Z) : ReceivedPacketHandler :=
  with_appData h (appData.IgnoreBelow (appDataPackets h) pn) (lowest1RTTPacket h).

Definition DropPackets (h : ReceivedPacketHandler) (encLevel : EncryptionLevel) : outcome ReceivedPacketHandler :=
  match encLevel with
  | EncryptionInitial => Ret (with_initial h None)
  | EncryptionHandshake => Ret (with_handshake h None)
  | Encryption0RTT => Ret h
  | Encryption1RTT => Panic
  end.

Definition GetAlarmTimeout (h : ReceivedPacketHandler) : Z := appData.GetAlarmTimeout (appDataPackets h).

Definition GetAckFrame (h : ReceivedPacketHandler) (encLevel : EncryptionLevel) (now : Z) (onlyIfQueued : bool)
    : outcome (ReceivedPacketHandler * option AckFrame) :=
  match encLevel with
  | EncryptionInitial =>
      match initialPackets h with
      | Some t => let '(t, a) := tracker.GetAckFrame t in Ret (with_initial h (Some t), a)
      | None => Ret (h, None)
      end
  | EncryptionHandshake =>
      match handshakePackets h with
      | Some t => let '(t, a) := tracker.GetAckFrame t in Ret (with_handshake h (Some t), a)
      | None => Ret (h, None)
      end
  | Encryption1RTT =>
      let! '(t, a) := appData.GetAckFrame (appDataPackets h) now onlyIfQueued in
      Ret (with_appData h t (lowest1RTTPacket h), a)
  | Encryption0RTT => Ret (h, None)
  end.

Definition IsPotentiallyDuplicate (h : ReceivedPacketHandler) (pn : Z) (encLevel : EncryptionLevel) : outcome bool :=
  match encLevel with
  | EncryptionInitial =>
      match initialPackets h with Some t => Ret (tracker.IsPotentiallyDuplicate t pn) | None => Panic end
  | EncryptionHandshake =>
      match handshakePackets h with Some t => Ret (tracker.IsPotentiallyDuplicate t pn) | None => Panic end
  | Encryption0RTT | Encryption1RTT => Ret (tracker.IsPotentiallyDuplicate (base (appDataPackets h)) pn)
  end.

End handler.
