(* ===== verification/AckTrackerProps.v ===== *)
(** * Received packets: the history is a set, and every packet is acknowledged in time

    [ascending] ranges are the canonical form of a set of packet numbers;
    every operation of the history is the operation on the set, up to the
    limit of 64 ranges.  On top of that the tracker of application data keeps
    an invariant over every sequence of packets, acknowledgements handed out
    and truncated. *)
From S2P Require Import Prelude Protocol Varint AckFrame AckFrameProps AckTracker.

Local Open Scope Z_scope.
Local Open Scope go_scope.

(** ** Sets as ascending ranges *)

(** The ranges start above [lo] and leave at least one number between them. *)
Fixpoint ascending (lo : Z) (rs : list interval) : Prop :=
  match rs with
  | [] => True
  | r :: rs => lo < Start r /\ Start r <= Stop r < 2 ^ 62 /\ ascending (Stop r + 1) rs
  end.

Definition within (q : Z) (r : interval) : Prop := Start r <= q <= Stop r.
Definition covers (q : Z) (rs : list interval) : Prop := Exists (within q) rs.

#[global] Instance within_dec q r : Decision (within q r).
Proof. unfold within. apply _. Defined.
#[global] Instance covers_dec q rs : Decision (covers q rs).
Proof. unfold covers. apply _. Defined.

Definition top (lo : Z) (rs : list interval) : Z := match last rs with Some r => Stop r + 1 | None => lo end.

Lemma top_cons lo r rs : top lo (r :: rs) = top (Stop r + 1) rs.
Proof. unfold top. rewrite last_cons. by destruct (last rs). Qed.
Lemma top_snoc lo rs r : top lo (rs ++ [r]) = Stop r + 1.
Proof. unfold top. by rewrite last_snoc. Qed.

Lemma ascending_app lo rs ks : ascending lo (rs ++ ks) <-> ascending lo rs /\ ascending (top lo rs) ks.
Proof.
  revert lo. induction rs as [|r rs IH]; intros lo; [cbn; tauto|].
  cbn [app ascending]. rewrite IH, top_cons. tauto.
Qed.

Lemma ascending_mono lo lo' rs : lo' <= lo -> ascending lo rs -> ascending lo' rs.
Proof. destruct rs; cbn; [done|]. intuition lia. Qed.

Lemma covers_nil q : covers q [] <-> False.
Proof. unfold covers. by rewrite Exists_nil. Qed.
Lemma covers_cons q r rs : covers q (r :: rs) <-> within q r \/ covers q rs.
Proof. unfold covers. by rewrite Exists_cons. Qed.
Lemma covers_app q rs ks : covers q (rs ++ ks) <-> covers q rs \/ covers q ks.
Proof. unfold covers. by rewrite Exists_app. Qed.

Lemma covers_above lo rs q : ascending lo rs -> covers q rs -> lo < q < 2 ^ 62.
Proof.
  revert lo. induction rs as [|r rs IH]; intros lo; cbn [ascending]; [by rewrite covers_nil|].
  intros (H1 & H2 & H3). rewrite covers_cons. unfold within. intros [?|Hc]; [lia|]. specialize (IH _ H3 Hc). lia.
Qed.

Lemma top_ge lo rs : ascending lo rs -> lo <= top lo rs.
Proof.
  revert lo. induction rs as [|r rs IH]; intros lo; [unfold top; cbn; lia|].
  cbn [ascending]. intros (? & ? & H). rewrite top_cons. apply IH in H. lia.
Qed.

Lemma covers_below lo rs q : ascending lo rs -> covers q rs -> q < top lo rs.
Proof.
  revert lo. induction rs as [|r rs IH]; intros lo; cbn [ascending]; [by rewrite covers_nil|].
  intros (H1 & H2 & H3). rewrite covers_cons, top_cons. unfold within.
  intros [?|Hc]; [|by apply IH]. apply top_ge in H3. lia.
Qed.

(** *** Adding a packet *)

Lemma add_loop_spec before after p lo rs' isNew :
  ascending lo (rev before ++ after) -> lo < p < 2 ^ 62 -> -1 <= lo -> ascending (p + 1) after ->
  history.add_loop before after p = (rs', isNew) ->
  ascending lo rs' /\ (forall q, covers q rs' <-> covers q (rev before ++ after) \/ q = p) /\
  isNew = bool_decide (~ covers p (rev before ++ after)) /\ (length rs' <= S (length before + length after))%nat.
Proof.
  revert after. induction before as [|r before IH]; intros after Ha Hp Hlo Hafter; cbn [history.add_loop].
  { cbn [rev app] in *. intros [= <- <-]. cbn [ascending].
    split; [cbn; split; [lia|]; split; [lia | done]|].
    split; [intros q; rewrite covers_cons; unfold within; cbn; intuition lia|]. split; [|cbn; lia].
    symmetry. apply bool_decide_eq_true. intros Hc. apply (covers_above _ _ _ Hafter) in Hc. lia. }
  assert (Hna : ~ covers p after) by (intros Hc; apply (covers_above _ _ _ Hafter) in Hc; lia).
  cbn [rev] in *. rewrite <- app_assoc in Ha |- *. cbn [app] in Ha |- *.
  pose proof Ha as Ha0. apply ascending_app in Ha as [Hb Hr]. cbn [ascending] in Hr. destruct Hr as (Hr1 & Hr2 & Hr3).
  assert (Hcov : forall q, covers q (rev before ++ r :: after) <-> covers q (rev before) \/ within q r \/ covers q after).
  { intros q. by rewrite covers_app, covers_cons. }
  assert (Hpb : Start r - 1 <= p -> ~ covers p (rev before)).
  { intros ? Hc. apply (covers_below _ _ _ Hb) in Hc. lia. }
  rewrite !rev_append_rev, !(i64_small (p - 1)), !(i64_small (p + 1)) by lia. cbn [rev].
  destruct (Z.leb_spec (Start r) p), (Z.leb_spec p (Stop r)); cbn [andb].
  - intros [= <- <-]. rewrite <- app_assoc. cbn [app]. split; [done|]. split.
    + intros q. split; [tauto|]. intros [?| ->]; [done|]. rewrite covers_app, covers_cons. unfold within. lia.
    + split; [|rewrite length_app, length_rev; cbn; lia]. symmetry. apply bool_decide_eq_false. intros Hn. apply Hn, Hcov.
      right. left. unfold within. lia.
  - destruct (Z.eqb_spec (Stop r) (p - 1)).
    + intros [= <- <-]. split.
      { apply ascending_app. split; [done|]. cbn [ascending Start Stop]. split; [lia|]. split; [lia | done]. }
      split. { intros q. rewrite Hcov, covers_app, covers_cons. unfold within. cbn. intuition lia. }
      split; [|rewrite length_app, length_rev; cbn; lia]. symmetry. apply bool_decide_eq_true. rewrite Hcov. unfold within.
      intros [?|[?|?]]; [by apply Hpb; [lia|] | lia | done].
    + destruct (Z.eqb_spec (Start r) (p + 1)); [lia|]. destruct (Z.ltb_spec (Stop r) p); [|lia].
      intros [= <- <-]. rewrite <- app_assoc. cbn [app]. split.
      { apply ascending_app. split; [done|]. cbn [ascending Start Stop].
        split; [lia|]. split; [lia|]. split; [lia|]. split; [lia | done]. }
      split. { intros q. rewrite Hcov, covers_app, !covers_cons. unfold within. cbn. intuition lia. }
      split; [|rewrite length_app, length_rev; cbn; lia]. symmetry. apply bool_decide_eq_true. rewrite Hcov. unfold within.
      intros [?|[?|?]]; [by apply Hpb; [lia|] | lia | done].
  - destruct (Z.eqb_spec (Stop r) (p - 1)); [lia|]. destruct (Z.eqb_spec (Start r) (p + 1)) as [Hs|Hs].
    + assert (Hpn : ~ covers p (rev before ++ r :: after)).
      { rewrite Hcov. unfold within. intros [?|[?|?]]; [by apply Hpb; [lia|] | lia | done]. }
      destruct before as [|s before].
      { intros [= <- <-]. cbn [rev app ascending] in *. split; [cbn; split; [lia|]; split; [lia | done]|].
        split. { intros q. rewrite Hcov, covers_cons, covers_nil. unfold within. cbn. intuition lia. }
        split; [|cbn; lia]. symmetry. by apply bool_decide_eq_true. }
      cbn [rev] in *. pose proof Hb as Hb0. apply ascending_app in Hb as [Hb Hs']. cbn [ascending] in Hs'.
      destruct Hs' as (Hs1 & Hs2 & _). rewrite top_snoc in Hr1. pose proof (top_ge _ _ Hb). rewrite (i64_small (Stop s + 1)) by lia.
      rewrite !rev_append_rev. cbn [rev].
      destruct (Z.eqb_spec (Stop s + 1) p); intros [= <- <-].
      * split. { apply ascending_app. split; [done|]. cbn [ascending Start Stop]. split; [lia|]. split; [lia | done]. }
        split. { intros q. rewrite Hcov, !covers_app, !covers_cons, !covers_nil. unfold within. cbn. intuition lia. }
        split; [|rewrite length_app, length_rev; cbn; lia]. symmetry. by apply bool_decide_eq_true.
      * split. { apply ascending_app. split; [done|]. rewrite top_snoc. cbn [ascending Start Stop]. split; [lia|]. split; [lia | done]. }
        split. { intros q. rewrite Hcov, !covers_app, !covers_cons, !covers_nil. unfold within. cbn. intuition lia. }
        split; [|rewrite !length_app, length_rev; cbn; lia]. symmetry. by apply bool_decide_eq_true.
    + destruct (Z.ltb_spec (Stop r) p); [lia|]. intros Hloop.
      assert (Hrafter : ascending (p + 1) (r :: after)) by (cbn [ascending]; split; [lia | split; [lia | done]]).
      destruct (IH (r :: after) Ha0 Hp Hlo Hrafter Hloop) as (H3 & H4 & H5 & H6).
      split; [done|]. split; [done|]. split; [done|]. cbn in *. lia.
  - lia.
Qed.

Lemma add_loop_old before after p rs' :
  history.add_loop before after p = (rs', false) -> rs' = rev before ++ after.
Proof.
  revert after. induction before as [|r before IH]; intros after; cbn [history.add_loop]; [done|].
  rewrite !rev_append_rev. destruct (_ && _); [by intros [= <-]|].
  destruct (_ =? _); [done|]. destruct (_ =? _); [destruct before; [done|]; by destruct (_ =? _)|].
  destruct (_ <? _); [done|]. intros H%IH. cbn [rev]. by rewrite <- app_assoc.
Qed.

(** *** The history *)

Definition floor (h : receivedPacketHistory) : Z := Z.max (-1) (deletedBelow h - 1).

Record wf_history (h : receivedPacketHistory) : Prop := {
  wh_ascending : ascending (floor h) (ranges h);
  wh_floor : -1 <= deletedBelow h;
  wh_limit : (length (ranges h) <= 64)%nat;
}.

Lemma floor_ge h : -1 <= floor h /\ deletedBelow h - 1 <= floor h.
Proof. unfold floor. lia. Qed.

(** [h] records the packet. *)
Definition recorded (h : receivedPacketHistory) (q : Z) : Prop := covers q (ranges h).
#[global] Instance recorded_dec h q : Decision (recorded h q).
Proof. unfold recorded. apply _. Defined.

Lemma ascending_drop lo n rs : ascending lo rs -> ascending lo (drop n rs).
Proof.
  intros Ha. rewrite <- (take_drop n rs) in Ha. apply ascending_app in Ha as [H1 H2].
  eapply ascending_mono; [|exact H2]. by apply top_ge.
Qed.

Lemma covers_drop lo n rs q : ascending lo rs -> covers q rs ->
  covers q (drop n rs) \/ forall q', covers q' (drop n rs) -> q < q'.
Proof.
  intros Ha Hq. rewrite <- (take_drop n rs) in Ha, Hq. apply ascending_app in Ha as [H1 H2].
  apply covers_app in Hq as [Hq|Hq]; [right | by left].
  intros q' Hq'. apply (covers_below _ _ _ H1) in Hq. apply (covers_above _ _ _ H2) in Hq'. lia.
Qed.

Lemma covers_drop_sub n rs q : covers q (drop n rs) -> covers q rs.
Proof. intros H. rewrite <- (take_drop n rs). apply covers_app. by right. Qed.

Lemma ReceivedPacket_spec h p h' isNew : wf_history h -> 0 <= p < 2 ^ 62 ->
  history.ReceivedPacket h p = (h', isNew) ->
  wf_history h' /\ deletedBelow h' = deletedBelow h /\
  isNew = bool_decide (deletedBelow h <= p /\ ~ recorded h p) /\
  (isNew = false -> h' = h) /\ (isNew = true -> ranges h' <> []) /\
  (forall q, recorded h' q -> recorded h q \/ q = p /\ isNew = true) /\
  (forall q, recorded h q \/ q = p /\ isNew = true ->
     recorded h' q \/ length (ranges h) = 64%nat /\ forall q', recorded h' q' -> q < q').
Proof.
  intros [Ha Hf Hl] Hp. unfold history.ReceivedPacket, recorded.
  destruct (Z.ltb_spec p (deletedBelow h)).
  { intros [= <- <-]. split; [by constructor|]. split; [done|]. split.
    { symmetry. apply bool_decide_eq_false. lia. }
    split; [done|]. split; [done|]. split; [by left|]. intros q [?|[_ ?]]; [by left | done]. }
  destruct (history.addToRanges (ranges h) p) as [rs b] eqn:E.
  assert (Hadd : history.add_loop (rev (ranges h)) [] p = (rs, b)).
  { unfold history.addToRanges in E. destruct (ranges h); [|exact E]. cbn. exact E. }
  pose proof (add_loop_spec (rev (ranges h)) [] p (floor h) rs b) as Hs.
  rewrite rev_involutive, app_nil_r in Hs.
  destruct Hs as (Has & Hcov & Hb & Hlen); [done | unfold floor; lia | unfold floor; lia | done | done |].
  rewrite length_rev, Nat.add_0_r in Hlen. intros [= <- <-]. cbn [ranges deletedBelow].
  assert (Hbd : b = bool_decide (deletedBelow h <= p /\ ~ covers p (ranges h))).
  { rewrite Hb. apply bool_decide_ext. intuition lia. }
  assert (Hsub : forall q, covers q rs -> covers q (ranges h) \/ q = p /\ b = true).
  { intros q Hq. apply Hcov in Hq as [?| ->]; [by left|].
    destruct (decide (covers p (ranges h))); [by left|]. right. split; [done|]. rewrite Hb. by apply bool_decide_eq_true. }
  assert (Hsup : forall q, covers q (ranges h) \/ q = p /\ b = true -> covers q rs).
  { intros q Hq. apply Hcov. tauto. }
  assert (Hold : b = false -> rs = ranges h).
  { intros ->. apply add_loop_old in Hadd. by rewrite rev_involutive, app_nil_r in Hadd. }
  unfold MaxNumAckRanges, len. destruct (Z.ltb_spec 64 (Z.of_nat (length rs))).
  - set (n := Z.to_nat (Z.of_nat (length rs) - 64)).
    split. { constructor; cbn; [by apply ascending_drop | done | rewrite length_drop; lia]. }
    split; [done|]. split; [done|]. split; [intros Hb0; specialize (Hold Hb0); subst rs; lia|].
    split. { intros _ Hd. apply (f_equal length) in Hd. rewrite length_drop in Hd. cbn in Hd. lia. }
    split. { intros q Hq. apply Hsub. by apply covers_drop_sub in Hq. }
    intros q Hq%Hsup. destruct (covers_drop _ n rs q Has Hq); [by left | right]. split; [lia | done].
  - split; [constructor; cbn; [done | done | lia]|]. split; [done|]. split; [done|].
    split. { intros Hb0. specialize (Hold Hb0). subst rs. by destruct h. }
    split. { intros ->. intros ->. specialize (Hsup p). rewrite covers_nil in Hsup. tauto. }
    split; [done|]. intros q Hq. left. by apply Hsup.
Qed.

Lemma delete_loop_spec lo p rs : ascending lo rs ->
  ascending (Z.max lo (p - 1)) (history.delete_loop p rs) /\
  (forall q, covers q (history.delete_loop p rs) <-> covers q rs /\ p <= q) /\
  (length (history.delete_loop p rs) <= length rs)%nat.
Proof.
  revert lo. induction rs as [|r rs IH]; intros lo Ha; cbn [history.delete_loop].
  { split; [done|]. split; [|done]. intros q. rewrite covers_nil. tauto. }
  pose proof Ha as Ha0. cbn [ascending] in Ha. destruct Ha as (H1 & H2 & H3).
  assert (Habove : forall q, covers q rs -> Stop r + 1 < q) by (intros q Hq; apply (covers_above _ _ _ H3 Hq)).
  destruct (Z.ltb_spec (Stop r) p).
  - destruct (IH _ H3) as (Has & Hc & Hl). split; [eapply ascending_mono; [|exact Has]; lia|]. split; [|cbn; lia].
    intros q. rewrite Hc, covers_cons. unfold within. intuition lia.
  - destruct (Z.ltb_spec (Start r) p), (Z.leb_spec p (Stop r)); cbn [andb]; try lia.
    + split; [cbn; split; [lia|]; split; [lia | done]|]. split; [|cbn; lia].
      intros q. rewrite !covers_cons. unfold within. cbn. specialize (Habove q). intuition lia.
    + split; [cbn [ascending]; split; [lia|]; split; [lia | done]|]. split; [|cbn; lia].
      intros q. rewrite !covers_cons. unfold within. specialize (Habove q). intuition lia.
Qed.

Lemma DeleteBelow_spec h p : wf_history h -> 0 <= p ->
  wf_history (history.DeleteBelow h p) /\ deletedBelow (history.DeleteBelow h p) = Z.max p (deletedBelow h) /\
  forall q, recorded (history.DeleteBelow h p) q <-> recorded h q /\ p <= q.
Proof.
  intros [Ha Hf Hl] Hp. unfold history.DeleteBelow, recorded. destruct (Z.ltb_spec p (deletedBelow h)).
  { split; [by constructor|]. split; [lia|]. intros q. split; [|tauto]. intros Hq. split; [done|].
    apply (covers_above _ _ _ Ha) in Hq. unfold floor in Hq. lia. }
  destruct (delete_loop_spec _ p _ Ha) as (H1 & H2 & H3).
  split; [constructor; cbn; [|lia|lia]|].
  { eapply ascending_mono; [|exact H1]. unfold floor. cbn. lia. }
  split; [cbn; lia | done].
Qed.

Lemma duplicate_loop_spec before p lo : ascending lo (rev before) ->
  history.duplicate_loop before p = bool_decide (covers p (rev before)).
Proof.
  induction before as [|r before IH]; intros Ha; cbn [history.duplicate_loop rev] in *; [done|].
  apply ascending_app in Ha as [Hb Hr]. cbn [ascending] in Hr. destruct Hr as (H1 & H2 & _).
  assert (Hc : covers p (rev before ++ [r]) <-> covers p (rev before) \/ within p r)
    by (rewrite covers_app, covers_cons, covers_nil; tauto).
  unfold within in Hc. destruct (Z.ltb_spec (Stop r) p).
  { symmetry. apply bool_decide_eq_false. rewrite Hc. intros [Hq|?]; [|lia].
    apply (covers_below _ _ _ Hb) in Hq. lia. }
  destruct (Z.leb_spec p (Stop r)), (Z.leb_spec (Start r) p); cbn [andb]; try lia.
  - symmetry. apply bool_decide_eq_true. rewrite Hc. right. lia.
  - rewrite IH by done. apply bool_decide_ext. rewrite Hc. intuition lia.
Qed.

Lemma IsPotentiallyDuplicate_spec h p : wf_history h ->
  history.IsPotentiallyDuplicate h p = bool_decide (p < deletedBelow h \/ recorded h p).
Proof.
  intros [Ha Hf Hl]. unfold history.IsPotentiallyDuplicate, recorded. destruct (Z.ltb_spec p (deletedBelow h)).
  { symmetry. apply bool_decide_eq_true. by left. }
  rewrite (duplicate_loop_spec _ p (floor h)) by (by rewrite rev_involutive).
  rewrite rev_involutive. apply bool_decide_ext. intuition lia.
Qed.

(** The highest number up to [p] that is not recorded *)
Definition highest_missing (h : receivedPacketHistory) (p m : Z) : Prop :=
  (forall q, deletedBelow h <= q -> 0 <= q -> m < q <= p -> recorded h q) /\
  (m = InvalidPacketNumber \/ deletedBelow h <= m <= p /\ 0 <= m /\ ~ recorded h m).

Lemma missing_loop_spec h before after p :
  wf_history h -> ranges h = rev before ++ after -> 0 <= p -> deletedBelow h <= p ->
  (forall q, covers q after -> p < q) -> match before with r :: _ => p <= Stop r | [] => True end ->
  highest_missing h p (history.missing_loop before (deletedBelow h) p).
Proof.
  intros [Ha Hf Hl]. revert after. induction before as [|r before IH]; intros after E Hp Hd Hafter Hne;
    cbn [history.missing_loop].
  { split; [intros; lia|]. right. split; [lia|]. split; [lia|]. unfold recorded. rewrite E. cbn. intros Hc.
    apply Hafter in Hc. lia. }
  cbn [rev] in E. rewrite <- app_assoc in E. cbn [app] in E. pose proof Ha as Ha0. rewrite E in Ha.
  apply ascending_app in Ha as [Hb Hr]. cbn [ascending] in Hr. destruct Hr as (H1 & H2 & H3).
  pose proof (top_ge _ _ Hb) as Htop. pose proof (floor_ge h) as Hfl.
  assert (Hrec : forall q, recorded h q <-> covers q (rev before) \/ within q r \/ covers q after).
  { intros q. unfold recorded. by rewrite E, covers_app, covers_cons. }
  unfold within in Hrec.
  destruct (Z.leb_spec (Start r) p), (Z.leb_spec p (Stop r)); cbn [andb]; try lia.
  - rewrite i64_small by lia.
    assert (Hin : forall q, Start r - 1 < q <= p -> recorded h q) by (intros q Hq; apply Hrec; right; left; lia).
    assert (Hmiss : ~ recorded h (Start r - 1)).
    { rewrite Hrec. intros [Hq|[?|Hq]]; [|lia|apply Hafter in Hq; lia].
      apply (covers_below _ _ _ Hb) in Hq. lia. }
    unfold highest_missing, InvalidPacketNumber.
    destruct (Z.eqb_spec (deletedBelow h) (-1)), (Z.ltb_spec (Start r - 1) (deletedBelow h)); cbn [negb andb].
    all: split; [intros q ? ? ?; apply Hin; lia|].
    all: destruct (Z.eq_dec (Start r) 0); [left; lia|].
    all: first [left; lia | right; split; [lia|]; split; [lia | done]].
  - assert (Hnext : forall q, covers q (r :: after) -> p < q).
    { intros q. rewrite covers_cons. unfold within. intros [?|Hq]; [lia | by apply Hafter]. }
    destruct before as [|s before].
    { apply (IH (r :: after)); done. }
    destruct (Z.ltb_spec (Stop s) p), (Z.leb_spec p (Start r)); cbn [andb]; try lia.
    + split; [intros; lia|]. right. split; [lia|]. split; [lia|]. rewrite Hrec. intros [Hq|[?|Hq]]; [|lia|apply Hafter in Hq; lia].
      cbn [rev] in *. apply covers_app in Hq as [Hq|Hq].
      * apply ascending_app in Hb as [Hb Hs]. cbn [ascending] in Hs. apply (covers_below _ _ _ Hb) in Hq. lia.
      * rewrite covers_cons, covers_nil in Hq. unfold within in Hq. lia.
    + apply (IH (r :: after)); done || lia.
Qed.

Lemma HighestMissingUpTo_spec h p : wf_history h -> 0 <= p -> deletedBelow h <= p -> ranges h <> [] ->
  exists r, last (ranges h) = Some r /\ highest_missing h (Z.min (Stop r) p) (history.HighestMissingUpTo h p).
Proof.
  intros Hw Hp Hd Hne. destruct (exists_last Hne) as (rs & r & E). exists r.
  unfold history.HighestMissingUpTo. rewrite E, last_snoc. split; [done|].
  rewrite (proj2 (Z.ltb_ge p (deletedBelow h))) by lia. rewrite andb_false_r.
  pose proof Hw as [Ha Hf Hl]. rewrite E in Ha. apply ascending_app in Ha as [Hb Hr]. cbn [ascending] in Hr.
  pose proof (top_ge _ _ Hb) as Htop. pose proof (floor_ge h) as Hfl.
  apply (missing_loop_spec _ _ []); [done | by rewrite E, rev_involutive, app_nil_r | lia | lia | |].
  - intros q. by rewrite covers_nil.
  - rewrite rev_app_distr. cbn. lia.
Qed.

(** ** The frame that is handed out *)

Definition ack_range (r : interval) : AckRange := {| Smallest := Start r; Largest := Stop r |}.

Lemma descending_app_snoc b rs r : descending b rs -> 0 <= Smallest r <= Largest r ->
  Largest r + 1 < match last rs with Some a => Smallest a | None => b end -> descending b (rs ++ [r]).
Proof.
  revert b. induction rs as [|a rs IH]; intros b; cbn [app descending]; [cbn; lia|].
  rewrite last_cons. intros (H1 & H2 & H3) Hr Hl. split; [done|]. split; [done|]. apply IH; [done | done |]. by destruct (last rs).
Qed.

Lemma descending_of_ascending lo rs b : ascending lo rs -> -1 <= lo -> top lo rs < b ->
  descending b (map ack_range (rev rs)) /\
  match last (map ack_range (rev rs)) with Some a => lo < Smallest a | None => True end.
Proof.
  revert lo. induction rs as [|r rs IH]; intros lo Ha Hlo Ht; [done|].
  cbn [ascending] in Ha. destruct Ha as (H1 & H2 & H3). rewrite top_cons in Ht.
  destruct (IH _ H3 ltac:(lia) Ht) as [Hd Hl]. cbn [rev]. rewrite map_app. cbn [map].
  split; [|rewrite last_snoc; cbn; lia]. apply descending_app_snoc; [done | cbn; lia |]. cbn.
  pose proof (top_ge _ _ H3). destruct (last (map ack_range (rev rs))); cbn in *; lia.
Qed.

Lemma top_bound lo rs : ascending lo rs -> lo < 2 ^ 62 -> top lo rs < 2 ^ 62 + 1.
Proof.
  revert lo. induction rs as [|r rs IH]; intros lo Ha Hlo; [unfold top; cbn; lia|].
  cbn [ascending] in Ha. destruct Ha as (H1 & H2 & H3). rewrite top_cons.
  destruct rs as [|s rs]; [unfold top; cbn; lia|]. apply IH; [done|]. cbn [ascending] in H3. lia.
Qed.

Lemma fill_frame_ranges t : wf_history (packetHistory t) -> ranges (packetHistory t) <> [] ->
  valid_ranges (AckRanges (tracker.fill_frame t)) /\
  forall q, acked q (AckRanges (tracker.fill_frame t)) <-> recorded (packetHistory t) q.
Proof.
  intros [Ha Hf Hl] Hne. unfold tracker.fill_frame, history.Backward. cbn [AckRanges].
  change (fun r => _) with ack_range. set (rs := ranges (packetHistory t)) in *.
  assert (floor (packetHistory t) < 2 ^ 62) as Hfl.
  { destruct rs as [|r rs']; [done|]. cbn [ascending] in Ha. lia. }
  split.
  - split.
    + intros E. apply (f_equal length) in E. rewrite length_map, length_rev in E. by destruct rs.
    + apply (descending_of_ascending (floor (packetHistory t))); [done | apply floor_ge |]. by apply top_bound.
  - intros q. unfold acked, recorded, covers. fold rs. rewrite !Exists_exists. setoid_rewrite list_elem_of_In.
    setoid_rewrite in_map_iff. setoid_rewrite <- in_rev. unfold in_range, within. split.
    + intros (a & (r & <- & Hin) & Hq). by exists r.
    + intros (r & Hin & Hq). exists (ack_range r). split; [by exists r | done].
Qed.

(** ** The timestamps ring *)

Definition recent (limit : nat) (ss : list ReceiveTimestamp) : list ReceiveTimestamp :=
  drop (length ss - limit) ss.

(** The first [count] places hold the recent stamps, from [cursor] round. *)
Definition ring_holds (h : appDataReceivedPacketTracker) (ss : list ReceiveTimestamp) : Prop :=
  length (timestamps h) = 256%nat /\ 0 <= timestampLimit h <= 256 /\
  (timestampLimit h = 0 -> ss = [] /\ timestampCursor h = 0 /\ timestampCount h = 0) /\
  (0 < timestampLimit h -> exists older newer,
     take (Z.to_nat (timestampCount h)) (timestamps h) = newer ++ older /\
     timestampCursor h = len newer /\ timestampCursor h < timestampLimit h /\
     timestampCount h = Z.min (len ss) (timestampLimit h) /\
     recent (Z.to_nat (timestampLimit h)) ss = older ++ newer /\
     (timestampCount h < timestampLimit h -> older = [])).

Lemma recent_short limit ss : (length ss <= limit)%nat -> recent limit ss = ss.
Proof. intros. unfold recent. by replace (length ss - limit)%nat with 0%nat by lia. Qed.

Lemma recent_snoc limit ss x : (length ss < limit)%nat -> recent limit (ss ++ [x]) = ss ++ [x].
Proof. intros. apply recent_short. rewrite length_app. cbn. lia. Qed.

Lemma recent_snoc_full limit ss x : (limit <= length ss)%nat -> (0 < limit)%nat ->
  recent limit (ss ++ [x]) = drop 1 (recent limit ss) ++ [x].
Proof.
  intros Hl H0. unfold recent. rewrite length_app. cbn [length].
  rewrite drop_app_le, drop_drop by lia. do 2 f_equal. lia.
Qed.

Lemma recent_length limit ss : length (recent limit ss) = Nat.min (length ss) limit.
Proof. unfold recent. rewrite length_drop. lia. Qed.

(** What [store_stamp] does to the ring *)
Ltac ring_goals :=
  repeat split_and!; first
    [ done | lia | (intros; lia) | (rewrite ?length_app in *; cbn [length] in *; lia) | by rewrite ?app_nil_r ].

Lemma store_stamp_ring h ss pn t : ring_holds h ss -> 0 < timestampLimit h ->
  exists h', appData.store_stamp h pn t = Ret h' /\ ring_holds h' (ss ++ [appData.stamp_of h pn t]).
Proof.
  intros (Hlen & Hlim & _ & Hring) Hpos. destruct (Hring Hpos) as (older & newer & Htake & Hcur & Hlt & Hcnt & Hrec & Hold).
  unfold appData.store_stamp. rewrite (proj2 (Z.ltb_lt _ _)) by done.
  assert (0 <= timestampCursor h < 256) as Hc by (rewrite Hcur in *; unfold len in *; lia).
  destruct (lookup_lt_is_Some_2 (timestamps h) (Z.to_nat (timestampCursor h))) as [old Hlook]; [lia|].
  rewrite (proj2 (index_Ret _ _ old)) by (split; [lia | done]). cbn [obind]. eexists. split; [done|].
  set (x := appData.stamp_of h pn t). set (c := Z.to_nat (timestampCursor h)) in *.
  set (L := Z.to_nat (timestampLimit h)) in *. set (n := Z.to_nat (timestampCount h)) in *.
  unfold ring_holds. cbn [timestamps timestampLimit timestampCursor timestampCount].
  split; [by rewrite length_insert|]. split; [done|]. split; [lia|]. intros _.
  assert (length (newer ++ older) = n) as Hn.
  { rewrite <- Htake, length_take, Hlen. unfold n. unfold len in *. lia. }
  rewrite length_app in Hn. unfold len in *.
  assert (Hcount' : Z.min (timestampCount h + 1) (timestampLimit h) = Z.min (Z.of_nat (length (ss ++ [x]))) (timestampLimit h))
    by (rewrite length_app; cbn; lia).
  destruct (Z.lt_ge_cases (timestampCount h) (timestampLimit h)) as [Hfew|Hfull].
  - (* not yet full: the stamp goes behind the others *)
    rewrite Hold in * by done. rewrite !app_nil_r in *. cbn [app] in Hrec. cbn [length] in Hn.
    assert (c = n /\ n = length ss) as [Hcn Hns] by (unfold c, n in *; lia).
    rewrite recent_short in Hrec by lia. rewrite <- Hrec in *.
    assert (take (S n) (<[c:=x]> (timestamps h)) = ss ++ [x]) as Ht.
    { rewrite Hcn, (take_S_r _ _ x) by (by rewrite list_lookup_insert_eq by lia).
      rewrite take_insert_ge by lia. by rewrite Htake. }
    assert (Z.to_nat (Z.min (timestampCount h + 1) (timestampLimit h)) = S n) as -> by (unfold n; lia).
    rewrite Ht, recent_snoc by (unfold L; lia).
    destruct (Z.eq_dec (timestampCursor h + 1) (timestampLimit h)) as [He|He].
    + exists (ss ++ [x]), []. rewrite He, Z.mod_same, app_nil_r by lia. ring_goals.
    + exists [], (ss ++ [x]). rewrite Z.mod_small, app_nil_r, length_app by lia. cbn [length].
      ring_goals.
  - (* full: the oldest stamp is replaced *)
    assert (n = L) as HnL by (unfold n, L; lia). assert (L <= length ss)%nat as HL by (unfold L; lia).
    destruct older as [|o older]; [cbn in Hn; unfold c, L in *; lia|]. cbn [length app] in *.
    assert (c = length newer) as Hcl by (unfold c; lia).
    assert (take n (<[c:=x]> (timestamps h)) = newer ++ x :: older) as Ht.
    { rewrite take_insert_lt by lia. rewrite Htake, Hcl. by rewrite insert_app_r_alt, Nat.sub_diag by lia. }
    assert (Z.to_nat (Z.min (timestampCount h + 1) (timestampLimit h)) = n) as -> by (unfold n, L in *; lia).
    fold L. rewrite Ht, recent_snoc_full, Hrec by (unfold L in *; lia). cbn [drop app]. rewrite drop_0.
    destruct (Z.eq_dec (timestampCursor h + 1) (timestampLimit h)) as [He|He].
    + destruct older as [|o' older]; [|cbn [length] in *; unfold L, n in *; lia].
      exists (newer ++ [x]), []. rewrite He, Z.mod_same, app_nil_r by lia. cbn [app].
      ring_goals.
    + exists older, (newer ++ [x]). rewrite Z.mod_small, length_app by lia. cbn [length].
      rewrite <- !app_assoc. ring_goals.
Qed.

(** ** When an acknowledgement is due *)

Definition last_valid (h : appDataReceivedPacketTracker) : Prop :=
  match lastAck (base h) with Some f => valid_frame f | None => True end.

Lemma LargestAcked_valid f : valid_frame f -> exists l, Ack.LargestAcked f = Ret l.
Proof. intros Hv. destruct (written_ranges f Hv) as (r & rs & E & _). rewrite (LargestAcked_spec f r rs E). by eexists. Qed.

(** Reported missing: below the largest packet of the last frame, not in it,
    and not ignored *)
Definition reported_missing (h : appDataReceivedPacketTracker) (p : Z) : Prop :=
  exists f l, lastAck (base h) = Some f /\ ignoreBelow h <= p /\ Ack.LargestAcked f = Ret l /\
    p < l /\ ~ acked p (AckRanges f).

Lemma isMissing_spec h p : last_valid h ->
  exists b, appData.isMissing h p = Ret b /\ (b = true <-> reported_missing h p).
Proof.
  unfold last_valid, appData.isMissing, reported_missing. intros Hv.
  destruct (lastAck (base h)) as [f|]; [|exists false; naive_solver].
  destruct (LargestAcked_valid f Hv) as [l El]. rewrite El. cbn [obind].
  destruct (Z.ltb_spec p (ignoreBelow h)).
  { exists false. split; [done|]. split; [done|]. intros (? & ? & ? & ? & _). lia. }
  destruct (Z.ltb_spec p l).
  - rewrite AcksPacket_spec by apply Hv. cbn [obind]. eexists. split; [done|].
    rewrite negb_true_iff, bool_decide_eq_false. split; [intros; by exists f, l | naive_solver].
  - exists false. split; [done|]. split; [done|]. intros (? & ? & [= <-] & _ & El' & ? & _).
    rewrite El in El'. injection El' as <-. lia.
Qed.

Lemma hasNewMissingPackets_total h : last_valid h -> exists b, appData.hasNewMissingPackets h = Ret b.
Proof.
  unfold last_valid, appData.hasNewMissingPackets. intros Hv.
  destruct (lastAck (base h)) as [f|]; [|by eexists].
  destruct (LargestAcked_valid f Hv) as [l El]. rewrite El. cbn [obind].
  repeat case_match; by eexists.
Qed.

(** The packet is acknowledged at once, or the alarm is set. *)
Lemma schedule_ack_spec h pn ecn t : last_valid h ->
  exists q a, appData.schedule_ack h pn ecn t
    = Ret (appData.with_ack_state h q (ackElicitingPacketsReceivedSinceLastAck h + 1) a) /\
    (q = true /\ (ackQueued h = true /\ a = ackAlarm h \/ a = 0) \/
     q = false /\ a = i64 (t + MaxAckDelay) /\ ackQueued h = false /\
     ackElicitingPacketsReceivedSinceLastAck h + 1 < 2) /\
    (ecn = ECNCE_ \/ reported_missing h pn -> q = true).
Proof.
  intros Hv. unfold appData.schedule_ack. cbv zeta.
  set (h1 := appData.with_ack_state h (ackQueued h) (ackElicitingPacketsReceivedSinceLastAck h + 1) (ackAlarm h)).
  destruct (isMissing_spec h1 pn Hv) as (b & -> & Hb). cbn [obind].
  change (ackQueued h1) with (ackQueued h). destruct (ackQueued h) eqn:Eq; cbn [obind].
  { exists true, (ackAlarm h). change (ackQueued h1) with true. cbv iota.
    split; [done|]. split; [left; tauto | done]. }
  change (ackQueued h1) with false. cbv iota.
  unfold appData.shouldQueueACK, packetsBeforeAck. destruct b.
  { cbn [obind]. exists true, 0. split; [done|]. split; [left; tauto | done]. }
  change (ackElicitingPacketsReceivedSinceLastAck h1) with (ackElicitingPacketsReceivedSinceLastAck h + 1).
  destruct (Z.leb_spec 2 (ackElicitingPacketsReceivedSinceLastAck h + 1)).
  { cbn [obind]. exists true, 0. split; [done|]. split; [left; tauto | done]. }
  destruct (hasNewMissingPackets_total h1 Hv) as (c & ->). cbn [obind]. destruct c.
  { cbn [obind]. exists true, 0. split; [done|]. split; [left; tauto | done]. }
  cbn [obind]. assert (~ reported_missing h pn) as Hn by (intros Hm; by apply Hb in Hm).
  destruct (match ecn with ECNCE_ => true | _ => false end) eqn:Ee.
  { exists true, 0. split; [done|]. split; [left; tauto | done]. }
  exists false, (i64 (t + MaxAckDelay)). change (ackQueued h1) with false. cbv iota.
  split; [done|]. split; [right; tauto|]. intros [->|?]; done.
Qed.

(** ** Every sequence of packets and acknowledgements *)

Definition ignore_all (h : appDataReceivedPacketTracker) (ignored : list Z) : appDataReceivedPacketTracker :=
  foldl appData.IgnoreBelow h ignored.

Definition is_time (t : Z) : Prop := 0 < t < 2 ^ 61.

(** [reach ps ws ss h]: the tracker [h] of a connection that has processed
    the packets [ps], each with its time, of which [ws] ask for an
    acknowledgement and came after the last one was handed out, and that has
    taken the stamps [ss].  While a packet is processed its ACK frames can
    advance the number below which packets are ignored; a packet the tracker
    refuses closes the connection. *)
Inductive reach : list (Z * Z) -> list (Z * Z) -> list ReceiveTimestamp -> appDataReceivedPacketTracker -> Prop :=
  | reach_new : reach [] [] [] appData.newAppDataReceivedPacketTracker
  | reach_enable ps ws h limit exponent before sec nsec after :
      reach ps ws [] h -> timestampLimit h = 0 ->
      0 <= limit -> 0 <= exponent -> 0 <= before < 2 ^ 61 -> 0 <= after < 2 ^ 61 ->
      0 <= sec < 2 ^ 40 -> 0 <= nsec < 10 ^ 9 ->
      reach ps ws [] (appData.enableReceiveTimestamps h limit exponent before (Some (sec, nsec)) after)
  | reach_packet ps ws ss h ignored pn ecn t eliciting h' :
      reach ps ws ss h -> len ps < 2 ^ 61 ->
      Forall (fun x => 0 <= x < 2 ^ 62) ignored -> 0 <= pn < 2 ^ 62 -> is_time t ->
      appData.ReceivedPacket (ignore_all h ignored) pn ecn t eliciting = Ret (h', Ret tt) ->
      reach (ps ++ [(pn, t)]) (if eliciting : bool then ws ++ [(pn, t)] else ws)
            (if 0 <? timestampLimit h then ss ++ [appData.stamp_of h pn t] else ss) h'
  | reach_ack ps ws ss h now onlyIfQueued maxSize h1 f h2 :
      reach ps ws ss h -> is_time now ->
      appData.GetAckFrame h now onlyIfQueued = Ret (h1, Some f) ->
      appData.TruncateLast h1 maxSize = Ret h2 -> reach ps [] ss h2
  | reach_no_ack ps ws ss h now onlyIfQueued h1 :
      reach ps ws ss h -> is_time now ->
      appData.GetAckFrame h now onlyIfQueued = Ret (h1, None) -> reach ps ws ss h1.

(** Due at once, or, for the first packet that asks for it, when the alarm
    fires *)
Definition ack_policy (ws : list (Z * Z)) (h : appDataReceivedPacketTracker) : Prop :=
  match ws with
  | [] => ackQueued h = false /\ ackAlarm h = 0
  | (_, t) :: ws => ackQueued h = true /\ ackAlarm h = 0 \/
                    ws = [] /\ ackQueued h = false /\ ackAlarm h = t + MaxAckDelay /\ is_time t
  end.

Record core (ps ws : list (Z * Z)) (ss : list ReceiveTimestamp) (h : appDataReceivedPacketTracker) : Prop := {
  i_history : wf_history (packetHistory (base h));
  i_received q : recorded (packetHistory (base h)) q -> q ∈ ps.*1;
  i_new : hasNewAck (base h) = bool_decide (ws <> []);
  i_last : last_valid h;
  i_ecn : 0 <= ect0 (base h) /\ 0 <= ect1 (base h) /\ 0 <= ecnce (base h) /\
          ect0 (base h) + ect1 (base h) + ecnce (base h) <= len ps <= 2 ^ 61;
  i_largest : 0 <= largestObservedRcvdTime h < 2 ^ 61;
  i_count : ackElicitingPacketsReceivedSinceLastAck h = len ws;
  i_policy : ack_policy ws h;
  i_ring : ring_holds h ss;
  i_stamps : Forall (fun s => 0 <= Packet s < 2 ^ 62 /\ 0 <= Micros s < 2 ^ 62) ss;
  i_stamped s : s ∈ ss -> exists pn t, (pn, t) ∈ ps /\ s = appData.stamp_of h pn t;
  i_clock : 0 <= timestampExponent h /\ 0 <= timestampOrigin h < 2 ^ 61 /\ 0 <= timestampOriginUs h < 2 ^ 61;
}.

Definition inv (ps ws : list (Z * Z)) (ss : list ReceiveTimestamp) (h : appDataReceivedPacketTracker) : Prop :=
  core ps ws ss h /\ (ws <> [] -> ranges (packetHistory (base h)) <> []).

Lemma IgnoreBelow_core ps ws ss h x : core ps ws ss h -> 0 <= x < 2 ^ 62 -> core ps ws ss (appData.IgnoreBelow h x).
Proof.
  intros [] Hx. unfold appData.IgnoreBelow. destruct (Z.leb_spec x (ignoreBelow h)); [by constructor|].
  destruct (DeleteBelow_spec (packetHistory (base h)) x) as (Hw & _ & Hr); [done | lia |].
  constructor; try done. cbn. intros q Hq. apply Hr in Hq. naive_solver.
Qed.

Lemma ignore_all_core ps ws ss h xs : core ps ws ss h -> Forall (fun x => 0 <= x < 2 ^ 62) xs ->
  core ps ws ss (ignore_all h xs).
Proof.
  intros Hc Hx. revert h Hc. induction Hx as [|x xs Hx0 Hx IH]; intros h Hc; [done|].
  cbn. apply IH. by apply IgnoreBelow_core.
Qed.

(** The parts of the tracker an ignored number does not touch *)
Lemma ignore_all_clock h xs : timestampLimit (ignore_all h xs) = timestampLimit h /\
  forall pn t, appData.stamp_of (ignore_all h xs) pn t = appData.stamp_of h pn t.
Proof.
  revert h. induction xs as [|x xs IH]; intros h; [done|].
  change (ignore_all h (x :: xs)) with (ignore_all (appData.IgnoreBelow h x) xs).
  destruct (IH (appData.IgnoreBelow h x)) as [-> Hs].
  unfold appData.IgnoreBelow in *. destruct (x <=? ignoreBelow h); [done|].
  split; [done|]. intros. rewrite Hs. done.
Qed.

Lemma stamp_of_range h pn t : 0 <= pn < 2 ^ 62 -> is_time t ->
  0 <= timestampExponent h /\ 0 <= timestampOrigin h < 2 ^ 61 /\ 0 <= timestampOriginUs h < 2 ^ 61 ->
  0 <= Packet (appData.stamp_of h pn t) < 2 ^ 62 /\ 0 <= Micros (appData.stamp_of h pn t) < 2 ^ 62.
Proof.
  unfold is_time, appData.stamp_of. intros Hp Ht (He & Ho & Hu). cbn [Packet Micros]. split; [done|].
  rewrite (i64_small (t - _)) by lia.
  assert (- 2 ^ 61 <= Z.quot (t - timestampOrigin h) 1000 <= 2 ^ 61) as Hq.
  { pose proof (Z.quot_rem' (t - timestampOrigin h) 1000). pose proof (Z.rem_bound_abs (t - timestampOrigin h) 1000). lia. }
  rewrite i64_small, u64_small, shiftr_div by lia.
  assert (1 <= 2 ^ timestampExponent h) by (pose proof (Z.pow_pos_nonneg 2 (timestampExponent h)); lia).
  split; [apply Z.div_pos; lia|]. apply Z.le_lt_trans with (Z.max 0 (timestampOriginUs h + Z.quot (t - timestampOrigin h) 1000)); [|lia].
  apply Z.div_le_upper_bound; nia.
Qed.

Lemma tracker_ReceivedPacket_Ret t pn ecn e t' : wf_history (packetHistory t) -> 0 <= pn < 2 ^ 62 ->
  tracker.ReceivedPacket t pn ecn e = (t', Ret tt) ->
  wf_history (packetHistory t') /\ ranges (packetHistory t') <> [] /\
  (forall q, recorded (packetHistory t') q -> recorded (packetHistory t) q \/ q = pn) /\
  lastAck t' = lastAck t /\ hasNewAck t' = (if e then true else hasNewAck t) /\
  ect0 t' = tracker.count (match ecn with ECT0_ => true | _ => false end) (ect0 t) /\
  ect1 t' = tracker.count (match ecn with ECT1_ => true | _ => false end) (ect1 t) /\
  ecnce t' = tracker.count (match ecn with ECNCE_ => true | _ => false end) (ecnce t).
Proof.
  intros Hw Hp. unfold tracker.ReceivedPacket.
  destruct (history.ReceivedPacket (packetHistory t) pn) as [hist b] eqn:E. destruct b; [|done].
  destruct (ReceivedPacket_spec _ _ _ _ Hw Hp E) as (H1 & _ & _ & _ & H5 & H6 & _).
  intros [= <-]. cbn. repeat split_and!; auto; try apply H1. intros q Hq. apply H6 in Hq. tauto.
Qed.

Lemma count_ecn ecn a b c n : 0 <= a -> 0 <= b -> 0 <= c -> a + b + c <= n < 2 ^ 61 ->
  let a' := tracker.count (match ecn with ECT0_ => true | _ => false end) a in
  let b' := tracker.count (match ecn with ECT1_ => true | _ => false end) b in
  let c' := tracker.count (match ecn with ECNCE_ => true | _ => false end) c in
  0 <= a' /\ 0 <= b' /\ 0 <= c' /\ a' + b' + c' <= n + 1.
Proof. intros. subst a' b' c'. unfold tracker.count. destruct ecn; rewrite ?u64_small by lia; lia. Qed.

(** The state between [store_stamp] and the acknowledgement decision *)
Lemma record_packet_core ps ws ss h pn ecn t e b h1 :
  core ps ws ss h -> len ps < 2 ^ 61 -> 0 <= pn < 2 ^ 62 -> is_time t ->
  tracker.ReceivedPacket (base h) pn ecn e = (b, Ret tt) ->
  appData.store_stamp (appData.with_base h b) pn t = Ret h1 ->
  let h2 := appData.observe_largest h1 pn t in
  let ss' := if 0 <? timestampLimit h then ss ++ [appData.stamp_of h pn t] else ss in
  wf_history (packetHistory (base h2)) /\ ranges (packetHistory (base h2)) <> [] /\
  (forall q, recorded (packetHistory (base h2)) q -> q ∈ (ps ++ [(pn, t)]).*1) /\
  base h2 = b /\ last_valid h2 /\ hasNewAck (base h2) = (if e then true else bool_decide (ws <> [])) /\
  (0 <= ect0 b /\ 0 <= ect1 b /\ 0 <= ecnce b /\ ect0 b + ect1 b + ecnce b <= len (ps ++ [(pn, t)]) <= 2 ^ 61) /\
  0 <= largestObservedRcvdTime h2 < 2 ^ 61 /\
  ackElicitingPacketsReceivedSinceLastAck h2 = len ws /\ ackQueued h2 = ackQueued h /\ ackAlarm h2 = ackAlarm h /\
  ring_holds h2 ss' /\ Forall (fun s => 0 <= Packet s < 2 ^ 62 /\ 0 <= Micros s < 2 ^ 62) ss' /\
  (forall s, s ∈ ss' -> exists pn' t', (pn', t') ∈ ps ++ [(pn, t)] /\ s = appData.stamp_of h2 pn' t') /\
  (0 <= timestampExponent h2 /\ 0 <= timestampOrigin h2 < 2 ^ 61 /\ 0 <= timestampOriginUs h2 < 2 ^ 61).
Proof.
  intros Hc Hlen Hp Ht E Es h2 ss'. destruct Hc as [Hw Hrec Hnew Hlast Hecn Hlarge Hcount Hpol Hring Hst Hsd Hclk].
  destruct (tracker_ReceivedPacket_Ret _ _ _ _ _ Hw Hp E) as (H1 & H2 & H3 & H4 & H5 & H6 & H7 & H8).
  assert (Hrest : ring_holds h1 ss' /\ base h1 = b /\ largestObservedRcvdTime h1 = largestObservedRcvdTime h /\
    ackElicitingPacketsReceivedSinceLastAck h1 = len ws /\ ackQueued h1 = ackQueued h /\ ackAlarm h1 = ackAlarm h /\
    timestampExponent h1 = timestampExponent h /\ timestampOrigin h1 = timestampOrigin h /\
    timestampOriginUs h1 = timestampOriginUs h).
  { subst ss'. destruct (Z.ltb_spec 0 (timestampLimit h)) as [Hpos|Hpos].
    - destruct (store_stamp_ring (appData.with_base h b) ss pn t Hring Hpos) as (h1' & E' & Hr').
      pose proof E' as E2. rewrite Es in E'. injection E' as <-. split; [exact Hr'|].
      unfold appData.store_stamp in E2. rewrite (proj2 (Z.ltb_lt 0 (timestampLimit (appData.with_base h b)))) in E2 by exact Hpos.
      apply obind_Ret in E2 as (? & _ & E2). injection E2 as <-. done.
    - unfold appData.store_stamp in Es. rewrite (proj2 (Z.ltb_ge 0 (timestampLimit (appData.with_base h b)))) in Es by exact Hpos.
      injection Es as <-. done. }
  destruct Hrest as (Hr & Hb & Hlr & Hcn & Hq & Ha & He & Ho & Hu).
  assert (Hstamp : forall pn t, appData.stamp_of h2 pn t = appData.stamp_of h pn t).
  { intros. subst h2. unfold appData.stamp_of. cbn. by rewrite He, Ho, Hu. }
  assert (Hps : forall x, x ∈ ps.*1 -> x ∈ (ps ++ [(pn, t)]).*1) by (intros; rewrite fmap_app; set_solver).
  subst h2. cbn [appData.observe_largest base largestObservedRcvdTime ackElicitingPacketsReceivedSinceLastAck
    ackQueued ackAlarm timestampExponent timestampOrigin timestampOriginUs]. rewrite Hb, He, Ho, Hu.
  split; [done|]. split; [done|]. split.
  { intros q Hq'. apply H3 in Hq' as [?| ->]; [by apply Hps, Hrec|]. rewrite fmap_app. set_solver. }
  split; [done|]. split. { unfold last_valid in *. cbn. by rewrite Hb, H4. }
  split; [by rewrite H5, Hnew|]. split.
  { rewrite H6, H7, H8, len_app. change (len [(pn, t)]) with 1.
    destruct Hecn as (? & ? & ? & ?). pose proof (count_ecn ecn (ect0 (base h)) (ect1 (base h)) (ecnce (base h)) (len ps)). cbn zeta in *. lia. }
  split. { unfold is_time in Ht. destruct (largestObserved h1 <=? pn); lia. }
  split; [done|]. split; [done|]. split; [done|]. split; [exact Hr|]. split.
  { subst ss'. destruct (0 <? timestampLimit h); [|done]. apply Forall_app. split; [done|]. constructor; [|done]. by apply stamp_of_range. }
  split; [|done]. intros s Hs. subst ss'. destruct (0 <? timestampLimit h).
  - apply elem_of_app in Hs as [Hs|Hs].
    + destruct (Hsd s Hs) as (pn' & t' & Hin & ->). exists pn', t'. split; [set_solver | by rewrite Hstamp].
    + apply list_elem_of_singleton in Hs as ->. exists pn, t. split; [set_solver | by rewrite Hstamp].
  - destruct (Hsd s Hs) as (pn' & t' & Hin & ->). exists pn', t'. split; [set_solver | by rewrite Hstamp].
Qed.

Lemma packet_inv ps ws ss h ignored pn ecn t (e : bool) h' :
  core ps ws ss h -> len ps < 2 ^ 61 -> Forall (fun x => 0 <= x < 2 ^ 62) ignored ->
  0 <= pn < 2 ^ 62 -> is_time t ->
  appData.ReceivedPacket (ignore_all h ignored) pn ecn t e = Ret (h', Ret tt) ->
  inv (ps ++ [(pn, t)]) (if e then ws ++ [(pn, t)] else ws)
      (if 0 <? timestampLimit h then ss ++ [appData.stamp_of h pn t] else ss) h'.
Proof.
  intros Hc Hlen Hi Hp Ht. pose proof (ignore_all_core _ _ _ _ _ Hc Hi) as Hc1.
  destruct (ignore_all_clock h ignored) as [Hlim Hst]. rewrite <- Hlim, <- (Hst pn t). clear Hlim Hst Hc.
  revert Hc1. generalize (ignore_all h ignored) as g. intros g Hc. unfold appData.ReceivedPacket.
  destruct (tracker.ReceivedPacket (base g) pn ecn e) as [b r] eqn:E. destruct r as [[]|err|]; [|done|done].
  destruct (appData.store_stamp (appData.with_base g b) pn t) as [h1| |] eqn:Es; [|done|done]. cbn [obind].
  pose proof (record_packet_core _ _ _ _ _ _ _ _ _ _ Hc Hlen Hp Ht E Es) as H. cbn zeta in H.
  destruct H as (H1 & H2 & H3 & H4 & H5 & H6 & H7 & H8 & H9 & H10 & H11 & H12 & H13 & H14 & H15).
  set (h2 := appData.observe_largest h1 pn t) in *. clearbody h2. rewrite <- H4 in H7.
  pose proof (i_policy _ _ _ _ Hc) as Hpol. destruct e; cbn [negb].
  - destruct (schedule_ack_spec h2 pn ecn t H5) as (q & a & -> & Hq & _). cbn [obind]. intros [= <-].
    split; [|done]. constructor; try done.
    + cbn. rewrite H6. symmetry. apply bool_decide_eq_true. by destruct ws.
    + cbn. rewrite H9, len_app. done.
    + unfold ack_policy in *. cbn [ackQueued ackAlarm appData.with_ack_state].
      rewrite H9, H10, H11 in Hq. destruct ws as [|[pn0 t0] ws]; cbn [app].
      * destruct Hpol as [Hq0 Ha0]. rewrite Hq0, Ha0 in Hq. destruct Hq as [(-> & [[? ?]| ->])|(-> & -> & _ & _)]; [done | by left |].
        right. unfold is_time, MaxAckDelay in *. rewrite i64_small by lia. done.
      * left. destruct Hq as [(-> & [[Hqt ->]| ->])|(_ & _ & Hq & Hn)]; [|done|].
        -- split; [done|]. destruct Hpol as [[_ ?]|(_ & Hf & _)]; [done | congruence].
        -- unfold len in Hn. cbn [length] in Hn. lia.
  - intros [= <-]. split; [|done]. constructor; try done. unfold ack_policy in *. rewrite H10, H11. exact Hpol.
Qed.

(** ** Handing out a frame *)

Lemma ring_recent h ss : ring_holds h ss -> 0 < timestampLimit h ->
  take (Z.to_nat (timestampCount h)) (timestamps h) ≡ₚ recent (Z.to_nat (timestampLimit h)) ss.
Proof.
  intros (_ & _ & _ & Hring) Hpos. destruct (Hring Hpos) as (older & newer & -> & _ & _ & _ & -> & _).
  apply Permutation_app_comm.
Qed.

Lemma recent_submseteq limit ss : recent limit ss ⊆+ ss.
Proof. unfold recent. apply sublist_submseteq, sublist_drop. Qed.

Definition acknowledges (h : appDataReceivedPacketTracker) (ss : list ReceiveTimestamp) (f : AckFrame) : Prop :=
  wf_frame f /\
  (forall q, acked q (AckRanges f) <-> recorded (packetHistory (base h)) q) /\
  ReceiveTimestamps f ⊆+ recent (Z.to_nat (timestampLimit h)) ss /\
  Forall (fun s => acked (Packet s) (AckRanges f)) (ReceiveTimestamps f).

Lemma GetAckFrame_spec ps ws ss h now onlyIfQueued : inv ps ws ss h -> is_time now ->
  match ws with
  | [] => appData.GetAckFrame h now onlyIfQueued = Ret (h, None)
  | _ =>
      if onlyIfQueued && negb (ackQueued h) && ((ackAlarm h =? 0) || (now <? ackAlarm h))
      then appData.GetAckFrame h now onlyIfQueued = Ret (h, None)
      else exists f,
        appData.GetAckFrame h now onlyIfQueued
          = Ret (appData.with_ack_state (appData.with_base h (tracker.with_lastAck (base h) f false)) false 0 0, Some f) /\
        acknowledges h ss f
  end.
Proof.
  intros [Hc Hne] Hnow. destruct Hc as [Hw Hrec Hnew Hlast Hecn Hlarge Hcount Hpol Hring Hst Hsd Hclk].
  unfold appData.GetAckFrame, tracker.GetAckFrame. rewrite Hnew. destruct ws as [|w ws].
  { rewrite (bool_decide_false ([] <> [])) by naive_solver. cbn [negb].
    replace (appData.with_base h (base h)) with h by (by destruct h). by destruct (_ && _ && _). }
  rewrite (bool_decide_true (w :: ws <> [])) by done. cbn [negb].
  destruct (onlyIfQueued && negb (ackQueued h) && ((ackAlarm h =? 0) || (now <? ackAlarm h))); [done|].
  destruct (fill_frame_ranges (base h) Hw (Hne ltac:(done))) as [Hvr Hack].
  set (f0 := with_delay (tracker.fill_frame (base h)) (Z.max 0 (i64 (now - largestObservedRcvdTime h)))).
  assert (Hv0 : valid_frame f0).
  { unfold is_time in Hnow. constructor; unfold is_varint; cbn; try done; try lia. rewrite i64_small by lia. lia. }
  destruct (Z.ltb_spec 0 (timestampLimit h)) as [Hpos|Hpos].
  - set (ts := take (Z.to_nat (timestampCount h)) (timestamps h)).
    pose proof (ring_recent h ss Hring Hpos) as Hperm. fold ts in Hperm.
    destruct (prepare_spec (with_timestamps f0 ts)) as (kept & E & Hk & Hs & Ha).
    + apply Hvr.
    + cbn. rewrite Hperm. unfold recent. by apply Forall_drop.
    + rewrite E. cbn [obind]. eexists. split; [done|]. cbn [ReceiveTimestamps with_timestamps] in Hk.
      split; [split; [by destruct Hv0; constructor|]; split; [exact Hs|]|].
      { apply submseteq_length in Hk. destruct Hring as (Hlen & _). unfold ts in Hk. rewrite length_take in Hk.
        unfold len. cbn. lia. }
      split; [exact Hack|]. split; [cbn; by rewrite <- Hperm | exact Ha].
  - cbn [obind]. eexists. split; [done|]. split; [split; [exact Hv0|]; split; [done | done]|].
    split; [exact Hack|]. split; [apply submseteq_nil_l | done].
Qed.

Lemma with_ack_inv ps ws ss h f : inv ps ws ss h -> valid_frame f ->
  inv ps [] ss (appData.with_ack_state (appData.with_base h (tracker.with_lastAck (base h) f false)) false 0 0).
Proof.
  intros [[] _] Hf. split; [|done]. constructor; try done.
Qed.

Lemma TruncateLast_spec h f maxSize : wf_frame f -> lastAck (base h) = Some f ->
  exists f', valid_frame f' /\
    appData.TruncateLast h maxSize
      = Ret (appData.with_base h (tracker.with_lastAck (base h) f' (hasNewAck (base h)))) /\
    exists k, ReceiveTimestamps f' = take k (ReceiveTimestamps f) /\
      (ReceiveTimestamps f' <> [] -> AckRanges f' = AckRanges f).
Proof.
  intros Hf El. destruct (Truncate_total f maxSize Hf) as (f' & E & Hv & j & k & -> & Hj). eexists. split; [exact Hv|].
  unfold appData.TruncateLast, tracker.TruncateLast. rewrite El, E. split; [done|]. exists k. split; [done|].
  cbn. intros Hne. apply take_ge. specialize (Hj Hne). lia.
Qed.

Lemma new_inv : inv [] [] [] appData.newAppDataReceivedPacketTracker.
Proof.
  split; [|done]. constructor; try done.
  - constructor; cbn; [done | unfold InvalidPacketNumber; lia | lia].
  - cbn. intros q Hq. unfold recorded in Hq. by apply covers_nil in Hq.
  - intros s Hs. by apply not_elem_of_nil in Hs.
Qed.

Lemma enable_inv ps ws h limit exponent before sec nsec after :
  inv ps ws [] h -> timestampLimit h = 0 -> 0 <= limit -> 0 <= exponent ->
  0 <= before < 2 ^ 61 -> 0 <= after < 2 ^ 61 -> 0 <= sec < 2 ^ 40 -> 0 <= nsec < 10 ^ 9 ->
  inv ps ws [] (appData.enableReceiveTimestamps h limit exponent before (Some (sec, nsec)) after).
Proof.
  intros [[] Hne] Hz Hl He Hb Ha Hs Hn. split; [|exact Hne]. constructor; try done.
  - destruct i_ring0 as (H1 & _ & H3 & _). destruct (H3 Hz) as (_ & H4 & H5).
    unfold ring_holds. cbn. rewrite H4, H5. split; [done|]. split; [lia|]. split; [done|]. intros Hpos.
    exists [], []. change (Z.to_nat 0) with 0%nat. rewrite take_0. change (len (@nil ReceiveTimestamp)) with 0.
    repeat split_and!; try done; try lia.
  - intros s Hin. by apply not_elem_of_nil in Hin.
  - cbn. split; [done|].
    rewrite (i64_small (after - before)) by lia.
    set (q := Z.quot (after - before) 2).
    assert (0 <= before + q < 2 ^ 61) as Hq.
    { subst q. destruct (Z.le_ge_cases before after).
      - rewrite Z.quot_div_nonneg by lia. dlia.
      - replace (after - before) with (- (before - after)) by lia. rewrite Z.quot_opp_l, Z.quot_div_nonneg by lia. dlia. }
    assert (0 <= Z.quot nsec 1000 < 10 ^ 6) as Hn6 by (rewrite Z.quot_div_nonneg by lia; dlia).
    rewrite (i64_small (before + q)), (i64_small (sec * 1000000)), i64_small by lia. lia.
Qed.

Lemma reach_inv ps ws ss h : reach ps ws ss h -> inv ps ws ss h.
Proof.
  induction 1 as [| ps ws h limit exponent before sec nsec after Hr IH
    | ps ws ss h ignored pn ecn t e h' Hr IH Hlen Hi Hp Ht E
    | ps ws ss h now q maxSize h1 f h2 Hr IH Hnow E ET | ps ws ss h now q h1 Hr IH Hnow E].
  - apply new_inv.
  - by apply enable_inv.
  - by eapply packet_inv; try done; apply IH.
  - pose proof (GetAckFrame_spec _ _ _ _ _ q IH Hnow) as Hs. destruct ws as [|w ws]; [congruence|].
    destruct (q && negb (ackQueued h) && _); [congruence|]. destruct Hs as (f' & E' & Hf & _).
    rewrite E in E'. injection E' as -> ->.
    destruct (TruncateLast_spec (appData.with_ack_state (appData.with_base h (tracker.with_lastAck (base h) f' false)) false 0 0)
      f' maxSize Hf eq_refl) as (f2 & Hv2 & E2 & _). rewrite ET in E2. injection E2 as ->.
    apply (with_ack_inv _ _ _ _ f2 IH Hv2).
  - pose proof (GetAckFrame_spec _ _ _ _ _ q IH Hnow) as Hs. destruct ws as [|w ws].
    + rewrite E in Hs. by injection Hs as ->.
    + destruct (q && negb (ackQueued h) && _).
      * rewrite E in Hs. by injection Hs as ->.
      * destruct Hs as (? & ? & _). congruence.
Qed.

(** ** Properties *)

(** C21. The history of received packets is a set of packet numbers, kept in
    at most 64 ranges: a packet is new exactly when it is not below the
    deleted ones and not in the set; recording it adds it and nothing else,
    and loses at most packets below all that are left, when there were 64
    ranges; deleting removes exactly what is below; the duplicate check and
    the highest missing number are those of the set. *)
Theorem history_refines_set h p h' isNew :
  wf_history h -> 0 <= p < 2 ^ 62 -> history.ReceivedPacket h p = (h', isNew) ->
  wf_history h' /\
  isNew = bool_decide (deletedBelow h <= p /\ ~ recorded h p) /\
  (forall q, recorded h' q -> recorded h q \/ q = p /\ isNew = true) /\
  (forall q, recorded h q \/ q = p /\ isNew = true ->
     recorded h' q \/ length (ranges h) = 64%nat /\ forall q', recorded h' q' -> q < q') /\
  (wf_history (history.DeleteBelow h p) /\
   forall q, recorded (history.DeleteBelow h p) q <-> recorded h q /\ p <= q) /\
  history.IsPotentiallyDuplicate h p = bool_decide (p < deletedBelow h \/ recorded h p) /\
  (deletedBelow h <= p -> ranges h <> [] -> exists r, last (ranges h) = Some r /\
     highest_missing h (Z.min (Stop r) p) (history.HighestMissingUpTo h p)).
Proof.
  intros Hw Hp E. destruct (ReceivedPacket_spec h p h' isNew Hw Hp E) as (H1 & _ & H2 & _ & _ & H3 & H4).
  destruct (DeleteBelow_spec h p Hw ltac:(lia)) as (H5 & _ & H6).
  do 4 (split; [done|]). split; [done|]. split; [by apply IsPotentiallyDuplicate_spec|].
  intros. apply HighestMissingUpTo_spec; done || lia.
Qed.

Definition demo_history : receivedPacketHistory :=
  {| ranges := [{| Start := 3; Stop := 5 |}; {| Start := 7; Stop := 9 |}]; deletedBelow := 2 |}.

Lemma history_refines_set_witness :
  exists h', history.ReceivedPacket demo_history 6 = (h', true) /\ wf_history h' /\
    ranges h' = [{| Start := 3; Stop := 9 |}].
Proof.
  destruct (history_refines_set demo_history 6
    {| ranges := [{| Start := 3; Stop := 9 |}]; deletedBelow := 2 |} true) as (Hw & _).
  - constructor; cbn; [unfold floor; cbn; lia | lia | lia].
  - lia.
  - reflexivity.
  - eexists. split; [reflexivity|]. split; [exact Hw | reflexivity].
Defined.

(** C20. Every packet that asks for an acknowledgement gets one: while any is
    waiting, a frame is due 25 ms after the first of them arrived, and at
    once when there are two; the frame acknowledges exactly the packets the
    history holds, only packets that were received; when none is waiting no
    frame is handed out. *)
Theorem acknowledged_in_time ps ws ss h now :
  reach ps ws ss h -> is_time now ->
  match ws with
  | [] => forall onlyIfQueued, appData.GetAckFrame h now onlyIfQueued = Ret (h, None)
  | (_, t) :: ws' =>
      t + MaxAckDelay <= now \/ ws' <> [] ->
      exists h' f, appData.GetAckFrame h now true = Ret (h', Some f) /\
        forall q, (acked q (AckRanges f) <-> recorded (packetHistory (base h)) q) /\
                  (acked q (AckRanges f) -> q ∈ ps.*1)
  end.
Proof.
  intros Hr Hnow. pose proof (reach_inv _ _ _ _ Hr) as Hi.
  pose proof (GetAckFrame_spec _ _ _ _ _ true Hi Hnow) as Hs. destruct Hi as [Hc _]. destruct ws as [|[pn t] ws].
  { intros q. apply (GetAckFrame_spec ps [] ss h now q); [by apply reach_inv | done]. }
  intros Hdue. pose proof (i_policy _ _ _ _ Hc) as Hpol. cbn [ack_policy] in Hpol.
  assert (true && negb (ackQueued h) && ((ackAlarm h =? 0) || (now <? ackAlarm h)) = false) as Hc0.
  { destruct Hpol as [[-> _]|(-> & -> & -> & Ht)]; [done|]. destruct Hdue as [Hd|?]; [|done].
    cbn [negb andb]. unfold is_time, MaxAckDelay in *. apply orb_false_iff.
    split; [apply Z.eqb_neq; lia | apply Z.ltb_ge; lia]. }
  rewrite Hc0 in Hs. destruct Hs as (f & E & _ & Hack & _). eexists _, f. split; [exact E|].
  intros q. split; [apply Hack|]. intros Hq. by apply (i_received _ _ _ _ Hc), Hack.
Qed.

(** A client that takes the arrival times of at most two packets *)
Definition demo_enabled : appDataReceivedPacketTracker :=
  appData.enableReceiveTimestamps appData.newAppDataReceivedPacketTracker 2 0 1000000 (Some (5, 0)) 1000000.

Definition after_packet (h : appDataReceivedPacketTracker) (pn t : Z) (eliciting : bool) : appDataReceivedPacketTracker :=
  match appData.ReceivedPacket h pn ECNNon t eliciting with Ret (h, _) => h | _ => h end.

Definition demo_first : appDataReceivedPacketTracker := after_packet demo_enabled 0 2000000 true.
Definition demo_second : appDataReceivedPacketTracker := after_packet demo_first 1 3000000 true.
Definition demo_stamp0 : ReceiveTimestamp := {| Packet := 0; Micros := 5001000 |}.
Definition demo_stamp1 : ReceiveTimestamp := {| Packet := 1; Micros := 5002000 |}.

Lemma demo_enabled_reach : reach [] [] [] demo_enabled.
Proof. apply reach_enable; try done; try lia. apply reach_new. Qed.

Lemma demo_first_reach : reach [(0, 2000000)] [(0, 2000000)] [demo_stamp0] demo_first.
Proof.
  pose proof (reach_packet [] [] [] demo_enabled [] 0 ECNNon 2000000 true demo_first demo_enabled_reach) as H.
  assert (appData.stamp_of demo_enabled 0 2000000 = demo_stamp0) as Hs by (vm_compute; reflexivity).
  assert ((0 <? timestampLimit demo_enabled) = true) as Hl by (vm_compute; reflexivity).
  rewrite Hs, Hl in H. apply H; [done | done | done | done | vm_compute; reflexivity].
Qed.

Lemma demo_second_reach :
  reach [(0, 2000000); (1, 3000000)] [(0, 2000000); (1, 3000000)] [demo_stamp0; demo_stamp1] demo_second.
Proof.
  pose proof (reach_packet _ _ _ demo_first [] 1 ECNNon 3000000 true demo_second demo_first_reach) as H.
  assert (appData.stamp_of demo_first 1 3000000 = demo_stamp1) as Hs by (vm_compute; reflexivity).
  assert ((0 <? timestampLimit demo_first) = true) as Hl by (vm_compute; reflexivity).
  rewrite Hs, Hl in H. apply H; [done | done | done | done | vm_compute; reflexivity].
Qed.

Lemma acknowledged_in_time_witness :
  exists h' f, appData.GetAckFrame demo_first 27000000 true = Ret (h', Some f) /\ (acked 0 (AckRanges f) -> 0 ∈ [0]).
Proof.
  destruct (acknowledged_in_time _ _ _ _ 27000000 demo_first_reach) as (h' & f & E & H); [done | by left |].
  exists h', f. split; [exact E | apply H].
Defined.

(** Whatever was received and acknowledged before, a packet is processed
    without a panic: it is refused exactly when it is old or a duplicate, and
    then nothing changes; otherwise it is recorded, and acknowledged at once
    when it is marked ECN-CE or was reported missing before. *)
Theorem packet_processed ps ws ss h pn ecn t eliciting :
  reach ps ws ss h -> len ps < 2 ^ 61 -> 0 <= pn < 2 ^ 62 -> is_time t ->
  (deletedBelow (packetHistory (base h)) <= pn /\ ~ recorded (packetHistory (base h)) pn ->
   exists h', appData.ReceivedPacket h pn ecn t eliciting = Ret (h', Ret tt) /\
     (eliciting = true -> ecn = ECNCE_ \/ reported_missing h pn -> ackQueued h' = true)) /\
  (pn < deletedBelow (packetHistory (base h)) \/ recorded (packetHistory (base h)) pn ->
   appData.ReceivedPacket h pn ecn t eliciting = Ret (h, Err (tracker.old_packet pn))).
Proof.
  intros Hr Hlen Hp Ht. destruct (reach_inv _ _ _ _ Hr) as [Hc _]. pose proof (i_history _ _ _ _ Hc) as Hw.
  destruct (history.ReceivedPacket (packetHistory (base h)) pn) as [hist b] eqn:E.
  destruct (ReceivedPacket_spec _ _ _ _ Hw Hp E) as (_ & _ & Hb & Hsame & _).
  unfold appData.ReceivedPacket, tracker.ReceivedPacket. rewrite E. split.
  - intros Hnew. rewrite bool_decide_eq_true_2 in Hb by done. subst b. cbn [negb].
    match goal with |- context [appData.with_base h ?b0] => set (b := b0) end.
    assert (exists h1, appData.store_stamp (appData.with_base h b) pn t = Ret h1 /\ base h1 = b /\
      lastAck (base h1) = lastAck (base h) /\ ignoreBelow h1 = ignoreBelow h) as (h1 & E1 & Hb1 & Hl1 & Hi1).
    { destruct (Z.ltb_spec 0 (timestampLimit h)) as [Hpos|Hpos].
      - destruct (store_stamp_ring (appData.with_base h b) ss pn t (i_ring _ _ _ _ Hc) Hpos) as (h1 & E1 & _).
        exists h1. split; [done|]. unfold appData.store_stamp in E1.
        rewrite (proj2 (Z.ltb_lt 0 (timestampLimit (appData.with_base h b)))) in E1 by exact Hpos.
        apply obind_Ret in E1 as (? & _ & E1). by injection E1 as <-.
      - unfold appData.store_stamp. rewrite (proj2 (Z.ltb_ge 0 (timestampLimit (appData.with_base h b)))) by exact Hpos.
        by eexists. }
    rewrite E1. cbn [obind]. destruct eliciting; cbn [negb]; [|by eexists].
    pose proof (i_last _ _ _ _ Hc) as Hv. unfold last_valid in Hv.
    destruct (schedule_ack_spec (appData.observe_largest h1 pn t) pn ecn t) as (q & a & -> & _ & Hq).
    { unfold last_valid. cbn. by rewrite Hl1. }
    cbn [obind]. eexists. split; [done|]. intros _ Hcm. cbn. apply Hq.
    destruct Hcm as [?|(f & l & H1 & H2 & H3)]; [by left | right]. exists f, l. cbn. by rewrite Hl1, Hi1.
  - intros Hold. assert (b = false) as -> by (rewrite Hb; apply bool_decide_eq_false; intros [? ?]; destruct Hold; [lia | done]).
    cbn [negb]. rewrite (Hsame eq_refl). destruct h as [? ? ? ? ? ? ? [] ? ? ? ? ? ?]. done.
Qed.

Lemma packet_processed_witness :
  (exists h', appData.ReceivedPacket demo_second 7 ECNCE_ 4000000 true = Ret (h', Ret tt) /\ ackQueued h' = true) /\
  appData.ReceivedPacket demo_second 1 ECNNon 4000000 true = Ret (demo_second, Err (tracker.old_packet 1)).
Proof.
  split.
  - destruct (packet_processed _ _ _ _ 7 ECNCE_ 4000000 true demo_second_reach) as [H _]; [done | done | done |].
    destruct H as (h' & E & Hq).
    { split; [vm_compute; discriminate|].
      assert (bool_decide (recorded (packetHistory (base demo_second)) 7) = false) as Hb by (vm_compute; reflexivity).
      by apply bool_decide_eq_false in Hb. }
    exists h'. split; [exact E|]. apply Hq; [reflexivity | by left].
  - apply (packet_processed _ _ _ _ 1 ECNNon 4000000 true demo_second_reach); [done | done | done |].
    right.
    assert (bool_decide (recorded (packetHistory (base demo_second)) 1) = true) as Hb by (vm_compute; reflexivity).
    by apply bool_decide_eq_true in Hb.
Defined.

(** C19. From arrival to the peer: when a frame was handed out and truncated
    to any size, and still carries timestamps, it is written without a panic
    as the extended frame, and what the peer decodes are arrival times of
    packets that were received, on the receiver's clock, among the most
    recent ones up to the negotiated limit, each of a packet this very frame
    acknowledges. *)
Theorem arrival_times_reach_peer ps ws ss h now onlyIfQueued h1 f maxSize h2 f' b rest :
  reach ps ws ss h -> is_time now ->
  appData.GetAckFrame h now onlyIfQueued = Ret (h1, Some f) ->
  appData.TruncateLast h1 maxSize = Ret h2 -> lastAck (base h2) = Some f' -> ReceiveTimestamps f' <> [] ->
  exists ranges stamps ecn decoded,
    Ack.Append f' b = Ret (b ++ [64; 176] ++ ranges ++ stamps ++ ecn) /\
    decode_stamps (stamps ++ ecn ++ rest) = Ret (decoded, ecn ++ rest) /\ decoded <> [] /\
    forall s, s ∈ decoded ->
      s ∈ recent (Z.to_nat (timestampLimit h)) ss /\ acked (Packet s) (AckRanges f') /\
      exists pn t, (pn, t) ∈ ps /\ s = appData.stamp_of h pn t.
Proof.
  intros Hr Hnow E ET El Hne. pose proof (reach_inv _ _ _ _ Hr) as Hi.
  pose proof (GetAckFrame_spec _ _ _ _ _ onlyIfQueued Hi Hnow) as Hs. destruct ws as [|w ws]; [congruence|].
  destruct (onlyIfQueued && negb (ackQueued h) && _); [congruence|].
  destruct Hs as (f0 & E' & Hf & Hack & Hsub & Hin). rewrite E in E'. injection E' as -> ->.
  destruct (TruncateLast_spec (appData.with_ack_state (appData.with_base h (tracker.with_lastAck (base h) f0 false)) false 0 0)
    f0 maxSize Hf eq_refl) as (f2 & Hv2 & E2 & k & Hk & Hranges).
  rewrite ET in E2. injection E2 as ->. injection El as ->. specialize (Hranges Hne).
  destruct Hf as (_ & Hst & Hlen).
  assert (valid_stamps (ReceiveTimestamps f')) as Hst'.
  { rewrite Hk. rewrite <- (take_drop k (ReceiveTimestamps f0)) in Hst. by apply stamps_below_app in Hst as [? _]. }
  assert (len (ReceiveTimestamps f') < 2 ^ 62) as Hlen' by (rewrite Hk; unfold len in *; rewrite length_take; lia).
  destruct (frame_written f' b) as [Ha _]; [done|]. unfold frame_bytes in Ha.
  destruct (ReceiveTimestamps f') as [|s0 ts] eqn:Ets; [done|].
  exists (put (ack_fields (Ack.normal_of f'))), (put (stamp_fields (s0 :: ts))),
    (if Ack.hasECN f' then [FrameTypeAckECN] ++ put (ack_fields f') else []), (s0 :: ts).
  split; [exact Ha|]. split; [by apply decode_stamp_fields|]. split; [done|]. intros s Hin'.
  assert (s ∈ ReceiveTimestamps f0) as Hs0 by (rewrite <- (take_drop k (ReceiveTimestamps f0)), <- Hk; apply elem_of_app; by left).
  pose proof (elem_of_submseteq _ _ _ Hs0 Hsub) as Hrec. split; [done|]. split.
  - rewrite Hranges. rewrite Forall_forall in Hin. by apply Hin.
  - apply (i_stamped _ _ _ _ (proj1 Hi)). apply (elem_of_submseteq _ _ _ Hrec), recent_submseteq.
Qed.

Definition demo_handed : appDataReceivedPacketTracker * AckFrame :=
  match appData.GetAckFrame demo_second 4000000 true with
  | Ret (h, Some f) => (h, f)
  | _ => (demo_second, empty_frame)
  end.
Definition demo_truncated : appDataReceivedPacketTracker :=
  match appData.TruncateLast demo_handed.1 1200 with Ret h => h | _ => demo_second end.
Definition demo_sent : AckFrame := default empty_frame (lastAck (base demo_truncated)).

Lemma arrival_times_reach_peer_witness : exists ranges stamps ecn decoded,
  Ack.Append demo_sent [] = Ret ([64; 176] ++ ranges ++ stamps ++ ecn) /\
  decode_stamps (stamps ++ ecn ++ [1]) = Ret (decoded, ecn ++ [1]) /\ decoded <> [].
Proof.
  destruct (arrival_times_reach_peer _ _ _ demo_second 4000000 true demo_handed.1 demo_handed.2 1200 demo_truncated
    demo_sent [] [1] demo_second_reach) as (r & s & e & d & H1 & H2 & H3 & _).
  - done.
  - vm_compute. reflexivity.
  - vm_compute. reflexivity.
  - vm_compute. reflexivity.
  - vm_compute. discriminate.
  - exists r, s, e, d. split; [exact H1|]. split; [exact H2 | exact H3].
Defined.

(** When more than 64 ranges are received, the lowest is forgotten, and with
    it that its packets were there: a copy of packet 0 is then no duplicate
    any more, and is recorded as new again. *)
Definition many_gaps : receivedPacketHistory :=
  foldl (fun h i => (history.ReceivedPacket h (2 * i)).1) history.newReceivedPacketHistory (seqZ 0 65).

Lemma forgotten_packet_accepted_again :
  history.IsPotentiallyDuplicate many_gaps 0 = false /\
  (history.ReceivedPacket many_gaps 0).2 = true.
Proof. split; vm_compute; reflexivity. Qed.
