(* ===== verification/FrameSorter.v ===== *)
(** * Reassembling a stream from frames

    [src/deps/quic-go/frame_sorter.go], and the part of
    [internal/utils/linkedlist/linkedlist.go] it uses.  Frames arrive in any
    order and overlap; the sorter keeps the ones not read yet in a map from
    offsets, and what has not arrived as a linked list of gaps.  Gaps are
    changed through pointers to list elements: an element is its number here,
    and pointers are compared as numbers.  A frame's bytes lie in the buffer
    it was received into, and its callback gives that buffer back: a slice has
    the number of its buffer ([None] is memory of its own), a callback is the
    number of the buffer it releases, and [released] lists the callbacks that
    were called.  The loops over the queue delete an entry each time, so their
    fuel is the size of the queue. *)
From S2P Require Import Prelude Protocol.

Local Open Scope Z_scope.
Local Open Scope go_scope.

(** ** Linked lists

    An element that was removed has no value and no neighbours any more: the
    code never asks for them. *)
Record List (T : Type) := { elements : list (nat * T); allocated : nat }.
Arguments elements {T} l.
Arguments allocated {T} l.
Arguments Build_List {T} elements allocated.

Module linkedlist.
Section linkedlist.
Context {T : Type}.

Definition New : List T := Build_List [] 0.

Definition Front (l : List T) : option nat := fst <$> head (elements l).
Definition Len (l : List T) : Z := len (elements l).

Fixpoint next_of (e : nat) (l : list (nat * T)) : option nat :=
  match l with
  | [] => None
  | (x, _) :: l => if Nat.eqb x e then fst <$> head l else next_of e l
  end.
Definition Next (l : List T) (e : nat) : option nat := next_of e (elements l).

Fixpoint prev_of (prev : option nat) (e : nat) (l : list (nat * T)) : option nat :=
  match l with
  | [] => None
  | (x, _) :: l => if Nat.eqb x e then prev else prev_of (Some x) e l
  end.
Definition Prev (l : List T) (e : nat) : option nat := prev_of None e (elements l).

(** [e.Value]; a nil pointer panics. *)
Fixpoint value_of (e : nat) (l : list (nat * T)) : outcome T :=
  match l with
  | [] => Panic
  | (x, v) :: l => if Nat.eqb x e then Ret v else value_of e l
  end.
Definition Value (l : List T) (e : option nat) : outcome T :=
  match e with Some e => value_of e (elements l) | None => Panic end.

(** [e.Value = v] *)
Definition SetValue (l : List T) (e : nat) (v : T) : List T :=
  Build_List (map (fun x => if Nat.eqb x.1 e then (x.1, v) else x) (elements l)) (allocated l).

Definition Remove (l : List T) (e : nat) : List T :=
  Build_List (List.filter (fun x => negb (Nat.eqb x.1 e)) (elements l)) (allocated l).

Fixpoint insert_after (x : nat * T) (mark : nat) (l : list (nat * T)) : list (nat * T) :=
  match l with
  | [] => []
  | y :: l => if Nat.eqb y.1 mark then y :: x :: l else y :: insert_after x mark l
  end.

(** [pool.Get]: an element that is in no list *)
Definition InsertAfter (l : List T) (v : T) (mark : nat) : List T :=
  Build_List (insert_after (allocated l, v) mark (elements l)) (S (allocated l)).

Definition PushFront (l : List T) (v : T) : List T :=
  Build_List ((allocated l, v) :: elements l) (S (allocated l)).

End linkedlist.
End linkedlist.

(** ** Slices of received frames *)
Record slice := { buffer : option nat; content : bytes }.

(** [d[lo:hi]] *)
Definition cut (d : slice) (lo hi : Z) : outcome slice :=
  if (0 <=? lo) && (lo <=? hi) && (hi <=? len (content d))
  then Ret {| buffer := buffer d; content := take (Z.to_nat (hi - lo)) (drop (Z.to_nat lo) (content d)) |}
  else Panic.

(** ** The sorter *)

Definition MaxStreamFrameSorterGaps : Z := 1000.

Record byteInterval := { Start : Z; End : Z }.

Record frameSorterEntry := { Data : slice; DoneCb : option nat }.

Record frameSorter := {
  queue : gmap Z frameSorterEntry;
  readPos : Z;
  gaps : List byteInterval;
  released : list nat;
}.

Definition entryLen (e : frameSorterEntry) : Z := len (content (Data e)).

(** [if doneCb != nil { doneCb() }] *)
Definition call (doneCb : option nat) (released : list nat) : list nat :=
  match doneCb with Some k => released ++ [k] | None => released end.

Module sorter.

Definition errDuplicateStreamData : goerror := Errorf "duplicate stream data" [].
Definition errTooManyGaps : goerror := Errorf "too many gaps in received data" [].
Definition errTooLittleData : goerror := Errorf "too little data" [].

Definition newFrameSorter : frameSorter :=
  {| queue := ∅; readPos := 0; released := [];
     gaps := linkedlist.PushFront linkedlist.New {| Start := 0; End := MaxByteCount |} |}.

(** The loop of [findStartGap] *)
Fixpoint find_start (l : list (nat * byteInterval)) (offset : Z) : outcome (nat * bool) :=
  match l with
  | [] => Panic
  | (e, g) :: l =>
      if (Start g <=? offset) && (offset <=? End g) then Ret (e, true) else
      if offset <? Start g then Ret (e, false) else find_start l offset
  end.
Definition findStartGap (gs : List byteInterval) (offset : Z) : outcome (nat * bool) :=
  find_start (elements gs) offset.

(** The loop of [findEndGap], [fuel] bounds the elements that follow. *)
Fixpoint find_end (fuel : nat) (gs : List byteInterval) (gap : option nat) (offset : Z)
    : outcome (option nat * bool) :=
  match gap, fuel with
  | Some e, S fuel =>
      let! g := linkedlist.Value gs (Some e) in
      if (Start g <=? offset) && (offset <? End g) then Ret (Some e, true) else
      if offset <? Start g then Ret (linkedlist.Prev gs e, false) else
      find_end fuel gs (linkedlist.Next gs e) offset
  | _, _ => Panic
  end.
Definition findEndGap (gs : List byteInterval) (startGap : nat) (offset : Z) : outcome (option nat * bool) :=
  find_end (length (elements gs)) gs (Some startGap) offset.

(** Deletes consecutive frames from the queue, starting at [pos]. *)
Fixpoint delete_loop (fuel : nat) (q : gmap Z frameSorterEntry) (released : list nat) (pos : Z)
    : gmap Z frameSorterEntry * list nat :=
  match fuel with
  | O => (q, released)
  | S fuel =>
      match q !! pos with
      | None => (q, released)
      | Some oldEntry =>
          delete_loop fuel (delete pos q) (call (DoneCb oldEntry) released) (i64 (pos + entryLen oldEntry))
      end
  end.
Definition deleteConsecutive (q : gmap Z frameSorterEntry) (released : list nat) (pos : Z)
    : gmap Z frameSorterEntry * list nat := delete_loop (S (size q)) q released pos.

(** The first loop of [push]: [None] is its [return errDuplicateStreamData],
    otherwise the queue, the callbacks called, [pos], [hasReplacedAtLeastOne],
    and if the new frame is cut at [pos]. *)
Fixpoint replace_loop (fuel : nat) (stop : Z) (q : gmap Z frameSorterEntry) (released : list nat)
    (pos : Z) (hasReplaced : bool) : option (gmap Z frameSorterEntry * list nat * Z * bool * bool) :=
  match fuel with
  | O => Some (q, released, pos, hasReplaced, false)
  | S fuel =>
      match q !! pos with
      | None => Some (q, released, pos, hasReplaced, false)
      | Some oldEntry =>
          let oldEntryLen := entryLen oldEntry in
          if (oldEntryLen <? stop - pos) || (hasReplaced && (stop - pos =? oldEntryLen)) then
            replace_loop fuel stop (delete pos q) (call (DoneCb oldEntry) released) (i64 (pos + oldEntryLen)) true
          else if negb hasReplaced then None
          else Some (q, released, pos, hasReplaced, true)
      end
  end.

(** The loop that deletes the gaps between [startGap] and [endGap] *)
Fixpoint gap_loop (fuel : nat) (q : gmap Z frameSorterEntry) (released : list nat)
    (gs : List byteInterval) (gap : option nat) (endGapStart : Z)
    : outcome (gmap Z frameSorterEntry * list nat * List byteInterval) :=
  match gap, fuel with
  | Some e, S fuel =>
      let! g := linkedlist.Value gs gap in
      if End g <? endGapStart then
        let nextGap := linkedlist.Next gs e in
        let '(q, released) := deleteConsecutive q released (End g) in
        gap_loop fuel q released (linkedlist.Remove gs e) nextGap endGapStart
      else Ret (q, released, gs)
  | _, _ => Panic
  end.

(** [push] from the removal of the gaps on, in three parts: the start gap, the
    gaps up to the end gap, and the end gap. *)
Definition close_start (gs : List byteInterval) (startGap : nat) (sg : byteInterval) (start stop : Z)
    (hasReplaced : bool) : List byteInterval * bool :=
  if start <=? Start sg then
    if End sg <=? stop then (linkedlist.Remove gs startGap, false)
    else (linkedlist.SetValue gs startGap {| Start := stop; End := End sg |}, false)
  else if negb hasReplaced then (linkedlist.SetValue gs startGap {| Start := Start sg; End := start |}, true)
  else (gs, false).

Definition close_end (gs : List byteInterval) (startGap endGap : nat) (eg : byteInterval) (stop startGapEnd : Z)
    (adjustedStartGapEnd : bool) : List byteInterval :=
  let equal := Nat.eqb startGap endGap in
  if stop =? End eg then (if equal then gs else linkedlist.Remove gs endGap) else
  if equal && adjustedStartGapEnd
  then linkedlist.InsertAfter gs {| Start := stop; End := startGapEnd |} startGap
  else if negb equal then linkedlist.SetValue gs endGap {| Start := stop; End := End eg |} else gs.

(** The copy of a short frame that was cut, which gives the buffer back early *)
Definition keep_small (wasCut : bool) (data : slice) (doneCb : option nat) (released : list nat)
    : slice * option nat * list nat :=
  if wasCut && (len (content data) <? MinStreamFrameBufferSize)
  then ({| buffer := None; content := content data |}, None, call doneCb released)
  else (data, doneCb, released).

(** The rest of [push], once the gaps [sg] and [eg] at the two ends are known:
    the sorter afterwards, and the error *)
Definition push_between (s : frameSorter) (data : slice) (start stop : Z) (doneCb : option nat)
    (startGap : nat) (startsInGap : bool) (sg : byteInterval) (endGap : nat) (endsInGap : bool) (eg : byteInterval)
    : outcome (frameSorter * option goerror) :=
  let equal := Nat.eqb startGap endGap in
  let startGapNext := linkedlist.Next (gaps s) startGap in
  match replace_loop (S (size (queue s))) stop (queue s) (released s) start false with
  | None => Ret (s, Some errDuplicateStreamData)
  | Some (q, rel, pos, hasReplaced, wasCut) =>
  let! data := (if wasCut then cut data 0 (pos - start) else Ret data) in
  let stop := if wasCut then pos else stop in
  let beforeGap := negb startsInGap && negb hasReplaced in
  let! data := (if beforeGap then cut data (Start sg - start) (len (content data)) else Ret data) in
  let start := if beforeGap then Start sg else start in
  let '(gs, adjusted) := close_start (gaps s) startGap sg start stop hasReplaced in
  let! '(q, rel, gs) :=
    (if equal then Ret (q, rel, gs) else
     let '(q, rel) := deleteConsecutive q rel (End sg) in
     gap_loop (length (elements gs)) q rel gs startGapNext (Start eg)) in
  let afterGap := negb endsInGap && negb (start =? End eg) && (End eg <? stop) in
  let! data := (if afterGap then cut data 0 (End eg - start) else Ret data) in
  let stop := if afterGap then End eg else stop in
  let gs := close_end gs startGap endGap eg stop (End sg) adjusted in
  let '(data, doneCb, rel) := keep_small (wasCut || beforeGap || afterGap) data doneCb rel in
  if MaxStreamFrameSorterGaps <? linkedlist.Len gs
  then Ret ({| queue := q; readPos := readPos s; gaps := gs; released := rel |}, Some errTooManyGaps)
  else Ret ({| queue := <[start := {| Data := data; DoneCb := doneCb |}]> q;
               readPos := readPos s; gaps := gs; released := rel |}, None)
  end.

Definition push (s : frameSorter) (data : slice) (offset : Z) (doneCb : option nat)
    : outcome (frameSorter * option goerror) :=
  if len (content data) =? 0 then Ret (s, Some errDuplicateStreamData) else
  let start := offset in
  let stop := i64 (offset + len (content data)) in
  let! front := linkedlist.Value (gaps s) (linkedlist.Front (gaps s)) in
  if stop <=? Start front then Ret (s, Some errDuplicateStreamData) else
  let! '(startGap, startsInGap) := findStartGap (gaps s) start in
  let! '(endGap', endsInGap) := findEndGap (gaps s) startGap stop in
  let! sg := linkedlist.Value (gaps s) (Some startGap) in
  let! eg := linkedlist.Value (gaps s) endGap' in
  match endGap' with
  | None => Panic
  | Some endGap =>
      let equal := Nat.eqb startGap endGap in
      if (equal && (stop <=? Start sg)) || (negb equal && (Start eg <=? End sg) && (stop <=? Start sg))
      then Ret (s, Some errDuplicateStreamData)
      else push_between s data start stop doneCb startGap startsInGap sg endGap endsInGap eg
  end.

Definition is_duplicate (e : goerror) : bool :=
  match e with Errorf "duplicate stream data" [] => true | _ => false end.

Definition Push (s : frameSorter) (data : slice) (offset : Z) (doneCb : option nat)
    : outcome (frameSorter * option goerror) :=
  let! '(s, err) := push s data offset doneCb in
  match err with
  | Some e =>
      if is_duplicate e
      then Ret ({| queue := queue s; readPos := readPos s; gaps := gaps s; released := call doneCb (released s) |}, None)
      else Ret (s, Some e)
  | None => Ret (s, None)
  end.

(** The sorter, the offset, the data ([None] is nil) and its callback *)
Definition Pop (s : frameSorter) : outcome (frameSorter * Z * option slice * option nat) :=
  match queue s !! readPos s with
  | None => Ret (s, readPos s, None, None)
  | Some entry =>
      let readPos' := i64 (readPos s + entryLen entry) in
      let! front := linkedlist.Value (gaps s) (linkedlist.Front (gaps s)) in
      if End front <=? readPos' then Panic else
      Ret ({| queue := delete (readPos s) (queue s); readPos := readPos'; gaps := gaps s; released := released s |},
           readPos s, Some (Data entry), DoneCb entry)
  end.

Definition HasMoreData (s : frameSorter) : bool := 0 <? Z.of_nat (size (queue s)).

(** The first loop of [Peek]: is there enough? *)
Fixpoint enough_loop (fuel : nat) (q : gmap Z frameSorterEntry) (pos remaining : Z) : bool :=
  match fuel with
  | O => false
  | S fuel =>
      if remaining <=? 0 then true else
      match q !! pos with
      | None => false
      | Some entry =>
          if remaining <=? entryLen entry then true
          else enough_loop fuel q (i64 (pos + entryLen entry)) (remaining - entryLen entry)
      end
  end.

(** The second loop: [todo] bytes are still to be copied.  Where an entry is
    missing the code would not end; [Peek_spec] shows there is none. *)
Fixpoint copy_loop (fuel : nat) (q : gmap Z frameSorterEntry) (pos : Z) (todo : nat) : bytes :=
  match fuel, todo with
  | S fuel, S _ =>
      match q !! pos with
      | Some entry =>
          let copied := take todo (content (Data entry)) in
          copied ++ copy_loop fuel q (i64 (pos + entryLen entry)) (todo - length copied)
      | None => []
      end
  | _, _ => []
  end.

(** [Peek] of [n] bytes: what is copied into [p] *)
Definition Peek (s : frameSorter) (offset : Z) (n : nat) : outcome bytes :=
  if Nat.eqb n 0 then Ret [] else
  if enough_loop (S n) (queue s) offset (Z.of_nat n)
  then Ret (copy_loop (S n) (queue s) offset n)
  else Err errTooLittleData.

End sorter.
