(* ===== verification/FrameSorterFacts.v ===== *)
(** * The data structures of the frame sorter

    Linked lists without repeated elements; gaps as ascending intervals; the
    queue as a set of tiles that do not overlap.  The loops of [push] clear a
    range of the queue and a range of the gaps, and keep every callback: it
    was called or is still in the queue. *)
From S2P Require Import Prelude Protocol FrameSorter.

Local Open Scope Z_scope.
Local Open Scope go_scope.

(** ** Linked lists *)
Section lists.
Context {T : Type}.
Implicit Types (l pre post : list (nat * T)) (e : nat) (v : T).

Lemma value_of_at pre e v post : e ∉ pre.*1 -> linkedlist.value_of e (pre ++ (e, v) :: post) = Ret v.
Proof.
  induction pre as [|[x w] pre IH]; cbn; [by rewrite Nat.eqb_refl|].
  intros H. destruct (Nat.eqb_spec x e); [set_solver | apply IH; set_solver].
Qed.

Lemma next_of_at pre e v post : e ∉ pre.*1 -> linkedlist.next_of e (pre ++ (e, v) :: post) = fst <$> head post.
Proof.
  induction pre as [|[x w] pre IH]; cbn; [by rewrite Nat.eqb_refl|].
  intros H. destruct (Nat.eqb_spec x e); [set_solver | apply IH; set_solver].
Qed.

Lemma prev_of_at p pre e v post : e ∉ pre.*1 ->
  linkedlist.prev_of p e (pre ++ (e, v) :: post) = match last pre with Some x => Some x.1 | None => p end.
Proof.
  revert p. induction pre as [|[x w] pre IH]; intros p; cbn [app linkedlist.prev_of]; [by rewrite Nat.eqb_refl|].
  intros H. destruct (Nat.eqb_spec x e); [set_solver|]. rewrite IH by set_solver. rewrite last_cons.
  by destruct (last pre).
Qed.

Lemma map_other (f : nat * T -> nat * T) e l : e ∉ l.*1 ->
  map (fun x => if Nat.eqb x.1 e then f x else x) l = l.
Proof.
  induction l as [|[x w] l IH]; cbn; [done|]. intros H.
  destruct (Nat.eqb_spec x e); [set_solver|]. f_equal. apply IH. set_solver.
Qed.

Lemma filter_other e l : e ∉ l.*1 -> List.filter (fun x => negb (Nat.eqb x.1 e)) l = l.
Proof.
  induction l as [|[x w] l IH]; cbn; [done|]. intros H.
  destruct (Nat.eqb_spec x e); [set_solver|]. cbn. f_equal. apply IH. set_solver.
Qed.

Lemma NoDup_at pre e v post : NoDup (pre ++ (e, v) :: post).*1 -> e ∉ pre.*1 /\ e ∉ post.*1.
Proof. rewrite fmap_app. cbn. intros (_ & H & Hc%NoDup_cons)%NoDup_app. set_solver. Qed.

Lemma SetValue_at pre e v post n v' : NoDup (pre ++ (e, v) :: post).*1 ->
  linkedlist.SetValue (Build_List (pre ++ (e, v) :: post) n) e v' = Build_List (pre ++ (e, v') :: post) n.
Proof.
  intros [H1 H2]%NoDup_at. unfold linkedlist.SetValue. cbn [elements allocated]. f_equal.
  rewrite map_app. cbn [map fst]. by rewrite Nat.eqb_refl, !(map_other (fun x => (x.1, v'))).
Qed.

Lemma Remove_at pre e v post n : NoDup (pre ++ (e, v) :: post).*1 ->
  linkedlist.Remove (Build_List (pre ++ (e, v) :: post) n) e = Build_List (pre ++ post) n.
Proof.
  intros [H1 H2]%NoDup_at. unfold linkedlist.Remove. cbn [elements allocated]. f_equal.
  rewrite List.filter_app. cbn [List.filter fst]. by rewrite Nat.eqb_refl, !filter_other.
Qed.

Lemma InsertAfter_at pre e v post n w : e ∉ pre.*1 ->
  linkedlist.InsertAfter (Build_List (pre ++ (e, v) :: post) n) w e
  = Build_List (pre ++ (e, v) :: (n, w) :: post) (S n).
Proof.
  intros H. unfold linkedlist.InsertAfter. cbn [elements allocated]. f_equal.
  induction pre as [|[x u] pre IH]; cbn; [by rewrite Nat.eqb_refl|].
  destruct (Nat.eqb_spec x e); [set_solver|]. f_equal. apply IH. set_solver.
Qed.

End lists.

(** ** Gaps as ascending intervals *)

(** Not empty, from [lo] on, and never touching one another *)
Fixpoint apart (lo : Z) (gs : list byteInterval) : Prop :=
  match gs with
  | [] => True
  | g :: gs => lo <= Start g /\ Start g < End g /\ apart (End g + 1) gs
  end.

Definition top (lo : Z) (gs : list byteInterval) : Z := match last gs with Some g => End g + 1 | None => lo end.

Definition inside (x : Z) (g : byteInterval) : Prop := Start g <= x < End g.
Definition missing (gs : list byteInterval) (x : Z) : Prop := Exists (inside x) gs.

#[global] Instance missing_dec gs x : Decision (missing gs x).
Proof. unfold missing, inside. apply _. Defined.

Lemma top_nil lo : top lo [] = lo.
Proof. done. Qed.
Lemma top_gap lo g gs : top lo (g :: gs) = top (End g + 1) gs.
Proof. unfold top. rewrite last_cons. by destruct (last gs). Qed.
Lemma top_app lo gs hs : top lo (gs ++ hs) = top (top lo gs) hs.
Proof. unfold top. rewrite last_app. by destruct (last hs). Qed.

Lemma apart_app lo gs hs : apart lo (gs ++ hs) <-> apart lo gs /\ apart (top lo gs) hs.
Proof.
  revert lo. induction gs as [|g gs IH]; intros lo; [cbn; tauto|].
  cbn [app apart]. rewrite IH, top_gap. tauto.
Qed.

Lemma apart_mono lo lo' gs : lo' <= lo -> apart lo gs -> apart lo' gs.
Proof. destruct gs; cbn; [done|]. intuition lia. Qed.

Lemma apart_top lo gs : apart lo gs -> lo <= top lo gs.
Proof.
  revert lo. induction gs as [|g gs IH]; intros lo; [rewrite top_nil; lia|].
  cbn [apart]. intros (? & ? & H). rewrite top_gap. apply IH in H. lia.
Qed.

Lemma missing_nil x : missing [] x <-> False.
Proof. unfold missing. by rewrite Exists_nil. Qed.
Lemma missing_cons g gs x : missing (g :: gs) x <-> Start g <= x < End g \/ missing gs x.
Proof. unfold missing. by rewrite Exists_cons. Qed.
Lemma missing_app gs hs x : missing (gs ++ hs) x <-> missing gs x \/ missing hs x.
Proof. unfold missing. by rewrite Exists_app. Qed.

Create Rewrite HintDb gaps.
#[export] Hint Rewrite top_nil top_gap top_app apart_app missing_nil missing_cons missing_app : gaps.
#[export] Hint Rewrite @fmap_app @fmap_cons @fmap_nil : gaps.

Lemma missing_bounds lo gs x : apart lo gs -> missing gs x -> lo <= x < top lo gs - 1.
Proof.
  revert lo. induction gs as [|g gs IH]; intros lo; cbn [apart]; autorewrite with gaps; [done|].
  intros (H1 & H2 & H3) [?|Hm]; [apply apart_top in H3; lia|]. specialize (IH _ H3 Hm). lia.
Qed.

(** A list of gaps is well formed: what is missing ends at [MaxByteCount]. *)
Record wf_gaps (gs : List byteInterval) : Prop := {
  wg_apart : apart 0 (elements gs).*2;
  wg_top : top 0 (elements gs).*2 = MaxByteCount + 1;
  wg_nodup : NoDup (elements gs).*1;
  wg_fresh : Forall (fun e => e < allocated gs)%nat (elements gs).*1;
}.

Definition missing_in (gs : List byteInterval) (x : Z) : Prop := missing (elements gs).*2 x.

(** [gs'] is [gs] without the bytes from [a] up to [b]. *)
Definition gaps_without (gs gs' : List byteInterval) (a b : Z) : Prop :=
  wf_gaps gs' /\ forall x, missing_in gs' x <-> missing_in gs x /\ ~ a <= x < b.

(** The middle of a list of gaps replaced by other gaps *)
Lemma wf_replace pre M X post n n' :
  wf_gaps (Build_List (pre ++ M ++ post) n) ->
  apart (top 0 pre.*2) X.*2 -> top (top 0 pre.*2) X.*2 <= top (top 0 pre.*2) M.*2 ->
  (top (top 0 pre.*2) X.*2 = top (top 0 pre.*2) M.*2 \/ post <> []) ->
  NoDup X.*1 -> (n <= n')%nat -> Forall (fun e => e ∈ M.*1 \/ (n <= e < n')%nat) X.*1 ->
  wf_gaps (Build_List (pre ++ X ++ post) n').
Proof.
  intros [H1 H2 H3 H4] HX Htop Hpost HXd Hn HXi. cbn [elements allocated] in *.
  autorewrite with gaps in *. destruct H1 as (Hpre & HM & Hp).
  apply Forall_app in H4 as [F1 F2]. apply Forall_app in F2 as [F2 F3].
  apply NoDup_app in H3 as (N1 & N12 & N3). apply NoDup_app in N3 as (N2 & N23 & N3).
  rewrite Forall_forall in F1, F2, F3, HXi.
  split; cbn [elements allocated]; autorewrite with gaps.
  - split; [done|]. split; [done|]. by eapply apart_mono.
  - destruct Hpost as [->|Hpost]; [done|]. destruct post as [|p post]; [done|]. cbn [fmap list_fmap] in *.
    by rewrite top_gap in *.
  - apply NoDup_app. split; [done|]. split.
    + intros x Hx [Hx'|Hx']%elem_of_app; [|by apply (N12 x); [done | apply elem_of_app; right]].
      destruct (HXi _ Hx') as [?|?]; [by apply (N12 x); [done | apply elem_of_app; left]|].
      specialize (F1 _ Hx). lia.
    + apply NoDup_app. split; [done|]. split; [|done]. intros x Hx Hx'.
      destruct (HXi _ Hx) as [?|?]; [by apply (N23 x)|]. specialize (F3 _ Hx'). lia.
  - rewrite !Forall_app, !Forall_forall. split; [|split].
    + intros x Hx. specialize (F1 _ Hx). lia.
    + intros x Hx. destruct (HXi _ Hx) as [Hm|?]; [specialize (F2 _ Hm); lia | lia].
    + intros x Hx. specialize (F3 _ Hx). lia.
Qed.

(** *** Finding the gaps around a frame *)

Lemma find_start_spec lo l offset : apart lo l.*2 -> top lo l.*2 = MaxByteCount + 1 -> lo <= MaxByteCount ->
  offset < MaxByteCount ->
  exists pre e g post b, l = pre ++ (e, g) :: post /\ sorter.find_start l offset = Ret (e, b) /\
    top lo pre.*2 <= Z.max lo offset /\
    ((b = true /\ Start g <= offset <= End g) \/ (b = false /\ offset < Start g)).
Proof.
  revert lo. induction l as [|[e g] l IH]; intros lo; cbn [fmap list_fmap apart].
  { rewrite top_nil. lia. }
  rewrite top_gap. cbn [snd]. intros (H1 & H2 & H3) Ht Hlo Ho. cbn [sorter.find_start].
  destruct ((Start g <=? offset) && (offset <=? End g)) eqn:E1.
  { exists [], e, g, l, true. unfold top. cbn. split; [done|]. split; [done|]. split; [lia|]. left. lia. }
  destruct (Z.ltb_spec offset (Start g)).
  { exists [], e, g, l, false. unfold top. cbn. split; [done|]. split; [done|]. split; [lia|]. by right. }
  destruct (IH (End g + 1)) as (pre & e' & g' & post & b & -> & Hf & Htp & Hb); [done.. | |done|].
  { apply apart_top in H3. rewrite Ht in H3. lia. }
  exists ((e, g) :: pre), e', g', post, b. cbn [app fmap list_fmap snd]. rewrite top_gap.
  split; [done|]. split; [done|]. split; [lia | done].
Qed.

Definition stops_in (b : bool) (offset : Z) (eg : byteInterval) (post : list (nat * byteInterval)) : Prop :=
  (b = true /\ offset < End eg) \/
  (b = false /\ End eg <= offset /\ exists k kg post', post = (k, kg) :: post' /\ offset < Start kg).

Lemma find_end_walk fuel n pre rest j jg offset :
  let l := pre ++ (j, jg) :: rest in
  NoDup l.*1 -> apart 0 l.*2 -> top 0 l.*2 = MaxByteCount + 1 -> offset < MaxByteCount ->
  Start jg <= offset -> (length rest < fuel)%nat ->
  exists mid k kg post b, (j, jg) :: rest = mid ++ (k, kg) :: post /\
    sorter.find_end fuel (Build_List l n) (Some j) offset = Ret (Some k, b) /\
    Start kg <= offset /\ stops_in b offset kg post.
Proof.
  cbn zeta. revert pre j jg fuel. induction rest as [|[k kg] rest IH]; intros pre j jg fuel Hnd Ha Ht Ho Hs Hfuel;
    (destruct fuel as [|fuel]; [lia|]); cbn [sorter.find_end linkedlist.Value elements];
    unfold linkedlist.Next, linkedlist.Prev; cbn [elements];
    pose proof (NoDup_at _ _ _ _ Hnd) as [Hn1 Hn2]; rewrite value_of_at by done; rewrite obind_Ret_l.
  - assert (offset < End jg) by (autorewrite with gaps in Ht; cbn [snd] in Ht; lia).
    exists [], j, jg, [], true. cbn [app]. split; [done|]. split; [|split; [done | by left]].
    by rewrite (proj2 (Z.leb_le _ _)), (proj2 (Z.ltb_lt _ _)) by lia.
  - destruct ((Start jg <=? offset) && (offset <? End jg)) eqn:E.
    { exists [], j, jg, ((k, kg) :: rest), true. split; [done|]. split; [done|]. split; [done | left; lia]. }
    rewrite (proj2 (Z.ltb_ge offset (Start jg))) by lia. rewrite next_of_at by done. cbn [head fmap option_fmap option_map fst].
    destruct fuel as [|fuel]; [cbn in Hfuel; lia|]. destruct (Z.ltb_spec offset (Start kg)).
    + exists [], j, jg, ((k, kg) :: rest), false. split; [done|].
      cbn [sorter.find_end linkedlist.Value elements]. unfold linkedlist.Prev. cbn [elements].
      assert (Hpre : pre ++ (j, jg) :: (k, kg) :: rest = (pre ++ [(j, jg)]) ++ (k, kg) :: rest) by by rewrite <- app_assoc.
      rewrite Hpre in Hnd |- *. apply NoDup_at in Hnd as [Hnd _].
      rewrite value_of_at by done. rewrite obind_Ret_l, (proj2 (Z.leb_gt (Start kg) offset)), (proj2 (Z.ltb_lt offset (Start kg))) by lia.
      cbn [andb]. rewrite prev_of_at by done. rewrite last_snoc. split; [done|]. split; [done|].
      right. split; [done|]. split; [lia|]. by exists k, kg, rest.
    + replace (pre ++ (j, jg) :: (k, kg) :: rest) with ((pre ++ [(j, jg)]) ++ (k, kg) :: rest) in * by by rewrite <- app_assoc.
      destruct (IH (pre ++ [(j, jg)]) k kg (S fuel)) as (mid & k' & kg' & post & b & Hm & Hf & Hb); [done..| cbn in *; lia |].
      exists ((j, jg) :: mid), k', kg', post, b. split; [by rewrite Hm|]. by rewrite Hf.
Qed.

Lemma findEndGap_spec gs pre e g post offset : wf_gaps gs -> elements gs = pre ++ (e, g) :: post ->
  offset < MaxByteCount ->
  (offset < Start g /\ sorter.findEndGap gs e offset = Ret (fst <$> last pre, false)) \/
  (exists mid j eg post' b, (e, g) :: post = mid ++ (j, eg) :: post' /\
     sorter.findEndGap gs e offset = Ret (Some j, b) /\ Start eg <= offset /\ stops_in b offset eg post').
Proof.
  intros [H1 H2 H3 _] He Ho. destruct gs as [l n]. cbn [elements] in *. subst l. unfold sorter.findEndGap. cbn [elements].
  destruct (Z.ltb_spec offset (Start g)).
  - left. split; [done|]. rewrite length_app. cbn [length]. rewrite Nat.add_succ_r. cbn [sorter.find_end linkedlist.Value elements].
    apply NoDup_at in H3 as [H3 _]. rewrite value_of_at by done.
    rewrite obind_Ret_l, (proj2 (Z.leb_gt (Start g) offset)), (proj2 (Z.ltb_lt offset (Start g))) by lia. cbn [andb].
    unfold linkedlist.Prev. cbn [elements]. rewrite prev_of_at by done. by destruct (last pre).
  - right. destruct (find_end_walk (length (pre ++ (e, g) :: post)) n pre post e g offset) as (mid & j & eg & post' & b & H4);
      [done..| rewrite length_app; cbn; lia|]. by exists mid, j, eg, post', b.
Qed.

(** ** The queue as a set of tiles *)

Implicit Types (q : gmap Z frameSorterEntry).

(** Entries are not empty and do not overlap. *)
Definition tiles q : Prop :=
  (forall o e, q !! o = Some e -> 0 <= o /\ 0 < entryLen e /\ o + entryLen e <= MaxByteCount) /\
  (forall o e o' e', q !! o = Some e -> q !! o' = Some e' -> o < o' -> o + entryLen e <= o').

(** Byte [x] is in the queue. *)
Definition occupied q (x : Z) : Prop := exists o e, q !! o = Some e /\ o <= x < o + entryLen e.

(** No entry lies across [x]. *)
Definition whole q (x : Z) : Prop := forall o e, q !! o = Some e -> o < x -> o + entryLen e <= x.

(** The queue without the entries that start in a range *)
Definition clear (a b : Z) q : gmap Z frameSorterEntry := filter (fun x => ~ a <= x.1 < b) q.

Lemma lookup_clear a b q o : clear a b q !! o = if decide (a <= o < b) then None else q !! o.
Proof.
  unfold clear. destruct (decide (a <= o < b)).
  - apply map_lookup_filter_None. right. intros e _ H. by apply H.
  - destruct (q !! o) eqn:E; [by apply map_lookup_filter_Some | apply map_lookup_filter_None; by left].
Qed.

Lemma lookup_clear_Some a b q o e : clear a b q !! o = Some e <-> q !! o = Some e /\ ~ a <= o < b.
Proof. rewrite lookup_clear. case_decide; naive_solver. Qed.

Lemma clear_empty a b q : (forall o, a <= o < b -> q !! o = None) -> clear a b q = q.
Proof. intros H. apply map_eq. intros o. rewrite lookup_clear. case_decide; [by rewrite H | done]. Qed.

Lemma clear_join a b c q : a <= b -> b <= c -> clear b c (clear a b q) = clear a c q.
Proof.
  intros. apply map_eq. intros o. rewrite !lookup_clear.
  repeat case_decide; first [done | exfalso; lia].
Qed.

Lemma clear_tiles a b q : tiles q -> tiles (clear a b q).
Proof.
  intros [H1 H2]. split.
  - intros o e [H _]%lookup_clear_Some. by apply H1.
  - intros o e o' e' [H _]%lookup_clear_Some [H' _]%lookup_clear_Some. by apply (H2 o e o' e').
Qed.

Lemma clear_whole a b q x : whole q x -> whole (clear a b q) x.
Proof. intros H o e [Ho _]%lookup_clear_Some. by apply H. Qed.

Lemma clear_occupied a b q x : whole q a -> whole q b -> occupied (clear a b q) x <-> occupied q x /\ ~ a <= x < b.
Proof.
  intros Ha Hb. split.
  - intros (o & e & [H1 H2]%lookup_clear_Some & H3). split; [by exists o, e|].
    intros H4. specialize (Ha _ _ H1). lia.
  - intros [(o & e & H1 & H3) H2]. exists o, e. split; [|done]. apply lookup_clear_Some. split; [done|].
    intros H4. specialize (Hb _ _ H1). lia.
Qed.

Lemma unoccupied_lookup q x : tiles q -> ~ occupied q x -> q !! x = None.
Proof.
  intros [H _] Hn. destruct (q !! x) as [e|] eqn:E; [|done]. destruct (H _ _ E) as (? & ? & ?).
  destruct Hn. exists x, e. split; [done | lia].
Qed.

Lemma unoccupied_whole q x : ~ occupied q x -> whole q x.
Proof. intros Hn o e Ho Hlt. destruct (Z.le_gt_cases (o + entryLen e) x); [done|]. destruct Hn. exists o, e. split; [done | lia]. Qed.

Lemma entry_whole q o e : tiles q -> q !! o = Some e -> whole q o.
Proof. intros [_ H] Ho o' e' Ho' Hlt. by eapply H. Qed.

Lemma whole_unoccupied q x : whole q x -> q !! x = None -> ~ occupied q x.
Proof.
  intros Hw Hn (o & e & Ho & Hx). destruct (decide (o = x)) as [->|]; [congruence|]. specialize (Hw _ _ Ho). lia.
Qed.

Lemma entry_unoccupied q o e x : tiles q -> q !! o = Some e -> ~ occupied q x -> o <= x -> o + entryLen e <= x.
Proof.
  intros Ht Ho Hn Hle. destruct (Z.le_gt_cases (o + entryLen e) x); [done|]. destruct Hn. exists o, e. split; [done | lia].
Qed.

(** *** Callbacks *)

(** The callbacks that wait in the queue, and with them those that were called *)
Definition callbacks q : list nat := omap (fun x => DoneCb x.2) (map_to_list q).
Definition held q (released : list nat) : list nat := released ++ callbacks q.

Lemma callbacks_insert q o e : q !! o = None -> callbacks (<[o := e]> q) ≡ₚ option_list (DoneCb e) ++ callbacks q.
Proof.
  intros H. unfold callbacks. rewrite map_to_list_insert by done. cbn. by destruct (DoneCb e).
Qed.

Lemma callbacks_delete q o e : q !! o = Some e -> callbacks q ≡ₚ option_list (DoneCb e) ++ callbacks (delete o q).
Proof.
  intros H. rewrite <- (insert_delete_id q o e H) at 1. apply callbacks_insert. apply lookup_delete_eq.
Qed.

Lemma call_app doneCb released : call doneCb released = released ++ option_list doneCb.
Proof. destruct doneCb; cbn; [done | by rewrite app_nil_r]. Qed.

Lemma held_delete q o e released : q !! o = Some e ->
  held (delete o q) (call (DoneCb e) released) ≡ₚ held q released.
Proof.
  intros H. unfold held. rewrite (callbacks_delete q o e H), call_app, <- app_assoc. done.
Qed.

(** *** Deleting consecutive entries *)

Lemma delete_tiles q o : tiles q -> tiles (delete o q).
Proof.
  intros [H1 H2]. split.
  - intros o' e [_ H]%lookup_delete_Some. by apply H1.
  - intros a e a' e' [_ H]%lookup_delete_Some [_ H']%lookup_delete_Some. by apply (H2 a e a' e').
Qed.

Lemma delete_clear q o e : tiles q -> q !! o = Some e -> delete o q = clear o (o + entryLen e) q.
Proof.
  intros [H1 H2] Ho. apply map_eq. intros x. rewrite lookup_clear. destruct (H1 _ _ Ho) as (_ & ? & _).
  destruct (decide (x = o)) as [->|].
  - rewrite lookup_delete_eq. case_decide; [done | lia].
  - rewrite lookup_delete_ne by done. case_decide; [|done].
    destruct (q !! x) as [e'|] eqn:E; [|done]. specialize (H2 _ _ _ _ Ho E). lia.
Qed.

Lemma size_delete q o e : q !! o = Some e -> (size (delete o q) < size q)%nat.
Proof.
  intros H. rewrite <- (insert_delete_id q o e H) at 2. rewrite map_size_insert_None by apply lookup_delete_eq. lia.
Qed.

(** What a walk along the entries from [pos] to [b] passes *)
Record passed q (pos b : Z) : Prop := {
  pa_le : pos <= b;
  pa_occupied : forall x, pos <= x < b -> occupied q x;
  pa_whole : whole q pos -> whole q b;
}.

Lemma passed_refl q pos : passed q pos pos.
Proof. split; [lia | intros; lia | done]. Qed.

Lemma passed_step q pos e b : tiles q -> q !! pos = Some e ->
  passed (delete pos q) (pos + entryLen e) b -> passed q pos b.
Proof.
  intros Ht Hp [H1 H2 H3]. destruct (proj1 Ht _ _ Hp) as (? & ? & _).
  assert (Hn : whole q (pos + entryLen e)).
  { intros o e' Ho Hlt. destruct (decide (o = pos)) as [->|]; [assert (e' = e) as -> by congruence; lia|].
    destruct (Z.lt_trichotomy o pos) as [?|[?|?]]; [|lia|].
    - pose proof (proj2 Ht _ _ _ _ Ho Hp). lia.
    - pose proof (proj2 Ht _ _ _ _ Hp Ho). lia. }
  split; [lia| |].
  - intros x Hx. destruct (Z.lt_ge_cases x (pos + entryLen e)); [exists pos, e; split; [done | lia]|].
    destruct (H2 x) as (o & e' & [_ Ho]%lookup_delete_Some & Hx'); [lia|]. by exists o, e'.
  - intros _ o e' Ho Hlt. destruct (decide (o = pos)) as [->|]; [assert (e' = e) as -> by congruence; lia|].
    eapply H3; [|apply lookup_delete_Some; by split|done].
    intros o' e'' [_ Ho']%lookup_delete_Some. by apply Hn.
Qed.

Lemma clear_step q pos e b : tiles q -> q !! pos = Some e -> pos + entryLen e <= b ->
  clear (pos + entryLen e) b (delete pos q) = clear pos b q.
Proof.
  intros Ht Hp Hb. rewrite (delete_clear q pos e) by done.
  destruct (proj1 Ht _ _ Hp) as (? & ? & _). apply clear_join; lia.
Qed.

Lemma delete_entries_spec fuel q released pos : tiles q -> (size q < fuel)%nat ->
  exists b released', sorter.delete_loop fuel q released pos = (clear pos b q, released') /\
    passed q pos b /\ q !! b = None /\ held (clear pos b q) released' ≡ₚ held q released.
Proof.
  revert q released pos. induction fuel as [|fuel IH]; intros q released pos Ht Hf; [lia|].
  cbn [sorter.delete_loop]. destruct (q !! pos) as [e|] eqn:E.
  - destruct (proj1 Ht _ _ E) as (? & ? & ?). rewrite i64_small by (unfold MaxByteCount in *; lia).
    destruct (IH (delete pos q) (call (DoneCb e) released) (pos + entryLen e)) as (b & rel' & Hl & Hp & Hn & Hh).
    { by apply delete_tiles. } { pose proof (size_delete _ _ _ E). lia. }
    assert (Hc : clear (pos + entryLen e) b (delete pos q) = clear pos b q) by (apply clear_step; [done..|apply Hp]).
    rewrite Hc in Hl, Hh. exists b, rel'. split; [done|]. split; [by eapply passed_step|].
    split; [|by rewrite Hh, held_delete]. apply lookup_delete_None in Hn as [<-|]; [|done]. destruct Hp. lia.
  - exists pos, released. rewrite clear_empty by (intros; lia). split; [done|]. split; [apply passed_refl | done].
Qed.

(** [deleteConsecutive] clears up to the next byte that is not there. *)
Lemma deleteConsecutive_spec q released a c : tiles q -> whole q a -> a <= c ->
  (forall x, a <= x < c -> occupied q x) -> ~ occupied q c ->
  exists released', sorter.deleteConsecutive q released a = (clear a c q, released') /\
    held (clear a c q) released' ≡ₚ held q released.
Proof.
  intros Ht Hw Hac Hocc Hn. unfold sorter.deleteConsecutive.
  destruct (delete_entries_spec (S (size q)) q released a) as (b & rel' & -> & [Hp1 Hp2 Hp3] & Hb & Hh); [done | lia|].
  assert (Hnb : ~ occupied q b) by (apply whole_unoccupied; auto).
  assert (b = c) as ->; [|by exists rel'].
  destruct (Z.lt_trichotomy b c) as [?|[?|?]]; [|done|]; [destruct Hnb; apply Hocc; lia | destruct Hn; apply Hp2; lia].
Qed.

Lemma deleteConsecutive_none q released pos : q !! pos = None -> sorter.deleteConsecutive q released pos = (q, released).
Proof. unfold sorter.deleteConsecutive. cbn. by intros ->. Qed.

(** *** Replacing the entries under a frame *)

Definition replaced q (stop pos : Z) (has : bool) (released : list nat) (r : option (gmap Z frameSorterEntry * list nat * Z * bool * bool)) : Prop :=
  match r with
  | None => has = false /\ exists e, q !! pos = Some e /\ stop <= pos + entryLen e
  | Some (q', released', pos', has', wasCut) =>
      q' = clear pos pos' q /\ passed q pos pos' /\ pos' <= stop /\ has' = has || bool_decide (pos < pos') /\
      held q' released' ≡ₚ held q released /\ (pos < pos' -> exists e, q !! pos = Some e) /\
      if (wasCut : bool) then has' = true /\ exists e, q !! pos' = Some e /\ stop < pos' + entryLen e else q !! pos' = None
  end.

Lemma replace_loop_spec fuel stop q released pos has : tiles q -> (size q < fuel)%nat -> pos <= stop ->
  replaced q stop pos has released (sorter.replace_loop fuel stop q released pos has).
Proof.
  revert q released pos has. induction fuel as [|fuel IH]; intros q released pos has Ht Hf Hs; [lia|].
  cbn [sorter.replace_loop]. destruct (q !! pos) as [e|] eqn:E.
  2: { cbn. rewrite clear_empty by (intros; lia). split; [done|]. split; [apply passed_refl|]. split; [done|].
       rewrite bool_decide_eq_false_2 by lia. rewrite orb_false_r. split; [done|]. split; [done|]. split; [lia | done]. }
  destruct (proj1 Ht _ _ E) as (? & ? & ?).
  destruct ((entryLen e <? stop - pos) || (has && (stop - pos =? entryLen e))) eqn:Ec.
  - rewrite i64_small by (unfold MaxByteCount in *; lia).
    specialize (IH (delete pos q) (call (DoneCb e) released) (pos + entryLen e) true).
    unfold replaced in IH |- *.
    destruct (sorter.replace_loop _ _ _ _ _ _) as [((((q' & rel') & pos') & has') & wasCut)|].
    2: { destruct IH as [? _]; [by apply delete_tiles | pose proof (size_delete _ _ _ E); lia | lia | done]. }
    destruct IH as (-> & Hp & Hle & -> & Hh & _ & Hcut);
      [by apply delete_tiles | pose proof (size_delete _ _ _ E); lia | lia |].
    pose proof (pa_le _ _ _ Hp). rewrite clear_step in * by done. split; [done|]. split; [by eapply passed_step|].
    split; [done|]. rewrite (bool_decide_eq_true_2 (pos < pos')) by lia. rewrite orb_true_r. split; [done|].
    split; [by rewrite Hh, held_delete|]. split; [by exists e|]. cbn [orb] in Hcut.
    destruct wasCut.
    + destruct Hcut as (_ & e' & [_ He]%lookup_delete_Some & Hlt). split; [done|]. by exists e'.
    + apply lookup_delete_None in Hcut as [<-|]; [lia | done].
  - destruct has; cbn [negb].
    + cbn. rewrite clear_empty by (intros; lia). split; [done|]. split; [apply passed_refl|]. split; [done|].
      split; [done|]. split; [done|]. split; [lia|]. split; [done|]. exists e. split; [done | lia].
    + cbn. split; [done|]. exists e. split; [done | lia].
Qed.

(** ** Gaps and tiles together *)

Lemma whole_after q x : ~ occupied q (x - 1) -> whole q x.
Proof. intros Hn o e Ho Hlt. destruct (Z.le_gt_cases (o + entryLen e) x); [done|]. destruct Hn. exists o, e. split; [done | lia]. Qed.

(** Clearing further, past a stretch without entries *)
Lemma clear_skip a b b' c q : a <= b <= b' -> b' <= c -> (forall x, b <= x < b' -> q !! x = None) ->
  clear b' c (clear a b q) = clear a c q.
Proof.
  intros ? ? Hn. apply map_eq. intros o. rewrite !lookup_clear.
  repeat case_decide; try done; try lia. apply Hn. lia.
Qed.

(** The start of the first gap of [mid], or of the one after it *)
Definition first_start (mid : list (nat * byteInterval)) (eg : byteInterval) : Z :=
  match mid with [] => Start eg | x :: _ => Start x.2 end.
Definition first_id (mid : list (nat * byteInterval)) (j : nat) : nat :=
  match mid with [] => j | x :: _ => x.1 end.

Lemma first_start_le lo mid eg : apart lo (mid.*2 ++ [eg]) -> lo <= first_start mid eg <= Start eg.
Proof.
  destruct mid as [|[e g] mid]; cbn; [lia|]. intros (HA & HB & H). apply apart_app in H as [H1 [H2 _]].
  apply apart_top in H1. lia.
Qed.

Section gap_loop.
Context (q : gmap Z frameSorterEntry) (Hq : tiles q) (a : Z) (Ha : whole q a).
Context (j : nat) (eg : byteInterval) (post : list (nat * byteInterval)) (n : nat).

(** What [gap_loop] relies on: from [lo] on, the queue has what is not missing. *)
Definition filled (lo : Z) (mid : list (nat * byteInterval)) : Prop :=
  a <= lo /\ apart lo (mid.*2 ++ [eg]) /\
  forall x, lo <= x <= Start eg -> occupied q x <-> ~ missing (mid.*2 ++ [eg]) x.

Lemma filled_first lo mid : filled lo mid -> ~ occupied q (first_start mid eg).
Proof.
  intros (_ & Hap & Hocc). pose proof (first_start_le _ _ _ Hap). rewrite Hocc by lia. intros Hn. apply Hn.
  destruct mid as [|[e g] mid]; cbn in *; rewrite missing_cons; left; lia.
Qed.

Lemma filled_tail lo e g mid : filled lo ((e, g) :: mid) -> filled (End g + 1) mid.
Proof.
  intros (H1 & H2 & H3). cbn in H2, H3. destruct H2 as (? & ? & H2). split; [lia|]. split; [done|].
  intros x Hx. rewrite H3, missing_cons by lia. intuition lia.
Qed.

Lemma filled_between lo e g mid : filled lo ((e, g) :: mid) ->
  whole q (End g) /\ forall x, End g <= x < first_start mid eg -> occupied q x.
Proof.
  intros (H1 & H2 & H3). cbn in H2, H3. destruct H2 as (? & ? & H2).
  pose proof (first_start_le _ _ _ H2). split.
  - apply whole_after. rewrite H3 by lia. intros Hn. apply Hn. rewrite missing_cons. lia.
  - intros x Hx. rewrite H3, missing_cons by lia. intros [?|Hm]; [lia|].
    destruct mid as [|[e' g'] mid]; cbn in Hx, Hm, H2; apply missing_cons in Hm as [?|Hm].
    + lia.
    + by apply missing_nil in Hm.
    + lia.
    + destruct H2 as (_ & ? & H2). apply (missing_bounds _ _ _ H2) in Hm. lia.
Qed.

Lemma gap_loop_spec mid : forall lo pre fuel released,
  NoDup (pre ++ mid ++ (j, eg) :: post).*1 -> filled lo mid -> (length mid < fuel)%nat ->
  exists released', sorter.gap_loop fuel (clear a (first_start mid eg) q) released
      (Build_List (pre ++ mid ++ (j, eg) :: post) n) (Some (first_id mid j)) (Start eg)
    = Ret (clear a (Start eg) q, released', Build_List (pre ++ (j, eg) :: post) n) /\
    held (clear a (Start eg) q) released' ≡ₚ held (clear a (first_start mid eg) q) released.
Proof.
  induction mid as [|[e g] mid IH]; intros lo pre fuel released Hnd Hfill Hfuel; (destruct fuel as [|fuel]; [lia|]);
    cbn [sorter.gap_loop linkedlist.Value elements app first_id first_start fst snd] in *.
  - rewrite value_of_at by apply (NoDup_at _ _ _ _ Hnd). destruct Hfill as (_ & (_ & ? & _) & _).
    rewrite obind_Ret_l, (proj2 (Z.ltb_ge (End eg) (Start eg))) by lia. by exists released.
  - pose proof (NoDup_at _ _ _ _ Hnd) as [Hn _]. rewrite value_of_at by done. rewrite obind_Ret_l.
    pose proof (filled_first _ _ Hfill) as Hf. pose proof (filled_tail _ _ _ _ Hfill) as Ht.
    destruct (filled_between _ _ _ _ Hfill) as [Hw Hb]. pose proof (filled_first _ _ Ht) as Hf'.
    destruct Hfill as (Hlo & Hap & Hocc). cbn in Hap, Hocc. destruct Hap as (? & ? & Hap).
    pose proof (first_start_le _ _ _ Hap) as Hle. cbn [first_start snd] in Hf.
    rewrite (proj2 (Z.ltb_lt (End g) (Start eg))) by lia. unfold linkedlist.Next. cbn [elements]. rewrite next_of_at by done.
    assert (Hc : forall x, Start g <= x -> occupied (clear a (Start g) q) x <-> occupied q x).
    { intros x Hx. rewrite clear_occupied; [intuition lia | done | by apply unoccupied_whole]. }
    destruct (deleteConsecutive_spec (clear a (Start g) q) released (End g) (first_start mid eg)) as (rel1 & -> & Hh1).
    + by apply clear_tiles.
    + by apply clear_whole.
    + lia.
    + intros x Hx. apply Hc; [lia | by apply Hb].
    + by rewrite Hc by lia.
    + rewrite Remove_at by done. assert (Hskip : clear (End g) (first_start mid eg) (clear a (Start g) q) = clear a (first_start mid eg) q).
      { apply clear_skip; [lia.. |]. intros x Hx. apply unoccupied_lookup; [done|]. rewrite Hocc, missing_cons by lia. intros Hm. apply Hm. left. lia. }
      rewrite Hskip in *. destruct (IH (End g + 1) pre fuel rel1) as (rel2 & Hl & Hh2).
      { rewrite fmap_app, fmap_cons in *. apply NoDup_app in Hnd as (N1 & N2 & N3%NoDup_cons).
        apply NoDup_app. split; [done|]. split; [|apply N3]. intros x Hx Hx'. by apply (N2 x); [done | right]. }
      { done. } { cbn in Hfuel. lia. }
      exists rel2. split; [|by rewrite Hh2].
      replace (fst <$> head (mid ++ (j, eg) :: post)) with (Some (first_id mid j)) by (by destruct mid). done.
Qed.
End gap_loop.
