(* ===== verification/FrameSorterPush.v ===== *)
(** * Where the frame sorter puts a frame

    [consistent] relates gaps and queue: what is not missing and not yet read
    is in the queue, once.  [push_spec] says what [push] does to a consistent
    sorter with a frame that ends below 2^62 - 1: it does not panic; either
    nothing of the frame is missing, or there is a part of it, from [a] up to
    [b], that holds all that is missing, and this part takes the place of the
    entries and gaps that were there ([stored]).  The proof follows the code:
    [start_kind] lists how its first loop can end, [middle_same] and
    [middle_apart] what happens to queue and gaps when the frame ends at its
    start gap and at a later one. *)
From S2P Require Import Prelude Protocol FrameSorter FrameSorterFacts.

Local Open Scope Z_scope.
Local Open Scope go_scope.

Record consistent (s : frameSorter) : Prop := {
  co_gaps : wf_gaps (gaps s);
  co_tiles : tiles (queue s);
  co_readPos : 0 <= readPos s;
  co_unread : forall x, missing_in (gaps s) x -> readPos s <= x;
  co_occupied : forall x, occupied (queue s) x <-> readPos s <= x < MaxByteCount /\ ~ missing_in (gaps s) x;
}.

(** ** Slices of a slice *)

Definition sub (d : slice) (lo hi : Z) : slice :=
  {| buffer := buffer d; content := take (Z.to_nat (hi - lo)) (drop (Z.to_nat lo) (content d)) |}.

Lemma sub_all d : sub d 0 (len (content d)) = d.
Proof.
  destruct d as [b l]. unfold sub, len. cbn. rewrite drop_0. f_equal. rewrite take_ge; [done | lia].
Qed.

Lemma len_sub d lo hi : 0 <= lo <= hi -> hi <= len (content d) -> len (content (sub d lo hi)) = hi - lo.
Proof. intros. unfold sub, len in *. cbn. rewrite length_take, length_drop. lia. Qed.

Lemma cut_sub d lo hi x y : 0 <= lo <= hi -> hi <= len (content d) -> 0 <= x <= y -> y <= hi - lo ->
  cut (sub d lo hi) x y = Ret (sub d (lo + x) (lo + y)).
Proof.
  intros. unfold cut. rewrite len_sub by lia.
  rewrite (proj2 (Z.leb_le 0 x)), (proj2 (Z.leb_le x y)), (proj2 (Z.leb_le y (hi - lo))) by lia. cbn [andb].
  unfold sub at 2. f_equal. unfold sub. cbn. f_equal. rewrite skipn_firstn_comm, drop_drop, take_take.
  repeat f_equal; lia.
Qed.

(** ** Where a frame goes *)

(** What [Push] stores of a frame: the bytes from [a] up to [b], in the frame's
    own buffer with its callback, or in a copy without one *)
Definition entry_of (data : slice) (offset : Z) (cb : option nat) (a b : Z) (e : frameSorterEntry) : Prop :=
  content (Data e) = content (sub data (a - offset) (b - offset)) /\
  ((buffer (Data e) = buffer data /\ DoneCb e = cb) \/ (buffer (Data e) = None /\ DoneCb e = None)).

Record stored (s s' : frameSorter) (data : slice) (offset : Z) (cb : option nat) (err : option goerror)
    (a b : Z) : Prop := {
  so_range : offset <= a < b /\ b <= offset + len (content data);
  so_rest : forall x, offset <= x < offset + len (content data) -> ~ a <= x < b -> ~ missing_in (gaps s) x;
  so_whole : whole (queue s) a /\ whole (queue s) b;
  so_readPos : readPos s <= a /\ readPos s' = readPos s;
  so_gaps : gaps_without (gaps s) (gaps s') a b;
  so_entry : exists e, entry_of data offset cb a b e /\
    held (clear a b (queue s)) (released s') ++ option_list (DoneCb e)
      ≡ₚ held (queue s) (released s) ++ option_list cb /\
    match err with
    | None => queue s' = <[a := e]> (clear a b (queue s)) /\ linkedlist.Len (gaps s') <= MaxStreamFrameSorterGaps
    | Some err => err = sorter.errTooManyGaps /\ queue s' = clear a b (queue s) /\
                  MaxStreamFrameSorterGaps < linkedlist.Len (gaps s')
    end;
}.

Lemma occupied_of_gap s x : consistent s -> missing_in (gaps s) x -> ~ occupied (queue s) x.
Proof. intros C Hm. rewrite (co_occupied s C). tauto. Qed.

Lemma missing_at s x pre e g post : elements (gaps s) = pre ++ (e, g) :: post -> Start g <= x < End g ->
  missing_in (gaps s) x.
Proof. intros He Hx. unfold missing_in. rewrite He. autorewrite with gaps. right. by left. Qed.

Lemma gap_no_key s x pre e g post : consistent s -> elements (gaps s) = pre ++ (e, g) :: post ->
  Start g <= x < End g -> queue s !! x = None.
Proof.
  intros C He Hx. apply unoccupied_lookup; [apply C|]. eapply occupied_of_gap; [done|]. by eapply missing_at.
Qed.

(** ** A frame and its start gap *)
Section start.
Context (s : frameSorter) (C : consistent s).
Context (pre : list (nat * byteInterval)) (i : nat) (sg : byteInterval) (post : list (nat * byteInterval)).
Context (He : elements (gaps s) = pre ++ (i, sg) :: post).

Lemma start_facts : 0 <= top 0 pre.*2 <= Start sg /\ Start sg < End sg /\ apart (End sg + 1) post.*2 /\
  top (End sg + 1) post.*2 = MaxByteCount + 1 /\ apart 0 pre.*2 /\ End sg <= MaxByteCount.
Proof using C He.
  destruct (co_gaps s C) as [H1 H2 _ _]. rewrite He in H1, H2. autorewrite with gaps in H1, H2. cbn [apart snd] in H1, H2.
  destruct H1 as (Hp & H3 & H4 & H5). pose proof (apart_top _ _ Hp). pose proof (apart_top _ _ H5).
  do 5 (split; [done || lia|]). lia.
Qed.

Lemma missing_iff x : missing_in (gaps s) x <-> missing pre.*2 x \/ Start sg <= x < End sg \/ missing post.*2 x.
Proof using He. unfold missing_in. rewrite He. autorewrite with gaps. done. Qed.

Lemma not_missing_before x : top 0 pre.*2 - 1 <= x < Start sg -> ~ missing_in (gaps s) x.
Proof using C He.
  intros Hx. pose proof start_facts as (? & ? & Hp & ? & Hpre & _). rewrite missing_iff. intros [Hm|[Hm|Hm]]; [|lia|].
  - apply (missing_bounds _ _ _ Hpre) in Hm. lia.
  - apply (missing_bounds _ _ _ Hp) in Hm. lia.
Qed.

(** The start of the next gap: no byte is missing until there. *)
Lemma next_facts k kg post' : post = (k, kg) :: post' -> End sg < Start kg < End kg /\ End kg <= MaxByteCount /\
  missing_in (gaps s) (Start kg) /\ forall x, End sg <= x < Start kg -> ~ missing_in (gaps s) x.
Proof using C He.
  intros Hpost. pose proof start_facts as (? & ? & Hp & Ht & Hpre & _). rewrite Hpost in Hp, Ht. cbn in Hp.
  autorewrite with gaps in Ht. cbn in Ht. destruct Hp as (? & ? & Hp). pose proof (apart_top _ _ Hp).
  split; [lia|]. split; [lia|]. split.
  - apply missing_iff. right. right. rewrite Hpost. autorewrite with gaps. left. cbn. lia.
  - intros x Hx. rewrite missing_iff, Hpost. autorewrite with gaps. cbn. intros [Hm|[?|[?|Hm]]]; [|lia..|].
    + apply (missing_bounds _ _ _ Hpre) in Hm. lia.
    + apply (missing_bounds _ _ _ Hp) in Hm. lia.
Qed.

Lemma end_whole : whole (queue s) (End sg).
Proof using C He.
  pose proof start_facts as (? & ? & _). apply whole_after, occupied_of_gap; [done|]. apply missing_iff. lia.
Qed.

(** The four ways the first loop of [push] can leave a frame that begins at
    [start] and ends at [stop] *)
Inductive start_kind (start stop pos : Z) (has wasCut : bool) (mid : bool) : Z -> Z -> Prop :=
  | in_gap start1 : has = false -> wasCut = false -> pos = start -> Start sg <= start1 < End sg ->
      start <= start1 -> (start = start1 \/ start < Start sg /\ start1 = Start sg) ->
      start_kind start stop pos has wasCut mid start1 stop
  | before_gap : whole (queue s) start -> readPos s <= start -> has = true -> wasCut = false -> start < Start sg -> pos = Start sg ->
      start_kind start stop pos has wasCut mid start stop
  | after_gap : whole (queue s) start -> readPos s <= start -> has = true -> wasCut = true -> start = End sg -> End sg < pos <= stop -> mid = false ->
      whole (queue s) pos -> (forall x, End sg <= x < pos -> ~ missing_in (gaps s) x) ->
      (forall x, pos <= x < stop -> ~ missing_in (gaps s) x) ->
      start_kind start stop pos has wasCut mid start pos
  | past_gap k kg post' : whole (queue s) start -> readPos s <= start -> has = true -> wasCut = false -> start = End sg -> post = (k, kg) :: post' -> mid = true ->
      pos = Start kg -> start_kind start stop pos has wasCut mid start stop.

Context (start stop : Z) (Hstart : 0 <= start < stop) (Hstop : stop < MaxByteCount).
Context (Hpre : top 0 pre.*2 <= Z.max 0 start) (Hsg : Start sg < stop).
Context (mid : list (nat * byteInterval)) (j : nat) (eg : byteInterval) (post' : list (nat * byteInterval)) (endsInGap : bool).
Context (Hmid : (i, sg) :: post = mid ++ (j, eg) :: post') (Heg : Start eg <= stop) (Hin : stops_in endsInGap stop eg post').

Lemma same_gap : i = j <-> mid = [].
Proof using C He Hmid.
  clear - C He Hmid. destruct mid as [|x mid']; [cbn in Hmid; naive_solver|]. split; [|done]. intros <-. exfalso.
  injection Hmid as <- Hp. pose proof (wg_nodup _ (co_gaps s C)) as Hnd. rewrite He, Hp in Hnd.
  apply NoDup_at in Hnd as [_ Hnd]. apply Hnd. rewrite fmap_app. set_solver.
Qed.

Lemma before_occupied x : occupied (queue s) start -> start <= x < Start sg -> occupied (queue s) x.
Proof using C He Hpre Hstart Hsg Hstop.
  intros Ho Hx. pose proof start_facts as (? & ? & _ & _ & _ & ?).
  rewrite (co_occupied s C) in Ho |- *. split; [lia|]. apply not_missing_before. lia.
Qed.

(** The end gap is the start gap when the frame ends before the next gap. *)
Lemma same_before k kg post2 : post = (k, kg) :: post2 -> mid = [] <-> stop < Start kg.
Proof using C He Hmid Heg Hin.
  intros Epost. pose proof start_facts as (_ & _ & Hpost & _). rewrite Epost in Hmid, Hpost.
  clear - Hmid Hpost Heg Hin. destruct mid as [|x mid'].
  - cbn in Hmid. injection Hmid as <- <- <-. split; [|done]. intros _. cbn in Hpost.
    destruct Hin as [[_ ?]|(_ & _ & k' & kg' & p' & [= <- <- <-] & ?)]; lia.
  - split; [done|]. intros Hlt'. exfalso. injection Hmid as _ Hm. cbn in Hpost.
    destruct mid' as [|y mid'']; [injection Hm as -> -> ->; lia|]. injection Hm as <- Hm.
    destruct Hpost as (_ & ? & Hpost). rewrite Hm in Hpost. autorewrite with gaps in Hpost. cbn in Hpost.
    destruct Hpost as (Hq1 & Hq2 & _). apply apart_top in Hq1. lia.
Qed.

Lemma has_next : End sg < MaxByteCount -> exists k kg post2, post = (k, kg) :: post2.
Proof using C He.
  intros Hlt. pose proof start_facts as (_ & _ & _ & Htop & _). clear - Hlt Htop.
  destruct post as [|[k kg] post2] eqn:Epost; [unfold top in Htop; cbn in Htop; lia|]. by exists k, kg, post2.
Qed.

Lemma start_phase b q1 rel1 pos has wasCut :
  (b = true /\ Start sg <= start <= End sg) \/ (b = false /\ start < Start sg) ->
  replaced (queue s) stop start false (released s) (Some (q1, rel1, pos, has, wasCut)) ->
  start_kind start stop pos has wasCut (negb (Nat.eqb i j))
    (if negb b && negb has then Start sg else start) (if wasCut then pos else stop).
Proof using C He Hstart Hstop Hpre Hsg Hmid Heg Hin.
  intros Hb (-> & [Hp1 Hp2 Hp3] & Hle & Hhas & _ & Hex & Hcut). cbn [orb] in Hhas.
  pose proof start_facts as (Ht & Hsg' & _ & _ & _ & Hmax). pose proof (co_tiles s C) as Htiles.
  destruct (Z.lt_ge_cases start pos) as [Hlt|Hge].
  - rewrite bool_decide_eq_true_2 in Hhas by done. subst has. rewrite andb_false_r.
    destruct (Hex Hlt) as (e & Hentry). pose proof (entry_whole _ _ _ Htiles Hentry) as Hws. specialize (Hp3 Hws).
    assert (Hos : occupied (queue s) start) by (apply Hp2; lia).
    pose proof Hos as Hos'. rewrite (co_occupied s C) in Hos'. destruct Hos' as [Hrd Hns].
    assert (Hout : start < Start sg \/ start = End sg).
    { destruct (Z.lt_ge_cases start (Start sg)); [by left | right]. destruct (Z.lt_ge_cases start (End sg)); [|lia].
      destruct Hns. apply missing_iff. lia. }
    destruct Hout as [Hlo|Heq].
    + assert (Hns' : ~ occupied (queue s) (Start sg)) by (apply occupied_of_gap; [done | apply missing_iff; lia]).
      assert (Hps : pos <= Start sg).
      { destruct (Z.le_gt_cases pos (Start sg)); [done|]. destruct Hns'. apply Hp2. lia. }
      destruct wasCut.
      * destruct Hcut as (_ & e' & He' & Hlt'). exfalso. pose proof (entry_unoccupied _ _ _ _ Htiles He' Hns' Hps). lia.
      * apply before_gap; [done|lia|done..|]. destruct (Z.lt_ge_cases pos (Start sg)); [|lia].
        exfalso. by apply (whole_unoccupied _ _ Hp3), before_occupied; [..|lia].
    + destruct has_next as (k & kg & post2 & Epost); [lia|].
      destruct (next_facts _ _ _ Epost) as (Hk & Hkm & Hkmiss & Hbetween). pose proof (same_before _ _ _ Epost) as Hsame.
      assert (Hnk : ~ occupied (queue s) (Start kg)) by by apply occupied_of_gap.
      assert (Hpk : pos <= Start kg). { destruct (Z.le_gt_cases pos (Start kg)); [done|]. destruct Hnk. apply Hp2. lia. }
      destruct wasCut.
      * destruct Hcut as (_ & e' & He' & Hlt'). pose proof (entry_unoccupied _ _ _ _ Htiles He' Hnk Hpk).
        assert (Hm : mid = []) by (apply Hsame; lia). apply same_gap in Hm. rewrite (proj2 (Nat.eqb_eq i j)) by done.
        apply after_gap; [done|lia|done..|lia|done|done| |]; intros x Hx; apply Hbetween; lia.
      * destruct (Z.lt_ge_cases pos (Start kg)) as [Hlt'|Hge'].
        { exfalso. apply (whole_unoccupied _ _ Hp3 Hcut). rewrite (co_occupied s C). split; [lia|]. apply Hbetween. lia. }
        eapply past_gap; [done|lia|done..| |lia]. destruct (Nat.eqb_spec i j) as [Hij|]; [|done].
        apply same_gap in Hij. apply Hsame in Hij. lia.
  - assert (pos = start) as -> by lia. rewrite bool_decide_eq_false_2 in Hhas by lia. subst has.
    destruct wasCut; [by destruct Hcut|]. rewrite andb_true_r.
    destruct Hb as [[-> Hb]|[-> Hb]]; cbn [negb]; apply in_gap; try done; try lia.
    destruct (Z.lt_ge_cases start (End sg)); [lia|]. exfalso. assert (start = End sg) as Heq by lia.
    apply (whole_unoccupied (queue s) start); [rewrite Heq; apply end_whole | done|]. rewrite (co_occupied s C).
    destruct has_next as (k & kg & post2 & Epost); [lia|].
    destruct (next_facts _ _ _ Epost) as (Hk & Hkm & Hkmiss & Hbetween). split; [|apply Hbetween; lia].
    assert (readPos s <= End sg - 1) by (apply (co_unread s C), missing_iff; lia). lia.
Qed.

(** What the parts of the frame that are not stored have in common: nothing of
    them is missing. *)
Lemma kind_facts pos has wasCut m start1 stop1 : start_kind start stop pos has wasCut m start1 stop1 ->
  start <= start1 /\ start1 < stop1 <= stop /\ whole (queue s) start1 /\ readPos s <= start1 /\
  (forall x, start <= x < start1 -> ~ missing_in (gaps s) x) /\
  (forall x, stop1 <= x < stop -> ~ missing_in (gaps s) x) /\
  (forall x, missing pre.*2 x -> x < start1).
Proof using C He Hstart Hstop Hpre Hsg.
  pose proof start_facts as (Ht & Hsg' & _ & _ & Hap & Hmax).
  assert (Hb : forall x, missing pre.*2 x -> x < start) by (intros x Hx; apply (missing_bounds _ _ _ Hap) in Hx; lia).
  intros [start1' -> -> -> Hs1 Hs2 Hs3 | Hw Hr -> -> Hlo -> | Hw Hr -> -> Heq Hpos -> _ Hrest Hrest' | k kg p2 Hw Hr -> -> Heq _ -> ->].
  - split; [lia|]. split; [lia|]. split.
    { apply unoccupied_whole, occupied_of_gap; [done|]. apply missing_iff. lia. }
    split; [apply (co_unread s C), missing_iff; lia|]. split; [|split; [intros; lia|]].
    + intros x Hx. apply not_missing_before. lia.
    + intros x Hx%Hb. lia.
  - do 4 (split; [done || lia|]). split; [intros; lia|]. split; [intros; lia|]. done.
  - do 4 (split; [done || lia|]). split; [intros; lia|]. split; [done|]. done.
  - do 4 (split; [done || lia|]). split; [intros; lia|]. split; [intros; lia|]. done.
Qed.

End start.

(** ** The end of a frame *)

Lemma tail_facts s pre j eg post stop endsInGap : consistent s -> elements (gaps s) = pre ++ (j, eg) :: post ->
  0 <= stop < MaxByteCount -> Start eg <= stop -> stops_in endsInGap stop eg post ->
  let b := if negb endsInGap && (End eg <? stop) then End eg else stop in
  b = Z.min stop (End eg) /\ Start eg <= b <= End eg /\ whole (queue s) b /\
  (forall x, b <= x < stop -> ~ missing_in (gaps s) x) /\ (forall x, missing post.*2 x -> b <= x).
Proof.
  intros C He Hstop Hlo Hin. pose proof (start_facts _ C _ _ _ _ He) as (_ & Hlt & Hap & _).
  assert (Hp : forall x, missing post.*2 x -> End eg + 1 <= x) by (intros x Hx; apply (missing_bounds _ _ _ Hap) in Hx; lia).
  destruct Hin as [[-> Hin]|(-> & Hge & k & kg & post' & -> & Hlt')]; cbn [negb andb].
  - split; [lia|]. split; [lia|]. split; [|split; [intros; lia | intros x Hx%Hp; lia]].
    apply unoccupied_whole, occupied_of_gap; [done|]. eapply missing_at; [done|]. lia.
  - assert (Hb : (if End eg <? stop then End eg else stop) = End eg) by (destruct (Z.ltb_spec (End eg) stop); lia).
    rewrite Hb. split; [lia|]. split; [lia|]. split; [by eapply end_whole|]. split; [|intros x Hx%Hp; lia].
    intros x Hx. destruct (next_facts _ C _ _ _ _ He _ _ _ eq_refl) as (_ & _ & _ & H). apply H. lia.
Qed.

(** *** Changing the list of gaps *)

Lemma gap_surgery gs pre M X post n' a b : wf_gaps gs -> elements gs = pre ++ M ++ post ->
  apart (top 0 pre.*2) X.*2 -> top (top 0 pre.*2) X.*2 <= top (top 0 pre.*2) M.*2 ->
  (top (top 0 pre.*2) X.*2 = top (top 0 pre.*2) M.*2 \/ post <> []) ->
  NoDup X.*1 -> (allocated gs <= n')%nat -> Forall (fun e => e ∈ M.*1 \/ (allocated gs <= e < n')%nat) X.*1 ->
  (forall x, missing X.*2 x <-> missing M.*2 x /\ ~ a <= x < b) ->
  (forall x, missing pre.*2 x \/ missing post.*2 x -> ~ a <= x < b) ->
  gaps_without gs (Build_List (pre ++ X ++ post) n') a b.
Proof.
  intros Hwf He H1 H2 H3 H4 H5 H6 HX Hout. split.
  - destruct gs as [l n]. cbn [elements allocated] in *. subst l. by eapply wf_replace.
  - intros x. unfold missing_in. rewrite He. cbn [elements]. autorewrite with gaps. rewrite HX.
    specialize (Hout x). tauto.
Qed.

Lemma close_same s pre i sg post a b stop1 has : consistent s -> elements (gaps s) = pre ++ (i, sg) :: post ->
  b = Z.min stop1 (End sg) -> a < b -> Start sg < b -> (a <= Start sg \/ has = false) ->
  (b = End sg -> post <> []) ->
  (forall x, missing pre.*2 x -> x < a) -> (forall x, missing post.*2 x -> b <= x) ->
  let '(gs, adjusted) := sorter.close_start (gaps s) i sg a stop1 has in
  gaps_without (gaps s) (sorter.close_end gs i i sg b (End sg) adjusted) a b.
Proof.
  intros C He Hb Hab Hsb Hhas Hlast Hpre Hpost. pose proof (start_facts _ C _ _ _ _ He) as (Ht & Hlt & _).
  assert (Hout : forall x, missing pre.*2 x \/ missing post.*2 x -> ~ a <= x < b)
    by (intros x [Hx%Hpre|Hx%Hpost]; lia).
  pose proof (co_gaps s C) as Hwf. pose proof (wg_nodup _ Hwf) as Hnd. pose proof (wg_fresh _ Hwf) as Hfresh.
  destruct (gaps s) as [l n] eqn:Egs. cbn [elements allocated] in He, Hnd, Hfresh. subst l.
  assert (Hi : (i < n)%nat).
  { rewrite fmap_app, fmap_cons, Forall_app, Forall_cons in Hfresh. apply Hfresh. }
  pose proof (NoDup_at _ _ _ _ Hnd) as [Hn1 Hn2].
  assert (Hgo : forall X n', apart (top 0 pre.*2) X.*2 -> top (top 0 pre.*2) X.*2 <= End sg + 1 ->
    (top (top 0 pre.*2) X.*2 = End sg + 1 \/ b = End sg) -> NoDup X.*1 -> (n <= n')%nat ->
    Forall (fun e => e = i \/ (n <= e < n')%nat) X.*1 ->
    (forall x, missing X.*2 x <-> Start sg <= x < End sg /\ ~ a <= x < b) ->
    gaps_without (Build_List (pre ++ (i, sg) :: post) n) (Build_List (pre ++ X ++ post) n') a b).
  { intros X n' G1 G2 G3 G4 G5 G6 G7. apply (gap_surgery _ pre [(i, sg)] X post); try done; autorewrite with gaps; cbn [snd].
    - destruct G3; [by left | right; auto].
    - eapply Forall_impl; [exact G6|]. cbn. intros e [->|?]; [left; set_solver | by right].
    - intros x. rewrite G7. autorewrite with gaps. cbn. tauto. }
  unfold sorter.close_start, sorter.close_end. rewrite Nat.eqb_refl. cbn [negb andb].
  destruct (Z.leb_spec a (Start sg)) as [Ha|Ha].
  - destruct (Z.leb_spec (End sg) stop1) as [Hs|Hs].
    + rewrite (proj2 (Z.eqb_eq b (End sg))) by lia. rewrite Remove_at by done.
      apply (Hgo [] n); cbn; autorewrite with gaps; try done; [lia | right; lia | constructor|].
      intros x. autorewrite with gaps. lia.
    + rewrite (proj2 (Z.eqb_neq b (End sg))), SetValue_at by (done || lia). assert (b = stop1) as -> by lia.
      apply (Hgo [(i, _)] n); cbn; autorewrite with gaps; cbn; [lia | lia | by left | | done | | ].
      * apply NoDup_singleton.
      * constructor; [by left | constructor].
      * intros x. autorewrite with gaps. cbn. lia.
  - destruct Hhas as [?| ->]; [lia|]. cbn [negb]. rewrite SetValue_at by done.
    destruct (Z.eqb_spec b (End sg)) as [Hs|Hs].
    + apply (Hgo [(i, _)] n); cbn; autorewrite with gaps; cbn; [lia | lia | by right | | done | | ].
      * apply NoDup_singleton.
      * constructor; [by left | constructor].
      * intros x. autorewrite with gaps. cbn. lia.
    + rewrite InsertAfter_at by done.
      apply (Hgo [(i, _); (n, _)] (S n)); cbn; autorewrite with gaps; cbn; [lia | lia | by left | | lia | | ].
      * apply NoDup_cons. split; [rewrite list_elem_of_singleton; lia | apply NoDup_singleton].
      * constructor; [by left | constructor; [right; lia | constructor]].
      * intros x. autorewrite with gaps. cbn. lia.
Qed.

(** What is left of a gap before [a] *)
Definition trim (i : nat) (sg : byteInterval) (a : Z) : list (nat * byteInterval) :=
  if a <=? Start sg then [] else [(i, {| Start := Start sg; End := a |})].

Lemma close_start_trim s pre i sg post a stop1 has : consistent s -> elements (gaps s) = pre ++ (i, sg) :: post ->
  End sg <= stop1 -> a <= End sg -> (has = true -> a <= Start sg \/ a = End sg) ->
  (sorter.close_start (gaps s) i sg a stop1 has).1 = Build_List (pre ++ trim i sg a ++ post) (allocated (gaps s)).
Proof.
  intros C He Hs Ha Hhas. pose proof (wg_nodup _ (co_gaps s C)) as Hnd.
  destruct (gaps s) as [l n] eqn:Egs. cbn [elements allocated] in *. subst l.
  unfold sorter.close_start, trim. destruct (Z.leb_spec a (Start sg)).
  - rewrite (proj2 (Z.leb_le (End sg) stop1)) by done. cbn [fst]. by rewrite Remove_at.
  - destruct has; cbn [negb fst].
    + destruct Hhas as [?| ->]; [done|lia|]. by destruct sg.
    + by rewrite SetValue_at.
Qed.

Lemma trim_ids i sg a : (trim i sg a).*1 = if a <=? Start sg then [] else [i].
Proof. unfold trim. by destruct (a <=? Start sg). Qed.

Lemma trim_nodup pre i sg a l : NoDup (pre ++ (i, sg) :: l).*1 -> NoDup (pre ++ trim i sg a ++ l).*1.
Proof.
  rewrite !fmap_app, fmap_cons, trim_ids. destruct (a <=? Start sg); [|done]. cbn [app fst].
  intros H. eapply sublist_NoDup; [exact H|]. by apply sublist_app, sublist_cons.
Qed.

Lemma close_apart s pre i sg mid j eg post a b startGapEnd adjusted : consistent s ->
  elements (gaps s) = pre ++ (i, sg) :: mid ++ (j, eg) :: post -> a <= End sg -> Start eg <= b <= End eg ->
  (b = End eg -> post <> []) -> (forall x, missing pre.*2 x -> x < a) ->
  gaps_without (gaps s)
    (sorter.close_end (Build_List (pre ++ trim i sg a ++ (j, eg) :: post) (allocated (gaps s))) i j eg b startGapEnd adjusted) a b.
Proof.
  intros C He Ha Hb Hlast Hpre.
  assert (He' : elements (gaps s) = pre ++ ((i, sg) :: mid ++ [(j, eg)]) ++ post) by (rewrite He; cbn; by rewrite <- app_assoc).
  pose proof (start_facts _ C _ _ _ _ He) as (Ht & Hlt & Hap & _).
  pose proof (co_gaps s C) as Hwf. pose proof (wg_nodup _ Hwf) as Hnd. rewrite He' in Hnd.
  autorewrite with gaps in Hnd, Hap. cbn in Hap. destruct Hap as (Hmid & Hmt & Hlt' & Hpost).
  apply NoDup_app in Hnd as (Hnd1 & Hnd2 & Hnd3). apply NoDup_app in Hnd3 as (Hnd4 & Hnd5 & Hnd6).
  assert (Hij : i <> j) by (intros ->; apply NoDup_cons in Hnd4 as [Hn _]; apply Hn; set_solver).
  pose proof (apart_top _ _ Hmid) as Hmt'.
  assert (Hm : forall x, missing mid.*2 x -> End sg < x < Start eg) by (intros x Hx; apply (missing_bounds _ _ _ Hmid) in Hx; lia).
  assert (Hout : forall x, missing pre.*2 x \/ missing post.*2 x -> ~ a <= x < b).
  { intros x [Hx%Hpre|Hx]; [lia|]. apply (missing_bounds _ _ _ Hpost) in Hx. lia. }
  assert (HP : forall Q, apart (Start eg) Q.*2 -> top (Start eg) Q.*2 <= End eg + 1 ->
    ((Q = [] /\ b = End eg) \/ (exists g, Q = [(j, g)] /\ End g = End eg /\ Start g = b)) ->
    gaps_without (gaps s) (Build_List (pre ++ (trim i sg a ++ Q) ++ post) (allocated (gaps s))) a b).
  { intros Q HQ1 HQ2 HQ. apply (gap_surgery _ pre ((i, sg) :: mid ++ [(j, eg)]) _ post); try done; autorewrite with gaps; cbn [snd].
    - unfold trim. destruct (Z.leb_spec a (Start sg)); cbn; autorewrite with gaps; cbn; [split; [done|]|split; [lia|]];
        (eapply apart_mono; [|exact HQ1]); lia.
    - destruct HQ as [[-> _]|(g & -> & Hg & _)]; cbn; autorewrite with gaps; cbn; [|lia].
      unfold trim. destruct (Z.leb_spec a (Start sg)); cbn; autorewrite with gaps; cbn; lia.
    - destruct HQ as [[_ Hend]|(g & -> & Hg & _)]; [right; auto | left]. cbn. autorewrite with gaps. cbn. lia.
    - unfold trim. destruct HQ as [[-> _]|(g & -> & _)], (Z.leb_spec a (Start sg)); cbn;
        first [apply NoDup_singleton | apply NoDup_cons; split; [set_solver | apply NoDup_singleton] | apply NoDup_nil_2].
    - unfold trim. destruct HQ as [[-> _]|(g & -> & _)], (Z.leb_spec a (Start sg)); cbn;
        apply Forall_forall; intros x Hx; left; set_solver.
    - intros x. specialize (Hm x). unfold trim.
      destruct HQ as [[-> Hend]|(g & -> & Hg & Hg')], (Z.leb_spec a (Start sg)); cbn; autorewrite with gaps; cbn; intuition lia. }
  unfold sorter.close_end. rewrite (proj2 (Nat.eqb_neq i j)) by done. cbn [negb andb].
  assert (Hnd' : NoDup ((pre ++ trim i sg a) ++ (j, eg) :: post).*1).
  { rewrite <- app_assoc. apply trim_nodup. pose proof (wg_nodup _ Hwf) as Hnd. rewrite He in Hnd.
    eapply sublist_NoDup; [exact Hnd|]. by apply fmap_sublist, sublist_app, sublist_skip, sublist_inserts_l. }
  rewrite (app_assoc pre). destruct (Z.eqb_spec b (End eg)) as [Hbe|Hbe].
  - rewrite Remove_at by done. specialize (HP []). rewrite app_nil_r, app_assoc in HP. apply HP; cbn; [done | unfold top; cbn; lia | by left].
  - rewrite SetValue_at by done. specialize (HP [(j, {| Start := b; End := End eg |})]).
    rewrite <- !app_assoc in HP |- *. apply HP; cbn; [lia | unfold top; cbn; lia | right; by eexists].
Qed.

(** ** [push] *)

Section push.
Context (s : frameSorter) (C : consistent s) (data : slice) (start : Z) (cb : option nat).
Let stop : Z := start + len (content data).
Context (Hstart : 0 <= start < stop) (Hstop : stop < MaxByteCount).
Context (pre : list (nat * byteInterval)) (i : nat) (sg : byteInterval) (post : list (nat * byteInterval)).
Context (He : elements (gaps s) = pre ++ (i, sg) :: post).
Context (Hpre : top 0 pre.*2 <= Z.max 0 start) (Hsg : Start sg < stop).
Context (mid : list (nat * byteInterval)) (j : nat) (eg : byteInterval) (post' : list (nat * byteInterval)).
Context (endsInGap : bool).
Context (Hmid : (i, sg) :: post = mid ++ (j, eg) :: post') (Heg : Start eg <= stop) (Hin : stops_in endsInGap stop eg post').

Definition end_of (start1 stop1 : Z) : Z :=
  if negb endsInGap && negb (start1 =? End eg) && (End eg <? stop1) then End eg else stop1.

Lemma He_end : elements (gaps s) = (pre ++ take (length mid) ((i, sg) :: post)) ++ (j, eg) :: post'.
Proof using He Hmid. rewrite <- app_assoc, Hmid, take_app_length, <- Hmid. done. Qed.

Lemma not_last_gap : End eg <= stop -> post' <> [].
Proof using Hstop Hin C He Hmid.
  intros Hle. pose proof (start_facts _ C _ _ _ _ He_end) as (_ & _ & _ & Htop & _).
  destruct Hin as [[_ ?]|(_ & _ & k & kg & p & -> & _)]; [lia | done].
Qed.

(** The queue and the gaps when the frame ends at its start gap *)
Lemma middle_same q1 rel1 pos has wasCut start1 stop1 : mid = [] ->
  replaced (queue s) stop start false (released s) (Some (q1, rel1, pos, has, wasCut)) ->
  start_kind s sg post start stop pos has wasCut false start1 stop1 ->
  let b := end_of start1 stop1 in
  q1 = clear start1 b (queue s) /\
  (let '(gs, adjusted) := sorter.close_start (gaps s) i sg start1 stop1 has in
   gaps_without (gaps s) (sorter.close_end gs i i sg b (End sg) adjusted) start1 b) /\
  start1 < b <= stop1 /\ whole (queue s) b /\ (forall x, b <= x < stop1 -> ~ missing_in (gaps s) x).
Proof using C Hstart Hstop He Hpre Hsg Hmid Heg Hin.
  intros Hm (Hq1 & _) Hk. assert (E : j = i /\ eg = sg /\ post' = post) by (rewrite Hm in Hmid; cbn in Hmid; naive_solver).
  destruct E as (Ej & Eeg & Epost). pose proof not_last_gap as Hlast. pose proof Hin as Hin'. unfold end_of.
  rewrite Eeg, Epost in *. clear Hmid Heg Hin Ej Eeg Epost.
  pose proof (kind_facts _ C _ _ _ _ He _ _ Hstart Hstop Hpre Hsg _ _ _ _ _ _ Hk) as (K1 & K2 & K3 & K4 & K5 & K6 & K7).
  pose proof (start_facts _ C _ _ _ _ He) as (Ht & Hlt & _).
  assert (Hkeys : forall x, Start sg <= x < End sg -> queue s !! x = None) by (intros x; by eapply gap_no_key).
  destruct (tail_facts _ _ _ _ _ stop endsInGap C He ltac:(lia) ltac:(lia) Hin') as (T1 & T2 & T3 & T4 & T5).
  assert (Hold : stop1 = stop -> start1 < End sg -> (start1 <= Start sg \/ has = false) ->
    let b := if negb endsInGap && negb (start1 =? End sg) && (End sg <? stop1) then End sg else stop1 in
    Start sg < b <= End sg /\
    (let '(gs, adjusted) := sorter.close_start (gaps s) i sg start1 stop1 has in
     gaps_without (gaps s) (sorter.close_end gs i i sg b (End sg) adjusted) start1 b) /\
    start1 < b <= stop1 /\ whole (queue s) b /\ (forall x, b <= x < stop1 -> ~ missing_in (gaps s) x)).
  { intros -> Hlt1 Hhas. cbn zeta. rewrite (proj2 (Z.eqb_neq start1 (End sg))) by lia. rewrite andb_true_r.
    split; [lia|]. split; [|split; [lia | done]].
    apply (close_same s pre i sg post); try done; [lia | lia | intros; apply Hlast; lia]. }
  destruct Hk as [start1 -> -> -> Hs1 Hs2 Hs3 | Hw Hr -> -> Hlo -> | Hw Hr -> -> Heq Hpos _ Hwp Hrest Hrest' | k kg p2 Hw Hr -> -> Heq _ ? ->]; [| | |done].
  - destruct Hold as (Hb' & Hold); [done | lia | by right|]. split; [|done].
    rewrite Hq1, !clear_empty; [done| |intros; lia]. intros x Hx. apply Hkeys. lia.
  - destruct Hold as (Hb' & Hold); [done | lia | left; lia|]. split; [|done].
    rewrite Hq1. apply map_eq. intros x. rewrite !lookup_clear. repeat case_decide; try done; [lia|]. apply Hkeys. lia.
  - cbn zeta. rewrite (proj2 (Z.eqb_eq start (End sg))), andb_false_r by done. cbn [andb].
    split; [done|]. split; [|split; [lia|]; split; [done | intros; lia]].
    unfold sorter.close_start. rewrite (proj2 (Z.leb_gt start (Start sg))) by lia. cbn [negb].
    unfold sorter.close_end. rewrite (proj2 (Z.eqb_neq pos (End sg))), Nat.eqb_refl by lia. cbn [negb andb].
    split; [apply C|]. intros x. split; [|tauto]. intros Hx. split; [done|]. intros Hx'. apply (Hrest x); [lia | done].
Qed.

(** What the walk from the start gap to a later end gap relies on *)
Lemma walk_filled mid' start1 : mid = (i, sg) :: mid' -> start1 <= End sg -> readPos s <= start1 ->
  (forall x, missing pre.*2 x -> x < start1) -> filled (queue s) start1 eg (End sg + 1) mid'.
Proof using C Hstart Hstop He Hmid Heg.
  clear endsInGap Hin. intros Hm Hs1 Hr Hp. rewrite Hm in Hmid. cbn in Hmid. injection Hmid as Hpost.
  pose proof (start_facts _ C _ _ _ _ He) as (Ht & Hlt & Hap & _). pose proof (missing_iff _ _ _ _ _ He) as Hmiss.
  rewrite Hpost in Hap, Hmiss. autorewrite with gaps in Hap. cbn in Hap. destruct Hap as (Hap1 & Hap2 & Hap3 & Hap4).
  split; [lia|]. split; [autorewrite with gaps; cbn; tauto|]. intros x Hx.
  rewrite (co_occupied s C), Hmiss. autorewrite with gaps. cbn. specialize (Hp x).
  assert (missing post'.*2 x -> End eg + 1 <= x) by (intros Hx'; apply (missing_bounds _ _ _ Hap4) in Hx'; lia).
  intuition lia.
Qed.

(** [deleteConsecutive] from the end of the start gap to the next gap *)
Lemma delete_to_next k kg post2 q1 rel1 pos has wasCut start1 stop1 m : post = (k, kg) :: post2 ->
  replaced (queue s) stop start false (released s) (Some (q1, rel1, pos, has, wasCut)) ->
  start_kind s sg post start stop pos has wasCut m start1 stop1 -> m = true ->
  exists rel2, sorter.deleteConsecutive q1 rel1 (End sg) = (clear start1 (Start kg) (queue s), rel2) /\
    held (clear start1 (Start kg) (queue s)) rel2 ≡ₚ held (queue s) (released s).
Proof using C He Hpre Hsg Hstart Hstop.
  intros Epost (Hq1 & _ & _ & _ & Hh & _) Hk Hmt.
  pose proof (kind_facts _ C _ _ _ _ He _ _ Hstart Hstop Hpre Hsg _ _ _ _ _ _ Hk) as (K1 & K2 & K3 & K4 & _).
  pose proof (start_facts _ C _ _ _ _ He) as (Ht & Hlt & _).
  destruct (next_facts _ C _ _ _ _ He _ _ _ Epost) as (Hk1 & Hk2 & Hk3 & Hk4).
  assert (Hkeys : forall x, Start sg <= x < End sg -> queue s !! x = None) by (intros x; by eapply gap_no_key).
  pose proof (co_tiles s C) as Htiles.
  assert (Hrd : readPos s <= End sg) by (apply Z.le_trans with (End sg - 1); [apply (co_unread s C), (missing_iff _ _ _ _ _ He)|]; lia).
  assert (Hgo : forall c, start1 <= c <= End sg -> q1 = clear start1 c (queue s) -> whole (queue s) c ->
    (forall x, c <= x < End sg -> queue s !! x = None) ->
    exists rel2, sorter.deleteConsecutive q1 rel1 (End sg) = (clear start1 (Start kg) (queue s), rel2) /\
      held (clear start1 (Start kg) (queue s)) rel2 ≡ₚ held (queue s) (released s)).
  { intros c Hc -> Hwc Hnone. destruct (deleteConsecutive_spec (clear start1 c (queue s)) rel1 (End sg) (Start kg)) as (rel2 & Hd & Hh2).
    - by apply clear_tiles.
    - apply clear_whole. by eapply end_whole.
    - lia.
    - intros x Hx. rewrite clear_occupied, (co_occupied s C) by done. split; [|lia]. split; [lia|]. by apply Hk4.
    - rewrite clear_occupied by done. intros [Hx _]. by apply (occupied_of_gap _ _ C Hk3).
    - rewrite clear_skip in Hd, Hh2 by (done || lia). exists rel2. split; [done|].
      rewrite Hh2. exact Hh. }
  destruct Hk as [start1 -> -> -> Hs1 Hs2 Hs3 | Hw Hr -> -> Hlo -> | Hw Hr -> -> Heq Hpos ? | k' kg' p2 Hw Hr -> -> Heq Hp _ ->]; [| |congruence|].
  - apply (Hgo start1); [lia | by rewrite Hq1, !clear_empty by (intros; lia) | done|]. intros x Hx. apply Hkeys. lia.
  - apply (Hgo (Start sg)); [lia | done | | done]. apply unoccupied_whole, occupied_of_gap; [done|].
    apply (missing_iff _ _ _ _ _ He). lia.
  - rewrite Epost in Hp. injection Hp as <- <- _. exists rel1. rewrite Hq1 in *. split; [|done].
    apply deleteConsecutive_none. rewrite lookup_clear. case_decide; [done | lia].
Qed.

(** The queue and the gaps when the frame ends at a later gap *)
Lemma middle_apart q1 rel1 pos has wasCut start1 stop1 : mid <> [] ->
  replaced (queue s) stop start false (released s) (Some (q1, rel1, pos, has, wasCut)) ->
  start_kind s sg post start stop pos has wasCut true start1 stop1 ->
  let b := end_of start1 stop1 in
  let '(gs, adjusted) := sorter.close_start (gaps s) i sg start1 stop1 has in
  exists rel3 gs2,
    (let '(q, rel) := sorter.deleteConsecutive q1 rel1 (End sg) in
     sorter.gap_loop (length (elements gs)) q rel gs (linkedlist.Next (gaps s) i) (Start eg))
    = Ret (clear start1 b (queue s), rel3, gs2) /\
    held (clear start1 b (queue s)) rel3 ≡ₚ held (queue s) (released s) /\
    gaps_without (gaps s) (sorter.close_end gs2 i j eg b (End sg) adjusted) start1 b /\
    start1 < b <= stop1 /\ whole (queue s) b /\ (forall x, b <= x < stop1 -> ~ missing_in (gaps s) x).
Proof using C Hstart Hstop He Hpre Hsg Hmid Heg Hin.
  intros Hm Hrep Hk. cbn zeta.
  assert (Hm' : exists mid', mid = (i, sg) :: mid' /\ post = mid' ++ (j, eg) :: post').
  { clear - Hmid Hm. destruct mid as [|x mid']; [done|]. cbn in Hmid. naive_solver. }
  destruct Hm' as (mid' & Emid & Epost).
  pose proof (kind_facts _ C _ _ _ _ He _ _ Hstart Hstop Hpre Hsg _ _ _ _ _ _ Hk) as (K1 & K2 & K3 & K4 & K5 & K6 & K7).
  pose proof (start_facts _ C _ _ _ _ He) as (Ht & Hlt & _).
  assert (Hkind : start1 <= End sg /\ stop1 = stop /\ (has = true -> start1 <= Start sg \/ start1 = End sg))
    by (destruct Hk; try done; (split; [lia|]); (split; [done|]); intros; first [congruence | lia]).
  destruct Hkind as (Hs1 & Hs2 & Hhas).
  pose proof (walk_filled mid' start1 Emid Hs1 K4 K7) as Hfill.
  pose proof Hfill as (_ & Hap & _). pose proof (first_start_le _ _ _ Hap) as Hfst.
  assert (Hnext : exists k kg post2, post = (k, kg) :: post2 /\ Start kg = first_start mid' eg /\ k = first_id mid' j).
  { rewrite Epost. destruct mid' as [|[k kg] mid2]; [by exists j, eg, post' | by exists k, kg, (mid2 ++ (j, eg) :: post')]. }
  destruct Hnext as (k & kg & post2 & Epost2 & Hkg & Hkid).
  destruct (delete_to_next _ _ _ _ _ _ _ _ _ _ _ Epost2 Hrep Hk eq_refl) as (rel2 & Hdel & Hh2). rewrite Hkg in *.
  pose proof (close_start_trim s pre i sg post start1 stop1 has C He ltac:(lia) Hs1 Hhas) as Hcs.
  destruct (sorter.close_start (gaps s) i sg start1 stop1 has) as [gs adjusted]. cbn [fst] in Hcs. subst gs.
  rewrite Hdel. pose proof (wg_nodup _ (co_gaps s C)) as Hnd. rewrite He in Hnd. pose proof (NoDup_at _ _ _ _ Hnd) as [Hnd1 _].
  assert (Hn : linkedlist.Next (gaps s) i = Some (first_id mid' j)).
  { unfold linkedlist.Next. rewrite He, next_of_at, Epost2 by done. cbn. by rewrite Hkid. }
  rewrite Hn. cbn [elements]. rewrite Epost in Hnd |- *. apply (trim_nodup _ _ _ start1) in Hnd. rewrite (app_assoc pre) in Hnd |- *.
  destruct (gap_loop_spec (queue s) (co_tiles s C) start1 K3 j eg post' (allocated (gaps s)) mid' (End sg + 1)
    (pre ++ trim i sg start1) (length ((pre ++ trim i sg start1) ++ mid' ++ (j, eg) :: post')) rel2 Hnd Hfill) as (rel3 & Hloop & Hh3).
  { rewrite !length_app. cbn. lia. }
  destruct (tail_facts _ _ _ _ _ stop endsInGap C He_end ltac:(lia) Heg Hin) as (T1 & T2 & T3 & T4 & T5).
  assert (Hend : end_of start1 stop1 = if negb endsInGap && (End eg <? stop) then End eg else stop).
  { unfold end_of. rewrite Hs2, (proj2 (Z.eqb_neq start1 (End eg))), andb_true_r by lia. done. }
  rewrite <- Hend in T1, T2, T3, T4.
  assert (Hclear : clear start1 (Start eg) (queue s) = clear start1 (end_of start1 stop1) (queue s)).
  { apply map_eq. intros x. rewrite !lookup_clear. repeat case_decide; try done; [lia|].
    eapply gap_no_key; [exact C | exact He_end | lia]. }
  rewrite Hclear in *. exists rel3, (Build_List ((pre ++ trim i sg start1) ++ (j, eg) :: post') (allocated (gaps s))).
  split; [exact Hloop|]. split; [by rewrite Hh3|]. rewrite <- app_assoc. split; [|split; [lia|]; split; [done | intros x Hx; apply T4; lia]].
  apply (close_apart s pre i sg mid' j eg post'); try done;
    [by rewrite He, Epost | intros Hb; apply not_last_gap; lia].
Qed.

Context (startsInGap : bool).
Context (Hb : (startsInGap = true /\ Start sg <= start <= End sg) \/ (startsInGap = false /\ start < Start sg)).

(** The two cases of the gaps as one *)
Lemma middle q1 rel1 pos has wasCut start1 stop1 :
  replaced (queue s) stop start false (released s) (Some (q1, rel1, pos, has, wasCut)) ->
  start_kind s sg post start stop pos has wasCut (negb (Nat.eqb i j)) start1 stop1 ->
  let b := end_of start1 stop1 in
  let '(gs, adjusted) := sorter.close_start (gaps s) i sg start1 stop1 has in
  exists rel3 gs2,
    (if Nat.eqb i j then Ret (q1, rel1, gs) else
     let '(q, rel) := sorter.deleteConsecutive q1 rel1 (End sg) in
     sorter.gap_loop (length (elements gs)) q rel gs (linkedlist.Next (gaps s) i) (Start eg))
    = Ret (clear start1 b (queue s), rel3, gs2) /\
    held (clear start1 b (queue s)) rel3 ≡ₚ held (queue s) (released s) /\
    gaps_without (gaps s) (sorter.close_end gs2 i j eg b (End sg) adjusted) start1 b /\
    start1 < b <= stop1 /\ whole (queue s) b /\ (forall x, b <= x < stop1 -> ~ missing_in (gaps s) x).
Proof using C Hstart Hstop He Hpre Hsg Hmid Heg Hin.
  clear Hb startsInGap. intros Hrep Hk. pose proof (same_gap _ C _ _ _ _ He _ _ _ _ Hmid) as Hsame.
  destruct (Nat.eqb_spec i j) as [Hij|Hij]; cbn [negb] in Hk.
  - assert (Heq : eg = sg) by (apply Hsame in Hij; clear - Hmid Hij; rewrite Hij in Hmid; cbn in Hmid; naive_solver).
    pose proof (middle_same _ _ _ _ _ _ _ (proj1 Hsame Hij) Hrep Hk) as (Hq & Hg & Hrest).
    destruct Hrep as (_ & _ & _ & _ & Hh & _). cbn zeta. rewrite <- Hij, Heq.
    destruct (sorter.close_start _ _ _ _ _ _) as [gs adjusted]. exists rel1, gs. rewrite Hq in *.
    split; [done|]. split; [done|]. split; [|done]. exact Hg.
  - apply (middle_apart _ _ _ _ _ _ _ (fun H => Hij (proj2 Hsame H)) Hrep Hk).
Qed.

Lemma keep_small_spec w (d : slice) rel offset a b : d = sub data (a - offset) (b - offset) ->
  let '(d', cb', rel') := sorter.keep_small w d cb rel in
  entry_of data offset cb a b {| Data := d'; DoneCb := cb' |} /\
  rel' ++ option_list cb' ≡ₚ rel ++ option_list cb.
Proof using.
  intros ->. unfold sorter.keep_small. destruct (_ && _).
  - split; [split; [done | by right]|]. cbn. by rewrite app_nil_r, call_app.
  - split; [split; [done | by left] | done].
Qed.

Definition pushed (s' : frameSorter) (err : option goerror) : Prop :=
  (err = Some sorter.errDuplicateStreamData /\ s' = s /\
   forall x, start <= x < stop -> ~ missing_in (gaps s) x) \/
  (exists a b, stored s s' data start cb err a b).

Lemma push_between_spec : exists s' err,
  sorter.push_between s data start stop cb i startsInGap sg j endsInGap eg = Ret (s', err) /\ pushed s' err.
Proof using C Hstart Hstop He Hpre Hsg Hmid Heg Hin Hb.
  pose proof (replace_loop_spec (S (size (queue s))) stop (queue s) (released s) start false (co_tiles s C)
    ltac:(lia) ltac:(lia)) as Hrep.
  unfold sorter.push_between. destruct (sorter.replace_loop _ _ _ _ _ _) as [((((q1 & rel1) & pos) & has) & wasCut)|].
  2: { do 2 eexists. split; [done|]. left. split; [done|]. split; [done|].
       destruct Hrep as (_ & e & He1 & He2). intros x Hx. assert (Ho : occupied (queue s) x) by (exists start, e; split; [done | lia]).
       by apply (co_occupied s C) in Ho as [_ Ho]. }
  pose proof (start_phase _ C _ _ _ _ He _ _ Hstart Hstop Hpre Hsg _ _ _ _ _ Hmid Heg Hin _ _ _ _ _ _ Hb Hrep) as Hk.
  pose proof (kind_facts _ C _ _ _ _ He _ _ Hstart Hstop Hpre Hsg _ _ _ _ _ _ Hk) as (K1 & K2 & K3 & K4 & K5 & K6 & _).
  pose proof (middle _ _ _ _ _ _ _ Hrep Hk) as Hm. cbn zeta in Hm |- *.
  set (start1 := if negb startsInGap && negb has then Start sg else start) in *.
  set (stop1 := if wasCut then pos else stop) in *.
  assert (D1 : (if wasCut then cut data 0 (pos - start) else Ret data) = Ret (sub data 0 (stop1 - start))).
  { unfold stop1 in *. destruct wasCut.
    - rewrite <- (sub_all data) at 1. rewrite cut_sub; [do 2 f_equal; lia | lia..].
    - replace (stop - start) with (len (content data)) by (unfold stop; lia). by rewrite sub_all. }
  rewrite D1. cbn [obind].
  assert (D2 : (if negb startsInGap && negb has then cut (sub data 0 (stop1 - start)) (Start sg - start)
      (len (content (sub data 0 (stop1 - start)))) else Ret (sub data 0 (stop1 - start)))
    = Ret (sub data (start1 - start) (stop1 - start))).
  { unfold start1 in *. destruct (negb startsInGap && negb has).
    - rewrite len_sub, cut_sub by lia. do 2 f_equal; lia.
    - by replace (start - start) with 0 by lia. }
  rewrite D2. cbn [obind]. destruct (sorter.close_start (gaps s) i sg start1 stop1 has) as [gs adjusted].
  destruct Hm as (rel3 & gs2 & -> & Hh & Hg & Hlt & Hw & Hrest). cbn [obind].
  fold (end_of start1 stop1). set (b := end_of start1 stop1) in *.
  assert (D3 : (if negb endsInGap && negb (start1 =? End eg) && (End eg <? stop1)
      then cut (sub data (start1 - start) (stop1 - start)) 0 (End eg - start1) else Ret (sub data (start1 - start) (stop1 - start)))
    = Ret (sub data (start1 - start) (b - start))).
  { unfold b, end_of in *. destruct (negb endsInGap && negb (start1 =? End eg) && (End eg <? stop1)); [|done].
    rewrite cut_sub by lia. do 2 f_equal; lia. }
  rewrite D3. cbn [obind].
  match goal with |- context [sorter.keep_small ?w ?d cb rel3] =>
    pose proof (keep_small_spec w d rel3 start start1 b eq_refl) as Hkeep; destruct (sorter.keep_small w d cb rel3) as [[d' cb'] rel'] end.
  destruct Hkeep as [Hentry Hrel].
  assert (Hall : forall s' err, readPos s' = readPos s -> released s' = rel' ->
    gaps s' = sorter.close_end gs2 i j eg b (End sg) adjusted ->
    match err with
    | None => queue s' = <[start1 := {| Data := d'; DoneCb := cb' |}]> (clear start1 b (queue s)) /\
              linkedlist.Len (gaps s') <= MaxStreamFrameSorterGaps
    | Some err => err = sorter.errTooManyGaps /\ queue s' = clear start1 b (queue s) /\
                  MaxStreamFrameSorterGaps < linkedlist.Len (gaps s')
    end -> pushed s' err).
  { intros s' err R1 R2 R3 R4. right. exists start1, b. split; [lia | | done | done | by rewrite R3 | ].
    - intros x Hx Hout. destruct (Z.lt_ge_cases x start1); [apply K5; lia|].
      destruct (Z.lt_ge_cases x stop1); [apply Hrest; lia | apply K6; lia].
    - exists {| Data := d'; DoneCb := cb' |}. split; [done|]. split; [|done]. rewrite R2, <- Hh. unfold held. cbn [DoneCb].
      rewrite <- !app_assoc, (Permutation_app_comm (callbacks _) (option_list cb')), app_assoc, Hrel.
      by rewrite <- app_assoc, (Permutation_app_comm (option_list cb)). }
  destruct (Z.ltb_spec MaxStreamFrameSorterGaps (linkedlist.Len (sorter.close_end gs2 i j eg b (End sg) adjusted))).
  - do 2 eexists. split; [done|]. by apply Hall.
  - do 2 eexists. split; [done|]. by apply Hall.
Qed.
End push.

(** The last gap before a frame that ends before its start gap *)
Lemma last_at (pre : list (nat * byteInterval)) : pre <> [] -> exists init e g, pre = init ++ [(e, g)].
Proof. intros H. destruct pre as [|[e g] init _] using rev_ind; [done | by exists init, e, g]. Qed.

Lemma Value_at gs pre e g post : wf_gaps gs -> elements gs = pre ++ (e, g) :: post ->
  linkedlist.Value gs (Some e) = Ret g.
Proof.
  intros [_ _ Hnd _] He. unfold linkedlist.Value. rewrite He in *. apply value_of_at. apply (NoDup_at _ _ _ _ Hnd).
Qed.

Lemma push_spec s data offset cb : consistent s -> 0 <= offset -> offset + len (content data) < MaxByteCount ->
  exists s' err, sorter.push s data offset cb = Ret (s', err) /\ pushed s data offset cb s' err.
Proof.
  intros C Ho Hmax. unfold sorter.push, pushed. pose proof (len_nonneg (content data)).
  destruct (Z.eqb_spec (len (content data)) 0) as [Hz|Hz].
  { do 2 eexists. split; [done|]. left. split; [done|]. split; [done|]. intros; lia. }
  rewrite i64_small by (unfold MaxByteCount in *; lia). set (stop := offset + len (content data)) in *.
  pose proof (co_gaps s C) as [Hap Htop Hnd _].
  destruct (elements (gaps s)) as [|[f fg] rest] eqn:Eg; [by rewrite top_nil in Htop|].
  assert (Hfront : linkedlist.Value (gaps s) (linkedlist.Front (gaps s)) = Ret fg).
  { unfold linkedlist.Front, linkedlist.Value. rewrite Eg. cbn. by rewrite Nat.eqb_refl. }
  rewrite Hfront, obind_Ret_l.
  destruct (Z.leb_spec stop (Start fg)) as [Hf|Hf].
  { do 2 eexists. split; [done|]. left. split; [done|]. split; [done|]. intros x Hx.
    by apply (not_missing_before _ C [] f fg rest Eg); unfold top; cbn; lia. }
  destruct (find_start_spec 0 (elements (gaps s)) offset) as (pre & i & sg & post & b & He & Hfs & Hpre & Hb);
    [by rewrite Eg | by rewrite Eg | unfold MaxByteCount; lia | lia|].
  unfold sorter.findStartGap. rewrite Hfs, obind_Ret_l.
  pose proof (start_facts _ C _ _ _ _ He) as (Ht & Hlt & _).
  assert (Hdup : stop <= Start sg -> forall x, offset <= x < stop -> ~ missing_in (gaps s) x).
  { intros Hs x Hx. apply (not_missing_before _ C _ _ _ _ He). lia. }
  pose proof (Value_at _ _ _ _ _ (co_gaps s C) He) as Hv.
  destruct (findEndGap_spec _ _ _ _ _ stop (co_gaps s C) He ltac:(lia)) as [[Hlo ->]|(mid & j & eg & post' & e & Hmid & -> & Heg & Hin)];
    rewrite obind_Ret_l, Hv, obind_Ret_l.
  - assert (Hpn : pre <> []) by (intros ->; rewrite He in Eg; injection Eg as -> -> ->; lia).
    destruct (last_at pre Hpn) as (init & e & eg & ->). rewrite last_snoc. cbn [fmap option_fmap option_map fst].
    pose proof He as He'. rewrite <- app_assoc in He'. rewrite (Value_at _ _ _ _ _ (co_gaps s C) He'), obind_Ret_l.
    assert (Hee : Start eg <= End sg).
    { pose proof (start_facts _ C _ _ _ _ He') as (_ & ? & _). autorewrite with gaps in Ht. cbn in Ht. lia. }
    assert (Hcond : (Nat.eqb i e && (stop <=? Start sg) || negb (Nat.eqb i e) && (Start eg <=? End sg) && (stop <=? Start sg)) = true)
      by (destruct (Nat.eqb i e); lia).
    rewrite Hcond. do 2 eexists. split; [done|]. left. split; [done|]. split; [done|]. apply Hdup. lia.
  - pose proof He as He'. rewrite Hmid, (app_assoc pre) in He'.
    rewrite (Value_at _ _ _ _ _ (co_gaps s C) He'), obind_Ret_l.
    destruct (Z.le_gt_cases stop (Start sg)) as [Hs|Hs].
    + assert (Hij : i = j).
      { apply (same_gap _ C _ _ _ _ He _ _ _ _ Hmid). destruct mid as [|x mid]; [done|].
        pose proof (start_facts _ C _ _ _ _ He') as ([_ Hle] & _). injection Hmid as <- _.
        autorewrite with gaps in Hle. cbn in Hle.
        pose proof (wg_apart _ (co_gaps s C)) as Hap'. rewrite He' in Hap'. autorewrite with gaps in Hap'. cbn in Hap'.
        destruct Hap' as ((_ & _ & _ & Hm1) & _). apply apart_top in Hm1. lia. }
      rewrite <- Hij, Nat.eqb_refl. rewrite (proj2 (Z.leb_le stop (Start sg))) by done. cbn [andb orb].
      do 2 eexists. split; [done|]. left. split; [done|]. split; [done|]. by apply Hdup.
    + rewrite (proj2 (Z.leb_gt stop (Start sg))), !andb_false_r by done. cbn [orb].
      destruct (push_between_spec s C data offset cb ltac:(lia) Hmax pre i sg post He Hpre Hs mid j eg post' e Hmid Heg Hin b Hb)
        as (s' & err & Hp & Hpushed). exists s', err. split; [exact Hp | exact Hpushed].
Qed.
