(* ===== verification/FrameSorterProps.v ===== *)
(** * The frame sorter reassembles the stream

    Whatever the order, overlap and repetition of the frames, [Push] makes
    exactly the bytes of a frame available ([Push_refines]), and what is read
    is the stream, up to the first byte that no frame brought
    ([frames_reassembled]).  Every buffer is given back once, and none is used
    after that ([buffers_given_back_once]). *)
From S2P Require Import Prelude Protocol FrameSorter FrameSorterFacts FrameSorterPush.

Local Open Scope Z_scope.
Local Open Scope go_scope.

Implicit Types (q : gmap Z frameSorterEntry) (s : frameSorter).

(** ** The bytes of a stream *)

Definition segment (stream : Z -> Z) (o : Z) (n : nat) : bytes :=
  (fun k => stream (o + Z.of_nat k)) <$> seq 0 n.

Definition carries (stream : Z -> Z) (o : Z) (d : slice) : Prop :=
  content d = segment stream o (length (content d)).

Definition agrees (stream : Z -> Z) q : Prop := forall o e, q !! o = Some e -> carries stream o (Data e).

Lemma segment_length stream o n : length (segment stream o n) = n.
Proof. unfold segment. by rewrite length_fmap, length_seq. Qed.

Lemma segment_app stream o n m : segment stream o (n + m) = segment stream o n ++ segment stream (o + Z.of_nat n) m.
Proof.
  unfold segment. rewrite seq_app, fmap_app. f_equal.
  rewrite (Nat.add_comm 0 n), <- (fmap_add_seq n 0 m), <- list_fmap_compose. apply list_fmap_ext. intros ? k _. cbn. f_equal. lia.
Qed.

Lemma segment_take stream o n m : (m <= n)%nat -> take m (segment stream o n) = segment stream o m.
Proof.
  intros H. replace n with (m + (n - m))%nat by lia. rewrite segment_app, take_app_le by (rewrite segment_length; lia).
  apply take_ge. rewrite segment_length. lia.
Qed.

Lemma segment_drop stream o n m : (m <= n)%nat -> drop m (segment stream o n) = segment stream (o + Z.of_nat m) (n - m).
Proof.
  intros H. replace n with (m + (n - m))%nat at 1 by lia. rewrite segment_app.
  rewrite <- (segment_length stream o m) at 1. apply drop_app_length.
Qed.

Lemma carries_sub stream o d lo hi : carries stream o d -> 0 <= lo <= hi -> hi <= len (content d) ->
  carries stream (o + lo) (sub d lo hi).
Proof.
  unfold carries, len. intros H ? ?. unfold sub. cbn [content].
  rewrite H, segment_drop, segment_take, segment_length by (rewrite ?segment_length; lia). f_equal. lia.
Qed.

(** ** One frame *)

Lemma insert_occupied q a b e x : a < b -> whole q a -> whole q b -> entryLen e = b - a ->
  occupied (<[a := e]> (clear a b q)) x <-> a <= x < b \/ occupied q x.
Proof.
  intros Hab Ha Hb He. split.
  - intros (o & e' & [[-> ->]|[_ Ho]]%lookup_insert_Some & Hx); [left; lia|]. right.
    apply lookup_clear_Some in Ho as [Ho _]. by exists o, e'.
  - destruct (decide (a <= x < b)) as [Hx|Hx].
    { intros _. exists a, e. rewrite lookup_insert_eq. split; [done | lia]. }
    intros [?|Ho]; [done|]. assert (Hc : occupied (clear a b q) x) by (apply clear_occupied; done).
    destruct Hc as (o & e' & Ho' & Hx'). exists o, e'. split; [|done].
    pose proof Ho' as [_ Hr]%lookup_clear_Some. rewrite lookup_insert_ne; [done|]. lia.
Qed.

Lemma insert_tiles q a b e : tiles q -> whole q a -> whole q b -> 0 <= a < b -> b <= MaxByteCount -> entryLen e = b - a ->
  tiles (<[a := e]> (clear a b q)).
Proof.
  intros [T1 T2] Ha Hb Hab Hmax He. split.
  - intros o e' [[<- <-]|[_ [Ho _]%lookup_clear_Some]]%lookup_insert_Some; [lia | by apply T1].
  - intros o e1 o' e2 [[<- <-]|[Hne [Ho Hr]%lookup_clear_Some]]%lookup_insert_Some
      [[<- <-]|[Hne' [Ho' Hr']%lookup_clear_Some]]%lookup_insert_Some Hlt; [lia | lia | by apply (Ha o) | by apply (T2 o e1 o' e2)].
Qed.

Lemma entry_of_len data offset cb a b e : entry_of data offset cb a b e -> offset <= a <= b ->
  b <= offset + len (content data) -> entryLen e = b - a.
Proof. intros [Hc _] ? ?. unfold entryLen. rewrite Hc, len_sub by lia. lia. Qed.

Lemma stored_consistent s s' data offset cb a b : consistent s -> 0 <= offset ->
  offset + len (content data) < MaxByteCount -> stored s s' data offset cb None a b -> consistent s'.
Proof.
  intros C Ho Hmax [R1 R2 [R3 R3'] [R4 R4'] [R5 R5'] (e & R6 & _ & R8 & _)]. pose proof (entry_of_len _ _ _ _ _ _ R6) as Hlen.
  split.
  - done.
  - rewrite R8. apply insert_tiles; try done; [apply C | lia | lia | apply Hlen; lia].
  - rewrite R4'. apply C.
  - intros x [Hx _]%R5'. rewrite R4'. by apply (co_unread s C).
  - intros x. rewrite R8, insert_occupied, R5', R4', (co_occupied s C) by (done || lia || (apply Hlen; lia)).
    destruct (decide (missing_in (gaps s) x)); destruct (decide (a <= x < b)); intuition lia.
Qed.

Lemma stored_agrees stream s s' data offset cb a b : stored s s' data offset cb None a b ->
  carries stream offset data -> agrees stream (queue s) -> agrees stream (queue s').
Proof.
  intros [R1 _ _ _ _ (e & [R6 _] & _ & -> & _)] Hd Ha o e' [[<- <-]|[_ [Ho _]%lookup_clear_Some]]%lookup_insert_Some; [|by apply Ha].
  pose proof (carries_sub stream offset data (a - offset) (b - offset) Hd) as Hs.
  replace (offset + (a - offset)) with a in Hs by lia. unfold carries in *. rewrite R6. apply Hs; lia.
Qed.

(** ** [Push] and [Pop] *)

(** Every byte of the frame is available or read already. *)
Definition brought (data : slice) (offset x : Z) : Prop := offset <= x < offset + len (content data).

(** A slice in a buffer comes with the callback that gives the buffer back. *)
Definition owns (d : slice) (cb : option nat) : Prop := forall k, buffer d = Some k -> cb = Some k.
Definition owned q : Prop := forall o e, q !! o = Some e -> owns (Data e) (DoneCb e).

Record accepts (s s' : frameSorter) (data : slice) (offset : Z) (cb : option nat) : Prop := {
  ac_consistent : consistent s';
  ac_readPos : readPos s' = readPos s;
  ac_missing : forall x, missing_in (gaps s') x <-> missing_in (gaps s) x /\ ~ brought data offset x;
  ac_agrees : forall stream, agrees stream (queue s) -> carries stream offset data -> agrees stream (queue s');
  ac_held : held (queue s') (released s') ≡ₚ held (queue s) (released s) ++ option_list cb;
  ac_owned : owns data cb -> owned (queue s) -> owned (queue s');
  ac_len : linkedlist.Len (gaps s) <= MaxStreamFrameSorterGaps -> linkedlist.Len (gaps s') <= MaxStreamFrameSorterGaps;
}.

Lemma stored_held s s' data offset cb a b : stored s s' data offset cb None a b ->
  held (queue s') (released s') ≡ₚ held (queue s) (released s) ++ option_list cb.
Proof.
  intros [R1 _ _ _ _ (e & _ & Hh & Hq & _)]. rewrite <- Hh, Hq. unfold held.
  rewrite callbacks_insert by (rewrite lookup_clear; case_decide; [done | lia]).
  rewrite <- app_assoc. by rewrite (Permutation_app_comm (callbacks _)).
Qed.

Lemma stored_owned s s' data offset cb a b : stored s s' data offset cb None a b ->
  owns data cb -> owned (queue s) -> owned (queue s').
Proof.
  intros [_ _ _ _ _ (e & [_ Hb] & _ & -> & _)] Hd Ho o e' [[<- <-]|[_ [He _]%lookup_clear_Some]]%lookup_insert_Some; [|by eapply Ho].
  destruct Hb as [[Hb Hcb]|[Hb Hcb]]; intros k; rewrite Hb, Hcb; [apply Hd | done].
Qed.

Lemma Push_cases s data offset cb : consistent s -> 0 <= offset -> offset + len (content data) < MaxByteCount ->
  (exists s', sorter.Push s data offset cb = Ret (s', None) /\ accepts s s' data offset cb) \/
  (exists s', sorter.Push s data offset cb = Ret (s', Some sorter.errTooManyGaps) /\
     MaxStreamFrameSorterGaps < linkedlist.Len (gaps s') /\
     forall x, missing_in (gaps s') x <-> missing_in (gaps s) x /\ ~ brought data offset x).
Proof.
  intros C Ho Hmax. destruct (push_spec s data offset cb C Ho Hmax) as (s' & err & Hp & Hpushed).
  unfold sorter.Push. rewrite Hp, obind_Ret_l. unfold pushed in Hpushed.
  destruct Hpushed as [(-> & -> & Hdup)|(a & b & Hst)].
  - left. eexists. split; [done|]. split; cbn; try done.
    + destruct C. by split.
    + intros x. specialize (Hdup x). unfold brought. tauto.
    + unfold held. rewrite call_app, <- !app_assoc. by rewrite (Permutation_app_comm (callbacks _)).
  - assert (Hmiss : forall x, missing_in (gaps s') x <-> missing_in (gaps s) x /\ ~ brought data offset x).
    { intros x. destruct Hst as [R1 R2 _ _ [_ ->] _]. specialize (R2 x). unfold brought.
      destruct (decide (a <= x < b)); intuition lia. }
    destruct err as [err|].
    + right. destruct (so_entry _ _ _ _ _ _ _ _ Hst) as (e & _ & _ & -> & _ & Hlen). by exists s'.
    + left. exists s'. split; [done|]. split; [by eapply stored_consistent | apply Hst | done | | by eapply stored_held | by eapply stored_owned|].
      { intros stream Ha Hd. by eapply stored_agrees. }
      by destruct (so_entry _ _ _ _ _ _ _ _ Hst) as (e & _ & _ & _ & Hlen).
Qed.

Lemma front_gap s : consistent s -> exists e g post, elements (gaps s) = (e, g) :: post /\
  linkedlist.Value (gaps s) (linkedlist.Front (gaps s)) = Ret g /\ readPos s <= Start g < End g /\
  (forall x, 0 <= x < Start g -> ~ missing_in (gaps s) x) /\ missing_in (gaps s) (Start g) /\ End g <= MaxByteCount.
Proof.
  intros C. destruct (elements (gaps s)) as [|[e g] post] eqn:E.
  { pose proof (wg_top _ (co_gaps s C)) as Ht. rewrite E in Ht. by unfold top in Ht. }
  exists e, g, post. pose proof (start_facts s C [] e g post E) as (H1 & H2 & _ & _ & _ & H3).
  assert (Hm : missing_in (gaps s) (Start g)) by (eapply (missing_at _ _ []); [exact E | lia]).
  split; [done|]. split.
  { unfold linkedlist.Front, linkedlist.Value. rewrite E. cbn. by rewrite Nat.eqb_refl. }
  split; [pose proof (co_unread s C _ Hm); lia|]. split; [|done].
  intros x Hx. apply (not_missing_before s C [] e g post E). unfold top. cbn. lia.
Qed.

Lemma readPos_entry s : consistent s -> queue s !! readPos s = None <-> missing_in (gaps s) (readPos s).
Proof.
  intros C. destruct (front_gap s C) as (e & g & post & _ & _ & Hrd & Hb & Hm & Hmax). split.
  - intros Hn. destruct (decide (missing_in (gaps s) (readPos s))) as [|Hnm]; [done|]. exfalso.
    assert (Ho : occupied (queue s) (readPos s)) by (apply (co_occupied s C); split; [lia | done]).
    destruct Ho as (o & e' & Ho & Hx). destruct (decide (o = readPos s)) as [->|Hne]; [congruence|].
    assert (Ho' : occupied (queue s) o) by (exists o, e'; split; [done | lia]).
    apply (co_occupied s C) in Ho'. lia.
  - intros Hmiss. apply unoccupied_lookup; [apply C|]. by apply occupied_of_gap.
Qed.

Lemma next_whole q pos e : tiles q -> q !! pos = Some e -> whole q (pos + entryLen e).
Proof.
  intros Ht He. apply (pa_whole q pos); [|by eapply entry_whole]. eapply passed_step; [done | exact He | apply passed_refl].
Qed.

(** What [Pop] gives *)
Definition popped (s s' : frameSorter) (offset : Z) (data : option slice) (cb : option nat) : Prop :=
  consistent s' /\ gaps s' = gaps s /\ released s' = released s /\ offset = readPos s /\
  match data with
  | None => missing_in (gaps s) (readPos s) /\ s' = s /\ cb = None
  | Some d => queue s !! readPos s = Some {| Data := d; DoneCb := cb |} /\ queue s' = delete (readPos s) (queue s) /\
              readPos s' = readPos s + len (content d) /\ 0 < len (content d) /\
              (forall x, readPos s <= x < readPos s' -> ~ missing_in (gaps s) x)
  end.

Lemma Pop_spec s : consistent s ->
  exists s' offset data cb, sorter.Pop s = Ret (s', offset, data, cb) /\ popped s s' offset data cb.
Proof.
  intros C. unfold sorter.Pop. destruct (queue s !! readPos s) as [[d cb]|] eqn:E.
  2: { do 4 eexists. split; [done|]. apply (readPos_entry s C) in E. do 4 (split; [done|]). by split. }
  destruct (front_gap s C) as (e & g & post & _ & -> & Hrd & Hb & Hm & Hmax). cbn [obind].
  pose proof (co_tiles s C) as Ht. destruct (proj1 Ht _ _ E) as (H1 & H2 & H3). unfold entryLen in *. cbn [Data] in *.
  pose proof (entry_unoccupied _ _ _ _ Ht E (occupied_of_gap _ _ C Hm) ltac:(lia)) as Hle. unfold entryLen in Hle. cbn [Data] in Hle.
  rewrite i64_small by (unfold MaxByteCount in *; lia). rewrite (proj2 (Z.leb_gt (End g) _)) by lia.
  do 4 eexists. split; [done|]. split; [|cbn].
  - split; cbn; [apply C | by apply delete_tiles | lia | |].
    + intros x Hx. pose proof (co_unread s C x Hx). destruct (Z.lt_ge_cases x (readPos s + len (content d))); [|lia].
      exfalso. apply (Hb x); [lia | done].
    + intros x. rewrite (delete_clear _ _ _ Ht E). unfold entryLen. cbn [Data].
      pose proof (next_whole _ _ _ Ht E) as Hw. unfold entryLen in Hw. cbn [Data] in Hw.
      rewrite clear_occupied, (co_occupied s C) by (done || by eapply entry_whole). intuition lia.
  - do 6 (split; [done|]). split; [lia|]. intros x Hx. pose proof (co_readPos s C). apply Hb. lia.
Qed.

(** ** [Peek] *)

Lemma enough_loop_spec fuel q : forall pos remaining, tiles q -> whole q pos -> 0 <= remaining < Z.of_nat fuel ->
  sorter.enough_loop fuel q pos remaining = true <-> forall x, pos <= x < pos + remaining -> occupied q x.
Proof.
  induction fuel as [|fuel IH]; intros pos remaining Ht Hw Hf; cbn [sorter.enough_loop].
  { split; [done|]. lia. }
  destruct (Z.leb_spec remaining 0); [split; [intros; lia | done]|].
  destruct (q !! pos) as [e|] eqn:E.
  - destruct (proj1 Ht _ _ E) as (H1 & H2 & H3). destruct (Z.leb_spec remaining (entryLen e)).
    + split; [|done]. intros _ x Hx. exists pos, e. split; [done | lia].
    + rewrite i64_small by (unfold MaxByteCount in *; lia). rewrite IH; [|done | by apply next_whole | lia]. split.
      * intros Hall x Hx. destruct (Z.lt_ge_cases x (pos + entryLen e)); [exists pos, e; split; [done | lia]|]. apply Hall. lia.
      * intros Hall x Hx. apply Hall. lia.
  - split; [done|]. intros Hall. exfalso. by apply (whole_unoccupied _ _ Hw E), Hall; lia.
Qed.

Lemma copy_loop_spec stream fuel q : forall pos todo, tiles q -> agrees stream q -> whole q pos -> (todo < fuel)%nat ->
  (forall x, pos <= x < pos + Z.of_nat todo -> occupied q x) -> sorter.copy_loop fuel q pos todo = segment stream pos todo.
Proof.
  induction fuel as [|fuel IH]; intros pos todo Ht Ha Hw Hf Hall; [lia|]. cbn [sorter.copy_loop].
  destruct todo as [|todo]; [done|]. set (n := S todo) in *.
  destruct (q !! pos) as [e|] eqn:E; [|exfalso; by apply (whole_unoccupied _ _ Hw E), Hall; lia].
  destruct (proj1 Ht _ _ E) as (H1 & H2 & H3). rewrite i64_small by (unfold MaxByteCount in *; lia).
  pose proof (Ha _ _ E) as Hd. unfold carries in Hd. unfold entryLen, len in *.
  set (l := length (content (Data e))) in *. rewrite Hd. destruct (decide (n <= l)%nat).
  - rewrite segment_take by done. rewrite segment_length, Nat.sub_diag.
    destruct fuel; cbn [sorter.copy_loop]; by rewrite app_nil_r.
  - rewrite take_ge, segment_length by (rewrite segment_length; lia).
    rewrite IH; [|done | done | by apply next_whole | lia | intros x Hx; apply Hall; lia].
    rewrite <- segment_app. f_equal. lia.
Qed.

(** At the start of an entry, or where reading continues, [Peek] copies the
    bytes of the stream when they are all there, and else says so. *)
Lemma Peek_spec stream s offset n : consistent s -> agrees stream (queue s) -> whole (queue s) offset ->
  (sorter.Peek s offset n = Ret (segment stream offset n) /\ (forall x, offset <= x < offset + Z.of_nat n -> occupied (queue s) x)) \/
  (sorter.Peek s offset n = Err sorter.errTooLittleData /\ ~ forall x, offset <= x < offset + Z.of_nat n -> occupied (queue s) x).
Proof.
  intros C Ha Hw. unfold sorter.Peek. destruct (Nat.eqb_spec n 0) as [->|Hn]; [left; split; [done | intros; lia]|].
  pose proof (enough_loop_spec (S n) (queue s) offset (Z.of_nat n) (co_tiles s C) Hw ltac:(lia)) as He.
  destruct (sorter.enough_loop _ _ _ _).
  - left. assert (Hall := proj1 He eq_refl). split; [|done]. f_equal. by apply copy_loop_spec; [apply C|..]; try lia.
  - right. split; [done|]. intros Hall. by apply He in Hall.
Qed.

(** ** Sequences of frames and reads *)

Inductive frame_op :=
  | OpPush (data : slice) (offset : Z) (doneCb : option nat)
  | OpPop.

(** The sorter, the bytes read and the callbacks that came with them *)
Definition step (st : frameSorter * bytes * list nat) (op : frame_op) : outcome (frameSorter * bytes * list nat) :=
  let '(s, out, handed) := st in
  match op with
  | OpPush data offset cb =>
      let! '(s, err) := sorter.Push s data offset cb in
      match err with None => Ret (s, out, handed) | Some e => Err e end
  | OpPop =>
      let! '(s, _, data, cb) := sorter.Pop s in
      Ret (s, out ++ (match data with Some d => content d | None => [] end), handed ++ option_list cb)
  end.

Definition run (ops : list frame_op) : outcome (frameSorter * bytes * list nat) :=
  ofold step ops (sorter.newFrameSorter, [], []).

(** What the frame parser and flow control ensure *)
Definition in_bounds (op : frame_op) : Prop :=
  match op with OpPush d o _ => 0 <= o /\ o + len (content d) < MaxByteCount | OpPop => True end.

Definition of_stream (stream : Z -> Z) (op : frame_op) : Prop :=
  match op with OpPush d o _ => carries stream o d | OpPop => True end.

Definition covers (x : Z) (op : frame_op) : Prop :=
  match op with OpPush d o _ => brought d o x | OpPop => False end.

#[global] Instance covers_dec x op : Decision (covers x op).
Proof. destruct op; cbn; [unfold brought|]; apply _. Defined.

Definition with_callback (op : frame_op) : Prop :=
  match op with OpPush d _ cb => owns d cb | OpPop => True end.

Definition pushed_callbacks (ops : list frame_op) : list nat :=
  omap (fun op => match op with OpPush _ _ cb => cb | OpPop => None end) ops.

Record run_inv (ops : list frame_op) (s : frameSorter) (out : bytes) (handed : list nat) : Prop := {
  ri_consistent : consistent s;
  ri_missing : forall x, missing_in (gaps s) x <-> 0 <= x < MaxByteCount /\ ~ Exists (covers x) ops;
  ri_stream : forall stream, Forall (of_stream stream) ops ->
    agrees stream (queue s) /\ out = segment stream 0 (Z.to_nat (readPos s));
  ri_held : held (queue s) (released s) ++ handed ≡ₚ pushed_callbacks ops;
  ri_owned : Forall with_callback ops -> owned (queue s);
  ri_len : linkedlist.Len (gaps s) <= MaxStreamFrameSorterGaps;
}.

Lemma new_consistent : consistent sorter.newFrameSorter.
Proof.
  split.
  - split; cbn; [unfold MaxByteCount; lia | unfold top; cbn; done | apply NoDup_singleton | by repeat constructor].
  - by split.
  - done.
  - intros x. unfold missing_in. cbn. autorewrite with gaps. cbn. lia.
  - intros x. unfold missing_in. cbn. autorewrite with gaps. cbn. split; [by intros (? & ? & ? & _) | lia].
Qed.

Lemma new_run_inv : run_inv [] sorter.newFrameSorter [] [].
Proof.
  split; [apply new_consistent| | | | |done].
  - intros x. unfold missing_in. cbn. autorewrite with gaps. rewrite Exists_nil. cbn. tauto.
  - intros stream _. by split.
  - done.
  - by intros _ ? ?.
Qed.

Lemma step_inv ops op s out handed : run_inv ops s out handed -> in_bounds op ->
  match step (s, out, handed) op with
  | Ret (s', out', handed') => run_inv (ops ++ [op]) s' out' handed'
  | Err e => e = sorter.errTooManyGaps
  | Panic => False
  end.
Proof.
  intros [C Hmiss Hstr Hheld Hown Hlen] Hop. destruct op as [d o cb|]; cbn [step].
  - destruct Hop as [Ho Hmax].
    destruct (Push_cases s d o cb C Ho Hmax) as [(s' & -> & A)|(s' & -> & _)]; cbn [obind]; [|done].
    destruct A as [A1 A2 A3 A4 A5 A6 A7]. split; [done| | | | |auto].
    + intros x. rewrite A3, Hmiss, Exists_app, Exists_cons, Exists_nil. cbn. tauto.
    + intros stream [H1 H2]%Forall_app. apply Forall_cons in H2 as [H2 _]. rewrite A2.
      destruct (Hstr stream H1) as [Ha ->]. split; [by apply A4 | done].
    + unfold pushed_callbacks in *. rewrite omap_app, <- Hheld, A5. cbn.
      rewrite <- !app_assoc. apply Permutation_app_head. rewrite Permutation_app_comm. destruct cb; cbn; by rewrite ?app_nil_r.
    + intros [H1 H2]%Forall_app. apply Forall_cons in H2 as [H2 _]. auto.
  - destruct (Pop_spec s C) as (s' & offset & data & cb & -> & P1 & P2 & P3 & _ & P4). cbn [obind].
    assert (Hc : pushed_callbacks (ops ++ [OpPop]) = pushed_callbacks ops).
    { unfold pushed_callbacks. rewrite omap_app. cbn. by rewrite app_nil_r. }
    assert (Hm : forall x, missing_in (gaps s') x <-> 0 <= x < MaxByteCount /\ ~ Exists (covers x) (ops ++ [OpPop])).
    { intros x. rewrite P2, Hmiss, Exists_app, Exists_cons, Exists_nil. cbn. tauto. }
    split; [done | done | | | |by rewrite P2]; rewrite ?Hc.
    + intros stream [H1 _]%Forall_app. destruct (Hstr stream H1) as [Ha ->]. destruct data as [d|].
      * destruct P4 as (Q1 & -> & -> & Q3 & _). split; [by intros o e [_ He]%lookup_delete_Some; apply Ha|].
        pose proof (Ha _ _ Q1) as Hd. cbn in Hd. unfold carries in Hd. rewrite Hd at 1.
        pose proof (co_readPos s C). unfold len in *. rewrite Z2Nat.inj_add, Nat2Z.id, segment_app, Z2Nat.id by lia. done.
      * destruct P4 as (_ & -> & _). by rewrite app_nil_r.
    + rewrite <- Hheld. destruct data as [d|].
      * destruct P4 as (Q1 & -> & _). unfold held. rewrite P3, (callbacks_delete _ _ _ Q1). cbn [DoneCb].
        rewrite <- !app_assoc. apply Permutation_app_head. rewrite (app_assoc _ handed), Permutation_app_comm. done.
      * destruct P4 as (_ & -> & ->). cbn. by rewrite app_nil_r.
    + intros [H1 _]%Forall_app. destruct data as [d|].
      * destruct P4 as (_ & -> & _). intros o e [_ He]%lookup_delete_Some. by eapply Hown.
      * destruct P4 as (_ & -> & _). auto.
Qed.

Lemma run_outcome ops : Forall in_bounds ops ->
  match run ops with
  | Ret (s, out, handed) => run_inv ops s out handed
  | Err e => e = sorter.errTooManyGaps
  | Panic => False
  end.
Proof.
  induction ops as [|op ops IH] using rev_ind; intros Hb; [apply new_run_inv|].
  apply Forall_app in Hb as [Hb Hop]. apply Forall_cons in Hop as [Hop _]. specialize (IH Hb).
  unfold run in *. rewrite ofold_app. destruct (ofold _ _ _) as [[[s out] handed]|e|]; cbn [obind]; [|done..].
  cbn [ofold]. pose proof (step_inv _ _ _ _ _ IH Hop) as Hs. by destruct (step _ _) as [[[s' out'] handed']|e|].
Qed.

Lemma run_Ret ops s out handed : Forall in_bounds ops -> run ops = Ret (s, out, handed) -> run_inv ops s out handed.
Proof. intros Hb Hr. pose proof (run_outcome ops Hb) as H. by rewrite Hr in H. Qed.

(** Reading until there is nothing to read *)
Lemma drain_stuck n s out handed : queue s !! readPos s = None ->
  ofold step (repeat OpPop n) (s, out, handed) = Ret (s, out, handed).
Proof.
  intros Hn. induction n as [|n IH]; [done|]. cbn [repeat ofold step]. unfold sorter.Pop. rewrite Hn. cbn.
  by rewrite !app_nil_r.
Qed.

Lemma drain n : forall s out handed, consistent s -> (size (queue s) <= n)%nat ->
  exists s' more handed', ofold step (repeat OpPop n) (s, out, handed) = Ret (s', out ++ more, handed') /\
    missing_in (gaps s') (readPos s').
Proof.
  induction n as [|n IH]; intros s out handed C Hn; (destruct (queue s !! readPos s) as [e|] eqn:E;
    [|exists s, [], handed; rewrite app_nil_r; split; [by apply drain_stuck | by apply (readPos_entry s C)]]).
  - assert (Hq : queue s = ∅) by (apply map_size_empty_inv; lia). by rewrite Hq in E.
  - cbn [repeat ofold step]. destruct (Pop_spec s C) as (s' & o & [d|] & cb & -> & P1 & P2 & _ & _ & P4); cbn [obind].
    + destruct P4 as (Q1 & Q2 & _). pose proof (size_delete _ _ _ Q1).
      destruct (IH s' (out ++ content d) (handed ++ option_list cb) P1 ltac:(rewrite Q2; lia)) as (s2 & more & h2 & -> & Hm).
      exists s2, (content d ++ more), h2. by rewrite app_assoc.
    + destruct P4 as (Hm & _). apply (readPos_entry s C) in Hm. congruence.
Qed.

Lemma pops_Forall n (P : frame_op -> Prop) : P OpPop -> Forall P (repeat OpPop n).
Proof. intros HP. induction n as [|n IH]; [by apply List.Forall_nil | by apply List.Forall_cons]. Qed.

(** ** Properties *)

(** Whatever was pushed and read before, [Push] of a frame that ends below
    the largest offset does not panic, and afterwards exactly the bytes are
    missing that no frame brought.  It refuses a frame only when this leaves
    more than [MaxStreamFrameSorterGaps] gaps, and never keeps more. *)
Theorem Push_refines ops s out handed data offset cb : Forall in_bounds ops -> run ops = Ret (s, out, handed) ->
  in_bounds (OpPush data offset cb) ->
  exists s' err, sorter.Push s data offset cb = Ret (s', err) /\
    (forall x, missing_in (gaps s') x <-> 0 <= x < MaxByteCount /\ ~ Exists (covers x) (ops ++ [OpPush data offset cb])) /\
    match err with
    | None => linkedlist.Len (gaps s') <= MaxStreamFrameSorterGaps
    | Some e => e = sorter.errTooManyGaps /\ MaxStreamFrameSorterGaps < linkedlist.Len (gaps s')
    end.
Proof.
  intros Hb Hr [Ho Hmax]. destruct (run_Ret _ _ _ _ Hb Hr) as [C Hmiss _ _ _ Hlen].
  assert (Hcov : forall gs, (forall x, missing_in gs x <-> missing_in (gaps s) x /\ ~ brought data offset x) ->
    forall x, missing_in gs x <-> 0 <= x < MaxByteCount /\ ~ Exists (covers x) (ops ++ [OpPush data offset cb])).
  { intros gs Hgs x. rewrite Hgs, Hmiss, Exists_app, Exists_cons, Exists_nil. cbn. tauto. }
  destruct (Push_cases s data offset cb C Ho Hmax) as [(s' & -> & A)|(s' & -> & Hlen' & Hm)].
  - exists s', None. split; [done|]. split; [apply Hcov, A | by apply (ac_len _ _ _ _ _ A)].
  - exists s', (Some sorter.errTooManyGaps). split; [done|]. by split; [apply Hcov|].
Qed.

(** C22. Frames of a stream arrive in any order, cut and repeated in any way,
    and are read in between: no sequence of pushes and pops panics, and when
    none of the pushes was refused, reading on gives the longest prefix of the
    stream that the frames cover, byte for byte. *)
Theorem frames_reassembled stream ops : Forall in_bounds ops -> Forall (of_stream stream) ops ->
  run ops = Err sorter.errTooManyGaps \/
  exists s out handed, run ops = Ret (s, out, handed) /\
  exists s' more handed' n,
    run (ops ++ repeat OpPop (size (queue s))) = Ret (s', out ++ more, handed') /\
    out ++ more = segment stream 0 n /\
    (forall x, 0 <= x < Z.of_nat n -> Exists (covers x) ops) /\ ~ Exists (covers (Z.of_nat n)) ops.
Proof.
  intros Hb Hs. pose proof (run_outcome ops Hb) as Hout.
  destruct (run ops) as [[[s out] handed]|e|] eqn:Hr; [|left; by rewrite Hout | done]. right.
  exists s, out, handed. split; [done|].
  destruct (drain (size (queue s)) s out handed (ri_consistent _ _ _ _ Hout) (le_n _)) as (s' & more & handed' & Hd & Hm).
  assert (Hr' : run (ops ++ repeat OpPop (size (queue s))) = Ret (s', out ++ more, handed')).
  { unfold run in *. by rewrite ofold_app, Hr. }
  pose proof (pops_Forall (size (queue s))) as Hpops.
  assert (Hcov : forall x, Exists (covers x) (ops ++ repeat OpPop (size (queue s))) <-> Exists (covers x) ops).
  { intros x. rewrite Exists_app. split; [|by left]. intros [?|Hx]; [done|].
    by apply Forall_Exists_neg in Hx; [|apply (Hpops (fun op => ~ covers x op)); intros []]. }
  pose proof (run_Ret _ _ _ _ (Forall_app_2 _ _ _ Hb (Hpops in_bounds I)) Hr') as [C Hmiss Hstr _ _ _].
  destruct (Hstr stream (Forall_app_2 _ _ _ Hs (Hpops (of_stream stream) I))) as [_ Hseg].
  pose proof (co_readPos s' C) as Hrd. exists s', more, handed', (Z.to_nat (readPos s')).
  split; [done|]. split; [done|]. rewrite Z2Nat.id by done. rewrite <- Hcov. apply Hmiss in Hm as [Hmax Hm].
  split; [|done]. intros x Hx. rewrite <- Hcov. destruct (decide (Exists (covers x) (ops ++ repeat OpPop (size (queue s))))); [done|].
  assert (Hxm : missing_in (gaps s') x) by (apply Hmiss; split; [lia | done]).
  pose proof (co_unread s' C x Hxm). lia.
Qed.

Definition letters (stream_from : Z) (n : nat) : bytes := segment (fun x => x mod 256) stream_from n.
Definition frame (k : nat) (o : Z) (n : nat) : frame_op :=
  OpPush {| buffer := Some k; content := letters o n |} o (Some k).

(** Frames that overlap, arrive out of order, and leave a hole at 14 *)
Definition demo_ops : list frame_op :=
  [frame 0 4 3; frame 1 2 4; OpPop; frame 2 0 3; OpPop; frame 3 8 6; frame 4 3 7; frame 5 20 5; frame 6 16 6].

Lemma demo_in_bounds : Forall in_bounds demo_ops.
Proof. repeat (apply Forall_cons_2; [by vm_compute|]). apply Forall_nil_2. Qed.
Lemma demo_of_stream : Forall (of_stream (fun x => x mod 256)) demo_ops.
Proof. repeat (apply Forall_cons_2; [by vm_compute|]). apply Forall_nil_2. Qed.
Lemma demo_with_callback : Forall with_callback demo_ops.
Proof. repeat (apply Forall_cons_2; [first [exact I | by intros ? [= <-]]|]). apply Forall_nil_2. Qed.

Lemma frames_reassembled_witness :
  run demo_ops = Err sorter.errTooManyGaps \/
  exists s out handed, run demo_ops = Ret (s, out, handed) /\
  exists s' more handed' n,
    run (demo_ops ++ repeat OpPop (size (queue s))) = Ret (s', out ++ more, handed') /\
    out ++ more = letters 0 n /\
    (forall x, 0 <= x < Z.of_nat n -> Exists (covers x) demo_ops) /\ ~ Exists (covers (Z.of_nat n)) demo_ops.
Proof. exact (frames_reassembled (fun x => x mod 256) demo_ops demo_in_bounds demo_of_stream). Defined.

(** [demo_ops] is accepted; reading gives 14 bytes, and six are left behind the hole. *)
Example demo_frames : exists s, run demo_ops = Ret (s, letters 0 2, []) /\
  option_map (fun r => r.1.2) (match run (demo_ops ++ repeat OpPop (size (queue s))) with Ret r => Some r | _ => None end)
  = Some (letters 0 14) /\ released s = [1; 2; 4; 6]%nat.
Proof. eexists. split; [vm_compute; reflexivity|]. split; vm_compute; reflexivity. Qed.

Lemma demo_outcome : exists s, run demo_ops = Ret (s, letters 0 2, []).
Proof. eexists. vm_compute. reflexivity. Qed.

Lemma Push_refines_witness : exists s, run demo_ops = Ret (s, letters 0 2, []) /\
  exists s' err, sorter.Push s {| buffer := None; content := letters 12 6 |} 12 None = Ret (s', err) /\
    ~ missing_in (gaps s') 15.
Proof.
  destruct demo_outcome as [s H]. exists s. split; [exact H|].
  assert (Hin : in_bounds (OpPush {| buffer := None; content := letters 12 6 |} 12 None)) by (split; [lia | vm_compute; reflexivity]).
  destruct (Push_refines demo_ops s (letters 0 2) [] {| buffer := None; content := letters 12 6 |} 12 None
    demo_in_bounds H Hin) as (s' & err & Hp & Hm & _).
  exists s', err. split; [exact Hp|]. rewrite Hm. intros [_ Hn]. apply Hn, Exists_app. right.
  apply Exists_cons. left. split; [lia | vm_compute; reflexivity].
Defined.

(** Every frame's buffer is given back once.  When the frames come in
    distinct buffers, each with the callback that gives its buffer back: every
    callback was called, waits in the queue or was handed to the reader with
    the data, exactly once in all; and no entry of the queue lies in a buffer
    that was given back or handed out. *)
Theorem buffers_given_back_once ops s out handed : Forall in_bounds ops -> Forall with_callback ops ->
  NoDup (pushed_callbacks ops) -> run ops = Ret (s, out, handed) ->
  released s ++ callbacks (queue s) ++ handed ≡ₚ pushed_callbacks ops /\
  forall o e k, queue s !! o = Some e -> buffer (Data e) = Some k -> k ∉ released s /\ k ∉ handed.
Proof.
  intros Hb Hc Hnd Hr. destruct (run_Ret _ _ _ _ Hb Hr) as [_ _ _ Hheld Hown _].
  unfold held in Hheld. rewrite <- app_assoc in Hheld. split; [done|]. intros o e k He Hk.
  apply (Hown Hc o e He) in Hk.
  assert (Hin : k ∈ callbacks (queue s)).
  { apply list_elem_of_omap. exists (o, e). split; [by apply elem_of_map_to_list | done]. }
  rewrite <- Hheld in Hnd. apply NoDup_app in Hnd as (_ & H1 & H2). apply NoDup_app in H2 as (_ & H2 & _).
  split; [|by apply H2]. intros Hrel. apply (H1 k Hrel). apply elem_of_app. by left.
Qed.

Lemma buffers_given_back_once_witness : exists s out handed, run demo_ops = Ret (s, out, handed) /\
  released s ++ callbacks (queue s) ++ handed ≡ₚ pushed_callbacks demo_ops.
Proof.
  destruct demo_outcome as [s H]. exists s, (letters 0 2), []. split; [exact H|].
  apply (buffers_given_back_once demo_ops s (letters 0 2) [] demo_in_bounds demo_with_callback); [|exact H].
  apply (bool_decide_unpack _). vm_compute. exact I.
Defined.

(** A frame that ends at the largest offset finds no end gap: the code panics.
    Flow control never lets such a frame through. *)
Lemma last_offset_panics : sorter.Push sorter.newFrameSorter {| buffer := None; content := [7] |} (MaxByteCount - 1) None = Panic.
Proof. reflexivity. Qed.
