(* ===== verification/FlowControl.v ===== *)
(** * Flow control

    [src/deps/quic-go/internal/flowcontrol]: what an endpoint may send, and
    what it has allowed its peer to send, for each stream and for the
    connection.  A stream's controller calls the connection's, which it shares
    with the other streams: its operations take both and return both.  What an
    operation asks its surroundings is in an [env]: the time, the round trip
    time, and the application's answer to a larger window. *)
From S2P Require Import Prelude GoFloat Protocol Frames.

Local Open Scope Z_scope.
Local Open Scope go_scope.

Record env := { now : Z; SmoothedRTT : Z; allow : Z -> bool }.

(** [baseFlowController]; [hasAllow] says that [allowWindowIncrease] is not
    nil. *)
Record base := {
  bytesSent : Z;
  sendWindow : Z;
  lastBlockedAt : Z;
  bytesRead : Z;
  highestReceived : Z;
  receiveWindow : Z;
  receiveWindowSize : Z;
  maxReceiveWindowSize : Z;
  hasAllow : bool;
  epochStartTime : Z;
  epochStartOffset : Z;
}.

Definition with_sending (c : base) (sent window blocked : Z) : base :=
  {| bytesSent := sent; sendWindow := window; lastBlockedAt := blocked; bytesRead := bytesRead c;
     highestReceived := highestReceived c; receiveWindow := receiveWindow c; receiveWindowSize := receiveWindowSize c;
     maxReceiveWindowSize := maxReceiveWindowSize c; hasAllow := hasAllow c; epochStartTime := epochStartTime c;
     epochStartOffset := epochStartOffset c |}.

Definition with_receiving (c : base) (read highest window size : Z) : base :=
  {| bytesSent := bytesSent c; sendWindow := sendWindow c; lastBlockedAt := lastBlockedAt c; bytesRead := read;
     highestReceived := highest; receiveWindow := window; receiveWindowSize := size;
     maxReceiveWindowSize := maxReceiveWindowSize c; hasAllow := hasAllow c; epochStartTime := epochStartTime c;
     epochStartOffset := epochStartOffset c |}.

Definition with_epoch (c : base) (time offset : Z) : base :=
  {| bytesSent := bytesSent c; sendWindow := sendWindow c; lastBlockedAt := lastBlockedAt c; bytesRead := bytesRead c;
     highestReceived := highestReceived c; receiveWindow := receiveWindow c; receiveWindowSize := receiveWindowSize c;
     maxReceiveWindowSize := maxReceiveWindowSize c; hasAllow := hasAllow c; epochStartTime := time;
     epochStartOffset := offset |}.

Definition FlowControlError : Z := 3.
Definition FinalSizeError : Z := 6.

(** ** Both kinds of controllers *)
Module Base.

Definition SendWindowSize (c : base) : Z :=
  if sendWindow c <? bytesSent c then 0 else i64 (sendWindow c - bytesSent c).

(** If it is newly blocked, and at which offset *)
Definition IsNewlyBlocked (c : base) : base * (bool * Z) :=
  if negb (SendWindowSize c =? 0) || (sendWindow c =? lastBlockedAt c) then (c, (false, 0))
  else (with_sending c (bytesSent c) (sendWindow c) (sendWindow c), (true, sendWindow c)).

Definition AddBytesSent (c : base) (n : Z) : base :=
  with_sending c (i64 (bytesSent c + n)) (sendWindow c) (lastBlockedAt c).

Definition UpdateSendWindow (c : base) (offset : Z) : base * bool :=
  if sendWindow c <? offset then (with_sending c (bytesSent c) offset (lastBlockedAt c), true) else (c, false).

Definition addBytesRead (c : base) (n : Z) : base :=
  with_receiving c (i64 (bytesRead c + n)) (highestReceived c) (receiveWindow c) (receiveWindowSize c).

(** [protocol.ByteCount(float64(size) * (1 - protocol.WindowUpdateThreshold))] *)
Definition threshold (size : Z) : Z := int_of_f64 (fmul (f64 size) (fconst 3 4)).

Definition hasWindowUpdate (c : base) : bool :=
  i64 (receiveWindow c - bytesRead c) <=? threshold (receiveWindowSize c).

Definition startNewAutoTuningEpoch (c : base) (now : Z) : base := with_epoch c now (bytesRead c).

Definition maybeAdjustWindowSize (c : base) (e : env) : base :=
  let bytesReadInEpoch := i64 (bytesRead c - epochStartOffset c) in
  if bytesReadInEpoch <=? Z.quot (receiveWindowSize c) 2 then c else
  let rtt := SmoothedRTT e in
  if rtt =? 0 then c else
  let fraction := fdiv (f64 bytesReadInEpoch) (f64 (receiveWindowSize c)) in
  let c :=
    if i64 (now e - epochStartTime c) <? int_of_f64 (fmul (fmul (f64 4) fraction) (f64 rtt)) then
      let newSize := Z.min (i64 (2 * receiveWindowSize c)) (maxReceiveWindowSize c) in
      if (receiveWindowSize c <? newSize) && (negb (hasAllow c) || allow e (i64 (newSize - receiveWindowSize c)))
      then with_receiving c (bytesRead c) (highestReceived c) (receiveWindow c) newSize else c
    else c in
  startNewAutoTuningEpoch c (now e).

(** The new window, 0 if it is not updated *)
Definition getWindowUpdate (c : base) (e : env) : base * Z :=
  if negb (hasWindowUpdate c) then (c, 0) else
  let c := maybeAdjustWindowSize c e in
  let w := i64 (bytesRead c + receiveWindowSize c) in
  (with_receiving c (bytesRead c) (highestReceived c) w (receiveWindowSize c), w).

Definition checkFlowControlViolation (c : base) : bool := receiveWindow c <? highestReceived c.

End Base.

(** ** The connection's controller *)
Module Connection.

Definition New (window maxWindow : Z) (hasAllow : bool) : base :=
  {| bytesSent := 0; sendWindow := 0; lastBlockedAt := 0; bytesRead := 0; highestReceived := 0;
     receiveWindow := window; receiveWindowSize := window; maxReceiveWindowSize := maxWindow; hasAllow := hasAllow;
     epochStartTime := 0; epochStartOffset := 0 |}.

Definition IncrementHighestReceived (c : base) (increment : Z) (e : env) : base * option goerror :=
  let c := if highestReceived c =? 0 then Base.startNewAutoTuningEpoch c (now e) else c in
  let c := with_receiving c (bytesRead c) (i64 (highestReceived c + increment)) (receiveWindow c) (receiveWindowSize c) in
  (c,
   if Base.checkFlowControlViolation c
   then Some (TransportError FlowControlError 0
                (Errorf "received %d bytes for the connection, allowed %d bytes"
                   [pretty (highestReceived c); pretty (receiveWindow c)]))
   else None).

Definition AddBytesRead (c : base) (n : Z) : base * bool :=
  let c := Base.addBytesRead c n in (c, Base.hasWindowUpdate c).

Definition GetWindowUpdate (c : base) (e : env) : base * Z := Base.getWindowUpdate c e.

(** The callback is called without a check for nil. *)
Definition EnsureMinimumWindowSize (c : base) (inc : Z) (e : env) : outcome base :=
  if inc <=? receiveWindowSize c then Ret c else
  let newSize := Z.min inc (maxReceiveWindowSize c) in
  let delta := i64 (newSize - receiveWindowSize c) in
  let! c :=
    (if 0 <? delta then
       if negb (hasAllow c) then Panic else
       Ret (if allow e delta then with_receiving c (bytesRead c) (highestReceived c) (receiveWindow c) newSize else c)
     else Ret c) in
  Ret (Base.startNewAutoTuningEpoch c (now e)).

Definition Reset (c : base) : base * option goerror :=
  if (0 <? bytesRead c) || (0 <? highestReceived c) || negb (epochStartTime c =? 0)
  then (c, Some (Errorf "flow controller reset after reading data" []))
  else (with_sending c 0 0 0, None).

End Connection.

(** ** A stream's controller *)

Record stream_controller := { ctrl : base; streamID : Z; receivedFinalOffset : bool }.

Definition with_ctrl (s : stream_controller) (c : base) : stream_controller :=
  {| ctrl := c; streamID := streamID s; receivedFinalOffset := receivedFinalOffset s |}.

Module StreamFlow.

Definition New (id window maxWindow initialSendWindow : Z) : stream_controller :=
  {| ctrl := {| bytesSent := 0; sendWindow := initialSendWindow; lastBlockedAt := 0; bytesRead := 0; highestReceived := 0;
                receiveWindow := window; receiveWindowSize := window; maxReceiveWindowSize := maxWindow;
                hasAllow := false; epochStartTime := 0; epochStartOffset := 0 |};
     streamID := id; receivedFinalOffset := false |}.

Definition inconsistent_final (s : stream_controller) (offset : Z) : goerror :=
  TransportError FinalSizeError 0
    (Errorf "received inconsistent final offset for stream %d (old: %d, new: %d bytes)"
       [pretty (streamID s); pretty (highestReceived (ctrl s)); pretty offset]).
Definition beyond_final (s : stream_controller) (offset : Z) : goerror :=
  TransportError FinalSizeError 0
    (Errorf "received offset %d for stream %d, but final offset was already received at %d"
       [pretty offset; pretty (streamID s); pretty (highestReceived (ctrl s))]).
Definition final_too_low (s : stream_controller) (offset : Z) : goerror :=
  TransportError FinalSizeError 0
    (Errorf "received final offset %d for stream %d, but already received offset %d before"
       [pretty offset; pretty (streamID s); pretty (highestReceived (ctrl s))]).
Definition stream_violation (s : stream_controller) (offset : Z) : goerror :=
  TransportError FlowControlError 0
    (Errorf "received %d bytes on stream %d, allowed %d bytes"
       [pretty offset; pretty (streamID s); pretty (receiveWindow (ctrl s))]).

(** The two controllers afterwards, and the error *)
Definition UpdateHighestReceived (s : stream_controller) (conn : base) (offset : Z) (final : bool) (e : env)
    : stream_controller * base * option goerror :=
  let known := receivedFinalOffset s in
  if known && final && negb (offset =? highestReceived (ctrl s)) then (s, conn, Some (inconsistent_final s offset)) else
  if known && (highestReceived (ctrl s) <? offset) then (s, conn, Some (beyond_final s offset)) else
  let s := {| ctrl := ctrl s; streamID := streamID s; receivedFinalOffset := final || receivedFinalOffset s |} in
  let c := ctrl s in
  if offset =? highestReceived c then (s, conn, None) else
  if offset <? highestReceived c then (s, conn, if final then Some (final_too_low s offset) else None) else
  let c := if highestReceived c =? 0 then Base.startNewAutoTuningEpoch c (now e) else c in
  let increment := i64 (offset - highestReceived c) in
  let s := with_ctrl s (with_receiving c (bytesRead c) offset (receiveWindow c) (receiveWindowSize c)) in
  if Base.checkFlowControlViolation (ctrl s) then (s, conn, Some (stream_violation s offset)) else
  let '(conn, err) := Connection.IncrementHighestReceived conn increment e in
  (s, conn, err).

Definition shouldQueueWindowUpdate (s : stream_controller) : bool :=
  negb (receivedFinalOffset s) && Base.hasWindowUpdate (ctrl s).

(** The two controllers, and which of them has a window update *)
Definition AddBytesRead (s : stream_controller) (conn : base) (n : Z) : stream_controller * base * bool * bool :=
  let s := with_ctrl s (Base.addBytesRead (ctrl s) n) in
  let '(conn, hasConn) := Connection.AddBytesRead conn n in
  (s, conn, shouldQueueWindowUpdate s, hasConn).

Definition Abandon (s : stream_controller) (conn : base) : stream_controller * base :=
  let c := ctrl s in
  let unread := i64 (highestReceived c - bytesRead c) in
  let s := with_ctrl s (with_receiving c (highestReceived c) (highestReceived c) (receiveWindow c) (receiveWindowSize c)) in
  (s, if 0 <? unread then (Connection.AddBytesRead conn unread).1 else conn).

Definition AddBytesSent (s : stream_controller) (conn : base) (n : Z) : stream_controller * base :=
  (with_ctrl s (Base.AddBytesSent (ctrl s) n), Base.AddBytesSent conn n).

Definition SendWindowSize (s : stream_controller) (conn : base) : Z :=
  Z.min (Base.SendWindowSize (ctrl s)) (Base.SendWindowSize conn).

Definition IsNewlyBlocked (s : stream_controller) : stream_controller * bool :=
  let '(c, (blocked, _)) := Base.IsNewlyBlocked (ctrl s) in (with_ctrl s c, blocked).

Definition UpdateSendWindow (s : stream_controller) (offset : Z) : stream_controller * bool :=
  let '(c, updated) := Base.UpdateSendWindow (ctrl s) offset in (with_ctrl s c, updated).

(** [protocol.ByteCount(float64(size) * protocol.ConnectionFlowControlMultiplier)] *)
Definition connection_size (size : Z) : Z := int_of_f64 (fmul (f64 size) (fconst 3 2)).

Definition GetWindowUpdate (s : stream_controller) (conn : base) (e : env)
    : outcome (stream_controller * base * Z) :=
  if receivedFinalOffset s then Ret (s, conn, 0) else
  let oldWindowSize := receiveWindowSize (ctrl s) in
  let '(c, offset) := Base.getWindowUpdate (ctrl s) e in
  let s := with_ctrl s c in
  let! conn :=
    (if oldWindowSize <? receiveWindowSize c
     then Connection.EnsureMinimumWindowSize conn (connection_size (receiveWindowSize c)) e else Ret conn) in
  Ret (s, conn, offset).

End StreamFlow.
