(* ===== verification/FlowControlFacts.v ===== *)
(** * Flow control: what the operations of the controllers do

    The threshold of a window update is computed in floating point; it is
    exactly three quarters of the window.  Each operation moves the counters
    it is about and leaves the rest, a window never shrinks, and it is open
    after an update. *)
From S2P Require Import Prelude GoFloat Protocol Frames FlowControl.

Local Open Scope Z_scope.
Local Open Scope go_scope.

Lemma threshold_exact size : 0 <= size < 2 ^ 51 -> Base.threshold size = size * 3 / 4.
Proof. intros H. unfold Base.threshold. change (fconst 3 4) with (norm 3 (- 2)). apply (int_of_product size 3 2); lia. Qed.

Lemma threshold_bounds size : 0 <= size < 2 ^ 51 -> 0 <= Base.threshold size <= size.
Proof. intros H. rewrite threshold_exact by done. split; [apply Z.div_pos|apply Z.div_le_upper_bound]; lia. Qed.

Definition max_size : Z := 2 ^ 50.
Definition max_total : Z := 2 ^ 61.

(** The receiving half of a controller, with its window and its counters in
    their ranges *)
Record receiving (c : base) : Prop := {
  rcv_read : 0 <= bytesRead c <= highestReceived c;
  rcv_window : highestReceived c <= receiveWindow c <= bytesRead c + receiveWindowSize c;
  rcv_total : highestReceived c <= max_total;
  rcv_size : 0 < receiveWindowSize c <= max_size;
  rcv_max : 0 <= maxReceiveWindowSize c <= max_size;
}.

Ltac unfold_bounds := unfold max_size, max_total in *.

Lemma hasWindowUpdate_spec c :
  receiving c -> Base.hasWindowUpdate c = (receiveWindow c - bytesRead c <=? receiveWindowSize c * 3 / 4).
Proof.
  intros []. unfold_bounds. unfold Base.hasWindowUpdate. rewrite threshold_exact by lia. by rewrite i64_small by lia.
Qed.

Lemma hasWindowUpdate_empty c : receiving c -> receiveWindow c <= bytesRead c -> Base.hasWindowUpdate c = true.
Proof.
  intros Hc Hw. rewrite hasWindowUpdate_spec by done. apply Z.leb_le. destruct Hc.
  assert (0 <= receiveWindowSize c * 3 / 4) by (apply Z.div_pos; lia). lia.
Qed.

(** [c'] is [c] with these counters, its epoch and its window size as
    auto-tuning may have left them. *)
Record moves (c c' : base) (read highest window : Z) : Prop := {
  mv_sent : bytesSent c' = bytesSent c;
  mv_send_window : sendWindow c' = sendWindow c;
  mv_read : bytesRead c' = read;
  mv_highest : highestReceived c' = highest;
  mv_window : receiveWindow c' = window;
  mv_size : receiveWindowSize c <= receiveWindowSize c';
  mv_limit : receiveWindowSize c' <= Z.max (receiveWindowSize c) (maxReceiveWindowSize c);
  mv_max : maxReceiveWindowSize c' = maxReceiveWindowSize c;
  mv_allow : hasAllow c' = hasAllow c;
}.

Notation tuned c c' := (moves c c' (bytesRead c) (highestReceived c) (receiveWindow c)).

Ltac moved := constructor; cbn; try done; lia.

Lemma tuned_refl c : tuned c c.
Proof. moved. Qed.

Lemma moves_epoch c c' r h w now : moves c c' r h w -> moves c (Base.startNewAutoTuningEpoch c' now) r h w.
Proof. by intros []. Qed.

Lemma tuned_receiving c c' : tuned c c' -> receiving c -> receiving c'.
Proof. intros [] []. moved. Qed.

Lemma maybeAdjust_tuned c e : tuned c (Base.maybeAdjustWindowSize c e).
Proof.
  unfold Base.maybeAdjustWindowSize. case_match; [apply tuned_refl|]. case_match; [apply tuned_refl|].
  apply moves_epoch. case_match; [|apply tuned_refl].
  case Z.ltb_spec; intros Hlt; cbn [andb]; [|apply tuned_refl].
  case_match; [|apply tuned_refl]. moved.
Qed.

Lemma ensureMinimum_tuned c inc e :
  receiving c -> hasAllow c = true -> exists c', Connection.EnsureMinimumWindowSize c inc e = Ret c' /\ tuned c c'.
Proof.
  intros Hc Ha. unfold Connection.EnsureMinimumWindowSize. case Z.leb_spec; intros Hi.
  { exists c. split; [done|apply tuned_refl]. }
  rewrite i64_small by (destruct Hc; unfold_bounds; lia).
  case Z.ltb_spec; intros Hd; rewrite ?Ha; cbn [negb obind]; eexists; (split; [done|]); apply moves_epoch.
  - case_match; [|apply tuned_refl]. moved.
  - apply tuned_refl.
Qed.

(** The window is open after an update, and what is returned is the new
    window, or nothing when it is still the old one. *)
Lemma getWindowUpdate_spec c e :
  receiving c ->
  exists c' v, Base.getWindowUpdate c e = (c', v) /\ receiving c' /\
    moves c c' (bytesRead c) (highestReceived c) (receiveWindow c') /\
    receiveWindow c <= receiveWindow c' /\ bytesRead c < receiveWindow c' /\
    (v = receiveWindow c' \/ v = 0 /\ receiveWindow c' = receiveWindow c).
Proof.
  intros Hc. unfold Base.getWindowUpdate. destruct (Base.hasWindowUpdate c) eqn:Eh; cbn [negb].
  - pose proof (maybeAdjust_tuned c e) as Ht. set (c' := Base.maybeAdjustWindowSize c e) in *.
    pose proof (tuned_receiving c c' Ht Hc) as Hc'.
    rewrite hasWindowUpdate_spec in Eh by done. apply Z.leb_le in Eh.
    assert (receiveWindowSize c * 3 / 4 <= receiveWindowSize c) by (destruct Hc; apply Z.div_le_upper_bound; lia).
    rewrite i64_small by (destruct Hc'; unfold_bounds; lia).
    destruct Ht, Hc, Hc'. do 2 eexists. split; [done|]. split; [moved|]. split; [moved|]. cbn. lia.
  - exists c, 0. split; [done|]. split; [done|]. split; [moved|].
    assert (~ receiveWindow c <= bytesRead c) by (intros Hw; by rewrite hasWindowUpdate_empty in Eh). lia.
Qed.

Lemma GetWindowUpdate_spec s conn e :
  receiving (ctrl s) -> receiving conn -> hasAllow conn = true ->
  exists s' conn' v, StreamFlow.GetWindowUpdate s conn e = Ret (s', conn', v) /\ receiving (ctrl s') /\
    tuned conn conn' /\ moves (ctrl s) (ctrl s') (bytesRead (ctrl s)) (highestReceived (ctrl s)) (receiveWindow (ctrl s')) /\
    receiveWindow (ctrl s) <= receiveWindow (ctrl s') /\
    (receivedFinalOffset s = false -> bytesRead (ctrl s) < receiveWindow (ctrl s')) /\
    (v = receiveWindow (ctrl s') \/ v = 0 /\ receiveWindow (ctrl s') = receiveWindow (ctrl s)) /\
    streamID s' = streamID s /\ receivedFinalOffset s' = receivedFinalOffset s.
Proof.
  intros Hs Hc Ha. unfold StreamFlow.GetWindowUpdate. destruct (receivedFinalOffset s) eqn:Ef.
  { exists s, conn, 0. split; [done|]. split; [done|]. split; [moved|]. split; [moved|]. rewrite Ef. auto with lia. }
  destruct (getWindowUpdate_spec (ctrl s) e Hs) as (c' & v & -> & Hc' & Hm & Hw & Ho & Hv).
  assert (He : exists conn', (if receiveWindowSize (ctrl s) <? receiveWindowSize c'
    then Connection.EnsureMinimumWindowSize conn (StreamFlow.connection_size (receiveWindowSize c')) e else Ret conn) = Ret conn'
    /\ tuned conn conn').
  { case_match; [by apply ensureMinimum_tuned|]. exists conn. split; [done|moved]. }
  destruct He as (conn' & He & Ht). exists (with_ctrl s c'), conn', v. rewrite He. cbn. rewrite Ef. done.
Qed.

Lemma IncrementHighestReceived_spec c inc e :
  0 <= highestReceived c -> 0 <= inc -> highestReceived c + inc <= receiveWindow c -> highestReceived c + inc <= max_total ->
  exists c', Connection.IncrementHighestReceived c inc e = (c', None) /\
    moves c c' (bytesRead c) (highestReceived c + inc) (receiveWindow c).
Proof.
  intros H0 Hi Hw Ht. unfold_bounds. unfold Connection.IncrementHighestReceived, Base.checkFlowControlViolation.
  case_match; cbn; rewrite i64_small by lia; (rewrite (proj2 (Z.ltb_ge _ _)) by lia); eexists; (split; [done|]); moved.
Qed.

(** What a conforming frame does to the two controllers of a stream *)
Lemma UpdateHighestReceived_spec s conn off fin e (h := highestReceived (ctrl s)) (h' := Z.max h off) :
  0 <= off -> h' <= receiveWindow (ctrl s) -> h' <= max_total -> 0 <= h ->
  (receivedFinalOffset s = true -> off <= h) -> (fin = true -> off = h') ->
  0 <= highestReceived conn -> highestReceived conn + (h' - h) <= receiveWindow conn ->
  highestReceived conn + (h' - h) <= max_total ->
  exists s' conn', StreamFlow.UpdateHighestReceived s conn off fin e = (s', conn', None) /\
    moves (ctrl s) (ctrl s') (bytesRead (ctrl s)) h' (receiveWindow (ctrl s)) /\
    moves conn conn' (bytesRead conn) (highestReceived conn + (h' - h)) (receiveWindow conn) /\
    streamID s' = streamID s /\ receivedFinalOffset s' = fin || receivedFinalOffset s.
Proof.
  intros H0 Hw Ht Hh Hk Hf Hc Hcw Hct. unfold_bounds. unfold StreamFlow.UpdateHighestReceived. fold h.
  assert (Hif : receivedFinalOffset s && fin && negb (off =? h) = false).
  { destruct (receivedFinalOffset s), fin; try done. cbn. specialize (Hk eq_refl). specialize (Hf eq_refl).
    by rewrite (proj2 (Z.eqb_eq off h)) by lia. }
  assert (Hib : receivedFinalOffset s && (h <? off) = false).
  { destruct (receivedFinalOffset s); [|done]. cbn. specialize (Hk eq_refl). apply Z.ltb_ge. lia. }
  rewrite Hif, Hib. cbn [ctrl]. fold h.
  case Z.eqb_spec; intros He.
  { do 2 eexists. split; [done|]. replace h' with h by lia. split; [moved|]. split; [moved|done]. }
  case Z.ltb_spec; intros Hl.
  { destruct fin; [specialize (Hf eq_refl); lia|]. do 2 eexists. split; [done|]. replace h' with h by lia.
    split; [moved|]. split; [moved|done]. }
  destruct (IncrementHighestReceived_spec conn (h' - h) e) as (conn' & Ei & Hm);
    [unfold_bounds; lia..|].
  set (c1 := if h =? 0 then Base.startNewAutoTuningEpoch (ctrl s) (now e) else ctrl s).
  assert (Ht1 : tuned (ctrl s) c1) by (subst c1; case_match; [apply moves_epoch|]; apply tuned_refl).
  destruct Ht1. assert (Hi : i64 (off - highestReceived c1) = h' - h) by (rewrite i64_small; lia).
  unfold Base.checkFlowControlViolation. cbn [with_ctrl ctrl with_receiving receiveWindow highestReceived].
  rewrite Hi, Ei, (proj2 (Z.ltb_ge _ _)) by lia. do 2 eexists. split; [done|]. split; [moved|done].
Qed.

(** What it means that a frame was accepted *)
Lemma UpdateHighestReceived_ok s conn off fin e s' conn' (h := highestReceived (ctrl s)) (h' := Z.max h off) :
  receiving (ctrl s) -> receiving conn -> 0 <= off -> h' <= max_total -> highestReceived conn + (h' - h) <= max_total ->
  StreamFlow.UpdateHighestReceived s conn off fin e = (s', conn', None) ->
  moves (ctrl s) (ctrl s') (bytesRead (ctrl s)) h' (receiveWindow (ctrl s)) /\
  moves conn conn' (bytesRead conn) (highestReceived conn + (h' - h)) (receiveWindow conn) /\
  streamID s' = streamID s /\ receivedFinalOffset s' = fin || receivedFinalOffset s /\
  receiving (ctrl s') /\ receiving conn' /\
  (receivedFinalOffset s = true -> h' = h) /\ (fin = true -> off = h').
Proof.
  intros Hs Hc H0 Ht Hct Hu. pose proof Hs as []. pose proof Hc as [].
  assert (Hall : (receivedFinalOffset s = true -> off <= h) /\ (fin = true -> off = h') /\
    h' <= receiveWindow (ctrl s) /\ highestReceived conn + (h' - h) <= receiveWindow conn).
  { revert Hu. unfold StreamFlow.UpdateHighestReceived. fold h.
    destruct (receivedFinalOffset s && fin && negb (off =? h)) eqn:E1; [done|].
    destruct (receivedFinalOffset s && (h <? off)) eqn:E2; [done|]. cbn [ctrl]. fold h.
    assert (Hk : receivedFinalOffset s = true -> off <= h).
    { intros Hk. rewrite Hk in E2. cbn in E2. by apply Z.ltb_ge. }
    case Z.eqb_spec; intros He; [intros _; split; [done|]; lia|].
    case Z.ltb_spec; intros Hl.
    { destruct fin; [done|]. intros _. split; [done|]. split; [done|]. lia. }
    set (c1 := if h =? 0 then Base.startNewAutoTuningEpoch (ctrl s) (now e) else ctrl s).
    assert (Hc1 : receiveWindow c1 = receiveWindow (ctrl s) /\ highestReceived c1 = h) by (subst c1; by case_match).
    destruct Hc1 as [Hw1 Hh1]. unfold Base.checkFlowControlViolation. cbn [with_ctrl ctrl with_receiving receiveWindow highestReceived].
    rewrite Hw1, Hh1. case Z.ltb_spec; intros Hv; [done|].
    unfold_bounds. rewrite (i64_small (off - h)) by lia. unfold Connection.IncrementHighestReceived, Base.checkFlowControlViolation.
    set (c2 := if highestReceived conn =? 0 then Base.startNewAutoTuningEpoch conn (now e) else conn).
    assert (Hc2 : receiveWindow c2 = receiveWindow conn /\ highestReceived c2 = highestReceived conn) by (subst c2; by case_match).
    destruct Hc2 as [Hw2 Hh2]. cbn [with_receiving receiveWindow highestReceived]. rewrite Hw2, Hh2.
    rewrite i64_small by lia. case Z.ltb_spec; intros Hv2; [done|]. intros _. split; [done|]. lia. }
  destruct Hall as (H1 & H2 & H3 & H4).
  destruct (UpdateHighestReceived_spec s conn off fin e) as (s1 & c1 & Hu1 & Hm & Hmc & Hid & Hf); try lia; try done.
  rewrite Hu in Hu1. injection Hu1 as <- <-. fold h in Hm, Hmc |- *. fold h' in Hm, Hmc.
  split; [done|]. split; [done|]. split; [done|]. split; [done|]. destruct Hm, Hmc.
  split; [moved|]. split; [moved|]. split; [|done]. intros Hk. specialize (H1 Hk). lia.
Qed.

Lemma AddBytesRead_spec s conn n :
  0 <= n -> 0 <= bytesRead (ctrl s) -> 0 <= bytesRead conn ->
  bytesRead (ctrl s) + n <= max_total -> bytesRead conn + n <= max_total ->
  exists s' conn' hasConn, StreamFlow.AddBytesRead s conn n = (s', conn', StreamFlow.shouldQueueWindowUpdate s', hasConn) /\
    moves (ctrl s) (ctrl s') (bytesRead (ctrl s) + n) (highestReceived (ctrl s)) (receiveWindow (ctrl s)) /\
    moves conn conn' (bytesRead conn + n) (highestReceived conn) (receiveWindow conn) /\
    streamID s' = streamID s /\ receivedFinalOffset s' = receivedFinalOffset s.
Proof.
  intros. unfold_bounds. unfold StreamFlow.AddBytesRead, Connection.AddBytesRead, Base.addBytesRead.
  rewrite !i64_small by lia. do 3 eexists. split; [done|]. split; [moved|]. split; [moved|done].
Qed.

Lemma Abandon_spec s conn (n := highestReceived (ctrl s) - bytesRead (ctrl s)) :
  0 <= bytesRead (ctrl s) -> 0 <= n -> highestReceived (ctrl s) <= max_total ->
  0 <= bytesRead conn -> bytesRead conn + n <= max_total ->
  exists s' conn', StreamFlow.Abandon s conn = (s', conn') /\
    moves (ctrl s) (ctrl s') (highestReceived (ctrl s)) (highestReceived (ctrl s)) (receiveWindow (ctrl s)) /\
    moves conn conn' (bytesRead conn + n) (highestReceived conn) (receiveWindow conn) /\
    streamID s' = streamID s /\ receivedFinalOffset s' = receivedFinalOffset s.
Proof.
  intros. unfold_bounds. unfold StreamFlow.Abandon, Connection.AddBytesRead, Base.addBytesRead. fold n.
  rewrite !i64_small by lia. do 2 eexists. split; [done|]. split; [moved|]. split; [|done].
  case Z.ltb_spec; intros; moved.
Qed.
