(* ===== verification/FlowControlProps.v ===== *)
(** * Flow control: the two ends together

    A sender and a receiver, each with a controller for the connection and one
    for every stream, and between them a network that keeps every frame and
    delivers any of them, any number of times, in any order.  A sender that
    respects its windows is never accused of exceeding them, and a sender that
    is blocked is not blocked for ever. *)
From S2P Require Import Prelude GoFloat Protocol Frames FlowControl FlowControlFacts.

Local Open Scope Z_scope.
Local Open Scope go_scope.

(** ** The system *)

(** The offset at which a frame's data ends, and if it is the last one; the
    limits a receiver grants *)
Inductive message :=
  | DataMsg (i : nat) (offset : Z) (fin : bool)
  | MaxDataMsg (v : Z)
  | MaxStreamDataMsg (i : nat) (v : Z).

Record sending_end := { s_flow : stream_controller; s_finished : bool }.

(** [r_queued]: a MAX_STREAM_DATA frame is queued ([queuedMaxStreamData] of a
    receive stream). *)
Record receiving_end := { r_flow : stream_controller; r_queued : bool; r_abandoned : bool }.

Record system := {
  s_conn : base;
  s_streams : list sending_end;
  r_conn : base;
  r_streams : list receiving_end;
  net : list message;
}.

Section System.
Context (connWindow connMax streamWindow streamMax : Z).

Definition init : system :=
  {| s_conn := (Base.UpdateSendWindow (Connection.New connWindow connMax true) connWindow).1; s_streams := [];
     r_conn := Connection.New connWindow connMax true; r_streams := []; net := [] |}.

Definition opened (st : system) (id : Z) : system :=
  {| s_conn := s_conn st;
     s_streams := s_streams st ++ [{| s_flow := StreamFlow.New id streamWindow streamMax streamWindow; s_finished := false |}];
     r_conn := r_conn st;
     r_streams := r_streams st ++
       [{| r_flow := StreamFlow.New id streamWindow streamMax streamWindow; r_queued := false; r_abandoned := false |}];
     net := net st |}.

Definition with_sender (st : system) (i : nat) (s : sending_end) (c : base) : system :=
  {| s_conn := c; s_streams := <[i := s]> (s_streams st); r_conn := r_conn st; r_streams := r_streams st; net := net st |}.
Definition with_receiver (st : system) (i : nat) (r : receiving_end) (c : base) : system :=
  {| s_conn := s_conn st; s_streams := s_streams st; r_conn := c; r_streams := <[i := r]> (r_streams st); net := net st |}.
Definition with_net (st : system) (m : message) : system :=
  {| s_conn := s_conn st; s_streams := s_streams st; r_conn := r_conn st; r_streams := r_streams st; net := m :: net st |}.

(** What the receiver and the network do on their own to open windows *)
Inductive update : system -> system -> Prop :=
  | StreamUpdate st i r e f c v :
      r_streams st !! i = Some r -> r_queued r = true ->
      StreamFlow.GetWindowUpdate (r_flow r) (r_conn st) e = Ret (f, c, v) ->
      update st (with_net (with_receiver st i {| r_flow := f; r_queued := false; r_abandoned := r_abandoned r |} c)
                   (MaxStreamDataMsg i v))
  | ConnUpdate st e c v :
      Connection.GetWindowUpdate (r_conn st) e = (c, v) -> 0 < v ->
      update st (with_net {| s_conn := s_conn st; s_streams := s_streams st; r_conn := c; r_streams := r_streams st;
                             net := net st |} (MaxDataMsg v))
  | RecvMaxData st v :
      MaxDataMsg v ∈ net st ->
      update st {| s_conn := (Base.UpdateSendWindow (s_conn st) v).1; s_streams := s_streams st; r_conn := r_conn st;
                   r_streams := r_streams st; net := net st |}
  | RecvMaxStreamData st i s v :
      MaxStreamDataMsg i v ∈ net st -> s_streams st !! i = Some s ->
      update st (with_sender st i {| s_flow := (StreamFlow.UpdateSendWindow (s_flow s) v).1; s_finished := s_finished s |}
                   (s_conn st)).

(** Data is sent as far as the windows allow, in frames that may be cut up
    and sent again; the receiver reads what it has, or gives up on a stream. *)
Inductive step : system -> system -> Prop :=
  | Update st st' : update st st' -> step st st'
  | Open st id : step st (opened st id)
  | Send st i s n f c :
      s_streams st !! i = Some s -> s_finished s = false ->
      0 <= n <= StreamFlow.SendWindowSize (s_flow s) (s_conn st) -> bytesSent (s_conn st) + n <= max_total ->
      StreamFlow.AddBytesSent (s_flow s) (s_conn st) n = (f, c) ->
      step st (with_sender st i {| s_flow := f; s_finished := false |} c)
  | Finish st i s :
      s_streams st !! i = Some s ->
      step st (with_sender st i {| s_flow := s_flow s; s_finished := true |} (s_conn st))
  | Transmit st i s offset fin :
      s_streams st !! i = Some s -> 0 <= offset <= bytesSent (ctrl (s_flow s)) ->
      (fin = true -> s_finished s = true /\ offset = bytesSent (ctrl (s_flow s))) ->
      step st (with_net st (DataMsg i offset fin))
  | RecvData st i r offset fin e f c err :
      DataMsg i offset fin ∈ net st -> r_streams st !! i = Some r ->
      StreamFlow.UpdateHighestReceived (r_flow r) (r_conn st) offset fin e = (f, c, err) ->
      step st (with_receiver st i {| r_flow := f; r_queued := r_queued r; r_abandoned := r_abandoned r |} c)
  | Read st i r n f c hasStream hasConn :
      r_streams st !! i = Some r ->
      0 <= n <= highestReceived (ctrl (r_flow r)) - bytesRead (ctrl (r_flow r)) ->
      StreamFlow.AddBytesRead (r_flow r) (r_conn st) n = (f, c, hasStream, hasConn) ->
      step st (with_receiver st i {| r_flow := f; r_queued := r_queued r || hasStream; r_abandoned := r_abandoned r |} c)
  | Abandon st i r f c :
      r_streams st !! i = Some r -> StreamFlow.Abandon (r_flow r) (r_conn st) = (f, c) ->
      step st (with_receiver st i {| r_flow := f; r_queued := r_queued r; r_abandoned := true |} c).

Definition reachable (st : system) : Prop := rtc step init st.

End System.

(** ** Sums over streams *)
Fixpoint total {A : Type} (f : A -> Z) (l : list A) : Z := match l with [] => 0 | a :: l => f a + total f l end.

Lemma total_app {A : Type} (f : A -> Z) l k : total f (l ++ k) = total f l + total f k.
Proof. induction l as [|a l IH]; cbn; [done|]. rewrite IH. lia. Qed.

Lemma total_insert {A : Type} (f : A -> Z) l i a b :
  l !! i = Some a -> total f (<[i := b]> l) = total f l - f a + f b.
Proof.
  revert i. induction l as [|c l IH]; intros [|i] Hi; try done.
  - injection Hi as ->. cbn. lia.
  - change (f c + total f (<[i := b]> l) = f c + total f l - f a + f b). rewrite (IH i Hi). lia.
Qed.

Lemma total_le {A B : Type} (f : A -> Z) (g : B -> Z) l k : Forall2 (fun a b => f a <= g b) l k -> total f l <= total g k.
Proof. induction 1; cbn; lia. Qed.

(** Sums differ at least by what one pair of elements differs by. *)
Lemma total_le_at {A B : Type} (f : A -> Z) (g : B -> Z) l k i a b :
  Forall2 (fun a b => f a <= g b) l k -> l !! i = Some a -> k !! i = Some b -> total f l - f a <= total g k - g b.
Proof.
  intros Hl. revert i. induction Hl as [|x y l k Hxy Hl IH]; intros [|i] Ha Hb; try done; cbn in *.
  - injection Ha as ->. injection Hb as ->. pose proof (total_le _ _ _ _ Hl). lia.
  - specialize (IH i Ha Hb). lia.
Qed.

Lemma total_at {A : Type} (f : A -> Z) l i a : Forall (fun a => 0 <= f a) l -> l !! i = Some a -> f a <= total f l.
Proof.
  intros Hl. revert i.
  induction Hl as [|b l Hb Hl IH]; intros [|i] Ha; try done; cbn in *.
  - injection Ha as ->. enough (0 <= total f l) by lia. clear -Hl. induction Hl; cbn; lia.
  - specialize (IH i Ha). lia.
Qed.

(** ** The invariant *)
(** The two controllers of a stream *)
Record stream_ok (net : list message) (i : nat) (s : sending_end) (r : receiving_end) : Prop := {
  so_receiving : receiving (ctrl (r_flow r));
  so_sent : highestReceived (ctrl (r_flow r)) <= bytesSent (ctrl (s_flow s));
  so_send_window : bytesSent (ctrl (s_flow s)) <= sendWindow (ctrl (s_flow s)) <= receiveWindow (ctrl (r_flow r));
  so_final : receivedFinalOffset (r_flow r) = true ->
             s_finished s = true /\ highestReceived (ctrl (r_flow r)) = bytesSent (ctrl (s_flow s));
  so_queued : r_abandoned r = false -> receivedFinalOffset (r_flow r) = false ->
              receiveWindow (ctrl (r_flow r)) <= bytesRead (ctrl (r_flow r)) -> r_queued r = true;
  so_granted : receiveWindow (ctrl (r_flow r)) <= sendWindow (ctrl (s_flow s)) \/
               MaxStreamDataMsg i (receiveWindow (ctrl (r_flow r))) ∈ net;
}.

Definition message_ok (st : system) (m : message) : Prop :=
  match m with
  | DataMsg i offset fin => exists s, s_streams st !! i = Some s /\ 0 <= offset <= bytesSent (ctrl (s_flow s)) /\
      (fin = true -> s_finished s = true /\ offset = bytesSent (ctrl (s_flow s)))
  | MaxDataMsg v => v <= receiveWindow (r_conn st)
  | MaxStreamDataMsg i v => exists r, r_streams st !! i = Some r /\ v <= receiveWindow (ctrl (r_flow r))
  end.

Definition sent (s : sending_end) : Z := bytesSent (ctrl (s_flow s)).
Definition received (r : receiving_end) : Z := highestReceived (ctrl (r_flow r)).
Definition read (r : receiving_end) : Z := bytesRead (ctrl (r_flow r)).

Record inv (st : system) : Prop := {
  inv_length : length (s_streams st) = length (r_streams st);
  inv_streams : forall i s r, s_streams st !! i = Some s -> r_streams st !! i = Some r -> stream_ok (net st) i s r;
  inv_conn : receiving (r_conn st);
  inv_allow : hasAllow (r_conn st) = true;
  inv_sent : bytesSent (s_conn st) = total sent (s_streams st) /\ bytesSent (s_conn st) <= max_total;
  inv_received : highestReceived (r_conn st) = total received (r_streams st);
  inv_read : bytesRead (r_conn st) = total read (r_streams st);
  inv_window : bytesSent (s_conn st) <= sendWindow (s_conn st) <= receiveWindow (r_conn st);
  inv_granted : receiveWindow (r_conn st) <= sendWindow (s_conn st) \/ MaxDataMsg (receiveWindow (r_conn st)) ∈ net st;
  inv_net : Forall (message_ok st) (net st);
}.

(** Updates and data find the windows open. *)
Lemma stream_ok_mono net net' i s r : net ⊆ net' -> stream_ok net i s r -> stream_ok net' i s r.
Proof. intros Hn []. constructor; auto. naive_solver. Qed.

(** One stream's sending end and the connection's change. *)
Lemma inv_sender st i s r s' c :
  inv st -> s_streams st !! i = Some s -> r_streams st !! i = Some r -> stream_ok (net st) i s' r ->
  sent s <= sent s' -> (s_finished s = true -> s_finished s' = true /\ sent s' = sent s) ->
  bytesSent c = bytesSent (s_conn st) - sent s + sent s' -> bytesSent c <= max_total ->
  bytesSent c <= sendWindow c <= receiveWindow (r_conn st) -> sendWindow (s_conn st) <= sendWindow c ->
  inv (with_sender st i s' c).
Proof.
  intros [] Hs Hr Hok Hle Hfin Hb Ht Hw Hg. constructor; cbn; auto; rewrite ?length_insert; auto.
  - intros j s1 r1. rewrite list_lookup_insert_Some. intros [(<- & <- & _)|[_ Hj]] Hr1; [|eauto].
    by simplify_eq.
  - rewrite (total_insert _ _ _ s) by done. lia.
  - destruct inv_granted0; [left; lia|by right].
  - eapply Forall_impl; [done|]. intros [j off fin|v|j v]; cbn; auto.
    intros (s1 & H1 & H2 & H3). destruct (decide (i = j)) as [<-|Hne].
    + exists s'. rewrite list_lookup_insert_eq by (by eapply lookup_lt_Some). unfold sent in *. simplify_eq.
      split; [done|]. split; [lia|]. intros Hf. destruct (H3 Hf) as [Hf' ->]. by destruct (Hfin Hf').
    + exists s1. by rewrite list_lookup_insert_ne.
Qed.

(** One stream's receiving end and the connection's change, and the receiver
    may send a message. *)
Lemma inv_receiver st i s r r' c ms (st' := with_receiver st i r' c) :
  inv st -> s_streams st !! i = Some s -> r_streams st !! i = Some r -> stream_ok (ms ++ net st) i s r' ->
  receiveWindow (ctrl (r_flow r)) <= receiveWindow (ctrl (r_flow r')) ->
  receiving c -> hasAllow c = true -> receiveWindow c = receiveWindow (r_conn st) ->
  highestReceived c = highestReceived (r_conn st) - received r + received r' ->
  bytesRead c = bytesRead (r_conn st) - read r + read r' ->
  Forall (message_ok st') ms ->
  inv {| s_conn := s_conn st'; s_streams := s_streams st'; r_conn := r_conn st'; r_streams := r_streams st';
         net := ms ++ net st' |}.
Proof.
  intros [] Hs Hr Hok Hle Hc Ha Hw Hh Hb Hms. constructor; cbn; auto; rewrite ?length_insert; auto.
  - intros j s1 r1 Hs1. rewrite list_lookup_insert_Some. intros [(<- & <- & _)|[_ Hj]]; [by simplify_eq|].
    eapply stream_ok_mono; [|eauto]. set_solver.
  - rewrite (total_insert _ _ _ r) by done. lia.
  - rewrite (total_insert _ _ _ r) by done. lia.
  - by rewrite Hw.
  - rewrite Hw. destruct inv_granted0; [by left|right; set_solver].
  - apply Forall_app. split; [done|]. eapply Forall_impl; [done|]. intros [j off fin|v|j v]; cbn; auto; [lia|].
    intros (r1 & H1 & H2). destruct (decide (i = j)) as [<-|Hne].
    + exists r'. rewrite list_lookup_insert_eq by (by eapply lookup_lt_Some). simplify_eq. split; [done|lia].
    + exists r1. by rewrite list_lookup_insert_ne.
Qed.

Lemma partner st i r : inv st -> r_streams st !! i = Some r -> exists s, s_streams st !! i = Some s.
Proof. intros Hi Hr. apply lookup_lt_is_Some. rewrite inv_length by done. by eapply lookup_lt_Some. Qed.

Lemma partner' st i s : inv st -> s_streams st !! i = Some s -> exists r, r_streams st !! i = Some r.
Proof. intros Hi Hs. apply lookup_lt_is_Some. rewrite <-inv_length by done. by eapply lookup_lt_Some. Qed.

(** What the connection has room for when a stream has it *)
Lemma conn_room st i s r h :
  inv st -> s_streams st !! i = Some s -> r_streams st !! i = Some r -> h <= sent s ->
  highestReceived (r_conn st) - received r + h <= bytesSent (s_conn st).
Proof.
  intros Hi Hs Hr Hh. rewrite inv_received by done. destruct (inv_sent st Hi) as [-> _].
  assert (Hf : Forall2 (fun r s => received r <= sent s) (r_streams st) (s_streams st)).
  { apply Forall2_same_length_lookup_2; [by rewrite inv_length|]. intros j r1 s1 H1 H2.
    by destruct (inv_streams _ Hi _ _ _ H2 H1). }
  pose proof (total_le_at _ _ _ _ _ _ _ Hf Hr Hs). lia.
Qed.

Lemma sent_total st i s : inv st -> s_streams st !! i = Some s -> sent s <= max_total.
Proof.
  intros Hi Hs. destruct (inv_sent st Hi) as [Ht Hle]. etransitivity; [|exact Hle]. rewrite Ht.
  apply (total_at _ _ i); [|done]. apply Forall_lookup_2. intros j s1 H1. destruct (partner' _ _ _ Hi H1) as [r Hr].
  destruct (inv_streams _ Hi _ _ _ H1 Hr) as [[]]. unfold sent. lia.
Qed.

Lemma conn_read st i r n :
  inv st -> r_streams st !! i = Some r -> n <= received r ->
  bytesRead (r_conn st) - read r + n <= highestReceived (r_conn st).
Proof.
  intros Hi Hr Hn. rewrite inv_read, inv_received by done.
  assert (Hf : Forall2 (fun r r' => read r <= received r') (r_streams st) (r_streams st)).
  { apply Forall2_same_length_lookup_2; [done|]. intros j r1 r2 H1 H2. simplify_eq.
    destruct (partner _ _ _ Hi H1) as [s1 Hs1]. destruct (inv_streams _ Hi _ _ _ Hs1 H1) as [[Hr1 _ _ _ _] _].
    unfold read, received. lia. }
  pose proof (total_le_at _ _ _ _ _ _ _ Hf Hr Hr). lia.
Qed.

(** A frame in the network makes no error. *)
Lemma data_accepted st i r offset fin e :
  inv st -> DataMsg i offset fin ∈ net st -> r_streams st !! i = Some r ->
  exists s f c, s_streams st !! i = Some s /\
    StreamFlow.UpdateHighestReceived (r_flow r) (r_conn st) offset fin e = (f, c, None) /\
    let h := Z.max (received r) offset in
    h <= sent s /\
    moves (ctrl (r_flow r)) (ctrl f) (read r) h (receiveWindow (ctrl (r_flow r))) /\
    moves (r_conn st) c (bytesRead (r_conn st)) (highestReceived (r_conn st) + (h - received r)) (receiveWindow (r_conn st)) /\
    receivedFinalOffset f = fin || receivedFinalOffset (r_flow r) /\
    (fin = true -> s_finished s = true /\ h = sent s).
Proof.
  intros Hi Hm Hr. destruct (proj1 (Forall_forall _ _) (inv_net _ Hi) _ Hm) as (s & Hs & Hoff & Hfin).
  destruct (inv_streams _ Hi _ _ _ Hs Hr) as [[] ? ? Hf _ _].
  pose proof (conn_room st i s r (Z.max (received r) offset) Hi Hs Hr) as Hroom.
  pose proof (sent_total st i s Hi Hs) as Hst.
  destruct (inv_window _ Hi), (inv_sent _ Hi) as [_ Ht], (inv_conn _ Hi). unfold sent, received, read in *.
  destruct (UpdateHighestReceived_spec (r_flow r) (r_conn st) offset fin e) as (f & c & Eu & Hms & Hmc & _ & Hfo); try lia.
  { intros Hk. destruct (Hf Hk). lia. }
  { intros ->. destruct (Hfin eq_refl). lia. }
  exists s, f, c. split; [done|]. split; [done|]. split; [lia|]. split; [done|]. split; [done|]. split; [done|].
  intros ->. destruct (Hfin eq_refl). split; [done|lia].
Qed.

(** ** Every step keeps the invariant *)
Lemma inv_with_net st m : inv st -> message_ok st m -> inv (with_net st m).
Proof.
  intros [] Hm. constructor; cbn; auto.
  - intros i s r Hs Hr. eapply stream_ok_mono; [|eauto]. set_solver.
  - destruct inv_granted0; [by left|right; set_solver].
Qed.

Lemma RecvData_inv st i r offset fin e f c err :
  inv st -> DataMsg i offset fin ∈ net st -> r_streams st !! i = Some r ->
  StreamFlow.UpdateHighestReceived (r_flow r) (r_conn st) offset fin e = (f, c, err) ->
  inv (with_receiver st i {| r_flow := f; r_queued := r_queued r; r_abandoned := r_abandoned r |} c).
Proof.
  intros Hi Hm Hr Hu. destruct (data_accepted st i r offset fin e Hi Hm Hr) as (s & f' & c' & Hs & Hu' & Hh & Hmf & Hmc & Hfo & Hfin).
  rewrite Hu in Hu'. injection Hu' as <- <- _.
  pose proof (inv_streams _ Hi _ _ _ Hs Hr) as [[] ? ? Hf Hq Hg]. pose proof (sent_total st i s Hi Hs) as Hst.
  pose proof (conn_room st i s r _ Hi Hs Hr Hh) as Hroom.
  destruct (inv_window _ Hi), (inv_sent _ Hi) as [_ Ht], (inv_conn _ Hi), Hmc.
  pose proof Hmf as [_ _ Er Eh Ew _ _ _ _]. destruct Hmf. unfold sent, received, read in *.
  apply (inv_receiver st i s r _ c []); auto; cbn; unfold read, received; cbn; try lia.
  - constructor; cbn; rewrite ?Eh, ?Ew, ?Er, ?Hfo; auto; try lia; [moved|..].
    + destruct fin; cbn; [intros _; destruct (Hfin eq_refl); auto with lia|].
      intros Hk. destruct (Hf Hk). split; [done|lia].
    + intros Hab [_ Hk]%orb_false_iff. by apply Hq.
  - moved.
  - by etransitivity; [|exact (inv_allow _ Hi)].
Qed.

Lemma Read_inv st i r n f c hasStream hasConn :
  inv st -> r_streams st !! i = Some r ->
  0 <= n <= highestReceived (ctrl (r_flow r)) - bytesRead (ctrl (r_flow r)) ->
  StreamFlow.AddBytesRead (r_flow r) (r_conn st) n = (f, c, hasStream, hasConn) ->
  inv (with_receiver st i {| r_flow := f; r_queued := r_queued r || hasStream; r_abandoned := r_abandoned r |} c).
Proof.
  intros Hi Hr Hn Ha. destruct (partner _ _ _ Hi Hr) as [s Hs].
  pose proof (inv_streams _ Hi _ _ _ Hs Hr) as [Hrc ? ? Hf Hq Hg].
  pose proof (conn_read st i r (read r + n) Hi Hr) as Hroom. pose proof Hrc as [].
  destruct (inv_conn _ Hi). unfold received, read in *.
  destruct (AddBytesRead_spec (r_flow r) (r_conn st) n) as (f' & c' & h' & Ha' & Hmf & Hmc & _ & Hfo); try lia.
  rewrite Ha in Ha'. injection Ha' as <- <- -> _. destruct Hmc.
  pose proof Hmf as [_ _ Er Eh Ew _ _ _ _]. destruct Hmf.
  assert (Hrf : receiving (ctrl f)) by moved.
  apply (inv_receiver st i s r _ c []); auto; cbn; unfold read, received; cbn; try lia.
  - constructor; cbn; rewrite ?Eh, ?Ew, ?Er, ?Hfo; auto.
    intros Hab Hk Hw. apply orb_true_iff. right. unfold StreamFlow.shouldQueueWindowUpdate.
    rewrite Hfo, Hk. cbn. apply hasWindowUpdate_empty; [done|lia].
  - moved.
  - by etransitivity; [|exact (inv_allow _ Hi)].
Qed.

Lemma Abandon_inv st i r f c :
  inv st -> r_streams st !! i = Some r -> StreamFlow.Abandon (r_flow r) (r_conn st) = (f, c) ->
  inv (with_receiver st i {| r_flow := f; r_queued := r_queued r; r_abandoned := true |} c).
Proof.
  intros Hi Hr Ha. destruct (partner _ _ _ Hi Hr) as [s Hs].
  pose proof (inv_streams _ Hi _ _ _ Hs Hr) as [Hrc ? ? Hf Hq Hg].
  pose proof (conn_read st i r (received r) Hi Hr) as Hroom. pose proof Hrc as [].
  destruct (inv_conn _ Hi). unfold received, read in *.
  destruct (Abandon_spec (r_flow r) (r_conn st)) as (f' & c' & Ha' & Hmf & Hmc & _ & Hfo); try lia.
  rewrite Ha in Ha'. injection Ha' as <- <-. destruct Hmc.
  pose proof Hmf as [_ _ Er Eh Ew _ _ _ _]. destruct Hmf.
  apply (inv_receiver st i s r _ c []); auto; cbn; unfold read, received; cbn; try lia.
  - constructor; cbn; rewrite ?Eh, ?Ew, ?Er, ?Hfo; auto; [moved|done].
  - moved.
  - by etransitivity; [|exact (inv_allow _ Hi)].
Qed.

Lemma StreamUpdate_inv st i r e f c v :
  inv st -> r_streams st !! i = Some r -> StreamFlow.GetWindowUpdate (r_flow r) (r_conn st) e = Ret (f, c, v) ->
  inv (with_net (with_receiver st i {| r_flow := f; r_queued := false; r_abandoned := r_abandoned r |} c)
         (MaxStreamDataMsg i v)) /\
  (receivedFinalOffset (r_flow r) = false -> bytesRead (ctrl (r_flow r)) < receiveWindow (ctrl f)).
Proof.
  intros Hi Hr Hg. destruct (partner _ _ _ Hi Hr) as [s Hs].
  pose proof (inv_streams _ Hi _ _ _ Hs Hr) as [Hrc ? ? Hf Hq Hgr].
  destruct (GetWindowUpdate_spec (r_flow r) (r_conn st) e) as (f' & c' & v' & Hg' & Hrf & Hmc & Hmf & Hw & Ho & Hv & _ & Hfo);
    [done|by apply inv_conn|by apply inv_allow|].
  rewrite Hg in Hg'. injection Hg' as <- <- <-. split; [|done].
  pose proof (tuned_receiving _ _ Hmc (inv_conn _ Hi)). destruct Hmc.
  pose proof Hmf as [_ _ Er Eh _ _ _ _ _]. destruct Hmf, Hrc.
  apply (inv_receiver st i s r _ c [MaxStreamDataMsg i v]); auto; cbn; unfold read, received; cbn; try lia.
  - constructor; cbn; rewrite ?Eh, ?Er, ?Hfo; auto; try lia.
    + intros Hab Hk Hcl. specialize (Ho Hk). lia.
    + destruct Hv as [-> | [-> Hv]]; [set_solver|]. rewrite Hv. destruct Hgr; [by left|set_solver].
  - by etransitivity; [|exact (inv_allow _ Hi)].
  - apply Forall_singleton. exists {| r_flow := f; r_queued := false; r_abandoned := r_abandoned r |}.
    split; [apply list_lookup_insert_eq; by eapply lookup_lt_Some|]. cbn. lia.
Qed.

Lemma ConnUpdate_inv st e c v :
  inv st -> Connection.GetWindowUpdate (r_conn st) e = (c, v) ->
  inv (with_net {| s_conn := s_conn st; s_streams := s_streams st; r_conn := c; r_streams := r_streams st;
                   net := net st |} (MaxDataMsg v)) /\ bytesRead (r_conn st) < receiveWindow c.
Proof.
  intros Hi Hg. destruct (getWindowUpdate_spec (r_conn st) e (inv_conn _ Hi)) as (c' & v' & Hg' & Hrc & Hm & Hw & Ho & Hv).
  unfold Connection.GetWindowUpdate in Hg. rewrite Hg in Hg'. injection Hg' as <- <-. split; [|done].
  pose proof Hm as [_ _ Er Eh _ _ _ _ Ea]. destruct Hi, Hrc. constructor; cbn; auto; try lia.
  - intros i s r Hs Hr. eapply stream_ok_mono; [|eauto]. set_solver.
  - constructor; lia.
  - congruence.
  - destruct Hv as [-> | [-> Hv]]; [set_solver|]. rewrite Hv. destruct inv_granted0; [by left|set_solver].
  - apply Forall_cons. split; [cbn; lia|]. eapply Forall_impl; [done|]. intros [] Hm'; cbn in *; auto. lia.
Qed.

Lemma UpdateSendWindow_spec c v :
  let c' := (Base.UpdateSendWindow c v).1 in
  bytesSent c' = bytesSent c /\ sendWindow c' = Z.max (sendWindow c) v.
Proof. unfold Base.UpdateSendWindow. case Z.ltb_spec; cbn; lia. Qed.

Lemma RecvMaxData_inv st v :
  inv st -> MaxDataMsg v ∈ net st ->
  inv {| s_conn := (Base.UpdateSendWindow (s_conn st) v).1; s_streams := s_streams st; r_conn := r_conn st;
         r_streams := r_streams st; net := net st |}.
Proof.
  intros Hi Hv. pose proof (proj1 (Forall_forall _ _) (inv_net _ Hi) _ Hv) as Hle. cbn in Hle.
  destruct (UpdateSendWindow_spec (s_conn st) v) as [Eb Ew]. destruct Hi. constructor; cbn; auto; rewrite ?Eb, ?Ew; auto; try lia.
  destruct inv_granted0; [left; lia|by right].
Qed.

Lemma RecvMaxStreamData_inv st i s v :
  inv st -> MaxStreamDataMsg i v ∈ net st -> s_streams st !! i = Some s ->
  inv (with_sender st i {| s_flow := (StreamFlow.UpdateSendWindow (s_flow s) v).1; s_finished := s_finished s |} (s_conn st)).
Proof.
  intros Hi Hv Hs. destruct (proj1 (Forall_forall _ _) (inv_net _ Hi) _ Hv) as (r & Hr & Hle).
  pose proof (inv_streams _ Hi _ _ _ Hs Hr) as [].
  assert (Hu : (StreamFlow.UpdateSendWindow (s_flow s) v).1 = with_ctrl (s_flow s) (Base.UpdateSendWindow (ctrl (s_flow s)) v).1).
  { unfold StreamFlow.UpdateSendWindow. by case Base.UpdateSendWindow. }
  rewrite Hu. destruct (UpdateSendWindow_spec (ctrl (s_flow s)) v) as [Eb Ew].
  apply (inv_sender st i s r); auto; unfold sent; cbn; rewrite ?Eb; auto; try lia.
  - constructor; cbn; rewrite ?Eb, ?Ew; auto; [lia|]. destruct so_granted0; [left; lia|by right].
  - by destruct (inv_sent _ Hi).
  - by destruct (inv_window _ Hi).
Qed.

Lemma Send_inv st i s n f c :
  inv st -> s_streams st !! i = Some s -> s_finished s = false ->
  0 <= n <= StreamFlow.SendWindowSize (s_flow s) (s_conn st) -> bytesSent (s_conn st) + n <= max_total ->
  StreamFlow.AddBytesSent (s_flow s) (s_conn st) n = (f, c) ->
  inv (with_sender st i {| s_flow := f; s_finished := false |} c).
Proof.
  intros Hi Hs Hfin Hn Ht Ha. destruct (partner' _ _ _ Hi Hs) as [r Hr].
  pose proof (inv_streams _ Hi _ _ _ Hs Hr) as [[] ? Hsw Hf ? ?]. destruct (inv_window _ Hi).
  pose proof (sent_total st i s Hi Hs). pose proof (inv_conn _ Hi) as [].
  pose proof (conn_room st i s r (received r) Hi Hs Hr) as Hroom. unfold sent, received, max_total, max_size in *.
  assert (Hw : n <= sendWindow (ctrl (s_flow s)) - bytesSent (ctrl (s_flow s)) /\ n <= sendWindow (s_conn st) - bytesSent (s_conn st)).
  { revert Hn. unfold StreamFlow.SendWindowSize, Base.SendWindowSize.
    rewrite !(proj2 (Z.ltb_ge _ _)) by lia. rewrite !i64_small by lia. lia. }
  unfold StreamFlow.AddBytesSent, Base.AddBytesSent in Ha. rewrite !i64_small in Ha by lia. injection Ha as <- <-.
  apply (inv_sender st i s r); auto; unfold sent; cbn; try lia; try congruence.
  constructor; cbn; auto; try lia; [constructor; unfold_bounds; lia|].
  intros Hk. destruct (Hf Hk). congruence.
Qed.

Lemma Finish_inv st i s :
  inv st -> s_streams st !! i = Some s ->
  inv (with_sender st i {| s_flow := s_flow s; s_finished := true |} (s_conn st)).
Proof.
  intros Hi Hs. destruct (partner' _ _ _ Hi Hs) as [r Hr]. pose proof (inv_streams _ Hi _ _ _ Hs Hr) as [].
  destruct (inv_window _ Hi), (inv_sent _ Hi).
  apply (inv_sender st i s r); auto; unfold sent; cbn; try lia.
  constructor; cbn; auto. intros Hk. by destruct (so_final0 Hk).
Qed.

(** ** Windows open again *)

(** A stream whose window the receiver has used up is granted a new one. *)
Lemma release_stream st i s r :
  inv st -> s_streams st !! i = Some s -> r_streams st !! i = Some r ->
  s_finished s = false -> r_abandoned r = false -> read r = sent s ->
  exists st' s', rtc update st st' /\ inv st' /\ s_streams st' !! i = Some s' /\
    sent s < sendWindow (ctrl (s_flow s')) /\ sent s' = sent s /\
    s_conn st' = s_conn st /\ bytesRead (r_conn st') = bytesRead (r_conn st).
Proof.
  intros Hi Hs Hr Hfin Hab Hrd.
  assert (Hk : receivedFinalOffset (r_flow r) = false).
  { destruct (inv_streams _ Hi _ _ _ Hs Hr) as [_ _ _ Hf _ _]. destruct receivedFinalOffset; [|done].
    destruct (Hf eq_refl). congruence. }
  assert (Ho : exists st1 r1, rtc update st st1 /\ inv st1 /\ s_streams st1 = s_streams st /\ r_streams st1 !! i = Some r1 /\
    sent s < receiveWindow (ctrl (r_flow r1)) /\ s_conn st1 = s_conn st /\ bytesRead (r_conn st1) = bytesRead (r_conn st)).
  { destruct (inv_streams _ Hi _ _ _ Hs Hr) as [Hrc _ _ _ Hq _].
    destruct (decide (receiveWindow (ctrl (r_flow r)) <= bytesRead (ctrl (r_flow r)))) as [Hc|Hc].
    - destruct (GetWindowUpdate_spec (r_flow r) (r_conn st) {| now := 0; SmoothedRTT := 0; allow := fun _ => false |})
        as (f & c & v & Hg & _ & [] & _); [done|by apply inv_conn|by apply inv_allow|].
      destruct (StreamUpdate_inv _ _ _ _ _ _ _ Hi Hr Hg) as [Hi1 Hlt].
      do 2 eexists. split; [eapply rtc_once, StreamUpdate; eauto|]. split; [done|]. split; [done|].
      split; [apply list_lookup_insert_eq; by eapply lookup_lt_Some|]. specialize (Hlt Hk).
      unfold read, sent in *. cbn. split; [lia|]. split; done || lia.
    - exists st, r. split; [done|]. unfold read in Hrd. split_and!; done || lia. }
  destruct Ho as (st1 & r1 & Hu & Hi1 & Es & Hr1 & Hlt & Ec & Eb). rewrite <-Es in Hs.
  destruct (inv_streams _ Hi1 _ _ _ Hs Hr1) as [_ _ _ _ _ [Hg|Hg]].
  { exists st1, s. split_and!; done || lia. }
  assert (Eu : (StreamFlow.UpdateSendWindow (s_flow s) (receiveWindow (ctrl (r_flow r1)))).1
    = with_ctrl (s_flow s) (Base.UpdateSendWindow (ctrl (s_flow s)) (receiveWindow (ctrl (r_flow r1)))).1).
  { unfold StreamFlow.UpdateSendWindow. by case Base.UpdateSendWindow. }
  destruct (UpdateSendWindow_spec (ctrl (s_flow s)) (receiveWindow (ctrl (r_flow r1)))) as [Eb' Ew].
  do 2 eexists. split; [eapply rtc_r; [exact Hu|eapply RecvMaxStreamData; eauto]|].
  split; [by apply RecvMaxStreamData_inv|]. split; [apply list_lookup_insert_eq; by eapply lookup_lt_Some|].
  unfold sent in *. cbn. rewrite Eu. cbn. rewrite Eb', Ew. auto with lia.
Qed.

(** So is the connection. *)
Lemma release_conn st :
  inv st -> bytesRead (r_conn st) = bytesSent (s_conn st) ->
  exists st', rtc update st st' /\ inv st' /\ s_streams st' = s_streams st /\
    bytesSent (s_conn st') < sendWindow (s_conn st').
Proof.
  intros Hi Hrd.
  assert (Ho : exists st1, rtc update st st1 /\ inv st1 /\ s_streams st1 = s_streams st /\ s_conn st1 = s_conn st /\
    bytesSent (s_conn st) < receiveWindow (r_conn st1)).
  { pose proof (inv_conn _ Hi) as Hrc. destruct (decide (receiveWindow (r_conn st) <= bytesRead (r_conn st))) as [Hc|Hc].
    - destruct (Connection.GetWindowUpdate (r_conn st) {| now := 0; SmoothedRTT := 0; allow := fun _ => false |})
        as [c v] eqn:Hg. destruct (ConnUpdate_inv _ _ _ _ Hi Hg) as [Hi1 Hlt].
      destruct (getWindowUpdate_spec _ {| now := 0; SmoothedRTT := 0; allow := fun _ => false |} Hrc)
        as (c' & v' & Hg' & _ & _ & _ & _ & Hv).
      unfold Connection.GetWindowUpdate in Hg. rewrite Hg in Hg'. injection Hg' as <- <-.
      eexists. split; [eapply rtc_once, (ConnUpdate _ _ c v); [exact Hg|]; destruct Hrc; lia|].
      split_and!; try done. cbn. lia.
    - exists st. split_and!; done || lia. }
  destruct Ho as (st1 & Hu & Hi1 & Es & Ec & Hlt). destruct (inv_granted _ Hi1) as [Hg|Hg].
  { exists st1. rewrite Ec in *. split_and!; done || lia. }
  destruct (UpdateSendWindow_spec (s_conn st1) (receiveWindow (r_conn st1))) as [Eb Ew].
  eexists. split; [eapply rtc_r; [exact Hu|by eapply RecvMaxData]|]. split; [by apply RecvMaxData_inv|].
  split; [done|]. cbn. rewrite Eb, Ew, Ec. lia.
Qed.

(** When every stream is read, so is the connection. *)
Lemma all_read st :
  inv st -> (forall i s r, s_streams st !! i = Some s -> r_streams st !! i = Some r -> read r = sent s) ->
  bytesRead (r_conn st) = bytesSent (s_conn st).
Proof.
  intros Hi Hall. rewrite inv_read by done. destruct (inv_sent _ Hi) as [-> _].
  apply Z.le_antisymm; apply total_le, Forall2_same_length_lookup_2; try (by rewrite inv_length);
    intros i a b Ha Hb; [rewrite (Hall i b a)|rewrite <-(Hall i a b)]; done.
Qed.

Section Windows.
Context (connWindow connMax streamWindow streamMax : Z).
Hypothesis Hcw : 0 < connWindow <= max_size.
Hypothesis Hcm : 0 <= connMax <= max_size.
Hypothesis Hsw : 0 < streamWindow <= max_size.
Hypothesis Hsm : 0 <= streamMax <= max_size.

Lemma Open_inv st id : inv st -> inv (opened streamWindow streamMax st id).
Proof.
  intros []. constructor; cbn; auto; rewrite ?length_app, ?total_app; cbn; try lia.
  - intros i s r Hs Hr. apply lookup_app_Some in Hs, Hr.
    destruct Hs as [Hs|[Hl Hs]], Hr as [Hr|[Hl' Hr]]; [eauto|..].
    + apply lookup_lt_Some in Hs. lia.
    + apply lookup_lt_Some in Hr. lia.
    + apply list_lookup_singleton_Some in Hs as [_ <-], Hr as [_ <-].
      unfold_bounds. constructor; cbn; try lia; constructor; cbn; unfold_bounds; lia.
  - eapply Forall_impl; [done|]. intros [i off fin|v|i v]; cbn; auto.
    + intros (s & Hs & Hm). exists s. split; [by apply lookup_app_l_Some|done].
    + intros (r & Hr & Hm). exists r. split; [by apply lookup_app_l_Some|done].
Qed.

Lemma init_inv : inv (init connWindow connMax).
Proof.
  unfold init. destruct (UpdateSendWindow_spec (Connection.New connWindow connMax true) connWindow) as [Eb Ew].
  revert Eb Ew. generalize (Base.UpdateSendWindow (Connection.New connWindow connMax true) connWindow).1. intros c Eb Ew.
  cbn in Eb, Ew. constructor; cbn; rewrite ?Eb, ?Ew; unfold_bounds; auto; try lia; [done|].
  constructor; cbn; unfold_bounds; lia.
Qed.

Lemma flow_inv st : reachable connWindow connMax streamWindow streamMax st -> inv st.
Proof.
  intros Hr. unfold reachable in Hr.
  refine (rtc_ind_r (R := step streamWindow streamMax) inv _ init_inv _ _ Hr). clear Hr st.
  intros st st' _ Hst Hi. destruct Hst as [st st' []| | | | | | |].
  - eapply StreamUpdate_inv; done.
  - eapply ConnUpdate_inv; done.
  - by apply RecvMaxData_inv.
  - by apply RecvMaxStreamData_inv.
  - by apply Open_inv.
  - by eapply Send_inv.
  - by apply Finish_inv.
  - apply inv_with_net; [done|]. cbn. eauto.
  - by eapply RecvData_inv.
  - by eapply Read_inv.
  - by apply Abandon_inv.
Qed.

(** C27. A sender that respects its windows is never accused: whatever frame the
    network delivers, in whatever state, the receiver finds no violation of
    flow control and no inconsistent final size, and it can always compute its
    window updates. *)
Theorem sender_never_accused st :
  reachable connWindow connMax streamWindow streamMax st ->
  (forall i r offset fin e, DataMsg i offset fin ∈ net st -> r_streams st !! i = Some r ->
     exists f c, StreamFlow.UpdateHighestReceived (r_flow r) (r_conn st) offset fin e = (f, c, None)) /\
  (forall i r e, r_streams st !! i = Some r ->
     exists f c v, StreamFlow.GetWindowUpdate (r_flow r) (r_conn st) e = Ret (f, c, v)).
Proof.
  intros Hr. apply flow_inv in Hr. split; [intros i r offset fin e Hm Hl|intros i r e Hl].
  - destruct (data_accepted st i r offset fin e Hr Hm Hl) as (s & f & c & _ & Hu & _). eauto.
  - destruct (partner _ _ _ Hr Hl) as [s Hs]. destruct (inv_streams _ Hr _ _ _ Hs Hl).
    destruct (GetWindowUpdate_spec (r_flow r) (r_conn st) e) as (f & c & v & Hg & _);
      [done|by apply inv_conn|by apply inv_allow|]. eauto.
Qed.

(** C28. A blocked sender is not blocked for ever: when the receiver has read
    everything that was sent, window updates alone, those already on their way
    and those the receiver has queued, let the sender send on any stream that
    is still in use. *)
Theorem blocked_sender_released st i s r :
  reachable connWindow connMax streamWindow streamMax st ->
  s_streams st !! i = Some s -> r_streams st !! i = Some r -> s_finished s = false -> r_abandoned r = false ->
  (forall j s r, s_streams st !! j = Some s -> r_streams st !! j = Some r ->
     bytesRead (ctrl (r_flow r)) = bytesSent (ctrl (s_flow s))) ->
  exists st' s', rtc update st st' /\ s_streams st' !! i = Some s' /\
    0 < StreamFlow.SendWindowSize (s_flow s') (s_conn st').
Proof.
  intros Hi%flow_inv Hs Hr Hfin Hab Hall. pose proof (all_read st Hi Hall) as Hrd.
  destruct (release_stream st i s r Hi Hs Hr Hfin Hab (Hall _ _ _ Hs Hr))
    as (st1 & s1 & Hu1 & Hi1 & Hs1 & Hw1 & Hb1 & Ec1 & Er1).
  destruct (release_conn st1 Hi1) as (st2 & Hu2 & Hi2 & Es2 & Hw2); [congruence|]. rewrite <-Es2 in Hs1.
  exists st2, s1. split; [by etransitivity|]. split; [done|].
  destruct (partner' _ _ _ Hi2 Hs1) as [r2 Hr2]. destruct (inv_streams _ Hi2 _ _ _ Hs1 Hr2) as [[] ? ? _ _ _].
  destruct (inv_window _ Hi2), (inv_conn _ Hi2). pose proof (conn_room st2 i s1 r2 (received r2) Hi2 Hs1 Hr2).
  unfold StreamFlow.SendWindowSize, Base.SendWindowSize, sent, received, max_total, max_size in *.
  rewrite !(proj2 (Z.ltb_ge _ _)) by lia. rewrite !i64_small by lia. lia.
Qed.

End Windows.

(** A stream whose window is 60 bytes, used up and read *)
Definition demo_env : env := {| now := 1000; SmoothedRTT := 10; allow := fun _ => true |}.

Definition demo_sent : system :=
  let st := opened 60 120 (init 100 200) 4 in
  match s_streams st !! 0%nat with
  | Some s =>
      let '(f, c) := StreamFlow.AddBytesSent (s_flow s) (s_conn st) 60 in
      with_net (with_sender st 0 {| s_flow := f; s_finished := false |} c) (DataMsg 0 60 false)
  | None => st
  end.

Definition demo_read : system := Eval vm_compute in
  match r_streams demo_sent !! 0%nat with
  | Some r =>
      let '(f, c, _) := StreamFlow.UpdateHighestReceived (r_flow r) (r_conn demo_sent) 60 false demo_env in
      let '(f, c, hasStream, _) := StreamFlow.AddBytesRead f c 60 in
      with_receiver demo_sent 0 {| r_flow := f; r_queued := hasStream; r_abandoned := false |} c
  | None => demo_sent
  end.

Lemma demo_sent_reachable : reachable 100 200 60 120 demo_sent.
Proof.
  eapply rtc_l; [apply (Open 60 120 _ 4)|].
  eapply rtc_l; [eapply (Send 60 120 _ 0%nat _ 60); [reflexivity|reflexivity|vm_compute; split; discriminate|
    vm_compute; discriminate|reflexivity]|].
  eapply rtc_once, (Transmit 60 120 _ 0%nat _ 60 false); [reflexivity|vm_compute; split; discriminate|done].
Defined.

Lemma demo_read_reachable : reachable 100 200 60 120 demo_read.
Proof.
  assert (Hrecv : exists st, step 60 120 demo_sent st /\ exists st', step 60 120 st st' /\ st' = demo_read).
  { eexists. split; [eapply (RecvData 60 120 demo_sent 0%nat _ 60 false demo_env);
      [left|vm_compute; reflexivity|vm_compute; reflexivity]|].
    eexists. split; [eapply (Read 60 120 _ 0%nat _ 60);
      [vm_compute; reflexivity|vm_compute; split; discriminate|vm_compute; reflexivity]|vm_compute; reflexivity]. }
  destruct Hrecv as (st & H1 & st' & H2 & <-). eapply rtc_r; [|exact H2]. eapply rtc_r; [|exact H1].
  apply demo_sent_reachable.
Qed.

Lemma sender_never_accused_witness :
  reachable 100 200 60 120 demo_sent /\ DataMsg 0 60 false ∈ net demo_sent /\
  forall r e, r_streams demo_sent !! 0%nat = Some r ->
    exists f c, StreamFlow.UpdateHighestReceived (r_flow r) (r_conn demo_sent) 60 false e = (f, c, None).
Proof.
  split; [apply demo_sent_reachable|]. split; [left|]. intros r e Hr.
  refine (proj1 (sender_never_accused 100 200 60 120 _ _ _ _ demo_sent demo_sent_reachable) 0%nat r 60 false e _ Hr);
    [unfold_bounds; lia..|left].
Defined.

Lemma blocked_sender_released_witness :
  exists s r, s_streams demo_read !! 0%nat = Some s /\ r_streams demo_read !! 0%nat = Some r /\
    StreamFlow.SendWindowSize (s_flow s) (s_conn demo_read) = 0 /\
    exists st' s', rtc update demo_read st' /\ s_streams st' !! 0%nat = Some s' /\
      0 < StreamFlow.SendWindowSize (s_flow s') (s_conn st').
Proof.
  do 2 eexists. split; [reflexivity|]. split; [reflexivity|]. split; [reflexivity|].
  eapply (blocked_sender_released 100 200 60 120);
    [unfold_bounds; lia..|apply demo_read_reachable|reflexivity|reflexivity|reflexivity|reflexivity|].
  intros [|j] s r Hs Hr; [injection Hs as <-; injection Hr as <-; reflexivity|done].
Defined.
