(* ===== verification/ReceiveStream.v ===== *)
(** * Receive streams

    [src/deps/quic-go/receive_stream.go]: the frame sorter and the flow
    controller of a stream behind [Read], [Peek] and [CancelRead].  Every
    method runs under the stream's mutex; [Read] and [Peek] give it up while
    they wait for [readChan], so such a call is a function that ends with a
    result or [Blocked], and another one that resumes it.  The connection's
    flow controller is shared and is passed along.  What a method tells the
    connection is a list of notices. *)
From S2P Require Import Prelude Protocol Frames FrameSorter FlowControl.

Local Open Scope Z_scope.
Local Open Scope go_scope.

Module ReceiveStream.

Record StreamError := { errStreamID : Z; ErrorCode : Z; Remote : bool }.

Record ReceiveStream := {
  frameQueue : frameSorter;
  finalOffset : Z;
  currentFrame : option slice;
  currentFrameDone : option nat;
  readPosInFrame : Z;
  currentFrameIsLast : bool;
  queuedStopSending : bool;
  queuedMaxStreamData : bool;
  errorRead : bool;
  completed : bool;
  cancelledRemotely : bool;
  cancelledLocally : bool;
  cancelErr : option StreamError;
  closeForShutdownErr : option goerror;
  readPos : Z;
  reliableSize : Z;
  readChan : bool;
  deadline : Z;
  flowController : stream_controller;
  (** the callbacks the stream has called *)
  called : list nat;
}.

Definition newReceiveStream (fc : stream_controller) : ReceiveStream :=
  {| frameQueue := sorter.newFrameSorter; finalOffset := MaxByteCount; currentFrame := None; currentFrameDone := None;
     readPosInFrame := 0; currentFrameIsLast := false; queuedStopSending := false; queuedMaxStreamData := false;
     errorRead := false; completed := false; cancelledRemotely := false; cancelledLocally := false; cancelErr := None;
     closeForShutdownErr := None; readPos := 0; reliableSize := 0; readChan := false; deadline := 0;
     flowController := fc; called := [] |}.

(** ** Updates of the fields *)

Definition with_frame (s : ReceiveStream) (q : frameSorter) (f : option slice) (cb : option nat) (pos : Z) (last : bool)
    (called : list nat) : ReceiveStream :=
  {| frameQueue := q; finalOffset := finalOffset s; currentFrame := f; currentFrameDone := cb; readPosInFrame := pos;
     currentFrameIsLast := last; queuedStopSending := queuedStopSending s; queuedMaxStreamData := queuedMaxStreamData s;
     errorRead := errorRead s; completed := completed s; cancelledRemotely := cancelledRemotely s;
     cancelledLocally := cancelledLocally s; cancelErr := cancelErr s; closeForShutdownErr := closeForShutdownErr s;
     readPos := readPos s; reliableSize := reliableSize s; readChan := readChan s; deadline := deadline s;
     flowController := flowController s; called := called |}.

Definition with_read (s : ReceiveStream) (posInFrame pos : Z) : ReceiveStream :=
  {| frameQueue := frameQueue s; finalOffset := finalOffset s; currentFrame := currentFrame s;
     currentFrameDone := currentFrameDone s; readPosInFrame := posInFrame; currentFrameIsLast := currentFrameIsLast s;
     queuedStopSending := queuedStopSending s; queuedMaxStreamData := queuedMaxStreamData s; errorRead := errorRead s;
     completed := completed s; cancelledRemotely := cancelledRemotely s; cancelledLocally := cancelledLocally s;
     cancelErr := cancelErr s; closeForShutdownErr := closeForShutdownErr s; readPos := pos; reliableSize := reliableSize s;
     readChan := readChan s; deadline := deadline s; flowController := flowController s; called := called s |}.

Definition with_flow (s : ReceiveStream) (fc : stream_controller) (queued : bool) (final : Z) : ReceiveStream :=
  {| frameQueue := frameQueue s; finalOffset := final; currentFrame := currentFrame s;
     currentFrameDone := currentFrameDone s; readPosInFrame := readPosInFrame s;
     currentFrameIsLast := currentFrameIsLast s; queuedStopSending := queuedStopSending s; queuedMaxStreamData := queued;
     errorRead := errorRead s; completed := completed s; cancelledRemotely := cancelledRemotely s;
     cancelledLocally := cancelledLocally s; cancelErr := cancelErr s; closeForShutdownErr := closeForShutdownErr s;
     readPos := readPos s; reliableSize := reliableSize s; readChan := readChan s; deadline := deadline s;
     flowController := fc; called := called s |}.

Definition with_flags (s : ReceiveStream) (stopSending errRead isCompleted : bool) : ReceiveStream :=
  {| frameQueue := frameQueue s; finalOffset := finalOffset s; currentFrame := currentFrame s;
     currentFrameDone := currentFrameDone s; readPosInFrame := readPosInFrame s;
     currentFrameIsLast := currentFrameIsLast s; queuedStopSending := stopSending;
     queuedMaxStreamData := queuedMaxStreamData s; errorRead := errRead; completed := isCompleted;
     cancelledRemotely := cancelledRemotely s; cancelledLocally := cancelledLocally s; cancelErr := cancelErr s;
     closeForShutdownErr := closeForShutdownErr s; readPos := readPos s; reliableSize := reliableSize s;
     readChan := readChan s; deadline := deadline s; flowController := flowController s; called := called s |}.

Definition with_cancel (s : ReceiveStream) (remotely locally : bool) (err : option StreamError) (reliable : Z)
    : ReceiveStream :=
  {| frameQueue := frameQueue s; finalOffset := finalOffset s; currentFrame := currentFrame s;
     currentFrameDone := currentFrameDone s; readPosInFrame := readPosInFrame s;
     currentFrameIsLast := currentFrameIsLast s; queuedStopSending := queuedStopSending s;
     queuedMaxStreamData := queuedMaxStreamData s; errorRead := errorRead s; completed := completed s;
     cancelledRemotely := remotely; cancelledLocally := locally; cancelErr := err;
     closeForShutdownErr := closeForShutdownErr s; readPos := readPos s; reliableSize := reliable;
     readChan := readChan s; deadline := deadline s; flowController := flowController s; called := called s |}.

Definition with_signal (s : ReceiveStream) (shutdown : option goerror) (chan : bool) (dl : Z) : ReceiveStream :=
  {| frameQueue := frameQueue s; finalOffset := finalOffset s; currentFrame := currentFrame s;
     currentFrameDone := currentFrameDone s; readPosInFrame := readPosInFrame s;
     currentFrameIsLast := currentFrameIsLast s; queuedStopSending := queuedStopSending s;
     queuedMaxStreamData := queuedMaxStreamData s; errorRead := errorRead s; completed := completed s;
     cancelledRemotely := cancelledRemotely s; cancelledLocally := cancelledLocally s; cancelErr := cancelErr s;
     closeForShutdownErr := shutdown; readPos := readPos s; reliableSize := reliableSize s;
     readChan := chan; deadline := dl; flowController := flowController s; called := called s |}.

Definition signalRead (s : ReceiveStream) : ReceiveStream := with_signal s (closeForShutdownErr s) true (deadline s).

(** [s.errorRead = true] *)
Definition set_errorRead (s : ReceiveStream) : ReceiveStream := with_flags s (queuedStopSending s) true (completed s).

(** What the connection is told *)
Inductive notice := onStreamCompleted | onHasStreamControlFrame | onHasConnectionData.

Definition isNewlyCompleted (s : ReceiveStream) : ReceiveStream * bool :=
  if completed s then (s, false) else
  if finalOffset s =? MaxByteCount then (s, false) else
  if cancelledLocally s || errorRead s then (with_flags s (queuedStopSending s) (errorRead s) true, true) else (s, false).

Definition isRemoteCancellationEffective (s : ReceiveStream) : bool :=
  cancelledRemotely s && (reliableSize s <=? readPos s).

(** ** Reading *)

Inductive read_error :=
  | EOF
  | Cancelled (e : option StreamError)
  | Shutdown (e : goerror)
  | errDeadline
  | Bug (e : goerror).

(** What a call has read so far, if both controllers have window updates *)
Record reading := { s_ : ReceiveStream; conn_ : base; hasStream : bool; hasConn : bool; data_ : bytes }.

Definition with_s (r : reading) (s : ReceiveStream) : reading :=
  {| s_ := s; conn_ := conn_ r; hasStream := hasStream r; hasConn := hasConn r; data_ := data_ r |}.

Inductive result := Returned (data : bytes) (err : option read_error) | Blocked.

Definition frame_len (f : option slice) : Z := match f with Some d => len (content d) | None => 0 end.
Definition is_nil (f : option slice) : bool := match f with Some _ => false | None => true end.

Definition dequeueNextFrame (s : ReceiveStream) : outcome ReceiveStream :=
  let called := call (currentFrameDone s) (called s) in
  let! '(q, offset, f, cb) := sorter.Pop (frameQueue s) in
  Ret (with_frame s q f cb 0 ((finalOffset s <=? i64 (offset + frame_len f)) && negb (cancelledRemotely s)) called).

(** [if s.currentFrame == nil || s.readPosInFrame >= len(s.currentFrame)] *)
Definition dequeue_if_read (s : ReceiveStream) : outcome ReceiveStream :=
  if is_nil (currentFrame s) || (frame_len (currentFrame s) <=? readPosInFrame s) then dequeueNextFrame s else Ret s.

(** The reasons to stop waiting *)
Definition stop_waiting (s : ReceiveStream) (now : Z) : ReceiveStream * option read_error :=
  match closeForShutdownErr s with
  | Some e => (s, Some (Shutdown e))
  | None =>
      if cancelledLocally s || isRemoteCancellationEffective s then (set_errorRead s, Some (Cancelled (cancelErr s))) else
      if negb (deadline s =? 0) && (deadline s <=? now) then (s, Some errDeadline) else (s, None)
  end.

(** [copy], and the accounting for the bytes that were copied; [n] is [len(p)]. *)
Definition copy_frame (r : reading) (n : Z) : outcome reading :=
  let s := s_ r in
  let! rest := (match currentFrame s with
                | Some d => slice_from (content d) (readPosInFrame s)
                | None => slice_from ([] : bytes) (readPosInFrame s)
                end) in
  let copied := take (Z.to_nat (n - len (data_ r))) rest in
  let m := len copied in
  let '(s, conn, hasStream', hasConn') :=
    (if negb (isRemoteCancellationEffective s) then
       let '(fc, conn, hs, hc) := StreamFlow.AddBytesRead (flowController s) (conn_ r) m in
       (with_flow s fc (queuedMaxStreamData s || hs) (finalOffset s), conn, hasStream r || hs, hasConn r || hc)
     else (s, conn_ r, hasStream r, hasConn r)) in
  let s := with_read s (readPosInFrame s + m) (i64 (readPos s + m)) in
  let '(s, conn) :=
    (if isRemoteCancellationEffective s then
       let '(fc, conn) := StreamFlow.Abandon (flowController s) conn in
       (with_flow s fc (queuedMaxStreamData s) (finalOffset s), conn)
     else (s, conn)) in
  Ret {| s_ := s; conn_ := conn; hasStream := hasStream'; hasConn := hasConn'; data_ := data_ r ++ copied |}.

(** From the checks before waiting on: the loop for more data, [k] counts
    the readings of the clock. *)
Fixpoint read_loop (fuel : nat) (clock : nat -> Z) (k : nat) (n : Z) (r : reading) : outcome (reading * result) :=
  match fuel with
  | O => Panic
  | S fuel =>
      let '(s, stop) := stop_waiting (s_ r) (clock k) in
      let r := with_s r s in
      match stop with
      | Some e => Ret (r, Returned (data_ r) (Some e))
      | None =>
          if is_nil (currentFrame s) && negb (currentFrameIsLast s) then Ret (r, Blocked) else
          if n <? len (data_ r)
          then Ret (r, Returned (data_ r) (Some (Bug (Errorf "BUG: bytesRead (%d) > len(p) (%d) in stream.Read"
                      [pretty (len (data_ r)); pretty n])))) else
          if frame_len (currentFrame s) <? readPosInFrame s
          then Ret (r, Returned (data_ r) (Some (Bug (Errorf "BUG: readPosInFrame (%d) > frame.DataLen (%d) in stream.Read"
                      [pretty (readPosInFrame s); pretty (frame_len (currentFrame s))])))) else
          let! r := copy_frame r n in
          let s := s_ r in
          if (frame_len (currentFrame s) <=? readPosInFrame s) && currentFrameIsLast s then
            let s := with_frame s (frameQueue s) None (currentFrameDone s) (readPosInFrame s) (currentFrameIsLast s)
                       (call (currentFrameDone s) (called s)) in
            Ret (with_s r (set_errorRead s), Returned (data_ r) (Some EOF))
          else if len (data_ r) <? n then
            let! s := dequeue_if_read s in
            let r := with_s r s in
            if is_nil (currentFrame s) && (0 <? len (data_ r))
            then Ret (r, Returned (data_ r) (option_map Shutdown (closeForShutdownErr s)))
            else read_loop fuel clock (S k) n r
          else if isRemoteCancellationEffective s
          then Ret (with_s r (set_errorRead s), Returned (data_ r) (Some (Cancelled (cancelErr s))))
          else Ret (r, Returned (data_ r) None)
      end
  end.

(** Each round but the last copies a byte at least. *)
Definition read_fuel (n : Z) : nat := S (Z.to_nat n).

Definition readImpl (s : ReceiveStream) (conn : base) (clock : nat -> Z) (n : Z) : outcome (reading * result) :=
  let r := {| s_ := s; conn_ := conn; hasStream := false; hasConn := false; data_ := [] |} in
  if currentFrameIsLast s && is_nil (currentFrame s) then Ret (with_s r (set_errorRead s), Returned [] (Some EOF)) else
  if cancelledLocally s || isRemoteCancellationEffective s
  then Ret (with_s r (set_errorRead s), Returned [] (Some (Cancelled (cancelErr s)))) else
  match closeForShutdownErr s with
  | Some e => Ret (r, Returned [] (Some (Shutdown e)))
  | None =>
      if 0 <? n then
        let! s := dequeue_if_read s in
        read_loop (read_fuel n) clock 0 n (with_s r s)
      else Ret (r, Returned [] None)
  end.

(** [readImpl] after a wait *)
Definition read_resume (r : reading) (clock : nat -> Z) (n : Z) : outcome (reading * result) :=
  let! s := dequeueNextFrame (s_ r) in
  read_loop (read_fuel n) clock 0 n (with_s r s).

(** What [Read] does when [readImpl] returned *)
Definition read_end (r : reading) : ReceiveStream * base * list notice :=
  let '(s, completed) := isNewlyCompleted (s_ r) in
  (s, conn_ r,
   (if completed then [onStreamCompleted] else []) ++ (if hasStream r then [onHasStreamControlFrame] else [])
   ++ (if hasConn r then [onHasConnectionData] else [])).

(** ** Peeking *)

(** [s.frameQueue.Peek(offset, b[avail:])] succeeds with these bytes. *)
Definition peek_queue (s : ReceiveStream) (offset n : Z) : option bytes :=
  match sorter.Peek (frameQueue s) offset (Z.to_nat n) with Ret b => Some b | _ => None end.

(** The rest of [total] bytes, [avail] of which are in the current frame *)
Definition peek_total (s : ReceiveStream) (rest : bytes) (offset avail total : Z) : option bytes :=
  if total - avail <=? 0 then Some (take (Z.to_nat total) rest)
  else (rest ++.) <$> peek_queue s offset (total - avail).

(** What can be peeked of [n] bytes from the current frame on *)
Definition peek_available (s : ReceiveStream) (d : slice) (n : Z) : outcome (option (bytes * option read_error)) :=
  let! rest := slice_from (content d) (readPosInFrame s) in
  let avail := len rest in
  if n <=? avail then Ret (Some (take (Z.to_nat n) rest, None)) else
  let offset := i64 (readPos s + avail) in
  match peek_queue s offset (n - avail) with
  | Some b => Ret (Some (rest ++ b, None))
  | None =>
      if currentFrameIsLast s then Ret (Some (rest, Some EOF)) else
      let cancelled :=
        if cancelledRemotely s && (reliableSize s <? i64 (readPos s + n))
        then peek_total s rest offset avail (i64 (reliableSize s - readPos s)) else None in
      match cancelled with
      | Some b => Ret (Some (b, Some (Cancelled (cancelErr s))))
      | None =>
          let final :=
            if finalOffset s <? i64 (readPos s + n)
            then peek_total s rest offset avail (i64 (finalOffset s - readPos s)) else None in
          Ret ((fun b => (b, Some EOF)) <$> final)
      end
  end.

Definition peekImpl (s : ReceiveStream) (now n : Z) : outcome (ReceiveStream * result) :=
  if currentFrameIsLast s && is_nil (currentFrame s) then Ret (s, Returned [] (Some EOF)) else
  if cancelledLocally s || isRemoteCancellationEffective s then Ret (s, Returned [] (Some (Cancelled (cancelErr s)))) else
  match closeForShutdownErr s with
  | Some e => Ret (s, Returned [] (Some (Shutdown e)))
  | None =>
      if negb (deadline s =? 0) && (deadline s <=? now) then Ret (s, Returned [] (Some errDeadline)) else
      let! s := dequeue_if_read s in
      let! found :=
        (match currentFrame s with
         | Some d => if readPosInFrame s <? len (content d) then peek_available s d n else Ret None
         | None => Ret None
         end) in
      match found with
      | Some (b, err) => Ret (s, Returned b err)
      | None =>
          if currentFrameIsLast s || (finalOffset s <=? readPos s) then Ret (s, Returned [] (Some EOF)) else Ret (s, Blocked)
      end
  end.

(** [peekImpl] after a wait *)
Definition peek_resume (s : ReceiveStream) (now n : Z) : outcome (ReceiveStream * result) :=
  let! s := dequeue_if_read s in peekImpl s now n.

(** ** The other methods *)

Definition cancelReadImpl (s : ReceiveStream) (code : Z) : ReceiveStream * bool :=
  if cancelledLocally s then (s, false) else
  match closeForShutdownErr s with
  | Some _ => (s, false)
  | None =>
      let s := with_cancel s (cancelledRemotely s) true (cancelErr s) (reliableSize s) in
      if errorRead s || cancelledRemotely s then (s, false) else
      let s := with_flags s true (errorRead s) (completed s) in
      let s := with_cancel s (cancelledRemotely s) (cancelledLocally s)
                 (Some {| errStreamID := streamID (flowController s); ErrorCode := code; Remote := false |}) (reliableSize s) in
      (signalRead s, true)
  end.

(** [s.flowController.Abandon()] *)
Definition abandon (s : ReceiveStream) (conn : base) : ReceiveStream * base :=
  let '(fc, conn) := StreamFlow.Abandon (flowController s) conn in
  (with_flow s fc (queuedMaxStreamData s) (finalOffset s), conn).

Definition CancelRead (s : ReceiveStream) (conn : base) (code : Z) : ReceiveStream * base * list notice :=
  let '(s, queuedNewControlFrame) := cancelReadImpl s code in
  let '(s, completed) := isNewlyCompleted s in
  let notices := if queuedNewControlFrame then [onHasStreamControlFrame] else [] in
  if completed then let '(s, conn) := abandon s conn in (s, conn, notices ++ [onStreamCompleted]) else (s, conn, notices).

(** A STREAM frame as it was received: its data lies in a buffer that
    [PutBack] gives back. *)
Record stream_frame := { Offset : Z; Data : slice; Fin : bool; PutBack : option nat }.

Definition handleStreamFrameImpl (s : ReceiveStream) (conn : base) (f : stream_frame) (e : env)
    : outcome (ReceiveStream * base * option goerror) :=
  let maxOffset := i64 (Offset f + len (content (Data f))) in
  let '(fc, conn, err) := StreamFlow.UpdateHighestReceived (flowController s) conn maxOffset (Fin f) e in
  let s := with_flow s fc (queuedMaxStreamData s) (finalOffset s) in
  match err with
  | Some err => Ret (s, conn, Some err)
  | None =>
      let s := if Fin f then with_flow s fc (queuedMaxStreamData s) maxOffset else s in
      if cancelledLocally s then Ret (s, conn, None) else
      let! '(q, err) := sorter.Push (frameQueue s) (Data f) (Offset f) (PutBack f) in
      let s := with_frame s q (currentFrame s) (currentFrameDone s) (readPosInFrame s) (currentFrameIsLast s) (called s) in
      match err with
      | Some err => Ret (s, conn, Some err)
      | None => Ret (signalRead s, conn, None)
      end
  end.

Definition handleStreamFrame (s : ReceiveStream) (conn : base) (f : stream_frame) (e : env)
    : outcome (ReceiveStream * base * list notice * option goerror) :=
  let! '(s, conn, err) := handleStreamFrameImpl s conn f e in
  let '(s, completed) := isNewlyCompleted s in
  if completed then let '(s, conn) := abandon s conn in Ret (s, conn, [onStreamCompleted], err)
  else Ret (s, conn, [], err).

Record reset_frame := { resetCode : Z; FinalSize : Z; ReliableSize : Z }.

Definition handleResetStreamFrameImpl (s : ReceiveStream) (conn : base) (f : reset_frame) (e : env)
    : ReceiveStream * base * option goerror :=
  match closeForShutdownErr s with
  | Some _ => (s, conn, None)
  | None =>
      let '(fc, conn, err) := StreamFlow.UpdateHighestReceived (flowController s) conn (FinalSize f) true e in
      let s := with_flow s fc (queuedMaxStreamData s) (finalOffset s) in
      match err with
      | Some err => (s, conn, Some err)
      | None =>
          let s := with_flow s fc (queuedMaxStreamData s) (FinalSize f) in
          let reliable :=
            if (negb (cancelledRemotely s) && (reliableSize s =? 0)) || (ReliableSize f <? reliableSize s)
            then ReliableSize f else reliableSize s in
          let s := with_cancel s (cancelledRemotely s) (cancelledLocally s) (cancelErr s) reliable in
          let '(s, conn) := if reliableSize s <=? readPos s then abandon s conn else (s, conn) in
          if cancelledRemotely s then (s, conn, None) else
          if cancelledLocally s then (s, conn, None) else
          let s := with_cancel s true (cancelledLocally s)
                     (Some {| errStreamID := streamID (flowController s); ErrorCode := resetCode f; Remote := true |})
                     (reliableSize s) in
          (signalRead s, conn, None)
      end
  end.

Definition handleResetStreamFrame (s : ReceiveStream) (conn : base) (f : reset_frame) (e : env)
    : ReceiveStream * base * list notice * option goerror :=
  let '(s, conn, err) := handleResetStreamFrameImpl s conn f e in
  let '(s, completed) := isNewlyCompleted s in
  (s, conn, if completed then [onStreamCompleted] else [], err).

(** The frames of [getControlFrame] *)
Inductive control_frame := StopSending (streamID code : Z) | MaxStreamData (streamID maximum : Z).

(** The frame, and if there are more *)
Definition getControlFrame (s : ReceiveStream) (conn : base) (e : env)
    : outcome (ReceiveStream * base * option control_frame * bool) :=
  if negb (queuedStopSending s) && negb (queuedMaxStreamData s) then Ret (s, conn, None, false) else
  if queuedStopSending s then
    match cancelErr s with
    | None => Panic
    | Some err =>
        Ret (with_flags s false (errorRead s) (completed s), conn,
             Some (StopSending (streamID (flowController s)) (ErrorCode err)), queuedMaxStreamData s)
    end
  else
    let! '(fc, conn, v) := StreamFlow.GetWindowUpdate (flowController s) conn e in
    Ret (with_flow s fc false (finalOffset s), conn, Some (MaxStreamData (streamID fc) v), false).

Definition SetReadDeadline (s : ReceiveStream) (t : Z) : ReceiveStream :=
  signalRead (with_signal s (closeForShutdownErr s) (readChan s) t).

Definition closeForShutdown (s : ReceiveStream) (err : goerror) : ReceiveStream :=
  signalRead (with_signal s (Some err) (readChan s) (deadline s)).

End ReceiveStream.
