(* ===== verification/ReceiveStreamFacts.v ===== *)
(** * Receive streams: what their operations keep

    The bytes a receive stream has, in its current frame and in the frame
    sorter, are those of one stream, and the flow controllers count what was
    read.  Each operation keeps this, and gives the reader the bytes that
    follow. *)
From S2P Require Import Prelude Protocol Frames FrameSorter FrameSorterFacts FrameSorterPush FrameSorterProps.
From S2P Require Import FlowControl FlowControlFacts ReceiveStream.
Import ReceiveStream.

Local Open Scope Z_scope.
Local Open Scope go_scope.

Notation sorterPos s := (FrameSorter.readPos (frameQueue s)).
Notation highest s := (highestReceived (ctrl (flowController s))).
Notation bytes_read s := (bytesRead (ctrl (flowController s))).
Notation knows_final s := (receivedFinalOffset (flowController s)).

(** No frame of a stream ends above this offset. *)
Definition max_offset : Z := 2 ^ 60.

Section Stream.
Context (stream : Z -> Z) (c0 : base).

(** The current frame and the sorter *)
Record data_ok (s : ReceiveStream) : Prop := {
  do_sorter : consistent (frameQueue s);
  do_agrees : agrees stream (queue (frameQueue s));
  do_pos : 0 <= readPos s;
  do_current : match currentFrame s with
    | Some d => 0 <= readPosInFrame s <= len (content d) /\ carries stream (readPos s - readPosInFrame s) d /\
                sorterPos s = readPos s - readPosInFrame s + len (content d)
    | None => sorterPos s = readPos s
    end;
  do_covered : forall x, highest s <= x < MaxByteCount -> missing_in (gaps (frameQueue s)) x;
  do_last : currentFrameIsLast s = true -> sorterPos s = finalOffset s /\ knows_final s = true;
}.

(** The final offset and the flow controllers; [c0] is what the connection's
    controller was when the stream was opened. *)
Record flow_ok (s : ReceiveStream) (c : base) : Prop := {
  fo_stream : receiving (ctrl (flowController s));
  fo_conn : receiving c;
  fo_allow : hasAllow c = true;
  fo_limit : highest s <= max_offset /\ bytesRead c0 <= highestReceived c0 <= max_offset;
  fo_shared : highestReceived c = highestReceived c0 + highest s /\ bytesRead c = bytesRead c0 + bytes_read s;
  fo_final : finalOffset s = if knows_final s then highest s else MaxByteCount;
  fo_remote : cancelledRemotely s = true -> knows_final s = true;
  fo_reliable : 0 <= reliableSize s;
  fo_read : bytes_read s = readPos s \/
            bytes_read s = highest s /\ knows_final s = true /\
            (cancelledLocally s = true \/ isRemoteCancellationEffective s = true);
  fo_effective : isRemoteCancellationEffective s = true -> bytes_read s = highest s;
  fo_stopping : queuedStopSending s = true -> cancelErr s <> None;
  fo_completed : completed s = true -> knows_final s = true;
}.

Record stream_inv (s : ReceiveStream) (c : base) : Prop := { si_data : data_ok s; si_flow : flow_ok s c }.

(** Nothing is read beyond what was received. *)
Lemma sorterPos_le s : data_ok s -> 0 <= highest s < MaxByteCount -> sorterPos s <= highest s.
Proof. intros [C _ _ _ Hc _] Hh. apply (co_unread _ C), Hc. lia. Qed.

Lemma readPos_le s : data_ok s -> readPos s <= sorterPos s.
Proof. intros [_ _ _ Hc _ _]. destruct (currentFrame s); lia. Qed.

Lemma highest_bounds s c : flow_ok s c -> 0 <= highest s < MaxByteCount.
Proof. intros [[] _ _ [] _ _ _ _ _ _ _ _]. unfold max_offset, MaxByteCount in *. lia. Qed.

Lemma positions s c : stream_inv s c -> 0 <= readPos s <= sorterPos s /\ sorterPos s <= highest s /\ highest s <= max_offset.
Proof.
  intros [Hd Hf]. pose proof (sorterPos_le s Hd (highest_bounds s c Hf)). pose proof (readPos_le s Hd).
  destruct Hd, Hf as [_ _ _ [] _ _ _ _ _ _ _ _]. lia.
Qed.

(** ** Taking the next frame *)

(** The current frame is used up. *)
Definition used_up (s : ReceiveStream) : Prop :=
  match currentFrame s with Some d => readPosInFrame s = len (content d) | None => True end.

(** The frame after [dequeueNextFrame]: there are bytes in it, or none have
    arrived at the position of the reader. *)
Definition fresh (s : ReceiveStream) : Prop :=
  match currentFrame s with
  | Some d => readPosInFrame s < len (content d)
  | None => readPosInFrame s = 0 /\ missing_in (gaps (frameQueue s)) (readPos s) /\
            currentFrameIsLast s = ((finalOffset s <=? readPos s) && negb (cancelledRemotely s))
  end.

(** [s'] is [s] with another current frame. *)
Definition reframed (s s' : ReceiveStream) : Prop :=
  exists q f cb pos last called, s' = with_frame s q f cb pos last called /\ gaps q = gaps (frameQueue s).

Lemma dequeue_spec s c : stream_inv s c -> used_up s ->
  exists s', dequeueNextFrame s = Ret s' /\ stream_inv s' c /\ fresh s' /\ reframed s s'.
Proof.
  intros Hi Hu. destruct Hi as [Hd Hf]. pose proof (highest_bounds s c Hf) as Hh. pose proof (sorterPos_le s Hd Hh) as Hle.
  destruct Hd as [C Ha Hp Hc Hcov Hl]. destruct (Pop_spec (frameQueue s) C) as (q & o & d & cb & Ep & C' & Eg & _ & Eo & Hpop).
  unfold dequeueNextFrame. rewrite Ep. cbn [obind].
  assert (Hrd : sorterPos s = readPos s).
  { unfold used_up in Hu. destruct (currentFrame s); lia. }
  assert (Hmax : missing_in (gaps (frameQueue s)) (highest s)) by (apply Hcov; lia).
  assert (Hpos : FrameSorter.readPos q <= highest s) by (apply (co_unread _ C'); by rewrite Eg).
  assert (Hq : match d with
    | Some d => FrameSorter.readPos q = readPos s + len (content d) /\ 0 < len (content d) /\ carries stream (readPos s) d /\
                agrees stream (queue q)
    | None => q = frameQueue s /\ missing_in (gaps (frameQueue s)) (readPos s) end).
  { destruct d as [d|].
    - destruct Hpop as (Hq & Eq & Er & Hlen & _). split; [lia|]. split; [done|]. rewrite <-Hrd.
      split; [by apply (Ha _ _ Hq)|]. rewrite Eq. intros x e [_ He]%lookup_delete_Some. by apply Ha.
    - destruct Hpop as (Hm & -> & _). by rewrite <-Hrd. }
  assert (Hlen : i64 (o + frame_len d) = FrameSorter.readPos q).
  { rewrite Eo, Hrd, i64_small; unfold frame_len; destruct d; [destruct Hq; lia| |destruct Hq; unfold MaxByteCount in *; lia|];
      destruct Hq as [-> _]; unfold MaxByteCount in *; lia. }
  rewrite Hlen. eexists. split; [done|]. split; [|split].
  - split.
    + split; cbn; try done.
      * destruct d; [apply Hq|]. by destruct Hq as [-> _].
      * destruct d; [|by destruct Hq as [-> _]]. rewrite !Z.sub_0_r. destruct Hq as (? & ? & ? & _). split; [lia|done].
      * by rewrite Eg.
      * intros [Hfl _]%andb_true_iff. apply Z.leb_le in Hfl. pose proof (fo_final _ _ Hf) as Hfin.
        destruct (knows_final s); [|lia]. split; [|done]. lia.
    + destruct Hf. split; auto.
  - unfold fresh. cbn. destruct d as [d|]; [destruct Hq; lia|]. destruct Hq as [-> Hm]. rewrite Hrd. auto.
  - by exists q, d, cb, 0, ((finalOffset s <=? FrameSorter.readPos q) && negb (cancelledRemotely s)), (call (currentFrameDone s) (called s)).
Qed.

Lemma dequeue_if_read_spec s c : stream_inv s c ->
  exists s', dequeue_if_read s = Ret s' /\ stream_inv s' c /\ fresh s' /\ reframed s s'.
Proof.
  intros Hi. unfold dequeue_if_read. pose proof (do_current s (si_data _ _ Hi)) as Hc.
  destruct (currentFrame s) as [d|] eqn:E; cbn [is_nil frame_len orb].
  - case Z.leb_spec; intros Hle.
    + apply dequeue_spec; [done|]. unfold used_up. rewrite E. lia.
    + exists s. split; [done|]. split; [done|]. split; [unfold fresh; rewrite E; lia|].
      exists (frameQueue s), (currentFrame s), (currentFrameDone s), (readPosInFrame s), (currentFrameIsLast s), (called s).
      by destruct s.
  - apply dequeue_spec; [done|]. unfold used_up. by rewrite E.
Qed.

(** ** Copying from the current frame *)

(** [s'] is [s] after [m] more bytes were read. *)
Definition advanced (s s' : ReceiveStream) (m : Z) : Prop :=
  exists fc queued, s' = with_flow (with_read s (readPosInFrame s + m) (readPos s + m)) fc queued (finalOffset s) /\
    receivedFinalOffset fc = knows_final s /\ highestReceived (ctrl fc) = highest s /\
    bytes_read s <= bytesRead (ctrl fc).

(** The bytes of the current frame that were not read yet *)
Lemma current_rest s c : stream_inv s c -> fresh s ->
  match currentFrame s with
  | Some d => slice_from (content d) (readPosInFrame s)
  | None => slice_from ([] : bytes) (readPosInFrame s)
  end = Ret (segment stream (readPos s) (Z.to_nat (frame_len (currentFrame s) - readPosInFrame s))) /\
  0 <= readPosInFrame s <= frame_len (currentFrame s) /\
  readPos s + (frame_len (currentFrame s) - readPosInFrame s) = sorterPos s.
Proof.
  intros [[_ _ _ Hc _ _] _] Hf. unfold fresh in Hf. destruct (currentFrame s) as [d|]; cbn [frame_len].
  - destruct Hc as (Hr & Hd & Hs). split; [|split; lia]. rewrite slice_from_Ret by done. f_equal. unfold carries in Hd.
    rewrite Hd at 1. unfold len in *. rewrite segment_drop by lia. f_equal; lia.
  - destruct Hf as [-> _]. split; [done|]. split; lia.
Qed.

Lemma copy_frame_spec r n (s := s_ r) (c := conn_ r)
    (m := Z.min (n - len (data_ r)) (frame_len (currentFrame s) - readPosInFrame s)) :
  stream_inv s c -> fresh s -> cancelledLocally s = false -> isRemoteCancellationEffective s = false ->
  len (data_ r) <= n ->
  exists r', copy_frame r n = Ret r' /\ stream_inv (s_ r') (conn_ r') /\ advanced s (s_ r') m /\
    data_ r' = data_ r ++ segment stream (readPos s) (Z.to_nat m).
Proof.
  intros Hi Hf Hloc Heff Hn. destruct (current_rest s c Hi Hf) as (Hrest & Hpf & Hsp). destruct (positions s c Hi) as (Hp1 & Hp2 & Hp3).
  unfold copy_frame. fold s. rewrite Hrest. cbn [obind]. rewrite Heff. cbn [negb].
  assert (Hseg : take (Z.to_nat (n - len (data_ r))) (segment stream (readPos s) (Z.to_nat (frame_len (currentFrame s) - readPosInFrame s)))
    = segment stream (readPos s) (Z.to_nat m)).
  { destruct (Z.le_ge_cases (n - len (data_ r)) (frame_len (currentFrame s) - readPosInFrame s)).
    - rewrite segment_take by lia. f_equal. lia.
    - rewrite take_ge by (rewrite segment_length; lia). f_equal. lia. }
  rewrite Hseg. assert (Hm : len (segment stream (readPos s) (Z.to_nat m)) = m) by (unfold len; rewrite segment_length; lia).
  rewrite Hm. clear Hseg Hrest. pose proof Hi as [Hd [Fs Fc Fa Fl Fsh Ff Fr Frl Frd Fe Fq Fcp]].
  assert (Hrd : bytes_read s = readPos s) by (destruct Frd as [?|(_ & _ & [?|?])]; [done|congruence..]).
  unfold max_offset in *.
  destruct (AddBytesRead_spec (flowController s) (conn_ r) m) as (fc & c' & hc & -> & Hmf & Hmc & _ & Hfin); fold c;
    [lia|destruct Fs; lia|destruct Fc; lia|unfold_bounds; lia|destruct Fc, Fs; unfold_bounds; lia|].
  fold c in Hmc. cbn [with_flow readPos with_read readPosInFrame isRemoteCancellationEffective].
  assert (Hri : i64 (readPos s + m) = readPos s + m) by (rewrite i64_small; lia). rewrite Hri.
  set (s2 := with_read (with_flow s fc (queuedMaxStreamData s || StreamFlow.shouldQueueWindowUpdate fc) (finalOffset s))
    (readPosInFrame s + m) (readPos s + m)).
  pose proof (mv_read _ _ _ _ _ Hmf) as Er. pose proof (mv_highest _ _ _ _ _ Hmf) as Eh.
  pose proof (mv_read _ _ _ _ _ Hmc) as Ecr. pose proof (mv_highest _ _ _ _ _ Hmc) as Ech.
  assert (Rf : receiving (ctrl fc)) by (destruct Hmf, Fs; moved).
  assert (Rc : receiving c') by (destruct Hmc, Fc, Fs; moved).
  assert (Ha : hasAllow c' = true) by (by rewrite (mv_allow _ _ _ _ _ Hmc)).
  assert (Hd2 : forall fc2 q2, highestReceived (ctrl fc2) = highest s -> receivedFinalOffset fc2 = knows_final s ->
    data_ok (with_flow s2 fc2 q2 (finalOffset s))).
  { intros fc2 q2 E2 K2. destruct Hd as [C Hag Hp Hc Hcov Hl]. split; cbn; rewrite ?E2, ?K2; try done; [lia|].
    unfold m in *. destruct (currentFrame s) as [d|]; cbn [frame_len] in *; [|lia].
    destruct Hc as (H1 & H2 & H3). replace (readPos s + _ - _) with (readPos s - readPosInFrame s) by lia. split; [lia|]. by split. }
  destruct (isRemoteCancellationEffective s2) eqn:E2.
  - change (flowController s2) with fc. destruct (Abandon_spec fc c') as (fc2 & c2 & -> & Hmf2 & Hmc2 & _ & Hfin2);
      [destruct Rf; lia|destruct Rf; lia|apply Rf|destruct Rc; lia|destruct Rc, Fs; unfold_bounds; lia|].
    pose proof (mv_read _ _ _ _ _ Hmf2) as Er2. pose proof (mv_highest _ _ _ _ _ Hmf2) as Eh2.
    pose proof (mv_read _ _ _ _ _ Hmc2) as Ecr2. pose proof (mv_highest _ _ _ _ _ Hmc2) as Ech2.
    eexists. split; [done|]. cbn [s_ conn_ data_]. split; [split|split].
    + apply Hd2; congruence.
    + split; cbn; rewrite ?Hfin2, ?Hfin, ?Er2, ?Eh2, ?Eh, ?Ech2, ?Ecr2, ?Ech, ?Ecr; auto; try lia;
        [destruct Hmf2, Rf; moved|destruct Hmc2, Rc, Rf; moved|by rewrite (mv_allow _ _ _ _ _ Hmc2)|].
      right. split; [done|]. unfold isRemoteCancellationEffective in E2. cbn in E2. apply andb_true_iff in E2 as [E2 E2'].
      split; [by apply Fr|]. right. unfold isRemoteCancellationEffective. cbn. by rewrite E2.
    + exists fc2, (queuedMaxStreamData s || StreamFlow.shouldQueueWindowUpdate fc). split; [done|].
      split; [congruence|]. split; [congruence|]. lia.
    + done.
  - eexists. split; [done|]. cbn [s_ conn_ data_]. split; [split|split].
    + apply (Hd2 fc (queuedMaxStreamData s || StreamFlow.shouldQueueWindowUpdate fc)); congruence.
    + split; cbn; rewrite ?Hfin, ?Er, ?Eh, ?Ech, ?Ecr; auto; try lia. intros He. exfalso.
      unfold isRemoteCancellationEffective in *. cbn in *. congruence.
    + exists fc, (queuedMaxStreamData s || StreamFlow.shouldQueueWindowUpdate fc). split; [done|].
      split; [congruence|]. split; [congruence|]. lia.
    + done.
Qed.

(** ** The loop of [Read] *)

(** What reading leaves as it is *)
Record kept (s s' : ReceiveStream) : Prop := {
  kp_gaps : gaps (frameQueue s') = gaps (frameQueue s);
  kp_final : finalOffset s' = finalOffset s;
  kp_completed : completed s' = completed s;
  kp_remotely : cancelledRemotely s' = cancelledRemotely s;
  kp_locally : cancelledLocally s' = cancelledLocally s;
  kp_shutdown : closeForShutdownErr s' = closeForShutdownErr s;
  kp_reliable : reliableSize s' = reliableSize s;
  kp_chan : readChan s' = readChan s;
  kp_deadline : deadline s' = deadline s;
  kp_known : knows_final s' = knows_final s;
  kp_highest : highest s' = highest s;
  kp_readPos : readPos s <= readPos s';
  kp_read : bytes_read s <= bytes_read s';
  kp_stop : queuedStopSending s' = queuedStopSending s;
  kp_err : cancelErr s' = cancelErr s;
}.

#[local] Instance kept_refl : Reflexive kept.
Proof. intros s. split; done. Qed.
#[local] Instance kept_trans : Transitive kept.
Proof. intros s1 s2 s3 [] []. split; congruence || lia. Qed.

Lemma reframed_kept s s' : reframed s s' -> kept s s' /\ readPos s' = readPos s /\ errorRead s' = errorRead s.
Proof. intros (q & f & cb & pos & last & cl & -> & Hg). split; [split; cbn; done || lia|done]. Qed.

Lemma advanced_kept s s' m : advanced s s' m -> 0 <= m -> kept s s' /\ readPos s' = readPos s + m /\ errorRead s' = errorRead s.
Proof. intros (fc & qd & -> & Hk & Hh & Hb) Hm. split; [split; cbn; done || lia|done]. Qed.

Lemma errorRead_kept s : kept s (set_errorRead s).
Proof. split; done. Qed.

Lemma errorRead_inv s c : stream_inv s c -> stream_inv (set_errorRead s) c.
Proof. intros [[] []]. split; split; done. Qed.

(** The stream was read up to its end. *)
Definition at_end (s : ReceiveStream) : Prop :=
  currentFrame s = None /\ currentFrameIsLast s = true /\ knows_final s = true /\ readPos s = finalOffset s.

(** Reading is over for good. *)
Definition read_over (s : ReceiveStream) : Prop :=
  at_end s \/ cancelledLocally s = true \/ isRemoteCancellationEffective s = true.

(** There is nothing to return yet. *)
Definition must_wait (s : ReceiveStream) : Prop :=
  currentFrame s = None /\ currentFrameIsLast s = false /\ closeForShutdownErr s = None /\ cancelledLocally s = false /\
  isRemoteCancellationEffective s = false.

Definition ended_with (n : Z) (s : ReceiveStream) (data : bytes) (err : option read_error) : Prop :=
  match err with
  | Some EOF => at_end s
  | Some (Cancelled _) => cancelledLocally s = true \/ isRemoteCancellationEffective s = true
  | Some (Shutdown e) => closeForShutdownErr s = Some e
  | Some errDeadline => deadline s <> 0
  | Some (Bug _) => False
  | None => len data = n \/ missing_in (gaps (frameQueue s)) (readPos s)
  end.

Definition ended (n : Z) (r r' : reading) (res : result) : Prop :=
  match res with
  | Blocked => r' = r /\ data_ r = [] /\ must_wait (s_ r)
  | Returned data err => data = data_ r' /\ ended_with n (s_ r') data err
  end.

(** From [r], [r'] was read. *)
Record read_on (n : Z) (r r' : reading) (res : result) : Prop := {
  ro_inv : stream_inv (s_ r') (conn_ r');
  ro_kept : kept (s_ r) (s_ r');
  ro_data : data_ r' = data_ r ++ segment stream (readPos (s_ r)) (Z.to_nat (readPos (s_ r') - readPos (s_ r)));
  ro_errorRead : errorRead (s_ r') = true -> errorRead (s_ r) = true \/ read_over (s_ r');
  ro_ended : ended n r r' res;
}.

Lemma read_on_trans n r1 r2 r3 res :
  read_on n r2 r3 res -> kept (s_ r1) (s_ r2) -> errorRead (s_ r2) = errorRead (s_ r1) -> data_ r2 <> [] ->
  0 <= readPos (s_ r1) ->
  data_ r2 = data_ r1 ++ segment stream (readPos (s_ r1)) (Z.to_nat (readPos (s_ r2) - readPos (s_ r1))) ->
  read_on n r1 r3 res.
Proof.
  intros [Hi Hk Hd He Hend] Hk1 He1 Hne Hp Hd1. pose proof (kp_readPos _ _ Hk). pose proof (kp_readPos _ _ Hk1).
  split; [done|by etransitivity| |by rewrite <-He1|].
  - rewrite Hd, Hd1, <-app_assoc. f_equal.
    replace (readPos (s_ r2)) with (readPos (s_ r1) + Z.of_nat (Z.to_nat (readPos (s_ r2) - readPos (s_ r1)))) at 2 by lia.
    rewrite <-segment_app. f_equal. lia.
  - destruct res; [done|]. by destruct Hend as (_ & Hz & _).
Qed.

Lemma segment_nil o : segment stream o 0 = [].
Proof. done. Qed.

Lemma read_on_here n r s' data err :
  stream_inv s' (conn_ r) -> kept (s_ r) s' -> readPos s' = readPos (s_ r) -> data = data_ r ->
  (errorRead s' = true -> errorRead (s_ r) = true \/ read_over s') -> ended_with n s' data err ->
  read_on n r (with_s r s') (Returned data err).
Proof.
  intros Hi Hk Hp -> He Hend. split; cbn; auto. by rewrite Hp, Z.sub_diag, segment_nil, app_nil_r.
Qed.

Lemma stop_waiting_cases s now :
  match stop_waiting s now with
  | (s', Some e) => (s' = s \/ s' = set_errorRead s /\ read_over s) /\
                    forall n d, ended_with n s' d (Some e)
  | (s', None) => s' = s /\ closeForShutdownErr s = None /\ cancelledLocally s = false /\
                  isRemoteCancellationEffective s = false
  end.
Proof.
  unfold stop_waiting. destruct (closeForShutdownErr s) eqn:Ec; [by auto|].
  destruct (cancelledLocally s) eqn:El; cbn [orb].
  { split; [right; split; [done|]; right; auto|]. by left. }
  destruct (isRemoteCancellationEffective s) eqn:Er.
  { split; [right; split; [done|]; right; auto|]. by right. }
  destruct (deadline s =? 0) eqn:Ed; cbn [negb andb]; [done|]. destruct (deadline s <=? now); [|done].
  split; [by left|]. intros n d. by apply Z.eqb_neq.
Qed.

(** The frame ends where the stream does. *)
Lemma close_frame_inv s c (s' := with_frame s (frameQueue s) None (currentFrameDone s) (readPosInFrame s) (currentFrameIsLast s)
    (call (currentFrameDone s) (called s))) :
  stream_inv s c -> used_up s -> currentFrameIsLast s = true ->
  stream_inv (set_errorRead s') c /\ kept s (set_errorRead s') /\ at_end (set_errorRead s').
Proof.
  intros [[C Ha Hp Hc Hcov Hl] Hf] Hu Hlast. destruct (Hl Hlast) as [Hs Hk].
  assert (Hrd : sorterPos s = readPos s) by (unfold used_up in Hu; destruct (currentFrame s); lia).
  split; [split; [by split|by destruct Hf; split]|]. split; [done|]. unfold at_end. cbn. rewrite <-Hs. auto.
Qed.

Lemma read_loop_spec clock n : forall fuel k r,
  stream_inv (s_ r) (conn_ r) -> fresh (s_ r) -> (data_ r = [] \/ currentFrame (s_ r) <> None) ->
  len (data_ r) < n -> n - len (data_ r) < Z.of_nat fuel ->
  exists r' res, read_loop fuel clock k n r = Ret (r', res) /\ read_on n r r' res.
Proof.
  induction fuel as [|fuel IH]; intros k r Hi Hf Hcur Hn Hfuel; [pose proof (len_nonneg (data_ r)); lia|]. cbn [read_loop].
  pose proof (stop_waiting_cases (s_ r) (clock k)) as Hstop. destruct (stop_waiting (s_ r) (clock k)) as [s1 [e|]].
  { destruct Hstop as [Hs1 Hend]. do 2 eexists. split; [done|].
    destruct Hs1 as [->|[-> Ho]]; apply read_on_here; try done; auto using errorRead_inv, errorRead_kept. }
  destruct Hstop as (-> & Hclose & Hloc & Heff). replace (with_s r (s_ r)) with r by (by destruct r).
  destruct (is_nil (currentFrame (s_ r)) && negb (currentFrameIsLast (s_ r))) eqn:Ewait.
  { apply andb_true_iff in Ewait as [En El]. apply negb_true_iff in El.
    assert (Hnone : currentFrame (s_ r) = None) by (by destruct (currentFrame (s_ r))).
    exists r, Blocked. split; [done|]. split; [done|done| |by auto|].
    - by rewrite Z.sub_diag, segment_nil, app_nil_r.
    - split; [done|]. split; [by destruct Hcur|]. by repeat split. }
  rewrite (proj2 (Z.ltb_ge _ _)) by lia. destruct (current_rest (s_ r) (conn_ r) Hi Hf) as (_ & Hpf & Hsp).
  rewrite (proj2 (Z.ltb_ge _ _)) by lia.
  destruct (copy_frame_spec r n Hi Hf Hloc Heff) as (r1 & -> & Hi1 & Hadv & Hd1); [lia|]. cbn [obind].
  set (m := Z.min (n - len (data_ r)) (frame_len (currentFrame (s_ r)) - readPosInFrame (s_ r))) in *.
  destruct (advanced_kept _ _ m Hadv) as (Hk1 & Hp1 & He1); [lia|].
  assert (Hshape : currentFrame (s_ r1) = currentFrame (s_ r) /\ readPosInFrame (s_ r1) = readPosInFrame (s_ r) + m /\
    currentFrameIsLast (s_ r1) = currentFrameIsLast (s_ r)) by (by destruct Hadv as (fc & qd & -> & _)).
  destruct Hshape as (Ecur & Epf & Elast). rewrite Ecur, Epf, Elast.
  assert (Hlen1 : len (data_ r1) = len (data_ r) + m).
  { rewrite Hd1, len_app. unfold len at 2. rewrite segment_length. lia. }
  assert (Hd1' : data_ r1 = data_ r ++ segment stream (readPos (s_ r)) (Z.to_nat (readPos (s_ r1) - readPos (s_ r)))).
  { rewrite Hd1. repeat f_equal. lia. }
  destruct ((frame_len (currentFrame (s_ r)) <=? readPosInFrame (s_ r) + m) && currentFrameIsLast (s_ r)) eqn:Eend.
  { apply andb_true_iff in Eend as [Efl Ela]. apply Z.leb_le in Efl.
    destruct (close_frame_inv (s_ r1) (conn_ r1) Hi1) as (Hi2 & Hk2 & Hat); [|by rewrite Elast|].
    { unfold used_up. rewrite Ecur, Epf. destruct (currentFrame (s_ r)) as [d|]; [cbn [frame_len] in *; lia|done]. }
    rewrite Epf, Elast in Hi2, Hk2, Hat. do 2 eexists. split; [done|]. split; cbn; [done| |done| |].
    - etransitivity; [exact Hk1|exact Hk2].
    - intros _. right. by left.
    - by split. }
  assert (Hm : 0 < m).
  { unfold fresh in Hf. destruct (currentFrame (s_ r)) as [d|]; [cbn [frame_len] in *; lia|]. exfalso.
    cbn [is_nil andb] in Ewait. apply negb_false_iff in Ewait. rewrite Ewait, andb_true_r in Eend.
    apply Z.leb_gt in Eend. cbn [frame_len] in *. lia. }
  case Z.ltb_spec; intros Hmore.
  - destruct (dequeue_if_read_spec (s_ r1) (conn_ r1) Hi1) as (s2 & -> & Hi2 & Hf2 & Hre). cbn [obind].
    destruct (reframed_kept _ _ Hre) as (Hk2 & Hp2 & He2).
    assert (Hk12 : kept (s_ r) s2) by (etransitivity; eassumption).
    change (data_ (with_s r1 s2)) with (data_ r1).
    destruct (is_nil (currentFrame s2) && (0 <? len (data_ r1))) eqn:Eret.
    + apply andb_true_iff in Eret as [Enil _].
      assert (Hc2 : closeForShutdownErr s2 = None) by (by rewrite (kp_shutdown _ _ Hk12)). rewrite Hc2.
      do 2 eexists. split; [done|]. split; cbn; [done|done| | |].
      * by rewrite Hp2.
      * intros He. left. by rewrite <-He1, <-He2.
      * split; [done|]. right. unfold fresh in Hf2. destruct (currentFrame s2); [done|]. apply Hf2.
    + destruct (IH (S k) (with_s r1 s2)) as (r3 & res & -> & Hro); cbn [with_s s_ data_ conn_]; [done|done| |lia|lia|].
      { right. destruct (currentFrame s2); [done|]. cbn [is_nil andb] in Eret. apply Z.ltb_ge in Eret.
        exfalso. pose proof (len_nonneg (data_ r)). lia. }
      do 2 eexists. split; [done|]. destruct (positions _ _ Hi) as [Hpos _].
      apply (read_on_trans n r (with_s r1 s2)); cbn [with_s s_ data_]; auto.
      * congruence.
      * intros E0. rewrite E0 in Hlen1. change (len []) with 0 in Hlen1. pose proof (len_nonneg (data_ r)). lia.
      * lia.
      * by rewrite Hp2.
  - assert (Hfull : len (data_ r1) = n) by lia.
    destruct (isRemoteCancellationEffective (s_ r1)) eqn:Eeff.
    + do 2 eexists. split; [done|]. split; cbn; [by apply errorRead_inv|by etransitivity; [exact Hk1|apply errorRead_kept]|done| |].
      * intros _. right. right. by right.
      * split; [done|]. by right.
    + do 2 eexists. split; [done|]. split; [done|done|done| |].
      * rewrite He1. by left.
      * split; [done|]. by left.
Qed.

(** ** A call of [Read] *)

Definition start (s : ReceiveStream) (c : base) : reading :=
  {| s_ := s; conn_ := c; hasStream := false; hasConn := false; data_ := [] |}.

(** What a call, or a part of it after a wait, did to the stream [s] *)
Record read_done (n : Z) (s : ReceiveStream) (r' : reading) (res : result) : Prop := {
  rd_inv : stream_inv (s_ r') (conn_ r');
  rd_kept : kept s (s_ r');
  rd_data : data_ r' = segment stream (readPos s) (Z.to_nat (readPos (s_ r') - readPos s));
  rd_errorRead : errorRead (s_ r') = true -> errorRead s = true \/ read_over (s_ r');
  rd_at_end : at_end s -> at_end (s_ r');
  rd_ended : match res with
    | Blocked => 0 < n /\ r' = start (s_ r') (conn_ r') /\ must_wait (s_ r') /\ fresh (s_ r')
    | Returned data err => data = data_ r' /\ ended_with n (s_ r') data err
    end;
}.

Lemma read_from clock n s c s' : stream_inv s' c -> fresh s' -> reframed s s' -> 0 < n -> ~ at_end s ->
  exists r' res, read_loop (read_fuel n) clock 0 n (start s' c) = Ret (r', res) /\ read_done n s r' res.
Proof.
  intros Hi Hf Hre Hn Hat. destruct (reframed_kept _ _ Hre) as (Hk & Hp & He).
  destruct (read_loop_spec clock n (read_fuel n) 0 (start s' c)) as (r' & res & -> & [H1 H2 H3 H4 H5]);
    cbn [start s_ conn_ data_] in *; auto;
    [unfold read_fuel, len; cbn [length]; lia|].
  do 2 eexists. split; [done|]. split; auto.
  - by etransitivity.
  - by rewrite H3, Hp.
  - intros Her. rewrite <-He. auto.
  - done.
  - destruct res as [d err|]; [done|]. destruct H5 as (-> & _ & Hw). done.
Qed.

Lemma readImpl_spec clock n s c : stream_inv s c -> 0 <= n ->
  exists r' res, readImpl s c clock n = Ret (r', res) /\ read_done n s r' res.
Proof.
  intros Hi Hn. unfold readImpl.
  assert (Hhere : forall s' err, (s' = s \/ s' = set_errorRead s /\ read_over s) -> ended_with n s' [] err ->
    read_done n s (with_s (start s c) s') (Returned [] err)).
  { intros s' err Hs' Hend. destruct Hs' as [->|[-> Ho]]; split; cbn; auto using errorRead_inv, errorRead_kept; try done;
      by rewrite Z.sub_diag, segment_nil. }
  change {| s_ := s; conn_ := c; hasStream := false; hasConn := false; data_ := [] |} with (start s c).
  destruct (currentFrameIsLast s && is_nil (currentFrame s)) eqn:Elast.
  { apply andb_true_iff in Elast as [El En]. assert (Hat : at_end s).
    { destruct (currentFrame s) eqn:Ec; [done|]. destruct Hi as [[_ _ _ Hc _ Hl] _]. rewrite Ec in Hc.
      destruct (Hl El) as [Hs Hk]. unfold at_end. rewrite <-Hs. auto. }
    do 2 eexists. split; [done|]. apply Hhere; [|done]. right. split; [done|]. by left. }
  destruct (cancelledLocally s || isRemoteCancellationEffective s) eqn:Ecan.
  { apply orb_true_iff in Ecan. do 2 eexists. split; [done|]. apply Hhere; [|by destruct Ecan; [left|right]].
    right. split; [done|]. by right. }
  destruct (closeForShutdownErr s) as [e|] eqn:Ecl.
  { exists (start s c), (Returned [] (Some (Shutdown e))). split; [done|]. by apply (Hhere s); [left|]. }
  case Z.ltb_spec; intros Hpos.
  - destruct (dequeue_if_read_spec s c Hi) as (s' & -> & Hi' & Hf' & Hre). cbn [obind].
    apply (read_from clock n s c s'); try done. intros (Hnil & Hlast & _). by rewrite Hnil, Hlast in Elast.
  - exists (start s c), (Returned [] None). split; [done|]. apply (Hhere s); [by left|]. left. unfold len. cbn [length]. lia.
Qed.

Lemma read_resume_spec clock n s c : stream_inv s c -> used_up s -> 0 < n -> currentFrameIsLast s = false ->
  exists r' res, read_resume (start s c) clock n = Ret (r', res) /\ read_done n s r' res.
Proof.
  intros Hi Hu Hn Hlast. unfold read_resume. destruct (dequeue_spec s c Hi Hu) as (s' & Hd & Hi' & Hf' & Hre).
  change (s_ (start s c)) with s. rewrite Hd.
  apply (read_from clock n s c s'); try done. intros (_ & ? & _). congruence.
Qed.

(** ** The flags *)

Lemma flags_inv s c stop err comp :
  (stop = true -> cancelErr s <> None) -> (comp = true -> knows_final s = true) -> stream_inv s c ->
  stream_inv (with_flags s stop err comp) c.
Proof. intros Hs Hc [[] []]. split; by split. Qed.

Lemma signal_inv s c e chan dl : stream_inv s c -> stream_inv (with_signal s e chan dl) c.
Proof. intros [[] []]. split; by split. Qed.

Lemma isNewlyCompleted_cases s s' b : isNewlyCompleted s = (s', b) ->
  (s' = s /\ b = false /\ (completed s = true \/ finalOffset s = MaxByteCount \/
                            cancelledLocally s = false /\ errorRead s = false)) \/
  (s' = with_flags s (queuedStopSending s) (errorRead s) true /\ b = true /\ finalOffset s <> MaxByteCount /\
   (cancelledLocally s = true \/ errorRead s = true)).
Proof.
  unfold isNewlyCompleted. intros H. destruct (completed s) eqn:Ec; [injection H as <- <-; left; auto|].
  destruct (Z.eqb_spec (finalOffset s) MaxByteCount) as [Hf|Hf]; [injection H as <- <-; left; auto|].
  destruct (cancelledLocally s) eqn:El; cbn [orb] in H; [injection H as <- <-; right; auto|].
  destruct (errorRead s) eqn:Ee; injection H as <- <-; [right|left]; auto 6.
Qed.

Lemma known_final s c : stream_inv s c -> finalOffset s <> MaxByteCount -> knows_final s = true.
Proof. intros [_ Hf] Hm. pose proof (fo_final _ _ Hf). by destruct (knows_final s). Qed.

Lemma isNewlyCompleted_inv s c s' b : stream_inv s c -> isNewlyCompleted s = (s', b) -> stream_inv s' c.
Proof.
  intros Hi [(-> & _)|(-> & _ & Hf & _)]%isNewlyCompleted_cases; [done|]. apply flags_inv; [apply Hi| |done].
  intros _. by eapply known_final.
Qed.

(** ** Giving up on a stream *)

Lemma abandon_inv s c remotely locally err reliable :
  stream_inv s c -> knows_final s = true -> 0 <= reliable ->
  (locally = true \/ reliable <= readPos s /\ remotely = true) -> (queuedStopSending s = true -> err <> None) ->
  exists fc c', abandon s c = (with_flow s fc (queuedMaxStreamData s) (finalOffset s), c') /\
    stream_inv (with_cancel (with_flow s fc (queuedMaxStreamData s) (finalOffset s)) remotely locally err reliable) c' /\
    bytesRead (ctrl fc) = highest s /\ highestReceived (ctrl fc) = highest s /\ receivedFinalOffset fc = true /\
    streamID fc = streamID (flowController s).
Proof.
  intros Hi Hk Hrel Hc Herr. unfold abandon. destruct (positions s c Hi) as (Hp1 & Hp2 & Hp3).
  pose proof Hi as [[C Ha Hp Hcu Hcov Hl] [Fs Fc Fa Fl Fsh Ff Fr Frl Frd Fe Fq Fcp]]. unfold max_offset in *.
  destruct (Abandon_spec (flowController s) c) as (fc & c1 & -> & Hmf & Hmc & Hid & Hfin);
    [destruct Fs; lia|destruct Fs; lia|apply Fs|destruct Fc; lia|destruct Fc, Fs; unfold_bounds; lia|].
  pose proof (mv_read _ _ _ _ _ Hmf) as Er. pose proof (mv_highest _ _ _ _ _ Hmf) as Eh.
  pose proof (mv_read _ _ _ _ _ Hmc) as Ecr. pose proof (mv_highest _ _ _ _ _ Hmc) as Ech.
  exists fc, c1. split; [done|]. split; [|by rewrite Hfin].
  split; split; cbn; rewrite ?Er, ?Eh, ?Ecr, ?Ech, ?Hfin; auto; try lia.
  - destruct Hmf, Fs; moved.
  - destruct Hmc, Fc, Fs; moved.
  - by rewrite (mv_allow _ _ _ _ _ Hmc).
  - right. split; [done|]. split; [done|]. destruct Hc as [?|[Hr Hrem]]; [by left|right].
    unfold isRemoteCancellationEffective. cbn. rewrite Hrem. by apply Z.leb_le.
Qed.

Lemma same_cancel s : with_cancel s (cancelledRemotely s) (cancelledLocally s) (cancelErr s) (reliableSize s) = s.
Proof. by destruct s. Qed.

(** The state of a stream that was completed: it asks for no more credit. *)
Lemma abandon_cancelled s c :
  stream_inv s c -> knows_final s = true -> cancelledLocally s = true ->
  exists fc c', abandon s c = (with_flow s fc (queuedMaxStreamData s) (finalOffset s), c') /\
    stream_inv (with_flow s fc (queuedMaxStreamData s) (finalOffset s)) c' /\
    bytesRead (ctrl fc) = highest s /\ highestReceived (ctrl fc) = highest s /\ receivedFinalOffset fc = true.
Proof.
  intros Hi Hk Hl. pose proof Hi as [_ Hf].
  destruct (abandon_inv s c (cancelledRemotely s) true (cancelErr s) (reliableSize s) Hi Hk)
    as (fc & c' & Ha & Hi' & H1 & H2 & H3 & _); [apply Hf|by left|apply Hf|].
  exists fc, c'. split; [done|]. split; [|done]. rewrite <-Hl in Hi'. exact Hi'.
Qed.

(** ** Peeking *)

(** A reader that waits for [n] bytes has something to do: a reason to give
    up, or the bytes, or the end of the stream. *)
Definition ready (n : Z) (s : ReceiveStream) : Prop :=
  closeForShutdownErr s <> None \/ cancelledLocally s = true \/ isRemoteCancellationEffective s = true \/
  forall x, readPos s <= x < Z.min (readPos s + n) (finalOffset s) -> ~ missing_in (gaps (frameQueue s)) x.

Lemma sorter_whole q : consistent q -> whole (queue q) (FrameSorter.readPos q).
Proof.
  intros C o e Ho Hlt. exfalso. destruct (proj1 (co_tiles q C) _ _ Ho) as (_ & Hlen & _).
  assert (Hoc : occupied (queue q) o) by (exists o, e; split; [done|lia]). apply (co_occupied q C) in Hoc. lia.
Qed.

(** The [m] bytes from the sorter's position on *)
Lemma peek_queue_spec s c m : stream_inv s c -> 0 <= m -> sorterPos s + m <= MaxByteCount ->
  match peek_queue s (sorterPos s) m with
  | Some b => b = segment stream (sorterPos s) (Z.to_nat m) /\
              forall x, sorterPos s <= x < sorterPos s + m -> ~ missing_in (gaps (frameQueue s)) x
  | None => ~ forall x, sorterPos s <= x < sorterPos s + m -> ~ missing_in (gaps (frameQueue s)) x
  end.
Proof.
  intros [[C Ha _ _ _ _] _] Hm Hmax. unfold peek_queue.
  assert (Hocc : forall x, sorterPos s <= x < sorterPos s + m ->
    occupied (queue (frameQueue s)) x <-> ~ missing_in (gaps (frameQueue s)) x).
  { intros x Hx. rewrite (co_occupied _ C). split; [tauto|]. intros ?. split; [lia|done]. }
  destruct (Peek_spec stream (frameQueue s) (sorterPos s) (Z.to_nat m) C Ha (sorter_whole _ C)) as [[-> H]|[-> H]];
    rewrite Z2Nat.id in H by done.
  - split; [done|]. intros x Hx. apply Hocc; auto.
  - intros Hall. apply H. intros x Hx. apply Hocc; auto.
Qed.

Lemma peek_total_spec s c rest total : stream_inv s c -> fresh s -> currentFrame s <> None ->
  rest = segment stream (readPos s) (Z.to_nat (sorterPos s - readPos s)) -> 0 <= total <= max_offset ->
  match peek_total s rest (sorterPos s) (sorterPos s - readPos s) total with
  | Some b => b = segment stream (readPos s) (Z.to_nat total)
  | None => ~ forall x, readPos s <= x < readPos s + total -> ~ missing_in (gaps (frameQueue s)) x
  end.
Proof.
  intros Hi Hf Hc -> Ht. destruct (positions s c Hi) as (Hp1 & Hp2 & Hp3). unfold peek_total, max_offset, MaxByteCount in *.
  case Z.leb_spec; intros Hle; [apply segment_take; lia|].
  pose proof (peek_queue_spec s c (total - (sorterPos s - readPos s)) Hi) as Hq. unfold MaxByteCount in Hq.
  destruct (peek_queue s (sorterPos s) (total - (sorterPos s - readPos s))) as [b|]; cbn [fmap option_fmap option_map].
  - destruct Hq as [-> _]; [lia..|]. replace (sorterPos s) with (readPos s + Z.of_nat (Z.to_nat (sorterPos s - readPos s))) at 2 by lia.
    rewrite <-segment_app. f_equal. lia.
  - intros Hall. apply Hq; [lia..|]. intros x Hx. apply Hall. lia.
Qed.

(** What a call of [Peek] returned *)
Definition peeked (n : Z) (s : ReceiveStream) (res : result) : Prop :=
  match res with
  | Returned data err =>
      data = segment stream (readPos s) (length data) /\
      match err with
      | None => len data = n
      | Some EOF => knows_final s = true /\ readPos s + len data = finalOffset s
      | Some (Bug _) => False
      | Some _ => True
      end
  | Blocked => currentFrameIsLast s = false /\ closeForShutdownErr s = None /\ cancelledLocally s = false /\
               isRemoteCancellationEffective s = false /\ (cancelledRemotely s = false -> ~ ready n s)
  end.

Lemma peek_available_spec s c d n : stream_inv s c -> fresh s -> currentFrame s = Some d -> 0 < n <= max_offset ->
  isRemoteCancellationEffective s = false -> closeForShutdownErr s = None -> cancelledLocally s = false ->
  exists found, peek_available s d n = Ret found /\
    match found with
    | Some (b, err) => peeked n s (Returned b err)
    | None => currentFrameIsLast s = false /\ readPos s < finalOffset s /\ (cancelledRemotely s = false -> ~ ready n s)
    end.
Proof.
  intros Hi Hf Hcur Hn Heff Hcl Hloc. destruct (positions s c Hi) as (Hp1 & Hp2 & Hp3).
  pose proof (current_rest s c Hi Hf) as (Hrest & Hpf & Hsp). pose proof Hf as Hfr. unfold fresh in Hfr.
  pose proof (do_last _ (si_data _ _ Hi)) as Hlast. pose proof (fo_final _ _ (si_flow _ _ Hi)) as Hfin.
  pose proof (fo_remote _ _ (si_flow _ _ Hi)) as Hrem.
  unfold peek_available. rewrite Hcur in Hrest, Hpf, Hsp, Hfr. cbn [frame_len] in *. rewrite Hrest. cbn [obind].
  assert (Hav : 0 < sorterPos s - readPos s) by lia.
  replace (len (content d) - readPosInFrame s) with (sorterPos s - readPos s) in * by lia.
  set (rest := segment stream (readPos s) (Z.to_nat (sorterPos s - readPos s))).
  assert (Hlr : len rest = sorterPos s - readPos s) by (unfold len, rest; rewrite segment_length; lia). rewrite Hlr.
  unfold max_offset in *. assert (Hseg : forall k, len (segment stream (readPos s) (Z.to_nat k)) = Z.max 0 k)
    by (intros k; unfold len; rewrite segment_length; lia).
  case Z.leb_spec; intros Hle.
  { eexists. split; [done|]. cbn. unfold rest. rewrite segment_take by lia. rewrite segment_length. split; [done|].
    rewrite Hseg. lia. }
  rewrite i64_small by lia. replace (readPos s + (sorterPos s - readPos s)) with (sorterPos s) by lia.
  pose proof (peek_queue_spec s c (n - (sorterPos s - readPos s)) Hi) as Hq. unfold MaxByteCount in Hq.
  destruct (peek_queue s (sorterPos s) (n - (sorterPos s - readPos s))) as [b|].
  { destruct Hq as [-> _]; [lia..|]. eexists. split; [done|]. unfold rest.
    assert (E : segment stream (readPos s) (Z.to_nat (sorterPos s - readPos s)) ++
      segment stream (sorterPos s) (Z.to_nat (n - (sorterPos s - readPos s))) = segment stream (readPos s) (Z.to_nat n)).
    { replace (sorterPos s) with (readPos s + Z.of_nat (Z.to_nat (sorterPos s - readPos s))) at 2 by lia.
      rewrite <-segment_app. f_equal. lia. }
    rewrite E. cbn. rewrite segment_length. split; [done|]. rewrite Hseg. lia. }
  destruct (currentFrameIsLast s) eqn:El.
  { destruct (Hlast eq_refl) as [Hs Hk]. eexists. split; [done|]. cbn. unfold rest at 2. rewrite segment_length. split; [done|].
    rewrite Hlr. split; [done|]. lia. }
  assert (Hnone : currentFrame s <> None) by (by rewrite Hcur).
  assert (Hsf : sorterPos s <= finalOffset s) by (unfold MaxByteCount in *; destruct (knows_final s); lia).
  assert (Hcut : match (if cancelledRemotely s && (reliableSize s <? i64 (readPos s + n))
      then peek_total s rest (sorterPos s) (sorterPos s - readPos s) (i64 (reliableSize s - readPos s)) else None) with
    | Some b => b = segment stream (readPos s) (length b) | None => True end).
  { destruct (cancelledRemotely s) eqn:Ecr; [|done]. cbn [andb]. rewrite i64_small by lia. case Z.ltb_spec; intros Hr; [|done].
    pose proof Heff as Heff'. unfold isRemoteCancellationEffective in Heff'. rewrite Ecr in Heff'. cbn in Heff'. apply Z.leb_gt in Heff'.
    rewrite i64_small by lia. pose proof (peek_total_spec s c rest (reliableSize s - readPos s) Hi Hf Hnone eq_refl) as Hpt.
    destruct (peek_total _ _ _ _ _); [|done]. rewrite Hpt by (unfold max_offset; lia). by rewrite segment_length. }
  destruct (if cancelledRemotely s && _ then _ else _) as [b|].
  { eexists. split; [done|]. done. }
  eexists. split; [done|]. rewrite i64_small by lia. case Z.ltb_spec; intros Hfn.
  - assert (Hk : knows_final s = true) by (unfold MaxByteCount in *; by destruct (knows_final s); [|lia]). rewrite Hk in Hfin.
    rewrite i64_small by lia.
    pose proof (peek_total_spec s c rest (finalOffset s - readPos s) Hi Hf Hnone eq_refl) as Hpt. unfold max_offset in Hpt.
    destruct (peek_total s rest _ _ (finalOffset s - readPos s)) as [b|]; cbn [fmap option_fmap option_map].
    + cbn. rewrite Hpt by lia. rewrite segment_length. split; [done|]. split; [done|]. rewrite Hseg. lia.
    + split; [done|]. split; [lia|]. intros Hr [?|[?|[?|Hall]]]; [congruence..|]. apply Hpt; [lia|]. intros x Hx. apply Hall. lia.
  - cbn. split; [done|]. split; [lia|]. intros Hr [?|[?|[?|Hall]]]; [congruence..|]. apply Hq; [lia..|].
    intros x Hx. apply Hall. lia.
Qed.

(** What a call of [Peek] did to the stream [s] *)
Record peek_done (n : Z) (s s' : ReceiveStream) (c : base) (res : result) : Prop := {
  pd_inv : stream_inv s' c;
  pd_kept : kept s s';
  pd_readPos : readPos s' = readPos s;
  pd_errorRead : errorRead s' = errorRead s;
  pd_at_end : at_end s -> at_end s';
  pd_peeked : peeked n s' res;
}.

Lemma peek_here n s c res : stream_inv s c -> peeked n s res -> peek_done n s s c res.
Proof. intros Hi Hp. by split. Qed.

Lemma peekImpl_spec now n s c : stream_inv s c -> 0 < n <= max_offset ->
  exists s' res, peekImpl s now n = Ret (s', res) /\ peek_done n s s' c res.
Proof.
  intros Hi Hn. unfold peekImpl.
  assert (Hret : forall err, (forall e, err <> Bug e) -> (err = EOF -> knows_final s = true /\ readPos s = finalOffset s) ->
    peek_done n s s c (Returned [] (Some err))).
  { intros err Hb He. apply peek_here; [done|]. split; [done|]. destruct err; try done; [|by eapply Hb].
    destruct (He eq_refl) as [Hk Hp]. split; [done|]. unfold len. cbn [length]. lia. }
  destruct (currentFrameIsLast s && is_nil (currentFrame s)) eqn:Elast.
  { apply andb_true_iff in Elast as [El En]. do 2 eexists. split; [done|]. apply Hret; [done|]. intros _.
    destruct Hi as [[_ _ _ Hc _ Hl] _]. destruct (Hl El) as [Hs Hk]. destruct (currentFrame s); [done|]. split; [done|]. lia. }
  destruct (cancelledLocally s || isRemoteCancellationEffective s) eqn:Ecan.
  { do 2 eexists. split; [done|]. by apply Hret. }
  assert (Hat : ~ at_end s) by (intros (Hnil & Hlast & _); by rewrite Hnil, Hlast in Elast).
  apply orb_false_iff in Ecan as [Hloc Heff].
  destruct (closeForShutdownErr s) as [e|] eqn:Ecl; [do 2 eexists; split; [done|]; by apply Hret|].
  destruct (negb (deadline s =? 0) && (deadline s <=? now)); [do 2 eexists; split; [done|]; by apply Hret|].
  destruct (dequeue_if_read_spec s c Hi) as (s1 & -> & Hi1 & Hf1 & Hre). cbn [obind].
  destruct (reframed_kept _ _ Hre) as (Hk & Hp & He).
  assert (Hst : closeForShutdownErr s1 = None /\ cancelledLocally s1 = false /\ isRemoteCancellationEffective s1 = false).
  { destruct Hre as (q & f & cb & pos & last & cl & -> & _). done. }
  destruct Hst as (Hcl1 & Hloc1 & Heff1).
  assert (Hdone : forall res, peeked n s1 res -> peek_done n s s1 c res) by (intros res Hpk; by split).
  destruct (positions s1 c Hi1) as (Hp1 & Hp2 & Hp3). pose proof (fo_final _ _ (si_flow _ _ Hi1)) as Hfin.
  pose proof (do_last _ (si_data _ _ Hi1)) as Hlast. pose proof (do_current _ (si_data _ _ Hi1)) as Hcd. pose proof Hf1 as Hfr.
  unfold fresh in Hfr. destruct (currentFrame s1) as [d|] eqn:Ecur.
  - rewrite (proj2 (Z.ltb_lt _ _)) by lia.
    destruct (peek_available_spec s1 c d n Hi1 Hf1 Ecur Hn Heff1 Hcl1 Hloc1) as (found & -> & Hfound). cbn [obind].
    destruct found as [[b err]|]; [do 2 eexists; split; [done|]; by apply Hdone|].
    destruct Hfound as (El & Hlt & Hnr). rewrite El, (proj2 (Z.leb_gt _ _)) by done. cbn [orb].
    do 2 eexists. split; [done|]. by apply Hdone.
  - cbn [obind]. destruct Hfr as (_ & Hm & El). case (currentFrameIsLast s1 || (finalOffset s1 <=? readPos s1)) eqn:Eo.
    + do 2 eexists. split; [done|]. apply Hdone. split; [done|]. unfold len. cbn [length]. apply orb_true_iff in Eo as [Eo|Eo].
      * destruct (Hlast Eo) as [? ?]. split; [done|]. lia.
      * apply Z.leb_le in Eo. unfold max_offset, MaxByteCount in *. destruct (knows_final s1); [split; [done|]; lia|lia].
    + apply orb_false_iff in Eo as [El' Eo]. apply Z.leb_gt in Eo. do 2 eexists. split; [done|]. apply Hdone.
      repeat (split; [done|]). intros Hr [?|[?|[?|Hall]]]; [congruence..|]. apply (Hall (readPos s1)); [lia|done].
Qed.

Lemma peek_resume_spec now n s c : stream_inv s c -> 0 < n <= max_offset -> currentFrameIsLast s = false ->
  exists s' res, peek_resume s now n = Ret (s', res) /\ peek_done n s s' c res.
Proof.
  intros Hi Hn Hlast. unfold peek_resume. destruct (dequeue_if_read_spec s c Hi) as (s1 & -> & Hi1 & _ & Hre). cbn [obind].
  destruct (reframed_kept _ _ Hre) as (Hk & Hp & He).
  destruct (peekImpl_spec now n s1 c Hi1 Hn) as (s2 & res & -> & [H1 H2 H3 H4 H5 H6]). do 2 eexists. split; [done|].
  split; [done|by etransitivity|congruence|congruence| |done]. intros (_ & ? & _). congruence.
Qed.

(** ** The other operations *)

(** A stream whose final offset is known, and that nobody reads any more, is
    completed. *)
Definition settled (s : ReceiveStream) : Prop :=
  completed s = true \/ knows_final s = false \/ cancelledLocally s = false /\ errorRead s = false.

(** A completed stream has given all its credit back. *)
Definition credit_returned (s : ReceiveStream) : Prop := completed s = true -> bytes_read s = highest s.

(** What an operation other than reading does.  [plain]: the stream was only
    reset as a whole, with a reliable size of 0. *)
Record op_done (plain : Prop) (s s' : ReceiveStream) (c' : base) : Prop := {
  od_inv : stream_inv s' c';
  od_frame : currentFrame s' = currentFrame s /\ currentFrameIsLast s' = currentFrameIsLast s /\
             readPosInFrame s' = readPosInFrame s;
  od_readPos : readPos s' = readPos s /\ errorRead s' = errorRead s;
  od_final : knows_final s = true -> knows_final s' = true /\ finalOffset s' = finalOffset s;
  od_locally : cancelledLocally s = true -> cancelledLocally s' = true;
  od_effective : isRemoteCancellationEffective s = true -> isRemoteCancellationEffective s' = true;
  od_settled : settled s';
  od_plain : plain -> reliableSize s = 0 -> reliableSize s' = 0;
  od_credit : plain -> reliableSize s = 0 -> credit_returned s -> credit_returned s';
  od_wake : plain -> reliableSize s = 0 -> currentFrameIsLast s = false ->
            readChan s' = true \/ forall n, readChan s' = readChan s /\ (ready n s' -> ready n s);
}.

(** [errorRead] says that reading is over. *)
Definition error_ok (s : ReceiveStream) : Prop := errorRead s = true -> read_over s.

Lemma read_over_known s c : stream_inv s c -> error_ok s -> errorRead s = true -> knows_final s = false -> cancelledLocally s = true.
Proof.
  intros [_ Hf] He Her Hk. destruct (He Her) as [(_ & _ & Hk' & _)|[?|Heff]]; [congruence|done|].
  apply andb_true_iff in Heff as [Hr _]. apply (fo_remote _ _ Hf) in Hr. congruence.
Qed.

Lemma remotely_effective s : reliableSize s = 0 -> 0 <= readPos s -> cancelledRemotely s = true -> isRemoteCancellationEffective s = true.
Proof. intros Hr Hp Hc. unfold isRemoteCancellationEffective. rewrite Hc, Hr. by apply Z.leb_le. Qed.

(** What handling a frame leaves to do: a stream nobody reads is completed. *)
Lemma complete_abandon s c s1 b : stream_inv s c -> isNewlyCompleted s = (s1, b) ->
  (b = true -> cancelledLocally s = true) ->
  exists fc c', (if b then abandon s1 c else (s1, c)) = (with_flow s1 fc (queuedMaxStreamData s1) (finalOffset s1), c') /\
    stream_inv (with_flow s1 fc (queuedMaxStreamData s1) (finalOffset s1)) c' /\ receivedFinalOffset fc = knows_final s /\
    highestReceived (ctrl fc) = highest s /\
    (if b then bytesRead (ctrl fc) = highest s else fc = flowController s).
Proof.
  intros Hi Hn Hb. pose proof (isNewlyCompleted_inv s c s1 b Hi Hn) as Hi1.
  destruct (isNewlyCompleted_cases s s1 b Hn) as [(-> & -> & _)|(-> & -> & Hf & _)].
  - exists (flowController s), c. replace (with_flow s _ _ _) with s by (by destruct s). done.
  - pose proof (known_final s c Hi Hf) as Hk.
    destruct (abandon_cancelled _ c Hi1) as (fc & c' & -> & H1 & H2 & H3 & H4); [done|by apply Hb|].
    exists fc, c'. cbn in *. rewrite Hk. done.
Qed.

Lemma newly_settled s c s1 b : stream_inv s c -> isNewlyCompleted s = (s1, b) -> settled s1.
Proof.
  intros Hi. intros [(-> & -> & Hc)|(-> & -> & _)]%isNewlyCompleted_cases; [|by left].
  destruct Hc as [?|[Hf|?]]; [by left|right; left|by right; right].
  pose proof (fo_final _ _ (si_flow _ _ Hi)) as Hfin. pose proof (highest_bounds _ _ (si_flow _ _ Hi)).
  destruct (knows_final s); [lia|done].
Qed.

(** A frame of the stream *)
Definition frame_ok (f : stream_frame) : Prop :=
  0 <= Offset f /\ Offset f + len (content (Data f)) <= max_offset /\ carries stream (Offset f) (Data f).

(** The flow controllers accepted an offset, or the final offset. *)
Lemma accept_inv s c off (fin : bool) e fc c' (final := if fin then off else finalOffset s) :
  stream_inv s c -> 0 <= off <= max_offset ->
  StreamFlow.UpdateHighestReceived (flowController s) c off fin e = (fc, c', None) ->
  stream_inv (with_flow s fc (queuedMaxStreamData s) final) c' /\
  receivedFinalOffset fc = fin || knows_final s /\ bytesRead (ctrl fc) = bytes_read s /\
  (knows_final s = true -> highestReceived (ctrl fc) = highest s /\ final = finalOffset s) /\
  highestReceived (ctrl fc) = Z.max (highest s) off.
Proof.
  intros Hi Hoff Hu. destruct (positions s c Hi) as (Hp1 & Hp2 & Hp3).
  pose proof Hi as [[C Ha Hp Hcu Hcov Hl] [Fs Fc Fa Fl Fsh Ff Fr Frl Frd Fe Fq Fcp]].
  destruct (UpdateHighestReceived_ok (flowController s) c off fin e fc c') as (Hmf & Hmc & _ & Hfin & Rf & Rc & Hkn & Hfo);
    [done|done|lia|unfold max_offset, max_total in *; lia..|done|]. unfold max_offset, max_total in *.
  pose proof (mv_read _ _ _ _ _ Hmf) as Er. pose proof (mv_highest _ _ _ _ _ Hmf) as Eh.
  pose proof (mv_read _ _ _ _ _ Hmc) as Ecr. pose proof (mv_highest _ _ _ _ _ Hmc) as Ech.
  assert (Hknown : knows_final s = true -> highestReceived (ctrl fc) = highest s /\ final = finalOffset s).
  { intros Hk. rewrite Eh. specialize (Hkn Hk). split; [done|]. unfold final. destruct fin; [|done].
    rewrite Ff, Hk. rewrite <-Hkn. by apply Hfo. }
  split; [|done]. split; split; cbn; rewrite ?Hfin, ?Er; auto.
  - intros x Hx. apply Hcov. lia.
  - intros El. destruct (Hl El) as [Hs Hk]. destruct (Hknown Hk) as [_ ->]. rewrite Hk, orb_true_r. done.
  - by rewrite (mv_allow _ _ _ _ _ Hmc).
  - rewrite Eh. unfold max_offset. lia.
  - rewrite Ech, Ecr, Eh. lia.
  - unfold final. destruct fin; cbn [orb]; [rewrite Eh; by apply Hfo|]. destruct (knows_final s) eqn:Hk; [|done].
    by rewrite (proj1 (Hknown eq_refl)).
  - intros Hrem. by rewrite (Fr Hrem), orb_true_r.
  - destruct Frd as [?|(H1 & Hk & H2)]; [by left|right]. destruct (Hknown Hk) as [-> _]. by rewrite Hk, orb_true_r.
  - intros He. pose proof He as He'. apply andb_true_iff in He' as [Hrem _]. destruct (Hknown (Fr Hrem)) as [-> _]. by apply Fe.
  - intros Hc. by rewrite (Fcp Hc), orb_true_r.
Qed.

(** The frame sorter took a frame. *)
Lemma push_inv s c q f : stream_inv s c -> frame_ok f -> Offset f + len (content (Data f)) <= highest s ->
  accepts (frameQueue s) q (Data f) (Offset f) (PutBack f) ->
  stream_inv (with_frame s q (currentFrame s) (currentFrameDone s) (readPosInFrame s) (currentFrameIsLast s) (called s)) c.
Proof.
  intros [[C Ha Hp Hcu Hcov Hl] Hf] (Hf1 & Hf2 & Hf3) Hh [A1 A2 A3 A4 _ _ _].
  split; [|by destruct Hf; split]. split; cbn; rewrite ?A2; auto.
  intros x Hx. rewrite A3. split; [by apply Hcov|]. unfold brought. lia.
Qed.

(** [s] with the frame and the offsets of a frame that was handled *)
Definition handled (s : ReceiveStream) (q : frameSorter) (fc : stream_controller) (final : Z) (chan : bool) : ReceiveStream :=
  with_signal (with_frame (with_flow s fc (queuedMaxStreamData s) final) q (currentFrame s) (currentFrameDone s)
    (readPosInFrame s) (currentFrameIsLast s) (called s)) (closeForShutdownErr s) chan (deadline s).

(** The end of [handleStreamFrame]: a stream that is completed now was
    cancelled. *)
Lemma handled_end s c q fc final chan c2 (s2 := handled s q fc final chan) :
  stream_inv s c -> settled s -> error_ok s -> stream_inv s2 c2 -> bytesRead (ctrl fc) = bytes_read s ->
  (knows_final s = true -> receivedFinalOffset fc = true /\ highestReceived (ctrl fc) = highest s /\ final = finalOffset s) ->
  (chan = true \/ chan = readChan s /\ cancelledLocally s = true) ->
  exists s' c' ns, (let '(s0, newly) := isNewlyCompleted s2 in
    if newly then let '(s3, conn) := abandon s0 c2 in Ret (s3, conn, [onStreamCompleted], @None goerror)
    else Ret (s0, c2, [], None)) = Ret (s', c', ns, None) /\ op_done True s s' c'.
Proof.
  intros Hi Hset Herr Hi2 Hrd Hkn Hch. destruct (isNewlyCompleted s2) as [s3 b] eqn:En.
  assert (Hb : b = true -> cancelledLocally s2 = true).
  { intros ->. destruct (isNewlyCompleted_cases _ _ _ En) as [(_ & ? & _)|(_ & _ & Hfn & [?|Her])]; [done|done|].
    cbn in Her |- *. destruct (knows_final s) eqn:Ek; [|by apply (read_over_known s c)]. exfalso.
    destruct Hset as [Hc|[?|[_ ?]]]; [|congruence..]. unfold isNewlyCompleted in En. cbn in En. by rewrite Hc in En. }
  destruct (complete_abandon s2 c2 s3 b Hi2 En Hb) as (fc3 & c3 & Ha & Hi3 & Hk3 & Hh3 & Hb3).
  exists (with_flow s3 fc3 (queuedMaxStreamData s3) (finalOffset s3)), c3, (if b then [onStreamCompleted] else []).
  split. { destruct b; [by rewrite Ha|]. injection Ha as Ha <-. by rewrite <-Ha. }
  pose proof (newly_settled s2 c2 s3 b Hi2 En) as Hst.
  assert (E3 : s3 = with_flags s2 (queuedStopSending s) (errorRead s) (completed s || b)).
  { destruct (isNewlyCompleted_cases _ _ _ En) as [(-> & -> & _)|(-> & -> & _)]; [|by rewrite orb_true_r].
    by rewrite orb_false_r. }
  assert (Efc : b = false -> bytesRead (ctrl fc3) = bytes_read s) by (by intros ->; subst fc3).
  clear Hb En Ha. subst s3. cbn in *. split; cbn; try done.
  - intros Hk. rewrite Hk3. destruct (Hkn Hk) as (? & _ & ?). done.
  - destruct Hst as [?|[Hk|?]]; [by left| |by right; right]. right; left. cbn in *. congruence.
  - intros _ _ Hcr. unfold credit_returned. cbn. intros Hc. destruct b; [congruence|]. rewrite (Efc eq_refl), Hh3.
    rewrite orb_false_r in Hc. rewrite (Hcr Hc). pose proof (fo_completed _ _ (si_flow _ _ Hi) Hc) as Hk.
    by destruct (Hkn Hk) as (_ & -> & _).
  - intros _ _ _. destruct Hch as [->|[-> Hl]]; [by left|right]. intros n. split; [done|]. intros _. right. by left.
Qed.

Lemma handleStreamFrame_spec s c f e : stream_inv s c -> settled s -> error_ok s -> frame_ok f ->
  exists s' c' ns err, handleStreamFrame s c f e = Ret (s', c', ns, err) /\ (err = None -> op_done True s s' c').
Proof.
  intros Hi Hset Herr Hf. pose proof Hf as (Hf1 & Hf2 & Hf3). pose proof (len_nonneg (content (Data f))) as Hl0.
  unfold handleStreamFrame, handleStreamFrameImpl.
  rewrite (i64_small (Offset f + _)) by (unfold max_offset in *; lia).
  set (off := Offset f + len (content (Data f))) in *.
  destruct (StreamFlow.UpdateHighestReceived (flowController s) c off (Fin f) e) as [[fc c1] err1] eqn:Eu.
  destruct err1 as [err1|].
  { cbn [obind]. destruct (isNewlyCompleted _) as [s2 b]. destruct b; [destruct (abandon s2 c1)|]; by do 4 eexists. }
  destruct (accept_inv s c off (Fin f) e fc c1 Hi) as (Hi1 & Hk1 & Hr1 & Hkn & Hh1); [lia|done|].
  set (final := if Fin f then off else finalOffset s) in *. set (s1 := with_flow s fc (queuedMaxStreamData s) final) in *.
  assert (Es1 : (if Fin f then with_flow (with_flow s fc (queuedMaxStreamData s) (finalOffset s)) fc
      (queuedMaxStreamData (with_flow s fc (queuedMaxStreamData s) (finalOffset s))) off
      else with_flow s fc (queuedMaxStreamData s) (finalOffset s)) = s1) by (unfold s1, final; by destruct (Fin f)).
  rewrite Es1. clear Es1.
  assert (Hkn' : knows_final s = true -> receivedFinalOffset fc = true /\ highestReceived (ctrl fc) = highest s /\ final = finalOffset s).
  { intros Hk. rewrite Hk1, Hk, orb_true_r. auto. }
  destruct (cancelledLocally s1) eqn:El.
  - cbn [obind]. destruct (handled_end s c (frameQueue s) fc final (readChan s) c1 Hi Hset Herr) as (s' & c' & ns & Hr & Hd); auto.
    exists s', c', ns, None. by split.
  - destruct (Push_cases (frameQueue s) (Data f) (Offset f) (PutBack f) (do_sorter _ (si_data _ _ Hi)) Hf1) as [(q & Hq & Hacc)|(q & Hq & _)];
      [unfold max_offset, MaxByteCount in *; fold off; lia|..];
      change (frameQueue s1) with (frameQueue s) in *; rewrite Hq; cbn [obind].
    + destruct (handled_end s c q fc final true c1 Hi Hset Herr) as (s' & c' & ns & Hr & Hd); auto.
      * apply signal_inv, (push_inv s1 c1 q f); [done|done| |done]. fold off. cbn. lia.
      * exists s', c', ns, None. by split.
    + destruct (isNewlyCompleted _) as [s3 b]. destruct b; [destruct (abandon s3 c1)|]; by do 4 eexists.
Qed.

Lemma settled_not_newly s c : stream_inv s c -> settled s -> isNewlyCompleted s = (s, false).
Proof.
  intros [_ Hf] Hs. unfold isNewlyCompleted. pose proof (fo_final _ _ Hf) as Hfin.
  destruct (completed s) eqn:Ec; [done|]. destruct Hs as [?|[Hk|[Hl He]]]; [congruence| |].
  - rewrite Hk in Hfin. by rewrite (proj2 (Z.eqb_eq _ _) Hfin).
  - rewrite Hl, He. by destruct (finalOffset s =? MaxByteCount).
Qed.

Lemma nothing_done plain s c : stream_inv s c -> settled s -> op_done plain s s c.
Proof. intros Hi Hs. split; auto. Qed.

(** A RESET_STREAM frame, with a reliable size of 0, or a RESET_STREAM_AT frame *)
Definition reset_ok (f : reset_frame) : Prop := 0 <= FinalSize f <= max_offset /\ 0 <= ReliableSize f.

(** Flags and reliable size change while the stream was not given up. *)
Lemma cancel_inv s c remotely err reliable :
  stream_inv s c -> knows_final s = true -> readPos s < reliable ->
  (cancelledRemotely s = true -> reliable <= reliableSize s) -> (queuedStopSending s = true -> err <> None) ->
  stream_inv (with_cancel s remotely (cancelledLocally s) err reliable) c.
Proof.
  intros Hi Hk Hrel Hold Herr. destruct (positions s c Hi) as (Hp1 & _). pose proof Hi as [[] [Fs Fc Fa Fl Fsh Ff Fr Frl Frd Fe Fq Fcp]].
  assert (Hne : forall r, isRemoteCancellationEffective (with_cancel s r (cancelledLocally s) err reliable) = false).
  { intros r. unfold isRemoteCancellationEffective. cbn. by rewrite (proj2 (Z.leb_gt _ _)), andb_false_r. }
  split; split; cbn; auto; try lia.
  - destruct Frd as [?|(H1 & H2 & [?|He])]; [by left|right; auto|]. exfalso.
    apply andb_true_iff in He as [Hr He]. apply Z.leb_le in He. specialize (Hold Hr). lia.
  - by rewrite Hne.
Qed.

(** [handleResetStreamFrameImpl], when the flow controllers accepted the
    final size: with the new reliable size, the stream may be given up, and
    the first reset is remembered. *)
Definition new_reliable (s : ReceiveStream) (f : reset_frame) : Z :=
  if (negb (cancelledRemotely s) && (reliableSize s =? 0)) || (ReliableSize f <? reliableSize s)
  then ReliableSize f else reliableSize s.

Definition remember_reset (s : ReceiveStream) (c : base) (code : Z) : ReceiveStream * base * option goerror :=
  if cancelledRemotely s then (s, c, None) else
  if cancelledLocally s then (s, c, None) else
  (signalRead (with_cancel s true (cancelledLocally s)
     (Some {| errStreamID := streamID (flowController s); ErrorCode := code; Remote := true |}) (reliableSize s)), c, None).

Definition reset_rest (s : ReceiveStream) (c : base) (f : reset_frame) (reliable : Z) : ReceiveStream * base * option goerror :=
  let s := with_cancel s (cancelledRemotely s) (cancelledLocally s) (cancelErr s) reliable in
  let '(s, c) := if reliableSize s <=? readPos s then abandon s c else (s, c) in
  remember_reset s c (resetCode f).

Lemma reset_impl_rest s c f e : closeForShutdownErr s = None ->
  match StreamFlow.UpdateHighestReceived (flowController s) c (FinalSize f) true e with
  | (fc, c1, None) => handleResetStreamFrameImpl s c f e
      = reset_rest (with_flow s fc (queuedMaxStreamData s) (FinalSize f)) c1 f (new_reliable s f)
  | (_, _, Some err) => exists s' c', handleResetStreamFrameImpl s c f e = (s', c', Some err)
  end.
Proof.
  intros Hcl. unfold handleResetStreamFrameImpl. rewrite Hcl.
  destruct (StreamFlow.UpdateHighestReceived _ _ _ _ _) as [[fc c1] [err|]]; [by do 2 eexists|done].
Qed.

Lemma new_reliable_spec s f : 0 <= reliableSize s -> 0 <= ReliableSize f ->
  0 <= new_reliable s f /\ (cancelledRemotely s = true -> new_reliable s f <= reliableSize s) /\
  (ReliableSize f = 0 -> reliableSize s = 0 -> new_reliable s f = 0).
Proof.
  intros Hs Hf. unfold new_reliable. destruct (cancelledRemotely s); cbn [negb andb orb];
    [|destruct (Z.eqb_spec (reliableSize s) 0); cbn [orb]]; try case Z.ltb_spec; intros; split_and!; intros; lia || done.
Qed.

(** What [reset_rest] leaves of [s], whose final offset is known *)
Lemma reset_rest_spec s c f rel (loc := cancelledLocally s) (rem := cancelledRemotely s) :
  stream_inv s c -> knows_final s = true -> 0 <= rel -> (rem = true -> rel <= reliableSize s) ->
  exists fc err chan c' (s' := with_signal (with_cancel (with_flow s fc (queuedMaxStreamData s) (finalOffset s))
      (rem || negb loc) loc err rel) (closeForShutdownErr s) chan (deadline s)),
    reset_rest s c f rel = (s', c', None) /\ stream_inv s' c' /\ receivedFinalOffset fc = true /\
    (rel <= readPos s -> bytesRead (ctrl fc) = highestReceived (ctrl fc)) /\
    (chan = true \/ chan = readChan s /\ (rem = true \/ loc = true)).
Proof.
  intros Hi Hk Hrel0 Hrel1.
  set (err := fun fc => if rem || loc then cancelErr s else
    Some {| errStreamID := streamID fc; ErrorCode := resetCode f; Remote := true |}).
  assert (Herr : forall fc, queuedStopSending s = true -> err fc <> None).
  { intros fc Hq. unfold err. destruct (rem || loc); [|done]. by apply (fo_stopping _ _ (si_flow _ _ Hi)). }
  assert (Hend : forall fc c2,
    remember_reset (with_cancel (with_flow s fc (queuedMaxStreamData s) (finalOffset s)) rem loc (cancelErr s) rel) c2 (resetCode f)
    = (with_signal (with_cancel (with_flow s fc (queuedMaxStreamData s) (finalOffset s)) (rem || negb loc) loc (err fc) rel)
         (closeForShutdownErr s) (if rem || loc then readChan s else true) (deadline s), c2, None)).
  { intros fc c2. unfold remember_reset, err. cbn. by destruct rem, loc. }
  assert (Hch : (if rem || loc then readChan s else true) = true \/
    (if rem || loc then readChan s else true) = readChan s /\ (rem = true \/ loc = true)) by (destruct rem, loc; cbn; auto).
  unfold reset_rest. cbn [reliableSize with_cancel readPos]. fold rem loc. case Z.leb_spec; intros Hle.
  - destruct (abandon_inv s c (rem || negb loc) loc (err (flowController s)) rel Hi Hk Hrel0)
      as (fc2 & c2 & Ha & Hi2 & Hb2 & Hh2 & Hf2 & Hid); [destruct loc, rem; auto|apply Herr|].
    assert (Ha' : abandon (with_cancel s rem loc (cancelErr s) rel) c
      = (with_cancel (with_flow s fc2 (queuedMaxStreamData s) (finalOffset s)) rem loc (cancelErr s) rel, c2)).
    { unfold abandon in *. cbn [flowController with_cancel]. destruct (StreamFlow.Abandon _ _) as [fc3 c3].
      injection Ha as Ha <-. by subst. }
    rewrite Ha', Hend. exists fc2, (err fc2), (if rem || loc then readChan s else true), c2. split; [done|].
    split; [|split; [done|split; [congruence|done]]]. apply signal_inv.
    assert (Eerr : err fc2 = err (flowController s)) by (unfold err; by rewrite Hid). by rewrite Eerr.
  - replace (with_cancel s rem loc (cancelErr s) rel)
      with (with_cancel (with_flow s (flowController s) (queuedMaxStreamData s) (finalOffset s)) rem loc (cancelErr s) rel) by done.
    rewrite Hend. exists (flowController s), (err (flowController s)), (if rem || loc then readChan s else true), c.
    split; [done|]. split; [|split; [done|split; [lia|done]]]. apply signal_inv.
    apply (cancel_inv s c (rem || negb loc) (err (flowController s)) rel Hi Hk Hle Hrel1 (Herr _)).
Qed.

Lemma handleResetStreamFrame_spec s c f e : stream_inv s c -> settled s -> reset_ok f ->
  exists s' c' ns err, handleResetStreamFrame s c f e = (s', c', ns, err) /\
    (err = None -> op_done (ReliableSize f = 0) s s' c').
Proof.
  intros Hi Hset [Hf1 Hf2]. unfold handleResetStreamFrame. destruct (closeForShutdownErr s) as [sd|] eqn:Hcl.
  { unfold handleResetStreamFrameImpl. rewrite Hcl, (settled_not_newly s c Hi Hset). do 4 eexists. split; [done|].
    intros _. by apply nothing_done. }
  pose proof (reset_impl_rest s c f e Hcl) as Him.
  destruct (StreamFlow.UpdateHighestReceived (flowController s) c (FinalSize f) true e) as [[fc c1] [err1|]] eqn:Eu.
  { destruct Him as (s' & c' & ->). destruct (isNewlyCompleted s') as [s2 b]. by do 4 eexists. }
  destruct (accept_inv s c (FinalSize f) true e fc c1 Hi Hf1 Eu) as (Hi1 & Hk1 & Hr1 & Hkn & Hh1).
  destruct (new_reliable_spec s f (fo_reliable _ _ (si_flow _ _ Hi)) Hf2) as (Hrel0 & Hrel1 & Hrel2).
  set (s1 := with_flow s fc (queuedMaxStreamData s) (FinalSize f)) in *. set (rel := new_reliable s f) in *.
  destruct (reset_rest_spec s1 c1 f rel Hi1 Hk1 Hrel0 Hrel1) as (fc2 & err & chan & c2 & Hr & Hi2 & Hk2 & Hb2 & Hch).
  rewrite Him, Hr. set (s2 := with_signal _ _ _ _) in *. destruct (isNewlyCompleted s2) as [s3 b] eqn:En.
  do 4 eexists. split; [done|]. intros _. pose proof (newly_settled s2 c2 s3 b Hi2 En) as Hst.
  pose proof (isNewlyCompleted_inv s2 c2 s3 b Hi2 En) as Hi3.
  assert (E3 : s3 = with_flags s2 (queuedStopSending s) (errorRead s) (completed s || b)).
  { destruct (isNewlyCompleted_cases _ _ _ En) as [(-> & -> & _)|(-> & -> & _)]; [by rewrite orb_false_r|by rewrite orb_true_r]. }
  destruct (positions s c Hi) as (Hp & _). rewrite E3 in Hi3, Hst |- *. clear En E3. split; cbn in *; try done.
  - intros Hk. split; [done|]. by destruct (Hkn Hk).
  - intros He. apply andb_true_iff in He as [Hr' He]. apply Z.leb_le in He. unfold isRemoteCancellationEffective. cbn.
    rewrite Hr'. cbn. apply Z.leb_le. specialize (Hrel1 Hr'). lia.
  - intros Hpl Hr0 _ _. rewrite (Hrel2 Hpl Hr0) in Hb2. apply Hb2. lia.
  - intros Hpl Hr0 _. destruct Hch as [->|[-> Hc]]; [by left|right]. intros n. split; [done|]. intros _. right.
    destruct Hc as [Hc|Hc]; [right; left|by left]. apply remotely_effective; [done|lia|done].
Qed.

(** [CancelRead] of a stream that was not cancelled yet *)
Lemma cancelReadImpl_cases s code :
  (cancelReadImpl s code = (s, false) /\ (cancelledLocally s = true \/ closeForShutdownErr s <> None)) \/
  cancelledLocally s = false /\ closeForShutdownErr s = None /\
  exists stop err chan, cancelReadImpl s code
    = (with_flags (with_signal (with_cancel s (cancelledRemotely s) true err (reliableSize s)) (closeForShutdownErr s) chan (deadline s))
         stop (errorRead s) (completed s), negb (errorRead s || cancelledRemotely s)) /\
    (if errorRead s || cancelledRemotely s then stop = queuedStopSending s /\ err = cancelErr s /\ chan = readChan s
     else stop = true /\ err <> None /\ chan = true).
Proof.
  unfold cancelReadImpl. destruct (cancelledLocally s) eqn:El; [left; auto|].
  destruct (closeForShutdownErr s) eqn:Ec; [left; auto|]. right. split; [done|]. split; [done|]. cbn.
  destruct (errorRead s || cancelledRemotely s) eqn:Eo; cbn.
  - exists (queuedStopSending s), (cancelErr s), (readChan s).
    unfold with_flags, with_signal, with_cancel. cbn. by rewrite Ec.
  - exists true, (Some {| errStreamID := streamID (flowController s); ErrorCode := code; Remote := false |}), true.
    unfold signalRead, with_flags, with_signal, with_cancel. cbn. by rewrite Ec.
Qed.

Lemma CancelRead_spec s c code : stream_inv s c -> settled s -> error_ok s ->
  exists s' c' ns, CancelRead s c code = (s', c', ns) /\ op_done True s s' c'.
Proof.
  intros Hi Hset Herr. unfold CancelRead.
  destruct (cancelReadImpl_cases s code) as [[-> _]|(El & Ecl & stop & err & chan & -> & Hcase)].
  { rewrite (settled_not_newly s c Hi Hset). do 3 eexists. split; [done|]. by apply nothing_done. }
  set (s1 := with_flags _ stop _ _).
  assert (Hi1 : stream_inv s1 c).
  { destruct Hi as [[] [Fs Fc Fa Fl Fsh Ff Fr Frl Frd Fe Fq Fcp]]. split; split; cbn; auto.
    - destruct Frd as [?|(? & ? & _)]; auto.
    - destruct (errorRead s || cancelledRemotely s); [by destruct Hcase as (-> & -> & _)|by destruct Hcase as (_ & ? & _)]. }
  destruct (isNewlyCompleted s1) as [s2 b] eqn:En.
  destruct (complete_abandon s1 c s2 b Hi1 En) as (fc3 & c3 & Ha & Hi3 & Hk3 & Hh3 & Hb3); [done|].
  pose proof (newly_settled s1 c s2 b Hi1 En) as Hst.
  assert (E3 : s2 = with_flags s1 stop (errorRead s) (completed s || b)).
  { destruct (isNewlyCompleted_cases _ _ _ En) as [(-> & -> & _)|(-> & -> & _)]; [by rewrite orb_false_r|by rewrite orb_true_r]. }
  set (ns := if negb (errorRead s || cancelledRemotely s) then [onHasStreamControlFrame] else []).
  exists (with_flow s2 fc3 (queuedMaxStreamData s2) (finalOffset s2)), c3, (if b then ns ++ [onStreamCompleted] else ns).
  split. { destruct b; [by rewrite Ha|]. injection Ha as Ha <-. by rewrite <-Ha. }
  clear Ha En. subst s2. split; cbn in *; try done.
  - intros Hk. by rewrite Hk3.
  - destruct Hst as [?|[Hk|[? _]]]; [by left| |done]. right; left. cbn in *. congruence.
  - intros _ _ Hcr. unfold credit_returned. cbn. intros Hc. destruct b; [congruence|]. rewrite orb_false_r in Hc. rewrite Hb3. by apply Hcr.
  - intros _ Hr0 Hlast. destruct (positions s c Hi) as (Hp & _).
    destruct (errorRead s) eqn:Her; cbn [orb] in *.
    + right. destruct Hcase as (_ & _ & ->). intros n. split; [done|]. intros _.
      destruct (Herr Her) as [(_ & ? & _)|[?|?]]; [congruence..|]. by right; right; left.
    + destruct (cancelledRemotely s) eqn:Ecr; [|by left; destruct Hcase as (_ & _ & ->)]. right.
      destruct Hcase as (_ & _ & ->). intros n. split; [done|]. intros _. right; right; left. by apply remotely_effective; [|lia|].
Qed.

Lemma getControlFrame_spec s c e : stream_inv s c -> settled s ->
  exists s' c' f more, getControlFrame s c e = Ret (s', c', f, more) /\ op_done True s s' c'.
Proof.
  intros Hi Hset. unfold getControlFrame. pose proof Hi as [Hd [Fs Fc Fa Fl Fsh Ff Fr Frl Frd Fe Fq Fcp]].
  destruct (queuedStopSending s) eqn:Es; cbn [negb andb].
  - destruct (cancelErr s) as [err|] eqn:Ee; [|by destruct (Fq eq_refl)]. do 4 eexists. split; [done|].
    split; try done; [by apply flags_inv|]. by right.
  - destruct (queuedMaxStreamData s); cbn [negb]; [|do 4 eexists; split; [done|]; by apply nothing_done].
    destruct (GetWindowUpdate_spec (flowController s) c e Fs Fc Fa) as (fc & c' & v & -> & Rf & Hmc & Hmf & _ & _ & _ & Hid & Hfin).
    cbn [obind]. do 4 eexists. split; [done|]. pose proof (mv_read _ _ _ _ _ Hmf) as Er. pose proof (mv_highest _ _ _ _ _ Hmf) as Eh.
    pose proof (mv_read _ _ _ _ _ Hmc) as Ecr. pose proof (mv_highest _ _ _ _ _ Hmc) as Ech.
    split; cbn; rewrite ?Hfin; try done.
    + destruct Hd. split; split; cbn; rewrite ?Hfin, ?Er, ?Eh, ?Ech, ?Ecr; auto.
      * by eapply tuned_receiving.
      * by rewrite (mv_allow _ _ _ _ _ Hmc).
      * by rewrite Es.
    + unfold settled. cbn. by rewrite Hfin.
    + intros _ _. unfold credit_returned. cbn. by rewrite Er, Eh.
    + intros _ _ _. right. done.
Qed.

Lemma signal_done s c dl sd : stream_inv s c -> settled s -> op_done True s (with_signal s sd true dl) c.
Proof. intros Hi Hs. split; try done; [by apply signal_inv|by left]. Qed.

End Stream.
