(* ===== verification/ReceiveStreamProps.v ===== *)
(** * Receive streams: a reader and the network

    Frames arrive, one reader at a time reads and peeks, waits and is woken,
    and the stream is cancelled from either side, in any order.  What is read
    is the stream; a reader that waits is woken when there is something to do;
    a stream that is over has given its credit back.  The last two hold when
    the peer resets the stream as a whole: RESET_STREAM_AT frames break them,
    and the runs at the end show how. *)
From S2P Require Import Prelude Protocol Frames FrameSorter FrameSorterFacts FrameSorterPush FrameSorterProps.
From S2P Require Import FlowControl FlowControlFacts ReceiveStream ReceiveStreamFacts.
Import ReceiveStream.

Local Open Scope Z_scope.
Local Open Scope go_scope.

(** ** The machine *)

(** A call that waits: the length of the buffer, and what [readImpl] keeps in
    its variables *)
Inductive call :=
  | ReadCall (n : Z) (hasStream hasConn : bool) (data : bytes)
  | PeekCall (n : Z).

Definition wanted (k : call) : Z := match k with ReadCall _ _ _ _ => 1 | PeekCall n => n end.

Inductive event :=
  | DidRead (n : Z) (data : bytes) (err : option read_error)
  | DidPeek (n pos : Z) (data : bytes) (err : option read_error).

(** [reader]: the call that waits, and if it was woken already *)
Record machine := { rs : ReceiveStream; cn : base; reader : option (call * bool); log : list event }.

Inductive op :=
  | OpFrame (f : stream_frame) (e : env)
  | OpReset (f : reset_frame) (e : env)
  | OpRead (n : Z) (clock : nat -> Z)
  | OpPeek (n now : Z)
  | OpWake
  | OpTimeout
  | OpResume (clock : nat -> Z)
  | OpCancelRead (code : Z)
  | OpControlFrame (e : env)
  | OpDeadline (t : Z)
  | OpShutdown (err : goerror).

Definition with_stream (m : machine) (s : ReceiveStream) (c : base) : machine :=
  {| rs := s; cn := c; reader := reader m; log := log m |}.

Definition finish_read (m : machine) (n : Z) (x : reading * result) : machine :=
  match x with
  | (r, Blocked) =>
      {| rs := s_ r; cn := conn_ r; reader := Some (ReadCall n (hasStream r) (hasConn r) (data_ r), false); log := log m |}
  | (r, Returned data err) =>
      let '(s, c, _) := read_end r in {| rs := s; cn := c; reader := None; log := log m ++ [DidRead n data err] |}
  end.

Definition finish_peek (m : machine) (n : Z) (x : ReceiveStream * result) : machine :=
  match x with
  | (s, Blocked) => {| rs := s; cn := cn m; reader := Some (PeekCall n, false); log := log m |}
  | (s, Returned data err) => {| rs := s; cn := cn m; reader := None; log := log m ++ [DidPeek n (readPos s) data err] |}
  end.

(** An error of the peer's frames closes the connection.  [readOnce] lets one
    reader in at a time. *)
Definition step (m : machine) (o : op) : outcome machine :=
  match o with
  | OpFrame f e =>
      let! '(s, c, _, err) := handleStreamFrame (rs m) (cn m) f e in
      match err with Some err => Err err | None => Ret (with_stream m s c) end
  | OpReset f e =>
      let '(s, c, _, err) := handleResetStreamFrame (rs m) (cn m) f e in
      match err with Some err => Err err | None => Ret (with_stream m s c) end
  | OpRead n clock =>
      match reader m with
      | Some _ => Ret m
      | None => let! x := readImpl (rs m) (cn m) clock n in Ret (finish_read m n x)
      end
  | OpPeek n now =>
      match reader m with
      | Some _ => Ret m
      | None => let! x := peekImpl (rs m) now n in Ret (finish_peek m n x)
      end
  | OpWake =>
      match reader m with
      | Some (k, false) =>
          if readChan (rs m)
          then Ret {| rs := with_signal (rs m) (closeForShutdownErr (rs m)) false (deadline (rs m)); cn := cn m;
                      reader := Some (k, true); log := log m |}
          else Ret m
      | _ => Ret m
      end
  | OpTimeout =>
      match reader m with
      | Some (k, false) =>
          if deadline (rs m) =? 0 then Ret m
          else Ret {| rs := rs m; cn := cn m; reader := Some (k, true); log := log m |}
      | _ => Ret m
      end
  | OpResume clock =>
      match reader m with
      | Some (ReadCall n hs hc d, true) =>
          let! x := read_resume {| s_ := rs m; conn_ := cn m; hasStream := hs; hasConn := hc; data_ := d |} clock n in
          Ret (finish_read m n x)
      | Some (PeekCall n, true) => let! x := peek_resume (rs m) (clock 0%nat) n in Ret (finish_peek m n x)
      | _ => Ret m
      end
  | OpCancelRead code => let '(s, c, _) := CancelRead (rs m) (cn m) code in Ret (with_stream m s c)
  | OpControlFrame e => let! '(s, c, _, _) := getControlFrame (rs m) (cn m) e in Ret (with_stream m s c)
  | OpDeadline t => Ret (with_stream m (SetReadDeadline (rs m) t) (cn m))
  | OpShutdown err => Ret (with_stream m (closeForShutdown (rs m) err) (cn m))
  end.

Definition opened (fc : stream_controller) (c : base) : machine :=
  {| rs := newReceiveStream fc; cn := c; reader := None; log := [] |}.

Definition run (m : machine) (ops : list op) : outcome machine := ofold step ops m.

(** What the frame parser ensures, and that frames are cut from one stream *)
Definition op_ok (stream : Z -> Z) (o : op) : Prop :=
  match o with
  | OpFrame f _ => frame_ok stream f
  | OpReset f _ => reset_ok f
  | OpRead n _ => 0 <= n
  | OpPeek n _ => 0 < n <= max_offset
  | _ => True
  end.

(** Resets are RESET_STREAM frames. *)
Definition plain (o : op) : Prop := match o with OpReset f _ => ReliableSize f = 0 | _ => True end.

(** All that was read *)
Definition read_bytes (l : list event) : bytes :=
  flat_map (fun ev => match ev with DidRead _ data _ => data | DidPeek _ _ _ _ => [] end) l.

Section Runs.
Context (stream : Z -> Z) (window maxWindow sendWindow id : Z) (c0 : base).
Hypothesis Hwindow : 0 < window <= max_size /\ 0 <= maxWindow <= max_size.
Hypothesis Hconn : receiving c0 /\ hasAllow c0 = true /\ highestReceived c0 <= max_offset.

Let m0 : machine := opened (StreamFlow.New id window maxWindow sendWindow) c0.

(** What a call returned, seen from a later state of the stream *)
Definition event_ok (s : ReceiveStream) (ev : event) : Prop :=
  match ev with
  | DidRead _ _ (Some EOF) => knows_final s = true /\ readPos s = finalOffset s
  | DidPeek _ pos data (Some EOF) =>
      data = segment stream pos (length data) /\ knows_final s = true /\ pos + len data = finalOffset s
  | DidPeek n pos data err => data = segment stream pos (length data) /\ (err = None -> len data = n) /\ (forall e, err <> Some (Bug e))
  | DidRead _ _ err => forall e, err <> Some (Bug e)
  end.

Definition call_ok (s : ReceiveStream) (k : call) : Prop :=
  currentFrameIsLast s = false /\
  match k with
  | ReadCall n hs hc d => 0 < n /\ currentFrame s = None /\ hs = false /\ hc = false /\ d = []
  | PeekCall n => 0 < n <= max_offset
  end.

Record machine_inv (m : machine) : Prop := {
  mi_stream : stream_inv stream c0 (rs m) (cn m);
  mi_settled : settled (rs m);
  mi_error : error_ok (rs m);
  mi_read : read_bytes (log m) = segment stream 0 (Z.to_nat (readPos (rs m)));
  mi_log : Forall (event_ok (rs m)) (log m);
  mi_reader : forall k w, reader m = Some (k, w) -> call_ok (rs m) k;
}.

(** What holds as long as resets are RESET_STREAM frames *)
Record plain_inv (m : machine) : Prop := {
  pl_reliable : reliableSize (rs m) = 0;
  pl_credit : credit_returned (rs m);
  pl_awake : forall k, reader m = Some (k, false) -> readChan (rs m) = true \/ ~ ready (wanted k) (rs m);
}.

(** ** Steps of the machine *)

Lemma event_mono s s' c' ev : stream_inv stream c0 s' c' -> readPos s <= readPos s' ->
  (knows_final s = true -> knows_final s' = true /\ finalOffset s' = finalOffset s) -> event_ok s ev -> event_ok s' ev.
Proof.
  intros Hi Hp Hk. destruct (positions stream c0 s' c' Hi) as (H1 & H2 & _). pose proof (fo_final _ _ _ (si_flow _ _ _ _ Hi)) as Hf.
  destruct ev as [n d err|n pos d err]; cbn; destruct err as [[]|]; try done.
  - intros [Hkn Hpos]. destruct (Hk Hkn) as [Hkn' Hfin]. rewrite Hkn' in *. split; [done|]. lia.
  - intros (Hd & Hkn & Hpos). destruct (Hk Hkn) as [-> ->]. done.
Qed.

Lemma op_step P m s' c' : op_done stream c0 P (rs m) s' c' -> machine_inv m ->
  machine_inv (with_stream m s' c') /\ (P -> plain_inv m -> plain_inv (with_stream m s' c')).
Proof.
  intros [Hi (Ef1 & Ef2 & Ef3) [Ep Ee] Hfin Hloc Heff Hset Hpl Hcr Hw] [Mi Ms Me Mr Ml Mc]. split.
  - split; cbn; auto.
    + intros He. rewrite Ee in He. destruct (Me He) as [(H1 & H2 & H3 & H4)|[H|H]]; [left|right; auto..].
      destruct (Hfin H3) as [? ?]. unfold at_end. rewrite Ef1, Ef2. split_and!; congruence.
    + by rewrite Ep.
    + eapply Forall_impl; [exact Ml|]. intros ev. apply (event_mono _ _ c'); [done|lia|done].
    + intros k w Hr. unfold call_ok. rewrite Ef1, Ef2. exact (Mc k w Hr).
  - intros HP [P1 P2 P3]. split; cbn; auto. intros k Hr. destruct (Mc k _ Hr) as [Hlast _].
    destruct (Hw HP P1 Hlast) as [?|Hn]; [by left|]. destruct (Hn (wanted k)) as [-> Hrd]. destruct (P3 k Hr); auto.
Qed.

Lemma kept_events m s' c' : stream_inv stream c0 s' c' -> kept (rs m) s' -> machine_inv m -> Forall (event_ok s') (log m).
Proof.
  intros Hi [] [_ _ _ _ Ml _]. eapply Forall_impl; [exact Ml|]. intros ev. apply (event_mono _ _ c'); [done|done|].
  intros H. split; congruence.
Qed.

Lemma read_over_kept s s' : kept s s' -> read_over s -> (at_end s -> at_end s') -> read_over s'.
Proof.
  intros Hk [H|[H|H]] Hat; [left; auto|right; left; by rewrite (kp_locally _ _ Hk)|right; right].
  apply andb_true_iff in H as [Hr Hp]. apply Z.leb_le in Hp. unfold isRemoteCancellationEffective.
  rewrite (kp_remotely _ _ Hk), (kp_reliable _ _ Hk), Hr. apply Z.leb_le. pose proof (kp_readPos _ _ Hk). lia.
Qed.

(** A call that waits cannot have what it waits for. *)
Lemma blocked_not_ready s c : stream_inv stream c0 s c -> must_wait s -> fresh s -> reliableSize s = 0 -> ~ ready 1 s.
Proof.
  intros Hi (Hnil & Hlast & Hcl & Hloc & Heff) Hf Hrel [?|[?|[?|Hall]]]; [congruence..|].
  unfold fresh in Hf. rewrite Hnil in Hf. destruct Hf as (_ & Hm & El). destruct (positions _ _ _ _ Hi) as (Hp & _).
  destruct (cancelledRemotely s) eqn:Er; [by rewrite (remotely_effective s) in Heff by (done || lia)|].
  rewrite Hlast, andb_true_r in El. symmetry in El. apply Z.leb_gt in El. apply (Hall (readPos s)); [lia|done].
Qed.

(** The end of [Read] completes a stream only when its credit is returned. *)
Lemma read_end_spec r s c ns s0 : read_end r = (s, c, ns) -> stream_inv stream c0 (s_ r) (conn_ r) -> error_ok (s_ r) ->
  kept s0 (s_ r) -> settled s0 ->
  c = conn_ r /\ stream_inv stream c0 s c /\ settled s /\ error_ok s /\
  (exists comp, s = with_flags (s_ r) (queuedStopSending (s_ r)) (errorRead (s_ r)) comp) /\
  (completed s = true -> completed s0 = true \/ bytes_read s = highest s).
Proof.
  unfold read_end. destruct (isNewlyCompleted (s_ r)) as [s1 b] eqn:En. intros [= <- <- _] Hi Her Hk Hset.
  pose proof (newly_settled _ _ _ _ _ _ Hi En) as Hst. pose proof (isNewlyCompleted_inv _ _ _ _ _ _ Hi En) as Hi1.
  assert (E1 : s1 = with_flags (s_ r) (queuedStopSending (s_ r)) (errorRead (s_ r)) (completed s1)).
  { destruct (isNewlyCompleted_cases _ _ _ En) as [(-> & _)|(-> & _)]; [by destruct (s_ r)|done]. }
  split; [done|]. split; [done|]. split; [done|]. split; [by rewrite E1|]. split; [by exists (completed s1)|]. intros Hc.
  destruct (isNewlyCompleted_cases _ _ _ En) as [(-> & _ & _)|(-> & _ & Hf & Hor)];
    [left; by rewrite <-(kp_completed _ _ Hk)|].
  cbn. pose proof (known_final _ _ _ _ Hi Hf) as Hkn. destruct (completed s0) eqn:Ec0; [by left|right].
  assert (Hloc : cancelledLocally (s_ r) = false).
  { destruct Hset as [?|[Hk0|[Hl _]]]; [congruence| |by rewrite (kp_locally _ _ Hk)]. pose proof (kp_known _ _ Hk). congruence. }
  destruct Hor as [?|He]; [congruence|]. pose proof (si_flow _ _ _ _ Hi) as Hfl.
  destruct (Her He) as [(_ & _ & _ & Hpos)|[?|Heff]]; [|congruence|by apply (fo_effective _ _ _ Hfl)].
  pose proof (fo_final _ _ _ Hfl) as Hfin. rewrite Hkn in Hfin. destruct (fo_read _ _ _ Hfl) as [?|[? _]]; congruence.
Qed.

Lemma read_step m n r res :
  machine_inv m -> read_done stream c0 n (rs m) r res -> 0 <= n ->
  machine_inv (finish_read m n (r, res)) /\ (plain_inv m -> plain_inv (finish_read m n (r, res))).
Proof.
  intros Mi [Hi Hk Hd He Hat Hend] Hn. pose proof (kept_events m _ _ Hi Hk Mi) as Hev. destruct Mi as [Mi Ms Me Mr Ml Mc].
  destruct (positions _ _ _ _ Mi) as (Hp1 & _). pose proof (kp_readPos _ _ Hk) as Hp2.
  assert (Hread : segment stream 0 (Z.to_nat (readPos (rs m))) ++ data_ r = segment stream 0 (Z.to_nat (readPos (s_ r)))).
  { rewrite Hd. replace (Z.to_nat (readPos (s_ r)))
      with (Z.to_nat (readPos (rs m)) + Z.to_nat (readPos (s_ r) - readPos (rs m)))%nat by lia.
    rewrite segment_app. repeat f_equal. lia. }
  assert (Hov : error_ok (s_ r)).
  { intros Her. destruct (He Her) as [Hold|?]; [|done]. by apply (read_over_kept (rs m)); [|apply Me|]. }
  destruct res as [d err|]; cbn [finish_read].
  - destruct Hend as [-> Hend]. destruct (read_end r) as [[s c] ns] eqn:Ee.
    destruct (read_end_spec r s c ns (rs m) Ee Hi Hov Hk Ms) as (-> & Hi' & Hs' & Ho' & (comp & Es) & Hcr).
    split; [split; cbn; try done|].
    + unfold read_bytes. rewrite flat_map_app. cbn. rewrite app_nil_r. fold (read_bytes (log m)). by rewrite Mr, Hread, Es.
    + apply Forall_app. split; [by rewrite Es|]. apply Forall_singleton. rewrite Es. cbn.
      destruct err as [[]|]; cbn in Hend |- *; try done. destruct Hend as (_ & _ & ? & ?). done.
    + intros [P1 P2 _]. split; cbn; [|intros Hc|done].
      * rewrite Es. cbn. by rewrite (kp_reliable _ _ Hk).
      * destruct (Hcr Hc) as [Hc0|?]; [|done]. specialize (P2 Hc0). pose proof (kp_read _ _ Hk). pose proof (kp_highest _ _ Hk).
        destruct (fo_stream _ _ _ (si_flow _ _ _ _ Hi)). rewrite Es. cbn. lia.
  - destruct Hend as (Hpos & Er & Hw & Hf). assert (Hnone : data_ r = []) by (by rewrite Er).
    pose proof Hw as (Hnil & Hlast & Hcl & Hloc & Heff). split; [split; cbn; try done|].
    + right; right. split; [done|]. destruct (errorRead (s_ r)) eqn:Her; [|done].
      destruct (Hov Her) as [(_ & ? & _)|[?|?]]; congruence.
    + fold (read_bytes (log m)). by rewrite Mr, <-Hread, Hnone, app_nil_r.
    + intros k w [= <- <-]. split; [done|]. rewrite Er. cbn. auto 6.
    + intros [P1 P2 _]. assert (Hrel : reliableSize (s_ r) = 0) by (by rewrite (kp_reliable _ _ Hk)).
      split; cbn; [done| |].
      * intros Hc. rewrite (kp_completed _ _ Hk) in Hc. specialize (P2 Hc). pose proof (kp_read _ _ Hk). pose proof (kp_highest _ _ Hk).
        destruct (fo_stream _ _ _ (si_flow _ _ _ _ Hi)). lia.
      * intros k [= <-]. right. by apply (blocked_not_ready _ (conn_ r)).
Qed.

Lemma peek_step m n s res :
  machine_inv m -> peek_done stream c0 n (rs m) s (cn m) res -> 0 < n <= max_offset ->
  machine_inv (finish_peek m n (s, res)) /\ (plain_inv m -> plain_inv (finish_peek m n (s, res))).
Proof.
  intros Mi [Hi Hk Hp He Hat Hend] Hn. pose proof (kept_events m _ _ Hi Hk Mi) as Hev. destruct Mi as [Mi Ms Me Mr Ml Mc].
  assert (Hov : error_ok s) by (intros Her; rewrite He in Her; apply (read_over_kept (rs m)); auto).
  assert (Hset : settled s).
  { unfold settled. by rewrite (kp_completed _ _ Hk), (kp_known _ _ Hk), (kp_locally _ _ Hk), He. }
  assert (Hcr : plain_inv m -> reliableSize s = 0 /\ credit_returned s).
  { intros [P1 P2 _]. split; [by rewrite (kp_reliable _ _ Hk)|]. intros Hc. rewrite (kp_completed _ _ Hk) in Hc.
    specialize (P2 Hc). pose proof (kp_read _ _ Hk). pose proof (kp_highest _ _ Hk).
    destruct (fo_stream _ _ _ (si_flow _ _ _ _ Hi)). lia. }
  destruct res as [d err|]; cbn [finish_peek].
  - split; [split; cbn; try done|].
    + unfold read_bytes. rewrite flat_map_app. cbn. rewrite app_nil_r. fold (read_bytes (log m)). by rewrite Mr, Hp.
    + apply Forall_app. split; [done|]. apply Forall_singleton. destruct Hend as [Hd Hend]. cbn. destruct err as [[]|]; try done.
    + intros Hpl. destruct (Hcr Hpl). by split.
  - destruct Hend as (Hlast & Hcl & Hloc & Heff & Hnr). split; [split; cbn; try done|].
    + fold (read_bytes (log m)). by rewrite Mr, Hp.
    + intros k w [= <- <-]. done.
    + intros Hpl. destruct (Hcr Hpl) as [Hrel ?]. split; cbn; [done..|]. intros k [= <-]. right. apply Hnr.
      destruct (positions _ _ _ _ Hi) as (Hp1 & _).
      destruct (cancelledRemotely s) eqn:Er; [|done]. by rewrite (remotely_effective s) in Heff by (done || lia).
Qed.

Lemma step_spec m o : machine_inv m -> op_ok stream o ->
  match step m o with
  | Ret m' => machine_inv m' /\ (plain o -> plain_inv m -> plain_inv m')
  | Err _ => True
  | Panic => False
  end.
Proof.
  intros Mi Hop. pose proof Mi as [Hi Hs He Hr Hl Hc]. destruct o as [f e|f e|n clock|n now| | |clock|code|e|t|err]; cbn [step].
  - destruct (handleStreamFrame_spec _ _ _ _ f e Hi Hs He Hop) as (s' & c' & ns & err & -> & Hd). cbn [obind].
    destruct err; [done|]. destruct (op_step True m s' c' (Hd eq_refl) Mi). auto.
  - destruct (handleResetStreamFrame_spec _ _ _ _ f e Hi Hs Hop) as (s' & c' & ns & err & -> & Hd).
    destruct err; [done|]. by apply (op_step (ReliableSize f = 0)); [apply Hd|].
  - destruct (reader m) as [[k w]|] eqn:Er; [done|].
    destruct (readImpl_spec _ _ clock n _ _ Hi Hop) as (r & res & -> & Hd). cbn [obind].
    destruct (read_step m n r res Mi Hd Hop). auto.
  - destruct (reader m) as [[k w]|] eqn:Er; [done|].
    destruct (peekImpl_spec _ _ now n _ (cn m) Hi Hop) as (s & res & -> & Hd). cbn [obind].
    destruct (peek_step m n s res Mi Hd Hop). auto.
  - destruct (reader m) as [[k [|]]|] eqn:Er; [done| |done]. destruct (readChan (rs m)); [|done]. split.
    + split; cbn; auto; [by apply signal_inv|]. intros k' w' [= <- <-]. by apply (Hc k false eq_refl).
    + intros _ [P1 P2 P3]. by split; cbn.
  - destruct (reader m) as [[k [|]]|] eqn:Er; [done| |done]. destruct (deadline (rs m) =? 0); [done|]. split.
    + split; cbn; auto. intros k' w' [= <- <-]. by apply (Hc k false eq_refl).
    + intros _ [P1 P2 P3]. by split; cbn.
  - destruct (reader m) as [[[n hs hc d|n] [|]]|] eqn:Er; [|done| |done|done].
    + destruct (Hc _ _ eq_refl) as (Hlast & Hn & Hnil & -> & -> & ->).
      destruct (read_resume_spec _ _ clock n (rs m) (cn m) Hi) as (r & res & Hrr & Hd); [by unfold used_up; rewrite Hnil|done|done|].
      unfold start in Hrr. rewrite Hrr. cbn [obind]. destruct (read_step m n r res Mi Hd); [lia|]. auto.
    + destruct (Hc _ _ eq_refl) as (Hlast & Hn).
      destruct (peek_resume_spec _ _ (clock 0%nat) n (rs m) (cn m) Hi Hn Hlast) as (s & res & -> & Hd). cbn [obind].
      destruct (peek_step m n s res Mi Hd Hn). auto.
  - destruct (CancelRead_spec _ _ _ _ code Hi Hs He) as (s' & c' & ns & -> & Hd). destruct (op_step True m s' c' Hd Mi). auto.
  - destruct (getControlFrame_spec _ _ _ _ e Hi Hs) as (s' & c' & f & more & -> & Hd). cbn [obind].
    destruct (op_step True m s' c' Hd Mi). auto.
  - destruct (op_step True m _ _ (signal_done _ _ _ _ t (closeForShutdownErr (rs m)) Hi Hs) Mi). auto.
  - destruct (op_step True m _ _ (signal_done _ _ _ _ (deadline (rs m)) (Some err) Hi Hs) Mi). auto.
Qed.

Lemma opened_inv : machine_inv m0 /\ plain_inv m0.
Proof.
  destruct Hwindow as [Hw1 Hw2], Hconn as (Hc1 & Hc2 & Hc3). unfold m0, opened, max_size, max_offset in *. pose proof Hc1 as [].
  split; [|split; cbn; done].
  split; cbn; try done; [|by right; left]. split.
  - split; cbn; try done; [apply new_consistent|]. intros x Hx. unfold missing_in. cbn. autorewrite with gaps. left. cbn. lia.
  - split; cbn; try done; unfold max_offset; try lia. constructor; cbn; unfold_bounds; lia.
Qed.

Lemma stream_outcome ops : Forall (op_ok stream) ops ->
  match run m0 ops with
  | Ret m => machine_inv m /\ (Forall plain ops -> plain_inv m)
  | Err _ => True
  | Panic => False
  end.
Proof.
  induction ops as [|o ops IH] using rev_ind; intros Hok.
  { cbn. destruct opened_inv. auto. }
  apply Forall_app in Hok as [Hok Ho]. apply Forall_cons in Ho as [Ho _]. specialize (IH Hok).
  unfold run in *. rewrite ofold_app. destruct (ofold step ops m0) as [m|e|]; cbn [obind]; [|done..].
  destruct IH as [Mi Hpl]. cbn [ofold]. pose proof (step_spec m o Mi Ho) as Hs. destruct (step m o) as [m'| |]; cbn [obind]; [|done..].
  destruct Hs as [Mi' Hpl']. split; [done|]. intros [Hp Hp1]%Forall_app. apply Forall_cons in Hp1 as [Hp1 _]. auto.
Qed.

(** ** Properties *)

(** C29. Whatever happens to a stream, no operation panics, and what [Read]
    returned so far are the bytes of the stream, from the start and without
    gaps.  [Read] and [Peek] say that the stream ends exactly where it does,
    [Peek] returns the bytes that come next, and a [Read] that returns less
    than it was asked for has returned all that arrived without a gap. *)
Theorem reads_follow_stream ops : Forall (op_ok stream) ops ->
  run m0 ops <> Panic /\ forall m, run m0 ops = Ret m ->
    read_bytes (log m) = segment stream 0 (Z.to_nat (readPos (rs m))) /\ Forall (event_ok (rs m)) (log m) /\
    forall n clock m' data, 0 <= n -> reader m = None -> step m (OpRead n clock) = Ret m' ->
      log m' = log m ++ [DidRead n data None] ->
      len data = n \/ missing_in (gaps (frameQueue (rs m'))) (readPos (rs m')).
Proof.
  intros Hok. pose proof (stream_outcome ops Hok) as Ho. split; [by intros E; rewrite E in Ho|]. intros m E. rewrite E in Ho.
  destruct Ho as [Mi _]. pose proof Mi as [Hi Hs He Hr Hl _]. split; [done|]. split; [done|].
  intros n clock m' data Hn Hrd. cbn [step]. rewrite Hrd.
  destruct (readImpl_spec _ _ clock n _ _ Hi Hn) as (r & res & -> & [Hi' Hk _ _ _ Hend]). cbn [obind]. intros [= <-].
  destruct res as [d err|]; cbn [finish_read].
  - destruct (read_end r) as [[s c] ns] eqn:Ee. cbn. intros Hlog. apply app_inj_2 in Hlog as [_ Hlog]; [|done].
    injection Hlog as -> ->. unfold read_end in Ee. destruct (isNewlyCompleted (s_ r)) as [s1 b] eqn:En. injection Ee as <- _ _.
    destruct Hend as [_ Hend]. by destruct (isNewlyCompleted_cases _ _ _ En) as [(-> & _)|(-> & _)].
  - cbn. intros Hlog%(f_equal length). rewrite length_app in Hlog. cbn in Hlog. lia.
Qed.

(** C30. As long as the peer resets the stream as a whole, no wake-up is lost: a
    call that waits, and was not signalled, has nothing to do.  Its bytes have
    not all arrived, the stream does not end there, and it is neither
    cancelled nor shut down. *)
Theorem waiting_reader_has_nothing ops m k : Forall (op_ok stream) ops -> Forall plain ops -> run m0 ops = Ret m ->
  reader m = Some (k, false) -> readChan (rs m) = false -> ~ ready (wanted k) (rs m).
Proof.
  intros Hok Hpl E Hr Hch. pose proof (stream_outcome ops Hok) as Ho. rewrite E in Ho. destruct Ho as [_ Ho].
  destruct (pl_awake _ (Ho Hpl) k Hr); [congruence|done].
Qed.

(** C31. As long as the peer resets the stream as a whole: a stream whose final
    offset is known and that is cancelled, or was read to its end, is
    completed, and then every byte of flow control credit was given back, to
    the stream's controller and to the connection's. *)
Theorem credit_given_back ops m : Forall (op_ok stream) ops -> Forall plain ops -> run m0 ops = Ret m ->
  knows_final (rs m) = true -> cancelledLocally (rs m) = true \/ errorRead (rs m) = true ->
  completed (rs m) = true /\ bytes_read (rs m) = finalOffset (rs m) /\
  highestReceived (cn m) - bytesRead (cn m) = highestReceived c0 - bytesRead c0.
Proof.
  intros Hok Hpl E Hk Hover. pose proof (stream_outcome ops Hok) as Ho. rewrite E in Ho. destruct Ho as [Mi Ho].
  pose proof (pl_credit _ (Ho Hpl)) as Hcr. pose proof (si_flow _ _ _ _ (mi_stream _ Mi)) as Hf.
  assert (Hc : completed (rs m) = true) by (destruct (mi_settled _ Mi) as [?|[?|[? ?]]]; [done|congruence|destruct Hover; congruence]).
  specialize (Hcr Hc). pose proof (fo_final _ _ _ Hf) as Hfin. rewrite Hk in Hfin. destruct (fo_shared _ _ _ Hf).
  split; [done|]. split; [congruence|]. lia.
Qed.

End Runs.

(** ** Runs *)

Definition letters_stream (x : Z) : Z := x mod 256.
Definition letter_frame (k : nat) (o : Z) (n : nat) (fin : bool) : stream_frame :=
  {| Offset := o; Data := {| buffer := Some k; content := letters o n |}; Fin := fin; PutBack := Some k |}.

Definition demo_env : env := {| now := 1000; SmoothedRTT := 10; allow := fun _ => true |}.
Definition demo_clock (_ : nat) : Z := 1000.
Definition demo_conn : base := Connection.New 1000 2000 true.
Definition demo_start : machine := opened (StreamFlow.New 4 100 200 0) demo_conn.

(** Frames arrive out of order; a reader waits, is woken, and reads on to the
    end. *)
Definition demo_ops : list op :=
  [OpFrame (letter_frame 0 4 3 false) demo_env; OpRead 5 demo_clock; OpFrame (letter_frame 1 0 4 false) demo_env;
   OpWake; OpResume demo_clock; OpPeek 2 1000; OpRead 5 demo_clock; OpWake; OpRead 5 demo_clock].

(** Then the last frame *)
Definition demo_end : list op :=
  [OpFrame (letter_frame 2 7 2 true) demo_env; OpWake; OpResume demo_clock; OpRead 5 demo_clock].

Lemma letter_frame_ok k o n fin : 0 <= o -> o + Z.of_nat n <= 2 ^ 20 -> frame_ok letters_stream (letter_frame k o n fin).
Proof.
  intros Ho Hn. unfold frame_ok, letter_frame, letters. cbn. unfold len. rewrite segment_length. unfold max_offset.
  split; [done|]. split; [lia|]. unfold carries. cbn. by rewrite segment_length.
Qed.

Lemma demo_ok : Forall (op_ok letters_stream) (demo_ops ++ demo_end).
Proof.
  repeat first [apply Forall_nil_2 | apply Forall_cons_2]; cbn; try exact I; try (apply letter_frame_ok; lia); unfold max_offset; lia.
Qed.

Lemma demo_ops_ok : Forall (op_ok letters_stream) demo_ops.
Proof. exact (proj1 (proj1 (Forall_app _ _ _) demo_ok)). Qed.
Lemma demo_plain : Forall plain (demo_ops ++ demo_end).
Proof. repeat first [apply Forall_nil_2 | apply Forall_cons_2]; exact I. Qed.
Lemma demo_ops_plain : Forall plain demo_ops.
Proof. exact (proj1 (proj1 (Forall_app _ _ _) demo_plain)). Qed.

Lemma demo_window : 0 < 100 <= max_size /\ 0 <= 200 <= max_size.
Proof. unfold max_size. lia. Qed.
Lemma demo_conn_ok : receiving demo_conn /\ hasAllow demo_conn = true /\ highestReceived demo_conn <= max_offset.
Proof. unfold max_offset. split; [constructor; cbn; unfold_bounds; lia|]. split; [done|cbn; lia]. Qed.

(** The machine after a run that returned *)
Definition after (ops : list op) : machine := match run demo_start ops with Ret m => m | _ => demo_start end.

Lemma reads_follow_stream_witness :
  run demo_start (demo_ops ++ demo_end) <> Panic /\ read_bytes (log (after (demo_ops ++ demo_end))) = letters 0 9.
Proof.
  destruct (reads_follow_stream letters_stream 100 200 0 4 demo_conn demo_window demo_conn_ok (demo_ops ++ demo_end) demo_ok) as [H1 H2].
  split; [exact H1|]. destruct (H2 (after (demo_ops ++ demo_end))) as [H3 _]; [vm_compute; reflexivity|].
  etransitivity; [exact H3|]. vm_compute. reflexivity.
Defined.

Lemma waiting_reader_has_nothing_witness :
  reader (after demo_ops) = Some (ReadCall 5 false false [], false) /\ ~ ready 1 (rs (after demo_ops)).
Proof.
  split; [vm_compute; reflexivity|].
  refine (waiting_reader_has_nothing letters_stream 100 200 0 4 demo_conn demo_window demo_conn_ok demo_ops (after demo_ops)
    (ReadCall 5 false false []) demo_ops_ok demo_ops_plain _ _ _); vm_compute; reflexivity.
Defined.

Lemma credit_given_back_witness :
  completed (rs (after (demo_ops ++ demo_end))) = true /\ bytes_read (rs (after (demo_ops ++ demo_end))) = 9.
Proof.
  destruct (credit_given_back letters_stream 100 200 0 4 demo_conn demo_window demo_conn_ok (demo_ops ++ demo_end)
    (after (demo_ops ++ demo_end)) demo_ok demo_plain) as (H1 & H2 & _);
    [vm_compute; reflexivity|vm_compute; reflexivity|right; vm_compute; reflexivity|].
  split; [exact H1|]. etransitivity; [exact H2|]. vm_compute. reflexivity.
Defined.

(** ** What RESET_STREAM_AT frames break *)

Definition reset_at (reliable : Z) : op := OpReset {| resetCode := 7; FinalSize := 20; ReliableSize := reliable |} demo_env.

(** Five bytes are read, the stream is reset with a reliable size of ten, and
    a reader waits for the other five. *)
Definition wait_for_reliable : list op :=
  [OpFrame (letter_frame 0 0 5 false) demo_env; reset_at 10; OpRead 5 demo_clock; OpRead 5 demo_clock; OpWake; OpResume demo_clock].

Definition asleep (ops : list op) : Prop :=
  exists m, run demo_start ops = Ret m /\ reader m = Some (ReadCall 5 false false [], false) /\ readChan (rs m) = false /\ ready 1 (rs m).

(** [CancelRead] of a stream that was reset with a reliable size does not
    wake the [Read] that waits, and the bytes it waits for do not either.  So
    does a second RESET_STREAM_AT frame, with a smaller reliable size: the
    cancellation takes effect, and the reader is not told. *)
Theorem reset_at_loses_wakeup :
  asleep (wait_for_reliable ++ [OpCancelRead 9]) /\
  asleep (wait_for_reliable ++ [OpCancelRead 9; OpFrame (letter_frame 1 5 5 false) demo_env]) /\
  asleep (wait_for_reliable ++ [reset_at 3]).
Proof.
  split; [|split]; eexists; (split; [vm_compute; reflexivity|]); (split; [reflexivity|]); (split; [reflexivity|]);
    right; [left|left|right; left]; reflexivity.
Qed.

(** A stream that is cancelled, and then reset with a reliable size that was
    not read yet, is completed without giving its credit back: the twenty
    bytes count as unread for ever. *)
Theorem reset_at_keeps_credit :
  exists m, run demo_start [OpFrame (letter_frame 0 0 5 false) demo_env; OpCancelRead 9; reset_at 10] = Ret m /\
    completed (rs m) = true /\ highestReceived (cn m) = 20 /\ bytesRead (cn m) = 0.
Proof. eexists. split; [vm_compute; reflexivity|]. done. Qed.

(** A window update is queued, then the end of the stream arrives: the frame
    that is sent allows the peer zero bytes. *)
Theorem zero_window_sent :
  let m := after [OpFrame (letter_frame 0 0 60 false) demo_env; OpRead 60 demo_clock; OpFrame (letter_frame 1 60 0 true) demo_env] in
  exists s c, getControlFrame (rs m) (cn m) demo_env = Ret (s, c, Some (MaxStreamData 4 0), false).
Proof. do 2 eexists. vm_compute. reflexivity. Qed.
