(* ===== verification/SendStream.v ===== *)
(** * Send streams

    [src/deps/quic-go/send_stream.go]: what is written waits until it is
    packed into STREAM frames, and a frame is kept until it is acknowledged.
    Every method runs under the stream's mutex; [Write] gives it up while it
    waits for [writeChan], so such a call is a function that ends with a
    result or [Blocked], and another one that resumes it.  The connection's
    flow controller is shared and is passed along.  What a method tells the
    connection is a list of notices. *)
From S2P Require Import Prelude Protocol Frames FlowControl ReceiveStream.

Local Open Scope Z_scope.
Local Open Scope go_scope.

Module SendStream.

Notation StreamError := ReceiveStream.StreamError.
Notation reset_frame := ReceiveStream.reset_frame.

(** Why the context of a stream is done *)
Inductive cause := Canceled | StreamCause (e : StreamError) | ErrCause (e : goerror).

Record SendStream := {
  numOutstandingFrames : Z;
  retransmissionQueue : list StreamFrame;
  ctx : option cause;
  streamID : Z;
  reliableSize : Z;
  writeOffset : Z;
  shutdownErr : option goerror;
  resetErr : option StreamError;
  queuedResetStreamFrame : option reset_frame;
  supportsResetStreamAt : bool;
  finishedWriting : bool;
  finSent : bool;
  cancellationFlagged : bool;
  completed : bool;
  dataForWriting : option bytes;
  nextFrame : option StreamFrame;
  writeChan : bool;
  deadline : Z;
  flowController : stream_controller;
}.

Definition newSendStream (id : Z) (fc : stream_controller) (supports : bool) : SendStream :=
  {| numOutstandingFrames := 0; retransmissionQueue := []; ctx := None; streamID := id; reliableSize := 0;
     writeOffset := 0; shutdownErr := None; resetErr := None; queuedResetStreamFrame := None;
     supportsResetStreamAt := supports; finishedWriting := false; finSent := false; cancellationFlagged := false;
     completed := false; dataForWriting := None; nextFrame := None; writeChan := false; deadline := 0;
     flowController := fc |}.

(** ** Updates of the fields *)

Definition with_out (s : SendStream) (num : Z) (queue : list StreamFrame) : SendStream :=
  {| numOutstandingFrames := num; retransmissionQueue := queue; ctx := ctx s; streamID := streamID s;
     reliableSize := reliableSize s; writeOffset := writeOffset s; shutdownErr := shutdownErr s; resetErr := resetErr s;
     queuedResetStreamFrame := queuedResetStreamFrame s; supportsResetStreamAt := supportsResetStreamAt s;
     finishedWriting := finishedWriting s; finSent := finSent s; cancellationFlagged := cancellationFlagged s;
     completed := completed s; dataForWriting := dataForWriting s; nextFrame := nextFrame s; writeChan := writeChan s;
     deadline := deadline s; flowController := flowController s |}.

Definition with_sent (s : SendStream) (offset : Z) (fin : bool) (fc : stream_controller) : SendStream :=
  {| numOutstandingFrames := numOutstandingFrames s; retransmissionQueue := retransmissionQueue s; ctx := ctx s;
     streamID := streamID s; reliableSize := reliableSize s; writeOffset := offset; shutdownErr := shutdownErr s;
     resetErr := resetErr s; queuedResetStreamFrame := queuedResetStreamFrame s;
     supportsResetStreamAt := supportsResetStreamAt s; finishedWriting := finishedWriting s; finSent := fin;
     cancellationFlagged := cancellationFlagged s; completed := completed s; dataForWriting := dataForWriting s;
     nextFrame := nextFrame s; writeChan := writeChan s; deadline := deadline s; flowController := fc |}.

Definition with_reset (s : SendStream) (reliable : Z) (err : option StreamError) (queued : option reset_frame) : SendStream :=
  {| numOutstandingFrames := numOutstandingFrames s; retransmissionQueue := retransmissionQueue s; ctx := ctx s;
     streamID := streamID s; reliableSize := reliable; writeOffset := writeOffset s; shutdownErr := shutdownErr s;
     resetErr := err; queuedResetStreamFrame := queued; supportsResetStreamAt := supportsResetStreamAt s;
     finishedWriting := finishedWriting s; finSent := finSent s; cancellationFlagged := cancellationFlagged s;
     completed := completed s; dataForWriting := dataForWriting s; nextFrame := nextFrame s; writeChan := writeChan s;
     deadline := deadline s; flowController := flowController s |}.

Definition with_flags (s : SendStream) (supports finished flagged isCompleted : bool) : SendStream :=
  {| numOutstandingFrames := numOutstandingFrames s; retransmissionQueue := retransmissionQueue s; ctx := ctx s;
     streamID := streamID s; reliableSize := reliableSize s; writeOffset := writeOffset s; shutdownErr := shutdownErr s;
     resetErr := resetErr s; queuedResetStreamFrame := queuedResetStreamFrame s; supportsResetStreamAt := supports;
     finishedWriting := finished; finSent := finSent s; cancellationFlagged := flagged; completed := isCompleted;
     dataForWriting := dataForWriting s; nextFrame := nextFrame s; writeChan := writeChan s; deadline := deadline s;
     flowController := flowController s |}.

Definition with_data (s : SendStream) (data : option bytes) (next : option StreamFrame) : SendStream :=
  {| numOutstandingFrames := numOutstandingFrames s; retransmissionQueue := retransmissionQueue s; ctx := ctx s;
     streamID := streamID s; reliableSize := reliableSize s; writeOffset := writeOffset s; shutdownErr := shutdownErr s;
     resetErr := resetErr s; queuedResetStreamFrame := queuedResetStreamFrame s;
     supportsResetStreamAt := supportsResetStreamAt s; finishedWriting := finishedWriting s; finSent := finSent s;
     cancellationFlagged := cancellationFlagged s; completed := completed s; dataForWriting := data; nextFrame := next;
     writeChan := writeChan s; deadline := deadline s; flowController := flowController s |}.

Definition with_signal (s : SendStream) (context : option cause) (shutdown : option goerror) (chan : bool) (dl : Z)
    : SendStream :=
  {| numOutstandingFrames := numOutstandingFrames s; retransmissionQueue := retransmissionQueue s; ctx := context;
     streamID := streamID s; reliableSize := reliableSize s; writeOffset := writeOffset s; shutdownErr := shutdown;
     resetErr := resetErr s; queuedResetStreamFrame := queuedResetStreamFrame s;
     supportsResetStreamAt := supportsResetStreamAt s; finishedWriting := finishedWriting s; finSent := finSent s;
     cancellationFlagged := cancellationFlagged s; completed := completed s; dataForWriting := dataForWriting s;
     nextFrame := nextFrame s; writeChan := chan; deadline := dl; flowController := flowController s |}.

Definition signalWrite (s : SendStream) : SendStream := with_signal s (ctx s) (shutdownErr s) true (deadline s).

(** [s.ctxCancel(c)]: the first cause stays. *)
Definition ctxCancel (s : SendStream) (c : cause) : SendStream :=
  with_signal s (Some (default c (ctx s))) (shutdownErr s) (writeChan s) (deadline s).

(** [s.cancellationFlagged = true] *)
Definition flag_cancellation (s : SendStream) : SendStream :=
  with_flags s (supportsResetStreamAt s) (finishedWriting s) true (completed s).

(** What the connection is told *)
Inductive notice := onStreamCompleted | onHasStreamControlFrame | onHasStreamData.

Definition present {A : Type} (o : option A) : bool := match o with Some _ => true | None => false end.

Definition reliableOffset (s : SendStream) : Z := if negb (supportsResetStreamAt s) then 0 else reliableSize s.

Definition isNewlyCompleted (s : SendStream) : SendStream * bool :=
  let done := with_flags s (supportsResetStreamAt s) (finishedWriting s) (cancellationFlagged s) true in
  if completed s then (s, false) else
  if match nextFrame s with Some f => 0 <? DataLen f | None => false end then (s, false) else
  if (0 <? numOutstandingFrames s) || (0 <? len (retransmissionQueue s)) || present (queuedResetStreamFrame s) then (s, false) else
  if finSent s then (done, true) else
  if present (resetErr s) && (cancellationFlagged s || finishedWriting s) then (done, true) else (s, false).

Definition completion (completed : bool) : list notice := if completed then [onStreamCompleted] else [].

(** ** Writing *)

Inductive write_error :=
  | Cancelled (e : StreamError)
  | Shutdown (e : goerror)
  | WriteClosed (e : goerror)
  | errDeadline.

Inductive result := Returned (isNewlyCompleted : bool) (n : Z) (err : option write_error) | Blocked.

Definition data_len (s : SendStream) : Z := match dataForWriting s with Some d => len d | None => 0 end.

Definition canBufferStreamFrame (s : SendStream) : bool :=
  i64 ((match nextFrame s with Some f => DataLen f | None => 0 end) + data_len s) <=? MaxPacketBufferSize.

(** A frame from the pool.  Its FIN bit is what the last user left; it is set
    when the frame is popped and not read before. *)
Definition pooled_frame (id offset : Z) (data : bytes) : outcome StreamFrame :=
  if MaxPacketBufferSize <? len data then Panic else
  Ret {| StreamID := id; Offset := offset; Data := data; Fin := false; DataLenPresent := true; fromPool := true;
         dataCap := MaxPacketBufferSize |}.

(** [f.Data = d] *)
Definition set_data (f : StreamFrame) (d : bytes) : StreamFrame :=
  {| StreamID := StreamID f; Offset := Offset f; Data := d; Fin := Fin f; DataLenPresent := DataLenPresent f;
     fromPool := fromPool f; dataCap := dataCap f |}.

(** All the data that is left goes to [nextFrame]. *)
Definition buffer_data (s : SendStream) : outcome SendStream :=
  let data := default [] (dataForWriting s) in
  let! f :=
    (match nextFrame s with
     | None => pooled_frame (streamID s) (writeOffset s) data
     | Some f => if dataCap f <? DataLen f + len data then Panic else Ret (set_data f (Data f ++ data))
     end) in
  Ret (with_data s None (Some f)).

Definition expired (s : SendStream) (now : Z) : bool := negb (deadline s =? 0) && (deadline s <=? now).

(** After the loop of [write]; [total] is [len(p)]. *)
Definition write_end (s : SendStream) (total bytesWritten : Z) : SendStream * result :=
  if bytesWritten =? total then (s, Returned false bytesWritten None) else
  match shutdownErr s, resetErr s with
  | Some e, _ => (s, Returned false bytesWritten (Some (Shutdown e)))
  | None, Some e =>
      let '(s, completed) := isNewlyCompleted (flag_cancellation s) in
      (s, Returned completed bytesWritten (Some (Cancelled e)))
  | None, None => (s, Returned false bytesWritten None)
  end.

(** A round of the loop, up to the wait *)
Definition write_round (s : SendStream) (total now : Z) (notifiedSender : bool) : outcome (SendStream * list notice * result) :=
  let notices := if notifiedSender then [] else [onHasStreamData] in
  if canBufferStreamFrame s && (0 <? data_len s) then
    let! s := buffer_data s in
    let '(s, r) := write_end s total total in Ret (s, notices, r)
  else
    let bytesWritten := total - data_len s in
    if expired s now then Ret (with_data s None (nextFrame s), [], Returned false bytesWritten (Some errDeadline)) else
    if negb (present (dataForWriting s)) || present (shutdownErr s) || present (resetErr s)
    then let '(s, r) := write_end s total bytesWritten in Ret (s, [], r)
    else Ret (s, notices, Blocked).

Definition write (s : SendStream) (p : bytes) (clock : nat -> Z) : outcome (SendStream * list notice * result) :=
  match resetErr s, shutdownErr s with
  | Some e, _ =>
      let '(s, completed) := isNewlyCompleted (flag_cancellation s) in
      Ret (s, [], Returned completed 0 (Some (Cancelled e)))
  | None, Some e => Ret (s, [], Returned false 0 (Some (Shutdown e)))
  | None, None =>
      if finishedWriting s
      then Ret (s, [], Returned false 0 (Some (WriteClosed (Errorf "write on closed stream %d" [pretty (streamID s)])))) else
      if expired s (clock 0%nat) then Ret (s, [], Returned false 0 (Some errDeadline)) else
      if len p =? 0 then Ret (s, [], Returned false 0 None) else
      write_round (with_data s (Some p) (nextFrame s)) (len p) (clock 1%nat) false
  end.

(** [write] after a wait *)
Definition write_resume (s : SendStream) (total now : Z) : outcome (SendStream * list notice * result) :=
  write_round s total now true.

(** What [Write] tells the sender when [write] returned *)
Definition write_notices (r : result) : list notice :=
  match r with Returned completed _ _ => completion completed | Blocked => [] end.

(** ** Frames to send *)

Definition getDataForWriting (s : SendStream) (f : StreamFrame) (maxBytes : Z) : outcome (SendStream * StreamFrame) :=
  let data := default [] (dataForWriting s) in
  let n := Z.min (len data) maxBytes in
  if (n <? 0) || (dataCap f <? n) then Panic else
  if len data <=? maxBytes then Ret (signalWrite (with_data s None (nextFrame s)), set_data f data) else
  let! front := subslice data 0 maxBytes in
  let! rest := slice_from data maxBytes in
  let s := with_data s (Some rest) (nextFrame s) in
  Ret (if canBufferStreamFrame s then signalWrite s else s, set_data f front).

Definition has_more (s : SendStream) : bool := present (dataForWriting s) || present (nextFrame s) || finishedWriting s.

Definition popNewStreamFrameWithoutBuffer (s : SendStream) (f : StreamFrame) (maxBytes sendWindow : Z)
    : outcome (SendStream * StreamFrame * bool) :=
  let! maxDataLen := Stream.MaxDataLen f maxBytes in
  if maxDataLen =? 0 then Ret (s, f, has_more s) else
  let! '(s, f) := getDataForWriting s f (Z.min maxDataLen sendWindow) in
  Ret (s, f, has_more s).

(** The frame, and if there is more data *)
Definition popNewStreamFrame (s : SendStream) (maxBytes maxDataLen : Z) : outcome (SendStream * option StreamFrame * bool) :=
  match nextFrame s with
  | Some f =>
      let! room := Stream.MaxDataLen f maxBytes in
      let maxDataLen := Z.min maxDataLen room in
      if maxDataLen =? 0 then Ret (s, None, true) else
      if maxDataLen <? DataLen f then
        let! front := subslice (Data f) 0 maxDataLen in
        let! rest := slice_from (Data f) maxDataLen in
        let! next := pooled_frame (streamID s) (i64 (writeOffset s + maxDataLen)) rest in
        Ret (with_data s (dataForWriting s) (Some next), Some (set_data f front), true)
      else
        let s := signalWrite (with_data s (dataForWriting s) None) in
        Ret (s, Some f, present (dataForWriting s))
  | None =>
      let! f := pooled_frame (streamID s) (writeOffset s) [] in
      let! '(s, f, hasMoreData) := popNewStreamFrameWithoutBuffer s f maxBytes maxDataLen in
      if (len (Data f) =? 0) && negb (Fin f) then let! _ := Stream.PutBack f in Ret (s, None, hasMoreData)
      else Ret (s, Some f, hasMoreData)
  end.

(** The frame, and if there is something to retransmit after it *)
Definition maybeGetRetransmission (s : SendStream) (maxBytes : Z) : outcome (SendStream * option StreamFrame * bool) :=
  match retransmissionQueue s with
  | [] => Panic
  | f :: queue =>
      let! '(newFrame, needsSplit, f) := Stream.MaybeSplitOffFrame f maxBytes in
      if needsSplit then Ret (with_out s (numOutstandingFrames s) (f :: queue), newFrame, true)
      else Ret (with_out s (numOutstandingFrames s) queue, Some f, 0 <? len queue)
  end.

(** [f.Fin = fin] *)
Definition set_fin (f : StreamFrame) (fin : bool) : StreamFrame :=
  {| StreamID := StreamID f; Offset := Offset f; Data := Data f; Fin := fin; DataLenPresent := DataLenPresent f;
     fromPool := fromPool f; dataCap := dataCap f |}.

(** What a frame that carries new data does to the stream: its offset, flow
    control and FIN.  The frame, STREAM_DATA_BLOCKED, and if there is more *)
Definition account (s : SendStream) (conn : base) (f : StreamFrame) (maxDataLen reliable : Z) (hasMoreData : bool)
    : SendStream * base * option StreamFrame * option Frame * bool :=
  let '(s, conn) :=
    (if 0 <? DataLen f then
       let '(fc, conn) := StreamFlow.AddBytesSent (flowController s) conn (DataLen f) in
       (with_sent s (i64 (writeOffset s + DataLen f)) (finSent s) fc, conn)
     else (s, conn)) in
  let hasMoreData := if present (resetErr s) && (reliable <=? writeOffset s) then false else hasMoreData in
  let '(s, isBlocked) :=
    (if DataLen f =? maxDataLen then
       let '(fc, isBlocked) := StreamFlow.IsNewlyBlocked (flowController s) in
       (with_sent s (writeOffset s) (finSent s) fc, isBlocked)
     else (s, false)) in
  let blocked := if isBlocked then Some (StreamDataBlockedFrame (streamID s) (writeOffset s)) else None in
  let fin := finishedWriting s && negb (present (dataForWriting s)) && negb (present (nextFrame s)) && negb (finSent s) in
  (with_sent s (writeOffset s) (fin || finSent s) (flowController s), conn, Some (set_fin f fin), blocked, hasMoreData).

(** The second half of [popNewOrRetransmittedStreamFrame] *)
Definition pop_new (s : SendStream) (conn : base) (maxBytes : Z)
    : outcome (SendStream * base * option StreamFrame * option Frame * bool) :=
  if (data_len s =? 0) && negb (present (nextFrame s)) then
    Ret (if finishedWriting s && negb (finSent s) then
           (with_sent s (writeOffset s) true (flowController s), conn,
            Some {| StreamID := streamID s; Offset := writeOffset s; Data := []; Fin := true; DataLenPresent := true;
                    fromPool := false; dataCap := 0 |}, None, false)
         else (s, conn, None, None, false))
  else
  let maxDataLen := StreamFlow.SendWindowSize (flowController s) conn in
  if maxDataLen =? 0 then Ret (s, conn, None, None, true) else
  let reliable := reliableOffset s in
  let maxDataLen :=
    if present (resetErr s) && (0 <? reliable) then Z.min maxDataLen (i64 (reliable - writeOffset s)) else maxDataLen in
  let! '(s, f, hasMoreData) := popNewStreamFrame s maxBytes maxDataLen in
  match f with
  | None => Ret (s, conn, None, None, hasMoreData)
  | Some f => Ret (account s conn f maxDataLen reliable hasMoreData)
  end.

Definition popNewOrRetransmittedStreamFrame (s : SendStream) (conn : base) (maxBytes : Z)
    : outcome (SendStream * base * option StreamFrame * option Frame * bool) :=
  if present (shutdownErr s) then Ret (s, conn, None, None, false) else
  let reliable := reliableOffset s in
  let queued := 0 <? len (retransmissionQueue s) in
  if present (resetErr s) && ((reliable =? 0) || ((reliable <=? writeOffset s) && negb queued))
  then Ret (s, conn, None, None, false) else
  let! '(s, f, more) := (if queued then maybeGetRetransmission s maxBytes else Ret (s, None, false)) in
  match f, more with
  | Some f, _ => Ret (s, conn, Some f, None, true)
  | None, true => Ret (s, conn, None, None, true)
  | None, false => pop_new s conn maxBytes
  end.

Definition popStreamFrame (s : SendStream) (conn : base) (maxBytes : Z)
    : outcome (SendStream * base * option StreamFrame * option Frame * bool) :=
  let! '(s, conn, f, blocked, hasMoreData) := popNewOrRetransmittedStreamFrame s conn maxBytes in
  let s := if present f then with_out s (i64 (numOutstandingFrames s + 1)) (retransmissionQueue s) else s in
  Ret (s, conn, f, blocked, hasMoreData).

(** ** The other methods *)

(** The stream, the notices, and the error *)
Definition Close (s : SendStream) : SendStream * list notice * option goerror :=
  if present (shutdownErr s) || finishedWriting s then (s, [], None) else
  let cancelled := present (resetErr s) in
  let s := with_flags s (supportsResetStreamAt s) true (cancelled || cancellationFlagged s) (completed s) in
  let '(s, completed) := isNewlyCompleted s in
  if cancelled
  then (s, completion completed, Some (Errorf "close called for canceled stream %d" [pretty (streamID s)]))
  else (ctxCancel s Canceled, completion completed ++ [onHasStreamData], None).

Definition SetReliableBoundary (s : SendStream) : SendStream :=
  let buffered := match nextFrame s with Some f => DataLen f | None => 0 end in
  with_reset s (i64 (writeOffset s + buffered)) (resetErr s) (queuedResetStreamFrame s).

Fixpoint putBack_all (l : list StreamFrame) : outcome unit :=
  match l with [] => Ret tt | f :: l => let! _ := Stream.PutBack f in putBack_all l end.

Definition returnFramesToPool (s : SendStream) : outcome SendStream :=
  let! _ := putBack_all (retransmissionQueue s) in
  let! _ := (match nextFrame s with Some f => Stream.PutBack f | None => Ret false end) in
  Ret (with_data (with_out s (numOutstandingFrames s) []) (dataForWriting s) None).

(** What is left of a frame when only [reliable] bytes of the stream matter *)
Definition truncate (f : StreamFrame) (reliable : Z) : outcome (option StreamFrame) :=
  if reliable <=? Offset f then let! _ := Stream.PutBack f in Ret None else
  if i64 (Offset f + DataLen f) <=? reliable then Ret (Some f) else
  let! d := subslice (Data f) 0 (i64 (reliable - Offset f)) in Ret (Some (set_data f d)).

Fixpoint truncate_all (l : list StreamFrame) (reliable : Z) : outcome (list StreamFrame) :=
  match l with
  | [] => Ret []
  | f :: l =>
      let! kept := truncate f reliable in
      let! l := truncate_all l reliable in
      Ret (match kept with Some f => f :: l | None => l end)
  end.

Definition CancelWrite (s : SendStream) (code : Z) : outcome (SendStream * list notice) :=
  if present (shutdownErr s) then Ret (s, []) else
  let s := flag_cancellation s in
  if present (resetErr s) then let '(s, completed) := isNewlyCompleted s in Ret (s, completion completed) else
  let err := {| ReceiveStream.errStreamID := streamID s; ReceiveStream.ErrorCode := code; ReceiveStream.Remote := false |} in
  let s := ctxCancel (with_reset s (reliableSize s) (Some err) (queuedResetStreamFrame s)) (StreamCause err) in
  let reliable := reliableOffset s in
  let! s := (if reliable =? 0 then returnFramesToPool (with_out s 0 (retransmissionQueue s)) else Ret s) in
  let s :=
    with_reset s (reliableSize s) (resetErr s)
      (Some {| ReceiveStream.resetCode := code; ReceiveStream.FinalSize := Z.max (writeOffset s) reliable;
               ReceiveStream.ReliableSize := reliable |}) in
  let! s :=
    (if 0 <? reliable then
       let! next := (match nextFrame s with Some f => truncate f reliable | None => Ret None end) in
       let s := with_data s (dataForWriting s) next in
       let! queue := truncate_all (retransmissionQueue s) reliable in
       Ret (with_out s (numOutstandingFrames s) queue)
     else Ret s) in
  Ret (signalWrite s, [onHasStreamControlFrame]).

Definition enableResetStreamAt (s : SendStream) : SendStream :=
  with_flags s true (finishedWriting s) (cancellationFlagged s) (completed s).

Definition updateSendWindow (s : SendStream) (limit : Z) : SendStream * list notice :=
  let '(fc, updated) := StreamFlow.UpdateSendWindow (flowController s) limit in
  let s := with_sent s (writeOffset s) (finSent s) fc in
  (s, if updated && (present (dataForWriting s) || present (nextFrame s)) then [onHasStreamData] else []).

Definition handleStopSendingFrame (s : SendStream) (code : Z) : outcome (SendStream * list notice) :=
  if present (shutdownErr s) then Ret (s, []) else
  if present (resetErr s) && (reliableOffset s =? 0) then Ret (s, []) else
  let! s := returnFramesToPool (with_out (with_reset s 0 (resetErr s) (queuedResetStreamFrame s)) 0 (retransmissionQueue s)) in
  let '(s, err) :=
    (match resetErr s with
     | Some err => (s, err)
     | None =>
         let err := {| ReceiveStream.errStreamID := streamID s; ReceiveStream.ErrorCode := code; ReceiveStream.Remote := true |} in
         (ctxCancel (with_reset s (reliableSize s) (Some err) (queuedResetStreamFrame s)) (StreamCause err), err)
     end) in
  let s :=
    with_reset s (reliableSize s) (resetErr s)
      (Some {| ReceiveStream.resetCode := ReceiveStream.ErrorCode err; ReceiveStream.FinalSize := writeOffset s;
               ReceiveStream.ReliableSize := 0 |}) in
  Ret (signalWrite s, [onHasStreamControlFrame]).

(** The frame; there are never more. *)
Definition getControlFrame (s : SendStream) : SendStream * option reset_frame :=
  match queuedResetStreamFrame s with
  | None => (s, None)
  | Some f =>
      (with_reset (with_out s (i64 (numOutstandingFrames s + 1)) (retransmissionQueue s)) (reliableSize s) (resetErr s) None,
       Some f)
  end.

Definition SetWriteDeadline (s : SendStream) (t : Z) : SendStream :=
  signalWrite (with_signal s (ctx s) (shutdownErr s) (writeChan s) t).

Definition closeForShutdown (s : SendStream) (err : goerror) : outcome SendStream :=
  let! s :=
    (if negb (present (shutdownErr s)) && negb (finishedWriting s)
     then returnFramesToPool (with_signal s (ctx s) (Some err) (writeChan s) (deadline s)) else Ret s) in
  Ret (signalWrite (ctxCancel s (ErrCause err))).

(** ** Acknowledgements and losses *)

(** Frames of a stream that was cancelled as a whole do not count. *)
Definition discards (s : SendStream) : bool := present (resetErr s) && (reliableOffset s =? 0).

(** [s.numOutstandingFrames--], and the check after it *)
Definition settle_frame (s : SendStream) : outcome SendStream :=
  let n := i64 (numOutstandingFrames s - 1) in
  if n <? 0 then Panic else Ret (with_out s n (retransmissionQueue s)).

Definition OnAcked (s : SendStream) (f : StreamFrame) : outcome (SendStream * list notice) :=
  let! _ := Stream.PutBack f in
  if discards s then Ret (s, []) else
  let! s := settle_frame s in
  let '(s, completed) := isNewlyCompleted s in Ret (s, completion completed).

Definition OnLost (s : SendStream) (f : StreamFrame) : outcome (SendStream * list notice) :=
  if discards s then let! _ := Stream.PutBack f in Ret (s, []) else
  let! s := settle_frame s in
  let! kept := (if present (resetErr s) && (0 <? reliableOffset s) then truncate f (reliableOffset s) else Ret (Some f)) in
  match kept with
  | None => let '(s, completed) := isNewlyCompleted s in Ret (s, completion completed)
  | Some f =>
      let f := {| StreamID := StreamID f; Offset := Offset f; Data := Data f; Fin := Fin f; DataLenPresent := true;
                  fromPool := fromPool f; dataCap := dataCap f |} in
      Ret (with_out s (numOutstandingFrames s) (retransmissionQueue s ++ [f]), [onHasStreamData])
  end.

(** The same for RESET_STREAM frames *)
Definition OnResetAcked (s : SendStream) (f : reset_frame) : outcome (SendStream * list notice) :=
  if negb (ReceiveStream.ReliableSize f =? reliableOffset s) then Ret (s, []) else
  let! s := settle_frame s in
  let '(s, completed) := isNewlyCompleted s in Ret (s, completion completed).

Definition OnResetLost (s : SendStream) (f : reset_frame) : SendStream * list notice :=
  if negb (ReceiveStream.ReliableSize f =? reliableOffset s) then (s, []) else
  let s := with_reset s (reliableSize s) (resetErr s) (Some f) in
  (with_out s (i64 (numOutstandingFrames s - 1)) (retransmissionQueue s), [onHasStreamControlFrame]).

End SendStream.
