(* ===== verification/SendStreamFacts.v ===== *)
(** * Send streams: what the operations do

    The shape of a send stream, what popping a frame can do to it, and when
    the operations complete it. *)
From S2P Require Import Prelude Varint Protocol AckFrame AckFrameProps Frames FramesProps FlowControl FlowControlFacts SendStream.
Import SendStream.

Local Open Scope Z_scope.
Local Open Scope go_scope.

(** ** The sending half of flow control *)

Record sending (c : base) : Prop := {
  sg_sent : 0 <= bytesSent c <= sendWindow c;
  sg_window : sendWindow c <= MaxByteCount;
}.

Ltac bounds := unfold MaxByteCount, MaxPacketBufferSize, max_total, is_varint in *.

Lemma SendWindowSize_spec c : sending c -> Base.SendWindowSize c = sendWindow c - bytesSent c.
Proof.
  intros []. bounds. unfold Base.SendWindowSize. by rewrite (proj2 (Z.ltb_ge _ _)), i64_small by lia.
Qed.

Lemma AddBytesSent_sending c n :
  sending c -> 0 <= n -> bytesSent c + n <= sendWindow c ->
  sending (Base.AddBytesSent c n) /\ bytesSent (Base.AddBytesSent c n) = bytesSent c + n /\
  sendWindow (Base.AddBytesSent c n) = sendWindow c.
Proof. intros [] ? ?. bounds. unfold Base.AddBytesSent. split; [split|]; cbn; rewrite ?i64_small by lia; done || lia. Qed.

Lemma IsNewlyBlocked_sending s s' b : StreamFlow.IsNewlyBlocked s = (s', b) -> sending (ctrl s) ->
  sending (ctrl s') /\ bytesSent (ctrl s') = bytesSent (ctrl s) /\ sendWindow (ctrl s') = sendWindow (ctrl s).
Proof.
  unfold StreamFlow.IsNewlyBlocked, Base.IsNewlyBlocked. intros H Hs. pose proof Hs as [].
  destruct (negb (Base.SendWindowSize (ctrl s) =? 0) || _); injection H as <- <-; cbn; [done|]. split; [by split|done].
Qed.

Lemma UpdateSendWindow_sending s limit s' b : StreamFlow.UpdateSendWindow s limit = (s', b) -> limit <= MaxByteCount ->
  sending (ctrl s) -> sending (ctrl s') /\ bytesSent (ctrl s') = bytesSent (ctrl s) /\ sendWindow (ctrl s) <= sendWindow (ctrl s').
Proof.
  unfold StreamFlow.UpdateSendWindow, Base.UpdateSendWindow. intros H Hl []. destruct (Z.ltb_spec (sendWindow (ctrl s)) limit);
    simplify_eq; cbn; (split; [split|]; cbn; lia).
Qed.

(** ** The shape of a stream *)

Definition next_data (s : SendStream) : bytes := match nextFrame s with Some f => Data f | None => [] end.
Definition pending (s : SendStream) : bytes := default [] (dataForWriting s).

(** A frame of the stream, of bytes that were sent *)
Record tracked (id offset : Z) (f : StreamFrame) : Prop := {
  tr_id : StreamID f = id;
  tr_offset : 0 <= Offset f;
  tr_end : Offset f + len (Data f) <= offset;
  tr_len : len (Data f) <= MaxPacketBufferSize;
  tr_present : DataLenPresent f = true;
  tr_pool : fromPool f = true -> dataCap f = MaxPacketBufferSize;
}.

(** The frame that waits to be sent *)
Record buffered (id offset : Z) (f : StreamFrame) : Prop := {
  bf_id : StreamID f = id;
  bf_offset : Offset f = offset;
  bf_len : 0 < len (Data f) <= MaxPacketBufferSize;
  bf_present : DataLenPresent f = true;
  bf_pool : fromPool f = true;
  bf_cap : dataCap f = MaxPacketBufferSize;
}.

Record shape (s : SendStream) (conn : base) : Prop := {
  sh_id : is_varint (streamID s);
  sh_offset : bytesSent (ctrl (flowController s)) = writeOffset s;
  sh_flow : sending (ctrl (flowController s));
  sh_conn : sending conn;
  sh_next : forall f, nextFrame s = Some f -> buffered (streamID s) (writeOffset s) f;
  sh_data : forall d, dataForWriting s = Some d -> 0 < len d <= max_total;
  sh_queue : Forall (tracked (streamID s) (writeOffset s)) (retransmissionQueue s);
  sh_fin : finSent s = true -> finishedWriting s = true /\ dataForWriting s = None /\ nextFrame s = None;
  sh_finished : finishedWriting s = true -> shutdownErr s = None;
  sh_discards : discards s = true -> retransmissionQueue s = [];
  sh_size : 0 <= reliableSize s;
  sh_reliable : shutdownErr s = None ->
    (if present (resetErr s) then reliableOffset s else reliableSize s) <= writeOffset s + len (next_data s);
}.

Lemma shape_offset s conn : shape s conn -> 0 <= writeOffset s <= sendWindow (ctrl (flowController s)) /\
  sendWindow (ctrl (flowController s)) <= MaxByteCount.
Proof. intros [? <- [] _ _ _ _ _ _ _ _ _]. lia. Qed.

Lemma tracked_mono id o o' f : tracked id o f -> o <= o' -> tracked id o' f.
Proof. intros [] ?. split; try done. lia. Qed.

Lemma tracked_all_mono id o o' l : Forall (tracked id o) l -> o <= o' -> Forall (tracked id o') l.
Proof. intros H Ho. eapply Forall_impl; [exact H|]. intros f Hf. by apply (tracked_mono _ o). Qed.

Lemma tracked_putBack id o f : tracked id o f -> exists b, Stream.PutBack f = Ret b.
Proof.
  intros []. unfold Stream.PutBack. destruct (fromPool f); cbn; [|by eexists]. rewrite tr_pool0 by done.
  rewrite Z.eqb_refl. by eexists.
Qed.

Lemma buffered_putBack id o f : buffered id o f -> Stream.PutBack f = Ret true.
Proof. intros []. unfold Stream.PutBack. rewrite bf_pool0, bf_cap0. done. Qed.

Lemma putBack_all_ok id o l : Forall (tracked id o) l -> putBack_all l = Ret tt.
Proof. induction 1 as [|f l Hf _ IH]; [done|]. cbn. destruct (tracked_putBack _ _ _ Hf) as [b ->]. done. Qed.

Lemma pooled_frame_ok id o d : len d <= MaxPacketBufferSize ->
  pooled_frame id o d = Ret {| StreamID := id; Offset := o; Data := d; Fin := false; DataLenPresent := true; fromPool := true;
                               dataCap := MaxPacketBufferSize |}.
Proof. intros. unfold pooled_frame. by rewrite (proj2 (Z.ltb_ge _ _)). Qed.

Lemma data_len_pending s : data_len s = len (pending s).
Proof. unfold data_len, pending. by destruct (dataForWriting s). Qed.

Lemma len_next s conn : shape s conn -> 0 <= len (next_data s) <= MaxPacketBufferSize.
Proof.
  intros Hs. split; [apply len_nonneg|]. unfold next_data. pose proof (sh_next _ _ Hs) as Hn.
  destruct (nextFrame s) as [f|]; [|done]. destruct (Hn f eq_refl). apply bf_len0.
Qed.

Lemma len_pending s conn : shape s conn -> 0 <= len (pending s) <= max_total.
Proof.
  intros Hs. split; [apply len_nonneg|]. unfold pending. pose proof (sh_data _ _ Hs) as Hd.
  destruct (dataForWriting s) as [d|]; [apply (Hd d eq_refl)|done].
Qed.

Lemma pending_rest s conn : shape s conn -> forall d, dataForWriting s = Some d -> 0 < len d <= len (pending s).
Proof. intros Hs d E. unfold pending. rewrite E. cbn. pose proof (sh_data _ _ Hs _ E). lia. Qed.

Lemma canBuffer_spec s conn : shape s conn ->
  canBufferStreamFrame s = (len (next_data s) + len (pending s) <=? MaxPacketBufferSize).
Proof.
  intros Hs. pose proof (len_next _ _ Hs) as Hn. pose proof (len_pending _ _ Hs) as Hp.
  unfold canBufferStreamFrame, next_data, DataLen in *. rewrite data_len_pending. bounds.
  destruct (nextFrame s); by rewrite i64_small by (cbn in *; lia).
Qed.

(** Something to send *)
Definition to_send (s : SendStream) : bool :=
  negb (present (shutdownErr s)) &&
  ((0 <? len (retransmissionQueue s)) ||
   (if present (resetErr s) then writeOffset s <? reliableOffset s
    else present (dataForWriting s) || present (nextFrame s) || finishedWriting s && negb (finSent s))).

(** ** Popping a frame with new data *)

(** The data of a frame with room for [n] bytes *)
Lemma room_frame f n maxSize : is_varint (StreamID f) -> is_varint (Offset f) -> maxSize <= MaxPacketBufferSize ->
  0 < n <= room f maxSize -> forall d, len d = n -> exists l, Stream.Length (set_data f d) = Ret l /\ l <= maxSize.
Proof.
  intros Hid Ho Hm Hn d Hd. pose proof (room_nonneg f maxSize).
  assert (n < 2 ^ 14). { unfold room in Hn. bounds. pose proof (encoding_size_range (StreamID f)). unfold stream_base in Hn.
    destruct (Offset f =? 0), (DataLenPresent f); cbn [andb] in Hn; repeat (case_match; try lia); pose proof (len_nonneg (encoding (Offset f))); lia. }
  exists (stream_base f + (if DataLenPresent f then length_size (len d) else 0) + len d).
  split; [by apply Length_with_data; try done; lia|]. rewrite Hd. apply room_spec; bounds; lia.
Qed.

Lemma room_zero f maxSize : is_varint (StreamID f) -> is_varint (Offset f) -> room f maxSize = 0 -> maxSize < 20.
Proof.
  intros Hid Ho. unfold room, stream_base. pose proof (encoding_size_range (StreamID f)). pose proof (encoding_size_range (Offset f)).
  destruct (Offset f =? 0), (DataLenPresent f); cbn [andb]; repeat (case_match; try lia).
Qed.

(** The stream after a frame took the front of what was waiting *)
Definition taken (s : SendStream) (chan : bool) (data : option bytes) (next : option StreamFrame) : SendStream :=
  with_signal (with_data s data next) (ctx s) (shutdownErr s) chan (deadline s).

(** A writer that waits is signalled, or has to wait for the rest. *)
Definition keeps_waiting (s : SendStream) (chan : bool) (data : option bytes) (next : option StreamFrame) : Prop :=
  chan = true \/
  chan = writeChan s /\ (exists d, data = Some d /\ (next = None -> MaxPacketBufferSize < len d)) \/
  chan = writeChan s /\ next <> None /\ data = dataForWriting s.

Record takes (s : SendStream) (maxBytes limit : Z) (f : StreamFrame) (chan : bool) (data : option bytes)
    (next : option StreamFrame) : Prop := {
  tk_frame : buffered (streamID s) (writeOffset s) f;
  tk_limit : len (Data f) <= limit;
  tk_fits : exists l, Stream.Length f = Ret l /\ l <= maxBytes;
  tk_data : next_data s ++ pending s = Data f ++ next_data (taken s chan data next) ++ default [] data;
  tk_next : forall g, next = Some g -> buffered (streamID s) (writeOffset s + len (Data f)) g;
  tk_rest : forall d, data = Some d -> 0 < len d <= len (pending s);
  tk_only : nextFrame s = None -> next = None;
  tk_chan : keeps_waiting s chan data next;
}.

Lemma popNewStreamFrame_spec s conn maxBytes limit :
  shape s conn -> dataForWriting s <> None \/ nextFrame s <> None -> maxBytes <= MaxPacketBufferSize ->
  0 < limit -> writeOffset s + limit <= MaxByteCount ->
  (popNewStreamFrame s maxBytes limit = Ret (s, None, true) /\ maxBytes < 20) \/
  exists f chan data next more, popNewStreamFrame s maxBytes limit = Ret (taken s chan data next, Some f, more) /\
    takes s maxBytes limit f chan data next /\ (present data || present next = true -> more = true).
Proof.
  intros Hs Hne Hmax Hl Ho. pose proof (shape_offset _ _ Hs) as [Ho1 Ho2]. pose proof (sh_id _ _ Hs) as Hid.
  assert (Hvo : is_varint (writeOffset s)) by (bounds; lia).
  unfold popNewStreamFrame. destruct (nextFrame s) as [f|] eqn:En.
  - pose proof (sh_next _ _ Hs f En) as Hb. pose proof Hb as [Bi Bo Bl Bp Bf Bc].
    rewrite MaxDataLen_spec by (rewrite ?Bi, ?Bo; done || (bounds; lia)). cbn [obind].
    pose proof (room_nonneg f maxBytes) as Hr.
    destruct (Z.eqb_spec (Z.min limit (room f maxBytes)) 0) as [E0|E0].
    { left. split; [done|]. apply (room_zero f); rewrite ?Bi, ?Bo; done || lia. }
    right. set (m := Z.min limit (room f maxBytes)) in *.
    destruct (Z.ltb_spec m (DataLen f)) as [Hm|Hm]; unfold DataLen in *.
    + destruct (subslice_cut (Data f) m) as (front & back & -> & -> & Hd & Hfl); [lia|]. cbn [obind].
      assert (Hsum : len (Data f) = len front + len back) by (by rewrite Hd, len_app).
      rewrite i64_small by (bounds; lia). rewrite pooled_frame_ok by lia. cbn [obind].
      do 5 eexists. split; [reflexivity|]. split; [|done]. split; cbn.
      * split; cbn; try done. lia.
      * lia.
      * apply (room_frame f m); rewrite ?Bi, ?Bo; done || lia.
      * unfold next_data at 1, pending. by rewrite En, Hd, <- app_assoc.
      * intros g [= <-]. split; cbn; try done; lia.
      * exact (pending_rest _ _ Hs).
      * congruence.
      * right; right. done.
    + cbn [obind]. do 5 eexists. split; [reflexivity|]. split; [|by destruct (dataForWriting s)]. split; cbn.
      * done.
      * lia.
      * apply (room_frame f (len (Data f))); rewrite ?Bi, ?Bo; done || lia.
      * unfold next_data, pending. cbn. by rewrite En.
      * done.
      * exact (pending_rest _ _ Hs).
      * done.
      * by left.
  - destruct (dataForWriting s) as [p|] eqn:Ed; [|naive_solver]. pose proof (sh_data _ _ Hs p Ed) as Hp.
    unfold pooled_frame. cbn [obind]. change (MaxPacketBufferSize <? len []) with false. cbn [obind].
    unfold popNewStreamFrameWithoutBuffer. match goal with |- context [Stream.MaxDataLen ?g _] => set (f0 := g) end.
    rewrite MaxDataLen_spec by (done || (bounds; lia)). cbn [obind]. pose proof (room_nonneg f0 maxBytes) as Hr.
    assert (Hrm : room f0 maxBytes <= MaxPacketBufferSize).
    { unfold room, stream_base. pose proof (len_nonneg (encoding (Offset f0))). pose proof (len_nonneg (encoding (StreamID f0))).
      repeat (case_match; try (bounds; lia)). }
    destruct (Z.eqb_spec (room f0 maxBytes) 0) as [E0|E0].
    { left. cbn [obind]. unfold has_more. rewrite Ed. split; [done|]. by apply (room_zero f0). }
    right. set (m := Z.min (room f0 maxBytes) limit). unfold getDataForWriting. rewrite Ed. cbn [default from_option id].
    change (dataCap f0) with MaxPacketBufferSize.
    rewrite (proj2 (Z.ltb_ge _ 0)), (proj2 (Z.ltb_ge MaxPacketBufferSize _)) by lia. cbn [orb].
    destruct (Z.leb_spec (len p) m) as [Hm|Hm].
    + cbn [obind]. change (Data (set_data f0 p)) with p. rewrite (proj2 (Z.eqb_neq _ 0)) by lia. cbn [andb].
      do 5 eexists. split; [rewrite En; reflexivity|]. split; [|done]. split; cbn.
      * split; cbn; done || lia.
      * lia.
      * apply (room_frame f0 (len p)); done || lia.
      * unfold next_data, pending. cbn. by rewrite En, Ed, app_nil_r.
      * done.
      * done.
      * done.
      * by left.
    + destruct (subslice_cut p m) as (front & back & -> & -> & Hd & Hfl); [lia|]. cbn [obind].
      assert (Hsum : len p = len front + len back) by (by rewrite Hd, len_app).
      assert (Hcb : canBufferStreamFrame (with_data s (Some back) (nextFrame s)) = (len back <=? MaxPacketBufferSize)).
      { unfold canBufferStreamFrame, data_len. cbn. rewrite En, Z.add_0_l, i64_small by (bounds; lia). done. }
      rewrite Hcb. change (Data (set_data f0 front)) with front. rewrite (proj2 (Z.eqb_neq (len front) 0)) by lia. cbn [andb].
      assert (Htk : forall chan, keeps_waiting s chan (Some back) None ->
        takes s maxBytes limit (set_data f0 front) chan (Some back) None).
      { intros chan Hch. split; cbn.
        * split; cbn; done || lia.
        * lia.
        * apply (room_frame f0 m); done || lia.
        * unfold next_data, pending. cbn. by rewrite En, Ed, Hd.
        * done.
        * intros d [= <-]. unfold pending. rewrite Ed. cbn. lia.
        * done.
        * done. }
      destruct (Z.leb_spec (len back) MaxPacketBufferSize) as [Hk|Hk]; (do 5 eexists; split; [rewrite En; reflexivity|]);
        (split; [apply Htk|done]).
      * by left.
      * right; left. split; [done|]. exists back. auto.
Qed.

(** ** Popping a frame *)

(** [f] with new data, as it is popped from a stream that is left with [data]
    and [next] *)
Definition sent_frame (s : SendStream) (f : StreamFrame) (data : option bytes) (next : option StreamFrame) : StreamFrame :=
  set_fin f (finishedWriting s && negb (present data) && negb (present next)).

Definition after_data (s : SendStream) (f : StreamFrame) chan data next (fc : stream_controller) : SendStream :=
  with_out (with_sent (taken s chan data next) (writeOffset s + len (Data f))
              (Fin (sent_frame s f data next) || finSent s) fc)
    (numOutstandingFrames s + 1) (retransmissionQueue s).

(** How a frame can be popped *)
Inductive popped (s : SendStream) (conn : base) (maxBytes : Z) : SendStream -> base -> StreamFrame -> Prop :=
  | pop_again f q :
      retransmissionQueue s = f :: q ->
      popped s conn maxBytes (with_out s (numOutstandingFrames s + 1) q) conn f
  | pop_split f q front back :
      retransmissionQueue s = f :: q -> Data f = front ++ back -> 0 < len front -> 0 < len back ->
      popped s conn maxBytes
        (with_out s (numOutstandingFrames s + 1)
           ({| StreamID := StreamID f; Offset := Offset f + len front; Data := back; Fin := Fin f;
               DataLenPresent := DataLenPresent f; fromPool := true; dataCap := MaxPacketBufferSize |} :: q))
        conn
        {| StreamID := StreamID f; Offset := Offset f; Data := front; Fin := false; DataLenPresent := DataLenPresent f;
           fromPool := fromPool f; dataCap := dataCap f |}
  | pop_fin :
      retransmissionQueue s = [] -> dataForWriting s = None -> nextFrame s = None ->
      finishedWriting s = true -> finSent s = false -> resetErr s = None ->
      popped s conn maxBytes
        (with_out (with_sent s (writeOffset s) true (flowController s)) (numOutstandingFrames s + 1) []) conn
        {| StreamID := streamID s; Offset := writeOffset s; Data := []; Fin := true; DataLenPresent := true;
           fromPool := false; dataCap := 0 |}
  | pop_data limit f chan data next fc conn' :
      retransmissionQueue s = [] -> shutdownErr s = None -> finSent s = false ->
      takes s maxBytes limit f chan data next ->
      (resetErr s <> None -> writeOffset s + limit <= reliableOffset s) ->
      sending (ctrl fc) -> bytesSent (ctrl fc) = writeOffset s + len (Data f) ->
      sendWindow (ctrl fc) = sendWindow (ctrl (flowController s)) -> sending conn' ->
      popped s conn maxBytes (after_data s f chan data next fc) conn' (sent_frame s f data next).

(** Nothing is left of a frame that was kept whole. *)
Lemma not_empty_present s conn : shape s conn ->
  (data_len s =? 0) && negb (present (nextFrame s)) = negb (present (dataForWriting s) || present (nextFrame s)).
Proof.
  intros Hs. unfold data_len. pose proof (sh_data _ _ Hs) as Hd. destruct (dataForWriting s) as [d|]; [|done].
  specialize (Hd d eq_refl). by rewrite (proj2 (Z.eqb_neq _ 0)) by lia.
Qed.

Lemma account_spec s0 s conn f chan data next limit reliable more maxBytes :
  shape s0 conn -> s = taken s0 chan data next -> takes s0 maxBytes limit f chan data next -> finSent s0 = false ->
  limit <= StreamFlow.SendWindowSize (flowController s0) conn ->
  exists fc conn' blocked,
    account s conn f limit reliable more
    = (with_sent s (writeOffset s0 + len (Data f)) (Fin (sent_frame s0 f data next) || finSent s0) fc, conn',
       Some (sent_frame s0 f data next), blocked,
       if present (resetErr s0) && (reliable <=? writeOffset s0 + len (Data f)) then false else more) /\
    sending (ctrl fc) /\ bytesSent (ctrl fc) = writeOffset s0 + len (Data f) /\
    sendWindow (ctrl fc) = sendWindow (ctrl (flowController s0)) /\ sending conn'.
Proof.
  intros Hs -> [[_ _ [Hl _] _ _ _] Hlim _ _ _ _ _ _] Hfin Hw. pose proof (shape_offset _ _ Hs) as [Ho1 Ho2].
  pose proof (sh_flow _ _ Hs) as Hf. pose proof (sh_conn _ _ Hs) as Hc. pose proof (sh_offset _ _ Hs) as Hb.
  unfold StreamFlow.SendWindowSize in Hw. rewrite !SendWindowSize_spec in Hw by done.
  destruct (AddBytesSent_sending (ctrl (flowController s0)) (len (Data f)) Hf) as (F1 & F2 & F3); [lia..|].
  destruct (AddBytesSent_sending conn (len (Data f)) Hc) as (C1 & _ & _); [lia..|].
  unfold account, DataLen. rewrite (proj2 (Z.ltb_lt 0 _)) by done.
  set (fc := with_ctrl (flowController s0) (Base.AddBytesSent (ctrl (flowController s0)) (len (Data f)))).
  change (flowController (taken s0 chan data next)) with (flowController s0).
  change (StreamFlow.AddBytesSent (flowController s0) conn (len (Data f))) with (fc, Base.AddBytesSent conn (len (Data f))).
  cbv iota. rewrite i64_small by (cbn; bounds; lia).
  destruct (StreamFlow.IsNewlyBlocked fc) as [fc' blocked] eqn:Eb.
  destruct (IsNewlyBlocked_sending _ _ _ Eb F1) as (G1 & G2 & G3). cbn in F2, F3, G2, G3.
  destruct (len (Data f) =? limit) eqn:El; cbn [flowController with_sent]; rewrite ?Eb; cbv iota;
    do 3 eexists; (split; [unfold sent_frame; cbn; rewrite Hfin, !andb_true_r; reflexivity|]); cbn; split_and!; done || lia.
Qed.

Definition fits (maxBytes : Z) (f : StreamFrame) : Prop := exists l, Stream.Length f = Ret l /\ l <= maxBytes.

Lemma retransmission_spec s conn maxBytes f q : shape s conn -> retransmissionQueue s = f :: q -> maxBytes <= MaxPacketBufferSize ->
  exists s' g more, maybeGetRetransmission s maxBytes = Ret (s', g, more) /\
  match g with
  | None => s' = s /\ more = true /\ maxBytes < 20
  | Some g => popped s conn maxBytes (with_out s' (numOutstandingFrames s' + 1) (retransmissionQueue s')) conn g /\
      numOutstandingFrames s' = numOutstandingFrames s /\ fits maxBytes g
  end.
Proof.
  intros Hs Hq Hm. pose proof (sh_queue _ _ Hs) as Hf. rewrite Hq in Hf. apply Forall_cons in Hf as [[Ti To Te Tl Tp Tc] _].
  pose proof (shape_offset _ _ Hs) as [Ho1 Ho2]. pose proof (len_nonneg (Data f)). pose proof (sh_id _ _ Hs) as Hid.
  unfold maybeGetRetransmission. rewrite Hq.
  destruct (split_cases f maxBytes) as [(l & Hl & Hle & Hsp)|[(Hsp & Hr)|(front & back & Hsp & Hr & Hd & Hfl & Hbl)]];
    [by rewrite Ti|done|lia|done|done| | |]; rewrite Hsp; cbn [obind].
  - do 3 eexists. split; [done|]. cbn. split; [exact (pop_again s conn maxBytes f q Hq)|]. split; [done|]. by exists l.
  - do 3 eexists. split; [done|]. cbn. split; [by destruct s; cbn in *; subst|]. split; [done|].
    apply (room_zero f); rewrite ?Ti; [done|bounds; lia|done].
  - do 3 eexists. split; [done|]. cbn. split; [exact (pop_split s conn maxBytes f q front back Hq Hd ltac:(lia) Hbl)|]. split; [done|].
    match goal with |- fits _ ?g => destruct (room_frame f (len front) maxBytes) with (d := front) as (l & Hl & Hle) end;
      rewrite ?Ti; try done; try (bounds; lia).
    exists l. rewrite <- Ti. split; [exact Hl|done].
Qed.

Lemma fin_fits s conn maxBytes : shape s conn -> 20 <= maxBytes ->
  fits maxBytes {| StreamID := streamID s; Offset := writeOffset s; Data := []; Fin := true; DataLenPresent := true;
                   fromPool := false; dataCap := 0 |}.
Proof.
  intros Hs Hm. pose proof (shape_offset _ _ Hs) as [Ho1 Ho2]. pose proof (sh_id _ _ Hs) as Hid.
  set (f := {| StreamID := streamID s |}). assert (Ho : is_varint (Offset f)) by (unfold f; bounds; cbn; lia).
  eexists. split; [apply (Length_with_data f Hid Ho []); done|]. unfold stream_base.
  pose proof (encoding_size_range (StreamID f)). pose proof (encoding_size_range (Offset f)).
  change (len []) with 0. cbn [length_size DataLenPresent f]. unfold length_size. destruct (Offset f =? 0); cbn in *; lia.
Qed.

(** What [pop_new] promises *)
Definition pop_done (s : SendStream) (conn : base) (maxBytes : Z) (s' : SendStream) (conn' : base) (f : option StreamFrame)
    (more : bool) : Prop :=
  (more = false -> to_send s' = false) /\
  match f with
  | None => s' = s /\ conn' = conn /\ (to_send s = true -> 20 <= maxBytes ->
      StreamFlow.SendWindowSize (flowController s) conn = 0 /\ (dataForWriting s <> None \/ nextFrame s <> None))
  | Some f => popped s conn maxBytes (with_out s' (numOutstandingFrames s + 1) []) conn' f /\
      numOutstandingFrames s' = numOutstandingFrames s /\ retransmissionQueue s' = [] /\ (20 <= maxBytes -> fits maxBytes f)
  end.

Lemma pop_new_empty s conn maxBytes :
  shape s conn -> retransmissionQueue s = [] -> shutdownErr s = None ->
  (resetErr s <> None -> writeOffset s < reliableOffset s) -> dataForWriting s = None -> nextFrame s = None ->
  exists s' conn' f b more, pop_new s conn maxBytes = Ret (s', conn', f, b, more) /\ pop_done s conn maxBytes s' conn' f more.
Proof.
  intros Hs Hq Hsd Hrel Ed En. pose proof (sh_reliable _ _ Hs Hsd) as Hrs. unfold next_data in Hrs. rewrite En in Hrs. change (len []) with 0 in Hrs.
  assert (Hnr : resetErr s = None) by (destruct (resetErr s); [|done]; specialize (Hrel ltac:(done)); cbn [present] in Hrs; lia).
  unfold pop_new. rewrite (not_empty_present s conn Hs), Ed, En. cbn [present orb negb].
  destruct (finishedWriting s && negb (finSent s)) eqn:Ef; (do 5 eexists; split; [reflexivity|]); unfold pop_done.
  - apply andb_true_iff in Ef as [Ef1 Ef2%negb_true_iff].
    split; [intros _; unfold to_send; cbn; by rewrite Hsd, Hq, Hnr, Ed, En, Ef1|].
    split; [exact (pop_fin s conn maxBytes Hq Ed En Ef1 Ef2 Hnr)|]. split; [done|]. split; [done|]. by apply (fin_fits _ conn).
  - assert (Hn : to_send s = false) by (unfold to_send; by rewrite Hsd, Hq, Hnr, Ed, En, Ef). by rewrite Hn.
Qed.

Lemma pop_new_data s conn maxBytes :
  shape s conn -> maxBytes <= MaxPacketBufferSize -> retransmissionQueue s = [] -> shutdownErr s = None ->
  (resetErr s <> None -> writeOffset s < reliableOffset s) -> dataForWriting s <> None \/ nextFrame s <> None ->
  exists s' conn' f b more, pop_new s conn maxBytes = Ret (s', conn', f, b, more) /\ pop_done s conn maxBytes s' conn' f more.
Proof.
  intros Hs Hm Hq Hsd Hrel Hne. pose proof (shape_offset _ _ Hs) as [Ho1 Ho2]. pose proof (sh_reliable _ _ Hs Hsd) as Hrs.
  pose proof (len_next _ _ Hs) as Hln.
  assert (Hw : StreamFlow.SendWindowSize (flowController s) conn
    = Z.min (sendWindow (ctrl (flowController s)) - writeOffset s) (sendWindow conn - bytesSent conn)).
  { unfold StreamFlow.SendWindowSize. rewrite !SendWindowSize_spec by apply Hs. by rewrite (sh_offset _ _ Hs). }
  assert (Hc : bytesSent conn <= sendWindow conn) by (destruct (sh_conn _ _ Hs); lia).
  assert (Hfin : finSent s = false) by (destruct (finSent s) eqn:E; [|done]; apply (sh_fin _ _ Hs) in E as (_ & ? & ?); naive_solver).
  unfold pop_new. rewrite (not_empty_present s conn Hs).
  assert (He : negb (present (dataForWriting s) || present (nextFrame s)) = false).
  { destruct Hne as [H|H]; [destruct (dataForWriting s)|destruct (nextFrame s)]; try done. by rewrite orb_true_r. }
  rewrite He. destruct (Z.eqb_spec (StreamFlow.SendWindowSize (flowController s) conn) 0) as [E0|E0].
  { do 5 eexists. split; [reflexivity|]. split; [done|]. split_and!; done. }
  set (limit := if present (resetErr s) && (0 <? reliableOffset s) then _ else _).
  assert (Hlim : 0 < limit <= StreamFlow.SendWindowSize (flowController s) conn /\
    (resetErr s <> None -> writeOffset s + limit <= reliableOffset s)).
  { subst limit. destruct (resetErr s) eqn:Er; cbn [present andb].
    - specialize (Hrel ltac:(done)). cbn [present] in Hrs. rewrite (proj2 (Z.ltb_lt 0 _)), i64_small by (bounds; lia). split; [lia|]. intros _. lia.
    - split; [lia|done]. }
  destruct Hlim as [Hl1 Hl2].
  destruct (popNewStreamFrame_spec s conn maxBytes limit Hs Hne Hm) as
    [[-> Hsmall]|(f & chan & data & next & more & -> & Htk & Hmore)]; [lia|lia| |]; cbn [obind].
  { do 5 eexists. split; [reflexivity|]. split; [done|]. split; [done|]. split; [done|]. lia. }
  destruct (account_spec s (taken s chan data next) conn f chan data next limit (reliableOffset s) more maxBytes Hs eq_refl Htk Hfin)
    as (fc & conn' & b & -> & A1 & A2 & A3 & A4); [lia|].
  do 5 eexists. split; [reflexivity|]. pose proof Htk as [Kf Kl Kfit Kd Kn Kr Ko Kc].
  assert (Hnl : len (next_data s) + len (pending s) = len (Data f) + len (next_data (taken s chan data next)) + len (default [] data))
    by (apply (f_equal len) in Kd; rewrite !len_app in Kd; lia).
  split.
  - unfold to_send. cbn. rewrite Hsd, Hq, Hfin, orb_false_r. cbn [negb andb orb len length]. change (0 <? len []) with false. cbn [orb].
    change (reliableOffset (with_sent (taken s chan data next) _ _ fc)) with (reliableOffset s).
    destruct (present (resetErr s)) eqn:Er; cbn [andb].
    + destruct (Z.leb_spec (reliableOffset s) (writeOffset s + len (Data f))); [intros _; apply Z.ltb_ge; lia|].
      intros Hm0. destruct data, next; cbn in Hmore; try (by rewrite Hmore in Hm0 by done).
      unfold next_data in Hnl at 2. cbn in Hnl. pose proof (len_nonneg (pending s)). change (len []) with 0 in Hnl. lia.
    + intros Hm0. destruct data, next; cbn in Hmore |- *; try (by rewrite Hmore in Hm0 by done).
      by destruct (finishedWriting s).
  - split.
    + change (popped s conn maxBytes (after_data s f chan data next fc) conn' (sent_frame s f data next)) || idtac.
      pose proof (pop_data s conn maxBytes limit f chan data next fc conn' Hq Hsd Hfin Htk Hl2 A1 A2 A3 A4) as Hp.
      unfold after_data in Hp. rewrite Hq in Hp. exact Hp.
    + split; [done|]. split; [done|]. intros _. destruct Kfit as (l & Hl & Hle). by exists l.
Qed.

Lemma popStreamFrame_spec s conn maxBytes :
  shape s conn -> maxBytes <= MaxPacketBufferSize -> 0 <= numOutstandingFrames s < 2 ^ 62 ->
  exists s' conn' f b more, popStreamFrame s conn maxBytes = Ret (s', conn', f, b, more) /\ (more = false -> to_send s' = false) /\
  match f with
  | None => s' = s /\ conn' = conn /\ (to_send s = true -> 20 <= maxBytes -> retransmissionQueue s = [] /\
      StreamFlow.SendWindowSize (flowController s) conn = 0 /\ (dataForWriting s <> None \/ nextFrame s <> None))
  | Some f => popped s conn maxBytes s' conn' f /\ (20 <= maxBytes -> fits maxBytes f)
  end.
Proof.
  intros Hs Hm Hn. unfold popStreamFrame, popNewOrRetransmittedStreamFrame.
  destruct (shutdownErr s) as [e|] eqn:Esd; cbn [present].
  { cbn [obind present]. do 5 eexists. split; [reflexivity|]. assert (Ht : to_send s = false) by (unfold to_send; by rewrite Esd).
    by rewrite Ht. }
  pose proof (shape_offset _ _ Hs) as [Ho1 _].
  destruct (retransmissionQueue s) as [|f0 q] eqn:Eq.
  - change (0 <? len []) with false. cbn [negb]. rewrite andb_true_r. destruct (present (resetErr s) && _) eqn:Er.
    { cbn [obind present]. do 5 eexists. split; [reflexivity|]. apply andb_true_iff in Er as [Er1 Er2].
      assert (Ht : to_send s = false); [|by rewrite Ht].
      unfold to_send. rewrite Esd, Eq, Er1. change (0 <? len []) with false. cbn [negb andb orb]. apply Z.ltb_ge.
      apply orb_true_iff in Er2 as [Er2%Z.eqb_eq|Er2%Z.leb_le]; lia. }
    cbn [obind].
    assert (Hrel : resetErr s <> None -> writeOffset s < reliableOffset s).
    { intros Hr. destruct (resetErr s); [|done]. cbn [present andb] in Er. apply orb_false_iff in Er as [_ Er%Z.leb_gt]. done. }
    assert (Hp : exists s' conn' f b more, pop_new s conn maxBytes = Ret (s', conn', f, b, more) /\
      pop_done s conn maxBytes s' conn' f more).
    { destruct (dataForWriting s) eqn:Ed; [apply pop_new_data; try done; left; congruence|].
      destruct (nextFrame s) eqn:En; [apply pop_new_data; try done; right; congruence|]. by apply pop_new_empty. }
    destruct Hp as (s' & conn' & f & b & more & -> & Hmore & Hf). cbn [obind]. do 5 eexists. split; [reflexivity|].
    destruct f as [f|]; cbn [present].
    + destruct Hf as (Hf & Hnum & Hqs & Hfit). rewrite Hnum, Hqs, i64_small by lia. split; [|done]. intros E. specialize (Hmore E).
      revert Hmore. unfold to_send. cbn. by rewrite Hqs.
    + destruct Hf as (-> & -> & Hb). split; [done|]. split; [done|]. split; [done|]. intros H1 H2. destruct (Hb H1 H2). done.
  - assert (Hql : 0 <? len (f0 :: q) = true) by (apply Z.ltb_lt; rewrite len_cons; pose proof (len_nonneg q); lia).
    rewrite Hql. cbn [negb]. rewrite andb_false_r, orb_false_r. destruct (present (resetErr s) && _) eqn:Er.
    { pose proof (sh_discards _ _ Hs Er). congruence. }
    destruct (retransmission_spec s conn maxBytes f0 q Hs Eq Hm) as (s' & g & more & -> & Hg). cbn [obind].
    destruct g as [g|].
    + destruct Hg as (Hp & Hnum & Hfit). cbn [obind present]. do 5 eexists. split; [reflexivity|].
      rewrite i64_small by (rewrite Hnum; lia). done.
    + destruct Hg as (-> & -> & Hsm). cbn [obind present]. do 5 eexists. split; [reflexivity|]. split; [done|].
      split; [done|]. split; [done|]. lia.
Qed.

(** ** Completion *)

(** Everything was sent and acknowledged, or the stream was given up and both
    sides know. *)
Definition finished (s : SendStream) : bool :=
  negb (0 <? len (next_data s)) && negb (0 <? numOutstandingFrames s) && negb (0 <? len (retransmissionQueue s)) &&
  negb (present (queuedResetStreamFrame s)) &&
  (finSent s || present (resetErr s) && (cancellationFlagged s || finishedWriting s)).

Definition set_completed (s : SendStream) (c : bool) : SendStream :=
  with_flags s (supportsResetStreamAt s) (finishedWriting s) (cancellationFlagged s) c.

Lemma set_completed_same s c : completed s = c -> set_completed s c = s.
Proof. by destruct s; intros <-. Qed.

Lemma isNewlyCompleted_eq s :
  isNewlyCompleted s = (set_completed s (completed s || finished s), negb (completed s) && finished s).
Proof.
  unfold isNewlyCompleted, finished. destruct (completed s) eqn:Ec; [by rewrite set_completed_same|]. cbn [orb negb andb].
  assert (Hn : match nextFrame s with Some f => 0 <? DataLen f | None => false end = (0 <? len (next_data s)))
    by (unfold next_data; by destruct (nextFrame s)).
  rewrite Hn. destruct (0 <? len (next_data s)), (0 <? numOutstandingFrames s), (0 <? len (retransmissionQueue s)),
    (present (queuedResetStreamFrame s)), (finSent s); cbn [negb andb orb];
    try (by rewrite set_completed_same); try done.
  destruct (present (resetErr s) && (cancellationFlagged s || finishedWriting s)); [done|by rewrite set_completed_same].
Qed.

(** ** Giving frames back *)

Lemma returnFramesToPool_ok s id o :
  Forall (tracked id o) (retransmissionQueue s) -> (forall f, nextFrame s = Some f -> buffered id o f) ->
  returnFramesToPool s = Ret (with_data (with_out s (numOutstandingFrames s) []) (dataForWriting s) None).
Proof.
  intros Hq Hn. unfold returnFramesToPool. rewrite (putBack_all_ok _ _ _ Hq). cbn [obind].
  destruct (nextFrame s) as [f|]; [|done]. by rewrite (buffered_putBack _ _ _ (Hn f eq_refl)).
Qed.

(** ** Truncating *)

(** What is left of a frame *)
Definition front_of (f : StreamFrame) (reliable : Z) : option StreamFrame :=
  if reliable <=? Offset f then None
  else Some (set_data f (take (Z.to_nat (reliable - Offset f)) (Data f))).

Lemma set_data_same f : set_data f (Data f) = f.
Proof. by destruct f. Qed.

Lemma truncate_ok f id o reliable :
  tracked id o f -> o < 2 ^ 63 -> truncate f reliable = Ret (front_of f reliable).
Proof.
  intros Ht Hm. pose proof Ht as []. unfold truncate, front_of, DataLen. pose proof (len_nonneg (Data f)).
  destruct (Z.leb_spec reliable (Offset f)); [by destruct (tracked_putBack _ _ _ Ht) as [b ->]|].
  bounds. rewrite i64_small by lia. destruct (Z.leb_spec (Offset f + len (Data f)) reliable).
  - rewrite take_ge by (unfold len in *; lia). by rewrite set_data_same.
  - rewrite i64_small by lia. rewrite subslice_Ret by lia. by rewrite drop_0, Z.sub_0_r.
Qed.

Lemma truncate_all_ok l id o reliable :
  Forall (tracked id o) l -> o < 2 ^ 63 ->
  truncate_all l reliable = Ret (omap (fun f => front_of f reliable) l).
Proof.
  intros Hl Hm. induction Hl as [|f l Hf _ IH]; [done|]. cbn. rewrite (truncate_ok f id o) by done. cbn [obind].
  rewrite IH. cbn [obind]. by destruct (front_of f reliable).
Qed.

Lemma front_of_tracked f id o reliable g : tracked id o f -> front_of f reliable = Some g -> tracked id o g.
Proof.
  unfold front_of. intros [] H. destruct (Z.leb_spec reliable (Offset f)); [done|]. injection H as <-.
  assert (len (take (Z.to_nat (reliable - Offset f)) (Data f)) <= len (Data f)) by (unfold len; rewrite length_take; lia).
  split; cbn; try done; lia.
Qed.

(** ** Buffering *)

Lemma buffer_data_spec s conn : shape s conn -> canBufferStreamFrame s = true -> 0 < data_len s ->
  exists f, buffer_data s = Ret (with_data s None (Some f)) /\ buffered (streamID s) (writeOffset s) f /\
    Data f = next_data s ++ pending s.
Proof.
  intros Hs Hc Hd. rewrite (canBuffer_spec s conn Hs) in Hc. apply Z.leb_le in Hc. rewrite data_len_pending in Hd.
  pose proof (len_next _ _ Hs) as Hn. unfold buffer_data. fold (pending s). pose proof (sh_next _ _ Hs) as Hb.
  unfold next_data in *. destruct (nextFrame s) as [f|].
  - destruct (Hb f eq_refl) as [B1 B2 B3 B4 B5 B6]. rewrite B6. unfold DataLen. rewrite (proj2 (Z.ltb_ge _ _)) by lia. cbn [obind].
    eexists. split; [reflexivity|]. split; [|done]. split; cbn; try done. rewrite len_app. lia.
  - change (len []) with 0 in Hc. rewrite pooled_frame_ok by lia. cbn [obind]. eexists. split; [reflexivity|]. split; [|done].
    split; cbn; done || lia.
Qed.
