(* ===== verification/SendStreamMachine.v ===== *)
(** * Send streams: the machine and its invariant

    One writer at a time writes, waits and is woken; the packer pops frames
    while the stream says it has data; frames are acknowledged or lost; the
    stream is closed, cancelled or stopped, in any order.  The invariant has
    six groups: the shape of the stream, what its frames carry, what it
    counts, what it still has to deliver, when it is completed, and what it
    announced.  Each group depends on a part of the state only. *)
From S2P Require Import Prelude Varint Protocol AckFrame AckFrameProps Frames FramesProps FlowControl FlowControlFacts.
From S2P Require Import ReceiveStream SendStream SendStreamFacts.
Import SendStream.

Local Open Scope Z_scope.
Local Open Scope go_scope.

(** ** The machine *)

(** [writer]: the slice of the call that waits, and if it was woken already;
    [accepted]: the bytes that [Write] calls returned as written;
    [outstanding], [resets]: frames in flight; [active], [control]: what the
    stream announced to the connection *)
Record machine := {
  ss : SendStream;
  cn : base;
  writer : option (bytes * bool);
  accepted : bytes;
  outstanding : list StreamFrame;
  resets : list reset_frame;
  active : bool;
  control : bool;
  sent : list StreamFrame;
  acked : list StreamFrame;
  completions : nat;
}.

Definition opened (id : Z) (fc : stream_controller) (supports : bool) (c : base) : machine :=
  {| ss := newSendStream id fc supports; cn := c; writer := None; accepted := []; outstanding := []; resets := [];
     active := false; control := false; sent := []; acked := []; completions := 0 |}.

Inductive op :=
  | OpWrite (p : bytes) (clock : nat -> Z)
  | OpWake
  | OpTimeout
  | OpResume (now : Z)
  | OpPop (maxBytes : Z)
  | OpControl
  | OpAck (k : nat)
  | OpLost (k : nat)
  | OpResetAck (k : nat)
  | OpResetLost (k : nat)
  | OpClose
  | OpBoundary
  | OpCancel (code : Z)
  | OpStop (code : Z)
  | OpEnable
  | OpWindow (limit : Z)
  | OpConn (c : base)
  | OpDeadline (t : Z)
  | OpShutdown (err : goerror).

Definition is_data (n : notice) : bool := match n with onHasStreamData => true | _ => false end.
Definition is_control (n : notice) : bool := match n with onHasStreamControlFrame => true | _ => false end.
Definition is_completed (n : notice) : bool := match n with onStreamCompleted => true | _ => false end.

(** The stream after an operation, and what the connection was told *)
Definition with_stream (m : machine) (s : SendStream) (ns : list notice) : machine :=
  {| ss := s; cn := cn m; writer := writer m; accepted := accepted m; outstanding := outstanding m; resets := resets m;
     active := active m || existsb is_data ns; control := control m || existsb is_control ns; sent := sent m; acked := acked m;
     completions := completions m + length (List.filter is_completed ns) |}.

Definition with_writer (m : machine) (w : option (bytes * bool)) (acc : bytes) : machine :=
  {| ss := ss m; cn := cn m; writer := w; accepted := acc; outstanding := outstanding m; resets := resets m;
     active := active m; control := control m; sent := sent m; acked := acked m; completions := completions m |}.

Definition with_frames (m : machine) (out snt ack : list StreamFrame) (act : bool) (c : base) : machine :=
  {| ss := ss m; cn := c; writer := writer m; accepted := accepted m; outstanding := out; resets := resets m;
     active := act; control := control m; sent := snt; acked := ack; completions := completions m |}.

Definition with_resets (m : machine) (l : list reset_frame) (ctl : bool) : machine :=
  {| ss := ss m; cn := cn m; writer := writer m; accepted := accepted m; outstanding := outstanding m; resets := l;
     active := active m; control := ctl; sent := sent m; acked := acked m; completions := completions m |}.

Definition finish_write (m : machine) (p : bytes) (x : SendStream * list notice * result) : machine :=
  let '(s, ns, r) := x in
  let m := with_stream m s (ns ++ write_notices r) in
  match r with
  | Returned _ n _ => with_writer m None (accepted m ++ take (Z.to_nat n) p)
  | Blocked => with_writer m (Some (p, false)) (accepted m)
  end.

Definition opt_list {A : Type} (o : option A) : list A := match o with Some a => [a] | None => [] end.

(** [writeOnce] lets one writer in at a time.  The connection pops frames and
    control frames of streams that announced them. *)
Definition step (m : machine) (o : op) : outcome machine :=
  match o with
  | OpWrite p clock =>
      match writer m with
      | Some _ => Ret m
      | None => let! x := write (ss m) p clock in Ret (finish_write m p x)
      end
  | OpWake =>
      match writer m with
      | Some (p, false) =>
          if writeChan (ss m)
          then Ret (with_writer (with_stream m (with_signal (ss m) (ctx (ss m)) (shutdownErr (ss m)) false (deadline (ss m))) [])
                      (Some (p, true)) (accepted m))
          else Ret m
      | _ => Ret m
      end
  | OpTimeout =>
      match writer m with
      | Some (p, false) => if deadline (ss m) =? 0 then Ret m else Ret (with_writer m (Some (p, true)) (accepted m))
      | _ => Ret m
      end
  | OpResume now =>
      match writer m with
      | Some (p, true) => let! x := write_resume (ss m) (len p) now in Ret (finish_write m p x)
      | _ => Ret m
      end
  | OpPop maxBytes =>
      if negb (active m) then Ret m else
      let! '(s, c, f, _, more) := popStreamFrame (ss m) (cn m) maxBytes in
      Ret (with_frames (with_stream m s []) (outstanding m ++ opt_list f) (sent m ++ opt_list f) (acked m) more c)
  | OpControl =>
      if negb (control m) then Ret m else
      let '(s, f) := getControlFrame (ss m) in
      Ret (with_stream (with_resets m (resets m ++ opt_list f) false) s [])
  | OpAck k =>
      match outstanding m !! k with
      | Some f =>
          let! '(s, ns) := OnAcked (ss m) f in
          Ret (with_stream (with_frames m (delete k (outstanding m)) (sent m) (acked m ++ [f]) (active m) (cn m)) s ns)
      | None => Ret m
      end
  | OpLost k =>
      match outstanding m !! k with
      | Some f =>
          let! '(s, ns) := OnLost (ss m) f in
          Ret (with_stream (with_frames m (delete k (outstanding m)) (sent m) (acked m) (active m) (cn m)) s ns)
      | None => Ret m
      end
  | OpResetAck k =>
      match resets m !! k with
      | Some f => let! '(s, ns) := OnResetAcked (ss m) f in Ret (with_stream (with_resets m (delete k (resets m)) (control m)) s ns)
      | None => Ret m
      end
  | OpResetLost k =>
      match resets m !! k with
      | Some f => let '(s, ns) := OnResetLost (ss m) f in Ret (with_stream (with_resets m (delete k (resets m)) (control m)) s ns)
      | None => Ret m
      end
  | OpClose => let '(s, ns, _) := Close (ss m) in Ret (with_stream m s ns)
  | OpBoundary => Ret (with_stream m (SetReliableBoundary (ss m)) [])
  | OpCancel code => let! '(s, ns) := CancelWrite (ss m) code in Ret (with_stream m s ns)
  | OpStop code => let! '(s, ns) := handleStopSendingFrame (ss m) code in Ret (with_stream m s ns)
  | OpEnable => Ret (with_stream m (enableResetStreamAt (ss m)) [])
  | OpWindow limit => let '(s, ns) := updateSendWindow (ss m) limit in Ret (with_stream m s ns)
  | OpConn c => Ret (with_frames m (outstanding m) (sent m) (acked m) (active m) c)
  | OpDeadline t => Ret (with_stream m (SetWriteDeadline (ss m) t) [])
  | OpShutdown err => let! s := closeForShutdown (ss m) err in Ret (with_stream m s [])
  end.

Definition run (m : machine) (ops : list op) : outcome machine := ofold step ops m.

(** What the surroundings promise: a [Write] has at most 2^61 bytes, frames fit
    in a packet, and limits are QUIC integers.  One more condition
    is not promised by the code: [SetReliableBoundary] is not called, and
    resets at an offset are not enabled, after the stream was reset.  The code
    allows both, and then panics, see [late_boundary_panics]. *)
Definition careful (m : machine) (o : op) : Prop :=
  match o with
  | OpWrite p _ => len p <= max_total
  | OpPop maxBytes => maxBytes <= MaxPacketBufferSize
  | OpWindow limit => limit <= MaxByteCount
  | OpConn c => sending c
  | OpBoundary | OpEnable => resetErr (ss m) = None
  | _ => True
  end.

Fixpoint careful_run (m : machine) (ops : list op) : Prop :=
  match ops with
  | [] => True
  | o :: ops => careful m o /\ match step m o with Ret m' => careful_run m' ops | _ => True end
  end.

(** ** The invariant *)

(** Everything that was or is being written *)
Definition written (m : machine) : bytes := accepted m ++ match writer m with Some (p, _) => p | None => [] end.

(** What a [Write] that gave up now would have accepted, with all before it *)
Definition kept (m : machine) : Z :=
  len (accepted m) + match writer m with Some (p, _) => len p - len (pending (ss m)) | None => 0 end.

Definition reset (s : SendStream) : bool := present (resetErr s).
Definition up (s : SendStream) : Prop := shutdownErr s = None.

(** [n] bytes from [o] on *)
Definition sub (l : bytes) (o n : Z) : bytes := take (Z.to_nat n) (drop (Z.to_nat o) l).

(** A frame of the stream carries what was written, and FIN at the end. *)
Record good (m : machine) (f : StreamFrame) : Prop := {
  gd_tracked : tracked (streamID (ss m)) (writeOffset (ss m)) f;
  gd_data : Data f = sub (written m) (Offset f) (len (Data f));
  gd_fin : Fin f = true -> finSent (ss m) = true /\ (reset (ss m) = false -> Offset f + len (Data f) = writeOffset (ss m));
}.

Record content (m : machine) : Prop := {
  ct_kept : writeOffset (ss m) <= kept m;
  ct_writer : forall p w, writer m = Some (p, w) -> 0 < len p <= max_total /\ len (pending (ss m)) <= len p;
  ct_idle : up (ss m) -> reset (ss m) = false -> writer m = None -> dataForWriting (ss m) = None;
  ct_open : up (ss m) -> reset (ss m) = false ->
    written m = sub (written m) 0 (writeOffset (ss m)) ++ next_data (ss m) ++ pending (ss m);
  ct_reset : up (ss m) -> reset (ss m) = true ->
    reliableOffset (ss m) <= kept m /\
    sub (next_data (ss m)) 0 (reliableOffset (ss m) - writeOffset (ss m))
    = sub (written m) (writeOffset (ss m)) (reliableOffset (ss m) - writeOffset (ss m));
  ct_sent : Forall (good m) (sent m);
  ct_outstanding : Forall (good m) (outstanding m);
  ct_queue : Forall (good m) (retransmissionQueue (ss m));
}.

(** RESET_STREAM frames that count *)
Definition current (s : SendStream) (f : reset_frame) : bool := ReceiveStream.ReliableSize f =? reliableOffset s.
Definition counted (m : machine) : Z :=
  (if discards (ss m) then 0 else len (outstanding m)) + len (List.filter (current (ss m)) (resets m)).

Record counting (m : machine) : Prop := {
  cg_num : numOutstandingFrames (ss m) = counted m;
  cg_none : reset (ss m) = false -> resets m = [] /\ queuedResetStreamFrame (ss m) = None;
  cg_queued : forall f, queuedResetStreamFrame (ss m) = Some f -> current (ss m) f = true;
  cg_old : 0 < reliableOffset (ss m) -> Forall (fun f => current (ss m) f = true) (resets m);
}.

(** Frames the stream still has, or that were acknowledged *)
Definition all_frames (m : machine) : list StreamFrame := acked m ++ outstanding m ++ retransmissionQueue (ss m).
Definition covers (x : Z) (f : StreamFrame) : Prop := Offset f <= x < Offset f + len (Data f).

(** How much of what was sent has to arrive *)
Definition required (s : SendStream) : Z := if reset s then Z.min (writeOffset s) (reliableOffset s) else writeOffset s.

Record covered (m : machine) : Prop := {
  cv_bytes : up (ss m) -> forall x, 0 <= x < required (ss m) -> Exists (covers x) (all_frames m);
  cv_fin : reset (ss m) = false -> finSent (ss m) = true -> Exists (fun f => Fin f = true) (all_frames m);
}.

Record completing (m : machine) : Prop := {
  cp_finished : up (ss m) -> finished (ss m) = true -> completed (ss m) = true;
  cp_count : completions m = if completed (ss m) then 1%nat else 0%nat;
  cp_done : completed (ss m) = true -> reset (ss m) = false ->
    finSent (ss m) = true /\ numOutstandingFrames (ss m) <= 0 /\ retransmissionQueue (ss m) = [];
}.

Record scheduled (m : machine) : Prop := {
  sd_active : to_send (ss m) = true -> active m = true;
  sd_control : queuedResetStreamFrame (ss m) <> None -> control m = true;
  sd_writer : forall p, writer m = Some (p, false) -> writeChan (ss m) = false ->
    up (ss m) /\ reset (ss m) = false /\
    exists d, dataForWriting (ss m) = Some d /\ (nextFrame (ss m) = None -> MaxPacketBufferSize < len d);
}.

Record inv (m : machine) : Prop := {
  iv_shape : shape (ss m) (cn m);
  iv_content : content m;
  iv_counting : counting m;
  iv_covered : covered m;
  iv_completing : completing m;
  iv_scheduled : scheduled m;
}.

(** ** Pieces of what was written *)

Lemma sub_prefix l l' k o n : sub l 0 k = sub l' 0 k -> 0 <= o -> 0 <= n -> o + n <= k -> sub l o n = sub l' o n.
Proof.
  unfold sub. rewrite !drop_0. intros H Ho Hn Hk.
  assert (Hc : forall x : bytes, take (Z.to_nat n) (drop (Z.to_nat o) x) = take (Z.to_nat n) (drop (Z.to_nat o) (take (Z.to_nat k) x))).
  { intros x. rewrite skipn_firstn_comm, take_take. f_equal. lia. }
  by rewrite (Hc l), (Hc l'), H.
Qed.

Lemma sub_len l o n : 0 <= o -> 0 <= n -> o + n <= len l -> len (sub l o n) = n.
Proof. intros. unfold sub, len in *. rewrite length_take, length_drop. lia. Qed.

Lemma sub_app_l l k o n : 0 <= o -> 0 <= n -> o + n <= len l -> sub (l ++ k) o n = sub l o n.
Proof.
  intros. unfold sub, len in *. rewrite drop_app_le by lia. rewrite take_app_le; [done|]. rewrite length_drop. lia.
Qed.

Lemma sub_full l n : len l <= n -> sub l 0 n = l.
Proof. intros. unfold sub. rewrite drop_0. apply take_ge. unfold len in *. lia. Qed.

Lemma sub_app_exact l k : sub (l ++ k) (len l) (len k) = k.
Proof. unfold sub, len. rewrite !Nat2Z.id, drop_app_length. by apply take_ge. Qed.

Lemma sub_app_r l k n : sub (l ++ k) (len l) n = sub k 0 n.
Proof. unfold sub, len. by rewrite Nat2Z.id, drop_app_length, drop_0. Qed.

Lemma sub_0 l o n : n <= 0 -> sub l o n = [].
Proof. intros. unfold sub. by replace (Z.to_nat n) with 0%nat by lia. Qed.

(** The middle of three pieces *)
Lemma sub_middle a d r o n : o = len a -> n = len d -> sub (a ++ d ++ r) o n = d.
Proof.
  intros -> ->. unfold sub, len. rewrite !Nat2Z.id, drop_app_length. apply take_app_length.
Qed.

Lemma sub_sub l o n i k : 0 <= o -> 0 <= i -> 0 <= k -> i + k <= n -> sub (sub l o n) i k = sub l (o + i) k.
Proof.
  intros. unfold sub. rewrite skipn_firstn_comm, take_take, drop_drop. f_equal; [lia|]. f_equal. lia.
Qed.

(** ** What the groups of the invariant depend on *)

Record alike (s s' : SendStream) : Prop := {
  al_id : streamID s' = streamID s;
  al_offset : writeOffset s' = writeOffset s;
  al_data : dataForWriting s' = dataForWriting s;
  al_next : nextFrame s' = nextFrame s;
  al_fin : finSent s' = finSent s;
  al_queue : retransmissionQueue s' = retransmissionQueue s;
  al_reset : resetErr s' = resetErr s;
  al_up : shutdownErr s' = shutdownErr s;
  al_reliable : reset s = true -> reliableOffset s' = reliableOffset s;
}.

Lemma alike_completed s s' c : alike s s' -> alike s (set_completed s' c).
Proof. by intros []. Qed.

Lemma good_mono m m' f :
  streamID (ss m') = streamID (ss m) -> writeOffset (ss m) <= writeOffset (ss m') ->
  sub (written m') 0 (writeOffset (ss m)) = sub (written m) 0 (writeOffset (ss m)) ->
  (finSent (ss m) = true -> finSent (ss m') = true /\ (reset (ss m') = false ->
     reset (ss m) = false /\ writeOffset (ss m') = writeOffset (ss m))) ->
  good m f -> good m' f.
Proof.
  intros Hid Ho Hw Hf [Ht Hd Hfin]. pose proof Ht as []. pose proof (len_nonneg (Data f)). split.
  - rewrite Hid. by apply (tracked_mono _ (writeOffset (ss m))).
  - rewrite Hd at 1. apply (sub_prefix _ _ (writeOffset (ss m))); lia || done.
  - intros E. destruct (Hfin E) as [H1 H2]. destruct (Hf H1) as [H3 H4]. split; [done|]. intros Hr. destruct (H4 Hr) as [H5 ->]. auto.
Qed.

Lemma content_alike m m' :
  alike (ss m) (ss m') -> option_map fst (writer m') = option_map fst (writer m) -> accepted m' = accepted m ->
  (forall f, f ∈ outstanding m' -> f ∈ outstanding m) -> sent m' = sent m -> content m -> content m'.
Proof.
  intros [Ai Ao Ad An Af Aq Ar Au Al] Hw Ha Hout Hs [Ck Cw Ci Co Cr Cs Cu Cq].
  assert (Hwr : written m' = written m).
  { unfold written. rewrite Ha. destruct (writer m) as [[p w]|], (writer m') as [[p' w']|]; cbn in Hw; congruence. }
  assert (Hk : kept m' = kept m).
  { unfold kept, pending. rewrite Ha, Ad. destruct (writer m) as [[p w]|], (writer m') as [[p' w']|]; cbn in Hw; congruence. }
  assert (Hr : reset (ss m') = reset (ss m)) by (unfold reset; by rewrite Ar).
  assert (Hg : forall f, good m f -> good m' f).
  { intros f. apply good_mono; rewrite ?Ao, ?Af, ?Hr, ?Hwr; done || lia. }
  unfold up, next_data, pending in Ci, Co, Cr, Cw. split.
  - by rewrite Hk, Ao.
  - intros p w E. unfold pending. rewrite Ad. destruct (writer m) as [[p0 w0]|]; [|by rewrite E in Hw].
    rewrite E in Hw. cbn in Hw. injection Hw as ->. eauto.
  - unfold up. rewrite Au, Hr, Ad. intros Hu Hrs E. apply Ci; [done..|]. destruct (writer m); [|done]. by rewrite E in Hw.
  - unfold up, next_data, pending. rewrite Au, Hr, Hwr, Ao, An, Ad. done.
  - unfold up, next_data. rewrite Au, Hr, Hwr, Ao, Hk, An. intros Hu Hrs. rewrite (Al Hrs). auto.
  - rewrite Hs. eapply Forall_impl; [exact Cs|exact Hg].
  - apply Forall_forall. intros f Hf. apply Hg. rewrite Forall_forall in Cu. auto.
  - rewrite Aq. eapply Forall_impl; [exact Cq|exact Hg].
Qed.

Lemma covered_alike m m' :
  alike (ss m) (ss m') -> (forall f, f ∈ acked m ++ outstanding m -> f ∈ acked m' ++ outstanding m') -> covered m -> covered m'.
Proof.
  intros [Ai Ao Ad An Af Aq Ar Au Al] Hall [Cb Cf].
  assert (Hr : reset (ss m') = reset (ss m)) by (unfold reset; by rewrite Ar).
  assert (Hrq : required (ss m') = required (ss m)).
  { unfold required. rewrite Hr, Ao. destruct (reset (ss m)) eqn:E; [|done]. by rewrite Al. }
  assert (He : forall P, Exists P (all_frames m) -> Exists P (all_frames m')).
  { intros P. unfold all_frames. rewrite !Exists_exists, Aq. intros (f & Hf & HP). exists f. split; [|done].
    rewrite app_assoc in Hf |- *. apply elem_of_app in Hf as [Hf|Hf]; apply elem_of_app; auto. }
  split.
  - unfold up. rewrite Au, Hrq. intros. auto.
  - rewrite Hr, Af. auto.
Qed.

Lemma shape_alike s c s' c' :
  alike s s' -> sending c' -> sending (ctrl (flowController s')) ->
  bytesSent (ctrl (flowController s')) = bytesSent (ctrl (flowController s)) ->
  (finishedWriting s = true -> finishedWriting s' = true) -> (finishedWriting s' = true -> up s') ->
  0 <= reliableSize s' -> (up s -> reset s = false -> reliableSize s' <= writeOffset s + len (next_data s)) ->
  shape s c -> shape s' c'.
Proof.
  intros [Ai Ao Ad An Af Aq Ar Au Al] Hc Hs Hb Hf Hu Hr0 Hr Hsh. pose proof Hsh as [S1 S2 S3 S4 S5 S6 S7 S8 S9 S10 S11 S12].
  split; rewrite ?Ai, ?Ao, ?Ad, ?An, ?Af, ?Aq, ?Hb; try done.
  - intros E. destruct (S8 E) as (? & ? & ?). auto.
  - unfold discards. rewrite Ar. destruct (resetErr s) eqn:E; [|done]. rewrite Al by (unfold reset; by rewrite E).
    intros H. apply S10. unfold discards. by rewrite E.
  - rewrite Ar, Au. unfold next_data in *. rewrite An. intros Hup. specialize (S12 Hup). unfold reset, up in *.
    destruct (resetErr s) eqn:E; [|by apply Hr]. by rewrite Al.
Qed.

Lemma discards_alike s s' : alike s s' -> discards s' = discards s.
Proof.
  intros [Ai Ao Ad An Af Aq Ar Au Al]. unfold discards. rewrite Ar. destruct (resetErr s) eqn:E; [|done].
  by rewrite Al by (unfold reset; by rewrite E).
Qed.

Lemma to_send_alike s s' : alike s s' -> finishedWriting s' = finishedWriting s -> to_send s' = to_send s.
Proof.
  intros [Ai Ao Ad An Af Aq Ar Au Al] Hf. unfold to_send. rewrite Au, Aq, Ar, Ao, Ad, An, Af, Hf.
  destruct (resetErr s) eqn:E; [|done]. by rewrite Al by (unfold reset; by rewrite E).
Qed.

Lemma counting_alike m m' :
  alike (ss m) (ss m') -> numOutstandingFrames (ss m') = numOutstandingFrames (ss m) ->
  queuedResetStreamFrame (ss m') = queuedResetStreamFrame (ss m) -> resets m' = resets m ->
  outstanding m' = outstanding m -> counting m -> counting m'.
Proof.
  intros Ha Hn Hq Hrs Ho [Gn Gz Gq Go]. pose proof (discards_alike _ _ Ha) as Hd. pose proof Ha as [Ai Ao Ad An Af Aq Ar Au Al].
  assert (Hr : reset (ss m') = reset (ss m)) by (unfold reset; by rewrite Ar).
  destruct (reset (ss m)) eqn:Er.
  - assert (Hc : forall f, current (ss m') f = current (ss m) f) by (intros f; unfold current; by rewrite Al).
    split; rewrite ?Hr, ?Hq, ?Hrs, ?Hn; try done.
    + rewrite Gn. unfold counted. rewrite Hd, Hrs, Ho. f_equal. f_equal. apply List.filter_ext. intros f. by rewrite Hc.
    + intros f E. rewrite Hc. auto.
    + rewrite Al by done. intros H. eapply Forall_impl; [by apply Go|]. intros f. by rewrite Hc.
  - destruct (Gz eq_refl) as [Hz1 Hz2]. split; rewrite ?Hr, ?Hq, ?Hrs, ?Hn, ?Hz1, ?Hz2; try done.
    rewrite Gn. unfold counted. by rewrite Hd, Hrs, Ho, Hz1.
Qed.

Lemma completing_plain m m' :
  completing m -> (finished (ss m') = true -> finished (ss m) = true \/ ~ up (ss m')) -> (up (ss m') -> up (ss m)) ->
  completed (ss m') = completed (ss m) ->
  completions m' = completions m ->
  (completed (ss m) = true -> reset (ss m') = false -> reset (ss m) = false /\ finSent (ss m') = finSent (ss m) /\
    numOutstandingFrames (ss m') = numOutstandingFrames (ss m) /\ retransmissionQueue (ss m') = retransmissionQueue (ss m)) ->
  completing m'.
Proof.
  intros [Pf Pc Pd] Hf Hu Hc Hn Hd. split.
  - intros Hup Hfin. rewrite Hc. destruct (Hf Hfin); [auto|done].
  - by rewrite Hn, Hc.
  - rewrite Hc. intros E Hr. destruct (Hd E Hr) as (H1 & -> & -> & ->). auto.
Qed.

Lemma finished_facts s : finished s = true ->
  numOutstandingFrames s <= 0 /\ retransmissionQueue s = [] /\ queuedResetStreamFrame s = None /\ (reset s = false -> finSent s = true).
Proof.
  unfold finished, reset. intros H. repeat (apply andb_true_iff in H as [H ?]).
  apply negb_true_iff in H, H1, H2, H3. apply Z.ltb_ge in H3, H2. split; [lia|].
  split; [destruct (retransmissionQueue s); [done|]; rewrite len_cons in H2; pose proof (len_nonneg l); lia|].
  split; [by destruct (queuedResetStreamFrame s)|]. intros Hr. rewrite Hr in H0. cbn in H0. by rewrite orb_false_r in H0.
Qed.

(** [isNewlyCompleted] at the end of an operation that led to [s] *)
Lemma completing_settle m m' s :
  completing m -> ss m' = set_completed s (completed s || finished s) -> completed s = completed (ss m) ->
  completions m' = (completions m + length (List.filter is_completed (completion (negb (completed s) && finished s))))%nat ->
  (completed s = true -> reset s = false -> finSent s = true /\ numOutstandingFrames s <= 0 /\ retransmissionQueue s = []) ->
  completing m'.
Proof.
  intros [Pf Pc Pd] Hs Hc Hn Hd. split; rewrite Hs; cbn.
  - intros _ Hf. assert (Hf' : finished s = true) by exact Hf. rewrite Hf'. apply orb_true_r.
  - rewrite Hn, Pc, <- Hc. by destruct (completed s), (finished s).
  - destruct (completed s) eqn:E; [auto|]. cbn. intros Hf Hr. destruct (finished_facts s Hf) as (? & ? & _ & ?). auto.
Qed.

Lemma quiet_inv m m' :
  inv m -> alike (ss m) (ss m') -> shape (ss m') (cn m') ->
  numOutstandingFrames (ss m') = numOutstandingFrames (ss m) ->
  queuedResetStreamFrame (ss m') = queuedResetStreamFrame (ss m) ->
  outstanding m' = outstanding m /\ sent m' = sent m /\ acked m' = acked m /\ resets m' = resets m /\
  accepted m' = accepted m /\ option_map fst (writer m') = option_map fst (writer m) ->
  completing m' -> (to_send (ss m') = true -> active m' = true) -> (control m = true -> control m' = true) ->
  (forall p, writer m' = Some (p, false) -> writeChan (ss m') = false -> writer m = Some (p, false) /\ writeChan (ss m) = false) ->
  inv m'.
Proof.
  intros [Ish Ico Icn Icv Icp Isc] Ha Hs Hn Hq (Ho & Hst & Hak & Hrs & Hac & Hw) Hc Hts Hct Hwr. split; try done.
  - apply (content_alike m); try done. by rewrite Ho.
  - by apply (counting_alike m).
  - apply (covered_alike m); try done. by rewrite Ho, Hak.
  - destruct Isc as [Sa Sc Sw]. split; [done| |].
    + rewrite Hq. auto.
    + intros p Hp Hch. destruct (Hwr p Hp Hch) as [H1 H2]. destruct (Sw p H1 H2) as (Hu & Hr & Hd).
      unfold up, reset. by rewrite (al_up _ _ Ha), (al_reset _ _ Ha), (al_data _ _ Ha), (al_next _ _ Ha).
Qed.
