(* ===== verification/SendStreamFates.v ===== *)
(** * Send streams: signals, fates of frames, and giving up

    The operations that do not take data from the writer keep the invariant:
    flags and signals, RESET_STREAM frames, acknowledgements and losses,
    cancellation, STOP_SENDING and shutdown. *)
From S2P Require Import Prelude Varint Protocol AckFrame AckFrameProps Frames FramesProps FlowControl FlowControlFacts.
From S2P Require Import ReceiveStream SendStream SendStreamFacts SendStreamMachine.
Import SendStream.

Local Open Scope Z_scope.
Local Open Scope go_scope.

(** ** Operations that leave the data alone *)

(** The invariant after an operation, and how many frames are in flight *)
Definition in_flight (m : machine) : Z := len (outstanding m) + len (resets m).
Definition steps_to (m : machine) (o : outcome machine) : Prop :=
  exists m', o = Ret m' /\ inv m' /\ in_flight m' <= in_flight m + 1.

Lemma steps_same m : inv m -> steps_to m (Ret m).
Proof. intros. exists m. split_and!; done || lia. Qed.

Lemma signal_shape s c context chan dl : shape s c -> shape (with_signal s context (shutdownErr s) chan dl) c.
Proof. by intros []; split. Qed.

Lemma flags_shape s c fin flagged comp :
  shape s c -> (finishedWriting s = true -> fin = true) -> (fin = true -> up s) ->
  shape (with_flags s (supportsResetStreamAt s) fin flagged comp) c.
Proof.
  intros [S1 S2 S3 S4 S5 S6 S7 S8 S9 S10 S11 S12] Hf Hu. split; try done. intros E. destruct (S8 E) as (? & ? & ?). auto.
Qed.

(** The completed flag is set by the way. *)
Lemma settled_inv m s ns :
  inv m -> alike (ss m) s -> shape s (cn m) ->
  numOutstandingFrames s = numOutstandingFrames (ss m) -> queuedResetStreamFrame s = queuedResetStreamFrame (ss m) ->
  completed s = completed (ss m) -> (finishedWriting s = true -> up s) ->
  (to_send s = true -> active m || existsb is_data ns = true) -> List.filter is_completed ns = [] ->
  (writeChan s = false -> writeChan (ss m) = false) ->
  inv (with_stream m (set_completed s (completed s || finished s)) (ns ++ completion (negb (completed s) && finished s))).
Proof.
  intros Hi Ha Hs Hn Hq Hc Hf Hts Hns Hch. pose proof Ha as [Ai Ao Ad An Af Aq Ar Au Al]. apply (quiet_inv m); cbn; try done.
  - by apply flags_shape.
  - destruct (iv_completing _ Hi) as [Pf Pc Pd]. apply (completing_settle m _ s); try done.
    + cbn. by rewrite List.filter_app, Hns.
    + rewrite Hc, Af, Hn, Aq. unfold reset. rewrite Ar. auto.
  - intros H. rewrite existsb_app, orb_assoc, Hts by exact H. done.
  - intros H. by rewrite H.
  - intros p Hp H. auto.
Qed.

Lemma deadline_steps m t : inv m -> steps_to m (step m (OpDeadline t)).
Proof.
  intros Hi. cbn [step]. eexists. split; [reflexivity|]. split; [|unfold in_flight; cbn; lia].
  apply (quiet_inv m); cbn; try done.
  - apply signal_shape. apply signal_shape, Hi.
  - destruct (iv_completing _ Hi). apply (completing_plain m); cbn; try done; auto.
  - intros H. rewrite orb_false_r. by apply Hi.
  - intros H. by rewrite H.
Qed.

Lemma wake_steps m : inv m -> steps_to m (step m OpWake).
Proof.
  intros Hi. cbn [step]. destruct (writer m) as [[p [|]]|] eqn:Ew; [by apply steps_same| |by apply steps_same].
  destruct (writeChan (ss m)); [|by apply steps_same].
  eexists. split; [reflexivity|]. split; [|unfold in_flight; cbn; lia]. apply (quiet_inv m); cbn; try done.
  - apply signal_shape, Hi.
  - by rewrite Ew.
  - destruct (iv_completing _ Hi). apply (completing_plain m); cbn; try done; auto.
  - intros H. rewrite orb_false_r. by apply Hi.
  - intros H. by rewrite H.
Qed.

Lemma timeout_steps m : inv m -> steps_to m (step m OpTimeout).
Proof.
  intros Hi. cbn [step]. destruct (writer m) as [[p [|]]|] eqn:Ew; [by apply steps_same| |by apply steps_same].
  destruct (deadline (ss m) =? 0); [by apply steps_same|].
  eexists. split; [reflexivity|]. split; [|unfold in_flight; cbn; lia]. apply (quiet_inv m); cbn; try done.
  - apply Hi.
  - by rewrite Ew.
  - destruct (iv_completing _ Hi). apply (completing_plain m); cbn; try done; auto.
  - apply Hi.
Qed.

Lemma close_steps m : inv m -> steps_to m (step m OpClose).
Proof.
  intros Hi. cbn [step]. unfold Close. destruct (shutdownErr (ss m)) eqn:Eu; cbn [present orb].
  { eexists. split; [reflexivity|]. split; [|unfold in_flight; cbn; lia].
    apply (quiet_inv m); cbn; try done; rewrite ?orb_false_r; try apply Hi; try done.
    destruct (iv_completing _ Hi). apply (completing_plain m); cbn; try done; auto. }
  destruct (finishedWriting (ss m)) eqn:Ef.
  { eexists. split; [reflexivity|]. split; [|unfold in_flight; cbn; lia].
    apply (quiet_inv m); cbn; try done; rewrite ?orb_false_r; try apply Hi; try done.
    destruct (iv_completing _ Hi). apply (completing_plain m); cbn; try done; auto. }
  rewrite isNewlyCompleted_eq. set (s1 := with_flags (ss m) _ true _ _). cbv zeta.
  assert (Hs1 : shape s1 (cn m)) by (apply flags_shape; [apply Hi|done|done]).
  assert (Hts : forall ns, to_send s1 = true -> reset (ss m) = true -> active m || ns = true).
  { intros ns H Hr. replace (active m) with true; [done|]. symmetry. apply (sd_active _ (iv_scheduled _ Hi)). revert H.
    unfold to_send, s1. cbn. unfold reset in Hr. by rewrite Hr. }
  destruct (present (resetErr (ss m))) eqn:Er.
  - eexists. split; [reflexivity|]. split; [|unfold in_flight; cbn; lia].
    apply (settled_inv m s1 []); try done. intros H. by apply Hts.
  - eexists. split; [reflexivity|]. split; [|unfold in_flight; cbn; lia].
    pose proof (settled_inv m (ctxCancel s1 Canceled) [onHasStreamData] Hi) as Hst.
    change (ctxCancel (set_completed s1 (completed s1 || finished s1)) Canceled)
      with (set_completed (ctxCancel s1 Canceled) (completed s1 || finished s1)).
    assert (E : with_stream m (set_completed (ctxCancel s1 Canceled) (completed s1 || finished s1))
        (completion (negb (completed s1) && finished s1) ++ [onHasStreamData])
      = with_stream m (set_completed (ctxCancel s1 Canceled) (completed s1 || finished s1))
        ([onHasStreamData] ++ completion (negb (completed s1) && finished s1)))
      by (by destruct (negb (completed s1) && finished s1)).
    rewrite E. apply Hst; try done.
    + by apply signal_shape.
    + intros _. cbn. by rewrite orb_true_r.
Qed.

Lemma window_steps m limit : inv m -> careful m (OpWindow limit) -> steps_to m (step m (OpWindow limit)).
Proof.
  intros Hi Hl. cbn [step careful] in *. unfold updateSendWindow.
  destruct (StreamFlow.UpdateSendWindow (flowController (ss m)) limit) as [fc updated] eqn:Eu.
  destruct (UpdateSendWindow_sending _ _ _ _ Eu Hl (sh_flow _ _ (iv_shape _ Hi))) as (F1 & F2 & F3).
  eexists. split; [reflexivity|]. split; [|unfold in_flight; cbn; lia].
  apply (quiet_inv m); cbn; try done.
  - pose proof (iv_shape _ Hi) as []. by split; cbn; rewrite ?F2.
  - destruct (iv_completing _ Hi). apply (completing_plain m); cbn; try done; auto.
    by destruct (updated && _).
  - intros H. rewrite (sd_active _ (iv_scheduled _ Hi)) by exact H. done.
  - intros H. by rewrite H.
Qed.

Lemma conn_steps m c : inv m -> careful m (OpConn c) -> steps_to m (step m (OpConn c)).
Proof.
  intros Hi Hc. cbn [step careful] in *. eexists. split; [reflexivity|]. split; [|unfold in_flight; cbn; lia].
  apply (quiet_inv m); cbn; try done.
  - pose proof (iv_shape _ Hi) as []. by split.
  - destruct (iv_completing _ Hi). apply (completing_plain m); cbn; try done; auto.
  - apply Hi.
Qed.

(** The reliable size of a stream that was not reset is only a plan. *)
Lemma boundary_steps m : inv m -> careful m OpBoundary -> steps_to m (step m OpBoundary).
Proof.
  intros Hi Hr. cbn [step careful] in *. eexists. split; [reflexivity|]. split; [|unfold in_flight; cbn; lia].
  pose proof (iv_shape _ Hi) as Hs. pose proof (shape_offset _ _ Hs) as [Ho _]. pose proof (len_next _ _ Hs) as Hn.
  pose proof (shape_offset _ _ Hs) as [_ Ho2].
  assert (Hsz : i64 (writeOffset (ss m) + match nextFrame (ss m) with Some f => DataLen f | None => 0 end)
    = writeOffset (ss m) + len (next_data (ss m))).
  { unfold next_data in *. bounds. destruct (nextFrame (ss m)); unfold DataLen; cbv beta iota in Hn |- *;
      [|change (len []) with 0 in *]; rewrite i64_small by lia; done. }
  assert (Ha : alike (ss m) (SetReliableBoundary (ss m))) by (split; try done; unfold reset; by rewrite Hr).
  apply (quiet_inv m); cbn; try done.
  - apply (shape_alike (ss m) (cn m)); try done; try apply Hs; cbn; rewrite Hsz; try lia.
  - destruct (iv_completing _ Hi). apply (completing_plain m); cbn; try done; auto.
  - intros H. rewrite orb_false_r. apply (sd_active _ (iv_scheduled _ Hi)). rewrite <- H. symmetry. by apply to_send_alike.
  - intros H. by rewrite H.
Qed.

Lemma enable_steps m : inv m -> careful m OpEnable -> steps_to m (step m OpEnable).
Proof.
  intros Hi Hr. cbn [step careful] in *. eexists. split; [reflexivity|]. split; [|unfold in_flight; cbn; lia].
  pose proof (iv_shape _ Hi) as Hs.
  assert (Ha : alike (ss m) (enableResetStreamAt (ss m))) by (split; try done; unfold reset; by rewrite Hr).
  apply (quiet_inv m); cbn; try done.
  - apply (shape_alike (ss m) (cn m)); try done; try apply Hs; cbn.
    intros Hu _. pose proof (sh_reliable _ _ Hs Hu) as H. by rewrite Hr in H.
  - destruct (iv_completing _ Hi). apply (completing_plain m); cbn; try done; auto.
  - intros H. rewrite orb_false_r. apply (sd_active _ (iv_scheduled _ Hi)). rewrite <- H. symmetry. by apply to_send_alike.
  - intros H. by rewrite H.
Qed.

(** ** RESET_STREAM frames in flight *)

(** Only the counts change. *)
Lemma reset_inv m s' rs ns ctl :
  inv m -> alike (ss m) s' -> shape s' (cn m) -> flowController s' = flowController (ss m) ->
  finishedWriting s' = finishedWriting (ss m) -> writeChan s' = writeChan (ss m) ->
  counting (with_stream (with_resets m rs ctl) s' ns) -> completing (with_stream (with_resets m rs ctl) s' ns) ->
  (queuedResetStreamFrame s' <> None -> ctl || existsb is_control ns = true) ->
  inv (with_stream (with_resets m rs ctl) s' ns).
Proof.
  intros Hi Ha Hs Hfc Hf Hch Hcn Hcp Hq. pose proof Hi as [Ish Ico Icn Icv Icp [Sa Sc Sw]]. split; try done.
  - by apply (content_alike m).
  - by apply (covered_alike m).
  - split; cbn; [|done|].
    + rewrite (to_send_alike _ _ Ha Hf). intros H. by rewrite Sa.
    + rewrite Hch. intros p Hp Hc. destruct (Sw p Hp Hc) as (Hu & Hr & Hd). unfold up, reset.
      by rewrite (al_up _ _ Ha), (al_reset _ _ Ha), (al_data _ _ Ha), (al_next _ _ Ha).
Qed.

Lemma filter_delete {A : Type} (P : A -> bool) (l : list A) k x : l !! k = Some x ->
  len (List.filter P (delete k l)) = len (List.filter P l) - (if P x then 1 else 0).
Proof.
  revert k. induction l as [|a l IH]; intros [|k] E; try done.
  - injection E as ->. cbn. destruct (P x); rewrite ?len_cons; lia.
  - change (delete (S k) (a :: l)) with (a :: delete k l). cbn [List.filter].
    destruct (P a); rewrite ?len_cons; rewrite (IH k E); lia.
Qed.

Lemma len_delete {A : Type} (l : list A) k x : l !! k = Some x -> len (delete k l) = len l - 1.
Proof. intros E. unfold len. rewrite length_delete by eauto. apply lookup_lt_Some in E. lia. Qed.

Lemma counted_nonneg m : 0 <= counted m.
Proof.
  unfold counted. pose proof (len_nonneg (outstanding m)). pose proof (len_nonneg (List.filter (current (ss m)) (resets m))).
  destruct (discards (ss m)); lia.
Qed.

Lemma counted_bound m : counted m <= in_flight m.
Proof.
  unfold counted, in_flight. pose proof (len_nonneg (outstanding m)).
  assert (len (List.filter (current (ss m)) (resets m)) <= len (resets m))
    by (unfold len; pose proof (List.filter_length_le (current (ss m)) (resets m)); lia).
  destruct (discards (ss m)); lia.
Qed.

Definition small (m : machine) : Prop := in_flight m < 2 ^ 61.

Lemma num_range m : inv m -> small m -> 0 <= numOutstandingFrames (ss m) < 2 ^ 61.
Proof. intros Hi Hs. rewrite (cg_num _ (iv_counting _ Hi)). pose proof (counted_nonneg m). pose proof (counted_bound m). unfold small in Hs. lia. Qed.

Lemma control_steps m : inv m -> small m -> steps_to m (step m OpControl).
Proof.
  intros Hi Hsm. cbn [step]. destruct (control m) eqn:Ec; cbn [negb]; [|by apply steps_same].
  pose proof (num_range m Hi Hsm) as Hnum. pose proof Hi as [Ish Ico [Gn Gz Gq Go] Icv [Pf Pc Pd] Isc]. unfold getControlFrame.
  destruct (queuedResetStreamFrame (ss m)) as [f|] eqn:Eq; (eexists; split; [reflexivity|]).
  - specialize (Gq f eq_refl). rewrite i64_small by lia. set (s' := with_reset _ _ _ _).
    assert (Hf : List.filter (current s') (resets m ++ [f]) = List.filter (current (ss m)) (resets m) ++ [f])
      by (rewrite List.filter_app; cbn; change (current s') with (current (ss m)); by rewrite Gq).
    split; [apply reset_inv; try done|unfold in_flight; cbn; rewrite len_app; change (len [f]) with 1; lia].
    + pose proof Ish as []; by split.
    + split; try done.
      * change (numOutstandingFrames (ss m) + 1 = (if discards (ss m) then 0 else len (outstanding m))
          + len (List.filter (current s') (resets m ++ [f]))).
        rewrite Hf, len_app. change (len [f]) with 1. rewrite Gn. unfold counted. lia.
      * intros Hr. destruct (Gz Hr) as [? ?]. congruence.
      * intros H. apply Forall_app. split; [by apply Go|]. by apply Forall_singleton.
    + apply (completing_plain m); cbn; try done.
      * intros Hfin. apply finished_facts in Hfin as [Hfin _]. cbn in Hfin. lia.
      * intros _ Hr. change (reset (ss m) = false) in Hr. destruct (Gz Hr). congruence.
  - split; [|unfold in_flight; cbn; rewrite app_nil_r; lia]. cbn [opt_list]. rewrite app_nil_r.
    apply reset_inv; try done.
    + pose proof (iv_counting _ Hi) as []. by split.
    + apply (completing_plain m); cbn; try done; auto.
Qed.

(** A RESET_STREAM frame of an earlier reliable size is forgotten. *)
Lemma reset_forgotten m k f ns :
  inv m -> resets m !! k = Some f -> current (ss m) f = false -> List.filter is_completed ns = [] ->
  inv (with_stream (with_resets m (delete k (resets m)) (control m)) (ss m) ns).
Proof.
  intros Hi Hk Hc Hns. pose proof Hi as [Ish Ico [Gn Gz Gq Go] Icv [Pf Pc Pd] [Sa Sc Sw]]. apply reset_inv; try done.
  - split; try done.
    + change (numOutstandingFrames (ss m) = (if discards (ss m) then 0 else len (outstanding m))
        + len (List.filter (current (ss m)) (delete k (resets m)))).
      rewrite (filter_delete _ _ _ _ Hk), Hc, Gn. unfold counted. lia.
    + intros Hr. destruct (Gz Hr) as [Hz _]. rewrite Hz in Hk. done.
    + intros H. apply Forall_delete. by apply Go.
  - apply (completing_plain m); cbn; try done; auto. rewrite Hns. cbn. lia.
  - intros H. by rewrite Sc.
Qed.

Lemma len_resets_delete m k f : resets m !! k = Some f -> len (delete k (resets m)) = len (resets m) - 1.
Proof. apply len_delete. Qed.

Lemma reset_ack_steps m k : inv m -> small m -> steps_to m (step m (OpResetAck k)).
Proof.
  intros Hi Hsm. cbn [step]. destruct (resets m !! k) as [f|] eqn:Ek; [|by apply steps_same].
  pose proof (num_range m Hi Hsm) as Hnum. pose proof Hi as [Ish Ico [Gn Gz Gq Go] Icv Icp [Sa Sc Sw]].
  unfold OnResetAcked. fold (current (ss m) f). destruct (current (ss m) f) eqn:Ec; cbn [negb obind].
  2: { eexists. split; [reflexivity|]. split; [by apply (reset_forgotten m k f)|].
       unfold in_flight. cbn. rewrite (len_delete _ _ _ Ek). lia. }
  assert (Hpos : 1 <= numOutstandingFrames (ss m)).
  { rewrite Gn. unfold counted. pose proof (filter_delete (current (ss m)) _ _ _ Ek) as Hd. rewrite Ec in Hd.
    pose proof (len_nonneg (List.filter (current (ss m)) (delete k (resets m)))). pose proof (len_nonneg (outstanding m)).
    destruct (discards (ss m)); lia. }
  unfold settle_frame. rewrite i64_small by lia. rewrite (proj2 (Z.ltb_ge _ 0)) by lia. cbn [obind].
  set (s1 := with_out _ _ _). rewrite isNewlyCompleted_eq.
  eexists. split; [reflexivity|]. split; [|unfold in_flight; cbn; rewrite (len_delete _ _ _ Ek); lia].
  assert (Hr : reset (ss m) = true).
  { destruct (reset (ss m)) eqn:Er; [done|]. destruct (Gz eq_refl) as [Hz _]. by rewrite Hz in Ek. }
  apply reset_inv; try done.
  - pose proof Ish as []; by split.
  - split; try done.
    + change (numOutstandingFrames (ss m) - 1 = (if discards (ss m) then 0 else len (outstanding m))
        + len (List.filter (current (ss m)) (delete k (resets m)))).
      rewrite (filter_delete _ _ _ _ Ek), Ec, Gn. unfold counted. lia.
    + intros H. change (reset (ss m) = false) in H. congruence.
    + intros H. apply Forall_delete. by apply Go.
  - apply (completing_settle m _ s1); try done. intros _ H. change (reset (ss m) = false) in H. congruence.
  - intros H. cbn. by rewrite Sc.
Qed.

Lemma reset_lost_steps m k : inv m -> small m -> steps_to m (step m (OpResetLost k)).
Proof.
  intros Hi Hsm. cbn [step]. destruct (resets m !! k) as [f|] eqn:Ek; [|by apply steps_same].
  pose proof (num_range m Hi Hsm) as Hnum. pose proof Hi as [Ish Ico [Gn Gz Gq Go] Icv [Pf Pc Pd] [Sa Sc Sw]].
  unfold OnResetLost. fold (current (ss m) f). destruct (current (ss m) f) eqn:Ec; cbn [negb].
  2: { eexists. split; [reflexivity|]. split; [by apply (reset_forgotten m k f)|].
       unfold in_flight. cbn. rewrite (len_delete _ _ _ Ek). lia. }
  rewrite i64_small by (cbn; lia).
  eexists. split; [reflexivity|]. split; [|unfold in_flight; cbn; rewrite (len_delete _ _ _ Ek); lia].
  assert (Hr : reset (ss m) = true).
  { destruct (reset (ss m)) eqn:Er; [done|]. destruct (Gz eq_refl) as [Hz _]. by rewrite Hz in Ek. }
  apply reset_inv; try done.
  - pose proof Ish as []; by split.
  - split; try done.
    + change (numOutstandingFrames (ss m) - 1 = (if discards (ss m) then 0 else len (outstanding m))
        + len (List.filter (current (ss m)) (delete k (resets m)))).
      rewrite (filter_delete _ _ _ _ Ek), Ec, Gn. unfold counted. lia.
    + intros H. change (reset (ss m) = false) in H. congruence.
    + intros g [= <-]. exact Ec.
    + intros H. apply Forall_delete. by apply Go.
  - apply (completing_plain m); cbn; try done; try lia.
    + intros Hfin. apply finished_facts in Hfin as (_ & _ & Hfin & _). done.
    + intros _ H. change (reset (ss m) = false) in H. congruence.
  - intros _. cbn. by rewrite orb_true_r.
Qed.

(** ** The fate of a frame *)

Lemma good_same m m' f :
  streamID (ss m') = streamID (ss m) -> writeOffset (ss m') = writeOffset (ss m) -> written m' = written m ->
  finSent (ss m') = finSent (ss m) -> reset (ss m') = reset (ss m) -> good m f -> good m' f.
Proof. intros Hi Ho Hw Hf Hr. apply good_mono; rewrite ?Ho, ?Hw, ?Hf, ?Hr; done || lia. Qed.

Lemma content_requeue m num q ns :
  content m -> Forall (good m) q -> content (with_stream m (with_out (ss m) num q) ns).
Proof.
  intros [Ck Cw Ci Co Cr Cs Cu Cq] Hq. set (m' := with_stream _ _ _).
  assert (Hg : forall l, Forall (good m) l -> Forall (good m') l).
  { intros l Hl. eapply Forall_impl; [exact Hl|]. intros f. by apply good_same. }
  by split; try done; apply Hg.
Qed.

Lemma covered_by m m' :
  required (ss m') <= required (ss m) -> (up (ss m') -> up (ss m)) -> (reset (ss m') = false -> reset (ss m) = false) ->
  finSent (ss m') = finSent (ss m) ->
  (forall x, x < required (ss m') -> Exists (covers x) (all_frames m) -> Exists (covers x) (all_frames m')) ->
  (reset (ss m') = false -> Exists (fun f => Fin f = true) (all_frames m) -> Exists (fun f => Fin f = true) (all_frames m')) ->
  covered m -> covered m'.
Proof.
  intros Hr Hu Hrs Hf Hb Hfin [Cb Cf]. split.
  - intros Hup x Hx. apply Hb; [lia|]. apply Cb; [auto|lia].
  - intros H1 H2. rewrite Hf in H2. auto.
Qed.

Lemma all_frames_elem m f : f ∈ all_frames m <-> f ∈ acked m \/ f ∈ outstanding m \/ f ∈ retransmissionQueue (ss m).
Proof. unfold all_frames. by rewrite !elem_of_app. Qed.

(** A frame that left the list is the one that was taken out. *)
Lemma elem_of_delete {A : Type} (l : list A) k x y : l !! k = Some x -> y ∈ l -> y = x \/ y ∈ delete k l.
Proof. intros Hk Hy. rewrite (delete_Permutation l k x Hk) in Hy. by apply elem_of_cons in Hy. Qed.

Lemma delete_elem {A : Type} (l : list A) k y : y ∈ delete k l -> y ∈ l.
Proof.
  revert k. induction l as [|a l IH]; intros [|k] Hy; try done; [by right|].
  apply elem_of_cons in Hy as [->|Hy]; [left|right; by apply (IH k)].
Qed.

Lemma outstanding_num m k f : inv m -> small m -> outstanding m !! k = Some f -> discards (ss m) = false ->
  1 <= numOutstandingFrames (ss m) < 2 ^ 61 /\ settle_frame (ss m)
  = Ret (with_out (ss m) (numOutstandingFrames (ss m) - 1) (retransmissionQueue (ss m))).
Proof.
  intros Hi Hsm Hk Hd. pose proof (num_range m Hi Hsm) as Hnum.
  assert (1 <= numOutstandingFrames (ss m)).
  { rewrite (cg_num _ (iv_counting _ Hi)). unfold counted. rewrite Hd. pose proof (len_delete _ _ _ Hk).
    pose proof (len_nonneg (delete k (outstanding m))). pose proof (len_nonneg (List.filter (current (ss m)) (resets m))). lia. }
  split; [lia|]. unfold settle_frame. rewrite i64_small by lia. by rewrite (proj2 (Z.ltb_ge _ 0)) by lia.
Qed.

(** A frame is taken out of those in flight; the stream keeps [q] to send
    again, and counts one frame less if it counts at all. *)
Lemma frame_settled m k f num q ak ns c :
  inv m -> outstanding m !! k = Some f ->
  num = numOutstandingFrames (ss m) - (if discards (ss m) then 0 else 1) ->
  let s := with_out (ss m) num q in
  let m' := with_stream (with_frames m (delete k (outstanding m)) (sent m) ak (active m) (cn m)) (set_completed s c) ns in
  Forall (good m) q -> (discards (ss m) = true -> q = []) -> covered m' -> completing m' ->
  (to_send s = true -> active m || existsb is_data ns = true) -> inv m'.
Proof.
  intros Hi Hk Hnum s m' Hq Hdq Hcv Hcp Hts. pose proof Hi as [Ish Ico [Gn Gz Gq Go] Icv Icp [Sa Sc Sw]].
  split; try done.
  - pose proof Ish as [S1 S2 S3 S4 S5 S6 S7 S8 S9 S10 S11 S12]. split; try done.
    eapply Forall_impl; [exact Hq|]. by intros g [].
  - assert (Hc : content (with_stream (with_frames m (delete k (outstanding m)) (sent m) ak (active m) (cn m)) s ns)).
    { apply (content_requeue (with_frames m (delete k (outstanding m)) (sent m) ak (active m) (cn m))).
      - apply (content_alike m); try done. intros g. apply delete_elem.
      - eapply Forall_impl; [exact Hq|]. intros g. by apply good_same. }
    revert Hc. apply content_alike; try done.
  - split; try done.
    change (num = (if discards (ss m) then 0 else len (delete k (outstanding m))) + len (List.filter (current (ss m)) (resets m))).
    rewrite (len_delete _ _ _ Hk), Hnum, Gn. unfold counted. destruct (discards (ss m)); lia.
  - split; cbn; [done| |done]. intros H. by rewrite Sc.
Qed.

Lemma out_good m k f : inv m -> outstanding m !! k = Some f -> good m f.
Proof.
  intros Hi Hk. pose proof (ct_outstanding _ (iv_content _ Hi)) as H. rewrite Forall_forall in H. apply H.
  by apply list_elem_of_lookup_2 in Hk.
Qed.

Lemma discards_reset s : discards s = true -> reset s = true /\ reliableOffset s = 0.
Proof. unfold discards. intros [H1 H2%Z.eqb_eq]%andb_true_iff. done. Qed.

Lemma discards_required s : discards s = true -> 0 <= writeOffset s -> required s <= 0.
Proof. intros Hd Ho. destruct (discards_reset s Hd) as [Hr Hz]. unfold required. rewrite Hr, Hz. lia. Qed.

(** A frame of a stream that was given up does not count. *)
Lemma discarded_inv m k f ak :
  inv m -> outstanding m !! k = Some f -> discards (ss m) = true ->
  inv (with_stream (with_frames m (delete k (outstanding m)) (sent m) ak (active m) (cn m)) (ss m) []).
Proof.
  intros Hi Hk Hd. pose proof Hi as [Ish Ico Icn Icv [Pf Pc Pd] [Sa Sc Sw]].
  pose proof (shape_offset _ _ Ish) as [[Ho _] _]. pose proof (discards_required _ Hd Ho) as Hrq.
  destruct (discards_reset _ Hd) as [Hr _].
  pose proof (frame_settled m k f (numOutstandingFrames (ss m)) (retransmissionQueue (ss m)) ak [] (completed (ss m))) as Hfs.
  assert (E : set_completed (with_out (ss m) (numOutstandingFrames (ss m)) (retransmissionQueue (ss m))) (completed (ss m)) = ss m)
    by (by destruct (ss m)).
  cbv zeta in Hfs. rewrite E in Hfs. apply Hfs; try done.
  - rewrite Hd. lia.
  - apply Ico.
  - intros _. by apply (sh_discards _ _ Ish).
  - split; cbn; [|by rewrite Hr]. intros _ x Hx. lia.
  - apply (completing_plain m); cbn; try done; auto.
  - intros H. rewrite Sa; [done|]. exact H.
Qed.

Lemma ack_steps m k : inv m -> small m -> steps_to m (step m (OpAck k)).
Proof.
  intros Hi Hsm. cbn [step]. destruct (outstanding m !! k) as [f|] eqn:Ek; [|by apply steps_same].
  pose proof (gd_tracked _ _ (out_good m k f Hi Ek)) as Ht. destruct (tracked_putBack _ _ _ Ht) as [b Hb].
  unfold OnAcked. rewrite Hb. cbn [obind]. destruct (discards (ss m)) eqn:Ed; cbn [obind].
  { eexists. split; [reflexivity|]. split; [by apply (discarded_inv m k f)|].
    unfold in_flight. cbn. rewrite (len_delete _ _ _ Ek). lia. }
  destruct (outstanding_num m k f Hi Hsm Ek Ed) as [Hnum ->]. cbn [obind].
  set (s1 := with_out _ _ _). rewrite isNewlyCompleted_eq.
  eexists. split; [reflexivity|]. split; [|unfold in_flight; cbn; rewrite (len_delete _ _ _ Ek); lia].
  pose proof Hi as [Ish Ico Icn Icv [Pf Pc Pd] [Sa Sc Sw]].
  apply (frame_settled m k f); try done.
  - by rewrite Ed.
  - apply Ico.
  - by rewrite Ed.
  - apply (covered_alike m); try done. cbn. intros g. rewrite !elem_of_app. intros [Hg|Hg]; [by auto|].
    destruct (elem_of_delete _ _ _ _ Ek Hg) as [->|?]; [left; right; by left|by right].
  - apply (completing_settle m _ s1); try done. cbn. intros Hc Hr. destruct (Pd Hc Hr) as (? & ? & ?). split_and!; done || lia.
  - intros H. rewrite Sa; [done|]. exact H.
Qed.

Lemma good_front m f r g : good m f -> reset (ss m) = true -> front_of f r = Some g -> good m g.
Proof.
  intros [Ht Hd Hf] Hr Hg. split; [by apply (front_of_tracked f _ _ r)| |].
  - unfold front_of in Hg. destruct (Z.leb_spec r (Offset f)); [done|]. injection Hg as <-. destruct Ht. cbn.
    rewrite Hd at 1. pose proof (len_nonneg (Data f)) as Hn.
    assert (E : len (take (Z.to_nat (r - Offset f)) (Data f)) = Z.min (r - Offset f) (len (Data f)))
      by (unfold len; rewrite length_take; lia).
    rewrite E. unfold sub. rewrite take_take. f_equal. lia.
  - intros E. unfold front_of in Hg. destruct (r <=? Offset f); [done|]. injection Hg as <-. cbn in E.
    destruct (Hf E) as [? _]. split; [done|]. congruence.
Qed.

Lemma front_covers f r x : covers x f -> x < r -> exists g, front_of f r = Some g /\ covers x g.
Proof.
  unfold covers, front_of. intros Hc Hx. destruct (Z.leb_spec r (Offset f)); [lia|]. eexists. split; [done|]. cbn.
  unfold len in *. rewrite length_take. lia.
Qed.

(** What [OnLost] keeps of a frame *)
Definition lost_part (s : SendStream) (f : StreamFrame) : option StreamFrame :=
  if reset s then front_of f (reliableOffset s) else Some f.

Lemma lost_kept m k f : inv m -> outstanding m !! k = Some f -> discards (ss m) = false ->
  (if present (resetErr (ss m)) && (0 <? reliableOffset (ss m)) then truncate f (reliableOffset (ss m)) else Ret (Some f))
  = Ret (lost_part (ss m) f) /\
  (forall g, lost_part (ss m) f = Some g -> good m g /\ DataLenPresent g = true) /\
  (forall x, covers x f -> x < required (ss m) -> exists g, lost_part (ss m) f = Some g /\ covers x g).
Proof.
  intros Hi Hk Hd. pose proof (out_good m k f Hi Hk) as Hg. pose proof (gd_tracked _ _ Hg) as Ht.
  pose proof (iv_shape _ Hi) as Hs. pose proof (shape_offset _ _ Hs) as [Ho1 Ho2]. unfold lost_part.
  destruct (reset (ss m)) eqn:Er; unfold reset in Er; rewrite Er; cbn [andb].
  - unfold discards in Hd. rewrite Er in Hd. cbn in Hd. apply Z.eqb_neq in Hd.
    assert (Hpos : 0 < reliableOffset (ss m)) by (pose proof (sh_size _ _ Hs); unfold reliableOffset in *; destruct (negb _); lia).
    rewrite (proj2 (Z.ltb_lt _ _)) by done.
    split; [apply (truncate_ok f _ _ _ Ht); bounds; lia|]. split.
    + intros g E. pose proof (good_front m f _ g Hg Er E) as Hgg. split; [done|]. apply Hgg.
    + intros x Hx Hrq. apply front_covers; [done|]. unfold required, reset in Hrq. rewrite Er in Hrq. lia.
  - split; [done|]. split; [intros g [= <-]; split; [done|apply Ht]|]. intros x Hx _. by exists f.
Qed.

Lemma lost_steps m k : inv m -> small m -> steps_to m (step m (OpLost k)).
Proof.
  intros Hi Hsm. cbn [step]. destruct (outstanding m !! k) as [f|] eqn:Ek; [|by apply steps_same].
  pose proof (out_good m k f Hi Ek) as Hg. destruct (tracked_putBack _ _ _ (gd_tracked _ _ Hg)) as [b Hb].
  pose proof Hi as [Ish Ico Icn Icv [Pf Pc Pd] [Sa Sc Sw]].
  unfold OnLost. destruct (discards (ss m)) eqn:Ed.
  { rewrite Hb. cbn [obind]. eexists. split; [reflexivity|]. split; [by apply (discarded_inv m k f)|].
    unfold in_flight. cbn. rewrite (len_delete _ _ _ Ek). lia. }
  destruct (outstanding_num m k f Hi Hsm Ek Ed) as [Hnum ->]. cbn [obind].
  set (s1 := with_out (ss m) (numOutstandingFrames (ss m) - 1) (retransmissionQueue (ss m))).
  change (present (resetErr s1)) with (present (resetErr (ss m))). change (reliableOffset s1) with (reliableOffset (ss m)).
  destruct (lost_kept m k f Hi Ek Ed) as (-> & Hgood & Hcov). cbn [obind].
  destruct (lost_part (ss m) f) as [g|] eqn:El.
  - destruct (Hgood g eq_refl) as [Hgg Hp].
    assert (E : {| StreamID := StreamID g; Offset := Offset g; Data := Data g; Fin := Fin g; DataLenPresent := true;
                   fromPool := fromPool g; dataCap := dataCap g |} = g) by (by destruct g; cbn in *; subst).
    rewrite E. cbn [obind]. eexists. split; [reflexivity|].
    split; [|unfold in_flight; cbn; rewrite (len_delete _ _ _ Ek); lia].
    set (q := retransmissionQueue s1 ++ [g]).
    change (with_out s1 (numOutstandingFrames s1) q) with (set_completed (with_out (ss m) (numOutstandingFrames (ss m) - 1) q) (completed (ss m))).
    assert (Hq : q <> []) by (unfold q; by destruct (retransmissionQueue s1)).
    apply (frame_settled m k f); try done.
    + by rewrite Ed.
    + apply Forall_app. split; [apply Ico|by apply Forall_singleton].
    + by rewrite Ed.
    + apply (covered_by m); try done.
      * intros x Hx. rewrite !Exists_exists. intros (h & Hh & Hc). apply all_frames_elem in Hh as [Hh|[Hh|Hh]].
        -- exists h. split; [|done]. apply all_frames_elem. by left.
        -- destruct (elem_of_delete _ _ _ _ Ek Hh) as [->|Hd].
           ++ destruct (Hcov x Hc Hx) as (g' & [= <-] & Hc'). exists g. split; [|done]. apply all_frames_elem. right; right.
              apply elem_of_app. right. by left.
           ++ exists h. split; [|done]. apply all_frames_elem. by right; left.
        -- exists h. split; [|done]. apply all_frames_elem. right; right. apply elem_of_app. by left.
      * intros Hr. rewrite !Exists_exists. unfold lost_part in El. change (reset (ss m) = false) in Hr. rewrite Hr in El. injection El as <-.
        intros (h & Hh & Hc). exists h. split; [|done]. apply all_frames_elem in Hh as [Hh|[Hh|Hh]]; apply all_frames_elem; [by left| |].
        -- destruct (elem_of_delete _ _ _ _ Ek Hh) as [->|Hd]; [right; right; apply elem_of_app; right; by left|by right; left].
        -- right; right. apply elem_of_app. by left.
    + apply (completing_plain m); cbn; try done; try lia.
      * intros Hfin. apply finished_facts in Hfin as (_ & Hfin & _). done.
      * intros Hc Hr. destruct (Pd Hc Hr) as (_ & ? & _). lia.
    + intros _. cbn. by rewrite orb_true_r.
  - rewrite isNewlyCompleted_eq. eexists. split; [reflexivity|].
    split; [|unfold in_flight; cbn; rewrite (len_delete _ _ _ Ek); lia].
    assert (Hr : reset (ss m) = true) by (unfold lost_part in El; by destruct (reset (ss m))).
    apply (frame_settled m k f); try done.
    + by rewrite Ed.
    + apply Ico.
    + by rewrite Ed.
    + apply (covered_by m); try done.
      * intros x Hx. rewrite !Exists_exists. intros (h & Hh & Hc). exists h. split; [|done].
        apply all_frames_elem in Hh as [Hh|[Hh|Hh]]; apply all_frames_elem; [by left| |by right; right].
        destruct (elem_of_delete _ _ _ _ Ek Hh) as [->|Hd]; [|by right; left]. destruct (Hcov x Hc Hx) as (? & ? & _). done.
      * intros H. change (reset (ss m) = false) in H. congruence.
    + apply (completing_settle m _ s1); try done. intros _ H. change (reset (ss m) = false) in H. congruence.
    + intros H. rewrite Sa; [done|]. exact H.
Qed.

(** ** Giving up *)

Lemma good_reset m m' f :
  streamID (ss m') = streamID (ss m) -> writeOffset (ss m') = writeOffset (ss m) -> written m' = written m ->
  finSent (ss m') = finSent (ss m) -> reset (ss m') = true -> good m f -> good m' f.
Proof. intros Hi Ho Hw Hf Hr. apply good_mono; rewrite ?Ho, ?Hw, ?Hf, ?Hr; done || lia. Qed.

Lemma discards_cases m : inv m -> discards (ss m) = false -> reset (ss m) = true -> 0 < reliableOffset (ss m).
Proof.
  intros Hi Hd Hr. unfold discards, reset in *. rewrite Hr in Hd. cbn in Hd. apply Z.eqb_neq in Hd.
  pose proof (sh_size _ _ (iv_shape _ Hi)). unfold reliableOffset in *. destruct (negb _); lia.
Qed.

(** None of the RESET_STREAM frames in flight counts for a stream that is
    given up now. *)
Lemma no_current m s' : inv m -> discards (ss m) = false -> reliableOffset s' = 0 -> List.filter (current s') (resets m) = [].
Proof.
  intros Hi Hd Hr. destruct (iv_counting _ Hi) as [_ Gz _ Go]. destruct (reset (ss m)) eqn:Er.
  - pose proof (discards_cases m Hi Hd Er) as Hpos. specialize (Go Hpos). clear Gz. induction Go as [|f l Hf _ IH]; [done|]. cbn.
    unfold current at 1. unfold current in Hf. apply Z.eqb_eq in Hf. rewrite Hr, (proj2 (Z.eqb_neq _ 0)) by lia. exact IH.
  - destruct (Gz eq_refl) as [-> _]. done.
Qed.

(** The stream after it gave up: nothing is left to send but the reset. *)
Record gave_up (s s' : SendStream) : Prop := {
  gu_id : streamID s' = streamID s;
  gu_offset : writeOffset s' = writeOffset s;
  gu_data : dataForWriting s' = dataForWriting s;
  gu_fin : finSent s' = finSent s /\ finishedWriting s' = finishedWriting s;
  gu_up : shutdownErr s' = shutdownErr s;
  gu_flow : flowController s' = flowController s;
  gu_completed : completed s' = completed s;
  gu_next : nextFrame s' = None;
  gu_queue : retransmissionQueue s' = [];
  gu_num : numOutstandingFrames s' = 0;
  gu_reset : reset s' = true;
  gu_reliable : reliableOffset s' = 0 /\ 0 <= reliableSize s';
  gu_chan : writeChan s' = true;
  gu_queued : exists f, queuedResetStreamFrame s' = Some f /\ ReceiveStream.ReliableSize f = 0;
}.

Lemma gave_up_inv m s' : inv m -> discards (ss m) = false -> gave_up (ss m) s' ->
  inv (with_stream m s' [onHasStreamControlFrame]).
Proof.
  intros Hi Hd [Ui Uo Ud [Uf Ufw] Uu Ufl Uc Un Uq Unum Ur [Url Urs] Uch (q & Uqd & Uqr)].
  pose proof Hi as [Ish [Ck Cw Ci Co Cr Cs Cu Cq] [Gn Gz Gq Go] Icv [Pf Pc Pd] [Sa Sc Sw]].
  pose proof (shape_offset _ _ Ish) as [[Ho _] _].
  assert (Hrp : present (resetErr s') = true) by exact Ur.
  split.
  - destruct Ish as [S1 S2 S3 S4 S5 S6 S7 S8 S9 S10 S11 S12].
    split; cbn; rewrite ?Ui, ?Uo, ?Ud, ?Uf, ?Ufw, ?Uu, ?Ufl, ?Un, ?Uq, ?Hrp, ?Url; try done.
    + intros E. destruct (S8 E) as (? & ? & _). done.
    + intros _. unfold next_data. rewrite Un. change (len []) with 0. lia.
  - set (m' := with_stream _ _ _).
    assert (Hk : kept m' = kept m) by (unfold kept, pending; cbn; by rewrite Ud).
    assert (Hg : forall l, Forall (good m) l -> Forall (good m') l).
    { intros l Hl. eapply Forall_impl; [exact Hl|]. intros f. by apply good_reset. }
    split; cbn; rewrite ?Hk, ?Uo, ?Uq, ?Ur; try done; try (by apply Hg).
    + unfold pending. rewrite Ud. exact Cw.
    + intros _ _. rewrite Url. split; [lia|]. by rewrite !sub_0 by lia.
  - assert (Hdis : discards s' = true) by (unfold discards; rewrite Hrp, Url; done).
    split; cbn; rewrite ?Unum, ?Ur, ?Uqd, ?Url; try done.
    + unfold counted. cbn. by rewrite Hdis, no_current.
    + intros f [= <-]. unfold current. by rewrite Url, Uqr.
  - assert (Hrq : required s' <= 0) by (unfold required; rewrite Ur, Url; lia).
    split; cbn; [|by rewrite Ur]. intros _ x Hx. lia.
  - split; cbn; [| |by rewrite Ur].
    + intros _ Hfin. apply finished_facts in Hfin as (_ & _ & Hfin & _). congruence.
    + rewrite Uc, <- Pc. lia.
  - split; cbn.
    + unfold to_send. rewrite Uq, Hrp, Uo, Url. change (0 <? len []) with false. cbn [orb].
      rewrite (proj2 (Z.ltb_ge _ 0)) by lia. by rewrite andb_false_r.
    + intros _. by rewrite orb_true_r.
    + rewrite Uch. done.
Qed.

Lemma stop_steps m code : inv m -> steps_to m (step m (OpStop code)).
Proof.
  intros Hi. cbn [step]. unfold handleStopSendingFrame. pose proof (iv_shape _ Hi) as Hs.
  assert (Hsame : steps_to m (Ret (with_stream m (ss m) []))).
  { eexists. split; [reflexivity|]. split; [|unfold in_flight; cbn; lia].
    apply (quiet_inv m); cbn; rewrite ?orb_false_r; try done; try apply Hi.
    destruct (iv_completing _ Hi). apply (completing_plain m); cbn; try done; auto. }
  destruct (present (shutdownErr (ss m))); [exact Hsame|].
  fold (discards (ss m)). destruct (discards (ss m)) eqn:Ed; [exact Hsame|].
  rewrite (returnFramesToPool_ok _ (streamID (ss m)) (writeOffset (ss m))) by apply Hs. cbn [obind].
  change (resetErr (with_data (with_out (with_out (with_reset (ss m) 0 (resetErr (ss m)) (queuedResetStreamFrame (ss m))) 0
    (retransmissionQueue (ss m))) 0 []) (dataForWriting (ss m)) None)) with (resetErr (ss m)).
  destruct (resetErr (ss m)) as [err|] eqn:Er; cbn [obind]; (eexists; split; [reflexivity|]);
    (split; [apply gave_up_inv; try done|unfold in_flight; cbn; lia]);
    split; cbn; try done; unfold reset, reliableOffset; cbn; rewrite ?Er; try done; try (by destruct (supportsResetStreamAt (ss m)));
    by eexists.
Qed.

(** [CancelWrite] of a stream with a reliable size: what is beyond it is
    dropped. *)
Definition cut_back (s : SendStream) (err : StreamError) (reliable : Z) : SendStream :=
  let s1 := ctxCancel (with_reset (flag_cancellation s) (reliableSize s) (Some err)
              (Some {| ReceiveStream.resetCode := ReceiveStream.ErrorCode err; ReceiveStream.FinalSize := Z.max (writeOffset s) reliable;
                      ReceiveStream.ReliableSize := reliable |}))
              (StreamCause err) in
  signalWrite (with_out (with_data s1 (dataForWriting s) (nextFrame s ≫= fun f => front_of f reliable)) (numOutstandingFrames s)
                 (omap (fun f => front_of f reliable) (retransmissionQueue s))).

Lemma CancelWrite_spec m code : inv m -> up (ss m) -> reset (ss m) = false ->
  exists err s', CancelWrite (ss m) code = Ret (s', [onHasStreamControlFrame]) /\
    if reliableOffset (ss m) =? 0 then gave_up (ss m) s' else s' = cut_back (ss m) err (reliableOffset (ss m)).
Proof.
  intros Hi Hu Hr. pose proof (iv_shape _ Hi) as Hs. unfold up, reset in *. unfold CancelWrite. rewrite Hu. cbn [present].
  change (present (resetErr (flag_cancellation (ss m)))) with (present (resetErr (ss m))). rewrite Hr.
  pose proof (shape_offset _ _ Hs) as [Ho1 Ho2].
  change (reliableOffset (ctxCancel (with_reset (flag_cancellation (ss m)) _ _ _) _)) with (reliableOffset (ss m)).
  set (err := {| ReceiveStream.errStreamID := _ |}). exists err. set (s1 := ctxCancel _ _).
  destruct (Z.eqb_spec (reliableOffset (ss m)) 0) as [E|E].
  - rewrite (returnFramesToPool_ok _ (streamID (ss m)) (writeOffset (ss m))) by apply Hs. cbn [obind].
    rewrite E, (proj2 (Z.ltb_ge 0 0)) by lia. cbn [obind]. eexists. split; [reflexivity|].
    split; try done. + split; [exact E|apply Hs]. + eexists. split; [reflexivity|done].
  - assert (Hpos : 0 < reliableOffset (ss m)).
    { pose proof (sh_size _ _ Hs). unfold reliableOffset in *. destruct (negb _); lia. }
    cbn [obind]. rewrite (proj2 (Z.ltb_lt 0 _)) by done.
    change (nextFrame (with_reset s1 _ _ _)) with (nextFrame (ss m)).
    assert (Hn : (match nextFrame (ss m) with Some f => truncate f (reliableOffset (ss m)) | None => Ret None end)
      = Ret (nextFrame (ss m) ≫= fun f => front_of f (reliableOffset (ss m)))).
    { destruct (nextFrame (ss m)) as [f|] eqn:En; [|done]. cbn.
      destruct (sh_next _ _ Hs f En) as [B1 B2 B3 B4 B5 B6].
      apply (truncate_ok f (streamID (ss m)) (writeOffset (ss m) + len (Data f))); [|bounds; lia]. split; done || lia. }
    rewrite Hn. cbn [obind].
    match goal with |- context [truncate_all ?l _] => change l with (retransmissionQueue (ss m)) end.
    rewrite (truncate_all_ok _ (streamID (ss m)) (writeOffset (ss m))) by (try apply Hs; bounds; lia). cbn [obind].
    by eexists.
Qed.

Lemma omap_good m m' r l :
  reset (ss m') = true -> (forall f, good m f -> good m' f) -> Forall (good m) l ->
  Forall (good m') (omap (fun f => front_of f r) l).
Proof.
  intros Hr Hg Hl. apply Forall_forall. intros g (f & Hf & Hfg)%list_elem_of_omap. rewrite Forall_forall in Hl.
  apply (good_front m' f r); auto.
Qed.

Lemma sub_take (l : bytes) n : sub l 0 n = take (Z.to_nat n) l.
Proof. unfold sub. by rewrite drop_0. Qed.

(** The bytes that wait in [nextFrame] *)
Lemma open_next m : inv m -> up (ss m) -> reset (ss m) = false ->
  kept m = writeOffset (ss m) + len (next_data (ss m)) /\
  next_data (ss m) = sub (written m) (writeOffset (ss m)) (len (next_data (ss m))) /\
  len (sub (written m) 0 (writeOffset (ss m))) = writeOffset (ss m) /\
  len (written m) = writeOffset (ss m) + len (next_data (ss m)) + len (pending (ss m)).
Proof.
  intros Hi Hu Hr. pose proof (iv_content _ Hi) as [Ck Cw Ci Co _ _ _ _]. specialize (Co Hu Hr). specialize (Ci Hu Hr).
  pose proof (shape_offset _ _ (iv_shape _ Hi)) as [[Ho _] _].
  assert (Hlen : len (written m) = len (accepted m) + match writer m with Some (p, _) => len p | None => 0 end).
  { unfold written. rewrite len_app. by destruct (writer m) as [[p w]|]. }
  assert (Hk : kept m = len (written m) - len (pending (ss m))).
  { unfold kept. rewrite Hlen. destruct (writer m) as [[p w]|]; [lia|]. unfold pending. rewrite Ci by done. change (len (default [] None)) with 0. lia. }
  assert (Hs : len (sub (written m) 0 (writeOffset (ss m))) = writeOffset (ss m)).
  { apply sub_len; [lia..|]. pose proof (len_nonneg (pending (ss m))). lia. }
  pose proof (f_equal len Co) as Hl. rewrite !len_app in Hl. split; [lia|]. split; [|split; [done|lia]].
  rewrite Co at 1. rewrite (sub_middle (sub (written m) 0 (writeOffset (ss m))) (next_data (ss m)) (pending (ss m))) by done. done.
Qed.

Lemma front_next s c r (f := nextFrame s ≫= fun f => front_of f r) : shape s c ->
  (forall g, f = Some g -> buffered (streamID s) (writeOffset s) g) /\
  match f with Some g => Data g | None => [] end = sub (next_data s) 0 (r - writeOffset s) /\
  (r <= writeOffset s + len (next_data s) -> r <= writeOffset s + len (sub (next_data s) 0 (r - writeOffset s))).
Proof.
  intros Hs. rewrite sub_take. split; [|split].
  - intros g E. subst f. destruct (nextFrame s) as [h|] eqn:En; [|done]. cbn in E. unfold front_of in E.
    destruct (sh_next _ _ Hs h En) as [B1 B2 B3 B4 B5 B6]. destruct (Z.leb_spec r (Offset h)); [done|]. injection E as <-.
    split; cbn; try done. unfold len in *. rewrite length_take. lia.
  - subst f. unfold next_data. destruct (nextFrame s) as [h|] eqn:En; cbn; [|by rewrite take_nil].
    destruct (sh_next _ _ Hs h En) as [B1 B2 B3 B4 B5 B6]. unfold front_of. rewrite B2.
    destruct (Z.leb_spec r (writeOffset s)); [|done]. by replace (Z.to_nat (r - writeOffset s)) with 0%nat by lia.
  - intros H. unfold len in *. rewrite length_take. lia.
Qed.

(** What [cut_back] leaves of a stream *)
Record cut_to (s s' : SendStream) (r : Z) : Prop := {
  cb_id : streamID s' = streamID s;
  cb_offset : writeOffset s' = writeOffset s;
  cb_data : dataForWriting s' = dataForWriting s;
  cb_fin : finSent s' = finSent s /\ finishedWriting s' = finishedWriting s;
  cb_up : shutdownErr s' = shutdownErr s;
  cb_flow : flowController s' = flowController s;
  cb_completed : completed s' = completed s;
  cb_next : nextFrame s' = nextFrame s ≫= fun f => front_of f r;
  cb_queue : retransmissionQueue s' = omap (fun f => front_of f r) (retransmissionQueue s);
  cb_num : numOutstandingFrames s' = numOutstandingFrames s;
  cb_reset : reset s' = true;
  cb_reliable : reliableOffset s' = r /\ 0 <= reliableSize s';
  cb_chan : writeChan s' = true;
  cb_queued : exists f, queuedResetStreamFrame s' = Some f /\ ReceiveStream.ReliableSize f = r;
}.

Lemma cut_back_to s err : 0 <= reliableSize s -> cut_to s (cut_back s err (reliableOffset s)) (reliableOffset s).
Proof. intros H. split; try done. by eexists. Qed.

Lemma cut_covered m s' ns r : inv m -> up (ss m) -> reset (ss m) = false -> cut_to (ss m) s' r -> covered (with_stream m s' ns).
Proof.
  intros Hi Hu Hr [_ Bo _ _ _ _ _ _ Bq _ Br [Bl _] _ _]. destruct (iv_covered _ Hi) as [Cb _]. split; cbn [ss with_stream]; [|by rewrite Br].
  intros _ x Hx. unfold required in Hx. rewrite Br, Bl, Bo in Hx.
  assert (He : Exists (covers x) (all_frames m)) by (apply Cb; [done|]; unfold required; rewrite Hr; lia).
  rewrite Exists_exists in He |- *. destruct He as (f & Hf & Hc). apply all_frames_elem in Hf as [Hf|[Hf|Hf]];
    [exists f; split; [apply all_frames_elem; by left|done]|exists f; split; [apply all_frames_elem; by right; left|done]|].
  destruct (front_covers f r x Hc) as (g & Hg & Hcg); [lia|]. exists g. split; [|done]. apply all_frames_elem. right; right.
  cbn [ss with_stream]. rewrite Bq. apply list_elem_of_omap. by exists f.
Qed.

Lemma cut_content m s' ns r : inv m -> up (ss m) -> reset (ss m) = false -> cut_to (ss m) s' r ->
  r <= writeOffset (ss m) + len (next_data (ss m)) -> content (with_stream m s' ns).
Proof.
  intros Hi Hu Hr Hcut Hle. destruct (open_next m Hi Hu Hr) as (Hk & Hnd & _ & _). pose proof (iv_shape _ Hi) as Ish.
  destruct (front_next (ss m) (cn m) r Ish) as (_ & Fd & _). destruct Hcut as [Bi Bo Bd [Bf Bfw] Bu Bfl Bc Bn Bq Bnum Br [Bl Bs] Bch _].
  pose proof (iv_content _ Hi) as [Ck Cw Ci Co Cr Cs Cu Cq]. set (m' := with_stream _ _ _).
  assert (Hg : forall f, good m f -> good m' f) by (intros f; by apply good_reset).
  assert (Hkm : kept m' = kept m) by (unfold kept, pending; cbn; by rewrite Bd).
  split; rewrite ?Hkm; cbn [ss with_stream m']; rewrite ?Bo; try done.
  - unfold pending. rewrite Bd. exact Cw.
  - by rewrite Br.
  - by rewrite Br.
  - intros _ _. rewrite Bl. split; [lia|]. change (written m') with (written m).
    assert (E : next_data s' = sub (next_data (ss m)) 0 (r - writeOffset (ss m))) by (unfold next_data at 1; rewrite Bn; exact Fd).
    rewrite E, Hnd. destruct (Z.le_gt_cases (r - writeOffset (ss m)) 0); [by rewrite !sub_0 by lia|].
    rewrite !sub_sub by (pose proof (shape_offset _ _ Ish); lia). f_equal; lia.
  - eapply Forall_impl; [exact Cs|exact Hg].
  - eapply Forall_impl; [exact Cu|exact Hg].
  - rewrite Bq. by apply (omap_good m).
Qed.

Lemma cut_inv m s' r : inv m -> up (ss m) -> reset (ss m) = false -> cut_to (ss m) s' r -> 0 < r ->
  r <= writeOffset (ss m) + len (next_data (ss m)) ->
  inv (with_stream m s' [onHasStreamControlFrame]).
Proof.
  intros Hi Hu Hr Hcut Hpos Hle. pose proof (cut_covered m s' [onHasStreamControlFrame] r Hi Hu Hr Hcut) as Hcov.
  pose proof (cut_content m s' [onHasStreamControlFrame] r Hi Hu Hr Hcut Hle) as Hcont.
  pose proof Hi as [Ish _ [Gn Gz Gq Go] _ [Pf Pc Pd] [Sa Sc Sw]]. destruct (front_next (ss m) (cn m) r Ish) as (Fb & Fd & Fr).
  destruct Hcut as [Bi Bo Bd [Bf Bfw] Bu Bfl Bc Bn Bq Bnum Br [Bl Bs] Bch (q & Bqd & Bqr)]. destruct (Gz Hr) as [Hz1 Hz2].
  assert (Hrp : present (resetErr s') = true) by exact Br.
  assert (Hdis : discards s' = false) by (unfold discards; rewrite Bl; apply andb_false_iff; right; apply Z.eqb_neq; lia).
  assert (Hdm : discards (ss m) = false) by (unfold discards, reset in *; by rewrite Hr).
  specialize (Fr Hle). split; try done.
  - destruct Ish as [S1 S2 S3 S4 S5 S6 S7 S8 S9 S10 S11 S12].
    split; cbn; rewrite ?Bi, ?Bo, ?Bd, ?Bf, ?Bfw, ?Bu, ?Bfl, ?Bn, ?Bq, ?Hrp, ?Bl, ?Hdis; try done.
    + apply Forall_forall. intros g (f & Hf & Hfg)%list_elem_of_omap. rewrite Forall_forall in S7.
      by apply (front_of_tracked f _ _ r); [apply S7|].
    + intros E. destruct (S8 E) as (? & ? & ->). done.
    + intros _. unfold next_data at 1. rewrite Bn, Fd. exact Fr.
  - split; cbn; rewrite ?Br, ?Bnum, ?Bqd, ?Hz1; try done.
    + unfold counted. cbn. rewrite Hdis, Hz1, Gn. unfold counted. by rewrite Hdm, Hz1.
    + intros f [= <-]. unfold current. rewrite Bl, Bqr. apply Z.eqb_refl.
  - split; cbn; [| |by rewrite Br].
    + intros _ Hfin. apply finished_facts in Hfin as (_ & _ & Hfin & _). congruence.
    + rewrite Bc, <- Pc. lia.
  - split; cbn; [| |by rewrite Bch].
    + intros H. rewrite Sa; [done|]. revert H. unfold to_send. unfold reset in Hr. rewrite Hr, Hrp, Bu, Bq, Bo, Bl, !andb_true_iff.
      intros [H1 H2]. split; [done|]. apply orb_true_iff in H2 as [H2|H2%Z.ltb_lt].
      * apply orb_true_iff. left. apply Z.ltb_lt in H2. apply Z.ltb_lt. destruct (retransmissionQueue (ss m)); [done|].
        rewrite len_cons. pose proof (len_nonneg l). lia.
      * unfold next_data in Hle. destruct (nextFrame (ss m)); [|change (len []) with 0 in Hle; lia].
        cbn. by rewrite !orb_true_r.
    + intros _. by rewrite orb_true_r.
Qed.

Lemma unchanged m : inv m -> inv (with_stream m (ss m) []).
Proof.
  intros Hi. apply (quiet_inv m); cbn; rewrite ?orb_false_r; try done; try apply Hi.
  destruct (iv_completing _ Hi). apply (completing_plain m); cbn; try done; auto.
Qed.

Lemma unchanged_steps m : inv m -> steps_to m (Ret (with_stream m (ss m) [])).
Proof. intros Hi. eexists. split; [reflexivity|]. split; [by apply unchanged|]. unfold in_flight. cbn. lia. Qed.

(** The application learns of a cancellation. *)
Lemma flagged_inv m ns : inv m -> reset (ss m) = true -> ns = [] ->
  let s := flag_cancellation (ss m) in
  inv (with_stream m (set_completed s (completed s || finished s)) (ns ++ completion (negb (completed s) && finished s))).
Proof.
  intros Hi Hr -> s. apply settled_inv; try done.
  - apply flags_shape; try done; [apply Hi|]. intros H. by apply (sh_finished _ _ (iv_shape _ Hi)).
  - intros H. by apply (sh_finished _ _ (iv_shape _ Hi)).
  - intros H. rewrite (sd_active _ (iv_scheduled _ Hi)); [done|exact H].
Qed.

Lemma cancel_steps m code : inv m -> steps_to m (step m (OpCancel code)).
Proof.
  intros Hi. cbn [step]. destruct (shutdownErr (ss m)) eqn:Eu.
  { unfold CancelWrite. rewrite Eu. by apply unchanged_steps. }
  destruct (reset (ss m)) eqn:Er.
  - unfold CancelWrite. rewrite Eu. cbn [present]. change (present (resetErr (flag_cancellation (ss m)))) with (reset (ss m)). rewrite Er.
    rewrite isNewlyCompleted_eq. eexists. split; [reflexivity|]. split; [by apply (flagged_inv m [])|]. unfold in_flight. cbn. lia.
  - destruct (CancelWrite_spec m code Hi Eu Er) as (err & s' & -> & Hs'). cbn [obind]. eexists. split; [reflexivity|].
    split; [|unfold in_flight; cbn; lia]. destruct (Z.eqb_spec (reliableOffset (ss m)) 0) as [E|E].
    + apply gave_up_inv; try done. unfold discards, reset in *. by rewrite Er.
    + pose proof (iv_shape _ Hi) as Hs. pose proof (sh_size _ _ Hs) as Hsz. pose proof (sh_reliable _ _ Hs Eu) as Hrel.
      unfold reset in Er. rewrite Er in Hrel.
      assert (Hro : 0 < reliableOffset (ss m) <= reliableSize (ss m)) by (unfold reliableOffset in *; destruct (negb _); lia).
      apply (cut_inv m s' (reliableOffset (ss m))); try done; try lia. rewrite Hs'. by apply cut_back_to.
Qed.

Lemma shutdown_steps m err : inv m -> steps_to m (step m (OpShutdown err)).
Proof.
  intros Hi. cbn [step]. unfold closeForShutdown. pose proof Hi as [Ish [Ck Cw Ci Co Cr Cs Cu Cq] [Gn Gz Gq Go] [Cb Cf] [Pf Pc Pd] [Sa Sc Sw]].
  destruct (negb (present (shutdownErr (ss m))) && negb (finishedWriting (ss m))) eqn:E.
  - apply andb_true_iff in E as [E1 E2%negb_true_iff].
    rewrite (returnFramesToPool_ok _ (streamID (ss m)) (writeOffset (ss m))) by apply Ish. cbn [obind].
    eexists. split; [reflexivity|]. split; [|unfold in_flight; cbn; lia]. set (s' := signalWrite _). set (m' := with_stream _ _ _).
    pose proof Ish as [S1 S2 S3 S4 S5 S6 S7 S8 S9 S10 S11 S12].
    assert (Hfin : finSent (ss m) = false) by (destruct (finSent (ss m)); [destruct (S8 eq_refl); congruence|done]).
    assert (Hdown : shutdownErr s' = Some err) by done.
    assert (Hup : ~ up s') by (unfold up; by rewrite Hdown).
    assert (Hg : forall l, Forall (good m) l -> Forall (good m') l).
    { intros l Hl. eapply Forall_impl; [exact Hl|]. intros f. by apply good_same. }
    split; [split|split|split|split|split|split]; try done; try (by apply Hg); cbn [ss with_stream m']; rewrite ?Hdown; try done.
    + intros H. change (finSent (ss m) = true) in H. congruence.
    + intros H. change (finishedWriting (ss m) = true) in H. congruence.
    + intros _ H. change (finSent (ss m) = true) in H. congruence.
    + change (completions m + 0 = if completed (ss m) then 1 else 0)%nat. lia.
    + intros H Hr. destruct (Pd H Hr). congruence.
    + intros H. cbn. by rewrite Sc.
  - cbn [obind]. eexists. split; [reflexivity|]. split; [|unfold in_flight; cbn; lia].
    apply (quiet_inv m); cbn; try done.
    + by apply signal_shape, signal_shape.
    + apply (completing_plain m); cbn; try done; auto.
    + intros H. by rewrite Sa.
    + intros H. by rewrite H.
Qed.
