(* ===== verification/SendStreamData.v ===== *)
(** * Send streams: the way of the data

    What is written goes to the frame that waits, from there and from the
    writer's slice to new frames, and lost frames go out again, whole or
    split.  Each of these keeps the invariant. *)
From S2P Require Import Prelude Varint Protocol AckFrame AckFrameProps Frames FramesProps FlowControl FlowControlFacts.
From S2P Require Import ReceiveStream SendStream SendStreamFacts SendStreamMachine SendStreamFates.
Import SendStream.

Local Open Scope Z_scope.
Local Open Scope go_scope.

(** ** Writing *)

(** The data of a stream moves between the writer and [nextFrame]; what was
    written stays as far as it was sent. *)
Lemma writer_content m m' s' :
  inv m -> ss m' = s' -> alike (with_data (ss m) (dataForWriting s') (nextFrame s')) s' ->
  outstanding m' = outstanding m -> sent m' = sent m ->
  sub (written m') 0 (writeOffset (ss m)) = sub (written m) 0 (writeOffset (ss m)) ->
  writeOffset (ss m) <= kept m' ->
  (forall p w, writer m' = Some (p, w) -> 0 < len p <= max_total /\ len (pending s') <= len p) ->
  (up (ss m) -> reset (ss m) = false -> (writer m' = None -> dataForWriting s' = None) /\
     written m' = sub (written m) 0 (writeOffset (ss m)) ++ next_data s' ++ pending s') ->
  (up (ss m) -> reset (ss m) = true -> reliableOffset (ss m) <= kept m' /\
     sub (next_data s') 0 (reliableOffset (ss m) - writeOffset (ss m))
     = sub (written m') (writeOffset (ss m)) (reliableOffset (ss m) - writeOffset (ss m))) ->
  content m'.
Proof.
  intros Hi Hs' [Ai Ao _ _ Af Aq Ar Au Al] Ho Hst Hw Hk Hwr Hopen Hres. cbn in Ai, Ao, Af, Aq, Ar, Au, Al.
  pose proof (iv_content _ Hi) as [Ck Cw Ci Co Cr Cs Cu Cq]. subst s'.
  assert (Hr : reset (ss m') = reset (ss m)) by (unfold reset; by rewrite Ar).
  assert (Hg : forall l, Forall (good m) l -> Forall (good m') l).
  { intros l Hl. eapply Forall_impl; [exact Hl|]. intros f. apply good_mono; rewrite ?Ao, ?Af, ?Hr; done || lia. }
  split; unfold up; rewrite ?Hr, ?Ao, ?Au, ?Ho, ?Hst, ?Aq; try done; try (by apply Hg).
  - intros Hu Hrs. by apply Hopen.
  - intros Hu Hrs. rewrite Hw. by apply Hopen.
  - intros Hu Hrs. rewrite Al by done. by apply Hres.
Qed.

Lemma covered_data m s' ns w acc : inv m -> alike (with_data (ss m) (dataForWriting s') (nextFrame s')) s' ->
  covered (with_writer (with_stream m s' ns) w acc).
Proof.
  intros Hi [Ai Ao _ _ Af Aq Ar Au Al]. cbn in Ai, Ao, Af, Aq, Ar, Au, Al. destruct (iv_covered _ Hi) as [Cb Cf].
  assert (Hr : reset s' = reset (ss m)) by (unfold reset; by rewrite Ar).
  assert (Hrq : required s' = required (ss m)) by (unfold required; rewrite Hr, Ao; destruct (reset (ss m)) eqn:E; [by rewrite Al|done]).
  assert (Ha : all_frames (with_writer (with_stream m s' ns) w acc) = all_frames m) by (unfold all_frames; cbn; by rewrite Aq).
  split; unfold up; rewrite Ha; cbn; rewrite ?Hrq, ?Hr, ?Af, ?Au; done.
Qed.

Lemma counting_data m s' ns w acc : inv m -> alike (with_data (ss m) (dataForWriting s') (nextFrame s')) s' ->
  numOutstandingFrames s' = numOutstandingFrames (ss m) -> queuedResetStreamFrame s' = queuedResetStreamFrame (ss m) ->
  counting (with_writer (with_stream m s' ns) w acc).
Proof.
  intros Hi Ha Hn Hq.
  pose proof (counting_alike (with_stream m (with_data (ss m) (dataForWriting s') (nextFrame s')) ns) (with_writer (with_stream m s' ns) w acc)) as Hc.
  apply Hc; try done. pose proof (iv_counting _ Hi) as []. by split.
Qed.

Definition given (m : machine) (p : bytes) (w : bool) : machine :=
  with_writer (with_stream m (with_data (ss m) (Some p) (nextFrame (ss m))) [onHasStreamData]) (Some (p, w)) (accepted m).

Lemma given_inv m p : inv m -> writer m = None -> up (ss m) -> reset (ss m) = false -> finishedWriting (ss m) = false ->
  0 < len p <= max_total -> inv (given m p true).
Proof.
  intros Hi Hw Hu Hr Hf Hp. destruct (open_next m Hi Hu Hr) as (Hk & Hnd & Hso & Hlw). unfold given.
  pose proof Hi as [Ish [Ck Cw Ci Co Cr Cs Cu Cq] Icn Icv [Pf Pc Pd] [Sa Sc Sw]].
  specialize (Ci Hu Hr Hw). specialize (Co Hu Hr). pose proof (shape_offset _ _ Ish) as [[Ho _] _].
  assert (Hpe : pending (ss m) = []) by (unfold pending; by rewrite Ci).
  assert (Hwm : written m = accepted m) by (unfold written; rewrite Hw; apply app_nil_r).
  assert (Hkm : kept m = len (accepted m)) by (unfold kept; rewrite Hw; lia).
  pose proof Ish as [S1 S2 S3 S4 S5 S6 S7 S8 S9 S10 S11 S12].
  assert (Hfin : finSent (ss m) = false) by (destruct (finSent (ss m)); [destruct (S8 eq_refl); congruence|done]).
  assert (Hsub : sub (accepted m ++ p) 0 (writeOffset (ss m)) = sub (written m) 0 (writeOffset (ss m)))
    by (rewrite Hwm, sub_app_l by lia; done).
  assert (Hal : alike (with_data (ss m) (Some p) (nextFrame (ss m))) (with_data (ss m) (Some p) (nextFrame (ss m)))) by done.
  set (m' := with_writer _ _ _). split.
  - split; try done; cbn; [by intros d [= <-]|by rewrite Hfin].
  - apply (writer_content m m' (ss m')); try done; change (written m') with (accepted m ++ p).
    + unfold kept. cbn. unfold pending. cbn. lia.
    + intros q w [= <- <-]. unfold pending. cbn. lia.
    + intros _ _. split; [done|]. cbn [ss m' with_writer with_stream]. unfold pending. cbn.
      rewrite <- Hwm. rewrite Co at 1. rewrite Hpe, app_nil_r, <- app_assoc. done.
    + congruence.
  - by apply counting_data.
  - by apply covered_data.
  - apply (completing_plain m); cbn; try done; auto.
  - split; cbn; [by rewrite orb_true_r|by rewrite orb_false_r|done].
Qed.

Lemma sub_app_drop (l : bytes) n : 0 <= n -> sub l 0 n ++ drop (Z.to_nat n) l = l.
Proof. intros. rewrite sub_take. apply take_drop. Qed.

(** All the data that is left goes to [nextFrame], and [Write] returns. *)
Lemma buffer_inv m p w f : inv m -> writer m = Some (p, w) -> 0 < data_len (ss m) ->
  buffered (streamID (ss m)) (writeOffset (ss m)) f -> Data f = next_data (ss m) ++ pending (ss m) ->
  inv (with_writer (with_stream m (with_data (ss m) None (Some f)) []) None (accepted m ++ p)).
Proof.
  intros Hi Hw Hd Hf Hdata. rewrite data_len_pending in Hd.
  pose proof Hi as [Ish [Ck Cw Ci Co Cr Cs Cu Cq] Icn Icv [Pf Pc Pd] [Sa Sc Sw]]. destruct (Cw p w Hw) as [Hp1 Hp2].
  pose proof Ish as [S1 S2 S3 S4 S5 S6 S7 S8 S9 S10 S11 S12].
  assert (Hne : exists d, dataForWriting (ss m) = Some d).
  { unfold pending in Hd. destruct (dataForWriting (ss m)) as [d|]; [by exists d|]. change (len (default [] None)) with 0 in Hd. lia. }
  destruct Hne as [d Ed].
  assert (Hfin : finSent (ss m) = false) by (destruct (finSent (ss m)); [destruct (S8 eq_refl) as (_ & ? & _); congruence|done]).
  assert (Hwm : written m = accepted m ++ p) by (unfold written; by rewrite Hw).
  assert (Hkm : kept m = len (accepted m) + (len p - len (pending (ss m)))) by (unfold kept; by rewrite Hw).
  set (s' := with_data (ss m) None (Some f)). set (m' := with_writer _ _ _).
  assert (Hwm' : written m' = written m) by (rewrite Hwm; unfold written; cbn; apply app_nil_r).
  assert (Hk' : kept m' = len (accepted m) + len p) by (unfold kept; cbn; rewrite len_app; lia).
  assert (Hn' : next_data s' = next_data (ss m) ++ pending (ss m)) by (rewrite <- Hdata; done).
  assert (Hln : len (next_data s') = len (next_data (ss m)) + len (pending (ss m))) by (by rewrite Hn', len_app).
  assert (Hal : alike (with_data (ss m) (dataForWriting s') (nextFrame s')) s') by done.
  split.
  - split; try done; cbn [ss m' with_writer with_stream].
    + by intros g [= <-].
    + intros H. change (finSent (ss m) = true) in H. congruence.
    + intros Hu. specialize (S12 Hu). rewrite Hln. change (resetErr s') with (resetErr (ss m)).
      change (reliableOffset s') with (reliableOffset (ss m)). change (reliableSize s') with (reliableSize (ss m)).
      change (writeOffset s') with (writeOffset (ss m)). lia.
  - apply (writer_content m m' s'); try done; rewrite ?Hwm', ?Hk'; try done; try lia.
    + intros Hu Hr. split; [done|]. rewrite Hn'. change (pending s') with ([] : bytes). rewrite app_nil_r. by apply Co.
    + intros Hu Hr. destruct (Cr Hu Hr) as [R1 R2]. split; [lia|]. rewrite <- R2. specialize (S12 Hu). unfold reset in Hr. rewrite Hr in S12.
      rewrite Hn'. destruct (Z.le_gt_cases (reliableOffset (ss m) - writeOffset (ss m)) 0); [by rewrite !sub_0 by lia|].
      apply sub_app_l; lia.
  - by apply counting_data.
  - by apply covered_data.
  - apply (completing_plain m); try done; try (cbn; lia).
    intros Hfi. exfalso. change (finished s' = true) in Hfi. unfold finished in Hfi. rewrite (proj2 (Z.ltb_lt 0 _)) in Hfi; [done|].
    pose proof (len_nonneg (next_data (ss m))). lia.
  - split; cbn; rewrite ?orb_false_r; [|done|done]. intros H. apply Sa. revert H. unfold to_send. cbn. rewrite Ed. cbn.
    destruct (present (resetErr (ss m))); [done|]. done.
Qed.

(** [Write] returns, and drops the data that is left or leaves it where it
    does not matter. *)
Lemma return_inv m p w data : inv m -> writer m = Some (p, w) ->
  data = None \/ data = dataForWriting (ss m) ->
  (up (ss m) -> reset (ss m) = false -> data = None) ->
  inv (with_writer (with_stream m (with_data (ss m) data (nextFrame (ss m))) []) None
         (accepted m ++ take (Z.to_nat (len p - len (pending (ss m)))) p)).
Proof.
  intros Hi Hw Hdata Hnone.
  pose proof Hi as [Ish [Ck Cw Ci Co Cr Cs Cu Cq] Icn Icv [Pf Pc Pd] [Sa Sc Sw]]. destruct (Cw p w Hw) as [Hp1 Hp2].
  pose proof Ish as [S1 S2 S3 S4 S5 S6 S7 S8 S9 S10 S11 S12]. pose proof (shape_offset _ _ Ish) as [[Ho _] _].
  assert (Hwm : written m = accepted m ++ p) by (unfold written; by rewrite Hw).
  assert (Hkm : kept m = len (accepted m) + (len p - len (pending (ss m)))) by (unfold kept; by rewrite Hw).
  set (s' := with_data (ss m) data (nextFrame (ss m))). set (m' := with_writer _ _ _).
  pose proof (len_nonneg (pending (ss m))) as Hpn. pose proof (len_nonneg (accepted m)) as Han.
  assert (Hwm' : written m' = sub (written m) 0 (kept m)).
  { unfold written at 1. cbn. rewrite app_nil_r, Hwm, Hkm, sub_take. unfold len. rewrite Z2Nat.inj_add by (unfold len in *; lia).
    rewrite Nat2Z.id, take_app_add. done. }
  assert (Hk' : kept m' = kept m).
  { unfold kept at 1. cbn. rewrite len_app, Hkm. unfold len at 2. rewrite length_take. unfold len in *. lia. }
  assert (Hsub : forall o n, 0 <= o -> 0 <= n -> o + n <= kept m -> sub (written m') o n = sub (written m) o n).
  { intros o n H1 H2 H3. rewrite Hwm', sub_sub by lia. done. }
  assert (Hal : alike (with_data (ss m) (dataForWriting s') (nextFrame s')) s') by done.
  split.
  - split; try done; cbn [ss m' with_writer with_stream].
    + intros d E. destruct Hdata as [->| ->]; [done|by apply S6].
    + intros H. destruct (S8 H) as (? & Hn & ?). split; [done|]. split; [|done]. destruct Hdata as [->| ->]; done.
  - apply (writer_content m m' s'); try done; rewrite ?Hk'; try done.
    + apply Hsub; lia.
    + intros Hu Hr. split; [intros _; exact (Hnone Hu Hr)|].
      assert (Hps : pending s' = []) by (unfold pending; cbn; by rewrite Hnone). destruct (open_next m Hi Hu Hr) as (K1 & K2 & K3 & K4).
      specialize (Co Hu Hr). rewrite Hwm', Hps. rewrite Co at 1. rewrite K1.
      change (next_data s') with (next_data (ss m)). rewrite app_nil_r. rewrite app_assoc.
      assert (E : len (sub (written m) 0 (writeOffset (ss m)) ++ next_data (ss m)) = writeOffset (ss m) + len (next_data (ss m)))
        by (rewrite len_app; lia).
      rewrite sub_take, <- E. unfold len. rewrite Nat2Z.id. apply take_app_length.
    + intros Hu Hr. destruct (Cr Hu Hr) as [R1 R2]. split; [done|]. change (next_data s') with (next_data (ss m)). rewrite R2.
      destruct (Z.le_gt_cases (reliableOffset (ss m) - writeOffset (ss m)) 0); [by rewrite !sub_0 by lia|].
      symmetry. apply Hsub; lia.
  - by apply counting_data.
  - by apply covered_data.
  - apply (completing_plain m); try done; try (cbn; lia); cbn; auto.
  - split; cbn; rewrite ?orb_false_r; [|done|done]. intros H. apply Sa. revert H. unfold to_send. cbn.
    destruct Hdata as [->| ->]; [|done]. destruct (dataForWriting (ss m)); [|done]. cbn.
    destruct (present (resetErr (ss m))), (present (nextFrame (ss m))); try done. cbn. rewrite !andb_true_iff, !orb_true_iff. intros [? _]. auto.
Qed.

Lemma block_inv m p w d : inv m -> writer m = Some (p, w) -> up (ss m) -> reset (ss m) = false ->
  dataForWriting (ss m) = Some d -> (nextFrame (ss m) = None -> MaxPacketBufferSize < len d) ->
  inv (with_writer m (Some (p, false)) (accepted m)).
Proof.
  intros Hi Hw Hu Hr Hd Hn. pose proof Hi as [Ish Ico Icn Icv [Pf Pc Pd] [Sa Sc Sw]].
  split; try done.
  - apply (content_alike m); try done. cbn. by rewrite Hw.
  - pose proof Icn as []. by split.
  - by apply (covered_alike m).
  - split; cbn; try done. intros q _ _. split_and!; try done. by exists d.
Qed.

Lemma with_writer_same m : with_writer m (writer m) (accepted m) = m.
Proof. by destruct m. Qed.

Lemma with_data_eta s : with_data s (dataForWriting s) (nextFrame s) = s.
Proof. by destruct s. Qed.

(** A call that returns an error before it takes its data *)
Lemma nothing_written m s ns ns' w n p : inv (with_stream m s ns) -> ns' = ns -> writer m = None -> n <= 0 -> w = None ->
  inv (with_writer (with_stream m s ns') w (accepted m ++ take (Z.to_nat n) p)).
Proof.
  intros Hi -> Hw Hn ->. replace (Z.to_nat n) with 0%nat by lia. rewrite take_0, app_nil_r.
  rewrite <- (with_writer_same (with_stream m s ns)) in Hi. cbn in Hi. rewrite Hw in Hi. exact Hi.
Qed.

(** A round of the loop after the stream accepted the data *)
Lemma given_round m p now : inv m -> writer m = None -> up (ss m) -> reset (ss m) = false -> finishedWriting (ss m) = false ->
  0 < len p <= max_total ->
  exists x, write_round (with_data (ss m) (Some p) (nextFrame (ss m))) (len p) now false = Ret x /\ inv (finish_write m p x).
Proof.
  intros Hi Hw Hu Hr Hf Hp. pose proof (given_inv m p Hi Hw Hu Hr Hf Hp) as Hg. set (s1 := with_data _ _ _).
  assert (Hs1 : ss (given m p true) = s1) by done. pose proof (iv_shape _ Hg) as Hsh. rewrite Hs1 in Hsh.
  assert (Hdl : data_len s1 = len p) by done. assert (Hact : active (given m p true) = true) by (cbn; apply orb_true_r).
  assert (Hcm : completions (given m p true) = completions m) by (cbn; lia).
  assert (Heq : forall s w acc, with_writer (with_stream (given m p true) s []) w acc = with_writer (with_stream m s [onHasStreamData]) w acc).
  { intros. unfold with_writer, with_stream. cbn. f_equal; [by destruct (active m)|by destruct (control m)|lia]. }
  unfold write_round. destruct (canBufferStreamFrame s1) eqn:Ec; cbn [andb].
  - rewrite Hdl, (proj2 (Z.ltb_lt 0 _)) by lia. destruct (buffer_data_spec s1 _ Hsh Ec) as (f & -> & Hb & Hdf); [lia|]. cbn [obind].
    unfold write_end. rewrite Z.eqb_refl. eexists. split; [reflexivity|]. cbn [finish_write write_notices completion app].
    unfold len at 1. rewrite Nat2Z.id, firstn_all. cbn [accepted with_stream]. rewrite <- Heq.
    apply (buffer_inv (given m p true) p true f Hg); try done. rewrite Hs1. lia.
  - destruct (expired s1 now).
    + eexists. split; [reflexivity|]. cbn [finish_write write_notices completion app]. rewrite Hdl.
      apply (nothing_written m _ []); try done; [|lia].
      change (with_data s1 None (nextFrame s1)) with (with_data (ss m) None (nextFrame (ss m))).
      assert (Hd : dataForWriting (ss m) = None) by (by apply (ct_idle _ (iv_content _ Hi))).
      rewrite <- Hd, with_data_eta. by apply unchanged.
    + unfold up, reset in *. change (shutdownErr s1) with (shutdownErr (ss m)). change (resetErr s1) with (resetErr (ss m)).
      rewrite Hu, Hr. cbn [present negb orb]. eexists. split; [reflexivity|]. cbn [finish_write write_notices app].
      pose proof (block_inv (given m p true) p true p Hg eq_refl Hu Hr eq_refl) as Hbl.
      assert (E : with_writer (given m p true) (Some (p, false)) (accepted (given m p true))
        = with_writer (with_stream m s1 [onHasStreamData]) (Some (p, false)) (accepted (with_stream m s1 [onHasStreamData]))) by done.
      rewrite <- E. apply Hbl. intros Hn. rewrite (canBuffer_spec s1 _ Hsh) in Ec. apply Z.leb_gt in Ec.
      unfold next_data in Ec. change (nextFrame (ss (given m p true))) with (nextFrame s1) in Hn. rewrite Hn in Ec.
      change (pending s1) with p in Ec. change (len []) with 0 in Ec. lia.
Qed.

Lemma write_steps m p clock : inv m -> careful m (OpWrite p clock) -> steps_to m (step m (OpWrite p clock)).
Proof.
  intros Hi Hp. cbn [step careful] in *. destruct (writer m) eqn:Hw; [by apply steps_same|]. unfold write.
  assert (Hret : forall s ns n err, inv (with_stream m s (ns ++ completion err)) -> n <= 0 -> ns = [] -> forall e,
    steps_to m (let! x := Ret (s, ns, Returned err n e) in Ret (finish_write m p x))).
  { intros s ns n err Hin Hn -> e. eexists. split; [reflexivity|]. split; [|unfold in_flight; cbn; lia]. cbn [finish_write write_notices].
    by apply (nothing_written m s ([] ++ completion err)). }
  assert (Hun : forall n e, n <= 0 -> steps_to m (let! x := Ret (ss m, [], Returned false n e) in Ret (finish_write m p x))).
  { intros n e Hn. apply Hret; try done. by apply unchanged. }
  destruct (resetErr (ss m)) as [e|] eqn:Er.
  { rewrite isNewlyCompleted_eq. apply Hret; try done. apply (flagged_inv m []); try done. unfold reset. by rewrite Er. }
  destruct (shutdownErr (ss m)) as [e|] eqn:Eu; [by apply Hun|].
  destruct (finishedWriting (ss m)) eqn:Ef; [by apply Hun|].
  destruct (expired (ss m) (clock 0%nat)); [by apply Hun|].
  destruct (Z.eqb_spec (len p) 0) as [E0|E0]; [by apply Hun|].
  destruct (given_round m p (clock 1%nat) Hi Hw Eu) as (x & -> & Hx); [unfold reset; by rewrite Er|done|pose proof (len_nonneg p); lia|].
  cbn [obind]. eexists. split; [reflexivity|]. split; [done|].
  destruct x as [[s ns] [? ? ?|]]; unfold in_flight; cbn; lia.
Qed.

Lemma resume_steps m now : inv m -> steps_to m (step m (OpResume now)).
Proof.
  intros Hi. cbn [step]. destruct (writer m) as [[p [|]]|] eqn:Hw; [|by apply steps_same..].
  pose proof Hi as [Ish [Ck Cw Ci Co Cr Cs Cu Cq] Icn Icv [Pf Pc Pd] [Sa Sc Sw]]. destruct (Cw p true Hw) as [Hp1 Hp2].
  assert (Hfl : forall x, in_flight (finish_write m p x) = in_flight m) by (by intros [[s ns] [? ? ?|]]).
  unfold write_resume, write_round. destruct (canBufferStreamFrame (ss m) && (0 <? data_len (ss m))) eqn:Ec.
  { apply andb_true_iff in Ec as [Ec Ed%Z.ltb_lt]. destruct (buffer_data_spec _ _ Ish Ec Ed) as (f & -> & Hb & Hdf). cbn [obind].
    unfold write_end. rewrite Z.eqb_refl. cbn [obind]. eexists. split; [reflexivity|]. split; [|rewrite Hfl; lia].
    cbn [finish_write write_notices completion app]. unfold len at 1. rewrite Nat2Z.id, firstn_all.
    by apply (buffer_inv m p true f). }
  destruct (expired (ss m) now).
  { cbn [obind]. eexists. split; [reflexivity|]. split; [|rewrite Hfl; lia]. cbn [finish_write write_notices completion app].
    rewrite data_len_pending. apply (return_inv m p true None); try done. by left. }
  destruct (negb (present (dataForWriting (ss m))) || present (shutdownErr (ss m)) || present (resetErr (ss m))) eqn:Eb.
  - assert (Hnone : up (ss m) -> reset (ss m) = false -> dataForWriting (ss m) = None).
    { unfold up, reset. intros Hu Hr. rewrite Hu, Hr in Eb. destruct (dataForWriting (ss m)); [|done]. by rewrite !orb_false_r in Eb. }
    pose proof (return_inv m p true (dataForWriting (ss m)) Hi Hw (or_intror eq_refl) Hnone) as Hri.
    rewrite with_data_eta in Hri. rewrite <- data_len_pending in Hri. set (n := len p - data_len (ss m)) in *.
    change (with_writer (with_stream m (ss m) []) None (accepted m ++ take (Z.to_nat n) p))
      with (with_stream (with_writer m None (accepted m ++ take (Z.to_nat n) p)) (ss m) []) in Hri.
    unfold write_end. destruct (n =? len p); [|destruct (shutdownErr (ss m)) as [e|] eqn:Eu; [|destruct (resetErr (ss m)) as [e|] eqn:Er]];
      rewrite ?isNewlyCompleted_eq; cbn [obind]; (eexists; split; [reflexivity|]); (split; [|rewrite Hfl; lia]);
      cbn [finish_write write_notices completion app]; try exact Hri.
    set (m1 := with_stream _ _ _) in Hri. pose proof (flagged_inv m1 [] Hri) as Hfi. cbv zeta in Hfi.
    assert (E : reset (ss m1) = true) by (unfold reset; cbn; by rewrite Er). specialize (Hfi E eq_refl).
    refine (eq_rect _ inv Hfi _ _). unfold with_stream, with_writer, m1. cbn. f_equal; [by destruct (active m)|by destruct (control m)|lia].
  - apply orb_false_iff in Eb as [[Eb1 Eb2]%orb_false_iff Eb3].
    cbn [obind]. eexists. split; [reflexivity|]. split; [|rewrite Hfl; lia]. cbn [finish_write write_notices app].
    destruct (dataForWriting (ss m)) as [d|] eqn:Ed; [|done].
    assert (Hu : up (ss m)) by (unfold up; by destruct (shutdownErr (ss m))).
    pose proof (sh_data _ _ Ish d Ed) as Hd. assert (Hpe : pending (ss m) = d) by (unfold pending; by rewrite Ed).
    assert (Hbl : inv (with_writer m (Some (p, false)) (accepted m))).
    { apply (block_inv m p true d); try done. intros Hn. rewrite (canBuffer_spec _ _ Ish), data_len_pending, Hpe in Ec.
      rewrite (proj2 (Z.ltb_lt 0 (len d))), andb_true_r in Ec by lia. apply Z.leb_gt in Ec. unfold next_data in Ec. rewrite Hn in Ec.
      change (len []) with 0 in Ec. lia. }
    pose proof (unchanged _ Hbl) as Hun. exact Hun.
Qed.

(** ** Popping *)

Definition with_popped (m : machine) (s : SendStream) (c : base) (f : StreamFrame) (more : bool) : machine :=
  with_frames (with_stream m s []) (outstanding m ++ [f]) (sent m ++ [f]) (acked m) more c.

Lemma popped_counting m s c f more :
  inv m -> discards (ss m) = false -> numOutstandingFrames s = numOutstandingFrames (ss m) + 1 ->
  resetErr s = resetErr (ss m) -> reliableOffset s = reliableOffset (ss m) ->
  queuedResetStreamFrame s = queuedResetStreamFrame (ss m) -> counting (with_popped m s c f more).
Proof.
  intros Hi Hd Hn Hr Hl Hq. pose proof (iv_counting _ Hi) as [Gn Gz Gq Go].
  assert (Hds : discards s = discards (ss m)) by (unfold discards; by rewrite Hr, Hl).
  assert (Hrs : reset s = reset (ss m)) by (unfold reset; by rewrite Hr).
  assert (Hc : forall g, current s g = current (ss m) g) by (intros g; unfold current; by rewrite Hl).
  split; cbn; rewrite ?Hrs, ?Hq, ?Hl; try done.
  - unfold counted. cbn. rewrite Hds, Hd, Hn, Gn, len_app. unfold counted. rewrite Hd. change (len [f]) with 1.
    rewrite (List.filter_ext _ _ Hc). lia.
  - intros g E. rewrite Hc. auto.
  - intros H. eapply Forall_impl; [by apply Go|]. intros g. by rewrite Hc.
Qed.

Lemma popped_completing m s c f more :
  inv m -> small m -> numOutstandingFrames s = numOutstandingFrames (ss m) + 1 -> completed s = completed (ss m) ->
  (completed (ss m) = true -> reset s = false -> False) -> completing (with_popped m s c f more).
Proof.
  intros Hi Hsm Hn Hc Hd. pose proof (num_range m Hi Hsm). pose proof (iv_completing _ Hi) as [Pf Pc Pd]. split; cbn.
  - intros _ Hfin. apply finished_facts in Hfin as [Hfin _]. lia.
  - rewrite Hc, <- Pc. lia.
  - rewrite Hc. intros H1 H2. destruct (Hd H1 H2).
Qed.

(** A frame, or the front of one, is sent again. *)
Lemma resent_inv m f q more :
  inv m -> small m -> retransmissionQueue (ss m) <> [] -> good m f -> Forall (good m) q ->
  (forall x, Exists (covers x) (retransmissionQueue (ss m)) -> covers x f \/ Exists (covers x) q) ->
  (Exists (fun f => Fin f = true) (retransmissionQueue (ss m)) -> Fin f = true \/ Exists (fun f => Fin f = true) q) ->
  let s := with_out (ss m) (numOutstandingFrames (ss m) + 1) q in
  (more = false -> to_send s = false) -> inv (with_popped m s (cn m) f more).
Proof.
  intros Hi Hsm Hne Hf Hq Hcx Hcf s Hmore. pose proof Hi as [Ish Ico Icn Icv [Pf Pc Pd] [Sa Sc Sw]].
  assert (Hd : discards (ss m) = false) by (destruct (discards (ss m)) eqn:E; [by apply (sh_discards _ _ Ish) in E|done]).
  assert (Hex : forall P : StreamFrame -> Prop, (Exists P (retransmissionQueue (ss m)) -> P f \/ Exists P q) ->
    Exists P (all_frames m) -> Exists P (all_frames (with_popped m s (cn m) f more))).
  { intros P HP. unfold all_frames. cbn. rewrite !Exists_app. intros [H|[H|H]]; [by left|by right; left; left|].
    destruct (HP H) as [H'|H']; [right; left; right; by apply Exists_cons_hd|by right; right]. }
  split.
  - pose proof Ish as [S1 S2 S3 S4 S5 S6 S7 S8 S9 S10 S11 S12]. split; try done; cbn.
    + eapply Forall_impl; [exact Hq|]. by intros g [].
    + intros H. change (discards (ss m) = true) in H. congruence.
  - assert (Hc : content (with_stream m s [])) by (apply content_requeue; done).
    assert (Hg : forall g, good m g -> good (with_popped m s (cn m) f more) g) by (intros g; by apply good_same).
    destruct Hc as [Ck Cw Ci Co Cr Cs Cu Cq]. split; try done; cbn.
    + apply Forall_app. split; [|by apply Forall_singleton, Hg]. eapply Forall_impl; [apply Ico|exact Hg].
    + apply Forall_app. split; [|by apply Forall_singleton, Hg]. eapply Forall_impl; [apply Ico|exact Hg].
    + eapply Forall_impl; [exact Hq|exact Hg].
  - by apply popped_counting.
  - apply (covered_by m); try done.
    + intros x _. apply Hex, Hcx.
    + intros _. apply Hex, Hcf.
  - apply popped_completing; try done. intros Hc Hr. by destruct (Pd Hc Hr) as (_ & _ & ?).
  - split; cbn; [|by rewrite orb_false_r|done]. intros H. destruct more; [done|]. by rewrite Hmore in H.
Qed.

Lemma fin_inv m f more :
  inv m -> small m -> retransmissionQueue (ss m) = [] -> dataForWriting (ss m) = None -> nextFrame (ss m) = None ->
  finishedWriting (ss m) = true -> finSent (ss m) = false -> resetErr (ss m) = None ->
  f = {| StreamID := streamID (ss m); Offset := writeOffset (ss m); Data := []; Fin := true; DataLenPresent := true;
         fromPool := false; dataCap := 0 |} ->
  let s := with_out (with_sent (ss m) (writeOffset (ss m)) true (flowController (ss m))) (numOutstandingFrames (ss m) + 1) [] in
  (more = false -> to_send s = false) -> inv (with_popped m s (cn m) f more).
Proof.
  intros Hi Hsm Hq Hd Hn Hfw Hfs Hr Hf s Hmore. pose proof Hi as [Ish [Ck Cw Ci Co Cr Cs Cu Cq] Icn [Cb Cf] [Pf Pc Pd] [Sa Sc Sw]].
  pose proof (shape_offset _ _ Ish) as [[Ho _] _]. set (m' := with_popped _ _ _ _ _).
  assert (Hrs : reset (ss m) = false) by (unfold reset; by rewrite Hr).
  assert (Hg : forall l, Forall (good m) l -> Forall (good m') l).
  { intros l Hl. eapply Forall_impl; [exact Hl|]. intros g. by apply good_mono. }
  assert (Hgf : good m' f).
  { subst f. split; cbn; [split; cbn; change (len []) with 0; done || lia| |].
    - by rewrite sub_0.
    - intros _. split; [done|]. change (len []) with 0. intros _. lia. }
  split.
  - pose proof Ish as [S1 S2 S3 S4 S5 S6 S7 S8 S9 S10 S11 S12]. by split.
  - split; try done; cbn; try (by rewrite Hq); apply Forall_app; (split; [by apply Hg|by apply Forall_singleton]).
  - apply popped_counting; try done. unfold discards. by rewrite Hr.
  - split.
    + intros Hu x Hx. specialize (Cb Hu x Hx). unfold all_frames in *. cbn. rewrite Hq in Cb. rewrite app_assoc, !Exists_app in *. tauto.
    + intros _ _. unfold all_frames. cbn. rewrite !Exists_app. right; left; right. apply Exists_cons_hd. by subst f.
  - apply popped_completing; try done. intros Hc Hr'. destruct (Pd Hc Hrs). congruence.
  - split; cbn; [|by rewrite orb_false_r|done]. intros H. destruct more; [done|]. by rewrite Hmore in H.
Qed.

(** The bytes of a new frame, and those that are left *)
Lemma taken_data m maxBytes limit f chan data next :
  inv m -> up (ss m) -> takes (ss m) maxBytes limit f chan data next ->
  (reset (ss m) = true -> writeOffset (ss m) + limit <= reliableOffset (ss m)) ->
  let off := writeOffset (ss m) in let n := len (Data f) in let s' := taken (ss m) chan data next in
  0 < n /\ Data f = sub (written m) off n /\ off + n <= kept m + (len (pending (ss m)) - len (default [] data)) /\
  len (next_data (ss m)) <= n + len (next_data s') /\
  len (default [] data) <= len (pending (ss m)) /\
  (reset (ss m) = false -> written m = sub (written m) 0 (off + n) ++ next_data s' ++ default [] data) /\
  (reset (ss m) = true ->
     off + n <= reliableOffset (ss m) /\
     sub (next_data s') 0 (reliableOffset (ss m) - (off + n)) = sub (written m) (off + n) (reliableOffset (ss m) - (off + n))).
Proof.
  intros Hi Hu [Kf Kl Kfit Kd Kn Kr Ko Kc] Hlim off n s'. pose proof Hi as [Ish [Ck Cw Ci Co Cr Cs Cu Cq] _ _ _ _].
  pose proof (shape_offset _ _ Ish) as [[Ho _] _]. fold off in Ho. destruct Kf as [_ _ [Hn _] _ _ _]. fold n in Hn.
  fold s' in Kd. pose proof (f_equal len Kd) as Hl. rewrite !len_app in Hl. fold n in Hl.
  assert (Hdl : len (default [] data) <= len (pending (ss m))).
  { destruct data as [d|]; cbn; [by apply Kr|]. change (len []) with 0. apply len_nonneg. }
  pose proof (len_nonneg (next_data s')) as Hn1. pose proof (len_nonneg (default [] data)) as Hn2. pose proof (len_nonneg (pending (ss m))).
  split; [done|]. destruct (reset (ss m)) eqn:Er.
  - specialize (Hlim eq_refl). destruct (Cr Hu eq_refl) as [R1 R2]. fold off in Hlim, R2. set (r := reliableOffset (ss m)) in *.
    assert (Hrl : r <= off + len (next_data (ss m))).
    { pose proof (sh_reliable _ _ Ish Hu) as H0. unfold reset in Er. by rewrite Er in H0. }
    assert (Hf : Data f = sub (next_data (ss m)) 0 n).
    { rewrite <- (sub_app_l (next_data (ss m)) (pending (ss m))) by lia. rewrite Kd. symmetry. by apply (sub_middle []). }
    assert (Hpre : forall i k, 0 <= i -> 0 <= k -> i + k <= r - off -> sub (next_data (ss m)) i k = sub (written m) (off + i) k).
    { intros i k H1 H2 H3. rewrite <- (sub_sub (written m) off (r - off)) by lia. rewrite <- R2, sub_sub by lia. done. }
    split; [rewrite Hf, Hpre by lia; f_equal; lia|]. split; [lia|]. split; [lia|]. split; [done|]. split; [done|]. intros _.
    split; [lia|]. rewrite <- Hpre by lia. rewrite <- (sub_app_l (next_data s') (default [] data)) by lia.
    rewrite <- (sub_app_l (next_data (ss m)) (pending (ss m)) n) by lia. rewrite Kd.
    symmetry. apply (sub_app_r (Data f)).
  - specialize (Co Hu eq_refl). destruct (open_next m Hi Hu Er) as (K1 & K2 & K3 & K4). fold off in Co, K1, K2, K3, K4.
    rewrite Kd in Co.
    assert (Hf : Data f = sub (written m) off n) by (rewrite Co; symmetry; by apply sub_middle).
    split; [done|]. split; [lia|]. split; [lia|]. split; [done|]. split; [|done]. intros _.
    rewrite Co at 1. rewrite app_assoc. f_equal. rewrite Hf at 1. rewrite !sub_take. unfold sub.
    rewrite Z2Nat.inj_add by lia. by rewrite take_take_drop.
Qed.

Lemma data_inv m maxBytes limit f chan data next fc c more :
  inv m -> small m -> retransmissionQueue (ss m) = [] -> up (ss m) -> finSent (ss m) = false ->
  takes (ss m) maxBytes limit f chan data next ->
  (resetErr (ss m) <> None -> writeOffset (ss m) + limit <= reliableOffset (ss m)) ->
  sending (ctrl fc) -> bytesSent (ctrl fc) = writeOffset (ss m) + len (Data f) -> sending c ->
  let s := after_data (ss m) f chan data next fc in
  (more = false -> to_send s = false) -> inv (with_popped m s c (sent_frame (ss m) f data next) more).
Proof.
  intros Hi Hsm Hq Hu Hfs Htk Hlim Hfc Hb Hc s Hmore. pose proof Hi as [Ish [Ck Cw Ci Co Cr Cs Cu Cq] Icn [Cb Cf] [Pf Pc Pd] [Sa Sc Sw]].
  assert (Hlim' : reset (ss m) = true -> writeOffset (ss m) + limit <= reliableOffset (ss m)).
  { intros H. apply Hlim. unfold reset in H. by destruct (resetErr (ss m)). }
  destruct (taken_data m maxBytes limit f chan data next Hi Hu Htk Hlim') as (Hn & Hf & Hk & Hnx & Hpd & Hopen & Hres).
  pose proof (shape_offset _ _ Ish) as [[Ho _] _]. pose proof Htk as [[B1 B2 B3 B4 B5 B6] Kl Kfit Kd Kn Kr Ko Kc].
  set (g := sent_frame (ss m) f data next). set (off := writeOffset (ss m)) in *. set (n := len (Data f)) in *.
  set (m' := with_popped _ _ _ _ _).
  assert (Hgd : Data g = Data f) by done.
  assert (Hgf : Fin g = true -> finishedWriting (ss m) = true /\ data = None /\ next = None).
  { unfold g, sent_frame. cbn. rewrite !andb_true_iff, !negb_true_iff. intros [[H1 H2] H3]. by destruct data, next. }
  assert (Hkm : kept m' = kept m + (len (pending (ss m)) - len (default [] data)) \/ (writer m = None /\ kept m' = kept m)).
  { unfold kept. change (writer m') with (writer m). change (accepted m') with (accepted m).
    destruct (writer m) as [[p w]|]; [left|by right]. change (pending (ss m')) with (default [] data). lia. }
  assert (Hkm' : off + n <= kept m' /\ kept m <= kept m').
  { destruct Hkm as [->|[Hw ->]]; [lia|]. split; [|lia].
    destruct (reset (ss m)) eqn:Er; [destruct (Hres eq_refl), (Cr Hu eq_refl); lia|].
    assert (Hd0 : dataForWriting (ss m) = None) by auto.
    assert (Hp0 : len (pending (ss m)) = 0) by (unfold pending; by rewrite Hd0). pose proof (len_nonneg (default [] data)). lia. }
  assert (Hg : forall h, good m h -> good m' h).
  { intros h. apply good_mono; try done; [cbn; fold off n; lia|]. congruence. }
  assert (Hgg : good m' g).
  { split; [|change (Data f = sub (written m) (Offset f) n); by rewrite B2|].
    - split; cbn; fold off n; done || lia.
    - intros E. change (Fin g || finSent (ss m) = true /\ (reset (ss m) = false -> Offset f + n = off + n)). rewrite E, B2. done. }
  split.
  - pose proof Ish as [S1 S2 S3 S4 S5 S6 S7 S8 S9 S10 S11 S12]. split; try done; cbn [ss m' with_popped with_frames with_stream].
    + intros d E. change (data = Some d) in E. specialize (Kr d E). pose proof (len_pending _ _ Ish). lia.
    + change (Forall (tracked (streamID (ss m)) (off + n)) (retransmissionQueue (ss m))). by rewrite Hq.
    + intros H. change (Fin g || finSent (ss m) = true) in H. rewrite Hfs, orb_false_r in H. exact (Hgf H).
    + intros _. pose proof (S12 Hu) as HS.
      change ((if present (resetErr (ss m)) then reliableOffset (ss m) else reliableSize (ss m))
        <= (off + n) + len (next_data (taken (ss m) chan data next))). fold off in HS. lia.
  - split.
    + exact (proj1 Hkm').
    + intros p w Hw. destruct (Cw p w Hw) as [H1 H2]. split; [done|]. change (len (default [] data) <= len p). lia.
    + intros _ Hr Hw. change (data = None). assert (Hd0 : dataForWriting (ss m) = None) by (apply Ci; done).
      destruct data as [d|]; [|done]. specialize (Kr d eq_refl).
      assert (Hp0 : len (pending (ss m)) = 0) by (unfold pending; by rewrite Hd0). lia.
    + intros _ Hr. exact (Hopen Hr).
    + intros _ Hr. destruct (Hres Hr) as [H1 H2]. split; [|exact H2]. change (reliableOffset (ss m) <= kept m'). destruct (Cr Hu Hr). lia.
    + cbn. apply Forall_app. split; [eapply Forall_impl; [exact Cs|exact Hg]|by apply Forall_singleton].
    + cbn. apply Forall_app. split; [eapply Forall_impl; [exact Cu|exact Hg]|by apply Forall_singleton].
    + change (Forall (good m') (retransmissionQueue (ss m))). by rewrite Hq.
  - apply popped_counting; try done. destruct (discards (ss m)) eqn:E; [|done]. destruct (discards_reset _ E) as [Er Ez].
    specialize (Hlim' Er). lia.
  - split.
    + intros _ x Hx. destruct (Z.lt_ge_cases x off) as [Hlt|Hge].
      * assert (Hx' : 0 <= x < required (ss m)).
        { unfold required in Hx |- *. change (reset (ss m')) with (reset (ss m)) in Hx.
          change (reliableOffset (ss m')) with (reliableOffset (ss m)) in Hx. fold off. destruct (reset (ss m)); lia. }
        specialize (Cb Hu x Hx'). unfold all_frames in *. cbn. rewrite Hq in *. rewrite !Exists_app in *. tauto.
      * unfold all_frames. cbn. rewrite !Exists_app. right; left; right. apply Exists_cons_hd. unfold covers.
        change (Offset f <= x < Offset f + n). rewrite B2. split; [done|]. unfold required in Hx. change (writeOffset (ss m')) with (off + n) in Hx.
        destruct (reset (ss m')); lia.
    + intros _ H. change (Fin g || finSent (ss m) = true) in H. rewrite Hfs, orb_false_r in H. unfold all_frames. cbn.
      rewrite !Exists_app. right; left; right. by apply Exists_cons_hd.
  - apply popped_completing; try done. intros H1 H2. destruct (Pd H1 H2). congruence.
  - split; cbn; [|by rewrite orb_false_r|].
    + intros H. destruct more; [done|]. by rewrite Hmore in H.
    + intros p Hp Hch. destruct Kc as [E|[[E (d & -> & Hd)]|(E & Hne & Hd)]]; [congruence| |].
      * rewrite E in Hch. destruct (Sw p Hp Hch) as (_ & Hr & _). split; [done|]. split; [done|]. by exists d.
      * rewrite E in Hch. destruct (Sw p Hp Hch) as (_ & Hr & (d & H1 & H2)). split; [done|]. split; [done|]. exists d.
        rewrite Hd. done.
Qed.

Lemma pop_steps m maxBytes : inv m -> small m -> careful m (OpPop maxBytes) -> steps_to m (step m (OpPop maxBytes)).
Proof.
  intros Hi Hsm Hmb. cbn [step careful] in *. destruct (active m) eqn:Ea; cbn [negb]; [|by apply steps_same].
  pose proof Hi as [Ish Ico Icn Icv [Pf Pc Pd] [Sa Sc Sw]]. pose proof (num_range m Hi Hsm) as Hnum.
  destruct (popStreamFrame_spec (ss m) (cn m) maxBytes Ish Hmb) as (s' & c' & f & b & more & -> & Hmore & Hf); [lia|]. cbn [obind].
  eexists. split; [reflexivity|]. destruct f as [f|]; cbn [opt_list].
  - split; [|unfold in_flight; cbn; rewrite len_app; change (len [f]) with 1; lia]. destruct Hf as [Hf _].
    change (inv (with_popped m s' c' f more)).
    destruct Hf as [f q Hq|f q front back Hq Hd H1 H2|Hq Hd Hn Hfw Hfs Hr|limit f chan data next fc c' Hq Hu Hfs Htk Hlim H1 H2 H3 H4].
    + pose proof (ct_queue _ Ico) as Hg. rewrite Hq in Hg. apply Forall_cons in Hg as [Hg Hg'].
      apply resent_inv; try done; [by rewrite Hq| |]; rewrite Hq; intros *; rewrite Exists_cons; auto.
    + pose proof (ct_queue _ Ico) as Hg. rewrite Hq in Hg. apply Forall_cons in Hg as [Hg Hg'].
      pose proof Hg as [[T1 T2 T3 T4 T5 T6] Gd Gf]. assert (Hl : len (Data f) = len front + len back) by (by rewrite Hd, len_app).
      assert (Hfront : front = sub (written m) (Offset f) (len front)).
      { rewrite <- (sub_middle [] front back 0 (len front)) at 1 by done. cbn [app]. rewrite <- Hd, Gd, sub_sub by lia. f_equal. lia. }
      assert (Hback : back = sub (written m) (Offset f + len front) (len back)).
      { rewrite <- (sub_middle front back [] (len front) (len back)) at 1 by done. rewrite app_nil_r, <- Hd, Gd, sub_sub by lia. done. }
      apply resent_inv; try done; [by rewrite Hq| | | |].
      * split; [split; cbn; done || lia|exact Hfront|done].
      * constructor; [|done]. split; [split; cbn; done || lia|exact Hback|]. cbn. intros E. destruct (Gf E) as [G1 G2]. split; [done|].
        intros Hr. specialize (G2 Hr). lia.
      * intros x. rewrite Hq, !Exists_cons. unfold covers. cbn. intros [Hx|Hx]; [|by right; right].
        destruct (Z.lt_ge_cases x (Offset f + len front)); [left; lia|right; left; lia].
      * rewrite Hq, !Exists_cons. cbn. tauto.
    + by apply fin_inv.
    + by apply (data_inv m maxBytes limit).
  - split; [|unfold in_flight; cbn; rewrite app_nil_r; lia]. destruct Hf as (-> & -> & _). rewrite !app_nil_r.
    apply (quiet_inv m); cbn; try done.
    + apply (completing_plain m); cbn; try done; auto.
    + intros H. destruct more; [done|]. by rewrite Hmore in H.
    + intros H. by rewrite H.
Qed.
