(* ===== verification/SendStreamProps.v ===== *)
(** * Send streams: a writer and the network

    Frames carry what was written, a stream is completed when all of it is
    acknowledged, and no data is left behind.  This holds when the reliable
    size is not changed on a stream that was reset; the runs at the end show
    what happens otherwise, and what a writer that is woken by a reset does. *)
From S2P Require Import Prelude Varint Protocol AckFrame AckFrameProps Frames FramesProps FlowControl FlowControlFacts.
From S2P Require Import ReceiveStream SendStream SendStreamFacts SendStreamMachine SendStreamFates SendStreamData.
Import SendStream.

Local Open Scope Z_scope.
Local Open Scope go_scope.

(** ** Runs *)

Lemma send_step_inv m o : inv m -> small m -> careful m o -> steps_to m (step m o).
Proof.
  intros Hi Hs Hc. destruct o; [by apply write_steps|by apply wake_steps|by apply timeout_steps|by apply resume_steps|
    by apply pop_steps|by apply control_steps|by apply ack_steps|by apply lost_steps|by apply reset_ack_steps|
    by apply reset_lost_steps|by apply close_steps|by apply boundary_steps|by apply cancel_steps|by apply stop_steps|
    by apply enable_steps|by apply window_steps|by apply conn_steps|by apply deadline_steps|by apply shutdown_steps].
Qed.

Lemma send_run_inv m ops : inv m -> careful_run m ops -> in_flight m + Z.of_nat (length ops) < 2 ^ 61 ->
  exists m', run m ops = Ret m' /\ inv m' /\ in_flight m' <= in_flight m + Z.of_nat (length ops).
Proof.
  revert m. induction ops as [|o ops IH]; intros m Hi Hc Hn; [exists m; split_and!; done || cbn; lia|]. destruct Hc as [Ho Hc]. cbn [length] in Hn.
  destruct (send_step_inv m o Hi) as (m1 & Hs & Hi1 & Hf); [unfold small; lia|done|]. rewrite Hs in Hc.
  destruct (IH m1 Hi1 Hc) as (m' & Hr & Hi' & Hf'); [lia|]. exists m'. split; [|split; [done|cbn [length]; lia]].
  unfold run in *. cbn [ofold]. by rewrite Hs.
Qed.

Section Runs.
Context (id window : Z) (supports : bool) (c0 : base).
Hypothesis Hid : is_varint id.
Hypothesis Hwindow : 0 <= window <= MaxByteCount.
Hypothesis Hconn : sending c0.

Let m0 : machine := opened id (StreamFlow.New id 0 0 window) supports c0.

Lemma send_opened_inv : inv m0.
Proof.
  unfold m0, opened. split; (split; try done).
  - split; cbn; lia.
  - cbn. unfold reliableOffset. cbn. intros _. lia.
Qed.

Lemma send_outcome ops : careful_run m0 ops -> Z.of_nat (length ops) < 2 ^ 61 -> 
  exists m, run m0 ops = Ret m /\ inv m /\ in_flight m <= Z.of_nat (length ops).
Proof. intros Hc Hn. by apply (send_run_inv m0 ops send_opened_inv Hc). Qed.

Lemma send_run_outcome ops m : careful_run m0 ops -> Z.of_nat (length ops) < 2 ^ 61 -> run m0 ops = Ret m ->
  inv m /\ in_flight m <= Z.of_nat (length ops).
Proof. intros Hc Hn Hr. destruct (send_outcome ops Hc Hn) as (m' & E & Hi). rewrite Hr in E. by injection E as ->. Qed.

(** Where FIN was sent, everything was. *)
Lemma fin_at_end m : inv m -> reset (ss m) = false -> finSent (ss m) = true ->
  len (written m) = writeOffset (ss m) /\ next_data (ss m) = [] /\ up (ss m).
Proof.
  intros Hi Hr Hf. destruct (sh_fin _ _ (iv_shape _ Hi) Hf) as (H1 & H2 & H3).
  assert (Hu : up (ss m)) by exact (sh_finished _ _ (iv_shape _ Hi) H1).
  destruct (open_next m Hi Hu Hr) as (_ & _ & _ & Hl). unfold next_data, pending in *. rewrite H2, H3 in *.
  split; [|done]. change (len (default [] None)) with 0 in Hl. change (len []) with 0 in Hl. lia.
Qed.

(** ** Properties *)

(** C32. No operation on a send stream panics, in any order of fewer than 2^61
    operations in which the reliable size is not raised, and resets at an
    offset are not enabled, once the stream was reset: [late_boundary_panics]
    shows what happens otherwise.  What else is asked for holds in the program: a
    single [Write] has at most 2^61 bytes, frames are popped for packets of at
    most [MaxPacketBufferSize] bytes, and windows, also that of the
    connection, are QUIC integers that are not overdrawn.  Every frame that was
    sent carries what was written at its offset, and as long as the stream was
    not reset, a frame with FIN ends where the written bytes end.  What was
    sent stays within the peer's window, and the stream counts exactly the
    frames that are in flight. *)
Theorem frames_carry_writes ops : careful_run m0 ops -> Z.of_nat (length ops) < 2 ^ 61 ->
  exists m, run m0 ops = Ret m /\
    Forall (fun f => 0 <= Offset f /\ Offset f + len (Data f) <= writeOffset (ss m) /\
                     Data f = sub (written m) (Offset f) (len (Data f))) (sent m) /\
    (reset (ss m) = false -> Forall (fun f => Fin f = true -> Offset f + len (Data f) = len (written m)) (sent m)) /\
    bytesSent (ctrl (flowController (ss m))) = writeOffset (ss m) /\
    writeOffset (ss m) <= sendWindow (ctrl (flowController (ss m))) /\
    numOutstandingFrames (ss m) = counted m.
Proof.
  intros Hc Hn. destruct (send_outcome ops Hc Hn) as (m & Hr & Hi & _). exists m. split; [done|].
  pose proof (ct_sent _ (iv_content _ Hi)) as Hs. pose proof (iv_shape _ Hi) as Hsh. split_and!.
  - eapply Forall_impl; [exact Hs|]. by intros f [[] Hd _].
  - intros Hrs. eapply Forall_impl; [exact Hs|]. intros f [_ _ Hf] E. destruct (Hf E) as [H1 H2].
    destruct (fin_at_end m Hi Hrs H1) as (-> & _). auto.
  - apply Hsh.
  - by apply (shape_offset _ _ Hsh).
  - apply Hi.
Qed.

(** C33. A stream that was not reset is completed exactly when its FIN was sent
    and no frame is in flight or waits to be sent again; then every byte that
    was written, and the FIN, were acknowledged.  A stream reports its
    completion once. *)
Theorem completed_when_delivered ops m : careful_run m0 ops -> Z.of_nat (length ops) < 2 ^ 61 -> run m0 ops = Ret m ->
  completions m = (if completed (ss m) then 1%nat else 0%nat) /\
  (reset (ss m) = false ->
   (completed (ss m) = true <-> finSent (ss m) = true /\ outstanding m = [] /\ retransmissionQueue (ss m) = []) /\
   (completed (ss m) = true ->
      (forall x, 0 <= x < len (written m) -> Exists (covers x) (acked m)) /\ Exists (fun f => Fin f = true) (acked m))).
Proof.
  intros Hc Hn Hr. destruct (send_run_outcome ops m Hc Hn Hr) as [Hi _]. pose proof Hi as [Ish _ [Gn Gz _ _] [Cb Cf] [Pf Pc Pd] _].
  split; [done|]. intros Hrs. destruct (Gz Hrs) as [Hz1 Hz2].
  assert (Hdis : discards (ss m) = false) by (unfold discards; unfold reset in Hrs; by rewrite Hrs).
  assert (Hcn : numOutstandingFrames (ss m) = len (outstanding m)).
  { rewrite Gn. unfold counted. rewrite Hdis, Hz1. change (len (List.filter (current (ss m)) [])) with 0. lia. }
  assert (Hout : completed (ss m) = true -> finSent (ss m) = true /\ outstanding m = [] /\ retransmissionQueue (ss m) = []).
  { intros Hco. destruct (Pd Hco Hrs) as (H1 & H2 & H3). split_and!; try done. rewrite Hcn in H2.
    destruct (outstanding m) as [|f l]; [done|]. rewrite len_cons in H2. pose proof (len_nonneg l). lia. }
  split; [split; [done|]|].
  - intros (H1 & H2 & H3). destruct (fin_at_end m Hi Hrs H1) as (_ & Hnd & Hu). apply Pf; [done|].
    unfold finished. by rewrite Hnd, Hcn, H2, H3, Hz2, H1.
  - intros Hco. destruct (Hout Hco) as (H1 & H2 & H3). destruct (fin_at_end m Hi Hrs H1) as (Hl & _ & Hu).
    assert (Hall : all_frames m = acked m) by (unfold all_frames; by rewrite H2, H3, !app_nil_r). rewrite Hall in *.
    split; [|auto]. intros x Hx. apply Cb; [done|]. unfold required. rewrite Hrs. lia.
Qed.

(** C34. No data is left behind.  A stream with something to send, be it data,
    frames that were lost, or FIN, has announced it to the connection; popping
    a frame of at least twenty bytes then sends one that fits, unless only new
    data is left and a window is exhausted.  A reset that waits is announced
    too, and a writer that sleeps waits for data that is still to be sent. *)
Theorem data_is_scheduled ops m : careful_run m0 ops -> Z.of_nat (length ops) < 2 ^ 61 -> run m0 ops = Ret m ->
  (to_send (ss m) = true -> active m = true /\ forall maxBytes, 20 <= maxBytes <= MaxPacketBufferSize ->
     exists m', step m (OpPop maxBytes) = Ret m' /\
       ((exists f, sent m' = sent m ++ [f] /\ fits maxBytes f) \/
        retransmissionQueue (ss m) = [] /\ StreamFlow.SendWindowSize (flowController (ss m)) (cn m) = 0 /\
        (dataForWriting (ss m) <> None \/ nextFrame (ss m) <> None))) /\
  (queuedResetStreamFrame (ss m) <> None -> control m = true) /\
  (forall p, writer m = Some (p, false) -> writeChan (ss m) = false -> to_send (ss m) = true /\ reset (ss m) = false).
Proof.
  intros Hc Hn Hr. destruct (send_run_outcome ops m Hc Hn Hr) as [Hi Hfl]. pose proof Hi as [Ish _ _ _ _ [Sa Sc Sw]]. split; [|split; [done|]].
  - intros Hts. split; [auto|]. intros maxBytes Hm. cbn [step]. rewrite (Sa Hts). cbn [negb].
    pose proof (num_range m Hi ltac:(unfold small; lia)) as Hnum.
    destruct (popStreamFrame_spec (ss m) (cn m) maxBytes Ish) as (s' & c' & f & b & more & -> & _ & Hf); [lia..|]. cbn [obind].
    eexists. split; [reflexivity|]. destruct f as [f|].
    + left. exists f. split; [done|]. apply Hf. lia.
    + right. destruct Hf as (_ & _ & Hf). apply Hf; [done|lia].
  - intros p Hp Hch. destruct (Sw p Hp Hch) as (Hu & Hrs & d & Hd & _). split; [|done]. unfold to_send. unfold up, reset in *.
    rewrite Hu, Hrs, Hd. cbn [present negb andb orb]. apply orb_true_r.
Qed.

End Runs.

(** ** Runs that were computed *)

Definition demo_clock (_ : nat) : Z := 1000.
Definition demo_conn : base := (Base.UpdateSendWindow (Connection.New 0 0 false) 5000).1.
Definition demo_start : machine := opened 4 (StreamFlow.New 4 0 0 4000) true demo_conn.
Definition text (k : Z) (n : nat) : bytes := map (fun i => (k + Z.of_nat i) mod 256) (seq 0 n).

(** A short write, a long one that waits, FIN; a frame is lost and sent again
    in two parts; everything is acknowledged. *)
Definition demo_ops : list op :=
  [OpWrite (text 0 10) demo_clock; OpPop 100; OpWrite (text 10 2000) demo_clock; OpPop 1000; OpWake; OpResume 1000].
Definition demo_end : list op :=
  [OpClose; OpLost 0; OpPop 20; OpPop 20; OpPop 1452; OpAck 0; OpAck 0; OpAck 0; OpAck 0].

Definition after (m : machine) (ops : list op) : machine := match run m ops with Ret m' => m' | _ => m end.
Definition demo_middle : machine := Eval vm_compute in after demo_start demo_ops.
Definition demo_final : machine := Eval vm_compute in after demo_start (demo_ops ++ demo_end).

Lemma demo_id : is_varint 4.
Proof. by vm_compute. Qed.
Lemma demo_send_window : 0 <= 4000 <= MaxByteCount.
Proof. by vm_compute. Qed.
Lemma demo_conn_sending : sending demo_conn.
Proof. by split; vm_compute. Qed.

Ltac computed_run := vm_compute; repeat split; try exact I; try reflexivity; try (intros ?; discriminate).

Lemma demo_careful : careful_run demo_start (demo_ops ++ demo_end).
Proof. computed_run. Qed.
Lemma demo_ops_careful : careful_run demo_start demo_ops.
Proof. computed_run. Qed.

Lemma frames_carry_writes_witness : exists m, run demo_start (demo_ops ++ demo_end) = Ret m /\ numOutstandingFrames (ss m) = counted m.
Proof.
  destruct (frames_carry_writes 4 4000 true demo_conn demo_id demo_send_window demo_conn_sending (demo_ops ++ demo_end) demo_careful)
    as (m & Hr & _ & _ & _ & _ & Hn); [by vm_compute|]. exists m. split; [exact Hr|exact Hn].
Defined.

Lemma completed_when_delivered_witness : Exists (fun f => Fin f = true) (acked demo_final) /\ completions demo_final = 1%nat.
Proof.
  destruct (completed_when_delivered 4 4000 true demo_conn demo_id demo_send_window demo_conn_sending (demo_ops ++ demo_end) demo_final
    demo_careful) as [H1 H2]; [by vm_compute|by vm_compute|]. destruct H2 as [_ H2]; [reflexivity|].
  destruct H2 as [_ H3]; [reflexivity|]. split; [exact H3|exact H1].
Defined.

Lemma data_is_scheduled_witness : active demo_middle = true.
Proof.
  destruct (data_is_scheduled 4 4000 true demo_conn demo_id demo_send_window demo_conn_sending demo_ops demo_middle demo_ops_careful)
    as [H _]; [by vm_compute|by vm_compute|]. apply H. by vm_compute.
Defined.

(** ** What a writer that is woken by a cancellation does *)

(** A thousand bytes wait to be sent, and a [Write] of as many waits for
    room; the stream is cancelled, the writer wakes, and the reset is
    acknowledged. *)
Definition leak_ops : list op :=
  [OpWrite (text 0 1000) demo_clock; OpWrite (text 0 1000) demo_clock; OpCancel 7; OpWake; OpResume 1000; OpControl; OpResetAck 0].

Record leaked (m : machine) : Prop := {
  lk_reset : reset (ss m) = true;
  lk_reliable : reliableOffset (ss m) = 0;
  lk_next : 0 < len (next_data (ss m));
  lk_completed : completed (ss m) = false;
  lk_sent : sent m = [];
  lk_writer : writer m = None;
  lk_out : outstanding m = [];
}.

Definition no_shutdown (o : op) : Prop := match o with OpShutdown _ => False | _ => True end.

Lemma not_finished s : 0 < len (next_data s) -> finished s = false.
Proof. intros H. unfold finished. by rewrite (proj2 (Z.ltb_lt _ _)) by done. Qed.

(** [isNewlyCompleted] does nothing as long as a frame waits. *)
Lemma leaked_incomplete s : 0 < len (next_data s) -> completed s = false -> isNewlyCompleted s = (s, false).
Proof. intros Hn Hc. rewrite isNewlyCompleted_eq, not_finished, Hc by done. by rewrite set_completed_same. Qed.

Lemma leaked_step m o m' : leaked m -> careful m o -> no_shutdown o -> step m o = Ret m' -> leaked m'.
Proof.
  intros Hl Ho Hn. pose proof Hl as [L1 L2 L3 L4 L5 L6 L7].
  assert (Hd : discards (ss m) = true) by (unfold discards, reset in *; by rewrite L1, L2).
  assert (Hin : forall s ns, next_data s = next_data (ss m) -> reset s = true -> reliableOffset s = 0 -> completed s = false ->
    leaked (with_stream m s ns)) by (intros s ns E1 E2 E3 E4; split; cbn; by rewrite ?E1).
  assert (Hflag : isNewlyCompleted (flag_cancellation (ss m)) = (flag_cancellation (ss m), false)) by (by apply leaked_incomplete).
  unfold reset in L1.
  destruct o; cbn [step careful no_shutdown] in *; rewrite ?L6, ?L7; cbn [obind]; try (intros [= <-]; done).
  - unfold write. destruct (resetErr (ss m)) as [e|] eqn:Er; [|done]. rewrite Hflag. cbn [obind]. intros [= <-].
    split; try done; unfold reset; cbn; by rewrite Er.
  - destruct (active m); cbn [negb]; [|by intros [= <-]]. unfold popStreamFrame, popNewOrRetransmittedStreamFrame.
    destruct (present (shutdownErr (ss m))); [|rewrite L1, L2]; cbn; intros [= <-]; split; cbn; rewrite ?L5, ?L7; done.
  - destruct (control m); cbn [negb]; [|by intros [= <-]]. unfold getControlFrame.
    destruct (queuedResetStreamFrame (ss m)); intros [= <-]; by split.
  - destruct (resets m !! k); [|by intros [= <-]]. unfold OnResetAcked. destruct (negb _); cbn [obind]; [intros [= <-]; by split|].
    unfold settle_frame. destruct (_ <? 0); cbn [obind]; [done|]. rewrite leaked_incomplete by done. intros [= <-]. by split.
  - destruct (resets m !! k); [|by intros [= <-]]. unfold OnResetLost. destruct (negb _); intros [= <-]; by split.
  - unfold Close. destruct (present (shutdownErr (ss m)) || finishedWriting (ss m)); [intros [= <-]; by apply Hin|].
    rewrite L1. rewrite leaked_incomplete by done. intros [= <-]. by apply Hin.
  - by rewrite Ho in L1.
  - unfold CancelWrite. destruct (present (shutdownErr (ss m))); cbn [obind]; [intros [= <-]; by apply Hin|].
    change (present (resetErr (flag_cancellation (ss m)))) with (present (resetErr (ss m))). rewrite L1, Hflag. cbn [obind].
    intros [= <-]. by apply Hin.
  - unfold handleStopSendingFrame. fold (discards (ss m)). rewrite Hd. destruct (present (shutdownErr (ss m))); intros [= <-]; by apply Hin.
  - by rewrite Ho in L1.
  - unfold updateSendWindow. destruct (StreamFlow.UpdateSendWindow _ _) as [fc u]. intros [= <-]. by apply Hin.
  - destruct Hn.
Qed.

Lemma leaked_run ops m m' : leaked m -> careful_run m ops -> Forall no_shutdown ops -> run m ops = Ret m' -> leaked m'.
Proof.
  revert m. induction ops as [|o ops IH]; intros m Hl Hc Hn; [by intros [= <-]|]. destruct Hc as [Ho Hc]. apply Forall_cons in Hn as [Hn1 Hn].
  unfold run. cbn [ofold]. destruct (step m o) as [m1| |] eqn:E; [|done..]. cbn [obind]. intros Hr. apply (IH m1); try done.
  by apply (leaked_step m o).
Qed.

(** A [Write] that waits for room when its stream is cancelled takes the
    room the dropped frame left: it returns all its bytes as written, though
    none are ever sent.  And though the peer acknowledged the reset, the
    stream is never completed, whatever happens next. *)
Theorem woken_writer_leaks_stream : exists m, run demo_start leak_ops = Ret m /\
  len (accepted m) = 2000 /\ writer m = None /\ resets m = [] /\ queuedResetStreamFrame (ss m) = None /\
  forall ops m', careful_run m ops -> Forall no_shutdown ops -> run m ops = Ret m' -> sent m' = [] /\ completed (ss m') = false.
Proof.
  eexists. split; [vm_compute; reflexivity|]. do 4 (split; [reflexivity|]). intros ops m' Hc Hn Hr.
  assert (Hl : leaked m'); [|by destruct Hl]. revert Hr. apply leaked_run; try done.
Qed.

(** ** What a late change of the reliable size does *)

(** The count of frames was reset to zero when the peer stopped the stream; if
    the reliable size is raised after that, the acknowledgement of a frame
    that was in flight makes it negative. *)
Theorem late_boundary_panics :
  run demo_start [OpWrite (text 0 5) demo_clock; OpPop 100; OpStop 7; OpBoundary; OpAck 0] = Panic /\
  run (opened 4 (StreamFlow.New 4 0 0 4000) false demo_conn)
    [OpWrite (text 0 5) demo_clock; OpPop 100; OpBoundary; OpCancel 7; OpEnable; OpAck 0] = Panic.
Proof. split; vm_compute; reflexivity. Qed.
