(* ===== verification/StreamTransfer.v ===== *)
(** * From [Write] to [Read]

    A send stream and a receive stream of two endpoints, and a network that
    loses, repeats and reorders what was sent: what is read is what was
    written. *)
From S2P Require Import Prelude Varint Protocol AckFrame AckFrameProps Frames FramesProps FlowControl FlowControlFacts.
From S2P Require Import FrameSorter FrameSorterFacts FrameSorterPush FrameSorterProps.
From S2P Require Import ReceiveStream ReceiveStreamFacts ReceiveStreamProps.
From S2P Require Import SendStream SendStreamFacts SendStreamMachine SendStreamFates SendStreamData SendStreamProps.

Local Open Scope Z_scope.
Local Open Scope go_scope.

Module Snd := SendStreamMachine.
Module Rcv := ReceiveStreamProps.
Notation rframe := ReceiveStream.stream_frame.

(** A STREAM frame as it is received: what it says is what was sent. *)
Definition received (g : StreamFrame) (f : rframe) : Prop :=
  ReceiveStream.Offset f = Frames.Offset g /\ FrameSorter.content (ReceiveStream.Data f) = Frames.Data g /\ ReceiveStream.Fin f = Frames.Fin g.

(** The network delivers frames from those that were sent, as often and in the
    order it likes. *)
Definition delivered (sent : list StreamFrame) (o : Rcv.op) : Prop :=
  match o with
  | Rcv.OpFrame f _ => Exists (fun g => received g f) sent
  | Rcv.OpReset f _ => reset_ok f
  | Rcv.OpRead n _ => 0 <= n
  | Rcv.OpPeek n _ => 0 < n <= max_offset
  | _ => True
  end.

(** ** Streams of a list *)

Definition stream_of (w : bytes) (d x : Z) : Z := nth (Z.to_nat x) w d.

Lemma segment_of w d o n : 0 <= o -> o + Z.of_nat n <= len w -> segment (stream_of w d) o n = sub w o (Z.of_nat n).
Proof.
  intros Ho Hn. unfold sub. rewrite Nat2Z.id. revert o Ho Hn. induction n as [|n IH]; intros o Ho Hn; [reflexivity|].
  replace (S n) with (1 + n)%nat by lia. rewrite segment_app. rewrite IH by lia.
  assert (Hlt : (Z.to_nat o < length w)%nat) by (unfold len in Hn; lia).
  destruct (lookup_lt_is_Some_2 w (Z.to_nat o) Hlt) as [x Hx]. rewrite (drop_S w x (Z.to_nat o) Hx). cbn. f_equal.
  - unfold stream_of. rewrite Z.add_0_r. by apply nth_lookup_Some.
  - f_equal. f_equal. lia.
Qed.

Lemma sub_length w o n : 0 <= o -> 0 <= n -> o + n <= len w -> length (sub w o n) = Z.to_nat n.
Proof. intros. pose proof (sub_len w o n ltac:(lia) ltac:(lia) ltac:(lia)). unfold len in *. lia. Qed.

(** A list that agrees with every stream that starts with [w] is no longer. *)
Lemma segment_within w n : segment (stream_of w 0) 0 n = segment (stream_of w 1) 0 n -> Z.of_nat n <= len w.
Proof.
  intros H. destruct (Z.le_gt_cases (Z.of_nat n) (len w)) as [?|Hgt]; [done|]. exfalso.
  apply (f_equal (fun l => l !! length w)) in H. unfold segment in H. rewrite !list_lookup_fmap in H.
  rewrite lookup_seq_lt in H by (unfold len in *; lia). cbn in H. unfold stream_of in H. rewrite Z.add_0_l, Nat2Z.id in H.
  rewrite !nth_overflow in H by lia. done.
Qed.

(** ** The final offset *)

(** Where the stream ends is learned from FIN only, as long as nobody resets
    it. *)
Definition ends_at (n : Z) (s : ReceiveStream.ReceiveStream) : Prop :=
  ReceiveStream.finalOffset s = MaxByteCount \/ ReceiveStream.finalOffset s = n.

Definition fin_at (n : Z) (o : Rcv.op) : Prop :=
  match o with
  | Rcv.OpFrame f _ =>
      ReceiveStream.Fin f = true -> i64 (ReceiveStream.Offset f + len (FrameSorter.content (ReceiveStream.Data f))) = n
  | Rcv.OpReset _ _ => False
  | _ => True
  end.

Lemma newly_final s s' b : ReceiveStream.isNewlyCompleted s = (s', b) -> ReceiveStream.finalOffset s' = ReceiveStream.finalOffset s.
Proof. by intros [(-> & _)|(-> & _)]%ReceiveStreamFacts.isNewlyCompleted_cases. Qed.

Lemma abandon_final s c s' c' : ReceiveStream.abandon s c = (s', c') -> ReceiveStream.finalOffset s' = ReceiveStream.finalOffset s.
Proof. unfold ReceiveStream.abandon. destruct (StreamFlow.Abandon _ _). by intros [= <- _]. Qed.

Lemma frame_final n s c f e s' c' ns err : ends_at n s -> fin_at n (Rcv.OpFrame f e) ->
  ReceiveStream.handleStreamFrame s c f e = Ret (s', c', ns, err) -> ends_at n s'.
Proof.
  intros Hs Hf. unfold ReceiveStream.handleStreamFrame.
  destruct (ReceiveStream.handleStreamFrameImpl s c f e) as [[[s1 c1] err1]|e1|] eqn:E; cbn [obind]; [|done..].
  assert (H1 : ends_at n s1).
  { revert E. unfold ReceiveStream.handleStreamFrameImpl. destruct (StreamFlow.UpdateHighestReceived _ _ _ _ _) as [[fc c2] [?|]];
      [by intros [= <- _ _]|].
    set (s2 := if ReceiveStream.Fin f then _ else _). assert (H2 : ends_at n s2).
    { unfold s2. destruct (ReceiveStream.Fin f) eqn:Ef; [right; by apply Hf|done]. }
    clearbody s2. destruct (ReceiveStream.cancelledLocally s2); [by intros [= <- _ _]|].
    destruct (sorter.Push _ _ _ _) as [[q [?|]]|?|]; cbn [obind]; [| |done..]; by intros [= <- _ _]. }
  destruct (ReceiveStream.isNewlyCompleted s1) as [s2 b] eqn:En. apply newly_final in En.
  destruct b; [destruct (ReceiveStream.abandon s2 c1) as [s3 c3] eqn:Ea; apply abandon_final in Ea|];
    intros [= <- _ _ _]; unfold ends_at in *; congruence.
Qed.

Lemma cancel_final s c code s' c' ns : ReceiveStream.CancelRead s c code = (s', c', ns) ->
  ReceiveStream.finalOffset s' = ReceiveStream.finalOffset s.
Proof.
  unfold ReceiveStream.CancelRead. intros H.
  destruct (cancelReadImpl_cases s code) as [[E _]|(_ & _ & stop & err & chan & E & _)]; rewrite E in H;
    match type of H with context [ReceiveStream.isNewlyCompleted ?x] => destruct (ReceiveStream.isNewlyCompleted x) as [s1 b] eqn:En end;
    apply newly_final in En; cbn in En; destruct b;
    try (destruct (ReceiveStream.abandon s1 c) as [s2 c2] eqn:Ea; apply abandon_final in Ea); injection H as <- _ _; congruence.
Qed.

Lemma control_final s c e s' c' f b : ReceiveStream.getControlFrame s c e = Ret (s', c', f, b) ->
  ReceiveStream.finalOffset s' = ReceiveStream.finalOffset s.
Proof.
  unfold ReceiveStream.getControlFrame. destruct (negb _ && negb _); [by intros [= <- _ _ _]|].
  destruct (ReceiveStream.queuedStopSending s); [destruct (ReceiveStream.cancelErr s); [by intros [= <- _ _ _]|done]|].
  destruct (StreamFlow.GetWindowUpdate _ _ _) as [[[fc c1] v]|?|]; cbn [obind]; [by intros [= <- _ _ _]|done..].
Qed.

Section Final.
Context (stream : Z -> Z) (c0 : base) (n : Z).

Lemma read_final m k r res : read_done stream c0 k (Rcv.rs m) r res -> ends_at n (Rcv.rs m) -> ends_at n (Rcv.rs (Rcv.finish_read m k (r, res))).
Proof.
  intros Hd. pose proof (kp_final _ _ (rd_kept _ _ _ _ _ _ Hd)) as Hk. unfold ends_at. destruct res as [d err|]; cbn [Rcv.finish_read];
    [|cbn; by rewrite Hk].
  unfold ReceiveStream.read_end. destruct (ReceiveStream.isNewlyCompleted (ReceiveStream.s_ r)) as [s b] eqn:En. apply newly_final in En.
  cbn. by rewrite En, Hk.
Qed.

Lemma peek_final m k s res : peek_done stream c0 k (Rcv.rs m) s (Rcv.cn m) res -> ends_at n (Rcv.rs m) -> ends_at n (Rcv.rs (Rcv.finish_peek m k (s, res))).
Proof.
  intros Hd. pose proof (kp_final _ _ (pd_kept _ _ _ _ _ _ _ Hd)) as Hk. unfold ends_at.
  destruct res; cbn; by rewrite Hk.
Qed.

Lemma step_final m o m' : Rcv.machine_inv stream c0 m -> Rcv.op_ok stream o -> fin_at n o -> ends_at n (Rcv.rs m) ->
  Rcv.step m o = Ret m' -> ends_at n (Rcv.rs m').
Proof.
  intros [Hi Hs He Hr Hl Hc] Ho Hf Hn. destruct o as [f e|f e|k clock|k now| | |clock|code|e|t|err]; cbn [Rcv.step].
  - destruct (ReceiveStream.handleStreamFrame _ _ f e) as [[[[s c] ns] [err|]]|?|] eqn:E; cbn [obind]; [done| |done..].
    intros [= <-]. cbn. by apply (frame_final n (Rcv.rs m) (Rcv.cn m) f e s c ns None).
  - destruct Hf.
  - destruct (Rcv.reader m) as [[? ?]|]; [by intros [= <-]|].
    destruct (readImpl_spec stream c0 clock k _ _ Hi Ho) as (r & res & -> & Hd). cbn [obind]. intros [= <-]. by apply read_final.
  - destruct (Rcv.reader m) as [[? ?]|]; [by intros [= <-]|].
    destruct (peekImpl_spec stream c0 now k _ (Rcv.cn m) Hi Ho) as (s & res & -> & Hd). cbn [obind]. intros [= <-]. by apply peek_final.
  - destruct (Rcv.reader m) as [[? [|]]|]; [by intros [= <-]| |by intros [= <-]]. destruct (ReceiveStream.readChan _); by intros [= <-].
  - destruct (Rcv.reader m) as [[? [|]]|]; [by intros [= <-]| |by intros [= <-]]. destruct (_ =? 0); by intros [= <-].
  - destruct (Rcv.reader m) as [[[k hs hc d|k] [|]]|] eqn:Er; [|by intros [= <-]| |by intros [= <-]..].
    + destruct (Hc _ _ eq_refl) as (Hlast & Hk & Hnil & -> & -> & ->).
      destruct (read_resume_spec stream c0 clock k (Rcv.rs m) (Rcv.cn m) Hi) as (r & res & Hrr & Hd); [by unfold used_up; rewrite Hnil|done|done|].
      unfold start in Hrr. rewrite Hrr. cbn [obind]. intros [= <-]. by apply read_final.
    + destruct (Hc _ _ eq_refl) as (Hlast & Hk).
      destruct (peek_resume_spec stream c0 (clock 0%nat) k (Rcv.rs m) (Rcv.cn m) Hi Hk Hlast) as (s & res & -> & Hd). cbn [obind].
      intros [= <-]. by apply peek_final.
  - destruct (ReceiveStream.CancelRead _ _ code) as [[s c] ns] eqn:E. intros [= <-]. unfold ends_at. cbn. by rewrite (cancel_final _ _ _ _ _ _ E).
  - destruct (ReceiveStream.getControlFrame _ _ e) as [[[[s c] f] b]|?|] eqn:E; cbn [obind]; [|done..]. intros [= <-].
    unfold ends_at. cbn. by rewrite (control_final _ _ _ _ _ _ _ E).
  - by intros [= <-].
  - by intros [= <-].
Qed.

End Final.

(** ** From a writer to a reader *)

(** The bytes that frames took were written. *)
Lemma kept_le m : Snd.kept m <= len (written m).
Proof.
  unfold Snd.kept, written. rewrite len_app. destruct (writer m) as [[p w]|]; [|change (len []) with 0; lia].
  pose proof (len_nonneg (pending (ss m))). lia.
Qed.

Section Transfer.
Context (id window : Z) (supports : bool) (cs : base).
Hypothesis Hid : is_varint id.
Hypothesis Hwindow : 0 <= window <= MaxByteCount.
Hypothesis Hsending : sending cs.
Context (credit maxCredit back : Z) (cr : base).
Hypothesis Hcredit : 0 < credit <= max_size /\ 0 <= maxCredit <= max_size.
Hypothesis Hreceiving : receiving cr /\ hasAllow cr = true /\ highestReceived cr <= max_offset.

Let sender : Snd.machine := Snd.opened id (StreamFlow.New id 0 0 window) supports cs.
Let receiver : Rcv.machine := Rcv.opened (StreamFlow.New id credit maxCredit back) cr.

(** What is delivered is cut from what was written, whatever follows it. *)
Lemma delivered_ok m d o : Snd.inv m -> SendStream.writeOffset (ss m) <= max_offset -> delivered (sent m) o -> Rcv.op_ok (stream_of (written m) d) o.
Proof.
  intros Hi Hmax. destruct o as [f e|f e|n clock|n now| | |clock|code|e|t|err]; cbn; try done.
  intros (g & Hg & Eo & Ed & _)%List.Exists_exists. pose proof (ct_sent _ (iv_content _ Hi)) as Hs.
  rewrite List.Forall_forall in Hs. destruct (Hs g Hg) as [[] Hdata _]. unfold frame_ok, carries. rewrite Eo, Ed.
  pose proof (len_nonneg (Frames.Data g)). split; [lia|]. split; [lia|].
  pose proof (kept_le m). pose proof (ct_kept _ (iv_content _ Hi)). rewrite segment_of by (unfold len in *; lia). exact Hdata.
Qed.

Lemma delivered_fin m o : Snd.inv m -> Snd.reset (ss m) = false -> SendStream.writeOffset (ss m) <= max_offset ->
  delivered (sent m) o -> (forall f e, o <> Rcv.OpReset f e) -> fin_at (len (written m)) o.
Proof.
  intros Hi Hr Hmax. destruct o as [f e|f e|n clock|n now| | |clock|code|e|t|err]; cbn; try done; [|by intros _ H; destruct (H f e)].
  intros (g & Hg & Eo & Ed & Ef)%List.Exists_exists _ Hfin. pose proof (ct_sent _ (iv_content _ Hi)) as Hs.
  rewrite List.Forall_forall in Hs. destruct (Hs g Hg) as [[] _ Hgf]. rewrite Ef in Hfin. destruct (Hgf Hfin) as [H1 H2].
  destruct (fin_at_end m Hi Hr H1) as (-> & _). rewrite Eo, Ed, (H2 Hr). apply i64_small. unfold max_offset in *.
  pose proof (len_nonneg (Frames.Data g)). lia.
Qed.

(** A receiver keeps to what was written. *)
Lemma receiver_follows m rops : Snd.inv m -> SendStream.writeOffset (ss m) <= max_offset -> Forall (delivered (sent m)) rops ->
  Rcv.run receiver rops <> Panic /\
  forall r, Rcv.run receiver rops = Ret r ->
    Rcv.read_bytes (Rcv.log r) = take (Z.to_nat (ReceiveStream.readPos (Rcv.rs r))) (written m) /\
    0 <= ReceiveStream.readPos (Rcv.rs r) <= len (written m) /\
    Rcv.machine_inv (stream_of (written m) 0) cr r.
Proof.
  intros Hi Hmax Hdel.
  assert (Hrun : forall d, Forall (Rcv.op_ok (stream_of (written m) d)) rops).
  { intros d. eapply Forall_impl; [exact Hdel|]. intros o. by apply delivered_ok. }
  pose proof (Rcv.stream_outcome _ credit maxCredit back id cr Hcredit Hreceiving rops (Hrun 0)) as H0.
  pose proof (Rcv.stream_outcome _ credit maxCredit back id cr Hcredit Hreceiving rops (Hrun 1)) as H1.
  fold receiver in H0, H1. split; [by intros E; rewrite E in H0|]. intros r E. rewrite E in H0, H1.
  destruct H0 as [M0 _], H1 as [M1 _]. pose proof (Rcv.mi_read _ _ _ M0) as R0. pose proof (Rcv.mi_read _ _ _ M1) as R1.
  destruct (positions _ _ _ _ (Rcv.mi_stream _ _ _ M0)) as [Hp _]. rewrite R1 in R0. symmetry in R0.
  pose proof (segment_within _ _ R0) as Hle. rewrite R1, <-R0, segment_of by lia. unfold sub. rewrite Nat2Z.id, drop_0.
  split; [done|]. split; [lia|done].
Qed.

Lemma receiver_end m rops r : Snd.inv m -> Snd.reset (ss m) = false -> SendStream.writeOffset (ss m) <= max_offset ->
  Forall (delivered (sent m)) rops -> Forall (fun o => forall f e, o <> Rcv.OpReset f e) rops -> Rcv.run receiver rops = Ret r ->
  ends_at (len (written m)) (Rcv.rs r).
Proof.
  intros Hi Hr Hmax. revert r. induction rops as [|o rops IH] using rev_ind; intros r Hdel Hno.
  { cbn. intros [= <-]. by left. }
  apply Forall_app in Hdel as [Hdel Ho]. apply Forall_cons in Ho as [Ho _]. apply Forall_app in Hno as [Hno Hn]. apply Forall_cons in Hn as [Hn _].
  destruct (receiver_follows m rops Hi Hmax Hdel) as [_ Hf]. unfold Rcv.run in *. rewrite ofold_app.
  destruct (ofold Rcv.step rops receiver) as [r1| |]; cbn [obind]; [|done..]. cbn [ofold].
  destruct (Rcv.step r1 o) as [r2| |] eqn:E; cbn [obind]; [|done..]. intros [= <-].
  destruct (Hf r1 eq_refl) as (_ & _ & Mi).
  apply (step_final (stream_of (written m) 0) cr (len (written m)) r1 o r2 Mi); auto.
  - by apply delivered_ok.
  - by apply delivered_fin.
Qed.

(** C35. From end to end: a sender and a receiver, and a network that loses,
    repeats and reorders the sender's frames.  The receiver does not panic, and
    what its application read is a prefix of what the sender's application
    wrote.  Where neither side resets the stream, a [Read] that says that the
    stream ended comes after all that was written. *)
Theorem read_what_was_written sops m rops : careful_run sender sops -> Z.of_nat (length sops) < 2 ^ 61 ->
  Snd.run sender sops = Ret m -> SendStream.writeOffset (ss m) <= max_offset -> Forall (delivered (sent m)) rops ->
  Rcv.run receiver rops <> Panic /\
  forall r, Rcv.run receiver rops = Ret r ->
    Rcv.read_bytes (Rcv.log r) = take (Z.to_nat (ReceiveStream.readPos (Rcv.rs r))) (written m) /\
    0 <= ReceiveStream.readPos (Rcv.rs r) <= len (written m) /\
    (Snd.reset (ss m) = false -> Forall (fun o => forall f e, o <> Rcv.OpReset f e) rops ->
     forall n d, In (Rcv.DidRead n d (Some ReceiveStream.EOF)) (Rcv.log r) -> Rcv.read_bytes (Rcv.log r) = written m).
Proof.
  intros Hc Hn Hr Hmax Hdel. destruct (send_run_outcome id window supports cs Hid Hwindow Hsending sops m Hc Hn Hr) as [Hi _].
  destruct (receiver_follows m rops Hi Hmax Hdel) as [Hp Hf]. split; [done|]. intros r E. destruct (Hf r E) as (Hrd & Hpos & Mi).
  split; [done|]. split; [done|]. intros Hrs Hno n d Hin. pose proof (Rcv.mi_log _ _ _ Mi) as Hl.
  rewrite List.Forall_forall in Hl. destruct (Hl _ Hin) as [Hk Hend]. pose proof (fo_final _ _ _ (si_flow _ _ _ _ (Rcv.mi_stream _ _ _ Mi))) as Hfin.
  destruct (positions _ _ _ _ (Rcv.mi_stream _ _ _ Mi)) as (_ & _ & Hh). rewrite Hk in Hfin.
  destruct (receiver_end m rops r Hi Hrs Hmax Hdel Hno E) as [He|He]; rewrite He in *; [unfold MaxByteCount, max_offset in *; lia|].
  rewrite Hrd, Hend. apply take_ge. unfold len. lia.
Qed.

End Transfer.

(** ** Runs that were computed *)

Definition arriving (g : StreamFrame) : Rcv.op :=
  Rcv.OpFrame {| ReceiveStream.Offset := Frames.Offset g;
                 ReceiveStream.Data := {| FrameSorter.buffer := None; FrameSorter.content := Frames.Data g |};
                 ReceiveStream.Fin := Frames.Fin g; ReceiveStream.PutBack := None |} Rcv.demo_env.

Lemma arriving_delivered l : Forall (delivered l) (map arriving l).
Proof.
  apply List.Forall_forall. intros o (g & <- & Hg)%in_map_iff. apply List.Exists_exists. exists g. by split.
Qed.

Definition demo_receiver : Rcv.machine := Rcv.opened (StreamFlow.New 4 4000 8000 0) (Connection.New 5000 9000 true).

(** The frames of [demo_final] arrive in the opposite order, and are read. *)
Definition demo_reads : list Rcv.op :=
  map arriving (rev (sent demo_final)) ++ [Rcv.OpRead 1500 demo_clock; Rcv.OpRead 1500 demo_clock].
Definition demo_received : Rcv.machine := Eval vm_compute in match Rcv.run demo_receiver demo_reads with Ret r => r | _ => demo_receiver end.

Lemma demo_credit : 0 < 4000 <= max_size /\ 0 <= 8000 <= max_size.
Proof. by vm_compute. Qed.
Lemma demo_receiving : receiving (Connection.New 5000 9000 true) /\ hasAllow (Connection.New 5000 9000 true) = true /\
  highestReceived (Connection.New 5000 9000 true) <= max_offset.
Proof. unfold max_offset. split; [constructor; cbn; unfold_bounds; lia|]. split; [done|cbn; lia]. Qed.

Lemma demo_delivered : Forall (delivered (sent demo_final)) demo_reads.
Proof.
  apply Forall_app. split; [|by repeat constructor].
  apply List.Forall_forall. intros o Ho. apply (proj1 (List.Forall_forall _ _) (arriving_delivered (sent demo_final))).
  apply in_map_iff in Ho as (g & <- & Hg). apply in_map. by apply in_rev.
Qed.

Lemma read_what_was_written_witness : Rcv.read_bytes (Rcv.log demo_received) = written demo_final /\ len (written demo_final) = 2010.
Proof.
  destruct (read_what_was_written 4 4000 true demo_conn demo_id demo_send_window demo_conn_sending
    4000 8000 0 (Connection.New 5000 9000 true) demo_credit demo_receiving (demo_ops ++ demo_end) demo_final demo_reads demo_careful)
    as [_ H]; [by vm_compute|by vm_compute|by vm_compute|exact demo_delivered|].
  destruct (H demo_received) as (_ & _ & Hend); [by vm_compute|]. split; [|by vm_compute].
  refine (Hend eq_refl _ 1500 (text 1500 510) _); [|vm_compute; auto].
  apply List.Forall_forall. intros o Ho f e ->. revert Ho. vm_compute. intuition discriminate.
Defined.

(** ** What a reset with a reliable size does to the connection *)

Definition resetting (f : ReceiveStream.reset_frame) : Rcv.op := Rcv.OpReset f Rcv.demo_env.

(** The peer allows three bytes; five are written, three are sent, and all five
    are marked as reliable. *)
Definition beyond_window : Snd.machine :=
  after (Snd.opened 4 (StreamFlow.New 4 0 0 3) true demo_conn)
    [OpWrite (text 0 5) demo_clock; OpBoundary; OpPop 100; OpCancel 7; OpControl].
Definition small_receiver : Rcv.machine := Rcv.opened (StreamFlow.New 4 3 8000 0) (Connection.New 5000 9000 true).

(** Five of ten bytes are marked as reliable; a frame with all of them and FIN
    is lost after the cancellation, and sent again without the other five. *)
Definition cut_with_fin : Snd.machine :=
  after demo_start
    [OpWrite (text 0 5) demo_clock; OpBoundary; OpWrite (text 5 5) demo_clock; OpClose; OpPop 100; OpCancel 7; OpControl;
     OpLost 0; OpPop 100].

(** [CancelWrite] of a stream with a reliable boundary can make the peer
    close the connection.  The RESET_STREAM_AT frame gives a final size beyond
    the peer's window when reliable data still waits for credit.  And a frame
    that is truncated to the reliable size keeps its FIN, which contradicts the
    final size of the reset, in whatever order the two arrive. *)
Theorem reset_at_closes_connection :
  (exists f g e, sent beyond_window = [g] /\ resets beyond_window = [f] /\
     SendStream.writeOffset (ss beyond_window) = 3 /\ ReceiveStream.FinalSize f = 5 /\
     Rcv.run small_receiver [arriving g; resetting f] = Err (TransportError FlowControlError 0 e)) /\
  (exists f g lost e e', sent cut_with_fin = [lost; g] /\ resets cut_with_fin = [f] /\
     Frames.Data g = text 0 5 /\ Frames.Fin g = true /\ ReceiveStream.FinalSize f = 10 /\
     Rcv.run demo_receiver [arriving g; resetting f] = Err (TransportError FinalSizeError 0 e) /\
     Rcv.run demo_receiver [resetting f; arriving g] = Err (TransportError FinalSizeError 0 e')).
Proof. split; [do 3 eexists|do 5 eexists]; repeat (split; [vm_compute; reflexivity|]); vm_compute; reflexivity. Qed.
