(* ===== verification/SentHistory.v ===== *)
(** * Sent packets

    [packet.go], [packet_number_generator.go], [sent_packet_history.go] and
    [lost_packet_tracker.go] of [src/deps/quic-go/internal/ackhandler].  The
    history keeps a slice of pointers: a number that was skipped, and a packet
    that was removed, are [nil].  An iteration over the packets is the list of
    what it will yield: the code only removes the packet it stands at, which
    leaves the rest of the slice as it was.  Packets are returned to a pool
    when nobody refers to them any more; the pool is left out. *)
From S2P Require Import Prelude Protocol AckFrame Frames.

Local Open Scope Z_scope.
Local Open Scope go_scope.

(** ** Packets *)

(** [Frame] and [StreamFrame]: a frame, which is a [StreamF] for the latter,
    and who wants to know what becomes of it *)
Record sent_frame := { Frame_ : Frame; Handler : option nat }.

(** [EncryptionLevel] is [None] in a packet that was not sent. *)
Record packet := {
  SendTime : Z;
  StreamFrames : list sent_frame;
  Frames_ : list sent_frame;
  LargestAcked : Z;
  Length : Z;
  Level : option EncryptionLevel;
  IsPathMTUProbePacket : bool;
  includedInBytesInFlight : bool;
  isPathProbePacket : bool;
}.

Definition IsAckEliciting (p : packet) : bool := (0 <? len (StreamFrames p)) || (0 <? len (Frames_ p)).

Definition Outstanding (p : packet) : bool :=
  negb (IsPathMTUProbePacket p) && negb (isPathProbePacket p) && IsAckEliciting p.

(** [&packet{isPathProbePacket: true}] *)
Definition probe_placeholder : packet :=
  {| SendTime := 0; StreamFrames := []; Frames_ := []; LargestAcked := 0; Length := 0; Level := None;
     IsPathMTUProbePacket := false; includedInBytesInFlight := false; isPathProbePacket := true |}.

(** ** Packet numbers *)

Inductive packetNumberGenerator :=
  | Sequential (next : Z)
  | Skipping (period maxPeriod next nextToSkip : Z).

Module pns.

(** [rand n] is what [rng.Int31n(n)] returns. *)
Definition generateNewSkip (rand : Z -> Z) (period maxPeriod next : Z) : packetNumberGenerator :=
  Skipping (Z.min (i64 (2 * period)) maxPeriod) maxPeriod next (i64 (i64 (next + 3) + rand (i64 (2 * period)))).

Definition newSkipping (rand : Z -> Z) (initial initialPeriod maxPeriod : Z) : packetNumberGenerator :=
  generateNewSkip rand initialPeriod maxPeriod initial.

Definition Peek (g : packetNumberGenerator) : Z :=
  match g with
  | Sequential next => next
  | Skipping _ _ next skip => if next =? skip then i64 (next + 1) else next
  end.

(** The generator, if a number was skipped, and the packet number *)
Definition Pop (rand : Z -> Z) (g : packetNumberGenerator) : packetNumberGenerator * bool * Z :=
  match g with
  | Sequential next => (Sequential (i64 (next + 1)), false, next)
  | Skipping period maxPeriod next skip =>
      if next =? skip
      then (generateNewSkip rand period maxPeriod (i64 (next + 2)), true, i64 (next + 1))
      else (Skipping period maxPeriod (i64 (next + 1)) skip, false, next)
  end.

End pns.

(** ** The history *)

Definition maxSkippedPackets : Z := 4.

Record sentPacketHistory := {
  packets : list (option packet);
  pathProbePackets : list (Z * packet);
  skippedPackets : list Z;
  numOutstanding : Z;
  firstPacketNumber : Z;
  highestPacketNumber : Z;
}.

Definition newSentPacketHistory : sentPacketHistory :=
  {| packets := []; pathProbePackets := []; skippedPackets := []; numOutstanding := 0;
     firstPacketNumber := InvalidPacketNumber; highestPacketNumber := InvalidPacketNumber |}.

Definition with_packets (h : sentPacketHistory) (l : list (option packet)) (num first : Z) : sentPacketHistory :=
  {| packets := l; pathProbePackets := pathProbePackets h; skippedPackets := skippedPackets h; numOutstanding := num;
     firstPacketNumber := first; highestPacketNumber := highestPacketNumber h |}.
Definition with_probes (h : sentPacketHistory) (l : list (Z * packet)) : sentPacketHistory :=
  {| packets := packets h; pathProbePackets := l; skippedPackets := skippedPackets h; numOutstanding := numOutstanding h;
     firstPacketNumber := firstPacketNumber h; highestPacketNumber := highestPacketNumber h |}.
Definition with_skipped (h : sentPacketHistory) (l : list Z) : sentPacketHistory :=
  {| packets := packets h; pathProbePackets := pathProbePackets h; skippedPackets := l; numOutstanding := numOutstanding h;
     firstPacketNumber := firstPacketNumber h; highestPacketNumber := highestPacketNumber h |}.

Module sent.

Definition checkSequentialPacketNumberUse (h : sentPacketHistory) (pn : Z) : outcome sentPacketHistory :=
  if negb (highestPacketNumber h =? InvalidPacketNumber) && negb (pn =? i64 (highestPacketNumber h + 1)) then Panic else
  Ret {| packets := packets h; pathProbePackets := pathProbePackets h; skippedPackets := skippedPackets h;
         numOutstanding := numOutstanding h;
         firstPacketNumber := if len (packets h) =? 0 then pn else firstPacketNumber h; highestPacketNumber := pn |}.

Definition SkippedPacket (h : sentPacketHistory) (pn : Z) : outcome sentPacketHistory :=
  let! h := checkSequentialPacketNumberUse h pn in
  let h := if 0 <? len (packets h) then with_packets h (packets h ++ [None]) (numOutstanding h) (firstPacketNumber h) else h in
  let skipped := if len (skippedPackets h) =? maxSkippedPackets then drop 1 (skippedPackets h) else skippedPackets h in
  Ret (with_skipped h (skipped ++ [pn])).

Definition SentPacket (h : sentPacketHistory) (pn : Z) (p : packet) : outcome sentPacketHistory :=
  let! h := checkSequentialPacketNumberUse h pn in
  Ret (with_packets h (packets h ++ [Some p]) (if Outstanding p then numOutstanding h + 1 else numOutstanding h) (firstPacketNumber h)).

Definition SentPathProbePacket (h : sentPacketHistory) (pn : Z) (p : packet) : outcome sentPacketHistory :=
  let! h := checkSequentialPacketNumberUse h pn in
  Ret (with_probes (with_packets h (packets h ++ [Some probe_placeholder]) (numOutstanding h) (firstPacketNumber h))
         (pathProbePackets h ++ [(pn, p)])).

(** What the iteration over a slice of packets yields, from number [pn] on *)
Fixpoint numbered (pn : Z) (l : list (option packet)) : list (Z * packet) :=
  match l with
  | [] => []
  | None :: l => numbered (i64 (pn + 1)) l
  | Some p :: l => (pn, p) :: numbered (i64 (pn + 1)) l
  end.

Definition Packets (h : sentPacketHistory) : list (Z * packet) := numbered (firstPacketNumber h) (packets h).

Definition HasOutstandingPackets (h : sentPacketHistory) : bool := 0 <? numOutstanding h.
Definition HasOutstandingPathProbes (h : sentPacketHistory) : bool := 0 <? len (pathProbePackets h).

Definition FirstOutstanding (h : sentPacketHistory) : option (Z * packet) :=
  if negb (HasOutstandingPackets h) then None else List.find (fun '(_, p) => Outstanding p) (Packets h).

Definition FirstOutstandingPathProbe (h : sentPacketHistory) : option (Z * packet) := head (pathProbePackets h).

Definition Len (h : sentPacketHistory) : Z := len (packets h).

Definition getIndex (h : sentPacketHistory) (p : Z) : option nat :=
  if len (packets h) =? 0 then None else
  if p <? firstPacketNumber h then None else
  let index := i64 (p - firstPacketNumber h) in
  if len (packets h) - 1 <? index then None else Some (Z.to_nat index).

(** The slice without the [nil] entries at its start, and its first number *)
Fixpoint drop_nils (l : list (option packet)) (first : Z) : list (option packet) * Z :=
  match l with
  | [] => ([], InvalidPacketNumber)
  | None :: l => drop_nils l (i64 (first + 1))
  | Some p :: l => (Some p :: l, first)
  end.

Definition cleanupStart (h : sentPacketHistory) : sentPacketHistory :=
  let '(l, first) := drop_nils (packets h) (firstPacketNumber h) in with_packets h l (numOutstanding h) first.

(** [numOutstanding] without [p], and [nil] in its place *)
Definition forget (h : sentPacketHistory) (idx : nat) (p : packet) : outcome sentPacketHistory :=
  let num := if Outstanding p then numOutstanding h - 1 else numOutstanding h in
  if num <? 0 then Panic else Ret (with_packets h (<[idx := None]> (packets h)) num (firstPacketNumber h)).

Definition is_some {A : Type} (o : option A) : bool := match o with Some _ => true | None => false end.

Definition Remove (h : sentPacketHistory) (pn : Z) : outcome sentPacketHistory :=
  match getIndex h pn with
  | None => Err (Errorf "packet %d not found in sent packet history" [pretty pn])
  | Some idx =>
      match packets h !! idx with
      | Some (Some p) =>
          let! h := forget h idx p in
          let hasPacketBefore := existsb is_some (take idx (packets h)) in
          let h := if hasPacketBefore then h else cleanupStart h in
          match packets h with None :: _ => Panic | _ => Ret h end
      | _ => Panic
      end
  end.

(** The loop that looks for the probe *)
Fixpoint find_probe (l : list (Z * packet)) (pn : Z) : option (nat * packet) :=
  match l with
  | [] => None
  | (n, p) :: l =>
      if n =? pn then Some (0%nat, p) else
      match find_probe l pn with Some (i, q) => Some (S i, q) | None => None end
  end.

Definition RemovePathProbe (h : sentPacketHistory) (pn : Z) : sentPacketHistory * option packet :=
  match find_probe (pathProbePackets h) pn with
  | Some (idx, p) => (with_probes h (delete idx (pathProbePackets h)), Some p)
  | None => (h, None)
  end.

(** [LowestPacketNumber] *)
Definition LowestPacketNumber (h : sentPacketHistory) : Z :=
  if len (packets h) =? 0 then InvalidPacketNumber else firstPacketNumber h.

Definition DeclareLost (h : sentPacketHistory) (pn : Z) : outcome sentPacketHistory :=
  match getIndex h pn with
  | None => Ret h
  | Some idx =>
      match packets h !! idx with
      | Some (Some p) => let! h := forget h idx p in Ret (match idx with O => cleanupStart h | S _ => h end)
      | _ => Panic
      end
  end.

Definition Difference (h : sentPacketHistory) (a b : Z) : Z :=
  let diff := i64 (a - b) in
  match head (skippedPackets h), last (skippedPackets h) with
  | Some first, Some last =>
      if (a <? first) || (last <? b) then diff else
      fold_left (fun d p => if (b <? p) && (p <? a) then i64 (d - 1) else d) (skippedPackets h) diff
  | _, _ => diff
  end.

(** The iteration of [MigratedPath] over the probes, which removes them as it
    goes: the deletion moves the elements of the slice that is iterated over.
    [arr] is that slice, whose first [live] elements the history keeps, and
    the loop is at element [i]. *)
Fixpoint remove_while_iterating (rounds : nat) (i live : nat) (arr : list (Z * packet)) : list (Z * packet) :=
  match rounds with
  | O => take live arr
  | S rounds =>
      match arr !! i with
      | None => take live arr
      | Some (pn, _) =>
          match find_probe (take live arr) pn with
          | None => remove_while_iterating rounds (S i) live arr
          | Some (idx, _) =>
              remove_while_iterating rounds (S i) (live - 1)
                (take idx arr ++ drop (S idx) (take live arr) ++ drop (live - 1) arr)
          end
      end
  end.

Definition RemoveAllPathProbes (h : sentPacketHistory) : sentPacketHistory :=
  let l := pathProbePackets h in with_probes h (remove_while_iterating (length l) 0 (length l) l).

End sent.

(** ** Lost packets *)

Record lostPacketTracker := { maxLength : Z; lostPackets : list (Z * Z) }.

Module lost.

Definition newLostPacketTracker (max : Z) : lostPacketTracker := {| maxLength := max; lostPackets := [] |}.

Definition Add (t : lostPacketTracker) (pn sendTime : Z) : lostPacketTracker :=
  {| maxLength := maxLength t;
     lostPackets := (if len (lostPackets t) =? maxLength t then drop 1 (lostPackets t) else lostPackets t) ++ [(pn, sendTime)] |}.

Definition Delete (t : lostPacketTracker) (pn : Z) : lostPacketTracker :=
  {| maxLength := maxLength t; lostPackets := List.filter (fun p => negb (p.1 =? pn)) (lostPackets t) |}.

Fixpoint drop_before (l : list (Z * Z)) (ti : Z) : list (Z * Z) :=
  match l with
  | (pn, t) :: l' => if t <? ti then drop_before l' ti else l
  | [] => []
  end.

Definition DeleteBefore (t : lostPacketTracker) (ti : Z) : lostPacketTracker :=
  {| maxLength := maxLength t; lostPackets := drop_before (lostPackets t) ti |}.

End lost.
