(* ===== verification/Rtt.v ===== *)
(** * Round-trip times

    [src/deps/quic-go/internal/utils/rtt_stats.go], with Go's [float32]: the
    binary32 instance of the arithmetic of [GoFloat].  Each operation rounds
    once, as on amd64; Go allows other machines to fuse them. *)
From S2P Require Import Prelude GoFloat.
From Stdlib Require Import SpecFloat.

Local Open Scope Z_scope.
Local Open Scope go_scope.

(** ** [float32] *)

Definition f32 (z : Z) : spec_float := binary_normalize 24 128 z 0 false.
Definition fadd32 : spec_float -> spec_float -> spec_float := SFadd 24 128.
Definition fmul32 : spec_float -> spec_float -> spec_float := SFmul 24 128.

(** A constant with a power of two below *)
Definition f32_pow2 (m e : Z) : spec_float := binary_normalize 24 128 m e false.

(** ** The statistics *)

Definition Millisecond : Z := 1000000.
Definition Microsecond : Z := 1000.
Definition Second : Z := 1000000000.
Definition TimerGranularity : Z := Millisecond.
Definition DefaultInitialRTT : Z := 100 * Millisecond.

Record RTTStats := {
  HasMeasurement : bool;
  MinRTT : Z;
  LatestRTT : Z;
  SmoothedRTT : Z;
  MeanDeviation : Z;
  MaxAckDelay : Z;
}.

Module rtt.

Definition NewRTTStats : RTTStats :=
  {| HasMeasurement := false; MinRTT := DefaultInitialRTT; LatestRTT := DefaultInitialRTT; SmoothedRTT := DefaultInitialRTT;
     MeanDeviation := 0; MaxAckDelay := 0 |}.

Definition PTO (r : RTTStats) (includeMaxAckDelay : bool) : Z :=
  if negb (HasMeasurement r) then 2 * DefaultInitialRTT else
  let pto := i64 (SmoothedRTT r + Z.max (i64 (4 * MeanDeviation r)) TimerGranularity) in
  if includeMaxAckDelay then i64 (pto + MaxAckDelay r) else pto.

(** [x/time.Microsecond] as a [float32] *)
Definition micros (x : Z) : spec_float := f32 (Z.quot x Microsecond).

(** [time.Duration(f) * time.Microsecond] *)
Definition of_micros (f : spec_float) : Z := i64 (int_of_f64 f * Microsecond).

(** [d.Abs()] *)
Definition abs_duration (d : Z) : Z := if 0 <=? d then d else if d =? minInt64 then maxInt64 else - d.

(** [oneMinusBeta*a + rttBeta*b] *)
Definition mean_deviation (old diff : Z) : Z :=
  of_micros (fadd32 (fmul32 (f32_pow2 3 (-2)) (micros old)) (fmul32 (f32_pow2 1 (-2)) (micros diff))).

(** [a*oneMinusAlpha + b*rttAlpha] *)
Definition smoothed (old sample : Z) : Z :=
  of_micros (fadd32 (fmul32 (micros old) (f32_pow2 7 (-3))) (fmul32 (micros sample) (f32_pow2 1 (-3)))).

Definition UpdateRTT (r : RTTStats) (sendDelta ackDelay : Z) : RTTStats :=
  if sendDelta <=? 0 then r else
  let minRTT := if negb (HasMeasurement r) || (sendDelta <? MinRTT r) then sendDelta else MinRTT r in
  let sample := if ackDelay <=? i64 (sendDelta - minRTT) then i64 (sendDelta - ackDelay) else sendDelta in
  if negb (HasMeasurement r) then
    {| HasMeasurement := true; MinRTT := minRTT; LatestRTT := sample; SmoothedRTT := sample;
       MeanDeviation := Z.quot sample 2; MaxAckDelay := MaxAckDelay r |}
  else
    {| HasMeasurement := true; MinRTT := minRTT; LatestRTT := sample; SmoothedRTT := smoothed (SmoothedRTT r) sample;
       MeanDeviation := mean_deviation (MeanDeviation r) (abs_duration (i64 (SmoothedRTT r - sample)));
       MaxAckDelay := MaxAckDelay r |}.

Definition SetMaxAckDelay (r : RTTStats) (mad : Z) : RTTStats :=
  {| HasMeasurement := HasMeasurement r; MinRTT := MinRTT r; LatestRTT := LatestRTT r; SmoothedRTT := SmoothedRTT r;
     MeanDeviation := MeanDeviation r; MaxAckDelay := mad |}.

Definition SetInitialRTT (r : RTTStats) (t : Z) : RTTStats :=
  if HasMeasurement r then r else
  {| HasMeasurement := false; MinRTT := MinRTT r; LatestRTT := t; SmoothedRTT := t; MeanDeviation := MeanDeviation r;
     MaxAckDelay := MaxAckDelay r |}.

Definition ResetForPathMigration (r : RTTStats) : RTTStats :=
  {| HasMeasurement := false; MinRTT := DefaultInitialRTT; LatestRTT := DefaultInitialRTT; SmoothedRTT := DefaultInitialRTT;
     MeanDeviation := 0; MaxAckDelay := MaxAckDelay r |}.

End rtt.

(** Two samples: 100 ms, then 200 ms with an ACK delay of 10 ms *)
Example two_samples :
  let r := rtt.UpdateRTT (rtt.UpdateRTT rtt.NewRTTStats 100000000 0) 200000000 10000000 in
  (SmoothedRTT r, MeanDeviation r, MinRTT r, LatestRTT r) = (111250000, 60000000, 100000000, 190000000).
Proof. vm_compute. reflexivity. Qed.
