(* ===== verification/Congestion.v ===== *)
(** * Congestion control

    [src/deps/quic-go/internal/congestion]: hybrid slow start, the pacer, and
    [cubicSender].  The only call of [NewCubicSender] asks for Reno, so that
    the cubic window function ([cubic.go]) is never used: of [Cubic] the
    sender only resets fields, which nothing reads.  The round-trip times are
    shared with the sent packet handler and passed along; the pacer's
    bandwidth callback is a function of them and of the sender.  Statistics
    and qlog events are left out. *)
From S2P Require Import Prelude Protocol GoFloat Rtt.

Local Open Scope Z_scope.
Local Open Scope go_scope.

(** ** Hybrid slow start *)

Record HybridSlowStart := {
  endPacketNumber : Z;
  lastSentPacketNumber : Z;
  started : bool;
  currentMinRTT : Z;
  rttSampleCount : Z;
  hystartFound : bool;
}.

Module hystart.

Definition hybridStartLowWindow : Z := 16.
Definition hybridStartMinSamples : Z := 8.
Definition hybridStartDelayMinThresholdUs : Z := 4000.
Definition hybridStartDelayMaxThresholdUs : Z := 16000.

Definition new : HybridSlowStart :=
  {| endPacketNumber := 0; lastSentPacketNumber := 0; started := false; currentMinRTT := 0; rttSampleCount := 0;
     hystartFound := false |}.

Definition StartReceiveRound (s : HybridSlowStart) (lastSent : Z) : HybridSlowStart :=
  {| endPacketNumber := lastSent; lastSentPacketNumber := lastSentPacketNumber s; started := true; currentMinRTT := 0;
     rttSampleCount := 0; hystartFound := hystartFound s |}.

Definition IsEndOfRound (s : HybridSlowStart) (ack : Z) : bool := endPacketNumber s <? ack.

Definition with_sample (s : HybridSlowStart) (minRTT count : Z) (found : bool) : HybridSlowStart :=
  {| endPacketNumber := endPacketNumber s; lastSentPacketNumber := lastSentPacketNumber s; started := started s;
     currentMinRTT := minRTT; rttSampleCount := count; hystartFound := found |}.

(** By how much the RTT has to grow *)
Definition threshold (minRTT : Z) : Z :=
  let us := Z.min (Z.shiftr (Z.quot minRTT Microsecond) 3) hybridStartDelayMaxThresholdUs in
  i64 (Z.max us hybridStartDelayMinThresholdUs * Microsecond).

Definition ShouldExitSlowStart (s : HybridSlowStart) (latestRTT minRTT congestionWindow : Z) : HybridSlowStart * bool :=
  let s := if started s then s else StartReceiveRound s (lastSentPacketNumber s) in
  if hystartFound s then (s, true) else
  let count := u32 (rttSampleCount s + 1) in
  let current :=
    if (count <=? hybridStartMinSamples) && ((currentMinRTT s =? 0) || (latestRTT <? currentMinRTT s))
    then latestRTT else currentMinRTT s in
  let found := (count =? hybridStartMinSamples) && (i64 (minRTT + threshold minRTT) <? current) in
  let s := with_sample s current count found in
  (s, (hybridStartLowWindow <=? congestionWindow) && found).

Definition OnPacketSent (s : HybridSlowStart) (pn : Z) : HybridSlowStart :=
  {| endPacketNumber := endPacketNumber s; lastSentPacketNumber := pn; started := started s;
     currentMinRTT := currentMinRTT s; rttSampleCount := rttSampleCount s; hystartFound := hystartFound s |}.

Definition with_started (s : HybridSlowStart) (st found : bool) : HybridSlowStart :=
  {| endPacketNumber := endPacketNumber s; lastSentPacketNumber := lastSentPacketNumber s; started := st;
     currentMinRTT := currentMinRTT s; rttSampleCount := rttSampleCount s; hystartFound := found |}.

Definition OnPacketAcked (s : HybridSlowStart) (pn : Z) : HybridSlowStart :=
  if IsEndOfRound s pn then with_started s false (hystartFound s) else s.

Definition Restart (s : HybridSlowStart) : HybridSlowStart := with_started s false false.

End hystart.

(** ** The pacer *)

Definition InitialPacketSize : Z := 1280.
Definition MinPacingDelay : Z := Millisecond.
Definition maxBurstSizePackets : Z := 10.
Definition maxUint64 : Z := 2 ^ 64 - 1.

Record pacer := { budgetAtLastSent : Z; pacerDatagramSize : Z; lastSentTime : Z }.

Module pacing.

(** [bw] is what [adjustedBandwidth] returns, in bytes per second. *)
Definition timeScaledBandwidth (p : pacer) (bw ns : Z) : Z :=
  if bw =? 0 then 0 else
  if maxUint64 / bw <? ns then i64 (maxBurstSizePackets * pacerDatagramSize p) else i64 (u64 (bw * ns) / 1000000000).

Definition maxBurstSize (p : pacer) (bw : Z) : Z :=
  Z.max (timeScaledBandwidth p bw (MinPacingDelay + TimerGranularity)) (i64 (maxBurstSizePackets * pacerDatagramSize p)).

Definition newPacer (bw : Z) : pacer :=
  let p := {| budgetAtLastSent := 0; pacerDatagramSize := InitialPacketSize; lastSentTime := 0 |} in
  {| budgetAtLastSent := maxBurstSize p bw; pacerDatagramSize := InitialPacketSize; lastSentTime := 0 |}.

Definition Budget (p : pacer) (bw now : Z) : Z :=
  if lastSentTime p =? 0 then maxBurstSize p bw else
  let delta := i64 (now - lastSentTime p) in
  let added := if 0 <? delta then timeScaledBandwidth p bw delta else 0 in
  let budget := i64 (budgetAtLastSent p + added) in
  let budget := if (0 <? added) && (budget <? budgetAtLastSent p) then MaxByteCount else budget in
  Z.min (maxBurstSize p bw) budget.

Definition SentPacket (p : pacer) (bw sendTime size : Z) : pacer :=
  let budget := Budget p bw sendTime in
  {| budgetAtLastSent := if budget <=? size then 0 else i64 (budget - size); pacerDatagramSize := pacerDatagramSize p;
     lastSentTime := sendTime |}.

(** A bandwidth of 0 makes the division panic. *)
Definition TimeUntilSend (p : pacer) (bw : Z) : outcome Z :=
  if pacerDatagramSize p <=? budgetAtLastSent p then Ret 0 else
  let diff := u64 (1000000000 * u64 (pacerDatagramSize p - budgetAtLastSent p)) in
  let! d := udiv diff bw in
  let d := if 0 <? diff mod bw then u64 (d + 1) else d in
  Ret (i64 (lastSentTime p + Z.max MinPacingDelay (i64 d))).

Definition SetMaxDatagramSize (p : pacer) (s : Z) : pacer :=
  {| budgetAtLastSent := budgetAtLastSent p; pacerDatagramSize := s; lastSentTime := lastSentTime p |}.

End pacing.

(** ** The sender *)

Definition initialCongestionWindow : Z := 32.
Definition minCongestionWindowPackets : Z := 2.
Definition MaxCongestionWindowPackets : Z := 10000.
Definition maxBurstPackets : Z := 3.

Record cubicSender := {
  hybridSlowStart : HybridSlowStart;
  pacer_ : pacer;
  largestSentPacketNumber : Z;
  largestAckedPacketNumber : Z;
  largestSentAtLastCutback : Z;
  lastCutbackExitedSlowstart : bool;
  congestionWindow : Z;
  slowStartThreshold : Z;
  numAckedPackets : Z;
  initialCwnd : Z;
  initialMaxCwnd : Z;
  maxDatagramSize : Z;
}.

Definition with_pacing (c : cubicSender) (h : HybridSlowStart) (p : pacer) (sent acked : Z) : cubicSender :=
  {| hybridSlowStart := h; pacer_ := p; largestSentPacketNumber := sent; largestAckedPacketNumber := acked;
     largestSentAtLastCutback := largestSentAtLastCutback c; lastCutbackExitedSlowstart := lastCutbackExitedSlowstart c;
     congestionWindow := congestionWindow c; slowStartThreshold := slowStartThreshold c; numAckedPackets := numAckedPackets c;
     initialCwnd := initialCwnd c; initialMaxCwnd := initialMaxCwnd c; maxDatagramSize := maxDatagramSize c |}.
Definition with_window (c : cubicSender) (cutback : Z) (exited : bool) (cwnd ssthresh acked size : Z) : cubicSender :=
  {| hybridSlowStart := hybridSlowStart c; pacer_ := pacer_ c; largestSentPacketNumber := largestSentPacketNumber c;
     largestAckedPacketNumber := largestAckedPacketNumber c; largestSentAtLastCutback := cutback;
     lastCutbackExitedSlowstart := exited; congestionWindow := cwnd; slowStartThreshold := ssthresh;
     numAckedPackets := acked; initialCwnd := initialCwnd c; initialMaxCwnd := initialMaxCwnd c; maxDatagramSize := size |}.

Module reno.

(** [BandwidthFromDelta]: [Bandwidth] is a [uint64]. *)
Definition BandwidthFromDelta (bytes delta : Z) : Z := u64 (u64 (u64 bytes * Second) / u64 delta * 8).

Definition BandwidthEstimate (c : cubicSender) (r : RTTStats) : Z :=
  BandwidthFromDelta (congestionWindow c) (if SmoothedRTT r =? 0 then TimerGranularity else SmoothedRTT r).

(** The pacer's [adjustedBandwidth] *)
Definition adjustedBandwidth (c : cubicSender) (r : RTTStats) : Z := u64 (BandwidthEstimate c r / 8 * 5) / 4.

Definition NewCubicSender (r : RTTStats) (initialMaxDatagramSize : Z) : cubicSender :=
  let c :=
    {| hybridSlowStart := hystart.new; pacer_ := {| budgetAtLastSent := 0; pacerDatagramSize := 0; lastSentTime := 0 |};
       largestSentPacketNumber := InvalidPacketNumber; largestAckedPacketNumber := InvalidPacketNumber;
       largestSentAtLastCutback := InvalidPacketNumber; lastCutbackExitedSlowstart := false;
       congestionWindow := i64 (initialCongestionWindow * initialMaxDatagramSize); slowStartThreshold := MaxByteCount;
       numAckedPackets := 0; initialCwnd := i64 (initialCongestionWindow * initialMaxDatagramSize);
       initialMaxCwnd := i64 (MaxCongestionWindowPackets * initialMaxDatagramSize);
       maxDatagramSize := initialMaxDatagramSize |} in
  with_pacing c hystart.new (pacing.newPacer (adjustedBandwidth c r)) InvalidPacketNumber InvalidPacketNumber.

Definition TimeUntilSend (c : cubicSender) (r : RTTStats) : outcome Z :=
  pacing.TimeUntilSend (pacer_ c) (adjustedBandwidth c r).

Definition HasPacingBudget (c : cubicSender) (r : RTTStats) (now : Z) : bool :=
  maxDatagramSize c <=? pacing.Budget (pacer_ c) (adjustedBandwidth c r) now.

Definition maxCongestionWindow (c : cubicSender) : Z := i64 (maxDatagramSize c * MaxCongestionWindowPackets).
Definition minCongestionWindow (c : cubicSender) : Z := i64 (maxDatagramSize c * minCongestionWindowPackets).

Definition OnPacketSent (c : cubicSender) (r : RTTStats) (sentTime pn bytes : Z) (isRetransmittable : bool) : cubicSender :=
  let p := pacing.SentPacket (pacer_ c) (adjustedBandwidth c r) sentTime bytes in
  if negb isRetransmittable
  then with_pacing c (hybridSlowStart c) p (largestSentPacketNumber c) (largestAckedPacketNumber c)
  else with_pacing c (hystart.OnPacketSent (hybridSlowStart c) pn) p pn (largestAckedPacketNumber c).

Definition CanSend (c : cubicSender) (bytesInFlight : Z) : bool := bytesInFlight <? congestionWindow c.

Definition InRecovery (c : cubicSender) : bool :=
  negb (largestAckedPacketNumber c =? InvalidPacketNumber) && (largestAckedPacketNumber c <=? largestSentAtLastCutback c).

Definition InSlowStart (c : cubicSender) : bool := congestionWindow c <? slowStartThreshold c.

(** A datagram size of 0 makes the division panic. *)
Definition MaybeExitSlowStart (c : cubicSender) (r : RTTStats) : outcome cubicSender :=
  if negb (InSlowStart c) then Ret c else
  if maxDatagramSize c =? 0 then Panic else
  let '(h, exit) :=
    hystart.ShouldExitSlowStart (hybridSlowStart c) (LatestRTT r) (MinRTT r) (Z.quot (congestionWindow c) (maxDatagramSize c)) in
  let c := with_pacing c h (pacer_ c) (largestSentPacketNumber c) (largestAckedPacketNumber c) in
  Ret (if exit
       then with_window c (largestSentAtLastCutback c) (lastCutbackExitedSlowstart c) (congestionWindow c) (congestionWindow c)
              (numAckedPackets c) (maxDatagramSize c)
       else c).

Definition isCwndLimited (c : cubicSender) (bytesInFlight : Z) : bool :=
  (congestionWindow c <=? bytesInFlight) ||
  (InSlowStart c && (Z.quot (congestionWindow c) 2 <? bytesInFlight)) ||
  (i64 (congestionWindow c - bytesInFlight) <=? i64 (maxBurstPackets * maxDatagramSize c)).

Definition with_cwnd (c : cubicSender) (cwnd acked : Z) : cubicSender :=
  with_window c (largestSentAtLastCutback c) (lastCutbackExitedSlowstart c) cwnd (slowStartThreshold c) acked (maxDatagramSize c).

Definition maybeIncreaseCwnd (c : cubicSender) (priorInFlight : Z) : outcome cubicSender :=
  if negb (isCwndLimited c priorInFlight) then Ret c else
  if maxCongestionWindow c <=? congestionWindow c then Ret c else
  if InSlowStart c then Ret (with_cwnd c (i64 (congestionWindow c + maxDatagramSize c)) (numAckedPackets c)) else
  let acked := u64 (numAckedPackets c + 1) in
  if maxDatagramSize c =? 0 then Panic else
  Ret (if u64 (Z.quot (congestionWindow c) (maxDatagramSize c)) <=? acked
       then with_cwnd c (i64 (congestionWindow c + maxDatagramSize c)) 0
       else with_cwnd c (congestionWindow c) acked).

Definition OnPacketAcked (c : cubicSender) (pn priorInFlight : Z) : outcome cubicSender :=
  let c := with_pacing c (hybridSlowStart c) (pacer_ c) (largestSentPacketNumber c) (Z.max pn (largestAckedPacketNumber c)) in
  if InRecovery c then Ret c else
  let! c := maybeIncreaseCwnd c priorInFlight in
  Ret (if InSlowStart c
       then with_pacing c (hystart.OnPacketAcked (hybridSlowStart c) pn) (pacer_ c) (largestSentPacketNumber c) (largestAckedPacketNumber c)
       else c).

(** [protocol.ByteCount(float64(cwnd) * renoBeta)] *)
Definition back_off (cwnd : Z) : Z := int_of_f64 (fmul (f64 cwnd) (fconst 7 10)).

Definition OnCongestionEvent (c : cubicSender) (pn : Z) : cubicSender :=
  if pn <=? largestSentAtLastCutback c then c else
  let cwnd := Z.max (back_off (congestionWindow c)) (minCongestionWindow c) in
  with_window c (largestSentPacketNumber c) (InSlowStart c) cwnd cwnd 0 (maxDatagramSize c).

Definition OnRetransmissionTimeout (c : cubicSender) (packetsRetransmitted : bool) : cubicSender :=
  let c := with_window c InvalidPacketNumber (lastCutbackExitedSlowstart c) (congestionWindow c) (slowStartThreshold c)
             (numAckedPackets c) (maxDatagramSize c) in
  if negb packetsRetransmitted then c else
  let c := with_pacing c (hystart.Restart (hybridSlowStart c)) (pacer_ c) (largestSentPacketNumber c) (largestAckedPacketNumber c) in
  with_window c (largestSentAtLastCutback c) (lastCutbackExitedSlowstart c) (minCongestionWindow c)
    (Z.quot (congestionWindow c) 2) (numAckedPackets c) (maxDatagramSize c).

Definition OnConnectionMigration (c : cubicSender) : cubicSender :=
  let c := with_pacing c (hystart.Restart (hybridSlowStart c)) (pacer_ c) InvalidPacketNumber InvalidPacketNumber in
  with_window c InvalidPacketNumber false (initialCwnd c) (initialMaxCwnd c) 0 (maxDatagramSize c).

Definition SetMaxDatagramSize (c : cubicSender) (s : Z) : outcome cubicSender :=
  if s <? maxDatagramSize c then Panic else
  let isMin := congestionWindow c =? minCongestionWindow c in
  let c' := with_window c (largestSentAtLastCutback c) (lastCutbackExitedSlowstart c) (congestionWindow c) (slowStartThreshold c)
              (numAckedPackets c) s in
  let c' := if isMin then with_cwnd c' (minCongestionWindow c') (numAckedPackets c') else c' in
  Ret (with_pacing c' (hybridSlowStart c') (pacing.SetMaxDatagramSize (pacer_ c') s) (largestSentPacketNumber c')
         (largestAckedPacketNumber c')).

End reno.

(** ** The pacer *)

(** At the time the pacer names there is room for a packet, if the pacer and
    the sender have the same datagram size. *)
Theorem pacer_wakes_with_budget (c : cubicSender) (r : RTTStats) t :
  pacerDatagramSize (pacer_ c) = maxDatagramSize c -> 0 < maxDatagramSize c <= 2 ^ 20 ->
  0 <= budgetAtLastSent (pacer_ c) <= 2 ^ 60 -> 0 < lastSentTime (pacer_ c) <= 2 ^ 60 ->
  0 <= reno.adjustedBandwidth c r < 2 ^ 64 -> reno.TimeUntilSend c r = Ret t ->
  reno.HasPacingBudget c r (Z.max t (lastSentTime (pacer_ c))) = true.
Proof.
  unfold reno.TimeUntilSend, reno.HasPacingBudget, pacing.TimeUntilSend, pacing.Budget. set (bw := reno.adjustedBandwidth c r).
  destruct (pacer_ c) as [budget size last]. cbn [pacerDatagramSize budgetAtLastSent lastSentTime]. set (p := {| budgetAtLastSent := _ |}).
  intros -> Hs Hb Hl Hbw Ht. apply Z.leb_le. rewrite (proj2 (Z.eqb_neq last 0)) by lia.
  assert (Hburst : maxDatagramSize c <= pacing.maxBurstSize p bw).
  { unfold pacing.maxBurstSize, p. cbn [pacerDatagramSize]. unfold maxBurstSizePackets. assert (i64 (10 * maxDatagramSize c) = 10 * maxDatagramSize c) as -> by (apply i64_small; lia). etransitivity; [|apply Z.le_max_r]. lia. }
  apply Z.min_glb; [exact Hburst|]. destruct (Z.leb_spec (maxDatagramSize c) budget) as [Hge|Hlt].
  - injection Ht as <-. rewrite Z.max_r by lia. rewrite Z.sub_diag. change (i64 0) with 0. change (0 <? 0) with false. cbn [andb]. rewrite Z.ltb_irrefl. cbn [andb]. rewrite Z.add_0_r, i64_small by lia. lia.
  - assert (Hbw0 : bw <> 0) by (intros E; unfold udiv in Ht; by rewrite E in Ht).
    rewrite udiv_Ret in Ht by lia. cbn [obind] in Ht. injection Ht as <-.
    remember (maxDatagramSize c - budget) as need eqn:En. assert (Hneed : 0 < need <= 2 ^ 20) by lia. rewrite (u64_small need), (u64_small (1000000000 * need)) by lia.
    set (d := if 0 <? (1000000000 * need) mod bw then _ else _).
    assert (Hd : 1000000000 * need <= bw * d /\ 0 <= d <= 2 ^ 52).
    { pose proof (Z.div_mod (1000000000 * need) bw ltac:(lia)) as Hdm. pose proof (Z.mod_pos_bound (1000000000 * need) bw ltac:(lia)) as Hm.
      assert (Hq : 0 <= 1000000000 * need / bw <= 1000000000 * need).
      { split; [apply Z.div_pos; lia|]. apply Z.div_le_upper_bound; [lia|]. nia. }
      unfold d. clear d Hburst. remember (1000000000 * need / bw) as q eqn:Eq. remember ((1000000000 * need) mod bw) as m eqn:Em. clear Eq Em.
      case Z.ltb_spec; intros Hr; [rewrite u64_small by lia|]; split; try lia; nia. }
    clearbody d. destruct Hd as [Hd1 Hd2]. rewrite (i64_small d) by lia. unfold MinPacingDelay, Millisecond. set (w := Z.max 1000000 d).
    rewrite (i64_small (last + w)) by lia. rewrite Z.max_l by lia. replace (last + w - last) with w by lia. rewrite (i64_small w) by lia.
    rewrite (proj2 (Z.ltb_lt 0 w)) by lia.
    assert (Hadd : need <= pacing.timeScaledBandwidth p bw w <= 2 ^ 40).
    { unfold pacing.timeScaledBandwidth. rewrite (proj2 (Z.eqb_neq _ _)) by done. case Z.ltb_spec; intros Hov.
      - unfold p. cbn [pacerDatagramSize]. unfold maxBurstSizePackets. rewrite i64_small by lia. lia.
      - assert (Hmul : bw * w <= maxUint64).
        { pose proof (Z.mul_div_le maxUint64 bw ltac:(lia)). nia. }
        unfold maxUint64 in Hmul. rewrite (u64_small (bw * w)) by nia.
        assert (Hdiv : need <= bw * w / 1000000000) by (apply Z.div_le_lower_bound; [lia|]; nia).
        assert (Hup : bw * w / 1000000000 <= 2 ^ 40) by (apply Z.div_le_upper_bound; lia). rewrite i64_small by lia. lia. }
    rewrite (i64_small (budget + _)) by lia. rewrite (proj2 (Z.ltb_ge _ budget)) by lia. rewrite andb_false_r. lia.
Qed.

(** With a datagram size above the default, the pacer says that a packet may
    be sent at once when it leaves no room for one: it takes the default for
    the datagram size until the size is raised. *)
Definition burst (size : Z) (n : nat) : cubicSender :=
  fold_left (fun c i => reno.OnPacketSent c rtt.NewRTTStats Second (Z.of_nat i) size true) (seq 0 n) (reno.NewCubicSender rtt.NewRTTStats size).

Theorem pacer_never_waits :
  let c := reno.OnPacketSent (burst 1400 8) rtt.NewRTTStats Second 8 300 true in
  reno.TimeUntilSend c rtt.NewRTTStats = Ret 0 /\ reno.HasPacingBudget c rtt.NewRTTStats Second = false.
Proof. vm_compute. done. Qed.
