(* ===== verification/Ecn.v ===== *)
(** * ECN validation

    [src/deps/quic-go/internal/ackhandler/ecn.go]: ten packets are marked to
    test the path, and marking goes on when the peer's counts show that the
    marks arrive.  qlog events and log messages are left out; a packet counts
    by its number only. *)
From S2P Require Import Prelude Protocol AckTracker.

Local Open Scope Z_scope.
Local Open Scope go_scope.

Inductive ecnState := ecnStateInitial | ecnStateTesting | ecnStateUnknown | ecnStateCapable | ecnStateFailed.
#[global] Instance ecn_state_eq_dec : EqDecision ecnState.
Proof. solve_decision. Defined.

Record ecnTracker := {
  state : ecnState;
  numSentTesting : Z;
  numLostTesting : Z;
  firstTestingPacket : Z;
  lastTestingPacket : Z;
  firstCapablePacket : Z;
  numSentECT0 : Z;
  numSentECT1 : Z;
  numAckedECT0 : Z;
  numAckedECT1 : Z;
  numAckedECNCE : Z;
}.

Definition with_state (e : ecnTracker) (s : ecnState) : ecnTracker :=
  {| state := s; numSentTesting := numSentTesting e; numLostTesting := numLostTesting e;
     firstTestingPacket := firstTestingPacket e; lastTestingPacket := lastTestingPacket e;
     firstCapablePacket := firstCapablePacket e; numSentECT0 := numSentECT0 e; numSentECT1 := numSentECT1 e;
     numAckedECT0 := numAckedECT0 e; numAckedECT1 := numAckedECT1 e; numAckedECNCE := numAckedECNCE e |}.
Definition with_sent (e : ecnTracker) (s : ecnState) (testing first last capable ect0 ect1 : Z) : ecnTracker :=
  {| state := s; numSentTesting := testing; numLostTesting := numLostTesting e; firstTestingPacket := first;
     lastTestingPacket := last; firstCapablePacket := capable; numSentECT0 := ect0; numSentECT1 := ect1;
     numAckedECT0 := numAckedECT0 e; numAckedECT1 := numAckedECT1 e; numAckedECNCE := numAckedECNCE e |}.
Definition with_acked (e : ecnTracker) (lost ect0 ect1 ce : Z) : ecnTracker :=
  {| state := state e; numSentTesting := numSentTesting e; numLostTesting := lost;
     firstTestingPacket := firstTestingPacket e; lastTestingPacket := lastTestingPacket e;
     firstCapablePacket := firstCapablePacket e; numSentECT0 := numSentECT0 e; numSentECT1 := numSentECT1 e;
     numAckedECT0 := ect0; numAckedECT1 := ect1; numAckedECNCE := ce |}.

Module ecn.

Definition numECNTestingPackets : Z := 10.

Definition newECNTracker : ecnTracker :=
  {| state := ecnStateInitial; numSentTesting := 0; numLostTesting := 0; firstTestingPacket := InvalidPacketNumber;
     lastTestingPacket := InvalidPacketNumber; firstCapablePacket := InvalidPacketNumber; numSentECT0 := 0;
     numSentECT1 := 0; numAckedECT0 := 0; numAckedECT1 := 0; numAckedECNCE := 0 |}.

(** What follows the switch of [SentPacket] *)
Definition sent_marked (e : ecnTracker) (pn : Z) : ecnTracker :=
  let capable :=
    if bool_decide (state e = ecnStateCapable) && (firstCapablePacket e =? InvalidPacketNumber) then pn else firstCapablePacket e in
  let e := with_sent e (state e) (numSentTesting e) (firstTestingPacket e) (lastTestingPacket e) capable (numSentECT0 e) (numSentECT1 e) in
  if negb (bool_decide (state e = ecnStateTesting)) then e else
  let first := if firstTestingPacket e =? InvalidPacketNumber then pn else firstTestingPacket e in
  let over := numECNTestingPackets <=? i64 (numSentECT0 e + numSentECT1 e) in
  with_sent e (if over then ecnStateUnknown else ecnStateTesting) (u8 (numSentTesting e + 1)) first
    (if over then pn else lastTestingPacket e) (firstCapablePacket e) (numSentECT0 e) (numSentECT1 e).

Definition count (e : ecnTracker) (ect0 ect1 : Z) : ecnTracker :=
  with_sent e (state e) (numSentTesting e) (firstTestingPacket e) (lastTestingPacket e) (firstCapablePacket e) ect0 ect1.

Definition SentPacket (e : ecnTracker) (pn : Z) (mark : ECN) : outcome ecnTracker :=
  match mark with
  | ECNNon => Ret e
  | ECT0_ => Ret (sent_marked (count e (i64 (numSentECT0 e + 1)) (numSentECT1 e)) pn)
  | ECT1_ => Ret (sent_marked (count e (numSentECT0 e) (i64 (numSentECT1 e + 1))) pn)
  | ECNUnsupported => if bool_decide (state e = ecnStateFailed) then Ret (sent_marked e pn) else Panic
  | ECNCE_ => Panic
  end.

(** The mark for the next packet.  The method calls itself once. *)
Definition Mode (e : ecnTracker) : ecnTracker * ECN :=
  match state e with
  | ecnStateInitial => (with_state e ecnStateTesting, ECT0_)
  | ecnStateTesting | ecnStateCapable => (e, ECT0_)
  | ecnStateUnknown | ecnStateFailed => (e, ECNNon)
  end.

Definition isTestingPacket (e : ecnTracker) (pn : Z) : bool :=
  if firstTestingPacket e =? InvalidPacketNumber then false else
  (firstTestingPacket e <=? pn) && ((pn <=? lastTestingPacket e) || (lastTestingPacket e =? InvalidPacketNumber)).

Definition failIfMangled (e : ecnTracker) : ecnTracker :=
  if i64 (numAckedECNCE e + numLostTesting e) <? i64 (numSentECT0 e + numSentECT1 e) then e else with_state e ecnStateFailed.

Definition LostPacket (e : ecnTracker) (pn : Z) : ecnTracker :=
  if negb (bool_decide (state e = ecnStateTesting)) && negb (bool_decide (state e = ecnStateUnknown)) then e else
  if negb (isTestingPacket e pn) then e else
  let e := with_acked e (u8 (numLostTesting e + 1)) (numAckedECT0 e) (numAckedECT1 e) (numAckedECNCE e) in
  if negb (bool_decide (state e = ecnStateUnknown)) then e else
  if numSentTesting e <=? numLostTesting e then with_state e ecnStateFailed else failIfMangled e.

Definition ecnMarking (e : ecnTracker) (pn : Z) : ECN :=
  if (pn <? firstTestingPacket e) || (firstTestingPacket e =? InvalidPacketNumber) then ECNNon else
  if (pn <? lastTestingPacket e) || (lastTestingPacket e =? InvalidPacketNumber) then ECT0_ else
  if (pn <? firstCapablePacket e) || (firstCapablePacket e =? InvalidPacketNumber) then ECNNon else ECT0_.

(** How many of the packets were marked, ECT(0) and ECT(1) *)
Definition count_marks (e : ecnTracker) (pns : list Z) : Z * Z :=
  fold_left (fun '(n0, n1) pn =>
    match ecnMarking e pn with ECT0_ => (n0 + 1, n1) | ECT1_ => (n0, n1 + 1) | _ => (n0, n1) end) pns (0, 0).

(** The tracker, and if there is congestion *)
Definition HandleNewlyAcked (e : ecnTracker) (pns : list Z) (ect0 ect1 ce : Z) : ecnTracker * bool :=
  let failed := (with_state e ecnStateFailed, false) in
  if bool_decide (state e = ecnStateFailed) then (e, false) else
  if (numSentECT0 e <? ect0) || (numSentECT1 e <? ect1) then failed else
  let '(acked0, acked1) := count_marks e pns in
  if ((0 <? acked0) || (0 <? acked1)) && (ect0 =? 0) && (ect1 =? 0) && (ce =? 0) then failed else
  let new0 := i64 (ect0 - numAckedECT0 e) in
  let new1 := i64 (ect1 - numAckedECT1 e) in
  let newCE := i64 (ce - numAckedECNCE e) in
  if (new0 <? 0) || (new1 <? 0) || (newCE <? 0) then failed else
  if i64 (new0 + newCE) <? acked0 then failed else
  if i64 (new1 + newCE) <? acked1 then failed else
  let e := with_acked e (numLostTesting e) ect0 ect1 ce in
  let e := if bool_decide (state e = ecnStateUnknown) then failIfMangled e else e in
  if bool_decide (state e = ecnStateFailed) then (e, false) else
  let e :=
    if (bool_decide (state e = ecnStateTesting) || bool_decide (state e = ecnStateUnknown))
       && existsb (isTestingPacket e) pns && ((0 <? new0) || (0 <? new1))
    then with_state e ecnStateCapable else e in
  (e, bool_decide (state e = ecnStateCapable) && (0 <? newCE)).

End ecn.

(** ** What goes wrong on a good path *)

(** Packets sent with the marks they ask for *)
Definition send_marked (e : ecnTracker) (pn : Z) : outcome ecnTracker :=
  let '(e, mark) := ecn.Mode e in ecn.SentPacket e pn mark.

(** Only the tracker's own marks count: the last testing packet was marked,
    and is taken for one that was not. *)
Theorem last_testing_packet_unmarked :
  exists e, ofold send_marked [0; 1; 2; 3; 4; 5; 6; 7; 8; 9] ecn.newECNTracker = Ret e /\
    numSentECT0 e = 10 /\ ecn.isTestingPacket e 9 = true /\ ecn.ecnMarking e 9 = ECNNon.
Proof. eexists. split; [vm_compute; reflexivity|]. done. Qed.

(** A packet that is not marked, because it is coalesced or probes a path,
    disables ECN though the peer counts every mark: marked packets 0 and 2
    and unmarked packet 1 are acknowledged with two marks, and the tracker
    expects three. *)
Theorem unmarked_packet_disables_ecn :
  exists e, (let! e := send_marked ecn.newECNTracker 0 in
             let! e := ecn.SentPacket e 1 ECNNon in
             send_marked e 2) = Ret e /\
    numSentECT0 e = 2 /\ state (fst (ecn.HandleNewlyAcked e [0; 1; 2] 2 0 0)) = ecnStateFailed.
Proof. eexists. split; [vm_compute; reflexivity|]. done. Qed.
