(* ===== verification/SentHandler.v ===== *)
(** * The sent packet handler

    [src/deps/quic-go/internal/ackhandler/sent_packet_handler.go]: which
    packets are in flight, which are acknowledged or lost, when the loss
    detection timer fires, and what may be sent.  The congestion controller is
    behind an interface, as in the code.  The handlers of frames are numbers;
    the calls they get, and those of [ignorePacketsBelow], are collected in
    [calls].  Log messages, qlog events and statistics are left out.
    [ackedPackets], a slice that is kept to be reused, is empty between two
    calls unless one of them failed, which closes the connection; it is
    left out too. *)
From S2P Require Import Prelude Protocol AckFrame Frames GoFloat Rtt Congestion AckTracker Ecn SentHistory.

Local Open Scope Z_scope.
Local Open Scope go_scope.

(** ** Congestion control, seen from outside *)

Class SendAlgorithm (C : Type) := {
  NewSender : RTTStats -> Z -> C;
  TimeUntilSend_ : C -> RTTStats -> outcome Z;
  HasPacingBudget_ : C -> RTTStats -> Z -> bool;
  OnPacketSent_ : C -> RTTStats -> Z -> Z -> Z -> Z -> bool -> C;
  CanSend_ : C -> Z -> bool;
  MaybeExitSlowStart_ : C -> RTTStats -> outcome C;
  OnPacketAcked_ : C -> Z -> Z -> Z -> Z -> outcome C;
  OnCongestionEvent_ : C -> Z -> Z -> Z -> C;
  SetMaxDatagramSize_ : C -> Z -> outcome C;
}.

#[export] Instance cubic_algorithm : SendAlgorithm cubicSender := {
  NewSender := reno.NewCubicSender;
  TimeUntilSend_ := reno.TimeUntilSend;
  HasPacingBudget_ := reno.HasPacingBudget;
  OnPacketSent_ c r t _ pn size eliciting := reno.OnPacketSent c r t pn size eliciting;
  CanSend_ := reno.CanSend;
  MaybeExitSlowStart_ := reno.MaybeExitSlowStart;
  OnPacketAcked_ c pn _ prior _ := reno.OnPacketAcked c pn prior;
  OnCongestionEvent_ c pn _ _ := reno.OnCongestionEvent c pn;
  SetMaxDatagramSize_ := reno.SetMaxDatagramSize;
}.

(** ** State *)

Definition packetThreshold : Z := 3.
Definition amplificationFactor : Z := 3.
Definition minRTTAfterRetry : Z := 5 * Millisecond.
Definition maxPTODuration : Z := 60 * Second.
Definition pathProbePacketLossTimeout : Z := Second.
Definition SkipPacketInitialPeriod : Z := 256.
Definition SkipPacketMaxPeriod : Z := 128 * 1024.
Definition MaxOutstandingSentPackets : Z := 2 * MaxCongestionWindowPackets.
Definition MaxTrackedSentPackets : Z := MaxOutstandingSentPackets * 5 / 4.
Definition ProtocolViolation : Z := 10.

Record packetNumberSpace := {
  history : sentPacketHistory;
  pns_ : packetNumberGenerator;
  lossTime : Z;
  lastAckElicitingPacketTime : Z;
  largestAcked : Z;
  largestSent : Z;
}.

Definition newPacketNumberSpace (rand : Z -> Z) (initialPN : Z) (isAppData : bool) : packetNumberSpace :=
  {| history := newSentPacketHistory;
     pns_ := if isAppData then pns.newSkipping rand initialPN SkipPacketInitialPeriod SkipPacketMaxPeriod else Sequential initialPN;
     lossTime := 0; lastAckElicitingPacketTime := 0; largestAcked := InvalidPacketNumber; largestSent := InvalidPacketNumber |}.

Definition with_history (s : packetNumberSpace) (h : sentPacketHistory) : packetNumberSpace :=
  {| history := h; pns_ := pns_ s; lossTime := lossTime s; lastAckElicitingPacketTime := lastAckElicitingPacketTime s;
     largestAcked := largestAcked s; largestSent := largestSent s |}.
Definition with_numbers (s : packetNumberSpace) (g : packetNumberGenerator) (acked sent : Z) : packetNumberSpace :=
  {| history := history s; pns_ := g; lossTime := lossTime s; lastAckElicitingPacketTime := lastAckElicitingPacketTime s;
     largestAcked := acked; largestSent := sent |}.
Definition with_times (s : packetNumberSpace) (loss eliciting : Z) : packetNumberSpace :=
  {| history := history s; pns_ := pns_ s; lossTime := loss; lastAckElicitingPacketTime := eliciting;
     largestAcked := largestAcked s; largestSent := largestSent s |}.

Inductive TimerType := TimerTypeACK | TimerTypePTO | TimerTypePathProbe.
Record alarmTimer := { Time : Z; Timer : option (TimerType * EncryptionLevel) }.
Definition no_alarm : alarmTimer := {| Time := 0; Timer := None |}.
Definition alarm_at (t : Z) (ty : TimerType) (l : EncryptionLevel) : alarmTimer := {| Time := t; Timer := Some (ty, l) |}.

Inductive SendMode :=
  | SendNone | SendAck | SendPTOInitial | SendPTOHandshake | SendPTOAppData | SendPacingLimited | SendAny.

(** What others are told *)
Inductive call :=
  | OnAcked (handler : nat) (f : Frame)
  | OnLost (handler : nat) (f : Frame)
  | IgnorePacketsBelow (pn : Z).

Record sentPacketHandler (C : Type) := {
  initialPackets : option packetNumberSpace;
  handshakePackets : option packetNumberSpace;
  appDataPackets : packetNumberSpace;
  lostPackets_ : lostPacketTracker;
  largestAckedTime : Z;
  peerCompletedAddressValidation : bool;
  bytesReceived : Z;
  bytesSent : Z;
  peerAddressValidated : bool;
  handshakeConfirmed : bool;
  bytesInFlight : Z;
  congestion : C;
  rttStats : RTTStats;
  ptoCount : Z;
  ptoMode : SendMode;
  numProbesToSend : Z;
  alarm : alarmTimer;
  ecnTracker_ : option ecnTracker;
  perspective : Perspective;
  calls : list call;
}.
Arguments initialPackets {C}. Arguments handshakePackets {C}. Arguments appDataPackets {C}. Arguments lostPackets_ {C}.
Arguments largestAckedTime {C}. Arguments peerCompletedAddressValidation {C}. Arguments bytesReceived {C}.
Arguments bytesSent {C}. Arguments peerAddressValidated {C}. Arguments handshakeConfirmed {C}. Arguments bytesInFlight {C}.
Arguments congestion {C}. Arguments rttStats {C}. Arguments ptoCount {C}. Arguments ptoMode {C}. Arguments numProbesToSend {C}.
Arguments alarm {C}. Arguments ecnTracker_ {C}. Arguments perspective {C}. Arguments calls {C}.

Section Handler.
Context {C : Type} `{SendAlgorithm C}.

Abbreviation handler := (sentPacketHandler C).

Definition NewSentPacketHandler (rand : Z -> Z) (initialPN initialMaxDatagramSize : Z) (r : RTTStats)
    (clientAddressValidated enableECN : bool) (pers : Perspective) : handler :=
  {| initialPackets := Some (newPacketNumberSpace rand initialPN false);
     handshakePackets := Some (newPacketNumberSpace rand 0 false);
     appDataPackets := newPacketNumberSpace rand 0 true; lostPackets_ := lost.newLostPacketTracker 64; largestAckedTime := 0;
     peerCompletedAddressValidation := bool_decide (pers = PerspectiveServer); bytesReceived := 0; bytesSent := 0;
     peerAddressValidated := bool_decide (pers = PerspectiveClient) || clientAddressValidated; handshakeConfirmed := false;
     bytesInFlight := 0; congestion := NewSender r initialMaxDatagramSize; rttStats := r; ptoCount := 0; ptoMode := SendNone;
     numProbesToSend := 0; alarm := no_alarm; ecnTracker_ := if enableECN then Some ecn.newECNTracker else None;
     perspective := pers; calls := [] |}.

Definition with_spaces (h : handler) (i hs : option packetNumberSpace) (a : packetNumberSpace) : handler :=
  {| initialPackets := i; handshakePackets := hs; appDataPackets := a; lostPackets_ := lostPackets_ h;
     largestAckedTime := largestAckedTime h; peerCompletedAddressValidation := peerCompletedAddressValidation h;
     bytesReceived := bytesReceived h; bytesSent := bytesSent h; peerAddressValidated := peerAddressValidated h;
     handshakeConfirmed := handshakeConfirmed h; bytesInFlight := bytesInFlight h; congestion := congestion h;
     rttStats := rttStats h; ptoCount := ptoCount h; ptoMode := ptoMode h; numProbesToSend := numProbesToSend h;
     alarm := alarm h; ecnTracker_ := ecnTracker_ h; perspective := perspective h; calls := calls h |}.
Definition with_peer (h : handler) (completed validated confirmed : bool) (received sent : Z) : handler :=
  {| initialPackets := initialPackets h; handshakePackets := handshakePackets h; appDataPackets := appDataPackets h;
     lostPackets_ := lostPackets_ h; largestAckedTime := largestAckedTime h; peerCompletedAddressValidation := completed;
     bytesReceived := received; bytesSent := sent; peerAddressValidated := validated; handshakeConfirmed := confirmed;
     bytesInFlight := bytesInFlight h; congestion := congestion h; rttStats := rttStats h; ptoCount := ptoCount h;
     ptoMode := ptoMode h; numProbesToSend := numProbesToSend h; alarm := alarm h; ecnTracker_ := ecnTracker_ h;
     perspective := perspective h; calls := calls h |}.
Definition with_flight (h : handler) (inFlight : Z) (c : C) (l : list call) : handler :=
  {| initialPackets := initialPackets h; handshakePackets := handshakePackets h; appDataPackets := appDataPackets h;
     lostPackets_ := lostPackets_ h; largestAckedTime := largestAckedTime h;
     peerCompletedAddressValidation := peerCompletedAddressValidation h; bytesReceived := bytesReceived h;
     bytesSent := bytesSent h; peerAddressValidated := peerAddressValidated h; handshakeConfirmed := handshakeConfirmed h;
     bytesInFlight := inFlight; congestion := c; rttStats := rttStats h; ptoCount := ptoCount h; ptoMode := ptoMode h;
     numProbesToSend := numProbesToSend h; alarm := alarm h; ecnTracker_ := ecnTracker_ h; perspective := perspective h;
     calls := l |}.
Definition with_probing (h : handler) (count : Z) (mode : SendMode) (probes : Z) (a : alarmTimer) : handler :=
  {| initialPackets := initialPackets h; handshakePackets := handshakePackets h; appDataPackets := appDataPackets h;
     lostPackets_ := lostPackets_ h; largestAckedTime := largestAckedTime h;
     peerCompletedAddressValidation := peerCompletedAddressValidation h; bytesReceived := bytesReceived h;
     bytesSent := bytesSent h; peerAddressValidated := peerAddressValidated h; handshakeConfirmed := handshakeConfirmed h;
     bytesInFlight := bytesInFlight h; congestion := congestion h; rttStats := rttStats h; ptoCount := count; ptoMode := mode;
     numProbesToSend := probes; alarm := a; ecnTracker_ := ecnTracker_ h; perspective := perspective h; calls := calls h |}.
Definition with_measured (h : handler) (l : lostPacketTracker) (t : Z) (r : RTTStats) (e : option ecnTracker) : handler :=
  {| initialPackets := initialPackets h; handshakePackets := handshakePackets h; appDataPackets := appDataPackets h;
     lostPackets_ := l; largestAckedTime := t; peerCompletedAddressValidation := peerCompletedAddressValidation h;
     bytesReceived := bytesReceived h; bytesSent := bytesSent h; peerAddressValidated := peerAddressValidated h;
     handshakeConfirmed := handshakeConfirmed h; bytesInFlight := bytesInFlight h; congestion := congestion h; rttStats := r;
     ptoCount := ptoCount h; ptoMode := ptoMode h; numProbesToSend := numProbesToSend h; alarm := alarm h; ecnTracker_ := e;
     perspective := perspective h; calls := calls h |}.

Definition getPacketNumberSpace (h : handler) (l : EncryptionLevel) : option packetNumberSpace :=
  match l with
  | EncryptionInitial => initialPackets h
  | EncryptionHandshake => handshakePackets h
  | Encryption0RTT | Encryption1RTT => Some (appDataPackets h)
  end.

(** What is reached through the pointer that [getPacketNumberSpace] returns *)
Definition set_space (h : handler) (l : EncryptionLevel) (s : packetNumberSpace) : handler :=
  match l with
  | EncryptionInitial => with_spaces h (Some s) (handshakePackets h) (appDataPackets h)
  | EncryptionHandshake => with_spaces h (initialPackets h) (Some s) (appDataPackets h)
  | Encryption0RTT | Encryption1RTT => with_spaces h (initialPackets h) (handshakePackets h) s
  end.

(** A space that was dropped is a nil pointer. *)
Definition space (h : handler) (l : EncryptionLevel) : outcome packetNumberSpace :=
  match getPacketNumberSpace h l with Some s => Ret s | None => Panic end.

Definition set_history (h : handler) (l : EncryptionLevel) (hist : sentPacketHistory) : outcome handler :=
  let! s := space h l in Ret (set_space h l (with_history s hist)).

Definition set_calls (h : handler) (l : list call) : handler := with_flight h (bytesInFlight h) (congestion h) l.
Definition set_congestion (h : handler) (c : C) : handler := with_flight h (bytesInFlight h) c (calls h).
Definition set_lost (h : handler) (l : lostPacketTracker) : handler :=
  with_measured h l (largestAckedTime h) (rttStats h) (ecnTracker_ h).
Definition set_ecn (h : handler) (e : option ecnTracker) : handler :=
  with_measured h (lostPackets_ h) (largestAckedTime h) (rttStats h) e.
Definition set_probes (h : handler) (n : Z) : handler := with_probing h (ptoCount h) (ptoMode h) n (alarm h).
Definition set_completed (h : handler) : handler :=
  with_peer h true (peerAddressValidated h) (handshakeConfirmed h) (bytesReceived h) (bytesSent h).

(** The flag of the packet is cleared too; nobody looks at it again. *)
Definition removeFromBytesInFlight (h : handler) (p : packet) : outcome handler :=
  if includedInBytesInFlight p then
    if bytesInFlight h <? Length p then Panic else Ret (with_flight h (bytesInFlight h - Length p) (congestion h) (calls h))
  else Ret h.

(** ** The loss detection timer *)

Definition isAmplificationLimited (h : handler) : bool :=
  negb (peerAddressValidated h) && (i64 (amplificationFactor * bytesReceived h) <=? bytesSent h).

Definition outstanding_in (s : option packetNumberSpace) : bool :=
  match s with Some s => sent.HasOutstandingPackets (history s) | None => false end.

Definition hasOutstandingCryptoPackets (h : handler) : bool := outstanding_in (initialPackets h) || outstanding_in (handshakePackets h).

Definition getLossTimeAndSpace (h : handler) : Z * EncryptionLevel :=
  let '(t, l) := match initialPackets h with Some s => (lossTime s, EncryptionInitial) | None => (0, EncryptionInitial) end in
  let '(t, l) :=
    match handshakePackets h with
    | Some s => if (t =? 0) || (negb (lossTime s =? 0) && (lossTime s <? t)) then (lossTime s, EncryptionHandshake) else (t, l)
    | None => (t, l)
    end in
  let a := lossTime (appDataPackets h) in
  if (t =? 0) || (negb (a =? 0) && (a <? t)) then (a, Encryption1RTT) else (t, l).

Definition getScaledPTO (h : handler) (includeMaxAckDelay : bool) : Z :=
  let pto := i64 (Z.shiftl (rtt.PTO (rttStats h) includeMaxAckDelay) (ptoCount h)) in
  if (maxPTODuration <? pto) || (pto <=? 0) then maxPTODuration else pto.

(** A block of [getPTOTimeAndSpace]: the earlier of what was found and of what
    the space asks for *)
Definition earlier (found : Z * option EncryptionLevel) (t : Z) (l : EncryptionLevel) : Z * option EncryptionLevel :=
  if (found.1 =? 0) || (negb (t =? 0) && (t <? found.1)) then (t, Some l) else found.

Definition wants_probe (s : packetNumberSpace) : bool :=
  sent.HasOutstandingPackets (history s) && negb (lastAckElicitingPacketTime s =? 0).

Definition getPTOTimeAndSpace (h : handler) (now : Z) : Z * option EncryptionLevel :=
  if negb (handshakeConfirmed h) && negb (hasOutstandingCryptoPackets h) then
    if peerCompletedAddressValidation h then (0, None) else
    let t := i64 (now + getScaledPTO h false) in
    match initialPackets h with Some _ => (t, Some EncryptionInitial) | None => (t, Some EncryptionHandshake) end
  else
  let found :=
    match initialPackets h with
    | Some s => if wants_probe s then (i64 (lastAckElicitingPacketTime s + getScaledPTO h false), Some EncryptionInitial) else (0, None)
    | None => (0, None)
    end in
  let found :=
    match handshakePackets h with
    | Some s => if wants_probe s then earlier found (i64 (lastAckElicitingPacketTime s + getScaledPTO h false)) EncryptionHandshake else found
    | None => found
    end in
  let s := appDataPackets h in
  if handshakeConfirmed h && wants_probe s
  then earlier found (i64 (lastAckElicitingPacketTime s + getScaledPTO h true)) Encryption1RTT else found.

Definition lossDetectionTime (h : handler) (now : Z) : alarmTimer :=
  let app := history (appDataPackets h) in
  if peerCompletedAddressValidation h && negb (hasOutstandingCryptoPackets h) &&
     negb (sent.HasOutstandingPackets app) && negb (sent.HasOutstandingPathProbes app) then no_alarm else
  if isAmplificationLimited h then no_alarm else
  let probe :=
    match sent.FirstOutstandingPathProbe app with Some (_, p) => i64 (SendTime p + pathProbePacketLossTimeout) | None => 0 end in
  let '(loss, l) := getLossTimeAndSpace h in
  if negb (loss =? 0) && ((probe =? 0) || (loss <? probe)) then alarm_at loss TimerTypeACK l else
  match getPTOTimeAndSpace h now with
  | (pto, Some l) =>
      if negb (pto =? 0) && ((probe =? 0) || (pto <? probe)) then alarm_at pto TimerTypePTO l else
      if negb (probe =? 0) then alarm_at probe TimerTypePathProbe Encryption1RTT else no_alarm
  | (_, None) => if negb (probe =? 0) then alarm_at probe TimerTypePathProbe Encryption1RTT else no_alarm
  end.

Definition setLossDetectionTimer (h : handler) (now : Z) : handler :=
  with_probing h (ptoCount h) (ptoMode h) (numProbesToSend h) (lossDetectionTime h now).

(** ** Lost packets *)

Definition handlers_of (mk : nat -> Frame -> call) (l : list sent_frame) : list call :=
  flat_map (fun f => match Handler f with Some k => [mk k (Frame_ f)] | None => [] end) l.

Definition queueFramesForRetransmission (h : handler) (p : packet) : outcome handler :=
  if negb (IsAckEliciting p) then Panic else
  Ret (set_calls h (calls h ++ handlers_of OnLost (Frames_ p) ++ handlers_of OnLost (StreamFrames p))).

(** The handler of a probe's frame is not checked for nil. *)
Definition lose_probe_frame (h : handler) (f : sent_frame) : outcome handler :=
  match Handler f with Some k => Ret (set_calls h (calls h ++ [OnLost k (Frame_ f)])) | None => Panic end.

Definition lose_probe (h : handler) (x : Z * packet) : outcome handler :=
  let! h := ofold lose_probe_frame (Frames_ x.2) h in
  set_history h Encryption1RTT (fst (sent.RemovePathProbe (history (appDataPackets h)) x.1)).

Definition detectLostPathProbes (h : handler) (now : Z) : outcome handler :=
  let lossTime := i64 (now - pathProbePacketLossTimeout) in
  ofold lose_probe (List.filter (fun x => SendTime x.2 <=? lossTime) (pathProbePackets (history (appDataPackets h)))) h.

Definition loss_delay (r : RTTStats) : Z :=
  Z.max (int_of_f64 (fmul (fconst 9 8) (f64 (Z.max (LatestRTT r) (SmoothedRTT r))))) TimerGranularity.

Definition is_app_data (l : EncryptionLevel) : bool := match l with Encryption0RTT | Encryption1RTT => true | _ => false end.

Definition ecn_lost (h : handler) (l : EncryptionLevel) (pn : Z) : handler :=
  match l, ecnTracker_ h with
  | Encryption1RTT, Some e => set_ecn h (Some (ecn.LostPacket e pn))
  | _, _ => h
  end.

(** A packet that is lost *)
Definition lose_packet (h : handler) (l : EncryptionLevel) (priorInFlight pn : Z) (p : packet) : outcome handler :=
  let h := if is_app_data l then set_lost h (lost.Add (lostPackets_ h) pn (SendTime p)) else h in
  let! s := space h l in
  let! hist := sent.DeclareLost (history s) pn in
  let! h := set_history h l hist in
  if isPathProbePacket p || negb (IsAckEliciting p) then Ret h else
  let! h := removeFromBytesInFlight h p in
  let! h := queueFramesForRetransmission h p in
  let h := if IsPathMTUProbePacket p then h else set_congestion h (OnCongestionEvent_ (congestion h) pn (Length p) priorInFlight) in
  Ret (ecn_lost h l pn).

(** The loop of [detectLostPackets] *)
Fixpoint lost_loop (l : EncryptionLevel) (lossDelay lostSendTime priorInFlight : Z) (ps : list (Z * packet)) (h : handler)
    : outcome handler :=
  match ps with
  | [] => Ret h
  | (pn, p) :: ps =>
      let! s := space h l in
      if largestAcked s <? pn then Ret h else
      if (SendTime p <=? lostSendTime) || (packetThreshold <=? sent.Difference (history s) (largestAcked s) pn) then
        let! h := lose_packet h l priorInFlight pn p in
        lost_loop l lossDelay lostSendTime priorInFlight ps h
      else
        let h := if lossTime s =? 0 then set_space h l (with_times s (i64 (SendTime p + lossDelay)) (lastAckElicitingPacketTime s)) else h in
        lost_loop l lossDelay lostSendTime priorInFlight ps h
  end.

Definition detectLostPackets (h : handler) (now : Z) (l : EncryptionLevel) : outcome handler :=
  let! s := space h l in
  let h := set_space h l (with_times s 0 (lastAckElicitingPacketTime s)) in
  let lossDelay := loss_delay (rttStats h) in
  lost_loop l lossDelay (i64 (now - lossDelay)) (bytesInFlight h) (sent.Packets (history s)) h.

(** ** Acknowledgements *)

(** The inner loop over the ranges, from the one with the smallest numbers on.
    [ranges] are those from [ackRangeIndex] on, in ascending order. *)
Fixpoint advance_range (pn : Z) (ranges : list AckRange) : list AckRange :=
  match ranges with
  | r :: rest => match rest with _ :: _ => if Largest r <? pn then advance_range pn rest else ranges | [] => ranges end
  | [] => []
  end.

(** The loop over the packets: the history, the packets that are acknowledged,
    and if one of them was ack-eliciting *)
Fixpoint acked_loop (missing : bool) (lowest largest : Z) (ranges : list AckRange) (ps : list (Z * packet))
    (hist : sentPacketHistory) : outcome (sentPacketHistory * list (Z * packet) * bool) :=
  match ps with
  | [] => Ret (hist, [], false)
  | (pn, p) :: ps =>
      if pn <? lowest then acked_loop missing lowest largest ranges ps hist else
      if largest <? pn then Ret (hist, [], false) else
      let ranges := if missing then advance_range pn ranges else ranges in
      let! acked :=
        (if negb missing then Ret true else
         match ranges with
         | [] => Panic
         | r :: _ =>
             if pn <? Smallest r then Ret false else
             if Largest r <? pn
             then Err (Errorf "BUG: ackhandler would have acked wrong packet %d, while evaluating range %d -> %d"
                         [pretty pn; pretty (Smallest r); pretty (Largest r)])
             else Ret true
         end) in
      if negb acked then acked_loop missing lowest largest ranges ps hist else
      if isPathProbePacket p then
        let '(hist, probe) := sent.RemovePathProbe hist pn in
        let! '(hist, l, eliciting) := acked_loop missing lowest largest ranges ps hist in
        Ret (hist, match probe with Some q => (pn, q) :: l | None => l end, eliciting)
      else
        let! '(hist, l, eliciting) := acked_loop missing lowest largest ranges ps hist in
        Ret (hist, (pn, p) :: l, IsAckEliciting p || eliciting)
  end.

(** A packet that is acknowledged *)
Definition ack_packet (l : EncryptionLevel) (h : handler) (x : Z * packet) : outcome handler :=
  let p := x.2 in
  let below :=
    if negb (LargestAcked p =? InvalidPacketNumber) && bool_decide (l = Encryption1RTT)
    then [IgnorePacketsBelow (i64 (LargestAcked p + 1))] else [] in
  let h := set_calls h (calls h ++ below ++ handlers_of OnAcked (Frames_ p) ++ handlers_of OnAcked (StreamFrames p)) in
  let! s := space h l in
  let! hist := sent.Remove (history s) x.1 in
  set_history h l hist.

Definition refuse_skipped (ack : AckFrame) (l : EncryptionLevel) (_ : unit) (pn : Z) : outcome unit :=
  let! acks := Ack.AcksPacket ack pn in
  if acks then Err (TransportError ProtocolViolation 0
                      (Errorf "received an ACK for skipped packet number: %d (%s)" [pretty pn; "1-RTT"%string])) else Ret tt.

Definition detectAndRemoveAckedPackets (h : handler) (ack : AckFrame) (l : EncryptionLevel)
    : outcome (handler * list (Z * packet) * bool) :=
  let! s := space h l in
  let! _ := (if bool_decide (l = Encryption1RTT) then ofold (refuse_skipped ack l) (skippedPackets (history s)) tt else Ret tt) in
  let! lowest := Ack.LowestAcked ack in
  let! largest := Ack.LargestAcked ack in
  let! '(hist, acked, eliciting) :=
    acked_loop (Ack.HasMissingRanges ack) lowest largest (rev (AckRanges ack)) (sent.Packets (history s)) (history s) in
  let! h := set_history h l hist in
  let! h := ofold (ack_packet l) acked h in
  Ret (h, acked, eliciting).

(** [detectSpuriousLosses]; all it changes is the list of lost packets. *)
Fixpoint spurious_loop (ranges : list AckRange) (lostOnes : list (Z * Z)) : outcome (list Z) :=
  match lostOnes with
  | [] => Ret []
  | (pn, _) :: lostOnes =>
      let ranges := advance_range pn ranges in
      match ranges with
      | [] => Panic
      | r :: _ =>
          let! l := spurious_loop ranges lostOnes in
          Ret (if (Smallest r <=? pn) && (pn <=? Largest r) then pn :: l else l)
      end
  end.

Definition detectSpuriousLosses (h : handler) (ack : AckFrame) : outcome handler :=
  let! pns := spurious_loop (rev (AckRanges ack)) (lostPackets (lostPackets_ h)) in
  Ret (set_lost h (fold_left lost.Delete pns (lostPackets_ h))).

(** The update of the RTT *)
Definition measure_rtt (h : handler) (ack : AckFrame) (l : EncryptionLevel) (rcvTime : Z) (acked : list (Z * packet))
    (eliciting : bool) : outcome handler :=
  let! largest := Ack.LargestAcked ack in
  match last acked with
  | Some (pn, p) =>
      if (pn =? largest) && negb (isPathProbePacket p) && eliciting then
        let ackDelay := if bool_decide (l = Encryption1RTT) then Z.min (DelayTime ack) (Rtt.MaxAckDelay (rttStats h)) else 0 in
        let h :=
          if (largestAckedTime h =? 0) || negb (SendTime p <? largestAckedTime h)
          then with_measured h (lostPackets_ h) (SendTime p) (rtt.UpdateRTT (rttStats h) (i64 (rcvTime - SendTime p)) ackDelay) (ecnTracker_ h)
          else h in
        let! c := MaybeExitSlowStart_ (congestion h) (rttStats h) in
        Ret (set_congestion h c)
      else Ret h
  | None => Ret h
  end.

(** The ECN counts; [u64] counters are converted to [int64]. *)
Definition handle_ecn (h : handler) (ack : AckFrame) (l : EncryptionLevel) (largest priorInFlight : Z) (acked : list (Z * packet))
    : outcome handler :=
  let! s := space h l in
  match l, ecnTracker_ h with
  | Encryption1RTT, Some e =>
      if largestAcked s <? largest then
        let '(e, congested) := ecn.HandleNewlyAcked e (map fst acked) (i64 (ECT0 ack)) (i64 (ECT1 ack)) (i64 (ECNCE ack)) in
        let h := set_ecn h (Some e) in
        Ret (if congested then set_congestion h (OnCongestionEvent_ (congestion h) largest 0 priorInFlight) else h)
      else Ret h
  | _, _ => Ret h
  end.

(** A packet of [ackedPackets], after the losses were detected *)
Definition settle_acked (priorInFlight rcvTime : Z) (h : handler) (x : Z * packet) : outcome handler :=
  let! h :=
    (if includedInBytesInFlight x.2 then
       let! c := OnPacketAcked_ (congestion h) x.1 (Length x.2) priorInFlight rcvTime in Ret (set_congestion h c)
     else Ret h) in
  removeFromBytesInFlight h x.2.

Definition is_1rtt (p : packet) : bool := match Level p with Some Encryption1RTT => true | _ => false end.

(** The end of [ReceivedAck] *)
Definition finish_ack (h : handler) (ack : AckFrame) (l : EncryptionLevel) (rcvTime largest : Z) (acked : list (Z * packet))
    : outcome (handler * bool) :=
  let! s := space h l in
  let! h :=
    (if bool_decide (l = Encryption1RTT) && (largest =? largestAcked s) then
       let! h := detectSpuriousLosses h ack in
       Ret (set_lost h (lost.DeleteBefore (lostPackets_ h) (i64 (rcvTime - i64 (3 * rtt.PTO (rttStats h) false)))))
     else Ret h) in
  let h := with_probing h (if peerCompletedAddressValidation h then 0 else ptoCount h) (ptoMode h) 0 (alarm h) in
  Ret (setLossDetectionTimer h rcvTime, existsb (fun x => is_1rtt x.2) acked).

(** [if p.largestAcked < largest ...] and the losses *)
Definition raise_largest (h : handler) (l : EncryptionLevel) (largest : Z) : outcome handler :=
  let! s := space h l in Ret (set_space h l (with_numbers s (pns_ s) (Z.max (largestAcked s) largest) (largestSent s))).

(** What [ReceivedAck] does once packets are acknowledged *)
Definition process_acked (h : handler) (ack : AckFrame) (l : EncryptionLevel) (rcvTime largest priorInFlight : Z)
    (acked : list (Z * packet)) (eliciting : bool) : outcome (handler * bool) :=
  let! h := measure_rtt h ack l rcvTime acked eliciting in
  let! h := handle_ecn h ack l largest priorInFlight acked in
  let! h := raise_largest h l largest in
  let! h := detectLostPackets h rcvTime l in
  let! h := (if bool_decide (l = Encryption1RTT) then detectLostPathProbes h rcvTime else Ret h) in
  let! h := ofold (settle_acked priorInFlight rcvTime) acked h in
  finish_ack h ack l rcvTime largest acked.

Definition ReceivedAck (h : handler) (ack : AckFrame) (l : EncryptionLevel) (rcvTime : Z) : outcome (handler * bool) :=
  let! s := space h l in
  let! largest := Ack.LargestAcked ack in
  if largestSent s <? largest
  then Err (TransportError ProtocolViolation 0 (Errorf "received ACK for an unsent packet" [])) else
  let h :=
    if bool_decide (perspective h = PerspectiveClient) && negb (peerCompletedAddressValidation h) &&
       (bool_decide (l = EncryptionHandshake) || bool_decide (l = Encryption1RTT))
    then setLossDetectionTimer (set_completed h) rcvTime else h in
  let priorInFlight := bytesInFlight h in
  let! '(h, acked, eliciting) := detectAndRemoveAckedPackets h ack l in
  if len acked =? 0 then Ret (h, false) else
  process_acked h ack l rcvTime largest priorInFlight acked eliciting.

(** ** The other operations *)

(** The loop over 0-RTT packets; an error of [Remove] is ignored. *)
Fixpoint drop_0rtt (ps : list (Z * packet)) (h : handler) : outcome handler :=
  match ps with
  | [] => Ret h
  | (pn, p) :: ps =>
      match Level p with
      | Some Encryption0RTT =>
          let! h := removeFromBytesInFlight h p in
          match sent.Remove (history (appDataPackets h)) pn with
          | Ret hist => drop_0rtt ps (set_space h Encryption0RTT (with_history (appDataPackets h) hist))
          | Err _ => drop_0rtt ps h
          | Panic => Panic
          end
      | _ => Ret h
      end
  end.

Definition drop_end (h : handler) (now : Z) : handler := setLossDetectionTimer (with_probing h 0 SendNone 0 (alarm h)) now.

Definition remove_all (h : handler) (s : packetNumberSpace) : outcome handler :=
  ofold removeFromBytesInFlight (map snd (sent.Packets (history s))) h.

Definition DropPackets (h : handler) (l : EncryptionLevel) (now : Z) : outcome handler :=
  let h :=
    if bool_decide (perspective h = PerspectiveClient) && bool_decide (l = EncryptionHandshake) then set_completed h else h in
  match l with
  | EncryptionInitial =>
      match initialPackets h with
      | None => Ret h
      | Some s => let! h := remove_all h s in Ret (drop_end (with_spaces h None (handshakePackets h) (appDataPackets h)) now)
      end
  | EncryptionHandshake =>
      match handshakePackets h with
      | None => Ret h
      | Some s =>
          let! h := remove_all h s in
          let h := with_peer h (peerCompletedAddressValidation h) (peerAddressValidated h) true (bytesReceived h) (bytesSent h) in
          Ret (drop_end (with_spaces h (initialPackets h) None (appDataPackets h)) now)
      end
  | Encryption0RTT => let! h := drop_0rtt (sent.Packets (history (appDataPackets h))) h in Ret (drop_end h now)
  | Encryption1RTT => Panic
  end.

Definition ReceivedBytes (h : handler) (n t : Z) : handler :=
  let was := isAmplificationLimited h in
  let h := with_peer h (peerCompletedAddressValidation h) (peerAddressValidated h) (handshakeConfirmed h) (i64 (bytesReceived h + n)) (bytesSent h) in
  if was && negb (isAmplificationLimited h) then setLossDetectionTimer h t else h.

Definition ReceivedPacket (h : handler) (l : EncryptionLevel) (t : Z) : handler :=
  if bool_decide (perspective h = PerspectiveServer) && bool_decide (l = EncryptionHandshake) && negb (peerAddressValidated h)
  then setLossDetectionTimer
         (with_peer h (peerCompletedAddressValidation h) true (handshakeConfirmed h) (bytesReceived h) (bytesSent h)) t
  else h.

Definition packetsInFlight (h : handler) : Z :=
  numOutstanding (history (appDataPackets h))
  + match handshakePackets h with Some s => numOutstanding (history s) | None => 0 end
  + match initialPackets h with Some s => numOutstanding (history s) | None => 0 end.

Definition ecn_sent (h : handler) (l : EncryptionLevel) (pn : Z) (mark : ECN) : outcome handler :=
  match l, ecnTracker_ h with
  | Encryption1RTT, Some e => let! e := ecn.SentPacket e pn mark in Ret (set_ecn h (Some e))
  | _, _ => Ret h
  end.

Definition SentPacket (h : handler) (t pn largestAcked_ : Z) (streamFrames frames : list sent_frame) (l : EncryptionLevel)
    (mark : ECN) (size : Z) (isMTUProbe isPathProbe : bool) : outcome handler :=
  let h := with_peer h (peerCompletedAddressValidation h) (peerAddressValidated h) (handshakeConfirmed h) (bytesReceived h) (i64 (bytesSent h + size)) in
  let! s := space h l in
  let s := with_numbers s (pns_ s) (largestAcked s) pn in
  let p :=
    {| SendTime := t; StreamFrames := streamFrames; Frames_ := frames; LargestAcked := largestAcked_; Length := size; Level := Some l;
       IsPathMTUProbePacket := isMTUProbe; includedInBytesInFlight := false; isPathProbePacket := isPathProbe |} in
  let eliciting := IsAckEliciting p in
  if isPathProbe then
    let! hist := sent.SentPathProbePacket (history s) pn p in
    Ret (setLossDetectionTimer (set_space h l (with_history s hist)) t)
  else
  let s := if eliciting then with_times s (lossTime s) t else s in
  let h :=
    if eliciting then
      let h := with_flight h (i64 (bytesInFlight h + size)) (congestion h) (calls h) in
      if 0 <? numProbesToSend h then set_probes h (numProbesToSend h - 1) else h
    else h in
  let p :=
    {| SendTime := t; StreamFrames := streamFrames; Frames_ := frames; LargestAcked := largestAcked_; Length := size; Level := Some l;
       IsPathMTUProbePacket := isMTUProbe; includedInBytesInFlight := eliciting; isPathProbePacket := isPathProbe |} in
  let h := set_congestion h (OnPacketSent_ (congestion h) (rttStats h) t (bytesInFlight h) pn size eliciting) in
  let! h := ecn_sent h l pn mark in
  let! hist := sent.SentPacket (history s) pn p in
  let h := set_space h l (with_history s hist) in
  if negb eliciting && peerCompletedAddressValidation h then Ret h else Ret (setLossDetectionTimer h t).

(** The handler, and the packet number *)
Definition PopPacketNumber (h : handler) (rand : Z -> Z) (l : EncryptionLevel) : outcome (handler * Z) :=
  let! s := space h l in
  let '(g, skipped, pn) := pns.Pop rand (pns_ s) in
  let s := with_numbers s g (largestAcked s) (largestSent s) in
  let! hist := (if skipped then sent.SkippedPacket (history s) (i64 (pn - 1)) else Ret (history s)) in
  Ret (set_space h l (with_history s hist), pn).

Definition PeekPacketNumber (h : handler) (l : EncryptionLevel) : outcome (Z * Z) :=
  let! s := space h l in
  let pn := pns.Peek (pns_ s) in Ret (pn, PacketNumberLengthForHeader pn (largestAcked s)).

Definition send_mode_of (l : EncryptionLevel) : SendMode :=
  match l with EncryptionInitial => SendPTOInitial | EncryptionHandshake => SendPTOHandshake | _ => SendPTOAppData end.

(** [OnLossDetectionTimeout] up to the deferred call *)
Definition on_timeout (h : handler) (rand : Z -> Z) (now : Z) : outcome handler :=
  let! h := (if handshakeConfirmed h then detectLostPathProbes h now else Ret h) in
  let '(earliest, l) := getLossTimeAndSpace h in
  if negb (earliest =? 0) then detectLostPackets h now l else
  if (bytesInFlight h =? 0) && negb (peerCompletedAddressValidation h) then
    let count := u32 (ptoCount h + 1) in
    match initialPackets h, handshakePackets h with
    | Some _, _ => Ret (with_probing h count SendPTOInitial (numProbesToSend h + 1) (alarm h))
    | None, Some _ => Ret (with_probing h count SendPTOHandshake (numProbesToSend h + 1) (alarm h))
    | None, None =>
        Err (Errorf "sentPacketHandler BUG: PTO fired, but bytes_in_flight is 0 and Initial and Handshake already dropped" [])
    end
  else
  match getPTOTimeAndSpace h now with
  | (pto, Some l) =>
      if pto =? 0 then Ret h else
      let! s := space h l in
      if negb (sent.HasOutstandingPackets (history s)) && negb (sent.HasOutstandingPathProbes (history s)) &&
         negb (peerCompletedAddressValidation h) then Ret h else
      let h := with_probing h (u32 (ptoCount h + 1)) (ptoMode h) (numProbesToSend h + 2) (alarm h) in
      let! h :=
        match l with
        | Encryption1RTT =>
            let! '(h, pn) := PopPacketNumber h rand Encryption1RTT in
            let! hist := sent.SkippedPacket (history (appDataPackets h)) pn in
            set_history h Encryption1RTT hist
        | Encryption0RTT => Err (Errorf "PTO timer in unexpected encryption level: %s" ["0-RTT"%string])
        | _ => Ret h
        end in
      Ret (with_probing h (ptoCount h) (send_mode_of l) (numProbesToSend h) (alarm h))
  | (_, None) => Ret h
  end.

Definition OnLossDetectionTimeout (h : handler) (rand : Z -> Z) (now : Z) : outcome handler :=
  let! h := on_timeout h rand now in Ret (setLossDetectionTimer h now).

Definition GetLossDetectionTimeout (h : handler) : Z := Time (alarm h).

Definition ECNMode (h : handler) (isShortHeaderPacket : bool) : handler * ECN :=
  match ecnTracker_ h with
  | None => (h, ECNUnsupported)
  | Some e =>
      if negb isShortHeaderPacket then (h, ECNNon) else let '(e, mark) := ecn.Mode e in (set_ecn h (Some e), mark)
  end.

(** [numTrackedPackets] *)
Definition tracked_packets (h : handler) : Z :=
  sent.Len (history (appDataPackets h))
  + match initialPackets h with Some s => sent.Len (history s) | None => 0 end
  + match handshakePackets h with Some s => sent.Len (history s) | None => 0 end.

Definition SendMode_ (h : handler) (now : Z) : SendMode :=
  let tracked := tracked_packets h in
  if isAmplificationLimited h then SendNone else
  if MaxTrackedSentPackets <=? tracked then SendNone else
  if 0 <? numProbesToSend h then ptoMode h else
  if negb (CanSend_ (congestion h) (bytesInFlight h)) then SendAck else
  if MaxOutstandingSentPackets <=? tracked then SendAck else
  if negb (HasPacingBudget_ (congestion h) (rttStats h) now) then SendPacingLimited else SendAny.

Definition TimeUntilSend (h : handler) : outcome Z := TimeUntilSend_ (congestion h) (rttStats h).

Definition SetMaxDatagramSize (h : handler) (s : Z) : outcome handler :=
  let! c := SetMaxDatagramSize_ (congestion h) s in Ret (set_congestion h c).

Definition QueueProbePacket (h : handler) (l : EncryptionLevel) : outcome (handler * bool) :=
  let! s := space h l in
  match sent.FirstOutstanding (history s) with
  | None => Ret (h, false)
  | Some (pn, p) =>
      let! hist := sent.DeclareLost (history s) pn in
      let! h := set_history h l hist in
      let! h := removeFromBytesInFlight h p in
      let! h := queueFramesForRetransmission h p in
      Ret (h, true)
  end.

Definition retry_packet (h : handler) (x : Z * packet) : outcome handler :=
  if IsAckEliciting x.2 then queueFramesForRetransmission h x.2 else Ret h.

(** The send time of the first packet, if it is not zero *)
Definition first_send_time (ps : list (Z * packet)) : Z :=
  match List.find (fun x => negb (SendTime x.2 =? 0)) ps with Some (_, p) => SendTime p | None => 0 end.

Definition ResetForRetry (h : handler) (rand : Z -> Z) (now : Z) : outcome handler :=
  let h := with_flight h 0 (congestion h) (calls h) in
  let! s := space h EncryptionInitial in
  let! h := ofold retry_packet (sent.Packets (history s)) h in
  let! h := ofold retry_packet (sent.Packets (history (appDataPackets h))) h in
  let first := first_send_time (sent.Packets (history s)) in
  let h :=
    if ptoCount h =? 0
    then with_measured h (lostPackets_ h) (largestAckedTime h)
           (rtt.UpdateRTT (rttStats h) (Z.max minRTTAfterRetry (i64 (now - first))) 0) (ecnTracker_ h)
    else h in
  let h :=
    with_spaces h (Some (newPacketNumberSpace rand (pns.Peek (pns_ s)) false)) (handshakePackets h)
      (newPacketNumberSpace rand (pns.Peek (pns_ (appDataPackets h))) true) in
  Ret (with_probing h 0 (ptoMode h) (numProbesToSend h) no_alarm).

Definition migrate_packet (h : handler) (x : Z * packet) : outcome handler :=
  let! hist := sent.DeclareLost (history (appDataPackets h)) x.1 in
  let! h := set_history h Encryption1RTT hist in
  if isPathProbePacket x.2 then Ret h else
  let! h := removeFromBytesInFlight h x.2 in
  if IsAckEliciting x.2 then queueFramesForRetransmission h x.2 else Ret h.

Definition MigratedPath (h : handler) (now initialMaxDatagramSize : Z) : outcome handler :=
  let h := with_measured h (lostPackets_ h) (largestAckedTime h) (rtt.ResetForPathMigration (rttStats h)) (ecnTracker_ h) in
  let! h := ofold migrate_packet (sent.Packets (history (appDataPackets h))) h in
  let! h := set_history h Encryption1RTT (sent.RemoveAllPathProbes (history (appDataPackets h))) in
  let h := set_congestion h (NewSender (rttStats h) initialMaxDatagramSize) in
  Ret (setLossDetectionTimer h now).

End Handler.
