(* ===== verification/SentHistoryFacts.v ===== *)
(** * The sent packet history as a map

    The slice with its holes stands for the list of its packets in ascending
    order of their numbers.  Every operation of the history is an operation on
    that list; indices, [nil] entries and the clean-up at the start do not
    show. *)
From S2P Require Import Prelude Protocol AckFrame Frames SentHistory.

Local Open Scope Z_scope.
Local Open Scope go_scope.

Abbreviation entry := (Z * packet)%type.

(** The list without the packet of this number *)
Definition del (pn : Z) (l : list entry) : list entry := List.filter (fun x => negb (x.1 =? pn)) l.

Definition is_outstanding (x : entry) : bool := Outstanding x.2.

(** Numbers a history can have reached *)
Definition max_pn : Z := 2 ^ 62.

Record hist_ok (h : sentPacketHistory) : Prop := {
  ho_num : numOutstanding h = len (List.filter is_outstanding (sent.Packets h));
  ho_first : forall l, packets h <> None :: l;
  ho_high : packets h <> [] -> firstPacketNumber h + len (packets h) = highestPacketNumber h + 1;
  ho_low : packets h <> [] -> 0 <= firstPacketNumber h;
  ho_max : -1 <= highestPacketNumber h < max_pn;
  ho_probes : NoDup (map fst (pathProbePackets h));
  ho_probe_max : Forall (fun x => x.1 <= highestPacketNumber h) (pathProbePackets h);
  ho_skipped : StronglySorted Z.lt (skippedPackets h);
  ho_skipped_max : Forall (fun n => n <= highestPacketNumber h) (skippedPackets h);
}.

(** ** Numbered slices *)

Section Numbered.

Lemma numbered_app a l k : 0 <= a -> a + len (l ++ k) <= max_pn ->
  sent.numbered a (l ++ k) = sent.numbered a l ++ sent.numbered (a + len l) k.
Proof.
  unfold max_pn. revert a. induction l as [|o l IH]; intros a Ha Hl; [by rewrite Z.add_0_r|].
  cbn [app] in *. rewrite !len_cons in *. pose proof (len_nonneg (l ++ k)). cbn [sent.numbered].
  rewrite (i64_small (a + 1)) by lia. rewrite IH by lia. replace (a + (1 + len l)) with (a + 1 + len l) by lia.
  by destruct o.
Qed.

Lemma numbered_in a l pn p : 0 <= a -> a + len l <= max_pn ->
  In (pn, p) (sent.numbered a l) <-> a <= pn /\ l !! Z.to_nat (pn - a) = Some (Some p).
Proof.
  unfold max_pn. revert a. induction l as [|o l IH]; intros a Ha Hl; [cbn; split; [done|by intros []]|].
  rewrite len_cons in Hl. pose proof (len_nonneg l). cbn [sent.numbered]. rewrite (i64_small (a + 1)) by lia.
  assert (Htl : In (pn, p) (sent.numbered (a + 1) l) <-> a + 1 <= pn /\ (o :: l) !! Z.to_nat (pn - a) = Some (Some p)).
  { rewrite IH by lia. split; intros [H1 H2]; (split; [done|]); revert H2;
      by replace (Z.to_nat (pn - a)) with (S (Z.to_nat (pn - (a + 1)))) by lia. }
  destruct (Z.eq_dec pn a) as [->|Hne].
  - rewrite Z.sub_diag in *. change (Z.to_nat 0) with 0%nat in *.
    destruct o as [q|]; cbn [In]; rewrite Htl; cbn; split.
    + intros [[= ->]|[? _]]; [done|lia].
    + intros [_ [= ->]]. by left.
    + lia.
    + by intros [_ ?].
  - assert (Hor : a + 1 <= pn <-> a <= pn) by lia. rewrite Hor in Htl.
    destruct o as [q|]; cbn [In]; rewrite Htl; [|done]. split; [intros [[= ? ?]|?]; [done|done]|by right].
Qed.

Lemma numbered_ge a l : 0 <= a -> a + len l <= max_pn -> Forall (fun x => a <= x.1 < a + len l) (sent.numbered a l).
Proof.
  intros Ha Hl. apply List.Forall_forall. intros [pn p] Hin. apply numbered_in in Hin as [Hge Hlk]; [|done..].
  apply lookup_lt_Some in Hlk. unfold len in *. cbn. lia.
Qed.

Lemma del_ge pn l : Forall (fun x => pn < x.1) l -> del pn l = l.
Proof.
  induction 1 as [|x l Hx _ IH]; [done|]. unfold del in *. cbn. by rewrite (proj2 (Z.eqb_neq _ _)), IH by lia.
Qed.

Lemma numbered_hole a l i : 0 <= a -> a + len l <= max_pn -> (i < length l)%nat ->
  sent.numbered a (<[i := None]> l) = del (a + Z.of_nat i) (sent.numbered a l).
Proof.
  revert a i. induction l as [|o l IH]; intros a i Ha Hl Hi; [cbn in Hi; lia|]. rewrite len_cons in Hl.
  assert (Ea : i64 (a + 1) = a + 1) by (apply i64_small; pose proof (len_nonneg l); unfold max_pn in *; lia).
  destruct i as [|i]; cbn [insert list_insert sent.numbered] in *.
  - rewrite Z.add_0_r, Ea. assert (Hd : del a (sent.numbered (a + 1) l) = sent.numbered (a + 1) l).
    { apply del_ge. eapply Forall_impl; [apply numbered_ge; lia|]. cbn. lia. }
    destruct o; [|done]. unfold del in *. cbn. by rewrite Z.eqb_refl.
  - rewrite Ea, IH by (cbn in Hi; lia). replace (a + 1 + Z.of_nat i) with (a + Z.of_nat (S i)) by lia.
    destruct o; [|done]. unfold del. cbn [List.filter fst]. by rewrite (proj2 (Z.eqb_neq _ _)) by lia.
Qed.

Lemma numbered_nodup a l : 0 <= a -> a + len l <= max_pn -> NoDup (map fst (sent.numbered a l)).
Proof.
  revert a. induction l as [|o l IH]; intros a Ha Hl; [constructor|]. rewrite len_cons in Hl. pose proof (len_nonneg l).
  cbn [sent.numbered]. rewrite i64_small by (unfold max_pn in *; lia). destruct o; [|apply IH; lia]. cbn. constructor; [|apply IH; lia].
  intros (x & Hx & Hin)%list_elem_of_fmap. pose proof (numbered_ge (a + 1) l ltac:(lia) ltac:(lia)) as Hg.
  rewrite Forall_forall in Hg. specialize (Hg x Hin). lia.
Qed.

Definition before (x y : entry) : Prop := x.1 < y.1.

Lemma numbered_sorted a l : 0 <= a -> a + len l <= max_pn -> StronglySorted before (sent.numbered a l).
Proof.
  revert a. induction l as [|o l IH]; intros a Ha Hl; [constructor|]. rewrite len_cons in Hl. pose proof (len_nonneg l).
  cbn [sent.numbered]. rewrite i64_small by (unfold max_pn in *; lia). destruct o; [|apply IH; lia]. constructor; [apply IH; lia|].
  eapply List.Forall_impl; [|apply List.Forall_forall; intros y; apply (proj1 (List.Forall_forall _ _) (numbered_ge (a + 1) l ltac:(lia) ltac:(lia)) y)].
  intros y. unfold before. cbn. lia.
Qed.

Lemma drop_nils_spec a l l' a' : 0 <= a -> a + len l <= max_pn -> sent.drop_nils l a = (l', a') ->
  (forall k, l' <> None :: k) /\
  (l' = [] /\ sent.numbered a l = [] \/
   l' <> [] /\ a <= a' /\ a' + len l' = a + len l /\ sent.numbered a' l' = sent.numbered a l).
Proof.
  revert a. induction l as [|o l IH]; intros a Ha Hl; cbn [sent.drop_nils sent.numbered].
  - intros [= <- <-]. split; [done|by left].
  - rewrite len_cons in Hl. pose proof (len_nonneg l). rewrite (i64_small (a + 1)) by (unfold max_pn in *; lia). destruct o as [p|].
    + intros [= <- <-]. split; [done|]. right. split; [done|]. split; [lia|]. split; [done|]. cbn.
      by rewrite i64_small by (unfold max_pn in *; lia).
    + intros Hd. destruct (IH (a + 1) ltac:(lia) ltac:(lia) Hd) as [H1 [H2|(H2 & H3 & H4 & H5)]]; (split; [done|]); [by left|right].
      rewrite len_cons. split; [done|]. split; [lia|]. split; [lia|done].
Qed.

End Numbered.

(** ** The list of packets *)

Lemma del_perm pn p (l : list entry) : NoDup (map fst l) -> In (pn, p) l -> l ≡ₚ (pn, p) :: del pn l.
Proof.
  induction l as [|[n q] l IH]; intros Hd Hin; [done|]. cbn in Hd. apply NoDup_cons in Hd as [Hn Hd]. unfold del. cbn [List.filter fst].
  destruct Hin as [[= -> ->]|Hin].
  - rewrite Z.eqb_refl. cbn. assert (Hdel : del pn l = l); [|by unfold del in Hdel; rewrite Hdel].
    unfold del. clear -Hn. induction l as [|[n q] l IH]; [done|]. cbn in *.
    rewrite (proj2 (Z.eqb_neq _ _)) by (intros ->; apply Hn; left). cbn. rewrite IH; [done|]. intros H. apply Hn. by right.
  - assert (Hne : n <> pn).
    { intros ->. apply Hn. apply list_elem_of_In. by apply (in_map fst) in Hin. }
    rewrite (proj2 (Z.eqb_neq _ _)) by done. cbn. rewrite (IH Hd Hin) at 1. apply perm_swap.
Qed.

Lemma del_in pn (l : list entry) x : In x (del pn l) <-> In x l /\ x.1 <> pn.
Proof. unfold del. rewrite List.filter_In, negb_true_iff, Z.eqb_neq. done. Qed.

Lemma del_nodup pn (l : list entry) : NoDup (map fst l) -> NoDup (map fst (del pn l)).
Proof.
  induction l as [|[n q] l IH]; intros Hd; [done|]. cbn in Hd. apply NoDup_cons in Hd as [Hn Hd]. unfold del in *. cbn.
  destruct (negb _); [|auto]. cbn. constructor; [|auto]. intros (x & -> & Hx)%list_elem_of_fmap. apply Hn. apply list_elem_of_In.
  apply in_map. apply list_elem_of_In in Hx. by apply (del_in pn l) in Hx as [? _].
Qed.

Section Facts.
Context (h : sentPacketHistory).
Hypothesis Hok : hist_ok h.

Lemma slice_bound : packets h <> [] -> 0 <= firstPacketNumber h /\ firstPacketNumber h + len (packets h) <= max_pn.
Proof. intros Hne. pose proof (ho_low _ Hok Hne). pose proof (ho_high _ Hok Hne). pose proof (ho_max _ Hok). lia. Qed.

Lemma Packets_nodup : NoDup (map fst (sent.Packets h)).
Proof.
  unfold sent.Packets. destruct (packets h) eqn:E; [constructor|]. rewrite <-E. apply numbered_nodup; apply slice_bound; by rewrite E.
Qed.

Lemma Packets_range : Forall (fun x => 0 <= x.1 <= highestPacketNumber h) (sent.Packets h).
Proof.
  unfold sent.Packets. destruct (packets h) as [|o l] eqn:E; [constructor|]. rewrite <-E. assert (Hne : packets h <> []) by (by rewrite E).
  destruct (slice_bound Hne) as [H1 H2]. eapply Forall_impl; [by apply numbered_ge|]. pose proof (ho_high _ Hok Hne). cbn. lia.
Qed.

Lemma Packets_sorted : StronglySorted before (sent.Packets h).
Proof.
  unfold sent.Packets. destruct (packets h) eqn:E; [constructor|]. rewrite <-E. apply numbered_sorted; apply slice_bound; by rewrite E.
Qed.

(** A packet of the list is found in the slice. *)
Lemma getIndex_in pn p : In (pn, p) (sent.Packets h) ->
  exists idx, sent.getIndex h pn = Some idx /\ packets h !! idx = Some (Some p) /\ pn = firstPacketNumber h + Z.of_nat idx /\
    (idx < length (packets h))%nat.
Proof.
  unfold sent.Packets, sent.getIndex. destruct (packets h) as [|o l] eqn:E; [done|]. rewrite <-E. assert (Hne : packets h <> []) by (by rewrite E).
  destruct (slice_bound Hne) as [H1 H2]. intros [Hge Hlk]%numbered_in; [|done..]. exists (Z.to_nat (pn - firstPacketNumber h)).
  pose proof (lookup_lt_Some _ _ _ Hlk) as Hlt. unfold len in *.
  rewrite (proj2 (Z.eqb_neq _ 0)), (proj2 (Z.ltb_ge pn _)) by lia. rewrite i64_small by (unfold max_pn in *; lia).
  rewrite (proj2 (Z.ltb_ge _ _)) by lia. split; [done|]. split; [done|]. split; lia.
Qed.

Lemma outstanding_del pn p : In (pn, p) (sent.Packets h) ->
  len (List.filter is_outstanding (sent.Packets h))
  = (if Outstanding p then 1 else 0) + len (List.filter is_outstanding (del pn (sent.Packets h))).
Proof.
  intros Hin. assert (Hp : forall l k : list entry, l ≡ₚ k -> len (List.filter is_outstanding l) = len (List.filter is_outstanding k)).
  { intros l k. induction 1 as [|x l k _ IH|x y l|? ? ? _ IH1 _ IH2]; [done| | |congruence]; cbn;
      repeat destruct (is_outstanding _); rewrite ?len_cons; lia. }
  rewrite (Hp _ _ (del_perm pn p _ Packets_nodup Hin)). cbn. unfold is_outstanding at 1. cbn. destruct (Outstanding p); by rewrite ?len_cons.
Qed.

(** The history without the packet, before and after the clean-up *)
Lemma forget_spec pn p idx : In (pn, p) (sent.Packets h) -> packets h !! idx = Some (Some p) -> pn = firstPacketNumber h + Z.of_nat idx ->
  exists num, sent.forget h idx p = Ret (with_packets h (<[idx := None]> (packets h)) num (firstPacketNumber h)) /\
    num = len (List.filter is_outstanding (del pn (sent.Packets h))) /\
    sent.numbered (firstPacketNumber h) (<[idx := None]> (packets h)) = del pn (sent.Packets h).
Proof.
  intros Hin Hlk ->. unfold sent.forget. rewrite (ho_num _ Hok), (outstanding_del _ p Hin).
  set (num := len (List.filter is_outstanding (del _ _))). pose proof (len_nonneg (List.filter is_outstanding (del (firstPacketNumber h + Z.of_nat idx) (sent.Packets h)))) as Hnn.
  fold num in Hnn. replace (if Outstanding p then (if Outstanding p then 1 else 0) + num - 1 else (if Outstanding p then 1 else 0) + num) with num
    by (destruct (Outstanding p); lia).
  rewrite (proj2 (Z.ltb_ge _ _)) by done. eexists. split; [done|]. split; [done|].
  assert (Hne : packets h <> []) by (intros E; by rewrite E in Hlk). destruct (slice_bound Hne). apply lookup_lt_Some in Hlk.
  by apply numbered_hole.
Qed.

(** What a removal leaves *)
Record removed (pn : Z) (h' : sentPacketHistory) : Prop := {
  rm_ok : hist_ok h';
  rm_packets : sent.Packets h' = del pn (sent.Packets h);
  rm_probes : pathProbePackets h' = pathProbePackets h;
  rm_skipped : skippedPackets h' = skippedPackets h;
  rm_high : highestPacketNumber h' = highestPacketNumber h;
}.

Lemma hole_removed pn p idx num :
  In (pn, p) (sent.Packets h) -> packets h !! idx = Some (Some p) -> idx <> 0%nat ->
  num = len (List.filter is_outstanding (del pn (sent.Packets h))) ->
  sent.numbered (firstPacketNumber h) (<[idx := None]> (packets h)) = del pn (sent.Packets h) ->
  removed pn (with_packets h (<[idx := None]> (packets h)) num (firstPacketNumber h)).
Proof.
  intros Hin Hlk Hi Hn Hnum. assert (Hne : packets h <> []) by (intros E; by rewrite E in Hlk). pose proof Hok as [O1 O2 O3 O4 O5 O6 O7 O8 O9].
  split; cbn; try done. split; cbn; try done.
  - unfold sent.Packets. cbn. by rewrite Hnum.
  - destruct idx as [|idx]; [done|]. destruct (packets h) as [|[q|] l] eqn:E; [done| |by destruct (O2 l)]. by cbn.
  - intros _. specialize (O3 Hne). unfold len in *. by rewrite length_insert.
  - auto.
Qed.

Lemma cleanup_removed pn idx num :
  (idx < length (packets h))%nat ->
  num = len (List.filter is_outstanding (del pn (sent.Packets h))) ->
  sent.numbered (firstPacketNumber h) (<[idx := None]> (packets h)) = del pn (sent.Packets h) ->
  removed pn (sent.cleanupStart (with_packets h (<[idx := None]> (packets h)) num (firstPacketNumber h))).
Proof.
  intros Hi Hn Hnum. assert (Hne : packets h <> []) by (intros E; rewrite E in Hi; cbn in Hi; lia).
  destruct (slice_bound Hne) as [Hb1 Hb2]. pose proof Hok as [O1 O2 O3 O4 O5 O6 O7 O8 O9]. specialize (O3 Hne).
  unfold sent.cleanupStart. cbn [packets firstPacketNumber with_packets].
  destruct (sent.drop_nils (<[idx := None]> (packets h)) (firstPacketNumber h)) as [l a] eqn:Ed.
  apply drop_nils_spec in Ed as [Hd1 Hd2]; [|done|unfold len in *; by rewrite length_insert].
  assert (Hp : sent.numbered a l = del pn (sent.Packets h)).
  { destruct Hd2 as [[-> Hz]|(_ & _ & _ & Hz)]; rewrite <-Hnum; [by rewrite Hz|done]. }
  split; cbn; try done. split; cbn; try done.
  - unfold sent.Packets. cbn. by rewrite Hp.
  - intros Hl. destruct Hd2 as [[-> _]|(_ & _ & H4 & _)]; [done|]. unfold len in *. rewrite length_insert in H4. lia.
  - intros Hl. destruct Hd2 as [[-> _]|(_ & H3 & _)]; [done|]. lia.
Qed.

Lemma Remove_spec pn p : In (pn, p) (sent.Packets h) -> exists h', sent.Remove h pn = Ret h' /\ removed pn h'.
Proof.
  intros Hin. destruct (getIndex_in pn p Hin) as (idx & Hg & Hlk & Hpn & Hlt). unfold sent.Remove. rewrite Hg, Hlk.
  destruct (forget_spec pn p idx Hin Hlk Hpn) as (num & -> & Hn & Hnum). cbn [obind packets with_packets].
  assert (Hhead : forall h', removed pn h' -> exists h0, match packets h' with None :: _ => Panic | _ => Ret h' end = Ret h0 /\ removed pn h0).
  { intros h' Hr. exists h'. split; [|done]. destruct (packets h') as [|[q|] l] eqn:E; try done. by destruct (ho_first _ (rm_ok _ _ Hr) l). }
  destruct (existsb sent.is_some (take idx (<[idx := None]> (packets h)))) eqn:Eb.
  - apply Hhead. assert (idx <> 0%nat) by (intros ->; done). by apply (hole_removed pn p).
  - apply Hhead. by apply (cleanup_removed pn idx num).
Qed.

Lemma DeclareLost_spec pn p : In (pn, p) (sent.Packets h) -> exists h', sent.DeclareLost h pn = Ret h' /\ removed pn h'.
Proof.
  intros Hin. destruct (getIndex_in pn p Hin) as (idx & Hg & Hlk & Hpn & Hlt). unfold sent.DeclareLost. rewrite Hg, Hlk.
  destruct (forget_spec pn p idx Hin Hlk Hpn) as (num & -> & Hn & Hnum). cbn [obind]. eexists. split; [done|].
  destruct idx as [|idx]; [by apply cleanup_removed|by apply (hole_removed pn p)].
Qed.

(** Removing probes *)
Lemma find_probe_spec l pn : match sent.find_probe l pn with
  | Some (i, p) => l !! i = Some (pn, p)
  | None => ~ In pn (map fst l)
  end.
Proof.
  induction l as [|[n p] l IH]; cbn; [auto|]. destruct (Z.eqb_spec n pn) as [->|Hne]; [done|].
  destruct (sent.find_probe l pn) as [[i q]|]; [done|]. intros [?|?]; auto.
Qed.

End Facts.

(** *** Distance without the skipped numbers *)

(** The numbers between two others that were skipped and are remembered *)
Definition skipped_between (h : sentPacketHistory) (a b : Z) : list Z := List.filter (fun n => (b <? n) && (n <? a)) (skippedPackets h).

Lemma i64_sub_l x y : i64 (i64 x - y) = i64 (x - y).
Proof.
  unfold i64, wrapu. replace ((x + 2 ^ 63) mod 2 ^ 64 - 2 ^ 63 - y + 2 ^ 63) with ((x + 2 ^ 63) mod 2 ^ 64 - y) by lia.
  rewrite Zminus_mod_idemp_l. do 2 f_equal. lia.
Qed.

Lemma count_down (f : Z -> bool) l : forall d, fold_left (fun d n => if f n then i64 (d - 1) else d) l (i64 d) = i64 (d - len (List.filter f l)).
Proof.
  induction l as [|n l IH]; intros d; cbn; [by rewrite Z.sub_0_r|]. destruct (f n); [|apply IH].
  rewrite i64_sub_l, IH, len_cons. f_equal. lia.
Qed.

Lemma sorted_last (l : list Z) m : StronglySorted Z.lt l -> last l = Some m -> Forall (fun n => n <= m) l.
Proof.
  induction 1 as [|n l Hl IH Hn]; intros Hm; [done|]. destruct l as [|n' l]; [cbn in Hm; injection Hm as ->; by repeat constructor|].
  pose proof (IH Hm) as Hf. constructor; [|done]. apply List.Forall_cons_iff in Hn as [Hn _]. apply Forall_cons in Hf as [Hf _]. lia.
Qed.

Lemma none_between h a b : Forall (fun n => n <= b \/ a <= n) (skippedPackets h) -> skipped_between h a b = [].
Proof.
  unfold skipped_between. induction 1 as [|n l Hn _ IH]; [done|]. cbn. destruct (Z.ltb_spec b n), (Z.ltb_spec n a); cbn; [lia|done..].
Qed.

(** [Difference] does not count the numbers that were skipped. *)
Lemma Difference_skipped h a b : hist_ok h -> sent.Difference h a b = i64 (a - b - len (skipped_between h a b)).
Proof.
  intros Hok. pose proof (ho_skipped _ Hok) as Hs. unfold sent.Difference.
  assert (Hz : skipped_between h a b = [] -> i64 (a - b) = i64 (a - b - len (skipped_between h a b))) by (intros ->; by rewrite Z.sub_0_r).
  destruct (head (skippedPackets h)) as [first|] eqn:Eh; cycle 1.
  { apply Hz, none_between. destruct (skippedPackets h); [constructor|done]. }
  destruct (last (skippedPackets h)) as [m|] eqn:El; cycle 1.
  { apply Hz, none_between. apply last_None in El as ->. constructor. }
  destruct (Z.ltb_spec a first) as [Ha|Ha]; cbn [orb].
  { apply Hz, none_between. destruct (skippedPackets h) as [|n l]; [done|]. injection Eh as ->. apply StronglySorted_inv in Hs as [_ Hs].
    constructor; [lia|]. eapply List.Forall_impl; [|exact Hs]. cbn. lia. }
  destruct (Z.ltb_spec m b) as [Hb|Hb]; [|apply (count_down (fun n => (b <? n) && (n <? a)))].
  apply Hz, none_between. eapply Forall_impl; [by apply (sorted_last _ m)|]. cbn. lia.
Qed.

Lemma with_probes_ok h l : hist_ok h -> NoDup (map fst l) -> Forall (fun x => x.1 <= highestPacketNumber h) l -> hist_ok (with_probes h l).
Proof. intros [] ? ?. by split. Qed.

(** *** New packets *)

(** The number is the next one, or the first. *)
Definition next_number (h : sentPacketHistory) (pn : Z) : Prop :=
  0 <= pn < max_pn /\ (highestPacketNumber h = InvalidPacketNumber \/ pn = highestPacketNumber h + 1).

Lemma check_spec h pn : hist_ok h -> next_number h pn ->
  sent.checkSequentialPacketNumberUse h pn
  = Ret {| packets := packets h; pathProbePackets := pathProbePackets h; skippedPackets := skippedPackets h;
           numOutstanding := numOutstanding h;
           firstPacketNumber := if len (packets h) =? 0 then pn else firstPacketNumber h; highestPacketNumber := pn |}.
Proof.
  intros Hok [Hpn Hn]. unfold sent.checkSequentialPacketNumberUse. pose proof (ho_max _ Hok). unfold InvalidPacketNumber in *.
  destruct Hn as [E|E]; rewrite E; [done|]. rewrite i64_small by (unfold max_pn in *; lia). by rewrite Z.eqb_refl, andb_false_r.
Qed.

(** A history with one more slot *)
Lemma appended_ok h o pn probes skipped :
  hist_ok h -> next_number h pn -> (o = None -> packets h <> []) ->
  NoDup (map fst probes) -> Forall (fun x => x.1 <= pn) probes -> StronglySorted Z.lt skipped -> Forall (fun n => n <= pn) skipped ->
  let first := if len (packets h) =? 0 then pn else firstPacketNumber h in
  let h' := {| packets := packets h ++ [o]; pathProbePackets := probes; skippedPackets := skipped;
               numOutstanding := numOutstanding h + match o with Some p => if Outstanding p then 1 else 0 | None => 0 end;
               firstPacketNumber := first; highestPacketNumber := pn |} in
  hist_ok h' /\ sent.Packets h' = sent.Packets h ++ match o with Some p => [(pn, p)] | None => [] end.
Proof.
  intros Hok [Hpn Hn] Ho Hp1 Hp2 Hk1 Hk2 first h'.
  assert (Hfirst : 0 <= first /\ first + len (packets h) = pn).
  { unfold first. destruct (packets h) as [|x l] eqn:E; [change (len []) with 0; cbn; lia|]. assert (Hne : packets h <> []) by (by rewrite E).
    pose proof (ho_high _ Hok Hne) as Hh. pose proof (ho_low _ Hok Hne). rewrite E in Hh. unfold len in *. cbn [length] in *.
    rewrite (proj2 (Z.eqb_neq _ 0)) by lia. unfold InvalidPacketNumber in *. lia. }
  assert (Hlen : len (packets h ++ [o]) = len (packets h) + 1) by (by rewrite len_app).
  assert (Hps : sent.Packets h' = sent.Packets h ++ match o with Some p => [(pn, p)] | None => [] end).
  { assert (E1 : sent.numbered first (packets h) = sent.Packets h) by (unfold sent.Packets, first; by destruct (packets h)).
    unfold sent.Packets at 1. unfold h'. cbn [packets firstPacketNumber]. rewrite numbered_app by (unfold max_pn in *; lia).
    rewrite (proj2 Hfirst), E1. by destruct o. }
  split; [|done]. pose proof Hok as [O1 O2 O3 O4 O5 O6 O7 O8 O9]. split; cbn; try done.
  - refine (eq_trans _ (f_equal (fun l => len (List.filter is_outstanding l)) (eq_sym Hps))).
    rewrite List.filter_app, len_app, <-O1. f_equal. destruct o as [p|]; [|done]. cbn. unfold is_outstanding. cbn. by destruct (Outstanding p).
  - intros l E. destruct (packets h) as [|x k] eqn:Ek; [|cbn in E; injection E as -> _; by destruct (O2 k)].
    cbn in E. injection E as -> _. by apply Ho.
  - intros _. lia.
  - intros _. lia.
  - lia.
Qed.

Lemma grown_probes h pn : hist_ok h -> next_number h pn -> Forall (fun x => x.1 < pn) (pathProbePackets h).
Proof.
  intros Hok [Hpn Hn]. eapply Forall_impl; [apply (ho_probe_max _ Hok)|]. cbn. unfold InvalidPacketNumber in *. lia.
Qed.

Lemma grown_skipped h pn : hist_ok h -> next_number h pn ->
  StronglySorted Z.lt (skippedPackets h) /\ Forall (fun n => n < pn) (skippedPackets h).
Proof.
  intros Hok [Hpn Hn]. split; [apply Hok|]. eapply Forall_impl; [apply (ho_skipped_max _ Hok)|]. cbn. unfold InvalidPacketNumber in *. lia.
Qed.

(** One more number at the end *)
Lemma sorted_snoc (l : list Z) n : StronglySorted Z.lt l -> Forall (fun m => m < n) l -> StronglySorted Z.lt (l ++ [n]).
Proof.
  induction 1 as [|m l Hl IH Hm]; intros Hn; [repeat constructor|]. apply Forall_cons in Hn as [Hmn Hn]. cbn. constructor; [auto|].
  apply List.Forall_app. split; [done|by constructor].
Qed.

Lemma SentPacket_spec h pn p : hist_ok h -> next_number h pn ->
  exists h', sent.SentPacket h pn p = Ret h' /\ hist_ok h' /\ sent.Packets h' = sent.Packets h ++ [(pn, p)] /\
    pathProbePackets h' = pathProbePackets h /\ highestPacketNumber h' = pn.
Proof.
  intros Hok Hn. unfold sent.SentPacket. rewrite check_spec by done. cbn [obind]. eexists. split; [reflexivity|].
  pose proof (grown_probes h pn Hok Hn) as Hg.
  destruct (grown_skipped h pn Hok Hn) as [Hk1 Hk2].
  destruct (appended_ok h (Some p) pn (pathProbePackets h) (skippedPackets h) Hok Hn) as [H1 H2];
    [done|apply Hok|eapply Forall_impl; [exact Hg|cbn; lia]|done|eapply Forall_impl; [exact Hk2|cbn; lia]|].
  unfold with_packets. cbn. replace (if Outstanding p then numOutstanding h + 1 else numOutstanding h)
    with (numOutstanding h + if Outstanding p then 1 else 0) by (destruct (Outstanding p); lia). done.
Qed.

Lemma SentPathProbePacket_spec h pn p : hist_ok h -> next_number h pn ->
  exists h', sent.SentPathProbePacket h pn p = Ret h' /\ hist_ok h' /\ sent.Packets h' = sent.Packets h ++ [(pn, probe_placeholder)] /\
    pathProbePackets h' = pathProbePackets h ++ [(pn, p)] /\ highestPacketNumber h' = pn.
Proof.
  intros Hok Hn. unfold sent.SentPathProbePacket. rewrite check_spec by done. cbn [obind]. eexists. split; [reflexivity|].
  pose proof (grown_probes h pn Hok Hn) as Hg.
  destruct (grown_skipped h pn Hok Hn) as [Hk1 Hk2].
  destruct (appended_ok h (Some probe_placeholder) pn (pathProbePackets h ++ [(pn, p)]) (skippedPackets h) Hok Hn) as [H1 H2];
    [done| | |done|eapply Forall_impl; [exact Hk2|cbn; lia]|].
  - rewrite map_app. cbn. apply NoDup_app. split; [apply Hok|]. split; [|by apply NoDup_singleton].
    intros x (y & -> & Hy)%list_elem_of_fmap Hx. apply list_elem_of_singleton in Hx. rewrite Forall_forall in Hg. specialize (Hg y Hy). lia.
  - apply Forall_app. split; [eapply Forall_impl; [exact Hg|cbn; lia]|]. apply Forall_singleton. cbn. lia.
  - unfold with_probes, with_packets. cbn. change (Outstanding probe_placeholder) with false in H1, H2. cbn in H1, H2. rewrite Z.add_0_r in H1. done.
Qed.

(** At most four skipped numbers are remembered. *)
Lemma remembered_skipped h pn : hist_ok h -> next_number h pn ->
  let l := (if len (skippedPackets h) =? maxSkippedPackets then drop 1 (skippedPackets h) else skippedPackets h) ++ [pn] in
  StronglySorted Z.lt l /\ Forall (fun n => n <= pn) l.
Proof.
  intros Hok Hn. destruct (grown_skipped h pn Hok Hn) as [Hk1 Hk2]. cbv zeta. set (old := if _ : bool then _ else _).
  assert (Hold : StronglySorted Z.lt old /\ Forall (fun n => n < pn) old).
  { unfold old. destruct (_ =? _); [|done]. destruct (skippedPackets h); [done|]. by apply StronglySorted_inv in Hk1 as [? _]; apply Forall_cons in Hk2 as [_ ?]. }
  destruct Hold as [Ho1 Ho2]. split; [by apply sorted_snoc|].
  apply Forall_app. split; [eapply Forall_impl; [exact Ho2|cbn; lia]|by constructor].
Qed.

Lemma SkippedPacket_spec h pn : hist_ok h -> next_number h pn ->
  exists h', sent.SkippedPacket h pn = Ret h' /\ hist_ok h' /\ sent.Packets h' = sent.Packets h /\
    pathProbePackets h' = pathProbePackets h /\ highestPacketNumber h' = pn.
Proof.
  intros Hok Hn. unfold sent.SkippedPacket. rewrite check_spec by done. cbn [obind packets]. eexists. split; [reflexivity|].
  pose proof (grown_probes h pn Hok Hn) as Hg. assert (Hg' : Forall (fun x => x.1 <= pn) (pathProbePackets h)) by (eapply Forall_impl; [exact Hg|cbn; lia]).
  destruct (remembered_skipped h pn Hok Hn) as [Hs1 Hs2].
  set (skipped := _ ++ [pn]). destruct (packets h) as [|x l] eqn:E.
  - change (0 <? len []) with false. cbn iota. split; [|by unfold sent.Packets; rewrite E]. destruct Hok as [O1 O2 O3 O4 O5 O6 O7 O8 O9]. destruct Hn.
    split; cbn; try done; [|lia]. rewrite O1. unfold sent.Packets. by rewrite E.
  - destruct (appended_ok h None pn (pathProbePackets h) skipped Hok Hn) as [H1 H2]; [by rewrite E|apply Hok|done..|].
    rewrite E in H1, H2. rewrite len_cons in *. pose proof (len_nonneg l). unfold with_skipped, with_packets. cbn [packets].
    rewrite (proj2 (Z.ltb_lt 0 _)) by lia. cbn. cbn in H1, H2. rewrite Z.add_0_r in H1. by rewrite app_nil_r in H2.
Qed.

(** *** Queries and path probes *)

Lemma has_outstanding h : hist_ok h -> sent.HasOutstandingPackets h = existsb is_outstanding (sent.Packets h).
Proof.
  intros Hok. unfold sent.HasOutstandingPackets. rewrite (ho_num _ Hok). induction (sent.Packets h) as [|x l IH]; [done|]. cbn.
  destruct (is_outstanding x); [|done]. rewrite len_cons. pose proof (len_nonneg (List.filter is_outstanding l)). cbn. apply Z.ltb_lt. lia.
Qed.

Lemma FirstOutstanding_in h pn p : sent.FirstOutstanding h = Some (pn, p) -> In (pn, p) (sent.Packets h) /\ Outstanding p = true.
Proof. unfold sent.FirstOutstanding. destruct (negb _); [done|]. intros [? ?]%find_some. done. Qed.

Lemma RemovePathProbe_spec h pn : hist_ok h ->
  match sent.RemovePathProbe h pn with
  | (h', Some p) => hist_ok h' /\ sent.Packets h' = sent.Packets h /\ highestPacketNumber h' = highestPacketNumber h /\
      pathProbePackets h ≡ₚ (pn, p) :: pathProbePackets h' /\ skippedPackets h' = skippedPackets h
  | (h', None) => h' = h /\ ~ In pn (map fst (pathProbePackets h))
  end.
Proof.
  intros Hok. unfold sent.RemovePathProbe. pose proof (find_probe_spec (pathProbePackets h) pn) as Hf.
  destruct (sent.find_probe (pathProbePackets h) pn) as [[i p]|]; [|done]. pose proof (delete_Permutation _ _ _ Hf) as Hp.
  split; [|done]. apply with_probes_ok; [done| |].
  - pose proof (ho_probes _ Hok) as Hd. rewrite (Permutation_map fst Hp) in Hd. cbn in Hd. by apply NoDup_cons in Hd as [_ Hd].
  - pose proof (ho_probe_max _ Hok) as Hm. rewrite Hp in Hm. by apply Forall_cons in Hm as [_ Hm].
Qed.

(** The probes that are left are some of those that there were. *)
Lemma remove_while_iterating_sub rounds i live arr : (live <= length arr)%nat ->
  sent.remove_while_iterating rounds i live arr `sublist_of` take live arr.
Proof.
  revert i live arr. induction rounds as [|rounds IH]; intros i live arr Hl; [done|]. cbn.
  destruct (arr !! i) as [[pn q]|]; [|done]. pose proof (find_probe_spec (take live arr) pn) as Hf.
  destruct (sent.find_probe (take live arr) pn) as [[idx q']|]; [|auto].
  pose proof (lookup_lt_Some _ _ _ Hf) as Hlt. rewrite length_take in Hlt.
  set (arr' := take idx arr ++ drop (S idx) (take live arr) ++ drop (live - 1) arr).
  assert (Htk : take (live - 1) arr' = delete idx (take live arr)).
  { rewrite delete_take_drop, take_take. unfold arr'. replace (idx `min` live)%nat with idx by lia. rewrite app_assoc, take_app_le.
    - apply take_ge. rewrite length_app, length_take, length_drop, length_take. lia.
    - rewrite length_app, length_take, length_drop, length_take. lia. }
  etransitivity; [apply IH; unfold arr'; rewrite !length_app, !length_drop, !length_take; lia|]. rewrite Htk. apply sublist_delete.
Qed.

Lemma RemoveAllPathProbes_sub h : pathProbePackets (sent.RemoveAllPathProbes h) `sublist_of` pathProbePackets h.
Proof.
  unfold sent.RemoveAllPathProbes. cbn. etransitivity; [by apply remove_while_iterating_sub|]. by rewrite take_ge.
Qed.
