(* ===== verification/SentHandlerFacts.v ===== *)
(** * What the sent packet handler accounts for

    Frames that are waited for, bytes that are in flight, and what the
    operations on one packet do to them.  The frames of the packets a handler
    keeps, with those whose handlers were told, are its account: operations
    move frames inside the account. *)
From S2P Require Import Prelude Protocol AckFrame AckFrameProps Frames GoFloat Rtt Congestion AckTracker Ecn SentHistory SentHistoryFacts SentHandler.

Local Open Scope Z_scope.
Local Open Scope go_scope.

(** ** Frames *)

(** The frames somebody waits for *)
Definition tracked_frames (l : list sent_frame) : list (nat * Frame) :=
  flat_map (fun f => match Handler f with Some k => [(k, Frame_ f)] | None => [] end) l.

Definition tracked (p : packet) : list (nat * Frame) := tracked_frames (Frames_ p) ++ tracked_frames (StreamFrames p).

(** The frames whose handlers were told *)
Definition settled (l : list call) : list (nat * Frame) :=
  flat_map (fun c => match c with OnAcked k f | OnLost k f => [(k, f)] | IgnorePacketsBelow _ => [] end) l.

(** Those that were told of an acknowledgement *)
Definition acks_of (l : list call) : list (nat * Frame) :=
  flat_map (fun c => match c with OnAcked k f => [(k, f)] | _ => [] end) l.

Definition live_in (l : list entry) : list (nat * Frame) := flat_map (fun x => tracked x.2) l.

Definition flight_in (l : list entry) : Z :=
  fold_right (fun x n => (if includedInBytesInFlight x.2 then Length x.2 else 0) + n) 0 l.

Definition live_hist (h : sentPacketHistory) : list (nat * Frame) := live_in (sent.Packets h) ++ live_in (pathProbePackets h).

Lemma live_in_app l k : live_in (l ++ k) = live_in l ++ live_in k.
Proof. apply flat_map_app. Qed.
Lemma flight_in_app l k : flight_in (l ++ k) = flight_in l + flight_in k.
Proof. unfold flight_in. induction l as [|x l IH]; [done|]. cbn [app fold_right]. rewrite IH. lia. Qed.
Lemma settled_app l k : settled (l ++ k) = settled l ++ settled k.
Proof. apply flat_map_app. Qed.

Lemma acks_app l k : acks_of (l ++ k) = acks_of l ++ acks_of k.
Proof. apply flat_map_app. Qed.

#[export] Instance live_in_perm : Proper ((≡ₚ) ==> (≡ₚ)) live_in.
Proof.
  intros l k. induction 1 as [|x l k _ IH|x y l|? ? ? _ IH1 _ IH2]; [done| | |by etransitivity]; cbn; [by rewrite IH|].
  rewrite !app_assoc. apply Permutation_app_tail, Permutation_app_comm.
Qed.
#[export] Instance flight_in_perm : Proper ((≡ₚ) ==> (=)) flight_in.
Proof. unfold flight_in. intros l k. induction 1; cbn [fold_right]; lia. Qed.

Lemma handlers_settled mk l : (forall k f, settled [mk k f] = [(k, f)]) -> settled (handlers_of mk l) = tracked_frames l.
Proof.
  intros Hmk. unfold handlers_of, tracked_frames. induction l as [|f l IH]; [done|]. cbn [flat_map]. rewrite settled_app, IH. f_equal.
  destruct (Handler f); [|done]. apply Hmk.
Qed.

Lemma handlers_acks mk l g : (forall k f, acks_of [mk k f] = if g : bool then [(k, f)] else []) ->
  acks_of (handlers_of mk l) = if g then tracked_frames l else [].
Proof.
  intros Hmk. unfold handlers_of, tracked_frames. induction l as [|f l IH]; [by destruct g|]. cbn [flat_map]. rewrite acks_app, IH.
  destruct (Handler f) as [k|]; [rewrite Hmk|]; by destruct g.
Qed.

Lemma acks_acked l : acks_of (handlers_of OnAcked l) = tracked_frames l.
Proof. by apply (handlers_acks _ _ true). Qed.
Lemma acks_lost l : acks_of (handlers_of OnLost l) = [].
Proof. by apply (handlers_acks _ _ false). Qed.

(** ** Packets *)

Definition max_packet : Z := 2 ^ 20.
Definition max_time : Z := 2 ^ 60.

Record entry_ok (x : entry) : Prop := {
  en_probe : isPathProbePacket x.2 = true -> x.2 = probe_placeholder;
  en_included : isPathProbePacket x.2 = false -> includedInBytesInFlight x.2 = IsAckEliciting x.2;
  en_length : 0 < Length x.2 <= max_packet \/ isPathProbePacket x.2 = true;
  en_time : 0 <= SendTime x.2 <= max_time;
}.

(** A path probe that is kept aside *)
Record probe_ok (x : entry) : Prop := {
  pr_probe : isPathProbePacket x.2 = true;
  pr_included : includedInBytesInFlight x.2 = false;
  pr_handlers : Forall (fun f => Handler f <> None) (Frames_ x.2);
  pr_stream : StreamFrames x.2 = [];
  pr_time : 0 < SendTime x.2 <= max_time;
}.

Lemma placeholder_free x : isPathProbePacket x.2 = true -> entry_ok x -> tracked x.2 = [] /\ includedInBytesInFlight x.2 = false.
Proof. intros Hp Hx. by rewrite (en_probe _ Hx Hp). Qed.

(** ** Generators *)

Definition gen_next (g : packetNumberGenerator) : Z := match g with Sequential n => n | Skipping _ _ n _ => n end.

(** What the numbers that are drawn are like *)
Definition rand_ok (rand : Z -> Z) : Prop := forall n, 0 < n -> 0 <= rand n < n.

Definition gen_ok (g : packetNumberGenerator) : Prop :=
  match g with
  | Sequential n => 0 <= n
  | Skipping period maxPeriod n skip => 0 < period <= maxPeriod /\ maxPeriod <= 2 ^ 30 /\ 0 <= n <= skip
  end.

Lemma gen_skip_ok rand period maxPeriod n : rand_ok rand -> 0 < period <= maxPeriod -> maxPeriod <= 2 ^ 30 -> 0 <= n <= 2 ^ 62 ->
  gen_ok (pns.generateNewSkip rand period maxPeriod n) /\ gen_next (pns.generateNewSkip rand period maxPeriod n) = n.
Proof.
  intros Hr Hp Hm Hn. unfold pns.generateNewSkip. rewrite (i64_small (2 * period)), (i64_small (n + 3)) by lia.
  pose proof (Hr (2 * period) ltac:(lia)). rewrite i64_small by lia. split; [|done]. cbn. lia.
Qed.

(** The number that is popped is the next one, or the one after it. *)
Lemma pop_number_spec rand g : rand_ok rand -> gen_ok g -> gen_next g < 2 ^ 61 ->
  exists g' skipped, pns.Pop rand g = (g', skipped, gen_next g + if skipped : bool then 1 else 0) /\ gen_ok g' /\
    gen_next g' = gen_next g + (if skipped then 2 else 1) /\ pns.Peek g = gen_next g + if skipped then 1 else 0.
Proof.
  intros Hr Hg Hn. destruct g as [n|period maxPeriod n skip]; cbn [pns.Pop pns.Peek gen_next gen_ok] in *.
  - rewrite i64_small by lia. exists (Sequential (n + 1)), false. rewrite Z.add_0_r. split; [done|]. split; cbn; lia.
  - destruct Hg as (Hp & Hm & Hs). rewrite !i64_small by lia. destruct (Z.eqb_spec n skip) as [->|Hne].
    + destruct (gen_skip_ok rand period maxPeriod (skip + 2) Hr Hp Hm) as [H1 H2]; [lia|].
      eexists _, true. split; [reflexivity|]. split; [done|]. by rewrite H2.
    + eexists _, false. rewrite Z.add_0_r. split; [reflexivity|]. split; [|done]. cbn. lia.
Qed.

(** ** Packet number spaces *)

Record space_ok (s : packetNumberSpace) : Prop := {
  sp_hist : hist_ok (history s);
  sp_gen : gen_ok (pns_ s);
  sp_next : highestPacketNumber (history s) = InvalidPacketNumber \/ gen_next (pns_ s) = highestPacketNumber (history s) + 1;
  sp_entries : Forall entry_ok (sent.Packets (history s));
  sp_probes : Forall probe_ok (pathProbePackets (history s));
  sp_time : sent.HasOutstandingPackets (history s) = true -> 0 < lastAckElicitingPacketTime s <= max_time;
}.

Definition space_live (s : option packetNumberSpace) : list (nat * Frame) :=
  match s with Some s => live_hist (history s) | None => [] end.
Definition space_flight (s : option packetNumberSpace) : Z :=
  match s with Some s => flight_in (sent.Packets (history s)) | None => 0 end.

Lemma flight_nonneg s : Forall entry_ok s -> 0 <= flight_in s.
Proof.
  unfold flight_in. induction 1 as [|x l Hx _ IH]; [done|]. cbn [fold_right]. destruct (includedInBytesInFlight x.2) eqn:E; [|lia].
  destruct (en_length _ Hx) as [?|Hp]; [lia|]. destruct (placeholder_free x Hp Hx). congruence.
Qed.

(** *** The interface of congestion controllers *)

Class SendAlgorithmLaws (C : Type) `{SendAlgorithm C} := {
  cc_ok : C -> Prop;
  cc_new : forall r size, 0 < size -> cc_ok (NewSender r size);
  cc_sent : forall c r t n pn size e, cc_ok c -> cc_ok (OnPacketSent_ c r t n pn size e);
  cc_exit : forall c r, cc_ok c -> exists c', MaybeExitSlowStart_ c r = Ret c' /\ cc_ok c';
  cc_acked : forall c pn size n t, cc_ok c -> exists c', OnPacketAcked_ c pn size n t = Ret c' /\ cc_ok c';
  cc_event : forall c pn size n, cc_ok c -> cc_ok (OnCongestionEvent_ c pn size n);
  cc_size : forall c s c', cc_ok c -> SetMaxDatagramSize_ c s = Ret c' -> cc_ok c';
}.

#[export] Instance cubic_laws : SendAlgorithmLaws cubicSender.
Proof.
  refine (Build_SendAlgorithmLaws cubicSender _ (fun c => 0 < maxDatagramSize c) _ _ _ _ _ _).
  - done.
  - intros c r t n pn size e Hc. cbn. unfold reno.OnPacketSent. by destruct (negb e).
  - intros c r Hc. cbn. unfold reno.MaybeExitSlowStart. destruct (negb _); [by eexists|]. rewrite (proj2 (Z.eqb_neq _ _)) by lia.
    destruct (hystart.ShouldExitSlowStart _ _ _ _) as [s ex]. eexists. split; [done|]. by destruct ex.
  - intros c pn size n t Hc. cbn. unfold reno.OnPacketAcked. set (c1 := with_pacing _ _ _ _ _). destruct (reno.InRecovery c1); [by eexists|].
    unfold reno.maybeIncreaseCwnd. destruct (negb _); cbn [obind]; [eexists; split; [done|]; by destruct (reno.InSlowStart _)|].
    destruct (_ <=? _); cbn [obind]; [eexists; split; [done|]; by destruct (reno.InSlowStart _)|].
    destruct (reno.InSlowStart c1); cbn [obind]; [eexists; split; [done|]; by destruct (reno.InSlowStart _)|].
    rewrite (proj2 (Z.eqb_neq _ _)) by (cbn; lia). destruct (_ <=? _); cbn [obind]; eexists; (split; [done|]); by destruct (reno.InSlowStart _).
  - intros c pn size n Hc. cbn. unfold reno.OnCongestionEvent. by destruct (_ <=? _).
  - intros c s c' Hc. cbn. unfold reno.SetMaxDatagramSize. case Z.ltb_spec; [done|]. intros Hs [= <-]. destruct (_ =? _); cbn; lia.
Defined.
