(* ===== verification/SentHandlerSteps.v ===== *)
(** * Steps of the sent packet handler

    The invariant of a handler, and what each of its functions does to the
    account and to the bytes in flight.  In the middle of an operation,
    packets were taken out of the history whose bytes still count: they are
    the first argument of the invariant. *)
From S2P Require Import Prelude Protocol AckFrame AckFrameProps Frames GoFloat Rtt Congestion AckTracker Ecn SentHistory SentHistoryFacts SentHandler SentHandlerFacts.

Local Open Scope Z_scope.
Local Open Scope go_scope.

Section Steps.
Context {C : Type} `{SendAlgorithmLaws C}.
Abbreviation handler := (sentPacketHandler C).

Definition live (h : handler) : list (nat * Frame) :=
  space_live (initialPackets h) ++ space_live (handshakePackets h) ++ space_live (Some (appDataPackets h)).
Definition flight (h : handler) : Z :=
  space_flight (initialPackets h) + space_flight (handshakePackets h) + space_flight (Some (appDataPackets h)).

Definition account (h : handler) : list (nat * Frame) := settled (calls h) ++ live h.

(** A packet whose bytes count has bytes. *)
Definition weighs (x : entry) : Prop := includedInBytesInFlight x.2 = true -> 0 < Length x.2.

Record hinv (pend : list entry) (h : handler) : Prop := {
  hi_spaces : forall l s, getPacketNumberSpace h l = Some s -> space_ok s;
  hi_flight : bytesInFlight h = flight h + flight_in pend;
  hi_pend : Forall weighs pend;
  hi_cc : cc_ok (congestion h);
  hi_done : initialPackets h = None -> handshakePackets h = None -> peerCompletedAddressValidation h = true;
}.

(** What most functions leave alone *)
Record still (h h' : handler) : Prop := {
  st_present : forall l, getPacketNumberSpace h' l = None <-> getPacketNumberSpace h l = None;
  st_perspective : perspective h' = perspective h;
  st_completed : peerCompletedAddressValidation h' = peerCompletedAddressValidation h;
  st_confirmed : handshakeConfirmed h' = handshakeConfirmed h;
  st_probes : numProbesToSend h' = numProbesToSend h;
}.

#[export] Instance still_refl : Reflexive still.
Proof. by split. Qed.
#[export] Instance still_trans : Transitive still.
Proof. intros h1 h2 h3 [] []. split; try congruence. intros l. by rewrite st_present1. Qed.

(** ** Changing a space *)

Lemma space_get (h : handler) l s : getPacketNumberSpace h l = Some s -> space h l = Ret s.
Proof. unfold space. by intros ->. Qed.

Lemma set_space_get (h : handler) l s l' s' : getPacketNumberSpace (set_space h l s) l' = Some s' -> s' = s \/ getPacketNumberSpace h l' = Some s'.
Proof. destruct l, l'; cbn; auto; intros [= <-]; auto. Qed.

Lemma set_space_same (h : handler) l s : getPacketNumberSpace (set_space h l s) l = Some s.
Proof. by destruct l. Qed.

Lemma set_space_still (h : handler) l s s' : getPacketNumberSpace h l = Some s -> still h (set_space h l s').
Proof. intros E. split; [|by destruct l..]. intros l'. destruct l, l'; cbn in *; split; congruence. Qed.

(** What a new state of a space changes *)
Lemma set_space_flight (h : handler) l s s' : getPacketNumberSpace h l = Some s ->
  flight (set_space h l s') + space_flight (Some s) = flight h + space_flight (Some s').
Proof. unfold flight. destruct l; cbn [getPacketNumberSpace set_space with_spaces initialPackets handshakePackets appDataPackets]; intros E; try injection E as <-; rewrite ?E; lia. Qed.

Lemma set_space_live (h : handler) l s s' : getPacketNumberSpace h l = Some s ->
  live (set_space h l s') ++ space_live (Some s) ≡ₚ live h ++ space_live (Some s').
Proof.
  unfold live. destruct l; cbn [getPacketNumberSpace set_space with_spaces initialPackets handshakePackets appDataPackets];
    intros E; try injection E as <-; rewrite ?E; solve_Permutation.
Qed.

Lemma hinv_space (h : handler) pend pend' l s s' :
  hinv pend h -> getPacketNumberSpace h l = Some s -> space_ok s' -> Forall weighs pend' ->
  space_flight (Some s') + flight_in pend' = space_flight (Some s) + flight_in pend -> hinv pend' (set_space h l s').
Proof.
  intros [I1 I2 I3 I4 I5] E Hs' Hp Hf. pose proof (set_space_flight h l s s' E) as Hfl. split; try done.
  - intros l' s1 [->|E1]%set_space_get; [done|eauto].
  - replace (bytesInFlight (set_space h l s')) with (bytesInFlight h) by (by destruct l). lia.
  - by destruct l.
  - destruct l; cbn in *; auto; intros; congruence.
Qed.

(** The account after one space has changed *)
Lemma account_space (h : handler) l s s' a b : getPacketNumberSpace h l = Some s ->
  space_live (Some s) ++ a ≡ₚ space_live (Some s') ++ b -> account (set_space h l s') ++ b ≡ₚ account h ++ a.
Proof.
  intros E Hl. pose proof (set_space_live h l s s' E) as Hsp. unfold account.
  replace (calls (set_space h l s')) with (calls h) by (by destruct l). rewrite <-!app_assoc. apply Permutation_app_head.
  apply (Permutation_app_inv_r (space_live (Some s))). transitivity ((live (set_space h l s') ++ space_live (Some s)) ++ b); [solve_Permutation|].
  rewrite Hsp, <-app_assoc, <-Hl. solve_Permutation.
Qed.

(** Changes that concern neither spaces nor bytes *)
Record same_spaces (h h' : handler) : Prop := {
  ss_initial : initialPackets h' = initialPackets h;
  ss_handshake : handshakePackets h' = handshakePackets h;
  ss_app : appDataPackets h' = appDataPackets h;
}.

Lemma same_get h h' l : same_spaces h h' -> getPacketNumberSpace h' l = getPacketNumberSpace h l.
Proof. intros []. destruct l; cbn; congruence. Qed.

Lemma same_live h h' : same_spaces h h' -> live h' = live h /\ flight h' = flight h.
Proof. intros [E1 E2 E3]. unfold live, flight. by rewrite E1, E2, E3. Qed.

Lemma same_hinv h h' pend : same_spaces h h' -> hinv pend h -> bytesInFlight h' = bytesInFlight h -> cc_ok (congestion h') ->
  (peerCompletedAddressValidation h = true -> peerCompletedAddressValidation h' = true) -> hinv pend h'.
Proof.
  intros Hss [I1 I2 I3 I4 I5] Hb Hc Hp. destruct (same_live _ _ Hss) as [_ Hf]. split; try done.
  - intros l s. rewrite (same_get _ _ l Hss). apply I1.
  - congruence.
  - destruct Hss as [-> -> _]. auto.
Qed.

Lemma same_account h h' new : same_spaces h h' -> settled (calls h') = settled (calls h) ++ new -> account h' ≡ₚ account h ++ new.
Proof.
  intros Hss Hc. destruct (same_live _ _ Hss) as [El _]. unfold account. rewrite El, Hc, <-!app_assoc. apply Permutation_app_head, Permutation_app_comm.
Qed.

(** ** One packet *)

Lemma removed_space s pn p hist' : space_ok s -> In (pn, p) (sent.Packets (history s)) -> removed (history s) pn hist' ->
  space_ok (with_history s hist') /\ live_hist (history s) ≡ₚ tracked p ++ live_hist hist' /\
  flight_in (sent.Packets (history s)) = flight_in [(pn, p)] + flight_in (sent.Packets hist').
Proof.
  intros [S1 S2 S3 S4 S5 S6] Hin [R1 R2 R3 R4 R5]. pose proof (del_perm pn p _ (Packets_nodup _ S1) Hin) as Hp. rewrite <-R2 in Hp.
  assert (Hall : Forall entry_ok ((pn, p) :: sent.Packets hist')) by (by rewrite <-Hp). apply Forall_cons in Hall as [_ Hall].
  split; [|split].
  - split; cbn; try done.
    + by rewrite R5.
    + by rewrite R3.
    + intros Ho. apply S6. rewrite has_outstanding in Ho |- * by done. apply existsb_exists in Ho as (x & Hx & Hox).
      apply existsb_exists. exists x. split; [|done]. rewrite R2 in Hx. by apply del_in in Hx as [? _].
  - unfold live_hist. rewrite R3, Hp. cbn. by rewrite <-!app_assoc.
  - rewrite Hp. unfold flight_in. cbn. lia.
Qed.

(** The packet is taken out, and its frames are told. *)
Lemma take_out (h : handler) pend l s pn p hist' :
  hinv pend h -> getPacketNumberSpace h l = Some s -> In (pn, p) (sent.Packets (history s)) -> removed (history s) pn hist' ->
  hinv ((pn, p) :: pend) (set_space h l (with_history s hist')) /\
  account (set_space h l (with_history s hist')) ++ tracked p ≡ₚ account h.
Proof.
  intros Hi E Hin Hr. pose proof (hi_spaces _ _ Hi l s E) as Hs. destruct (removed_space s pn p hist' Hs Hin Hr) as (H1 & H2 & H3). split.
  - apply (hinv_space h pend ((pn, p) :: pend) l s); try done.
    + constructor; [|apply Hi]. unfold weighs. cbn. intros Hinc. pose proof (sp_entries _ Hs) as He. rewrite List.Forall_forall in He.
      specialize (He _ Hin). destruct (en_length _ He) as [?|Hp]; [cbn in *; lia|]. destruct (placeholder_free _ Hp He) as [_ Hf]. cbn in Hf. congruence.
    + cbn [space_flight with_history history]. rewrite H3. unfold flight_in. cbn. lia.
  - rewrite (account_space h l s (with_history s hist') [] (tracked p) E); [by rewrite app_nil_r|].
    rewrite app_nil_r. cbn [space_live with_history history]. rewrite H2. apply Permutation_app_comm.
Qed.

Lemma removeFromBytesInFlight_spec (h : handler) pend x : hinv (x :: pend) h ->
  exists n, removeFromBytesInFlight h x.2 = Ret (with_flight h n (congestion h) (calls h)) /\ hinv pend (with_flight h n (congestion h) (calls h)).
Proof.
  intros [I1 I2 I3 I4 I5]. apply Forall_cons in I3 as [Hw I3]. unfold flight_in in I2. cbn [fold_right] in I2. fold (flight_in pend) in I2.
  assert (Hpos : forall k : list entry, Forall weighs k -> 0 <= flight_in k).
  { unfold flight_in. induction 1 as [|y k Hy _ IH]; [done|]. cbn [fold_right]. unfold weighs in Hy. destruct (includedInBytesInFlight y.2); [specialize (Hy eq_refl)|]; lia. }
  assert (Hfl : 0 <= flight h).
  { assert (Hsp : forall s, (forall s0, s = Some s0 -> space_ok s0) -> 0 <= space_flight s).
    { intros [s|] Hs; [|done]. apply flight_nonneg, sp_entries. by apply Hs. }
    unfold flight. pose proof (Hsp (initialPackets h) (I1 EncryptionInitial)). pose proof (Hsp (handshakePackets h) (I1 EncryptionHandshake)).
    pose proof (Hsp (Some (appDataPackets h)) (I1 Encryption1RTT)). lia. }
  pose proof (Hpos _ I3) as Hpend. unfold removeFromBytesInFlight. destruct (includedInBytesInFlight x.2) eqn:E.
  - rewrite (proj2 (Z.ltb_ge _ _)) by lia. eexists. split; [done|]. split; try done. cbn. rewrite I2. unfold flight. cbn. lia.
  - exists (bytesInFlight h). split; [by destruct h|]. by split.
Qed.

Lemma queueFrames_spec (h : handler) p : IsAckEliciting p = true ->
  exists l, queueFramesForRetransmission h p = Ret (set_calls h (calls h ++ l)) /\ settled l = tracked p /\ acks_of l = [].
Proof.
  intros E. unfold queueFramesForRetransmission. rewrite E. eexists. split; [reflexivity|].
  rewrite settled_app, !handlers_settled by done. by rewrite acks_app, !acks_lost.
Qed.

Lemma not_eliciting_free p : IsAckEliciting p = false -> tracked p = [].
Proof.
  unfold IsAckEliciting, tracked. intros [H1 H2]%orb_false_iff. apply Z.ltb_ge in H1, H2. unfold len in *.
  destruct (StreamFrames p), (Frames_ p); cbn in *; try lia. done.
Qed.

(** The bytes are taken off, and the frames are lost. *)
Lemma retire (h : handler) pend x : hinv (x :: pend) h -> IsAckEliciting x.2 = true ->
  exists h' n l, (let! h := removeFromBytesInFlight h x.2 in queueFramesForRetransmission h x.2) = Ret h' /\
    h' = with_flight h n (congestion h) (calls h ++ l) /\ hinv pend h' /\ account h' ≡ₚ account h ++ tracked x.2 /\ acks_of l = [] /\
    settled l = tracked x.2.
Proof.
  intros Hi He. destruct (removeFromBytesInFlight_spec h pend x Hi) as (n & -> & Hi1). cbn [obind].
  destruct (queueFrames_spec (with_flight h n (congestion h) (calls h)) x.2 He) as (l & -> & Hl & Hk).
  eexists _, n, l. split; [reflexivity|]. split; [done|]. split; [|split; [|done]].
  - by apply (same_hinv (with_flight h n (congestion h) (calls h))); [split|..|apply Hi|].
  - apply same_account; [by split|]. cbn. by rewrite settled_app, Hl.
Qed.

(** ** Losses *)

(** What the loss of the packets [xs] does *)
Record lost_step (pend : list entry) (l : EncryptionLevel) (xs : list entry) (h h' : handler) : Prop := {
  ls_inv : hinv pend h';
  ls_account : account h' ≡ₚ account h;
  ls_still : still h h';
  ls_acks : acks_of (calls h') = acks_of (calls h);
  ls_told : settled (calls h') = settled (calls h) ++ live_in xs;
  ls_space : forall s, getPacketNumberSpace h l = Some s -> exists s', getPacketNumberSpace h' l = Some s' /\
    sent.Packets (history s') = fold_left (fun ps pn => del pn ps) (map fst xs) (sent.Packets (history s)) /\
    pathProbePackets (history s') = pathProbePackets (history s) /\
    skippedPackets (history s') = skippedPackets (history s) /\ largestAcked s' = largestAcked s;
}.

Lemma lose_packet_spec (h : handler) pend l prior pn p s : hinv pend h -> getPacketNumberSpace h l = Some s ->
  In (pn, p) (sent.Packets (history s)) -> exists h', lose_packet h l prior pn p = Ret h' /\ lost_step pend l [(pn, p)] h h' /\
    forall s', getPacketNumberSpace h' l = Some s' -> lossTime s' = lossTime s.
Proof.
  intros Hi Hs Hin. unfold lose_packet. set (h0 := if is_app_data l then _ else h).
  assert (Hss : same_spaces h h0) by (unfold h0; by destruct (is_app_data l)).
  assert (Hi0 : hinv pend h0) by (unfold h0; destruct (is_app_data l); [|done]; apply (same_hinv h); try done; apply Hi).
  assert (Ha0 : account h0 ≡ₚ account h) by (unfold h0; by destruct (is_app_data l)).
  assert (Hst0 : still h h0) by (split; try (unfold h0; by destruct (is_app_data l)); intros l'; by rewrite (same_get _ _ l' Hss)).
  assert (Hs0 : getPacketNumberSpace h0 l = Some s) by (by rewrite (same_get _ _ l Hss)).
  assert (Hc0 : calls h0 = calls h) by (unfold h0; by destruct (is_app_data l)).
  clearbody h0. rewrite (space_get h0 l s Hs0). cbn [obind].
  destruct (DeclareLost_spec (history s) (sp_hist _ (hi_spaces _ _ Hi l s Hs)) pn p Hin) as (hist' & -> & Hr). cbn [obind].
  unfold set_history. rewrite (space_get h0 l s Hs0). cbn [obind].
  destruct (take_out h0 pend l s pn p hist' Hi0 Hs0 Hin Hr) as [Hi1 Ha1]. set (h1 := set_space h0 l (with_history s hist')) in *.
  assert (Hst1 : still h h1) by (etransitivity; [exact Hst0|by apply (set_space_still h0 l s)]).
  assert (Hs1 : getPacketNumberSpace h1 l = Some (with_history s hist')) by apply set_space_same.
  assert (Hk0 : calls h1 = calls h) by (rewrite <-Hc0; by destruct l).
  assert (Hdone : forall h', same_spaces h1 h' -> still h1 h' -> hinv pend h' -> account h' ≡ₚ account h ->
    acks_of (calls h') = acks_of (calls h) -> settled (calls h') = settled (calls h) ++ tracked p ->
    lost_step pend l [(pn, p)] h h' /\ forall s', getPacketNumberSpace h' l = Some s' -> lossTime s' = lossTime s).
  { intros h' Hss' Hst' Hi' Ha' Hk' Ht'. split; [split; [done|done|by etransitivity|done| |]|].
    - rewrite Ht'. cbn. by rewrite app_nil_r.
    - intros s0. rewrite Hs. intros [= <-]. exists (with_history s hist'). rewrite (same_get _ _ l Hss'), Hs1. destruct Hr. done.
    - intros s'. rewrite (same_get _ _ l Hss'), Hs1. by intros [= <-]. }
  destruct (isPathProbePacket p || negb (IsAckEliciting p)) eqn:Ep.
  - assert (Hfree : tracked p = [] /\ includedInBytesInFlight p = false).
    { pose proof (sp_entries _ (hi_spaces _ _ Hi l s Hs)) as He. rewrite List.Forall_forall in He. specialize (He _ Hin).
      destruct (isPathProbePacket p) eqn:Eq; [by apply (placeholder_free (pn, p))|]. cbn in Ep. apply negb_true_iff in Ep.
      split; [by apply not_eliciting_free|]. pose proof (en_included _ He Eq) as Hinc. cbn in Hinc. congruence. }
    destruct Hfree as [Ht Hf]. exists h1. split; [done|]. apply Hdone; try done.
    + destruct Hi1 as [I1 I2 I3 I4 I5]. apply Forall_cons in I3 as [_ I3]. split; try done. rewrite I2. unfold flight_in. cbn. by rewrite Hf.
    + rewrite <-Ha0, <-Ha1, Ht. by rewrite app_nil_r.
    + by rewrite Hk0.
    + by rewrite Hk0, Ht, app_nil_r.
  - apply orb_false_iff in Ep as [Eq Ee]. apply negb_false_iff in Ee.
    destruct (retire h1 pend (pn, p) Hi1 Ee) as (h2 & n & cl & Hret & -> & Hi2 & Ha2 & Hk2 & Ht2). cbn [snd] in Hret, Ht2.
    destruct (removeFromBytesInFlight h1 p) as [h3| |]; cbn [obind] in Hret |- *; [|done..]. rewrite Hret. cbn [obind]. clear Hret.
    set (h2 := with_flight h1 n _ _) in *. set (h4 := if IsPathMTUProbePacket p then h2 else _).
    assert (Hss4 : same_spaces h1 h4) by (unfold h4; destruct (IsPathMTUProbePacket p); by split).
    assert (Hi4 : hinv pend h4).
    { unfold h4. destruct (IsPathMTUProbePacket p); [done|]. apply (same_hinv h2); try done. cbn. apply cc_event, Hi1. }
    assert (Ha4 : account h4 ≡ₚ account h).
    { transitivity (account h2); [unfold h4; by destruct (IsPathMTUProbePacket p)|]. rewrite Ha2. cbn [snd]. by rewrite <-Ha0, <-Ha1. }
    assert (Hst4 : still h1 h4) by (unfold h4; destruct (IsPathMTUProbePacket p); by split).
    assert (Hk4 : acks_of (calls h4) = acks_of (calls h)).
    { transitivity (acks_of (calls h2)); [unfold h4; by destruct (IsPathMTUProbePacket p)|]. unfold h2. cbn. by rewrite Hk0, acks_app, Hk2, app_nil_r. }
    assert (Ht4 : settled (calls h4) = settled (calls h) ++ tracked p).
    { transitivity (settled (calls h2)); [unfold h4; by destruct (IsPathMTUProbePacket p)|]. unfold h2. cbn. by rewrite Hk0, settled_app, Ht2. }
    clearbody h4. eexists. split; [reflexivity|]. unfold ecn_lost. apply Hdone; destruct l; try done; destruct (ecnTracker_ h4); try done.
    all: first [by apply (same_hinv h4); [split|..|apply Hi4|] | destruct Hss4; by split | destruct Hst4; by split].
Qed.

(** Which packets are lost, and which wait for the timer *)
Definition due (s : packetNumberSpace) (lostSendTime : Z) (x : entry) : bool :=
  (SendTime x.2 <=? lostSendTime) || (packetThreshold <=? sent.Difference (history s) (largestAcked s) x.1).
Definition gone (s : packetNumberSpace) (lostSendTime : Z) (x : entry) : bool := (x.1 <=? largestAcked s) && due s lostSendTime x.

Definition without (pns : list Z) (l : list entry) : list entry := fold_left (fun ps pn => del pn ps) pns l.

(** A packet that later ones have overtaken, but that is not lost yet *)
Definition waiting (s : packetNumberSpace) (lostSendTime : Z) (x : entry) : bool := (x.1 <=? largestAcked s) && negb (due s lostSendTime x).

(** When the first of them will be lost *)
Definition loss_at (s : packetNumberSpace) (lossDelay lostSendTime : Z) (ps : list entry) : Z :=
  match List.find (waiting s lostSendTime) ps with Some x => i64 (SendTime x.2 + lossDelay) | None => 0 end.

Lemma lost_step_refl (h : handler) pend l : hinv pend h -> lost_step pend l [] h h.
Proof. intros Hi. split; try done. - by rewrite app_nil_r. - intros s E. by exists s. Qed.

Lemma lost_step_trans (h1 h2 h3 : handler) pend l a b : lost_step pend l a h1 h2 -> lost_step pend l b h2 h3 -> lost_step pend l (a ++ b) h1 h3.
Proof.
  intros [A1 A2 A3 A6 A7 A4] [B1 B2 B3 B6 B7 B4]. split; [done|by etransitivity|by etransitivity|congruence| |].
  - by rewrite B7, A7, live_in_app, app_assoc.
  - intros s E. destruct (A4 s E) as (s2 & E2 & P2 & P2' & Q2 & R2). destruct (B4 s2 E2) as (s3 & E3 & P3 & P3' & Q3 & R3).
    exists s3. split; [done|]. rewrite P3, P2, map_app, fold_left_app. split; [done|]. split_and!; congruence.
Qed.

Lemma Difference_same h h' a b : skippedPackets h' = skippedPackets h -> sent.Difference h' a b = sent.Difference h a b.
Proof. intros E. unfold sent.Difference. by rewrite E. Qed.

(** The timer is set for the first packet that waits. *)
Lemma set_loss_time (h : handler) pend l s t : hinv pend h -> getPacketNumberSpace h l = Some s ->
  let h' := if lossTime s =? 0 then set_space h l (with_times s t (lastAckElicitingPacketTime s)) else h in
  lost_step pend l [] h h' /\ forall s', getPacketNumberSpace h' l = Some s' -> lossTime s' = if lossTime s =? 0 then t else lossTime s.
Proof.
  intros Hi Hs. cbv zeta. destruct (Z.eqb_spec (lossTime s) 0) as [E|E]; [|split; [by apply lost_step_refl|intros s'; rewrite Hs; by intros [= <-]]].
  assert (Hok : space_ok (with_times s t (lastAckElicitingPacketTime s))) by (destruct (hi_spaces _ _ Hi l s Hs); by split).
  split; [|intros s'; rewrite set_space_same; by intros [= <-]].
  split; [by apply (hinv_space h pend pend l s); try done; apply Hi| |by apply (set_space_still h l s)|by destruct l| |].
  - pose proof (account_space h l s (with_times s t (lastAckElicitingPacketTime s)) [] [] Hs) as Ha. rewrite !app_nil_r in Ha. by apply Ha.
  - rewrite app_nil_r. by destruct l.
  - intros s0. rewrite Hs. intros [= <-]. rewrite set_space_same. by eexists.
Qed.

(** Nothing above the largest acknowledged number is lost, or waits. *)
Lemma above_largest s lostSendTime (k : list entry) : Forall (fun x => largestAcked s < x.1) k ->
  List.filter (gone s lostSendTime) k = [] /\ List.find (waiting s lostSendTime) k = None.
Proof.
  induction 1 as [|x k Hx _ [IH1 IH2]]; [done|]. cbn. unfold gone at 1, waiting at 1. by rewrite (proj2 (Z.leb_gt _ _)).
Qed.

(** The same packets are lost, and wait, when others have left. *)
Lemma same_due s s1 t : largestAcked s1 = largestAcked s -> skippedPackets (history s1) = skippedPackets (history s) ->
  (forall x, gone s1 t x = gone s t x) /\ (forall x, waiting s1 t x = waiting s t x).
Proof. intros El Ek. unfold gone, waiting, due. split; intros x; by rewrite El, (Difference_same _ _ _ _ Ek). Qed.

Lemma find_ext' {A : Type} (f g : A -> bool) l : (forall x, f x = g x) -> List.find f l = List.find g l.
Proof. intros E. induction l as [|x l IH]; [done|]. cbn. by rewrite E, IH. Qed.

(** The loop of [detectLostPackets] loses exactly the packets that are due,
    and takes the time of the first one that waits. *)
Lemma lost_loop_spec l lossDelay lostSendTime prior ps : forall (h : handler) pend s, hinv pend h -> getPacketNumberSpace h l = Some s ->
  StronglySorted before ps -> (forall x, In x ps -> In x (sent.Packets (history s))) ->
  Forall (fun x => i64 (SendTime x.2 + lossDelay) <> 0) ps ->
  exists h', lost_loop l lossDelay lostSendTime prior ps h = Ret h' /\
    lost_step pend l (List.filter (gone s lostSendTime) ps) h h' /\
    forall s', getPacketNumberSpace h' l = Some s' ->
      lossTime s' = if lossTime s =? 0 then loss_at s lossDelay lostSendTime ps else lossTime s.
Proof.
  induction ps as [|[pn p] ps IH]; intros h pend s Hi Hs Hsort Hin Hnz.
  { exists h. split; [done|]. split; [by apply lost_step_refl|]. intros s'. rewrite Hs. intros [= <-]. unfold loss_at. cbn. by destruct (Z.eqb_spec (lossTime s) 0). }
  apply StronglySorted_inv in Hsort as [Hsort Hbef]. apply Forall_cons in Hnz as [Hz Hnz]. cbn [lost_loop]. rewrite (space_get h l s Hs). cbn [obind].
  destruct (Z.ltb_spec (largestAcked s) pn) as [Hgt|Hle].
  { exists h. split; [done|]. destruct (above_largest s lostSendTime ((pn, p) :: ps)) as [E1 E2].
    { constructor; [done|]. eapply Forall_impl; [exact Hbef|]. unfold before. cbn. lia. }
    rewrite E1. split; [by apply lost_step_refl|]. intros s'. rewrite Hs. intros [= <-]. unfold loss_at. rewrite E2. by destruct (Z.eqb_spec (lossTime s) 0). }
  set (cond := (SendTime p <=? lostSendTime) || (packetThreshold <=? sent.Difference (history s) (largestAcked s) pn)).
  assert (Eg : gone s lostSendTime (pn, p) = cond /\ waiting s lostSendTime (pn, p) = negb cond).
  { unfold gone, waiting, due. cbn [fst snd]. by rewrite (proj2 (Z.leb_le _ _)) by done. }
  destruct Eg as [Eg Ew]. unfold loss_at. cbn [List.filter List.find]. rewrite Eg, Ew.
  assert (Hnext : forall h1 s1, getPacketNumberSpace h1 l = Some s1 -> hinv pend h1 -> largestAcked s1 = largestAcked s ->
    skippedPackets (history s1) = skippedPackets (history s) -> (forall x, In x ps -> In x (sent.Packets (history s1))) ->
    exists h', lost_loop l lossDelay lostSendTime prior ps h1 = Ret h' /\ lost_step pend l (List.filter (gone s lostSendTime) ps) h1 h' /\
      forall s', getPacketNumberSpace h' l = Some s' -> lossTime s' = if lossTime s1 =? 0 then loss_at s lossDelay lostSendTime ps else lossTime s1).
  { intros h1 s1 Hs1 Hi1 El Ek Hin1. destruct (IH h1 pend s1 Hi1 Hs1 Hsort Hin1 Hnz) as (h' & Hr & Hls & Hlt). exists h'. split; [done|].
    destruct (same_due s s1 lostSendTime El Ek) as [E1 E2]. unfold loss_at in *. rewrite (filter_ext _ _ E1) in Hls. by rewrite (find_ext' _ _ _ E2) in Hlt. }
  fold cond. destruct cond; cbn [negb].
  - destruct (lose_packet_spec h pend l prior pn p s Hi Hs) as (h1 & -> & Hl1 & Ht1); [apply Hin; by left|]. cbn [obind].
    destruct (ls_space _ _ _ _ _ Hl1 s Hs) as (s1 & Hs1 & Hp1 & _ & Hk1 & Hla1). cbn in Hp1.
    destruct (Hnext h1 s1 Hs1 (ls_inv _ _ _ _ _ Hl1) Hla1 Hk1) as (h' & -> & Hls & Hlt).
    { intros x Hx. rewrite Hp1. apply del_in. split; [apply Hin; by right|]. rewrite List.Forall_forall in Hbef. specialize (Hbef x Hx). unfold before in Hbef. cbn in Hbef. lia. }
    exists h'. split; [done|]. split; [by apply (lost_step_trans h h1 h' pend l [(pn, p)])|]. intros s' Hs'. rewrite (Hlt s' Hs'). by rewrite (Ht1 s1 Hs1).
  - destruct (set_loss_time h pend l s (i64 (SendTime p + lossDelay)) Hi Hs) as [Hl1 Ht1].
    set (h1 := if lossTime s =? 0 then _ else h) in *. destruct (ls_space _ _ _ _ _ Hl1 s Hs) as (s1 & Hs1 & Hp1 & _ & Hk1 & Hla1). cbn in Hp1.
    destruct (Hnext h1 s1 Hs1 (ls_inv _ _ _ _ _ Hl1) Hla1 Hk1) as (h' & Hr & Hls & Hlt); [intros x Hx; rewrite Hp1; apply Hin; by right|].
    exists h'. split; [done|]. split; [by apply (lost_step_trans h h1 h' pend l [])|].
    intros s' Hs'. rewrite (Hlt s' Hs'), (Ht1 s1 Hs1). cbn in Hz |- *. destruct (Z.eqb_spec (lossTime s) 0) as [E|E].
    + by rewrite (proj2 (Z.eqb_neq _ _) Hz).
    + by rewrite (proj2 (Z.eqb_neq _ _) E).
Qed.

Lemma without_in pns l x : In x (without pns l) <-> In x l /\ ~ In x.1 pns.
Proof.
  unfold without. revert l. induction pns as [|pn pns IH]; intros l; cbn; [tauto|]. rewrite IH, del_in. split.
  - intros [[H1 H2] H3]. split; [done|]. intros [?|?]; [congruence|done].
  - intros [H1 H2]. split; [split; [done|]|]; intros ?; apply H2; auto.
Qed.

Lemma without_filter f (l : list entry) : NoDup (map fst l) -> without (map fst (List.filter f l)) l = List.filter (fun x => negb (f x)) l.
Proof.
  intros Hd. unfold without.
  assert (Hgen : forall pns k, fold_left (fun ps pn => del pn ps) pns k = List.filter (fun x => negb (existsb (fun pn => x.1 =? pn) pns)) k).
  { intros pns. induction pns as [|pn pns IH]; intros k; cbn; [by induction k as [|x k IHk]; cbn; [|rewrite <-IHk]|]. rewrite IH. unfold del.
    induction k as [|x k IHk]; [done|]. cbn. destruct (x.1 =? pn); cbn; [done|]. destruct (existsb _ pns); cbn; by rewrite IHk. }
  rewrite Hgen. apply filter_ext_in. intros x Hx. f_equal. destruct (f x) eqn:Ef.
  - apply existsb_exists. exists x.1. split; [apply in_map, List.filter_In; done|apply Z.eqb_refl].
  - apply not_true_iff_false. intros (n & Hn & <-%Z.eqb_eq)%existsb_exists. apply in_map_iff in Hn as (y & Ey & [Hy Hfy]%List.filter_In).
    assert (y = x); [|congruence]. clear -Hd Hx Hy Ey. induction l as [|z l IH]; [done|]. cbn in Hd. apply NoDup_cons in Hd as [Hz Hd].
    assert (Hne : forall w, In w l -> w.1 <> z.1) by (intros w Hw E; apply Hz; apply list_elem_of_In; rewrite <-E; by apply in_map).
    destruct Hx as [->|Hx], Hy as [->|Hy]; auto; exfalso; eapply Hne; eauto.
Qed.

(** The loop looks at the packets up to the largest acknowledged number: the
    first of them that is left is the first one that waits. *)
Definition next_loss (s : packetNumberSpace) (lossDelay : Z) (left : list entry) : Z :=
  match left with x :: _ => if x.1 <=? largestAcked s then i64 (SendTime x.2 + lossDelay) else 0 | [] => 0 end.

Lemma loss_at_first s lossDelay lostSendTime ps : StronglySorted before ps ->
  loss_at s lossDelay lostSendTime ps = next_loss s lossDelay (List.filter (fun x => negb (gone s lostSendTime x)) ps).
Proof.
  unfold loss_at. induction 1 as [|x ps Hs IH Hb]; [done|]. cbn. unfold gone at 1, waiting at 1. destruct (Z.leb_spec x.1 (largestAcked s)); cbn [andb negb].
  - destruct (due s lostSendTime x); cbn [negb]; [exact IH|]. cbn. by rewrite (proj2 (Z.leb_le _ _)) by done.
  - destruct (above_largest s lostSendTime ps) as [_ ->]; [eapply Forall_impl; [exact Hb|]; unfold before; lia|].
    cbn. by rewrite (proj2 (Z.leb_gt _ _)) by done.
Qed.

(** A packet is not waited for until the zero time. *)
Lemma loss_time_nonzero r t : 0 <= t <= max_time -> i64 (t + loss_delay r) <> 0.
Proof.
  intros Ht. assert (Hd : 0 < loss_delay r < 2 ^ 63).
  { unfold loss_delay, TimerGranularity, Millisecond. pose proof (int_of_f64_range (fmul (fconst 9 8) (f64 (Z.max (LatestRTT r) (SmoothedRTT r))))). lia. }
  unfold max_time in Ht. unfold i64, wrapu. intros E. assert (Hm : (t + loss_delay r + 2 ^ 63) mod 2 ^ 64 = 2 ^ 63) by lia.
  pose proof (Z.div_mod (t + loss_delay r + 2 ^ 63) (2 ^ 64) ltac:(lia)) as Hdm. rewrite Hm in Hdm. lia.
Qed.

(** A packet not above the largest acknowledged number is lost exactly when it
    was sent long enough ago, or that number is three above it, and the time
    is set for the first one that is left; the frames of those that are lost
    are told, and no others. *)
Record losses (now : Z) (l : EncryptionLevel) (s : packetNumberSpace) (h h' : handler) : Prop := {
  lo_account : account h' ≡ₚ account h;
  lo_still : still h h';
  lo_acks : acks_of (calls h') = acks_of (calls h);
  lo_told : settled (calls h') = settled (calls h) ++
    live_in (List.filter (gone s (i64 (now - loss_delay (rttStats h)))) (sent.Packets (history s)));
  lo_space : exists s', getPacketNumberSpace h' l = Some s' /\ largestAcked s' = largestAcked s /\
    let d := loss_delay (rttStats h) in
    sent.Packets (history s') = List.filter (fun x => negb (gone s (i64 (now - d)) x)) (sent.Packets (history s)) /\
    pathProbePackets (history s') = pathProbePackets (history s) /\
    lossTime s' = next_loss s d (sent.Packets (history s'));
}.

Lemma detectLostPackets_spec (h : handler) pend l s now : hinv pend h -> getPacketNumberSpace h l = Some s ->
  exists h', detectLostPackets h now l = Ret h' /\ hinv pend h' /\ losses now l s h h'.
Proof.
  intros Hi Hs. unfold detectLostPackets. rewrite (space_get h l s Hs). cbn [obind].
  set (s0 := with_times s 0 (lastAckElicitingPacketTime s)). set (h0 := set_space h l s0).
  assert (Hok : space_ok s0) by (destruct (hi_spaces _ _ Hi l s Hs); by split).
  assert (Hi0 : hinv pend h0) by (apply (hinv_space h pend pend l s); try done; apply Hi).
  assert (Ha0 : account h0 ≡ₚ account h).
  { pose proof (account_space h l s s0 [] [] Hs) as Ha. rewrite !app_nil_r in Ha. by apply Ha. }
  assert (Hst0 : still h h0) by (by apply (set_space_still h l s)).
  assert (Hk0 : calls h0 = calls h) by (by destruct l).
  replace (rttStats h0) with (rttStats h) by (by destruct l). replace (bytesInFlight h0) with (bytesInFlight h) by (by destruct l).
  set (d := loss_delay (rttStats h)).
  assert (Hnz : Forall (fun x => i64 (SendTime x.2 + d) <> 0) (sent.Packets (history s))).
  { eapply Forall_impl; [apply (sp_entries _ Hok)|]. intros x Hx. apply loss_time_nonzero, Hx. }
  assert (Hsort : StronglySorted before (sent.Packets (history s))) by apply Packets_sorted, Hok.
  destruct (lost_loop_spec l d (i64 (now - d)) (bytesInFlight h) (sent.Packets (history s)) h0 pend s0 Hi0) as (h' & Hr & Hls & Hlt);
    [apply set_space_same|done..|]. rewrite Hr. exists h'. split; [done|]. split; [apply Hls|].
  change (gone s0) with (gone s) in Hls. change (loss_at s0) with (loss_at s) in Hlt.
  split; [rewrite (ls_account _ _ _ _ _ Hls); done|etransitivity; [exact Hst0|apply Hls]|by rewrite (ls_acks _ _ _ _ _ Hls), Hk0|
    by rewrite (ls_told _ _ _ _ _ Hls), Hk0|].
  destruct (ls_space _ _ _ _ _ Hls s0 (set_space_same _ _ _)) as (s' & Hs' & Hp & Hq & _ & Hla). exists s'. split; [done|]. split; [done|].
  cbn [history s0 with_times] in Hp.
  assert (Hpk : sent.Packets (history s') = List.filter (fun x => negb (gone s (i64 (now - d)) x)) (sent.Packets (history s))).
  { rewrite Hp. apply without_filter, Packets_nodup, Hok. }
  split; [done|]. split; [done|]. rewrite (Hlt s' Hs'). cbn. by rewrite Hpk, <-loss_at_first.
Qed.

End Steps.
