(* ===== verification/SentHandlerAcks.v ===== *)
(** * Acknowledgements

    Path probes that are lost, and the way of an ACK frame through
    [ReceivedAck]: exactly the packets in its ranges are acknowledged, their
    frames are told once, and their bytes are taken off at the end. *)
From S2P Require Import Prelude Protocol AckFrame AckFrameProps Frames GoFloat Rtt Congestion AckTracker Ecn SentHistory SentHistoryFacts SentHandler SentHandlerFacts SentHandlerSteps.

Local Open Scope Z_scope.
Local Open Scope go_scope.

Section Acks.
Context {C : Type} `{SendAlgorithmLaws C}.
Abbreviation handler := (sentPacketHandler C).

(** ** Path probes *)

(** Only the probes and the calls change. *)
Definition probes_only (h h' : handler) : Prop :=
  exists hist l, h' = set_calls (set_space h Encryption1RTT (with_history (appDataPackets h) hist)) l /\
    sent.Packets hist = sent.Packets (history (appDataPackets h)) /\ highestPacketNumber hist = highestPacketNumber (history (appDataPackets h)) /\
    skippedPackets hist = skippedPackets (history (appDataPackets h)) /\ acks_of l = acks_of (calls h) /\
    forall x, In x (pathProbePackets hist) -> In x (pathProbePackets (history (appDataPackets h))).

#[export] Instance probes_only_trans : Transitive probes_only.
Proof.
  intros h1 h2 h3 (x & k & -> & X1 & X2 & X3 & X4 & X5) (y & l & -> & Y1 & Y2 & Y3 & Y4 & Y5). exists y, l. split; [done|].
  split_and!; [exact (eq_trans Y1 X1)|exact (eq_trans Y2 X2)|exact (eq_trans Y3 X3)|exact (eq_trans Y4 X4)|intros z Hz; exact (X5 z (Y5 z Hz))].
Qed.

#[export] Instance probes_only_refl : Reflexive probes_only.
Proof. intros h. exists (history (appDataPackets h)), (calls h). split; [by destruct h as [i hs []]|done]. Qed.

Lemma probes_only_still h h' : probes_only h h' -> still h h'.
Proof. intros (x & l & -> & _). split; try done. intros []; done. Qed.

Lemma probes_only_get h h' l s : probes_only h h' -> getPacketNumberSpace h l = Some s ->
  exists s', getPacketNumberSpace h' l = Some s' /\ sent.Packets (history s') = sent.Packets (history s) /\
    forall x, In x (pathProbePackets (history s')) -> In x (pathProbePackets (history s)).
Proof. intros (x & k & -> & Hp & _ & _ & _ & Hq) Hs. destruct l; cbn in *; try injection Hs as <-; by eexists. Qed.

Lemma told_calls (h : handler) l : account (set_calls h (calls h ++ l)) ≡ₚ account h ++ settled l.
Proof. apply same_account; [by split|]. cbn. by rewrite settled_app. Qed.

(** A probe is taken out of the history. *)
Lemma probe_out (h : handler) pend pn q hist : hinv pend h ->
  sent.RemovePathProbe (history (appDataPackets h)) pn = (hist, Some q) ->
  hinv pend (set_space h Encryption1RTT (with_history (appDataPackets h) hist)) /\ probe_ok (pn, q) /\
  account (set_space h Encryption1RTT (with_history (appDataPackets h) hist)) ++ tracked q ≡ₚ account h.
Proof.
  intros Hi Er. set (s := appDataPackets h) in *. pose proof (hi_spaces _ _ Hi Encryption1RTT s eq_refl) as Hok.
  pose proof (RemovePathProbe_spec (history s) pn (sp_hist _ Hok)) as Hr. rewrite Er in Hr. destruct Hr as (R1 & R2 & R3 & R4 & _).
  destruct Hok as [S1 S2 S3 S4 S5 S6]. assert (S5' := S5). rewrite R4 in S5'. apply Forall_cons in S5' as [Hq S5'].
  assert (Hok' : space_ok (with_history s hist)).
  { split; cbn; rewrite ?R2, ?R3; try done. intros Ho. apply S6. rewrite has_outstanding in Ho |- * by done. by rewrite R2 in Ho. }
  split; [|split; [done|]].
  - apply (hinv_space h pend pend Encryption1RTT s); try done; [apply Hi|]. cbn. by rewrite R2.
  - pose proof (account_space h Encryption1RTT s (with_history s hist) [] (tracked q) eq_refl) as Ha. rewrite !app_nil_r in Ha. apply Ha.
    cbn. unfold live_hist. rewrite R2, R4. cbn. solve_Permutation.
Qed.

Lemma lose_frames (h : handler) l : Forall (fun f => Handler f <> None) l ->
  exists cs, ofold lose_probe_frame l h = Ret (set_calls h (calls h ++ cs)) /\ settled cs = tracked_frames l /\ acks_of cs = [].
Proof.
  intros Hl. revert h. induction Hl as [|f l Hf Hl IH]; intros h; [exists []; rewrite app_nil_r; split; [by destruct h|done]|].
  cbn [ofold]. unfold lose_probe_frame at 1. destruct (Handler f) as [k|] eqn:E; [|done]. cbn [obind].
  destruct (IH (set_calls h (calls h ++ [OnLost k (Frame_ f)]))) as (cs & -> & Hs & Hk). exists (OnLost k (Frame_ f) :: cs).
  split; [cbn; by rewrite <-app_assoc|]. change (settled (OnLost k (Frame_ f) :: cs)) with ((k, Frame_ f) :: settled cs). rewrite Hs. unfold tracked_frames. cbn. by rewrite E.
Qed.

Lemma lose_probe_spec (h : handler) pend x : hinv pend h -> In x (pathProbePackets (history (appDataPackets h))) ->
  exists h', lose_probe h x = Ret h' /\ hinv pend h' /\ account h' ≡ₚ account h /\ probes_only h h' /\
    pathProbePackets (history (appDataPackets h)) ≡ₚ x :: pathProbePackets (history (appDataPackets h')).
Proof.
  intros Hi Hin. destruct x as [pn q]. pose proof (hi_spaces _ _ Hi Encryption1RTT _ eq_refl) as Hok.
  pose proof (sp_probes _ Hok) as Hpr. rewrite List.Forall_forall in Hpr. pose proof (Hpr _ Hin) as Hq. unfold lose_probe. cbn [fst snd].
  destruct (lose_frames h (Frames_ q) (pr_handlers _ Hq)) as (cs & -> & Hs & Hk). cbn [obind]. set (h1 := set_calls h _).
  pose proof (RemovePathProbe_spec (history (appDataPackets h)) pn (sp_hist _ Hok)) as Hr. change (appDataPackets h1) with (appDataPackets h).
  destruct (sent.RemovePathProbe (history (appDataPackets h)) pn) as [hist [q'|]] eqn:Er; cycle 1.
  { destruct Hr as [_ Hn]. destruct Hn. by apply (in_map fst) in Hin. }
  destruct Hr as (R1 & R2 & R3 & R4 & R5).
  assert (Hi1 : hinv pend h1) by (apply (same_hinv h); [by split|done..|apply Hi|done]).
  destruct (probe_out h1 pend pn q' hist Hi1 Er) as (Hi2 & Hq' & Ha2).
  assert (E : q' = q).
  { pose proof (ho_probes _ (sp_hist _ Hok)) as Hd. rewrite R4 in Hin, Hd. destruct Hin as [[= ->]|Hin]; [done|]. cbn in Hd.
    apply NoDup_cons in Hd as [Hd _]. destruct Hd. apply list_elem_of_In. by apply (in_map fst) in Hin. }
  subst q'. eexists. split; [reflexivity|]. split; [done|]. split; [|split].
  - apply (Permutation_app_inv_r (tracked q)). change (appDataPackets h1) with (appDataPackets h) in Ha2. cbn [fst]. rewrite Ha2. unfold h1.
    rewrite told_calls, Hs. unfold tracked. pose proof (pr_stream _ Hq) as Hst. cbn in Hst. rewrite Hst. by rewrite app_nil_r.
  - exists hist, (calls h ++ cs). split; [done|]. split_and!; [done..|by rewrite acks_app, Hk, app_nil_r|].
    intros y Hy. change (In y (pathProbePackets (history (appDataPackets h)))). rewrite R4. by right.
  - done.
Qed.

Lemma detectLostPathProbes_spec (h : handler) pend now : hinv pend h ->
  exists h', detectLostPathProbes h now = Ret h' /\ hinv pend h' /\ account h' ≡ₚ account h /\ probes_only h h'.
Proof.
  intros Hi. unfold detectLostPathProbes. set (ps := List.filter _ _).
  assert (Hsub : forall x, In x ps -> In x (pathProbePackets (history (appDataPackets h)))) by (by intros x [? _]%List.filter_In).
  assert (Hnd : NoDup (map fst ps)).
  { pose proof (ho_probes _ (sp_hist _ (hi_spaces _ _ Hi Encryption1RTT _ eq_refl))) as Hd. unfold ps. clear -Hd.
    induction (pathProbePackets _) as [|y l IH]; [done|]. cbn in Hd. apply NoDup_cons in Hd as [Hy Hd]. cbn.
    destruct (SendTime y.2 <=? _); [|auto]. cbn. constructor; [|auto]. intros (z & Ez & Hz)%list_elem_of_fmap. apply Hy.
    rewrite Ez. apply list_elem_of_In, in_map. apply list_elem_of_In in Hz. by apply List.filter_In in Hz as [? _]. }
  clearbody ps. revert h Hi Hsub. induction ps as [|x ps IH]; intros h Hi Hsub; [by exists h|]. cbn in Hnd. apply NoDup_cons in Hnd as [Hx Hnd]. cbn [ofold].
  destruct (lose_probe_spec h pend x Hi) as (h1 & -> & Hi1 & Ha1 & Hp1 & Hl1); [apply Hsub; by left|]. cbn [obind].
  destruct (IH Hnd h1 Hi1) as (h' & Hr & Hi' & Ha' & Hp'); [|exists h'; split; [done|]; split; [done|]; split; [by rewrite Ha'|by etransitivity]].
  intros y Hy. assert (Hin : In y (pathProbePackets (history (appDataPackets h)))) by (apply Hsub; by right). rewrite Hl1 in Hin.
  destruct Hin as [->|?]; [|done]. destruct Hx. apply list_elem_of_In, in_map. done.
Qed.

(** ** Which packets are acknowledged *)

(** Ranges from the one with the smallest numbers on *)
Fixpoint ascending (rs : list AckRange) : Prop :=
  match rs with
  | [] => True
  | r :: rs => Smallest r <= Largest r /\ Forall (fun s => Largest r + 1 < Smallest s) rs /\ ascending rs
  end.

Lemma ascending_ranges_app l k : ascending l -> ascending k -> (forall r s, In r l -> In s k -> Largest r + 1 < Smallest s) -> ascending (l ++ k).
Proof.
  intros Hl Hk Hlk. induction l as [|r l IH]; [done|]. destruct Hl as (H1 & H2 & H3). cbn. split; [done|]. split.
  - apply Forall_app. split; [done|]. apply List.Forall_forall. intros s Hs. apply Hlk; [by left|done].
  - apply IH; [done|]. intros a s Ha Hs. apply Hlk; [by right|done].
Qed.

Lemma descending_ascending b rs : descending b rs -> ascending (rev rs).
Proof.
  revert b. induction rs as [|r rs IH]; intros b; [done|]. cbn. intros (H1 & H2 & H3). apply ascending_ranges_app; [by eapply IH|by cbn; split; [lia|]|].
  intros a s Ha%in_rev [<-|[]]. apply descending_all in H3. rewrite List.Forall_forall in H3. specialize (H3 a Ha). cbn in H3. lia.
Qed.

(** The ranges that are passed do not matter any more. *)
Lemma advance_spec pn ranges top : ascending ranges -> ranges <> [] -> last ranges = Some top ->
  let ranges' := advance_range pn ranges in
  ascending ranges' /\ last ranges' = Some top /\ (forall m, pn <= m -> acked m ranges' <-> acked m ranges) /\
  exists r rest, ranges' = r :: rest /\ (pn <= Largest top -> pn <= Largest r).
Proof.
  induction ranges as [|r rest IH]; [done|]. intros Ha _ Hl. cbn [advance_range]. destruct rest as [|s rest].
  { split; [done|]. split; [done|]. split; [done|]. exists r, []. split; [done|]. by injection Hl as ->. }
  destruct Ha as (H1 & H2 & H3). case Z.ltb_spec; intros Hr.
  - destruct (IH H3) as (A1 & A2 & A3 & A4); [done|done|]. split; [done|]. split; [done|]. split; [|done].
    intros m Hm. rewrite A3 by done. unfold acked. rewrite (Exists_cons (in_range m) r). unfold in_range. split; [auto|]. intros [?|?]; [lia|done].
  - split; [done|]. split; [done|]. split; [done|]. by exists r, (s :: rest).
Qed.

Lemma acked_head pn r rest : ascending (r :: rest) -> pn <= Largest r -> acked pn (r :: rest) <-> Smallest r <= pn.
Proof.
  intros (H1 & H2 & _) Hle. unfold acked. rewrite Exists_cons. split; [|left; by split]. intros [[? _]|Hex]; [done|].
  apply Exists_exists in Hex as (s & Hs & Hin). rewrite Forall_forall in H2. specialize (H2 s Hs). destruct Hin. lia.
Qed.

(** What a loop over the packets has found *)
Definition is_probe (x : entry) : bool := isPathProbePacket x.2.
Definition ordinary (x : entry) : bool := negb (is_probe x).

(** The place of a path probe among the packets *)
Definition placeholder (ps : list entry) (n : Z) : bool := existsb (fun y => (y.1 =? n) && is_probe y) ps.

(** A path probe in the ranges whose place is among the packets *)
Definition probe_acked (rs : list AckRange) (ps : list entry) (x : entry) : bool := bool_decide (acked x.1 rs) && placeholder ps x.1.

Lemma probe_acked_other rs ps y (k : list entry) : (is_probe y = true -> acked y.1 rs -> Forall (fun x => x.1 <> y.1) k) ->
  List.filter (probe_acked rs (y :: ps)) k = List.filter (probe_acked rs ps) k.
Proof.
  intros Hy. apply filter_ext_in. intros x Hx. unfold probe_acked, placeholder. cbn [existsb].
  destruct (bool_decide_reflect (acked x.1 rs)) as [Ha|]; [|done]. cbn [andb]. destruct (Z.eqb_spec y.1 x.1) as [E|]; [|done].
  destruct (is_probe y) eqn:Ep; [|done]. rewrite E in Hy. specialize (Hy eq_refl Ha). rewrite List.Forall_forall in Hy. by destruct (Hy x Hx).
Qed.

Lemma no_probe_acked rs k : List.filter (probe_acked rs []) k = [].
Proof. induction k as [|x k IH]; [done|]. cbn. unfold probe_acked at 1. cbn. by rewrite andb_false_r. Qed.

#[export] Instance filter_perm (f : entry -> bool) : Proper ((≡ₚ) ==> (≡ₚ)) (List.filter f).
Proof.
  intros l k. induction 1 as [|x l k _ IH|x y l|? ? ? _ IH1 _ IH2]; [done| | |by etransitivity]; cbn; [destruct (f x); by rewrite IH|].
  destruct (f x), (f y); [apply perm_swap|done..].
Qed.

Record found (rs : list AckRange) (ps : list entry) (hist hist' : sentPacketHistory) (l : list entry) (eliciting : bool) : Prop := {
  fo_hist : hist_ok hist';
  fo_packets : sent.Packets hist' = sent.Packets hist;
  fo_high : highestPacketNumber hist' = highestPacketNumber hist;
  fo_skipped : skippedPackets hist' = skippedPackets hist;
  fo_probes : pathProbePackets hist ≡ₚ List.filter is_probe l ++ pathProbePackets hist';
  fo_ordinary : List.filter ordinary l = List.filter (fun x => bool_decide (acked x.1 rs) && ordinary x) ps;
  fo_numbers : map fst l `sublist_of` map fst ps;
  fo_placeholders : Forall (fun x => is_probe x = true -> exists p, In (x.1, p) ps /\ isPathProbePacket p = true) l;
  fo_acked : Forall (fun x => acked x.1 rs) l;
  fo_told : List.filter is_probe l ≡ₚ List.filter (probe_acked rs ps) (pathProbePackets hist);
  fo_eliciting : eliciting = existsb (fun x => IsAckEliciting x.2) (List.filter ordinary l);
}.

Lemma found_skip rs ps hist hist' l e x : bool_decide (acked x.1 rs) = false -> found rs ps hist hist' l e -> found rs (x :: ps) hist hist' l e.
Proof.
  intros Hx []. split; try done.
  - cbn. by rewrite Hx.
  - by apply sublist_cons.
  - eapply Forall_impl; [exact fo_placeholders0|]. cbn. intros y Hy Hp. destruct (Hy Hp) as (p & Hin & Hpr). exists p. split; [by right|done].
  - rewrite probe_acked_other; [done|]. intros _ Ha. by apply bool_decide_eq_false in Hx.
Qed.

Lemma found_nil rs ps hist : hist_ok hist -> Forall (fun x => ~ acked x.1 rs) ps -> found rs ps hist hist [] false.
Proof.
  intros Hok Hn. induction Hn as [|x ps Hx _ IH]; [split; try done; [constructor..|by rewrite no_probe_acked]|]. apply found_skip; [by apply bool_decide_eq_false|done].
Qed.

Lemma acked_loop_spec rs missing lowest largest ps : forall ranges top hist,
  hist_ok hist -> Forall probe_ok (pathProbePackets hist) -> StronglySorted before ps ->
  ascending ranges -> last ranges = Some top -> Largest top = largest ->
  (forall x, In x ps -> acked x.1 rs <-> acked x.1 ranges) ->
  (forall x, In x ps -> acked x.1 rs -> lowest <= x.1 <= largest) ->
  (missing = false -> forall x, In x ps -> lowest <= x.1 <= largest -> acked x.1 rs) ->
  exists hist' l e, acked_loop missing lowest largest ranges ps hist = Ret (hist', l, e) /\ found rs ps hist hist' l e.
Proof.
  induction ps as [|[pn p] ps IH]; intros ranges top hist Hok Hpr Hsort Has Hla Htop Hk Hlim Hall.
  { exists hist, [], false. split; [done|]. by apply found_nil. }
  apply StronglySorted_inv in Hsort as [Hsort Hbef]. rewrite List.Forall_forall in Hbef.
  assert (Hlim0 := Hlim (pn, p) ltac:(by left)). cbn in Hlim0. cbn [acked_loop].
  assert (Hskip : forall ranges', ascending ranges' -> last ranges' = Some top -> (forall x, In x ps -> acked x.1 rs <-> acked x.1 ranges') ->
    ~ acked pn rs -> exists hist' l e, acked_loop missing lowest largest ranges' ps hist = Ret (hist', l, e) /\ found rs ((pn, p) :: ps) hist hist' l e).
  { intros ranges' H1 H2 H3 Hna. destruct (IH ranges' top hist Hok Hpr Hsort H1 H2 Htop H3) as (hist' & l & e & Hr & Hf).
    - intros x Hx. apply Hlim. by right.
    - intros Hm x Hx. apply Hall; [done|by right].
    - exists hist', l, e. split; [done|]. apply found_skip; [by apply bool_decide_eq_false|done]. }
  case Z.ltb_spec; intros Hlow.
  { apply Hskip; [done|done|intros x Hx; apply Hk; by right|]. intros Ha. specialize (Hlim0 Ha). lia. }
  case Z.ltb_spec; intros Hhigh.
  { exists hist, [], false. split; [done|]. apply found_nil; [done|]. apply List.Forall_forall. intros x Hx Ha. specialize (Hlim x Hx Ha).
    destruct Hx as [<-|Hx]; [cbn in *; lia|]. specialize (Hbef x Hx). unfold before in Hbef. cbn in Hbef. lia. }
  set (ranges' := if missing then advance_range pn ranges else ranges).
  assert (Hne : ranges <> []) by (by destruct ranges). destruct (advance_spec pn ranges top Has Hne Hla) as (A1 & A2 & A3 & r & rest & A4 & A5).
  assert (Hadv : ascending ranges' /\ last ranges' = Some top /\ (forall x, In x ps -> acked x.1 rs <-> acked x.1 ranges') /\ (acked pn rs <-> acked pn ranges')).
  { unfold ranges'. destruct missing.
    - split; [done|]. split; [done|]. split.
      + intros x Hx. rewrite A3; [apply Hk; by right|]. specialize (Hbef x Hx). unfold before in Hbef. cbn in Hbef. lia.
      + rewrite A3 by done. apply (Hk (pn, p)). by left.
    - split; [done|]. split; [done|]. split; [intros x Hx; apply Hk; by right|apply (Hk (pn, p)); by left]. }
  destruct Hadv as (B1 & B2 & B3 & B4).
  assert (Hdec : (if negb missing then Ret true else
         match ranges' with
         | [] => Panic
         | r :: _ =>
             if pn <? Smallest r then Ret false else
             if Largest r <? pn
             then Err (Errorf "BUG: ackhandler would have acked wrong packet %d, while evaluating range %d -> %d"
                         [pretty pn; pretty (Smallest r); pretty (Largest r)])
             else Ret true
         end) = Ret (bool_decide (acked pn rs))).
  { unfold ranges' in *. destruct missing; cbn [negb].
    - rewrite A4 in *. specialize (A5 ltac:(lia)). pose proof (acked_head pn r rest B1 A5) as Hh. case Z.ltb_spec; intros Hs.
      + rewrite bool_decide_eq_false_2; [done|]. rewrite B4, Hh. lia.
      + rewrite (proj2 (Z.ltb_ge _ _)) by lia. rewrite bool_decide_eq_true_2; [done|]. by rewrite B4, Hh.
    - rewrite bool_decide_eq_true_2; [done|]. apply (Hall eq_refl (pn, p)); [by left|]. cbn. lia. }
  rewrite Hdec. cbn [obind]. destruct (bool_decide_reflect (acked pn rs)) as [Hack|Hack]; cbn [negb]; [|by apply Hskip].
  assert (Hrec : forall hist0, hist_ok hist0 -> Forall probe_ok (pathProbePackets hist0) ->
    exists hist' l e, acked_loop missing lowest largest ranges' ps hist0 = Ret (hist', l, e) /\ found rs ps hist0 hist' l e).
  { intros hist0 H1 H2. apply (IH ranges' top); try done; [intros x Hx; apply Hlim; by right|]. intros Hm x Hx. apply Hall; [done|by right]. }
  destruct (isPathProbePacket p) eqn:Ep.
  - pose proof (RemovePathProbe_spec hist pn Hok) as Hr. destruct (sent.RemovePathProbe hist pn) as [hist0 [q|]].
    + destruct Hr as (R1 & R2 & R3 & R4 & R5). rewrite R4 in Hpr. apply Forall_cons in Hpr as [Hq Hpr].
      destruct (Hrec hist0 R1 Hpr) as (hist' & l & e & -> & Hf). cbn [obind]. exists hist', ((pn, q) :: l), e. split; [done|]. destruct Hf.
      assert (Epr : is_probe (pn, q) = true) by apply (pr_probe _ Hq). assert (Eord : ordinary (pn, q) = false) by (unfold ordinary; by rewrite Epr).
      assert (Eord' : ordinary (pn, p) = false) by (unfold ordinary, is_probe; cbn; by rewrite Ep).
      split; cbn [List.filter map fst]; rewrite ?Epr, ?Eord, ?Eord', ?andb_false_r; try done; try congruence.
      * rewrite R4, fo_probes0. done.
      * by apply sublist_skip.
      * constructor; [intros _; exists p; split; [by left|done]|]. eapply Forall_impl; [exact fo_placeholders0|]. cbn. intros y Hy Hyp.
        destruct (Hy Hyp) as (p' & Hin & ?). exists p'. split; [by right|done].
      * by constructor.
      * pose proof (ho_probes _ Hok) as Hnd. rewrite R4 in Hnd |- *. cbn in Hnd. apply NoDup_cons in Hnd as [Hnd _]. cbn [List.filter].
        assert (Hpn : probe_acked rs ((pn, p) :: ps) (pn, q) = true).
        { unfold probe_acked, placeholder. cbn. rewrite Z.eqb_refl, bool_decide_eq_true_2 by done. unfold is_probe. cbn. by rewrite Ep. }
        rewrite Hpn, fo_told0, probe_acked_other; [done|]. intros _ _. apply List.Forall_forall. cbn. intros x Hx E. apply Hnd. rewrite <-E. by apply list_elem_of_In, in_map.
    + destruct Hr as [-> Hn]. destruct (Hrec hist Hok Hpr) as (hist' & l & e & -> & Hf). cbn [obind]. exists hist', l, e. split; [done|]. destruct Hf.
      assert (Eord' : ordinary (pn, p) = false) by (unfold ordinary, is_probe; cbn; by rewrite Ep).
      split; cbn [List.filter map fst]; rewrite ?Eord', ?andb_false_r; try done.
      * by apply sublist_cons.
      * eapply Forall_impl; [exact fo_placeholders0|]. cbn. intros y Hy Hyp. destruct (Hy Hyp) as (p' & Hin & ?). exists p'. split; [by right|done].
      * rewrite probe_acked_other; [done|]. intros _ _. apply List.Forall_forall. cbn. intros x Hx E. apply Hn. rewrite <-E. by apply in_map.
  - destruct (Hrec hist Hok Hpr) as (hist' & l & e & -> & Hf). cbn [obind]. exists hist', ((pn, p) :: l), (IsAckEliciting p || e). split; [done|]. destruct Hf.
    assert (Epr : is_probe (pn, p) = false) by done. assert (Eord : ordinary (pn, p) = true) by (unfold ordinary; by rewrite Epr).
    split; cbn [List.filter map fst]; rewrite ?Epr, ?Eord, ?bool_decide_eq_true_2 by done; try done.
    + cbn. by rewrite fo_ordinary0.
    + by apply sublist_skip.
    + constructor; [by rewrite Epr|]. eapply Forall_impl; [exact fo_placeholders0|]. cbn. intros y Hy Hyp. destruct (Hy Hyp) as (p' & Hin & ?). exists p'. split; [by right|done].
    + by constructor.
    + rewrite probe_acked_other; [done|]. by rewrite Epr.
    + cbn. by rewrite fo_eliciting0.
Qed.

(** The ends of the ranges *)
Lemma ack_ends (ack : AckFrame) : valid_ranges (AckRanges ack) ->
  exists top bot, Ack.LargestAcked ack = Ret (Largest top) /\ Ack.LowestAcked ack = Ret (Smallest bot) /\
    last (rev (AckRanges ack)) = Some top /\ ascending (rev (AckRanges ack)) /\
    (forall p, acked p (AckRanges ack) -> Smallest bot <= p <= Largest top) /\
    (Ack.HasMissingRanges ack = false -> forall p, Smallest bot <= p <= Largest top -> acked p (AckRanges ack)).
Proof.
  intros [Hne Hd]. unfold Ack.LargestAcked, Ack.LowestAcked, Ack.HasMissingRanges. destruct (AckRanges ack) as [|top rs] eqn:E; [done|].
  pose proof (descending_ascending _ _ Hd) as Has. destruct (exists_last Hne) as (k & bot & Ek). exists top, bot.
  assert (Hbot : index (top :: rs) (len (top :: rs) - 1) = Ret bot).
  { rewrite Ek. unfold index. assert (El : len (k ++ [bot]) - 1 = len k) by (unfold len; rewrite length_app; cbn; lia).
    rewrite El. pose proof (len_nonneg k). rewrite (proj2 (Z.ltb_ge _ _)) by done. unfold len. rewrite Nat2Z.id, list_lookup_middle by done. done. }
  split; [done|]. split; [by rewrite Hbot|]. split; [cbn; by rewrite last_snoc|]. split; [done|]. split.
  - intros p Hp. apply Exists_exists in Hp as (r & Hr & Hin). unfold in_range in Hin. split.
    + rewrite Ek in Hr. apply elem_of_app in Hr as [Hr|Hr].
      * rewrite Ek in Has. rewrite rev_app_distr in Has. cbn in Has. destruct Has as (H1 & H2 & _). rewrite Forall_forall in H2.
        specialize (H2 r ltac:(by apply list_elem_of_In, in_rev; rewrite rev_involutive; apply list_elem_of_In)).
        rewrite Ek in Hd. pose proof (descending_all _ _ Hd) as Hall. rewrite Forall_forall in Hall. specialize (Hall bot ltac:(set_solver)). lia.
      * apply list_elem_of_singleton in Hr as ->. lia.
    + apply elem_of_cons in Hr as [->|Hr]; [lia|]. destruct Hd as (H1 & H2 & H3). pose proof (descending_all _ _ H3) as Hall.
      rewrite Forall_forall in Hall. specialize (Hall r Hr). cbn in Hall. lia.
  - intros Hm p Hp. apply Z.ltb_ge in Hm. destruct rs as [|r rs]; [|unfold len in Hm; cbn in Hm; lia].
    destruct k as [|? [|? ?]]; [|done..]. assert (bot = top) as -> by (cbn in Ek; congruence). by left.
Qed.

(** ** The packets that are acknowledged *)

(** Only the calls and one history change. *)
Definition history_only (l : EncryptionLevel) (h h' : handler) : Prop :=
  forall s, getPacketNumberSpace h l = Some s -> exists hist k, h' = set_calls (set_space h l (with_history s hist)) k.

Lemma set_history_space (h : handler) l s hist : getPacketNumberSpace h l = Some s -> set_history h l hist = Ret (set_space h l (with_history s hist)).
Proof. intros E. unfold set_history. by rewrite (space_get h l s E). Qed.

(** The entry of the history that belongs to an acknowledged packet *)
Definition stands_for (p : packet) (x : entry) : Prop :=
  if is_probe x then isPathProbePacket p = true /\ includedInBytesInFlight x.2 = false else p = x.2.

(** Packets may be exchanged for those they stand for. *)
Lemma hinv_pend (h : handler) pend pend' : hinv pend h -> Forall weighs pend' -> flight_in pend' = flight_in pend -> hinv pend' h.
Proof. intros [I1 I2 I3 I4 I5] Hw Hf. split; try done. by rewrite Hf. Qed.

Lemma ack_packet_spec (h : handler) pend l s x p : hinv pend h -> getPacketNumberSpace h l = Some s ->
  In (x.1, p) (sent.Packets (history s)) -> stands_for p x ->
  exists h' hist k, ack_packet l h x = Ret h' /\ hinv (x :: pend) h' /\
    account h' ≡ₚ account h ++ (if is_probe x then tracked x.2 else []) /\
    acks_of (calls h') = acks_of (calls h) ++ tracked x.2 /\
    h' = set_calls (set_space h l (with_history s hist)) k /\ sent.Packets hist = del x.1 (sent.Packets (history s)) /\
    pathProbePackets hist = pathProbePackets (history s).
Proof.
  intros Hi Hs Hin Hst. unfold ack_packet. set (below := if _ : bool then _ else _). set (h0 := set_calls h _).
  assert (Hs0 : getPacketNumberSpace h0 l = Some s) by done. rewrite (space_get h0 l s Hs0). cbn [obind].
  pose proof (hi_spaces _ _ Hi l s Hs) as Hok. destruct (Remove_spec (history s) (sp_hist _ Hok) x.1 p Hin) as (hist & -> & Hr). cbn [obind].
  rewrite (set_history_space h0 l s hist Hs0). assert (Hi0 : hinv pend h0) by (apply (same_hinv h); [by split|done..|apply Hi|done]).
  destruct (take_out h0 pend l s x.1 p hist Hi0 Hs0 Hin Hr) as [Hi1 Ha1].
  assert (Ha0 : account h0 ≡ₚ account h ++ tracked x.2).
  { apply same_account; [by split|]. unfold h0. cbn. rewrite !settled_app, !handlers_settled by done. unfold tracked. f_equal.
    assert (settled below = []) as -> by (unfold below; by destruct (_ && _)). done. }
  assert (Hpr : is_probe x = true -> tracked p = [] /\ includedInBytesInFlight p = false).
  { intros Ex. unfold stands_for in Hst. rewrite Ex in Hst. pose proof (sp_entries _ Hok) as He. rewrite List.Forall_forall in He.
    by apply (placeholder_free (x.1, p) (proj1 Hst) (He _ Hin)). }
  exists (set_space h0 l (with_history s hist)), hist, (calls h ++ below ++ handlers_of OnAcked (Frames_ x.2) ++ handlers_of OnAcked (StreamFrames x.2)).
  split; [done|]. split; [|split; [|split; [|split]]].
  - apply (hinv_pend _ ((x.1, p) :: pend)); [done| |].
    + pose proof (hi_pend _ _ Hi1) as Hw. apply Forall_cons in Hw as [Hw Hp]. constructor; [|done]. unfold weighs, stands_for in *. destruct (is_probe x); [|by subst].
      destruct Hst as [_ ->]. done.
    + unfold flight_in. cbn [fold_right snd]. f_equal. unfold stands_for in Hst. destruct (is_probe x); [|by subst]. destruct Hst as [_ ->].
      destruct (Hpr eq_refl) as [_ ->]. done.
  - apply (Permutation_app_inv_r (tracked p)). rewrite Ha1, Ha0. destruct (is_probe x) eqn:Ex.
    + destruct (Hpr eq_refl) as [-> _]. by rewrite app_nil_r.
    + unfold stands_for in Hst. rewrite Ex in Hst. subst p. by rewrite app_nil_r.
  - assert (acks_of below = []) as Hb by (unfold below; by destruct (_ && _)).
    transitivity (acks_of (calls h0)); [by destruct l|]. unfold h0, tracked. cbn. by rewrite !acks_app, Hb, !acks_acked.
  - unfold h0. by destruct l.
  - destruct Hr. done.
Qed.

Lemma no_change (h : handler) l s : getPacketNumberSpace h l = Some s -> set_calls (set_space h l (with_history s (history s))) (calls h) = h.
Proof.
  intros Hs. replace (with_history s (history s)) with s by (by destruct s). destruct h, l; cbn in *; try injection Hs as <-; by rewrite ?Hs.
Qed.

Lemma ack_fold l xs : forall (h : handler) pend s, hinv pend h -> getPacketNumberSpace h l = Some s -> NoDup (map fst xs) ->
  Forall (fun x => exists p, In (x.1, p) (sent.Packets (history s)) /\ stands_for p x) xs ->
  exists h' hist k, ofold (ack_packet l) xs h = Ret h' /\ hinv (xs ++ pend) h' /\ account h' ≡ₚ account h ++ live_in (List.filter is_probe xs) /\
    acks_of (calls h') = acks_of (calls h) ++ live_in xs /\
    h' = set_calls (set_space h l (with_history s hist)) k /\ sent.Packets hist = without (map fst xs) (sent.Packets (history s)) /\
    pathProbePackets hist = pathProbePackets (history s).
Proof.
  induction xs as [|x xs IH]; intros h pend s Hi Hs Hd Hx.
  { exists h, (history s), (calls h). split; [done|]. split; [done|]. split; [by rewrite app_nil_r|]. split; [by rewrite app_nil_r|]. split; [|done].
    by rewrite (no_change h l s Hs). }
  apply Forall_cons in Hx as [(p & Hin & Hst) Hx]. cbn in Hd. apply NoDup_cons in Hd as [Hn Hd]. cbn [ofold].
  destruct (ack_packet_spec h pend l s x p Hi Hs Hin Hst) as (h1 & hist1 & k1 & -> & Hi1 & Ha1 & Hk1 & E1 & Hp1 & Hq1). cbn [obind].
  assert (Hs1 : getPacketNumberSpace h1 l = Some (with_history s hist1)) by (rewrite E1; by destruct l).
  destruct (IH h1 (x :: pend) (with_history s hist1) Hi1 Hs1 Hd) as (h' & hist & k & -> & Hi' & Ha' & Hk' & E' & Hp' & Hq').
  { apply List.Forall_forall. rewrite List.Forall_forall in Hx. intros y Hy. destruct (Hx y Hy) as (q & Hq & Hyq). exists q. split; [|done].
    cbn [with_history history]. rewrite Hp1. apply del_in. split; [done|]. cbn. intros E. apply Hn. rewrite <-E. by apply list_elem_of_In, in_map. }
  exists h', hist, k. split; [done|]. split; [|split; [|split; [|split; [|split]]]].
  - apply (hinv_pend _ (xs ++ x :: pend)); [done| |].
    + pose proof (hi_pend _ _ Hi') as Hw. revert Hw. cbn. rewrite !Forall_app, !Forall_cons, Forall_app. tauto.
    + rewrite <-Permutation_middle. done.
  - rewrite Ha', Ha1. cbn [List.filter]. destruct (is_probe x); [|by rewrite app_nil_r]. cbn. by rewrite <-app_assoc.
  - rewrite Hk', Hk1. cbn. by rewrite <-app_assoc.
  - rewrite E', E1. by destruct l.
  - cbn in Hp'. rewrite Hp', Hp1. done.
  - cbn in Hq'. congruence.
Qed.

End Acks.
