(* ===== verification/SentHandlerReceive.v ===== *)
(** * Receiving an ACK frame

    [ReceivedAck] from its start to its end: it fails when the frame
    acknowledges what was not sent, and otherwise the packets in the ranges
    leave the history, exactly their frames are told of an acknowledgement, and
    the rest of the account is as it was. *)
From S2P Require Import Prelude Protocol AckFrame AckFrameProps Frames GoFloat Rtt Congestion AckTracker Ecn SentHistory SentHistoryFacts.
From S2P Require Import SentHandler SentHandlerFacts SentHandlerSteps SentHandlerAcks.

Local Open Scope Z_scope.
Local Open Scope go_scope.

Section Receive.
Context {C : Type} `{SendAlgorithmLaws C}.
Abbreviation handler := (sentPacketHandler C).

(** A history with fewer probes *)
Lemma fewer_probes (h : handler) pend l s hist' gone_ : hinv pend h -> getPacketNumberSpace h l = Some s -> hist_ok hist' ->
  sent.Packets hist' = sent.Packets (history s) -> highestPacketNumber hist' = highestPacketNumber (history s) ->
  pathProbePackets (history s) ≡ₚ gone_ ++ pathProbePackets hist' ->
  hinv pend (set_space h l (with_history s hist')) /\ account (set_space h l (with_history s hist')) ++ live_in gone_ ≡ₚ account h.
Proof.
  intros Hi Hs Hok' Hp Hh Hpr. destruct (hi_spaces _ _ Hi l s Hs) as [S1 S2 S3 S4 S5 S6]. rewrite Hpr in S5. apply Forall_app in S5 as [_ S5].
  assert (Hok : space_ok (with_history s hist')).
  { split; cbn; rewrite ?Hp, ?Hh; try done. intros Ho. apply S6. rewrite has_outstanding in Ho |- * by done. by rewrite Hp in Ho. }
  split.
  - apply (hinv_space h pend pend l s); try done; [apply Hi|]. cbn. by rewrite Hp.
  - pose proof (account_space h l s (with_history s hist') [] (live_in gone_) Hs) as Ha. rewrite !app_nil_r in Ha. apply Ha.
    cbn. unfold live_hist. rewrite Hp, Hpr, live_in_app. solve_Permutation.
Qed.

(** The numbers that were skipped are not acknowledged by an honest peer. *)
Lemma refuse_skipped_spec ack l pns : valid_ranges (AckRanges ack) ->
  ofold (refuse_skipped ack l) pns tt = Ret tt /\ Forall (fun pn => ~ acked pn (AckRanges ack)) pns \/
  (exists e, ofold (refuse_skipped ack l) pns tt = Err (TransportError ProtocolViolation 0 e)) /\ Exists (fun pn => acked pn (AckRanges ack)) pns.
Proof.
  intros Hv. induction pns as [|pn pns IH]; [by left|]. cbn [ofold]. unfold refuse_skipped at 1 3. rewrite AcksPacket_spec by done. cbn [obind].
  destruct (bool_decide_reflect (acked pn (AckRanges ack))) as [Ha|Ha]; [right; split; [by eexists|by left]|]. cbn [obind].
  destruct IH as [[-> Hf]|[[e ->] Hex]]; [left; split; [done|by constructor]|right; split; [by eexists|by right]].
Qed.

(** What is taken out because of an ACK *)
Record taken (rs : list AckRange) (s s' : packetNumberSpace) (l : list entry) : Prop := {
  ta_ordinary : List.filter ordinary l = List.filter (fun x => bool_decide (acked x.1 rs) && ordinary x) (sent.Packets (history s));
  ta_packets : sent.Packets (history s') = without (map fst l) (sent.Packets (history s));
  ta_probes : pathProbePackets (history s) ≡ₚ List.filter is_probe l ++ pathProbePackets (history s');
  ta_acked : Forall (fun x => acked x.1 rs) l;
  ta_told : List.filter is_probe l ≡ₚ List.filter (probe_acked rs (sent.Packets (history s))) (pathProbePackets (history s));
  ta_largest : largestAcked s' = largestAcked s;
  ta_sent : largestSent s' = largestSent s;
}.

Definition skipped_acked (l : EncryptionLevel) (s : packetNumberSpace) (rs : list AckRange) : Prop :=
  l = Encryption1RTT /\ Exists (fun pn => acked pn rs) (skippedPackets (history s)).

Lemma detectAndRemove_spec (h : handler) pend l s ack : hinv pend h -> getPacketNumberSpace h l = Some s -> valid_ranges (AckRanges ack) ->
  (exists e, detectAndRemoveAckedPackets h ack l = Err (TransportError ProtocolViolation 0 e)) /\ skipped_acked l s (AckRanges ack) \/
  ~ skipped_acked l s (AckRanges ack) /\
  exists h' xs s', detectAndRemoveAckedPackets h ack l = Ret (h', xs, existsb (fun x => IsAckEliciting x.2) (List.filter ordinary xs)) /\
    hinv (xs ++ pend) h' /\ account h' ≡ₚ account h /\ acks_of (calls h') = acks_of (calls h) ++ live_in xs /\
    h' = set_calls (set_space h l s') (calls h') /\ taken (AckRanges ack) s s' xs.
Proof.
  intros Hi Hs Hv. unfold detectAndRemoveAckedPackets. rewrite (space_get h l s Hs). cbn [obind].
  assert (Hskip : (if bool_decide (l = Encryption1RTT) then ofold (refuse_skipped ack l) (skippedPackets (history s)) tt else Ret tt) = Ret tt /\
      ~ skipped_acked l s (AckRanges ack) \/
    (exists e, (if bool_decide (l = Encryption1RTT) then ofold (refuse_skipped ack l) (skippedPackets (history s)) tt else Ret tt)
       = Err (TransportError ProtocolViolation 0 e)) /\ skipped_acked l s (AckRanges ack)).
  { unfold skipped_acked. case_bool_decide as El; [|left; split; [done|tauto]].
    destruct (refuse_skipped_spec ack l (skippedPackets (history s)) Hv) as [[-> Hf]|[[e ->] Hex]]; [left|right; split; [by eexists|done]].
    split; [done|]. intros [_ (pn & Hin & Ha)%Exists_exists]. rewrite Forall_forall in Hf. by apply (Hf pn). }
  destruct Hskip as [[-> Hns]|[[e ->] Hsk]]; [right; split; [done|]|left; split; [by eexists|done]]. cbn [obind].
  destruct (ack_ends ack Hv) as (top & bot & -> & -> & Htop & Has & Hb1 & Hb2). cbn [obind].
  pose proof (hi_spaces _ _ Hi l s Hs) as Hok. pose proof (sp_hist _ Hok) as Hh.
  destruct (acked_loop_spec (AckRanges ack) (Ack.HasMissingRanges ack) (Smallest bot) (Largest top) (sent.Packets (history s))
    (rev (AckRanges ack)) top (history s)) as (hist' & xs & e & -> & Hf); try done; [apply Hok|by apply Packets_sorted| | |by intros Hm x _; apply Hb2|].
  { intros x _. unfold acked. rewrite <-(Permutation_rev (AckRanges ack)). done. }
  { intros x _. apply Hb1. }
  destruct Hf. cbn [obind]. rewrite (set_history_space h l s hist' Hs). cbn [obind]. subst e.
  destruct (fewer_probes h pend l s hist' (List.filter is_probe xs) Hi Hs) as [Hi1 Ha1]; try done. set (h1 := set_space h l _) in *.
  assert (Hs1 : getPacketNumberSpace h1 l = Some (with_history s hist')) by apply set_space_same.
  assert (Hord : forall x, In x xs -> ordinary x = true -> In x (sent.Packets (history s)) /\ acked x.1 (AckRanges ack)).
  { intros x Hx Ho. assert (Hin : In x (List.filter ordinary xs)) by (by apply List.filter_In). rewrite fo_ordinary in Hin.
    apply List.filter_In in Hin as [? [Hb%bool_decide_eq_true _]%andb_true_iff]. done. }
  destruct (ack_fold l xs h1 pend (with_history s hist') Hi1 Hs1) as (h' & hist & k & -> & Hi' & Ha' & Hk' & E' & Hp' & Hq').
  { by eapply sublist_NoDup, fo_numbers; apply Packets_nodup. }
  { apply List.Forall_forall. intros x Hx. cbn. rewrite fo_packets. destruct (is_probe x) eqn:Ex.
    - rewrite List.Forall_forall in fo_placeholders. destruct (fo_placeholders x Hx Ex) as (p & Hin & Hpr). exists p. split; [done|].
      unfold stands_for. rewrite Ex. split; [done|]. assert (Hin' : In x (pathProbePackets (history s))).
      { rewrite fo_probes. apply in_app_iff. left. by apply List.filter_In. }
      pose proof (sp_probes _ Hok) as Hprs. rewrite List.Forall_forall in Hprs. apply (pr_included _ (Hprs x Hin')).
    - exists x.2. unfold stands_for. rewrite Ex. split; [|done]. destruct (Hord x Hx) as [Hin _]; [unfold ordinary; by rewrite Ex|]. by destruct x. }
  cbn [obind]. exists h', xs, (with_history s hist). split; [done|]. split; [done|]. split; [by rewrite Ha', Ha1|].
  split; [rewrite Hk'; by destruct l|]. split; [rewrite E'; unfold h1; by destruct l|].
  split; cbn; try done.
  - rewrite Hp'. cbn. by rewrite fo_packets.
  - rewrite Hq'. cbn. done.
Qed.

(** ** Around the packets *)

(** What neither touches packets nor tells anybody *)
Record aside (h h' : handler) : Prop := {
  as_spaces : same_spaces h h';
  as_calls : calls h' = calls h;
  as_bytes : bytesInFlight h' = bytesInFlight h;
  as_cc : cc_ok (congestion h) -> cc_ok (congestion h');
  as_completed : peerCompletedAddressValidation h = true -> peerCompletedAddressValidation h' = true;
  as_perspective : perspective h' = perspective h;
  as_confirmed : handshakeConfirmed h' = handshakeConfirmed h;
}.

Lemma aside_hinv h h' pend : aside h h' -> hinv pend h -> hinv pend h'.
Proof. intros [] Hi. apply (same_hinv h); auto. apply as_cc0, Hi. Qed.

Lemma aside_account h h' : aside h h' -> account h' ≡ₚ account h.
Proof. intros []. rewrite (same_account h h' []); [by rewrite app_nil_r|done|]. by rewrite as_calls0, app_nil_r. Qed.

Lemma aside_get h h' l : aside h h' -> getPacketNumberSpace h' l = getPacketNumberSpace h l.
Proof. intros []. by apply same_get. Qed.

Lemma aside_trans h1 h2 h3 : aside h1 h2 -> aside h2 h3 -> aside h1 h3.
Proof. intros [[] ? ? ? ? ? ?] [[] ? ? ? ? ? ?]. split; [split; congruence|congruence|congruence|auto|auto|congruence..]. Qed.

Lemma aside_same h h' : same_spaces h h' -> calls h' = calls h -> bytesInFlight h' = bytesInFlight h -> congestion h' = congestion h ->
  peerCompletedAddressValidation h' = peerCompletedAddressValidation h -> perspective h' = perspective h -> handshakeConfirmed h' = handshakeConfirmed h ->
  aside h h'.
Proof. intros ? ? ? E E' ? ?. split; try done; by rewrite ?E, ?E'. Qed.

Lemma timer_aside (h : handler) now : aside h (setLossDetectionTimer h now).
Proof. by apply aside_same. Qed.

Lemma measure_rtt_spec (h : handler) ack l rcvTime xs e : valid_ranges (AckRanges ack) -> cc_ok (congestion h) ->
  exists h', measure_rtt h ack l rcvTime xs e = Ret h' /\ aside h h'.
Proof.
  intros Hv Hc. unfold measure_rtt. destruct (ack_ends ack Hv) as (top & bot & -> & _). cbn [obind].
  destruct (last xs) as [[pn p]|]; [|exists h; split; [done|by apply aside_same]].
  destruct (_ && _); [|exists h; split; [done|by apply aside_same]]. cbv zeta. set (h1 := if _ || _ then _ else h).
  assert (Ha : aside h h1) by (unfold h1; destruct (_ || _); by apply aside_same).
  destruct (cc_exit (congestion h1) (rttStats h1) (as_cc _ _ Ha Hc)) as (c & -> & Hc'). cbn [obind]. eexists. split; [done|].
  apply (aside_trans h h1); [done|]. by split.
Qed.

Lemma handle_ecn_spec (h : handler) ack l s largest prior xs : getPacketNumberSpace h l = Some s ->
  exists h', handle_ecn h ack l largest prior xs = Ret h' /\ aside h h'.
Proof.
  intros Hs. unfold handle_ecn. rewrite (space_get h l s Hs). cbn [obind].
  destruct l; try (exists h; split; [done|by apply aside_same]). destruct (ecnTracker_ h) as [e|]; [|exists h; split; [done|by apply aside_same]].
  destruct (_ <? _); [|exists h; split; [done|by apply aside_same]]. destruct (ecn.HandleNewlyAcked _ _ _ _ _) as [e' b].
  eexists. split; [reflexivity|]. destruct b; [|by apply aside_same]. split; try done. cbn. apply cc_event.
Qed.

Lemma raise_largest_spec (h : handler) pend l s largest : hinv pend h -> getPacketNumberSpace h l = Some s ->
  let s' := with_numbers s (pns_ s) (Z.max (largestAcked s) largest) (largestSent s) in
  exists h', raise_largest h l largest = Ret h' /\ h' = set_space h l s' /\ hinv pend h' /\ account h' ≡ₚ account h.
Proof.
  intros Hi Hs s'. unfold raise_largest. rewrite (space_get h l s Hs). cbn [obind]. eexists. split; [reflexivity|]. split; [done|].
  assert (Hok : space_ok s') by (destruct (hi_spaces _ _ Hi l s Hs); by split). split.
  - apply (hinv_space h pend pend l s); try done. apply Hi.
  - pose proof (account_space h l s s' [] [] Hs) as Ha. rewrite !app_nil_r in Ha. by apply Ha.
Qed.

(** The congestion controller hears of the packets, and their bytes are taken off. *)
Lemma settle_spec prior rcvTime xs : forall (h : handler) pend, hinv (xs ++ pend) h ->
  exists n c, ofold (settle_acked prior rcvTime) xs h = Ret (with_flight h n c (calls h)) /\ hinv pend (with_flight h n c (calls h)).
Proof.
  induction xs as [|x xs IH]; intros h pend Hi.
  { exists (bytesInFlight h), (congestion h). cbn. split; [by destruct h|]. by destruct h, Hi. }
  cbn [ofold]. unfold settle_acked at 1.
  assert (Hc : exists c, (if includedInBytesInFlight x.2 then
       let! c := OnPacketAcked_ (congestion h) x.1 (Length x.2) prior rcvTime in Ret (set_congestion h c)
     else Ret h) = Ret (set_congestion h c) /\ cc_ok c).
  { destruct (includedInBytesInFlight x.2).
    - destruct (cc_acked (congestion h) x.1 (Length x.2) prior rcvTime (hi_cc _ _ Hi)) as (c & -> & Hc). by exists c.
    - exists (congestion h). split; [by destruct h|apply Hi]. }
  destruct Hc as (c & -> & Hc). cbn [obind]. assert (Hi1 : hinv (x :: xs ++ pend) (set_congestion h c)) by (by apply (same_hinv h)).
  destruct (removeFromBytesInFlight_spec (set_congestion h c) (xs ++ pend) x Hi1) as (n & -> & Hi2). cbn [obind].
  destruct (IH _ pend Hi2) as (n' & c' & Hr & Hi'). exists n', c'. rewrite Hr. done.
Qed.

Lemma advance_nonempty pn ranges : ranges <> [] -> advance_range pn ranges <> [].
Proof.
  induction ranges as [|r [|s rest] IH]; [done..|]. intros _. cbn [advance_range]. destruct (_ <? _); [|done]. by apply IH.
Qed.

Lemma spurious_loop_ret losts : forall ranges, ranges <> [] -> exists l, spurious_loop ranges losts = Ret l.
Proof.
  induction losts as [|[pn t] losts IH]; intros ranges Hr; [by exists []|]. cbn [spurious_loop]. apply (advance_nonempty pn) in Hr.
  destruct (IH _ Hr) as [l Hl]. destruct (advance_range pn ranges) as [|r rest]; [done|]. rewrite Hl. cbn [obind]. by eexists.
Qed.

Lemma finish_ack_spec (h : handler) ack l s rcvTime largest xs : valid_ranges (AckRanges ack) -> getPacketNumberSpace h l = Some s ->
  exists h' b, finish_ack h ack l rcvTime largest xs = Ret (h', b) /\ aside h h' /\ alarm h' = lossDetectionTime h' rcvTime /\ numProbesToSend h' = 0.
Proof.
  intros Hv Hs. unfold finish_ack. rewrite (space_get h l s Hs). cbn [obind].
  assert (Hsp : exists lo, (if bool_decide (l = Encryption1RTT) && (largest =? largestAcked s) then
       let! h := detectSpuriousLosses h ack in
       Ret (set_lost h (lost.DeleteBefore (lostPackets_ h) (i64 (rcvTime - i64 (3 * rtt.PTO (rttStats h) false)))))
     else Ret h) = Ret (set_lost h lo)).
  { destruct (_ && _); [|exists (lostPackets_ h); by destruct h]. unfold detectSpuriousLosses.
    destruct (spurious_loop_ret (lostPackets (lostPackets_ h)) (rev (AckRanges ack))) as [k ->].
    { destruct Hv as [Hne _]. intros E. apply Hne. by rewrite <-(rev_involutive (AckRanges ack)), E. }
    cbn [obind]. by eexists. }
  destruct Hsp as [lo ->]. cbn [obind]. eexists _, _. split; [reflexivity|]. split; [by apply aside_same|done].
Qed.

(** ** [ReceivedAck] *)

(** The frames of what an ACK takes out *)
Definition acked_frames (rs : list AckRange) (s : packetNumberSpace) : list (nat * Frame) :=
  live_in (List.filter (fun x => bool_decide (acked x.1 rs) && ordinary x) (sent.Packets (history s))).

(** The path probes it takes out: those in its ranges whose places among the
    packets are still there *)
Definition acked_probes (rs : list AckRange) (s : packetNumberSpace) : list (nat * Frame) :=
  live_in (List.filter (probe_acked rs (sent.Packets (history s))) (pathProbePackets (history s))).

(** What may be left after an ACK: packets and path probes that were there
    before and are not in its ranges, places whose probe was forgotten, and
    probes whose place was. *)
Definition left_after (rs : list AckRange) (s s' : packetNumberSpace) : Prop :=
  Forall (fun x => In x (sent.Packets (history s)) /\
                   (acked x.1 rs -> is_probe x = true /\ ~ In x.1 (map fst (pathProbePackets (history s))))) (sent.Packets (history s')) /\
  Forall (fun x => In x (pathProbePackets (history s)) /\
                   (acked x.1 rs -> placeholder (sent.Packets (history s)) x.1 = false)) (pathProbePackets (history s')).

(** Fewer are left later on. *)
Lemma left_fewer rs s s1 s2 : left_after rs s s1 ->
  (forall x, In x (sent.Packets (history s2)) -> In x (sent.Packets (history s1))) ->
  (forall x, In x (pathProbePackets (history s2)) -> In x (pathProbePackets (history s1))) -> left_after rs s s2.
Proof. unfold left_after. rewrite !List.Forall_forall. intros [H1 H2] Hp Hq. split; intros x Hx; auto. Qed.

(** A first packet was sent in the Initial space. *)
Definition begun (h : handler) : Prop :=
  match initialPackets h with Some s => largestSent s <> InvalidPacketNumber | None => True end.

(** Nothing changes that the alarm depends on, but times. *)
Record quiet (h h' : handler) : Prop := {
  qu_alarm : alarm h' = alarm h;
  qu_completed : peerCompletedAddressValidation h' = peerCompletedAddressValidation h;
  qu_confirmed : handshakeConfirmed h' = handshakeConfirmed h;
  qu_limited : isAmplificationLimited h' = isAmplificationLimited h;
  qu_begun : begun h' -> begun h;
  qu_crypto : hasOutstandingCryptoPackets h' = hasOutstandingCryptoPackets h;
  qu_app : sent.HasOutstandingPackets (history (appDataPackets h')) = sent.HasOutstandingPackets (history (appDataPackets h));
  qu_probes : sent.HasOutstandingPathProbes (history (appDataPackets h')) = sent.HasOutstandingPathProbes (history (appDataPackets h));
}.

Lemma quiet_space (h : handler) l s s' k : getPacketNumberSpace h l = Some s -> hist_ok (history s) -> hist_ok (history s') ->
  sent.Packets (history s') = sent.Packets (history s) -> pathProbePackets (history s) ≡ₚ pathProbePackets (history s') ->
  largestSent s' = largestSent s -> quiet h (set_calls (set_space h l s') k).
Proof.
  intros Hs H1 H2 Hp Hq Hls.
  assert (E1 : sent.HasOutstandingPackets (history s') = sent.HasOutstandingPackets (history s)) by (rewrite !has_outstanding by done; by rewrite Hp).
  assert (E2 : sent.HasOutstandingPathProbes (history s') = sent.HasOutstandingPathProbes (history s)).
  { unfold sent.HasOutstandingPathProbes, len. by rewrite Hq. }
  destruct l; cbn in Hs; try injection Hs as <-; split; try done; unfold hasOutstandingCryptoPackets, begun; cbn; rewrite ?Hs; cbn; by rewrite ?E1, ?Hls.
Qed.

Record received (rs : list AckRange) (l : EncryptionLevel) (s : packetNumberSpace) (now : Z) (h h' : handler) : Prop := {
  re_inv : hinv [] h';
  re_account : account h' ≡ₚ account h;
  re_present : forall l', getPacketNumberSpace h' l' = None <-> getPacketNumberSpace h l' = None;
  re_perspective : perspective h' = perspective h;
  re_completed : peerCompletedAddressValidation h = true -> peerCompletedAddressValidation h' = true;
  re_confirmed : handshakeConfirmed h' = handshakeConfirmed h;
  re_acks : acks_of (calls h') ≡ₚ acks_of (calls h) ++ acked_frames rs s ++ acked_probes rs s;
  re_left : exists s', getPacketNumberSpace h' l = Some s' /\ left_after rs s s';
  re_probes : numProbesToSend h' = 0 \/ numProbesToSend h' = numProbesToSend h;
  re_alarm : alarm h' = lossDetectionTime h' now \/
    exists h0, quiet h0 h' /\ aside h h0 /\ (h0 = h \/ alarm h0 = lossDetectionTime h0 now);
}.

Definition ack_refused (l : EncryptionLevel) (s : packetNumberSpace) (ack : AckFrame) : Prop :=
  (exists top, Ack.LargestAcked ack = Ret top /\ largestSent s < top) \/ skipped_acked l s (AckRanges ack).

(** The server knows now that the address is valid. *)
Definition ack_start (h : handler) (l : EncryptionLevel) (rcvTime : Z) : handler :=
  if bool_decide (perspective h = PerspectiveClient) && negb (peerCompletedAddressValidation h) &&
     (bool_decide (l = EncryptionHandshake) || bool_decide (l = Encryption1RTT))
  then setLossDetectionTimer (set_completed h) rcvTime else h.

Lemma ack_start_aside h l t : aside h (ack_start h l t).
Proof. unfold ack_start. destruct (_ && _); [split; [by split|done..]|by apply aside_same]. Qed.

Lemma remaining (rs : list AckRange) (s s' : packetNumberSpace) xs : hist_ok (history s) -> taken rs s s' xs -> left_after rs s s'.
Proof.
  intros Hok []. pose proof (Packets_nodup _ Hok) as Hd. pose proof (ho_probes _ Hok) as Hdp.
  assert (Hprobe : forall x, In x (pathProbePackets (history s)) -> acked x.1 rs -> placeholder (sent.Packets (history s)) x.1 = true -> In x (List.filter is_probe xs)).
  { intros x Hx Ha Hpl. rewrite ta_told0. apply List.filter_In. split; [done|]. unfold probe_acked. by rewrite Hpl, bool_decide_eq_true_2. }
  split; apply List.Forall_forall; intros x Hx.
  - rewrite ta_packets0 in Hx. apply without_in in Hx as [Hx Hn]. split; [done|]. intros Ha. destruct (is_probe x) eqn:Ep; [split; [done|]|exfalso; apply Hn, in_map].
    + intros (y & Ey & Hy)%in_map_iff. apply Hn. rewrite <-Ey in Ha |- *. apply in_map. apply (List.filter_In is_probe). apply Hprobe; [done..|].
      apply existsb_exists. exists x. rewrite Ep, Ey, Z.eqb_refl. done.
    + assert (Hin : In x (List.filter ordinary xs)); [|by apply List.filter_In in Hin as [? _]].
      rewrite ta_ordinary0. apply List.filter_In. split; [done|]. unfold ordinary. by rewrite Ep, (bool_decide_eq_true_2 _ Ha).
  - assert (Hin : In x (pathProbePackets (history s))) by (rewrite ta_probes0; apply in_app_iff; by right). split; [done|]. intros Ha.
    destruct (placeholder _ _) eqn:Epl; [|done]. exfalso. specialize (Hprobe x Hin Ha Epl). rewrite ta_probes0, map_app in Hdp.
    apply NoDup_app in Hdp as (_ & Hdp & _). apply (Hdp x.1); apply list_elem_of_In, in_map; done.
Qed.

Lemma taken_frames rs s s' xs : taken rs s s' xs -> live_in xs ≡ₚ acked_frames rs s ++ acked_probes rs s.
Proof.
  intros []. unfold acked_frames, acked_probes. rewrite <-ta_told0, <-ta_ordinary0, <-live_in_app. apply live_in_perm. clear.
  induction xs as [|x xs IH]; [done|].
  cbn [List.filter]. unfold ordinary at 1. destruct (is_probe x); cbn [negb]; [|by rewrite IH at 1]. rewrite IH at 1. apply Permutation_middle.
Qed.

(** What is done once packets were found *)
Record processed (l : EncryptionLevel) (s : packetNumberSpace) (now : Z) (h h' : handler) : Prop := {
  pc_inv : hinv [] h';
  pc_account : account h' ≡ₚ account h;
  pc_present : forall l', getPacketNumberSpace h' l' = None <-> getPacketNumberSpace h l' = None;
  pc_perspective : perspective h' = perspective h;
  pc_completed : peerCompletedAddressValidation h = true -> peerCompletedAddressValidation h' = true;
  pc_confirmed : handshakeConfirmed h' = handshakeConfirmed h;
  pc_acks : acks_of (calls h') = acks_of (calls h);
  pc_left : exists s', getPacketNumberSpace h' l = Some s' /\
    (forall x, In x (sent.Packets (history s')) -> In x (sent.Packets (history s))) /\
    (forall x, In x (pathProbePackets (history s')) -> In x (pathProbePackets (history s)));
  pc_probes : numProbesToSend h' = 0;
  pc_alarm : alarm h' = lossDetectionTime h' now;
}.

Lemma process_acked_spec (h1 : handler) l s1 ack rcvTime top prior xs e : hinv xs h1 -> getPacketNumberSpace h1 l = Some s1 -> valid_ranges (AckRanges ack) ->
  exists h' b, process_acked h1 ack l rcvTime top prior xs e = Ret (h', b) /\ processed l s1 rcvTime h1 h'.
Proof.
  intros Hi1 Hs1 Hv. unfold process_acked.
  destruct (measure_rtt_spec h1 ack l rcvTime xs e Hv (hi_cc _ _ Hi1)) as (h2 & Hm & As2).
  rewrite Hm. cbn [obind]. pose proof (aside_get _ _ l As2) as G2. rewrite Hs1 in G2.
  destruct (handle_ecn_spec h2 ack l s1 top prior xs G2) as (h3 & -> & As3). cbn [obind].
  pose proof (aside_trans _ _ _ As2 As3) as As. pose proof (aside_get _ _ l As) as G3. rewrite Hs1 in G3.
  destruct (raise_largest_spec h3 xs l s1 top (aside_hinv _ _ _ As Hi1) G3) as (h4 & -> & E4 & Hi4 & Ha4). cbn [obind].
  assert (G4 : getPacketNumberSpace h4 l = Some (with_numbers s1 (pns_ s1) (Z.max (largestAcked s1) top) (largestSent s1))).
  { rewrite E4. apply set_space_same. }
  destruct (detectLostPackets_spec h4 xs l _ rcvTime Hi4 G4) as (h5 & -> & Hi5 & Lo5). cbn [obind].
  destruct (lo_space _ _ _ _ _ Lo5) as (s5 & G5 & _ & Hp5 & Hq5 & _).
  assert (Hpp : exists h6, (if bool_decide (l = Encryption1RTT) then detectLostPathProbes h5 rcvTime else Ret h5) = Ret h6 /\ hinv xs h6 /\
    account h6 ≡ₚ account h5 /\ probes_only h5 h6).
  { destruct (bool_decide _); [by apply detectLostPathProbes_spec|exists h5; split; [done|]; split; [done|]; split; [done|reflexivity]]. }
  destruct Hpp as (h6 & -> & Hi6 & Ha6 & Po6). cbn [obind].
  destruct (settle_spec prior rcvTime xs h6 [] ltac:(by rewrite app_nil_r)) as (n & c & -> & Hi7). cbn [obind].
  set (h7 := with_flight h6 n c (calls h6)) in *.
  assert (G7 : getPacketNumberSpace h7 l = getPacketNumberSpace h6 l) by done.
  destruct (probes_only_get _ _ l s5 Po6 G5) as (s6 & G6 & Hp6 & Hq6). rewrite <-G7 in G6.
  destruct (finish_ack_spec h7 ack l s6 rcvTime top xs Hv G6) as (h8 & b & -> & As8 & Hal & Hpr). exists h8, b. split; [done|].
  pose proof (lo_still _ _ _ _ _ Lo5) as St5. pose proof (probes_only_still _ _ Po6) as St6.
  assert (St4 : still h3 h4) by (rewrite E4; by apply (set_space_still h3 l s1)).
  split; [by apply (aside_hinv _ _ _ As8)| | | | | | | |done|done].
  - rewrite (aside_account _ _ As8). transitivity (account h6); [done|].
    by rewrite Ha6, (lo_account _ _ _ _ _ Lo5), Ha4, (aside_account _ _ As).
  - intros l'. rewrite (aside_get _ _ l' As8). transitivity (getPacketNumberSpace h6 l' = None); [done|].
    by rewrite (st_present _ _ St6), (st_present _ _ St5), (st_present _ _ St4), (aside_get _ _ l' As).
  - rewrite (as_perspective _ _ As8). transitivity (perspective h6); [done|].
    by rewrite (st_perspective _ _ St6), (st_perspective _ _ St5), (st_perspective _ _ St4), (as_perspective _ _ As).
  - intros Hc. apply (as_completed _ _ As8). change (peerCompletedAddressValidation h6 = true).
    rewrite (st_completed _ _ St6), (st_completed _ _ St5), (st_completed _ _ St4). by apply (as_completed _ _ As).
  - rewrite (as_confirmed _ _ As8). transitivity (handshakeConfirmed h6); [done|].
    by rewrite (st_confirmed _ _ St6), (st_confirmed _ _ St5), (st_confirmed _ _ St4), (as_confirmed _ _ As).
  - rewrite (as_calls _ _ As8). change (acks_of (calls h6) = acks_of (calls h1)).
    destruct Po6 as (? & k & -> & _ & _ & _ & Hk & _). change (acks_of k = acks_of (calls h1)). rewrite Hk, (lo_acks _ _ _ _ _ Lo5), E4.
    replace (calls (set_space h3 l _)) with (calls h3) by (by destruct l). by rewrite (as_calls _ _ As).
  - exists s6. rewrite (aside_get _ _ l As8). split; [done|]. cbn [with_numbers history] in Hp5, Hq5. rewrite Hp6, Hp5.
    split; [by intros x [Hx _]%List.filter_In|]. intros x Hx. apply Hq6 in Hx. by rewrite Hq5 in Hx.
Qed.

Lemma ReceivedAck_spec (h : handler) l s ack rcvTime : hinv [] h -> getPacketNumberSpace h l = Some s -> valid_ranges (AckRanges ack) ->
  (exists e, ReceivedAck h ack l rcvTime = Err (TransportError ProtocolViolation 0 e)) /\ ack_refused l s ack \/
  ~ ack_refused l s ack /\
  exists h' b, ReceivedAck h ack l rcvTime = Ret (h', b) /\ received (AckRanges ack) l s rcvTime h h'.
Proof.
  intros Hi Hs Hv. unfold ReceivedAck. rewrite (space_get h l s Hs). cbn [obind].
  destruct (ack_ends ack Hv) as (top & bot & Et & _). rewrite Et. cbn [obind].
  case Z.ltb_spec; intros Hl; [left; split; [by eexists|left; by eexists]|]. fold (ack_start h l rcvTime).
  pose proof (ack_start_aside h l rcvTime) as Has. assert (Hn0 : numProbesToSend (ack_start h l rcvTime) = numProbesToSend h) by (unfold ack_start; by destruct (_ && _)).
  assert (Hst : ack_start h l rcvTime = h \/ alarm (ack_start h l rcvTime) = lossDetectionTime (ack_start h l rcvTime) rcvTime).
  { unfold ack_start. destruct (_ && _); [by right|by left]. }
  set (h0 := ack_start h l rcvTime) in *. clearbody h0. pose proof (aside_hinv _ _ _ Has Hi) as Hi0.
  assert (Hs0 : getPacketNumberSpace h0 l = Some s) by (by rewrite (aside_get _ _ l Has)). pose proof (aside_account _ _ Has) as Ha0.
  destruct (detectAndRemove_spec h0 [] l s ack Hi0 Hs0 Hv) as [[[e ->] Hsk]|(Hns & h1 & xs & s1 & -> & Hi1 & Ha1 & Hk1 & E1 & Ht)].
  { left. split; [by eexists|by right]. }
  right. split; [intros [(t & Et' & Hlt)|?]; [|done]; rewrite Et in Et'; injection Et' as <-; lia|]. cbn [obind]. rewrite app_nil_r in Hi1.
  assert (Hs1 : getPacketNumberSpace h1 l = Some s1) by (rewrite E1; by destruct l).
  assert (Hd : hist_ok (history s)) by apply (hi_spaces _ _ Hi l s Hs).
  pose proof (remaining _ _ _ _ Hd Ht) as Hrem. pose proof (taken_frames _ _ _ _ Ht) as Hfr.
  assert (Hpres1 : forall l', getPacketNumberSpace h1 l' = None <-> getPacketNumberSpace h l' = None).
  { intros l'. rewrite <-(aside_get _ _ l' Has), E1. destruct (set_space_still h0 l s s1 Hs0) as [Hpr _ _ _]. apply Hpr. }
  assert (Hsame1 : perspective h1 = perspective h /\ peerCompletedAddressValidation h1 = peerCompletedAddressValidation h0 /\ handshakeConfirmed h1 = handshakeConfirmed h).
  { rewrite E1, <-(as_perspective _ _ Has), <-(as_confirmed _ _ Has). by destruct l. }
  destruct Hsame1 as (Hpe1 & Hco1 & Hcf1).
  assert (Hacks1 : acks_of (calls h1) ≡ₚ acks_of (calls h) ++ acked_frames (AckRanges ack) s ++ acked_probes (AckRanges ack) s).
  { by rewrite Hk1, Hfr, (as_calls _ _ Has). }
  destruct (Z.eqb_spec (len xs) 0) as [Hz|Hz].
  { exists h1, false. split; [done|]. assert (xs = []) as -> by (destruct xs; [done|rewrite len_cons in Hz; pose proof (len_nonneg xs); lia]).
    split; try done; try congruence.
    - by rewrite Ha1, Ha0.
    - intros Hc. rewrite Hco1. by apply (as_completed _ _ Has).
    - by exists s1.
    - right. transitivity (numProbesToSend h0); [rewrite E1; by destruct l|done].
    - right. exists h0. split; [|by split]. rewrite E1. apply (quiet_space h0 l s); [done|..].
      + apply (hi_spaces _ _ Hi0 l s Hs0).
      + apply (hi_spaces _ _ Hi1 l s1 Hs1).
      + apply Ht.
      + by apply (ta_probes _ _ _ _ Ht).
      + apply Ht. }
  destruct (process_acked_spec h1 l s1 ack rcvTime (Largest top) (bytesInFlight h0) xs
    (existsb (fun x => IsAckEliciting x.2) (List.filter ordinary xs)) Hi1 Hs1 Hv) as (h' & b & -> & [P1 P2 P3 P4 P5 P6 P7 P8 P9 P10]).
  exists h', b. split; [done|]. split; [done|..|by left|by left]; try congruence.
  - by rewrite P2, Ha1, Ha0.
  - intros l'. by rewrite P3.
  - intros Hc. apply P5. rewrite Hco1. by apply (as_completed _ _ Has).
  - destruct P8 as (s' & G & Hp & Hq). exists s'. split; [done|]. by apply (left_fewer _ _ s1).
Qed.

End Receive.
