(* ===== verification/SentHandlerTimer.v ===== *)
(** * The loss detection timer

    When the alarm has to be set, and that [lossDetectionTime] sets it: while
    packets are waited for, or the server has not validated our address, the
    handler will be called again unless the amplification limit forbids it to
    send. *)
From S2P Require Import Prelude Protocol AckFrame AckFrameProps Frames GoFloat Rtt Congestion AckTracker Ecn SentHistory SentHistoryFacts.
From S2P Require Import SentHandler SentHandlerFacts SentHandlerSteps SentHandlerAcks SentHandlerReceive.

Local Open Scope Z_scope.
Local Open Scope go_scope.

Section Timer.
Context {C : Type} `{SendAlgorithmLaws C}.
Abbreviation handler := (sentPacketHandler C).

Definition waits (h : handler) : Prop :=
  hasOutstandingCryptoPackets h = true \/
  handshakeConfirmed h = true /\ sent.HasOutstandingPackets (history (appDataPackets h)) = true \/
  peerCompletedAddressValidation h = false /\ begun h.

Definition should_arm (h : handler) : Prop :=
  isAmplificationLimited h = false /\ (waits h \/ sent.HasOutstandingPathProbes (history (appDataPackets h)) = true).

Definition alarm_set (a : alarmTimer) : Prop := Time a <> 0 /\ Timer a <> None.

(** The part of the invariant that concerns the handshake and the timer *)
Record guarded (h : handler) : Prop := {
  gu_server : perspective h = PerspectiveServer -> peerCompletedAddressValidation h = true;
  gu_confirmed : handshakeConfirmed h = true -> peerCompletedAddressValidation h = true;
  gu_handshake : handshakePackets h = None -> peerCompletedAddressValidation h = true;
  gu_probes : 0 <= numProbesToSend h;
  gu_alarm : should_arm h -> alarm_set (alarm h);
}.

Lemma scaled_range (h : handler) b : 0 < getScaledPTO h b <= maxPTODuration.
Proof.
  unfold getScaledPTO. set (pto := i64 _). assert (0 < maxPTODuration) by done.
  destruct (Z.ltb_spec maxPTODuration pto); cbn [orb]; [lia|]. destruct (Z.leb_spec pto 0); lia.
Qed.

Lemma pto_time (h : handler) b t : 0 < t <= max_time -> 0 < i64 (t + getScaledPTO h b).
Proof. intros Ht. pose proof (scaled_range h b). unfold maxPTODuration, Second, max_time in *. rewrite i64_small; lia. Qed.

Definition pto_found (x : Z * option EncryptionLevel) : Prop := 0 < x.1 /\ x.2 <> None.

Lemma earlier_found x t l : 0 < t -> (x.1 = 0 \/ pto_found x) -> pto_found (earlier x t l).
Proof.
  intros Ht Hx. unfold earlier. destruct (Z.eqb_spec x.1 0) as [E|E]; cbn [orb]; [by split|]. destruct Hx as [?|Hx]; [done|].
  destruct (_ && _); [by split|done].
Qed.

(** A space with outstanding packets asks for a probe. *)
Lemma wants (h : handler) s b : space_ok s -> sent.HasOutstandingPackets (history s) = true ->
  wants_probe s = true /\ 0 < i64 (lastAckElicitingPacketTime s + getScaledPTO h b).
Proof.
  intros Hs Ho. pose proof (sp_time _ Hs Ho) as Ht. split; [|by apply pto_time]. unfold wants_probe. rewrite Ho. apply negb_true_iff, Z.eqb_neq. lia.
Qed.

Lemma wants_only s : wants_probe s = true -> sent.HasOutstandingPackets (history s) = true.
Proof. by intros [? _]%andb_true_iff. Qed.

Definition initial_found (h : handler) : Z * option EncryptionLevel :=
  match initialPackets h with
  | Some s => if wants_probe s then (i64 (lastAckElicitingPacketTime s + getScaledPTO h false), Some EncryptionInitial) else (0, None)
  | None => (0, None)
  end.

Definition crypto_found (h : handler) : Z * option EncryptionLevel :=
  match handshakePackets h with
  | Some s => if wants_probe s then earlier (initial_found h) (i64 (lastAckElicitingPacketTime s + getScaledPTO h false)) EncryptionHandshake
              else initial_found h
  | None => initial_found h
  end.

Lemma initial_spec (h : handler) pend : hinv pend h ->
  pto_found (initial_found h) \/ initial_found h = (0, None) /\ outstanding_in (initialPackets h) = false.
Proof.
  intros Hi. unfold initial_found. destruct (initialPackets h) as [s|] eqn:E; [|by right]. cbn.
  destruct (wants_probe s) eqn:Ew; [left; pose proof (wants h s false (hi_spaces _ _ Hi EncryptionInitial s E) (wants_only s Ew)) as [_ Ht]; by split|].
  right. split; [done|]. apply not_true_iff_false. intros Ho. pose proof (wants h s false (hi_spaces _ _ Hi EncryptionInitial s E) Ho). intuition congruence.
Qed.

Lemma crypto_spec (h : handler) pend : hinv pend h ->
  pto_found (crypto_found h) \/ crypto_found h = (0, None) /\ hasOutstandingCryptoPackets h = false.
Proof.
  intros Hi. pose proof (initial_spec h pend Hi) as Hin. unfold crypto_found, hasOutstandingCryptoPackets.
  destruct (handshakePackets h) as [s|] eqn:E; cbn [outstanding_in]; [|rewrite orb_false_r; done].
  destruct (wants_probe s) eqn:Ew.
  - left. apply earlier_found; [by apply (wants h s false (hi_spaces _ _ Hi EncryptionHandshake s E)), wants_only|]. destruct Hin as [?|[Hz _]]; [by right|left; by rewrite Hz].
  - destruct Hin as [?|[Hz Ho]]; [by left|right]. split; [done|]. rewrite Ho. cbn. apply not_true_iff_false. intros Ho'.
    pose proof (wants h s false (hi_spaces _ _ Hi EncryptionHandshake s E) Ho'). intuition congruence.
Qed.

Lemma getPTO_found (h : handler) pend now : hinv pend h -> 0 < now <= max_time -> (handshakeConfirmed h = true -> peerCompletedAddressValidation h = true) ->
  waits h -> pto_found (getPTOTimeAndSpace h now).
Proof.
  intros Hi Hn Hcf Hw. unfold getPTOTimeAndSpace. destruct (negb (handshakeConfirmed h) && negb (hasOutstandingCryptoPackets h)) eqn:E.
  - apply andb_true_iff in E as [E1%negb_true_iff E2%negb_true_iff]. assert (peerCompletedAddressValidation h = false) as ->.
    { destruct Hw as [?|[[? _]|[? _]]]; congruence. }
    pose proof (pto_time h false now Hn). destruct (initialPackets h); by split.
  - fold (initial_found h). fold (crypto_found h). pose proof (crypto_spec h pend Hi) as Hc.
    assert (Hap : sent.HasOutstandingPackets (history (appDataPackets h)) = true ->
      wants_probe (appDataPackets h) = true /\ 0 < i64 (lastAckElicitingPacketTime (appDataPackets h) + getScaledPTO h true)).
    { apply wants. by apply (hi_spaces _ _ Hi Encryption1RTT). }
    destruct (handshakeConfirmed h && wants_probe (appDataPackets h)) eqn:Ea.
    + apply andb_true_iff in Ea as [_ Ea]. apply earlier_found; [by apply Hap, wants_only|]. destruct Hc as [?|[Hz _]]; [by right|left; by rewrite Hz].
    + destruct Hc as [?|[Hz Ho]]; [done|]. exfalso. rewrite Ho, andb_true_r in E. apply negb_false_iff in E.
      destruct Hw as [?|[[_ Hw]|[Hw _]]]; [congruence| |specialize (Hcf E); congruence]. destruct (Hap Hw) as [Hwp _]. rewrite E, Hwp in Ea. done.
Qed.

(** The alarm is set whenever it should. *)
Lemma lossDetectionTime_set (h : handler) pend now : hinv pend h -> 0 < now <= max_time ->
  (handshakeConfirmed h = true -> peerCompletedAddressValidation h = true) -> should_arm h -> alarm_set (lossDetectionTime h now).
Proof.
  intros Hi Hn Hcf [Hlim Hw]. unfold lossDetectionTime. set (app := history (appDataPackets h)) in *.
  rewrite Hlim. destruct (_ && negb (sent.HasOutstandingPathProbes app)) eqn:E.
  { exfalso. rewrite !andb_true_iff, !negb_true_iff in E. destruct E as [[[E1 E2] E3] E4]. unfold waits in Hw. fold app in Hw. destruct Hw as [[?|[[_ ?]|[? _]]]|?]; congruence. }
  clear E. set (probe := match sent.FirstOutstandingPathProbe app with Some (_, p) => i64 (SendTime p + pathProbePacketLossTimeout) | None => 0 end).
  assert (Hpr : sent.HasOutstandingPathProbes app = true -> probe <> 0).
  { unfold sent.HasOutstandingPathProbes, probe, sent.FirstOutstandingPathProbe. intros Hp.
    pose proof (sp_probes _ (hi_spaces _ _ Hi Encryption1RTT _ eq_refl)) as Hall. fold app in Hall. destruct (pathProbePackets app) as [|[pn p] l]; [done|].
    apply Forall_cons in Hall as [[_ _ _ _ Ht] _]. cbn in Ht |- *. unfold max_time, pathProbePacketLossTimeout, Second in *. rewrite i64_small; lia. }
  destruct (getLossTimeAndSpace h) as [loss l]. case_match eqn:El.
  { apply andb_true_iff in El as [El%negb_true_iff%Z.eqb_neq _]. by split. }
  assert (Hdec : waits h \/ probe <> 0) by (destruct Hw; [by left|right; auto]).
  destruct (getPTOTimeAndSpace h now) as [pto [l'|]] eqn:Ep.
  - case_match eqn:E1; [apply andb_true_iff in E1 as [E1%negb_true_iff%Z.eqb_neq _]; by split|]. destruct (Z.eqb_spec probe 0) as [Ez|Ez]; cbn [negb]; [|by split].
    exfalso. destruct Hdec as [Hwt|?]; [|done]. pose proof (getPTO_found h pend now Hi Hn Hcf Hwt) as [Hpos _]. rewrite Ep in Hpos. cbn in Hpos.
    cbn in E1. rewrite andb_true_r in E1. apply negb_false_iff, Z.eqb_eq in E1. lia.
  - destruct (Z.eqb_spec probe 0) as [Ez|Ez]; cbn [negb]; [|by split]. exfalso. destruct Hdec as [Hwt|?]; [|done].
    pose proof (getPTO_found h pend now Hi Hn Hcf Hwt) as [_ Hno]. by rewrite Ep in Hno.
Qed.

(** What ends with the timer is guarded. *)
Lemma timer_guarded (h h' : handler) now : hinv [] h' -> 0 < now <= max_time -> alarm h' = lossDetectionTime h' now ->
  (perspective h' = PerspectiveServer -> peerCompletedAddressValidation h' = true) ->
  (handshakeConfirmed h' = true -> peerCompletedAddressValidation h' = true) ->
  (handshakePackets h' = None -> peerCompletedAddressValidation h' = true) -> 0 <= numProbesToSend h' -> guarded h'.
Proof. intros Hi Hn Ha H1 H2 H3 H4. split; try done. intros Hs. rewrite Ha. by apply (lossDetectionTime_set h' []). Qed.

Lemma quiet_guarded h h' : guarded h -> quiet h h' -> perspective h' = perspective h -> handshakePackets h' = None <-> handshakePackets h = None ->
  numProbesToSend h' = numProbesToSend h -> guarded h'.
Proof.
  intros [G1 G2 G3 G4 G5] [Qa Qc Qf Ql Qb Qr Qp Qq] Hp Hh Hn. split; rewrite ?Qc, ?Hp, ?Qf, ?Hh, ?Hn, ?Qa; try done.
  intros Hs. apply G5. unfold should_arm, waits in *. rewrite <-Ql, <-Qr, <-Qp, <-Qq, <-Qf, <-Qc. tauto.
Qed.

End Timer.
