(* ===== verification/SentHandlerSend.v ===== *)
(** * Sending packets

    A packet number is drawn and the packet is registered under it: its
    frames join the account, its bytes the bytes in flight. *)
From S2P Require Import Prelude Protocol AckFrame AckFrameProps Frames GoFloat Rtt Congestion AckTracker Ecn SentHistory SentHistoryFacts.
From S2P Require Import SentHandler SentHandlerFacts SentHandlerSteps SentHandlerAcks SentHandlerReceive SentHandlerTimer.

Local Open Scope Z_scope.
Local Open Scope go_scope.

Section Send.
Context {C : Type} `{SendAlgorithmLaws C}.
Abbreviation handler := (sentPacketHandler C).

(** ** A space and the rest *)

Lemma set_space_over (h h2 : handler) l s' s'' : same_spaces (set_space h l s') h2 -> same_spaces (set_space h l s'') (set_space h2 l s'').
Proof. intros [E1 E2 E3]. destruct l; cbn in *; by split. Qed.

Lemma hinv_grow (h h' : handler) l s s'' d : hinv [] h -> getPacketNumberSpace h l = Some s -> space_ok s'' ->
  same_spaces (set_space h l s'') h' -> bytesInFlight h' = bytesInFlight h + d -> space_flight (Some s'') = space_flight (Some s) + d ->
  cc_ok (congestion h') -> (peerCompletedAddressValidation h = true -> peerCompletedAddressValidation h' = true) -> hinv [] h'.
Proof.
  intros [I1 I2 I3 I4 I5] E Hs' Hss Hb Hf Hc Hp. pose proof (set_space_flight h l s s'' E) as Hfl. destruct (same_live _ _ Hss) as [_ Hfl']. split; try done.
  - intros l' s1. rewrite (same_get _ _ l' Hss). intros [->|E1]%set_space_get; [done|eauto].
  - rewrite Hb, I2, Hfl'. cbn. cbn in Hf, Hfl. unfold space_flight in *. lia.
  - intros H1 H2. apply Hp. pose proof (same_get _ _ EncryptionInitial Hss) as G1. pose proof (same_get _ _ EncryptionHandshake Hss) as G2.
    cbn in G1, G2. rewrite H1 in G1. rewrite H2 in G2. destruct l; cbn in *; try congruence; auto.
Qed.

Lemma account_grow (h h' : handler) l s s'' new : getPacketNumberSpace h l = Some s ->
  same_spaces (set_space h l s'') h' -> calls h' = calls h -> space_live (Some s'') ≡ₚ space_live (Some s) ++ new ->
  account h' ≡ₚ account h ++ new.
Proof.
  intros E Hss Hc Hl. destruct (same_live _ _ Hss) as [El _].
  assert (Ha : account h' = account (set_space h l s'')) by (unfold account; rewrite El, Hc; by destruct l). rewrite Ha.
  pose proof (account_space h l s s'' new [] E) as Hsp. rewrite !app_nil_r in Hsp. apply Hsp. by rewrite Hl.
Qed.

(** ** Packet numbers *)

(** A space from which number [pn] was drawn *)
Record popped (s s' : packetNumberSpace) (pn : Z) : Prop := {
  po_hist : hist_ok (history s');
  po_next : next_number (history s') pn;
  po_gen : gen_ok (pns_ s');
  po_gen_next : gen_next (pns_ s') = pn + 1;
  po_packets : sent.Packets (history s') = sent.Packets (history s);
  po_probes : pathProbePackets (history s') = pathProbePackets (history s);
  po_time : lastAckElicitingPacketTime s' = lastAckElicitingPacketTime s;
  po_loss : lossTime s' = lossTime s;
}.

Lemma pop_spec (h : handler) rand l s : getPacketNumberSpace h l = Some s -> space_ok s -> rand_ok rand -> gen_next (pns_ s) < 2 ^ 61 ->
  exists s' pn, PopPacketNumber h rand l = Ret (set_space h l s', pn) /\ popped s s' pn.
Proof.
  intros Hs Hok Hr Hn. unfold PopPacketNumber. rewrite (space_get h l s Hs). cbn [obind]. pose proof Hok as [S1 S2 S3 S4 S5 S6].
  destruct (pop_number_spec rand (pns_ s) Hr S2 Hn) as (g' & skipped & -> & G1 & G2 & _). cbv zeta.
  assert (Hge : 0 <= gen_next (pns_ s)) by (destruct (pns_ s); cbn in *; lia).
  destruct skipped.
  - rewrite i64_small by lia. replace (gen_next (pns_ s) + 1 - 1) with (gen_next (pns_ s)) by lia.
    assert (Hnx : next_number (history s) (gen_next (pns_ s))) by (split; [unfold max_pn; lia|done]). change (history (with_numbers s g' _ _)) with (history s).
    destruct (SkippedPacket_spec _ _ S1 Hnx) as (hist & -> & H1 & H2 & H3 & H4). cbn [obind]. eexists _, _. split; [reflexivity|].
    split; try done; cbn; [|lia]. split; [unfold max_pn; lia|right; lia].
  - cbn [obind]. eexists _, _. split; [reflexivity|]. rewrite Z.add_0_r. split; try done. split; [unfold max_pn; lia|done].
Qed.

(** ** The packet is registered *)

Definition mark_ok (h : handler) (mark : ECN) : Prop := ecnTracker_ h = None \/ mark = ECNNon \/ mark = ECT0_ \/ mark = ECT1_.

Lemma ecn_sent_spec (h : handler) l pn mark : mark_ok h mark -> exists e, ecn_sent h l pn mark = Ret (set_ecn h e).
Proof.
  intros Hm. unfold ecn_sent. assert (Hid : set_ecn h (ecnTracker_ h) = h) by (by destruct h).
  destruct l; try (exists (ecnTracker_ h); by rewrite Hid). destruct (ecnTracker_ h) as [e|] eqn:E; [|exists None; by rewrite Hid].
  destruct Hm as [?|Hm]; [congruence|]. destruct Hm as [Em|[Em|Em]]; rewrite Em; cbn; by eexists.
Qed.

(** What was sent, as the history keeps it *)
Definition sent_as (t la size : Z) (sf fr : list sent_frame) (l : EncryptionLevel) (mtu included probe : bool) : packet :=
  {| SendTime := t; StreamFrames := sf; Frames_ := fr; LargestAcked := la; Length := size; Level := Some l;
     IsPathMTUProbePacket := mtu; includedInBytesInFlight := included; isPathProbePacket := probe |}.

(** The space after an ordinary packet *)
Lemma sent_space s s' pn p t hist : space_ok s -> popped s s' pn -> sent.SentPacket (history s') pn p = Ret hist ->
  entry_ok (pn, p) -> isPathProbePacket p = false -> 0 < t <= max_time ->
  let s1 := with_numbers s' (pns_ s') (largestAcked s') pn in
  let s2 := if IsAckEliciting p then with_times s1 (lossTime s1) t else s1 in
  space_ok (with_history s2 hist) /\ sent.Packets hist = sent.Packets (history s) ++ [(pn, p)] /\
  pathProbePackets hist = pathProbePackets (history s).
Proof.
  intros [S1 S2 S3 S4 S5 S6] [P1 P2 P3 P4 P5 P6 P7 P8] Hr He Hp Ht s1 s2.
  destruct (SentPacket_spec (history s') pn p P1 P2) as (hist' & Hr' & H1 & H2 & H3 & H4). rewrite Hr in Hr'. injection Hr' as <-.
  rewrite P5 in H2. rewrite P6 in H3. split; [|done].
  assert (Eg : pns_ s2 = pns_ s') by (unfold s2, s1; by destruct (IsAckEliciting p)).
  split; cbn [with_history history pns_ lastAckElicitingPacketTime]; rewrite ?Eg; try done.
  - right. lia.
  - rewrite H2. apply Forall_app. split; [done|]. by constructor.
  - by rewrite H3.
  - unfold s2. destruct (IsAckEliciting p) eqn:Ee; [done|]. intros Ho. cbn. rewrite P7. apply S6. rewrite has_outstanding in Ho |- * by done.
    rewrite H2, existsb_app in Ho. cbn in Ho. unfold is_outstanding at 2 in Ho. unfold Outstanding in Ho. cbn [snd] in Ho. rewrite Ee, !andb_false_r in Ho.
    by rewrite !orb_false_r in Ho.
Qed.

Lemma probe_space s s' pn p hist : space_ok s -> popped s s' pn -> sent.SentPathProbePacket (history s') pn p = Ret hist -> probe_ok (pn, p) ->
  let s1 := with_numbers s' (pns_ s') (largestAcked s') pn in
  space_ok (with_history s1 hist) /\ sent.Packets hist = sent.Packets (history s) ++ [(pn, probe_placeholder)] /\
  pathProbePackets hist = pathProbePackets (history s) ++ [(pn, p)].
Proof.
  intros [S1 S2 S3 S4 S5 S6] [P1 P2 P3 P4 P5 P6 P7 P8] Hr Hp s1.
  destruct (SentPathProbePacket_spec (history s') pn p P1 P2) as (hist' & Hr' & H1 & H2 & H3 & H4). rewrite Hr in Hr'. injection Hr' as <-.
  rewrite P5 in H2. rewrite P6 in H3. split; [|done]. split; cbn; try done.
  - right. lia.
  - rewrite H2. apply Forall_app. split; [done|]. constructor; [|constructor]. split; [done|done|by right|done].
  - rewrite H3. apply Forall_app. split; [done|]. by constructor.
  - intros Ho. rewrite P7. apply S6. rewrite has_outstanding in Ho |- * by done. rewrite H2, existsb_app in Ho. cbn in Ho. by rewrite !orb_false_r in Ho.
Qed.

(** ** [SentPacket] *)

(** The frames of a path probe all have somebody who waits for them. *)
Definition probe_frames (sf fr : list sent_frame) : Prop := sf = [] /\ Forall (fun f => Handler f <> None) fr.

Record sendable (h : handler) (t size : Z) (sf fr : list sent_frame) (mark : ECN) (probe : bool) : Prop := {
  sd_time : 0 < t <= max_time;
  sd_size : 0 < size <= max_packet;
  sd_flight : bytesInFlight h <= 2 ^ 60;
  sd_sent : 0 <= bytesSent h <= 2 ^ 60;
  sd_mark : mark_ok h mark;
  sd_probe : probe = true -> probe_frames sf fr;
}.

Definition new_frames (sf fr : list sent_frame) : list (nat * Frame) := tracked_frames fr ++ tracked_frames sf.

(** What it comes to: the account grows by the frames. *)
Record grown (new : list (nat * Frame)) (h h' : handler) : Prop := {
  gr_inv : hinv [] h';
  gr_account : account h' ≡ₚ account h ++ new;
  gr_guarded : guarded h';
}.

Lemma flight_bound (h : handler) pend : hinv pend h -> 0 <= flight_in pend -> 0 <= bytesInFlight h.
Proof.
  intros Hi Hp. rewrite (hi_flight _ _ Hi). assert (Hsp : forall s, (forall s0, s = Some s0 -> space_ok s0) -> 0 <= space_flight s).
  { intros [s|] Hs; [|done]. apply flight_nonneg, sp_entries. by apply Hs. }
  unfold flight. pose proof (Hsp (initialPackets h) (hi_spaces _ _ Hi EncryptionInitial)).
  pose proof (Hsp (handshakePackets h) (hi_spaces _ _ Hi EncryptionHandshake)).
  assert (Ha : 0 <= space_flight (Some (appDataPackets h))) by (apply Hsp; exact (hi_spaces _ _ Hi Encryption1RTT)). lia.
Qed.

Lemma limited_mono (h h' : handler) : peerAddressValidated h' = peerAddressValidated h -> bytesReceived h' = bytesReceived h ->
  bytesSent h <= bytesSent h' -> isAmplificationLimited h' = false -> isAmplificationLimited h = false.
Proof.
  unfold isAmplificationLimited. intros -> -> Hs. destruct (peerAddressValidated h); [done|]. cbn. rewrite !Z.leb_gt. lia.
Qed.

Lemma sent_probe (h : handler) l s s' pn t la sf fr mark size mtu : hinv [] h -> guarded h -> getPacketNumberSpace h l = Some s -> popped s s' pn ->
  sendable h t size sf fr mark true ->
  exists h', SentPacket (set_space h l s') t pn la sf fr l mark size mtu true = Ret h' /\ grown (new_frames sf fr) h h'.
Proof.
  intros Hi Hg Hs Hp [D1 D2 D3 D4 D5 D6]. unfold SentPacket. set (h1 := with_peer _ _ _ _ _ _).
  destruct (D6 eq_refl) as [-> Hfr].
  assert (Hs1 : getPacketNumberSpace h1 l = Some s') by (by destruct l). rewrite (space_get h1 l s' Hs1). cbn [obind].
  pose proof (hi_spaces _ _ Hi l s Hs) as Hok. fold (sent_as t la size [] fr l mtu false true). set (p := sent_as _ _ _ _ _ _ _ _ _).
  destruct (SentPathProbePacket_spec (history s') pn p (po_hist _ _ _ Hp) (po_next _ _ _ Hp)) as (hist & Hr & _).
  change (history (with_numbers s' _ _ pn)) with (history s'). rewrite Hr. cbn [obind].
  destruct (probe_space s s' pn p hist Hok Hp Hr) as (H1 & H2 & H3); [by split|]. set (s2 := with_history _ hist) in *.
  eexists. split; [reflexivity|]. set (h' := setLossDetectionTimer _ _).
  assert (Hss : same_spaces (set_space h l s2) h') by (unfold h'; by destruct l).
  assert (Hi' : hinv [] h').
  { apply (hinv_grow h h' l s s2 0); try done; unfold h'.
    - destruct l; cbn; lia.
    - cbn. rewrite H2, flight_in_app. cbn. lia.
    - destruct l; apply Hi.
    - by destruct l. }
  split; [done| |].
  - apply (account_grow h h' l s s2); [done..|unfold h'; by destruct l|]. cbn. unfold live_hist. rewrite H2, H3, !live_in_app.
    change (live_in [(pn, probe_placeholder)]) with (@nil (nat * Frame)). change (live_in [(pn, p)]) with (tracked p ++ []). unfold tracked, new_frames. cbn.
    rewrite !app_nil_r. by rewrite app_assoc.
  - destruct Hg. apply (timer_guarded h h' t); try done; unfold h'; destruct l; cbn; done.
Qed.

Lemma guarded_keep (h h' : handler) : guarded h -> alarm h' = alarm h -> perspective h' = perspective h -> handshakeConfirmed h' = handshakeConfirmed h ->
  (peerCompletedAddressValidation h = true -> peerCompletedAddressValidation h' = true) ->
  (handshakePackets h' = None -> handshakePackets h = None) -> 0 <= numProbesToSend h' -> (should_arm h' -> should_arm h) -> guarded h'.
Proof. intros [] Ha Hp Hc Hv Hh Hn Hs. split; [rewrite Hp|rewrite Hc|..]; auto. rewrite Ha. auto. Qed.

(** A packet nobody waits for does not call for the timer. *)
Lemma quiet_sent (h h' : handler) l s s' pn p : getPacketNumberSpace h l = Some s -> hist_ok (history s) -> hist_ok (history s') ->
  same_spaces (set_space h l s') h' -> sent.Packets (history s') = sent.Packets (history s) ++ [(pn, p)] -> Outstanding p = false ->
  pathProbePackets (history s') = pathProbePackets (history s) ->
  handshakeConfirmed h' = handshakeConfirmed h -> peerCompletedAddressValidation h' = true ->
  (isAmplificationLimited h' = false -> isAmplificationLimited h = false) -> should_arm h' -> should_arm h.
Proof.
  intros Hs H1 H2 [E1 E2 E3] Hp Hop Hq Hcf Hco Hl [Ha Hw]. split; [auto|]. revert Hw. unfold waits, hasOutstandingCryptoPackets.
  rewrite E1, E2, E3, Hcf, Hco.
  assert (Ho : sent.HasOutstandingPackets (history s') = sent.HasOutstandingPackets (history s)).
  { rewrite !has_outstanding by done. rewrite Hp, existsb_app. cbn. unfold is_outstanding at 2. cbn. by rewrite Hop, !orb_false_r. }
  assert (Hpp : sent.HasOutstandingPathProbes (history s') = sent.HasOutstandingPathProbes (history s)) by (unfold sent.HasOutstandingPathProbes; by rewrite Hq).
  intros [[Hw|[Hw|[? _]]]|Hw]; [left; left|left; right; left|done|right]; revert Hw;
    destruct l; cbn in Hs |- *; try injection Hs as <-; rewrite ?Hs; cbn [outstanding_in]; by rewrite ?Ho, ?Hpp.
Qed.

Lemma sent_ordinary (h : handler) l s s' pn t la sf fr mark size mtu : hinv [] h -> guarded h -> getPacketNumberSpace h l = Some s -> popped s s' pn ->
  sendable h t size sf fr mark false ->
  exists h', SentPacket (set_space h l s') t pn la sf fr l mark size mtu false = Ret h' /\ grown (new_frames sf fr) h h'.
Proof.
  intros Hi Hg Hs Hp [D1 D2 D3 D4 D5 D6]. unfold SentPacket. set (h1 := with_peer _ _ _ _ _ _).
  assert (Hs1 : getPacketNumberSpace h1 l = Some s') by (by destruct l). rewrite (space_get h1 l s' Hs1). cbn [obind]. cbv iota.
  pose proof (hi_spaces _ _ Hi l s Hs) as Hok. fold (sent_as t la size sf fr l mtu false false). set (e := IsAckEliciting (sent_as _ _ _ _ _ _ _ _ _)).
  fold (sent_as t la size sf fr l mtu e false). set (p := sent_as t la size sf fr l mtu e false).
  set (h2 := if e then _ else h1). set (h3 := set_congestion h2 _).
  assert (Hss3 : same_spaces h1 h3) by (unfold h3, h2; destruct e; [|done]; cbv zeta; by case_match).
  assert (Hm : mark_ok h3 mark).
  { unfold mark_ok in *. replace (ecnTracker_ h3) with (ecnTracker_ h); [done|]. unfold h3, h2, h1. destruct e; cbv zeta; [case_match|]; by destruct l. }
  destruct (ecn_sent_spec h3 l pn mark Hm) as (ec & ->). cbn [obind].
  destruct (SentPacket_spec (history s') pn p (po_hist _ _ _ Hp) (po_next _ _ _ Hp)) as (hist & Hr & _).
  set (s2 := if e then _ else _). assert (Eh : history s2 = history s') by (unfold s2; by destruct e). rewrite Eh, Hr. cbn [obind].
  destruct (sent_space s s' pn p t hist Hok Hp Hr) as (H1 & H2 & H3); [split; try done; [by left|cbn; lia]|done|done|].
  change (if IsAckEliciting p then _ else _) with s2 in H1.
  set (s3 := with_history s2 hist) in *. set (h4 := set_space _ l s3).
  assert (Hss : same_spaces (set_space h l s3) h4).
  { apply (set_space_over h (set_ecn h3 ec) l s'). destruct Hss3 as [F1 F2 F3]. split; cbn; rewrite ?F1, ?F2, ?F3; by destruct l. }
  assert (Hb : bytesInFlight h4 = bytesInFlight h + (if e then size else 0)).
  { pose proof (flight_bound h [] Hi) as Hfb. unfold flight_in in Hfb. cbn in Hfb. unfold max_packet in *.
    replace (bytesInFlight h4) with (bytesInFlight h3) by (by destruct l). assert (E1 : bytesInFlight h1 = bytesInFlight h) by (by destruct l).
    unfold h3, h2. clearbody h1. destruct e; [|cbn; lia]. cbv zeta. case_match; cbn; rewrite E1, i64_small; lia. }
  assert (Hc : cc_ok (congestion h4)).
  { replace (congestion h4) with (congestion h3) by (by destruct l). unfold h3. cbn [set_congestion with_flight congestion]. apply cc_sent.
    replace (congestion h2) with (congestion h); [apply Hi|]. unfold h2. destruct e; cbv zeta; [case_match|]; by destruct l. }
  assert (Hrest : peerCompletedAddressValidation h4 = peerCompletedAddressValidation h /\ calls h4 = calls h /\ perspective h4 = perspective h /\
    handshakeConfirmed h4 = handshakeConfirmed h /\ alarm h4 = alarm h /\ peerAddressValidated h4 = peerAddressValidated h /\
    bytesReceived h4 = bytesReceived h /\ bytesSent h4 = bytesSent h + size /\ 0 <= numProbesToSend h4).
  { assert (i64 (bytesSent h + size) = bytesSent h + size) as E by (unfold max_packet in *; rewrite i64_small; lia).
    pose proof (gu_probes _ Hg) as Hpr. assert (Hp2 : 0 <= numProbesToSend h2).
    { assert (Hp1 : numProbesToSend h1 = numProbesToSend h) by (by destruct l). unfold h2. clearbody h1. destruct e; cbv zeta; [|lia].
      case_match eqn:Ep; cbn in Ep |- *; [apply Z.ltb_lt in Ep|]; lia. }
    replace (numProbesToSend h4) with (numProbesToSend h2) by (by destruct l).
    split_and!; [..|exact Hp2]; unfold h4, h3, h2, h1; destruct e; cbv zeta; try case_match; destruct l; cbn; by rewrite ?E. }
  destruct Hrest as (R1 & R2 & R3 & R4 & R5 & R6 & R7 & R8 & R9).
  assert (Hi4 : hinv [] h4).
  { apply (hinv_grow h h4 l s s3 (if e then size else 0)); try done; [|by rewrite R1]. cbn. rewrite H2, flight_in_app. unfold flight_in. cbn. lia. }
  assert (Ha4 : account h4 ≡ₚ account h ++ new_frames sf fr).
  { apply (account_grow h h4 l s s3); [done..|]. cbn. unfold live_hist. rewrite H2, H3, live_in_app. change (live_in [(pn, p)]) with (tracked p ++ []).
    unfold tracked, new_frames. cbn. solve_Permutation. }
  assert (Hnone : handshakePackets h4 = None -> handshakePackets h = None).
  { intros Hn. rewrite (ss_handshake _ _ Hss) in Hn. by destruct l. }
  destruct (negb e && peerCompletedAddressValidation h4) eqn:Ee; eexists; (split; [reflexivity|]).
  - apply andb_true_iff in Ee as [Ee%negb_true_iff Ec]. split; [done|done|]. apply (guarded_keep h); try done.
    apply (quiet_sent h h4 l s s3 pn p); try done; [apply Hok|apply H1| |].
    + change (negb mtu && true && e = false). by rewrite Ee, andb_false_r.
    + apply limited_mono; try done. lia.
  - destruct Hg as [G1 G2 G3 G4 G5]. split; [by apply (aside_hinv _ _ _ (timer_aside h4 t))|by rewrite (aside_account _ _ (timer_aside h4 t))|].
    apply (timer_guarded h4 _ t); try done; [by apply (aside_hinv _ _ _ (timer_aside h4 t))|..]; cbn; rewrite ?R1, ?R3, ?R4; auto.
Qed.

End Send.
