(* ===== verification/SentHandlerOps.v ===== *)
(** * The other operations of the sent packet handler

    Dropping the packets of an encryption level, probe packets, the timeout of
    the alarm, a Retry, a new path, and what is received: each of them keeps the
    invariant, and says which frames leave the account. *)
From S2P Require Import Prelude Protocol AckFrame AckFrameProps Frames GoFloat Rtt Congestion AckTracker Ecn SentHistory SentHistoryFacts.
From S2P Require Import SentHandler SentHandlerFacts SentHandlerSteps SentHandlerAcks SentHandlerReceive SentHandlerTimer SentHandlerSend.

Local Open Scope Z_scope.
Local Open Scope go_scope.

Section Ops.
Context {C : Type} `{SendAlgorithmLaws C}.
Abbreviation handler := (sentPacketHandler C).

(** The account without the frames that are dropped *)
Record shrunk (dropped : list (nat * Frame)) (h h' : handler) : Prop := {
  sh_inv : hinv [] h';
  sh_account : account h' ++ dropped ≡ₚ account h;
  sh_guarded : guarded h';
}.

(** The end of most operations *)
Lemma timer_end (h1 : handler) now dropped (h : handler) : hinv [] h1 -> 0 < now <= max_time -> account h1 ++ dropped ≡ₚ account h ->
  (perspective h1 = PerspectiveServer -> peerCompletedAddressValidation h1 = true) ->
  (handshakeConfirmed h1 = true -> peerCompletedAddressValidation h1 = true) ->
  (handshakePackets h1 = None -> peerCompletedAddressValidation h1 = true) -> 0 <= numProbesToSend h1 ->
  shrunk dropped h (setLossDetectionTimer h1 now).
Proof.
  intros Hi Hn Ha H1 H2 H3 H4. pose proof (timer_aside h1 now) as As. split.
  - by apply (aside_hinv _ _ _ As).
  - by rewrite (aside_account _ _ As).
  - apply (timer_guarded h1 _ now); try done. by apply (aside_hinv _ _ _ As).
Qed.

(** ** Bytes of many packets *)

Lemma entry_weighs x : entry_ok x -> weighs x.
Proof.
  intros Hx Hinc. destruct (en_length _ Hx) as [?|Hp]; [lia|]. destruct (placeholder_free _ Hp Hx) as [_ Hf]. congruence.
Qed.

Lemma weighs_nonneg (l : list entry) : Forall weighs l -> 0 <= flight_in l.
Proof.
  unfold flight_in. induction 1 as [|x l Hx _ IH]; [done|]. cbn [fold_right]. unfold weighs in Hx. destruct (includedInBytesInFlight x.2); [specialize (Hx eq_refl)|]; lia.
Qed.

Lemma remove_bytes (l : list entry) : forall h : handler, Forall weighs l -> flight_in l <= bytesInFlight h ->
  ofold removeFromBytesInFlight (map snd l) h = Ret (with_flight h (bytesInFlight h - flight_in l) (congestion h) (calls h)).
Proof.
  induction l as [|x l IH]; intros h Hw Hb; [cbn; rewrite Z.sub_0_r; by destruct h|]. apply Forall_cons in Hw as [Hx Hw]. pose proof (weighs_nonneg l Hw) as Hn.
  cbn [map ofold]. unfold flight_in in *. cbn [fold_right] in *. fold (flight_in l) in *. unfold removeFromBytesInFlight at 1. unfold weighs in Hx.
  destruct (includedInBytesInFlight x.2).
  - rewrite (proj2 (Z.ltb_ge _ _)) by lia. cbn [obind]. rewrite IH by (done || (cbn; lia)). cbn. do 2 f_equal. lia.
  - cbn [obind]. rewrite IH by (done || lia). do 2 f_equal.
Qed.

(** ** Dropping an encryption level *)

Definition emptied (h : handler) (l : EncryptionLevel) : handler :=
  match l with
  | EncryptionInitial => with_spaces h None (handshakePackets h) (appDataPackets h)
  | _ => with_spaces h (initialPackets h) None (appDataPackets h)
  end.

Lemma drop_space (h : handler) l s : hinv [] h -> getPacketNumberSpace h l = Some s -> l = EncryptionInitial \/ l = EncryptionHandshake ->
  (getPacketNumberSpace (emptied h l) EncryptionInitial = None -> getPacketNumberSpace (emptied h l) EncryptionHandshake = None ->
   peerCompletedAddressValidation h = true) ->
  exists n, remove_all h s = Ret (with_flight h n (congestion h) (calls h)) /\
    let h' := emptied (with_flight h n (congestion h) (calls h)) l in hinv [] h' /\ account h' ++ space_live (Some s) ≡ₚ account h.
Proof.
  intros Hi Hs Hl Hd. pose proof (hi_spaces _ _ Hi l s Hs) as Hok.
  assert (Hw : Forall weighs (sent.Packets (history s))) by (eapply Forall_impl; [apply (sp_entries _ Hok)|apply entry_weighs]).
  assert (Hfl : flight (emptied h l) + space_flight (Some s) = flight h).
  { unfold flight. destruct Hl as [-> | ->]; cbn [emptied with_spaces initialPackets handshakePackets appDataPackets getPacketNumberSpace space_flight] in *;
      rewrite Hs; cbn [space_flight]; lia. }
  pose proof Hi as [I1 I2 I3 I4 I5]. unfold flight_in in I2. cbn [fold_right] in I2. unfold space_flight in Hfl.
  assert (Hge : 0 <= flight (emptied h l)).
  { unfold flight. assert (Hsp : forall s, (forall s0, s = Some s0 -> space_ok s0) -> 0 <= space_flight s).
    { intros [s0|] Hs0; [|done]. apply flight_nonneg, sp_entries. by apply Hs0. }
    pose proof (Hsp (Some (appDataPackets h)) (I1 Encryption1RTT)). pose proof (Hsp (initialPackets h) (I1 EncryptionInitial)).
    pose proof (Hsp (handshakePackets h) (I1 EncryptionHandshake)). destruct Hl as [-> | ->]; cbn [emptied with_spaces initialPackets handshakePackets appDataPackets];
      unfold space_flight in *; lia. }
  unfold remove_all. rewrite remove_bytes by (done || lia). eexists. split; [reflexivity|]. cbv zeta. set (n := _ - _). split.
  - split; try done.
    + intros l' s0. destruct Hl as [-> | ->], l'; cbn; try done; apply (I1 EncryptionInitial) || apply (I1 EncryptionHandshake) || apply (I1 Encryption1RTT).
    + unfold flight_in. cbn [fold_right]. replace (flight (emptied _ l)) with (flight (emptied h l)) by (by destruct Hl as [-> | ->]).
      replace (bytesInFlight (emptied _ l)) with n by (by destruct Hl as [-> | ->]). unfold n. lia.
    + by destruct Hl as [-> | ->].
    + destruct Hl as [-> | ->]; cbn; auto.
  - unfold account. replace (calls (emptied _ l)) with (calls h) by (by destruct Hl as [-> | ->]). rewrite <-app_assoc. apply Permutation_app_head.
    unfold live. destruct Hl as [-> | ->]; cbn [emptied with_flight with_spaces initialPackets handshakePackets appDataPackets getPacketNumberSpace] in *; rewrite Hs;
      cbn [space_live]; solve_Permutation.
Qed.

(** 0-RTT packets that are dropped: those before the first other one *)
Fixpoint rejected (l : list entry) : list entry :=
  match l with
  | x :: l => match Level x.2 with Some Encryption0RTT => x :: rejected l | _ => [] end
  | [] => []
  end.

(** What happens to one packet of the application data: its bytes are taken
    off, and it leaves the history. *)
Lemma take_app (h : handler) pend pn p hist : hinv pend h -> In (pn, p) (sent.Packets (history (appDataPackets h))) ->
  removed (history (appDataPackets h)) pn hist ->
  exists n, removeFromBytesInFlight h p = Ret (with_flight h n (congestion h) (calls h)) /\
    let h' := set_space (with_flight h n (congestion h) (calls h)) Encryption1RTT (with_history (appDataPackets h) hist) in
    hinv pend h' /\ account h' ++ tracked p ≡ₚ account h.
Proof.
  intros Hi Hin Hr. destruct (take_out h pend Encryption1RTT (appDataPackets h) pn p hist Hi eq_refl Hin Hr) as [Hi1 Ha1].
  destruct (removeFromBytesInFlight_spec _ _ _ Hi1) as (n & Hrm & Hi2). exists n. split; [|by split].
  unfold removeFromBytesInFlight in *. cbn [snd] in Hrm. destruct (includedInBytesInFlight p).
  - change (bytesInFlight (set_space h Encryption1RTT (with_history (appDataPackets h) hist))) with (bytesInFlight h) in Hrm. destruct (_ <? _); [done|].
    injection Hrm as <-. done.
  - injection Hrm as Hrm. cbn in Hrm. subst n. by destruct h.
Qed.

Lemma drop_0rtt_spec ps : forall h : handler, hinv [] h -> NoDup (map fst ps) -> (forall x, In x ps -> In x (sent.Packets (history (appDataPackets h)))) ->
  exists n hist, drop_0rtt ps h = Ret (set_space (with_flight h n (congestion h) (calls h)) Encryption1RTT (with_history (appDataPackets h) hist)) /\
    let h' := set_space (with_flight h n (congestion h) (calls h)) Encryption1RTT (with_history (appDataPackets h) hist) in
    hinv [] h' /\ account h' ++ live_in (rejected ps) ≡ₚ account h.
Proof.
  induction ps as [|[pn p] ps IH]; intros h Hi Hd Hin.
  { exists (bytesInFlight h), (history (appDataPackets h)). cbn [drop_0rtt rejected live_in flat_map]. rewrite app_nil_r.
    replace (set_space _ Encryption1RTT _) with h by (by destruct h as [? ? []]). done. }
  cbn in Hd. apply NoDup_cons in Hd as [Hn Hd]. cbn [drop_0rtt rejected].
  assert (Hstop : exists n hist, Ret h = Ret (set_space (with_flight h n (congestion h) (calls h)) Encryption1RTT (with_history (appDataPackets h) hist)) /\
    let h' := set_space (with_flight h n (congestion h) (calls h)) Encryption1RTT (with_history (appDataPackets h) hist) in
    hinv [] h' /\ account h' ++ live_in [] ≡ₚ account h).
  { exists (bytesInFlight h), (history (appDataPackets h)). cbn [live_in flat_map]. rewrite app_nil_r.
    replace (set_space _ Encryption1RTT _) with h by (by destruct h as [? ? []]). done. }
  cbn [snd]. destruct (Level p) as [[]|]; try exact Hstop. clear Hstop.
  pose proof (sp_hist _ (hi_spaces _ _ Hi Encryption1RTT _ eq_refl)) as Hh.
  destruct (Remove_spec (history (appDataPackets h)) Hh pn p (Hin _ (or_introl eq_refl))) as (hist & Hrm & Hr).
  destruct (take_app h [] pn p hist Hi (Hin _ (or_introl eq_refl)) Hr) as (n & -> & Hi1 & Ha1). cbn [obind].
  change (appDataPackets (with_flight h n _ _)) with (appDataPackets h). rewrite Hrm.
  set (h1 := set_space _ Encryption1RTT _) in *. destruct (IH h1 Hi1 Hd) as (n' & hist' & Hret & Hi2 & Ha2).
  { intros x Hx. cbn. destruct Hr as [_ -> _ _ _]. apply del_in. split; [apply Hin; by right|]. intros E. apply Hn. rewrite <-E.
    by apply list_elem_of_In, in_map. }
  exists n', hist'. split; [exact Hret|]. split; [exact Hi2|].
  change (live_in ((pn, p) :: rejected ps)) with (tracked p ++ live_in (rejected ps)). rewrite <-Ha1, <-Ha2. solve_Permutation.
Qed.

(** What only steps aside stays guarded. *)
Lemma aside_guarded (h h' : handler) : guarded h -> aside h h' -> alarm h' = alarm h ->
  (isAmplificationLimited h' = false -> isAmplificationLimited h = false) -> 0 <= numProbesToSend h' -> guarded h'.
Proof.
  intros Hg [[E1 E2 E3] _ _ _ Hc Hp Hf] Ha Hl Hn. apply (guarded_keep h); auto; [congruence|]. intros [Hlim Hw]. split; [auto|]. revert Hw.
  unfold waits, hasOutstandingCryptoPackets, begun. rewrite E1, E2, E3, Hf. destruct (peerCompletedAddressValidation h); [rewrite (Hc eq_refl)|]; tauto.
Qed.

(** The frames of a level that is dropped; nobody is told. *)
Definition dropped_frames (h : handler) (l : EncryptionLevel) : list (nat * Frame) :=
  match l with
  | EncryptionInitial => space_live (initialPackets h)
  | EncryptionHandshake => space_live (handshakePackets h)
  | Encryption0RTT => live_in (rejected (sent.Packets (history (appDataPackets h))))
  | Encryption1RTT => []
  end.

Lemma DropPackets_spec (h : handler) l now : hinv [] h -> guarded h -> 0 < now <= max_time -> l <> Encryption1RTT ->
  exists h', DropPackets h l now = Ret h' /\ shrunk (dropped_frames h l) h h'.
Proof.
  intros Hi Hg Hn Hl. unfold DropPackets. set (h0 := if _ && _ then _ else h).
  assert (As : aside h h0) by (unfold h0; destruct (_ && _); [by split|by apply aside_same]).
  pose proof (aside_hinv _ _ _ As Hi) as Hi0. pose proof (aside_account _ _ As) as Ha0.
  assert (Hg0 : 0 <= numProbesToSend h0 /\ (perspective h0 = PerspectiveServer -> peerCompletedAddressValidation h0 = true) /\
    (handshakeConfirmed h0 = true -> peerCompletedAddressValidation h0 = true) /\ (handshakePackets h0 = None -> peerCompletedAddressValidation h0 = true) /\
    (l = EncryptionHandshake -> peerCompletedAddressValidation h0 = true) /\ guarded h0).
  { assert (guarded h0) by (apply (aside_guarded h); [done|done|unfold h0; by destruct (_ && _)..|]; unfold h0; destruct (_ && _); apply Hg).
    pose proof Hg as [G1 G2 G3 G4 G5]. unfold h0 in *. case_bool_decide as Ep; case_bool_decide as El; cbn [andb]; try (split_and!; done || auto).
    intros ?. apply G1. by destruct (perspective h). }
  clearbody h0. destruct Hg0 as (P & G1 & G2 & G3 & G4 & G5).
  assert (Hdf : dropped_frames h l = dropped_frames h0 l) by (destruct As as [[E1 E2 E3] _ _ _ _ _ _]; unfold dropped_frames; by rewrite E1, E2, E3). rewrite Hdf. clear Hdf.
  assert (Hkeep : dropped_frames h0 l = [] -> exists h', Ret h0 = Ret h' /\ shrunk (dropped_frames h0 l) h h').
  { intros ->. exists h0. split; [done|]. split; [done|by rewrite app_nil_r|]. done. }
  assert (Hend : forall h1, hinv [] h1 -> account h1 ++ dropped_frames h0 l ≡ₚ account h0 -> perspective h1 = perspective h0 ->
    (handshakeConfirmed h1 = true -> peerCompletedAddressValidation h1 = true) -> (handshakePackets h1 = None -> peerCompletedAddressValidation h1 = true) ->
    peerCompletedAddressValidation h1 = peerCompletedAddressValidation h0 ->
    exists h', Ret (drop_end h1 now) = Ret h' /\ shrunk (dropped_frames h0 l) h h').
  { intros h1 Hi1 Ha1 Hp1 Hc1 Hh1 Hv1. eexists. split; [reflexivity|]. apply timer_end; try done.
    - by apply (same_hinv h1); [by split|done|done|apply Hi1|].
    - rewrite <-Ha0, <-Ha1. done.
    - cbn. rewrite Hp1, Hv1. done. }
  destruct l; [..|done].
  - cbn [dropped_frames] in *. destruct (initialPackets h0) as [s|] eqn:Es; [|by apply Hkeep].
    destruct (drop_space h0 EncryptionInitial s Hi0 Es) as (n & -> & Hi1 & Ha1); [by left|auto|]. cbn [obind]. by apply Hend.
  - cbn [dropped_frames] in *. destruct (handshakePackets h0) as [s|] eqn:Es; [|by apply Hkeep].
    destruct (drop_space h0 EncryptionHandshake s Hi0 Es) as (n & -> & Hi1 & Ha1); [by right|auto|]. cbn [obind].
    apply Hend; try done; [|by cbn; auto..].
    by apply (same_hinv (emptied (with_flight h0 n (congestion h0) (calls h0)) EncryptionHandshake)); [by split|done|done|apply Hi1|].
  - destruct (drop_0rtt_spec (sent.Packets (history (appDataPackets h0))) h0 Hi0) as (n & hist & -> & Hi1 & Ha1); [|done|].
    { apply Packets_nodup, (sp_hist _ (hi_spaces _ _ Hi0 Encryption1RTT _ eq_refl)). }
    cbn [obind]. by apply Hend.
Qed.

(** ** Probe packets *)

(** A packet that is taken out of a history is not waited for any more. *)
Lemma less_waiting (h h' : handler) l s hist pn : getPacketNumberSpace h l = Some s -> hist_ok (history s) -> removed (history s) pn hist ->
  same_spaces (set_space h l (with_history s hist)) h' -> handshakeConfirmed h' = handshakeConfirmed h ->
  peerCompletedAddressValidation h' = peerCompletedAddressValidation h ->
  (isAmplificationLimited h' = false -> isAmplificationLimited h = false) -> should_arm h' -> should_arm h.
Proof.
  intros Hs H1 [H2 Hp Hq _ _] [E1 E2 E3] Hcf Hco Hl [Ha Hw]. split; [auto|]. revert Hw. unfold waits, hasOutstandingCryptoPackets, begun. rewrite E1, E2, E3, Hcf, Hco.
  assert (Ho : sent.HasOutstandingPackets hist = true -> sent.HasOutstandingPackets (history s) = true).
  { rewrite !has_outstanding, Hp by done. intros (x & Hx & Hox)%existsb_exists. apply existsb_exists. exists x. apply del_in in Hx as [? _]. done. }
  assert (Hpp : sent.HasOutstandingPathProbes hist = sent.HasOutstandingPathProbes (history s)) by (unfold sent.HasOutstandingPathProbes; by rewrite Hq).
  destruct l; cbn in Hs |- *; try injection Hs as <-; rewrite ?Hs, ?orb_true_iff; cbn [outstanding_in]; rewrite ?Hpp; tauto.
Qed.

Lemma QueueProbePacket_spec (h : handler) l s : hinv [] h -> guarded h -> getPacketNumberSpace h l = Some s ->
  exists h' b, QueueProbePacket h l = Ret (h', b) /\ shrunk [] h h' /\
    b = sent.HasOutstandingPackets (history s).
Proof.
  intros Hi Hg Hs. unfold QueueProbePacket. rewrite (space_get h l s Hs). cbn [obind]. pose proof (hi_spaces _ _ Hi l s Hs) as Hok.
  pose proof (has_outstanding _ (sp_hist _ Hok)) as Ho.
  destruct (sent.FirstOutstanding (history s)) as [[pn p]|] eqn:Ef; cycle 1.
  { exists h, false. split; [done|]. split; [split; [done|by rewrite app_nil_r|done]|]. unfold sent.FirstOutstanding in Ef.
    destruct (sent.HasOutstandingPackets (history s)) eqn:E; [|done]. cbn in Ef. symmetry in Ho. apply existsb_exists in Ho as ([pn p] & Hx & Hox).
    pose proof (List.find_none _ _ Ef _ Hx) as Hno. cbn in Hno. unfold is_outstanding in Hox. cbn in Hox. congruence. }
  apply FirstOutstanding_in in Ef as [Hin Hop]. destruct (DeclareLost_spec _ (sp_hist _ Hok) pn p Hin) as (hist & -> & Hr). cbn [obind].
  rewrite (set_history_space h l s hist Hs). cbn [obind]. destruct (take_out h [] l s pn p hist Hi Hs Hin Hr) as [Hi1 Ha1].
  assert (He : IsAckEliciting p = true) by (by apply andb_true_iff in Hop as [_ ?]).
  destruct (retire _ [] (pn, p) Hi1 He) as (h2 & n & cl & Hret & E2 & Hi2 & Ha2 & _). cbn [snd] in Hret.
  destruct (removeFromBytesInFlight _ p) as [h3| |]; cbn [obind] in Hret |- *; [|done..]. rewrite Hret. cbn [obind]. exists h2, true. split; [done|]. split.
  - split; [done|rewrite app_nil_r, Ha2; cbn [snd]; by rewrite Ha1|]. set (h1 := set_space h l _) in *.
    apply (guarded_keep h); try done; rewrite E2; try (unfold h1; by destruct l); [unfold h1; destruct l; apply Hg|].
    rewrite <-E2. apply (less_waiting h h2 l s hist pn); try done; [apply Hok|rewrite E2; unfold h1; by destruct l..].
  - rewrite Ho. symmetry. apply existsb_exists. by exists (pn, p).
Qed.

(** ** The timeout *)

Lemma loss_space (h : handler) t l : getLossTimeAndSpace h = (t, l) -> t <> 0 -> exists s, getPacketNumberSpace h l = Some s.
Proof.
  unfold getLossTimeAndSpace. set (x1 := match initialPackets h with Some s => (lossTime s, EncryptionInitial) | None => (0, EncryptionInitial) end).
  assert (H1 : x1.1 = 0 \/ exists s, getPacketNumberSpace h x1.2 = Some s).
  { unfold x1. destruct (initialPackets h) as [s|] eqn:E; [right; by exists s|by left]. }
  destruct x1 as [t1 l1]. set (x2 := match handshakePackets h with Some _ => _ | None => (t1, l1) end).
  assert (H2 : x2.1 = 0 \/ exists s, getPacketNumberSpace h x2.2 = Some s).
  { unfold x2. destruct (handshakePackets h) as [s|] eqn:E; [|done]. destruct (_ || _); [right; by exists s|done]. }
  destruct x2 as [t2 l2]. cbn in H2. destruct (_ || _); intros [= <- <-] Ht; [by eexists|]. by destruct H2.
Qed.

(** The space that is probed waits for a packet, unless the timer only
    keeps the handshake going. *)
Lemma pto_space (h : handler) pend now pto l : hinv pend h -> getPTOTimeAndSpace h now = (pto, Some l) ->
  exists s, getPacketNumberSpace h l = Some s /\ l <> Encryption0RTT /\
    (sent.HasOutstandingPackets (history s) = true \/
     handshakeConfirmed h = false /\ hasOutstandingCryptoPackets h = false /\ peerCompletedAddressValidation h = false).
Proof.
  intros Hi. unfold getPTOTimeAndSpace. destruct (negb (handshakeConfirmed h) && negb (hasOutstandingCryptoPackets h)) eqn:E.
  - apply andb_true_iff in E as [E1%negb_true_iff E2%negb_true_iff]. destruct (peerCompletedAddressValidation h) eqn:Ec; [done|].
    destruct (initialPackets h) as [s|] eqn:Ei; intros [= <- <-]; [exists s; by split; [|split; [|right]]|]. destruct (handshakePackets h) as [s|] eqn:Eh; [exists s; by split; [|split; [|right]]|].
    exfalso. pose proof (hi_done _ _ Hi Ei Eh). congruence.
  - fold (initial_found h). fold (crypto_found h).
    assert (H1 : forall t l, initial_found h = (t, Some l) -> exists s, getPacketNumberSpace h l = Some s /\ l <> Encryption0RTT /\ sent.HasOutstandingPackets (history s) = true).
    { unfold initial_found. intros t l0. destruct (initialPackets h) as [s|] eqn:Es; [|done]. destruct (wants_probe s) eqn:Ew; [|done].
      intros [= <- <-]. exists s. by apply wants_only in Ew. }
    assert (H2 : forall t l, crypto_found h = (t, Some l) -> exists s, getPacketNumberSpace h l = Some s /\ l <> Encryption0RTT /\ sent.HasOutstandingPackets (history s) = true).
    { unfold crypto_found, earlier. intros t l0. destruct (handshakePackets h) as [s|] eqn:Es; [|apply H1]. destruct (wants_probe s) eqn:Ew; [|apply H1].
      destruct (_ || _); [|apply H1]. intros [= <- <-]. exists s. by apply wants_only in Ew. }
    assert (H3 : (exists s, getPacketNumberSpace h l = Some s /\ l <> Encryption0RTT /\ sent.HasOutstandingPackets (history s) = true) ->
      exists s, getPacketNumberSpace h l = Some s /\ l <> Encryption0RTT /\
        (sent.HasOutstandingPackets (history s) = true \/
         handshakeConfirmed h = false /\ hasOutstandingCryptoPackets h = false /\ peerCompletedAddressValidation h = false)).
    { intros (s & ? & ? & ?). exists s. by auto. }
    intros Er. apply H3. destruct (handshakeConfirmed h && wants_probe (appDataPackets h)) eqn:Ea; [|by apply (H2 pto)].
    apply andb_true_iff in Ea as [_ Ea%wants_only]. unfold earlier in Er. destruct (_ || _); [|by apply (H2 pto)]. injection Er as <- <-.
    by exists (appDataPackets h).
Qed.

(** Who has to be probed *)
Definition wants_probing (h : handler) : Prop :=
  hasOutstandingCryptoPackets h = true \/
  handshakeConfirmed h = true /\ sent.HasOutstandingPackets (history (appDataPackets h)) = true \/
  peerCompletedAddressValidation h = false /\ bytesInFlight h = 0.

Definition is_pto_mode (m : SendMode) : Prop := m = SendPTOInitial \/ m = SendPTOHandshake \/ m = SendPTOAppData.

(** Like [still], but the probes to be sent may change. *)
Record kept (h h' : handler) : Prop := {
  kp_present : forall l, getPacketNumberSpace h' l = None <-> getPacketNumberSpace h l = None;
  kp_perspective : perspective h' = perspective h;
  kp_completed : peerCompletedAddressValidation h' = peerCompletedAddressValidation h;
  kp_confirmed : handshakeConfirmed h' = handshakeConfirmed h;
}.

Lemma still_kept h h' : still h h' -> kept h h'.
Proof. by intros []. Qed.
#[local] Instance kept_trans : Transitive kept.
Proof. intros h1 h2 h3 [] []. split; try congruence. intros l. by rewrite kp_present1. Qed.

(** What the timeout does before the timer is set again *)
Record timeout_step (h h' : handler) : Prop := {
  ts_inv : hinv [] h';
  ts_account : account h' ≡ₚ account h;
  ts_kept : kept h h';
  ts_probes : numProbesToSend h <= numProbesToSend h';
}.

Lemma probe_mode l : is_pto_mode (send_mode_of l).
Proof. unfold is_pto_mode. destruct l; cbn; auto. Qed.

Lemma fire_pto (h : handler) rand now pto l : hinv [] h -> rand_ok rand -> gen_next (pns_ (appDataPackets h)) < 2 ^ 61 ->
  getPTOTimeAndSpace h now = (pto, Some l) -> 
  let h1 := with_probing h (u32 (ptoCount h + 1)) (ptoMode h) (numProbesToSend h + 2) (alarm h) in
  exists h2, (match l with
     | Encryption1RTT =>
         let! '(h, pn) := PopPacketNumber h1 rand Encryption1RTT in
         let! hist := sent.SkippedPacket (history (appDataPackets h)) pn in
         set_history h Encryption1RTT hist
     | Encryption0RTT => Err (Errorf "PTO timer in unexpected encryption level: %s" ["0-RTT"%string])
     | _ => Ret h1
     end) = Ret h2 /\ timeout_step h1 h2 /\ numProbesToSend h2 = numProbesToSend h1.
Proof.
  intros Hi Hr Hn Hp h1. destruct (pto_space h [] now pto l Hi Hp) as (s & Hs & Hl & _).
  assert (Hi1 : hinv [] h1) by (by apply (same_hinv h); [by split|done|done|apply Hi|]).
  assert (Hself : timeout_step h1 h1) by (by split).
  destruct l; try (by exists h1).
  pose proof (hi_spaces _ _ Hi1 Encryption1RTT _ eq_refl) as Hok.
  destruct (pop_spec h1 rand Encryption1RTT (appDataPackets h) eq_refl Hok Hr Hn) as (s' & pn & -> & [P1 P2 P3 P4 P5 P6 P7 P8]). cbn [obind].
  change (appDataPackets (set_space h1 Encryption1RTT s')) with s'. destruct (SkippedPacket_spec _ _ P1 P2) as (hist & -> & H1 & H2 & H3 & H4). cbn [obind].
  rewrite (set_history_space (set_space h1 Encryption1RTT s') Encryption1RTT s' hist eq_refl). eexists. split; [reflexivity|]. set (h2 := set_space _ _ _).
  destruct Hok as [S1 S2 S3 S4 S5 S6].
  assert (Hok2 : space_ok (with_history s' hist)).
  { split; cbn; rewrite ?H2, ?H3, ?P5, ?P6, ?P7; try done; [right; lia|]. intros Ho. apply S6. rewrite has_outstanding in Ho |- * by done. by rewrite H2, P5 in Ho. }
  split; [|done]. split; try done.
  - apply (hinv_grow h1 h2 Encryption1RTT (appDataPackets h) (with_history s' hist) 0); try done; [by rewrite Z.add_0_r|cbn; rewrite H2, P5; lia|apply Hi].
  - rewrite (account_grow h1 h2 Encryption1RTT (appDataPackets h) (with_history s' hist) []); try done; [by rewrite app_nil_r|].
    cbn. unfold live_hist. rewrite H2, H3, P5, P6. by rewrite app_nil_r.
  - split; try done. by intros [].
Qed.

Lemma on_timeout_spec (h : handler) rand now : hinv [] h -> guarded h -> rand_ok rand -> gen_next (pns_ (appDataPackets h)) < 2 ^ 61 -> 0 < now <= max_time ->
  exists h', on_timeout h rand now = Ret h' /\ timeout_step h h' /\
    (fst (getLossTimeAndSpace h) = 0 -> wants_probing h -> numProbesToSend h < numProbesToSend h' /\ is_pto_mode (ptoMode h')).
Proof.
  intros Hi Hg Hr Hn Hnow. unfold on_timeout.
  assert (Hpp : exists h1, (if handshakeConfirmed h then detectLostPathProbes h now else Ret h) = Ret h1 /\ hinv [] h1 /\ account h1 ≡ₚ account h /\ probes_only h h1).
  { destruct (handshakeConfirmed h); [by apply detectLostPathProbes_spec|]. exists h. split; [done|]. split; [done|]. split; [done|reflexivity]. }
  destruct Hpp as (h1 & -> & Hi1 & Ha1 & Hpo). cbn [obind]. pose proof (probes_only_still _ _ Hpo) as Hst.
  assert (Hsame : getLossTimeAndSpace h1 = getLossTimeAndSpace h /\ (wants_probing h -> wants_probing h1) /\
    gen_next (pns_ (appDataPackets h1)) < 2 ^ 61).
  { pose proof (sp_hist _ (hi_spaces _ _ Hi Encryption1RTT _ eq_refl)) as Hh. pose proof (sp_hist _ (hi_spaces _ _ Hi1 Encryption1RTT _ eq_refl)) as Hh1.
    destruct Hpo as (hist & k & -> & Hp & _). split; [done|]. split; [|exact Hn]. unfold wants_probing. cbn in Hh1 |- *. rewrite !has_outstanding by done.
    by rewrite Hp. }
  destruct Hsame as (El & Hw & Hn1). rewrite El. pose proof (st_probes _ _ Hst) as En.
  assert (Hstep : forall h', timeout_step h1 h' -> timeout_step h h').
  { intros h' [T1 T2 T3 T4]. split; [done|by rewrite T2|by apply still_kept in Hst; etransitivity|by rewrite <-En]. }
  destruct (getLossTimeAndSpace h) as [t l] eqn:Et. destruct (Z.eqb_spec t 0) as [Ez|Ez]; cbn [negb]; cycle 1.
  { rewrite <-El in Et. destruct (loss_space h1 t l El Ez) as (s & Hs). destruct (detectLostPackets_spec h1 [] l s now Hi1 Hs) as (h2 & -> & Hi2 & Lo).
    exists h2. split; [done|]. split; [|by intros]. apply Hstep. split; [done|apply Lo|apply still_kept, Lo|].
    rewrite (st_probes _ _ (lo_still _ _ _ _ _ Lo)). lia. }
  assert (Hprobe : forall h2 n m, 0 < n -> is_pto_mode m -> timeout_step h1 h2 -> numProbesToSend h2 = numProbesToSend h1 + n -> forall c,
    exists h', Ret (with_probing h2 c m (numProbesToSend h2) (alarm h2)) = Ret h' /\ timeout_step h h' /\
      (fst (0, l) = 0 -> wants_probing h -> numProbesToSend h < numProbesToSend h' /\ is_pto_mode (ptoMode h'))).
  { intros h2 n m Hpos Hm Hts En2 c. eexists. split; [reflexivity|]. split; [|intros _ _; cbn; split; [lia|done]]. apply Hstep.
    destruct Hts as [T1 T2 T3 T4]. split; [by apply (same_hinv h2); [by split|done|done|apply T1|]|done| |done]. etransitivity; [exact T3|]. by split. }
  assert (Hset : forall n c m, 0 <= n -> timeout_step h1 (with_probing h1 c m (numProbesToSend h1 + n) (alarm h1))).
  { intros n c m Hpos. split; [by apply (same_hinv h1); [by split|done|done|apply Hi1|]|done|by split|cbn; lia]. }
  subst t. destruct (_ && negb (peerCompletedAddressValidation h1)) eqn:Ean.
  - apply andb_true_iff in Ean as [Eb Ec%negb_true_iff]. destruct (initialPackets h1) as [s|] eqn:Ei.
    + apply (Hprobe (with_probing h1 (ptoCount h1) SendPTOInitial (numProbesToSend h1 + 1) (alarm h1)) 1 SendPTOInitial); [done|by left|by apply Hset|done].
    + destruct (handshakePackets h1) as [s|] eqn:Eh.
      * apply (Hprobe (with_probing h1 (ptoCount h1) SendPTOHandshake (numProbesToSend h1 + 1) (alarm h1)) 1 SendPTOHandshake); [done|by right; left|by apply Hset|done].
      * pose proof (hi_done _ _ Hi1 Ei Eh). congruence.
  - assert (Hnone : (wants_probing h -> False) -> exists h', Ret h1 = Ret h' /\ timeout_step h h' /\
      (fst (0, l) = 0 -> wants_probing h -> numProbesToSend h < numProbesToSend h' /\ is_pto_mode (ptoMode h'))).
    { intros Hno. exists h1. split; [done|]. split; [|by intros _ ?%Hno]. apply Hstep. by split. }
    assert (Hcf : handshakeConfirmed h1 = true -> peerCompletedAddressValidation h1 = true).
    { rewrite (st_confirmed _ _ Hst), (st_completed _ _ Hst). apply Hg. }
    assert (Hwaits : wants_probing h -> waits h1 /\ ~ (hasOutstandingCryptoPackets h1 = false /\ peerCompletedAddressValidation h1 = false)).
    { intros [Hc|[[Hc Ha]|[Hc Hb]]]%Hw; unfold waits; [split; [by left|intuition congruence]|split; [by right; left|specialize (Hcf Hc); intuition congruence]|].
      rewrite Hc, Hb in Ean. done. }
    destruct (getPTOTimeAndSpace h1 now) as [pto [l'|]] eqn:Ep; cycle 1.
    { apply Hnone. intros [Hwt _]%Hwaits. pose proof (getPTO_found h1 [] now Hi1 Hnow Hcf Hwt) as [_ Hn']. by rewrite Ep in Hn'. }
    destruct (Z.eqb_spec pto 0) as [Ez|Ez].
    { apply Hnone. intros [Hwt _]%Hwaits. pose proof (getPTO_found h1 [] now Hi1 Hnow Hcf Hwt) as [Hn' _]. rewrite Ep in Hn'. cbn in Hn'. lia. }
    destruct (pto_space h1 [] now pto l' Hi1 Ep) as (s & Hs & Hl' & Ho). rewrite (space_get h1 l' s Hs). cbn [obind].
    destruct (negb (sent.HasOutstandingPackets (history s)) && _ && _) eqn:Eq.
    { apply Hnone. intros [_ Hx]%Hwaits. rewrite !andb_true_iff, !negb_true_iff in Eq. apply Hx. destruct Ho; intuition congruence. }
    destruct (fire_pto h1 rand now pto l' Hi1 Hr Hn1 Ep) as (h2 & -> & Hts & En2). cbn [obind].
    apply (Hprobe h2 2 (send_mode_of l')); [done|apply probe_mode| |done].
    destruct Hts as [T1 T2 T3 T4]. split; [done|done| |cbn in T4; lia]. etransitivity; [|exact T3]. by split.
Qed.

Lemma kept_handshake h h' : kept h h' -> handshakePackets h' = None -> handshakePackets h = None.
Proof. intros [Hp _ _ _]. apply (Hp EncryptionHandshake). Qed.

Lemma OnLossDetectionTimeout_spec (h : handler) rand now : hinv [] h -> guarded h -> rand_ok rand -> gen_next (pns_ (appDataPackets h)) < 2 ^ 61 ->
  0 < now <= max_time ->
  exists h', OnLossDetectionTimeout h rand now = Ret h' /\ shrunk [] h h' /\
    (fst (getLossTimeAndSpace h) = 0 -> wants_probing h -> 0 < numProbesToSend h' /\ is_pto_mode (ptoMode h')).
Proof.
  intros Hi Hg Hr Hn Hnow. unfold OnLossDetectionTimeout. destruct (on_timeout_spec h rand now Hi Hg Hr Hn Hnow) as (h1 & -> & [T1 T2 T3 T4] & Hp). cbn [obind].
  pose proof T3 as [K1 K2 K3 K4]. destruct Hg as [G1 G2 G3 G4 G5]. eexists. split; [reflexivity|]. split.
  - apply timer_end; rewrite ?K2, ?K3, ?K4; auto; [by rewrite app_nil_r|intros ?; apply G3; by apply (kept_handshake h h1)|lia].
  - intros H1 H2. destruct (Hp H1 H2). cbn. split; [lia|done].
Qed.

(** ** Retry *)

Lemma retry_fold ps : forall h : handler, exists cs, ofold retry_packet ps h = Ret (set_calls h (calls h ++ cs)) /\ settled cs = live_in ps.
Proof.
  induction ps as [|x ps IH]; intros h; [exists []; rewrite app_nil_r; split; [by destruct h|done]|]. cbn [ofold]. unfold retry_packet at 1.
  destruct (IsAckEliciting x.2) eqn:Ee.
  - destruct (queueFrames_spec h x.2 Ee) as (l & -> & Hl & _). cbn [obind]. destruct (IH (set_calls h (calls h ++ l))) as (cs & -> & Hc).
    exists (l ++ cs). split; [cbn; by rewrite <-app_assoc|]. by rewrite settled_app, Hl, Hc.
  - cbn [obind]. destruct (IH h) as (cs & -> & Hc). exists cs. split; [done|]. rewrite Hc. cbn. by rewrite (not_eliciting_free _ Ee).
Qed.

Lemma new_space_ok rand pn b : rand_ok rand -> 0 <= pn <= 2 ^ 61 -> space_ok (newPacketNumberSpace rand pn b).
Proof.
  intros Hr Hn. split; cbn; try done; [|destruct b|by left].
  - split; cbn; try done; try constructor.
  - unfold pns.newSkipping. apply gen_skip_ok; try done; lia.
  - cbn. lia.
Qed.

Lemma Peek_range g : gen_ok g -> gen_next g < 2 ^ 61 -> 0 <= pns.Peek g <= 2 ^ 61.
Proof. destruct g; cbn; [lia|]. intros. destruct (_ =? _); [rewrite i64_small|]; lia. Qed.

(** A client that has sent nothing but Initial and 0-RTT packets starts anew:
    their frames are lost, and nothing is in flight. *)
Lemma ResetForRetry_spec (h : handler) rand now s : hinv [] h -> guarded h -> rand_ok rand -> initialPackets h = Some s ->
  (forall hs, handshakePackets h = Some hs -> sent.Packets (history hs) = []) ->
  gen_next (pns_ s) < 2 ^ 61 -> gen_next (pns_ (appDataPackets h)) < 2 ^ 61 ->
  exists h', ResetForRetry h rand now = Ret h' /\
    shrunk (live_in (pathProbePackets (history s)) ++ live_in (pathProbePackets (history (appDataPackets h)))) h h'.
Proof.
  intros Hi [G1 G2 G3 G4 G5] Hr Hs Hhs Hn1 Hn2. unfold ResetForRetry.
  assert (E0 : space (with_flight h 0 (congestion h) (calls h)) EncryptionInitial = Ret s) by (apply space_get; exact Hs). rewrite E0. cbn [obind].
  destruct (retry_fold (sent.Packets (history s)) (with_flight h 0 (congestion h) (calls h))) as (c1 & -> & Hc1). cbn [obind].
  set (h1 := set_calls _ _). change (appDataPackets h1) with (appDataPackets h).
  destruct (retry_fold (sent.Packets (history (appDataPackets h))) h1) as (c2 & -> & Hc2). cbn [obind].
  set (h2 := set_calls h1 _). change (ptoCount h2) with (ptoCount h). set (h3 := if ptoCount h =? 0 then _ else h2).
  assert (E3 : calls h3 = calls h ++ c1 ++ c2 /\ appDataPackets h3 = appDataPackets h /\ handshakePackets h3 = handshakePackets h /\
    peerCompletedAddressValidation h3 = peerCompletedAddressValidation h /\ perspective h3 = perspective h /\ handshakeConfirmed h3 = handshakeConfirmed h /\
    numProbesToSend h3 = numProbesToSend h /\ congestion h3 = congestion h /\ bytesInFlight h3 = 0).
  { unfold h3. destruct (_ =? _); cbn; by rewrite <-app_assoc. }
  clearbody h3. destruct E3 as (E1 & E2 & E3 & E4 & E5 & E6 & E7 & E8 & E9). rewrite E2. eexists. split; [reflexivity|].
  pose proof (hi_spaces _ _ Hi EncryptionInitial s Hs) as Hok. pose proof (hi_spaces _ _ Hi Encryption1RTT _ eq_refl) as Hoka.
  pose proof (new_space_ok rand _ false Hr (Peek_range _ (sp_gen _ Hok) Hn1)) as N1.
  pose proof (new_space_ok rand _ true Hr (Peek_range _ (sp_gen _ Hoka) Hn2)) as N2.
  assert (Hhf : space_flight (handshakePackets h) = 0) by (destruct (handshakePackets h) as [hs|] eqn:E; [cbn; by rewrite (Hhs hs)|done]).
  set (h' := with_probing _ _ _ _ _). split.
  - split; try done.
    + intros l s0. destruct l; cbn; [by intros [= <-]| |by intros [= <-]..]. rewrite E3. apply (hi_spaces _ _ Hi EncryptionHandshake).
    + unfold flight. cbn. by rewrite E9, E3, Hhf.
    + cbn. rewrite E8. apply Hi.
  - unfold account, live. cbn [h' with_probing with_spaces calls initialPackets handshakePackets appDataPackets]. rewrite E1, E3, Hs, !settled_app, Hc1, Hc2.
    cbn [space_live]. unfold live_hist. cbn. rewrite !app_nil_r. solve_Permutation.
  - split; cbn; rewrite ?E4, ?E5, ?E6, ?E7, ?E3; try done. intros [_ [[Hw|[[_ ?]|[_ Hw]]]|?]]; try done. exfalso.
    unfold hasOutstandingCryptoPackets in Hw. cbn in Hw. rewrite E3 in Hw. destruct (handshakePackets h) as [hs|] eqn:E; [|done]. cbn in Hw.
    rewrite has_outstanding in Hw by (apply sp_hist, (hi_spaces _ _ Hi EncryptionHandshake hs E)). by rewrite (Hhs hs) in Hw.
Qed.

(** ** A new path *)

(** Every packet of the old path is lost, or was a probe. *)
Lemma migrate_fold ps : forall h : handler, hinv [] h -> NoDup (map fst ps) -> (forall x, In x ps -> In x (sent.Packets (history (appDataPackets h)))) ->
  exists h', ofold migrate_packet ps h = Ret h' /\ hinv [] h' /\ account h' ≡ₚ account h /\ still h h' /\ congestion h' = congestion h.
Proof.
  induction ps as [|[pn p] ps IH]; intros h Hi Hd Hin; [by exists h|]. cbn in Hd. apply NoDup_cons in Hd as [Hn Hd]. cbn [ofold].
  pose proof (hi_spaces _ _ Hi Encryption1RTT _ eq_refl) as Hok. pose proof (Hin _ (or_introl eq_refl)) as Hp.
  unfold migrate_packet at 1. cbn [fst snd].
  destruct (DeclareLost_spec _ (sp_hist _ Hok) pn p Hp) as (hist & -> & Hr). cbn [obind]. rewrite (set_history_space h Encryption1RTT _ hist eq_refl). cbn [obind].
  destruct (take_out h [] Encryption1RTT _ pn p hist Hi eq_refl Hp Hr) as [Hi1 Ha1]. set (h1 := set_space h _ _) in *.
  assert (Hrest : forall h2, hinv [] h2 -> account h2 ≡ₚ account h -> still h h2 -> congestion h2 = congestion h -> appDataPackets h2 = appDataPackets h1 ->
    exists h', ofold migrate_packet ps h2 = Ret h' /\ hinv [] h' /\ account h' ≡ₚ account h /\ still h h' /\ congestion h' = congestion h).
  { intros h2 Hi2 Ha2 Hs2 Hc2 Hap. destruct (IH h2 Hi2 Hd) as (h' & -> & Hi' & Ha' & Hs' & Hc').
    - intros x Hx. rewrite Hap. cbn. destruct Hr as [_ -> _ _ _]. apply del_in. split; [apply Hin; by right|]. intros E. apply Hn. rewrite <-E.
      by apply list_elem_of_In, in_map.
    - exists h'. split; [done|]. split; [done|]. split; [by rewrite Ha'|]. split; [by etransitivity|congruence]. }
  assert (Hst1 : still h h1) by (by apply (set_space_still h Encryption1RTT (appDataPackets h))).
  pose proof (sp_entries _ Hok) as He. rewrite List.Forall_forall in He. specialize (He _ Hp).
  destruct (isPathProbePacket p) eqn:Ep.
  { destruct (placeholder_free (pn, p) Ep He) as [Ht Hf]. cbn in Ht, Hf. cbn [obind]. apply Hrest; try done.
    - apply (hinv_pend _ [(pn, p)]); [done|done|]. unfold flight_in. cbn. by rewrite Hf.
    - rewrite <-Ha1, Ht. by rewrite app_nil_r. }
  destruct (removeFromBytesInFlight_spec h1 [] (pn, p) Hi1) as (n & Hrm & Hi2). cbn [snd] in Hrm. rewrite Hrm. cbn [obind].
  destruct (IsAckEliciting p) eqn:Ee; cbn [obind].
  - destruct (queueFrames_spec (with_flight h1 n (congestion h1) (calls h1)) p Ee) as (l & -> & Hl & _). cbn [obind]. apply Hrest; try done.
    + by apply (same_hinv (with_flight h1 n (congestion h1) (calls h1))); [split|..|apply Hi2|].
    + rewrite <-Ha1. apply same_account; [by split|]. cbn. by rewrite settled_app, Hl.
    + etransitivity; [exact Hst1|by split].
  - apply Hrest; try done.
    + rewrite <-Ha1, (not_eliciting_free _ Ee), app_nil_r. done.
    + etransitivity; [exact Hst1|by split].
Qed.

Lemma MigratedPath_spec (h : handler) now size : hinv [] h -> guarded h -> 0 < now <= max_time -> 0 < size ->
  exists h' dropped, MigratedPath h now size = Ret h' /\ shrunk dropped h h'.
Proof.
  intros Hi [G1 G2 G3 G4 G5] Hn Hsz. unfold MigratedPath. set (h0 := with_measured _ _ _ _ _).
  assert (As : aside h h0) by (by apply aside_same). pose proof (aside_hinv _ _ _ As Hi) as Hi0.
  destruct (migrate_fold (sent.Packets (history (appDataPackets h0))) h0 Hi0) as (h1 & -> & Hi1 & Ha1 & Hs1 & Hc1); [|done|].
  { apply Packets_nodup, (sp_hist _ (hi_spaces _ _ Hi0 Encryption1RTT _ eq_refl)). }
  cbn [obind]. pose proof (hi_spaces _ _ Hi1 Encryption1RTT _ eq_refl) as Hok. pose proof (sp_hist _ Hok) as Hh.
  rewrite (set_history_space h1 Encryption1RTT (appDataPackets h1) _ eq_refl). cbn [obind].
  pose proof (RemoveAllPathProbes_sub (history (appDataPackets h1))) as Hsub. destruct (submseteq_Permutation _ _ (sublist_submseteq _ _ Hsub)) as (gone_ & Hperm).
  set (hist := sent.RemoveAllPathProbes (history (appDataPackets h1))) in *.
  assert (Hok' : hist_ok hist).
  { apply with_probes_ok; [done|..].
    - pose proof (ho_probes _ Hh) as Hd. rewrite (Permutation_map fst Hperm), map_app in Hd. by apply NoDup_app in Hd as [Hd _].
    - pose proof (ho_probe_max _ Hh) as Hm. rewrite Hperm in Hm. by apply Forall_app in Hm as [Hm _]. }
  destruct (fewer_probes h1 [] Encryption1RTT (appDataPackets h1) hist gone_ Hi1 eq_refl Hok') as [Hi2 Ha2]; try done; [by rewrite Hperm; apply Permutation_app_comm|].
  set (h2 := set_space h1 _ _) in *. eexists _, (live_in gone_). split; [reflexivity|].
  pose proof (set_space_still h1 Encryption1RTT (appDataPackets h1) (with_history (appDataPackets h1) hist) eq_refl) as Hs2. fold h2 in Hs2.
  assert (Hs : still h0 h2) by (by etransitivity). destruct Hs as [K1 K2 K3 K4 K5].
  apply timer_end; try done.
  - apply (same_hinv h2); [by split|done|done| |done]. cbn. by apply cc_new.
  - transitivity (account h2 ++ live_in gone_); [done|]. rewrite Ha2, Ha1. apply (aside_account _ _ As).
  - cbn. change (perspective h2 = PerspectiveServer -> peerCompletedAddressValidation h2 = true). rewrite K2, K3. done.
  - change (handshakeConfirmed h2 = true -> peerCompletedAddressValidation h2 = true). rewrite K3, K4. done.
  - change (handshakePackets h2 = None -> peerCompletedAddressValidation h2 = true). rewrite K3. intros E%(K1 EncryptionHandshake). auto.
  - change (0 <= numProbesToSend h2). by rewrite K5.
Qed.

(** ** What is received, measured and configured *)

Lemma shrunk_aside (h h' : handler) : hinv [] h -> aside h h' -> guarded h' -> shrunk [] h h'.
Proof. intros Hi As Hg. split; [by apply (aside_hinv _ _ _ As)|by rewrite app_nil_r, (aside_account _ _ As)|done]. Qed.

Lemma shrunk_timer (h h1 : handler) now : hinv [] h -> guarded h -> aside h h1 -> 0 < now <= max_time -> 0 <= numProbesToSend h1 ->
  shrunk [] h (setLossDetectionTimer h1 now).
Proof.
  intros Hi [G1 G2 G3 G4 G5] As Hn Hp. pose proof As as [[_ Eh _] _ _ _ Hc Hpe Hcf].
  apply timer_end; try done; [by apply (aside_hinv _ _ _ As)|by rewrite app_nil_r, (aside_account _ _ As)|..]; rewrite ?Hpe, ?Hcf, ?Eh; auto.
Qed.

Lemma ReceivedBytes_spec (h : handler) n t : hinv [] h -> guarded h -> 0 < t <= max_time -> shrunk [] h (ReceivedBytes h n t).
Proof.
  intros Hi Hg Hn. unfold ReceivedBytes. set (h1 := with_peer _ _ _ _ _ _). assert (As : aside h h1) by (by apply aside_same).
  destruct (isAmplificationLimited h && negb (isAmplificationLimited h1)) eqn:E; [apply shrunk_timer; try done; apply Hg|].
  apply shrunk_aside; [done..|]. apply (aside_guarded h); try done; [|apply Hg]. intros El. rewrite El, andb_true_r in E. done.
Qed.

Lemma packet_received_spec (h : handler) l t : hinv [] h -> guarded h -> 0 < t <= max_time -> shrunk [] h (ReceivedPacket h l t).
Proof.
  intros Hi Hg Hn. unfold ReceivedPacket. destruct (_ && _); [|by apply shrunk_aside; [|apply aside_same|]].
  apply shrunk_timer; first [done | by apply aside_same | apply Hg].
Qed.

Lemma SetMaxDatagramSize_spec (h h' : handler) s : hinv [] h -> guarded h -> SetMaxDatagramSize h s = Ret h' -> shrunk [] h h'.
Proof.
  intros Hi Hg. unfold SetMaxDatagramSize. destruct (SetMaxDatagramSize_ (congestion h) s) as [c| |] eqn:E; [|done..]. cbn [obind]. intros [= <-].
  pose proof (cc_size _ _ _ (hi_cc _ _ Hi) E) as Hc. assert (As : aside h (set_congestion h c)) by (by split).
  apply shrunk_aside; [done..|]. apply (aside_guarded h); first [done | apply Hg].
Qed.

(** The statistics belong to the connection, which sets the peer's delay. *)
Definition set_rtt (h : handler) (r : RTTStats) : handler := with_measured h (lostPackets_ h) (largestAckedTime h) r (ecnTracker_ h).

Lemma set_rtt_spec (h : handler) r : hinv [] h -> guarded h -> shrunk [] h (set_rtt h r).
Proof.
  intros Hi Hg. apply shrunk_aside; [done|by apply aside_same|]. apply (aside_guarded h); first [done | by apply aside_same | apply Hg].
Qed.

Lemma ECNMode_spec (h : handler) short : hinv [] h -> guarded h -> let '(h', mark) := ECNMode h short in
  shrunk [] h h' /\ mark_ok h' mark /\ bytesInFlight h' = bytesInFlight h /\ bytesSent h' = bytesSent h /\
  (forall l, getPacketNumberSpace h' l = getPacketNumberSpace h l).
Proof.
  intros Hi Hg. assert (Hself : shrunk [] h h) by (by apply shrunk_aside; [|apply aside_same|]). unfold ECNMode, mark_ok.
  destruct (ecnTracker_ h) as [e|] eqn:E; [|by auto]. destruct short; cbn [negb]; [|by auto 10].
  destruct (ecn.Mode e) as [e' mark] eqn:Em. split; [|split; [|done]].
  - apply shrunk_aside; [done|by apply aside_same|]. apply (aside_guarded h); first [done | by apply aside_same | apply Hg].
  - right. unfold ecn.Mode in Em. destruct (state e); injection Em as <- <-; auto.
Qed.

Lemma ReceivedAck_shrunk (h h' : handler) l s rs now : hinv [] h -> guarded h -> 0 < now <= max_time -> received rs l s now h h' -> shrunk [] h h'.
Proof.
  intros Hi [G1 G2 G3 G4 G5] Hn [R1 R2 R3 R4 R5 R6 R7 R8 R9 R10]. split; [done|by rewrite app_nil_r|].
  assert (Hcommon : (perspective h' = PerspectiveServer -> peerCompletedAddressValidation h' = true) /\
    (handshakeConfirmed h' = true -> peerCompletedAddressValidation h' = true) /\
    (handshakePackets h' = None -> peerCompletedAddressValidation h' = true) /\ 0 <= numProbesToSend h').
  { rewrite R4, R6. split_and!; [auto|auto|intros E%(R3 EncryptionHandshake); auto|destruct R9; lia]. }
  destruct Hcommon as (C1 & C2 & C3 & C4). destruct R10 as [Ha|(h0 & Q & As & Hor)]; [by apply (timer_guarded h h' now)|].
  split; try done. intros Hs. destruct Q as [Qa Qc Qf Ql Qb Qr Qp Qq]. rewrite Qa.
  assert (Hs0 : should_arm h0). { unfold should_arm, waits in *. rewrite <-Ql, <-Qr, <-Qp, <-Qq, <-Qf, <-Qc. tauto. }
  destruct Hor as [->|Ha]; [auto|]. rewrite Ha. apply (lossDetectionTime_set h0 []); try done; [by apply (aside_hinv _ _ _ As)|].
  rewrite (as_confirmed _ _ As). intros Hc. apply (as_completed _ _ As). auto.
Qed.

Lemma new_spec rand pn size r v e pers : rand_ok rand -> 0 <= pn <= 2 ^ 61 -> 0 < size ->
  let h := NewSentPacketHandler rand pn size r v e pers : handler in hinv [] h /\ guarded h /\ account h = [].
Proof.
  intros Hr Hn Hs h. split; [|split; [|done]].
  - split; try done; cbn; [|by apply cc_new].
    intros l s. destruct l; cbn; intros [= <-]; by apply new_space_ok.
  - split; cbn; try done; [intros ->; by apply bool_decide_eq_true_2|]. intros [_ [[?|[[? _]|[_ Hb]]]|?]]; done.
Qed.

End Ops.
