(* ===== verification/SentHandlerProps.v ===== *)
(** * What loss recovery promises

    A sent packet handler with the code's congestion controller goes through
    any sequence of operations.  It never panics; each frame it was given is
    told of once, or is still waited for; the alarm is set while anything is
    waited for; an ACK acknowledges what is in its ranges, and exactly the
    packets that are due are lost. *)
From S2P Require Import Prelude Protocol AckFrame AckFrameProps Frames GoFloat Rtt Congestion AckTracker Ecn SentHistory SentHistoryFacts.
From S2P Require Import SentHandler SentHandlerFacts SentHandlerSteps SentHandlerAcks SentHandlerReceive SentHandlerTimer SentHandlerSend SentHandlerOps.

Local Open Scope Z_scope.
Local Open Scope go_scope.

Abbreviation recovery := (sentPacketHandler cubicSender).

(** ** Operations *)

Inductive op :=
  | OpSend (rand : Z -> Z) (l : EncryptionLevel) (t largestAcked size : Z) (streamFrames frames : list sent_frame) (mark : ECN) (mtu probe : bool)
  | OpAck (ack : AckFrame) (l : EncryptionLevel) (t : Z)
  | OpTimeout (rand : Z -> Z) (t : Z)
  | OpProbe (l : EncryptionLevel)
  | OpDrop (l : EncryptionLevel) (t : Z)
  | OpRetry (rand : Z -> Z) (t : Z)
  | OpMigrate (t size : Z)
  | OpBytes (n t : Z)
  | OpPacket (l : EncryptionLevel) (t : Z)
  | OpMode (shortHeader : bool)
  | OpSize (size : Z)
  | OpMaxAckDelay (d : Z)
  | OpInitialRTT (t : Z).

(** A packet number is drawn, and the packet is sent under it. *)
Definition send (h : recovery) (rand : Z -> Z) (l : EncryptionLevel) (t la size : Z) (sf fr : list sent_frame) (mark : ECN)
    (mtu probe : bool) : outcome recovery :=
  let! '(h, pn) := PopPacketNumber h rand l in SentPacket h t pn la sf fr l mark size mtu probe.

Definition step (h : recovery) (o : op) : outcome recovery :=
  match o with
  | OpSend rand l t la size sf fr mark mtu probe => send h rand l t la size sf fr mark mtu probe
  | OpAck ack l t => let! '(h, _) := ReceivedAck h ack l t in Ret h
  | OpTimeout rand t => OnLossDetectionTimeout h rand t
  | OpProbe l => let! '(h, _) := QueueProbePacket h l in Ret h
  | OpDrop l t => DropPackets h l t
  | OpRetry rand t => ResetForRetry h rand t
  | OpMigrate t size => MigratedPath h t size
  | OpBytes n t => Ret (ReceivedBytes h n t)
  | OpPacket l t => Ret (ReceivedPacket h l t)
  | OpMode short => Ret (fst (ECNMode h short))
  | OpSize size => SetMaxDatagramSize h size
  | OpMaxAckDelay d => Ret (set_rtt h (rtt.SetMaxAckDelay (rttStats h) d))
  | OpInitialRTT t => Ret (set_rtt h (rtt.SetInitialRTT (rttStats h) t))
  end.

Fixpoint run (h : recovery) (ops : list op) : outcome recovery :=
  match ops with [] => Ret h | o :: ops => let! h := step h o in run h ops end.

(** The frames an operation sends, and if it drops none *)
Definition given (o : op) : list (nat * Frame) :=
  match o with OpSend _ _ _ _ _ sf fr _ _ _ => new_frames sf fr | _ => [] end.
Definition keeps_frames (o : op) : bool := match o with OpDrop _ _ | OpRetry _ _ | OpMigrate _ _ => false | _ => true end.

Definition time_ok (t : Z) : Prop := 0 < t <= max_time.

(** The space is there, and has packet numbers left. *)
Definition has_numbers (h : recovery) (l : EncryptionLevel) : Prop :=
  exists s, getPacketNumberSpace h l = Some s /\ gen_next (pns_ s) < 2 ^ 61.

Definition present (h : recovery) (l : EncryptionLevel) : Prop := exists s, getPacketNumberSpace h l = Some s.

(** How the connection uses the handler *)
Definition careful (h : recovery) (o : op) : Prop :=
  match o with
  | OpSend rand l t la size sf fr mark mtu probe => rand_ok rand /\ has_numbers h l /\ sendable h t size sf fr mark probe
  | OpAck ack l t => present h l /\ valid_ranges (AckRanges ack) /\ time_ok t
  | OpTimeout rand t => rand_ok rand /\ has_numbers h Encryption1RTT /\ time_ok t
  | OpProbe l => present h l
  | OpDrop l t => l <> Encryption1RTT /\ time_ok t
  | OpRetry rand t => rand_ok rand /\ has_numbers h EncryptionInitial /\ has_numbers h Encryption1RTT /\
      (forall hs, handshakePackets h = Some hs -> sent.Packets (history hs) = [])
  | OpMigrate t size => time_ok t /\ 0 < size
  | OpBytes n t => time_ok t
  | OpPacket l t => time_ok t
  | OpSize size => maxDatagramSize (congestion h) <= size
  | OpMode _ | OpMaxAckDelay _ | OpInitialRTT _ => True
  end.

Fixpoint careful_run (h : recovery) (ops : list op) : Prop :=
  match ops with
  | [] => True
  | o :: ops => careful h o /\ match step h o with Ret h' => careful_run h' ops | _ => True end
  end.

(** ** One step *)

Lemma shrunk_step dropped (h h' : recovery) o : given o = [] -> shrunk dropped h h' -> (keeps_frames o = true -> dropped = []) ->
  exists d, hinv [] h' /\ guarded h' /\ account h' ++ d ≡ₚ account h ++ given o /\ (keeps_frames o = true -> d = []).
Proof. intros -> [S1 S2 S3] Hd. exists dropped. by rewrite app_nil_r. Qed.

(** An operation succeeds, unless it is an ACK that is a violation. *)
Lemma recovery_step (h : recovery) o : hinv [] h -> guarded h -> careful h o ->
  (exists h' d, step h o = Ret h' /\ hinv [] h' /\ guarded h' /\ account h' ++ d ≡ₚ account h ++ given o /\ (keeps_frames o = true -> d = [])) \/
  exists e, step h o = Err (TransportError ProtocolViolation 0 e).
Proof.
  intros Hi Hg Hc.
  assert (Hsh : given o = [] -> forall h' d, step h o = Ret h' -> shrunk d h h' -> (keeps_frames o = true -> d = []) ->
    (exists h' d, step h o = Ret h' /\ hinv [] h' /\ guarded h' /\ account h' ++ d ≡ₚ account h ++ given o /\ (keeps_frames o = true -> d = [])) \/
    exists e, step h o = Err (TransportError ProtocolViolation 0 e)).
  { intros Ho h' d Hst Hs Hd. left. destruct (shrunk_step d h h' o Ho Hs Hd) as (d' & ?). by exists h', d'. }
  destruct o; cbn [careful step] in *; try (destruct Hc as [Hc1 Hc2]).
  - destruct Hc2 as ((s & Hs & Hn) & Hsd). left. unfold send. pose proof (hi_spaces _ _ Hi _ _ Hs) as Hok.
    destruct (pop_spec h rand l s Hs Hok Hc1 Hn) as (s' & pn & -> & Hp). cbn [obind].
    assert (Hex : exists h', SentPacket (set_space h l s') t pn largestAcked streamFrames frames l mark size mtu probe = Ret h' /\ grown (new_frames streamFrames frames) h h').
    { destruct probe; [by apply (sent_probe h l s)|by apply (sent_ordinary h l s)]. }
    destruct Hex as (h' & -> & [A B D]). exists h', []. rewrite app_nil_r. done.
  - destruct Hc1 as (s & Hs). destruct Hc2 as [Hv Ht]. destruct (ReceivedAck_spec h l s ack t Hi Hs Hv) as [[[e ->] _]|(_ & h' & b & Hr & Hre)]; [right; by exists e|].
    apply (Hsh eq_refl h' []); [by rewrite Hr| |done]. by apply (ReceivedAck_shrunk h h' l s (AckRanges ack) t).
  - destruct Hc2 as ((s & [= <-] & Hn) & Ht). destruct (OnLossDetectionTimeout_spec h rand t Hi Hg Hc1 Hn Ht) as (h' & Hr & Hs & _).
    by apply (Hsh eq_refl h' []).
  - destruct (QueueProbePacket_spec h l Hc1 Hi Hg Hc2) as (h' & b & Hr & Hsk & _). apply (Hsh eq_refl h' []); [by rewrite Hr|done|done].
  - destruct (DropPackets_spec h l t Hi Hg Hc2 Hc1) as (h' & Hr & Hs). by apply (Hsh eq_refl h' (dropped_frames h l)).
  - destruct Hc2 as ((s & Hs & Hn) & (s' & [= <-] & Hn') & Hh).
    destruct (ResetForRetry_spec h rand t s Hi Hg Hc1 Hs Hh Hn Hn') as (h' & Hr & Hsk). by eapply Hsh.
  - destruct (MigratedPath_spec h t size Hi Hg Hc1 Hc2) as (h' & d & Hr & Hs). by apply (Hsh eq_refl h' d).
  - apply (Hsh eq_refl _ [] eq_refl); [|done]. by apply ReceivedBytes_spec.
  - apply (Hsh eq_refl _ [] eq_refl); [|done]. by apply packet_received_spec.
  - apply (Hsh eq_refl _ [] eq_refl); [|done]. pose proof (ECNMode_spec h shortHeader Hi Hg) as Hm. destruct (ECNMode h shortHeader). apply Hm.
  - assert (Hr : exists h', SetMaxDatagramSize h size = Ret h').
    { unfold SetMaxDatagramSize. cbn. unfold reno.SetMaxDatagramSize. rewrite (proj2 (Z.ltb_ge _ _)) by done. cbn [obind]. by eexists. }
    destruct Hr as (h' & Hr). apply (Hsh eq_refl h' [] Hr); [|done]. by apply (SetMaxDatagramSize_spec h h' size).
  - apply (Hsh eq_refl _ [] eq_refl); [|done]. by apply set_rtt_spec.
  - apply (Hsh eq_refl _ [] eq_refl); [|done]. by apply set_rtt_spec.
Qed.

Lemma run_spec ops : forall h : recovery, hinv [] h -> guarded h -> careful_run h ops ->
  (exists h' d, run h ops = Ret h' /\ hinv [] h' /\ guarded h' /\ account h' ++ d ≡ₚ account h ++ flat_map given ops /\
     (forallb keeps_frames ops = true -> d = [])) \/
  exists e, run h ops = Err (TransportError ProtocolViolation 0 e).
Proof.
  induction ops as [|o ops IH]; intros h Hi Hg Hc; [left; exists h, []; by rewrite !app_nil_r|]. destruct Hc as [Hc Hcs]. cbn [run].
  destruct (recovery_step h o Hi Hg Hc) as [(h1 & d1 & E1 & Hi1 & Hg1 & Ha1 & Hd1)|(e & ->)]; [|right; by exists e]. rewrite E1 in Hcs |- *. cbn [obind].
  destruct (IH h1 Hi1 Hg1 Hcs) as [(h' & d & E' & Hi' & Hg' & Ha' & Hd)|(e & ->)]; [|right; by exists e]. left. exists h', (d ++ d1).
  split; [done|]. split; [done|]. split; [done|]. split.
  - rewrite app_assoc, Ha'. cbn [flat_map]. rewrite (app_assoc (account h)), <-Ha1. solve_Permutation.
  - cbn [forallb]. intros [Hk1 Hk2]%andb_true_iff. by rewrite (Hd Hk2), (Hd1 Hk1).
Qed.

(** ** A timeout that does nothing *)

(** While 0-RTT packets are in flight and nothing else, the timeout of the
    alarm that is to keep the handshake going does nothing but set the alarm
    again. *)
Lemma timeout_without_probe (h : recovery) rnd t : hinv [] h -> handshakeConfirmed h = false -> peerCompletedAddressValidation h = false ->
  hasOutstandingCryptoPackets h = false -> bytesInFlight h <> 0 -> fst (getLossTimeAndSpace h) = 0 ->
  (forall l s, l = EncryptionInitial \/ l = EncryptionHandshake -> getPacketNumberSpace h l = Some s -> pathProbePackets (history s) = []) ->
  OnLossDetectionTimeout h rnd t = Ret (setLossDetectionTimer h t).
Proof.
  intros Hi Hcf Hco Hcr Hb Hl Hp. unfold OnLossDetectionTimeout, on_timeout. rewrite Hcf. cbn [obind]. destruct (getLossTimeAndSpace h) as [t0 l0]. cbn in Hl. subst t0.
  cbn [Z.eqb negb]. rewrite (proj2 (Z.eqb_neq _ _) Hb). cbn [andb]. destruct (getPTOTimeAndSpace h t) as [pto [l|]] eqn:Ep; [|done].
  destruct (Z.eqb_spec pto 0); [done|]. destruct (pto_space h [] t pto l Hi Ep) as (s & Hs & _). rewrite (space_get h l s Hs). cbn [obind].
  assert (Hls : (l = EncryptionInitial \/ l = EncryptionHandshake) /\ sent.HasOutstandingPackets (history s) = false).
  { unfold getPTOTimeAndSpace in Ep. rewrite Hcf, Hcr, Hco in Ep. cbn in Ep. unfold hasOutstandingCryptoPackets in Hcr. apply orb_false_iff in Hcr as [H1 H2].
    destruct (initialPackets h) as [s0|] eqn:Ei; injection Ep as _ <-; cbn in Hs.
    - rewrite Ei in Hs. injection Hs as <-. split; [by left|done].
    - rewrite Hs in H2. split; [by right|done]. }
  destruct Hls as [Hl Ho]. unfold sent.HasOutstandingPathProbes. rewrite Ho, (Hp l s Hl Hs), Hco. done.
Qed.

Lemma timeouts_without_probe rnd ts : forall h : recovery, hinv [] h ->
  handshakeConfirmed h = false -> peerCompletedAddressValidation h = false ->
  hasOutstandingCryptoPackets h = false -> bytesInFlight h <> 0 -> fst (getLossTimeAndSpace h) = 0 ->
  (forall l s, l = EncryptionInitial \/ l = EncryptionHandshake -> getPacketNumberSpace h l = Some s -> pathProbePackets (history s) = []) ->
  exists a, run h (map (OpTimeout rnd) ts) = Ret (with_probing h (ptoCount h) (ptoMode h) (numProbesToSend h) a).
Proof.
  induction ts as [|t ts IH]; intros h Hi Hcf Hco Hcr Hb Hl Hp; [exists (alarm h); by destruct h|]. cbn [map run step].
  rewrite (timeout_without_probe h rnd t) by done. cbn [obind].
  destruct (IH (setLossDetectionTimer h t)) as [a Ha]; [by apply (aside_hinv _ _ _ (timer_aside h t))|done..|]. by exists a.
Qed.

Section Run.
Context (rand : Z -> Z) (pn size : Z) (r : RTTStats) (validated ecn_on : bool) (pers : Perspective) (ops : list op).
Hypothesis Hrand : rand_ok rand.
Hypothesis Hpn : 0 <= pn <= 2 ^ 61.
Hypothesis Hsize : 0 < size.

Definition start : recovery := NewSentPacketHandler rand pn size r validated ecn_on pers.

Hypothesis Hcareful : careful_run start ops.

Lemma start_spec :
  (exists h' d, run start ops = Ret h' /\ hinv [] h' /\ guarded h' /\ account h' ++ d ≡ₚ flat_map given ops /\
     (forallb keeps_frames ops = true -> d = [])) \/
  exists e, run start ops = Err (TransportError ProtocolViolation 0 e).
Proof.
  destruct (new_spec rand pn size r validated ecn_on pers Hrand Hpn Hsize) as (Hi & Hg & Ha). pose proof (run_spec ops start Hi Hg Hcareful) as Hr.
  unfold start in *. by rewrite Ha in Hr.
Qed.

Lemma reached h : run start ops = Ret h -> hinv [] h /\ guarded h.
Proof. intros E. destruct start_spec as [(h' & d & E' & ? & ? & _)|(e & E')]; rewrite E in E'; [by injection E' as <-|done]. Qed.

(** C36. Whatever the connection does, loss recovery never panics, and fails only
    on an ACK that is a violation.  Every frame it was given is accounted for
    exactly once: its handler was told that it was acknowledged or lost, or
    it is in a packet that is still kept, or it was dropped, which only
    happens with the keys of its packet, on a Retry, or on a new path.  The
    bytes in flight are those of the packets that are kept. *)
Theorem frames_accounted :
  match run start ops with
  | Ret h => bytesInFlight h = flight h /\
      exists dropped, settled (calls h) ++ live h ++ dropped ≡ₚ flat_map given ops /\ (forallb keeps_frames ops = true -> dropped = [])
  | Err e => exists m, e = TransportError ProtocolViolation 0 m
  | Panic => False
  end.
Proof.
  destruct start_spec as [(h & d & -> & Hi & _ & Ha & Hd)|(m & ->)]; [|by exists m]. split.
  - rewrite (hi_flight _ _ Hi). unfold flight_in. cbn. lia.
  - exists d. unfold account in Ha. by rewrite <-app_assoc in Ha.
Qed.


(** C38. Loss detection looks at the packets up to the largest acknowledged
    number.  Such a packet is lost when it was sent long enough ago, or when
    the largest acknowledged number is at least three above its own, not
    counting numbers in between that were skipped and are remembered; every
    other packet is kept.  The frames of the lost packets are told, no others,
    and none of an acknowledgement.  The time is set for the first packet up
    to the largest acknowledged number that is left, a loss delay after it was
    sent, and cleared if there is none. *)
Theorem losses_are_due h l s now : run start ops = Ret h -> getPacketNumberSpace h l = Some s ->
  let d := loss_delay (rttStats h) in
  let lost x := (x.1 <=? largestAcked s) &&
    ((SendTime x.2 <=? i64 (now - d)) ||
     (3 <=? i64 (largestAcked s - x.1 - len (skipped_between (history s) (largestAcked s) x.1)))) in
  exists h' s', detectLostPackets h now l = Ret h' /\ getPacketNumberSpace h' l = Some s' /\
    account h' ≡ₚ account h /\ acks_of (calls h') = acks_of (calls h) /\
    settled (calls h') = settled (calls h) ++ live_in (List.filter lost (sent.Packets (history s))) /\
    sent.Packets (history s') = List.filter (fun x => negb (lost x)) (sent.Packets (history s)) /\
    lossTime s' = match sent.Packets (history s') with
                  | x :: _ => if x.1 <=? largestAcked s then i64 (SendTime x.2 + d) else 0
                  | [] => 0
                  end.
Proof.
  intros Hrun Hs d lost. destruct (reached h Hrun) as [Hi _]. destruct (detectLostPackets_spec h [] l s now Hi Hs) as (h' & E & _ & [L1 L2 L3 L4 L5]).
  assert (Hlost : forall x, gone s (i64 (now - d)) x = lost x).
  { intros x. unfold gone, due, lost, packetThreshold. by rewrite Difference_skipped by apply (hi_spaces _ _ Hi l s Hs). }
  destruct L5 as (s' & G & _ & Hp & _ & Ht). exists h', s'. rewrite (filter_ext _ _ Hlost) in L4.
  rewrite (filter_ext (fun x => negb (gone s (i64 (now - d)) x)) (fun x => negb (lost x))) in Hp by (intros x; by rewrite Hlost). done.
Qed.

(** C39. Recovery does not get stuck.  While a packet or a path probe is waited
    for that the timer is in charge of, or the server may still wait for us
    to prove our address, the alarm is set, unless the amplification limit
    forbids to send.  When it fires and no packet can be declared lost, a
    probe packet is to be sent. *)
Theorem alarm_guards_recovery h : run start ops = Ret h ->
  (should_arm h -> alarm_set (alarm h)) /\
  forall rnd t, careful h (OpTimeout rnd t) -> fst (getLossTimeAndSpace h) = 0 -> wants_probing h ->
    exists h', OnLossDetectionTimeout h rnd t = Ret h' /\ 0 < numProbesToSend h' /\
      (isAmplificationLimited h' = false -> tracked_packets h' < MaxTrackedSentPackets -> is_pto_mode (SendMode_ h' t)).
Proof.
  intros Hrun. destruct (reached h Hrun) as [Hi Hg]. split; [apply Hg|]. intros rnd t (H1 & (s & [= <-] & H2) & H3) Hl Hw.
  destruct (OnLossDetectionTimeout_spec h rnd t Hi Hg H1 H2 H3) as (h' & E & _ & Hp). destruct (Hp Hl Hw) as [Hn Hm].
  exists h'. split; [done|]. split; [done|]. intros Ha Ht. unfold SendMode_. rewrite Ha, (proj2 (Z.leb_gt _ _)), (proj2 (Z.ltb_lt _ _)) by done. done.
Qed.

(** C40. The handshake gets stuck in one case: a client has 0-RTT packets in
    flight, and its Initial and Handshake packets were all acknowledged,
    while the server is not done with its address.  However often the alarm
    fires, it is set again, and no probe is sent. *)
Theorem zero_rtt_stalls_handshake h rnd ts : run start ops = Ret h ->
  handshakeConfirmed h = false -> peerCompletedAddressValidation h = false ->
  hasOutstandingCryptoPackets h = false -> bytesInFlight h <> 0 -> fst (getLossTimeAndSpace h) = 0 ->
  (forall l s, l = EncryptionInitial \/ l = EncryptionHandshake -> getPacketNumberSpace h l = Some s -> pathProbePackets (history s) = []) ->
  exists a, run h (map (OpTimeout rnd) ts) = Ret (with_probing h (ptoCount h) (ptoMode h) (numProbesToSend h) a).
Proof. intros Hrun. apply timeouts_without_probe. by apply reached. Qed.

End Run.

(** ** Runs *)

Definition rand0 (_ : Z) : Z := 0.
Lemma rand0_ok : rand_ok rand0.
Proof. intros n Hn. unfold rand0. lia. Qed.

Ltac careful_op :=
  match goal with |- careful ?h ?o => let o' := eval hnf in o in change (careful h o') end; cbn [careful]; repeat match goal with
    | |- _ /\ _ => split
    | |- rand_ok rand0 => exact rand0_ok
    | |- has_numbers _ _ => eexists; split; [vm_compute; reflexivity|vm_compute; reflexivity]
    | |- present _ _ => eexists; vm_compute; reflexivity
    | |- sendable _ _ _ _ _ _ _ => split
    | |- mark_ok _ _ => right; left; reflexivity
    | |- valid_ranges _ => unfold valid_ranges
    | |- time_ok _ => unfold time_ok
    | |- true = true -> _ => intros _; split
    | |- false = true -> _ => discriminate
    | |- Forall _ _ => repeat constructor; discriminate
    | |- _ => vm_compute; (reflexivity || discriminate || (split; discriminate || reflexivity) || (intros; discriminate) || exact I || (repeat split; (discriminate || reflexivity || exact I)))
    end.

Ltac careful_steps :=
  repeat (cbn [careful_run]; split; [careful_op|];
    match goal with |- match step ?h ?o with _ => _ end =>
      let r := eval vm_compute in (step h o) in replace (step h o) with r by (vm_compute; reflexivity); cbv iota beta end);
  cbn [careful_run]; exact I.

Definition ms (n : Z) : Z := n * Millisecond.
Definition acks (from to : Z) : AckFrame := with_ranges empty_frame [{| Smallest := from; Largest := to |}].
Definition crypto (k : nat) : list sent_frame := [{| Frame_ := CryptoFrame 0 [1]; Handler := Some k |}].
Definition data (k : nat) (n : Z) : list sent_frame := [{| Frame_ := MaxDataFrame n; Handler := Some k |}].
Definition client : recovery := start rand0 0 1280 rtt.NewRTTStats false true PerspectiveClient.
Definition sends (l : EncryptionLevel) (t : Z) (fr : list sent_frame) : op := OpSend rand0 l (ms t) InvalidPacketNumber 1200 [] fr ECNNon false false.

(** A handshake, six packets, and an ACK for two of them *)
Definition handshake_ops : list op :=
  [sends EncryptionInitial 1000 (crypto 0); OpAck (acks 0 0) EncryptionInitial (ms 1100);
   sends EncryptionHandshake 1110 (crypto 1); OpDrop EncryptionInitial (ms 1110);
   OpAck (acks 0 0) EncryptionHandshake (ms 1200); OpDrop EncryptionHandshake (ms 1200)].
Definition data_ops : list op :=
  [sends Encryption1RTT 1300 (data 2 0); sends Encryption1RTT 1301 (data 2 1); sends Encryption1RTT 1302 (data 2 2);
   sends Encryption1RTT 1303 (data 2 3); sends Encryption1RTT 1304 (data 2 4); sends Encryption1RTT 1305 (data 2 5);
   OpAck (acks 4 5) Encryption1RTT (ms 1320)].

Lemma data_run_careful : careful_run client (handshake_ops ++ data_ops).
Proof. unfold handshake_ops, data_ops. cbn [app]. careful_steps. Qed.

Definition after (ops : list op) : recovery := match run client ops with Ret h => h | _ => client end.
Definition data_state : recovery := Eval vm_compute in after (handshake_ops ++ data_ops).
Lemma data_run : run client (handshake_ops ++ data_ops) = Ret data_state.
Proof. vm_compute. reflexivity. Qed.

(** Number 3 is skipped.  Packets 4 and 5 are acknowledged; 0 and 1 are lost, since 5 is three
    above them even without the number 3; 2 and 6 are in flight. *)
Lemma frames_accounted_witness :
  rand_ok rand0 /\ careful_run client (handshake_ops ++ data_ops) /\ run client (handshake_ops ++ data_ops) = Ret data_state /\
  bytesInFlight data_state = flight data_state /\ flight data_state = 2400 /\
  settled (calls data_state) = [(0%nat, CryptoFrame 0 [1]); (1%nat, CryptoFrame 0 [1]); (2%nat, MaxDataFrame 3); (2%nat, MaxDataFrame 4);
    (2%nat, MaxDataFrame 0); (2%nat, MaxDataFrame 1)].
Proof.
  pose proof (frames_accounted rand0 0 1280 rtt.NewRTTStats false true PerspectiveClient (handshake_ops ++ data_ops) rand0_ok ltac:(lia) ltac:(lia) data_run_careful) as Hf.
  fold client in Hf. rewrite data_run in Hf. destruct Hf as [Hf _].
  split; [exact rand0_ok|]. split; [exact data_run_careful|]. split; [exact data_run|]. split; [exact Hf|]. split; vm_compute; reflexivity.
Defined.

Definition flight_ops : list op := Eval cbn in handshake_ops ++ take 6 data_ops.
Definition flight_state : recovery := Eval vm_compute in after flight_ops.
Lemma flight_run : run client flight_ops = Ret flight_state.
Proof. vm_compute. reflexivity. Qed.
Lemma flight_run_careful : careful_run client flight_ops.
Proof. unfold flight_ops. careful_steps. Qed.

Definition probes (t : Z) (k : nat) : op :=
  OpSend rand0 Encryption1RTT (ms t) InvalidPacketNumber 1200 [] [{| Frame_ := PathChallengeFrame [1]; Handler := Some k |}] ECNNon false true.



(** Packets 2 and 6 are left after the ACK.  Soon after, the time is set when
    2 will be lost; later it is lost, and no time is set, since 6 is above what
    was acknowledged. *)
Lemma losses_are_due_witness : run client (handshake_ops ++ data_ops) = Ret data_state /\
  map fst (sent.Packets (history (appDataPackets data_state))) = [2; 6] /\
  (exists h' s', detectLostPackets data_state (ms 1321) Encryption1RTT = Ret h' /\ getPacketNumberSpace h' Encryption1RTT = Some s' /\
    map fst (sent.Packets (history s')) = [2; 6] /\ lossTime s' = ms 1302 + loss_delay (rttStats data_state)) /\
  exists h' s', detectLostPackets data_state (ms 1500) Encryption1RTT = Ret h' /\ getPacketNumberSpace h' Encryption1RTT = Some s' /\
    account h' ≡ₚ account data_state /\ map fst (sent.Packets (history s')) = [6] /\ lossTime s' = 0.
Proof.
  split; [exact data_run|]. split; [vm_compute; reflexivity|].
  pose proof (fun now => losses_are_due rand0 0 1280 rtt.NewRTTStats false true PerspectiveClient (handshake_ops ++ data_ops) rand0_ok ltac:(lia) ltac:(lia)
    data_run_careful data_state Encryption1RTT (appDataPackets data_state) now data_run eq_refl) as Hl.
  split.
  - destruct (Hl (ms 1321)) as (h' & s' & E & G & _ & _ & _ & Hp & Ht). exists h', s'. rewrite Ht, Hp. split; [exact E|]. split; [exact G|].
    split; vm_compute; reflexivity.
  - destruct (Hl (ms 1500)) as (h' & s' & E & G & Ha & _ & _ & Hp & Ht). exists h', s'. rewrite Ht, Hp. split; [exact E|]. split; [exact G|].
    split; [exact Ha|]. split; vm_compute; reflexivity.
Defined.

(** Six packets are waited for: the alarm is set, and a probe will follow. *)
Lemma alarm_guards_recovery_witness : run client flight_ops = Ret flight_state /\ alarm_set (alarm flight_state) /\
  exists h', OnLossDetectionTimeout flight_state rand0 (ms 1700) = Ret h' /\ 0 < numProbesToSend h' /\ SendMode_ h' (ms 1700) = SendPTOAppData.
Proof.
  pose proof (alarm_guards_recovery rand0 0 1280 rtt.NewRTTStats false true PerspectiveClient flight_ops rand0_ok ltac:(lia) ltac:(lia) flight_run_careful
    flight_state flight_run) as [Ha Ht].
  assert (Hw : wants_probing flight_state) by (right; left; split; vm_compute; reflexivity).
  split; [exact flight_run|]. split; [apply Ha; split; [vm_compute; reflexivity|left; right; left; split; vm_compute; reflexivity]|].
  destruct (Ht rand0 (ms 1700)) as (h' & E & Hp & _); [|vm_compute; reflexivity|exact Hw|].
  - split; [exact rand0_ok|]. split; [eexists; split; [reflexivity|vm_compute; reflexivity]|vm_compute; split; (reflexivity || discriminate)].
  - exists h'. split; [exact E|]. split; [exact Hp|]. clear -E. vm_compute in E. injection E as <-. vm_compute. reflexivity.
Defined.

(** ** What goes wrong *)

(** A client has sent its Initial and a 0-RTT packet, and the Initial was
    acknowledged.  Three timeouts later no probe is to be sent; without the
    0-RTT packet, the first one makes the client probe. *)
Definition stall_ops : list op :=
  [sends EncryptionInitial 1000 (crypto 0); sends Encryption0RTT 1001 (data 2 0); OpAck (acks 0 0) EncryptionInitial (ms 1100)].
Definition stalled : recovery := Eval vm_compute in after stall_ops.
Lemma stall_run_careful : careful_run client stall_ops.
Proof. unfold stall_ops. careful_steps. Qed.
Lemma stall_run : run client stall_ops = Ret stalled.
Proof. vm_compute. reflexivity. Qed.

Lemma zero_rtt_stalls_handshake_witness :
  (exists h, run stalled (map (OpTimeout rand0) [ms 1500; ms 2000; ms 2500]) = Ret h /\ numProbesToSend h = 0) /\
  exists h, run client [sends EncryptionInitial 1000 (crypto 0); OpAck (acks 0 0) EncryptionInitial (ms 1100); OpTimeout rand0 (ms 1500)] = Ret h /\
    SendMode_ h (ms 1500) = SendPTOInitial.
Proof.
  split; [|eexists; split; [vm_compute; reflexivity|vm_compute; reflexivity]].
  destruct (zero_rtt_stalls_handshake rand0 0 1280 rtt.NewRTTStats false true PerspectiveClient stall_ops rand0_ok ltac:(lia) ltac:(lia) stall_run_careful
    stalled rand0 [ms 1500; ms 2000; ms 2500] stall_run) as [a Ha]; try (vm_compute; reflexivity || discriminate).
  { intros l s [-> | ->] [= <-]; reflexivity. }
  exists (with_probing stalled (ptoCount stalled) (ptoMode stalled) (numProbesToSend stalled) a). split; [exact Ha|reflexivity].
Defined.

(** A slow path: the timer of a path probe expires a second after it was sent,
    when the PTO is another second away, and the PTO is taken for expired. *)
Theorem path_probe_fires_pto : exists h h',
  run client [sends EncryptionInitial 1000 (crypto 0); OpAck (acks 0 0) EncryptionInitial (ms 2000); OpDrop EncryptionInitial (ms 2000);
              sends EncryptionHandshake 2000 (crypto 1); OpAck (acks 0 0) EncryptionHandshake (ms 3000); OpDrop EncryptionHandshake (ms 3000);
              sends Encryption1RTT 3000 (data 2 0); probes 3001 3] = Ret h /\
  alarm h = alarm_at (ms 4001) TimerTypePathProbe Encryption1RTT /\ ms 5000 < fst (getPTOTimeAndSpace h (ms 4001)) /\
  OnLossDetectionTimeout h rand0 (ms 4001) = Ret h' /\ ptoCount h' = 1 /\ numProbesToSend h' = 2 /\ ptoMode h' = SendPTOAppData.
Proof. eexists _, _. split; [vm_compute; reflexivity|]. split; [vm_compute; reflexivity|]. split; [vm_compute; reflexivity|]. split; [vm_compute; reflexivity|]. done. Qed.

(** The acknowledgement of a path probe is ignored once a later packet was
    acknowledged: the probe's place in the history was never sent, so it is
    lost at once. *)
Theorem probe_ack_ignored : exists h,
  run client (handshake_ops ++ [probes 1300 3; sends Encryption1RTT 1301 (data 2 0);
     OpAck (acks 1 1) Encryption1RTT (ms 1400); OpAck (acks 0 1) Encryption1RTT (ms 1401); OpTimeout rand0 (ms 2300)]) = Ret h /\
  settled (calls h) = [(0%nat, CryptoFrame 0 [1]); (1%nat, CryptoFrame 0 [1]); (2%nat, MaxDataFrame 0); (3%nat, PathChallengeFrame [1])] /\
  last (calls h) = Some (OnLost 3 (PathChallengeFrame [1])).
Proof. eexists. split; [vm_compute; reflexivity|]. done. Qed.

(** A probe of the old path is left after a migration: probes are removed from
    the slice that is iterated over. *)
Theorem migration_keeps_probe : exists h,
  run client (handshake_ops ++ [probes 1300 3; probes 1301 4; probes 1302 5; OpMigrate (ms 1400) 1280]) = Ret h /\
  map fst (pathProbePackets (history (appDataPackets h))) = [1] /\ alarm h = alarm_at (ms 2301) TimerTypePathProbe Encryption1RTT.
Proof. eexists. split; [vm_compute; reflexivity|]. done. Qed.
